(* ===== verification/_CoqProject ===== *)
-Q . S2P
Prelude.v
Intset.v
NumStr.v
Glob.v
LpEntry.v
Listpack.v
Dict.v
DictScan.v
Kvstore.v
Multi.v
Lzf.v
StrObj.v
Rdb.v
Double.v
Zskiplist.v
ZslSpec.v
ZslRange.v
Zset.v
SdsArgs.v
Resp.v
AofManifest.v
Aof.v
AofSafe.v
AofLog.v
AofLogSafe.v
Bitops.v
BitopsSpec.v
BitfieldSpec.v
LpBulk.v
DictIter.v
TSet.v
TSetSpec.v
TSetCmd.v
TSetCmdSpec.v
Quicklist.v
QuicklistSpec.v
QuicklistElems.v
QuicklistOps.v
QuicklistIter.v
QuicklistEdit.v
QuicklistInsert.v
QuicklistReplace.v
QuicklistRange.v
QuicklistMain.v
QuicklistKeep.v
TList.v
TListSpec.v
TListWalk.v
TListCmd.v
TListCmdSpec.v
TListMain.v
