(* ===== verification/Prelude.v ===== *)
(** * A verification of the data structures and the persistence of Redis

    The repository vendors the sources of the Redis server, version 7.4.1, under
    src/redis-stable; file names below are relative to src/redis-stable/src.

    ** The program

    Redis keeps a dataset of keys in memory.  A database is a [kvstore], an array of
    hash tables ([dict]); values are string objects, or collections that have a
    compact encoding while they are small (a sorted integer array, [intset], or a
    packed list, [listpack]) and one of linked nodes when they are large (hash tables,
    skip lists).  Clients send requests that a parser in networking.c reads in
    whatever pieces the network delivers; MULTI, EXEC and WATCH (multi.c) group
    commands into transactions with optimistic locking.  The dataset is made durable by
    snapshots (rdb.c, strings compressed by the LZF code) and by a log of the executed
    commands, the append only files (aof.c), which are rewritten in the background, and
    which a manifest lists.

    ** The files

    This file holds what the others share: integers of fixed width as [Z] with the wrap
    written out, byte buffers, little-endian encodings, the [outcome] type of code that
    may fail an assertion, lemmas on lists and bits, the tactics and the hint databases.

    - NumStr, Glob: integers as text and glob patterns (util.c).
    - SdsArgs: quoting and splitting of command lines (sds.c).
    - Intset: the integer set, on its bytes (intset.c).
    - LpEntry, Listpack, LpBulk: the packed list, on its bytes: entries, single edits,
      and searching, bulk edits, merging and sampling (listpack.c).
    - Dict, DictScan, DictIter: the hash table with incremental rehashing, its cursor
      and its iterators (dict.c).
    - Kvstore: the array of dicts with its index of sizes (kvstore.c), written against
      the class [DictOps] that the hash table implements.
    - Multi: transactions and optimistic locking (multi.c).
    - StrObj: string objects in their three encodings (object.c).
    - Bitops, BitopsSpec, BitfieldSpec: strings as arrays of bits (bitops.c), and the
      proofs for counting, searching and combining bits and for integer fields.
    - Lzf: compression and decompression (lzf_c.c, lzf_d.c).
    - Rdb: lengths and strings in snapshots (rdb.c).
    - Double, Zskiplist, ZslSpec, ZslRange, Zset: sorted sets (t_zset.c), the skip list
      in a store of nodes, its refinement of a sorted list, ranges, and the pairing with
      a dictionary, which is a class with the hash table as an instance.
    - TSet, TSetSpec: set objects as integer sets, packed lists and hash tables, with the
      conversions, and their refinement of finite sets (t_set.c).
    - TSetCmd, TSetCmdSpec: the set commands on a database, and set algebra (t_set.c).
    - Quicklist: lists as chains of listpacks and large elements, compressed away from the
      ends (quicklist.c).  QuicklistSpec: what a chain of nodes represents, and what
      compression may change in it; QuicklistElems: the listpack of a node as texts;
      QuicklistOps: pushes, pops and deletions; QuicklistIter: iterators; QuicklistEdit:
      merging and splitting; QuicklistInsert, QuicklistReplace, QuicklistRange: insertion,
      replacement, ranges and copies; QuicklistMain: the theorems on runs; QuicklistKeep:
      what no operation changes.
    - TList, TListSpec, TListWalk: list objects as packed lists and quicklists, with the
      conversions; their refinement of lists; walks with an iterator (t_list.c).
    - TListCmd, TListCmdSpec, TListMain: the list commands on a database, blocking ones
      included, the same on lists of strings, and the theorems on sessions (t_list.c).
    - Resp: the request parser (networking.c); the permissions of a client are fixed.
    - AofManifest, Aof, AofSafe: the manifest of the append only files, their life
      across rewrites, switches, restarts and crashes, and the proofs (aof.c).
    - AofLog, AofLogSafe: the bytes of a log file, written by the propagation of
      commands and read by the loader, whole or cut (aof.c, server.c).

    Definitions have the names of the functions they translate; a loop of a function is
    a definition of its own.  Pointers into a buffer are offsets, NULL is [None], a
    failed assertion is [Abort], an error code is a value of a sum, an option or an
    inductive type.  Where a theorem is about accesses to memory (the request parser, the
    decompressor, tables, chains, skip lists, fields of bits, iterators) every access is
    checked and one outside is [Abort]; elsewhere an access that the code's own invariant
    keeps inside is read with a default, and the refinement theorem says that the value
    read is the right one.

    ** The theorems

    Refinement: intsets are sets of integers, listpacks are lists, a dict is a finite
    map that rehashing does not change, a kvstore an array of maps, a skip list a
    sorted list, a sorted set a map from elements to scores with its ranks, a set object
    a finite set in all its encodings, a quicklist a list of strings at every fill factor
    and depth of compression, the list and set commands are operations on lists and set
    algebra, and transactions behave as an ideal optimistic lock for every client.  Each operation
    preserves the invariant of its representation, on the bytes or in the store.

    Round trips: integers and text, listpack entries, snapshot strings, compression,
    quoting, the manifest, and the log of commands, with what is loaded from any
    start of it.

    Safety on hostile input: the decompressor reads and writes only inside its buffers; the
    request parser reads its query buffer, up to the NUL after it, and writes its argument
    vector only inside; the integrity checks accept only what can be walked; requests do not
    depend on how they are cut into reads.

    Durability: under the conditions below, at every state of the disk the append only
    files load as the dataset less the commands not yet written, across rewrites, failures
    and crashes.

    Equivalence with a reference definition: glob matching against a grammar of patterns, the encodings of string
    objects, bit counting, searching and combining by words against the sequence of
    bits.  Bounds: the overflow policies of integer fields of any width.  Termination:
    scanning, rehashing, iterating, and every loop that is given fuel.

    Faults: where the code does not do what it means to, a theorem says when
    ([bitfield_faults], [non_empty_dicts_overcounts] and, for any key, [list_faults]) or
    exhibits runs ([aof_faults], [aof_log_faults], [safe_iterator_fault],
    [expired_watch_hides_touch], [rotate_plain_breaks]); the theorems about the same
    components state the conditions that exclude them.

    The specifications of patterns, words and options of commands, ranges and subcommands
    are readings of their own, to which the code is compared; integers in text are read with
    [string2ll], which accepts exactly what [repr] prints.

    ** Bounds and fuel

    Loops whose recursion is not structural take a fuel computed from their input (the
    length of a buffer, the number of entries, of levels or of bits); running out of it
    is [Abort], which the theorems exclude.  Integers are wrapped at the width of their
    C type where the code can reach it; counters of live allocations are unbounded, and so
    is the 15-bit counter of the pauses of a dict, one for each iterator that is running.
    The host is little-endian with 64-bit pointers and [long]s.

    ** Conditions of the durability theorems

    A write leaves whole commands.  No sync of the directory fails after a manifest was
    renamed; the buffer is wholly written before a fork while the log is on; a switch of the
    log does not schedule a rewrite while a child runs; a restart meets no history files and
    no file under the first name when its manifest lists no incremental file; file names
    need no quotes; the numbers of the files do not reach the width of their type; there is no
    log of an older version to upgrade.  The log theorems are for aof-load-truncated yes with
    calls that succeed, and units whose commands the default user may run, of sizes the
    allocator provides.

    ** Conditions of the sorted set, set and bit field theorems

    Removals by element range are made while all scores are equal, ends of score ranges are
    numbers, ranks fit 32 bits, and the hash table may be resized.  Fewer than 2^31 members
    are added to sets in all.  A bit offset is below 2^63, and a signed SET under SAT is not
    so far below its field that the difference overflows.

    ** Conditions of the list theorems

    list-max-listpack-size is at least -4, as the documentation recommends; a command
    pushes at most 32768 values; lists stay below 2^31 elements; the index of LSET fits an
    [int]; the number of keys of LMPOP and BLMPOP is below 2^63 - 3.  Keys are not
    expired, and what a blocked client does once it is served is not part of the model.

    ** Not modelled

    The execution of most commands, replication, cluster mode, sentinel, modules,
    scripts, access control, the event loop and connections, the allocator, and the
    command line tools; random members and scans of sets; the small encodings of sorted
    sets and hashes; radix trees, streams and HyperLogLog; the bookmarks of
    quicklists.  Parameters stand for
    what the modelled parts call of these: command execution, hash functions, random
    numbers, addresses the allocator returns, system calls.  The web application of the
    repository, in Python, and the libraries under deps are left out. *)
From Stdlib Require Export ZArith Lia Bool.
From stdpp Require Export base tactics numbers list option strings gmap.

#[global] Set Default Goal Selector "!".
#[export] Set Default Proof Using "Type".
#[global] Open Scope Z_scope.

(** ** Fixed-width integers *)

(** The value a [w]-bit unsigned object holds after [z] is stored in it. *)
Definition wrap (w z : Z) : Z := z mod 2 ^ w.

(** The value a [w]-bit two's complement object holds after [z] is stored. *)
Definition swrap (w z : Z) : Z := (z + 2 ^ (w - 1)) mod 2 ^ w - 2 ^ (w - 1).

Definition in_u (w z : Z) : Prop := 0 <= z < 2 ^ w.
Definition in_s (w z : Z) : Prop := - 2 ^ (w - 1) <= z < 2 ^ (w - 1).

Abbreviation u8 := (wrap 8).
Abbreviation u16 := (wrap 16).
Abbreviation u32 := (wrap 32).
Abbreviation u64 := (wrap 64).
Abbreviation s8 := (swrap 8).
Abbreviation s16 := (swrap 16).
Abbreviation s32 := (swrap 32).
Abbreviation s64 := (swrap 64).

Lemma pow2_pos w : 0 <= w -> 0 < 2 ^ w.
Proof. intros. apply Z.pow_pos_nonneg; lia. Qed.

Lemma wrap_range w z : 0 <= w -> in_u w (wrap w z).
Proof. intros. unfold wrap, in_u. apply Z.mod_pos_bound, pow2_pos. done. Qed.

Lemma wrap_small w z : in_u w z -> wrap w z = z.
Proof. unfold wrap, in_u. apply Z.mod_small. Qed.

Lemma wrap_wrap w z : wrap w (wrap w z) = wrap w z.
Proof. apply Zmod_mod. Qed.

Lemma swrap_small w z : 0 < w -> in_s w z -> swrap w z = z.
Proof.
  unfold swrap, in_s. intros Hw Hz.
  assert (2 ^ w = 2 * 2 ^ (w - 1)) as E.
  { rewrite <- Z.pow_succ_r by lia. f_equal. lia. }
  rewrite Z.mod_small by lia. lia.
Qed.

Lemma swrap_range w z : 0 < w -> in_s w (swrap w z).
Proof.
  unfold swrap, in_s. intros Hw.
  assert (2 ^ w = 2 * 2 ^ (w - 1)) as E.
  { rewrite <- Z.pow_succ_r by lia. f_equal. lia. }
  pose proof (Z.mod_pos_bound (z + 2 ^ (w - 1)) (2 ^ w) (pow2_pos w ltac:(lia))).
  lia.
Qed.

Lemma swrap_wrap w z : swrap w (wrap w z) = swrap w z.
Proof. unfold swrap, wrap. rewrite Zplus_mod_idemp_l. done. Qed.

(** ** Byte buffers *)

(** A buffer is the list of its bytes.  [load] is the copy of a range out of a
    buffer, [store] the overwrite of a range, [memmove] the C library call
    (the source range is read before the destination is written). *)
Definition load (b : list Z) (off n : nat) : list Z := take n (drop off b).
Definition store (b : list Z) (off : nat) (bs : list Z) : list Z :=
  take off b ++ bs ++ drop (off + length bs) b.
Definition memmove (b : list Z) (dst src n : nat) : list Z :=
  store b dst (load b src n).

(** [zrealloc]: the common prefix is kept, the bytes past the old end are
    indeterminate.  [fresh] stands for what the allocator leaves there. *)
Definition realloc (fresh : nat -> Z) (b : list Z) (n : nat) : list Z :=
  take n b ++ map (fun i => u8 (fresh i)) (seq (length b) (n - length b)).

Definition is_byte (z : Z) : Prop := in_u 8 z.
Abbreviation bytes := (Forall is_byte).

Lemma load_lookup b off n i :
  load b off n !! i = if decide (i < n)%nat then b !! (off + i)%nat else None.
Proof.
  unfold load. case_decide.
  - rewrite lookup_take_lt, lookup_drop by lia. done.
  - apply lookup_take_ge. lia.
Qed.

Lemma length_load b off n :
  (off + n <= length b)%nat -> length (load b off n) = n.
Proof. intros. unfold load. rewrite length_take, length_drop. lia. Qed.

Lemma length_store b off bs :
  (off + length bs <= length b)%nat -> length (store b off bs) = length b.
Proof.
  intros. unfold store. rewrite !length_app, length_take, length_drop. lia.
Qed.

Lemma store_lookup b off bs i :
  (off + length bs <= length b)%nat ->
  store b off bs !! i =
    if decide (off <= i < off + length bs)%nat then bs !! (i - off)%nat else b !! i.
Proof.
  intros. unfold store. case_decide.
  - rewrite lookup_app_r; rewrite length_take; [|lia].
    rewrite lookup_app_l by lia. f_equal. lia.
  - destruct (decide (i < off)%nat).
    + rewrite lookup_app_l by (rewrite length_take; lia).
      apply lookup_take_lt. lia.
    + rewrite lookup_app_r; rewrite length_take; [|lia].
      rewrite lookup_app_r by lia. rewrite lookup_drop. f_equal. lia.
Qed.

Lemma load_store_same b off bs :
  (off + length bs <= length b)%nat -> load (store b off bs) off (length bs) = bs.
Proof.
  intros. apply list_eq. intros i. rewrite load_lookup.
  case_decide.
  - rewrite store_lookup by done. rewrite decide_True by lia. f_equal. lia.
  - symmetry. apply lookup_ge_None. lia.
Qed.

Lemma load_store_disj b off bs off' n :
  (off + length bs <= length b)%nat ->
  (off' + n <= off \/ off + length bs <= off')%nat ->
  load (store b off bs) off' n = load b off' n.
Proof.
  intros. apply list_eq. intros i. rewrite !load_lookup.
  case_decide; [|done].
  rewrite store_lookup by done. rewrite decide_False by lia. done.
Qed.

Lemma load_load b off n off' n' :
  (off' + n' <= n)%nat -> load (load b off n) off' n' = load b (off + off') n'.
Proof.
  intros. apply list_eq. intros i. rewrite !load_lookup.
  case_decide; [|done]. rewrite decide_True by lia. f_equal. lia.
Qed.

Lemma load_store_in b off bs off' n :
  (off + length bs <= length b)%nat ->
  (off <= off')%nat -> (off' + n <= off + length bs)%nat ->
  load (store b off bs) off' n = load bs (off' - off) n.
Proof.
  intros. apply list_eq. intros i. rewrite !load_lookup.
  case_decide; [|done].
  rewrite store_lookup by done. rewrite decide_True by lia. f_equal. lia.
Qed.

Lemma length_memmove b dst src n :
  (dst + n <= length b)%nat -> (src + n <= length b)%nat ->
  length (memmove b dst src n) = length b.
Proof. intros. apply length_store. rewrite length_load; lia. Qed.

Lemma load_memmove_in b dst src n off k :
  (dst + n <= length b)%nat -> (src + n <= length b)%nat ->
  (dst <= off)%nat -> (off + k <= dst + n)%nat ->
  load (memmove b dst src n) off k = load b (src + (off - dst)) k.
Proof.
  intros. unfold memmove. rewrite load_store_in; rewrite ?length_load; try lia.
  rewrite load_load by lia. done.
Qed.

Lemma load_memmove_out b dst src n off k :
  (dst + n <= length b)%nat -> (src + n <= length b)%nat ->
  (off + k <= dst \/ dst + n <= off)%nat ->
  load (memmove b dst src n) off k = load b off k.
Proof. intros. apply load_store_disj; rewrite length_load; lia. Qed.

Lemma length_realloc fresh b n : length (realloc fresh b n) = n.
Proof.
  unfold realloc. rewrite length_app, length_take, length_map, length_seq. lia.
Qed.

Lemma load_realloc fresh b n off k :
  (off + k <= n)%nat -> (off + k <= length b)%nat ->
  load (realloc fresh b n) off k = load b off k.
Proof.
  intros. apply list_eq. intros i. rewrite !load_lookup.
  case_decide; [|done]. unfold realloc.
  rewrite lookup_app_l by (rewrite length_take; lia).
  apply lookup_take_lt. lia.
Qed.

Lemma bytes_store b off bs : bytes b -> bytes bs -> bytes (store b off bs).
Proof.
  intros. unfold store.
  apply Forall_app; split; [by apply Forall_take|].
  apply Forall_app; split; [done|by apply Forall_drop].
Qed.

Lemma bytes_load b off n : bytes b -> bytes (load b off n).
Proof. intros. unfold load. by apply Forall_take, Forall_drop. Qed.

Lemma bytes_realloc fresh b n : bytes b -> bytes (realloc fresh b n).
Proof.
  intros. unfold realloc. apply Forall_app; split; [by apply Forall_take|].
  apply Forall_map, Forall_forall. intros. by apply wrap_range.
Qed.

(** ** Little-endian integers *)

(** [le_encode n z]: the [n] bytes a little-endian machine stores for the low
    [8 * n] bits of [z]; [le_decode] reads them back as an unsigned number. *)
Fixpoint le_encode (n : nat) (z : Z) : list Z :=
  match n with
  | O => []
  | S n' => z mod 256 :: le_encode n' (z / 256)
  end.

Fixpoint le_decode (b : list Z) : Z :=
  match b with
  | [] => 0
  | x :: b' => x + 256 * le_decode b'
  end.

Lemma length_le_encode n z : length (le_encode n z) = n.
Proof. revert z. induction n; intros; simpl; auto. Qed.

Lemma bytes_le_encode n z : bytes (le_encode n z).
Proof.
  revert z. induction n; intros; simpl; constructor; auto.
  unfold is_byte, in_u. apply Z.mod_pos_bound. lia.
Qed.

Lemma pow_8S n : 2 ^ (8 * Z.of_nat (S n)) = 256 * 2 ^ (8 * Z.of_nat n).
Proof. replace (8 * Z.of_nat (S n)) with (8 + 8 * Z.of_nat n) by lia.
  rewrite Z.pow_add_r by lia. done. Qed.

Lemma le_decode_encode n z : le_decode (le_encode n z) = wrap (8 * Z.of_nat n) z.
Proof.
  unfold wrap. revert z. induction n; intros z; cbn [le_encode le_decode].
  - rewrite Z.mod_1_r. done.
  - rewrite IHn, pow_8S, Z.rem_mul_r; lia.
Qed.

Lemma le_decode_range b : bytes b -> in_u (8 * Z.of_nat (length b)) (le_decode b).
Proof.
  unfold in_u. induction 1 as [|x b Hx Hb IH]; cbn [le_decode length].
  - lia.
  - rewrite pow_8S. unfold is_byte, in_u in Hx. change (2 ^ 8) with 256 in Hx. lia.
Qed.

Lemma le_encode_decode b : bytes b -> le_encode (length b) (le_decode b) = b.
Proof.
  induction 1 as [|x b Hx Hb IH]; cbn [le_decode le_encode length]; [done|].
  unfold is_byte, in_u in Hx. change (2 ^ 8) with 256 in Hx.
  replace (x + 256 * le_decode b) with (x + le_decode b * 256) by lia.
  rewrite Z.mod_add, Z.mod_small, Z.div_add, Z.div_small by lia.
  rewrite Z.add_0_l, IH. done.
Qed.

(** ** Automation *)

(** Splits a disjunction of comparisons decided by boolean tests. *)
Ltac zbool :=
  repeat match goal with
  | H : (_ <? _) = true |- _ => apply Z.ltb_lt in H
  | H : (_ <? _) = false |- _ => apply Z.ltb_ge in H
  | H : (_ <=? _) = true |- _ => apply Z.leb_le in H
  | H : (_ <=? _) = false |- _ => apply Z.leb_gt in H
  | H : (_ =? _) = true |- _ => apply Z.eqb_eq in H
  | H : (_ =? _) = false |- _ => apply Z.eqb_neq in H
  | H : (_ && _) = true |- _ => apply andb_true_iff in H; destruct H
  | H : (_ || _) = false |- _ => apply orb_false_iff in H; destruct H
  | H : negb _ = true |- _ => apply negb_true_iff in H
  | H : negb _ = false |- _ => apply negb_false_iff in H
  end.

Ltac case_bool :=
  match goal with
  | |- context [Z.ltb ?a ?b] => destruct (Z.ltb_spec a b)
  | |- context [Z.leb ?a ?b] => destruct (Z.leb_spec a b)
  | |- context [Z.eqb ?a ?b] => destruct (Z.eqb_spec a b)
  end.

Create HintDb width.
Create Rewrite HintDb width.
#[export] Hint Resolve wrap_range swrap_range bytes_store bytes_load
  bytes_realloc bytes_le_encode : width.
#[export] Hint Rewrite length_le_encode length_realloc : width.

(** [lia] with the defining equations of the divisions and remainders. *)
Ltac zdiv := Z.to_euclidean_division_equations; lia.

(** ** Characters *)

(** The bytes of a string literal. *)
Definition chars (s : string) : list Z :=
  map (fun c => Z.of_N (Ascii.N_of_ascii c)) (String.list_ascii_of_string s).

(** ['0'] *)
Definition ch0 : Z := 48.

Lemma store_nil b off : store b off [] = b.
Proof. unfold store. simpl. rewrite Nat.add_0_r. apply take_drop. Qed.

(** Adjacent stores are one store, whichever is made first. *)
Lemma store_app b off bs1 bs2 :
  (off + length bs1 + length bs2 <= length b)%nat ->
  store (store b (off + length bs1) bs2) off bs1 = store b off (bs1 ++ bs2).
Proof.
  intros H. apply list_eq. intros i.
  rewrite !store_lookup; rewrite ?length_app, ?length_store; try lia.
  repeat case_decide; try lia; try done.
  - rewrite lookup_app_l by lia. done.
  - rewrite lookup_app_r by lia. f_equal. lia.
Qed.

(** ** Bit fields *)

(** A bounded integer property decided by enumeration. *)
Lemma range_check (f : Z -> bool) (n : nat) :
  forallb f (map Z.of_nat (seq 0 n)) = true ->
  forall x, 0 <= x < Z.of_nat n -> f x = true.
Proof.
  intros H x Hx. rewrite forallb_forall in H. apply H.
  apply in_map_iff. exists (Z.to_nat x). split; [lia|]. apply in_seq. lia.
Qed.

Lemma land_shiftl_0 a b k : 0 <= k -> 0 <= a < 2 ^ k -> Z.land a (Z.shiftl b k) = 0.
Proof.
  intros Hk Ha. apply Z.bits_inj'. intros n Hn. rewrite Z.land_spec, Z.bits_0.
  destruct (Z.lt_ge_cases n k).
  - rewrite (Z.shiftl_spec_low b k n) by lia. apply andb_false_r.
  - rewrite <- (Z.mod_small a (2 ^ k)), Z.mod_pow2_bits_high by lia. done.
Qed.

(** Fields that do not overlap: "or" is addition. *)
Lemma lor_shiftl a b k : 0 <= k -> 0 <= a < 2 ^ k -> Z.lor a (Z.shiftl b k) = a + b * 2 ^ k.
Proof.
  intros Hk Ha. rewrite <- Z.lxor_lor, <- Z.add_nocarry_lxor by (by apply land_shiftl_0).
  rewrite Z.shiftl_mul_pow2 by lia. done.
Qed.

Lemma land_mask z k : 0 <= k -> Z.land z (2 ^ k - 1) = z mod 2 ^ k.
Proof. intros. rewrite <- Z.land_ones by lia. by rewrite Z.ones_equiv, Z.sub_1_r. Qed.

Lemma ones_pow2 n : 2 ^ n - 1 = Z.ones n.
Proof. rewrite Z.ones_equiv. lia. Qed.

(** Words as bit vectors. *)
Lemma in_u_bits w z : 0 <= w -> (forall i, w <= i -> Z.testbit z i = false) -> in_u w z.
Proof.
  intros Hw Hb. replace z with (z mod 2 ^ w); [by apply wrap_range|].
  apply Z.bits_inj'. intros i Hi. destruct (Z.lt_ge_cases i w).
  - by rewrite Z.mod_pow2_bits_low.
  - by rewrite Z.mod_pow2_bits_high, Hb by lia.
Qed.

Lemma testbit_above w z i : in_u w z -> w <= i -> Z.testbit z i = false.
Proof.
  intros Hz Hi. unfold in_u in Hz. destruct (Z.lt_ge_cases w 0).
  { rewrite Z.pow_neg_r in Hz by lia. lia. }
  rewrite <- (Z.mod_small z (2 ^ w)) by lia. apply Z.mod_pow2_bits_high. lia.
Qed.

Lemma word_ext w a b : in_u w a -> in_u w b ->
  (forall i, 0 <= i < w -> Z.testbit a i = Z.testbit b i) -> a = b.
Proof.
  intros Ha Hb H. apply Z.bits_inj'. intros i Hi. destruct (Z.lt_ge_cases i w); [by apply H|].
  by rewrite !(testbit_above w) by done.
Qed.

Lemma land_255 z : Z.land z 255 = z mod 256.
Proof. apply (land_mask z 8). lia. Qed.

Lemma land_127 z : Z.land z 127 = z mod 128.
Proof. apply (land_mask z 7). lia. Qed.

(** ** Reading at an offset *)

(** [b[p]] *)
Definition at_ (b : list Z) (p : nat) : Z := nth p b 0.

(** The buffer holds the bytes [bs] at offset [p]. *)
Definition has (b : list Z) (p : nat) (bs : list Z) : Prop := load b p (length bs) = bs.

Lemma has_at b p bs k : has b p bs -> (k < length bs)%nat -> at_ b (p + k) = nth k bs 0.
Proof.
  unfold has, at_. intros H Hk.
  replace (nth k bs 0) with (nth k (load b p (length bs)) 0) by (by rewrite H).
  rewrite !nth_lookup, load_lookup, decide_True by done. done.
Qed.

Lemma has_bound b p bs : has b p bs -> bs <> [] -> (p + length bs <= length b)%nat.
Proof.
  unfold has, load. intros H Hne. apply (f_equal length) in H.
  rewrite length_take, length_drop in H.
  assert (length bs <> 0%nat) by (by destruct bs). lia.
Qed.

Lemma has_app b p l1 l2 : has b p (l1 ++ l2) <-> has b p l1 /\ has b (p + length l1) l2.
Proof.
  unfold has. split.
  - rewrite length_app. intros H. split.
    + apply (f_equal (fun l => load l 0 (length l1))) in H. rewrite load_load in H by lia.
      rewrite Nat.add_0_r in H. rewrite H. unfold load. rewrite drop_0.
      by apply take_app_length.
    + apply (f_equal (fun l => load l (length l1) (length l2))) in H.
      rewrite load_load in H by lia. rewrite H. unfold load.
      rewrite drop_app_length. apply firstn_all.
  - intros [H1 H2]. rewrite length_app. unfold load in *.
    rewrite <- H1 at 2. rewrite <- H2 at 2. rewrite <- drop_drop.
    symmetry. apply take_take_drop.
Qed.

Lemma has_middle l1 bs l2 : has (l1 ++ bs ++ l2) (length l1) bs.
Proof. unfold has, load. rewrite drop_app_length. by apply take_app_length. Qed.

Lemma store_middle l1 g l2 bs : length g = length bs ->
  store (l1 ++ g ++ l2) (length l1) bs = l1 ++ bs ++ l2.
Proof.
  intros E. unfold store. rewrite take_app_length. f_equal. f_equal.
  rewrite <- E, <- length_app, app_assoc. apply drop_app_length.
Qed.

(** Two stores that abut, the left one first. *)
Lemma store_store_app b off bs1 bs2 :
  (off + length bs1 + length bs2 <= length b)%nat ->
  store (store b off bs1) (off + length bs1) bs2 = store b off (bs1 ++ bs2).
Proof.
  intros H. apply list_eq. intros i.
  rewrite !store_lookup; rewrite ?length_app, ?length_store; try lia.
  repeat case_decide; try lia; try done.
  - rewrite lookup_app_r by lia. f_equal. lia.
  - rewrite lookup_app_l by lia. done.
Qed.

(** A [memmove] of the middle of a buffer to another place past a kept prefix. *)
Lemma memmove_middle h o m s k :
  (length h + k + length m <= length (h ++ o ++ m ++ s))%nat ->
  exists g t, memmove (h ++ o ++ m ++ s) (length h + k) (length h + length o) (length m)
              = h ++ g ++ m ++ t /\ length g = k.
Proof.
  intros H. unfold memmove.
  replace (load _ _ _) with m.
  2:{ rewrite <- length_app, app_assoc. symmetry. apply has_middle. }
  unfold store. set (b := h ++ o ++ m ++ s) in *.
  exists (drop (length h) (take (length h + k) b)), (drop (length h + k + length m) b). split.
  - rewrite (app_assoc h). f_equal. rewrite <- (take_drop (length h) (take (length h + k) b)) at 1.
    f_equal. rewrite take_take, Nat.min_l by lia. unfold b. apply take_app_length.
  - rewrite length_drop, length_take. lia.
Qed.

Lemma realloc_prefix fresh l t n : (length l <= n)%nat ->
  exists t', realloc fresh (l ++ t) n = l ++ t'.
Proof.
  intros H. unfold realloc. rewrite take_app_ge by lia. rewrite <- app_assoc. eauto.
Qed.

(** ** Assertions *)

(** The result of code that may fail an [assert]. *)
Inductive outcome (A : Type) : Type := Abort | Ret (a : A).
Arguments Abort {A}.
Arguments Ret {A} a.

Definition obind {A B} (m : outcome A) (f : A -> outcome B) : outcome B :=
  match m with Abort => Abort | Ret a => f a end.

Declare Scope outcome_scope.
Delimit Scope outcome_scope with outcome.
Notation "'let*' x ':=' m 'in' k" := (obind m (fun x => k))
  (at level 10, x pattern, m at level 100, k at level 200) : outcome_scope.
#[global] Open Scope outcome_scope.
