(* ===== verification/Intset.v ===== *)
(** * Intset: the sorted integer set of intset.c

    [Intset.t] is [struct intset]: the encoding, the length and the bytes of
    the flexible array [contents].  The model is of a little-endian host, where
    the [memrevXXifbe] calls are no-ops.  Element access goes through the raw
    bytes, so the in-place upgrade of [intsetUpgradeAndAdd] and the overlapping
    [memmove] of [intsetMoveTail] happen on one shared buffer. *)
From S2P Require Import Prelude.

Module Intset.

Record t := Mk { encoding : Z; len : Z; contents : list Z }.

Definition INTSET_ENC_INT16 : Z := 2.
Definition INTSET_ENC_INT32 : Z := 4.
Definition INTSET_ENC_INT64 : Z := 8.
Definition INT16_MIN : Z := - 2 ^ 15.
Definition INT16_MAX : Z := 2 ^ 15 - 1.
Definition INT32_MIN : Z := - 2 ^ 31.
Definition INT32_MAX : Z := 2 ^ 31 - 1.

Definition set_encoding (s : t) (e : Z) : t := Mk e (len s) (contents s).
Definition set_len (s : t) (n : Z) : t := Mk (encoding s) n (contents s).
Definition set_contents (s : t) (b : list Z) : t := Mk (encoding s) (len s) b.

Definition _intsetValueEncoding (v : Z) : Z :=
  if (v <? INT32_MIN) || (INT32_MAX <? v) then INTSET_ENC_INT64
  else if (v <? INT16_MIN) || (INT16_MAX <? v) then INTSET_ENC_INT32
  else INTSET_ENC_INT16.

Definition _intsetGetEncoded (s : t) (pos enc : Z) : Z :=
  if enc =? INTSET_ENC_INT64 then
    s64 (le_decode (load (contents s) (Z.to_nat (pos * 8)) 8))
  else if enc =? INTSET_ENC_INT32 then
    s32 (le_decode (load (contents s) (Z.to_nat (pos * 4)) 4))
  else
    s16 (le_decode (load (contents s) (Z.to_nat (pos * 2)) 2)).

Definition _intsetGet (s : t) (pos : Z) : Z :=
  _intsetGetEncoded s pos (encoding s).

Definition _intsetSet (s : t) (pos value : Z) : t :=
  if encoding s =? INTSET_ENC_INT64 then
    set_contents s (store (contents s) (Z.to_nat (pos * 8)) (le_encode 8 value))
  else if encoding s =? INTSET_ENC_INT32 then
    set_contents s (store (contents s) (Z.to_nat (pos * 4)) (le_encode 4 value))
  else
    set_contents s (store (contents s) (Z.to_nat (pos * 2)) (le_encode 2 value)).

Definition intsetNew : t := Mk INTSET_ENC_INT16 0 [].

(** The loop of [intsetSearch]: the state is (min, max, mid, cur). *)
Fixpoint intsetSearch_loop (fuel : nat) (s : t) (value min max mid cur : Z)
  : Z * Z * Z :=
  match fuel with
  | O => (min, mid, cur)
  | S fuel' =>
      if min <=? max then
        let mid := Z.shiftr (u32 (u32 min + u32 max)) 1 in
        let cur := _intsetGet s mid in
        if cur <? value then intsetSearch_loop fuel' s value (mid + 1) max mid cur
        else if value <? cur then intsetSearch_loop fuel' s value min (mid - 1) mid cur
        else (min, mid, cur)
      else (min, mid, cur)
  end.

(** Returns (found, pos).  One iteration per element always suffices, see
    [intsetSearch_loop_spec]. *)
Definition intsetSearch (s : t) (value : Z) : bool * Z :=
  let max := len s - 1 in
  if len s =? 0 then (false, 0)
  else if _intsetGet s max <? value then (false, len s)
  else if value <? _intsetGet s 0 then (false, 0)
  else
    let '(min, mid, cur) :=
      intsetSearch_loop (Z.to_nat (len s)) s value 0 max (-1) (-1) in
    if value =? cur then (true, mid) else (false, min).

Definition intsetMoveTail (s : t) (from to : Z) : t :=
  let count := u32 (len s - from) in
  let '(src, dst, bytes) :=
    if encoding s =? INTSET_ENC_INT64 then (from * 8, to * 8, u32 (count * 8))
    else if encoding s =? INTSET_ENC_INT32 then (from * 4, to * 4, u32 (count * 4))
    else (from * 2, to * 2, u32 (count * 2)) in
  set_contents s (memmove (contents s) (Z.to_nat dst) (Z.to_nat src) (Z.to_nat bytes)).

Definition intsetFind (s : t) (value : Z) : bool :=
  (_intsetValueEncoding value <=? encoding s) && fst (intsetSearch s value).

Definition intsetMax (s : t) : Z := _intsetGet s (len s - 1).
Definition intsetMin (s : t) : Z := _intsetGet s 0.

(** [None] is the failing assertion; [r] is the value of [rand()]. *)
Definition intsetRandom (s : t) (r : Z) : option Z :=
  if len s =? 0 then None else Some (_intsetGet s (r mod len s)).

Definition intsetGet (s : t) (pos : Z) : option Z :=
  if pos <? len s then Some (_intsetGet s pos) else None.

Definition intsetLen (s : t) : Z := len s.
Definition intsetBlobLen (s : t) : Z := 8 + len s * encoding s.

Section Alloc.
(** What [zrealloc] leaves in the bytes past the old end. *)
Context (fresh : nat -> Z).

Definition intsetResize (s : t) (n : Z) : t :=
  set_contents s (realloc fresh (contents s) (Z.to_nat (u32 n * encoding s))).

(** [while(length--) _intsetSet(is,length+prepend,_intsetGetEncoded(is,length,curenc))] *)
Fixpoint upgrade_loop (length : nat) (s : t) (prepend curenc : Z) : t :=
  match length with
  | O => s
  | S l =>
      upgrade_loop l
        (_intsetSet s (Z.of_nat l + prepend)
           (_intsetGetEncoded s (Z.of_nat l) curenc)) prepend curenc
  end.

Definition intsetUpgradeAndAdd (s : t) (value : Z) : t :=
  let curenc := encoding s in
  let newenc := _intsetValueEncoding value in
  let length := len s in
  let prepend := if value <? 0 then 1 else 0 in
  let s := set_encoding s newenc in
  let s := intsetResize s (u32 (len s + 1)) in
  let s := upgrade_loop (Z.to_nat length) s prepend curenc in
  let s := if prepend =? 1 then _intsetSet s 0 value
            else _intsetSet s (len s) value in
  set_len s (u32 (len s + 1)).

(** Returns the set and the success flag. *)
Definition intsetAdd (s : t) (value : Z) : t * bool :=
  let valenc := _intsetValueEncoding value in
  if encoding s <? valenc then (intsetUpgradeAndAdd s value, true)
  else
    let '(found, pos) := intsetSearch s value in
    if found then (s, false)
    else
      let s := intsetResize s (u32 (len s + 1)) in
      let s := if pos <? len s then intsetMoveTail s pos (u32 (pos + 1)) else s in
      let s := _intsetSet s pos value in
      (set_len s (u32 (len s + 1)), true).

Definition intsetRemove (s : t) (value : Z) : t * bool :=
  let valenc := _intsetValueEncoding value in
  let '(found, pos) := intsetSearch s value in
  if (valenc <=? encoding s) && found then
    let n := len s in
    let s := if pos <? u32 (n - 1) then intsetMoveTail s (u32 (pos + 1)) pos else s in
    let s := intsetResize s (u32 (n - 1)) in
    (set_len s (u32 (n - 1)), true)
  else (s, false).
End Alloc.

(** The [struct intset] view of a serialized blob. *)
Definition of_blob (p : list Z) : t :=
  Mk (le_decode (load p 0 4)) (le_decode (load p 4 4)) (drop 8 p).

Definition to_blob (s : t) : list Z :=
  le_encode 4 (encoding s) ++ le_encode 4 (len s) ++ contents s.

Fixpoint validate_loop (n : nat) (s : t) (i prev : Z) : bool :=
  match n with
  | O => true
  | S n' =>
      let cur := _intsetGet s i in
      if cur <=? prev then false else validate_loop n' s (i + 1) cur
  end.

Definition intsetValidateIntegrity (p : list Z) (size : Z) (deep : bool) : bool :=
  if size <? 8 then false
  else
    let s := of_blob p in
    let encoding := encoding s in
    if negb ((encoding =? INTSET_ENC_INT64) || (encoding =? INTSET_ENC_INT32)
             || (encoding =? INTSET_ENC_INT16)) then false
    else
      let record_size := encoding in
      let count := len s in
      if negb (8 + count * record_size =? size) then false
      else if count =? 0 then false
      else if negb deep then true
      else validate_loop (Z.to_nat count - 1) s 1 (_intsetGet s 0).

(** ** Representation invariant *)

Definition valid_enc (e : Z) : Prop := e = 2 \/ e = 4 \/ e = 8.

(** The elements, in array order. *)
Definition elements (s : t) : list Z :=
  map (fun i => _intsetGet s (Z.of_nat i)) (seq 0 (Z.to_nat (len s))).

Record wf (s : t) : Prop := {
  wf_enc : valid_enc (encoding s);
  wf_len : 0 <= len s;
  wf_fits : len s * encoding s < 2 ^ 32;
  wf_size : Z.of_nat (length (contents s)) = len s * encoding s;
  wf_sorted : forall i j, 0 <= i < j -> j < len s -> _intsetGet s i < _intsetGet s j
}.

(** ** Element access *)

Lemma getEncoded_alt s pos e : valid_enc e ->
  _intsetGetEncoded s pos e =
    swrap (8 * e) (le_decode (load (contents s) (Z.to_nat (pos * e)) (Z.to_nat e))).
Proof. intros [->|[->| ->]]; reflexivity. Qed.

Lemma set_alt s pos v : valid_enc (encoding s) ->
  _intsetSet s pos v =
    set_contents s (store (contents s) (Z.to_nat (pos * encoding s))
                      (le_encode (Z.to_nat (encoding s)) v)).
Proof. destruct s as [e n b]; simpl. intros [->|[->| ->]]; reflexivity. Qed.

Lemma moveTail_alt s from to : valid_enc (encoding s) ->
  intsetMoveTail s from to =
    set_contents s
      (memmove (contents s) (Z.to_nat (to * encoding s)) (Z.to_nat (from * encoding s))
         (Z.to_nat (u32 (u32 (len s - from) * encoding s)))).
Proof. destruct s as [e n b]; simpl. intros [->|[->| ->]]; reflexivity. Qed.

Lemma get_swrap_range s pos e : valid_enc e -> in_s (8 * e) (_intsetGetEncoded s pos e).
Proof. intros H. rewrite getEncoded_alt by done. apply swrap_range. unfold valid_enc in H. lia. Qed.

Lemma valueEncoding_valid v : valid_enc (_intsetValueEncoding v).
Proof.
  unfold _intsetValueEncoding, valid_enc.
  destruct (_ || _); [right; right; done|]. destruct (_ || _); auto.
Qed.

Lemma valueEncoding_le v e : valid_enc e -> in_s 64 v ->
  _intsetValueEncoding v <= e <-> in_s (8 * e) v.
Proof.
  unfold _intsetValueEncoding, in_s, INT32_MIN, INT32_MAX, INT16_MIN, INT16_MAX,
    INTSET_ENC_INT16, INTSET_ENC_INT32, INTSET_ENC_INT64.
  intros [->|[->| ->]]; simpl; intros; repeat case_bool; simpl; lia.
Qed.

Section Access.
Context (s : t) (e : Z) (He : valid_enc e).

Lemma get_store_same b pos v :
  0 <= pos -> (pos + 1) * e <= Z.of_nat (length b) -> in_s (8 * e) v ->
  _intsetGetEncoded
    (set_contents s (store b (Z.to_nat (pos * e)) (le_encode (Z.to_nat e) v))) pos e = v.
Proof using He.
  intros Hp Hb Hv. rewrite getEncoded_alt by done; simpl.
  pose proof (length_le_encode (Z.to_nat e) v) as Hl.
  set (bs := le_encode (Z.to_nat e) v) in *.
  replace (load _ _ _) with bs.
  - unfold bs. unfold valid_enc in He.
    rewrite le_decode_encode, Z2Nat.id, swrap_wrap, swrap_small by (lia || done). done.
  - rewrite <- Hl. symmetry. apply load_store_same.
    assert (0 < e) by (unfold valid_enc in He; lia).
    assert (0 <= pos * e) by nia. lia.
Qed.

Lemma get_store_other b off bs pos :
  0 <= pos -> (off + length bs <= length b)%nat ->
  (pos + 1) * e <= Z.of_nat off \/ Z.of_nat off + Z.of_nat (length bs) <= pos * e ->
  _intsetGetEncoded (set_contents s (store b off bs)) pos e =
  _intsetGetEncoded (set_contents s b) pos e.
Proof using He.
  intros Hp Hb Hd. rewrite !getEncoded_alt by done; simpl.
  assert (0 < e) by (unfold valid_enc in He; lia).
  assert (0 <= pos * e) by nia.
  rewrite load_store_disj; [done|lia|lia].
Qed.
End Access.

(** ** Binary search *)

Section Search.
Context (s : t) (value : Z).
Context (Hlen : len s < 2 ^ 31).
Context (Hsorted : forall i j, 0 <= i < j -> j < len s -> _intsetGet s i < _intsetGet s j).

Lemma midpoint min max : 0 <= min <= max -> max < 2 ^ 31 ->
  Z.shiftr (u32 (u32 min + u32 max)) 1 = (min + max) / 2.
Proof.
  intros. rewrite Z.shiftr_div_pow2 by lia. change (2 ^ 1) with 2.
  rewrite (wrap_small 32 min), (wrap_small 32 max) by (unfold in_u; lia).
  rewrite wrap_small by (unfold in_u; lia). done.
Qed.

(** The loop finishes with [max - min + 1] units of fuel; it stops on the
    value, or with [min] at the only position that keeps the order. *)
Lemma intsetSearch_loop_spec fuel min max mid cur :
  0 <= min <= max + 1 -> max < len s -> max - min < Z.of_nat fuel ->
  (forall i, 0 <= i < min -> _intsetGet s i < value) ->
  (forall i, max < i < len s -> value < _intsetGet s i) ->
  (min <= max \/ cur <> value) ->
  exists min' mid' cur',
    intsetSearch_loop fuel s value min max mid cur = (min', mid', cur') /\
    ((cur' = value /\ 0 <= mid' < len s /\ _intsetGet s mid' = value) \/
     (cur' <> value /\ 0 <= min' <= len s /\
      (forall i, 0 <= i < min' -> _intsetGet s i < value) /\
      (forall i, min' <= i < len s -> value < _intsetGet s i))).
Proof using Hlen Hsorted.
  revert min max mid cur. induction fuel as [|fuel IH]; intros min max mid cur Hr Hm Hf Hlo Hhi Hc.
  - exists min, mid, cur. split; [done|]. right.
    repeat split; [lia|lia|lia|done|]. intros. apply Hhi. lia.
  - simpl. destruct (Z.leb_spec min max) as [Hle|Hgt].
    2:{ exists min, mid, cur. split; [done|]. right.
        repeat split; [lia|lia|lia|done|]. intros. apply Hhi. lia. }
    rewrite midpoint by lia.
    set (m := (min + max) / 2). assert (min <= m <= max) by (unfold m; zdiv).
    assert (forall i, 0 <= i < m -> _intsetGet s i < _intsetGet s m) as Hl by (intros; apply Hsorted; lia).
    assert (forall i, m < i < len s -> _intsetGet s m < _intsetGet s i) as Hg by (intros; apply Hsorted; lia).
    destruct (Z.ltb_spec (_intsetGet s m) value) as [Hv|Hv].
    { apply IH; try lia; [|done].
      intros i Hi. destruct (Z.eq_dec i m) as [->|]; [lia|]. specialize (Hl i). lia. }
    destruct (Z.ltb_spec value (_intsetGet s m)) as [Hv'|Hv'].
    { apply IH; try lia; [done|].
      intros i Hi. destruct (Z.eq_dec i m) as [->|]; [lia|]. specialize (Hg i). lia. }
    exists min, m, (_intsetGet s m). split; [done|]. left. lia.
Qed.

Lemma intsetSearch_spec :
  0 <= len s ->
  let '(found, pos) := intsetSearch s value in
  if found then 0 <= pos < len s /\ _intsetGet s pos = value
  else 0 <= pos <= len s /\
       (forall i, 0 <= i < pos -> _intsetGet s i < value) /\
       (forall i, pos <= i < len s -> value < _intsetGet s i).
Proof using Hlen Hsorted.
  intros Hn. unfold intsetSearch.
  destruct (Z.eqb_spec (len s) 0); [repeat split; intros; lia|].
  destruct (Z.ltb_spec (_intsetGet s (len s - 1)) value) as [Hb|Hb].
  { repeat split; try lia. intros i Hi.
    destruct (Z.eq_dec i (len s - 1)) as [->|]; [lia|].
    specialize (Hsorted i (len s - 1)). lia. }
  destruct (Z.ltb_spec value (_intsetGet s 0)) as [Ha|Ha].
  { repeat split; try lia. intros i Hi.
    destruct (Z.eq_dec i 0) as [->|]; [lia|]. specialize (Hsorted 0 i). lia. }
  destruct (intsetSearch_loop_spec (Z.to_nat (len s)) 0 (len s - 1) (-1) (-1))
    as (min & mid & cur & -> & [(-> & Hm & Hg)|(Hne & Hm & Hg)]); try (intros; lia).
  - rewrite Z.eqb_refl. auto.
  - destruct (Z.eqb_spec value cur); [congruence|]. tauto.
Qed.
End Search.

Lemma elements_lookup s i x :
  elements s !! i = Some x <->
  (i < Z.to_nat (len s))%nat /\ _intsetGet s (Z.of_nat i) = x.
Proof.
  unfold elements. rewrite list_lookup_fmap_Some. setoid_rewrite lookup_seq.
  split; [intros (j & -> & -> & ?)|intros [? <-]; eexists]; eauto.
Qed.

Lemma elements_elem s x : 0 <= len s ->
  x ∈ elements s <-> exists i, 0 <= i < len s /\ _intsetGet s i = x.
Proof.
  intros. rewrite list_elem_of_lookup. setoid_rewrite elements_lookup. split.
  - intros (i & ? & ?). exists (Z.of_nat i). split; [lia|done].
  - intros (i & ? & ?). exists (Z.to_nat i). rewrite Z2Nat.id by lia. split; [lia|done].
Qed.

Lemma wf_len_small s : wf s -> len s < 2 ^ 31.
Proof. intros [He ? ? ? ?]. unfold valid_enc in He. nia. Qed.

Lemma intsetSearch_elem s v : wf s ->
  fst (intsetSearch s v) = true <-> v ∈ elements s.
Proof.
  intros H. pose proof (wf_len_small s H). destruct H as [He Hn ? ? Hs].
  rewrite elements_elem by done.
  pose proof (intsetSearch_spec s v ltac:(done) Hs Hn) as Hspec.
  destruct (intsetSearch s v) as [[] pos]; simpl.
  - split; [intros _; eauto|done].
  - split; [done|]. intros (i & Hi & Hv). destruct Hspec as (? & Ha & Hb).
    specialize (Ha i). specialize (Hb i). lia.
Qed.

(** A value outside the range of the encoding is never an element, so the
    encoding test of [intsetFind] and [intsetRemove] loses nothing. *)
Lemma elements_enc s v : wf s -> in_s 64 v -> v ∈ elements s ->
  _intsetValueEncoding v <= encoding s.
Proof.
  intros [He Hn ? ? ?] Hv. rewrite elements_elem by done. intros (i & ? & <-).
  apply valueEncoding_le; [done|done|]. by apply get_swrap_range.
Qed.

(** ** Insertion and removal at a position, element by element *)

Definition sorted (s : t) : Prop :=
  forall i j, 0 <= i < j -> j < len s -> _intsetGet s i < _intsetGet s j.

Section Edit.
Context (s s' : t) (v pos : Z).
Context (Hn : 0 <= len s) (Hsorted : sorted s).

Lemma insert_correct :
  0 <= pos <= len s -> len s' = len s + 1 ->
  (forall i, 0 <= i < pos -> _intsetGet s i < v) ->
  (forall i, pos <= i < len s -> v < _intsetGet s i) ->
  (forall i, 0 <= i < pos -> _intsetGet s' i = _intsetGet s i) ->
  _intsetGet s' pos = v ->
  (forall i, pos <= i < len s -> _intsetGet s' (i + 1) = _intsetGet s i) ->
  sorted s' /\ forall x, x ∈ elements s' <-> x = v \/ x ∈ elements s.
Proof using Hn Hsorted.
  intros Hpos Hlen Hlo Hhi Gl Gv Gh. split.
  - intros i j Hij Hj.
    assert (i < pos \/ i = pos \/ pos <= i - 1 < len s) as [Hi|[Hi|Hi]] by lia;
    assert (j < pos \/ j = pos \/ pos <= j - 1 < len s) as [Hj'|[Hj'|Hj']] by lia;
    try lia; subst; rewrite ?Gv, ?Gl by lia;
    try (replace j with ((j - 1) + 1) by lia; rewrite Gh by lia);
    try (replace i with ((i - 1) + 1) by lia; rewrite Gh by lia);
    first [apply Hsorted; lia | apply Hlo; lia | apply Hhi; lia
          | (etrans; [apply Hlo; lia | apply Hhi; lia])].
  - intros x. rewrite !elements_elem by lia. split.
    + intros (i & Hi & <-).
      assert (i < pos \/ i = pos \/ pos <= i - 1 < len s) as [Hi'|[->|Hi']] by lia.
      * right. exists i. rewrite Gl by lia. split; [lia|done].
      * by left.
      * right. exists (i - 1). rewrite <- Gh by lia. split; [lia|]. f_equal. lia.
    + intros [->|(i & Hi & <-)]; [exists pos; split; [lia|done]|].
      destruct (decide (i < pos)).
      * exists i. rewrite Gl by lia. split; [lia|done].
      * exists (i + 1). rewrite Gh by lia. split; [lia|done].
Qed.

Lemma remove_correct :
  0 <= pos < len s -> len s' = len s - 1 -> _intsetGet s pos = v ->
  (forall i, 0 <= i < pos -> _intsetGet s' i = _intsetGet s i) ->
  (forall i, pos <= i < len s - 1 -> _intsetGet s' i = _intsetGet s (i + 1)) ->
  sorted s' /\ forall x, x ∈ elements s' <-> x <> v /\ x ∈ elements s.
Proof using Hn Hsorted.
  intros Hpos Hlen Gv Gl Gh. split.
  - intros i j Hij Hj.
    destruct (decide (i < pos)), (decide (j < pos)); try lia;
      rewrite ?Gl, ?Gh by lia; apply Hsorted; lia.
  - intros x. rewrite !elements_elem by lia. split.
    + intros (i & Hi & <-). destruct (decide (i < pos)).
      * rewrite Gl by lia. pose proof (Hsorted i pos).
        split; [lia|]. exists i. split; [lia|done].
      * rewrite Gh by lia. pose proof (Hsorted pos (i + 1)).
        split; [lia|]. exists (i + 1). split; [lia|done].
    + intros (Hne & i & Hi & <-).
      assert (i < pos \/ i = pos \/ pos <= i - 1) as [Hi'|[->|Hi']] by lia.
      * exists i. rewrite Gl by lia. split; [lia|done].
      * done.
      * exists (i - 1). rewrite Gh by lia. split; [lia|]. f_equal. lia.
Qed.
End Edit.

(** ** What the buffer operations do to each element *)

Section Buffer.
Context (s : t) (e : Z) (He : valid_enc e).

Lemma get_realloc fresh n pos :
  0 <= pos -> (pos + 1) * e <= Z.of_nat (length (contents s)) ->
  (pos + 1) * e <= Z.of_nat n ->
  _intsetGetEncoded (set_contents s (realloc fresh (contents s) n)) pos e =
  _intsetGetEncoded s pos e.
Proof using He.
  intros. rewrite !getEncoded_alt by done; simpl.
  assert (0 < e) by (unfold valid_enc in He; lia). assert (0 <= pos * e) by nia.
  rewrite load_realloc by lia. done.
Qed.

Lemma get_memmove to from cnt pos :
  0 <= to -> 0 <= from -> 0 <= cnt -> 0 <= pos ->
  (to + cnt) * e <= Z.of_nat (length (contents s)) ->
  (from + cnt) * e <= Z.of_nat (length (contents s)) ->
  _intsetGetEncoded
    (set_contents s (memmove (contents s) (Z.to_nat (to * e)) (Z.to_nat (from * e))
                       (Z.to_nat (cnt * e)))) pos e =
  _intsetGetEncoded s (if decide (to <= pos < to + cnt) then from + (pos - to) else pos) e.
Proof using He.
  intros. rewrite !getEncoded_alt by done; simpl. f_equal. f_equal.
  assert (0 < e) by (unfold valid_enc in He; lia).
  assert (0 <= pos * e /\ 0 <= to * e /\ 0 <= from * e /\ 0 <= cnt * e) by nia.
  case_decide.
  - assert (to * e <= pos * e /\ (pos + 1) * e <= (to + cnt) * e) by nia.
    rewrite load_memmove_in by lia. f_equal. lia.
  - assert ((pos + 1) * e <= to * e \/ (to + cnt) * e <= pos * e) by nia.
    rewrite load_memmove_out by lia. done.
Qed.
End Buffer.

(** ** Correctness of the mutators *)

Section Mutators.
Context (fresh : nat -> Z).

Lemma resize_size s n : 0 <= u32 n * encoding s ->
  Z.of_nat (length (contents (intsetResize fresh s n))) = u32 n * encoding s.
Proof. intros. simpl. rewrite length_realloc. lia. Qed.

Lemma get_resize s n e pos : valid_enc e -> 0 <= pos ->
  (pos + 1) * e <= Z.of_nat (length (contents s)) ->
  (pos + 1) * e <= u32 n * encoding s ->
  _intsetGetEncoded (intsetResize fresh s n) pos e = _intsetGetEncoded s pos e.
Proof. intros. apply get_realloc; [done|done|done|lia]. Qed.

(** Setting one position of a buffer that holds [k] elements. *)
Lemma get_set s k pos v i : valid_enc (encoding s) ->
  Z.of_nat (length (contents s)) = k * encoding s ->
  0 <= pos < k -> 0 <= i -> in_s (8 * encoding s) v ->
  _intsetGet (_intsetSet s pos v) i = if decide (i = pos) then v else _intsetGet s i.
Proof.
  intros He Hl Hp Hi Hv. rewrite set_alt by done. unfold _intsetGet at 1.
  assert (0 < encoding s) by (unfold valid_enc in He; lia). simpl.
  case_decide; subst.
  - apply get_store_same; [done|lia|nia|done].
  - rewrite get_store_other; [done|done|done|rewrite length_le_encode; nia|].
    rewrite length_le_encode. nia.
Qed.

Lemma set_fields s pos v : valid_enc (encoding s) ->
  encoding (_intsetSet s pos v) = encoding s /\ len (_intsetSet s pos v) = len s.
Proof. intros. by rewrite set_alt. Qed.

Lemma set_size s k pos v : valid_enc (encoding s) ->
  Z.of_nat (length (contents s)) = k * encoding s -> 0 <= pos < k ->
  Z.of_nat (length (contents (_intsetSet s pos v))) = k * encoding s.
Proof.
  intros He Hl Hp. rewrite set_alt by done; simpl.
  assert (0 < encoding s) by (unfold valid_enc in He; lia).
  rewrite length_store; [done|]. rewrite length_le_encode. nia.
Qed.

(** The back-to-front upgrade: with [k] elements still in the old encoding,
    every element from [k] on has been rewritten in the new one, and no
    unread byte has been touched. *)
Lemma upgrade_loop_spec s0 k n prepend curenc s :
  valid_enc curenc -> valid_enc (encoding s) -> curenc < encoding s ->
  0 <= prepend <= 1 -> Z.of_nat k <= n ->
  Z.of_nat (length (contents s)) = (n + 1) * encoding s ->
  (forall i, 0 <= i < Z.of_nat k ->
     _intsetGetEncoded s i curenc = _intsetGetEncoded s0 i curenc) ->
  (forall i, Z.of_nat k <= i < n ->
     _intsetGet s (i + prepend) = _intsetGetEncoded s0 i curenc) ->
  let s' := upgrade_loop k s prepend curenc in
  encoding s' = encoding s /\ len s' = len s /\
  Z.of_nat (length (contents s')) = (n + 1) * encoding s /\
  forall i, 0 <= i < n -> _intsetGet s' (i + prepend) = _intsetGetEncoded s0 i curenc.
Proof.
  intros Hc. revert s. induction k as [|k IH]; intros s He Hlt Hp Hk Hsz Hold Hnew; simpl.
  { repeat split; [done|]. intros. apply Hnew. lia. }
  set (v := _intsetGetEncoded s (Z.of_nat k) curenc).
  destruct (set_fields s (Z.of_nat k + prepend) v He) as [E1 E2].
  assert (in_s (8 * encoding s) v) as Hv.
  { pose proof (get_swrap_range s (Z.of_nat k) curenc Hc) as Hr. fold v in Hr.
    unfold in_s in *. pose proof (Z.pow_le_mono_r 2 (8 * curenc - 1) (8 * encoding s - 1)).
    lia. }
  edestruct IH as (H1 & H2 & H3 & H4); [..|rewrite <- E1, <- E2; eauto].
  - congruence.
  - by rewrite E1.
  - lia.
  - lia.
  - rewrite E1. apply set_size; [done|done|lia].
  - intros i Hi. rewrite <- Hold by lia. rewrite set_alt by done.
    rewrite get_store_other; [by destruct s|done|lia| |]; rewrite length_le_encode;
      unfold valid_enc in *; nia.
  - intros i Hi. rewrite (get_set s (n + 1)) by (done || lia).
    case_decide; [replace i with (Z.of_nat k) by lia; apply Hold; lia|].
    apply Hnew. lia.
Qed.

Lemma get_moveTail s k from to cnt i : valid_enc (encoding s) ->
  Z.of_nat (length (contents s)) = k * encoding s -> k * encoding s < 2 ^ 32 ->
  cnt = len s - from -> 0 <= cnt -> 0 <= to -> 0 <= from -> 0 <= i ->
  to + cnt <= k -> from + cnt <= k ->
  _intsetGet (intsetMoveTail s from to) i =
  _intsetGet s (if decide (to <= i < to + cnt) then from + (i - to) else i).
Proof.
  intros He Hl Hf -> ? ? ? ? ? ?. rewrite moveTail_alt by done.
  assert (2 <= encoding s) by (unfold valid_enc in He; lia).
  rewrite (wrap_small 32 (len s - from)) by (unfold in_u; nia).
  rewrite wrap_small by (unfold in_u; nia).
  unfold _intsetGet. simpl. apply get_memmove; done || nia.
Qed.

Lemma moveTail_fields s from to :
  encoding (intsetMoveTail s from to) = encoding s /\ len (intsetMoveTail s from to) = len s.
Proof. unfold intsetMoveTail. repeat case_match; done. Qed.

Lemma moveTail_size s k from to cnt : valid_enc (encoding s) ->
  Z.of_nat (length (contents s)) = k * encoding s -> k * encoding s < 2 ^ 32 ->
  cnt = len s - from -> 0 <= cnt -> 0 <= to -> 0 <= from ->
  to + cnt <= k -> from + cnt <= k ->
  Z.of_nat (length (contents (intsetMoveTail s from to))) = k * encoding s.
Proof.
  intros He Hl Hf -> ? ? ? ? ?. rewrite moveTail_alt by done.
  assert (2 <= encoding s) by (unfold valid_enc in He; lia).
  rewrite (wrap_small 32 (len s - from)) by (unfold in_u; nia).
  rewrite wrap_small by (unfold in_u; nia).
  simpl. rewrite length_memmove; [done|nia|nia].
Qed.

Lemma valid_enc_bounds e : valid_enc e -> 2 <= e <= 8.
Proof. unfold valid_enc. lia. Qed.

(** After the resize and the loop, the old elements are all readable in the
    new encoding, shifted by [prepend]. *)
Lemma upgraded_elements s ne p : wf s -> valid_enc ne -> encoding s < ne ->
  0 <= p <= 1 -> (len s + 1) * 8 < 2 ^ 32 ->
  let s2 := upgrade_loop (Z.to_nat (len s))
              (intsetResize fresh (set_encoding s ne) (u32 (len s + 1))) p (encoding s) in
  encoding s2 = ne /\ len s2 = len s /\
  Z.of_nat (length (contents s2)) = (len s + 1) * ne /\
  forall i, 0 <= i < len s -> _intsetGet s2 (i + p) = _intsetGet s i.
Proof.
  intros [He Hn Hf Hsz Hs] Hne Hup Hp Hbig.
  assert (u32 (len s + 1) = len s + 1) as Hu by (apply wrap_small; unfold in_u; lia).
  pose proof (valid_enc_bounds _ Hne). pose proof (valid_enc_bounds _ He).
  set (s1 := intsetResize fresh (set_encoding s ne) (u32 (len s + 1))).
  assert (Z.of_nat (length (contents s1)) = (len s + 1) * ne) as Hsz1.
  { unfold s1. rewrite resize_size; simpl; rewrite !Hu; nia. }
  apply (upgrade_loop_spec s (Z.to_nat (len s)) (len s) p (encoding s) s1);
    try done; try lia.
  intros i Hi. unfold s1. rewrite get_resize; [by destruct s|done|lia| |];
    simpl; rewrite ?Hu; nia.
Qed.

(** A value that needs a wider encoding lies outside all the elements: below
    them when it is negative, above them otherwise. *)
Lemma upgrade_position s v : wf s -> in_s 64 v -> encoding s < _intsetValueEncoding v ->
  let pos := if v <? 0 then 0 else len s in
  (forall i, 0 <= i < pos -> _intsetGet s i < v) /\
  (forall i, pos <= i < len s -> v < _intsetGet s i).
Proof.
  intros [He Hn Hf Hsz Hs] Hv Hup pos.
  assert (forall i, in_s (8 * encoding s) (_intsetGet s i)) as Hrange
    by (intros; by apply get_swrap_range).
  assert (~ in_s (8 * encoding s) v) as Hout
    by (rewrite <- valueEncoding_le by done; lia).
  unfold pos. split; intros i Hi; specialize (Hrange i); unfold in_s in *;
    revert Hi; case_bool; lia.
Qed.

Lemma upgrade_set_pos s2 n v p : p = (if v <? 0 then 1 else 0) -> len s2 = n ->
  (if p =? 1 then _intsetSet s2 0 v else _intsetSet s2 (len s2) v) =
  _intsetSet s2 (if v <? 0 then 0 else n) v.
Proof. intros -> ->. by destruct (v <? 0). Qed.

Lemma intsetUpgradeAndAdd_spec s v : wf s -> in_s 64 v ->
  (len s + 1) * 8 < 2 ^ 32 -> encoding s < _intsetValueEncoding v ->
  let s' := intsetUpgradeAndAdd fresh s v in
  wf s' /\ forall x, x ∈ elements s' <-> x = v \/ x ∈ elements s.
Proof.
  intros Hwf Hv Hbig Hup.
  pose proof (valueEncoding_valid v) as Hne.
  destruct (upgrade_position s v Hwf Hv Hup) as [Hlo Hhi].
  unfold intsetUpgradeAndAdd.
  set (ne := _intsetValueEncoding v) in *. set (p := if v <? 0 then 1 else 0).
  set (pos := if v <? 0 then 0 else len s) in *.
  destruct (upgraded_elements s ne p Hwf Hne Hup) as (E1 & E2 & E3 & E4);
    [unfold p; case_bool; lia|done|].
  destruct Hwf as [He Hn Hf Hsz Hs]. cbn [len set_encoding].
  set (s2 := upgrade_loop _ _ _ _) in *.
  rewrite (upgrade_set_pos s2 (len s) v p eq_refl E2). fold pos.
  assert (in_s (8 * ne) v) as Hv' by (apply valueEncoding_le; [done|done|unfold ne; lia]).
  assert (0 <= pos <= len s /\ (v < 0 /\ pos = 0 /\ p = 1 \/ 0 <= v /\ pos = len s /\ p = 0))
    as [Hpos Hcase] by (unfold pos, p; case_bool; lia).
  destruct (set_fields s2 pos v) as [F1 F2]; [by rewrite E1|].
  set (s4 := set_len _ _).
  assert (len s4 = len s + 1) as L4.
  { simpl. rewrite F2, E2. apply wrap_small. unfold in_u. lia. }
  assert (forall i, 0 <= i -> _intsetGet s4 i = if decide (i = pos) then v else _intsetGet s2 i) as G.
  { intros i Hi. apply (get_set s2 (len s + 1)); rewrite ?E1; done || lia. }
  destruct (insert_correct s s4 v pos) as [S4 M4]; try done; try lia.
  - intros i Hi. rewrite G, decide_False by lia.
    rewrite <- (E4 i) by lia. f_equal. lia.
  - rewrite G, decide_True by lia. done.
  - intros i Hi. rewrite G, decide_False by lia.
    rewrite <- (E4 i) by lia. f_equal. lia.
  - assert (encoding s4 = ne) as EE by (simpl; rewrite F1, E1; done).
    pose proof (valid_enc_bounds _ Hne).
    split; [|done].
    split; [by rewrite EE|lia|rewrite EE, L4; nia|rewrite EE, L4|exact S4].
    simpl. rewrite (set_size s2 (len s + 1)); rewrite ?E1; done || lia.
Qed.

(** The tail move and the store of the no-upgrade branch of [intsetAdd]. *)
Lemma insert_in_place s v pos : wf s -> in_s (8 * encoding s) v ->
  (len s + 1) * 8 < 2 ^ 32 -> 0 <= pos <= len s ->
  (forall i, 0 <= i < pos -> _intsetGet s i < v) ->
  (forall i, pos <= i < len s -> v < _intsetGet s i) ->
  let s1 := intsetResize fresh s (u32 (len s + 1)) in
  let s2 := if pos <? len s1 then intsetMoveTail s1 pos (u32 (pos + 1)) else s1 in
  let s3 := _intsetSet s2 pos v in
  let s' := set_len s3 (u32 (len s3 + 1)) in
  wf s' /\ forall x, x ∈ elements s' <-> x = v \/ x ∈ elements s.
Proof.
  intros [He Hn Hf Hsz Hs] Hv Hbig Hpos Hlo Hhi s1 s2 s3 s'.
  pose proof (valid_enc_bounds _ He).
  assert (u32 (len s + 1) = len s + 1) as Hu by (apply wrap_small; unfold in_u; lia).
  assert (u32 (pos + 1) = pos + 1) as Hup by (apply wrap_small; unfold in_u; lia).
  assert (Z.of_nat (length (contents s1)) = (len s + 1) * encoding s) as Hsz1
    by (unfold s1; rewrite resize_size; rewrite ?Hu; nia).
  assert (forall i, 0 <= i < len s -> _intsetGet s1 i = _intsetGet s i) as G1.
  { intros i Hi. unfold _intsetGet, s1. rewrite get_resize; simpl; rewrite ?Hu; done || nia. }
  assert (encoding s2 = encoding s /\ len s2 = len s /\
          Z.of_nat (length (contents s2)) = (len s + 1) * encoding s /\
          (forall i, 0 <= i < pos -> _intsetGet s2 i = _intsetGet s i) /\
          (forall i, pos <= i < len s -> _intsetGet s2 (i + 1) = _intsetGet s i))
    as (E1 & E2 & E3 & Gl & Gh).
  { unfold s2. change (len s1) with (len s). destruct (Z.ltb_spec pos (len s)).
    - destruct (moveTail_fields s1 pos (u32 (pos + 1))) as [-> ->]. rewrite Hup.
      repeat split; [apply (moveTail_size s1 (len s + 1) _ _ (len s - pos)); simpl; done || nia| |];
        intros i Hi; rewrite (get_moveTail s1 (len s + 1) _ _ (len s - pos)); try (done || simpl; nia).
      + rewrite decide_False by lia. apply G1. lia.
      + rewrite decide_True by lia. rewrite <- G1 by lia. f_equal. lia.
    - repeat split; try done; intros; apply G1 || lia; lia. }
  destruct (set_fields s2 pos v) as [F1 F2]; [by rewrite E1|].
  assert (len s' = len s + 1) as L' by (simpl; unfold s3; rewrite F2, E2; exact Hu).
  assert (forall i, 0 <= i -> _intsetGet s' i = if decide (i = pos) then v else _intsetGet s2 i) as G.
  { intros i Hi. apply (get_set s2 (len s + 1)); rewrite ?E1; done || lia. }
  destruct (insert_correct s s' v pos) as [S' M']; try done.
  - intros. rewrite G, decide_False by lia. apply Gl. lia.
  - rewrite G, decide_True by lia. done.
  - intros. rewrite G, decide_False by lia. apply Gh. lia.
  - split; [|done].
    assert (encoding s' = encoding s) as EE by (simpl; unfold s3; by rewrite F1).
    split; [by rewrite EE|lia|rewrite EE, L'; nia|rewrite EE, L'|exact S'].
    simpl. unfold s3. rewrite (set_size s2 (len s + 1)); rewrite ?E1; done || lia.
Qed.

Lemma intsetAdd_spec s v : wf s -> in_s 64 v -> (len s + 1) * 8 < 2 ^ 32 ->
  let '(s', success) := intsetAdd fresh s v in
  wf s' /\ (forall x, x ∈ elements s' <-> x = v \/ x ∈ elements s) /\
  (success = true <-> ~ v ∈ elements s).
Proof.
  intros Hwf Hv Hbig. unfold intsetAdd.
  destruct (Z.ltb_spec (encoding s) (_intsetValueEncoding v)) as [Hup|Hup].
  { destruct (intsetUpgradeAndAdd_spec s v Hwf Hv Hbig Hup) as [H1 H2].
    split; [done|]. split; [done|]. split; [|done].
    intros _ Hin. apply elements_enc in Hin; [lia|done..]. }
  pose proof (intsetSearch_elem s v Hwf) as Hiff.
  pose proof (intsetSearch_spec s v (wf_len_small s Hwf) (wf_sorted s Hwf) (wf_len s Hwf)) as Hsp.
  destruct (intsetSearch s v) as [[] pos]; simpl in Hiff.
  { split; [done|]. assert (v ∈ elements s) by tauto.
    split; [|done]. intros x. split; [tauto|]. by intros [->|?]. }
  destruct Hsp as (Hpos & Hlo & Hhi).
  destruct (insert_in_place s v pos Hwf) as (H1 & H2); try done.
  { by apply valueEncoding_le; [apply wf_enc| |]. }
  split; [done|]. split; [done|]. split; [|done].
  intros _ Hin. by apply Hiff in Hin.
Qed.

(** C32: [intsetAdd] keeps the representation invariant and adds exactly the
    value: afterwards the members are the old ones and [v], and the success
    flag tells whether [v] was new.  Both the in-place insertion and the
    upgrade to a wider encoding are covered.  The bound says that the blob
    with one more 8-byte element still fits in 2^32 bytes. *)
Theorem intsetAdd_correct s v : wf s -> in_s 64 v -> (len s + 1) * 8 < 2 ^ 32 ->
  let '(s', success) := intsetAdd fresh s v in
  wf s' /\ (forall x, x ∈ elements s' <-> x = v \/ x ∈ elements s) /\
  (success = true <-> ~ v ∈ elements s).
Proof. apply intsetAdd_spec. Qed.

(** The tail move and the truncation of [intsetRemove]. *)
Lemma remove_in_place s pos : wf s -> 0 <= pos < len s ->
  let s1 := if pos <? u32 (len s - 1) then intsetMoveTail s (u32 (pos + 1)) pos else s in
  let s2 := intsetResize fresh s1 (u32 (len s - 1)) in
  let s' := set_len s2 (u32 (len s - 1)) in
  wf s' /\ forall x, x ∈ elements s' <-> x <> _intsetGet s pos /\ x ∈ elements s.
Proof.
  intros Hwf Hpos s1 s2 s'. pose proof (wf_len_small s Hwf).
  destruct Hwf as [He Hn Hf Hsz Hs]. pose proof (valid_enc_bounds _ He).
  assert (u32 (len s - 1) = len s - 1) as Hu by (apply wrap_small; unfold in_u; lia).
  assert (u32 (pos + 1) = pos + 1) as Hup by (apply wrap_small; unfold in_u; lia).
  assert (encoding s1 = encoding s /\ len s1 = len s /\
          Z.of_nat (length (contents s1)) = len s * encoding s /\
          (forall i, 0 <= i < pos -> _intsetGet s1 i = _intsetGet s i) /\
          (forall i, pos <= i < len s - 1 -> _intsetGet s1 i = _intsetGet s (i + 1)))
    as (E1 & E2 & E3 & Gl & Gh).
  { unfold s1. rewrite Hu. destruct (Z.ltb_spec pos (len s - 1)); [|repeat split; intros; lia || done].
    rewrite Hup. destruct (moveTail_fields s (pos + 1) pos) as [-> ->].
    repeat split; [apply (moveTail_size s (len s) _ _ (len s - (pos + 1))); done || lia| |];
      intros i Hi; rewrite (get_moveTail s (len s) _ _ (len s - (pos + 1))) by (done || lia).
    - by rewrite decide_False by lia.
    - rewrite decide_True by lia. f_equal. lia. }
  assert (len s' = len s - 1) as L' by exact Hu.
  assert (encoding s' = encoding s) as EE by exact E1.
  assert (forall i, 0 <= i < len s - 1 -> _intsetGet s' i = _intsetGet s1 i) as G.
  { intros i Hi. unfold _intsetGet. change (encoding s') with (encoding s1).
    apply get_resize; rewrite ?E1, ?E3, ?wrap_wrap, ?Hu; done || nia. }
  destruct (remove_correct s s' (_intsetGet s pos) pos) as [S' M']; try done.
  - intros. rewrite G by lia. apply Gl. lia.
  - intros. rewrite G by lia. apply Gh. lia.
  - split; [|done].
    split; [by rewrite EE|lia|rewrite EE, L'; nia|rewrite EE, L'|exact S'].
    unfold s', s2. simpl. rewrite length_realloc, Hu, E1, wrap_small by (unfold in_u; lia). nia.
Qed.

(** C35: [intsetRemove] keeps the representation invariant and removes exactly
    the value; the success flag tells whether it was a member. *)
Theorem intsetRemove_correct s v : wf s -> in_s 64 v ->
  let '(s', success) := intsetRemove fresh s v in
  wf s' /\ (forall x, x ∈ elements s' <-> x <> v /\ x ∈ elements s) /\
  (success = true <-> v ∈ elements s).
Proof.
  intros Hwf Hv. unfold intsetRemove.
  pose proof (intsetSearch_elem s v Hwf) as Hiff.
  pose proof (intsetSearch_spec s v (wf_len_small s Hwf) (wf_sorted s Hwf) (wf_len s Hwf)) as Hsp.
  pose proof (elements_enc s v Hwf Hv) as Henc.
  destruct (intsetSearch s v) as [[] pos]; simpl in Hiff.
  - destruct (Z.leb_spec (_intsetValueEncoding v) (encoding s)); [|exfalso; tauto || (specialize (Henc (proj1 Hiff eq_refl)); lia)].
    destruct Hsp as [Hpos <-]. destruct (remove_in_place s pos Hwf Hpos) as [H1 H2].
    split; [done|]. split; [done|]. tauto.
  - rewrite andb_false_r. split; [done|].
    assert (v ∉ elements s) by (intros Hin; by apply Hiff in Hin).
    split; [|by split]. intros x. split; [|tauto]. intros. split; [|done]. by intros ->.
Qed.
End Mutators.

(** [intsetFind] decides membership. *)
Theorem intsetFind_correct s v : wf s -> in_s 64 v ->
  intsetFind s v = true <-> v ∈ elements s.
Proof.
  intros Hwf Hv. unfold intsetFind. rewrite andb_true_iff, Z.leb_le.
  rewrite intsetSearch_elem by done. split; [tauto|].
  intros. split; [by apply elements_enc|done].
Qed.

(** ** Integrity check of untrusted blobs *)

Lemma validate_loop_spec n s i prev :
  validate_loop n s i prev = true <->
  (forall k, (k < n)%nat ->
     (if decide (k = 0%nat) then prev else _intsetGet s (i + Z.of_nat k - 1))
     < _intsetGet s (i + Z.of_nat k)).
Proof.
  revert i prev. induction n as [|n IH]; intros i prev; simpl; [split; [lia|done]|].
  destruct (Z.leb_spec (_intsetGet s i) prev) as [Hle|Hgt].
  - split; [done|]. intros H. specialize (H 0%nat ltac:(lia)).
    rewrite decide_True, Z.add_0_r in H by done. lia.
  - rewrite IH. split; intros H k Hk.
    + destruct k as [|k]; [rewrite decide_True, Z.add_0_r by done; lia|].
      rewrite decide_False by lia. specialize (H k ltac:(lia)).
      replace (i + Z.of_nat (S k)) with (i + 1 + Z.of_nat k) by lia.
      case_decide; [subst; by replace (i + 1 + Z.of_nat 0 - 1) with i by lia|done].
    + specialize (H (S k) ltac:(lia)). rewrite decide_False in H by lia.
      replace (i + Z.of_nat (S k)) with (i + 1 + Z.of_nat k) in H by lia.
      case_decide; [subst; by replace (i + 1 + Z.of_nat 0 - 1) with i in H by lia|done].
Qed.

Lemma validate_sorted s : 0 < len s ->
  validate_loop (Z.to_nat (len s) - 1) s 1 (_intsetGet s 0) = true <-> sorted s.
Proof.
  intros Hn. rewrite validate_loop_spec. split; intros H.
  - assert (forall d i, 0 <= i -> i + Z.of_nat (S d) < len s ->
              _intsetGet s i < _intsetGet s (i + Z.of_nat (S d))) as Hstep.
    { induction d as [|d IH]; intros i Hi Hd.
      - specialize (H (Z.to_nat i) ltac:(lia)). revert H. rewrite Z2Nat.id by lia.
        case_decide; [replace i with 0 by lia; done|].
        by replace (1 + i - 1) with i by lia; replace (i + Z.of_nat 1) with (1 + i) by lia.
      - etrans; [apply IH; lia|]. specialize (H (Z.to_nat (i + Z.of_nat (S d))) ltac:(lia)).
        rewrite decide_False, Z2Nat.id in H by lia.
        replace (1 + (i + Z.of_nat (S d)) - 1) with (i + Z.of_nat (S d)) in H by lia.
        by replace (i + Z.of_nat (S (S d))) with (1 + (i + Z.of_nat (S d))) by lia. }
    intros i j Hij Hj. specialize (Hstep (Z.to_nat (j - i - 1)) i ltac:(lia)).
    replace (i + Z.of_nat (S (Z.to_nat (j - i - 1)))) with j in Hstep by lia. auto.
  - intros k Hk. case_decide; [subst; apply H; lia|]. apply H; lia.
Qed.

Lemma bool_decide_enc e :
  (e =? INTSET_ENC_INT64) || (e =? INTSET_ENC_INT32) || (e =? INTSET_ENC_INT16) = true
  <-> valid_enc e.
Proof. unfold valid_enc, INTSET_ENC_INT64, INTSET_ENC_INT32, INTSET_ENC_INT16. lia. Qed.

Lemma validate_wf p : bytes p -> Z.of_nat (length p) < 2 ^ 32 ->
  intsetValidateIntegrity p (Z.of_nat (length p)) true = true <->
  8 <= Z.of_nat (length p) /\ wf (of_blob p) /\ elements (of_blob p) <> [].
Proof.
  intros Hb Hs. unfold intsetValidateIntegrity.
  destruct (Z.ltb_spec (Z.of_nat (length p)) 8); [split; [done|lia]|].
  assert (in_u (8 * 4) (le_decode (load p 4 4))) as Hn.
  { replace 4 with (Z.of_nat (length (load p 4 4))) at 1 by (rewrite length_load; lia).
    auto using le_decode_range, bytes_load. }
  assert (elements (of_blob p) <> [] <-> 0 < len (of_blob p)) as Hne.
  { rewrite <- length_zero_iff_nil. unfold elements. rewrite length_map, length_seq.
    simpl. unfold in_u in Hn. lia. }
  rewrite Hne.
  assert (Z.of_nat (length (contents (of_blob p))) = Z.of_nat (length p) - 8) as Hc
    by (simpl; rewrite length_drop; lia).
  change (le_decode (load p 4 4)) with (len (of_blob p)) in Hn. unfold in_u in Hn.
  set (s := of_blob p) in *. cbv zeta. clearbody s.
  pose proof (bool_decide_enc (encoding s)) as He.
  destruct (_ || _); cbn [negb].
  2:{ split; [done|]. intros (_ & W & _). pose proof (wf_enc _ W) as We. by apply He in We. }
  assert (valid_enc (encoding s)) as He' by tauto. clear He.
  destruct (Z.eqb_spec (8 + len s * encoding s) (Z.of_nat (length p))) as [E|E]; cbn [negb].
  2:{ split; [done|]. intros (_ & [_ _ _ W _] & _). lia. }
  destruct (Z.eqb_spec (len s) 0); cbn [negb]; [split; [done|lia]|].
  rewrite validate_sorted by lia. split.
  - intros. split; [done|]. split; [|lia]. split; [done|lia|lia|lia|done].
  - intros (_ & [_ _ _ _ W] & _). done.
Qed.

Lemma of_blob_to_blob s : wf s -> of_blob (to_blob s) = s.
Proof.
  intros Hwf. pose proof (wf_len_small s Hwf). destruct Hwf as [He Hn Hf Hsz Hs].
  destruct s as [e n b]; cbn [encoding len contents] in *.
  unfold of_blob, to_blob, load; cbn [encoding len contents]. rewrite drop_0, take_app_length' by (by rewrite length_le_encode).
  rewrite drop_app_length' by (by rewrite length_le_encode).
  rewrite take_app_length' by (by rewrite length_le_encode).
  rewrite !le_decode_encode, !wrap_small by (unfold in_u, valid_enc in *; simpl; lia).
  reflexivity.
Qed.

(** The deep integrity check accepts exactly the serializations of
    non-empty well-formed sets: a blob it accepts satisfies the representation
    invariant (so every operation is safe on it), and the blob of every
    well-formed non-empty set is accepted and reads back as that set. *)
Theorem intsetValidateIntegrity_correct :
  (forall p, bytes p -> Z.of_nat (length p) < 2 ^ 32 ->
     intsetValidateIntegrity p (Z.of_nat (length p)) true = true ->
     wf (of_blob p) /\ elements (of_blob p) <> []) /\
  (forall s, wf s -> bytes (contents s) -> intsetBlobLen s < 2 ^ 32 -> elements s <> [] ->
     of_blob (to_blob s) = s /\
     intsetValidateIntegrity (to_blob s) (intsetBlobLen s) true = true).
Proof.
  split.
  - intros p Hb Hs H. apply validate_wf in H; tauto.
  - intros s Hwf Hb Hs Hne. rewrite of_blob_to_blob by done. split; [done|].
    assert (Z.of_nat (length (to_blob s)) = intsetBlobLen s) as E.
    { unfold to_blob, intsetBlobLen. rewrite !length_app, !length_le_encode.
      destruct Hwf. lia. }
    rewrite <- E. apply validate_wf; [|lia|].
    + apply Forall_app; split; [|apply Forall_app; split]; auto using bytes_le_encode.
    + rewrite of_blob_to_blob by done. split; [|done].
      unfold to_blob. rewrite !length_app, !length_le_encode. lia.
Qed.

(** ** Witnesses *)

(** The set {1, 5, 300} in the 16-bit encoding, as the library builds it. *)
Definition ex_set : t :=
  fst (intsetAdd (fun _ => 170) (fst (intsetAdd (fun _ => 170)
    (fst (intsetAdd (fun _ => 170) intsetNew 5)) 300)) 1).

Lemma ex_set_elements : elements ex_set = [1; 5; 300].
Proof. reflexivity. Qed.

Lemma ex_set_wf : wf ex_set.
Proof.
  split; [left; reflexivity|vm_compute; congruence|reflexivity|reflexivity|].
  apply validate_sorted; reflexivity.
Qed.

Lemma intsetAdd_correct_witness :
  wf (fst (intsetAdd (fun _ => 170) ex_set (-100000))) /\
  elements (fst (intsetAdd (fun _ => 170) ex_set (-100000))) = [-100000; 1; 5; 300].
Proof.
  split; [|reflexivity].
  pose proof (intsetAdd_correct (fun _ => 170) ex_set (-100000) ex_set_wf
    ltac:(unfold in_s; lia) ltac:(reflexivity)) as H.
  destruct (intsetAdd _ _ _) as [s' b]. exact (proj1 H).
Defined.

Lemma intsetRemove_correct_witness :
  wf (fst (intsetRemove (fun _ => 170) ex_set 5)) /\
  elements (fst (intsetRemove (fun _ => 170) ex_set 5)) = [1; 300].
Proof.
  split; [|reflexivity].
  pose proof (intsetRemove_correct (fun _ => 170) ex_set 5 ex_set_wf
    ltac:(unfold in_s; lia)) as H.
  destruct (intsetRemove _ _ _) as [s' b]. exact (proj1 H).
Defined.

Lemma intsetFind_correct_witness :
  intsetFind ex_set 300 = true /\ 300 ∈ elements ex_set.
Proof.
  split; [reflexivity|].
  apply (intsetFind_correct ex_set 300 ex_set_wf ltac:(unfold in_s; lia)). reflexivity.
Defined.

Lemma intsetValidateIntegrity_correct_witness :
  of_blob (to_blob ex_set) = ex_set /\
  intsetValidateIntegrity (to_blob ex_set) (intsetBlobLen ex_set) true = true.
Proof.
  apply (proj2 intsetValidateIntegrity_correct ex_set ex_set_wf).
  - replace (contents ex_set) with [1; 0; 5; 0; 44; 1] by reflexivity.
    repeat constructor; lia.
  - reflexivity.
  - discriminate.
Defined.

End Intset.
