(* ===== verification/NumStr.v ===== *)
(** * NumStr: the integer/string conversions of util.c

    [ull2string], [ll2string] and their inverse [string2ll], with the digit
    counter they size the output with.  Buffers are byte lists; a write goes to
    the caller's buffer, so the theorems also say what is left around it. *)
From S2P Require Import Prelude.

Module NumStr.

Definition ULLONG_MAX : Z := 2 ^ 64 - 1.
Definition LLONG_MAX : Z := 2 ^ 63 - 1.
Definition LLONG_MIN : Z := - 2 ^ 63.
Definition LONG_STR_SIZE : Z := 21.

Definition b2z (b : bool) : Z := if b then 1 else 0.

(** [digits10]; the recursive call divides by 10^12, so two levels cover every
    64-bit value. *)
Fixpoint digits10_rec (fuel : nat) (v : Z) : Z :=
  if v <? 10 then 1
  else if v <? 100 then 2
  else if v <? 1000 then 3
  else if v <? 1000000000000 then
    if v <? 100000000 then
      if v <? 1000000 then
        if v <? 10000 then 4 else 5 + b2z (100000 <=? v)
      else 7 + b2z (10000000 <=? v)
    else if v <? 10000000000 then 9 + b2z (1000000000 <=? v)
    else 11 + b2z (100000000000 <=? v)
  else match fuel with
       | O => 12
       | S fuel' => 12 + digits10_rec fuel' (v / 1000000000000)
       end.

Definition digits10 (v : Z) : Z := digits10_rec 2 v.

Definition sdigits10 (v : Z) : Z :=
  if v <? 0 then
    let uv := if negb (v =? LLONG_MIN) then u64 (- v) else u64 (LLONG_MAX + 1) in
    digits10 uv + 1
  else digits10 v.

(** The table of the 100 two-digit numbers. *)
Definition digits : list Z := Eval vm_compute in chars
  "00010203040506070809101112131415161718192021222324252627282930313233343536373839404142434445464748495051525354555657585960616263646566676869707172737475767778798081828384858687888990919293949596979899".

Definition digit (i : Z) : Z := nth (Z.to_nat i) digits 0.

(** [dst[i] = c] *)
Definition put (dst : list Z) (i c : Z) : list Z := store dst (Z.to_nat i) [c].

(** The [while (value >= 100)] loop; [next] is a uint32_t. *)
Fixpoint ull2string_loop (fuel : nat) (dst : list Z) (value next : Z) : list Z * Z * Z :=
  match fuel with
  | O => (dst, value, next)
  | S fuel' =>
      if 100 <=? value then
        let i := (value mod 100) * 2 in
        let value := value / 100 in
        let dst := put dst next (digit (i + 1)) in
        let dst := put dst (u32 (next - 1)) (digit i) in
        ull2string_loop fuel' dst value (u32 (next - 2))
      else (dst, value, next)
  end.

(** The last one or two digits. *)
Definition ull2string_last (dst : list Z) (value next : Z) : list Z :=
  if value <? 10 then put dst next (ch0 + value)
  else
    let i := value * 2 in
    put (put dst next (digit (i + 1))) (u32 (next - 1)) (digit i).

(** Returns the buffer and the length; 10 iterations consume 20 digits. *)
Definition ull2string (dst : list Z) (dstlen value : Z) : list Z * Z :=
  let length := digits10 value in
  if dstlen <=? length then
    ((if 0 <? dstlen then put dst 0 0 else dst), 0)
  else
    let next := u32 (length - 1) in
    let dst := put dst (u32 (next + 1)) 0 in
    let '(dst, value, next) := ull2string_loop 10 dst value next in
    (ull2string_last dst value next, length).

Definition ll2string (dst : list Z) (dstlen svalue : Z) : list Z * Z :=
  if svalue <? 0 then
    let value := if negb (svalue =? LLONG_MIN) then u64 (- svalue) else u64 (LLONG_MAX + 1) in
    if dstlen <? 2 then ((if 0 <? dstlen then put dst 0 0 else dst), 0)
    else
      let dst := put dst 0 45 in
      let '(rest, length) := ull2string (drop 1 dst) (dstlen - 1) value in
      (take 1 dst ++ rest, if length =? 0 then 0 else length + 1)
  else
    let '(dst, length) := ull2string dst dstlen svalue in
    (dst, if length =? 0 then 0 else length + 0).

(** The digit loop of [string2ll]: [None] is an overflow, otherwise the value
    and the bytes that are left. *)
Fixpoint string2ll_loop (p : list Z) (v : Z) : option (Z * list Z) :=
  match p with
  | c :: p' =>
      if (48 <=? c) && (c <=? 57) then
        if ULLONG_MAX / 10 <? v then None
        else
          let v := v * 10 in
          if ULLONG_MAX - (c - 48) <? v then None
          else string2ll_loop p' (v + (c - 48))
      else Some (v, p)
  | [] => Some (v, [])
  end.

(** [s] holds the [slen] bytes of the string. *)
Definition string2ll (s : list Z) : option Z :=
  let slen := Z.of_nat (length s) in
  if (slen =? 0) || (LONG_STR_SIZE <=? slen) then None
  else if (slen =? 1) && (nth 0 s 0 =? 48) then Some 0
  else
    let negative := nth 0 s 0 =? 45 in
    let p := if negative then drop 1 s else s in
    match p with
    | [] => None
    | c :: p' =>
        if (49 <=? c) && (c <=? 57) then
          match string2ll_loop p' (c - 48) with
          | None => None
          | Some (v, rest) =>
              if negb (Nat.eqb (length rest) 0) then None
              else if negative then
                if u64 (- (LLONG_MIN + 1)) + 1 <? v then None else Some (s64 (u64 (- v)))
              else if LLONG_MAX <? v then None else Some v
          end
        else None
    end.

(** [long] is 64 bits wide here, so the second range test never fails. *)
Definition string2l (s : list Z) : option Z :=
  match string2ll s with
  | None => None
  | Some llval =>
      if (llval <? LLONG_MIN) || (LLONG_MAX <? llval) then None else Some llval
  end.

Definition safe_is_c_in_range (c start stop : Z) : bool := (start <=? c) && (c <=? stop).

Definition base_16_char_type (c : Z) : Z :=
  if safe_is_c_in_range c 48 57 then 0
  else if safe_is_c_in_range c 97 102 then 1
  else if safe_is_c_in_range c 65 70 then 2
  else -1.

Definition ascii_to_dec (char_type : Z) : Z :=
  if char_type =? 0 then 48 else if char_type =? 1 then 97 - 10 else 65 - 10.

(** [src] is the string with its terminator, [n] the number of characters still
    allowed; [None] is the overflow return value -1. *)
Fixpoint base16_loop (src : list Z) (n : nat) (result : Z) : option Z :=
  match src with
  | [] => Some result
  | c :: src' =>
      let char_type := base_16_char_type c in
      if negb (-1 =? char_type) && (negb (Nat.eqb n 0)) then
        let curr_val := c - ascii_to_dec char_type in
        if (ULLONG_MAX / 16 <? result) || ((ULLONG_MAX - curr_val) / 16 <? result) then None
        else base16_loop src' (n - 1) (result * 16 + curr_val)
      else Some result
  end.

Definition string2ul_base16_async_signal_safe (src : list Z) (slen : nat) : option Z :=
  base16_loop src slen 0.

Example ll2string_min :
  ll2string (repeat 7 24) 24 LLONG_MIN
  = (chars "-9223372036854775808" ++ [0; 7; 7; 7], 20).
Proof. reflexivity. Qed.
Example string2ll_min : string2ll (chars "-9223372036854775808") = Some LLONG_MIN.
Proof. reflexivity. Qed.
Example string2ll_over : string2ll (chars "9223372036854775808") = None.
Proof. reflexivity. Qed.
Example string2ll_zeroes : string2ll (chars "007") = None.
Proof. reflexivity. Qed.

(** ** Decimal notation, digit by digit *)

(** The [n] low decimal digits of [v], most significant first. *)
Fixpoint dec_fixed (n : nat) (v : Z) : list Z :=
  match n with
  | O => []
  | S n' => dec_fixed n' (v / 10) ++ [ch0 + v mod 10]
  end.

(** The number a list of digit characters denotes, after [acc]. *)
Definition eval_dec (acc : Z) (ds : list Z) : Z :=
  fold_left (fun a c => a * 10 + (c - 48)) ds acc.

Definition is_digit (c : Z) : Prop := 48 <= c <= 57.

Lemma length_dec_fixed n v : length (dec_fixed n v) = n.
Proof. revert v. induction n; intros; simpl; [done|]. rewrite length_app, IHn. simpl. lia. Qed.

Lemma dec_fixed_digits n v : Forall is_digit (dec_fixed n v).
Proof.
  revert v. induction n; intros; simpl; [constructor|].
  apply Forall_app. split; [done|]. constructor; [|constructor].
  unfold is_digit, ch0. pose proof (Z.mod_pos_bound v 10). lia.
Qed.

Lemma dec_fixed_split2 n v :
  dec_fixed (S (S n)) v = dec_fixed n (v / 100) ++ dec_fixed 2 (v mod 100).
Proof.
  cbn [dec_fixed]. rewrite <- app_assoc. rewrite Z.div_div by lia. f_equal.
  change ([] ++ [ch0 + v mod 100 / 10 mod 10]) with [ch0 + v mod 100 / 10 mod 10].
  replace (v mod 100 / 10 mod 10) with (v / 10 mod 10) by zdiv.
  replace (v mod 100 mod 10) with (v mod 10) by zdiv. done.
Qed.

Lemma eval_dec_app acc l1 l2 : eval_dec acc (l1 ++ l2) = eval_dec (eval_dec acc l1) l2.
Proof. apply fold_left_app. Qed.

Lemma eval_dec_fixed n v acc : 0 <= v < 10 ^ Z.of_nat n ->
  eval_dec acc (dec_fixed n v) = acc * 10 ^ Z.of_nat n + v.
Proof.
  revert v acc. induction n as [|n IH]; intros v acc Hv.
  - cbn. lia.
  - rewrite Nat2Z.inj_succ, Z.pow_succ_r in * by lia.
    cbn [dec_fixed]. rewrite eval_dec_app, IH by zdiv.
    unfold eval_dec, ch0. simpl. pose proof (Z.div_mod v 10). lia.
Qed.

Lemma eval_dec_acc acc ds :
  eval_dec acc ds = acc * 10 ^ Z.of_nat (length ds) + eval_dec 0 ds.
Proof.
  induction ds as [|c ds IH] using rev_ind; [cbn; lia|].
  rewrite !eval_dec_app, IH, length_app. unfold eval_dec. simpl.
  rewrite Nat2Z.inj_add, Z.pow_add_r by lia. simpl. lia.
Qed.

Lemma eval_dec_bounds ds : Forall is_digit ds -> 0 <= eval_dec 0 ds < 10 ^ Z.of_nat (length ds).
Proof.
  induction ds as [|c ds IH] using rev_ind; [cbn; lia|].
  rewrite Forall_app. intros [Hd Hc]. inversion_clear Hc as [|? ? Hc' _].
  unfold is_digit in Hc'. specialize (IH Hd).
  rewrite eval_dec_app, length_app. unfold eval_dec at 1 3. simpl.
  rewrite Nat2Z.inj_add, Z.pow_add_r by lia. simpl. lia.
Qed.

(** Digit strings are determined by their length and value. *)
Lemma dec_fixed_eval ds : Forall is_digit ds -> dec_fixed (length ds) (eval_dec 0 ds) = ds.
Proof.
  induction ds as [|c ds IH] using rev_ind; [done|].
  rewrite Forall_app. intros [Hd Hc]. inversion_clear Hc as [|? ? Hc' _].
  unfold is_digit in Hc'. rewrite length_app, Nat.add_1_r. cbn [dec_fixed].
  rewrite eval_dec_app. unfold eval_dec at 1 3. simpl.
  rewrite Z.div_add_l, Z.div_small, Z.add_0_r, IH by (done || lia). f_equal. f_equal.
  unfold ch0. zdiv.
Qed.

(** ** The digit counter *)

Lemma digits10_rec_spec fuel v : 0 <= v < 10 ^ (12 * (Z.of_nat fuel + 1)) ->
  1 <= digits10_rec fuel v /\ v < 10 ^ digits10_rec fuel v /\
  (10 ^ (digits10_rec fuel v - 1) <= v \/ v = 0 /\ digits10_rec fuel v = 1).
Proof.
  revert v. induction fuel as [|fuel IH]; intros v Hv; cbn [digits10_rec].
  - change (12 * (Z.of_nat 0 + 1)) with 12 in Hv.
    repeat case_bool; cbn [b2z]; simpl; lia.
  - destruct (Z.ltb_spec v 1000000000000) as [Hs|Hb].
    { repeat case_bool; cbn [b2z]; simpl; lia. }
    do 3 (case_bool; [lia|]).
    destruct (IH (v / 1000000000000)) as (D1 & D2 & D3).
    { split; [zdiv|]. apply Z.div_lt_upper_bound; [lia|].
      change 1000000000000 with (10 ^ 12). rewrite <- Z.pow_add_r by lia.
      replace (12 + 12 * (Z.of_nat fuel + 1)) with (12 * (Z.of_nat (S fuel) + 1)) by lia. lia. }
    set (d := digits10_rec fuel (v / 1000000000000)) in *.
    replace (12 + d - 1) with (12 + (d - 1)) by lia.
    rewrite !Z.pow_add_r by lia. change (10 ^ 12) with 1000000000000.
    split; [lia|]. split; [zdiv|].
    left. destruct D3 as [D3|[D3 _]]; zdiv.
Qed.

Lemma digits10_bounds v : in_u 64 v ->
  1 <= digits10 v <= 20 /\ v < 10 ^ digits10 v /\
  (10 ^ (digits10 v - 1) <= v \/ v = 0 /\ digits10 v = 1).
Proof.
  unfold in_u. intros Hv. destruct (digits10_rec_spec 2 v) as (H1 & H2 & H3).
  { change (10 ^ (12 * (Z.of_nat 2 + 1))) with (10 ^ 36). lia. }
  fold (digits10 v) in *. split; [|done]. split; [done|].
  destruct H3 as [H3|[? ->]]; [|lia].
  destruct (Z.le_gt_cases (digits10 v) 20) as [?|Hg]; [done|].
  pose proof (Z.pow_le_mono_r 10 20 (digits10 v - 1)). lia.
Qed.

Lemma digits10_unique v n : in_u 64 v -> 1 <= n -> v < 10 ^ n ->
  (10 ^ (n - 1) <= v \/ v = 0 /\ n = 1) -> digits10 v = n.
Proof.
  intros Hv Hn Hlt Hge. destruct (digits10_bounds v Hv) as (Hd & Hlt' & Hge').
  destruct (Z.lt_trichotomy (digits10 v) n) as [Hc|[Hc|Hc]]; [|done|].
  - pose proof (Z.pow_le_mono_r 10 (digits10 v) (n - 1)). lia.
  - pose proof (Z.pow_le_mono_r 10 n (digits10 v - 1)). lia.
Qed.

(** ** Printing *)

Lemma digit_table i : 0 <= i < 100 -> [digit (i * 2); digit (i * 2 + 1)] = dec_fixed 2 i.
Proof.
  intros Hi. rewrite <- (Z2Nat.id i) by lia.
  assert (Z.to_nat i < 100)%nat as Hn by lia. revert Hn. generalize (Z.to_nat i).
  clear. intros n Hn.
  do 100 (destruct n as [|n]; [reflexivity|]). lia.
Qed.

(** Writing the two characters of a table entry, right one first. *)
Lemma put_pair dst next i : 0 <= i < 100 -> 1 <= next < 2 ^ 32 ->
  (Z.to_nat next < length dst)%nat ->
  put (put dst next (digit (i * 2 + 1))) (u32 (next - 1)) (digit (i * 2))
  = store dst (Z.to_nat (next - 1)) (dec_fixed 2 i).
Proof.
  intros Hi Hn Hl. rewrite <- digit_table by done. unfold put.
  rewrite wrap_small by (unfold in_u; lia).
  rewrite <- (store_app dst _ [digit (i * 2)] [digit (i * 2 + 1)]) by (simpl; lia).
  do 2 f_equal. simpl. lia.
Qed.

Lemma ull2string_loop_spec fuel dst value next :
  0 <= next < Z.of_nat (length dst) -> next <= 2 * Z.of_nat fuel + 1 -> next < 2 ^ 32 ->
  0 <= value < 10 ^ (next + 1) -> (10 ^ next <= value \/ next = 0) ->
  let '(dst', value', next') := ull2string_loop fuel dst value next in
  ull2string_last dst' value' next' = store dst 0 (dec_fixed (S (Z.to_nat next)) value).
Proof.
  revert dst value next. induction fuel as [|fuel IH]; intros dst value next Hn Hf Hw Hv Hd;
    cbn [ull2string_loop];
    [assert (value < 100) as Hs by (pose proof (Z.pow_le_mono_r 10 (next + 1) 2); lia)
    |destruct (Z.leb_spec 100 value) as [Hb|Hs]].
  2:{ assert (2 <= next) as Hn2.
      { destruct (Z.le_gt_cases 2 next) as [?|?]; [done|].
        pose proof (Z.pow_le_mono_r 10 (next + 1) 2). lia. }
      rewrite put_pair by (pose proof (Z.mod_pos_bound value 100); lia).
      rewrite (wrap_small 32 (next - 2)) by (unfold in_u; lia).
      set (dst1 := store dst _ _).
      assert (length dst1 = length dst) as Hl1
        by (apply length_store; rewrite length_dec_fixed; lia).
      specialize (IH dst1 (value / 100) (next - 2)). revert IH.
      destruct (ull2string_loop _ _ _ _) as [[dst' value'] next']. intros IH.
      assert (10 ^ (next + 1) = 100 * 10 ^ (next - 2 + 1)) as P1
        by (change 100 with (10 ^ 2); rewrite <- Z.pow_add_r by lia; f_equal; lia).
      assert (10 ^ next = 100 * 10 ^ (next - 2)) as P2
        by (change 100 with (10 ^ 2); rewrite <- Z.pow_add_r by lia; f_equal; lia).
      rewrite IH; [|lia|lia|lia|zdiv|left; zdiv].
      replace (S (Z.to_nat next)) with (S (S (S (Z.to_nat (next - 2))))) by lia.
      rewrite dec_fixed_split2. unfold dst1.
      rewrite <- store_app by (rewrite !length_dec_fixed; lia).
      rewrite length_dec_fixed. f_equal. f_equal. lia. }
  all: unfold ull2string_last; destruct (Z.ltb_spec value 10) as [H10|H10].
  all: assert (next = 0 \/ next = 1 /\ 10 <= value) as [->|[-> Hge]]
    by (destruct (Z.eq_dec next 0); [lia|]; pose proof (Z.pow_le_mono_r 10 1 next);
        destruct (Z.eq_dec next 1); [lia|]; pose proof (Z.pow_le_mono_r 10 2 next); lia).
  all: try lia.
  1,3: unfold put; simpl; rewrite Z.mod_small by lia; done.
  all: rewrite put_pair by lia; done.
Qed.

(** The text of an integer: its digits, after a minus sign if negative. *)
Definition repr (v : Z) : list Z :=
  if v <? 0 then 45 :: dec_fixed (Z.to_nat (digits10 (- v))) (- v)
  else dec_fixed (Z.to_nat (digits10 v)) v.

Lemma ull2string_spec dst dstlen value :
  in_u 64 value -> dstlen = Z.of_nat (length dst) ->
  let ds := dec_fixed (Z.to_nat (digits10 value)) value in
  ull2string dst dstlen value =
    if digits10 value <? dstlen then (store dst 0 (ds ++ [0]), digits10 value)
    else (if 0 <? dstlen then store dst 0 [0] else dst, 0).
Proof.
  intros Hv -> ds. destruct (digits10_bounds value Hv) as (Hd & Hlt & Hge).
  unfold ull2string. destruct (Z.leb_spec (Z.of_nat (length dst)) (digits10 value)) as [Hs|Hs];
    (destruct (Z.ltb_spec (digits10 value) (Z.of_nat (length dst))) as [Hs'|Hs']; try lia); [done|].
  rewrite (wrap_small 32 (digits10 value - 1)) by (unfold in_u; lia).
  replace (digits10 value - 1 + 1) with (digits10 value) by lia.
  rewrite (wrap_small 32) by (unfold in_u; lia).
  assert (length (put dst (digits10 value) 0) = length dst) as Hl
    by (apply length_store; simpl; lia).
  pose proof (ull2string_loop_spec 10 (put dst (digits10 value) 0) value (digits10 value - 1)) as Hloop.
  destruct (ull2string_loop _ _ _ _) as [[d v'] n']. rewrite Hloop.
  - f_equal. unfold put. replace (S (Z.to_nat (digits10 value - 1))) with (Z.to_nat (digits10 value)) by lia.
    fold ds. assert (length ds = Z.to_nat (digits10 value)) as Hds by apply length_dec_fixed.
    rewrite <- Hds. apply (store_app dst 0). simpl. lia.
  - lia.
  - lia.
  - lia.
  - replace (digits10 value - 1 + 1) with (digits10 value) by lia. unfold in_u in Hv. lia.
  - destruct Hge as [?|[? ?]]; [by left|right; lia].
Qed.

Lemma repr_digits n : 0 <= n -> Forall (fun c => 48 <= c <= 57) (repr n).
Proof.
  intros Hn. unfold repr. destruct (Z.ltb_spec n 0); [lia|].
  exact (dec_fixed_digits _ _).
Qed.

Lemma repr_length v : in_s 64 v -> Z.of_nat (length (repr v)) = sdigits10 v /\ sdigits10 v <= 20.
Proof.
  unfold in_s, repr, sdigits10, LLONG_MIN, LLONG_MAX. intros Hv.
  assert (forall x, 0 <= x <= 2 ^ 63 -> digits10 x <= 19) as Hd.
  { intros x Hx. destruct (digits10_bounds x ltac:(unfold in_u; lia)) as (H1 & H2 & [H3|[_ ->]]); [|lia].
    destruct (Z.le_gt_cases (digits10 x) 19) as [?|?]; [done|].
    pose proof (Z.pow_le_mono_r 10 19 (digits10 x - 1)). lia. }
  destruct (Z.ltb_spec v 0) as [Hneg|Hpos]; simpl length; rewrite length_dec_fixed.
  - destruct (digits10_bounds (- v) ltac:(unfold in_u; lia)) as (H1 & _ & _).
    specialize (Hd (- v)).
    destruct (Z.eqb_spec v (- 2 ^ 63)) as [->|Hne]; cbn [negb]; [vm_compute; split; congruence|].
    rewrite wrap_small by (unfold in_u; lia). lia.
  - destruct (digits10_bounds v ltac:(unfold in_u; lia)) as (H1 & _ & _).
    specialize (Hd v). lia.
Qed.

Lemma drop_put0 dst c : drop 1 (put dst 0 c) = drop 1 dst.
Proof. unfold put, store. simpl. done. Qed.

Lemma ll2string_spec dst dstlen v :
  in_s 64 v -> dstlen = Z.of_nat (length dst) ->
  if sdigits10 v <? dstlen then
    ll2string dst dstlen v = (store dst 0 (repr v ++ [0]), sdigits10 v)
  else snd (ll2string dst dstlen v) = 0.
Proof.
  intros Hv Hl. unfold ll2string, sdigits10, repr, LLONG_MIN, LLONG_MAX in *.
  unfold in_s in Hv. destruct (Z.ltb_spec v 0) as [Hneg|Hpos].
  - set (uv := if negb _ then _ else _). assert (uv = - v) as Huv.
    { unfold uv. destruct (Z.eqb_spec v (- 2 ^ 63)) as [->|?]; cbn [negb]; [reflexivity|].
      apply wrap_small. unfold in_u. lia. }
    rewrite Huv. assert (in_u 64 (- v)) as Hu by (unfold in_u; lia).
    destruct (digits10_bounds (- v) Hu) as (Hd & _).
    destruct (Z.ltb_spec dstlen 2) as [H2|H2]; [case_bool; [lia|done]|].
    destruct dst as [|x dst]; [simpl in Hl; lia|]. rewrite drop_put0.
    change (drop 1 (x :: dst)) with dst. simpl in Hl.
    rewrite (ull2string_spec dst (dstlen - 1) (- v) Hu ltac:(lia)).
    destruct (Z.ltb_spec (digits10 (- v) + 1) dstlen), (Z.ltb_spec (digits10 (- v)) (dstlen - 1));
      try lia; [|done].
    destruct (Z.eqb_spec (digits10 (- v)) 0); [lia|]. f_equal.
  - assert (in_u 64 v) as Hu by (unfold in_u; lia).
    destruct (digits10_bounds v Hu) as (Hd & _).
    rewrite (ull2string_spec dst dstlen v Hu Hl).
    destruct (Z.ltb_spec (digits10 v) dstlen); [|done].
    destruct (Z.eqb_spec (digits10 v) 0); [lia|]. by rewrite Z.add_0_r.
Qed.

(** ** Parsing *)

Lemma eval_dec_mono v ds : Forall is_digit ds -> 0 <= v -> v <= eval_dec v ds.
Proof.
  intros Hd Hv. rewrite eval_dec_acc. pose proof (eval_dec_bounds ds Hd). nia.
Qed.

Definition stops (rest : list Z) : Prop :=
  match rest with [] => True | c :: _ => ~ is_digit c end.

Lemma string2ll_loop_spec ds rest v :
  Forall is_digit ds -> stops rest -> 0 <= v <= ULLONG_MAX ->
  string2ll_loop (ds ++ rest) v =
    if eval_dec v ds <=? ULLONG_MAX then Some (eval_dec v ds, rest) else None.
Proof.
  intros Hd Hr. revert v. induction Hd as [|c ds Hc Hd IH]; intros v Hv; simpl.
  - change (eval_dec v []) with v. destruct (Z.leb_spec v ULLONG_MAX); [|lia].
    destruct rest as [|c rest]; simpl; [done|]. simpl in Hr. unfold is_digit in Hr.
    destruct (Z.leb_spec 48 c), (Z.leb_spec c 57); simpl; done || lia.
  - unfold is_digit in Hc.
    destruct (Z.leb_spec 48 c), (Z.leb_spec c 57); simpl; try lia.
    pose proof (eval_dec_mono (v * 10 + (c - 48)) ds Hd ltac:(lia)) as Hm.
    change (eval_dec v (c :: ds)) with (eval_dec (v * 10 + (c - 48)) ds).
    unfold ULLONG_MAX in *.
    destruct (Z.ltb_spec ((2 ^ 64 - 1) / 10) v) as [Ho|Ho].
    { case_bool; [zdiv|done]. }
    destruct (Z.ltb_spec (2 ^ 64 - 1 - (c - 48)) (v * 10)) as [Ho'|Ho'].
    { case_bool; [lia|done]. }
    apply IH. lia.
Qed.

Lemma digits_span p : exists ds rest, p = ds ++ rest /\ Forall is_digit ds /\ stops rest.
Proof.
  induction p as [|c p (ds & rest & -> & Hd & Hr)].
  - exists [], []. repeat split; constructor.
  - destruct (decide (48 <= c <= 57)) as [Hc|Hc].
    + exists (c :: ds), rest. repeat split; [by constructor|done].
    + exists [], (c :: ds ++ rest). repeat split; [constructor|done].
Qed.

(** What the digit part of [string2ll] accepts: a nonzero first digit, only
    digits, and a value that fits. *)
Definition parse_pos (p : list Z) : option Z :=
  match p with
  | [] => None
  | c :: p' =>
      if (49 <=? c) && (c <=? 57) then
        match string2ll_loop p' (c - 48) with
        | Some (v, []) => Some v
        | _ => None
        end
      else None
  end.

Lemma parse_pos_spec p v :
  parse_pos p = Some v <->
  0 < v <= ULLONG_MAX /\ p = dec_fixed (Z.to_nat (digits10 v)) v.
Proof.
  split.
  - destruct p as [|c p]; simpl; [done|].
    destruct (Z.leb_spec 49 c), (Z.leb_spec c 57); simpl; try done.
    destruct (digits_span p) as (ds & rest & -> & Hd & Hr).
    rewrite string2ll_loop_spec by (done || unfold ULLONG_MAX; lia).
    destruct (Z.leb_spec (eval_dec (c - 48) ds) ULLONG_MAX) as [Hle|]; [|done].
    destruct rest; [|done]. intros [= <-].
    pose proof (eval_dec_mono (c - 48) ds Hd ltac:(lia)).
    split; [lia|]. rewrite app_nil_r.
    assert (Forall is_digit (c :: ds)) as Hcd by (constructor; [unfold is_digit; lia|done]).
    change (eval_dec (c - 48) ds) with (eval_dec 0 (c :: ds)) in *.
    rewrite (digits10_unique _ (Z.of_nat (length (c :: ds)))).
    + rewrite Nat2Z.id, dec_fixed_eval by done. done.
    + unfold in_u, ULLONG_MAX in *. lia.
    + simpl length. lia.
    + apply (eval_dec_bounds (c :: ds) Hcd).
    + left. simpl length. replace (Z.of_nat (S (length ds)) - 1) with (Z.of_nat (length ds)) by lia.
      change (eval_dec 0 (c :: ds)) with (eval_dec (c - 48) ds). rewrite eval_dec_acc.
      pose proof (eval_dec_bounds ds Hd). nia.
  - intros [Hv ->]. assert (in_u 64 v) as Hu by (unfold in_u, ULLONG_MAX in *; lia).
    destruct (digits10_bounds v Hu) as (Hd & Hlt & [Hge|[? ?]]); [|lia].
    set (n := Z.to_nat (digits10 v)).
    pose proof (dec_fixed_digits n v) as Hdig. pose proof (length_dec_fixed n v) as Hlen.
    assert (eval_dec 0 (dec_fixed n v) = v) as Hev
      by (rewrite eval_dec_fixed; unfold n; rewrite ?Z2Nat.id; lia).
    destruct (dec_fixed n v) as [|c p]; [simpl in Hlen; lia|]. simpl in Hlen.
    inversion_clear Hdig as [|? ? Hc Hp]. unfold is_digit in Hc.
    change (eval_dec 0 (c :: p)) with (eval_dec (c - 48) p) in Hev.
    assert (c <> 48).
    { intros ->. rewrite eval_dec_acc in Hev. pose proof (eval_dec_bounds p Hp).
      replace (digits10 v - 1) with (Z.of_nat (length p)) in Hge by lia. lia. }
    cbn [parse_pos]. destruct (Z.leb_spec 49 c), (Z.leb_spec c 57); simpl; try lia.
    rewrite <- (app_nil_r p), string2ll_loop_spec by (done || unfold ULLONG_MAX; lia).
    rewrite Hev. destruct (Z.leb_spec v ULLONG_MAX); [done|lia].
Qed.

Lemma string2ll_alt s :
  string2ll s =
    if (Z.of_nat (length s) =? 0) || (LONG_STR_SIZE <=? Z.of_nat (length s)) then None
    else if (Z.of_nat (length s) =? 1) && (nth 0 s 0 =? 48) then Some 0
    else if nth 0 s 0 =? 45 then
      match parse_pos (drop 1 s) with
      | Some v => if 2 ^ 63 <? v then None else Some (s64 (u64 (- v)))
      | None => None
      end
    else match parse_pos s with
         | Some v => if LLONG_MAX <? v then None else Some v
         | None => None
         end.
Proof.
  unfold string2ll. destruct (_ || _); [done|]. destruct (_ && _); [done|].
  destruct (nth 0 s 0 =? 45); unfold parse_pos;
    [destruct (drop 1 s) as [|c p]|destruct s as [|c p]]; try done;
    destruct (_ && _); try done;
    destruct (string2ll_loop p (c - 48)) as [[v []]|]; done.
Qed.

Lemma repr_head v : in_s 64 v ->
  repr v <> [] /\ (nth 0 (repr v) 0 = 45 <-> v < 0) /\
  (length (repr v) = 1%nat /\ nth 0 (repr v) 0 = 48 <-> v = 0).
Proof.
  intros Hv. unfold repr, in_s in *. destruct (Z.ltb_spec v 0) as [Hn|Hn].
  - split; [done|]. split; [done|]. split; [intros [_ H]; simpl in H; lia|lia].
  - destruct (digits10_bounds v ltac:(unfold in_u; lia)) as (Hd & Hlt & Hge).
    set (n := Z.to_nat (digits10 v)).
    pose proof (dec_fixed_digits n v) as Hdig. pose proof (length_dec_fixed n v) as Hlen.
    assert (eval_dec 0 (dec_fixed n v) = v) as Hev
      by (rewrite eval_dec_fixed; unfold n; rewrite ?Z2Nat.id; lia).
    destruct (dec_fixed n v) as [|c p]; [simpl in Hlen; lia|].
    inversion_clear Hdig as [|? ? Hc _]. unfold is_digit in Hc.
    split; [done|]. split; [simpl; lia|]. split.
    + intros [Hl Hc48]. destruct p; [|done]. unfold eval_dec in Hev; simpl in *. lia.
    + intros ->. destruct Hge as [Hge|[_ H1]]; [pose proof (Z.pow_pos_nonneg 10 (digits10 0 - 1)); lia|].
      destruct p; simpl in Hlen; [|lia]. unfold eval_dec in Hev; simpl in *. lia.
Qed.

Lemma string2ll_spec s v : string2ll s = Some v <-> in_s 64 v /\ s = repr v.
Proof.
  rewrite string2ll_alt. split.
  - destruct (_ || _) eqn:E1; [done|].
    destruct (_ && _) eqn:E2.
    { intros [= <-]. split; [unfold in_s; lia|]. zbool.
      destruct s as [|c [|]]; simpl in *; try lia. by subst. }
    destruct (Z.eqb_spec (nth 0 s 0) 45) as [H45|H45].
    + destruct s as [|c p]; [done|]. simpl in H45. subst c. change (drop 1 (45 :: p)) with p.
      destruct (parse_pos p) as [u|] eqn:Hp; [|done]. apply parse_pos_spec in Hp as [Hu ->].
      destruct (Z.ltb_spec (2 ^ 63) u); [done|]. intros [= <-].
      rewrite swrap_wrap, swrap_small by (unfold in_s; lia).
      split; [unfold in_s; lia|]. unfold repr. destruct (Z.ltb_spec (- u) 0); [|lia].
      by rewrite Z.opp_involutive.
    + destruct (parse_pos s) as [u|] eqn:Hp; [|done]. apply parse_pos_spec in Hp as [Hu ->].
      destruct (Z.ltb_spec LLONG_MAX u); [done|]. intros [= <-]. unfold LLONG_MAX in *.
      split; [unfold in_s; lia|]. unfold repr. by destruct (Z.ltb_spec u 0); [lia|].
  - intros [Hv ->]. destruct (repr_length v Hv) as [Hl Hl20].
    destruct (repr_head v Hv) as (Hne & H45 & H48).
    unfold LONG_STR_SIZE. destruct (_ || _) eqn:E1.
    { assert (length (repr v) <> 0%nat) by (destruct (repr v); done).
      apply orb_true_iff in E1 as [E1|E1]; zbool; lia. }
    destruct (_ && _) eqn:E2; [zbool; f_equal; symmetry; apply H48; lia|].
    assert (v <> 0) by (intros ->; vm_compute in E2; done). clear H48 E1 E2.
    unfold in_s in Hv. destruct (Z.eqb_spec (nth 0 (repr v) 0) 45) as [Hc|Hc].
    + assert (v < 0) by tauto. unfold repr. destruct (Z.ltb_spec v 0); [|lia].
      change (drop 1 (45 :: ?l)) with l.
      rewrite (proj2 (parse_pos_spec _ (- v))) by (unfold ULLONG_MAX; split; [lia|done]).
      destruct (Z.ltb_spec (2 ^ 63) (- v)); [lia|].
      by rewrite swrap_wrap, Z.opp_involutive, swrap_small by (unfold in_s; lia).
    + assert (0 <= v) by lia. unfold repr. destruct (Z.ltb_spec v 0); [lia|].
      rewrite (proj2 (parse_pos_spec _ v)) by (unfold ULLONG_MAX; split; [lia|done]).
      unfold LLONG_MAX. destruct (Z.ltb_spec (2 ^ 63 - 1) v); [lia|done].
Qed.

(** Printing and parsing are inverse.  For every [long long] and every
    buffer that has room for the text and its terminator, [ll2string] writes the
    canonical decimal text followed by a NUL and touches nothing else, returns
    its length, and [string2ll] reads the same value back from it; a buffer
    without room gives 0. *)
Theorem ll2string_string2ll_roundtrip dst v : in_s 64 v ->
  (sdigits10 v < Z.of_nat (length dst) ->
     ll2string dst (Z.of_nat (length dst)) v = (store dst 0 (repr v ++ [0]), sdigits10 v) /\
     length (store dst 0 (repr v ++ [0])) = length dst /\
     string2ll (load (store dst 0 (repr v ++ [0])) 0 (Z.to_nat (sdigits10 v))) = Some v) /\
  (Z.of_nat (length dst) <= sdigits10 v ->
     snd (ll2string dst (Z.of_nat (length dst)) v) = 0).
Proof.
  intros Hv. destruct (repr_length v Hv) as [Hl _].
  pose proof (ll2string_spec dst _ v Hv eq_refl) as Hs. split; intros Hd.
  - destruct (Z.ltb_spec (sdigits10 v) (Z.of_nat (length dst))); [|lia].
    assert (0 + length (repr v ++ [0%Z]) <= length dst)%nat
      by (rewrite length_app; simpl; lia).
    split; [done|]. split; [by apply length_store|]. apply string2ll_spec. split; [done|].
    rewrite load_store_in by (rewrite ?length_app in *; simpl in *; lia).
    unfold load. rewrite Nat.sub_diag, drop_0, take_app_length' by lia. done.
  - destruct (Z.ltb_spec (sdigits10 v) (Z.of_nat (length dst))); [lia|done].
Qed.

(** Strictness of [string2ll]: it accepts exactly the canonical texts of
    the 64-bit integers, so no byte of an accepted string is lost when the value
    is printed again.  Leading zeroes, "-0", a plus sign, spaces, trailing bytes
    and out-of-range numbers are all rejected; [string2l] agrees with it. *)
Theorem string2ll_strict s v :
  (string2ll s = Some v <-> in_s 64 v /\ s = repr v) /\ string2l s = string2ll s.
Proof.
  split; [apply string2ll_spec|]. unfold string2l.
  destruct (string2ll s) as [u|] eqn:E; [|done].
  apply string2ll_spec in E as [Hu _]. unfold in_s, LLONG_MIN, LLONG_MAX in *.
  destruct (Z.ltb_spec u (- 2 ^ 63)), (Z.ltb_spec (2 ^ 63 - 1) u); simpl; done || lia.
Qed.

Lemma ll2string_string2ll_roundtrip_witness :
  sdigits10 (-120) < Z.of_nat (length (repeat 7 8)) /\
  string2ll (load (fst (ll2string (repeat 7 8) 8 (-120))) 0 4) = Some (-120).
Proof.
  split; [reflexivity|].
  destruct (ll2string_string2ll_roundtrip (repeat 7 8) (-120)) as [H _]; [unfold in_s; lia|].
  destruct (H ltac:(reflexivity)) as (E & _ & R). exact R.
Defined.

End NumStr.
