(* ===== verification/Glob.v ===== *)
(** * Glob: glob-style matching, stringmatchlen of util.c

    Patterns and strings are byte lists; a read one past the end of the pattern
    yields the NUL that terminates every sds string.  A pattern position is the
    suffix that starts there.  The flag [*skipLongerMatches], which every level
    of the recursion shares, is threaded through the calls.  The lengths, which are
    [int]s in the code, are those of the lists: below 2^31 bytes they are the same. *)
From S2P Require Import Prelude.

Module Glob.

Definition STAR : Z := 42.
Definition QMARK : Z := 63.
Definition LBRACK : Z := 91.
Definition RBRACK : Z := 93.
Definition BSLASH : Z := 92.
Definition CARET : Z := 94.
Definition DASH : Z := 45.

Definition tolower (c : Z) : Z := if (65 <=? c) && (c <=? 90) then c + 32 else c.

(** [pattern[0]] and [pattern[1]] *)
Definition at0 (p : list Z) : Z := nth 0 p 0.
Definition at1 (p : list Z) : Z := nth 1 p 0.

(** [if (!nocase) a == b else tolower(a) == tolower(b)] *)
Definition char_eq (nocase : bool) (a b : Z) : bool :=
  if nocase then tolower a =? tolower b else a =? b.

(** [start-end] with the bounds swapped if needed; chars are signed. *)
Definition in_range (nocase : bool) (a b c : Z) : bool :=
  let start := s8 a in
  let stop := s8 b in
  let c := s8 c in
  let '(start, stop) := if stop <? start then (stop, start) else (start, stop) in
  let '(start, stop, c) :=
    if nocase then (tolower start, tolower stop, tolower c) else (start, stop, c) in
  (start <=? c) && (c <=? stop).

(** The [while(1)] loop of a character class.  It returns the match flag and
    the pattern after the [pattern++] that ends the switch: past the closing
    bracket, or the end of the pattern when the class is not closed. *)
Fixpoint class_loop (fuel : nat) (nocase : bool) (p : list Z) (c : Z) (m : bool)
  : bool * list Z :=
  match fuel with
  | O => (m, [])
  | S fuel' =>
      if (at0 p =? BSLASH) && (2 <=? length p)%nat then
        class_loop fuel' nocase (drop 2 p) c (m || (at1 p =? c))
      else if at0 p =? RBRACK then (m, drop 1 p)
      else if (length p =? 0)%nat then (m, [])
      else if (3 <=? length p)%nat && (at1 p =? DASH) then
        class_loop fuel' nocase (drop 3 p) c (m || in_range nocase (at0 p) (nth 2 p 0) c)
      else class_loop fuel' nocase (drop 1 p) c (m || char_eq nocase (at0 p) c)
  end.

(** One pattern element other than a star against one character: whether it
    matches, and the rest of the pattern. *)
Definition match_one (nocase : bool) (p : list Z) (c : Z) : bool * list Z :=
  if at0 p =? QMARK then (true, drop 1 p)
  else if at0 p =? LBRACK then
    let p := drop 1 p in
    let neg := at0 p =? CARET in
    let p := if neg then drop 1 p else p in
    let '(m, p) := class_loop (S (length p)) nocase p c false in
    (xorb neg m, p)
  else
    let p := if (at0 p =? BSLASH) && (2 <=? length p)%nat then drop 1 p else p in
    (char_eq nocase (at0 p) c, drop 1 p).

(** [while (patternLen && pattern[1] == '*') pattern++] *)
Fixpoint skip_stars (p : list Z) : list Z :=
  match p with
  | _ :: p' => if at0 p' =? STAR then skip_stars p' else p
  | [] => []
  end.

(** [while ( *pattern == '*') pattern++] *)
Fixpoint drop_stars (p : list Z) : list Z :=
  match p with
  | c :: p' => if c =? STAR then drop_stars p' else p
  | [] => []
  end.

(** The loop of the star case: [rec] is the recursive call on the pattern
    after the star; the pair is (result, *skipLongerMatches). *)
Fixpoint star_loop (rec : list Z -> bool -> bool * bool) (s : list Z) (skip : bool)
  : bool * bool :=
  match s with
  | [] => (false, true)
  | _ :: s' =>
      let '(r, skip) := rec s skip in
      if r then (true, skip)
      else if skip then (false, skip)
      else star_loop rec s' skip
  end.

(** Every iteration and every recursive call shortens the pattern, so
    [S (length p)] units of fuel suffice. *)
Fixpoint stringmatchlen_impl (fuel : nat) (nocase : bool) (p s : list Z)
  (skip : bool) (nesting : Z) : bool * bool :=
  match fuel with
  | O => (false, skip)
  | S fuel' =>
      if 1000 <? nesting then (false, skip)
      else
        match p, s with
        | [], [] => (true, skip)
        | [], _ => (false, skip)
        | _, [] => (false, skip)
        | _, c :: s' =>
            if at0 p =? STAR then
              let p := skip_stars p in
              if (length p =? 1)%nat then (true, skip)
              else
                star_loop
                  (fun s skip => stringmatchlen_impl fuel' nocase (drop 1 p) s skip (nesting + 1))
                  s skip
            else
              let '(ok, p') := match_one nocase p c in
              if negb ok then (false, skip)
              else if (length s' =? 0)%nat then ((length (drop_stars p') =? 0)%nat, skip)
              else stringmatchlen_impl fuel' nocase p' s' skip nesting
        end
  end.

Definition stringmatchlen (nocase : bool) (p s : list Z) : bool :=
  fst (stringmatchlen_impl (S (length p)) nocase p s false 0).

(** ** Patterns

    The grammar of patterns and what its parts accept, written without the loops of the
    code: [first p t r] reads the part [t] at the start of [p] and leaves [r]. *)

Inductive item := Exact (c : Z) | Single (c : Z) | Between (a b : Z).
Inductive token := Any | Lit (c : Z) | Class_ (negated : bool) (l : list item).

(** What stands between the brackets of a class: an escaped character, a range, or a
    character; a class that is not closed ends with the pattern. *)
Inductive items : list Z -> list item -> list Z -> Prop :=
| i_close p : items (RBRACK :: p) [] p
| i_open : items [] [] []
| i_escape c p l r : items p l r -> items (BSLASH :: c :: p) (Exact c :: l) r
| i_range a b p l r : a <> RBRACK -> a <> BSLASH -> items p l r -> items (a :: DASH :: b :: p) (Between a b :: l) r
| i_single a p l r : a <> RBRACK -> (a = BSLASH -> p = []) -> (forall b q, p <> DASH :: b :: q) -> items p l r -> items (a :: p) (Single a :: l) r.

Inductive first : list Z -> token -> list Z -> Prop :=
| f_any p : first (QMARK :: p) Any p
| f_negated p l r : items p l r -> first (LBRACK :: CARET :: p) (Class_ true l) r
| f_class p l r : (forall q, p <> CARET :: q) -> items p l r -> first (LBRACK :: p) (Class_ false l) r
| f_escape c p : first (BSLASH :: c :: p) (Lit c) p
| f_lit c p : c <> QMARK -> c <> LBRACK -> c <> STAR -> (c = BSLASH -> p = []) -> first (c :: p) (Lit c) p.

(** Without regard to case, the letters A to Z are a to z. *)
Definition fold_case (nocase : bool) (c : Z) : Z := if nocase then (if decide (65 <= c <= 90) then c + 32 else c) else c.

(** A range is one of signed characters, whichever end is given first. *)
Definition in_item (nocase : bool) (i : item) (c : Z) : Prop :=
  match i with
  | Exact a => c = a
  | Single a => fold_case nocase c = fold_case nocase a
  | Between a b => fold_case nocase (Z.min (s8 a) (s8 b)) <= fold_case nocase (s8 c) <= fold_case nocase (Z.max (s8 a) (s8 b))
  end.

Definition accepts (nocase : bool) (t : token) (c : Z) : Prop :=
  match t with
  | Any => True
  | Lit a => fold_case nocase c = fold_case nocase a
  | Class_ negated l => if negated then Forall (fun i => ~ in_item nocase i c) l else Exists (fun i => in_item nocase i c) l
  end.

Inductive glob (nocase : bool) : list Z -> list Z -> Prop :=
| g_nil : glob nocase [] []
| g_star_skip p s : glob nocase p s -> glob nocase (STAR :: p) s
| g_star_eat p c s : glob nocase (STAR :: p) s -> glob nocase (STAR :: p) (c :: s)
| g_one p t p' c s : first p t p' -> accepts nocase t c -> glob nocase p' s -> glob nocase p (c :: s).

(** The same with the reading of the code; the two agree by [glob_matches]. *)
Inductive matches (nocase : bool) : list Z -> list Z -> Prop :=
| m_nil : matches nocase [] []
| m_star_skip p s : matches nocase p s -> matches nocase (STAR :: p) s
| m_star_eat p c s : matches nocase (STAR :: p) s -> matches nocase (STAR :: p) (c :: s)
| m_one p c p' s :
    p <> [] -> at0 p <> STAR -> match_one nocase p c = (true, p') ->
    matches nocase p' s -> matches nocase p (c :: s).

Definition stars (p : list Z) : Z := Z.of_nat (length (filter (fun c => c = STAR) p)).

Example g1 : stringmatchlen false (chars "h[^e-f]*l?o*") (chars "hallo") = true.
Proof. reflexivity. Qed.
Example g2 : stringmatchlen true (chars "FOO\*") (chars "foo*") = true.
Proof. reflexivity. Qed.
Example g3 : stringmatchlen false (chars "*ab*cd*") (chars "xxabxxcxxd") = false.
Proof. reflexivity. Qed.

(** ** Pattern elements *)

Lemma drop_suffix_of {A} n (l : list A) : drop n l `suffix_of` l.
Proof. exists (take n l). by rewrite take_drop. Qed.

Lemma suffix_cons_cases {A} (u : list A) c s :
  u `suffix_of` c :: s -> u = c :: s \/ u `suffix_of` s.
Proof.
  intros [[|x k] E]; simpl in E; [by left|right]. simplify_eq. by exists k.
Qed.

Lemma class_loop_rest fuel nocase p c c' m m' :
  snd (class_loop fuel nocase p c m) = snd (class_loop fuel nocase p c' m').
Proof.
  revert p m m'. induction fuel as [|fuel IH]; intros; cbn [class_loop]; [done|].
  repeat case_match; try done; apply IH.
Qed.

Lemma class_loop_suffix fuel nocase p c m :
  snd (class_loop fuel nocase p c m) `suffix_of` p.
Proof.
  revert p m. induction fuel as [|fuel IH]; intros; cbn [class_loop]; [apply suffix_nil|].
  repeat case_match; cbn [snd];
    first [apply suffix_nil | apply drop_suffix_of
          | etrans; [apply IH|apply drop_suffix_of]].
Qed.

(** The fuel of [class_loop] is never exhausted. *)
Lemma class_loop_fuel fuel fuel' nocase p c m :
  (length p < fuel)%nat -> (length p < fuel')%nat ->
  class_loop fuel nocase p c m = class_loop fuel' nocase p c m.
Proof.
  revert fuel' p m. induction fuel as [|fuel IH]; intros [|fuel'] p m H H'; try lia.
  cbn [class_loop]. destruct p as [|x p]; [done|].
  repeat case_match; try done; apply IH; simpl in *; rewrite ?length_drop; lia.
Qed.

Lemma match_one_rest nocase p c c' :
  snd (match_one nocase p c) = snd (match_one nocase p c').
Proof.
  unfold match_one. case_match; [done|]. case_match; [|done].
  set (q := if _ =? CARET then _ else _).
  pose proof (class_loop_rest (S (length q)) nocase q c c' false false) as H1.
  destruct (class_loop _ _ _ c _), (class_loop _ _ _ c' _). done.
Qed.

Lemma match_one_suffix nocase x p c : snd (match_one nocase (x :: p) c) `suffix_of` p.
Proof.
  unfold match_one. case_match; [done|]. case_match.
  - cbn [drop]. set (q := if _ =? CARET then _ else _).
    pose proof (class_loop_suffix (S (length q)) nocase q c false) as H1.
    destruct (class_loop _ _ _ c _). cbn [snd] in *. etrans; [exact H1|].
    unfold q. case_match; [apply drop_suffix_of|done].
  - case_match; cbn [snd drop]; [apply drop_suffix_of|done].
Qed.

(** ** Properties of the declarative semantics *)

Section Matches.
Context (nocase : bool).

Lemma matches_star p s : matches nocase (STAR :: p) s <->
  exists t, t `suffix_of` s /\ matches nocase p t.
Proof.
  split.
  - intros H. remember (STAR :: p) as q eqn:Eq. induction H; simplify_eq.
    + exists s. done.
    + destruct (IHmatches eq_refl) as (t & Ht & Hm). exists t. split; [by apply suffix_cons_r|done].
  - intros (t & [k ->] & Hm). induction k as [|c k IH]; simpl; by constructor.
Qed.

Lemma matches_one p s : p <> [] -> at0 p <> STAR ->
  matches nocase p s <->
  exists c s', s = c :: s' /\ fst (match_one nocase p c) = true /\
               matches nocase (snd (match_one nocase p c)) s'.
Proof.
  intros Hp Hs. split.
  - intros H. inversion H as [|? ? ?|? ? ? ?|? c p' s' ? ? E Hm]; subst; try done.
    exists c, s'. rewrite E. done.
  - intros (c & s' & -> & Ho & Hm). destruct (match_one nocase p c) as [ok p'] eqn:E.
    simpl in *. subst. by eapply m_one.
Qed.

Lemma skip_stars_spec p : exists q,
  skip_stars (STAR :: p) = STAR :: q /\ at0 q <> STAR /\ q `suffix_of` p /\
  forall s, matches nocase (STAR :: p) s <-> matches nocase (STAR :: q) s.
Proof.
  induction p as [|c p IH]; simpl.
  - exists []. repeat split; done.
  - destruct (Z.eqb_spec (at0 (c :: p)) STAR) as [E|E].
    + unfold at0 in E; simpl in E; subst c. destruct IH as (q & E & Hq & Hsuf & Hm).
      exists q. split; [exact E|]. split; [done|]. split; [by apply suffix_cons_r|].
      intros s. rewrite <- Hm, matches_star. split.
      * intros (t & [k ->] & H). rewrite matches_star in H. destruct H as (u & [k' ->] & H).
        apply matches_star. exists u. split; [|done]. exists (k ++ k'). by rewrite app_assoc.
      * intros H. exists s. done.
    + exists (c :: p). done.
Qed.

Lemma drop_stars_spec p : (length (drop_stars p) =? 0)%nat = true <-> matches nocase p [].
Proof.
  induction p as [|c p IH]; simpl; [split; [constructor|done]|].
  destruct (Z.eqb_spec c STAR) as [->|Hc].
  - rewrite IH, matches_star. split; [intros; by exists []|].
    intros (t & [k E] & H). destruct k, t; done.
  - split; [done|]. intros H. rewrite matches_one in H by done.
    by destruct H as (? & ? & ? & _).
Qed.
End Matches.

Lemma stars_suffix p q : p `suffix_of` q -> stars p <= stars q.
Proof. intros [k ->]. unfold stars. rewrite filter_app, length_app. lia. Qed.

Lemma stars_cons_star p : stars (STAR :: p) = stars p + 1.
Proof. unfold stars. rewrite filter_cons_True by done. simpl. lia. Qed.

Lemma suffix_length_le {A} (p q : list A) : p `suffix_of` q -> (length p <= length q)%nat.
Proof. intros [k ->]. rewrite length_app. lia. Qed.

(** ** The implementation agrees with the semantics *)

(** What one call promises: its result is right, and if it fails with the flag
    raised then the pattern matches no suffix of the string either. *)
Definition agrees (nocase : bool) (p s : list Z) (res : bool * bool) : Prop :=
  (fst res = true <-> matches nocase p s) /\
  (res = (false, true) -> forall t, t `suffix_of` s -> ~ matches nocase p t).

Lemma star_loop_spec nocase q rec s :
  q <> [] -> at0 q <> STAR ->
  (forall t, t `suffix_of` s -> t <> [] -> agrees nocase q t (rec t false)) ->
  agrees nocase (STAR :: q) s (star_loop rec s false).
Proof.
  intros Hq Hs. induction s as [|c s IH]; intros Hrec; cbn [star_loop].
  - assert (forall t, t `suffix_of` [] -> ~ matches nocase (STAR :: q) t) as Hno.
    { intros t [k E] H. destruct k, t; try done.
      apply matches_star in H as (u & [k' E'] & H). destruct k', u; try done.
      apply matches_one in H; [|done..]. by destruct H as (? & ? & ? & _). }
    split; [split; [done|]|done]. intros H. by apply Hno in H.
  - destruct (Hrec (c :: s)) as [H1 H2]; [done|done|].
    destruct (rec (c :: s) false) as [[] sk]; cbn [fst] in *.
    { split; [|done]. split; [|done]. intros _. apply m_star_skip. tauto. }
    assert (~ matches nocase q (c :: s)) as Hn by (intros H; by apply H1 in H).
    destruct sk.
    + assert (forall t, t `suffix_of` c :: s -> ~ matches nocase (STAR :: q) t) as Hno.
      { intros t Ht H. apply matches_star in H as (u & Hu & H).
        apply (H2 eq_refl u); [by etrans|done]. }
      split; [split; [done|]|done]. intros H. by apply Hno in H.
    + destruct IH as [G1 G2]; [intros t Ht; apply Hrec; by apply suffix_cons_r|].
      assert (forall t, t `suffix_of` c :: s ->
                matches nocase (STAR :: q) t -> matches nocase (STAR :: q) s) as Hrest.
      { intros t Ht H. apply matches_star in H as (u & Hu & H). apply matches_star.
        exists u. split; [|done]. assert (u `suffix_of` c :: s) as Hcs by (by etrans).
        apply suffix_cons_cases in Hcs as [->|?]; done. }
      split.
      * rewrite G1. split; [apply m_star_eat|]. by apply Hrest.
      * intros E t Ht H. apply Hrest in H; [|done]. by apply (G2 E s).
Qed.

Lemma impl_spec nocase fuel p s nesting :
  (length p < fuel)%nat -> s <> [] -> nesting + stars p <= 1000 ->
  agrees nocase p s (stringmatchlen_impl fuel nocase p s false nesting).
Proof.
  revert p s nesting. induction fuel as [|fuel IH]; intros p s nesting Hf Hs Hn; [lia|].
  cbn [stringmatchlen_impl].
  assert (0 <= stars p) by (unfold stars; lia).
  destruct (Z.ltb_spec 1000 nesting); [lia|]. destruct p as [|x p], s as [|c s]; try done.
  { split; [|done]. split; [done|]. intros H1; inversion H1; done. }
  destruct (Z.eqb_spec (at0 (x :: p)) STAR) as [Hx|Hx].
  - unfold at0 in Hx; simpl in Hx; subst x.
    destruct (skip_stars_spec nocase p) as (q & -> & Hq & Hsuf & Hm).
    pose proof (suffix_length_le _ _ Hsuf). pose proof (stars_suffix _ _ Hsuf).
    rewrite stars_cons_star in Hn.
    destruct (Nat.eqb_spec (length (STAR :: q)) 1) as [E|E].
    + destruct q; [|done]. split; [|done]. split; [|done]. intros _. apply Hm, matches_star.
      exists []. split; [apply suffix_nil|constructor].
    + change (drop 1 (STAR :: q)) with q.
      assert (q <> []) by (by destruct q).
      destruct (star_loop_spec nocase q
        (fun s skip => stringmatchlen_impl fuel nocase q s skip (nesting + 1)) (c :: s))
        as [G1 G2]; [done|done| |].
      { intros t Ht Hne. apply IH; [simpl in *; lia|done|lia]. }
      split; [by rewrite G1, Hm|]. intros E2 t Ht. rewrite Hm. by apply G2.
  - destruct (match_one nocase (x :: p) c) as [ok p'] eqn:Ho.
    pose proof (match_one_suffix nocase x p c) as Hsuf. rewrite Ho in Hsuf. cbn [snd] in Hsuf.
    pose proof (matches_one nocase (x :: p) (c :: s) ltac:(done) Hx) as Hm.
    assert (matches nocase (x :: p) (c :: s) <-> ok = true /\ matches nocase p' s) as Hm'.
    { rewrite Hm. split.
      - intros (c' & s' & [= <- <-] & H1 & H2). by rewrite Ho in *.
      - intros [-> H2]. exists c, s. by rewrite Ho. }
    destruct ok; cbn [negb]; [|split; [rewrite Hm'; split; [done|by intros [? ?]]|done]].
    destruct (Nat.eqb_spec (length s) 0) as [Es|Es].
    { destruct s; [|done]. split; [|by intros [= ?]].
      cbn [fst]. rewrite (drop_stars_spec nocase), Hm'. split; [by split|by intros [_ ?]]. }
    destruct (IH p' s nesting) as [G1 G2].
    { pose proof (suffix_length_le _ _ Hsuf). simpl in Hf. lia. }
    { by destruct s. }
    { pose proof (stars_suffix p' (x :: p)) as Hst. specialize (Hst (suffix_cons_r _ _ _ Hsuf)). lia. }
    split; [rewrite G1, Hm'; split; [by split|by intros [_ ?]]|].
    intros E t Ht H1. apply matches_one in H1 as (c' & t' & -> & _ & H1); [|done..].
    rewrite (match_one_rest _ _ c' c), Ho in H1. apply (G2 E t'); [|done].
    apply suffix_cons_cases in Ht as [[= _ <-]|Ht]; [done|].
    etrans; [|exact Ht]. by apply suffix_cons_r.
Qed.

(** ** The code reads the grammar *)

Lemma tolower_fold c : tolower c = fold_case true c.
Proof. unfold tolower, fold_case. case_decide; [rewrite !(proj2 (Z.leb_le _ _)) by lia; done|]. destruct (Z.leb_spec 65 c), (Z.leb_spec c 90); try done; lia. Qed.

Lemma char_eq_fold nocase a c : char_eq nocase a c = true <-> fold_case nocase c = fold_case nocase a.
Proof. unfold char_eq. destruct nocase; rewrite Z.eqb_eq, ?tolower_fold; [done|]. cbn. done. Qed.

Lemma in_range_item nocase a b c : in_range nocase a b c = true <-> in_item nocase (Between a b) c.
Proof.
  unfold in_range, in_item. destruct (Z.ltb_spec (s8 b) (s8 a)); [rewrite Z.min_r, Z.max_l by lia|rewrite Z.min_l, Z.max_r by lia]; destruct nocase; rewrite ?tolower_fold, andb_true_iff, !Z.leb_le; done.
Qed.

Lemma class_loop_items nocase c p l r : items p l r -> forall fuel m, (length p < fuel)%nat ->
  snd (class_loop fuel nocase p c m) = r /\ (fst (class_loop fuel nocase p c m) = true <-> m = true \/ Exists (fun i => in_item nocase i c) l).
Proof.
  assert (forall m (l : list item) (P : item -> Prop) b i, (b = true <-> P i) -> (m || b = true \/ Exists P l) <-> (m = true \/ Exists P (i :: l))) as Hor.
  { intros m l0 P b i Hb. rewrite Exists_cons, orb_true_iff, Hb. tauto. }
  induction 1 as [p| |a p l r H IH|a b p l r H1 H2 H IH|a p l r H1 H2 H3 H IH]; intros [|fuel] m Hf; cbn [length] in Hf; try lia; cbn [class_loop].
  - change (at0 (RBRACK :: p)) with RBRACK. cbn. split; [done|]. rewrite Exists_nil. tauto.
  - cbn. split; [done|]. rewrite Exists_nil. tauto.
  - change (at0 (BSLASH :: a :: p)) with BSLASH. change (at1 (BSLASH :: a :: p)) with a. cbn [Z.eqb length]. change ((BSLASH =? BSLASH) && (2 <=? S (S (length p)))%nat) with true. cbv iota. cbn [drop].
    destruct (IH fuel (m || (a =? c)) ltac:(lia)) as [E1 E2]. split; [exact E1|]. rewrite E2. apply (Hor m l _ _ (Exact a)). rewrite Z.eqb_eq. cbn. split; congruence.
  - change (at0 (a :: DASH :: b :: p)) with a. change (at1 (a :: DASH :: b :: p)) with DASH. rewrite (proj2 (Z.eqb_neq a BSLASH) H2), (proj2 (Z.eqb_neq a RBRACK) H1). cbn [andb length Nat.eqb Nat.leb drop nth]. change (DASH =? DASH) with true. cbv iota. cbn [andb].
    destruct (IH fuel (m || in_range nocase a b c) ltac:(lia)) as [E1 E2]. split; [exact E1|]. rewrite E2. apply Hor. apply in_range_item.
  - change (at0 (a :: p)) with a. assert ((a =? BSLASH) && (2 <=? length (a :: p))%nat = false) as -> by (destruct (Z.eqb_spec a BSLASH) as [E|]; [rewrite (H2 E); done|done]). rewrite (proj2 (Z.eqb_neq a RBRACK) H1). change (length (a :: p) =? 0)%nat with false. cbv iota.
    assert ((3 <=? length (a :: p))%nat && (at1 (a :: p) =? DASH) = false) as ->. { destruct p as [|x [|y p]]; try done. change (at1 (a :: x :: y :: p)) with x. destruct (Z.eqb_spec x DASH) as [->|]; [by destruct (H3 y p)|by rewrite andb_false_r]. }
    cbn [drop]. destruct (IH fuel (m || char_eq nocase a c) ltac:(lia)) as [E1 E2]. split; [exact E1|]. rewrite E2. apply (Hor m l _ _ (Single a)). apply char_eq_fold.
Qed.

Lemma items_total p : exists l r, items p l r.
Proof.
  remember (length p) as n eqn:En. revert p En. induction (lt_wf n) as [n _ IH]. intros p En. destruct p as [|a p]; [exists [], []; constructor|]. cbn [length] in En.
  destruct (decide (a = RBRACK)) as [->|H1]; [exists [], p; constructor|]. destruct (decide (a = BSLASH)) as [->|H2].
  - destruct p as [|c p]; cbn [length] in En; [exists [Single BSLASH], []; constructor; try done; constructor|]. destruct (IH (length p) ltac:(lia) p eq_refl) as (l & r & H). exists (Exact c :: l), r. by constructor.
  - destruct p as [|x [|y p]]; [exists [Single a], []; constructor; try done; constructor| |].
    + destruct (IH 1%nat ltac:(cbn in En; lia) [x] eq_refl) as (l & r & H). exists (Single a :: l), r. by constructor.
    + destruct (decide (x = DASH)) as [->|Hx]; cbn [length] in En.
      * destruct (IH (length p) ltac:(lia) p eq_refl) as (l & r & H). exists (Between a y :: l), r. by constructor.
      * destruct (IH (S (S (length p))) ltac:(lia) (x :: y :: p) eq_refl) as (l & r & H). exists (Single a :: l), r. constructor; try done. intros b q E. congruence.
Qed.

Lemma first_total p : p <> [] -> at0 p <> STAR -> exists t r, first p t r.
Proof.
  destruct p as [|c p]; [done|]. intros _ Hs. change (at0 (c :: p)) with c in Hs. destruct (decide (c = QMARK)) as [->|H1]; [exists Any, p; constructor|]. destruct (decide (c = LBRACK)) as [->|H2].
  - destruct p as [|x p]; [destruct (items_total []) as (l & r & H); exists (Class_ false l), r; by constructor|]. destruct (decide (x = CARET)) as [->|Hx]; [destruct (items_total p) as (l & r & H); exists (Class_ true l), r; by constructor|].
    destruct (items_total (x :: p)) as (l & r & H). exists (Class_ false l), r. constructor; [|done]. congruence.
  - destruct (decide (c = BSLASH)) as [->|H3]; [|exists (Lit c), p; by constructor]. destruct p as [|x p]; [exists (Lit BSLASH), []; by constructor|]. exists (Lit x), p. constructor.
Qed.

Lemma match_one_first nocase c p t r : first p t r -> p <> [] /\ at0 p <> STAR /\ snd (match_one nocase p c) = r /\ (fst (match_one nocase p c) = true <-> accepts nocase t c).
Proof.
  intros H. split; [by destruct H|]. split; [by destruct H|]. unfold match_one. cbv zeta. destruct H as [p|p l r H|p l r Hc H|x p|x p H1 H2 H3 H4].
  - done.
  - change (at0 (LBRACK :: CARET :: p)) with LBRACK. change (LBRACK =? QMARK) with false. change (LBRACK =? LBRACK) with true. cbn [drop]. change (at0 (CARET :: p) =? CARET) with true. cbv iota. destruct (class_loop_items nocase c p l r H (S (length p)) false ltac:(lia)) as [E1 E2]. destruct (class_loop _ _ _ _ _) as [m q]. cbn [fst snd] in *. split; [done|]. cbn [accepts]. destruct m; cbn [xorb negb].
    + split; [done|]. intros HF. destruct (proj1 E2 eq_refl) as [?|HE]; [done|]. rewrite Exists_exists in HE. destruct HE as (i & Hi & Hin). rewrite Forall_forall in HF. by destruct (HF i Hi).
    + split; [|done]. intros _. apply Forall_forall. intros i Hi Hin. assert (false = true) by (apply E2; right; apply Exists_exists; eauto). done.
  - change (at0 (LBRACK :: p)) with LBRACK. change (LBRACK =? QMARK) with false. change (LBRACK =? LBRACK) with true. rewrite !skipn_cons, !drop_0. assert ((at0 p =? CARET) = false) as ->. { destruct p as [|x p]; [done|]. change (at0 (x :: p)) with x. apply Z.eqb_neq. intros ->. by destruct (Hc p). } cbv iota.
    destruct (class_loop_items nocase c p l r H (S (length p)) false ltac:(lia)) as [E1 E2]. destruct (class_loop _ _ _ _ _) as [m q]. cbn [fst snd] in *. split; [done|]. cbn [accepts]. rewrite xorb_false_l, E2. split; [by intros [?|?]|by right].
  - change (at0 (BSLASH :: x :: p)) with BSLASH. change (BSLASH =? QMARK) with false. change (BSLASH =? LBRACK) with false. change ((BSLASH =? BSLASH) && (2 <=? length (BSLASH :: x :: p))%nat) with true. cbv iota. cbn [drop fst snd at0 nth]. split; [done|]. apply char_eq_fold.
  - change (at0 (x :: p)) with x. rewrite (proj2 (Z.eqb_neq x QMARK) H1), (proj2 (Z.eqb_neq x LBRACK) H2). assert ((x =? BSLASH) && (2 <=? length (x :: p))%nat = false) as -> by (destruct (Z.eqb_spec x BSLASH) as [E|]; [rewrite (H4 E); done|done]). cbn [drop fst snd at0 nth]. split; [done|]. apply char_eq_fold.
Qed.

Lemma glob_matches nocase p s : glob nocase p s <-> matches nocase p s.
Proof.
  split.
  - induction 1 as [| | |p t p' c s H1 H2 _ IH]; [constructor|by constructor|by constructor|]. destruct (match_one_first nocase c p t p' H1) as (Hp & Hs & E1 & E2). apply (m_one nocase p c p' s); [done|done| |done]. rewrite (surjective_pairing (match_one nocase p c)), E1. f_equal. by apply E2.
  - induction 1 as [| | |p c p' s Hp Hs E _ IH]; [constructor|by constructor|by constructor|]. destruct (first_total p Hp Hs) as (t & r & H). destruct (match_one_first nocase c p t r H) as (_ & _ & E1 & E2). rewrite E in E1, E2. cbn in E1, E2. subst r. apply (g_one nocase p t p' c s); [done|by apply E2|done].
Qed.

(** C36: on a non-empty string and a pattern with at most 1000 stars (the nesting limit)
    [stringmatchlen] answers whether the pattern, read by the grammar of parts, classes
    and ranges, matches the string: the scanning of classes with its negation, escapes and
    ranges, the [skipLongerMatches] cut-off and the collapsing of runs of stars change no
    answer. *)
Theorem stringmatchlen_correct nocase p s : s <> [] -> stars p <= 1000 ->
  stringmatchlen nocase p s = true <-> glob nocase p s.
Proof. intros Hs Hn. rewrite glob_matches. apply (impl_spec nocase (S (length p)) p s 0); [lia|done|lia]. Qed.

(** On the empty string only the empty pattern is accepted: the loop is
    never entered, so a pattern made of stars, which the semantics lets match
    the empty string, is refused. *)
Theorem stringmatchlen_empty_string nocase p :
  (stringmatchlen nocase p [] = true <-> p = []) /\
  glob nocase [STAR] [] /\ stringmatchlen nocase [STAR] [] = false.
Proof.
  split; [|split; [|done]].
  - unfold stringmatchlen. cbn. destruct p; done.
  - apply g_star_skip. constructor.
Qed.

Lemma stringmatchlen_correct_witness :
  stars (chars "a*b?[c-e]") <= 1000 /\ glob false (chars "a*b?[c-e]") (chars "axxbyd").
Proof.
  split; [vm_compute; congruence|].
  apply (stringmatchlen_correct false (chars "a*b?[c-e]") (chars "axxbyd"));
    [discriminate|vm_compute; congruence|reflexivity].
Defined.

End Glob.
