(* ===== verification/LpEntry.v ===== *)
(** * LpEntry: the entry encodings of listpack.c

    How one listpack element is laid out: an encoding byte, length bytes, the
    payload, and the length of all that again in a form that is parsed from the
    right.  A pointer into a listpack is an offset into its buffer. *)
From S2P Require Import Prelude NumStr.

Module LpEntry.
Import NumStr.

Definition UINT64_MAX : Z := 2 ^ 64 - 1.
Definition LP_EOF : Z := 255.
Definition LP_INTBUF_SIZE : Z := 21.

Definition IS_7BIT_UINT (byte : Z) : bool := Z.land byte 128 =? 0.
Definition IS_6BIT_STR (byte : Z) : bool := Z.land byte 192 =? 128.
Definition IS_13BIT_INT (byte : Z) : bool := Z.land byte 224 =? 192.
Definition IS_12BIT_STR (byte : Z) : bool := Z.land byte 240 =? 224.
Definition IS_16BIT_INT (byte : Z) : bool := Z.land byte 255 =? 241.
Definition IS_24BIT_INT (byte : Z) : bool := Z.land byte 255 =? 242.
Definition IS_32BIT_INT (byte : Z) : bool := Z.land byte 255 =? 243.
Definition IS_64BIT_INT (byte : Z) : bool := Z.land byte 255 =? 244.
Definition IS_32BIT_STR (byte : Z) : bool := Z.land byte 255 =? 240.

Definition STR_LEN_6BIT (b : list Z) (p : nat) : Z := Z.land (at_ b p) 63.
Definition STR_LEN_12BIT (b : list Z) (p : nat) : Z :=
  Z.lor (Z.shiftl (Z.land (at_ b p) 15) 8) (at_ b (p + 1)).
Definition STR_LEN_32BIT (b : list Z) (p : nat) : Z :=
  Z.lor (Z.lor (Z.lor (at_ b (p + 1)) (Z.shiftl (at_ b (p + 2)) 8))
    (Z.shiftl (at_ b (p + 3)) 16)) (Z.shiftl (at_ b (p + 4)) 24).

(** The digit loop of [lpStringToInt64]. *)
Fixpoint lpStringToInt64_loop (p : list Z) (v : Z) : option (Z * list Z) :=
  match p with
  | c :: p' =>
      if (48 <=? c) && (c <=? 57) then
        if UINT64_MAX / 10 <? v then None
        else
          let v := v * 10 in
          if UINT64_MAX - (c - 48) <? v then None
          else lpStringToInt64_loop p' (v + (c - 48))
      else Some (v, p)
  | [] => Some (v, [])
  end.

Definition lpStringToInt64 (s : list Z) : option Z :=
  let slen := Z.of_nat (length s) in
  if (slen =? 0) || (LONG_STR_SIZE <=? slen) then None
  else if (slen =? 1) && (nth 0 s 0 =? 48) then Some 0
  else
    let negative := nth 0 s 0 =? 45 in
    let p := if negative then drop 1 s else s in
    match p with
    | [] => None
    | c :: p' =>
        if (49 <=? c) && (c <=? 57) then
          match lpStringToInt64_loop p' (c - 48) with
          | None => None
          | Some (v, rest) =>
              if negb (Nat.eqb (length rest) 0) then None
              else if negative then
                if u64 (- (- 2 ^ 63 + 1)) + 1 <? v then None else Some (s64 (u64 (- v)))
              else if 2 ^ 63 - 1 <? v then None else Some v
          end
        else None
    end.

(** The bytes stored in [intenc]; [*enclen] is their number. *)
Definition lpEncodeIntegerGetType (v : Z) : list Z :=
  if (0 <=? v) && (v <=? 127) then [u8 v]
  else if (-4096 <=? v) && (v <=? 4095) then
    let v := if v <? 0 then 2 ^ 13 + v else v in
    [u8 (Z.lor (Z.shiftr v 8) 192); u8 (Z.land v 255)]
  else if (-32768 <=? v) && (v <=? 32767) then
    let v := if v <? 0 then 2 ^ 16 + v else v in
    [241; u8 (Z.land v 255); u8 (Z.shiftr v 8)]
  else if (-8388608 <=? v) && (v <=? 8388607) then
    let v := if v <? 0 then 2 ^ 24 + v else v in
    [242; u8 (Z.land v 255); u8 (Z.land (Z.shiftr v 8) 255); u8 (Z.shiftr v 16)]
  else if (-2147483648 <=? v) && (v <=? 2147483647) then
    let v := if v <? 0 then 2 ^ 32 + v else v in
    [243; u8 (Z.land v 255); u8 (Z.land (Z.shiftr v 8) 255);
     u8 (Z.land (Z.shiftr v 16) 255); u8 (Z.shiftr v 24)]
  else
    let uv := u64 v in
    [244; u8 (Z.land uv 255); u8 (Z.land (Z.shiftr uv 8) 255);
     u8 (Z.land (Z.shiftr uv 16) 255); u8 (Z.land (Z.shiftr uv 24) 255);
     u8 (Z.land (Z.shiftr uv 32) 255); u8 (Z.land (Z.shiftr uv 40) 255);
     u8 (Z.land (Z.shiftr uv 48) 255); u8 (Z.shiftr uv 56)].

(** [LP_ENCODING_INT] with the encoded bytes, or [LP_ENCODING_STRING]; the
    second component is [*enclen]. *)
Inductive enctype := ENC_INT (intenc : list Z) | ENC_STRING.

Definition lpEncodeGetType (ele : list Z) : enctype * Z :=
  let size := Z.of_nat (length ele) in
  match lpStringToInt64 ele with
  | Some v =>
      let intenc := lpEncodeIntegerGetType v in (ENC_INT intenc, Z.of_nat (length intenc))
  | None =>
      (ENC_STRING, if size <? 64 then 1 + size else if size <? 4096 then 2 + size else 5 + size)
  end.

(** The bytes written to [buf]; the return value is their number. *)
Definition lpEncodeBacklen (l : Z) : list Z :=
  if l <=? 127 then [u8 l]
  else if l <? 16383 then
    [u8 (Z.shiftr l 7); Z.lor (Z.land l 127) 128]
  else if l <? 2097151 then
    [u8 (Z.shiftr l 14); Z.lor (Z.land (Z.shiftr l 7) 127) 128; Z.lor (Z.land l 127) 128]
  else if l <? 268435455 then
    [u8 (Z.shiftr l 21); Z.lor (Z.land (Z.shiftr l 14) 127) 128;
     Z.lor (Z.land (Z.shiftr l 7) 127) 128; Z.lor (Z.land l 127) 128]
  else
    [u8 (Z.shiftr l 28); Z.lor (Z.land (Z.shiftr l 21) 127) 128;
     Z.lor (Z.land (Z.shiftr l 14) 127) 128; Z.lor (Z.land (Z.shiftr l 7) 127) 128;
     Z.lor (Z.land l 127) 128].

Definition backlen_size (l : Z) : Z := Z.of_nat (length (lpEncodeBacklen l)).

(** The loop runs at most five times: a sixth byte makes [shift > 28]. *)
Fixpoint lpDecodeBacklen_loop (fuel : nat) (b : list Z) (p : nat) (val shift : Z) : Z :=
  match fuel with
  | O => UINT64_MAX
  | S fuel' =>
      let val := Z.lor val (Z.shiftl (Z.land (at_ b p) 127) shift) in
      if Z.land (at_ b p) 128 =? 0 then val
      else
        let shift := shift + 7 in
        if 28 <? shift then UINT64_MAX
        else lpDecodeBacklen_loop fuel' b (p - 1) val shift
  end.

Definition lpDecodeBacklen (b : list Z) (p : nat) : Z := lpDecodeBacklen_loop 5 b p 0 0.

Definition lpEncodeString (s : list Z) : list Z :=
  let len := Z.of_nat (length s) in
  if len <? 64 then u8 (Z.lor len 128) :: s
  else if len <? 4096 then
    u8 (Z.lor (Z.shiftr len 8) 224) :: Z.land len 255 :: s
  else
    240 :: Z.land len 255 :: Z.land (Z.shiftr len 8) 255 :: Z.land (Z.shiftr len 16) 255
    :: Z.land (Z.shiftr len 24) 255 :: s.

Definition lpCurrentEncodedSizeUnsafe (b : list Z) (p : nat) : Z :=
  let x := at_ b p in
  if IS_7BIT_UINT x then 1
  else if IS_6BIT_STR x then u32 (1 + STR_LEN_6BIT b p)
  else if IS_13BIT_INT x then 2
  else if IS_16BIT_INT x then 3
  else if IS_24BIT_INT x then 4
  else if IS_32BIT_INT x then 5
  else if IS_64BIT_INT x then 9
  else if IS_12BIT_STR x then u32 (2 + STR_LEN_12BIT b p)
  else if IS_32BIT_STR x then u32 (5 + STR_LEN_32BIT b p)
  else if x =? LP_EOF then 1
  else 0.

Definition lpCurrentEncodedSizeBytes (b : list Z) (p : nat) : Z :=
  let x := at_ b p in
  if IS_7BIT_UINT x then 1
  else if IS_6BIT_STR x then 1
  else if IS_13BIT_INT x then 1
  else if IS_16BIT_INT x then 1
  else if IS_24BIT_INT x then 1
  else if IS_32BIT_INT x then 1
  else if IS_64BIT_INT x then 1
  else if IS_12BIT_STR x then 2
  else if IS_32BIT_STR x then 5
  else if x =? LP_EOF then 1
  else 0.

(** What [lpGetWithSize] returns with a NULL [intbuf]: an integer, or the offset
    and length of a string inside the buffer. *)
Inductive lpval := VInt (v : Z) | VStr (off : nat) (len : Z).

(** The unsigned to signed conversion at the end of [lpGetWithSize]. *)
Definition lpSignedValue (uval negstart negmax : Z) : Z :=
  if negstart <=? uval then s64 (- s64 (u64 (negmax - uval)) - 1) else s64 uval.

Definition u (b : list Z) (p : nat) (k : nat) (sh : Z) : Z := Z.shiftl (at_ b (p + k)) sh.

(** Returns the value and [*entry_size], which the invalid branch leaves as the
    caller initialized it. *)
Definition lpGetWithSize (b : list Z) (p : nat) (entry_size : Z) : lpval * Z :=
  let x := at_ b p in
  if IS_7BIT_UINT x then (VInt (lpSignedValue (Z.land x 127) UINT64_MAX 0), 2)
  else if IS_6BIT_STR x then
    let count := STR_LEN_6BIT b p in
    (VStr (p + 1) count, 1 + count + backlen_size (count + 1))
  else if IS_13BIT_INT x then
    (VInt (lpSignedValue (Z.lor (Z.shiftl (Z.land x 31) 8) (at_ b (p + 1))) (2 ^ 12) 8191), 3)
  else if IS_16BIT_INT x then
    (VInt (lpSignedValue (Z.lor (at_ b (p + 1)) (u b p 2 8)) (2 ^ 15) 65535), 4)
  else if IS_24BIT_INT x then
    (VInt (lpSignedValue (Z.lor (Z.lor (at_ b (p + 1)) (u b p 2 8)) (u b p 3 16))
       (2 ^ 23) (Z.shiftr (2 ^ 32 - 1) 8)), 5)
  else if IS_32BIT_INT x then
    (VInt (lpSignedValue
       (Z.lor (Z.lor (Z.lor (at_ b (p + 1)) (u b p 2 8)) (u b p 3 16)) (u b p 4 24))
       (2 ^ 31) (2 ^ 32 - 1)), 6)
  else if IS_64BIT_INT x then
    (VInt (lpSignedValue
       (Z.lor (Z.lor (Z.lor (Z.lor (Z.lor (Z.lor (Z.lor (at_ b (p + 1)) (u b p 2 8))
          (u b p 3 16)) (u b p 4 24)) (u b p 5 32)) (u b p 6 40)) (u b p 7 48)) (u b p 8 56))
       (2 ^ 63) UINT64_MAX), 10)
  else if IS_12BIT_STR x then
    let count := STR_LEN_12BIT b p in
    (VStr (p + 2) count, 2 + count + backlen_size (count + 2))
  else if IS_32BIT_STR x then
    let count := STR_LEN_32BIT b p in
    (VStr (p + 5) count, 5 + count + backlen_size (count + 5))
  else (VInt (lpSignedValue (12345678900000000 + x) UINT64_MAX 0), entry_size).

Definition lpGet (b : list Z) (p : nat) : lpval := fst (lpGetWithSize b p 0).

Definition lpGetIntegerValue (b : list Z) (p : nat) : option Z :=
  match lpGet b p with VInt v => Some v | VStr _ _ => None end.

(** With a non-NULL [intbuf] the element always comes back as a string. *)
Definition lpGetString (b : list Z) (p : nat) (intbuf : list Z) : list Z :=
  match lpGet b p with
  | VInt v =>
      let '(buf, n) := ll2string intbuf LP_INTBUF_SIZE v in load buf 0 (Z.to_nat n)
  | VStr off len => load b off (Z.to_nat len)
  end.

Definition lpCompare (b : list Z) (p : nat) (s : list Z) : bool :=
  if at_ b p =? LP_EOF then false
  else
    match lpGet b p with
    | VStr off len =>
        (Z.of_nat (length s) =? len) && bool_decide (load b off (length s) = s)
    | VInt sz =>
        match lpStringToInt64 s with
        | Some sval => sz =? sval
        | None => false
        end
    end.

Definition lpEntrySizeInteger (lval : Z) : Z :=
  let enclen := Z.of_nat (length (lpEncodeIntegerGetType lval)) in
  enclen + backlen_size enclen.

Definition lpEstimateBytesRepeatedInteger (lval rep : Z) : Z :=
  6 + lpEntrySizeInteger lval * rep + 1.

(** ** Elements *)

Inductive elem := EInt (v : Z) | EStr (s : list Z).

Definition encode_elem (e : elem) : list Z :=
  match e with EInt v => lpEncodeIntegerGetType v | EStr s => lpEncodeString s end.

Definition elem_ok (e : elem) : Prop :=
  match e with
  | EInt v => in_s 64 v
  | EStr s => bytes s /\ Z.of_nat (length s) + 5 < 2 ^ 32
  end.

(** The element as a string, what a caller that passes [intbuf] sees. *)
Definition elem_text (e : elem) : list Z :=
  match e with EInt v => repr v | EStr s => s end.

(** ** Integers, bit by bit *)

Section LorBytes.
Context (a b c d e f g h : Z).
Context (Ha : is_byte a) (Hb : is_byte b) (Hc : is_byte c) (Hd : is_byte d).
Context (He : is_byte e) (Hf : is_byte f) (Hg : is_byte g) (Hh : is_byte h).

Lemma lor2 : Z.lor a (Z.shiftl b 8) = le_decode [a; b].
Proof using Ha.
  unfold is_byte, in_u in *. rewrite lor_shiftl by lia. cbn [le_decode]. lia.
Qed.

Lemma lor3 : Z.lor (Z.lor a (Z.shiftl b 8)) (Z.shiftl c 16) = le_decode [a; b; c].
Proof using Ha Hb.
  rewrite lor2. unfold is_byte, in_u in *. rewrite lor_shiftl by (cbn [le_decode]; lia).
  cbn [le_decode]. lia.
Qed.

Lemma lor4 :
  Z.lor (Z.lor (Z.lor a (Z.shiftl b 8)) (Z.shiftl c 16)) (Z.shiftl d 24)
  = le_decode [a; b; c; d].
Proof using Ha Hb Hc.
  rewrite lor3. unfold is_byte, in_u in *. rewrite lor_shiftl by (cbn [le_decode]; lia).
  cbn [le_decode]. lia.
Qed.

Lemma lor8 :
  Z.lor (Z.lor (Z.lor (Z.lor (Z.lor (Z.lor (Z.lor a (Z.shiftl b 8)) (Z.shiftl c 16))
    (Z.shiftl d 24)) (Z.shiftl e 32)) (Z.shiftl f 40)) (Z.shiftl g 48)) (Z.shiftl h 56)
  = le_decode [a; b; c; d; e; f; g; h].
Proof using Ha Hb Hc Hd He Hf Hg.
  rewrite lor4. unfold is_byte, in_u in *.
  rewrite (lor_shiftl _ e 32) by (cbn [le_decode]; lia).
  rewrite (lor_shiftl _ f 40) by (cbn [le_decode]; lia).
  rewrite (lor_shiftl _ g 48) by (cbn [le_decode]; lia).
  rewrite (lor_shiftl _ h 56) by (cbn [le_decode]; lia).
  cbn [le_decode]. lia.
Qed.
End LorBytes.

Lemma u8_mod z : u8 z = z mod 256.
Proof. done. Qed.

Lemma u8_land z : u8 (Z.land z 255) = z mod 256.
Proof. rewrite land_255. apply Zmod_mod. Qed.

(** The code's unsigned image of a negative value. *)
Lemma unsigned_image k v : 0 < k -> in_s k v ->
  (if v <? 0 then 2 ^ k + v else v) = wrap k v.
Proof.
  unfold in_s, wrap. intros Hk Hv.
  assert (2 ^ k = 2 * 2 ^ (k - 1)) by (rewrite <- Z.pow_succ_r by lia; f_equal; lia).
  case_bool; [|rewrite Z.mod_small; lia].
  rewrite <- (Z.mod_add v 1 (2 ^ k)), Z.mod_small by lia. lia.
Qed.

Lemma signed_value k v : 0 < k <= 64 -> in_s k v ->
  lpSignedValue (wrap k v) (2 ^ (k - 1)) (2 ^ k - 1) = v.
Proof.
  intros Hk Hv. rewrite <- unsigned_image by (done || lia). unfold lpSignedValue, in_s in *.
  assert (2 ^ k = 2 * 2 ^ (k - 1)) by (rewrite <- Z.pow_succ_r by lia; f_equal; lia).
  pose proof (Z.pow_le_mono_r 2 (k - 1) 63).
  destruct (Z.ltb_spec v 0); case_bool; try lia.
  - rewrite wrap_small by (unfold in_u; lia).
    rewrite (swrap_small 64 (2 ^ k - 1 - (2 ^ k + v))) by (unfold in_s; lia).
    rewrite swrap_small by (unfold in_s; lia). lia.
  - rewrite swrap_small by (unfold in_s; lia). done.
Qed.

(** The multi-byte integer encodings are a tag and the little-endian bytes. *)
Lemma encode_int_cases v : in_s 64 v ->
  (0 <= v <= 127 /\ lpEncodeIntegerGetType v = [v]) \/
  (in_s 13 v /\ lpEncodeIntegerGetType v =
     [u8 (Z.lor (wrap 13 v / 256) 192); wrap 13 v mod 256]) \/
  (in_s 16 v /\ lpEncodeIntegerGetType v = 241 :: le_encode 2 (wrap 16 v)) \/
  (in_s 24 v /\ lpEncodeIntegerGetType v = 242 :: le_encode 3 (wrap 24 v)) \/
  (in_s 32 v /\ lpEncodeIntegerGetType v = 243 :: le_encode 4 (wrap 32 v)) \/
  (in_s 64 v /\ lpEncodeIntegerGetType v = 244 :: le_encode 8 (wrap 64 v)).
Proof.
  intros Hv. unfold lpEncodeIntegerGetType.
  destruct (_ && _) eqn:E1; [left; zbool; split; [lia|]; rewrite u8_mod, Z.mod_small by lia; done|right].
  clear E1. destruct (_ && _) eqn:E1; [left|right; clear E1; destruct (_ && _) eqn:E1;
    [left|right; clear E1; destruct (_ && _) eqn:E1;
      [left|right; clear E1; destruct (_ && _) eqn:E1; [left|right]]]]; zbool.
  - assert (in_s 13 v) as Hs by (unfold in_s; lia). split; [done|].
    rewrite (unsigned_image 13), u8_land, Z.shiftr_div_pow2 by (done || lia). done.
  - assert (in_s 16 v) as Hs by (unfold in_s; lia). split; [done|].
    rewrite (unsigned_image 16), u8_land, Z.shiftr_div_pow2 by (done || lia). done.
  - assert (in_s 24 v) as Hs by (unfold in_s; lia). split; [done|].
    rewrite (unsigned_image 24), !u8_land, !Z.shiftr_div_pow2 by (done || lia).
    cbn [le_encode]. rewrite !Z.div_div by lia. done.
  - assert (in_s 32 v) as Hs by (unfold in_s; lia). split; [done|].
    rewrite (unsigned_image 32), !u8_land, !Z.shiftr_div_pow2 by (done || lia).
    cbn [le_encode]. rewrite !Z.div_div by lia. done.
  - split; [done|]. rewrite !u8_land, !Z.shiftr_div_pow2 by lia.
    cbn [le_encode]. rewrite !Z.div_div by lia. done.
Qed.

Lemma tag_13bit h : 0 <= h < 32 ->
  let x := u8 (Z.lor h 192) in
  IS_7BIT_UINT x = false /\ IS_6BIT_STR x = false /\ IS_13BIT_INT x = true /\
  Z.land x 31 = h /\ (x =? LP_EOF) = false.
Proof.
  intros Hh. pose proof (range_check (fun h => let x := u8 (Z.lor h 192) in
    negb (IS_7BIT_UINT x) && negb (IS_6BIT_STR x) && IS_13BIT_INT x
    && (Z.land x 31 =? h) && negb (x =? LP_EOF)) 32 eq_refl h Hh) as H.
  cbv beta zeta in H. zbool. repeat split; try done; by apply Z.eqb_neq.
Qed.

Lemma tag_7bit v : 0 <= v < 128 ->
  IS_7BIT_UINT v = true /\ Z.land v 127 = v /\ (v =? LP_EOF) = false.
Proof.
  intros Hv. pose proof (range_check (fun v => IS_7BIT_UINT v && (Z.land v 127 =? v)
    && negb (v =? LP_EOF)) 128 eq_refl v Hv) as H. cbv beta in H. zbool.
  repeat split; try done; by apply Z.eqb_neq.
Qed.

Lemma tag_6bit n : 0 <= n < 64 ->
  let x := u8 (Z.lor n 128) in
  IS_7BIT_UINT x = false /\ IS_6BIT_STR x = true /\ Z.land x 63 = n /\ (x =? LP_EOF) = false.
Proof.
  intros Hh. pose proof (range_check (fun n => let x := u8 (Z.lor n 128) in
    negb (IS_7BIT_UINT x) && IS_6BIT_STR x && (Z.land x 63 =? n) && negb (x =? LP_EOF))
    64 eq_refl n Hh) as H.
  cbv beta zeta in H. zbool. repeat split; try done; by apply Z.eqb_neq.
Qed.

Lemma tag_12bit n : 0 <= n < 16 ->
  let x := u8 (Z.lor n 224) in
  IS_7BIT_UINT x = false /\ IS_6BIT_STR x = false /\ IS_13BIT_INT x = false /\
  IS_16BIT_INT x = false /\ IS_24BIT_INT x = false /\ IS_32BIT_INT x = false /\
  IS_64BIT_INT x = false /\ IS_12BIT_STR x = true /\ Z.land x 15 = n /\ (x =? LP_EOF) = false.
Proof.
  intros Hh. pose proof (range_check (fun n => let x := u8 (Z.lor n 224) in
    negb (IS_7BIT_UINT x) && negb (IS_6BIT_STR x) && negb (IS_13BIT_INT x)
    && negb (IS_16BIT_INT x) && negb (IS_24BIT_INT x) && negb (IS_32BIT_INT x)
    && negb (IS_64BIT_INT x) && IS_12BIT_STR x && (Z.land x 15 =? n)
    && negb (x =? LP_EOF)) 16 eq_refl n Hh) as H.
  cbv beta zeta in H. zbool. repeat split; try done; by apply Z.eqb_neq.
Qed.

(** Evaluates the encoding tests on a literal tag byte. *)
Ltac eval_tag :=
  repeat match goal with
  | |- context [IS_7BIT_UINT (Zpos ?x)] => let v := eval vm_compute in (IS_7BIT_UINT (Zpos x)) in change (IS_7BIT_UINT (Zpos x)) with v
  | |- context [IS_6BIT_STR (Zpos ?x)] => let v := eval vm_compute in (IS_6BIT_STR (Zpos x)) in change (IS_6BIT_STR (Zpos x)) with v
  | |- context [IS_13BIT_INT (Zpos ?x)] => let v := eval vm_compute in (IS_13BIT_INT (Zpos x)) in change (IS_13BIT_INT (Zpos x)) with v
  | |- context [IS_16BIT_INT (Zpos ?x)] => let v := eval vm_compute in (IS_16BIT_INT (Zpos x)) in change (IS_16BIT_INT (Zpos x)) with v
  | |- context [IS_24BIT_INT (Zpos ?x)] => let v := eval vm_compute in (IS_24BIT_INT (Zpos x)) in change (IS_24BIT_INT (Zpos x)) with v
  | |- context [IS_32BIT_INT (Zpos ?x)] => let v := eval vm_compute in (IS_32BIT_INT (Zpos x)) in change (IS_32BIT_INT (Zpos x)) with v
  | |- context [IS_64BIT_INT (Zpos ?x)] => let v := eval vm_compute in (IS_64BIT_INT (Zpos x)) in change (IS_64BIT_INT (Zpos x)) with v
  | |- context [IS_12BIT_STR (Zpos ?x)] => let v := eval vm_compute in (IS_12BIT_STR (Zpos x)) in change (IS_12BIT_STR (Zpos x)) with v
  | |- context [IS_32BIT_STR (Zpos ?x)] => let v := eval vm_compute in (IS_32BIT_STR (Zpos x)) in change (IS_32BIT_STR (Zpos x)) with v
  end; cbv iota.

(** What the decoders say about an entry stored at [p]. *)
Definition decodes (b : list Z) (p : nat) (v : lpval) (enclen : Z) : Prop :=
  (forall es, lpGetWithSize b p es = (v, enclen + backlen_size enclen)) /\
  lpCurrentEncodedSizeUnsafe b p = enclen /\
  1 <= lpCurrentEncodedSizeBytes b p <= enclen /\
  at_ b p <> LP_EOF.

Lemma mod256_byte z : is_byte (z mod 256).
Proof. apply Z.mod_pos_bound. lia. Qed.

Lemma at_0 b p : at_ b (p + 0) = at_ b p.
Proof. by rewrite Nat.add_0_r. Qed.

(** The bytes of a tagged little-endian integer. *)
Lemma tagged_le b p tag n z : has b p (tag :: le_encode n z) ->
  at_ b p = tag /\ forall k, (k < n)%nat -> at_ b (p + S k) = nth k (le_encode n z) 0.
Proof.
  intros H. split.
  - rewrite <- at_0. by rewrite (has_at _ _ _ 0 H) by (simpl; lia).
  - intros k Hk. by rewrite (has_at _ _ _ (S k) H) by (simpl; rewrite length_le_encode; lia).
Qed.

Lemma decode_7bit b p v : 0 <= v <= 127 -> has b p [v] -> decodes b p (VInt v) 1.
Proof.
  intros Hv H. pose proof (has_at _ _ _ 0 H ltac:(simpl; lia)) as E. rewrite at_0 in E. simpl in E.
  destruct (tag_7bit v ltac:(lia)) as (T1 & T2 & T3).
  unfold decodes, lpGetWithSize, lpCurrentEncodedSizeUnsafe, lpCurrentEncodedSizeBytes.
  rewrite E, T1, T2. repeat split; try lia.
  unfold lpSignedValue, UINT64_MAX. destruct (Z.leb_spec (2 ^ 64 - 1) v); [lia|].
  rewrite swrap_small by (unfold in_s; lia). done.
Qed.

Lemma decode_13bit b p v : in_s 13 v ->
  has b p [u8 (Z.lor (wrap 13 v / 256) 192); wrap 13 v mod 256] -> decodes b p (VInt v) 2.
Proof.
  intros Hv H. pose proof (has_at _ _ _ 0 H ltac:(simpl; lia)) as E. rewrite at_0 in E.
  pose proof (has_at _ _ _ 1 H ltac:(simpl; lia)) as E1. cbn [nth] in E, E1.
  pose proof (wrap_range 13 v ltac:(lia)) as Hw. unfold in_u in Hw.
  destruct (tag_13bit (wrap 13 v / 256)) as (T1 & T2 & T3 & T4 & T5); [zdiv|].
  unfold decodes, lpGetWithSize, lpCurrentEncodedSizeUnsafe, lpCurrentEncodedSizeBytes.
  rewrite E, E1, T1, T2, T3, T4. repeat split; try lia.
  rewrite Z.lor_comm, lor_shiftl by (pose proof (mod256_byte (wrap 13 v)) as Hb;
    unfold is_byte, in_u in Hb; lia).
  replace (wrap 13 v mod 256 + wrap 13 v / 256 * 2 ^ 8) with (wrap 13 v) by zdiv.
  intros. f_equal. f_equal. apply (signed_value 13); [lia|done].
Qed.

(** The tagged integers differ in the tag and in the number of bytes only. *)
Ltac decode_tagged :=
  unfold decodes, lpGetWithSize, lpCurrentEncodedSizeUnsafe, lpCurrentEncodedSizeBytes;
  let H := fresh in
  intros Hv H; apply tagged_le in H as [E Hk];
  rewrite E; eval_tag; unfold u; repeat split; try lia; try done;
  intros; f_equal; f_equal.

Lemma decode_16bit b p v : in_s 16 v ->
  has b p (241 :: le_encode 2 (wrap 16 v)) -> decodes b p (VInt v) 3.
Proof.
  decode_tagged. rewrite (Hk 0%nat), (Hk 1%nat) by lia. cbn [nth le_encode].
  rewrite lor2 by apply mod256_byte.
  change [?a; ?b] with (le_encode 2 (wrap 16 v)).
  rewrite le_decode_encode, wrap_wrap. by apply (signed_value 16).
Qed.

Lemma decode_24bit b p v : in_s 24 v ->
  has b p (242 :: le_encode 3 (wrap 24 v)) -> decodes b p (VInt v) 4.
Proof.
  decode_tagged. rewrite (Hk 0%nat), (Hk 1%nat), (Hk 2%nat) by lia. cbn [nth le_encode].
  rewrite lor3 by apply mod256_byte.
  change [?a; ?b; ?c] with (le_encode 3 (wrap 24 v)).
  rewrite le_decode_encode, wrap_wrap. by apply (signed_value 24).
Qed.

Lemma decode_32bit b p v : in_s 32 v ->
  has b p (243 :: le_encode 4 (wrap 32 v)) -> decodes b p (VInt v) 5.
Proof.
  decode_tagged. rewrite (Hk 0%nat), (Hk 1%nat), (Hk 2%nat), (Hk 3%nat) by lia. cbn [nth le_encode].
  rewrite lor4 by apply mod256_byte.
  change [?a; ?b; ?c; ?d] with (le_encode 4 (wrap 32 v)).
  rewrite le_decode_encode, wrap_wrap. by apply (signed_value 32).
Qed.

Lemma decode_64bit b p v : in_s 64 v ->
  has b p (244 :: le_encode 8 (wrap 64 v)) -> decodes b p (VInt v) 9.
Proof.
  decode_tagged.
  rewrite (Hk 0%nat), (Hk 1%nat), (Hk 2%nat), (Hk 3%nat), (Hk 4%nat), (Hk 5%nat),
    (Hk 6%nat), (Hk 7%nat) by lia. cbn [nth le_encode].
  rewrite lor8 by apply mod256_byte.
  change [?a; ?b; ?c; ?d; ?e; ?f; ?g; ?h] with (le_encode 8 (wrap 64 v)).
  rewrite le_decode_encode, wrap_wrap. by apply (signed_value 64).
Qed.

Lemma decode_int b p v : in_s 64 v -> has b p (lpEncodeIntegerGetType v) ->
  decodes b p (VInt v) (Z.of_nat (length (lpEncodeIntegerGetType v))).
Proof.
  intros Hv. destruct (encode_int_cases v Hv)
    as [[? ->]|[[? ->]|[[? ->]|[[? ->]|[[? ->]|[? ->]]]]]]; cbn [length];
    rewrite ?length_le_encode;
    auto using decode_7bit, decode_13bit, decode_16bit, decode_24bit, decode_32bit, decode_64bit.
Qed.

(** ** Strings *)

(** The offset of the payload of an encoded string. *)
Definition str_hdr (s : list Z) : nat :=
  if Z.of_nat (length s) <? 64 then 1 else if Z.of_nat (length s) <? 4096 then 2 else 5.

Lemma lpEncodeString_split s : exists hdr, lpEncodeString s = hdr ++ s /\ length hdr = str_hdr s.
Proof.
  unfold lpEncodeString, str_hdr. repeat case_bool;
    [exists [u8 (Z.lor (Z.of_nat (length s)) 128)]
    |eexists [_; _]|eexists [_; _; _; _; _]]; done.
Qed.

Lemma length_lpEncodeString s : length (lpEncodeString s) = (str_hdr s + length s)%nat.
Proof. destruct (lpEncodeString_split s) as (h & -> & <-). apply length_app. Qed.

Lemma decode_str b p s : Z.of_nat (length s) + 5 < 2 ^ 32 -> has b p (lpEncodeString s) ->
  decodes b p (VStr (p + str_hdr s) (Z.of_nat (length s))) (Z.of_nat (length (lpEncodeString s))) /\
  load b (p + str_hdr s) (length s) = s.
Proof.
  intros Hs H. split.
  2:{ destruct (lpEncodeString_split s) as (h & E & Hl). rewrite E in H.
      apply has_app in H as [_ H]. by rewrite Hl in H. }
  rewrite length_lpEncodeString.
  unfold decodes, lpGetWithSize, lpCurrentEncodedSizeUnsafe, lpCurrentEncodedSizeBytes.
  assert (forall k, (k < str_hdr s)%nat -> at_ b (p + k) = nth k (lpEncodeString s) 0) as Hat.
  { intros k Hk. apply has_at; [done|]. rewrite length_lpEncodeString. lia. }
  unfold str_hdr, lpEncodeString in *. set (n := length s) in *.
  destruct (Z.ltb_spec (Z.of_nat n) 64) as [H64|H64].
  { pose proof (Hat 0%nat ltac:(lia)) as E. rewrite at_0 in E. cbn [nth] in E.
    destruct (tag_6bit (Z.of_nat n) ltac:(lia)) as (T1 & T2 & T3 & T4).
    unfold STR_LEN_6BIT. rewrite E, T1, T2, T3, wrap_small by (unfold in_u; lia).
    repeat split; try lia.
    intros. f_equal. replace (Z.of_nat (1 + n)) with (Z.of_nat n + 1) by lia. lia. }
  destruct (Z.ltb_spec (Z.of_nat n) 4096) as [H4k|H4k].
  { pose proof (Hat 0%nat ltac:(lia)) as E. rewrite at_0 in E.
    pose proof (Hat 1%nat ltac:(lia)) as E1. cbn [nth] in E, E1.
    rewrite Z.shiftr_div_pow2 in E by lia. change (2 ^ 8) with 256 in E. rewrite land_255 in E1.
    destruct (tag_12bit (Z.of_nat n / 256)) as (T1 & T2 & T3 & T4 & T5 & T6 & T7 & T8 & T9 & T10); [zdiv|].
    unfold STR_LEN_12BIT. rewrite E, E1, T1, T2, T3, T4, T5, T6, T7, T8, T9.
    rewrite Z.lor_comm, lor_shiftl by (try lia; pose proof (mod256_byte (Z.of_nat n)) as Hb;
      unfold is_byte, in_u in Hb; lia).
    replace (Z.of_nat n mod 256 + Z.of_nat n / 256 * 2 ^ 8) with (Z.of_nat n) by zdiv.
    rewrite wrap_small by (unfold in_u; lia).
    repeat split; try lia.
    intros. f_equal. replace (Z.of_nat (2 + n)) with (Z.of_nat n + 2) by lia. lia. }
  pose proof (Hat 0%nat ltac:(lia)) as E. rewrite at_0 in E. cbn [nth] in E.
  unfold STR_LEN_32BIT. rewrite E. eval_tag.
  rewrite (Hat 1%nat), (Hat 2%nat), (Hat 3%nat), (Hat 4%nat) by lia. cbn [nth].
  rewrite !land_255, !Z.shiftr_div_pow2 by lia. rewrite lor4 by apply mod256_byte.
  replace (le_decode _) with (le_decode (le_encode 4 (Z.of_nat n)))
    by (cbn [le_encode]; rewrite !Z.div_div by lia; done).
  rewrite le_decode_encode, !wrap_small by (rewrite ?wrap_small; unfold in_u; lia).
  repeat split; try lia; try done.
  intros. f_equal. replace (Z.of_nat (5 + n)) with (Z.of_nat n + 5) by lia. lia.
Qed.

(** ** The backward length *)

Lemma cont_byte x : 0 <= x < 128 ->
  Z.land (Z.lor x 128) 127 = x /\ (Z.land (Z.lor x 128) 128 =? 0) = false /\
  Z.land x 127 = x /\ (Z.land x 128 =? 0) = true /\ is_byte (Z.lor x 128).
Proof.
  intros Hx. pose proof (range_check (fun x =>
    (Z.land (Z.lor x 128) 127 =? x) && negb (Z.land (Z.lor x 128) 128 =? 0)
    && (Z.land x 127 =? x) && (Z.land x 128 =? 0)
    && (0 <=? Z.lor x 128) && (Z.lor x 128 <? 256)) 128 eq_refl x Hx) as H.
  cbv beta in H. zbool. repeat split; try done; [by apply Z.eqb_neq|by apply Z.eqb_eq].
Qed.

Lemma mod128 z : 0 <= z mod 128 < 128.
Proof. apply Z.mod_pos_bound. lia. Qed.

(** One continuation byte of the loop, from a value known so far. *)
Lemma backlen_step fuel b p k val x shift :
  at_ b (p + S k) = Z.lor x 128 -> 0 <= x < 128 -> 0 <= shift <= 21 -> 0 <= val < 2 ^ shift ->
  lpDecodeBacklen_loop (S fuel) b (p + S k) val shift =
  lpDecodeBacklen_loop fuel b (p + k) (val + x * 2 ^ shift) (shift + 7).
Proof.
  intros E Hx Hs Hv. destruct (cont_byte x Hx) as (C1 & C2 & _).
  cbn [lpDecodeBacklen_loop]. rewrite E, C1, C2, lor_shiftl by lia.
  destruct (Z.ltb_spec 28 (shift + 7)); [lia|]. f_equal. lia.
Qed.

Lemma backlen_stop fuel b p val x shift :
  at_ b p = x -> 0 <= x < 128 -> 0 <= shift -> 0 <= val < 2 ^ shift ->
  lpDecodeBacklen_loop (S fuel) b p val shift = val + x * 2 ^ shift.
Proof.
  intros E Hx Hs Hv. destruct (cont_byte x Hx) as (_ & _ & C3 & C4 & _).
  cbn [lpDecodeBacklen_loop]. rewrite E, C3, C4, lor_shiftl by lia. done.
Qed.

Lemma lpDecodeBacklen_spec b p l : 0 <= l < 2 ^ 35 -> has b p (lpEncodeBacklen l) ->
  lpDecodeBacklen b (p + length (lpEncodeBacklen l) - 1) = l.
Proof.
  intros Hl H. unfold lpDecodeBacklen.
  assert (forall k, (k < length (lpEncodeBacklen l))%nat ->
            at_ b (p + k) = nth k (lpEncodeBacklen l) 0) as Hat
    by (intros; by apply has_at).
  clear H. revert Hat. unfold lpEncodeBacklen. rewrite !land_127, !Z.shiftr_div_pow2 by lia.
  pose proof (mod128 l). pose proof (mod128 (l / 2 ^ 7)). pose proof (mod128 (l / 2 ^ 14)).
  pose proof (mod128 (l / 2 ^ 21)).
  repeat case_bool; cbn [length]; intros Hat;
    (rewrite u8_mod, Z.mod_small in Hat by zdiv).
  all: (replace (p + _ - 1)%nat with (p + 0)%nat by lia)
    || (replace (p + _ - 1)%nat with (p + 1)%nat by lia)
    || (replace (p + _ - 1)%nat with (p + 2)%nat by lia)
    || (replace (p + _ - 1)%nat with (p + 3)%nat by lia)
    || (replace (p + _ - 1)%nat with (p + 4)%nat by lia).
  all: try (rewrite (backlen_step _ _ _ _ _ (l mod 128)) by (done || lia || apply Hat; lia)).
  all: try (rewrite (backlen_step _ _ _ _ _ (l / 2 ^ 7 mod 128)) by (done || lia || apply Hat; lia)).
  all: try (rewrite (backlen_step _ _ _ _ _ (l / 2 ^ 14 mod 128)) by (done || lia || apply Hat; lia)).
  all: try (rewrite (backlen_step _ _ _ _ _ (l / 2 ^ 21 mod 128)) by (done || lia || apply Hat; lia)).
  all: erewrite backlen_stop by (try (apply (Hat 0%nat); lia); cbn [nth]; zdiv).
  all: cbn [nth]; zdiv.
Qed.

Lemma length_lpEncodeBacklen l : (1 <= length (lpEncodeBacklen l) <= 5)%nat.
Proof. unfold lpEncodeBacklen. repeat case_match; simpl; lia. Qed.

Lemma bytes_lpEncodeBacklen l : 0 <= l < 2 ^ 35 -> bytes (lpEncodeBacklen l).
Proof.
  intros Hl. unfold lpEncodeBacklen. rewrite !land_127.
  repeat case_match; repeat constructor; try (apply wrap_range; lia);
    apply cont_byte, mod128.
Qed.

Lemma bytes_encode_int v : in_s 64 v -> bytes (lpEncodeIntegerGetType v).
Proof.
  intros Hv. destruct (encode_int_cases v Hv)
    as [[? ->]|[[? ->]|[[? ->]|[[? ->]|[[? ->]|[? ->]]]]]].
  - repeat constructor; lia.
  - constructor; [apply wrap_range; lia|]. constructor; [apply mod256_byte|constructor].
  - constructor; [unfold is_byte, in_u; lia|apply bytes_le_encode].
  - constructor; [unfold is_byte, in_u; lia|apply bytes_le_encode].
  - constructor; [unfold is_byte, in_u; lia|apply bytes_le_encode].
  - constructor; [unfold is_byte, in_u; lia|apply bytes_le_encode].
Qed.

Lemma bytes_encode_elem e : elem_ok e -> bytes (encode_elem e).
Proof.
  destruct e as [v|s]; simpl; [apply bytes_encode_int|].
  intros [Hb Hl]. unfold lpEncodeString. rewrite !land_255.
  repeat case_match; repeat constructor; try done;
    try (apply wrap_range; lia); try apply mod256_byte; unfold is_byte, in_u; lia.
Qed.

Lemma length_encode_elem e : elem_ok e ->
  1 <= Z.of_nat (length (encode_elem e)) < 2 ^ 32.
Proof.
  destruct e as [v|s]; simpl.
  - intros Hv. destruct (encode_int_cases v Hv)
      as [[? ->]|[[? ->]|[[? ->]|[[? ->]|[[? ->]|[? ->]]]]]]; simpl; lia.
  - intros [_ Hl]. rewrite length_lpEncodeString. unfold str_hdr. repeat case_match; lia.
Qed.

(** A whole entry: the encoding and the backward length. *)
Definition entry (e : elem) : list Z :=
  encode_elem e ++ lpEncodeBacklen (Z.of_nat (length (encode_elem e))).

(** The value the decoder returns for an element stored at [p]. *)
Definition elem_val (e : elem) (p : nat) : lpval :=
  match e with
  | EInt v => VInt v
  | EStr s => VStr (p + str_hdr s) (Z.of_nat (length s))
  end.

Lemma decode_elem b p e : elem_ok e -> has b p (encode_elem e) ->
  decodes b p (elem_val e p) (Z.of_nat (length (encode_elem e))).
Proof.
  destruct e as [v|s]; simpl; [apply decode_int|]. intros [_ Hl] H. by apply decode_str.
Qed.

Lemma lpStringToInt64_string2ll s : lpStringToInt64 s = string2ll s.
Proof. reflexivity. Qed.

(** An entry decodes to the element it was built from.  Wherever the bytes
    of an entry lie in a buffer, [lpGetWithSize] returns the integer or the
    payload of the string together with the size of the whole entry,
    [lpCurrentEncodedSizeUnsafe] returns the size without the backward length,
    and parsing the backward length from the last byte of the entry returns that
    same size. *)
Theorem lpEntry_roundtrip b p e es : elem_ok e -> has b p (entry e) ->
  let enclen := Z.of_nat (length (encode_elem e)) in
  lpGetWithSize b p es = (elem_val e p, Z.of_nat (length (entry e))) /\
  lpCurrentEncodedSizeUnsafe b p = enclen /\
  lpDecodeBacklen b (p + length (entry e) - 1) = enclen /\
  match e with
  | EInt _ => True
  | EStr s => load b (p + str_hdr s) (length s) = s
  end.
Proof.
  intros He H. apply has_app in H as [H1 H2].
  destruct (decode_elem b p e He H1) as (D1 & D2 & _).
  pose proof (length_encode_elem e He).
  split; [|split; [done|split]].
  - rewrite D1. unfold entry, backlen_size. rewrite length_app, Nat2Z.inj_add. done.
  - apply lpDecodeBacklen_spec in H2; [|lia]. unfold entry. rewrite length_app.
    by rewrite Nat.add_assoc.
  - destruct e as [v|s]; [done|]. by apply decode_str; [apply He|].
Qed.

(** Reading an element back as a string and comparing it with a string
    agree: [lpGet] with an integer buffer yields the text of the element, and
    [lpCompare] answers true exactly for that text, for integer-encoded and
    string-encoded elements alike. *)
Theorem lpGetString_lpCompare b p e intbuf s : elem_ok e -> has b p (encode_elem e) ->
  Z.of_nat (length intbuf) = LP_INTBUF_SIZE ->
  lpGetString b p intbuf = elem_text e /\
  (lpCompare b p s = true <-> s = elem_text e).
Proof.
  intros He H Hbuf. destruct (decode_elem b p e He H) as (D1 & _ & _ & D4).
  unfold lpGetString, lpCompare, lpGet. rewrite D1.
  destruct (Z.eqb_spec (at_ b p) LP_EOF); [done|].
  destruct e as [v|s']; cbn [fst elem_val elem_text].
  - simpl in He. pose proof (repr_length v He) as [Hl H20]. split.
    + pose proof (ll2string_spec intbuf LP_INTBUF_SIZE v He (eq_sym Hbuf)) as Hll.
      unfold LP_INTBUF_SIZE in *. destruct (Z.ltb_spec (sdigits10 v) 21); [|lia].
      rewrite Hll. rewrite load_store_in by (rewrite ?length_app; simpl; lia).
      unfold load. rewrite Nat.sub_diag, drop_0, take_app_length' by lia. done.
    + rewrite lpStringToInt64_string2ll. destruct (string2ll s) as [w|] eqn:E.
      * apply string2ll_spec in E as [Hw ->]. rewrite Z.eqb_eq. split; [by intros ->|].
        intros E. pose proof (proj2 (string2ll_spec (repr w) w) (conj Hw eq_refl)) as S1.
        pose proof (proj2 (string2ll_spec (repr v) v) (conj He eq_refl)) as S2.
        rewrite E in S1. congruence.
      * split; [done|]. intros ->.
        pose proof (proj2 (string2ll_spec (repr v) v) (conj He eq_refl)). congruence.
  - simpl in He, H. destruct (decode_str b p s' (proj2 He) H) as [_ Hload].
    rewrite Nat2Z.id. split; [done|].
    rewrite andb_true_iff, Z.eqb_eq, bool_decide_eq_true. split.
    + intros [El E]. rewrite <- E. by rewrite (Nat2Z.inj _ _ El).
    + intros ->. done.
Qed.

Lemma has_self bs : has bs 0 bs.
Proof. unfold has, load. rewrite drop_0. apply firstn_all. Qed.

Lemma lpEntry_roundtrip_witness :
  elem_ok (EInt (-129)) /\
  lpGetWithSize (entry (EInt (-129))) 0 0 = (VInt (-129), 3).
Proof.
  split; [unfold elem_ok, in_s; lia|].
  apply (lpEntry_roundtrip (entry (EInt (-129))) 0 (EInt (-129)) 0);
    [unfold elem_ok, in_s; lia|apply has_self].
Defined.

Lemma lpGetString_lpCompare_witness :
  lpCompare (encode_elem (EInt (-129))) 0 (chars "-129") = true.
Proof.
  apply (lpGetString_lpCompare (encode_elem (EInt (-129))) 0 (EInt (-129)) (repeat 0 21));
    [unfold elem_ok, in_s; lia|apply has_self|reflexivity|reflexivity].
Defined.

End LpEntry.
