(* ===== verification/Listpack.v ===== *)
(** * Listpack: the packed list of listpack.c

    A listpack is its allocation: a buffer whose first [lpGetTotalBytes] bytes
    are the header, the entries and the terminator, followed by whatever room
    the allocator gave on top.  A pointer to an element is its offset.  A failed
    [assert] is [Abort]; a NULL pointer is [None]. *)
From S2P Require Import Prelude NumStr LpEntry.

Module Listpack.
Import LpEntry.

Definition LP_HDR_SIZE : nat := 6.
Definition LP_HDR_NUMELE_UNKNOWN : Z := 65535.
Definition UINT32_MAX : Z := 2 ^ 32 - 1.
Definition LISTPACK_MAX_SAFETY_SIZE : Z := 2 ^ 30.

Definition lpGetTotalBytes (lp : list Z) : Z :=
  Z.lor (Z.lor (Z.lor (at_ lp 0) (Z.shiftl (at_ lp 1) 8)) (Z.shiftl (at_ lp 2) 16))
    (Z.shiftl (at_ lp 3) 24).
Definition lpGetNumElements (lp : list Z) : Z := Z.lor (at_ lp 4) (Z.shiftl (at_ lp 5) 8).
Definition lpSetTotalBytes (lp : list Z) (v : Z) : list Z :=
  store lp 0 [Z.land v 255; Z.land (Z.shiftr v 8) 255; Z.land (Z.shiftr v 16) 255;
              Z.land (Z.shiftr v 24) 255].
Definition lpSetNumElements (lp : list Z) (v : Z) : list Z :=
  store lp 4 [Z.land v 255; Z.land (Z.shiftr v 8) 255].

Definition lpBytes (lp : list Z) : Z := lpGetTotalBytes lp.

(** [lp] may be NULL. *)
Definition lpSafeToAdd (lp : option (list Z)) (add : Z) : bool :=
  let len := match lp with Some lp => lpGetTotalBytes lp | None => 0 end in
  negb (LISTPACK_MAX_SAFETY_SIZE <? len + add).

Definition ASSERT_INTEGRITY (lp : list Z) (p : nat) : bool :=
  (LP_HDR_SIZE <=? p)%nat && (Z.of_nat p <? lpGetTotalBytes lp).
Definition ASSERT_INTEGRITY_LEN (lp : list Z) (p : nat) (len : Z) : bool :=
  (LP_HDR_SIZE <=? p)%nat && (Z.of_nat p + len <? lpGetTotalBytes lp).

Definition OUT_OF_RANGE (lpbytes p : Z) : bool :=
  (p <? Z.of_nat LP_HDR_SIZE) || (lpbytes - 1 <? p).

(** [None] is the return value 0; otherwise the new value of [*pp]. *)
Definition lpValidateNext (lp : list Z) (pp : option nat) (lpbytes : Z) : option (option nat) :=
  match pp with
  | None => None
  | Some p =>
      if OUT_OF_RANGE lpbytes (Z.of_nat p) then None
      else if at_ lp p =? LP_EOF then Some None
      else
        let lenbytes := lpCurrentEncodedSizeBytes lp p in
        if lenbytes =? 0 then None
        else if OUT_OF_RANGE lpbytes (Z.of_nat p + lenbytes) then None
        else
          let entrylen := lpCurrentEncodedSizeUnsafe lp p in
          let encodedBacklen := backlen_size entrylen in
          let entrylen := entrylen + encodedBacklen in
          if OUT_OF_RANGE lpbytes (Z.of_nat p + entrylen) then None
          else
            let p := (p + Z.to_nat entrylen)%nat in
            let prevlen := lpDecodeBacklen lp (p - 1) in
            if negb (u64 (prevlen + encodedBacklen) =? entrylen) then None
            else Some (Some p)
  end.

Definition lpAssertValidEntry (lp : list Z) (lpbytes : Z) (p : nat) : bool :=
  match lpValidateNext lp (Some p) lpbytes with Some _ => true | None => false end.

Definition lpSkip (lp : list Z) (p : nat) : nat :=
  let entrylen := lpCurrentEncodedSizeUnsafe lp p in
  (p + Z.to_nat (entrylen + backlen_size entrylen))%nat.

Definition lpNext (lp : list Z) (p : nat) : outcome (option nat) :=
  let p := lpSkip lp p in
  if at_ lp p =? LP_EOF then Ret None
  else if lpAssertValidEntry lp (lpBytes lp) p then Ret (Some p) else Abort.

(** A pointer before the buffer is truncated to offset 0, which is out of range
    as well. *)
Definition lpPrev (lp : list Z) (p : nat) : outcome (option nat) :=
  if (p =? LP_HDR_SIZE)%nat then Ret None
  else
    let p := (p - 1)%nat in
    let prevlen := lpDecodeBacklen lp p in
    let prevlen := u64 (prevlen + backlen_size prevlen) in
    let p := Z.to_nat (Z.of_nat p - (prevlen - 1)) in
    if lpAssertValidEntry lp (lpBytes lp) p then Ret (Some p) else Abort.

Definition lpFirst (lp : list Z) : outcome (option nat) :=
  let p := LP_HDR_SIZE in
  if at_ lp p =? LP_EOF then Ret None
  else if lpAssertValidEntry lp (lpBytes lp) p then Ret (Some p) else Abort.

Definition lpLast (lp : list Z) : outcome (option nat) :=
  lpPrev lp (Z.to_nat (lpGetTotalBytes lp - 1)).

(** Every element takes at least two bytes, so the byte count bounds the
    number of iterations; running out is reported as a failure. *)
Fixpoint lpLength_loop (fuel : nat) (lp : list Z) (p : option nat) (count : Z) : outcome Z :=
  match p with
  | None => Ret count
  | Some p =>
      match fuel with
      | O => Abort
      | S fuel' => let* p := lpNext lp p in lpLength_loop fuel' lp p (u32 (count + 1))
      end
  end.

(** Returns the count and the listpack, whose header may have been updated. *)
Definition lpLength (lp : list Z) : outcome (Z * list Z) :=
  let numele := lpGetNumElements lp in
  if negb (numele =? LP_HDR_NUMELE_UNKNOWN) then Ret (numele, lp)
  else
    let* p := lpFirst lp in
    let* count := lpLength_loop (length lp) lp p 0 in
    Ret (count, if count <? LP_HDR_NUMELE_UNKNOWN then lpSetNumElements lp count else lp).

(** The two scanning loops of [lpSeek], [n] steps to go. *)
Fixpoint seek_forward (n : nat) (lp : list Z) (ele : option nat) : outcome (option nat) :=
  match n, ele with
  | S n', Some p => let* ele := lpNext lp p in seek_forward n' lp ele
  | _, _ => Ret ele
  end.

Fixpoint seek_backward (n : nat) (lp : list Z) (ele : option nat) : outcome (option nat) :=
  match n, ele with
  | S n', Some p => let* ele := lpPrev lp p in seek_backward n' lp ele
  | _, _ => Ret ele
  end.

Definition lpSeek (lp : list Z) (index : Z) : outcome (option nat) :=
  let numele := lpGetNumElements lp in
  let scan (forward : bool) (index : Z) :=
    if forward then let* ele := lpFirst lp in seek_forward (Z.to_nat index) lp ele
    else let* ele := lpLast lp in seek_backward (Z.to_nat (-1 - index)) lp ele in
  if negb (numele =? LP_HDR_NUMELE_UNKNOWN) then
    let index := if index <? 0 then numele + index else index in
    if index <? 0 then Ret None
    else if numele <=? index then Ret None
    else if Z.quot numele 2 <? index then scan false (index - numele)
    else scan true index
  else scan (negb (index <? 0)) index.

Definition lpValidateFirst (lp : list Z) : option nat :=
  if at_ lp LP_HDR_SIZE =? LP_EOF then None else Some LP_HDR_SIZE.

(** The entry loop of [lpValidateIntegrity].  A callback takes the entry, the
    count field and its user data, and may update the data.  The result is the
    final [p] and [count]. *)
Fixpoint validate_entries {U} (entry_cb : option (nat -> Z -> U -> bool * U)) (fuel : nat)
  (lp : list Z) (p : option nat) (bytes numele count : Z) (cb_userdata : U)
  : option (option nat * Z) :=
  match p with
  | None => Some (None, count)
  | Some prev =>
      if at_ lp prev =? LP_EOF then Some (p, count)
      else
        match fuel with
        | O => None
        | S fuel' =>
            match lpValidateNext lp p bytes with
            | None => None
            | Some p =>
                let '(ok, cb_userdata) :=
                  match entry_cb with
                  | Some cb => cb prev numele cb_userdata
                  | None => (true, cb_userdata)
                  end in
                if negb ok then None
                else validate_entries entry_cb fuel' lp p bytes numele (u32 (count + 1)) cb_userdata
            end
        end
  end.

Definition lpValidateIntegrity {U} (lp : list Z) (size : Z) (deep : bool)
  (entry_cb : option (nat -> Z -> U -> bool * U)) (cb_userdata : U) : bool :=
  if size <? Z.of_nat LP_HDR_SIZE + 1 then false
  else
    let bytes := lpGetTotalBytes lp in
    if negb (bytes =? size) then false
    else if negb (at_ lp (Z.to_nat (size - 1)) =? LP_EOF) then false
    else if negb deep then true
    else
      let numele := lpGetNumElements lp in
      match validate_entries entry_cb (length lp) lp (Some LP_HDR_SIZE) bytes numele 0
              cb_userdata with
      | Some (Some p, count) =>
          if negb (Z.of_nat p =? size - 1) then false
          else if negb (numele =? LP_HDR_NUMELE_UNKNOWN) && negb (numele =? count) then false
          else true
      | _ => false
      end.

Inductive where_ := LP_BEFORE | LP_AFTER | LP_REPLACE.

Section Alloc.
(** [fresh]: what the allocator leaves in new bytes; [usable n]: the size of the
    block it returns for a request of [n] bytes, what [lp_malloc_size] reports. *)
Context (fresh : nat -> Z) (usable : nat -> nat).

Definition lp_malloc_size (lp : list Z) : Z := Z.of_nat (length lp).
Definition lp_realloc (lp : list Z) (n : Z) : list Z :=
  realloc fresh lp (usable (Z.to_nat n)).

Definition lpNew (capacity : Z) : list Z :=
  let lp := lp_realloc [] (Z.max capacity (Z.of_nat LP_HDR_SIZE + 1)) in
  let lp := lpSetTotalBytes lp (Z.of_nat LP_HDR_SIZE + 1) in
  let lp := lpSetNumElements lp 0 in
  store lp LP_HDR_SIZE [LP_EOF].

Definition lpShrinkToFit (lp : list Z) : list Z :=
  let size := lpGetTotalBytes lp in
  if size <? lp_malloc_size lp then lp_realloc lp size else lp.

(** The bytes [lpInsert] stores for the element, and their number [enclen]. *)
Definition insert_payload (elestr eleint : option (list Z)) : list Z * Z :=
  match elestr, eleint with
  | Some s, _ =>
      match lpEncodeGetType s with
      | (ENC_INT intenc, enclen) => (intenc, enclen)
      | (ENC_STRING, enclen) => (lpEncodeString s, enclen)
      end
  | None, Some intenc => (intenc, Z.of_nat (length intenc))
  | None, None => ([], 0)
  end.

(** From the computation of the new size on: the reallocations, the move of the
    tail, the stores and the header.  [None] is the NULL return; otherwise the
    new listpack and [*newp]. *)
Definition lpInsert_apply (lp : list Z) (delete : bool) (payload : list Z) (enclen : Z)
  (backlen : list Z) (wh : where_) (poff : nat) (replaced_len : Z)
  : option (list Z * option nat) :=
  let backlen_size := Z.of_nat (length backlen) in
  let old_listpack_bytes := lpGetTotalBytes lp in
  let new_listpack_bytes :=
    u64 (old_listpack_bytes + enclen + backlen_size - replaced_len) in
  if UINT32_MAX <? new_listpack_bytes then None
  else
    let dst := poff in
    let lp := if (old_listpack_bytes <? new_listpack_bytes)
                 && (lp_malloc_size lp <? new_listpack_bytes)
              then lp_realloc lp new_listpack_bytes else lp in
    let lp :=
      match wh with
      | LP_BEFORE =>
          memmove lp (dst + Z.to_nat (enclen + backlen_size)) dst
            (Z.to_nat (old_listpack_bytes - Z.of_nat poff))
      | _ =>
          memmove lp (dst + Z.to_nat (enclen + backlen_size)) (dst + Z.to_nat replaced_len)
            (Z.to_nat (old_listpack_bytes - Z.of_nat poff - replaced_len))
      end in
    let lp := if new_listpack_bytes <? old_listpack_bytes
              then lp_realloc lp new_listpack_bytes else lp in
    let newp := if delete && (at_ lp dst =? LP_EOF) then None else Some dst in
    let lp :=
      if delete then lp
      else store (store lp dst payload) (dst + Z.to_nat enclen) backlen in
    let lp :=
      match wh, delete with
      | LP_REPLACE, false => lp
      | _, _ =>
          let num_elements := lpGetNumElements lp in
          if num_elements =? LP_HDR_NUMELE_UNKNOWN then lp
          else if negb delete then lpSetNumElements lp (u32 (num_elements + 1))
          else lpSetNumElements lp (u32 (num_elements - 1))
      end in
    Some (lpSetTotalBytes lp new_listpack_bytes, newp).

Definition lpInsert (lp : list Z) (elestr eleint : option (list Z)) (p : nat) (wh : where_)
  : outcome (option (list Z * option nat)) :=
  let delete := match elestr, eleint with None, None => true | _, _ => false end in
  let wh := if delete then LP_REPLACE else wh in
  let* (p, wh) :=
    match wh with
    | LP_AFTER =>
        let p := lpSkip lp p in
        if ASSERT_INTEGRITY lp p then Ret (p, LP_BEFORE) else Abort
    | _ => Ret (p, wh)
    end in
  let poff := p in
  let '(payload, enclen) := insert_payload elestr eleint in
  let backlen := if delete then [] else lpEncodeBacklen enclen in
  let* replaced_len :=
    match wh with
    | LP_REPLACE =>
        let r := lpCurrentEncodedSizeUnsafe lp p in
        let r := u32 (r + backlen_size r) in
        if ASSERT_INTEGRITY_LEN lp p r then Ret r else Abort
    | _ => Ret 0
    end in
  Ret (lpInsert_apply lp delete payload enclen backlen wh poff replaced_len).

Definition lpInsertString (lp s : list Z) (p : nat) (wh : where_) :=
  lpInsert lp (Some s) None p wh.

Definition lpInsertInteger (lp : list Z) (lval : Z) (p : nat) (wh : where_) :=
  lpInsert lp None (Some (lpEncodeIntegerGetType lval)) p wh.

Definition lpAppend (lp ele : list Z) :=
  lpInsert lp (Some ele) None (Z.to_nat (lpGetTotalBytes lp - 1)) LP_BEFORE.

Definition lpAppendInteger (lp : list Z) (lval : Z) :=
  lpInsertInteger lp lval (Z.to_nat (lpGetTotalBytes lp - 1)) LP_BEFORE.

Definition lpPrepend (lp s : list Z) : outcome (option (list Z * option nat)) :=
  let* p := lpFirst lp in
  match p with
  | None => lpAppend lp s
  | Some p => lpInsert lp (Some s) None p LP_BEFORE
  end.

Definition lpPrependInteger (lp : list Z) (lval : Z) : outcome (option (list Z * option nat)) :=
  let* p := lpFirst lp in
  match p with
  | None => lpAppendInteger lp lval
  | Some p => lpInsertInteger lp lval p LP_BEFORE
  end.

Definition lpReplace (lp : list Z) (p : nat) (s : list Z) := lpInsert lp (Some s) None p LP_REPLACE.

Definition lpReplaceInteger (lp : list Z) (p : nat) (lval : Z) :=
  lpInsertInteger lp lval p LP_REPLACE.

Definition lpDelete (lp : list Z) (p : nat) := lpInsert lp None None p LP_REPLACE.

Definition lpDup (lp : list Z) : list Z :=
  let lpbytes := lpBytes lp in
  let newlp := lp_realloc [] lpbytes in
  store newlp 0 (load lp 0 (Z.to_nat lpbytes)).

End Alloc.

(** ** Representation *)

Definition body (es : list elem) : list Z := concat (map entry es).

(** The offset just past the elements [es]. *)
Definition pos (es : list elem) : nat := LP_HDR_SIZE + length (body es).

Definition total (es : list elem) : Z := Z.of_nat (pos es) + 1.

(** The element count field: the count, or "unknown". *)
Definition count_field (es : list elem) (nf : Z) : Prop :=
  nf = LP_HDR_NUMELE_UNKNOWN \/
  nf = Z.of_nat (length es) /\ nf < LP_HDR_NUMELE_UNKNOWN.

Definition header (es : list elem) (nf : Z) : list Z :=
  le_encode 4 (total es) ++ le_encode 2 nf.

(** The buffer holds the listpack of [es], then [slack]. *)
Record listpack_at (lp : list Z) (es : list elem) (nf : Z) (slack : list Z) : Prop := {
  lp_image : lp = header es nf ++ body es ++ [LP_EOF] ++ slack;
  lp_elems : Forall elem_ok es;
  lp_total : total es < 2 ^ 32;
  lp_count : count_field es nf
}.

Definition listpack (lp : list Z) (es : list elem) : Prop :=
  exists nf slack, listpack_at lp es nf slack.

Lemma body_app es1 es2 : body (es1 ++ es2) = body es1 ++ body es2.
Proof. unfold body. by rewrite map_app, concat_app. Qed.

Lemma body_cons e es : body (e :: es) = entry e ++ body es.
Proof. done. Qed.

Lemma pos_app es1 es2 : pos (es1 ++ es2) = (pos es1 + length (body es2))%nat.
Proof. unfold pos. rewrite body_app, length_app. lia. Qed.

Lemma pos_snoc es e : pos (es ++ [e]) = (pos es + length (entry e))%nat.
Proof. rewrite pos_app. unfold body. simpl. by rewrite app_nil_r. Qed.

Lemma length_header es nf : length (header es nf) = LP_HDR_SIZE.
Proof. unfold header. by rewrite length_app, !length_le_encode. Qed.

Lemma count_field_range es nf : count_field es nf -> in_u 16 nf.
Proof. unfold count_field, LP_HDR_NUMELE_UNKNOWN, in_u. lia. Qed.

Lemma total_pos es : 7 <= total es.
Proof. unfold total, pos, LP_HDR_SIZE. lia. Qed.

Lemma backlen_size_range l : 1 <= backlen_size l <= 5.
Proof. unfold backlen_size. pose proof (length_lpEncodeBacklen l). lia. Qed.

Section Represented.
Context (lp : list Z) (es : list elem) (nf : Z) (slack : list Z).
Context (R : listpack_at lp es nf slack).

Lemma get_total : lpGetTotalBytes lp = total es.
Proof using R.
  destruct R as [-> _ Ht _]. pose proof (total_pos es).
  unfold lpGetTotalBytes, at_, header. rewrite <- !app_assoc.
  rewrite !app_nth1 by (rewrite length_le_encode; lia). cbn [le_encode nth].
  rewrite lor4 by apply mod256_byte. change [?a; ?b; ?c; ?d] with (le_encode 4 (total es)).
  rewrite le_decode_encode. apply wrap_small. unfold in_u. simpl. lia.
Qed.

Lemma get_num : lpGetNumElements lp = nf.
Proof using R.
  destruct R as [-> _ _ Hc]. apply count_field_range in Hc.
  unfold lpGetNumElements, at_, header. rewrite <- !app_assoc.
  rewrite !(app_nth2 (le_encode 4 _)) by (rewrite length_le_encode; lia).
  rewrite length_le_encode. rewrite !app_nth1 by (rewrite length_le_encode; lia).
  cbn [le_encode nth Nat.sub].
  rewrite lor2 by apply mod256_byte. change [?a; ?b] with (le_encode 2 nf).
  rewrite le_decode_encode. by apply wrap_small.
Qed.

Lemma length_lp : (pos es < length lp)%nat.
Proof using R.
  destruct R as [-> _ _ _]. rewrite !length_app, length_header. unfold pos. simpl. lia.
Qed.

Lemma has_entry es1 e es2 : es = es1 ++ e :: es2 -> has lp (pos es1) (entry e).
Proof using R.
  intros ->. destruct R as [-> _ _ _]. rewrite body_app, body_cons, <- !app_assoc.
  rewrite (app_assoc (header _ _)).
  replace (pos es1) with (length (header (es1 ++ e :: es2) nf ++ body es1)).
  - apply has_middle.
  - rewrite length_app, length_header. done.
Qed.

Lemma at_eof : at_ lp (pos es) = LP_EOF.
Proof using R.
  destruct R as [-> _ _ _]. unfold at_.
  rewrite app_assoc, app_nth2; rewrite length_app, length_header; unfold pos.
  - by rewrite Nat.sub_diag.
  - lia.
Qed.

Lemma pos_split_lt es1 e es2 : es = es1 ++ e :: es2 ->
  elem_ok e /\ (pos es1 + length (entry e) <= pos es)%nat /\ (2 <= length (entry e))%nat.
Proof using R.
  intros E. assert (elem_ok e) as He.
  { pose proof (lp_elems _ _ _ _ R) as Hf. rewrite E in Hf. apply Forall_app in Hf as [_ Hf].
    by inversion Hf. }
  split; [done|]. rewrite E, pos_app, body_cons, length_app. split; [lia|].
  unfold entry. rewrite length_app. pose proof (length_encode_elem e He).
  pose proof (length_lpEncodeBacklen (Z.of_nat (length (encode_elem e)))). lia.
Qed.

(** The decoders at the position of an element. *)
Lemma entry_facts es1 e es2 : es = es1 ++ e :: es2 ->
  let enclen := Z.of_nat (length (encode_elem e)) in
  decodes lp (pos es1) (elem_val e (pos es1)) enclen /\
  enclen + backlen_size enclen = Z.of_nat (length (entry e)) /\
  0 <= enclen < 2 ^ 32 /\
  lpDecodeBacklen lp (pos es1 + length (entry e) - 1) = enclen.
Proof using R.
  intros E enclen. destruct (pos_split_lt es1 e es2 E) as (He & _ & _).
  pose proof (has_entry es1 e es2 E) as H. apply has_app in H as [H1 H2].
  pose proof (length_encode_elem e He).
  split; [by apply decode_elem|]. split; [|split; [unfold enclen; lia|]].
  - unfold entry, backlen_size, enclen. rewrite length_app. lia.
  - apply lpDecodeBacklen_spec in H2; [|lia]. unfold entry. rewrite length_app.
    by rewrite Nat.add_assoc.
Qed.

Lemma validate_next_elem es1 e es2 : es = es1 ++ e :: es2 ->
  lpValidateNext lp (Some (pos es1)) (total es) = Some (Some (pos (es1 ++ [e]))).
Proof using R.
  intros E. destruct (pos_split_lt es1 e es2 E) as (He & Hle & H2).
  destruct (entry_facts es1 e es2 E) as ((_ & D2 & D3 & D4) & Hsz & Hr & Hb).
  pose proof (backlen_size_range (Z.of_nat (length (encode_elem e)))).
  unfold lpValidateNext, OUT_OF_RANGE, total.
  destruct (Z.ltb_spec (Z.of_nat (pos es1)) (Z.of_nat LP_HDR_SIZE)); [unfold pos in *; lia|].
  destruct (Z.ltb_spec (Z.of_nat (pos es) + 1 - 1) (Z.of_nat (pos es1))); [lia|].
  cbn [orb]. destruct (Z.eqb_spec (at_ lp (pos es1)) LP_EOF); [done|].
  destruct (Z.eqb_spec (lpCurrentEncodedSizeBytes lp (pos es1)) 0); [lia|].
  rewrite D2, Hsz.
  destruct (Z.ltb_spec (Z.of_nat (pos es1) + lpCurrentEncodedSizeBytes lp (pos es1)) (Z.of_nat LP_HDR_SIZE)); [lia|].
  destruct (Z.ltb_spec (Z.of_nat (pos es) + 1 - 1) (Z.of_nat (pos es1) + lpCurrentEncodedSizeBytes lp (pos es1))); [lia|].
  destruct (Z.ltb_spec (Z.of_nat (pos es1) + Z.of_nat (length (entry e))) (Z.of_nat LP_HDR_SIZE)); [lia|].
  destruct (Z.ltb_spec (Z.of_nat (pos es) + 1 - 1) (Z.of_nat (pos es1) + Z.of_nat (length (entry e)))); [lia|].
  cbn [orb]. rewrite Nat2Z.id, Hb, Hsz.
  rewrite wrap_small by (pose proof (lp_total _ _ _ _ R); unfold in_u, total in *; lia).
  rewrite Z.eqb_refl. cbn [negb]. by rewrite pos_snoc.
Qed.

Lemma validate_next_eof : lpValidateNext lp (Some (pos es)) (total es) = Some None.
Proof using R.
  unfold lpValidateNext, OUT_OF_RANGE, total. rewrite at_eof, Z.eqb_refl.
  destruct (Z.ltb_spec (Z.of_nat (pos es)) (Z.of_nat LP_HDR_SIZE)); [unfold pos in *; lia|].
  destruct (Z.ltb_spec (Z.of_nat (pos es) + 1 - 1) (Z.of_nat (pos es))); [lia|done].
Qed.

Lemma assert_valid es1 es2 : es = es1 ++ es2 -> lpAssertValidEntry lp (total es) (pos es1) = true.
Proof using R.
  intros E. unfold lpAssertValidEntry. destruct es2 as [|e es2].
  - rewrite app_nil_r in E. subst es1. by rewrite validate_next_eof.
  - by rewrite (validate_next_elem es1 e es2 E).
Qed.

Lemma lpSkip_spec es1 e es2 : es = es1 ++ e :: es2 -> lpSkip lp (pos es1) = pos (es1 ++ [e]).
Proof using R.
  intros E. destruct (entry_facts es1 e es2 E) as ((_ & D2 & _) & Hsz & _).
  unfold lpSkip. rewrite D2, Hsz, Nat2Z.id. by rewrite pos_snoc.
Qed.

(** The pointer to the element after [es1], or NULL at the end. *)
Definition ptr (es1 es2 : list elem) : option nat :=
  match es2 with [] => None | _ :: _ => Some (pos es1) end.

Lemma at_start es1 e es2 : es = es1 ++ e :: es2 -> at_ lp (pos es1) <> LP_EOF.
Proof using R. intros E. by destruct (entry_facts es1 e es2 E) as ((_ & _ & _ & D4) & _). Qed.

Lemma lpNext_spec es1 e es2 : es = es1 ++ e :: es2 ->
  lpNext lp (pos es1) = Ret (ptr (es1 ++ [e]) es2).
Proof using R.
  intros E. unfold lpNext, lpBytes. rewrite (lpSkip_spec es1 e es2 E), get_total.
  assert (es = (es1 ++ [e]) ++ es2) as E' by (by rewrite <- app_assoc).
  rewrite (assert_valid _ _ E'). destruct es2 as [|e' es2].
  - rewrite <- E, at_eof. by rewrite Z.eqb_refl.
  - destruct (Z.eqb_spec (at_ lp (pos (es1 ++ [e]))) LP_EOF) as [Heof|_]; [|done].
    by destruct (at_start _ _ _ E').
Qed.

Lemma lpFirst_spec : lpFirst lp = Ret (ptr [] es).
Proof using R.
  unfold lpFirst, lpBytes. rewrite get_total.
  change LP_HDR_SIZE with (pos []).
  rewrite (assert_valid [] es eq_refl). pose proof at_eof as He.
  assert (forall e es', es = e :: es' -> at_ lp (pos []) <> LP_EOF) as Hs
    by (intros e es' E; by apply (at_start [] e es')).
  destruct es as [|e es'].
  - rewrite He. by rewrite Z.eqb_refl.
  - destruct (Z.eqb_spec (at_ lp (pos [])) LP_EOF) as [Heof|_]; [|done].
    by destruct (Hs e es').
Qed.

Lemma lpPrev_first : lpPrev lp (pos []) = Ret None.
Proof using. done. Qed.

Lemma lpPrev_spec es1 e es2 : es = es1 ++ e :: es2 ->
  lpPrev lp (pos (es1 ++ [e])) = Ret (Some (pos es1)).
Proof using R.
  intros E. destruct (pos_split_lt es1 e es2 E) as (He & Hle & H2).
  destruct (entry_facts es1 e es2 E) as (_ & Hsz & Hr & Hb).
  unfold lpPrev, lpBytes. rewrite pos_snoc, get_total.
  destruct (Nat.eqb_spec (pos es1 + length (entry e)) LP_HDR_SIZE); [unfold pos in *; lia|].
  rewrite Hb, Hsz.
  rewrite wrap_small by (pose proof (lp_total _ _ _ _ R); unfold in_u, total in *; lia).
  replace (Z.to_nat _) with (pos es1) by lia.
  by rewrite (assert_valid es1 (e :: es2) E).
Qed.

Lemma lpLast_spec : lpLast lp =
  Ret (match es with [] => None | _ => Some (pos (take (length es - 1) es)) end).
Proof using R.
  unfold lpLast. rewrite get_total. unfold total.
  replace (Z.to_nat _) with (pos es) by lia.
  pose proof (fun es1 e => lpPrev_spec es1 e []) as Hp.
  destruct es as [|x es'] eqn:Ees; [done|]. rewrite <- Ees in *.
  destruct (exists_last (l := es)) as (es1 & e & E); [by rewrite Ees|].
  rewrite E, length_app, Nat.add_sub, take_app_length, (Hp es1 e E). done.
Qed.
End Represented.

(** ** Seeking and counting *)

(** The pointer to the element of index [i], counted from the end if negative. *)
Definition nth_ptr (es : list elem) (index : Z) : option nat :=
  let n := Z.of_nat (length es) in
  let i := if index <? 0 then n + index else index in
  if (0 <=? i) && (i <? n) then Some (pos (take (Z.to_nat i) es)) else None.

Lemma length_es_total es : Forall elem_ok es -> 2 * Z.of_nat (length es) < total es.
Proof.
  unfold total, pos. induction 1 as [|e es He Hes IH]; [simpl; lia|].
  rewrite body_cons, length_app. unfold entry. rewrite length_app. simpl length.
  pose proof (length_encode_elem e He).
  pose proof (length_lpEncodeBacklen (Z.of_nat (length (encode_elem e)))). lia.
Qed.

Section Seek.
Context (lp : list Z) (es : list elem) (nf : Z) (slack : list Z).
Context (R : listpack_at lp es nf slack).

Lemma seek_forward_spec n es1 es2 : es = es1 ++ es2 ->
  seek_forward n lp (ptr es1 es2) = Ret (ptr (es1 ++ take n es2) (drop n es2)).
Proof using R.
  revert es1 es2. induction n as [|n IH]; intros es1 es2 E.
  - rewrite take_0, drop_0, app_nil_r. by destruct es2.
  - destruct es2 as [|e es2]; [done|]. cbn [ptr seek_forward].
    rewrite (lpNext_spec lp es nf slack R es1 e es2 E). cbn [obind].
    rewrite IH by (by rewrite <- app_assoc). simpl. by rewrite <- app_assoc.
Qed.

Lemma seek_backward_spec n k : (k < length es)%nat ->
  seek_backward n lp (Some (pos (take k es))) =
  Ret (if (n <=? k)%nat then Some (pos (take (k - n) es)) else None).
Proof using R.
  revert k. induction n as [|n IH]; intros k Hk.
  - cbn. by rewrite Nat.sub_0_r.
  - cbn [seek_backward]. destruct k as [|k].
    + rewrite take_0. cbn. by destruct n.
    + destruct (lookup_lt_is_Some_2 es k) as [e He]; [lia|].
      rewrite (take_S_r es k e He).
      rewrite (lpPrev_spec lp es nf slack R (take k es) e (drop (S k) es))
        by (by rewrite (take_drop_middle es k e He)).
      cbn [obind]. rewrite IH by lia. done.
Qed.

Lemma seek_from_first i : 0 <= i ->
  (let* ele := lpFirst lp in seek_forward (Z.to_nat i) lp ele) = Ret (nth_ptr es i).
Proof using R.
  intros Hi. rewrite (lpFirst_spec lp es nf slack R). cbn [obind].
  rewrite seek_forward_spec by done. f_equal. unfold nth_ptr, ptr. simpl app.
  destruct (Z.ltb_spec i 0); [lia|]. destruct (Z.leb_spec 0 i); [|lia]. cbn [andb].
  destruct (Z.ltb_spec i (Z.of_nat (length es))).
  - destruct (drop (Z.to_nat i) es) eqn:E; [|done].
    apply (f_equal length) in E. rewrite length_drop in E. simpl in E. lia.
  - rewrite drop_ge by lia. done.
Qed.

Lemma seek_from_last i : i < 0 ->
  (let* ele := lpLast lp in seek_backward (Z.to_nat (-1 - i)) lp ele) = Ret (nth_ptr es i).
Proof using R.
  intros Hi. rewrite (lpLast_spec lp es nf slack R). cbn [obind]. unfold nth_ptr.
  destruct (Z.ltb_spec i 0); [|lia].
  assert (es = [] \/ (length es - 1 < length es)%nat) as [E|Hl]
    by (clear R; destruct es; [by left|right; simpl; lia]).
  - rewrite E. cbn [length]. destruct (Z.leb_spec 0 (Z.of_nat 0 + i)); [lia|]. cbn [andb].
    by destruct (Z.to_nat (-1 - i)).
  - replace (match es with [] => None | _ => _ end) with (Some (pos (take (length es - 1) es)))
      by (clear R; destruct es; [simpl in Hl; lia|done]).
    rewrite seek_backward_spec by done. f_equal.
    destruct (Z.leb_spec 0 (Z.of_nat (length es) + i)), (Z.ltb_spec (Z.of_nat (length es) + i) (Z.of_nat (length es)));
      try lia; cbn [andb]; destruct (Nat.leb_spec (Z.to_nat (-1 - i)) (length es - 1)); try lia; [|done].
    f_equal. f_equal. f_equal. lia.
Qed.

Lemma lpSeek_spec i : lpSeek lp i = Ret (nth_ptr es i).
Proof using R.
  unfold lpSeek. rewrite (get_num lp es nf slack R).
  pose proof (lp_count _ _ _ _ R) as [Hu|[Hn Hlt]].
  - rewrite Hu, Z.eqb_refl. cbn [negb]. destruct (Z.ltb_spec i 0); cbn [negb];
      [by apply seek_from_last|by apply seek_from_first].
  - destruct (Z.eqb_spec nf LP_HDR_NUMELE_UNKNOWN); [lia|]. cbn [negb].
    set (i' := if i <? 0 then nf + i else i).
    assert (nth_ptr es i = if (0 <=? i') && (i' <? nf) then Some (pos (take (Z.to_nat i') es)) else None) as ->
      by (unfold nth_ptr, i'; by rewrite Hn).
    destruct (Z.ltb_spec i' 0); [destruct (Z.leb_spec 0 i'); [lia|done]|].
    destruct (Z.leb_spec 0 i'); [|lia].
    destruct (Z.leb_spec nf i'), (Z.ltb_spec i' nf); try lia; [done|]. cbn [andb].
    case_bool.
    + rewrite seek_from_last by lia. unfold nth_ptr.
      destruct (Z.ltb_spec (i' - nf) 0); [|lia].
      replace (Z.of_nat (length es) + (i' - nf)) with i' by lia.
      destruct (Z.leb_spec 0 i'), (Z.ltb_spec i' (Z.of_nat (length es))); done || lia.
    + rewrite seek_from_first by lia. unfold nth_ptr.
      destruct (Z.ltb_spec i' 0); [lia|].
      destruct (Z.leb_spec 0 i'), (Z.ltb_spec i' (Z.of_nat (length es))); done || lia.
Qed.

Lemma lpLength_loop_spec fuel es1 es2 c : es = es1 ++ es2 -> (length es2 <= fuel)%nat ->
  0 <= c -> c + Z.of_nat (length es2) < 2 ^ 32 ->
  lpLength_loop fuel lp (ptr es1 es2) c = Ret (c + Z.of_nat (length es2)).
Proof using R.
  revert es1 es2 c. induction fuel as [|fuel IH]; intros es1 es2 c E Hf Hc Hb.
  - destruct es2; [|simpl in Hf; lia]. cbn. f_equal. lia.
  - destruct es2 as [|e es2]; [cbn; f_equal; lia|]. cbn [ptr lpLength_loop].
    rewrite (lpNext_spec lp es nf slack R es1 e es2 E). cbn [obind].
    simpl length in *. rewrite wrap_small by (unfold in_u; lia).
    rewrite IH; [f_equal; lia|by rewrite <- app_assoc|lia|lia|lia].
Qed.
End Seek.

(** Rewriting the count field of a listpack. *)
Lemma set_num lp es nf slack nf' : listpack_at lp es nf slack -> in_u 16 nf' ->
  lpSetNumElements lp nf' = header es nf' ++ body es ++ [LP_EOF] ++ slack.
Proof.
  intros [-> _ _ _] Hn. unfold lpSetNumElements, header.
  rewrite !land_255, Z.shiftr_div_pow2 by lia.
  change [nf' mod 256; (nf' / 2 ^ 8) mod 256] with (le_encode 2 nf').
  rewrite <- !app_assoc.
  replace 4%nat with (length (le_encode 4 (total es))) at 3 by apply length_le_encode.
  apply store_middle. by rewrite !length_le_encode.
Qed.

Lemma lpLength_spec lp es : listpack lp es ->
  exists lp', lpLength lp = Ret (Z.of_nat (length es), lp') /\ listpack lp' es.
Proof.
  intros (nf & slack & R). unfold lpLength. rewrite (get_num lp es nf slack R).
  pose proof (lp_elems _ _ _ _ R) as He. pose proof (lp_total _ _ _ _ R) as Ht.
  pose proof (length_es_total es He) as Hlen.
  destruct (lp_count _ _ _ _ R) as [Hu|[Hn Hlt]].
  - rewrite Hu, Z.eqb_refl. cbn [negb]. rewrite (lpFirst_spec lp es nf slack R). cbn [obind].
    pose proof (length_lp lp es nf slack R).
    rewrite (lpLength_loop_spec lp es nf slack R (length lp) [] es 0)
      by (done || unfold total in *; lia). cbn [obind]. rewrite Z.add_0_l.
    eexists. split; [done|]. case_bool; [|by exists nf, slack].
    exists (Z.of_nat (length es)), slack.
    assert (in_u 16 (Z.of_nat (length es))) by (unfold in_u, LP_HDR_NUMELE_UNKNOWN in *; lia).
    split; [by eapply set_num|done|done|right; split; [done|lia]].
  - destruct (Z.eqb_spec nf LP_HDR_NUMELE_UNKNOWN); [lia|]. cbn [negb].
    exists lp. rewrite Hn. split; [done|]. by exists nf, slack.
Qed.

(** ** Header access on any buffer that starts with a header *)

Lemma get_num_raw x nf rest : in_u 16 nf ->
  lpGetNumElements (le_encode 4 x ++ le_encode 2 nf ++ rest) = nf.
Proof.
  intros Hn. unfold lpGetNumElements, at_.
  rewrite !(app_nth2 (le_encode 4 _)) by (rewrite length_le_encode; lia).
  rewrite length_le_encode. rewrite !app_nth1 by (rewrite length_le_encode; lia).
  cbn [le_encode nth Nat.sub].
  rewrite lor2 by apply mod256_byte. change [?a; ?b] with (le_encode 2 nf).
  rewrite le_decode_encode. by apply wrap_small.
Qed.

Lemma set_num_raw x nf rest nf' :
  lpSetNumElements (le_encode 4 x ++ le_encode 2 nf ++ rest) nf'
  = le_encode 4 x ++ le_encode 2 nf' ++ rest.
Proof.
  unfold lpSetNumElements. rewrite !land_255, Z.shiftr_div_pow2 by lia.
  change [nf' mod 256; (nf' / 2 ^ 8) mod 256] with (le_encode 2 nf').
  replace 4%nat with (length (le_encode 4 x)) at 2 by apply length_le_encode.
  apply store_middle. by rewrite !length_le_encode.
Qed.

Lemma set_total_raw x rest y :
  lpSetTotalBytes (le_encode 4 x ++ rest) y = le_encode 4 y ++ rest.
Proof.
  unfold lpSetTotalBytes. rewrite !land_255, !Z.shiftr_div_pow2 by lia.
  replace [y mod 256; (y / 2 ^ 8) mod 256; (y / 2 ^ 16) mod 256; (y / 2 ^ 24) mod 256]
    with (le_encode 4 y) by (cbn [le_encode]; rewrite !Z.div_div by lia; done).
  apply (store_middle [] (le_encode 4 x)). by rewrite !length_le_encode.
Qed.

(** ** Insertion, replacement and deletion *)

(** The element a string is stored as. *)
Definition elem_of_string (s : list Z) : elem :=
  match lpStringToInt64 s with Some v => EInt v | None => EStr s end.

(** The arguments [elestr] and [eleint] that ask for [new]: [None] deletes. *)
Definition insert_args (new : option elem) (elestr eleint : option (list Z)) : Prop :=
  match new with
  | None => elestr = None /\ eleint = None
  | Some e =>
      (exists s, elestr = Some s /\ eleint = None /\ bytes s /\ e = elem_of_string s) \/
      (exists v, elestr = None /\ eleint = Some (lpEncodeIntegerGetType v) /\
                 in_s 64 v /\ e = EInt v)
  end.

(** Around the position after [es1]: what stays on the left, what is removed
    and what stays on the right. *)
Definition edit_at (wh : where_) (new : option elem) (es1 es2 : list elem)
  : option (list elem * list elem * list elem) :=
  match new, wh, es2 with
  | Some _, LP_BEFORE, _ => Some (es1, [], es2)
  | Some _, LP_AFTER, o :: r => Some (es1 ++ [o], [], r)
  | _, LP_AFTER, o :: r => Some (es1, [o], r)
  | _, _, o :: r => Some (es1, [o], r)
  | _, _, [] => None
  end.

Definition olist {A} (o : option A) : list A := match o with Some x => [x] | None => [] end.

Lemma insert_args_payload e elestr eleint : insert_args (Some e) elestr eleint ->
  insert_payload elestr eleint = (encode_elem e, Z.of_nat (length (encode_elem e))).
Proof.
  intros [(s & -> & -> & _ & ->)|(v & -> & -> & _ & ->)]; [|done].
  unfold insert_payload, lpEncodeGetType, elem_of_string.
  destruct (lpStringToInt64 s) as [v|]; [done|]. f_equal.
  unfold encode_elem. rewrite length_lpEncodeString. unfold str_hdr. repeat case_bool; lia.
Qed.

Lemma insert_args_ok e elestr eleint : insert_args (Some e) elestr eleint ->
  Z.of_nat (length (encode_elem e)) + 7 < 2 ^ 32 -> elem_ok e.
Proof.
  intros [(s & _ & _ & Hb & ->)|(v & _ & _ & Hv & ->)]; [|done].
  unfold elem_of_string. destruct (lpStringToInt64 s) as [v|] eqn:E; simpl.
  - rewrite lpStringToInt64_string2ll in E. by apply NumStr.string2ll_spec in E as [? _].
  - rewrite length_lpEncodeString. unfold str_hdr. intros. split; [done|]. repeat case_bool; lia.
Qed.

Section Insert.
Context (fresh : nat -> Z) (usable : nat -> nat).
Context (Husable : forall n, (n <= usable n)%nat).

Lemma lp_realloc_prefix l t n : Z.of_nat (length l) <= n ->
  exists t', lp_realloc fresh usable (l ++ t) n = l ++ t'.
Proof using Husable.
  intros H. apply realloc_prefix. specialize (Husable (Z.to_nat n)). lia.
Qed.

(** The reallocations and the [memmove]: the bytes left of the edit and those
    right of what is removed are kept, with a gap of [k] bytes between. *)
Lemma open_gap h o m s k :
  let old_bytes := Z.of_nat (length (h ++ o ++ m)) in
  let new_bytes := Z.of_nat (length h + k + length m) in
  let lp := h ++ o ++ m ++ s in
  let lp1 := if (old_bytes <? new_bytes) && (lp_malloc_size lp <? new_bytes)
             then lp_realloc fresh usable lp new_bytes else lp in
  let lp2 := memmove lp1 (length h + k) (length h + length o) (length m) in
  exists g t,
    (if new_bytes <? old_bytes then lp_realloc fresh usable lp2 new_bytes else lp2)
    = h ++ g ++ m ++ t /\ length g = k.
Proof using Husable.
  intros old_bytes new_bytes lp lp1 lp2.
  assert (exists s1, lp1 = h ++ o ++ m ++ s1 /\ (length h + k + length m <= length lp1)%nat)
    as (s1 & E1 & Hl1).
  { unfold lp1, old_bytes, new_bytes, lp_malloc_size in *.
    destruct (_ && _) eqn:E.
    - zbool. unfold lp. rewrite (app_assoc o), (app_assoc h).
      destruct (lp_realloc_prefix (h ++ o ++ m) s (Z.of_nat (length h + k + length m))) as [t' Ht]; [lia|].
      exists t'. rewrite Ht, <- !app_assoc. split; [done|]. rewrite <- !app_assoc in Ht.
      rewrite <- Ht. unfold lp_realloc. rewrite length_realloc.
      specialize (Husable (Z.to_nat (Z.of_nat (length h + k + length m)))). lia.
    - exists s. split; [done|]. unfold lp in *. rewrite !length_app in *.
      apply andb_false_iff in E as [E|E]; zbool; rewrite ?length_app in E; lia. }
  destruct (memmove_middle h o m s1 k) as (g & t & E2 & Hg); [by rewrite <- E1|].
  rewrite <- E1 in E2. fold lp2 in E2. rewrite E2. case_bool.
  - destruct (lp_realloc_prefix (h ++ g ++ m) t new_bytes) as [t' Ht].
    { unfold new_bytes. rewrite !length_app. lia. }
    rewrite <- !app_assoc in Ht. eauto.
  - eauto.
Qed.

(** The bytes of the new entry, empty for a deletion. *)
Definition new_bytes_of (new : option elem) : list Z :=
  match new with Some e => entry e | None => [] end.

Lemma total_edit left mid right :
  total (left ++ mid ++ right) =
  Z.of_nat (pos left) + Z.of_nat (length (body mid)) + Z.of_nat (length (body right)) + 1.
Proof using. unfold total. rewrite pos_app, body_app, length_app. lia. Qed.

Lemma body_olist new : body (olist new) = new_bytes_of new.
Proof using. destruct new; [|done]. unfold body. simpl. by rewrite app_nil_r. Qed.

(** The count field after the edit. *)
Definition new_count (nf : Z) (wh : where_) (new : option elem) : Z :=
  match wh, new with
  | LP_REPLACE, Some _ => nf
  | _, _ => if nf =? LP_HDR_NUMELE_UNKNOWN then nf
            else match new with Some _ => nf + 1 | None => nf - 1 end
  end.

(** After a deletion [newp] is NULL exactly when nothing follows. *)
Lemma newp_spec h right t : Forall elem_ok right ->
  (at_ (h ++ (body right ++ [LP_EOF]) ++ t) (length h) =? LP_EOF)
  = match right with [] => true | _ => false end.
Proof using.
  intros Hr. destruct right as [|e right].
  - unfold at_. rewrite app_nth2, Nat.sub_diag by lia. done.
  - inversion_clear Hr as [|? ? He _].
    assert (has (h ++ (body (e :: right) ++ [LP_EOF]) ++ t) (length h) (encode_elem e)) as H.
    { rewrite body_cons. unfold entry. rewrite <- !app_assoc. apply has_middle. }
    apply decode_elem in H as (_ & _ & _ & H); [|done]. by apply Z.eqb_neq.
Qed.

Lemma store_entry h g rest e : length g = length (entry e) ->
  store (store (h ++ g ++ rest) (length h) (encode_elem e)) (length h + length (encode_elem e))
    (lpEncodeBacklen (Z.of_nat (length (encode_elem e)))) = h ++ entry e ++ rest.
Proof using.
  intros Hg. rewrite store_store_app.
  - by apply store_middle.
  - rewrite !length_app, Hg. unfold entry. rewrite length_app. lia.
Qed.

(** The header updates at the end of [lpInsert]. *)
Lemma update_header x nf rest wh new n : in_u 16 nf ->
  (new = None -> 1 <= nf) ->
  lpSetTotalBytes
    (match wh, match new with None => true | Some _ => false end with
     | LP_REPLACE, false => le_encode 4 x ++ le_encode 2 nf ++ rest
     | _, _ =>
         let num_elements := lpGetNumElements (le_encode 4 x ++ le_encode 2 nf ++ rest) in
         if num_elements =? LP_HDR_NUMELE_UNKNOWN then le_encode 4 x ++ le_encode 2 nf ++ rest
         else if negb (match new with None => true | Some _ => false end)
         then lpSetNumElements (le_encode 4 x ++ le_encode 2 nf ++ rest) (u32 (num_elements + 1))
         else lpSetNumElements (le_encode 4 x ++ le_encode 2 nf ++ rest) (u32 (num_elements - 1))
     end) n
  = le_encode 4 n ++ le_encode 2 (new_count nf wh new) ++ rest.
Proof using.
  intros Hnf Hpos. rewrite get_num_raw by done. cbv zeta. unfold new_count, in_u in *.
  assert (u32 (nf + 1) = nf + 1) as Ep by (apply wrap_small; unfold in_u; lia).
  destruct new as [e|].
  - rewrite Ep. destruct (nf =? LP_HDR_NUMELE_UNKNOWN), wh; cbn [negb];
      by rewrite ?set_num_raw, set_total_raw.
  - specialize (Hpos eq_refl).
    assert (u32 (nf - 1) = nf - 1) as Em by (apply wrap_small; unfold in_u; lia).
    rewrite Em. destruct (nf =? LP_HDR_NUMELE_UNKNOWN), wh; cbn [negb];
      by rewrite ?set_num_raw, set_total_raw.
Qed.

Lemma lpInsert_apply_spec lp left old right nf slack new wh :
  listpack_at lp (left ++ old ++ right) nf slack ->
  (wh = LP_BEFORE /\ old = [] /\ new <> None \/ wh = LP_REPLACE /\ length old = 1%nat) ->
  let k := Z.of_nat (length (new_bytes_of new)) in
  let delete := match new with None => true | Some _ => false end in
  let payload := match new with Some e => encode_elem e | None => [] end in
  let backlen := match new with
                 | Some e => lpEncodeBacklen (Z.of_nat (length (encode_elem e)))
                 | None => [] end in
  let res := left ++ olist new ++ right in
  k < 2 ^ 40 ->
  if UINT32_MAX <? total res then
    lpInsert_apply fresh usable lp delete payload (Z.of_nat (length payload)) backlen wh
      (pos left) (Z.of_nat (length (body old))) = None
  else exists t,
    lpInsert_apply fresh usable lp delete payload (Z.of_nat (length payload)) backlen wh
      (pos left) (Z.of_nat (length (body old)))
    = Some (header res (new_count nf wh new) ++ body res ++ [LP_EOF] ++ t,
            match new, right with None, [] => None | _, _ => Some (pos left) end).
Proof using Husable.
  intros R Hwh k delete payload backlen res Hk.
  assert (payload ++ backlen = new_bytes_of new) as Epb by (by destruct new).
  assert (k = Z.of_nat (length payload) + Z.of_nat (length backlen)) as Ek
    by (unfold k; rewrite <- Epb, length_app; lia).
  pose proof (lp_total _ _ _ _ R) as Ht. rewrite total_edit in Ht.
  assert (total res = Z.of_nat (pos left) + k + Z.of_nat (length (body right)) + 1) as Etot
    by (unfold res; rewrite total_edit, body_olist; unfold k; lia).
  pose proof (count_field_range _ _ (lp_count _ _ _ _ R)) as Hnf.
  unfold lpInsert_apply. rewrite (get_total _ _ _ _ R), total_edit.
  rewrite wrap_small by (unfold in_u; lia).
  replace (Z.of_nat (pos left) + Z.of_nat (length (body old)) + Z.of_nat (length (body right)) + 1 +
    Z.of_nat (length payload) + Z.of_nat (length backlen) - Z.of_nat (length (body old)))
    with (total res) by lia.
  destruct (Z.ltb_spec UINT32_MAX (total res)) as [Hbig|Hsmall]; [done|].
  set (h := header (left ++ old ++ right) nf ++ body left).
  assert (length h = pos left) as Hh by (unfold h; rewrite length_app, length_header; done).
  set (m := body right ++ [LP_EOF]).
  assert (lp = h ++ body old ++ m ++ slack) as Elp.
  { rewrite (lp_image _ _ _ _ R). unfold h, m. by rewrite !body_app, <- !app_assoc. }
  destruct (open_gap h (body old) m slack (length (new_bytes_of new))) as (g & t & E3 & Hg).
  assert (length m = (length (body right) + 1)%nat) as Hm by (unfold m; by rewrite length_app).
  rewrite !length_app, Hh, Hm in E3.
  replace (Z.of_nat (pos left + (length (body old) + (length (body right) + 1))))
    with (Z.of_nat (pos left) + Z.of_nat (length (body old)) + Z.of_nat (length (body right)) + 1)
    in E3 by lia.
  replace (Z.of_nat (pos left + length (new_bytes_of new) + (length (body right) + 1)))
    with (total res) in E3 by (unfold k in *; lia).
  rewrite <- Elp in E3.
  set (lp1 := if (_ <? total res) && _ then _ else lp) in *.
  assert (forall X Y,
    (match wh with
     | LP_BEFORE => memmove lp1 (pos left + Z.to_nat (Z.of_nat (length payload) + Z.of_nat (length backlen)))
                      (pos left) X
     | _ => memmove lp1 (pos left + Z.to_nat (Z.of_nat (length payload) + Z.of_nat (length backlen)))
              (pos left + Z.to_nat (Z.of_nat (length (body old)))) Y
     end) =
    memmove lp1 (pos left + length (new_bytes_of new)) (pos left + length (body old))
      (match wh with LP_BEFORE => X | _ => Y end)) as Emm.
  { intros X Y. rewrite <- Ek. unfold k. rewrite !Nat2Z.id.
    destruct Hwh as [(-> & -> & _)|[-> _]]; [|done]. by rewrite Nat.add_0_r. }
  rewrite Emm. clear Emm.
  replace (match wh with LP_BEFORE => _ | _ => _ end) with (length (body right) + 1)%nat
    by (destruct Hwh as [(-> & -> & _)|[-> _]]; simpl length; lia).
  rewrite E3.
  assert ((if delete && (at_ (h ++ g ++ m ++ t) (pos left) =? LP_EOF) then None else Some (pos left))
    = match new, right with None, [] => None | _, _ => Some (pos left) end) as Enewp.
  { destruct new; [done|]. destruct g; [|done]. rewrite <- Hh. unfold m, delete. cbn [app].
    rewrite newp_spec; [by destruct right|].
    pose proof (lp_elems _ _ _ _ R) as Hf. rewrite !Forall_app in Hf. tauto. }
  rewrite Enewp. clear Enewp.
  assert ((if delete then h ++ g ++ m ++ t
    else store (store (h ++ g ++ m ++ t) (pos left) payload)
           (pos left + Z.to_nat (Z.of_nat (length payload))) backlen)
    = h ++ new_bytes_of new ++ m ++ t) as Estore.
  { rewrite Nat2Z.id, <- Hh. destruct new as [e|]; [exact (store_entry h g (m ++ t) e Hg)|]. by destruct g. }
  rewrite Estore. clear Estore. exists t. f_equal. f_equal.
  unfold h, m, header. rewrite <- !app_assoc. unfold delete.
  rewrite update_header; [|done|].
  - unfold res. rewrite !body_app, body_olist, <- !app_assoc. done.
  - intros ->. destruct Hwh as [(_ & _ & ?)|[_ Ho]]; [done|].
    pose proof (lp_count _ _ _ _ R) as Hc. unfold count_field, LP_HDR_NUMELE_UNKNOWN in Hc.
    rewrite !length_app in Hc. lia.
Qed.

Lemma new_count_field es res nf wh (new : option elem) :
  count_field es nf ->
  length res = (match wh, new with
                | LP_REPLACE, Some _ => length es
                | _, Some _ => S (length es)
                | _, None => length es - 1
                end)%nat ->
  (new = None -> es <> []) ->
  count_field res (new_count nf wh new).
Proof using.
  unfold count_field, new_count, LP_HDR_NUMELE_UNKNOWN. intros Hc Hl Hne.
  destruct (Z.eqb_spec nf 65535); [left; by destruct wh, new|].
  destruct new as [e|]; [destruct wh; lia|].
  assert (length es <> 0%nat) by (specialize (Hne eq_refl); by destruct es).
  destruct wh; lia.
Qed.

(** Where the edit happens after the [LP_AFTER] adjustment, and how many bytes
    it replaces: the two assertions of [lpInsert] hold. *)
Lemma lpInsert_locate lp es1 es2 new elestr eleint wh left old right :
  listpack lp (es1 ++ es2) -> insert_args new elestr eleint ->
  edit_at wh new es1 es2 = Some (left, old, right) ->
  exists wh',
    es1 ++ es2 = left ++ old ++ right /\
    (wh' = LP_BEFORE /\ old = [] /\ new <> None \/ wh' = LP_REPLACE /\ length old = 1%nat) /\
    lpInsert fresh usable lp elestr eleint (pos es1) wh =
    (let '(payload, enclen) := insert_payload elestr eleint in
     let delete := match new with None => true | Some _ => false end in
     Ret (lpInsert_apply fresh usable lp delete payload enclen
       (if delete then [] else lpEncodeBacklen enclen) wh' (pos left)
       (Z.of_nat (length (body old))))).
Proof using.
  intros (nf & slack & R) Hargs Hedit. unfold lpInsert.
  assert (match elestr, eleint with None, None => true | _, _ => false end =
          match new with None => true | Some _ => false end) as ->.
  { destruct new; simpl in Hargs; [|by destruct Hargs as [-> ->]].
    destruct Hargs as [(? & -> & -> & _)|(? & -> & -> & _)]; done. }
  assert (forall o r, es2 = o :: r ->
    u32 (lpCurrentEncodedSizeUnsafe lp (pos es1)
         + backlen_size (lpCurrentEncodedSizeUnsafe lp (pos es1)))
      = Z.of_nat (length (body [o])) /\
    ASSERT_INTEGRITY_LEN lp (pos es1) (Z.of_nat (length (body [o]))) = true) as Hrepl.
  { intros o r ->. destruct (entry_facts _ _ _ _ R es1 o r eq_refl) as ((_ & D2 & _) & Hsz & _).
    destruct (pos_split_lt _ _ _ _ R es1 o r eq_refl) as (_ & Hle & _).
    pose proof (lp_total _ _ _ _ R) as Ht. unfold total in Ht.
    assert (length (body [o]) = length (entry o)) as El
      by (unfold body; simpl; by rewrite app_nil_r).
    rewrite D2, Hsz, El. split; [apply wrap_small; unfold in_u; lia|].
    unfold ASSERT_INTEGRITY_LEN. rewrite (get_total _ _ _ _ R). unfold total.
    apply andb_true_iff. rewrite Nat.leb_le, Z.ltb_lt. unfold pos in *. lia. }
  destruct (insert_payload elestr eleint) as [payload enclen].
  destruct new as [e|]; [destruct wh|]; simpl in Hedit.
  - simplify_eq. exists LP_BEFORE. by split; [|split; [left|]].
  - destruct es2 as [|o r]; [done|]. simplify_eq. exists LP_BEFORE.
    split; [by rewrite <- app_assoc|]. split; [by left|]. cbn [obind].
    rewrite (lpSkip_spec _ _ _ _ R es1 o right eq_refl).
    destruct (pos_split_lt _ _ _ _ R es1 o right eq_refl) as (_ & Hle & _).
    replace (ASSERT_INTEGRITY lp (pos (es1 ++ [o]))) with true; [done|].
    symmetry. apply andb_true_iff. rewrite (get_total _ _ _ _ R), pos_snoc, Nat.leb_le, Z.ltb_lt.
    unfold total, pos in *. lia.
  - destruct es2 as [|o r]; [done|]. simplify_eq. exists LP_REPLACE.
    split; [done|]. split; [by right|]. cbn [obind]. cbv zeta.
    destruct (Hrepl o right eq_refl) as [-> ->]. done.
  - destruct es2 as [|o r]; [by destruct wh|]. exists LP_REPLACE.
    assert (left = es1 /\ old = [o] /\ right = r) as (-> & -> & ->) by (destruct wh; by simplify_eq).
    split; [done|]. split; [by right|]. cbn [obind]. cbv zeta.
    destruct (Hrepl o r eq_refl) as [-> ->]. done.
Qed.

(** The bytes of a new element are few enough for 64-bit sizes. *)
Lemma insert_args_size new elestr eleint : insert_args new elestr eleint ->
  (forall s, elestr = Some s -> Z.of_nat (length s) < 2 ^ 32) ->
  Z.of_nat (length (new_bytes_of new)) < 2 ^ 40.
Proof using.
  intros Hargs Hlen. destruct new as [e|]; simpl; [|lia]. unfold entry. rewrite length_app.
  pose proof (length_lpEncodeBacklen (Z.of_nat (length (encode_elem e)))).
  destruct Hargs as [(s & -> & _ & _ & ->)|(v & _ & _ & Hv & ->)];
    [|pose proof (length_encode_elem (EInt v) Hv) as Hl; lia].
  specialize (Hlen s eq_refl). unfold elem_of_string in *.
  destruct (lpStringToInt64 s) as [v|] eqn:E.
  - rewrite lpStringToInt64_string2ll in E. apply NumStr.string2ll_spec in E as [Hv _].
    pose proof (length_encode_elem (EInt v) Hv) as Hl. lia.
  - cbn [encode_elem] in *. pose proof (length_lpEncodeString s) as El.
    assert (str_hdr s <= 5)%nat by (unfold str_hdr; repeat case_bool; lia). lia.
Qed.

(** The image [lpInsert_apply] builds represents the edited list. *)
Lemma edited_listpack lp left old right nf slack new elestr eleint wh t :
  listpack_at lp (left ++ old ++ right) nf slack -> insert_args new elestr eleint ->
  (wh = LP_BEFORE /\ old = [] /\ new <> None \/ wh = LP_REPLACE /\ length old = 1%nat) ->
  let res := left ++ olist new ++ right in
  total res <= UINT32_MAX ->
  listpack_at (header res (new_count nf wh new) ++ body res ++ [LP_EOF] ++ t) res
    (new_count nf wh new) t.
Proof using.
  intros R Hargs Hwh res Hs. split; [done| | |].
  - pose proof (lp_elems _ _ _ _ R) as Hf. rewrite !Forall_app in Hf. unfold res.
    rewrite !Forall_app. split; [tauto|]. split; [|tauto].
    destruct new as [e|]; [|constructor]. constructor; [|constructor].
    eapply insert_args_ok; [done|]. unfold res in Hs.
    rewrite total_edit, body_olist in Hs. simpl in Hs. unfold entry in Hs. rewrite length_app in Hs.
    pose proof (length_lpEncodeBacklen (Z.of_nat (length (encode_elem e)))).
    unfold pos, LP_HDR_SIZE, UINT32_MAX in Hs. lia.
  - unfold UINT32_MAX in Hs. lia.
  - apply (new_count_field (left ++ old ++ right)); [apply (lp_count _ _ _ _ R)| |].
    + unfold res. rewrite !length_app.
      destruct Hwh as [(-> & -> & ?)|[-> Ho]]; destruct new; simpl in *; done || lia.
    + intros ->. destruct Hwh as [(_ & _ & ?)|[_ Ho]]; [done|].
      intros E. apply (f_equal length) in E. rewrite !length_app in E. simpl in E. lia.
Qed.

Lemma lpInsert_spec lp es1 es2 new elestr eleint wh left old right :
  listpack lp (es1 ++ es2) -> insert_args new elestr eleint ->
  (forall s, elestr = Some s -> Z.of_nat (length s) < 2 ^ 32) ->
  edit_at wh new es1 es2 = Some (left, old, right) ->
  let res := left ++ olist new ++ right in
  let newp := match new, right with None, [] => None | _, _ => Some (pos left) end in
  if UINT32_MAX <? total res then lpInsert fresh usable lp elestr eleint (pos es1) wh = Ret None
  else exists lp',
    lpInsert fresh usable lp elestr eleint (pos es1) wh = Ret (Some (lp', newp)) /\
    listpack lp' res.
Proof using Husable.
  intros HR Hargs Hlen Hedit res newp.
  destruct (lpInsert_locate _ _ _ _ _ _ _ _ _ _ HR Hargs Hedit) as (wh' & Ees & Hwh & ->).
  destruct HR as (nf & slack & R). rewrite Ees in R.
  assert (insert_payload elestr eleint =
    (match new with Some e => encode_elem e | None => [] end,
     Z.of_nat (length (match new with Some e => encode_elem e | None => [] end)))) as ->.
  { destruct new as [e|]; [by apply insert_args_payload|]. by destruct Hargs as [-> ->]. }
  pose proof (insert_args_size _ _ _ Hargs Hlen) as Hk.
  pose proof (lpInsert_apply_spec lp left old right nf slack new wh' R Hwh Hk) as Happ.
  cbv zeta in Happ |- *. fold res in Happ.
  replace (if match new with Some _ => false | None => true end then [] else _)
    with (match new with
          | Some e => lpEncodeBacklen (Z.of_nat (length (encode_elem e)))
          | None => [] end) by (by destruct new).
  destruct (Z.ltb_spec UINT32_MAX (total res)) as [Hb|Hs]; [by rewrite Happ|].
  destruct Happ as [t ->]. eexists. split; [done|].
  exists (new_count nf wh' new), t. by eapply edited_listpack.
Qed.

(** [lpInsert] edits the list of elements exactly as asked.  On a
    well-formed listpack, at the position of an element (or at the terminator
    for LP_BEFORE), inserting before, inserting after, replacing and deleting
    return a well-formed listpack of the edited list, with [newp] on the new
    element, or for a deletion on its successor, NULL if there is none; no
    assertion fails.  NULL is returned, and only then, when the result would not
    fit the 32-bit size field.  [usable] is the size the allocator reports for a
    request and is never less than it. *)
Theorem lpInsert_correct lp es1 es2 new elestr eleint wh left old right :
  listpack lp (es1 ++ es2) -> insert_args new elestr eleint ->
  (forall s, elestr = Some s -> Z.of_nat (length s) < 2 ^ 32) ->
  edit_at wh new es1 es2 = Some (left, old, right) ->
  let res := left ++ olist new ++ right in
  let newp := match new, right with None, [] => None | _, _ => Some (pos left) end in
  if UINT32_MAX <? total res then lpInsert fresh usable lp elestr eleint (pos es1) wh = Ret None
  else exists lp',
    lpInsert fresh usable lp elestr eleint (pos es1) wh = Ret (Some (lp', newp)) /\
    listpack lp' res.
Proof using Husable. apply lpInsert_spec. Qed.

(** Arguments of a call with a string. *)
Lemma insert_args_string s : bytes s -> insert_args (Some (elem_of_string s)) (Some s) None.
Proof using. intros. left. by exists s. Qed.

Lemma lpInsert_fits lp es1 es2 new elestr eleint wh left old right :
  listpack lp (es1 ++ es2) -> insert_args new elestr eleint ->
  (forall s, elestr = Some s -> Z.of_nat (length s) < 2 ^ 32) ->
  edit_at wh new es1 es2 = Some (left, old, right) ->
  total (left ++ olist new ++ right) <= UINT32_MAX ->
  exists lp',
    lpInsert fresh usable lp elestr eleint (pos es1) wh
      = Ret (Some (lp', match new, right with None, [] => None | _, _ => Some (pos left) end)) /\
    listpack lp' (left ++ olist new ++ right).
Proof using Husable.
  intros HR Hargs Hlen Hedit Hfit.
  pose proof (lpInsert_spec _ _ _ _ _ _ _ _ _ _ HR Hargs Hlen Hedit) as H. cbv zeta in H.
  destruct (Z.ltb_spec UINT32_MAX (total (left ++ olist new ++ right))); [lia|done].
Qed.

(** The outcome [r] is a listpack of [es] and [newp], if that fits. *)
Definition yields (es : list elem) (r : outcome (option (list Z * option nat)))
  (newp : option nat) : Prop :=
  total es <= UINT32_MAX -> exists lp', r = Ret (Some (lp', newp)) /\ listpack lp' es.

(** C19: the public edits.  [lpAppend] and [lpPrepend] of a well-formed listpack,
    empty or not, add the element at that end, [lpReplace] and [lpDelete] change
    and remove the one at the pointer, as long as the result fits the size
    field.  A string that is the canonical form of a 64-bit integer is stored
    as the integer. *)
Theorem listpack_edits lp es s : listpack lp es -> bytes s -> Z.of_nat (length s) < 2 ^ 32 ->
  let x := elem_of_string s in
  yields (es ++ [x]) (lpAppend fresh usable lp s) (Some (pos es)) /\
  yields (x :: es) (lpPrepend fresh usable lp s) (Some (pos [])) /\
  (forall es1 e es2, es = es1 ++ e :: es2 ->
    yields (es1 ++ x :: es2) (lpReplace fresh usable lp (pos es1) s) (Some (pos es1)) /\
    yields (es1 ++ es2) (lpDelete fresh usable lp (pos es1))
      (match es2 with [] => None | _ => Some (pos es1) end)).
Proof using Husable.
  intros HR Hb Hl x. pose proof (insert_args_string s Hb) as Ha. fold x in Ha.
  assert (forall s', Some s = Some s' -> Z.of_nat (length s') < 2 ^ 32) as Hl' by (by intros ? [= <-]).
  assert (yields (es ++ [x]) (lpAppend fresh usable lp s) (Some (pos es))) as Happ.
  { intros Hs. unfold lpAppend. destruct HR as (nf & slack & R).
    rewrite (get_total lp es nf slack R).
    replace (Z.to_nat (total es - 1)) with (pos es) by (unfold total; lia).
    apply (lpInsert_fits lp es [] (Some x) (Some s) None LP_BEFORE es [] []); try done.
    rewrite app_nil_r. by exists nf, slack. }
  split; [done|]. split.
  - intros Hs. unfold lpPrepend. destruct HR as (nf & slack & R).
    rewrite (lpFirst_spec lp es nf slack R). destruct es as [|e es]; cbn [obind ptr]; [by apply Happ|].
    apply (lpInsert_fits lp [] (e :: es) (Some x) (Some s) None LP_BEFORE [] [] (e :: es)); try done.
    by exists nf, slack.
  - intros es1 e es2 ->. split; intros Hs.
    + by apply (lpInsert_fits lp es1 (e :: es2) (Some x) (Some s) None LP_REPLACE es1 [e] es2).
    + destruct (lpInsert_fits lp es1 (e :: es2) None None None LP_REPLACE es1 [e] es2)
        as (lp' & E & ?); try done. exists lp'. unfold lpDelete. rewrite E. by destruct es2.
Qed.

End Insert.

(** Navigation.  On a well-formed listpack every pointer operation lands on
    an element boundary and no assertion fails: [lpFirst] and [lpNext] walk the
    elements left to right and end with NULL, [lpPrev] and [lpLast] walk back,
    and [lpSeek] reaches the element of any index, counted from the end when
    negative, and returns NULL exactly when it is out of range, whichever
    direction it scans in and whether or not the count field is known. *)
Theorem listpack_navigation lp es : listpack lp es ->
  lpFirst lp = Ret (ptr [] es) /\
  lpLast lp = Ret (nth_ptr es (-1)) /\
  (forall es1 e es2, es = es1 ++ e :: es2 ->
     lpNext lp (pos es1) = Ret (ptr (es1 ++ [e]) es2) /\
     lpPrev lp (pos (es1 ++ [e])) = Ret (Some (pos es1))) /\
  lpPrev lp (pos []) = Ret None /\
  (forall i, lpSeek lp i = Ret (nth_ptr es i)).
Proof.
  intros (nf & slack & R). split; [by eapply lpFirst_spec|]. split.
  { pose proof (seek_from_last lp es nf slack R (-1) ltac:(lia)) as H.
    change (Z.to_nat (-1 - -1)) with 0%nat in H. rewrite <- H.
    destruct (lpLast lp) as [|[]]; done. }
  split; [|split; [done|intros; by eapply lpSeek_spec]].
  intros es1 e es2 E. split; [by eapply lpNext_spec|by eapply lpPrev_spec].
Qed.

(** ** Creation, length, integrity check *)

Lemma set_total_any lp y : lpSetTotalBytes lp y = le_encode 4 y ++ drop 4 lp.
Proof.
  unfold lpSetTotalBytes, store. rewrite !land_255, !Z.shiftr_div_pow2 by lia.
  cbn [le_encode take length app Nat.add]. by rewrite !Z.div_div by lia.
Qed.

Lemma set_num_any x rest nf :
  lpSetNumElements (le_encode 4 x ++ rest) nf = le_encode 4 x ++ le_encode 2 nf ++ drop 2 rest.
Proof.
  unfold lpSetNumElements, store. rewrite !land_255, Z.shiftr_div_pow2 by lia.
  rewrite take_app_length' by (by rewrite length_le_encode).
  change [nf mod 256; (nf / 2 ^ 8) mod 256] with (le_encode 2 nf).
  rewrite length_le_encode. by f_equal.
Qed.

Lemma lpNew_spec fresh usable capacity : (forall n, (n <= usable n)%nat) ->
  listpack (lpNew fresh usable capacity) [].
Proof.
  intros Hu. unfold lpNew, lp_realloc.
  set (b := realloc _ _ _). assert (7 <= length b)%nat as Hb.
  { unfold b. rewrite length_realloc. specialize (Hu (Z.to_nat (Z.max capacity (Z.of_nat LP_HDR_SIZE + 1)))).
    unfold LP_HDR_SIZE in *. lia. }
  rewrite set_total_any, set_num_any, drop_drop.
  exists 0, (drop 7 b). split; [|constructor|reflexivity|right; split; [done|reflexivity]].
  unfold header. rewrite app_assoc.
  assert (exists x, drop (4 + 2) b = [x] ++ drop 7 b) as [x ->].
  { destruct (lookup_lt_is_Some_2 b 6) as [x Hx]; [lia|]. exists x.
    exact (drop_S b x 6 Hx). }
  change (body []) with (@nil Z). cbn [app]. apply (store_middle (le_encode 4 7 ++ le_encode 2 0) [x]). done.
Qed.

(** [lpLength] counts the elements: from the header when the count is
    known, by a full scan otherwise, and the scan also repairs the header when
    the count fits again; either way the listpack still holds the same
    elements. *)
Theorem lpLength_correct lp es : listpack lp es ->
  exists lp', lpLength lp = Ret (Z.of_nat (length es), lp') /\ listpack lp' es /\
    (Z.of_nat (length es) < LP_HDR_NUMELE_UNKNOWN -> lpGetNumElements lp' = Z.of_nat (length es)).
Proof.
  intros (nf & slack & R). pose proof (length_es_total es (lp_elems _ _ _ _ R)) as Hlen.
  pose proof (lp_total _ _ _ _ R) as Ht.
  destruct (lpLength_spec lp es (ex_intro _ nf (ex_intro _ slack R))) as (lp' & Hl & HR').
  exists lp'. split; [done|]. split; [done|]. intros Hlt.
  unfold lpLength in Hl. rewrite (get_num lp es nf slack R) in Hl.
  destruct (lp_count _ _ _ _ R) as [Hu|[Hn Hlt']].
  - rewrite Hu, Z.eqb_refl in Hl. cbn [negb] in Hl.
    rewrite (lpFirst_spec lp es nf slack R) in Hl. cbn [obind] in Hl.
    pose proof (length_lp lp es nf slack R).
    rewrite (lpLength_loop_spec lp es nf slack R (length lp) [] es 0) in Hl
      by (done || unfold total in *; lia). cbn [obind] in Hl. rewrite Z.add_0_l in Hl.
    destruct (Z.ltb_spec (Z.of_nat (length es)) LP_HDR_NUMELE_UNKNOWN); [|lia].
    assert (in_u 16 (Z.of_nat (length es))) as Hr by (unfold in_u, LP_HDR_NUMELE_UNKNOWN in *; lia).
    rewrite (set_num lp es nf slack _ R Hr) in Hl. replace lp' with (header es (Z.of_nat (length es)) ++ body es ++ [LP_EOF] ++ slack) by congruence.
    unfold header. rewrite <- !app_assoc. by apply get_num_raw.
  - destruct (Z.eqb_spec nf LP_HDR_NUMELE_UNKNOWN); [lia|]. cbn [negb] in Hl.
    simplify_eq. by apply (get_num lp' es _ slack).
Qed.

Section Validate.
Context (lp : list Z) (es : list elem) (nf : Z).
Context (R : listpack_at lp es nf []).

Lemma validate_entries_spec {U} (entry_cb : option (nat -> Z -> U -> bool * U)) fuel es1 es2 c u :
  (forall cb, entry_cb = Some cb -> forall p n u, fst (cb p n u) = true) -> es = es1 ++ es2 -> (length es2 <= fuel)%nat ->
  0 <= c -> c + Z.of_nat (length es2) < 2 ^ 32 ->
  validate_entries entry_cb fuel lp (Some (pos es1)) (total es) nf c u
  = Some (Some (pos es), c + Z.of_nat (length es2)).
Proof using R.
  intros Hcb. revert es1 es2 c u. induction fuel as [|fuel IH]; intros es1 es2 c u E Hf Hc Hb;
    (destruct es2 as [|e es2];
     [rewrite app_nil_r in E; subst es1; cbn [validate_entries];
      rewrite (at_eof lp es nf [] R), Z.eqb_refl; simpl; by rewrite Z.add_0_r|]);
    [simpl in Hf; lia|].
  cbn [validate_entries].
  destruct (Z.eqb_spec (at_ lp (pos es1)) LP_EOF) as [He|_].
  { by destruct (at_start lp es nf [] R es1 e es2 E). }
  rewrite (validate_next_elem lp es nf [] R es1 e es2 E). simpl length in *.
  rewrite wrap_small by (unfold in_u; lia).
  destruct (match entry_cb with Some cb => _ | None => _ end) as [ok u'] eqn:Eo.
  assert (ok = true) as ->.
  { destruct entry_cb as [cb|]; [|by injection Eo]. pose proof (Hcb cb eq_refl (pos es1) nf u) as H.
    by rewrite Eo in H. }
  cbn [negb].
  rewrite (IH (es1 ++ [e]) es2); [do 2 f_equal; lia|by rewrite <- app_assoc|lia|lia|lia].
Qed.

Lemma lpValidateIntegrity_accepts {U} (entry_cb : option (nat -> Z -> U -> bool * U)) u deep :
  (forall cb, entry_cb = Some cb -> forall p n u, fst (cb p n u) = true) ->
  lpValidateIntegrity lp (Z.of_nat (length lp)) deep entry_cb u = true.
Proof using R.
  intros Hcb.
  assert (Z.of_nat (length lp) = total es) as El.
  { rewrite (lp_image _ _ _ _ R), !length_app, length_header. unfold total, pos. simpl. lia. }
  pose proof (total_pos es). pose proof (lp_total _ _ _ _ R).
  pose proof (length_es_total es (lp_elems _ _ _ _ R)).
  unfold lpValidateIntegrity. rewrite (get_total lp es nf [] R), El, Z.eqb_refl. cbn [negb].
  destruct (Z.ltb_spec (total es) (Z.of_nat LP_HDR_SIZE + 1)); [unfold LP_HDR_SIZE in *; lia|].
  replace (Z.to_nat (total es - 1)) with (pos es) by (unfold total; lia).
  rewrite (at_eof lp es nf [] R), Z.eqb_refl. cbn [negb].
  destruct deep; cbn [negb]; [|done].
  change LP_HDR_SIZE with (pos []). rewrite (get_num lp es nf [] R).
  rewrite (validate_entries_spec entry_cb (length lp) [] es 0) by (done || lia).
  replace (Z.of_nat (pos es) =? total es - 1) with true
    by (symmetry; apply Z.eqb_eq; unfold total; lia).
  cbn [negb]. rewrite Z.add_0_l.
  destruct (lp_count _ _ _ _ R) as [Hu|[Hn _]].
  - by rewrite Hu, Z.eqb_refl.
  - rewrite Hn, Z.eqb_refl. by rewrite andb_false_r.
Qed.
End Validate.

(** What the deep check establishes about any buffer: each entry starts where
    the previous one ends, inside the buffer, its back length leads back to it,
    and the chain reaches the terminator. *)
Inductive chain (lp : list Z) (bytes : Z) : nat -> nat -> Z -> Prop :=
| chain_end p : at_ lp p = LP_EOF -> chain lp bytes p p 0
| chain_step p q r n :
    at_ lp p <> LP_EOF -> q = lpSkip lp p ->
    (LP_HDR_SIZE <= p < q)%nat -> Z.of_nat q <= bytes - 1 ->
    u64 (lpDecodeBacklen lp (q - 1) + backlen_size (lpCurrentEncodedSizeUnsafe lp p))
      = Z.of_nat (q - p) ->
    chain lp bytes q r n -> chain lp bytes p r (n + 1).

Lemma encoded_size_nonneg lp p : 0 <= lpCurrentEncodedSizeUnsafe lp p.
Proof.
  unfold lpCurrentEncodedSizeUnsafe. repeat case_match; try lia; by apply wrap_range.
Qed.

Lemma validate_next_progress lp p q bytes :
  lpValidateNext lp (Some p) bytes = Some (Some q) ->
  q = lpSkip lp p /\ (LP_HDR_SIZE <= p < q)%nat /\ Z.of_nat q <= bytes - 1 /\
  u64 (lpDecodeBacklen lp (q - 1) + backlen_size (lpCurrentEncodedSizeUnsafe lp p))
    = Z.of_nat (q - p).
Proof.
  pose proof (backlen_size_range (lpCurrentEncodedSizeUnsafe lp p)).
  pose proof (encoded_size_nonneg lp p).
  unfold lpValidateNext, lpSkip.
  repeat (match goal with |- (if ?c then _ else _) = _ -> _ => destruct c eqn:? end; [done|]).
  unfold OUT_OF_RANGE in *. intros [= <-]. zbool. split_and!; lia || done.
Qed.

Lemma validate_entries_chain {U} (cb : option (nat -> Z -> U -> bool * U)) fuel lp p bytes numele c u q n :
  0 <= c -> c + Z.of_nat fuel < 2 ^ 32 ->
  validate_entries cb fuel lp (Some p) bytes numele c u = Some (Some q, n) ->
  exists k, chain lp bytes p q k /\ n = c + k /\ 0 <= k <= Z.of_nat fuel.
Proof.
  revert p c u. induction fuel as [|fuel IH]; intros p c u Hc Hf; cbn [validate_entries];
    destruct (Z.eqb_spec (at_ lp p) LP_EOF) as [He|He]; try done.
  1,2: intros [= <- <-]; exists 0; repeat split; [by constructor|lia|lia|lia].
  destruct (lpValidateNext lp (Some p) bytes) as [p'|] eqn:En; [|done].
  destruct (match cb with Some cb => _ | None => _ end) as [[] u']; [cbn [negb]|done].
  destruct p' as [p'|]; [|by destruct fuel].
  rewrite wrap_small by (unfold in_u; lia). intros Hv.
  destruct (IH p' (c + 1) u') as (k & Hk & -> & Hb); [lia|lia|done|].
  apply validate_next_progress in En as (-> & Hp & Hq & Hl).
  exists (k + 1). split; [by eapply chain_step|lia].
Qed.

(** C33: the integrity check for untrusted payloads.  It accepts every listpack
    the library builds, shallow or deep, unless the caller's own check of an
    entry refuses one; and when the deep check accepts a
    buffer, walking it from the first entry with [lpSkip] stays inside the
    buffer, reaches the terminator on the last byte, and, if the count field is
    known, passes exactly that many entries. *)
Theorem lpValidateIntegrity_correct {U} (entry_cb : option (nat -> Z -> U -> bool * U)) (u : U) :
  (forall lp es nf deep, listpack_at lp es nf [] ->
     (forall cb, entry_cb = Some cb -> forall p n u, fst (cb p n u) = true) ->
     lpValidateIntegrity lp (Z.of_nat (length lp)) deep entry_cb u = true) /\
  (forall lp, Z.of_nat (length lp) < 2 ^ 32 ->
     lpValidateIntegrity lp (Z.of_nat (length lp)) true entry_cb u = true ->
     lpGetTotalBytes lp = Z.of_nat (length lp) /\
     exists n, chain lp (Z.of_nat (length lp)) LP_HDR_SIZE (length lp - 1) n /\
       (lpGetNumElements lp <> LP_HDR_NUMELE_UNKNOWN -> lpGetNumElements lp = n)).
Proof.
  split; [intros; by eapply lpValidateIntegrity_accepts|].
  intros lp Hs. unfold lpValidateIntegrity. case_bool; [done|].
  destruct (Z.eqb_spec (lpGetTotalBytes lp) (Z.of_nat (length lp))) as [E|]; [|done]. cbn [negb].
  destruct (_ =? LP_EOF); [|done]. cbn [negb].
  destruct (validate_entries _ _ _ _ _ _ _ _) as [[[p|] n]|] eqn:Ev; try done.
  apply validate_entries_chain in Ev as (k & Hk & -> & Hb); [|lia|lia].
  destruct (Z.eqb_spec (Z.of_nat p) (Z.of_nat (length lp) - 1)); [|done]. cbn [negb].
  destruct (negb _ && negb _) eqn:En; [done|]. intros _. split; [done|].
  exists k. rewrite <- E. split; [by replace (length lp - 1)%nat with p by lia|].
  intros Hne. apply andb_false_iff in En as [En|En]; zbool; [done|lia].
Qed.

(** ** Concrete instances *)

Definition poison (_ : nat) : Z := 170.
Definition exact_size (n : nat) : nat := n.
Lemma exact_size_ok n : (n <= exact_size n)%nat.
Proof. done. Qed.

(** The listpack ["hi"; 1000], built by hand. *)
Definition lp2 : list Z :=
  header [EStr (chars "hi"); EInt 1000] 2 ++ body [EStr (chars "hi"); EInt 1000] ++ [LP_EOF].

Lemma lp2_at : listpack_at lp2 [EStr (chars "hi"); EInt 1000] 2 [].
Proof.
  split; [done| |vm_compute; done|right; done].
  repeat constructor; vm_compute; done.
Qed.

Lemma lp2_listpack : listpack lp2 [EStr (chars "hi"); EInt 1000].
Proof. exists 2, []. apply lp2_at. Qed.

Lemma lpInsert_correct_witness :
  exists lp', lpInsert poison exact_size lp2 (Some (chars "42")) None (pos []) LP_AFTER
    = Ret (Some (lp', Some (pos [EStr (chars "hi")]))) /\
  listpack lp' [EStr (chars "hi"); EInt 42; EInt 1000].
Proof.
  refine (lpInsert_correct poison exact_size exact_size_ok lp2 []
    [EStr (chars "hi"); EInt 1000] (Some (EInt 42)) (Some (chars "42")) None LP_AFTER
    [EStr (chars "hi")] [] [EInt 1000] lp2_listpack _ _ eq_refl).
  - left. exists (chars "42"). split_and!; [done|done| |done]. repeat constructor; vm_compute; done.
  - intros s [= <-]. vm_compute. done.
Defined.

Lemma listpack_edits_witness :
  exists lp', lpDelete poison exact_size lp2 (pos [EStr (chars "hi")]) = Ret (Some (lp', None)) /\
    listpack lp' [EStr (chars "hi")].
Proof.
  destruct (listpack_edits poison exact_size exact_size_ok lp2 _ (chars "x") lp2_listpack)
    as (_ & _ & H).
  - repeat constructor; vm_compute; done.
  - vm_compute. done.
  - apply (H [EStr (chars "hi")] (EInt 1000) [] eq_refl). vm_compute. done.
Defined.

Lemma listpack_navigation_witness : lpSeek lp2 (-1) = Ret (Some (pos [EStr (chars "hi")])).
Proof.
  destruct (listpack_navigation lp2 _ lp2_listpack) as (_ & _ & _ & _ & H).
  exact (H (-1)).
Defined.

Lemma lpLength_correct_witness : exists lp', lpLength lp2 = Ret (2, lp').
Proof. destruct (lpLength_correct lp2 _ lp2_listpack) as (lp' & H & _). by exists lp'. Defined.

Lemma lpValidateIntegrity_correct_witness :
  lpValidateIntegrity lp2 (Z.of_nat (length lp2)) true None tt = true /\
  exists n, chain lp2 (Z.of_nat (length lp2)) LP_HDR_SIZE (length lp2 - 1) n.
Proof.
  destruct (lpValidateIntegrity_correct None tt) as [H1 H2]. split; [by eapply H1; [apply lp2_at|]|].
  destruct (H2 lp2) as (_ & n & Hn & _); [vm_compute; done|vm_compute; done|by exists n].
Defined.

End Listpack.
