(* ===== verification/Dict.v ===== *)
(** * Dict: the incrementally rehashed hash table (dict.c, dict.h)

    A dict owns two chained tables.  While [rehashidx] is not -1 the entries
    of table 0 move to table 1 a bucket at a time, as a side effect of the
    lookups and updates.  The model keeps both tables as arrays of chains, with
    the code's counters, and the theorems relate every operation to a finite
    map that the rehashing never changes.

    The tagged pointers that let a key stand for an entry without a value
    change the memory of a chain and not its contents; chains are lists here.
    The counters [ht_used] count live allocations and are unbounded. *)
From S2P Require Import Prelude.

(** What the code asks of a [dictType]: hashing to 64 bits and a comparison. *)
Class DictType (K : Type) := {
  hashFunction : K -> Z;
  keyCompare : K -> K -> bool;
  no_value : bool;
  (** Whether the type allows an allocation of so many bytes, given the number
      of elements and of buckets (whose ratio the code passes). *)
  resizeAllowed : Z -> Z -> Z -> bool;
}.

(** What a correct type guarantees: hashes are 64-bit words, and the comparison
    decides equality of keys. *)
Class DictTypeOk (K : Type) `{DictType K} := {
  hashFunction_range : forall k, in_u 64 (hashFunction k);
  keyCompare_spec : forall a b, keyCompare a b = true <-> a = b;
}.

Module Dict.

Inductive dictResizeEnable := DICT_RESIZE_ENABLE | DICT_RESIZE_AVOID | DICT_RESIZE_FORBID.

Definition dict_force_resize_ratio : Z := 4.
Definition HASHTABLE_MIN_FILL : Z := 8.
Definition DICT_HT_INITIAL_EXP : Z := 2.
Definition DICT_HT_INITIAL_SIZE : Z := 4.
Definition LONG_MAX : Z := 2 ^ 63 - 1.
Definition DICT_OK : Z := 0.
Definition DICT_ERR : Z := 1.

Definition DICTHT_SIZE (exp : Z) : Z := if exp =? -1 then 0 else Z.shiftl 1 exp.
Definition DICTHT_SIZE_MASK (exp : Z) : Z := if exp =? -1 then 0 else DICTHT_SIZE exp - 1.

Definition _dictNextExp (size : Z) : Z :=
  if size <=? DICT_HT_INITIAL_SIZE then DICT_HT_INITIAL_EXP
  else if LONG_MAX <=? size then 63
  else Z.log2 (size - 1) + 1.

Section Dict.
Context {K V : Type} `{DictType K}.

(** [val] is [None] until the value is set. *)
Record dictEntry := Entry { key : K; val : option V }.

(** One of the two tables: [ht_table[i]], [ht_used[i]] and [ht_size_exp[i]]. *)
Record ht := Ht { ht_table : list (list dictEntry); ht_used : Z; ht_size_exp : Z }.

Record dict := Dict {
  ht0 : ht;
  ht1 : ht;
  rehashidx : Z;
  pauserehash : Z;
  pauseAutoResize : Z;
}.

(** A pointer to an entry: its table, bucket and place in the chain. *)
Record entry_ref := Ref { r_table : bool; r_idx : Z; r_pos : nat }.

Definition ht_of (d : dict) (table : bool) : ht := if table then ht1 d else ht0 d.
Definition set_ht (d : dict) (table : bool) (t : ht) : dict :=
  if table then Dict (ht0 d) t (rehashidx d) (pauserehash d) (pauseAutoResize d)
  else Dict t (ht1 d) (rehashidx d) (pauserehash d) (pauseAutoResize d).
Definition set_rehashidx (d : dict) (i : Z) : dict :=
  Dict (ht0 d) (ht1 d) i (pauserehash d) (pauseAutoResize d).
Definition set_pauserehash (d : dict) (n : Z) : dict :=
  Dict (ht0 d) (ht1 d) (rehashidx d) n (pauseAutoResize d).

Definition dictSize (d : dict) : Z := ht_used (ht0 d) + ht_used (ht1 d).
Definition dictIsRehashing (d : dict) : bool := negb (rehashidx d =? -1).

(** [d->ht_table[table][idx]]; a read outside the array is a failure. *)
Definition bucket (t : ht) (idx : Z) : outcome (list dictEntry) :=
  match ht_table t !! Z.to_nat idx with Some b => Ret b | None => Abort end.

(** Replaces a chain and changes the counter by [n]. *)
Definition upd_bucket (t : ht) (idx : Z) (b : list dictEntry) (n : Z) : ht :=
  Ht (<[Z.to_nat idx := b]> (ht_table t)) (ht_used t + n) (ht_size_exp t).

(** ** Creation and resizing *)

Definition _dictReset : ht := Ht [] 0 (-1).
Definition _dictInit : dict := Dict _dictReset _dictReset (-1) 0 0.
Definition dictCreate : dict := _dictInit.

(** The result is the return code and [*malloc_failed].  [try] is [None] when
    the caller passes no [malloc_failed], so that a failed allocation panics,
    and otherwise whether the allocation succeeds. *)
Definition _dictResize (d : dict) (size : Z) (try : option bool) : outcome (dict * Z * bool) :=
  if dictIsRehashing d then Abort
  else
    let new_ht_size_exp := _dictNextExp size in
    let newsize := DICTHT_SIZE new_ht_size_exp in
    if (newsize <? size) || (u64 (newsize * 8) <? newsize) then Ret (d, DICT_ERR, false)
    else if new_ht_size_exp =? ht_size_exp (ht0 d) then Ret (d, DICT_ERR, false)
    else if match try with Some false => true | _ => false end then Ret (d, DICT_ERR, true)
    else
      let new_ht := Ht (replicate (Z.to_nat newsize) []) 0 new_ht_size_exp in
      let d := set_rehashidx (set_ht d true new_ht) 0 in
      if (match ht_table (ht0 d) with [] => true | _ => false end) || (ht_used (ht0 d) =? 0) then
        Ret (set_rehashidx (set_ht (set_ht d false new_ht) true _dictReset) (-1), DICT_OK, false)
      else Ret (d, DICT_OK, false).

Definition _dictExpand (d : dict) (size : Z) (try : option bool) : outcome (dict * Z * bool) :=
  if dictIsRehashing d || (size <? ht_used (ht0 d)) || (size <=? DICTHT_SIZE (ht_size_exp (ht0 d)))
  then Ret (d, DICT_ERR, false)
  else _dictResize d size try.

Definition dictExpand (d : dict) (size : Z) : outcome (dict * Z) :=
  let* (r, _) := _dictExpand d size None in Ret r.

Definition dictTryExpand (d : dict) (size : Z) (alloc : bool) : outcome (dict * Z) :=
  let* (r, malloc_failed) := _dictExpand d size (Some alloc) in
  Ret (fst r, if malloc_failed : bool then DICT_ERR else DICT_OK).

Definition dictShrink (d : dict) (size : Z) : outcome (dict * Z) :=
  if dictIsRehashing d || (size <? ht_used (ht0 d)) || (DICTHT_SIZE (ht_size_exp (ht0 d)) <=? size)
  then Ret (d, DICT_ERR)
  else let* (r, _) := _dictResize d size None in Ret r.

Definition dictTypeResizeAllowed (d : dict) (size : Z) : bool :=
  resizeAllowed (DICTHT_SIZE (_dictNextExp size) * 8) (ht_used (ht0 d))
    (DICTHT_SIZE (ht_size_exp (ht0 d))).

(** [dict_can_resize], a global of the file. *)
Context (dict_can_resize : dictResizeEnable).
Definition enabled : bool :=
  match dict_can_resize with DICT_RESIZE_ENABLE => true | _ => false end.
Definition forbidden : bool :=
  match dict_can_resize with DICT_RESIZE_FORBID => true | _ => false end.
Definition avoid : bool :=
  match dict_can_resize with DICT_RESIZE_AVOID => true | _ => false end.

Definition dictExpandIfNeeded (d : dict) : outcome (dict * Z) :=
  if dictIsRehashing d then Ret (d, DICT_OK)
  else
    let size := DICTHT_SIZE (ht_size_exp (ht0 d)) in
    let used := ht_used (ht0 d) in
    if size =? 0 then let* (d, _) := dictExpand d DICT_HT_INITIAL_SIZE in Ret (d, DICT_OK)
    else if (enabled && (size <=? used)) || (negb forbidden && (dict_force_resize_ratio * size <=? used))
    then
      if dictTypeResizeAllowed d (used + 1)
      then let* (d, _) := dictExpand d (used + 1) in Ret (d, DICT_OK)
      else Ret (d, DICT_OK)
    else Ret (d, DICT_ERR).

Definition _dictExpandIfNeeded (d : dict) : outcome dict :=
  if 0 <? pauseAutoResize d then Ret d
  else let* (d, _) := dictExpandIfNeeded d in Ret d.

Definition dictShrinkIfNeeded (d : dict) : outcome (dict * Z) :=
  if dictIsRehashing d then Ret (d, DICT_OK)
  else
    let size := DICTHT_SIZE (ht_size_exp (ht0 d)) in
    let used := ht_used (ht0 d) in
    if size <=? DICT_HT_INITIAL_SIZE then Ret (d, DICT_OK)
    else if (enabled && (used * HASHTABLE_MIN_FILL <=? size))
            || (negb forbidden && (used * HASHTABLE_MIN_FILL * dict_force_resize_ratio <=? size))
    then
      if dictTypeResizeAllowed d used
      then let* (d, _) := dictShrink d used in Ret (d, DICT_OK)
      else Ret (d, DICT_OK)
    else Ret (d, DICT_ERR).

Definition _dictShrinkIfNeeded (d : dict) : outcome dict :=
  if 0 <? pauseAutoResize d then Ret d
  else let* (d, _) := dictShrinkIfNeeded d in Ret d.

(** ** Rehashing *)

(** One iteration of the chain loop: the entry goes to the front of its chain
    in table 1. *)
Definition rehash_entry (idx : Z) (d : dict) (de : dictEntry) : outcome dict :=
  let h := if ht_size_exp (ht0 d) <? ht_size_exp (ht1 d)
           then Z.land (hashFunction (key de)) (DICTHT_SIZE_MASK (ht_size_exp (ht1 d)))
           else Z.land idx (DICTHT_SIZE_MASK (ht_size_exp (ht1 d))) in
  let* b := bucket (ht1 d) h in
  let d := set_ht d true (upd_bucket (ht1 d) h (de :: b) 1) in
  Ret (set_ht d false (Ht (ht_table (ht0 d)) (ht_used (ht0 d) - 1) (ht_size_exp (ht0 d)))).

Fixpoint rehash_chain (idx : Z) (d : dict) (chain : list dictEntry) : outcome dict :=
  match chain with
  | [] => Ret d
  | de :: nextde => let* d := rehash_entry idx d de in rehash_chain idx d nextde
  end.

Definition rehashEntriesInBucketAtIndex (d : dict) (idx : Z) : outcome dict :=
  let* chain := bucket (ht0 d) idx in
  let* d := rehash_chain idx d chain in
  Ret (set_ht d false (upd_bucket (ht0 d) idx [] 0)).

Definition dictCheckRehashingCompleted (d : dict) : dict * bool :=
  if negb (ht_used (ht0 d) =? 0) then (d, false)
  else (set_rehashidx (set_ht (set_ht d false (ht1 d)) true _dictReset) (-1), true).

(** Whether the resize policy lets a rehashing step happen. *)
Definition rehash_blocked (d : dict) : bool :=
  let s0 := DICTHT_SIZE (ht_size_exp (ht0 d)) in
  let s1 := DICTHT_SIZE (ht_size_exp (ht1 d)) in
  (forbidden || negb (dictIsRehashing d)) ||
  (avoid && (((s0 <? s1) && (s1 <? dict_force_resize_ratio * s0)) ||
             ((s1 <? s0) && (s0 <? HASHTABLE_MIN_FILL * dict_force_resize_ratio * s1)))).

(** The inner loop, over the buckets from [rehashidx] on: the new [rehashidx],
    the visits left, and whether they ran out. *)
Fixpoint skip_empty (buckets : list (list dictEntry)) (idx empty_visits : Z)
  : outcome (Z * Z * bool) :=
  match buckets with
  | [] => Abort
  | [] :: buckets =>
      let idx := idx + 1 in
      let empty_visits := empty_visits - 1 in
      if empty_visits =? 0 then Ret (idx, empty_visits, true)
      else skip_empty buckets idx empty_visits
  | (_ :: _) :: _ => Ret (idx, empty_visits, false)
  end.

(** The outer loop; the flag is the early return. *)
Fixpoint dictRehash_loop (n : nat) (d : dict) (empty_visits : Z) : outcome (dict * bool) :=
  match n with
  | O => Ret (d, false)
  | S n' =>
      if ht_used (ht0 d) =? 0 then Ret (d, false)
      else if DICTHT_SIZE (ht_size_exp (ht0 d)) <=? rehashidx d then Abort
      else
        let* (r, stop) :=
          skip_empty (drop (Z.to_nat (rehashidx d)) (ht_table (ht0 d))) (rehashidx d) empty_visits in
        let d := set_rehashidx d (fst r) in
        if stop : bool then Ret (d, true)
        else
          let* d := rehashEntriesInBucketAtIndex d (rehashidx d) in
          dictRehash_loop n' (set_rehashidx d (rehashidx d + 1)) (snd r)
  end.

(** Whether keys are left to move. *)
Definition dictRehash (d : dict) (n : nat) : outcome (dict * bool) :=
  if rehash_blocked d then Ret (d, false)
  else
    let* (d, stop) := dictRehash_loop n d (Z.of_nat n * 10) in
    if stop : bool then Ret (d, true)
    else let '(d, completed) := dictCheckRehashingCompleted d in Ret (d, negb completed).

Definition _dictRehashStep (d : dict) : outcome dict :=
  if pauserehash d =? 0 then let* (d, _) := dictRehash d 1 in Ret d else Ret d.

Definition _dictBucketRehash (d : dict) (idx : Z) : outcome dict :=
  if negb (pauserehash d =? 0) then Ret d
  else if rehash_blocked d then Ret d
  else
    let* d := rehashEntriesInBucketAtIndex d idx in
    Ret (fst (dictCheckRehashingCompleted d)).

(** The rehashing work that a lookup, an insertion and a deletion begin with. *)
Definition rehash_on_access (d : dict) (idx : Z) : outcome dict :=
  if dictIsRehashing d then
    let* visit := if rehashidx d <=? idx
                  then let* b := bucket (ht0 d) idx in
                       Ret (match b with [] => false | _ => true end)
                  else Ret false in
    if visit : bool then _dictBucketRehash d idx else _dictRehashStep d
  else Ret d.

(** ** Lookup and update *)

(** Position of the first entry of a chain that compares equal. *)
Fixpoint find_in (k : K) (chain : list dictEntry) : option nat :=
  match chain with
  | [] => None
  | he :: next => if keyCompare k (key he) then Some O else S <$> find_in k next
  end.

(** The loop over the two tables, with [idx] as computed before the rehashing
    step.  The second component is the [idx] the loop ends with. *)
Definition search (d : dict) (hash idx : Z) (k : K) : outcome (option entry_ref * Z) :=
  let* (found, idx) :=
    if idx <? rehashidx d then Ret (None, idx)
    else
      let idx := Z.land hash (DICTHT_SIZE_MASK (ht_size_exp (ht0 d))) in
      let* chain := bucket (ht0 d) idx in Ret (Ref false idx <$> find_in k chain, idx) in
  match found with
  | Some _ => Ret (found, idx)
  | None =>
      if negb (dictIsRehashing d) then Ret (None, idx)
      else
        let idx := Z.land hash (DICTHT_SIZE_MASK (ht_size_exp (ht1 d))) in
        let* chain := bucket (ht1 d) idx in Ret (Ref true idx <$> find_in k chain, idx)
  end.

(** [*he]; a dangling pointer is a failure. *)
Definition deref (d : dict) (r : entry_ref) : outcome dictEntry :=
  let* chain := bucket (ht_of d (r_table r)) (r_idx r) in
  match chain !! r_pos r with Some e => Ret e | None => Abort end.

Definition dictFind (d : dict) (k : K) : outcome (dict * option entry_ref) :=
  if dictSize d =? 0 then Ret (d, None)
  else
    let h := hashFunction k in
    let idx := Z.land h (DICTHT_SIZE_MASK (ht_size_exp (ht0 d))) in
    let* d := rehash_on_access d idx in
    let* (he, _) := search d h idx k in
    Ret (d, he).

Definition dictSetVal (d : dict) (r : entry_ref) (v : V) : outcome dict :=
  if no_value then Abort
  else
    let t := ht_of d (r_table r) in
    let* chain := bucket t (r_idx r) in
    let* e := deref d r in
    Ret (set_ht d (r_table r)
           (upd_bucket t (r_idx r) (<[r_pos r := Entry (key e) (Some v)]> chain) 0)).

Definition dictGetVal (d : dict) (r : entry_ref) : outcome (option V) :=
  if no_value then Abort else let* e := deref d r in Ret (val e).

Definition dictFetchValue (d : dict) (k : K) : outcome (dict * option (option V)) :=
  let* (d, he) := dictFind d k in
  match he with
  | None => Ret (d, None)
  | Some he => let* v := dictGetVal d he in Ret (d, Some v)
  end.

(** The bucket to insert into, or the existing entry. *)
Definition dictFindPositionForInsert (d : dict) (k : K)
  : outcome (dict * (bool * Z + entry_ref)) :=
  let hash := hashFunction k in
  let idx := Z.land hash (DICTHT_SIZE_MASK (ht_size_exp (ht0 d))) in
  let* d := rehash_on_access d idx in
  let* d := _dictExpandIfNeeded d in
  let* (he, idx) := search d hash idx k in
  match he with
  | Some existing => Ret (d, inr existing)
  | None => Ret (d, inl (dictIsRehashing d, idx))
  end.

Definition dictInsertAtPosition (d : dict) (k : K) (position : bool * Z)
  : outcome (dict * entry_ref) :=
  let htidx := dictIsRehashing d in
  let '(table, idx) := position in
  if negb (eqb table htidx && (0 <=? idx) && (idx <=? DICTHT_SIZE_MASK (ht_size_exp (ht_of d htidx))))
  then Abort
  else
    let* chain := bucket (ht_of d htidx) idx in
    Ret (set_ht d htidx (upd_bucket (ht_of d htidx) idx (Entry k None :: chain) 1),
         Ref htidx idx 0).

(** The new entry, or the existing one. *)
Definition dictAddRaw (d : dict) (k : K) : outcome (dict * (entry_ref + entry_ref)) :=
  let* (d, position) := dictFindPositionForInsert d k in
  match position with
  | inr existing => Ret (d, inr existing)
  | inl position => let* (d, entry) := dictInsertAtPosition d k position in Ret (d, inl entry)
  end.

Definition dictAdd (d : dict) (k : K) (v : V) : outcome (dict * Z) :=
  let* (d, r) := dictAddRaw d k in
  match r with
  | inr _ => Ret (d, DICT_ERR)
  | inl entry =>
      let* d := if negb no_value then dictSetVal d entry v else Ret d in Ret (d, DICT_OK)
  end.

(** The old value, for its destructor, comes with the return value. *)
Definition dictReplace (d : dict) (k : K) (v : V) : outcome (dict * Z * option (option V)) :=
  let* (d, r) := dictAddRaw d k in
  match r with
  | inl entry => let* d := dictSetVal d entry v in Ret (d, 1, None)
  | inr existing =>
      let* oldval := dictGetVal d existing in
      let* d := dictSetVal d existing v in
      Ret (d, 0, Some oldval)
  end.

Definition dictAddOrFind (d : dict) (k : K) : outcome (dict * entry_ref) :=
  let* (d, r) := dictAddRaw d k in
  Ret (d, match r with inl entry => entry | inr existing => existing end).

(** Takes the entry out of its chain. *)
Definition unlink (d : dict) (r : entry_ref) : outcome dict :=
  let t := ht_of d (r_table r) in
  let* chain := bucket t (r_idx r) in
  Ret (set_ht d (r_table r) (upd_bucket t (r_idx r) (delete (r_pos r) chain) (-1))).

Definition dictGenericDelete (d : dict) (k : K) : outcome (dict * option dictEntry) :=
  if dictSize d =? 0 then Ret (d, None)
  else
    let h := hashFunction k in
    let idx := Z.land h (DICTHT_SIZE_MASK (ht_size_exp (ht0 d))) in
    let* d := rehash_on_access d idx in
    let* (r, _) := search d h idx k in
    match r with
    | None => Ret (d, None)
    | Some r =>
        let* he := deref d r in
        let* d := unlink d r in
        let* d := _dictShrinkIfNeeded d in
        Ret (d, Some he)
    end.

Definition dictDelete (d : dict) (k : K) : outcome (dict * Z) :=
  let* (d, he) := dictGenericDelete d k in
  Ret (d, match he with Some _ => DICT_OK | None => DICT_ERR end).

Definition dictUnlink (d : dict) (k : K) : outcome (dict * option dictEntry) :=
  dictGenericDelete d k.

(** [idx] is compared with [rehashidx] after it is computed here. *)
Definition dictTwoPhaseUnlinkFind (d : dict) (k : K) : outcome (dict * option entry_ref) :=
  if dictSize d =? 0 then Ret (d, None)
  else
    let* d := if dictIsRehashing d then _dictRehashStep d else Ret d in
    let h := hashFunction k in
    let* (he, _) := search d h (Z.land h (DICTHT_SIZE_MASK (ht_size_exp (ht0 d)))) k in
    match he with
    | None => Ret (d, None)
    | Some he => Ret (set_pauserehash d (pauserehash d + 1), Some he)
    end.

Definition dictTwoPhaseUnlinkFree (d : dict) (he : option entry_ref) : outcome dict :=
  match he with
  | None => Ret d
  | Some r =>
      let* d := unlink d r in
      let* d := _dictShrinkIfNeeded d in
      Ret (set_pauserehash d (pauserehash d - 1))
  end.

(** The loop that frees the entries; they are returned in the order they are
    freed. *)
Fixpoint clear_loop (buckets : list (list dictEntry)) (used : Z) : list dictEntry :=
  match buckets with
  | [] => []
  | b :: buckets =>
      if 0 <? used then b ++ clear_loop buckets (used - Z.of_nat (length b)) else []
  end.

Definition _dictClear (d : dict) (table : bool) : dict * list dictEntry :=
  let t := ht_of d table in
  (set_ht d table _dictReset, clear_loop (ht_table t) (ht_used t)).

Definition dictEmpty (d : dict) : dict * list dictEntry :=
  let '(d, freed0) := _dictClear d false in
  let '(d, freed1) := _dictClear d true in
  (Dict (ht0 d) (ht1 d) (-1) 0 0, freed0 ++ freed1).

End Dict.
Arguments dict : clear implicits.
Arguments dictEntry : clear implicits.
Arguments ht : clear implicits.

(** ** Invariant and abstraction *)

Section Spec.
Context {K V : Type} `{EqK : EqDecision K, CK : !Countable K, DT : DictType K, DTok : !DictTypeOk K}.
Context (dict_can_resize : dictResizeEnable).
Implicit Types (d : dict K V) (t : ht K V) (e : dictEntry K V).

Definition telems t : list (dictEntry K V) := concat (ht_table t).
Definition elements d : list (dictEntry K V) := telems (ht0 d) ++ telems (ht1 d).
Definition kv e : K * option V := (key e, val e).

(** The finite map a dict stands for. *)
Definition to_map d : gmap K (option V) := list_to_map (kv <$> elements d).

Definition placed (exp : Z) (i : nat) e : Prop := hashFunction (key e) mod 2 ^ exp = Z.of_nat i.

(** A table: absent, or with [2 ^ exp] chains; the counter is the number of
    entries and every entry is in the chain of its hash. *)
Record table_ok t : Prop := {
  ok_shape : ht_size_exp t = -1 /\ ht_table t = [] \/
             0 <= ht_size_exp t <= 60 /\ length (ht_table t) = Z.to_nat (2 ^ ht_size_exp t);
  ok_used : ht_used t = Z.of_nat (length (telems t));
  ok_place : forall i b, ht_table t !! i = Some b -> Forall (placed (ht_size_exp t) i) b;
}.

(** A dict: no key twice; when not rehashing table 1 is absent, and when
    rehashing both are there and table 0 is empty below [rehashidx]. *)
Record dict_ok d : Prop := {
  ok_ht0 : table_ok (ht0 d);
  ok_ht1 : table_ok (ht1 d);
  ok_nodup : NoDup (key <$> elements d);
  ok_phase : rehashidx d = -1 /\ ht1 d = _dictReset \/
             0 <= rehashidx d /\ 0 <= ht_size_exp (ht0 d) /\ 0 <= ht_size_exp (ht1 d) /\
             (forall i b, Z.of_nat i < rehashidx d -> ht_table (ht0 d) !! i = Some b -> b = []);
}.

(** [d'] holds what [d] holds, in whatever places. *)
Record same_content d d' : Prop := {
  sc_ok : dict_ok d';
  sc_perm : elements d' ≡ₚ elements d;
  sc_pause : pauserehash d' = pauserehash d;
  sc_auto : pauseAutoResize d' = pauseAutoResize d;
}.

(** ** Generic facts *)

Lemma concat_update {A} (l : list (list A)) i b : l !! i = Some b ->
  exists r, concat l ≡ₚ b ++ r /\ forall b', concat (<[i := b']> l) ≡ₚ b' ++ r.
Proof using.
  intros Hi. exists (concat (take i l) ++ concat (drop (S i) l)).
  assert (forall b', <[i := b']> l = take i l ++ b' :: drop (S i) l) as E.
  { intros b'. by apply insert_take_drop, lookup_lt_is_Some; exists b. }
  assert (forall b', concat (take i l ++ b' :: drop (S i) l)
    ≡ₚ b' ++ concat (take i l) ++ concat (drop (S i) l)) as P.
  { intros b'. rewrite concat_app. simpl. rewrite !app_assoc. f_equiv. apply Permutation_app_comm. }
  split; [|intros b'; by rewrite E].
  rewrite <- (list_insert_id l i b Hi) at 1. by rewrite E.
Qed.

Lemma mask_mod exp z : 0 <= exp -> Z.land z (DICTHT_SIZE_MASK exp) = z mod 2 ^ exp.
Proof using.
  intros He. unfold DICTHT_SIZE_MASK, DICTHT_SIZE. destruct (Z.eqb_spec exp (-1)); [lia|].
  rewrite Z.shiftl_1_l. by apply land_mask.
Qed.

Lemma bucket_Ret t idx b : bucket t idx = Ret b <-> ht_table t !! Z.to_nat idx = Some b.
Proof using. unfold bucket. destruct (_ !! _); split; congruence. Qed.

(** Every bucket index in range reads a chain. *)
Lemma bucket_total t z : table_ok t -> 0 <= ht_size_exp t ->
  exists b, bucket t (z mod 2 ^ ht_size_exp t) = Ret b /\
    Forall (placed (ht_size_exp t) (Z.to_nat (z mod 2 ^ ht_size_exp t))) b.
Proof using.
  intros [Hs _ Hp] He. destruct Hs as [[? _]|[_ Hl]]; [lia|].
  pose proof (Z.mod_pos_bound z (2 ^ ht_size_exp t) ltac:(apply pow2_pos; lia)).
  destruct (lookup_lt_is_Some_2 (ht_table t) (Z.to_nat (z mod 2 ^ ht_size_exp t))) as [b Hb]; [lia|].
  exists b. rewrite bucket_Ret. eauto.
Qed.

Lemma upd_bucket_ok t idx b b' n : table_ok t -> bucket t idx = Ret b ->
  Forall (placed (ht_size_exp t) (Z.to_nat idx)) b' ->
  n = Z.of_nat (length b') - Z.of_nat (length b) ->
  table_ok (upd_bucket t idx b' n) /\
  exists r, telems t ≡ₚ b ++ r /\ telems (upd_bucket t idx b' n) ≡ₚ b' ++ r.
Proof using.
  intros [Hs Hu Hp] Hb Hb' ->. rewrite bucket_Ret in Hb.
  destruct (concat_update _ _ _ Hb) as (r & P1 & P2). specialize (P2 b').
  split; [|by exists r]. split; simpl.
  - rewrite length_insert. destruct Hs as [[E1 E2]|?]; [by rewrite E2 in Hb|by right].
  - unfold telems in *. rewrite Hu, P1. simpl. rewrite P2, !length_app. lia.
  - intros i c Hi. apply list_lookup_insert_Some in Hi as [(<- & <- & _)|[_ Hi]]; eauto.
Qed.

Lemma elem_of_telems t e : table_ok t -> e ∈ telems t ->
  0 <= ht_size_exp t /\
  exists b, bucket t (hashFunction (key e) mod 2 ^ ht_size_exp t) = Ret b /\ e ∈ b.
Proof using.
  intros [Hs _ Hp] He. unfold telems in He. apply list_elem_of_In, in_concat in He as (b & Hb & Hin).
  apply list_elem_of_In, list_elem_of_lookup in Hb as [i Hi].
  split; [destruct Hs as [[_ E]|?]; [by rewrite E in Hi|lia]|].
  exists b. split; [|by apply list_elem_of_In]. rewrite bucket_Ret.
  pose proof (Hp i b Hi) as Hf. rewrite Forall_forall in Hf.
  rewrite (Hf e) by (by apply list_elem_of_In). by rewrite Nat2Z.id.
Qed.

Lemma bucket_telems t idx b e : bucket t idx = Ret b -> e ∈ b -> e ∈ telems t.
Proof using.
  rewrite bucket_Ret. intros Hb He. destruct (concat_update _ _ _ Hb) as (r & P & _).
  unfold telems. rewrite P. apply elem_of_app. by left.
Qed.

Lemma same_content_refl d : dict_ok d -> same_content d d.
Proof using. by split. Qed.

Lemma same_content_trans d1 d2 d3 :
  same_content d1 d2 -> same_content d2 d3 -> same_content d1 d3.
Proof using. intros [] []. split; [done|etrans; eassumption|congruence|congruence]. Qed.

Lemma nodup_perm (l l' : list (dictEntry K V)) :
  l' ≡ₚ l -> NoDup (key <$> l) -> NoDup (key <$> l').
Proof using. intros P. by rewrite P. Qed.

Lemma table_ok_reset : table_ok _dictReset.
Proof using. split; [by left|done|]. intros i b Hi. by destruct i. Qed.

(** ** Rehashing moves entries and loses none *)

Lemma rehash_entry_spec idx d e : table_ok (ht1 d) -> 0 <= ht_size_exp (ht0 d) ->
  0 <= ht_size_exp (ht1 d) -> 0 <= idx -> placed (ht_size_exp (ht0 d)) (Z.to_nat idx) e ->
  exists t1, rehash_entry idx d e =
    Ret (Dict (Ht (ht_table (ht0 d)) (ht_used (ht0 d) - 1) (ht_size_exp (ht0 d))) t1
          (rehashidx d) (pauserehash d) (pauseAutoResize d)) /\
    table_ok t1 /\ telems t1 ≡ₚ e :: telems (ht1 d) /\ ht_size_exp t1 = ht_size_exp (ht1 d).
Proof using.
  intros H1 He0 He1 Hi Hp. unfold rehash_entry. rewrite !mask_mod by done. unfold placed in Hp.
  set (h := if _ <? _ then _ else _).
  assert (h = hashFunction (key e) mod 2 ^ ht_size_exp (ht1 d)) as ->.
  { unfold h. destruct (Z.ltb_spec (ht_size_exp (ht0 d)) (ht_size_exp (ht1 d))) as [|Hle]; [done|].
    rewrite Z2Nat.id in Hp by done. rewrite <- Hp. symmetry.
    replace (ht_size_exp (ht0 d)) with
      (ht_size_exp (ht1 d) + (ht_size_exp (ht0 d) - ht_size_exp (ht1 d))) by lia.
    rewrite Z.pow_add_r, Z.rem_mul_r by lia.
    rewrite Z.mul_comm, Z.mod_add by lia. by rewrite Zmod_mod. }
  destruct (bucket_total (ht1 d) (hashFunction (key e)) H1 He1) as (b & Hb & Hf).
  rewrite Hb. cbn [obind].
  destruct (upd_bucket_ok (ht1 d) _ b (e :: b) 1 H1 Hb) as (Hok & r & P1 & P2).
  - constructor; [|done]. unfold placed.
    rewrite Z2Nat.id; [done|]. apply Z.mod_pos_bound, pow2_pos. done.
  - simpl length. lia.
  - eexists. split; [done|]. split; [done|]. split; [|done]. by rewrite P2, P1.
Qed.

Lemma rehash_chain_spec idx chain d : table_ok (ht1 d) -> 0 <= ht_size_exp (ht0 d) ->
  0 <= ht_size_exp (ht1 d) -> 0 <= idx ->
  Forall (placed (ht_size_exp (ht0 d)) (Z.to_nat idx)) chain ->
  exists t1, rehash_chain idx d chain =
    Ret (Dict (Ht (ht_table (ht0 d)) (ht_used (ht0 d) - Z.of_nat (length chain))
                  (ht_size_exp (ht0 d))) t1
          (rehashidx d) (pauserehash d) (pauseAutoResize d)) /\
    table_ok t1 /\ telems t1 ≡ₚ chain ++ telems (ht1 d) /\ ht_size_exp t1 = ht_size_exp (ht1 d).
Proof using.
  intros H1 He0 He1 Hi Hf. revert d H1 He0 He1 Hf.
  induction chain as [|e chain IH]; intros d H1 He0 He1 Hf; cbn [rehash_chain length].
  { exists (ht1 d). rewrite Z.sub_0_r. destruct d as [[] ? ? ? ?]. split_and!; done. }
  inversion_clear Hf as [|? ? Hp Hf'].
  destruct (rehash_entry_spec idx d e H1 He0 He1 Hi Hp) as (t1 & -> & Ht1 & P & E). cbn [obind].
  set (d1 := Dict _ t1 _ _ _). destruct (IH d1) as (t2 & -> & Ht2 & P2 & E2);
    unfold d1 in *; simpl in *; rewrite ?E; try done.
  exists t2. split_and!; [|done| |by rewrite E2].
  - simpl. f_equal. f_equal. f_equal. lia.
  - rewrite P2. simpl. rewrite P. by rewrite <- Permutation_middle.
Qed.

Lemma rehash_bucket_spec d idx b : dict_ok d -> 0 <= rehashidx d -> 0 <= idx ->
  bucket (ht0 d) idx = Ret b ->
  exists d', rehashEntriesInBucketAtIndex d idx = Ret d' /\ same_content d d' /\
    ht_table (ht0 d') = <[Z.to_nat idx := []]> (ht_table (ht0 d)) /\
    rehashidx d' = rehashidx d /\ ht_size_exp (ht0 d') = ht_size_exp (ht0 d) /\
    ht_size_exp (ht1 d') = ht_size_exp (ht1 d).
Proof using.
  intros [H0 H1 Hn Hph] Hr Hi Hb. destruct Hph as [[? _]|(_ & He0 & He1 & Hlow)]; [lia|].
  unfold rehashEntriesInBucketAtIndex. rewrite Hb. cbn [obind].
  pose proof Hb as Hb'. apply bucket_Ret in Hb'.
  destruct (rehash_chain_spec idx b d) as (t1 & -> & Ht1 & P & E1); try done.
  { by apply (ok_place _ H0). }
  cbn [obind]. eexists. split; [done|].
  destruct (upd_bucket_ok (ht0 d) idx b [] (- Z.of_nat (length b)) H0 Hb) as (Hok & r & P1 & P2);
    [done|simpl; lia|].
  split; [|by split_and!]. split; [|simpl|done|done].
  - split; simpl.
    + unfold upd_bucket. simpl. rewrite Z.add_0_r. exact Hok.
    + done.
    + eapply nodup_perm; [|exact Hn]. unfold elements, set_ht, upd_bucket, telems in *. simpl in *.
      rewrite P, P2, P1. rewrite <- !app_assoc. simpl. rewrite !app_assoc.
      f_equiv. apply Permutation_app_comm.
    + right. split_and!; [done|done|by rewrite E1|]. intros i c Hlt Hc.
      apply list_lookup_insert_Some in Hc as [(_ & <- & _)|[_ Hc]]; eauto.
  - unfold elements, telems, upd_bucket in *. simpl in *. rewrite P, P2, P1. simpl.
    rewrite !app_assoc. f_equiv. apply Permutation_app_comm.
Qed.

Lemma used_0_elements t : table_ok t -> ht_used t = 0 -> telems t = [].
Proof using. intros [_ Hu _] E. rewrite E in Hu. destruct (telems t); [done|]. simpl in Hu. lia. Qed.

Lemma check_completed_spec d : dict_ok d -> 0 <= rehashidx d ->
  same_content d (fst (dictCheckRehashingCompleted d)) /\
  (snd (dictCheckRehashingCompleted d) = true <->
     ht_used (ht0 d) = 0) /\
  (if snd (dictCheckRehashingCompleted d) then rehashidx (fst (dictCheckRehashingCompleted d)) = -1
   else fst (dictCheckRehashingCompleted d) = d) /\
  0 <= ht_size_exp (ht0 (fst (dictCheckRehashingCompleted d))).
Proof using.
  intros Hd Hr. unfold dictCheckRehashingCompleted.
  assert (0 <= ht_size_exp (ht0 d) /\ 0 <= ht_size_exp (ht1 d)) as [Hx0 Hx1]
    by (destruct Hd as [_ _ _ [[? _]|(_ & ? & ? & _)]]; lia).
  destruct (Z.eqb_spec (ht_used (ht0 d)) 0) as [E|E]; simpl; [|by split_and!].
  split_and!; [|done|done|done]. destruct Hd as [H0 H1 Hn Hph].
  unfold elements in Hn. rewrite (used_0_elements _ H0 E) in Hn. simpl in Hn.
  split; [|simpl|done|done].
  - split; simpl; [done|apply table_ok_reset| |by left].
    unfold elements, telems. simpl. rewrite app_nil_r. exact Hn.
  - unfold elements. rewrite (used_0_elements _ H0 E). unfold telems. simpl. by rewrite app_nil_r.
Qed.

Lemma set_rehashidx_ok d i : dict_ok d -> 0 <= rehashidx d <= i ->
  (forall j b, Z.of_nat j < i -> ht_table (ht0 d) !! j = Some b -> b = []) ->
  same_content d (set_rehashidx d i).
Proof using.
  intros [H0 H1 Hn Hph] Hi Hlow. split; [|done|done|done]. split; [done|done|done|].
  destruct Hph as [[? _]|(_ & He0 & He1 & _)]; [lia|]. right. simpl. split_and!; done || lia.
Qed.

Lemma skip_empty_spec (bs : list (list (dictEntry K V))) idx ev :
  (exists j b, bs !! j = Some b /\ b <> []) ->
  exists idx' ev' stop, skip_empty bs idx ev = Ret (idx', ev', stop) /\ idx <= idx' /\
    (forall i b, Z.of_nat i < idx' - idx -> bs !! i = Some b -> b = []) /\
    (if stop : bool then idx < idx'
     else exists b, bs !! Z.to_nat (idx' - idx) = Some b /\ b <> []).
Proof using.
  revert idx ev. induction bs as [|[|e c] bs IH]; intros idx ev (j & b & Hj & Hb);
    cbn [skip_empty]; [done| |].
  - destruct j as [|j]; [by injection Hj as <-|]. simpl in Hj.
    destruct (Z.eqb_spec (ev - 1) 0).
    { exists (idx + 1), (ev - 1), true. split_and!; [done|lia| |lia].
      intros i b' Hi. by assert (i = 0%nat) as -> by lia; intros [= <-]. }
    destruct (IH (idx + 1) (ev - 1)) as (idx' & ev' & stop & -> & Hle & Hlow & Hs); [by exists j, b|].
    exists idx', ev', stop. split_and!; [done|lia| |].
    + intros [|i] b' Hi; [by intros [= <-]|]. simpl. apply Hlow. lia.
    + destruct stop; [lia|]. destruct Hs as (b' & Hb' & Hne). exists b'. split; [|done].
      by replace (Z.to_nat (idx' - idx)) with (S (Z.to_nat (idx' - (idx + 1)))) by lia.
  - exists idx, ev, false. split_and!; [done|lia|lia|].
    rewrite Z.sub_diag. by exists (e :: c).
Qed.

(** With entries left in table 0 the index is inside the table, on the way to a
    chain that is not empty. *)
Lemma chain_ahead d : dict_ok d -> 0 <= rehashidx d -> ht_used (ht0 d) <> 0 ->
  rehashidx d < DICTHT_SIZE (ht_size_exp (ht0 d)) /\
  exists j b, drop (Z.to_nat (rehashidx d)) (ht_table (ht0 d)) !! j = Some b /\ b <> [].
Proof using.
  intros [H0 _ _ Hph] Hr Hu. destruct Hph as [[? _]|(_ & He0 & _ & Hlow)]; [lia|].
  assert (exists e, e ∈ telems (ht0 d)) as [e He].
  { rewrite (ok_used _ H0) in Hu. destruct (telems (ht0 d)) as [|e l]; [simpl in Hu; lia|].
    exists e. by left. }
  unfold telems in He. apply list_elem_of_In, in_concat in He as (b & Hb & Hin).
  apply list_elem_of_In, list_elem_of_lookup in Hb as [i Hi].
  assert (b <> []) as Hne by (by destruct b).
  assert (rehashidx d <= Z.of_nat i) as Hge.
  { destruct (Z.le_gt_cases (rehashidx d) (Z.of_nat i)); [done|]. by destruct Hne; eapply Hlow. }
  split.
  - apply lookup_lt_Some in Hi. destruct (ok_shape _ H0) as [[? _]|[Hx Hl]]; [lia|].
    unfold DICTHT_SIZE. destruct (Z.eqb_spec (ht_size_exp (ht0 d)) (-1)); [lia|].
    rewrite Z.shiftl_1_l. lia.
  - exists (i - Z.to_nat (rehashidx d))%nat, b. split; [|done].
    rewrite lookup_drop. rewrite <- Hi. f_equal. lia.
Qed.

(** What a rehashing step may change: content and sizes stay, the index grows. *)
Definition advances d d' : Prop :=
  same_content d d' /\ rehashidx d <= rehashidx d' /\
  ht_size_exp (ht0 d') = ht_size_exp (ht0 d) /\ ht_size_exp (ht1 d') = ht_size_exp (ht1 d).

Lemma advances_trans d1 d2 d3 : advances d1 d2 -> advances d2 d3 -> advances d1 d3.
Proof using.
  intros (S1 & I1 & E1 & F1) (S2 & I2 & E2 & F2).
  split; [by eapply same_content_trans|]. split; [lia|]. split; congruence.
Qed.

(** One iteration of the outer loop that finds a chain. *)
Lemma rehash_one_spec d idx b : dict_ok d -> 0 <= rehashidx d <= idx ->
  (forall j c, Z.of_nat j < idx -> ht_table (ht0 d) !! j = Some c -> c = []) ->
  ht_table (ht0 d) !! Z.to_nat idx = Some b ->
  exists d', rehashEntriesInBucketAtIndex (set_rehashidx d idx) idx = Ret d' /\
    rehashidx d' = idx /\ advances d (set_rehashidx d' (idx + 1)).
Proof using.
  intros Hd Hi Hlow Hb. pose proof (set_rehashidx_ok d idx Hd Hi Hlow) as S1.
  destruct (rehash_bucket_spec (set_rehashidx d idx) idx b) as (d' & E & S2 & Ht & Er & E0 & E1);
    [apply S1|simpl; lia|lia|by apply bucket_Ret|].
  simpl in *. exists d'. split; [done|]. split; [done|].
  assert (same_content d' (set_rehashidx d' (idx + 1))) as S3.
  { apply set_rehashidx_ok; [apply S2|lia|]. intros j c Hj. rewrite Ht.
    intros [(_ & <- & _)|[Hne Hc]]%list_lookup_insert_Some; [done|]. eapply Hlow; [|done]. lia. }
  split; [|simpl; split; [lia|done]].
  eapply same_content_trans; [eassumption|]. by eapply same_content_trans.
Qed.

Lemma dictRehash_loop_spec n d ev : dict_ok d -> 0 <= rehashidx d ->
  exists d' stop, dictRehash_loop n d ev = Ret (d', stop) /\ advances d d' /\
    (stop = true \/ n <> 0%nat /\ ht_used (ht0 d) <> 0 -> rehashidx d < rehashidx d') /\
    (ht_used (ht0 d) = 0 -> d' = d) /\ (stop = true -> ht_used (ht0 d') <> 0).
Proof using.
  revert d ev. induction n as [|n IH]; intros d ev Hd Hr; cbn [dictRehash_loop].
  { exists d, false. split; [done|]. split; [|split_and!; [by intros [?|[]]|done|done]].
    split; [by apply same_content_refl|done]. }
  destruct (Z.eqb_spec (ht_used (ht0 d)) 0) as [Hz|Hu].
  { exists d, false. split; [done|]. split; [|split_and!; [by intros [?|[]]|done|done]].
    split; [by apply same_content_refl|done]. }
  destruct (chain_ahead d Hd Hr Hu) as [Hlt Hex].
  destruct (Z.leb_spec (DICTHT_SIZE (ht_size_exp (ht0 d))) (rehashidx d)); [lia|].
  destruct (skip_empty_spec _ (rehashidx d) ev Hex) as (idx & ev' & stop & -> & Hle & Hlow & Hs).
  cbn [obind fst snd].
  assert (forall j c, Z.of_nat j < idx -> ht_table (ht0 d) !! j = Some c -> c = []) as Hlow'.
  { intros j c Hj Hc. destruct Hd as [_ _ _ Hph]. destruct Hph as [[? _]|(_ & _ & _ & Hl)]; [lia|].
    destruct (Z.lt_ge_cases (Z.of_nat j) (rehashidx d)); [by eapply Hl|].
    apply (Hlow (j - Z.to_nat (rehashidx d))%nat); [lia|]. rewrite lookup_drop. rewrite <- Hc.
    f_equal. lia. }
  destruct stop.
  { exists (set_rehashidx d idx), true. split; [done|]. split; [|split_and!; [simpl; lia|lia|done]].
    split; [by apply set_rehashidx_ok|done]. }
  destruct Hs as (b & Hb & _). rewrite lookup_drop in Hb.
  replace (Z.to_nat (rehashidx d) + Z.to_nat (idx - rehashidx d))%nat with (Z.to_nat idx) in Hb by lia.
  destruct (rehash_one_spec d idx b Hd) as (d1 & E1 & Er & A1); [lia|done|done|].
  change (rehashidx (set_rehashidx d idx)) with idx. rewrite E1. cbn [obind]. rewrite Er.
  destruct (IH (set_rehashidx d1 (idx + 1)) ev') as (d2 & stop & -> & A2 & _ & _ & Hst);
    [apply A1|simpl; lia|].
  exists d2, stop. split; [done|]. split; [by eapply advances_trans|].
  destruct A2 as (_ & I2 & _). simpl in I2. split_and!; [lia|lia|done].
Qed.

Lemma dictRehash_spec d n : dict_ok d ->
  exists d' more, dictRehash dict_can_resize d n = Ret (d', more) /\ same_content d d' /\
    (rehashidx d' = -1 \/ advances d d') /\
    (more = true -> 0 <= rehashidx d' /\ ht_used (ht0 d') <> 0) /\
    (0 <= ht_size_exp (ht0 d) -> 0 <= ht_size_exp (ht0 d')) /\
    (rehash_blocked dict_can_resize d = false -> n <> 0%nat ->
       rehashidx d' = -1 /\ more = false \/ rehashidx d < rehashidx d' /\ more = true).
Proof using.
  intros Hd. unfold dictRehash. destruct (rehash_blocked _ d) eqn:Eb.
  { exists d, false. pose proof (same_content_refl d Hd).
    split_and!; [done|done|right; by split|done|done|done]. }
  assert (0 <= rehashidx d) as Hr.
  { unfold rehash_blocked, dictIsRehashing in Eb. zbool. destruct Hd as [_ _ _ [[? _]|[? _]]]; lia. }
  destruct (dictRehash_loop_spec n d (Z.of_nat n * 10) Hd Hr) as (d1 & stop & -> & A1 & Hpr & Hz & Hst).
  cbn [obind]. pose proof A1 as (S1 & I1 & E1 & _).
  destruct stop.
  { exists d1, true. specialize (Hpr (or_introl eq_refl)).
    split_and!; [done|done|by right|split; [lia|auto]|by rewrite E1|]. intros; by right. }
  destruct (check_completed_spec d1) as (S2 & Hc & Hi & Hx); [apply S1|lia|].
  destruct (dictCheckRehashingCompleted d1) as [d2 completed]. simpl in *.
  exists d2, (negb completed). split; [done|]. split; [by eapply same_content_trans|].
  destruct completed; simpl.
  { split_and!; [by left|done|done|]. intros; by left. }
  subst d2. split_and!; [by right|split; [lia|]|by rewrite E1|].
  { intros E. by apply Hc in E. } intros _ Hn. right. split; [|done]. apply Hpr. right.
  split; [done|]. intros E. specialize (Hz E). subst d1. by apply Hc in E.
Qed.

(** The work done on access keeps the content; when table 0 has been replaced
    the rehashing is over. *)
Lemma rehash_on_access_spec d idx : dict_ok d -> 0 <= idx ->
  (dictIsRehashing d = true -> exists b, bucket (ht0 d) idx = Ret b) ->
  exists d', rehash_on_access dict_can_resize d idx = Ret d' /\ same_content d d' /\
    (rehashidx d' = -1 \/ ht_size_exp (ht0 d') = ht_size_exp (ht0 d)) /\
    (0 <= ht_size_exp (ht0 d) -> 0 <= ht_size_exp (ht0 d')).
Proof using.
  intros Hd Hi Hbt. pose proof (same_content_refl d Hd) as Srefl. unfold rehash_on_access.
  destruct (dictIsRehashing d) eqn:Er; [|exists d; split_and!; [done|done|by right|done]].
  destruct (Hbt eq_refl) as [b Hb]. clear Hbt.
  assert (exists visit : bool, (if rehashidx d <=? idx
      then let* b := bucket (ht0 d) idx in Ret (match b with [] => false | _ => true end)
      else Ret false) = Ret visit) as [visit ->].
  { rewrite Hb. destruct (_ <=? _); eauto. }
  cbn [obind]. destruct visit.
  - unfold _dictBucketRehash. destruct (negb _); [exists d; split_and!; [done|done|by right|done]|].
    destruct (rehash_blocked _ d) eqn:Eb; [exists d; split_and!; [done|done|by right|done]|].
    assert (0 <= rehashidx d) as Hr.
    { unfold dictIsRehashing in Er. zbool. destruct Hd as [_ _ _ [[? _]|[? _]]]; lia. }
    destruct (rehash_bucket_spec d idx b Hd Hr Hi Hb) as (d1 & -> & S1 & _ & R1 & E0 & E1).
    cbn [obind]. eexists. split; [done|].
    destruct (check_completed_spec d1) as (S2 & _ & Hc & Hx); [apply S1|lia|].
    split; [by eapply same_content_trans|]. split; [|done].
    destruct (snd _); [by left|]. rewrite Hc. by right.
  - unfold _dictRehashStep. destruct (_ =? 0); [|exists d; split_and!; [done|done|by right|done]].
    destruct (dictRehash_spec d 1 Hd) as (d1 & more & -> & S1 & A1 & _ & Hx & _).
    exists d1. split_and!; [done|done| |done]. destruct A1 as [?|(_ & _ & ? & _)]; [by left|by right].
Qed.

(** ** Resizing *)

Lemma concat_replicate_nil {A} n : concat (replicate n (@nil A)) = [].
Proof using. by induction n. Qed.

Lemma table_ok_new exp : 0 <= exp <= 60 ->
  table_ok (Ht (replicate (Z.to_nat (DICTHT_SIZE exp)) []) 0 exp).
Proof using.
  intros He. unfold DICTHT_SIZE. destruct (Z.eqb_spec exp (-1)); [lia|]. rewrite Z.shiftl_1_l.
  split; simpl.
  - right. by rewrite length_replicate.
  - unfold telems. simpl. by rewrite concat_replicate_nil.
  - intros i b Hi. apply lookup_replicate in Hi as [-> _]. constructor.
Qed.

Lemma _dictNextExp_range size : 2 <= _dictNextExp size <= 63.
Proof using.
  unfold _dictNextExp, DICT_HT_INITIAL_SIZE, DICT_HT_INITIAL_EXP, LONG_MAX.
  case_bool; [lia|]. case_bool; [lia|].
  pose proof (Z.log2_le_mono 2 (size - 1) ltac:(lia)) as Hl. change (Z.log2 2) with 1 in Hl.
  pose proof (Z.log2_lt_pow2 (size - 1) 63 ltac:(lia)). lia.
Qed.

(** The overflow check leaves tables of at most [2 ^ 60] buckets. *)
Lemma newsize_fits exp : 2 <= exp <= 63 ->
  (u64 (DICTHT_SIZE exp * 8) <? DICTHT_SIZE exp) = false -> exp <= 60.
Proof using.
  intros He Hz. destruct (Z.le_gt_cases exp 60); [done|].
  assert (exp = 61 \/ exp = 62 \/ exp = 63) as [->|[->| ->]] by lia; by vm_compute in Hz.
Qed.

Lemma _dictResize_spec d size try : dict_ok d -> rehashidx d = -1 ->
  exists d' rc mf, _dictResize d size try = Ret (d', rc, mf) /\ same_content d d' /\
    (rc = DICT_OK -> 0 <= ht_size_exp (ht0 d')) /\ rehashidx d' <= 0 /\
    (ht_size_exp (ht0 d) = -1 -> size = DICT_HT_INITIAL_SIZE -> try = None ->
     0 <= ht_size_exp (ht0 d')) /\
    (0 <= ht_size_exp (ht0 d) -> 0 <= ht_size_exp (ht0 d')).
Proof using.
  intros Hd Hr. pose proof (same_content_refl d Hd) as Srefl.
  pose proof (_dictNextExp_range size) as He. unfold _dictResize, dictIsRehashing. rewrite Hr.
  cbn [negb Z.eqb Pos.eqb].
  destruct ((_ <? size) || _) eqn:Eo.
  { exists d, DICT_ERR, false. split_and!; [done|done|done|lia| |done]. by intros _ -> _. }
  apply orb_false_iff in Eo as [_ Eo]. apply newsize_fits in Eo; [|done].
  destruct (Z.eqb_spec (_dictNextExp size) (ht_size_exp (ht0 d))) as [E|Hne].
  { exists d, DICT_ERR, false. split_and!; [done|done|done|lia|lia|done]. }
  destruct (match try with Some false => true | _ => false end) eqn:Et.
  { exists d, DICT_ERR, true. split_and!; [done|done|done|lia| |done]. intros _ _ ->. done. }
  set (t := Ht _ 0 _). assert (table_ok t) as Ht by (apply table_ok_new; lia).
  assert (telems t = []) as Et0 by apply concat_replicate_nil.
  destruct Hd as [H0 H1 Hn Hph].
  assert (ht1 d = _dictReset) as E1 by (destruct Hph as [[_ ?]|?]; [done|lia]).
  assert (elements d = telems (ht0 d)) as El.
  { unfold elements. rewrite E1. unfold telems at 2. simpl. by rewrite app_nil_r. }
  destruct (_ || _) eqn:Ec.
  - assert (telems (ht0 d) = []) as E0.
    { apply orb_true_iff in Ec as [Ec|Ec]; simpl in Ec.
      - unfold telems. by destruct (ht_table (ht0 d)).
      - apply used_0_elements; [done|]. by apply Z.eqb_eq. }
    eexists _, _, _. split; [done|]. simpl. split_and!; [|lia|lia|lia|lia].
    split; [|simpl|done|done].
    + split; simpl; [done|apply table_ok_reset| |by left].
      unfold elements, set_ht, set_rehashidx. simpl. rewrite Et0. unfold telems. simpl. constructor.
    + rewrite El, E0. unfold elements, set_ht, set_rehashidx. simpl. rewrite Et0. done.
  - apply orb_false_iff in Ec as [Ec _]. simpl in Ec.
    assert (0 <= ht_size_exp (ht0 d)) as Hx.
    { destruct (ok_shape _ H0) as [[_ E]|?]; [by rewrite E in Ec|lia]. }
    eexists _, _, _. split; [done|]. simpl. split_and!; [|done|lia|done|done].
    split; [|simpl|done|done].
    + split; simpl; [done|done| |].
      * unfold elements, set_ht, set_rehashidx. simpl. rewrite Et0, app_nil_r. by rewrite El in Hn.
      * right. simpl. split_and!; [lia|done|lia|lia].
    + rewrite El. unfold elements, set_ht, set_rehashidx. simpl. by rewrite Et0, app_nil_r.
Qed.

Lemma not_rehashing d : dict_ok d -> dictIsRehashing d = false <-> rehashidx d = -1.
Proof using. unfold dictIsRehashing. rewrite negb_false_iff. by rewrite Z.eqb_eq. Qed.

Lemma _dictExpandIfNeeded_spec d : dict_ok d ->
  exists d', _dictExpandIfNeeded dict_can_resize d = Ret d' /\ same_content d d' /\
    (d' = d \/ rehashidx d' <= 0) /\
    (pauseAutoResize d <= 0 \/ 0 <= ht_size_exp (ht0 d) -> 0 <= ht_size_exp (ht0 d')).
Proof using.
  intros Hd. pose proof (same_content_refl d Hd) as Srefl. unfold _dictExpandIfNeeded.
  destruct (Z.ltb_spec 0 (pauseAutoResize d)) as [Hp|Hp].
  { exists d. split_and!; [done|done|by left|lia]. }
  unfold dictExpandIfNeeded. destruct (dictIsRehashing d) eqn:Er.
  { exists d. split_and!; [done|done|by left|]. intros _. unfold dictIsRehashing in Er. zbool.
    destruct Hd as [_ _ _ [[? _]|(_ & ? & _)]]; lia. }
  pose proof Er as Er'. apply not_rehashing in Er'; [|done]. rename Er' into Hm1.
  destruct (Z.eqb_spec (DICTHT_SIZE (ht_size_exp (ht0 d))) 0) as [Ez|Hnz].
  - assert (ht_size_exp (ht0 d) = -1) as Ex.
    { destruct (ok_shape _ (ok_ht0 _ Hd)) as [[? _]|[Hx _]]; [done|].
      unfold DICTHT_SIZE in Ez. destruct (Z.eqb_spec (ht_size_exp (ht0 d)) (-1)); [done|].
      rewrite Z.shiftl_1_l in Ez. pose proof (pow2_pos (ht_size_exp (ht0 d))). lia. }
    assert (ht_used (ht0 d) = 0) as Eu.
    { rewrite (ok_used _ (ok_ht0 _ Hd)). destruct (ok_shape _ (ok_ht0 _ Hd)) as [[_ E]|[? _]]; [|lia].
      unfold telems. by rewrite E. }
    destruct (_dictResize_spec d DICT_HT_INITIAL_SIZE None Hd Hm1)
      as (d' & rc & mf & E & S1 & _ & Hi & Hx & _).
    exists d'. unfold dictExpand, _dictExpand. rewrite Er, Ez, Eu. simpl. rewrite E. simpl.
    split_and!; [done|done|by right|]. intros _. by apply Hx.
  - assert (0 <= ht_size_exp (ht0 d)) as Hx.
    { destruct (ok_shape _ (ok_ht0 _ Hd)) as [[E _]|[? _]]; [by rewrite E in Hnz|lia]. }
    destruct (_ || _); [|exists d; by split_and!; [| |left|]].
    destruct (dictTypeResizeAllowed d _); [|exists d; by split_and!; [| |left|]].
    unfold dictExpand, _dictExpand. rewrite Er. simpl.
    destruct (_ || _); [exists d; by split_and!; [| |left|]|].
    destruct (_dictResize_spec d (ht_used (ht0 d) + 1) None Hd Hm1)
      as (d' & rc & mf & E & S1 & _ & Hi & _ & Hy).
    exists d'. rewrite E. simpl. split_and!; [done|done|by right|]. intros _. by apply Hy.
Qed.

Lemma _dictShrinkIfNeeded_spec d : dict_ok d ->
  exists d', _dictShrinkIfNeeded dict_can_resize d = Ret d' /\ same_content d d'.
Proof using.
  intros Hd. pose proof (same_content_refl d Hd) as Srefl. unfold _dictShrinkIfNeeded.
  destruct (0 <? pauseAutoResize d); [by exists d|].
  unfold dictShrinkIfNeeded. destruct (dictIsRehashing d) eqn:Er; [by exists d|].
  pose proof Er as Hm1. apply not_rehashing in Hm1; [|done].
  destruct (_ <=? DICT_HT_INITIAL_SIZE); [by exists d|].
  destruct (_ || _); [|by exists d]. destruct (dictTypeResizeAllowed d _); [|by exists d].
  unfold dictShrink. rewrite Er. simpl. destruct (_ || _); [by exists d|].
  destruct (_dictResize_spec d (ht_used (ht0 d)) None Hd Hm1) as (d' & rc & mf & E & S1 & _).
  exists d'. rewrite E. by split.
Qed.

(** ** Lookup *)

Lemma find_in_spec k (b : list (dictEntry K V)) :
  match find_in k b with
  | Some i => exists e, b !! i = Some e /\ key e = k
  | None => k ∉ key <$> b
  end.
Proof using DTok.
  induction b as [|e b IH]; simpl; [apply not_elem_of_nil|].
  destruct (keyCompare k (key e)) eqn:E; [apply keyCompare_spec in E; by exists e|].
  destruct (find_in k b) as [i|]; simpl; [exact IH|].
  rewrite not_elem_of_cons. split; [|done]. intros ->.
  assert (keyCompare (key e) (key e) = true) by (by apply keyCompare_spec). congruence.
Qed.

Lemma find_in_ref d (table : bool) k idx b : bucket (ht_of d table) idx = Ret b ->
  match Ref table idx <$> find_in k b with
  | Some r => exists e, deref d r = Ret e /\ key e = k
  | None => k ∉ key <$> b
  end.
Proof using DTok.
  intros Hb. pose proof (find_in_spec k b) as Hf.
  destruct (find_in k b) as [i|]; simpl; [|done]. destruct Hf as (e & He & Hk).
  exists e. split; [|done]. unfold deref. simpl. rewrite Hb. simpl. by rewrite He.
Qed.

Lemma not_in_bucket t k b : table_ok t -> 0 <= ht_size_exp t ->
  bucket t (hashFunction k mod 2 ^ ht_size_exp t) = Ret b -> k ∉ key <$> b -> k ∉ key <$> telems t.
Proof using.
  intros Ht He Hb Hn Hin. apply list_elem_of_fmap in Hin as (e & -> & Hin).
  destruct (elem_of_telems t e Ht Hin) as (_ & b' & Hb' & Hin'). rewrite Hb in Hb'.
  injection Hb' as <-. apply Hn, list_elem_of_fmap. by exists e.
Qed.

(** The stale index is only compared while it still means something. *)
Definition idx_valid d (k : K) (idx : Z) : Prop :=
  0 <= idx /\ (rehashidx d <= 0 \/ idx = hashFunction k mod 2 ^ ht_size_exp (ht0 d)).

Lemma skipped_not_in d k idx : dict_ok d -> idx_valid d k idx -> idx < rehashidx d ->
  k ∉ key <$> telems (ht0 d).
Proof using.
  intros [H0 _ _ Hph] [Hi Hv] Hlt Hin.
  destruct Hph as [[? _]|(Hr & He0 & _ & Hlow)]; [lia|]. destruct Hv as [?|E]; [lia|].
  apply list_elem_of_fmap in Hin as (e & -> & Hin).
  destruct (elem_of_telems _ e H0 Hin) as (_ & b & Hb & He). rewrite bucket_Ret, <- E in Hb.
  rewrite (Hlow (Z.to_nat idx) b) in He; [by apply not_elem_of_nil in He|lia|done].
Qed.

(** The search finds the key exactly when it is there, and otherwise ends on the
    bucket of the table that insertions use. *)
Lemma search_spec d k idx : dict_ok d -> 0 <= ht_size_exp (ht0 d) -> idx_valid d k idx ->
  exists r i, search d (hashFunction k) idx k = Ret (r, i) /\
    match r with
    | Some r => exists e, deref d r = Ret e /\ key e = k
    | None => (k ∉ key <$> elements d) /\
              i = hashFunction k mod 2 ^ ht_size_exp (ht_of d (dictIsRehashing d))
    end.
Proof using DTok.
  intros Hd He0 Hv. pose proof Hd as [H0 H1 _ Hph]. unfold search. rewrite mask_mod by done.
  assert (exists f i, (if idx <? rehashidx d then Ret (None, idx) else
      let* chain := bucket (ht0 d) (hashFunction k mod 2 ^ ht_size_exp (ht0 d)) in
      Ret (Ref false (hashFunction k mod 2 ^ ht_size_exp (ht0 d)) <$> find_in k chain,
           hashFunction k mod 2 ^ ht_size_exp (ht0 d))) = Ret (f, i) /\
      match f with
      | Some r => exists e, deref d r = Ret e /\ key e = k
      | None => (k ∉ key <$> telems (ht0 d)) /\
                (rehashidx d = -1 -> i = hashFunction k mod 2 ^ ht_size_exp (ht0 d))
      end) as (f & i & -> & Hf).
  { destruct (Z.ltb_spec idx (rehashidx d)) as [Hlt|Hge].
    - exists None, idx. split; [done|]. split; [by eapply skipped_not_in|].
      destruct Hv. lia.
    - destruct (bucket_total _ (hashFunction k) H0 He0) as (b & Hb & _). rewrite Hb. cbn [obind].
      eexists _, _. split; [done|].
      pose proof (find_in_ref d false k _ b Hb) as Hs. destruct (find_in k b); [done|].
      split; [by eapply not_in_bucket|done]. }
  cbn [obind]. destruct f as [r|]; [by exists (Some r), i|]. destruct Hf as [Hf Hi].
  unfold elements. destruct (dictIsRehashing d) eqn:Er; simpl.
  - assert (0 <= ht_size_exp (ht1 d)) as He1.
    { unfold dictIsRehashing in Er. zbool. destruct Hph as [[? _]|(_ & _ & ? & _)]; lia. }
    rewrite mask_mod by done. destruct (bucket_total _ (hashFunction k) H1 He1) as (b & Hb & _).
    rewrite Hb. cbn [obind]. eexists _, _. split; [done|].
    pose proof (find_in_ref d true k _ b Hb) as Hs. destruct (find_in k b); [done|].
    split; [|done]. rewrite fmap_app, not_elem_of_app. split; [done|by eapply not_in_bucket].
  - apply not_rehashing in Er; [|done]. exists None, i. split; [done|]. split; [|by apply Hi].
    destruct Hph as [[_ ->]|?]; [|lia]. by rewrite app_nil_r.
Qed.

(** ** Updates through a pointer *)

(** Replacing a chain: the rest of the dict stays. *)
Lemma edit_chain d (table : bool) idx b b' n : dict_ok d ->
  bucket (ht_of d table) idx = Ret b ->
  Forall (placed (ht_size_exp (ht_of d table)) (Z.to_nat idx)) b' ->
  n = Z.of_nat (length b') - Z.of_nat (length b) ->
  (table = true \/ b = [] -> table = dictIsRehashing d) ->
  (forall r, elements d ≡ₚ b ++ r -> NoDup (key <$> b' ++ r)) ->
  let d' := set_ht d table (upd_bucket (ht_of d table) idx b' n) in
  dict_ok d' /\ exists r, elements d ≡ₚ b ++ r /\ elements d' ≡ₚ b' ++ r.
Proof using.
  intros Hd Hb Hpl Hn Htab Hnd d'. pose proof Hd as [H0 H1 _ Hph].
  assert (table_ok (ht_of d table)) as Ht by (by destruct table).
  destruct (upd_bucket_ok _ idx b b' n Ht Hb Hpl Hn) as (Hok & r & Po & Pn).
  assert (elements d ≡ₚ b ++ r ++ telems (ht_of d (negb table)) /\
    elements d' ≡ₚ b' ++ r ++ telems (ht_of d (negb table))) as [P1 P2].
  { unfold elements, d'. destruct table; simpl in *; rewrite ?Po, ?Pn.
    - split; rewrite Permutation_app_comm; by rewrite <- app_assoc.
    - by rewrite <- !app_assoc. }
  split; [|by eexists; split].
  assert (NoDup (key <$> elements d')) as Hnd' by (eapply nodup_perm; [exact P2|by apply Hnd]).
  destruct table; simpl in *.
  - split; [done|done|done|]. simpl. specialize (Htab (or_introl eq_refl)).
    unfold dictIsRehashing in Htab. symmetry in Htab. zbool.
    destruct Hph as [[? _]|(? & ? & ? & ?)]; [lia|]. by right.
  - split; [done|done|done|]. simpl. destruct Hph as [?|(Hr & ? & ? & Hlo)]; [by left|].
    right. split_and!; [done|done|done|]. intros i c Hi Hc.
    apply list_lookup_insert_Some in Hc as [(<- & <- & _)|[_ Hc]]; [|by eapply Hlo].
    rewrite bucket_Ret in Hb. specialize (Htab (or_intror (Hlo _ _ Hi Hb))).
    unfold dictIsRehashing in Htab. symmetry in Htab. zbool. lia.
Qed.

Lemma deref_spec d r e : dict_ok d -> deref d r = Ret e ->
  exists b, bucket (ht_of d (r_table r)) (r_idx r) = Ret b /\ b !! r_pos r = Some e /\
    Forall (placed (ht_size_exp (ht_of d (r_table r))) (Z.to_nat (r_idx r))) b /\
    (r_table r = true \/ b = [] -> r_table r = dictIsRehashing d).
Proof using.
  intros [H0 H1 _ Hph] Hr. unfold deref in Hr.
  destruct (bucket _ _) as [|b] eqn:Hb; [done|]. simpl in Hr.
  destruct (b !! r_pos r) as [e'|] eqn:He; [|done]. injection Hr as ->.
  exists b. split_and!; [done|done| |].
  - rewrite bucket_Ret in Hb. destruct (r_table r); simpl in *; eapply ok_place; eauto.
  - intros [E|E]; [|by rewrite E in He]. rewrite E in *. unfold dictIsRehashing.
    destruct Hph as [[_ E1]|[? _]]; [|by destruct (Z.eqb_spec (rehashidx d) (-1)); [lia|]].
    rewrite bucket_Ret in Hb. simpl in Hb. by rewrite E1 in Hb.
Qed.

Lemma insert_perm {A} (b : list A) i x y : b !! i = Some x ->
  b ≡ₚ x :: delete i b /\ <[i := y]> b ≡ₚ y :: delete i b.
Proof using.
  intros Hi. split; [by apply delete_Permutation|].
  rewrite (delete_Permutation (<[i := y]> b) i y).
  - f_equiv. by rewrite !delete_take_drop, take_insert_ge, drop_insert_lt by lia.
  - apply list_lookup_insert_eq. by eapply lookup_lt_Some.
Qed.

(** Setting the value of an entry and unlinking it. *)
Lemma set_value_spec d r e x : dict_ok d -> deref d r = Ret e ->
  exists b, bucket (ht_of d (r_table r)) (r_idx r) = Ret b /\
  let d' := set_ht d (r_table r) (upd_bucket (ht_of d (r_table r)) (r_idx r)
              (<[r_pos r := Entry (key e) x]> b) 0) in
  dict_ok d' /\ exists rest, elements d ≡ₚ e :: rest /\ elements d' ≡ₚ Entry (key e) x :: rest.
Proof using.
  intros Hd Hr. destruct (deref_spec d r e Hd Hr) as (b & Hb & Hi & Hpl & Htab).
  exists b. split; [done|].
  destruct (insert_perm b (r_pos r) e (Entry (key e) x) Hi) as [P1 P2].
  edestruct (edit_chain d (r_table r) (r_idx r) b (<[r_pos r := Entry (key e) x]> b) 0)
    as (Hok & rest & Q1 & Q2); [done|done| | |done| |].
  4: { split; [exact Hok|]. exists (delete (r_pos r) b ++ rest). rewrite Q1, Q2.
       split; [by rewrite P1 at 1|by rewrite P2 at 1]. }
  - apply Forall_insert; [done|]. rewrite Forall_lookup in Hpl. exact (Hpl _ _ Hi).
  - rewrite length_insert. lia.
  - intros rest Q. pose proof (ok_nodup _ Hd) as Hn. rewrite Q in Hn.
    rewrite fmap_app in *. by rewrite P1 in Hn; rewrite P2.
Qed.

Lemma unlink_spec d r e : dict_ok d -> deref d r = Ret e ->
  exists d' rest, unlink d r = Ret d' /\ dict_ok d' /\
    elements d ≡ₚ e :: rest /\ elements d' ≡ₚ rest /\
    pauserehash d' = pauserehash d /\ pauseAutoResize d' = pauseAutoResize d.
Proof using.
  intros Hd Hr. destruct (deref_spec d r e Hd Hr) as (b & Hb & Hi & Hpl & Htab).
  pose proof (delete_Permutation b (r_pos r) e Hi) as P1.
  assert (length b = S (length (delete (r_pos r) b))) as El by (by rewrite P1 at 1).
  edestruct (edit_chain d (r_table r) (r_idx r) b (delete (r_pos r) b) (-1))
    as (Hok & rest & Q1 & Q2); [done|done| |lia|done| |].
  - by apply Forall_delete.
  - intros rest Q. pose proof (ok_nodup _ Hd) as Hn. rewrite Q in Hn.
    rewrite fmap_app in *. rewrite P1 in Hn. simpl in Hn. by apply NoDup_cons in Hn as [_ Hn].
  - unfold unlink. rewrite Hb. simpl. eexists _, (delete (r_pos r) b ++ rest). split; [done|].
    split_and!; [exact Hok| |exact Q2| |]; [|by destruct (r_table r)..].
    rewrite Q1. by rewrite P1 at 1.
Qed.

(** ** The abstract map *)

Lemma fst_kv (l : list (dictEntry K V)) : (kv <$> l).*1 = key <$> l.
Proof using. rewrite <- list_fmap_compose. done. Qed.

Lemma to_map_perm d (l : list (dictEntry K V)) : dict_ok d -> elements d ≡ₚ l ->
  to_map d = list_to_map (kv <$> l).
Proof using.
  intros Hd P. unfold to_map. apply list_to_map_proper; [|by rewrite P].
  rewrite fst_kv. apply Hd.
Qed.

Lemma to_map_same d d' : dict_ok d -> same_content d d' -> to_map d' = to_map d.
Proof using. intros Hd [Hok P _ _]. by rewrite (to_map_perm d' (elements d)). Qed.

Lemma to_map_absent d k : k ∉ key <$> elements d -> to_map d !! k = None.
Proof using. intros Hk. apply not_elem_of_list_to_map_1. by rewrite fst_kv. Qed.

Lemma to_map_present d e rest : dict_ok d -> elements d ≡ₚ e :: rest ->
  to_map d = <[key e := val e]> (list_to_map (kv <$> rest)) /\
  (list_to_map (kv <$> rest) : gmap K (option V)) !! key e = None.
Proof using.
  intros Hd P. split; [by rewrite (to_map_perm d (e :: rest))|].
  apply not_elem_of_list_to_map_1. rewrite fst_kv.
  pose proof (ok_nodup _ Hd) as Hn. rewrite P in Hn. by apply NoDup_cons in Hn as [? _].
Qed.

Lemma to_map_deref d r e : dict_ok d -> deref d r = Ret e -> to_map d !! key e = Some (val e).
Proof using.
  intros Hd Hr. destruct (unlink_spec d r e Hd Hr) as (_ & rest & _ & _ & P & _).
  destruct (to_map_present d e rest Hd P) as [-> _]. apply lookup_insert_eq.
Qed.

(** ** The operations *)

Lemma initial_idx d k : dict_ok d ->
  0 <= Z.land (hashFunction k) (DICTHT_SIZE_MASK (ht_size_exp (ht0 d))) /\
  (0 <= ht_size_exp (ht0 d) ->
   Z.land (hashFunction k) (DICTHT_SIZE_MASK (ht_size_exp (ht0 d)))
     = hashFunction k mod 2 ^ ht_size_exp (ht0 d)) /\
  (dictIsRehashing d = true -> exists b,
   bucket (ht0 d) (Z.land (hashFunction k) (DICTHT_SIZE_MASK (ht_size_exp (ht0 d)))) = Ret b).
Proof using.
  intros [H0 _ _ Hph]. destruct (ok_shape _ H0) as [[E _]|[He _]].
  - rewrite E. unfold DICTHT_SIZE_MASK. simpl. rewrite Z.land_0_r.
    split_and!; [lia|lia|]. unfold dictIsRehashing. intros Hr. zbool.
    destruct Hph as [[? _]|(_ & ? & _)]; lia.
  - rewrite mask_mod by lia. split_and!; [|done|].
    + apply Z.mod_pos_bound, pow2_pos. lia.
    + intros _. destruct (bucket_total _ (hashFunction k) H0) as (b & Hb & _); [lia|eauto].
Qed.

Lemma access_spec d k :
  let idx := Z.land (hashFunction k) (DICTHT_SIZE_MASK (ht_size_exp (ht0 d))) in
  dict_ok d -> 
  exists d', rehash_on_access dict_can_resize d idx = Ret d' /\ same_content d d' /\
    (0 <= ht_size_exp (ht0 d) -> 0 <= ht_size_exp (ht0 d')) /\
    (0 <= ht_size_exp (ht0 d) -> idx_valid d' k idx) /\ 0 <= idx /\
    (rehashidx d' = -1 \/ ht_size_exp (ht0 d') = ht_size_exp (ht0 d)).
Proof using.
  intros idx Hd. destruct (initial_idx d k Hd) as (Hi & Em & Hb).
  destruct (rehash_on_access_spec d idx Hd Hi Hb) as (d' & E & S1 & Hx & Hy).
  exists d'. split_and!; try done. intros He. split; [done|].
  destruct Hx as [->|Ee]; [left; lia|]. right. rewrite Ee. by apply Em.
Qed.

Lemma nonempty_exp d : dict_ok d -> dictSize d <> 0 -> 0 <= ht_size_exp (ht0 d).
Proof using.
  intros [H0 H1 _ Hph] Hs. destruct (ok_shape _ H0) as [[_ E]|?]; [|lia].
  destruct Hph as [[_ E1]|(_ & ? & _)]; [|done]. destruct Hs. unfold dictSize.
  rewrite (ok_used _ H0), (ok_used _ H1), E1. unfold telems. by rewrite E.
Qed.

Lemma empty_absent d k : dict_ok d -> dictSize d = 0 -> to_map d !! k = None.
Proof using.
  intros [H0 H1 _ _] Hs. unfold dictSize in Hs.
  rewrite (ok_used _ H0), (ok_used _ H1) in Hs. apply to_map_absent. unfold elements.
  destruct (telems (ht0 d)), (telems (ht1 d)); simpl in *; try lia. apply not_elem_of_nil.
Qed.

Lemma dictFind_spec d k : dict_ok d ->
  exists d' r, dictFind dict_can_resize d k = Ret (d', r) /\ same_content d d' /\
    match r with
    | Some r => exists e, deref d' r = Ret e /\ key e = k
    | None => to_map d !! k = None
    end.
Proof using DTok.
  intros Hd. unfold dictFind. destruct (Z.eqb_spec (dictSize d) 0) as [Hz|Hnz].
  { exists d, None. split; [done|]. split; [by apply same_content_refl|by apply empty_absent]. }
  pose proof (nonempty_exp d Hd Hnz) as He.
  destruct (access_spec d k Hd) as (d' & -> & S1 & Hx & Hv & _). cbn [obind].
  destruct (search_spec d' k _ (sc_ok _ _ S1) (Hx He) (Hv He)) as (r & i & -> & Hr). cbn [obind].
  exists d', r. split; [done|]. split; [done|]. destruct r as [r|]; [done|].
  rewrite <- (to_map_same d d' Hd S1). apply to_map_absent, Hr.
Qed.

Lemma insert_table d : dict_ok d -> 0 <= ht_size_exp (ht0 d) ->
  table_ok (ht_of d (dictIsRehashing d)) /\ 0 <= ht_size_exp (ht_of d (dictIsRehashing d)).
Proof using.
  intros [H0 H1 _ Hph] He. destruct (dictIsRehashing d) eqn:Et; simpl; [|done]. split; [done|].
  unfold dictIsRehashing in Et. zbool. destruct Hph as [[? _]|(_ & _ & ? & _)]; lia.
Qed.

Lemma dictInsertAtPosition_spec d k : dict_ok d -> 0 <= ht_size_exp (ht0 d) ->
  k ∉ key <$> elements d ->
  let tb := dictIsRehashing d in
  exists d' r, dictInsertAtPosition d k (tb, hashFunction k mod 2 ^ ht_size_exp (ht_of d tb))
      = Ret (d', r) /\
    dict_ok d' /\ deref d' r = Ret (Entry k None) /\ elements d' ≡ₚ Entry k None :: elements d /\
    pauserehash d' = pauserehash d /\ pauseAutoResize d' = pauseAutoResize d.
Proof using.
  intros Hd He0 Hn tb. destruct (insert_table d Hd He0) as [Ht He]. fold tb in Ht, He.
  unfold dictInsertAtPosition. fold tb. set (h := hashFunction k mod _).
  pose proof (Z.mod_pos_bound (hashFunction k) (2 ^ ht_size_exp (ht_of d tb)) ltac:(by apply pow2_pos))
    as Hh. fold h in Hh.
  destruct (bucket_total _ (hashFunction k) Ht He) as (b & Hb & Hf). fold h in Hb, Hf.
  assert (eqb tb tb && (0 <=? h) && (h <=? DICTHT_SIZE_MASK (ht_size_exp (ht_of d tb))) = true) as ->.
  { rewrite eqb_reflx. unfold DICTHT_SIZE_MASK, DICTHT_SIZE.
    destruct (Z.eqb_spec (ht_size_exp (ht_of d tb)) (-1)); [lia|]. rewrite Z.shiftl_1_l.
    rewrite (proj2 (Z.leb_le 0 h)), (proj2 (Z.leb_le h _)) by lia. done. }
  cbn [negb]. rewrite Hb. cbn [obind]. eexists _, _. split; [done|].
  destruct (edit_chain d tb h b (Entry k None :: b) 1) as (Hok & r & P1 & P2); [done|done| | |done| |].
  - constructor; [|done]. unfold placed. simpl. rewrite Z2Nat.id by lia. done.
  - simpl length. lia.
  - intros r P. pose proof (ok_nodup _ Hd) as Hnd. rewrite P in Hn, Hnd. simpl. by constructor.
  - split_and!; [exact Hok| |by rewrite P2, P1|by destruct tb|by destruct tb].
    unfold deref. simpl. apply bucket_Ret in Hb.
    assert (ht_of (set_ht d tb (upd_bucket (ht_of d tb) h (Entry k None :: b) 1)) tb
      = upd_bucket (ht_of d tb) h (Entry k None :: b) 1) as -> by (by destruct tb).
    assert (bucket (upd_bucket (ht_of d tb) h (Entry k None :: b) 1) h = Ret (Entry k None :: b)) as ->;
      [|done].
    apply bucket_Ret. simpl. apply list_lookup_insert_eq. by eapply lookup_lt_Some.
Qed.

Lemma dictAddRaw_spec d k : dict_ok d ->
  pauseAutoResize d <= 0 \/ 0 <= ht_size_exp (ht0 d) ->
  exists d' r, dictAddRaw dict_can_resize d k = Ret (d', r) /\
    pauserehash d' = pauserehash d /\ pauseAutoResize d' = pauseAutoResize d /\
    match r with
    | inr ex => same_content d d' /\ exists e, deref d' ex = Ret e /\ key e = k
    | inl new => dict_ok d' /\ deref d' new = Ret (Entry k None) /\
                 elements d' ≡ₚ Entry k None :: elements d /\ to_map d !! k = None
    end.
Proof using DTok.
  intros Hd Hp. unfold dictAddRaw, dictFindPositionForInsert.
  destruct (access_spec d k Hd) as (d1 & -> & S1 & Hx & _ & Hi & Hs). cbn [obind].
  set (idx := Z.land _ _) in *.
  destruct (_dictExpandIfNeeded_spec d1 (sc_ok _ _ S1)) as (d2 & -> & S2 & Hs2 & He2). cbn [obind].
  assert (0 <= ht_size_exp (ht0 d2)) as He.
  { apply He2. rewrite (sc_auto _ _ S1). destruct Hp; [by left|right; auto]. }
  pose proof (same_content_trans _ _ _ S1 S2) as S12.
  assert (idx_valid d2 k idx) as Hv.
  { split; [done|]. destruct Hs2 as [->|?]; [|by left]. destruct Hs as [->|E]; [left; lia|].
    right. rewrite E in *. by apply initial_idx. }
  destruct (search_spec d2 k idx (sc_ok _ _ S2) He Hv) as (r & i & -> & Hr). cbn [obind].
  destruct r as [r|].
  { exists d2, (inr r). split_and!; [done|apply S12|apply S12|done|done]. }
  destruct Hr as [Hn ->]. cbn [obind].
  destruct (dictInsertAtPosition_spec d2 k (sc_ok _ _ S2) He Hn)
    as (d3 & new & -> & Hok & Hnew & P & Ep & Ea). cbn [obind].
  exists d3, (inl new). split_and!; [done|rewrite Ep; apply S12|rewrite Ea; apply S12|done|done| |].
  - by rewrite P, (sc_perm _ _ S12).
  - rewrite <- (to_map_same d d2 Hd S12). by apply to_map_absent.
Qed.

Lemma dictSize_map d : dict_ok d -> dictSize d = Z.of_nat (size (to_map d)).
Proof using.
  intros Hd. pose proof Hd as [H0 H1 Hn _]. unfold dictSize, to_map.
  rewrite (ok_used _ H0), (ok_used _ H1), map_size_list_to_map by (by rewrite fst_kv).
  rewrite length_fmap. unfold elements. rewrite length_app. lia.
Qed.

(** C28: lookup.  On a well-formed dict [dictFind] returns an entry exactly when
    the key is in the map, with its value; the rehashing it does on the way,
    which may finish and swap the tables, leaves the map as it was. *)
Theorem dictFind_correct d k : dict_ok d ->
  exists d' r, dictFind dict_can_resize d k = Ret (d', r) /\ dict_ok d' /\ to_map d' = to_map d /\
    match r with
    | Some r => exists e, deref d' r = Ret e /\ key e = k /\ to_map d !! k = Some (val e)
    | None => to_map d !! k = None
    end.
Proof using DTok.
  intros Hd. destruct (dictFind_spec d k Hd) as (d' & r & E & S & Hr).
  exists d', r. pose proof (to_map_same d d' Hd S) as Em.
  split_and!; [done|apply S|done|]. destruct r as [r|]; [|done].
  destruct Hr as (e & He & <-). exists e. split_and!; [done|done|].
  rewrite <- Em. eapply to_map_deref; [apply S|done].
Qed.

(** The value [dictAdd] leaves in a new entry. *)
Definition stored (v : V) : option V := if no_value then None else Some v.

(** Overwriting the value of an entry. *)
Lemma dictSetVal_spec d r e v : dict_ok d -> no_value = false -> deref d r = Ret e ->
  exists d', dictSetVal d r v = Ret d' /\ dict_ok d' /\ pauseAutoResize d' = pauseAutoResize d /\
    to_map d' = <[key e := Some v]> (to_map d).
Proof using.
  intros Hd Hv Hr. unfold dictSetVal. rewrite Hv.
  destruct (set_value_spec d r e (Some v) Hd Hr) as (b & -> & Hok & rest & P1 & P2). cbn [obind].
  rewrite Hr. cbn [obind]. eexists. split; [done|]. split; [exact Hok|]. split; [by destruct (r_table r)|].
  rewrite (to_map_perm _ _ Hok P2), (to_map_perm d _ Hd P1). simpl. by rewrite insert_insert_eq.
Qed.

Lemma dictAdd_spec d k v : dict_ok d ->
  pauseAutoResize d <= 0 \/ 0 <= ht_size_exp (ht0 d) ->
  exists d', dict_ok d' /\ pauseAutoResize d' = pauseAutoResize d /\
    match to_map d !! k with
    | None => dictAdd dict_can_resize d k v = Ret (d', DICT_OK) /\
              to_map d' = <[k := stored v]> (to_map d)
    | Some _ => dictAdd dict_can_resize d k v = Ret (d', DICT_ERR) /\ to_map d' = to_map d
    end.
Proof using DTok.
  intros Hd Hp. destruct (dictAddRaw_spec d k Hd Hp) as (d1 & r & E & _ & Ea & Hr).
  unfold dictAdd. rewrite E. cbn [obind]. destruct r as [new|ex].
  - destruct Hr as (Hok & Hnew & P & ->). unfold stored.
    destruct no_value eqn:Env; cbn [negb obind].
    { exists d1. split_and!; [done|done|done|]. by rewrite (to_map_perm d1 _ Hok P). }
    destruct (dictSetVal_spec d1 new _ v Hok Env Hnew) as (d2 & -> & Hok2 & Ea2 & Em). cbn [obind].
    exists d2. split_and!; [done|congruence|done|]. rewrite Em, (to_map_perm d1 _ Hok P). simpl.
    by rewrite insert_insert_eq.
  - destruct Hr as (S & e & He & <-). exists d1. split; [apply S|]. split; [done|].
    pose proof (to_map_same d d1 Hd S) as Em. rewrite <- Em.
    by rewrite (to_map_deref d1 ex e (sc_ok _ _ S) He).
Qed.

(** C16: insertion.  [dictAdd] adds the pair and returns DICT_OK when the key is
    absent, and returns DICT_ERR and changes nothing in the map when it is
    there; no assertion fails.  Automatic resizing may be paused only once the
    first table exists. *)
Theorem dictAdd_correct d k v : dict_ok d ->
  pauseAutoResize d <= 0 \/ 0 <= ht_size_exp (ht0 d) ->
  exists d', dict_ok d' /\
    match to_map d !! k with
    | None => dictAdd dict_can_resize d k v = Ret (d', DICT_OK) /\
              to_map d' = <[k := stored v]> (to_map d)
    | Some _ => dictAdd dict_can_resize d k v = Ret (d', DICT_ERR) /\ to_map d' = to_map d
    end.
Proof using DTok.
  intros Hd Hp. destruct (dictAdd_spec d k v Hd Hp) as (d' & Hok & _ & H). by exists d'.
Qed.

(** [dictReplace] always ends with the key mapped to the new value, returns
    1 when the key is new and otherwise 0 with the old value, which it leaves
    to the destructor. *)
Theorem dictReplace_correct d k v : dict_ok d -> no_value = false ->
  pauseAutoResize d <= 0 \/ 0 <= ht_size_exp (ht0 d) ->
  exists d', dict_ok d' /\ to_map d' = <[k := Some v]> (to_map d) /\
    dictReplace dict_can_resize d k v =
    Ret (d', match to_map d !! k with None => 1 | Some _ => 0 end, to_map d !! k).
Proof using DTok.
  intros Hd Hv Hp. destruct (dictAddRaw_spec d k Hd Hp) as (d1 & r & E & _ & _ & Hr).
  unfold dictReplace, dictSetVal, dictGetVal. rewrite E, Hv. cbn [obind]. destruct r as [new|ex].
  - destruct Hr as (Hok & Hnew & P & ->).
    destruct (set_value_spec d1 new _ (Some v) Hok Hnew) as (b & -> & Hok' & rest & P1 & P2).
    cbn [obind]. rewrite Hnew. cbn [obind]. eexists. split; [exact Hok'|]. split; [|done].
    rewrite (to_map_perm _ _ Hok' P2). rewrite P in P1. apply Permutation_cons_inv in P1.
    simpl. f_equal. symmetry. by apply to_map_perm.
  - destruct Hr as (S & e & He & <-). pose proof (sc_ok _ _ S) as Hok.
    pose proof (to_map_same d d1 Hd S) as Em. rewrite <- Em.
    rewrite (to_map_deref d1 ex e Hok He), He. cbn [obind].
    destruct (set_value_spec d1 ex e (Some v) Hok He) as (b & -> & Hok' & rest & P1 & P2).
    cbn [obind]. eexists. split; [exact Hok'|]. split; [|done].
    rewrite (to_map_perm _ _ Hok' P2), (to_map_perm d1 _ Hok P1). simpl.
    by rewrite insert_insert_eq.
Qed.

Lemma shrink_after_unlink d r e : dict_ok d -> deref d r = Ret e ->
  exists d1 d2, unlink d r = Ret d1 /\ _dictShrinkIfNeeded dict_can_resize d1 = Ret d2 /\
    dict_ok d2 /\ to_map d2 = delete (key e) (to_map d) /\ pauserehash d2 = pauserehash d /\
    pauseAutoResize d2 = pauseAutoResize d.
Proof using.
  intros Hd He. destruct (unlink_spec d r e Hd He) as (d1 & rest & E1 & Hok & P1 & P2 & Ep & Ea).
  destruct (_dictShrinkIfNeeded_spec d1 Hok) as (d2 & E2 & S2).
  exists d1, d2. split_and!; [done|done|apply S2| |rewrite <- Ep; apply S2|rewrite <- Ea; apply S2].
  rewrite (to_map_same d1 d2 Hok S2), (to_map_perm d1 _ Hok P2).
  destruct (to_map_present d e rest Hd P1) as [-> Hn]. by rewrite delete_insert_id.
Qed.

Lemma dictGenericDelete_spec d k : dict_ok d ->
  exists d', dictGenericDelete dict_can_resize d k = Ret (d', Entry k <$> (to_map d !! k)) /\
    dict_ok d' /\ to_map d' = delete k (to_map d) /\ pauseAutoResize d' = pauseAutoResize d /\ pauserehash d' = pauserehash d.
Proof using DTok.
  intros Hd. unfold dictGenericDelete. destruct (Z.eqb_spec (dictSize d) 0) as [Hz|Hnz].
  { exists d. rewrite (empty_absent d k Hd Hz). split_and!; [done|done| |done|done].
    symmetry. by apply delete_id, empty_absent. }
  pose proof (nonempty_exp d Hd Hnz) as He.
  destruct (access_spec d k Hd) as (d' & -> & S1 & Hx & Hv & _). cbn [obind].
  pose proof (sc_ok _ _ S1) as Hd'. rewrite <- (to_map_same d d' Hd S1).
  destruct (search_spec d' k _ Hd' (Hx He) (Hv He)) as (r & i & -> & Hr). cbn [obind].
  destruct r as [r|].
  - destruct Hr as (e & Hr & <-). rewrite Hr. cbn [obind].
    destruct (shrink_after_unlink d' r e Hd' Hr) as (d1 & d2 & -> & E2 & Hok & Hm & Ep & Ea).
    cbn [obind]. rewrite E2. cbn [obind]. exists d2.
    split_and!; [|done|done|by rewrite Ea, (sc_auto _ _ S1)|by rewrite Ep, (sc_pause _ _ S1)].
    rewrite (to_map_deref d' r e Hd' Hr). by destruct e.
  - exists d'. destruct Hr as [Hr _]. pose proof (to_map_absent d' k Hr) as En. rewrite En.
    split_and!; [done|done|by rewrite delete_id|apply S1|apply S1].
Qed.

Lemma set_pauserehash_ok d n : dict_ok d -> dict_ok (set_pauserehash d n).
Proof using. by intros []. Qed.

Lemma dictTwoPhaseUnlink_spec d k : dict_ok d ->
  exists d1 r d2, dictTwoPhaseUnlinkFind dict_can_resize d k = Ret (d1, r) /\
    dictTwoPhaseUnlinkFree dict_can_resize d1 r = Ret d2 /\ dict_ok d2 /\
    to_map d2 = delete k (to_map d) /\ pauserehash d2 = pauserehash d.
Proof using DTok.
  intros Hd. unfold dictTwoPhaseUnlinkFind. destruct (Z.eqb_spec (dictSize d) 0) as [Hz|Hnz].
  { exists d, None, d. split_and!; [done|done|done| |done].
    symmetry. by apply delete_id, empty_absent. }
  assert (exists d', (if dictIsRehashing d then _dictRehashStep dict_can_resize d else Ret d) = Ret d' /\
    same_content d d' /\ 0 <= ht_size_exp (ht0 d')) as (d' & -> & S1 & He).
  { pose proof (nonempty_exp d Hd Hnz) as He. pose proof (same_content_refl d Hd).
    destruct (dictIsRehashing d); [|by exists d]. unfold _dictRehashStep.
    destruct (_ =? 0); [|by exists d].
    destruct (dictRehash_spec d 1 Hd) as (d' & more & -> & S1 & _ & _ & Hx & _).
    exists d'. split_and!; [done|done|auto]. }
  cbn [obind]. pose proof (sc_ok _ _ S1) as Hd'. rewrite <- (to_map_same d d' Hd S1).
  destruct (initial_idx d' k Hd') as (Hi & Em & _).
  destruct (search_spec d' k (Z.land (hashFunction k) (DICTHT_SIZE_MASK (ht_size_exp (ht0 d')))) Hd' He)
    as (r & i & -> & Hr); [split; [done|right; auto]|].
  cbn [obind]. destruct r as [r|].
  - destruct Hr as (e & Hr & <-). set (dp := set_pauserehash d' (pauserehash d' + 1)).
    exists dp, (Some r).
    destruct (shrink_after_unlink dp r e) as (d1 & d2 & E1 & E2 & Hok & Hm & Ep & _);
      [by apply set_pauserehash_ok|by destruct r as [[] ? ?]|].
    exists (set_pauserehash d2 (pauserehash d2 - 1)). split; [done|]. unfold dictTwoPhaseUnlinkFree.
    rewrite E1. cbn [obind]. rewrite E2. cbn [obind].
    split_and!; [done|by apply set_pauserehash_ok|exact Hm|]. simpl. rewrite Ep. simpl.
    rewrite (sc_pause _ _ S1). lia.
  - exists d', None, d'. destruct Hr as [Hr _].
    split_and!; [done|done|done| |apply S1]. by rewrite delete_id by (by apply to_map_absent).
Qed.

(** C29: deletion.  [dictDelete] removes the key, with DICT_OK exactly when it
    was there, and the unlinked entry carries its value; the shrinking it may
    start changes nothing else.  The two-phase deletion has the same effect and
    leaves the pause counter as it found it. *)
Theorem dictDelete_correct d k : dict_ok d ->
  (exists d', dict_ok d' /\ to_map d' = delete k (to_map d) /\
    dictUnlink dict_can_resize d k = Ret (d', Entry k <$> (to_map d !! k)) /\
    dictDelete dict_can_resize d k =
      Ret (d', match to_map d !! k with Some _ => DICT_OK | None => DICT_ERR end)) /\
  (exists d1 r d2, dictTwoPhaseUnlinkFind dict_can_resize d k = Ret (d1, r) /\
    dictTwoPhaseUnlinkFree dict_can_resize d1 r = Ret d2 /\ dict_ok d2 /\
    to_map d2 = delete k (to_map d) /\ pauserehash d2 = pauserehash d).
Proof using DTok.
  intros Hd. split; [|by apply dictTwoPhaseUnlink_spec].
  destruct (dictGenericDelete_spec d k Hd) as (d' & E & Hok & Hm & _).
  exists d'. split_and!; [done|done|exact E|]. unfold dictDelete. rewrite E. cbn [obind].
  by destruct (to_map d !! k).
Qed.

(** [dictRehash] called again and again. *)
Fixpoint rehash_many (times : nat) (n : nat) d : outcome (dict K V) :=
  match times with
  | O => Ret d
  | S times' => let* (d', more) := dictRehash dict_can_resize d n in
                if more : bool then rehash_many times' n d' else Ret d'
  end.

Lemma enabled_not_blocked d : dict_can_resize = DICT_RESIZE_ENABLE -> 0 <= rehashidx d ->
  rehash_blocked dict_can_resize d = false.
Proof using.
  intros -> Hr. unfold rehash_blocked, dictIsRehashing. simpl.
  destruct (Z.eqb_spec (rehashidx d) (-1)); [lia|done].
Qed.

Lemma rehash_many_spec times n d : dict_ok d -> n <> 0%nat -> 0 <= rehashidx d ->
  dict_can_resize = DICT_RESIZE_ENABLE -> times <> 0%nat ->
  DICTHT_SIZE (ht_size_exp (ht0 d)) - rehashidx d <= Z.of_nat times ->
  exists d', rehash_many times n d = Ret d' /\ same_content d d' /\ rehashidx d' = -1.
Proof using.
  intros Hd Hn Hr Hen. revert d Hd Hr. induction times as [|times IH]; intros d Hd Hr Ht Hm; [done|].
  cbn [rehash_many].
  destruct (dictRehash_spec d n Hd) as (d1 & more & -> & S1 & A1 & Hmore & _ & Hpr). cbn [obind].
  destruct (Hpr (enabled_not_blocked d Hen Hr) Hn) as [[Hend ->]|[Hlt ->]]; [by exists d1|].
  destruct (Hmore eq_refl) as [Hr1 Hu1].
  destruct A1 as [?|(_ & _ & E0 & _)]; [lia|].
  destruct (chain_ahead d1 (sc_ok _ _ S1) Hr1 Hu1) as [Hlt1 _].
  rewrite E0 in Hlt1.
  destruct (IH d1) as (d2 & -> & S2 & H2); [apply S1|done|lia|rewrite E0; lia|].
  exists d2. split; [done|]. split; [by eapply same_content_trans|done].
Qed.

(** C30: incremental rehashing.  A step of [dictRehash] of any size keeps the
    invariant and the map, without a failed assertion or a read outside a
    table, and reports further work only while table 0 has entries.  When
    resizing is enabled ([DICT_RESIZE_ENABLE]; not when it is forbidden, nor avoided below the
    ratio) and a step has a size that is not 0, it always finishes or moves [rehashidx] on,
    so that as many calls as table 0 has buckets complete the rehashing. *)
Theorem dictRehash_correct d n : dict_ok d ->
  (exists d' more, dictRehash dict_can_resize d n = Ret (d', more) /\ dict_ok d' /\
     to_map d' = to_map d /\ (more = true -> 0 <= rehashidx d' /\ ht_used (ht0 d') <> 0)) /\
  (dict_can_resize = DICT_RESIZE_ENABLE -> 0 <= rehashidx d -> n <> 0%nat ->
   exists d', rehash_many (length (ht_table (ht0 d))) n d = Ret d' /\ dict_ok d' /\
     to_map d' = to_map d /\ rehashidx d' = -1).
Proof using.
  intros Hd. split.
  - destruct (dictRehash_spec d n Hd) as (d' & more & E & S & _ & Hm & _).
    exists d', more. split_and!; [done|apply S|by apply to_map_same|done].
  - intros Hen Hr Hn. pose proof Hd as [H0 _ _ Hph]. destruct Hph as [[? _]|(_ & He & _)]; [lia|].
    destruct (ok_shape _ H0) as [[? _]|[_ Hl]]; [lia|].
    pose proof (pow2_pos (ht_size_exp (ht0 d)) He).
    destruct (rehash_many_spec (length (ht_table (ht0 d))) n d Hd Hn Hr Hen) as (d' & E & S & Hi).
    + lia.
    + unfold DICTHT_SIZE. destruct (Z.eqb_spec (ht_size_exp (ht0 d)) (-1)); [lia|].
      rewrite Z.shiftl_1_l. lia.
    + exists d'. split_and!; [done|apply S|by apply to_map_same|done].
Qed.

Lemma clear_loop_spec (bs : list (list (dictEntry K V))) :
  clear_loop bs (Z.of_nat (length (concat bs))) = concat bs.
Proof using.
  induction bs as [|b bs IH]; [done|]. cbn [clear_loop concat].
  destruct (Z.ltb_spec 0 (Z.of_nat (length (b ++ concat bs)))) as [Hp|Hz].
  - rewrite length_app. replace (_ - _) with (Z.of_nat (length (concat bs))) by lia. by rewrite IH.
  - destruct (b ++ concat bs); [done|]. simpl in Hz. lia.
Qed.

(** [dictEmpty] frees every entry exactly once, in both tables, and leaves
    the empty dict. *)
Theorem dictEmpty_correct d : dict_ok d ->
  dictEmpty d = (dictCreate, elements d) /\ dict_ok (@dictCreate K V) /\
  to_map (@dictCreate K V) = ∅.
Proof using.
  intros [H0 H1 _ _]. split_and!.
  - unfold dictEmpty, _dictClear. simpl. rewrite (ok_used _ H0), (ok_used _ H1).
    unfold telems. by rewrite !clear_loop_spec.
  - split; [apply table_ok_reset|apply table_ok_reset|constructor|by left].
  - done.
Qed.

End Spec.

(** ** A concrete type and a dict in the middle of a rehashing *)

#[export] Instance intDictType : DictType Z := {
  hashFunction := wrap 64;
  keyCompare := Z.eqb;
  no_value := false;
  resizeAllowed := fun _ _ _ => true;
}.

#[export] Instance intDictTypeOk : DictTypeOk Z.
Proof.
  split; [intros; by apply wrap_range|]. intros a b. simpl. apply Z.eqb_eq.
Qed.

(** Keys 1, 2, 5 and 8: bucket 0 of four has moved to the eight new ones. *)
Definition d_rehashing : dict Z Z := Dict
  (Ht [[]; [Entry 5 (Some 50); Entry 1 (Some 10)]; [Entry 2 (Some 20)]; []] 3 2)
  (Ht [[Entry 8 (Some 80)]; []; []; []; []; []; []; []] 1 3)
  1 0 0.

Lemma forall_lookup {A} (P : nat -> A -> Prop) (l : list A) :
  Forall2 P (seq 0 (length l)) l -> forall i x, l !! i = Some x -> P i x.
Proof.
  intros HF i x Hx. rewrite Forall2_lookup in HF. specialize (HF i). rewrite Hx in HF.
  inversion HF as [j y HP E1 E2|]; subst. symmetry in E1. by apply lookup_seq in E1 as [-> _].
Qed.

Lemma d_rehashing_ok : dict_ok d_rehashing.
Proof.
  split.
  - split; [right; by vm_compute|done|]. apply (forall_lookup (fun i b => Forall (placed 2 i) b)).
    repeat constructor.
  - split; [right; by vm_compute|done|]. apply (forall_lookup (fun i b => Forall (placed 3 i) b)).
    repeat constructor.
  - apply (bool_decide_unpack _). vm_compute. done.
  - right. split_and!; [done|done|done|]. intros i b Hi Hb. simpl in Hi.
    assert (i = 0%nat) as -> by lia. by injection Hb as <-.
Qed.

Lemma dictFind_correct_witness :
  exists d' r e, dictFind DICT_RESIZE_ENABLE d_rehashing 2 = Ret (d', Some r) /\ deref d' r = Ret e /\
    val e = Some 20.
Proof.
  destruct (dictFind_correct DICT_RESIZE_ENABLE d_rehashing 2 d_rehashing_ok)
    as (d' & [r|] & E & _ & _ & H); [|by vm_compute in H].
  destruct H as (e & He & _ & Hv). exists d', r, e. split_and!; [done|done|].
  assert (to_map d_rehashing !! 2 = Some (Some 20)) as H2 by (by vm_compute). congruence.
Defined.

Lemma dictAdd_correct_witness :
  exists d', dictAdd DICT_RESIZE_ENABLE d_rehashing 9 90 = Ret (d', DICT_OK) /\
    to_map d' !! 9 = Some (Some 90).
Proof.
  destruct (dictAdd_correct DICT_RESIZE_ENABLE d_rehashing 9 90 d_rehashing_ok) as (d' & _ & H);
    [left; done|].
  replace (to_map d_rehashing !! 9) with (@None (option Z)) in H by (by vm_compute).
  destruct H as [E Hm]. exists d'. split; [done|]. rewrite Hm. apply lookup_insert_eq.
Defined.

Lemma dictReplace_correct_witness :
  exists d', dictReplace DICT_RESIZE_AVOID d_rehashing 5 51 = Ret (d', 0, Some (Some 50)) /\
    to_map d' !! 5 = Some (Some 51).
Proof.
  destruct (dictReplace_correct DICT_RESIZE_AVOID d_rehashing 5 51 d_rehashing_ok) as (d' & _ & Hm & E);
    [done|left; done|].
  replace (to_map d_rehashing !! 5) with (Some (Some 50)) in E by (by vm_compute).
  exists d'. split; [done|]. rewrite Hm. apply lookup_insert_eq.
Defined.

Lemma dictDelete_correct_witness :
  exists d', dictDelete DICT_RESIZE_ENABLE d_rehashing 8 = Ret (d', DICT_OK) /\ to_map d' !! 8 = None.
Proof.
  destruct (dictDelete_correct DICT_RESIZE_ENABLE d_rehashing 8 d_rehashing_ok)
    as [(d' & _ & Hm & _ & E) _].
  replace (to_map d_rehashing !! 8) with (Some (Some 80)) in E by (by vm_compute).
  exists d'. split; [done|]. rewrite Hm. apply lookup_delete_eq.
Defined.

Lemma dictRehash_correct_witness :
  exists d', rehash_many DICT_RESIZE_ENABLE 4 1 d_rehashing = Ret d' /\ rehashidx d' = -1 /\
    to_map d' = to_map d_rehashing.
Proof.
  destruct (dictRehash_correct DICT_RESIZE_ENABLE d_rehashing 1 d_rehashing_ok) as [_ H].
  destruct H as (d' & E & _ & Hm & Hi); [done|done|done|]. by exists d'.
Defined.

Lemma dictEmpty_correct_witness :
  snd (dictEmpty d_rehashing) =
    [Entry 5 (Some 50); Entry 1 (Some 10); Entry 2 (Some 20); Entry 8 (Some 80)].
Proof. destruct (dictEmpty_correct d_rehashing d_rehashing_ok) as [E _]. by rewrite E. Defined.

End Dict.
