(* ===== verification/DictScan.v ===== *)
(** * DictScan: the stateless cursor of dictScan (dict.c)

    [dictScan] increments a cursor from its high bit down: it reverses the
    bits, adds one and reverses again.  The guarantee, that an element present
    all along is returned whatever resizing and rehashing happens between the
    calls, is proved here by following [rev v], which only grows. *)
From S2P Require Import Prelude Dict.
Import Dict.

Module DictScan.

Definition ULONG_MAX : Z := 2 ^ 64 - 1.
Definition lnot64 (z : Z) : Z := Z.lxor z ULONG_MAX.

(** One turn of the loop of [rev], [s] already halved. *)
Definition rev_step (s mask v : Z) : Z :=
  Z.lor (Z.land (Z.shiftr v s) mask) (Z.land (u64 (Z.shiftl v s)) (lnot64 mask)).

Fixpoint rev_loop (fuel : nat) (s mask v : Z) : Z :=
  match fuel with
  | O => v
  | S fuel' =>
      let s := Z.shiftr s 1 in
      if 0 <? s then
        let mask := Z.lxor mask (u64 (Z.shiftl mask s)) in
        rev_loop fuel' s mask (rev_step s mask v)
      else v
  end.

(** The bit size is 64 and halves at every turn: seven are enough. *)
Definition rev (v : Z) : Z := rev_loop 7 64 ULONG_MAX v.

(** "Set unmasked bits so incrementing the reversed cursor operates on the
    masked bits", then the increment. *)
Definition next_cursor (v m : Z) : Z :=
  let v := Z.lor v (lnot64 m) in
  let v := rev v in
  let v := u64 (v + 1) in
  rev v.

Section Scan.
Context {K V : Type} `{DictType K}.

(** The do-while loop over the larger table: the entries given to the callback
    and the cursor.  Running out of fuel is reported as a failure. *)
Fixpoint scan_larger (fuel : nat) (t1 : ht K V) (m0 m1 v : Z)
  : outcome (list (dictEntry K V) * Z) :=
  match fuel with
  | O => Abort
  | S fuel' =>
      let* de := bucket t1 (Z.land v m1) in
      let v := next_cursor v m1 in
      if negb (Z.land v (Z.lxor m0 m1) =? 0) then
        let* (rest, v) := scan_larger fuel' t1 m0 m1 v in Ret (de ++ rest, v)
      else Ret (de, v)
  end.

(** [dictScan]: the entries in the order the callback sees them, and the next
    cursor.  Rehashing is paused for the time of the call. *)
Definition dictScan (d : dict K V) (v : Z) : outcome (list (dictEntry K V) * Z) :=
  if dictSize d =? 0 then Ret ([], 0)
  else if negb (dictIsRehashing d) then
    let m0 := DICTHT_SIZE_MASK (ht_size_exp (ht0 d)) in
    let* de := bucket (ht0 d) (Z.land v m0) in
    Ret (de, next_cursor v m0)
  else
    let '(t0, t1) :=
      if DICTHT_SIZE (ht_size_exp (ht1 d)) <? DICTHT_SIZE (ht_size_exp (ht0 d))
      then (ht1 d, ht0 d) else (ht0 d, ht1 d) in
    let m0 := DICTHT_SIZE_MASK (ht_size_exp t0) in
    let m1 := DICTHT_SIZE_MASK (ht_size_exp t1) in
    let* de := bucket t0 (Z.land v m0) in
    let* (rest, v) := scan_larger (length (ht_table t1)) t1 m0 m1 v in
    Ret (de ++ rest, v).

End Scan.

(** ** Bit reversal *)

(** Which bit of the argument a turn puts at [i]; the second component is
    whether there is one. *)
Definition source_bit (s mask i : Z) : Z * bool :=
  if Z.testbit mask i then (i + s, i + s <? 64) else (i - s, s <=? i).

Lemma rev_step_testbit s mask v i : 0 < s -> 0 <= i < 64 -> snd (source_bit s mask i) = true ->
  Z.testbit (rev_step s mask v) i = Z.testbit v (fst (source_bit s mask i)).
Proof.
  intros Hs Hi. unfold rev_step, lnot64, source_bit.
  rewrite Z.lor_spec, !Z.land_spec, Z.shiftr_spec, Z.lxor_spec by lia.
  unfold ULONG_MAX. rewrite ones_pow2, Z.ones_spec_low by lia.
  unfold wrap. rewrite Z.mod_pow2_bits_low, Z.shiftl_spec by lia.
  destruct (Z.testbit mask i); simpl; by rewrite ?andb_true_r, ?andb_false_r, ?orb_false_r.
Qed.

(** The six turns, with the masks the loop computes. *)
Definition turns : list (Z * Z) :=
  [(1, 0x5555555555555555); (2, 0x3333333333333333); (4, 0x0f0f0f0f0f0f0f0f);
   (8, 0x00ff00ff00ff00ff); (16, 0x0000ffff0000ffff); (32, 0x00000000ffffffff)].

Lemma rev_turns v : rev v = foldr (fun t v => rev_step (fst t) (snd t) v) v turns.
Proof. reflexivity. Qed.

Fixpoint trace (ts : list (Z * Z)) (i : Z) : Z * bool :=
  match ts with
  | [] => (i, true)
  | t :: ts =>
      let '(j, ok) := source_bit (fst t) (snd t) i in
      let '(r, oks) := trace ts j in
      (r, ok && oks)
  end.

Lemma trace_testbit ts v i : Forall (fun t => 0 < fst t) ts -> 0 <= i < 64 ->
  snd (trace ts i) = true ->
  Z.testbit (foldr (fun t v => rev_step (fst t) (snd t) v) v ts) i = Z.testbit v (fst (trace ts i)).
Proof.
  intros Hts. revert i. induction Hts as [|[s m] ts Hs _ IH]; intros i Hi; cbn [trace foldr]; [done|].
  cbn [fst snd] in *. pose proof (rev_step_testbit s m (foldr (fun t v => rev_step (fst t) (snd t) v) v ts) i Hs Hi) as Hr.
  assert (snd (source_bit s m i) = true -> 0 <= fst (source_bit s m i) < 64) as Hb.
  { unfold source_bit. destruct (Z.testbit m i); simpl; intros; zbool; lia. }
  destruct (source_bit s m i) as [j ok]. simpl in Hr, Hb.
  specialize (IH j). destruct (trace ts j) as [r oks]. simpl in *.
  intros [-> ->]%andb_true_iff. rewrite Hr by done. auto.
Qed.

Lemma rev_testbit v i : 0 <= i < 64 -> Z.testbit (rev v) i = Z.testbit v (63 - i).
Proof.
  intros Hi. pose proof (range_check (fun i => let '(r, ok) := trace turns i in ok && (r =? 63 - i)) 64
    ltac:(vm_compute; reflexivity) i Hi) as Ht. cbv beta in Ht.
  rewrite rev_turns, trace_testbit; [|repeat constructor|done|];
    destruct (trace turns i) as [r ok]; apply andb_true_iff in Ht as [-> Hr]; [|done].
  simpl. f_equal. lia.
Qed.

Lemma rev_range v : in_u 64 (rev v).
Proof.
  apply in_u_bits; [lia|]. intros i Hi. rewrite rev_turns. simpl. unfold rev_step at 1. simpl.
  rewrite Z.lor_spec, !Z.land_spec. rewrite (testbit_above 64 0x5555555555555555) by (done || lia).
  rewrite andb_false_r. simpl.
  rewrite (testbit_above 64 (wrap 64 _)) by (done || by apply wrap_range). done.
Qed.

Lemma rev_involutive v : in_u 64 v -> rev (rev v) = v.
Proof.
  intros Hv. apply (word_ext 64); [apply rev_range|done|]. intros i Hi.
  rewrite !rev_testbit by lia. f_equal. lia.
Qed.

(** ** Buckets in reversed order *)

Lemma div_pow2_testbit z n i : 0 <= n -> 0 <= i -> Z.testbit (z / 2 ^ n) i = Z.testbit z (i + n).
Proof. intros. rewrite <- Z.shiftr_div_pow2, Z.shiftr_spec by lia. done. Qed.

Lemma div_pow2_range w z n : 0 <= n <= w -> in_u w z -> in_u (w - n) (z / 2 ^ n).
Proof.
  intros Hn Hz. unfold in_u in *. pose proof (pow2_pos n ltac:(lia)).
  split; [apply Z.div_pos; lia|]. apply Z.div_lt_upper_bound; [done|].
  rewrite <- Z.pow_add_r by lia. replace (n + (w - n)) with w by lia. lia.
Qed.

(** Two words share a bucket of a table of [2 ^ e] exactly when their reversals
    share the high [e] bits. *)
Lemma same_bucket e v h : 0 <= e <= 64 -> 
  v mod 2 ^ e = h mod 2 ^ e <-> rev v / 2 ^ (64 - e) = rev h / 2 ^ (64 - e).
Proof.
  intros He. split; intros E.
  - apply (word_ext e).
    1,2: replace e with (64 - (64 - e)) at 1 by lia; apply div_pow2_range; [lia|apply rev_range].
    intros i Hi. rewrite !div_pow2_testbit, !rev_testbit by lia.
    rewrite <- (Z.mod_pow2_bits_low v e), <- (Z.mod_pow2_bits_low h e) by lia. by rewrite E.
  - apply (word_ext e); [by apply wrap_range; lia..|]. intros i Hi.
    rewrite !Z.mod_pow2_bits_low by lia.
    assert (forall z, Z.testbit z i = Z.testbit (rev z / 2 ^ (64 - e)) (e - 1 - i)) as Hz.
    { intros z. rewrite div_pow2_testbit, rev_testbit by lia. f_equal. lia. }
    by rewrite (Hz v), (Hz h), E.
Qed.

(** Setting the unmasked bits fills the low bits of the reversal. *)
Lemma rev_set_unmasked v e : in_u 64 v -> 0 <= e <= 64 ->
  rev (Z.lor v (lnot64 (2 ^ e - 1))) + 1 = (rev v / 2 ^ (64 - e) + 1) * 2 ^ (64 - e).
Proof.
  intros Hv He. set (n := 64 - e). pose proof (pow2_pos n ltac:(lia)).
  assert (rev (Z.lor v (lnot64 (2 ^ e - 1))) = rev v / 2 ^ n * 2 ^ n + (2 ^ n - 1)) as ->; [|lia].
  assert (Z.lor (2 ^ n - 1) (Z.shiftl (rev v / 2 ^ n) n) = 2 ^ n - 1 + rev v / 2 ^ n * 2 ^ n) as El.
  { apply lor_shiftl; lia. }
  rewrite Z.add_comm, <- El. apply (word_ext 64); [apply rev_range| |].
  - rewrite El. pose proof (div_pow2_range 64 (rev v) n ltac:(lia) (rev_range v)) as Hd.
    unfold in_u in *. assert (2 ^ 64 = 2 ^ (64 - n) * 2 ^ n) as ->.
    { rewrite <- Z.pow_add_r by lia. f_equal. lia. }
    nia.
  - intros i Hi. rewrite rev_testbit, !Z.lor_spec by lia. unfold lnot64, ULONG_MAX.
    rewrite Z.lxor_spec, !ones_pow2, (Z.ones_spec_low 64) by lia.
    rewrite !Z.testbit_ones by lia. destruct (Z.lt_ge_cases i n).
    + rewrite (Z.shiftl_spec_low _ n i) by lia.
      rewrite (proj2 (Z.ltb_ge (63 - i) e)), (proj2 (Z.ltb_lt i n)), (proj2 (Z.leb_le 0 i)),
        andb_false_r by lia. simpl. by rewrite orb_true_r.
    + rewrite Z.shiftl_spec_high, div_pow2_testbit, rev_testbit by lia.
      rewrite (proj2 (Z.ltb_lt (63 - i) e)), (proj2 (Z.leb_le 0 (63 - i))), (proj2 (Z.ltb_ge i n)),
        andb_false_r by lia. simpl. rewrite orb_false_r. f_equal. lia.
Qed.

Lemma rev_next_cursor v e : in_u 64 v -> 0 <= e <= 64 ->
  rev (next_cursor v (2 ^ e - 1)) = ((rev v / 2 ^ (64 - e) + 1) * 2 ^ (64 - e)) mod 2 ^ 64.
Proof.
  intros Hv He. unfold next_cursor. rewrite rev_set_unmasked by done.
  rewrite rev_involutive by (by apply wrap_range). done.
Qed.

Lemma next_cursor_range v m : in_u 64 (next_cursor v m).
Proof. apply rev_range. Qed.

(** The loop condition: the bits that only the larger mask covers. *)
Lemma mask_difference v e0 e1 : 0 <= e0 <= e1 -> e1 <= 64 ->
  Z.land v (Z.lxor (2 ^ e0 - 1) (2 ^ e1 - 1)) = 0 <->
  (rev v / 2 ^ (64 - e1)) mod 2 ^ (e1 - e0) = 0.
Proof.
  intros He He1.
  assert (forall i, 0 <= i -> Z.testbit (Z.lxor (2 ^ e0 - 1) (2 ^ e1 - 1)) i
    = ((e0 <=? i) && (i <? e1))) as Hm.
  { intros i Hi. rewrite Z.lxor_spec, !ones_pow2, !Z.testbit_ones_nonneg by lia.
    destruct (Z.ltb_spec i e0), (Z.ltb_spec i e1), (Z.leb_spec e0 i); simpl; done || lia. }
  split; intros E.
  - apply (word_ext (e1 - e0)); [apply wrap_range; lia|unfold in_u; pose proof (pow2_pos (e1 - e0)); lia|].
    intros i Hi. rewrite Z.mod_pow2_bits_low, div_pow2_testbit, rev_testbit, Z.bits_0 by lia.
    apply (f_equal (fun z => Z.testbit z (63 - (i + (64 - e1))))) in E.
    rewrite Z.land_spec, Hm, Z.bits_0 in E by lia.
    destruct (Z.leb_spec e0 (63 - (i + (64 - e1)))); [|lia].
    destruct (Z.ltb_spec (63 - (i + (64 - e1))) e1); [|lia]. by rewrite andb_true_r in E.
  - apply Z.bits_inj'. intros i Hi. rewrite Z.land_spec, Hm, Z.bits_0 by lia.
    destruct (Z.leb_spec e0 i), (Z.ltb_spec i e1); simpl; rewrite ?andb_false_r; try done.
    apply (f_equal (fun z => Z.testbit z (e1 - 1 - i))) in E.
    rewrite Z.mod_pow2_bits_low, div_pow2_testbit, rev_testbit, Z.bits_0 in E by lia.
    rewrite andb_true_r, <- E. f_equal. lia.
Qed.

Lemma succ_div_mod a k : 0 <= a -> 0 < k ->
  (a + 1) mod k = 0 /\ (a / k + 1) * k = a + 1 \/
  (a + 1) mod k = a mod k + 1 /\ (a + 1) / k = a / k.
Proof.
  intros Ha Hk. pose proof (Z.div_mod a k ltac:(lia)). pose proof (Z.mod_pos_bound a k Hk).
  destruct (Z.eq_dec (a mod k) (k - 1)).
  - left. assert (a + 1 = (a / k + 1) * k) as E by lia. rewrite E at 1.
    by rewrite Z.mod_mul by lia.
  - right. split.
    + symmetry. apply (Z.mod_unique_pos _ _ (a / k)); lia.
    + symmetry. apply (Z.div_unique_pos _ _ _ (a mod k + 1)); lia.
Qed.

(** ** What one call returns *)

Section ScanSpec.
Context {K V : Type} `{EqK : EqDecision K, CK : !Countable K, DT : DictType K, DTok : !DictTypeOk K}.
Implicit Types (d : dict K V) (t : ht K V) (x : dictEntry K V).

(** The place of an entry in the order of the scan. *)
Definition rank x : Z := rev (hashFunction (key x)).

Lemma scan_bucket t v : table_ok t -> 0 <= ht_size_exp t ->
  exists b, bucket t (Z.land v (DICTHT_SIZE_MASK (ht_size_exp t))) = Ret b /\
    (forall x, x ∈ b -> x ∈ telems t) /\
    (forall x, x ∈ telems t ->
       rank x / 2 ^ (64 - ht_size_exp t) = rev v / 2 ^ (64 - ht_size_exp t) -> x ∈ b).
Proof using.
  intros Ht He. rewrite mask_mod by done.
  destruct (bucket_total t v Ht He) as (b & Hb & _). exists b. split; [done|].
  split; [intros x; by apply bucket_telems with (1 := Hb)|].
  intros x Hx Hr. destruct (elem_of_telems t x Ht Hx) as (_ & b' & Hb' & Hin).
  destruct (ok_shape _ Ht) as [[? _]|[? _]]; [lia|].
  unfold rank in Hr. apply same_bucket in Hr; [|lia]. rewrite Hr, Hb in Hb'. by injection Hb' as <-.
Qed.

Lemma mask_pow2 e : 0 <= e -> DICTHT_SIZE_MASK e = 2 ^ e - 1.
Proof using.
  intros He. unfold DICTHT_SIZE_MASK, DICTHT_SIZE. destruct (Z.eqb_spec e (-1)); [lia|].
  by rewrite Z.shiftl_1_l.
Qed.

(** The turns of the do-while loop, counted by [a], the high bits of the
    reversed cursor: they visit the ranks up to the next multiple of [k]. *)
Lemma scan_larger_spec fuel t e0 v : table_ok t -> 0 <= e0 <= ht_size_exp t -> in_u 64 v ->
  let q := 2 ^ (64 - ht_size_exp t) in
  let k := 2 ^ (ht_size_exp t - e0) in
  let a := rev v / q in
  k - a mod k <= Z.of_nat fuel ->
  exists es v', scan_larger fuel t (DICTHT_SIZE_MASK e0) (DICTHT_SIZE_MASK (ht_size_exp t)) v
      = Ret (es, v') /\ in_u 64 v' /\ rev v' = ((a / k + 1) * k * q) mod 2 ^ 64 /\
    (forall x, x ∈ es -> x ∈ telems t) /\
    (forall x, x ∈ telems t -> a <= rank x / q < (a / k + 1) * k -> x ∈ es).
Proof using.
  intros Ht He. revert v. induction fuel as [|fuel IH]; intros v Hv q k a Hf.
  { pose proof (Z.mod_pos_bound a k ltac:(apply pow2_pos; lia)). lia. }
  assert (ht_size_exp t <= 60) as He60 by (destruct (ok_shape _ Ht) as [[? _]|[? _]]; lia).
  cbn [scan_larger].
  destruct (scan_bucket t v Ht ltac:(lia)) as (b & -> & Hsub & Hall). cbn [obind].
  set (v1 := next_cursor v _).
  assert (rev v1 = ((a + 1) * q) mod 2 ^ 64) as Hv1.
  { unfold v1. rewrite mask_pow2 by lia. apply rev_next_cursor; [done|lia]. }
  assert (0 < q) as Hq by (apply pow2_pos; lia). assert (0 < k) as Hk by (apply pow2_pos; lia).
  assert (2 ^ 64 = 2 ^ e0 * k * q) as E64.
  { unfold k, q. rewrite <- !Z.pow_add_r by lia. f_equal. lia. }
  assert (0 <= a < 2 ^ e0 * k) as Ha.
  { pose proof (rev_range v) as Hr. unfold in_u in Hr. unfold a.
    split; [apply Z.div_pos; lia|]. apply Z.div_lt_upper_bound; [lia|]. lia. }
  pose proof (pow2_pos e0 ltac:(lia)) as Hp0.
  assert (rev v1 / q = (a + 1) mod (2 ^ e0 * k)) as Ea1.
  { rewrite Hv1, E64, Z.mul_mod_distr_r by lia. by rewrite Z.div_mul by lia. }
  assert (((a + 1) mod (2 ^ e0 * k)) mod k = (a + 1) mod k) as Emk.
  { rewrite (Z.mul_comm (2 ^ e0) k), Z.rem_mul_r by lia.
    by rewrite (Z.mul_comm k), Z.mod_add, Zmod_mod by lia. }
  rewrite !mask_pow2 in * by lia.
  pose proof (mask_difference v1 e0 (ht_size_exp t) ltac:(lia) ltac:(lia)) as Hcond.
  fold q k in Hcond. rewrite Ea1, Emk in Hcond.
  destruct (succ_div_mod a k ltac:(lia) Hk) as [[E0 Ek]|[Em Ed]].
  - rewrite (proj2 Hcond E0). cbn [negb Z.eqb]. exists b, v1. rewrite Ek.
    split_and!; [done|apply next_cursor_range|done|done|].
    intros x Hx Hr. apply Hall; [done|]. fold q a. lia.
  - pose proof (Z.mod_pos_bound a k Hk).
    destruct (Z.eqb_spec (Z.land v1 (Z.lxor (2 ^ e0 - 1) (2 ^ ht_size_exp t - 1))) 0) as [Ez|_];
      [apply Hcond in Ez; lia|]. cbn [negb].
    assert (rev v1 / q = a + 1) as Ea.
    { rewrite Ea1. apply Z.mod_small. destruct (Z.eq_dec (a + 1) (2 ^ e0 * k)) as [E|]; [|lia].
      rewrite E, Z.mod_mul in Em by lia. lia. }
    destruct (IH v1 (next_cursor_range _ _)) as (es & v' & -> & Hv' & Er & Hs1 & Ha1).
    { fold q k. rewrite Ea, Em. lia. }
    fold q k in Er, Ha1. rewrite Ea, Ed in Er, Ha1. cbn [obind].
    exists (b ++ es), v'. split_and!; [done|done|done| |].
    + intros x [?|?]%elem_of_app; auto.
    + intros x Hx Hr. apply elem_of_app. destruct (Z.eq_dec (rank x / q) a); [left; by apply Hall|].
      right. apply Ha1; [done|lia].
Qed.

(** The cursor after a window of [2 ^ (64 - e)] ranks. *)
Lemma window v v' e : in_u 64 v' -> 0 <= e <= 64 ->
  rev v' = ((rev v / 2 ^ (64 - e) + 1) * 2 ^ (64 - e)) mod 2 ^ 64 ->
  (v' = 0 \/ rev v < rev v') /\ (rev v' mod 2 ^ (64 - e) = 0) /\
  forall r, rev v <= r < 2 ^ 64 -> v' = 0 \/ r < rev v' ->
    r < (rev v / 2 ^ (64 - e) + 1) * 2 ^ (64 - e).
Proof using.
  intros Hv' He Hr. set (p := 2 ^ (64 - e)) in *. set (c := rev v / p) in *.
  assert (0 < p) as Hp by (apply pow2_pos; lia). pose proof (rev_range v) as Hv. unfold in_u in Hv.
  assert (2 ^ 64 = 2 ^ e * p) as E64 by (unfold p; rewrite <- Z.pow_add_r by lia; f_equal; lia).
  pose proof (Z.div_mod (rev v) p ltac:(lia)) as Ed. fold c in Ed.
  pose proof (Z.mod_pos_bound (rev v) p Hp) as Em.
  assert (0 <= c < 2 ^ e) as Hc.
  { unfold c. split; [apply Z.div_pos; lia|]. apply Z.div_lt_upper_bound; lia. }
  rewrite E64, Z.mul_mod_distr_r in Hr by lia.
  destruct (Z.eq_dec (c + 1) (2 ^ e)) as [E|E].
  - rewrite E, Z.mod_same in Hr by lia. rewrite E. split_and!; [left|by rewrite Hr, Z.mod_0_l by lia|lia].
    rewrite <- (rev_involutive v' Hv'). by rewrite Hr.
  - rewrite Z.mod_small in Hr by lia. rewrite Hr, Z.mod_mul by lia.
    split_and!; [right; lia|done|]. intros r Hlt [->|?]; [|lia].
    change (rev 0) with 0 in Hr. nia.
Qed.

Lemma rank_range x : 0 <= rank x < 2 ^ 64.
Proof using. apply rev_range. Qed.

(** Both tables of a rehashing dict, the smaller first. *)
Lemma scan_two_tables t0 t1 v : table_ok t0 -> table_ok t1 -> in_u 64 v ->
  0 <= ht_size_exp t0 <= ht_size_exp t1 ->
  exists b es v',
    bucket t0 (Z.land v (DICTHT_SIZE_MASK (ht_size_exp t0))) = Ret b /\
    scan_larger (length (ht_table t1)) t1 (DICTHT_SIZE_MASK (ht_size_exp t0))
      (DICTHT_SIZE_MASK (ht_size_exp t1)) v = Ret (es, v') /\
    in_u 64 v' /\ (v' = 0 \/ rev v < rev v') /\ rev v' mod 2 ^ (64 - ht_size_exp t0) = 0 /\
    (forall x, x ∈ b -> x ∈ telems t0) /\ (forall x, x ∈ es -> x ∈ telems t1) /\
    (forall x, rev v <= rank x -> v' = 0 \/ rank x < rev v' ->
       (x ∈ telems t0 -> x ∈ b) /\ (x ∈ telems t1 -> x ∈ es)).
Proof using.
  intros H0 H1 Hv He. destruct (scan_bucket t0 v H0 ltac:(lia)) as (b & Hb & Hs0 & Ha0).
  destruct (ok_shape _ H1) as [[? _]|[He1 Hl]]; [lia|].
  destruct (scan_larger_spec (length (ht_table t1)) t1 (ht_size_exp t0) v H1 He Hv)
    as (es & v' & Hes & Hv' & Er & Hs1 & Ha1).
  { pose proof (Z.mod_pos_bound (rev v / 2 ^ (64 - ht_size_exp t1))
      (2 ^ (ht_size_exp t1 - ht_size_exp t0)) ltac:(apply pow2_pos; lia)).
    pose proof (Z.pow_le_mono_r 2 (ht_size_exp t1 - ht_size_exp t0) (ht_size_exp t1)). lia. }
  set (q := 2 ^ (64 - ht_size_exp t1)) in *. set (k := 2 ^ (ht_size_exp t1 - ht_size_exp t0)) in *.
  set (p := 2 ^ (64 - ht_size_exp t0)) in *.
  assert (p = k * q) as Ep by (unfold p, k, q; rewrite <- Z.pow_add_r by lia; f_equal; lia).
  assert (0 < q) by (apply pow2_pos; lia). assert (0 < k) by (apply pow2_pos; lia).
  assert (rev v / q / k = rev v / p) as Ec by (rewrite Z.div_div, Ep by lia; f_equal; lia).
  rewrite Ec, <- Z.mul_assoc, <- Ep in Er. rewrite Ec in Ha1.
  destruct (window v v' (ht_size_exp t0) Hv' ltac:(lia) Er) as (Hmono & Hmul & Hwin). fold p in Hmul, Hwin.
  exists b, es, v'. split_and!; try done. intros x Hx Hlt.
  pose proof (rank_range x) as Hrx. specialize (Hwin (rank x) ltac:(lia) Hlt). split; intros Hin.
  - apply Ha0; [done|]. fold p. pose proof (Z.div_mod (rev v) p ltac:(lia)).
    pose proof (Z.mod_pos_bound (rev v) p ltac:(lia)).
    symmetry. apply (Z.div_unique_pos _ _ _ (rank x - p * (rev v / p))); lia.
  - apply Ha1; [done|]. split; [apply Z.div_le_mono; lia|]. apply Z.div_lt_upper_bound; [lia|].
    set (c := rev v / p) in *. rewrite Ep in Hwin. lia.
Qed.

(** The exponent of the smaller table a call looks at. *)
Definition scan_exp d : Z :=
  if dictIsRehashing d then Z.min (ht_size_exp (ht0 d)) (ht_size_exp (ht1 d))
  else ht_size_exp (ht0 d).

(** The choice of the smaller table. *)
Lemma order_tables d : dict_ok d -> dictIsRehashing d = true ->
  exists t0 t1,
    (if DICTHT_SIZE (ht_size_exp (ht1 d)) <? DICTHT_SIZE (ht_size_exp (ht0 d))
     then (ht1 d, ht0 d) else (ht0 d, ht1 d)) = (t0, t1) /\
    table_ok t0 /\ table_ok t1 /\ 0 <= ht_size_exp t0 <= ht_size_exp t1 /\
    scan_exp d = ht_size_exp t0 /\
    forall x, x ∈ elements d <-> x ∈ telems t0 \/ x ∈ telems t1.
Proof using.
  intros [H0 H1 _ Hph] Er. unfold scan_exp. rewrite Er. unfold dictIsRehashing in Er. zbool.
  destruct Hph as [[? _]|(_ & He0 & He1 & _)]; [lia|].
  assert (forall e, 0 <= e -> DICTHT_SIZE e = 2 ^ e) as Hsz.
  { intros e He. unfold DICTHT_SIZE. destruct (Z.eqb_spec e (-1)); [lia|]. by rewrite Z.shiftl_1_l. }
  rewrite !Hsz by done. unfold elements.
  destruct (Z.ltb_spec (2 ^ ht_size_exp (ht1 d)) (2 ^ ht_size_exp (ht0 d))) as [Hlt|Hge].
  - apply Z.pow_lt_mono_r_iff in Hlt; [|lia|lia]. exists (ht1 d), (ht0 d).
    split_and!; try done; try lia. intros x. rewrite elem_of_app. tauto.
  - apply Z.pow_le_mono_r_iff in Hge; [|lia|lia]. exists (ht0 d), (ht1 d).
    split_and!; try done; try lia. intros x. rewrite elem_of_app. tauto.
Qed.

(** One table: the single bucket of the cursor. *)
Lemma scan_one_table t v : table_ok t -> 0 <= ht_size_exp t -> in_u 64 v ->
  let v' := next_cursor v (DICTHT_SIZE_MASK (ht_size_exp t)) in
  exists b, bucket t (Z.land v (DICTHT_SIZE_MASK (ht_size_exp t))) = Ret b /\
    (v' = 0 \/ rev v < rev v') /\ rev v' mod 2 ^ (64 - ht_size_exp t) = 0 /\
    (forall x, x ∈ b -> x ∈ telems t) /\
    (forall x, x ∈ telems t -> rev v <= rank x -> v' = 0 \/ rank x < rev v' -> x ∈ b).
Proof using.
  intros Ht He Hv v'. destruct (ok_shape _ Ht) as [[? _]|[He60 _]]; [lia|].
  destruct (scan_bucket t v Ht He) as (b & Hb & Hs0 & Ha0).
  pose proof (rev_next_cursor v (ht_size_exp t) Hv ltac:(lia)) as Hr.
  rewrite <- mask_pow2 in Hr by done. fold v' in Hr.
  destruct (window v v' (ht_size_exp t) (next_cursor_range _ _) ltac:(lia) Hr) as (Hm & Hmul & Hw).
  exists b. split_and!; try done. intros x Hx Hge Hl.
  pose proof (rank_range x). specialize (Hw (rank x) ltac:(lia) Hl).
  set (p := 2 ^ (64 - ht_size_exp t)) in *. assert (0 < p) by (apply pow2_pos; lia).
  pose proof (Z.div_mod (rev v) p ltac:(lia)). pose proof (Z.mod_pos_bound (rev v) p ltac:(lia)).
  apply Ha0; [done|]. symmetry. apply (Z.div_unique_pos _ _ _ (rank x - p * (rev v / p))); lia.
Qed.

(** One call: the cursor moves on in the reversed order, and every entry whose
    rank lies between the two cursors is returned. *)
Lemma dictScan_spec d v : dict_ok d -> in_u 64 v ->
  exists es v', dictScan d v = Ret (es, v') /\ in_u 64 v' /\
    (forall x, x ∈ es -> x ∈ elements d) /\
    (v' = 0 \/ rev v < rev v' /\ rev v' mod 2 ^ (64 - scan_exp d) = 0) /\
    (forall x, x ∈ elements d -> rev v <= rank x -> v' = 0 \/ rank x < rev v' -> x ∈ es).
Proof using.
  intros Hd Hv. pose proof Hd as [H0 H1 _ Hph]. unfold dictScan.
  destruct (Z.eqb_spec (dictSize d) 0) as [Hz|Hnz].
  { exists [], 0. split_and!; [done|done|by intros ? ?%not_elem_of_nil|by left|]. intros x Hx.
    unfold dictSize in Hz. rewrite (ok_used _ H0), (ok_used _ H1) in Hz. unfold elements in Hx.
    destruct (telems (ht0 d)), (telems (ht1 d)); simpl in *; (by apply not_elem_of_nil in Hx) || lia. }
  destruct (dictIsRehashing d) eqn:Er; cbn [negb].
  - destruct (order_tables d Hd Er) as (t0 & t1 & -> & Ht0 & Ht1 & He & -> & Hel).
    destruct (scan_two_tables t0 t1 v Ht0 Ht1 Hv He)
      as (b & es & v' & -> & E2 & Hv' & Hm & Hmul & Hs0 & Hs1 & Hall).
    cbn [obind]. rewrite E2. cbn [obind]. exists (b ++ es), v'.
    split_and!; [done|done| |by destruct Hm; [left|right]|]; intros x; rewrite elem_of_app, Hel.
    + intros [?|?]; auto.
    + intros Hx Hr Hl. destruct (Hall x Hr Hl). tauto.
  - unfold scan_exp. rewrite Er. destruct (scan_one_table (ht0 d) v H0 (nonempty_exp d Hd Hnz) Hv)
      as (b & -> & Hm & Hmul & Hs & Hall). cbn [obind].
    assert (elements d = telems (ht0 d)) as ->.
    { apply not_rehashing in Er; [|done]. destruct Hph as [[_ E1]|?]; [|lia].
      unfold elements. rewrite E1. unfold telems at 2. simpl. by rewrite app_nil_r. }
    eexists _, _. split_and!; [done|apply next_cursor_range|done|by destruct Hm; [left|right]|done].
Qed.

(** ** Whole scans *)

(** Successive calls, on whatever dict the client finds at each call: the
    entries returned by each, and the last cursor. *)
Fixpoint scan_calls (ds : list (dict K V)) (v : Z) : outcome (list (dictEntry K V) * Z) :=
  match ds with
  | [] => Ret ([], v)
  | d :: ds =>
      let* (es, v) := dictScan d v in
      let* (rest, v) := scan_calls ds v in Ret (es ++ rest, v)
  end.

Lemma rank_zero z : rev 0 <= rev z.
Proof using. change (rev 0) with 0. apply rev_range. Qed.

Lemma scan_calls_cover ds v k es : Forall dict_ok ds -> in_u 64 v ->
  (forall d, d ∈ ds -> exists x, x ∈ elements d /\ key x = k) ->
  rev v <= rev (hashFunction k) -> scan_calls ds v = Ret (es, 0) -> v <> 0 \/ ds <> [] ->
  exists x, x ∈ es /\ key x = k.
Proof using.
  revert v es. induction ds as [|d ds IH]; intros v es Hok Hv Hin Hr Hs Hne.
  { simpl in Hs. injection Hs as <- ->. by destruct Hne. }
  inversion_clear Hok as [|? ? Hd Hds]. cbn [scan_calls] in Hs.
  destruct (dictScan_spec d v Hd Hv) as (es1 & v1 & E1 & Hv1 & _ & Hm & Hall). rewrite E1 in Hs.
  cbn [obind] in Hs. destruct (scan_calls ds v1) as [|[es2 v2]] eqn:E2; [done|].
  injection Hs as <- ->. destruct (Hin d) as (x & Hx & Hk); [by left|].
  assert (rank x = rev (hashFunction k)) as Ek by (unfold rank; by rewrite Hk).
  destruct (decide (v1 = 0 \/ rank x < rev v1)) as [Hnow|Hlater].
  { exists x. split; [|done]. apply elem_of_app. left. apply Hall; [done|lia|done]. }
  destruct (IH v1 es2) as (y & Hy & Hyk); [done|done| |lia|done|by left; intros E; apply Hlater; left|].
  { intros d' Hd'. apply Hin. by right. }
  exists y. split; [|done]. apply elem_of_app. by right.
Qed.

(** C17: the guarantee of dictScan.  Take a complete scan, from cursor 0 until
    cursor 0 is returned again, over any sequence of well-formed states of the
    dict, grown, shrunk or half rehashed between the calls in any way.  A key
    that is there at every call is returned by at least one of them. *)
Theorem dictScan_complete ds k es : ds <> [] -> Forall dict_ok ds ->
  (forall d, d ∈ ds -> is_Some (to_map d !! k)) ->
  scan_calls ds 0 = Ret (es, 0) ->
  exists x, x ∈ es /\ key x = k.
Proof using.
  intros Hne Hok Hin Hs. eapply (scan_calls_cover ds 0); [done|done| |apply rank_zero|done|by right].
  intros d Hd. destruct (Hin d Hd) as [o Ho]. apply elem_of_list_to_map_2 in Ho.
  apply list_elem_of_fmap in Ho as (x & [= -> _] & Hx). by exists x.
Qed.

Lemma scan_calls_end e ds v m : 0 <= e <= 64 -> in_u 64 v ->
  Forall (fun d => dict_ok d /\ scan_exp d <= e) ds ->
  m * 2 ^ (64 - e) <= rev v -> 2 ^ e <= m + Z.of_nat (length ds) ->
  exists ds1 ds2 es, ds = ds1 ++ ds2 /\ ds1 <> [] /\ scan_calls ds1 v = Ret (es, 0).
Proof using.
  intros He. assert (2 ^ 64 = 2 ^ e * 2 ^ (64 - e)) as E64.
  { rewrite <- Z.pow_add_r by lia. f_equal. lia. }
  pose proof (pow2_pos (64 - e) ltac:(lia)) as Hp.
  revert v m. induction ds as [|d ds IH]; intros v m Hv Hok Hm Hl.
  { pose proof (rev_range v) as Hr. unfold in_u in Hr. simpl in Hl. nia. }
  inversion_clear Hok as [|? ? [Hd Hex] Hds].
  destruct (dictScan_spec d v Hd Hv) as (es1 & v1 & E1 & Hv1 & _ & Hmono & _).
  destruct (Z.eq_dec v1 0) as [->|Hnz].
  { exists [d], ds, (es1 ++ []). split_and!; [done|done|]. cbn [scan_calls]. by rewrite E1. }
  destruct Hmono as [?|[Hlt Hmul]]; [done|].
  assert ((m + 1) * 2 ^ (64 - e) <= rev v1) as Hm1.
  { replace (64 - scan_exp d) with ((64 - e) + (e - scan_exp d)) in Hmul by lia.
    rewrite Z.pow_add_r in Hmul by lia. apply Z.mod_divide in Hmul as [c Hc];
      [|pose proof (pow2_pos (e - scan_exp d)); nia].
    set (p := 2 ^ (64 - e)) in *. set (r := 2 ^ (e - scan_exp d)) in *.
    assert (m < c * r) by nia. nia. }
  destruct (IH v1 (m + 1) Hv1 Hds Hm1) as (ds1 & ds2 & es & -> & _ & E2); [simpl in Hl; lia|].
  exists (d :: ds1), ds2, (es1 ++ es). split_and!; [done|done|].
  cbn [scan_calls]. rewrite E1. cbn [obind]. by rewrite E2.
Qed.

(** Scans end.  As long as the tables a scan meets have at most [2 ^ e]
    buckets (the smaller of the two while rehashing), cursor 0 comes back
    within [2 ^ e] calls, however the dict changes between them. *)
Theorem dictScan_terminates e ds : 0 <= e <= 64 ->
  Forall (fun d => dict_ok d /\ scan_exp d <= e) ds -> 2 ^ e <= Z.of_nat (length ds) ->
  exists ds1 ds2 es, ds = ds1 ++ ds2 /\ ds1 <> [] /\ scan_calls ds1 0 = Ret (es, 0).
Proof using.
  intros He Hok Hl. apply (scan_calls_end e ds 0 0 He); [done|done| |lia].
  rewrite Z.mul_0_l. apply rev_range.
Qed.

End ScanSpec.

(** ** A scan across a rehashing *)

(** The same keys before the rehashing and after it. *)
Definition d_before : dict Z Z := Dict
  (Ht [[Entry 8 (Some 80)]; [Entry 5 (Some 50); Entry 1 (Some 10)]; [Entry 2 (Some 20)]; []] 4 2)
  _dictReset (-1) 0 0.

Lemma d_before_ok : dict_ok d_before.
Proof.
  split.
  - split; [right; by vm_compute|done|]. apply (forall_lookup (fun i b => Forall (placed 2 i) b)).
    repeat constructor.
  - apply table_ok_reset.
  - apply (bool_decide_unpack _). vm_compute. done.
  - by left.
Qed.

Lemma dictScan_complete_witness :
  exists es, scan_calls [d_before; d_rehashing; d_before; d_rehashing] 0 = Ret (es, 0) /\
    exists x, x ∈ es /\ key x = 5.
Proof.
  eexists. split; [vm_compute; reflexivity|].
  eapply (dictScan_complete [d_before; d_rehashing; d_before; d_rehashing] 5).
  - done.
  - rewrite !Forall_cons. split_and!; apply d_before_ok || apply d_rehashing_ok || constructor.
  - intros d Hd. rewrite !elem_of_cons in Hd.
    destruct Hd as [->|[->|[->|[->|?%not_elem_of_nil]]]]; done || by vm_compute; eexists.
  - vm_compute. reflexivity.
Defined.

Lemma dictScan_terminates_witness :
  exists ds1 ds2 es, replicate 4 d_before = ds1 ++ ds2 /\ ds1 <> [] /\ scan_calls ds1 0 = Ret (es, 0).
Proof.
  apply (dictScan_terminates 2).
  - lia.
  - apply Forall_replicate. split; [apply d_before_ok|done].
  - done.
Defined.

End DictScan.
