(* ===== verification/Kvstore.v ===== *)
(** * Kvstore: the array of dicts of a database (kvstore.c)

    A kvstore splits a key space over [2 ^ num_dicts_bits] dicts, one per
    cluster slot in cluster mode, and keeps a Fenwick tree of their sizes, so
    that the n-th key and the next non-empty dict are found in logarithmic
    time.  The file is written against an interface of what a dict provides;
    the hash table of dict.c discharges it at the end. *)
From S2P Require Import Prelude Dict.

(** The dict operations kvstore.c calls; [R] is a pointer to an entry. *)
Class DictOps (D K R : Type) := {
  d_create : D;
  d_size : D -> Z;
  d_paused : D -> bool;
  d_find : D -> K -> outcome (D * option R);
  d_addRaw : D -> K -> outcome (D * (R + R));
  d_delete : D -> K -> outcome (D * Z);
  d_empty : D -> D;
}.

(** What it relies on: each operation acts on a finite map and never fails. *)
Class DictLaws (D K R V : Type) `{Countable K, DictOps D K R} := {
  d_ok : D -> Prop;
  d_map : D -> gmap K V;
  d_create_ok : d_ok d_create /\ d_map d_create = ∅;
  d_empty_ok : forall d, d_ok d -> d_ok (d_empty d) /\ d_map (d_empty d) = ∅;
  d_size_ok : forall d, d_ok d -> d_size d = Z.of_nat (size (d_map d));
  d_find_ok : forall d k, d_ok d -> exists d' r,
    d_find d k = Ret (d', r) /\ d_ok d' /\ d_map d' = d_map d /\
    (is_Some r <-> is_Some (d_map d !! k));
  d_addRaw_ok : forall d k, d_ok d -> exists d' r, d_addRaw d k = Ret (d', r) /\ d_ok d' /\
    match r with
    | inl _ => d_map d !! k = None /\ exists v, d_map d' = <[k := v]> (d_map d)
    | inr _ => is_Some (d_map d !! k) /\ d_map d' = d_map d
    end;
  d_delete_ok : forall d k, d_ok d -> exists d', d_ok d' /\ d_map d' = delete k (d_map d) /\ d_paused d' = d_paused d /\
    d_delete d k = Ret (d', match d_map d !! k with Some _ => Dict.DICT_OK | None => Dict.DICT_ERR end);
}.

Module Kvstore.

(** ** The binary indexed tree *)

(** The loop of [cumulativeKeyCountRead]; [idx] at least halves its number of
    one bits, so [num_dicts] turns are more than enough. *)
Fixpoint read_loop (fuel : nat) (tree : list Z) (idx sum : Z) : outcome Z :=
  if 0 <? idx then
    match fuel with
    | O => Abort
    | S fuel' =>
        match tree !! Z.to_nat idx with
        | None => Abort
        | Some x => read_loop fuel' tree (idx - Z.land idx (- idx)) (sum + x)
        end
    end
  else Ret sum.


(** The loop of [kvstoreFindDictIndexByKeyIndex], for [i = 2 ^ n] downto 1. *)
Fixpoint find_loop (n : nat) (tree : list Z) (result target : Z) : outcome Z :=
  let i := Z.shiftl 1 (Z.of_nat n) in
  let current := result + i in
  match tree !! Z.to_nat current with
  | None => Abort
  | Some x =>
      let '(result, target) := if x <? target then (current, target - x) else (result, target) in
      match n with
      | O => Ret result
      | S n' => find_loop n' tree result target
      end
  end.

Section Kvstore.
Context {D K R : Type} `{DictOps D K R}.

Record kvstore := Kvs {
  on_demand : bool;      (* KVSTORE_ALLOCATE_DICTS_ON_DEMAND *)
  free_empty : bool;     (* KVSTORE_FREE_EMPTY_DICTS *)
  dicts : list (option D);
  num_dicts_bits : Z;
  allocated_dicts : Z;
  non_empty_dicts : Z;
  key_count : Z;
  dict_size_index : list Z;
}.

Definition num_dicts (kvs : kvstore) : Z := Z.shiftl 1 (num_dicts_bits kvs).

(** [kvs->dicts[didx]]: [None] is NULL. *)
Definition kvstoreGetDict (kvs : kvstore) (didx : Z) : outcome (option D) :=
  match dicts kvs !! Z.to_nat didx with
  | Some d => if didx <? 0 then Abort else Ret d
  | None => Abort
  end.

Definition set_dict (kvs : kvstore) (didx : Z) (d : option D) (allocated : Z) : kvstore :=
  Kvs (on_demand kvs) (free_empty kvs) (<[Z.to_nat didx := d]> (dicts kvs)) (num_dicts_bits kvs)
    (allocated_dicts kvs + allocated) (non_empty_dicts kvs) (key_count kvs) (dict_size_index kvs).
Definition set_counts (kvs : kvstore) (ne kc : Z) (tree : list Z) : kvstore :=
  Kvs (on_demand kvs) (free_empty kvs) (dicts kvs) (num_dicts_bits kvs)
    (allocated_dicts kvs) ne kc tree.

Definition kvstoreDictSize (kvs : kvstore) (didx : Z) : outcome Z :=
  let* d := kvstoreGetDict kvs didx in
  Ret (match d with None => 0 | Some d => d_size d end).

Definition kvstoreDictIsRehashingPaused (kvs : kvstore) (didx : Z) : outcome bool :=
  let* d := kvstoreGetDict kvs didx in
  Ret (match d with None => false | Some d => d_paused d end).

Definition kvstoreSize (kvs : kvstore) : outcome Z :=
  if negb (num_dicts kvs =? 1) then Ret (key_count kvs)
  else kvstoreDictSize kvs 0.

Definition cumulativeKeyCountRead (kvs : kvstore) (didx : Z) : outcome Z :=
  if num_dicts kvs =? 1 then
    if negb (didx =? 0) then Abort else kvstoreSize kvs
  else read_loop (Z.to_nat (num_dicts kvs)) (dict_size_index kvs) (didx + 1) 0.

Definition addDictIndexToCursor (kvs : kvstore) (didx cursor : Z) : Z :=
  if num_dicts kvs =? 1 then cursor
  else if didx <? 0 then cursor
  else Z.lor (u64 (Z.shiftl cursor (num_dicts_bits kvs))) didx.

(** The index and the cleared cursor. *)
Definition getAndClearDictIndexFromCursor (kvs : kvstore) (cursor : Z) : Z * Z :=
  if num_dicts kvs =? 1 then (0, cursor)
  else (Z.land cursor (num_dicts kvs - 1), Z.shiftr cursor (num_dicts_bits kvs)).



Definition freeDictIfNeeded (kvs : kvstore) (didx : Z) : outcome kvstore :=
  if negb (free_empty kvs) then Ret kvs
  else
    let* d := kvstoreGetDict kvs didx in
    match d with
    | None => Ret kvs
    | Some _ =>
        let* size := kvstoreDictSize kvs didx in
        if negb (size =? 0) then Ret kvs
        else
          let* paused := kvstoreDictIsRehashingPaused kvs didx in
          if paused : bool then Ret kvs else Ret (set_dict kvs didx None (-1))
    end.

Definition kvstoreCreate (num_dicts_bits : Z) (on_demand free_empty : bool) : outcome kvstore :=
  if 16 <? num_dicts_bits then Abort
  else
    let num_dicts := Z.shiftl 1 num_dicts_bits in
    let n := Z.to_nat num_dicts in
    let tree := if 1 <? num_dicts then replicate (n + 1) 0 else [] in
    Ret (if on_demand
         then Kvs on_demand free_empty (replicate n None) num_dicts_bits 0 0 0 tree
         else Kvs on_demand free_empty (replicate n (Some d_create)) num_dicts_bits num_dicts 0 0 tree).

(** The loop of [kvstoreEmpty] over the dicts from index [didx] on. *)
Fixpoint empty_loop (n : nat) (kvs : kvstore) (didx : Z) : outcome kvstore :=
  match n with
  | O => Ret kvs
  | S n' =>
      let* d := kvstoreGetDict kvs didx in
      let* kvs := match d with
                  | None => Ret kvs
                  | Some d => freeDictIfNeeded (set_dict kvs didx (Some (d_empty d)) 0) didx
                  end in
      empty_loop n' kvs (didx + 1)
  end.

Definition kvstoreEmpty (kvs : kvstore) : outcome kvstore :=
  let* kvs := empty_loop (Z.to_nat (num_dicts kvs)) kvs 0 in
  Ret (set_counts kvs 0 0 (replicate (length (dict_size_index kvs)) 0)).

Definition kvstoreFindDictIndexByKeyIndex (kvs : kvstore) (target : Z) : outcome Z :=
  let* size := kvstoreSize kvs in
  if (num_dicts kvs =? 1) || (size =? 0) then Ret 0
  else if size <? target then Abort
  else find_loop (Z.to_nat (num_dicts_bits kvs)) (dict_size_index kvs) 0 target.

Definition kvstoreGetFirstNonEmptyDictIndex (kvs : kvstore) : outcome Z :=
  kvstoreFindDictIndexByKeyIndex kvs 1.

(** [rnd] is the value of [randomULong()]. *)
Definition kvstoreGetFairRandomDictIndex (kvs : kvstore) (rnd : Z) : outcome Z :=
  let* size := kvstoreSize kvs in
  let target := if size =? 0 then 0 else rnd mod size + 1 in
  kvstoreFindDictIndexByKeyIndex kvs target.

Definition kvstoreGetNextNonEmptyDictIndex (kvs : kvstore) (didx : Z) : outcome Z :=
  if num_dicts kvs =? 1 then if negb (didx =? 0) then Abort else Ret (-1)
  else
    let* c := cumulativeKeyCountRead kvs didx in
    let next_key := c + 1 in
    let* size := kvstoreSize kvs in
    if next_key <=? size then kvstoreFindDictIndexByKeyIndex kvs next_key else Ret (-1).

Definition kvstoreDictFind (kvs : kvstore) (didx : Z) (k : K) : outcome (kvstore * option R) :=
  let* d := kvstoreGetDict kvs didx in
  match d with
  | None => Ret (kvs, None)
  | Some d => let* (d, r) := d_find d k in Ret (set_dict kvs didx (Some d) 0, r)
  end.



End Kvstore.
Arguments kvstore : clear implicits.

(** ** The tree holds the sizes *)

Definition lowbit (i : Z) : Z := Z.land i (- i).

Lemma land_even a b : Z.land (2 * a) (2 * b) = 2 * Z.land a b.
Proof.
  rewrite !(Z.mul_comm 2). change 2 with (2 ^ 1). rewrite <- !Z.shiftl_mul_pow2 by lia.
  symmetry. apply Z.shiftl_land.
Qed.

Lemma lowbit_double i : lowbit (2 * i) = 2 * lowbit i.
Proof. unfold lowbit. rewrite <- land_even. f_equal. lia. Qed.

Lemma lowbit_odd m : lowbit (2 * m + 1) = 1.
Proof.
  unfold lowbit. replace (- (2 * m + 1)) with (2 * Z.lnot m + 1) by (unfold Z.lnot; lia).
  apply Z.bits_inj'. intros n Hn. rewrite Z.land_spec.
  destruct (Z.eq_dec n 0) as [->|Hnz]; [by rewrite !Z.testbit_odd_0|].
  replace n with (Z.succ (n - 1)) by lia. rewrite !Z.testbit_odd_succ by lia.
  rewrite Z.lnot_spec by lia. rewrite andb_negb_r.
  change 1 with (2 * 0 + 1). rewrite Z.testbit_odd_succ by lia. by rewrite Z.bits_0.
Qed.

Lemma lowbit_mul k m : 0 <= k -> lowbit (2 ^ k * (2 * m + 1)) = 2 ^ k.
Proof.
  intros Hk. pattern k. apply natlike_ind; [|intros j Hj IH|done].
  - rewrite Z.mul_1_l. apply lowbit_odd.
  - rewrite Z.pow_succ_r, <- Z.mul_assoc, lowbit_double by lia. by rewrite IH.
Qed.

Lemma odd_part i : 0 < i -> exists k m, 0 <= k /\ 0 <= m /\ i = 2 ^ k * (2 * m + 1).
Proof.
  intros Hi. destruct i as [|p|p]; [lia| |lia]. induction p as [p IH|p IH|].
  - exists 0, (Z.pos p). lia.
  - destruct (IH ltac:(lia)) as (k & m & Hk & Hm & E). exists (k + 1), m.
    split_and!; [lia|lia|]. rewrite Z.pow_add_r by lia. lia.
  - exists 0, 0. lia.
Qed.

Lemma lowbit_range i : 0 < i -> 0 < lowbit i <= i.
Proof.
  intros Hi. destruct (odd_part i Hi) as (k & m & Hk & Hm & E). rewrite E, lowbit_mul by done.
  pose proof (pow2_pos k Hk). nia.
Qed.

(** A node covers the positions from [i - lowbit i + 1] to [i].  The nodes that
    cover a position are met in order by adding the low bit. *)
Definition covers (i x : Z) : Prop := i - lowbit i < x <= i.
#[export] Instance covers_dec i x : Decision (covers i x).
Proof. unfold covers. apply _. Defined.


Definition zsum (l : list Z) : Z := foldr Z.add 0 l.
(** The number of keys in the first [j] dicts. *)
Definition psum (cnt : list Z) (j : Z) : Z := zsum (take (Z.to_nat j) cnt).

Lemma zsum_app l1 l2 : zsum (l1 ++ l2) = zsum l1 + zsum l2.
Proof. induction l1; simpl; lia. Qed.

Lemma zsum_nonneg l : Forall (fun c => 0 <= c) l -> 0 <= zsum l.
Proof. induction 1; simpl; lia. Qed.

Lemma psum_mono cnt i j : Forall (fun c => 0 <= c) cnt -> i <= j -> psum cnt i <= psum cnt j.
Proof.
  intros Hc Hij. unfold psum.
  rewrite <- (take_drop (Z.to_nat i) (take (Z.to_nat j) cnt)), take_take, zsum_app.
  rewrite Nat.min_l by lia.
  pose proof (zsum_nonneg (drop (Z.to_nat i) (take (Z.to_nat j) cnt))
    ltac:(by apply Forall_drop, Forall_take)). lia.
Qed.

Lemma psum_succ cnt i c : 0 <= i -> cnt !! Z.to_nat i = Some c -> psum cnt (i + 1) = psum cnt i + c.
Proof.
  intros Hi Hc. unfold psum. replace (Z.to_nat (i + 1)) with (S (Z.to_nat i)) by lia.
  rewrite (take_S_r _ _ _ Hc), zsum_app. simpl. lia.
Qed.


(** The tree describes the sizes [cnt] of [n] dicts. *)
Record fenwick (n : Z) (tree cnt : list Z) : Prop := {
  fen_tree : length tree = Z.to_nat (n + 1);
  fen_cnt : length cnt = Z.to_nat n;
  fen_node : forall i, 0 < i <= n ->
    tree !! Z.to_nat i = Some (psum cnt i - psum cnt (i - lowbit i));
}.

Lemma read_loop_spec n tree cnt fuel idx sum : fenwick n tree cnt ->
  0 <= idx <= n -> idx <= Z.of_nat fuel ->
  read_loop fuel tree idx sum = Ret (sum + psum cnt idx).
Proof.
  intros HF. revert idx sum. induction fuel as [|fuel IH]; intros idx sum Hi Hf; cbn [read_loop];
    destruct (Z.ltb_spec 0 idx) as [Hp|Hz]; try lia.
  1,3: by replace idx with 0 by lia; unfold psum; simpl; rewrite Z.add_0_r.
  rewrite (fen_node _ _ _ HF) by lia. pose proof (lowbit_range idx Hp). fold (lowbit idx).
  rewrite IH by lia. f_equal. lia.
Qed.






Lemma find_loop_spec N tree cnt n result target T : fenwick N tree cnt ->
  0 <= result -> result + 2 ^ (Z.of_nat n + 1) <= N -> (exists q, result = q * 2 ^ (Z.of_nat n + 1)) ->
  target = T - psum cnt result -> 0 < target -> T <= psum cnt (result + 2 ^ (Z.of_nat n + 1)) ->
  exists r, find_loop n tree result target = Ret r /\ 0 <= r < N /\ psum cnt r < T <= psum cnt (r + 1).
Proof.
  intros HF. revert result target. induction n as [|n IH]; intros result target Hr HN [q Eq] Et Hp HT.
  - change (Z.of_nat 0 + 1) with 1 in *. change (2 ^ 1) with 2 in *. cbn [find_loop].
    change (Z.shiftl 1 (Z.of_nat 0)) with 1. rewrite (fen_node _ _ _ HF) by lia.
    assert (lowbit (result + 1) = 1) as -> by (rewrite Eq, Z.mul_comm; apply lowbit_odd).
    replace (result + 1 - 1) with result by lia.
    destruct (Z.ltb_spec (psum cnt (result + 1) - psum cnt result) target).
    + exists (result + 1). split; [done|]. replace (result + 1 + 1) with (result + 2) by lia. lia.
    + exists result. split; [done|]. lia.
  - set (i := 2 ^ Z.of_nat (S n)) in *.
    assert (2 ^ (Z.of_nat (S n) + 1) = 2 * i) as E2 by (rewrite Z.pow_add_r by lia; unfold i; lia).
    assert (2 ^ (Z.of_nat n + 1) = i) as Ei by (unfold i; f_equal; lia).
    assert (0 < i) as Hi by (apply pow2_pos; lia). rewrite E2 in *.
    cbn [find_loop]. rewrite Z.shiftl_1_l. fold i. rewrite (fen_node _ _ _ HF) by lia.
    assert (lowbit (result + i) = i) as ->.
    { replace (result + i) with (i * (2 * q + 1)) by lia. apply lowbit_mul. lia. }
    replace (result + i - i) with result by lia.
    destruct (Z.ltb_spec (psum cnt (result + i) - psum cnt result) target); apply IH; rewrite ?Ei; try lia.
    + exists (2 * q + 1). lia.
    + by replace (result + i + i) with (result + 2 * i) by lia.
    + exists (2 * q). lia.
Qed.

(** ** The store as a family of maps *)

Section KvsSpec.
Context {D K R V : Type} `{EqK : EqDecision K, CK : !Countable K, OPS : DictOps D K R}.
Context `{LAWS : !DictLaws D K R V}.
Implicit Types (kvs : kvstore D) (d : D) (o : option D).

Definition count o : Z := match o with None => 0 | Some d => d_size d end.
Definition alloc o : Z := match o with None => 0 | Some _ => 1 end.
Definition o_ok o : Prop := match o with None => True | Some d => d_ok d end.
Definition o_map o : gmap K V := match o with None => ∅ | Some d => d_map d end.

Definition counts kvs : list Z := count <$> dicts kvs.

(** The map of the dict of index [i]; the empty one when it is not allocated. *)
Definition kmap kvs (i : Z) : gmap K V :=
  match dicts kvs !! Z.to_nat i with Some o => o_map o | None => ∅ end.

(** A dict that holds a key. *)
Definition holding o : Z := if count o =? 0 then 0 else 1.

(** The counters agree with the dicts, but [non_empty_dicts] only bounds the number of
    those that are not empty; see [non_empty_dicts_overcounts]. *)
Record kvs_ok kvs : Prop := {
  kv_bits : 0 <= num_dicts_bits kvs <= 16;
  kv_len : Z.of_nat (length (dicts kvs)) = num_dicts kvs;
  kv_dicts : Forall o_ok (dicts kvs);
  kv_keys : key_count kvs = zsum (counts kvs);
  kv_alloc : allocated_dicts kvs = zsum (alloc <$> dicts kvs);
  kv_holding : zsum (holding <$> dicts kvs) <= non_empty_dicts kvs;
  kv_index : num_dicts kvs <> 1 -> fenwick (num_dicts kvs) (dict_size_index kvs) (counts kvs);
}.

Lemma count_nonneg o : o_ok o -> 0 <= count o.
Proof using LAWS. destruct o as [d|]; simpl; [|done]. intros Hd. rewrite (d_size_ok d Hd). lia. Qed.

Lemma counts_nonneg kvs : kvs_ok kvs -> Forall (fun c => 0 <= c) (counts kvs).
Proof using LAWS.
  intros Hk. apply Forall_fmap. eapply Forall_impl; [apply (kv_dicts _ Hk)|]. apply count_nonneg.
Qed.

Lemma get_dict kvs didx : kvs_ok kvs -> 0 <= didx < num_dicts kvs ->
  exists o, kvstoreGetDict kvs didx = Ret o /\ dicts kvs !! Z.to_nat didx = Some o /\ o_ok o.
Proof using.
  intros Hk Hd. destruct (lookup_lt_is_Some_2 (dicts kvs) (Z.to_nat didx)) as [o Ho].
  { pose proof (kv_len _ Hk). lia. }
  exists o. unfold kvstoreGetDict. rewrite Ho. destruct (Z.ltb_spec didx 0); [lia|].
  split_and!; [done|done|]. eapply Forall_lookup_1; [apply (kv_dicts _ Hk)|done].
Qed.





(** [kvs->dicts[didx]], and whether its rehashing is paused. *)
Definition slot kvs (didx : Z) : option D := default None (dicts kvs !! Z.to_nat didx).
Definition paused kvs (didx : Z) : bool := match slot kvs didx with Some d => d_paused d | None => false end.


Lemma kmap_lookup kvs didx o : dicts kvs !! Z.to_nat didx = Some o -> kmap kvs didx = o_map o.
Proof using. unfold kmap. by intros ->. Qed.








Lemma size_spec kvs : kvs_ok kvs -> kvstoreSize kvs = Ret (zsum (counts kvs)).
Proof using.
  intros Hok. unfold kvstoreSize. destruct (Z.eqb_spec (num_dicts kvs) 1) as [E|]; simpl;
    [|by rewrite (kv_keys _ Hok)].
  unfold kvstoreDictSize. destruct (get_dict kvs 0 Hok ltac:(lia)) as (o & -> & Ho & _). simpl.
  pose proof (kv_len _ Hok) as Hl. rewrite E in Hl. unfold counts.
  destruct (dicts kvs) as [|o' [|]]; simpl in *; try lia. injection Ho as ->. f_equal.
  unfold count. destruct o; lia.
Qed.

Lemma psum_all cnt n : length cnt = Z.to_nat n -> psum cnt n = zsum cnt.
Proof using. intros E. unfold psum. by rewrite <- E, firstn_all. Qed.

Lemma find_index_spec kvs target : kvs_ok kvs -> num_dicts kvs <> 1 ->
  0 < target <= zsum (counts kvs) ->
  exists r, kvstoreFindDictIndexByKeyIndex kvs target = Ret r /\ 0 <= r < num_dicts kvs /\
    psum (counts kvs) r < target <= psum (counts kvs) (r + 1).
Proof using.
  intros Hok Hn Ht. unfold kvstoreFindDictIndexByKeyIndex. rewrite (size_spec kvs Hok). cbn [obind].
  destruct (Z.eqb_spec (num_dicts kvs) 1); [done|]. destruct (Z.eqb_spec (zsum (counts kvs)) 0); [lia|].
  cbn [orb]. destruct (Z.ltb_spec (zsum (counts kvs)) target); [lia|].
  pose proof (kv_index _ Hok Hn) as HF. pose proof (kv_bits _ Hok) as Hb.
  assert (num_dicts kvs = 2 ^ num_dicts_bits kvs) as En by (unfold num_dicts; apply Z.shiftl_1_l).
  assert (num_dicts_bits kvs <> 0) by (intros E; rewrite E in En; done).
  replace (Z.to_nat (num_dicts_bits kvs)) with (S (Z.to_nat (num_dicts_bits kvs - 1))) by lia.
  cbn [find_loop]. rewrite Z.shiftl_1_l, Z.add_0_l.
  replace (2 ^ Z.of_nat (S (Z.to_nat (num_dicts_bits kvs - 1)))) with (num_dicts kvs)
    by (rewrite En; f_equal; lia).
  pose proof (pow2_pos (num_dicts_bits kvs) ltac:(lia)).
  rewrite (fen_node _ _ _ HF) by lia.
  assert (lowbit (num_dicts kvs) = num_dicts kvs) as ->.
  { rewrite En. replace (2 ^ num_dicts_bits kvs) with (2 ^ num_dicts_bits kvs * (2 * 0 + 1)) at 1 by lia.
    apply lowbit_mul. lia. }
  rewrite Z.sub_diag, (psum_all _ _ (fen_cnt _ _ _ HF)). change (psum (counts kvs) 0) with 0.
  destruct (Z.ltb_spec (zsum (counts kvs) - 0) target); [lia|].
  assert (2 ^ (Z.of_nat (Z.to_nat (num_dicts_bits kvs - 1)) + 1) = num_dicts kvs) as E2
    by (rewrite En; f_equal; lia).
  apply (find_loop_spec (num_dicts kvs)); [done|lia|lia|by exists 0| |lia|].
  - change (psum (counts kvs) 0) with 0. lia.
  - rewrite Z.add_0_l, E2, (psum_all _ _ (fen_cnt _ _ _ HF)). lia.
Qed.

Lemma kmap_count kvs j : kvs_ok kvs -> 0 <= j < num_dicts kvs ->
  exists c, counts kvs !! Z.to_nat j = Some c /\ c = Z.of_nat (size (kmap kvs j)).
Proof using LAWS.
  intros Hok Hj. destruct (get_dict kvs j Hok Hj) as (o & _ & Ho & Hoo).
  exists (count o). unfold counts. rewrite list_lookup_fmap, Ho. split; [done|].
  rewrite (kmap_lookup kvs j o Ho). destruct o as [d|]; simpl in *; [by apply d_size_ok|].
  by rewrite map_size_empty.
Qed.

(** No key between two equal cumulative counts. *)
Lemma kmap_gap kvs j : kvs_ok kvs -> 0 <= j < num_dicts kvs ->
  psum (counts kvs) (j + 1) <= psum (counts kvs) j <-> kmap kvs j = ∅.
Proof using LAWS.
  intros Hok Hj. destruct (kmap_count kvs j Hok Hj) as (c & Hc & E).
  rewrite (psum_succ _ _ _ (proj1 Hj) Hc). split; intros H.
  - apply map_size_empty_inv. lia.
  - rewrite H, map_size_empty in E. lia.
Qed.

Lemma read_spec kvs didx : kvs_ok kvs -> 0 <= didx < num_dicts kvs ->
  cumulativeKeyCountRead kvs didx = Ret (psum (counts kvs) (didx + 1)).
Proof using.
  intros Hok Hd. unfold cumulativeKeyCountRead. destruct (Z.eqb_spec (num_dicts kvs) 1) as [E|Hn].
  - assert (didx = 0) as -> by lia. simpl. rewrite (size_spec kvs Hok). f_equal. symmetry.
    apply psum_all. unfold counts. rewrite length_fmap. pose proof (kv_len _ Hok). lia.
  - pose proof (read_loop_spec _ _ _ (Z.to_nat (num_dicts kvs)) (didx + 1) 0 (kv_index _ Hok Hn)) as Hr.
    rewrite Hr by lia. f_equal.
Qed.

(** C34: the size index.  The search by key index lands on the dict that holds
    the key of that rank in the concatenation of the dicts, and the next
    non-empty dict is the first one after the given index that has a key, -1
    when there is none. *)
Theorem kvstore_index kvs : kvs_ok kvs ->
  (forall target, 0 < target <= zsum (counts kvs) ->
     exists r, kvstoreFindDictIndexByKeyIndex kvs target = Ret r /\ 0 <= r < num_dicts kvs /\
       psum (counts kvs) r < target <= psum (counts kvs) (r + 1)) /\
  (forall didx, 0 <= didx < num_dicts kvs ->
     exists r, kvstoreGetNextNonEmptyDictIndex kvs didx = Ret r /\
       (r = -1 /\ (forall j, didx < j < num_dicts kvs -> kmap kvs j = ∅) \/
        didx < r < num_dicts kvs /\ kmap kvs r <> ∅ /\
          (forall j, didx < j < r -> kmap kvs j = ∅))).
Proof using LAWS.
  intros Hok. pose proof (kv_len _ Hok) as Hl. pose proof (counts_nonneg _ Hok) as Hnn.
  assert (psum (counts kvs) (num_dicts kvs) = zsum (counts kvs)) as Etot.
  { apply psum_all. unfold counts. rewrite length_fmap. lia. }
  split.
  - intros target Ht. destruct (Z.eq_dec (num_dicts kvs) 1) as [E|Hn]; [|by apply find_index_spec].
    exists 0. unfold kvstoreFindDictIndexByKeyIndex. rewrite (size_spec kvs Hok). cbn [obind].
    rewrite E. split_and!; [done|lia|lia|unfold psum; simpl; lia|].
    change (0 + 1) with 1. rewrite <- E. lia.
  - intros didx Hd. unfold kvstoreGetNextNonEmptyDictIndex.
    destruct (Z.eqb_spec (num_dicts kvs) 1) as [E|Hn].
    { assert (didx = 0) as -> by lia. exists (-1). split; [done|]. left. split; [done|lia]. }
    rewrite (read_spec kvs didx Hok Hd). cbn [obind]. rewrite (size_spec kvs Hok). cbn [obind].
    set (c := psum (counts kvs) (didx + 1)).
    assert (0 <= c) as Hc0 by (change 0 with (psum (counts kvs) 0); apply psum_mono; [done|lia]).
    destruct (Z.leb_spec (c + 1) (zsum (counts kvs))) as [Hle|Hgt].
    + destruct (find_index_spec kvs (c + 1) Hok Hn ltac:(lia)) as (r & Er & Hr & Hlo & Hhi).
      exists r. split; [done|]. right. assert (didx < r) as Hdr.
      { apply Z.nle_gt. intros Hrd. pose proof (psum_mono _ (r + 1) (didx + 1) Hnn ltac:(lia)). lia. }
      split_and!; [done|lia| |].
      * intros Ee%(kmap_gap kvs r Hok); lia.
      * intros j Hj. apply (kmap_gap kvs j Hok); [lia|].
        pose proof (psum_mono _ (j + 1) r Hnn ltac:(lia)).
        pose proof (psum_mono _ (didx + 1) j Hnn ltac:(lia)). lia.
    + exists (-1). split; [done|]. left. split; [done|]. intros j Hj.
      apply (kmap_gap kvs j Hok); [lia|].
      pose proof (psum_mono _ (j + 1) (num_dicts kvs) Hnn ltac:(lia)).
      pose proof (psum_mono _ (didx + 1) j Hnn ltac:(lia)). lia.
Qed.


End KvsSpec.

(** ** The hash table implements the interface *)

Section Instance_.
Context {K V : Type} `{EqK : EqDecision K, CK : !Countable K, DT : DictType K, DTok : !DictTypeOk K}.

#[export] Instance hash_table_ops : DictOps (Dict.dict K V) K Dict.entry_ref := {
  d_create := Dict.dictCreate;
  d_size := Dict.dictSize;
  d_paused d := 0 <? Dict.pauserehash d;
  d_find := Dict.dictFind Dict.DICT_RESIZE_ENABLE;
  d_addRaw := Dict.dictAddRaw Dict.DICT_RESIZE_ENABLE;
  d_delete := Dict.dictDelete Dict.DICT_RESIZE_ENABLE;
  d_empty d := fst (Dict.dictEmpty d);
}.

(** A kvstore never pauses the automatic resizing of its dicts. *)
Definition table_in_store (d : Dict.dict K V) : Prop :=
  Dict.dict_ok d /\ Dict.pauseAutoResize d = 0.

Lemma dict_ok_create : Dict.dict_ok (@Dict.dictCreate K V).
Proof using. split; [apply Dict.table_ok_reset|apply Dict.table_ok_reset|constructor|by left]. Qed.

#[export] Instance hash_table_laws :
  DictLaws (Dict.dict K V) K Dict.entry_ref (option V).
Proof using DTok.
  refine {| d_ok := table_in_store; d_map := Dict.to_map |}.
  - split; [split; [apply dict_ok_create|done]|done].
  - intros d _. split; [split; [apply dict_ok_create|done]|done].
  - intros d [Hd _]. by apply Dict.dictSize_map.
  - intros d k [Hd Ha]. destruct (Dict.dictFind_spec Dict.DICT_RESIZE_ENABLE d k Hd)
      as (d' & r & E & S & Hr). exists d', r. pose proof (Dict.to_map_same d d' Hd S) as Em.
    split_and!; [done|split; [apply S|by rewrite (Dict.sc_auto _ _ S)]|done|].
    destruct r as [r|]; [|by rewrite Hr]. destruct Hr as (e & He & <-). rewrite <- Em.
    by rewrite (Dict.to_map_deref d' r e (Dict.sc_ok _ _ S) He).
  - intros d k [Hd Ha].
    assert (Dict.pauseAutoResize d <= 0 \/ 0 <= Dict.ht_size_exp (Dict.ht0 d)) as Hp by (left; lia).
    destruct (Dict.dictAddRaw_spec Dict.DICT_RESIZE_ENABLE d k Hd Hp)
      as (d' & r & E & _ & Ea & Hr).
    exists d', r. split; [done|]. destruct r as [new|ex].
    + destruct Hr as (Hok & _ & P & Hn). split; [split; [done|congruence]|]. split; [done|].
      exists None. by rewrite (Dict.to_map_perm d' _ Hok P).
    + destruct Hr as (S & e & He & <-). split; [split; [apply S|congruence]|].
      rewrite (Dict.to_map_same d d' Hd S). split; [|done].
      rewrite <- (Dict.to_map_same d d' Hd S).
      by rewrite (Dict.to_map_deref d' ex e (Dict.sc_ok _ _ S) He).
  - intros d k [Hd Ha].
    destruct (Dict.dictGenericDelete_spec Dict.DICT_RESIZE_ENABLE d k Hd) as (d' & E & Hok & Hm & Ea & Ep).
    exists d'. split; [split; [done|congruence]|]. split; [done|]. split; [simpl; by rewrite Ep|]. simpl. unfold Dict.dictDelete.
    rewrite E. cbn [obind]. by destruct (Dict.to_map d !! k).
Defined.

End Instance_.

(** ** Four dicts of integers, two keys in the last *)

#[local] Existing Instances Dict.intDictType Dict.intDictTypeOk.

Definition d12 : Dict.dict Z Z := Dict.Dict
  (Dict.Ht [[]; [Dict.Entry 1 None]; [Dict.Entry 2 None]; []] 2 2) Dict._dictReset (-1) 0 0.

Definition kvs2 : kvstore (Dict.dict Z Z) :=
  Kvs true true [None; None; None; Some d12] 2 1 1 2 [0; 0; 0; 0; 2].

Lemma kvs2_ok : kvs_ok (V := option Z) kvs2.
Proof.
  split; [done|done| |done|done|done|].
  - repeat (apply Forall_cons; split); [done|done|done| |done].
    change (table_in_store d12). split; [|done]. split.
    + split; [right; by vm_compute|done|].
      apply (Dict.forall_lookup (fun i b => Forall (Dict.placed 2 i) b)). repeat constructor.
    + apply Dict.table_ok_reset.
    + apply (bool_decide_unpack _). vm_compute. done.
    + by left.
  - intros _. split; [done|done|]. intros i Hi. change (num_dicts kvs2) with 4 in Hi.
    assert (i = 1 \/ i = 2 \/ i = 3 \/ i = 4) as [->|[->|[->| ->]]] by lia; done.
Qed.


Lemma kvstore_index_witness :
  kvstoreFindDictIndexByKeyIndex kvs2 2 = Ret 3 /\ kvstoreGetNextNonEmptyDictIndex kvs2 0 = Ret 3.
Proof.
  destruct (kvstore_index (V := option Z) kvs2 kvs2_ok) as [H1 H2].
  destruct (H1 2) as (r & E1 & Hr & Hp); [vm_compute; done|].
  destruct (H2 0) as (r' & E2 & Hr'); [vm_compute; done|].
  split; vm_compute; reflexivity.
Defined.


End Kvstore.
