(* ===== verification/Multi.v ===== *)
(** * Multi: transactions and optimistic locking (multi.c)

    MULTI queues commands, EXEC runs them together unless a key the client
    WATCHes was touched in between.  The state has two views of the watches, a
    list per client and a list per key, that the code keeps in step; the
    invariant says they agree, and the refinement theorem that every client
    sees an ideal optimistic lock.

    A watchedKey structure sits in both lists and is identified here by its
    client, database and key; its [expired] flag lives in the client's list. *)
From S2P Require Import Prelude.

Module Multi.

Abbreviation key := (list Z).
(** A database number and a key. *)
Abbreviation dbkey := (Z * key)%type.

Record watchedKey := WK { wk_db : Z; wk_key : key; wk_expired : bool }.
Definition wk_id (wk : watchedKey) : dbkey := (wk_db wk, wk_key wk).

Section Multi.
(** Queued commands: what [c->cmd], [argv] and the flags amount to. *)
Context {C : Type}.

Record multiState := MState {
  commands : list C;
  cmd_flags : Z;
  cmd_inv_flags : Z;
  argv_len_sums : Z;
  alloc_count : Z;
}.

Record client := Client {
  flag_multi : bool;         (* CLIENT_MULTI *)
  flag_dirty_cas : bool;     (* CLIENT_DIRTY_CAS *)
  flag_dirty_exec : bool;    (* CLIENT_DIRTY_EXEC *)
  client_db : Z;
  watched : list watchedKey; (* client->watched_keys *)
  mstate : multiState;
}.

Record server := Server {
  clients : gmap Z client;
  watched_keys : gmap dbkey (list Z); (* db->watched_keys of every database *)
  watching_clients : Z;
}.

Definition set_client (s : server) (c : Z) (cl : client) : server :=
  Server (<[c := cl]> (clients s)) (watched_keys s) (watching_clients s).
Definition set_flags (cl : client) (m dc de : bool) : client :=
  Client m dc de (client_db cl) (watched cl) (mstate cl).
Definition set_watched (cl : client) (w : list watchedKey) : client :=
  Client (flag_multi cl) (flag_dirty_cas cl) (flag_dirty_exec cl) (client_db cl) w (mstate cl).
Definition set_mstate (cl : client) (m : multiState) : client :=
  Client (flag_multi cl) (flag_dirty_cas cl) (flag_dirty_exec cl) (client_db cl) (watched cl) m.


Definition set_db (cl : client) (db : Z) : client :=
  Client (flag_multi cl) (flag_dirty_cas cl) (flag_dirty_exec cl) db (watched cl) (mstate cl).

Definition initClientMultiState : multiState := MState [] 0 0 0 0.

Definition INT_MAX : Z := 2 ^ 31 - 1.

(** [len] is [argv_len_sum] and [argc] the number of arguments. *)
Definition queueMultiCommand (cl : client) (cmd : C) (flags len argc : Z) : client :=
  if flag_dirty_cas cl || flag_dirty_exec cl then cl
  else
    let m := mstate cl in
    let count := Z.of_nat (length (commands m)) in
    let alloc := if count =? 0 then 2 else alloc_count m in
    let alloc := if count =? alloc then if alloc <? INT_MAX / 2 then alloc * 2 else INT_MAX
                 else alloc in
    set_mstate cl (MState (commands m ++ [cmd]) (s32 (Z.lor (cmd_flags m) flags))
      (s32 (Z.lor (cmd_inv_flags m) (Z.lnot flags)))
      (u64 (argv_len_sums m + len + 8 * argc)) alloc).

(** ** Watching *)

(** The tail of [unwatchAllKeys]'s loop body on the table of a database. *)
Definition unlink_watch (c : Z) (t : gmap dbkey (list Z)) (wk : watchedKey) : gmap dbkey (list Z) :=
  match t !! wk_id wk with
  | None => t
  | Some cs =>
      let cs := filter (fun x => x <> c) cs in
      if decide (cs = []) then delete (wk_id wk) t else <[wk_id wk := cs]> t
  end.

Definition unwatchAllKeys (s : server) (c : Z) : server :=
  match clients s !! c with
  | None => s
  | Some cl =>
      if decide (watched cl = []) then s
      else Server (<[c := set_watched cl []]> (clients s))
             (foldl (unlink_watch c) (watched_keys s) (watched cl)) (watching_clients s - 1)
  end.

(** [expired] is [keyIsExpired(c->db, key)]. *)
Definition watchForKey (s : server) (c : Z) (k : key) (expired : bool) : server :=
  match clients s !! c with
  | None => s
  | Some cl =>
      let n := if decide (watched cl = []) then watching_clients s + 1 else watching_clients s in
      let id := (client_db cl, k) in
      if decide (id ∈ wk_id <$> watched cl) then Server (clients s) (watched_keys s) n
      else
        let cs := match watched_keys s !! id with Some cs => cs | None => [] end in
        Server (<[c := set_watched cl (watched cl ++ [WK (client_db cl) k expired])]> (clients s))
          (<[id := cs ++ [c]]> (watched_keys s)) n
  end.

(** [now db k] is [keyIsExpired] at the time of the call. *)
Definition isWatchedKeyExpired (cl : client) (now : Z -> key -> bool) : bool :=
  existsb (fun wk => negb (wk_expired wk) && now (wk_db wk) (wk_key wk)) (watched cl).

Definition clear_expired (id : dbkey) (wks : list watchedKey) : list watchedKey :=
  (fun wk => if decide (wk_id wk = id) then WK (wk_db wk) (wk_key wk) false else wk) <$> wks.

(** The loop of [touchWatchedKey] over the clients of the key; the nodes it
    unlinks are those of the client it has just visited.  [exists_] is
    [dbFind(db, key) != NULL]. *)
Fixpoint touch_loop (s : server) (id : dbkey) (exists_ : bool) (cs : list Z) : server :=
  match cs with
  | [] => s
  | c :: cs =>
      match clients s !! c with
      | None => touch_loop s id exists_ cs
      | Some cl =>
          if existsb (fun wk => bool_decide (wk_id wk = id) && wk_expired wk) (watched cl) then
            if negb exists_ then
              touch_loop (set_client s c (set_watched cl (clear_expired id (watched cl))))
                id exists_ cs
            else s
          else
            let s := set_client s c (set_flags cl (flag_multi cl) true (flag_dirty_exec cl)) in
            touch_loop (unwatchAllKeys s c) id exists_ cs
      end
  end.

Definition touchWatchedKey (s : server) (db : Z) (k : key) (exists_ : bool) : server :=
  match watched_keys s !! (db, k) with
  | None => s
  | Some cs => touch_loop s (db, k) exists_ cs
  end.

(** The database that takes the place of the emptied one, for SWAPDB: whether a
    key is there, and whether it is expired there. *)
Record replacement := Repl { r_exists : key -> bool; r_expired : key -> bool }.

(** The body of the inner loop of [touchAllWatchedKeysInDb] on one watch: the
    watch afterwards, and whether the client becomes dirty. *)
Definition flush_watch (wk : watchedKey) (exists_in_emptied : bool) (replaced_with : option replacement)
  : watchedKey * bool :=
  let k := wk_key wk in
  let in_repl := match replaced_with with None => false | Some r => r_exists r k end in
  let expired_repl := match replaced_with with None => false | Some r => r_expired r k end in
  if wk_expired wk then
    if negb in_repl then (WK (wk_db wk) k false, false)
    else if expired_repl then (wk, false)
    else (wk, true)
  else if negb exists_in_emptied && expired_repl then (WK (wk_db wk) k true, false)
  else (wk, true).

Definition flush_client (id : dbkey) (ex : bool) (repl : option replacement) (s : server) (c : Z)
  : server :=
  match clients s !! c with
  | None => s
  | Some cl =>
      let w := (fun wk => if decide (wk_id wk = id) then fst (flush_watch wk ex repl) else wk)
                 <$> watched cl in
      let dirty := existsb (fun wk => bool_decide (wk_id wk = id) && snd (flush_watch wk ex repl))
                     (watched cl) in
      set_client s c (set_watched
        (set_flags cl (flag_multi cl) (flag_dirty_cas cl || dirty) (flag_dirty_exec cl)) w)
  end.

Definition flush_key (exists_ : key -> bool) (repl : option replacement) (s : server)
  (e : dbkey * list Z) : server :=
  let k := snd (fst e) in
  if exists_ k || match repl with None => false | Some r => r_exists r k end
  then foldl (flush_client (fst e) (exists_ k) repl) s (snd e)
  else s.

(** [exists_ k] is whether the key is in the emptied database. *)
Definition touchAllWatchedKeysInDb (s : server) (emptied : Z) (exists_ : key -> bool)
  (replaced_with : option replacement) : server :=
  foldl (flush_key exists_ replaced_with) s
    (filter (fun e => fst (fst e) = emptied) (map_to_list (watched_keys s))).

(** ** Commands *)

Inductive reply := ROk | RError | RExecAbort | RNullArray | RArray (run : list C).

Definition discardTransaction (s : server) (c : Z) : server :=
  match clients s !! c with
  | None => s
  | Some cl =>
      let cl := set_mstate cl initClientMultiState in
      unwatchAllKeys (set_client s c (set_flags cl false false false)) c
  end.

Definition flagTransaction (cl : client) : client :=
  if flag_multi cl then set_flags cl true (flag_dirty_cas cl) true else cl.

Definition multiCommand (s : server) (c : Z) : server * reply :=
  match clients s !! c with
  | None => (s, RError)
  | Some cl =>
      if flag_multi cl then (s, RError)
      else (set_client s c (set_flags cl true (flag_dirty_cas cl) (flag_dirty_exec cl)), ROk)
  end.

Definition discardCommand (s : server) (c : Z) : server * reply :=
  match clients s !! c with
  | None => (s, RError)
  | Some cl => if negb (flag_multi cl) then (s, RError) else (discardTransaction s c, ROk)
  end.

Fixpoint watch_loop (s : server) (c : Z) (now : Z -> key -> bool) (ks : list key) : server :=
  match ks with
  | [] => s
  | k :: ks =>
      let db := match clients s !! c with Some cl => client_db cl | None => 0 end in
      watch_loop (watchForKey s c k (now db k)) c now ks
  end.

Definition watchCommand (s : server) (c : Z) (now : Z -> key -> bool) (ks : list key)
  : server * reply :=
  match clients s !! c with
  | None => (s, RError)
  | Some cl =>
      if flag_multi cl then (s, RError)
      else if flag_dirty_cas cl then (s, ROk)
      else (watch_loop s c now ks, ROk)
  end.

Definition unwatchCommand (s : server) (c : Z) : server * reply :=
  let s := unwatchAllKeys s c in
  match clients s !! c with
  | None => (s, RError)
  | Some cl => (set_client s c (set_flags cl (flag_multi cl) false (flag_dirty_exec cl)), ROk)
  end.

(** A key a command signals as modified, and whether it exists afterwards. *)
Record touch := Touch { t_db : Z; t_key : key; t_exists : bool }.
Definition apply_touch (s : server) (t : touch) : server :=
  touchWatchedKey s (t_db t) (t_key t) (t_exists t).

(** What running a command does to the state of this file: the keys it
    signals, none when the access rules refuse it. *)
Context (call : server -> C -> list touch).

Fixpoint exec_loop (s : server) (cmds : list C) : server * list touch :=
  match cmds with
  | [] => (s, [])
  | cmd :: cmds =>
      let ts := call s cmd in
      let '(s, rest) := exec_loop (foldl apply_touch s ts) cmds in
      (s, ts ++ rest)
  end.

(** The state, the reply, and the keys touched on the way. *)
Definition execCommand (s : server) (c : Z) (now : Z -> key -> bool)
  : server * reply * list touch :=
  match clients s !! c with
  | None => (s, RError, [])
  | Some cl =>
      if negb (flag_multi cl) then (s, RError, [])
      else
        let dirty_cas := flag_dirty_cas cl || isWatchedKeyExpired cl now in
        if dirty_cas || flag_dirty_exec cl then
          (discardTransaction s c, if flag_dirty_exec cl then RExecAbort else RNullArray, [])
        else
          let '(s, ts) := exec_loop (unwatchAllKeys s c) (commands (mstate cl)) in
          (discardTransaction s c, RArray (commands (mstate cl)), ts)
  end.

(** ** Events *)

(** What reaches this module, in the order the single thread handles it.
    [now] is [keyIsExpired] at that time.  UNWATCH comes with the command it is
    queued as inside MULTI.  [EvSelect] is a change of the client's database. *)
Inductive event :=
| EvMulti (c : Z)
| EvCommand (c : Z) (cmd : C) (flags len argc : Z)
| EvError (c : Z)
| EvDiscard (c : Z)
| EvExec (c : Z) (now : Z -> key -> bool)
| EvWatch (c : Z) (now : Z -> key -> bool) (ks : list key)
| EvUnwatch (c : Z) (cmd : C) (flags len argc : Z)
| EvSelect (c : Z) (db : Z)
| EvTouch (t : touch)
| EvFlush (db : Z) (exists_ : key -> bool).

(** Any other command: queued inside MULTI, run at once outside. *)
Definition otherCommand (s : server) (c : Z) (cmd : C) (flags len argc : Z)
  : server * reply * list touch :=
  match clients s !! c with
  | None => (s, RError, [])
  | Some cl =>
      if flag_multi cl then (set_client s c (queueMultiCommand cl cmd flags len argc), ROk, [])
      else (foldl apply_touch s (call s cmd), ROk, call s cmd)
  end.

Definition step (s : server) (ev : event) : server * reply * list touch :=
  match ev with
  | EvMulti c => (multiCommand s c, [])
  | EvCommand c cmd flags len argc => otherCommand s c cmd flags len argc
  | EvError c =>
      (match clients s !! c with
       | None => s
       | Some cl => set_client s c (flagTransaction cl)
       end, RError, [])
  | EvDiscard c => (discardCommand s c, [])
  | EvExec c now => execCommand s c now
  | EvWatch c now ks => (watchCommand s c now ks, [])
  | EvUnwatch c cmd flags len argc =>
      match clients s !! c with
      | Some cl => if flag_multi cl then otherCommand s c cmd flags len argc
                   else (unwatchCommand s c, [])
      | None => (s, RError, [])
      end
  | EvSelect c db =>
      (match clients s !! c with
       | None => s
       | Some cl => set_client s c (set_db cl db)
       end, ROk, [])
  | EvTouch t => (apply_touch s t, ROk, [t])
  | EvFlush db exists_ => (touchAllWatchedKeysInDb s db exists_ None, ROk, [])
  end.

Fixpoint run (s : server) (evs : list event) : list (event * reply * list touch) :=
  match evs with
  | [] => []
  | ev :: evs => let '(s, r, ts) := step s ev in (ev, r, ts) :: run s evs
  end.

End Multi.
Arguments client : clear implicits.
Arguments server : clear implicits.
Arguments multiState : clear implicits.
Arguments reply : clear implicits.

(** ** The two views agree *)

Section Inv.
Context {C : Type}.
Implicit Types (s : server C) (cl : client C) (id : dbkey).

Definition wkeys cl : list dbkey := wk_id <$> watched cl.

Definition watching s (c : Z) id : Prop := exists cl, clients s !! c = Some cl /\ id ∈ wkeys cl.
Definition listed (t : gmap dbkey (list Z)) (c : Z) id : Prop := exists cs, t !! id = Some cs /\ c ∈ cs.

Definition is_watching cl : Prop := watched cl <> [].
#[local] Instance is_watching_dec cl : Decision (is_watching cl).
Proof. unfold is_watching. destruct (watched cl); [right|left]; by auto. Defined.

Definition count_watching (m : gmap Z (client C)) : Z :=
  Z.of_nat (size (filter (fun e => is_watching (snd e)) m)).

(** Client and key lists describe the same watches, once each, and the counter
    is the number of clients that watch something. *)
Record multi_ok s : Prop := {
  mo_agree : forall c id, watching s c id <-> listed (watched_keys s) c id;
  mo_table : forall id cs, watched_keys s !! id = Some cs -> cs <> [] /\ NoDup cs;
  mo_nodup : forall c cl, clients s !! c = Some cl -> NoDup (wkeys cl);
  mo_count : watching_clients s = count_watching (clients s);
}.

Lemma count_insert (m : gmap Z (client C)) c cl cl' : m !! c = Some cl ->
  count_watching (<[c := cl']> m) =
  count_watching m - (if decide (is_watching cl) then 1 else 0)
                   + (if decide (is_watching cl') then 1 else 0).
Proof.
  intros Hc. unfold count_watching.
  rewrite <- (insert_delete_id m c cl Hc) at 2. rewrite <- (insert_delete_eq m).
  set (m0 := delete c m). assert (m0 !! c = None) as Hn by apply lookup_delete_eq.
  assert (forall x, size (filter (fun e => is_watching (snd e)) (<[c := x]> m0))
    = size (filter (fun e => is_watching (snd e)) m0) + (if decide (is_watching x) then 1 else 0))%nat as H.
  { intros x. case_decide.
    - rewrite map_filter_insert_True by done. rewrite map_size_insert_None; [lia|].
      by apply map_lookup_filter_None_2; left.
    - rewrite map_filter_insert_not' by (done || intros; congruence). lia. }
  rewrite !H. repeat case_decide; lia.
Qed.

(** What unlinking leaves of the table. *)
Lemma unlink_watch_lookup c t wk id :
  unlink_watch c t wk !! id =
  if decide (id = wk_id wk) then
    match t !! id with
    | None => None
    | Some cs => if decide (filter (fun x => x <> c) cs = []) then None
                 else Some (filter (fun x => x <> c) cs)
    end
  else t !! id.
Proof.
  unfold unlink_watch. case_decide as E.
  - subst. destruct (t !! wk_id wk) as [cs|] eqn:Et; [|done].
    case_decide; [by rewrite lookup_delete_eq|by rewrite lookup_insert_eq].
  - destruct (t !! wk_id wk) as [cs|]; [|done].
    case_decide; [by rewrite lookup_delete_ne|by rewrite lookup_insert_ne].
Qed.

Lemma unlink_listed c t wk c' id :
  listed (unlink_watch c t wk) c' id <-> listed t c' id /\ ~ (c' = c /\ id = wk_id wk).
Proof.
  unfold listed. rewrite unlink_watch_lookup. case_decide as E.
  - destruct (t !! id) as [cs|]; [|split; [by intros (? & ? & _)|by intros [(? & ? & _) _]]].
    split.
    + intros (cs' & Hcs & Hin). case_decide; [done|]. injection Hcs as <-.
      apply list_elem_of_filter in Hin as [Hne Hin]. split; [by exists cs|tauto].
    + intros [(cs' & [= <-] & Hin) Hne].
      assert (c' ∈ filter (fun x => x <> c) cs) as Hf by (apply list_elem_of_filter; tauto).
      case_decide as Ee; [by rewrite Ee in Hf; apply not_elem_of_nil in Hf|]. by eexists.
  - split; [|by intros [? _]]. intros Hl. split; [done|]. tauto.
Qed.

Lemma unlink_table c t wk : (forall id cs, t !! id = Some cs -> cs <> [] /\ NoDup cs) ->
  forall id cs, unlink_watch c t wk !! id = Some cs -> cs <> [] /\ NoDup cs.
Proof.
  intros Ht id cs. rewrite unlink_watch_lookup. case_decide; [|apply Ht].
  destruct (t !! id) as [cs'|] eqn:E; [|done]. case_decide; [done|]. intros [= <-].
  split; [done|]. apply NoDup_filter. by eapply Ht.
Qed.

Lemma unlink_all c wks t :
  (forall c' id, listed (foldl (unlink_watch c) t wks) c' id <->
     listed t c' id /\ ~ (c' = c /\ id ∈ wk_id <$> wks)) /\
  ((forall id cs, t !! id = Some cs -> cs <> [] /\ NoDup cs) ->
   forall id cs, foldl (unlink_watch c) t wks !! id = Some cs -> cs <> [] /\ NoDup cs).
Proof.
  revert t. induction wks as [|wk wks IH]; intros t; simpl.
  - split; [|done]. intros c' id. rewrite elem_of_nil. tauto.
  - destruct (IH (unlink_watch c t wk)) as [IH1 IH2]. split.
    + intros c' id. rewrite IH1, unlink_listed, elem_of_cons. tauto.
    + intros Ht. apply IH2. by apply unlink_table.
Qed.

(** Unwatching removes exactly the client's watches. *)
Lemma unwatchAllKeys_spec s c cl : multi_ok s -> clients s !! c = Some cl ->
  multi_ok (unwatchAllKeys s c) /\
  clients (unwatchAllKeys s c) = <[c := set_watched cl []]> (clients s) /\
  (forall c' id, listed (watched_keys (unwatchAllKeys s c)) c' id <->
     listed (watched_keys s) c' id /\ c' <> c).
Proof.
  intros [Ha Ht Hn Hc] Hcl. unfold unwatchAllKeys. rewrite Hcl.
  case_decide as Hw.
  { assert (set_watched cl [] = cl) as -> by (destruct cl; simpl in *; by subst).
    rewrite insert_id by done. split; [done|]. split; [done|]. intros c' id. split; [|by intros [? _]].
    intros Hl. split; [done|]. intros ->. apply Ha in Hl as (cl' & E & Hin). rewrite Hcl in E.
    injection E as <-. unfold wkeys in Hin. rewrite Hw in Hin. by apply not_elem_of_nil in Hin. }
  simpl. destruct (unlink_all c (watched cl) (watched_keys s)) as [Hl1 Hl2].
  assert (forall c' id, listed (foldl (unlink_watch c) (watched_keys s) (watched cl)) c' id <->
    listed (watched_keys s) c' id /\ c' <> c) as Hl.
  { intros c' id. rewrite Hl1. split; intros [Hli Hne]; (split; [done|]); [|tauto].
    intros ->. apply Hne. split; [done|]. apply Ha in Hli as (cl' & E & Hin).
    rewrite Hcl in E. by injection E as <-. }
  split; [|by split]. split; simpl.
  - intros c' id. rewrite Hl, <- Ha. unfold watching. simpl. split.
    + intros (cl' & E & Hin). destruct (decide (c' = c)) as [->|Hne].
      * rewrite lookup_insert_eq in E. injection E as <-. by apply not_elem_of_nil in Hin.
      * rewrite lookup_insert_ne in E by done. split; [|done]. by exists cl'.
    + intros [(cl' & E & Hin) Hne]. exists cl'. by rewrite lookup_insert_ne.
  - by apply Hl2.
  - intros c' cl' E. destruct (decide (c' = c)) as [->|Hne].
    + rewrite lookup_insert_eq in E. injection E as <-. constructor.
    + rewrite lookup_insert_ne in E by done. by eapply Hn.
  - rewrite (count_insert _ _ cl) by done. rewrite decide_True by done.
    rewrite decide_False by (intros Hx; by apply Hx). lia.
Qed.

(** Changes of flags and queue leave the watches alone. *)
Lemma set_client_ok s c cl cl' : multi_ok s -> clients s !! c = Some cl ->
  watched cl' = watched cl -> multi_ok (set_client s c cl').
Proof.
  intros [Ha Ht Hn Hc] Hcl Hw. assert (wkeys cl' = wkeys cl) as Ek by (unfold wkeys; by rewrite Hw).
  split; simpl.
  - intros c' id. rewrite <- Ha. unfold watching. simpl. destruct (decide (c' = c)) as [->|Hne].
    + rewrite lookup_insert_eq, Hcl. split; intros (x & [= <-] & Hin); eexists; (split; [done|]);
        congruence.
    + by rewrite lookup_insert_ne.
  - done.
  - intros c' x. destruct (decide (c' = c)) as [->|Hne].
    + rewrite lookup_insert_eq. intros [= <-]. rewrite Ek. by eapply Hn.
    + rewrite lookup_insert_ne by done. by eapply Hn.
  - rewrite (count_insert _ _ cl) by done.
    assert (is_watching cl' <-> is_watching cl) by (unfold is_watching; by rewrite Hw).
    repeat case_decide; tauto || lia.
Qed.

(** No watch was set on a key that had already expired. *)
Definition fresh_watches cl : Prop := Forall (fun wk => wk_expired wk = false) (watched cl).
Definition unexpired s : Prop := forall c cl, clients s !! c = Some cl -> fresh_watches cl.

Lemma unexpired_insert s m c cl : unexpired s -> fresh_watches cl ->
  clients m = <[c := cl]> (clients s) -> unexpired m.
Proof.
  intros Hu Hf E c' cl'. rewrite E. destruct (decide (c' = c)) as [->|Hne].
  - rewrite lookup_insert_eq. by intros [= <-].
  - rewrite lookup_insert_ne by done. apply Hu.
Qed.

(** A client after one of its keys was touched. *)
Definition dirtied cl : client C :=
  set_watched (set_flags cl (flag_multi cl) true (flag_dirty_exec cl)) [].
Definition touched id cl : client C := if decide (id ∈ wkeys cl) then dirtied cl else cl.

Lemma fresh_no_expired cl id : fresh_watches cl ->
  existsb (fun wk => bool_decide (wk_id wk = id) && wk_expired wk) (watched cl) = false.
Proof.
  unfold fresh_watches. induction 1 as [|wk w Hw _ IH]; simpl; [done|].
  by rewrite Hw, andb_false_r.
Qed.

Lemma touch_loop_spec cs s id ex : multi_ok s -> unexpired s -> NoDup cs ->
  (forall c, c ∈ cs -> watching s c id) ->
  multi_ok (touch_loop s id ex cs) /\ unexpired (touch_loop s id ex cs) /\
  forall c, clients (touch_loop s id ex cs) !! c =
    if decide (c ∈ cs) then dirtied <$> clients s !! c else clients s !! c.
Proof.
  intros Hok Hu Hnd. revert s Hok Hu. induction Hnd as [|c cs Hnin _ IH]; intros s Hok Hu Hw;
    cbn [touch_loop].
  { split_and!; [done|done|]. intros c. by rewrite decide_False by apply not_elem_of_nil. }
  destruct (Hw c) as (cl & Hcl & Hin); [by left|]. rewrite Hcl, (fresh_no_expired cl id (Hu _ _ Hcl)).
  set (cl1 := set_flags cl _ true _). set (s1 := set_client s c cl1).
  assert (multi_ok s1) as Hok1 by (by eapply set_client_ok).
  destruct (unwatchAllKeys_spec s1 c cl1 Hok1) as (Hok2 & Ecl & _); [apply lookup_insert_eq|].
  assert (clients (unwatchAllKeys s1 c) = <[c := dirtied cl]> (clients s)) as E2.
  { rewrite Ecl. simpl. by rewrite insert_insert_eq. }
  destruct (IH (unwatchAllKeys s1 c)) as (Hok3 & Hu3 & E3); [done| | |].
  - eapply unexpired_insert; [exact Hu| |exact E2]. constructor.
  - intros c' Hc'. destruct (Hw c') as (cl' & Hcl' & Hin'); [by right|]. exists cl'.
    rewrite E2, lookup_insert_ne; [done|]. by intros ->.
  - split_and!; [done|done|]. intros c'. rewrite E3, E2. destruct (decide (c' = c)) as [->|Hne].
    + rewrite decide_False, decide_True by (done || by left). by rewrite lookup_insert_eq, Hcl.
    + rewrite lookup_insert_ne by done.
      assert (c' ∈ c :: cs <-> c' ∈ cs) by (rewrite elem_of_cons; tauto). repeat case_decide; tauto || done.
Qed.

Lemma touch_spec s db k ex : multi_ok s -> unexpired s ->
  multi_ok (touchWatchedKey s db k ex) /\ unexpired (touchWatchedKey s db k ex) /\
  forall c, clients (touchWatchedKey s db k ex) !! c = touched (db, k) <$> clients s !! c.
Proof.
  intros Hok Hu. unfold touchWatchedKey. pose proof Hok as [Ha Ht _ _].
  destruct (watched_keys s !! (db, k)) as [cs|] eqn:Et.
  - destruct (Ht _ _ Et) as [_ Hnd].
    destruct (touch_loop_spec cs s (db, k) ex Hok Hu Hnd) as (Hok' & Hu' & E').
    { intros c Hc. apply Ha. by exists cs. }
    split_and!; [done|done|]. intros c. rewrite E'. destruct (clients s !! c) as [cl|] eqn:Hcl;
      [|by case_decide].
    simpl. unfold touched.
    assert (c ∈ cs <-> (db, k) ∈ wkeys cl) as Hiff.
    { transitivity (listed (watched_keys s) c (db, k)).
      - unfold listed. rewrite Et. split; [intros; by exists cs|]. by intros (? & [= <-] & ?).
      - rewrite <- Ha. unfold watching. rewrite Hcl. split; [by intros (? & [= <-] & ?)|].
        intros; by exists cl. }
    repeat case_decide; tauto || done.
  - split_and!; [done|done|]. intros c. destruct (clients s !! c) as [cl|] eqn:Hcl; [|done]. simpl.
    unfold touched. rewrite decide_False; [done|]. intros Hin.
    assert (listed (watched_keys s) c (db, k)) as (cs & E & _) by (apply Ha; by exists cl). congruence.
Qed.

(** Watching one more key. *)
Lemma watchForKey_spec s c cl k : multi_ok s -> unexpired s -> clients s !! c = Some cl ->
  multi_ok (watchForKey s c k false) /\ unexpired (watchForKey s c k false) /\
  clients (watchForKey s c k false) =
    <[c := if decide ((client_db cl, k) ∈ wkeys cl) then cl
           else set_watched cl (watched cl ++ [WK (client_db cl) k false])]> (clients s).
Proof.
  intros Hok Hu Hcl. pose proof Hok as [Ha Ht Hn Hc]. unfold watchForKey. rewrite Hcl.
  fold (wkeys cl). case_decide as Hin.
  - assert (watched cl <> []) as Hw.
    { intros E. unfold wkeys in Hin. rewrite E in Hin. by apply not_elem_of_nil in Hin. }
    rewrite decide_False by done. rewrite insert_id by done. destruct s. simpl in *. by split_and!.
  - set (id := (client_db cl, k)) in *. set (cl' := set_watched cl _).
    assert (wkeys cl' = wkeys cl ++ [id]) as Ek by (unfold wkeys; simpl; by rewrite fmap_app).
    set (cs := match watched_keys s !! id with Some cs => cs | None => [] end).
    assert (forall c', c' ∈ cs <-> listed (watched_keys s) c' id) as Hcs.
    { intros c'. unfold listed, cs. destruct (watched_keys s !! id) as [l|].
      - split; [intros; by exists l|]. by intros (? & [= <-] & ?).
      - split; [by intros ?%not_elem_of_nil|by intros (? & ? & _)]. }
    assert (c ∉ cs) as Hnc.
    { rewrite Hcs, <- Ha. intros (x & E & Hx). rewrite Hcl in E. by injection E as <-. }
    split_and!; [split; simpl| |done].
    + intros c' id'. unfold watching, listed. simpl.
      destruct (decide (id' = id)) as [->|Hid];
        [rewrite (lookup_insert_eq (watched_keys s))|rewrite (lookup_insert_ne (watched_keys s)) by done].
      * split.
        -- intros (x & E & Hx). exists (cs ++ [c]). split; [done|]. rewrite elem_of_app, Hcs, <- Ha.
           destruct (decide (c' = c)) as [->|Hne]; [right; by left|]. left. exists x.
           by rewrite lookup_insert_ne in E.
        -- intros (x & [= <-] & Hx). rewrite elem_of_app, Hcs, <- Ha, list_elem_of_singleton in Hx.
           destruct (decide (c' = c)) as [->|Hne].
           ++ exists cl'. rewrite lookup_insert_eq, Ek. split; [done|]. apply elem_of_app. right. by left.
           ++ destruct Hx as [(x & E & Hx)|?]; [|done]. exists x. by rewrite lookup_insert_ne.
      * specialize (Ha c' id'). unfold watching, listed in Ha. rewrite <- Ha.
        destruct (decide (c' = c)) as [->|Hne]; [|by rewrite lookup_insert_ne].
        rewrite lookup_insert_eq, Hcl. split; intros (x & [= <-] & Hx); eexists; (split; [done|]).
        -- rewrite Ek, elem_of_app, list_elem_of_singleton in Hx. by destruct Hx.
        -- rewrite Ek, elem_of_app. by left.
    + intros id' l. destruct (decide (id' = id)) as [->|Hid];
        [rewrite lookup_insert_eq|rewrite lookup_insert_ne by done].
      * intros [= <-]. split; [by destruct cs|]. apply NoDup_app. split_and!; [| |apply NoDup_singleton].
        -- unfold cs. destruct (watched_keys s !! id) as [l|] eqn:E; [by eapply Ht|constructor].
        -- intros x Hx ->%list_elem_of_singleton. done.
      * apply Ht.
    + intros c' x. destruct (decide (c' = c)) as [->|Hne];
        [rewrite lookup_insert_eq|rewrite lookup_insert_ne by done].
      * intros [= <-]. rewrite Ek. apply NoDup_app. split_and!; [by eapply Hn| |apply NoDup_singleton].
        intros y Hy ->%list_elem_of_singleton. done.
      * apply Hn.
    + rewrite (count_insert _ _ cl) by done. rewrite Hc.
      rewrite (decide_True (P := is_watching cl')) by (unfold is_watching; simpl; by destruct (watched cl)).
      assert (is_watching cl <-> watched cl <> []) by done. repeat case_decide; tauto || lia.
    + eapply unexpired_insert; [exact Hu| |reflexivity]. unfold fresh_watches. simpl.
      apply Forall_app. split; [by apply (Hu c)|by constructor].
Qed.

(** ** Flushing a database *)

Definition mark (b : bool) cl : client C :=
  set_flags cl (flag_multi cl) (flag_dirty_cas cl || b) (flag_dirty_exec cl).

Lemma mark_mark a b cl : mark a (mark b cl) = mark (b || a) cl.
Proof. unfold mark, set_flags. simpl. by rewrite orb_assoc. Qed.

Lemma mark_false cl : mark false cl = cl.
Proof. unfold mark, set_flags. rewrite orb_false_r. by destruct cl. Qed.

Lemma flush_client_fresh (i : dbkey) ex s c cl : clients s !! c = Some cl -> fresh_watches cl ->
  flush_client i ex None s c = set_client s c (mark (bool_decide (i ∈ wkeys cl)) cl).
Proof.
  intros Hcl Hf. unfold flush_client. rewrite Hcl.
  assert ((fun wk => if decide (wk_id wk = i) then fst (flush_watch wk ex None) else wk) <$> watched cl
    = watched cl) as ->.
  { transitivity (id <$> watched cl); [|apply list_fmap_id]. apply list_fmap_ext.
    intros j wk Hi. simpl. unfold flush_watch. rewrite (Forall_lookup_1 _ _ _ _ Hf Hi). simpl.
    rewrite andb_false_r. by case_decide. }
  assert (existsb (fun wk => bool_decide (wk_id wk = i) && snd (flush_watch wk ex None)) (watched cl)
    = bool_decide (i ∈ wkeys cl)) as ->; [|done].
  unfold wkeys. clear Hcl. unfold fresh_watches in Hf.
  induction Hf as [|wk w Hw _ IH]; [done|]. cbn [existsb]. unfold flush_watch at 1. rewrite Hw. simpl.
  rewrite !andb_false_r. simpl. rewrite andb_true_r, IH. clear IH.
  rewrite <- bool_decide_or. apply bool_decide_ext. rewrite elem_of_cons. intuition congruence.
Qed.

Lemma flush_clients_spec id ex cs s : multi_ok s -> unexpired s ->
  multi_ok (foldl (flush_client id ex None) s cs) /\
  unexpired (foldl (flush_client id ex None) s cs) /\
  watched_keys (foldl (flush_client id ex None) s cs) = watched_keys s /\
  forall c, clients (foldl (flush_client id ex None) s cs) !! c =
    (fun cl => mark (bool_decide (c ∈ cs) && bool_decide (id ∈ wkeys cl)) cl) <$> clients s !! c.
Proof.
  revert s. induction cs as [|c cs IH]; intros s Hok Hu; simpl.
  { split_and!; try done. intros c. destruct (clients s !! c); simpl; [|done]. by rewrite mark_false. }
  destruct (clients s !! c) as [cl|] eqn:Hcl.
  - rewrite (flush_client_fresh id ex s c cl Hcl (Hu _ _ Hcl)). set (cl1 := mark _ cl).
    destruct (IH (set_client s c cl1)) as (Hok' & Hu' & Et & Ec).
    { by eapply set_client_ok. }
    { eapply (unexpired_insert s _ c cl1); [exact Hu|exact (Hu _ _ Hcl)|reflexivity]. }
    split_and!; [done|done|done|]. intros c'. rewrite Ec. simpl.
    destruct (decide (c' = c)) as [->|Hne].
    + rewrite lookup_insert_eq, Hcl. simpl. unfold cl1. rewrite mark_mark. f_equal. f_equal.
      change (wkeys (mark _ cl)) with (wkeys cl). rewrite (bool_decide_eq_true_2 (c ∈ c :: cs)) by (by left).
      simpl. by destruct (bool_decide (id ∈ wkeys cl)), (bool_decide (c ∈ cs)).
    + rewrite lookup_insert_ne by done.
      by rewrite (bool_decide_ext (c' ∈ c :: cs) (c' ∈ cs)) by (rewrite elem_of_cons; tauto).
  - assert (flush_client id ex None s c = s) as -> by (unfold flush_client; by rewrite Hcl).
    destruct (IH s Hok Hu) as (Hok' & Hu' & Et & Ec). split_and!; [done|done|done|].
    intros c'. rewrite Ec. destruct (clients s !! c') as [cl|] eqn:E; [|done]. simpl.
    rewrite (bool_decide_ext (c' ∈ c :: cs) (c' ∈ cs)); [done|]. rewrite elem_of_cons.
    split; [|by right]. intros [->|?]; [congruence|done].
Qed.

(** Which clients a flush makes dirty: those with a watch on a key that was in
    the database. *)
Definition hit (db : Z) (ex : key -> bool) (ids : list dbkey) : bool :=
  existsb (fun id => bool_decide (fst id = db) && ex (snd id)) ids.

Lemma flush_keys_spec ex es s : multi_ok s -> unexpired s ->
  multi_ok (foldl (flush_key ex None) s es) /\ unexpired (foldl (flush_key ex None) s es) /\
  forall c, clients (foldl (flush_key ex None) s es) !! c =
    (fun cl => mark (existsb (fun e => ex (snd (fst e)) && bool_decide (c ∈ snd e)
                                       && bool_decide (fst e ∈ wkeys cl)) es) cl) <$> clients s !! c.
Proof.
  revert s. induction es as [|[id cs] es IH]; intros s Hok Hu; simpl.
  { split_and!; try done. intros c. destruct (clients s !! c); simpl; [|done]. by rewrite mark_false. }
  unfold flush_key at 2 4 6. simpl. rewrite orb_false_r. destruct (ex (snd id)) eqn:Ex; simpl.
  - destruct (flush_clients_spec id true cs s Hok Hu) as (Hok1 & Hu1 & _ & E1).
    destruct (IH _ Hok1 Hu1) as (Hok2 & Hu2 & E2). split_and!; [done|done|]. intros c.
    rewrite E2, E1. destruct (clients s !! c) as [cl|]; simpl; [|done]. by rewrite mark_mark.
  - apply IH; done.
Qed.

Lemma flush_spec s db ex : multi_ok s -> unexpired s ->
  multi_ok (touchAllWatchedKeysInDb s db ex None) /\ unexpired (touchAllWatchedKeysInDb s db ex None) /\
  forall c, clients (touchAllWatchedKeysInDb s db ex None) !! c =
    (fun cl => mark (hit db ex (wkeys cl)) cl) <$> clients s !! c.
Proof.
  intros Hok Hu. unfold touchAllWatchedKeysInDb.
  destruct (flush_keys_spec ex (filter (fun e => fst (fst e) = db) (map_to_list (watched_keys s))) s Hok Hu)
    as (Hok' & Hu' & E). split_and!; [done|done|]. intros c. rewrite E.
  destruct (clients s !! c) as [cl|] eqn:Hcl; [|done]. simpl. do 2 f_equal. unfold hit.
  apply eq_bool_prop_intro. rewrite !Is_true_true, !existsb_exists. split.
  - intros ([id cs] & Hin & Hb). apply list_elem_of_In, list_elem_of_filter in Hin as [Hdb Hin].
    apply andb_true_iff in Hb as [Hb Hw]. apply andb_true_iff in Hb as [Hex _].
    apply bool_decide_eq_true in Hw. exists id. split; [by apply list_elem_of_In|].
    simpl in *. by rewrite bool_decide_eq_true_2, Hex.
  - intros (id & Hin%list_elem_of_In & Hb). apply andb_true_iff in Hb as [Hdb Hex].
    apply bool_decide_eq_true in Hdb.
    assert (listed (watched_keys s) c id) as (cs & Ht & Hc) by (apply (mo_agree _ Hok); by exists cl).
    exists (id, cs). split.
    + apply list_elem_of_In, list_elem_of_filter. split; [done|]. by apply elem_of_map_to_list.
    + simpl. rewrite Hex. by rewrite !bool_decide_eq_true_2.
Qed.

(** ** What one client sees of a step *)

Section Local.
Context (call : server C -> C -> list touch).
Implicit Types (ev : event (C := C)) (ts : list touch).

Definition owner ev : option Z :=
  match ev with
  | EvMulti c | EvCommand c _ _ _ _ | EvError c | EvDiscard c | EvExec c _ | EvWatch c _ _
  | EvUnwatch c _ _ _ _ | EvSelect c _ => Some c
  | EvTouch _ | EvFlush _ _ => None
  end.

Definition reset cl : client C := Client false false false (client_db cl) [] initClientMultiState.

Definition add_watch cl (k : key) : client C :=
  if decide ((client_db cl, k) ∈ wkeys cl) then cl
  else set_watched cl (watched cl ++ [WK (client_db cl) k false]).

(** The client's own change. *)
Definition local cl ev : client C :=
  match ev with
  | EvMulti _ => set_flags cl true (flag_dirty_cas cl) (flag_dirty_exec cl)
  | EvCommand _ cmd f l a => if flag_multi cl then queueMultiCommand cl cmd f l a else cl
  | EvError _ => flagTransaction cl
  | EvDiscard _ | EvExec _ _ => if flag_multi cl then reset cl else cl
  | EvWatch _ _ ks =>
      if flag_multi cl || flag_dirty_cas cl then cl else foldl add_watch cl ks
  | EvUnwatch _ cmd f l a =>
      if flag_multi cl then queueMultiCommand cl cmd f l a
      else set_flags (set_watched cl []) (flag_multi cl) false (flag_dirty_exec cl)
  | EvSelect _ db => set_db cl db
  | EvTouch _ | EvFlush _ _ => cl
  end.

Definition touched_all ts cl : client C := foldl (fun cl t => touched (t_db t, t_key t) cl) cl ts.

Definition client_step (c : Z) cl ev ts : client C :=
  match ev with
  | EvFlush db ex => mark (hit db ex (wkeys cl)) cl
  | _ => touched_all ts (if decide (owner ev = Some c) then local cl ev else cl)
  end.

Definition client_reply cl ev : reply C :=
  match ev with
  | EvMulti _ => if flag_multi cl then RError else ROk
  | EvError _ => RError
  | EvDiscard _ => if flag_multi cl then ROk else RError
  | EvExec _ now =>
      if negb (flag_multi cl) then RError
      else if flag_dirty_exec cl then RExecAbort
      else if flag_dirty_cas cl || isWatchedKeyExpired cl now then RNullArray
      else RArray (commands (mstate cl))
  | EvWatch _ _ _ => if flag_multi cl then RError else ROk
  | _ => ROk
  end.

(** The keys of a WATCH are not expired when it runs. *)
Definition watch_fresh ev : Prop :=
  match ev with EvWatch _ now ks => forall db k, k ∈ ks -> now db k = false | _ => True end.

(** A step that changes one client. *)
Definition framed s (s' : server C) (c : Z) (cl' : client C) : Prop :=
  multi_ok s' /\ unexpired s' /\ clients s' = <[c := cl']> (clients s).

Lemma framed_set s c cl cl' : multi_ok s -> unexpired s -> clients s !! c = Some cl ->
  watched cl' = watched cl -> framed s (set_client s c cl') c cl'.
Proof.
  intros Hok Hu Hcl Hw. split_and!; [by eapply set_client_ok| |done].
  eapply (unexpired_insert s _ c cl'); [done| |done]. unfold fresh_watches. rewrite Hw. by apply (Hu c).
Qed.

Lemma framed_unwatch s c cl : multi_ok s -> unexpired s -> clients s !! c = Some cl ->
  framed s (unwatchAllKeys s c) c (set_watched cl []).
Proof.
  intros Hok Hu Hcl. destruct (unwatchAllKeys_spec s c cl Hok Hcl) as (Hok' & E & _).
  split_and!; [done| |done]. eapply unexpired_insert; [exact Hu| |exact E]. constructor.
Qed.

Lemma framed_trans s s1 s2 c cl1 cl2 : framed s s1 c cl1 -> framed s1 s2 c cl2 -> framed s s2 c cl2.
Proof.
  intros (_ & _ & E1) (? & ? & E2). split_and!; [done|done|]. rewrite E2, E1. apply insert_insert_eq.
Qed.

Lemma framed_lookup s s' c cl' : framed s s' c cl' -> clients s' !! c = Some cl'.
Proof. intros (_ & _ & ->). apply lookup_insert_eq. Qed.

Lemma framed_id s c cl : multi_ok s -> unexpired s -> clients s !! c = Some cl -> framed s s c cl.
Proof. intros. split_and!; [done|done|]. by rewrite insert_id. Qed.

Lemma framed_discard s c cl : multi_ok s -> unexpired s -> clients s !! c = Some cl ->
  framed s (discardTransaction s c) c (reset cl).
Proof.
  intros Hok Hu Hcl. unfold discardTransaction. rewrite Hcl.
  pose proof (framed_set s c cl (set_flags (set_mstate cl initClientMultiState) false false false)
    Hok Hu Hcl eq_refl) as F1. eapply framed_trans; [exact F1|].
  destruct F1 as (Hok1 & Hu1 & _). exact (framed_unwatch _ _ _ Hok1 Hu1 (lookup_insert_eq _ _ _)).
Qed.

Lemma framed_watch ks s c cl now : multi_ok s -> unexpired s -> clients s !! c = Some cl ->
  (forall db k, k ∈ ks -> now db k = false) ->
  framed s (watch_loop s c now ks) c (foldl add_watch cl ks).
Proof.
  revert s cl. induction ks as [|k ks IH]; intros s cl Hok Hu Hcl Hf; simpl.
  { by apply framed_id. }
  rewrite Hcl, Hf by (by left).
  assert (framed s (watchForKey s c k false) c (add_watch cl k)) as F by (by apply watchForKey_spec).
  eapply framed_trans; [exact F|]. pose proof (framed_lookup _ _ _ _ F). destruct F as (? & ? & _).
  apply IH; [done|done|done|]. intros db k' Hk. apply Hf. by right.
Qed.

Lemma touches_spec ts s : multi_ok s -> unexpired s ->
  multi_ok (foldl apply_touch s ts) /\ unexpired (foldl apply_touch s ts) /\
  forall c, clients (foldl apply_touch s ts) !! c = touched_all ts <$> clients s !! c.
Proof.
  revert s. induction ts as [|t ts IH]; intros s Hok Hu; simpl.
  { split_and!; [done|done|]. intros c. unfold touched_all. simpl. by destruct (clients s !! c). }
  destruct (touch_spec s (t_db t) (t_key t) (t_exists t) Hok Hu) as (Hok1 & Hu1 & E1).
  destruct (IH (apply_touch s t) Hok1 Hu1) as (Hok2 & Hu2 & E2). split_and!; [done|done|].
  intros c. rewrite E2. unfold apply_touch. rewrite E1. by destruct (clients s !! c).
Qed.

Lemma touched_all_app ts ts' cl : touched_all (ts ++ ts') cl = touched_all ts' (touched_all ts cl).
Proof. apply foldl_app. Qed.

Lemma touched_all_none ts cl : watched cl = [] -> touched_all ts cl = cl.
Proof.
  intros Hw. induction ts as [|t ts IH]; [done|]. unfold touched_all. simpl.
  assert (touched (t_db t, t_key t) cl = cl) as ->; [|done].
  unfold touched, wkeys. rewrite Hw. by rewrite decide_False by apply not_elem_of_nil.
Qed.

Lemma exec_loop_spec cmds s : multi_ok s -> unexpired s ->
  multi_ok (fst (exec_loop call s cmds)) /\ unexpired (fst (exec_loop call s cmds)) /\
  forall c, clients (fst (exec_loop call s cmds)) !! c =
    touched_all (snd (exec_loop call s cmds)) <$> clients s !! c.
Proof.
  revert s. induction cmds as [|cmd cmds IH]; intros s Hok Hu; simpl.
  { split_and!; [done|done|]. intros c. unfold touched_all. simpl. by destruct (clients s !! c). }
  destruct (touches_spec (call s cmd) s Hok Hu) as (Hok1 & Hu1 & E1).
  destruct (IH _ Hok1 Hu1) as (Hok2 & Hu2 & E2).
  destruct (exec_loop call _ cmds) as [s2 ts2]. simpl in *. split_and!; [done|done|].
  intros c. rewrite E2, E1. destruct (clients s !! c); simpl; [|done]. by rewrite touched_all_app.
Qed.

(** The result of a step, seen by every client. *)
Definition stepped s (ev : event (C := C)) (s' : server C) (r : reply C) ts : Prop :=
  multi_ok s' /\ unexpired s' /\
  (forall c, clients s' !! c = (fun cl => client_step c cl ev ts) <$> clients s !! c) /\
  (forall c cl, owner ev = Some c -> clients s !! c = Some cl -> r = client_reply cl ev).

(** A step without touches that changes its owner only. *)
Lemma stepped_own s ev c cl s' r : owner ev = Some c -> clients s !! c = Some cl ->
  framed s s' c (local cl ev) -> r = client_reply cl ev -> stepped s ev s' r [].
Proof.
  intros Ho Hcl (Hok' & Hu' & E) Hr. split_and!; [done|done| |].
  - intros c'. rewrite E. assert (forall cl', client_step c' cl' ev [] =
      if decide (Some c = Some c') then local cl' ev else cl') as Hs.
    { intros cl'. rewrite <- Ho. by destruct ev. }
    destruct (decide (c' = c)) as [->|Hne].
    + rewrite lookup_insert_eq, Hcl. simpl. by rewrite Hs, decide_True.
    + rewrite lookup_insert_ne by done. destruct (clients s !! c') as [cl'|]; simpl; [|done].
      rewrite Hs, decide_False; [done|]. congruence.
  - intros c' cl'. rewrite Ho. intros [= <-]. rewrite Hcl. by intros [= <-].
Qed.

Lemma stepped_unknown s ev c r : multi_ok s -> unexpired s -> owner ev = Some c ->
  clients s !! c = None -> stepped s ev s r [].
Proof.
  intros Hok Hu Ho Hcl. split_and!; [done|done| |].
  - intros c'. destruct (clients s !! c') as [cl'|] eqn:E; [|done]. simpl.
    assert (client_step c' cl' ev [] = if decide (Some c = Some c') then local cl' ev else cl') as ->.
    { rewrite <- Ho. by destruct ev. }
    rewrite decide_False; [done|]. congruence.
  - intros c' cl'. rewrite Ho. intros [= <-]. congruence.
Qed.

Lemma stepped_command s c cl cmd f l a : multi_ok s -> unexpired s -> clients s !! c = Some cl ->
  stepped s (EvCommand c cmd f l a) (fst (fst (otherCommand call s c cmd f l a)))
    (snd (fst (otherCommand call s c cmd f l a))) (snd (otherCommand call s c cmd f l a)).
Proof.
  intros Hok Hu Hcl. unfold otherCommand. rewrite Hcl. destruct (flag_multi cl) eqn:Em; simpl.
  - eapply stepped_own; [done|done| |done]. simpl. rewrite Em.
    eapply framed_set; [done|done|done|]. unfold queueMultiCommand. by destruct (_ || _).
  - destruct (touches_spec (call s cmd) s Hok Hu) as (Hok1 & Hu1 & E1).
    split_and!; [done|done| |done]. intros c'. rewrite E1. destruct (clients s !! c') as [cl'|] eqn:E; [|done].
    simpl. case_decide as Ec; [|done]. injection Ec as <-. rewrite Hcl in E. injection E as <-. by rewrite Em.
Qed.

Lemma stepped_exec s c cl now : multi_ok s -> unexpired s -> clients s !! c = Some cl ->
  stepped s (EvExec c now) (fst (fst (execCommand call s c now)))
    (snd (fst (execCommand call s c now))) (snd (execCommand call s c now)).
Proof.
  intros Hok Hu Hcl. unfold execCommand. rewrite Hcl. destruct (flag_multi cl) eqn:Em; simpl.
  2: { eapply stepped_own; [done|done| |by simpl; rewrite Em]. simpl. rewrite Em. by apply framed_id. }
  destruct (flag_dirty_cas cl || isWatchedKeyExpired cl now || flag_dirty_exec cl) eqn:Ed; simpl.
  { eapply stepped_own; [done|done| |].
    - simpl. rewrite Em. by apply framed_discard.
    - simpl. rewrite Em. simpl. destruct (flag_dirty_exec cl); [done|]. by rewrite orb_false_r in Ed; rewrite Ed. }
  apply orb_false_iff in Ed as [Ed1 Ed2].
  destruct (framed_unwatch s c cl Hok Hu Hcl) as (Hok1 & Hu1 & E1).
  destruct (exec_loop_spec (commands (mstate cl)) _ Hok1 Hu1) as (Hok2 & Hu2 & E2).
  destruct (exec_loop call _ _) as [s2 ts]. simpl in *.
  assert (clients s2 !! c = Some (set_watched cl [])) as Hc2.
  { rewrite E2, E1, lookup_insert_eq. simpl. by rewrite touched_all_none. }
  destruct (framed_discard s2 c _ Hok2 Hu2 Hc2) as (Hok3 & Hu3 & E3).
  split_and!; [done|done| |].
  - intros c'. rewrite E3. simpl. destruct (decide (c' = c)) as [->|Hne].
    + rewrite lookup_insert_eq, Hcl. simpl. rewrite decide_True, Em by done. by rewrite touched_all_none.
    + rewrite lookup_insert_ne, E2, E1, lookup_insert_ne by done.
      destruct (clients s !! c'); simpl; [|done]. rewrite decide_False; [done|congruence].
  - intros c' cl' [= <-]. rewrite Hcl. intros [= <-]. simpl. by rewrite Em, Ed1, Ed2.
Qed.

(** Every step is what each client's own view says. *)
Lemma step_spec s ev : multi_ok s -> unexpired s -> watch_fresh ev ->
  stepped s ev (fst (fst (step call s ev))) (snd (fst (step call s ev))) (snd (step call s ev)).
Proof.
  intros Hok Hu Hf.
  assert (forall c, owner ev = Some c -> clients s !! c = None ->
    step call s ev = (s, snd (fst (step call s ev)), [])) as Hno.
  { intros c Ho Hc. destruct ev; try discriminate Ho; injection Ho as ->; simpl;
      unfold multiCommand, otherCommand, discardCommand, execCommand, watchCommand; by rewrite Hc. }
  destruct (owner ev) as [c|] eqn:Ho; [destruct (clients s !! c) as [cl|] eqn:Hcl|].
  2: { rewrite (Hno c eq_refl Hcl). by eapply stepped_unknown. }
  - destruct ev; try discriminate Ho; injection Ho as ->; simpl;
      unfold multiCommand, discardCommand, watchCommand, unwatchCommand; rewrite ?Hcl.
    + destruct (flag_multi cl) eqn:Em; (eapply stepped_own; [done|done| |simpl; by rewrite Em]); simpl.
      * replace (set_flags cl true _ _) with cl by (destruct cl; simpl in *; by subst). by apply framed_id.
      * by eapply framed_set.
    + by eapply stepped_command.
    + eapply stepped_own; [done|done| |done]. eapply framed_set; [done|done|done|].
      simpl. unfold flagTransaction. by destruct (flag_multi cl).
    + destruct (flag_multi cl) eqn:Em; (eapply stepped_own; [done|done| |simpl; by rewrite Em]);
        simpl; rewrite Em; [by apply framed_discard|by apply framed_id].
    + by eapply stepped_exec.
    + destruct (flag_multi cl) eqn:Em; [|destruct (flag_dirty_cas cl) eqn:Ed];
        (eapply stepped_own; [done|done| |simpl; by rewrite Em]); simpl; rewrite Em, ?Ed;
        [by apply framed_id|by apply framed_id|by apply framed_watch].
    + destruct (flag_multi cl) eqn:Em.
      * destruct (stepped_command s c cl cmd flags len argc Hok Hu Hcl) as (? & ? & Hs & Hr).
        split_and!; [done|done| |done]. intros c'. rewrite Hs.
        destruct (clients s !! c') as [cl'|] eqn:E; [|done]. simpl.
        case_decide as Ec; [|done]. injection Ec as <-. rewrite Hcl in E. injection E as <-. by rewrite Em.
      * destruct (framed_unwatch s c cl Hok Hu Hcl) as (Hok1 & Hu1 & E1).
        rewrite E1, lookup_insert_eq. eapply stepped_own; [done|done| |done].
        eapply framed_trans; [by split_and!|]. simpl. rewrite Em.
        eapply (framed_set _ _ (set_watched cl [])); [done|done| |done]. by rewrite E1, lookup_insert_eq.
    + eapply stepped_own; [done|done| |done]. by eapply framed_set.
  - destruct ev; try done; simpl.
    + destruct (touches_spec [t] s Hok Hu) as (? & ? & E). by split_and!.
    + destruct (flush_spec s db exists_ Hok Hu) as (? & ? & E). by split_and!.
Qed.

End Local.

End Inv.

(** ** The ideal optimistic lock *)

Section Spec.
Context {C : Type}.
Implicit Types (ev : event (C := C)) (ts : list touch) (c : Z).

(** A client's transaction: it watches a set of keys and is dirty once one of
    them changed; everything sent after MULTI is queued. *)
Record tx := Tx {
  x_multi : bool;
  x_dirty : bool;
  x_abort : bool;
  x_db : Z;
  x_watch : gset dbkey;
  x_queue : list C;
}.
Implicit Types x : tx.

Definition tx_reset x : tx := Tx false false false (x_db x) ∅ [].
Definition tx_enqueue x (cmd : C) : tx :=
  Tx (x_multi x) (x_dirty x) (x_abort x) (x_db x) (x_watch x) (x_queue x ++ [cmd]).
Definition tx_dirty x (b : bool) : tx :=
  Tx (x_multi x) (x_dirty x || b) (x_abort x) (x_db x) (x_watch x) (x_queue x).

Definition tx_own x ev : tx :=
  match ev with
  | EvMulti _ => Tx true (x_dirty x) (x_abort x) (x_db x) (x_watch x) (x_queue x)
  | EvCommand _ cmd _ _ _ => if x_multi x then tx_enqueue x cmd else x
  | EvError _ => if x_multi x then Tx true (x_dirty x) true (x_db x) (x_watch x) (x_queue x) else x
  | EvDiscard _ | EvExec _ _ => if x_multi x then tx_reset x else x
  | EvWatch _ _ ks =>
      if x_multi x then x
      else Tx false (x_dirty x) (x_abort x) (x_db x)
             (x_watch x ∪ list_to_set ((fun k => (x_db x, k)) <$> ks)) (x_queue x)
  | EvUnwatch _ cmd _ _ _ =>
      if x_multi x then tx_enqueue x cmd
      else Tx false false (x_abort x) (x_db x) ∅ (x_queue x)
  | EvSelect _ db => Tx (x_multi x) (x_dirty x) (x_abort x) db (x_watch x) (x_queue x)
  | EvTouch _ | EvFlush _ _ => x
  end.

Definition tx_touch x (t : touch) : tx := tx_dirty x (bool_decide ((t_db t, t_key t) ∈ x_watch x)).

(** What a client's transaction becomes when [ev] happens, by the client or by
    another, and touches [ts] on the way. *)
Definition tx_step c x ev ts : tx :=
  match ev with
  | EvFlush db ex => tx_dirty x (hit db ex (elements (x_watch x)))
  | _ => foldl tx_touch (if decide (owner ev = Some c) then tx_own x ev else x) ts
  end.

Definition tx_reply x ev : reply C :=
  match ev with
  | EvMulti _ => if x_multi x then RError else ROk
  | EvError _ => RError
  | EvDiscard _ => if x_multi x then ROk else RError
  | EvExec _ now =>
      if negb (x_multi x) then RError
      else if x_abort x then RExecAbort
      else if x_dirty x || existsb (fun id => now (fst id) (snd id)) (elements (x_watch x))
      then RNullArray
      else RArray (x_queue x)
  | EvWatch _ _ _ => if x_multi x then RError else ROk
  | _ => ROk
  end.

(** The replies client [c] gets in a trace are those of the ideal lock. *)
Fixpoint agrees c x (tr : list (event (C := C) * reply C * list touch)) : Prop :=
  match tr with
  | [] => True
  | (ev, r, ts) :: tr =>
      (owner ev = Some c -> r = tx_reply x ev) /\ agrees c (tx_step c x ev ts) tr
  end.

(** What is left open: a dirty client has dropped its watches and no longer
    queues. *)
Record sim (cl : client C) x : Prop := {
  sm_multi : flag_multi cl = x_multi x;
  sm_dirty : flag_dirty_cas cl = x_dirty x;
  sm_abort : flag_dirty_exec cl = x_abort x;
  sm_db : client_db cl = x_db x;
  sm_watch : x_dirty x = false -> list_to_set (wkeys cl) = x_watch x;
  sm_queue : x_dirty x = false -> x_abort x = false -> commands (mstate cl) = x_queue x;
  sm_idle : x_multi x = false -> commands (mstate cl) = [] /\ x_queue x = [];
}.

Lemma sim_touch cl x t : sim cl x -> sim (touched (t_db t, t_key t) cl) (tx_touch x t).
Proof.
  intros [Hm Hd Ha Hb Hw Hq Hi]. unfold touched, tx_touch, tx_dirty. destruct (x_dirty x) eqn:Ed.
  - case_decide; split; simpl; done || (intros; discriminate) || tauto.
  - specialize (Hw eq_refl). specialize (Hq eq_refl).
    rewrite <- Hw. case_decide as Hin.
    + rewrite bool_decide_eq_true_2 by (by apply elem_of_list_to_set). by split.
    + rewrite bool_decide_eq_false_2 by (by rewrite elem_of_list_to_set). by split.
Qed.

Lemma sim_touches ts cl x : sim cl x -> sim (touched_all ts cl) (foldl tx_touch x ts).
Proof.
  revert cl x. induction ts as [|t ts IH]; intros cl x H; [done|]. apply IH. by apply sim_touch.
Qed.

Lemma hit_ext db ex l l' : (forall i, i ∈ l <-> i ∈ l') -> hit db ex l = hit db ex l'.
Proof.
  intros H. unfold hit. apply eq_bool_prop_intro. rewrite !Is_true_true, !existsb_exists.
  split; intros (i & Hi & Hb); exists i; split; try done; apply list_elem_of_In; apply H;
    by apply list_elem_of_In.
Qed.

Lemma sim_watches cl x : sim cl x -> x_dirty x = false ->
  forall i, i ∈ wkeys cl <-> i ∈ elements (x_watch x).
Proof. intros H Hd i. by rewrite elem_of_elements, <- (sm_watch _ _ H Hd), elem_of_list_to_set. Qed.

Lemma sim_flush cl x db ex : sim cl x ->
  sim (mark (hit db ex (wkeys cl)) cl) (tx_dirty x (hit db ex (elements (x_watch x)))).
Proof.
  intros H. destruct (x_dirty x) eqn:Ed.
  - destruct H as [Hm Hd Ha Hb Hw Hq Hi]. split; simpl; rewrite ?Hd, ?Ed; done || tauto.
  - rewrite (hit_ext db ex _ _ (sim_watches _ _ H Ed)).
    destruct H as [Hm Hd Ha Hb Hw Hq Hi]. split; simpl; rewrite ?Ed; try done; [by rewrite Hd, Ed|tauto|tauto].
Qed.

(** Queueing keeps the relation inside MULTI, where only the queue matters. *)
Lemma sim_enqueue cl x cmd f l a : sim cl x -> x_multi x = true ->
  sim (queueMultiCommand cl cmd f l a) (tx_enqueue x cmd).
Proof.
  intros [Hm Hd Ha Hb Hw Hq Hi] Em. unfold queueMultiCommand, tx_enqueue. rewrite Hd, Ha.
  destruct (x_dirty x) eqn:Ed; [|destruct (x_abort x) eqn:Ea]; split; simpl; try done; try congruence.
  intros _ _. by rewrite Hq.
Qed.

Lemma wkeys_watch ks (cl : client C) :
  let cl' := foldl add_watch cl ks in
  flag_multi cl' = flag_multi cl /\ flag_dirty_cas cl' = flag_dirty_cas cl /\
  flag_dirty_exec cl' = flag_dirty_exec cl /\ client_db cl' = client_db cl /\
  mstate cl' = mstate cl /\
  (list_to_set (wkeys cl') : gset dbkey) =
    list_to_set (wkeys cl) ∪ list_to_set ((fun k => (client_db cl, k)) <$> ks).
Proof.
  revert cl. induction ks as [|k ks IH]; intros cl; simpl.
  { split_and!; try done. by rewrite (right_id_L ∅ (∪)). }
  destruct (IH (add_watch cl k)) as (E1 & E2 & E3 & E4 & E5 & E6). rewrite E1, E2, E3, E4, E5, E6.
  clear. unfold add_watch. case_decide as Hin; split_and!; try done.
  - apply set_eq. intros i. rewrite !elem_of_union, !elem_of_list_to_set, elem_of_singleton.
    split; [tauto|]. intros [?|[->|?]]; tauto.
  - unfold wkeys. simpl. rewrite fmap_app, list_to_set_app_L. simpl. by rewrite (right_id_L ∅ (∪)), (assoc_L (∪)).
Qed.

Lemma sim_own cl x ev c : sim cl x -> watch_fresh ev -> owner ev = Some c ->
  sim (local cl ev) (tx_own x ev).
Proof.
  intros H Hf Ho. pose proof H as [Hm Hd Ha Hb Hw Hq Hi].
  destruct ev; try discriminate Ho; simpl; unfold flagTransaction; rewrite ?Hm.
  - split; simpl; try done.
  - destruct (x_multi x) eqn:Em; [by apply sim_enqueue|done].
  - destruct (x_multi x) eqn:Em; [|done]. split; simpl; try done.
  - destruct (x_multi x) eqn:Em; [|done]. by split.
  - destruct (x_multi x) eqn:Em; [|done]. by split.
  - destruct (x_multi x) eqn:Em; [done|]. simpl. rewrite Hd.
    destruct (wkeys_watch ks cl) as (E1 & E2 & E3 & E4 & E5 & E6).
    destruct (x_dirty x) eqn:Ed; split; simpl; rewrite ?E1, ?E2, ?E3, ?E4, ?E5; try done; try congruence.
    intros _. by rewrite E6, Hb, Hw.
  - destruct (x_multi x) eqn:Em; [by apply sim_enqueue|]. destruct (Hi eq_refl) as [Hc Hx].
    split; simpl; try done. by rewrite Hc, Hx.
  - by split.
Qed.

Lemma expired_ext (now : Z -> key -> bool) (cl : client C) x : sim cl x -> x_dirty x = false ->
  fresh_watches cl ->
  isWatchedKeyExpired cl now = existsb (fun id => now (fst id) (snd id)) (elements (x_watch x)).
Proof.
  intros H Hd Hf. pose proof (sim_watches _ _ H Hd) as Hi. unfold isWatchedKeyExpired.
  apply eq_bool_prop_intro. rewrite !Is_true_true, !existsb_exists. split.
  - intros (wk & Hin%list_elem_of_In & Hb). apply andb_true_iff in Hb as [_ Hb]. exists (wk_id wk).
    split; [|done]. apply list_elem_of_In, Hi. by apply list_elem_of_fmap_2.
  - intros (i & Hin%list_elem_of_In & Hb). apply Hi, list_elem_of_fmap in Hin as (wk & -> & Hin).
    exists wk. split; [by apply list_elem_of_In|].
    unfold fresh_watches in Hf. rewrite Forall_forall in Hf. by rewrite (Hf _ Hin).
Qed.

Lemma sim_reply cl x ev : sim cl x -> fresh_watches cl -> client_reply cl ev = tx_reply x ev.
Proof.
  intros H Hf. pose proof H as [Hm Hd Ha Hb Hw Hq Hi].
  destruct ev; simpl; rewrite ?Hm, ?Ha, ?Hd; try done.
  destruct (x_multi x); [|done]. simpl. destruct (x_abort x) eqn:Ea; [done|].
  destruct (x_dirty x) eqn:Ed; [done|]. simpl. rewrite (expired_ext now cl x H Ed Hf).
  destruct (existsb _ _); [done|]. f_equal. by apply Hq.
Qed.

Lemma sim_step c cl x ev ts : sim cl x -> watch_fresh ev ->
  sim (client_step c cl ev ts) (tx_step c x ev ts).
Proof.
  intros H Hf. destruct (owner ev) as [o|] eqn:Ho.
  - assert (sim (if decide (owner ev = Some c) then local cl ev else cl)
                (if decide (owner ev = Some c) then tx_own x ev else x)) as H'.
    { case_decide; [by eapply sim_own|done]. }
    apply (sim_touches ts) in H'. destruct ev; try discriminate Ho; exact H'.
  - destruct ev; try discriminate Ho; simpl; [by apply sim_touches|by apply sim_flush].
Qed.

Lemma run_agrees (call : server C -> C -> list touch) c evs s cl x :
  multi_ok s -> unexpired s -> Forall watch_fresh evs -> clients s !! c = Some cl -> sim cl x ->
  agrees c x (run call s evs).
Proof.
  intros Hok Hu Hf. revert s cl x Hok Hu.
  induction Hf as [|ev evs Hev _ IH]; intros s cl x Hok Hu Hcl H; simpl; [done|].
  destruct (step_spec call s ev Hok Hu Hev) as (Hok' & Hu' & Hs & Hr).
  destruct (step call s ev) as [[s' r] ts]. simpl in *. split.
  - intros Ho. rewrite (Hr c cl Ho Hcl). by apply sim_reply; [|apply (Hu c)].
  - eapply IH; [done|done| |by apply sim_step]. by rewrite Hs, Hcl.
Qed.

(** The state after a run. *)
Fixpoint final (call : server C -> C -> list touch) (s : server C) (evs : list event) : server C :=
  match evs with [] => s | ev :: evs => final call (fst (fst (step call s ev))) evs end.

Lemma final_ok (call : server C -> C -> list touch) evs s :
  multi_ok s -> unexpired s -> Forall watch_fresh evs ->
  multi_ok (final call s evs) /\ unexpired (final call s evs).
Proof.
  intros Hok Hu Hf. revert s Hok Hu. induction Hf as [|ev evs Hev _ IH]; intros s Hok Hu; [done|].
  destruct (step_spec call s ev Hok Hu Hev) as (Hok' & Hu' & _). by apply IH.
Qed.

(** Connected clients that have done nothing yet. *)
Definition fresh_client (db : Z) : client C :=
  Client false false false db [] initClientMultiState.
Definition fresh_server (cs : gmap Z Z) : server C := Server (fresh_client <$> cs) ∅ 0.
Definition fresh_tx (db : Z) : tx := Tx false false false db ∅ [].

Lemma fresh_server_ok cs : multi_ok (fresh_server cs) /\ unexpired (fresh_server cs).
Proof.
  assert (forall c cl, clients (fresh_server cs) !! c = Some cl -> watched cl = []) as Hw.
  { intros c cl. simpl. rewrite lookup_fmap. destruct (cs !! c); [|done]. by intros [= <-]. }
  split; [split|].
  - intros c id. split.
    + intros (cl & Hcl & Hin). unfold wkeys in Hin. rewrite (Hw c cl Hcl) in Hin. by apply not_elem_of_nil in Hin.
    + intros (l & E & _). done.
  - intros id l E. done.
  - intros c cl Hcl. unfold wkeys. rewrite (Hw c cl Hcl). constructor.
  - symmetry. unfold count_watching. change (watching_clients (fresh_server cs)) with (Z.of_nat 0). f_equal.
    apply map_size_empty_iff, map_empty. intros c. apply map_lookup_filter_None. right.
    intros cl Hcl Hx. by apply Hx, (Hw c).
  - intros c cl Hcl. unfold fresh_watches. rewrite (Hw c cl Hcl). constructor.
Qed.

End Spec.
Arguments tx : clear implicits.

(** ** Theorems *)

(** C1: optimistic locking.  From a fresh server, whatever the clients send
    and whatever keys change in between, every client gets exactly the replies
    of the ideal lock: EXEC answers the queued commands when no watched key was
    touched, flushed or has expired since its WATCH, nil when one was, EXECABORT
    after a command was refused; as long as no WATCH names an expired key. *)
Theorem multi_refines {C : Type} (call : server C -> C -> list touch) (cs : gmap Z Z)
  (evs : list event) (c db : Z) :
  Forall watch_fresh evs -> cs !! c = Some db ->
  agrees c (fresh_tx db) (run call (fresh_server cs) evs).
Proof.
  intros Hf Hc. destruct (fresh_server_ok (C := C) cs) as [Hok Hu].
  eapply (run_agrees call c evs _ (fresh_client db)); [done|done|done| |by split].
  simpl. by rewrite lookup_fmap, Hc.
Qed.

(** The two views of the watches.  After any run the lists of the clients
    and the lists of the keys hold the same watches, once each, no empty list
    stays in the table, and [watching_clients] counts the clients that watch. *)
Theorem multi_invariant {C : Type} (call : server C -> C -> list touch) (cs : gmap Z Z)
  (evs : list event) :
  Forall watch_fresh evs -> multi_ok (final call (fresh_server cs) evs).
Proof.
  intros Hf. destruct (fresh_server_ok (C := C) cs) as [Hok Hu]. by apply final_ok.
Qed.

(** A watch set on a key that had already expired stops the loop of
    [touchWatchedKey].  While it is the first of the key's watches, a change that
    leaves the key in the database flags no client at all. *)
Theorem expired_watch_hides_touch {C : Type} (s : server C) (db : Z) (k : key) (c : Z) (cs : list Z)
  (cl : client C) :
  watched_keys s !! (db, k) = Some (c :: cs) -> clients s !! c = Some cl ->
  WK db k true ∈ watched cl ->
  touchWatchedKey s db k true = s.
Proof.
  intros Ht Hcl Hin. unfold touchWatchedKey. rewrite Ht. simpl. rewrite Hcl.
  assert (existsb (fun wk => bool_decide (wk_id wk = (db, k)) && wk_expired wk) (watched cl) = true) as ->;
    [|done].
  apply existsb_exists. exists (WK db k true). split; [by apply list_elem_of_In|].
  by rewrite bool_decide_eq_true_2.
Qed.

(** ** Witnesses *)

Module Witness.
(** A command is a number, and writes the key of that name in database 0. *)
Definition call (s : server Z) (cmd : Z) : list touch := [Touch 0 [cmd] true].
Definition now (db : Z) (k : key) : bool := false.
Definition two : gmap Z Z := {[ 1 := 0; 2 := 0 ]}.
(** Client 1 watches key 7, client 2 writes it; then the same with key 8 written. *)
Definition evs : list (event (C := Z)) :=
  [EvWatch 1 now [[7]]; EvMulti 1; EvCommand 1 5 0 0 1; EvCommand 2 7 0 0 1; EvExec 1 now;
   EvWatch 1 now [[7]]; EvMulti 1; EvCommand 1 5 0 0 1; EvCommand 2 8 0 0 1; EvExec 1 now].

Lemma evs_fresh : Forall watch_fresh evs.
Proof. repeat constructor; simpl; auto. Qed.

(** A server where client 1 watches an expired key and client 2 watches it
    later, after it was written. *)
Definition stale : server Z :=
  Server {[ 1 := Client false false false 0 [WK 0 [7] true] initClientMultiState;
            2 := Client true false false 0 [WK 0 [7] false]
                   (MState [5] 0 0 0 2) ]}
    {[ (0, [7]) := [1; 2] ]} 2.
End Witness.

Lemma multi_refines_witness :
  ((fun e => snd (fst e)) <$> run Witness.call (fresh_server Witness.two) Witness.evs =
     [ROk; ROk; ROk; ROk; RNullArray; ROk; ROk; ROk; ROk; RArray [5]]) /\
  agrees 1 (fresh_tx 0) (run Witness.call (fresh_server Witness.two) Witness.evs).
Proof.
  split; [vm_compute; reflexivity|].
  apply multi_refines; [exact Witness.evs_fresh|vm_compute; reflexivity].
Defined.

Lemma multi_invariant_witness :
  watching_clients (final Witness.call (fresh_server Witness.two) (take 6 Witness.evs)) = 1 /\
  multi_ok (final Witness.call (fresh_server Witness.two) (take 6 Witness.evs)).
Proof.
  split; [vm_compute; reflexivity|].
  apply multi_invariant. apply Forall_take. exact Witness.evs_fresh.
Defined.

(** Client 2's EXEC goes through although the key it watches changed. *)
Lemma expired_watch_hides_touch_witness :
  touchWatchedKey Witness.stale 0 [7] true = Witness.stale /\
  snd (fst (execCommand Witness.call (touchWatchedKey Witness.stale 0 [7] true) 2 Witness.now)) = RArray [5].
Proof.
  split; [|vm_compute; reflexivity].
  refine (expired_watch_hides_touch Witness.stale 0 [7] 1 [2]
    (Client false false false 0 [WK 0 [7] true] initClientMultiState) _ _ _);
    [vm_compute; reflexivity|vm_compute; reflexivity|left].
Defined.

End Multi.
