(* ===== verification/Lzf.v ===== *)
(** * Lzf: string compression (lzf_c.c, lzf_d.c, lzfP.h)

    The compressor runs with the configuration of lzfP.h: a hash table of
    65536 input addresses that is NOT initialised ([INIT_HTAB] 0), the
    [VERY_FAST] hash, and pointers in the slots.  The table is a function of
    any contents.  Pointers into the two buffers are offsets; only the hash
    table holds addresses, relative to the address [base] of the input.

    Every access to a buffer is checked here: [Abort] is an access outside of
    it, which the theorems exclude.  A return value 0 of the C functions is
    [None]. *)
From S2P Require Import Prelude.

Module Lzf.

Definition rd (b : list Z) (i : Z) : outcome Z :=
  if (0 <=? i) && (i <? Z.of_nat (length b)) then Ret (at_ b (Z.to_nat i)) else Abort.
Definition wr (b : list Z) (i v : Z) : outcome (list Z) :=
  if (0 <=? i) && (i <? Z.of_nat (length b)) then Ret (store b (Z.to_nat i) [u8 v]) else Abort.

(** ** The compressor *)

Definition HLOG : Z := 16.
Definition MAX_LIT : Z := 32.
Definition MAX_OFF : Z := 8192.
Definition MAX_REF : Z := 264.

Definition IDX (h : Z) : Z :=
  Z.land (u32 (Z.shiftr h (3 * 8 - HLOG) - u32 (h * 5))) (Z.shiftl 1 HLOG - 1).

Definition htab_set (h : Z -> Z) (i v : Z) : Z -> Z := fun j => if j =? i then v else h j.

(** The local variables that change. *)
Record cstate := CState {
  c_ip : Z;
  c_op : Z;
  c_lit : Z;
  c_hval : Z;
  c_htab : Z -> Z;
  c_out : list Z;
}.

Section Compress.
Context (in_data : list Z) (base out_len : Z).

Definition in_len : Z := Z.of_nat (length in_data).

Definition FRST (p : Z) : outcome Z :=
  let* a := rd in_data p in let* b := rd in_data (p + 1) in Ret (Z.lor (Z.shiftl a 8) b).
Definition NEXT (v p : Z) : outcome Z :=
  let* c := rd in_data (p + 2) in Ret (Z.lor (u32 (Z.shiftl v 8)) c).

(** The tests on a candidate: [off] when all hold. *)
Definition candidate (ref ip : Z) : outcome (option Z) :=
  let off := u64 (base + ip - ref - 1) in
  if (off <? MAX_OFF) && (base <? ref) then
    let r := ref - base in
    let* r2 := rd in_data (r + 2) in
    let* i2 := rd in_data (ip + 2) in
    if r2 =? i2 then
      let* r0 := rd in_data r in
      let* r1 := rd in_data (r + 1) in
      let* i0 := rd in_data ip in
      let* i1 := rd in_data (ip + 1) in
      if Z.lor (Z.shiftl r1 8) r0 =? Z.lor (Z.shiftl i1 8) i0 then Ret (Some off) else Ret None
    else Ret None
  else Ret None.

(** The sixteen unrolled comparisons: the length, and whether one broke out. *)
Fixpoint unrolled (n : nat) (r ip len : Z) : outcome (Z * bool) :=
  match n with
  | O => Ret (len, false)
  | S n =>
      let len := len + 1 in
      let* a := rd in_data (r + len) in
      let* b := rd in_data (ip + len) in
      if a =? b then unrolled n r ip len else Ret (len, true)
  end.

(** [do len++; while (len < maxlen && ref[len] == ip[len])] *)
Fixpoint extend (fuel : nat) (r ip maxlen len : Z) : outcome Z :=
  let len := len + 1 in
  if len <? maxlen then
    match fuel with
    | O => Abort
    | S fuel =>
        let* a := rd in_data (r + len) in
        let* b := rd in_data (ip + len) in
        if a =? b then extend fuel r ip maxlen len else Ret len
    end
  else Ret len.

Definition match_len (r ip maxlen : Z) : outcome Z :=
  let* (len, broke) := if 16 <? maxlen then unrolled 16 r ip 2 else Ret (2, false) in
  if broke then Ret len else extend (Z.to_nat maxlen) r ip maxlen len.

(** One literal byte, and the end of a full run. *)
Definition put_lit (st : cstate) : outcome cstate :=
  let* c := rd in_data (c_ip st) in
  let* out := wr (c_out st) (c_op st) c in
  let lit := c_lit st + 1 in
  let op := c_op st + 1 in
  let ip := c_ip st + 1 in
  if lit =? MAX_LIT then
    let* out := wr out (op - lit - 1) (lit - 1) in
    Ret (CState ip (op + 1) 0 (c_hval st) (c_htab st) out)
  else Ret (CState ip op lit (c_hval st) (c_htab st) out).

(** How an iteration of the main loop ends. *)
Inductive flow := Return0 | Break (st : cstate) | Continue (st : cstate).

(** The match is written and the input skipped; the last two positions of the
    match enter the table. *)
Definition emit_match (st : cstate) (r off : Z) : outcome flow :=
  let ip := c_ip st in
  let lit := c_lit st in
  let op := c_op st in
  let nolit := if lit =? 0 then 1 else 0 in
  let maxlen := in_len - ip - 2 in
  let maxlen := if MAX_REF <? maxlen then MAX_REF else maxlen in
  if (out_len <=? op + 3 + 1) && (out_len <=? op - nolit + 3 + 1) then Ret Return0
  else
    let* out := wr (c_out st) (op - lit - 1) (lit - 1) in
    let op := op - nolit in
    let* len := match_len r ip maxlen in
    let len := len - 2 in
    let ip := ip + 1 in
    let* (out, op) :=
      if len <? 7 then
        let* out := wr out op (Z.shiftr off 8 + Z.shiftl len 5) in Ret (out, op + 1)
      else
        let* out := wr out op (Z.shiftr off 8 + Z.shiftl 7 5) in
        let* out := wr out (op + 1) (len - 7) in Ret (out, op + 2) in
    let* out := wr out op off in
    let op := op + 1 + 1 in
    let ip := ip + len + 1 in
    if in_len - 2 <=? ip then Ret (Break (CState ip op 0 (c_hval st) (c_htab st) out))
    else
      let ip := ip - 2 in
      let* hval := FRST ip in
      let* hval := NEXT hval ip in
      let htab := htab_set (c_htab st) (IDX hval) (base + ip) in
      let ip := ip + 1 in
      let* hval := NEXT hval ip in
      let htab := htab_set htab (IDX hval) (base + ip) in
      let ip := ip + 1 in
      Ret (Continue (CState ip op 0 hval htab out)).

Definition compress_step (st : cstate) : outcome flow :=
  let ip := c_ip st in
  let* hval := NEXT (c_hval st) ip in
  let ref := c_htab st (IDX hval) in
  let st := CState ip (c_op st) (c_lit st) hval (htab_set (c_htab st) (IDX hval) (base + ip)) (c_out st) in
  let* m := candidate ref ip in
  match m with
  | Some off => emit_match st (ref - base) off
  | None =>
      if out_len <=? c_op st then Ret Return0
      else let* st := put_lit st in Ret (Continue st)
  end.

(** [None] is [return 0]. *)
Fixpoint compress_loop (fuel : nat) (st : cstate) : outcome (option cstate) :=
  if c_ip st <? in_len - 2 then
    match fuel with
    | O => Abort
    | S fuel =>
        let* f := compress_step st in
        match f with
        | Return0 => Ret None
        | Break st => Ret (Some st)
        | Continue st => compress_loop fuel st
        end
    end
  else Ret (Some st).

Fixpoint tail_loop (fuel : nat) (st : cstate) : outcome cstate :=
  if c_ip st <? in_len then
    match fuel with
    | O => Abort
    | S fuel => let* st := put_lit st in tail_loop fuel st
    end
  else Ret st.

End Compress.

(** The output buffer afterwards and the number of bytes used; what is in the
    buffer after a [return 0] is of no use to anybody. *)
Definition lzf_compress (in_data : list Z) (base : Z) (htab : Z -> Z) (out_data : list Z)
  : outcome (option (list Z * Z)) :=
  let in_len := Z.of_nat (length in_data) in
  let out_len := Z.of_nat (length out_data) in
  if (in_len =? 0) || (out_len =? 0) then Ret None
  else
    let* hval := FRST in_data 0 in
    let* r := compress_loop in_data base out_len (length in_data) (CState 0 1 0 hval htab out_data) in
    match r with
    | None => Ret None
    | Some st =>
        if out_len <? c_op st + 3 then Ret None
        else
          let* st := tail_loop in_data (length in_data) st in
          let* out := wr (c_out st) (c_op st - c_lit st - 1) (c_lit st - 1) in
          let op := c_op st - (if c_lit st =? 0 then 1 else 0) in
          Ret (Some (out, op))
    end.

(** ** The decompressor *)

(** [*op++ = *ref++], [n] times. *)
Fixpoint copy_octets (n : nat) (out : list Z) (op ref : Z) : outcome (list Z) :=
  match n with
  | O => Ret out
  | S n =>
      let* c := rd out ref in
      let* out := wr out op c in
      copy_octets n out (op + 1) (ref + 1)
  end.

(** [*op++ = *ip++], [n] times. *)
Fixpoint copy_literals (n : nat) (inb out : list Z) (op ip : Z) : outcome (list Z) :=
  match n with
  | O => Ret out
  | S n =>
      let* c := rd inb ip in
      let* out := wr out op c in
      copy_literals n inb out (op + 1) (ip + 1)
  end.

(** [memcpy] between disjoint ranges of the output. *)
Definition memcpy_out (out : list Z) (op ref len : Z) : outcome (list Z) :=
  if (0 <=? ref) && (ref + len <=? op) && (op + len <=? Z.of_nat (length out))
  then Ret (memmove out (Z.to_nat op) (Z.to_nat ref) (Z.to_nat len))
  else Abort.

(** The [switch (len)] on a back reference; [len] octets are 2 fewer than those copied. *)
Definition copy_ref (out : list Z) (op ref len : Z) : outcome (list Z) :=
  if len <=? 9 then copy_octets (Z.to_nat (len + 2)) out op ref
  else
    let len := len + 2 in
    if ref + len <=? op then memcpy_out out op ref len
    else copy_octets (Z.to_nat len) out op ref.

(** One iteration: the new [ip], [op] and buffer, [None] for [return 0]. *)
Definition decompress_step (in_data out : list Z) (ip op : Z) : outcome (option (Z * Z * list Z)) :=
  let in_end := Z.of_nat (length in_data) in
  let out_end := Z.of_nat (length out) in
  let* ctrl := rd in_data ip in
  let ip := ip + 1 in
  if ctrl <? 32 then
    let ctrl := ctrl + 1 in
    if out_end <? op + ctrl then Ret None
    else if in_end <? ip + ctrl then Ret None
    else
      let* out := copy_literals (Z.to_nat ctrl) in_data out op ip in
      Ret (Some (ip + ctrl, op + ctrl, out))
  else
    let len := Z.shiftr ctrl 5 in
    let ref := op - Z.shiftl (Z.land ctrl 31) 8 - 1 in
    if in_end <=? ip then Ret None
    else
      let* (len, ip, short) :=
        if len =? 7 then
          let* b := rd in_data ip in
          Ret (len + b, ip + 1, in_end <=? ip + 1)
        else Ret (len, ip, false) in
      if (short : bool) then Ret None
      else
        let* b := rd in_data ip in
        let ref := ref - b in
        let ip := ip + 1 in
        if out_end <? op + len + 2 then Ret None
        else if ref <? 0 then Ret None
        else
          let* out := copy_ref out op ref len in
          Ret (Some (ip, op + len + 2, out)).

Fixpoint decompress_loop (fuel : nat) (in_data out : list Z) (ip op : Z)
  : outcome (option (list Z * Z)) :=
  if ip <? Z.of_nat (length in_data) then
    match fuel with
    | O => Abort
    | S fuel =>
        let* r := decompress_step in_data out ip op in
        match r with
        | None => Ret None
        | Some (ip, op, out) => decompress_loop fuel in_data out ip op
        end
    end
  else Ret (Some (out, op)).

Definition lzf_decompress (in_data out_data : list Z) : outcome (option (list Z * Z)) :=
  decompress_loop (length in_data) in_data out_data 0 0.

(** ** The format *)

(** The plain text as a sequence of tokens: literal bytes, or [n] bytes copied
    from [off + 1] bytes back. *)
Inductive token := Lit (l : list Z) | Ref (off n : nat).

Fixpoint copy_back (n : nat) (p : list Z) (off : nat) : list Z :=
  match n with
  | O => p
  | S n => copy_back n (p ++ [at_ p (length p - 1 - off)]) off
  end.

Definition expand (p : list Z) (t : token) : list Z :=
  match t with Lit l => p ++ l | Ref off n => copy_back n p off end.

Definition tok_ok (p : list Z) (t : token) : Prop :=
  match t with
  | Lit l => (1 <= length l <= 32)%nat /\ bytes l
  | Ref off n => (off < length p)%nat /\ Z.of_nat off < MAX_OFF /\ (3 <= n <= 264)%nat
  end.

Definition enc (t : token) : list Z :=
  match t with
  | Lit l => Z.of_nat (length l) - 1 :: l
  | Ref off n =>
      let o := Z.of_nat off in
      let l := Z.of_nat n - 2 in
      if l <? 7 then [o / 256 + l * 32; o mod 256] else [o / 256 + 224; l - 7; o mod 256]
  end.

Fixpoint toks_ok (p : list Z) (ts : list token) : Prop :=
  match ts with [] => True | t :: ts => tok_ok p t /\ toks_ok (expand p t) ts end.

Definition plain (p : list Z) (ts : list token) : list Z := foldl expand p ts.
Definition encode (ts : list token) : list Z := concat (map enc ts).
#[local] Arguments plain : simpl never.
#[local] Arguments encode : simpl never.

Lemma toks_ok_app p ts t : toks_ok p ts -> tok_ok (plain p ts) t -> toks_ok p (ts ++ [t]).
Proof. revert p. induction ts as [|u ts IH]; intros p; simpl; [tauto|]. intros [? ?] ?. auto. Qed.

Lemma plain_app p ts t : plain p (ts ++ [t]) = expand (plain p ts) t.
Proof. unfold plain. by rewrite foldl_app. Qed.

Lemma encode_app ts t : encode (ts ++ [t]) = encode ts ++ enc t.
Proof. unfold encode. rewrite map_app, concat_app. simpl. by rewrite app_nil_r. Qed.

Lemma copy_back_length n p off : length (copy_back n p off) = (length p + n)%nat.
Proof.
  revert p. induction n as [|n IH]; intros p; simpl; [lia|]. rewrite IH, length_app. simpl. lia.
Qed.

Lemma copy_back_prefix n p off : take (length p) (copy_back n p off) = p.
Proof.
  revert p. induction n as [|n IH]; intros p; simpl; [apply firstn_all|].
  specialize (IH (p ++ [at_ p (length p - 1 - off)])).
  apply (f_equal (take (length p))) in IH. rewrite take_take, take_app_length in IH.
  rewrite length_app in IH. simpl in IH. by rewrite Nat.min_l in IH by lia.
Qed.

Lemma expand_prefix p t : take (length p) (expand p t) = p.
Proof. destruct t; simpl; [apply take_app_length|apply copy_back_prefix]. Qed.

(** ** Checked accesses *)

Lemma rd_ret b i : 0 <= i < Z.of_nat (length b) -> rd b i = Ret (at_ b (Z.to_nat i)).
Proof. intros H. unfold rd. repeat case_bool; try lia. done. Qed.

Lemma wr_ret b i v : 0 <= i < Z.of_nat (length b) -> wr b i v = Ret (store b (Z.to_nat i) [u8 v]).
Proof. intros H. unfold wr. repeat case_bool; try lia. done. Qed.

Lemma at_byte b i : bytes b -> (i < length b)%nat -> 0 <= at_ b i < 256.
Proof. intros Hb Hi. unfold at_. rewrite (Forall_nth _ 0) in Hb. by apply Hb. Qed.

Lemma store_end p rest v : rest <> [] -> store (p ++ rest) (length p) [v] = (p ++ [v]) ++ drop 1 rest.
Proof.
  intros Hr. unfold store. rewrite take_app_length. simpl.
  rewrite drop_app_ge by lia. rewrite <- app_assoc. simpl. do 3 f_equal. lia.
Qed.

(** ** Decompression *)

(** What one octet of a copy does when the output is [p] so far. *)
Lemma wr_end p rest v : is_byte v -> rest <> [] ->
  wr (p ++ rest) (Z.of_nat (length p)) v = Ret ((p ++ [v]) ++ drop 1 rest).
Proof.
  intros Hv Hr. rewrite wr_ret.
  - rewrite Nat2Z.id, wrap_small by done. by rewrite store_end.
  - rewrite length_app. destruct rest; [done|]. simpl. lia.
Qed.

Lemma rd_prefix p rest i : 0 <= i < Z.of_nat (length p) -> rd (p ++ rest) i = Ret (at_ p (Z.to_nat i)).
Proof.
  intros H. rewrite rd_ret by (rewrite length_app; lia). unfold at_. by rewrite app_nth1 by lia.
Qed.

Lemma copy_octets_spec n p rest off : bytes p -> (off < length p)%nat -> (n <= length rest)%nat ->
  copy_octets n (p ++ rest) (Z.of_nat (length p)) (Z.of_nat (length p - 1 - off)) =
  Ret (copy_back n p off ++ drop n rest).
Proof.
  revert p rest. induction n as [|n IH]; intros p rest Hb Ho Hn; simpl; [done|].
  rewrite rd_prefix by lia. simpl. rewrite Nat2Z.id.
  pose proof (at_byte p (length p - 1 - off) Hb) as Hx. set (x := at_ p _) in *.
  rewrite wr_end; [|apply Hx; lia|by intros ->; simpl in Hn; lia]. simpl.
  specialize (IH (p ++ [x]) (drop 1 rest)). rewrite length_app in IH. simpl in IH.
  replace (Z.of_nat (length p) + 1) with (Z.of_nat (length p + 1)) by lia.
  replace (Z.of_nat (length p - 1 - off) + 1) with (Z.of_nat (length p + 1 - 1 - off)) by lia.
  rewrite IH.
  - by rewrite drop_drop.
  - apply Forall_app. split; [done|]. constructor; [apply Hx; lia|done].
  - lia.
  - rewrite length_drop. lia.
Qed.

Lemma copy_back_snoc n p off :
  copy_back (S n) p off =
  copy_back n p off ++ [at_ (copy_back n p off) (length p + n - 1 - off)].
Proof.
  revert p. induction n as [|n IH]; intros p.
  - simpl. by rewrite Nat.add_0_r.
  - change (copy_back (S (S n)) p off) with (copy_back (S n) (p ++ [at_ p (length p - 1 - off)]) off).
    rewrite IH, length_app. simpl. do 3 f_equal. lia.
Qed.

Lemma load_snoc b r n : (r + n < length b)%nat -> load b r (S n) = load b r n ++ [at_ b (r + n)].
Proof.
  intros H. unfold load, at_. destruct (lookup_lt_is_Some_2 b (r + n) H) as [x Hx].
  rewrite (nth_lookup_Some _ _ _ _ Hx). apply take_S_r. by rewrite lookup_drop.
Qed.

(** Without overlap the copy is that of a range: what [memcpy] does. *)
Lemma copy_back_disjoint n p off : (off < length p)%nat -> (n <= off + 1)%nat ->
  copy_back n p off = p ++ load p (length p - 1 - off) n.
Proof.
  intros Ho. induction n as [|n IH]; intros Hn.
  - simpl. by rewrite app_nil_r.
  - rewrite copy_back_snoc, IH, load_snoc by lia. rewrite <- app_assoc. do 2 f_equal.
    unfold at_. rewrite app_nth1 by lia. do 2 f_equal. lia.
Qed.

Lemma copy_ref_spec n p rest off : bytes p -> (off < length p)%nat -> (2 <= n <= length rest)%nat ->
  copy_ref (p ++ rest) (Z.of_nat (length p)) (Z.of_nat (length p - 1 - off)) (Z.of_nat n - 2) =
  Ret (copy_back n p off ++ drop n rest).
Proof.
  intros Hb Ho Hn. unfold copy_ref. replace (Z.of_nat n - 2 + 2) with (Z.of_nat n) by lia.
  rewrite Nat2Z.id. case_bool; [apply copy_octets_spec; done || lia|].
  case_bool; [|apply copy_octets_spec; done || lia].
  unfold memcpy_out. repeat case_bool; rewrite ?length_app in *; try lia. simpl. f_equal.
  rewrite !Nat2Z.id. unfold memmove. rewrite copy_back_disjoint by lia.
  assert (load (p ++ rest) (length p - 1 - off) n = load p (length p - 1 - off) n) as ->.
  { unfold load. rewrite drop_app_le by lia. rewrite take_app_le; [done|]. rewrite length_drop. lia. }
  unfold store. rewrite take_app_length, drop_app_ge by lia. rewrite length_load by lia.
  rewrite <- app_assoc. do 3 f_equal. lia.
Qed.

Lemma copy_literals_spec l inb ip p rest : has inb ip l -> bytes l -> (length l <= length rest)%nat ->
  copy_literals (length l) inb (p ++ rest) (Z.of_nat (length p)) (Z.of_nat ip) =
  Ret ((p ++ l) ++ drop (length l) rest).
Proof.
  revert ip p rest. induction l as [|c l IH]; intros ip p rest Hh Hb Hl; simpl; [by rewrite app_nil_r|].
  pose proof (has_bound _ _ _ Hh ltac:(done)) as Hlen. simpl in Hlen.
  rewrite rd_ret by lia. simpl. rewrite Nat2Z.id.
  pose proof (has_at _ _ _ 0 Hh ltac:(simpl; lia)) as Hc. rewrite Nat.add_0_r in Hc. simpl in Hc.
  rewrite Hc. apply Forall_cons_1 in Hb as [Hbc Hbl]. rewrite wr_end; [|done|by intros ->; simpl in Hl; lia]. simpl.
  specialize (IH (S ip) (p ++ [c]) (drop 1 rest)). rewrite length_app in IH. simpl in IH.
  replace (Z.of_nat (length p) + 1) with (Z.of_nat (length p + 1)) by lia.
  replace (Z.of_nat ip + 1) with (Z.of_nat (S ip)) by lia. rewrite IH.
  - by rewrite drop_drop, <- (app_assoc p [c] l).
  - change (c :: l) with ([c] ++ l) in Hh. apply has_app in Hh as [_ Hh]. simpl in Hh.
    by replace (S ip) with (ip + 1)%nat by lia.
  - done.
  - rewrite length_drop. simpl in Hl. lia.
Qed.

Lemma decompress_step_spec inb ip p rest t : has inb ip (enc t) -> tok_ok p t -> bytes p ->
  (length (expand p t) <= length p + length rest)%nat ->
  decompress_step inb (p ++ rest) (Z.of_nat ip) (Z.of_nat (length p)) =
  Ret (Some (Z.of_nat (ip + length (enc t)), Z.of_nat (length (expand p t)),
             expand p t ++ drop (length (expand p t) - length p) rest)).
Proof.
  intros Hh Ht Hb Hl.
  assert (forall k, (k < length (enc t))%nat -> rd inb (Z.of_nat ip + Z.of_nat k) = Ret (nth k (enc t) 0)) as Hrd.
  { intros k Hk. pose proof (has_bound _ _ _ Hh ltac:(intros E; rewrite E in Hk; simpl in Hk; lia)).
    rewrite rd_ret by lia. rewrite <- (has_at _ _ _ k Hh Hk). do 2 f_equal. lia. }
  assert (enc t <> []) as Hne by (destruct t; simpl; [done|by destruct (_ <? 7)]).
  pose proof (has_bound _ _ _ Hh Hne) as Hbd.
  pose proof (Hrd 0%nat ltac:(destruct (enc t); [done|simpl; lia])) as Hrd0. rewrite Z.add_0_r in Hrd0.
  unfold decompress_step. rewrite Hrd0. cbn [obind]. rewrite length_app.
  destruct t as [l|off n]; simpl in Ht.
  - destruct Ht as [Hll Hbl]. simpl in Hh, Hbd, Hl |- *. rewrite length_app in Hl.
    repeat case_bool; try lia.
    replace (Z.to_nat (Z.of_nat (length l) - 1 + 1)) with (length l) by lia.
    replace (Z.of_nat ip + 1) with (Z.of_nat (ip + 1)) by lia.
    rewrite copy_literals_spec.
    + simpl. rewrite length_app. do 5 f_equal; lia || f_equal; lia.
    + change (?x :: l) with ([x] ++ l) in Hh. by apply has_app in Hh as [_ ?].
    + done.
    + lia.
  - destruct Ht as (Ho & Hmo & Hn). unfold MAX_OFF in Hmo. cbn [expand] in *.
    rewrite copy_back_length in *. unfold enc in *.
    set (o := Z.of_nat off) in *. set (L := Z.of_nat n - 2) in *.
    assert (0 <= o / 256 < 32) as Hq by zdiv. assert (0 <= o mod 256 < 256) as Hm by zdiv.
    assert (forall a, 1 <= a <= 7 -> Z.shiftr (o / 256 + a * 32) 5 = a /\
      Z.shiftl (Z.land (o / 256 + a * 32) 31) 8 = o / 256 * 256) as Hc.
    { intros a Ha. rewrite Z.shiftr_div_pow2, Z.shiftl_mul_pow2 by lia.
      change 31 with (2 ^ 5 - 1). rewrite land_mask by lia. change (2 ^ 5) with 32. change (2 ^ 8) with 256.
      split; [zdiv|]. rewrite Z.mod_add by lia. rewrite Z.mod_small by lia. done. }
    assert (Z.of_nat (length p) - o / 256 * 256 - 1 - o mod 256 = Z.of_nat (length p - 1 - off)) as Href.
    { pose proof (Z_div_mod_eq_full o 256). lia. }
    pose proof (copy_ref_spec n p rest off Hb Ho ltac:(lia)) as Hcp. fold L in Hcp.
    destruct (Z.ltb_spec L 7) as [HL|HL]; simpl in Hrd, Hbd |- *.
    + destruct (Hc L ltac:(lia)) as [E1 E2]. rewrite E1, E2.
      destruct (Z.ltb_spec (o / 256 + L * 32) 32); [lia|].
      destruct (Z.leb_spec (Z.of_nat (length inb)) (Z.of_nat ip + 1)); [lia|].
      destruct (Z.eqb_spec L 7); [lia|]. cbn [obind].
      rewrite (Hrd 1%nat : _ -> rd inb (Z.of_nat ip + 1) = _) by lia. cbn [obind nth]. rewrite Href.
      destruct (Z.ltb_spec (Z.of_nat (length p + length rest)) (Z.of_nat (length p) + L + 2)); [lia|].
      destruct (Z.ltb_spec (Z.of_nat (length p - 1 - off)) 0); [lia|].
      rewrite Hcp. cbn [obind]. repeat (f_equal; try lia).
    + destruct (Hc 7 ltac:(lia)) as [E1 E2]. change (7 * 32) with 224 in E1, E2. rewrite E1, E2.
      destruct (Z.ltb_spec (o / 256 + 224) 32); [lia|].
      destruct (Z.leb_spec (Z.of_nat (length inb)) (Z.of_nat ip + 1)); [lia|]. simpl.
      rewrite (Hrd 1%nat : _ -> rd inb (Z.of_nat ip + 1) = _) by lia. cbn [obind nth].
      destruct (Z.leb_spec (Z.of_nat (length inb)) (Z.of_nat ip + 1 + 1)); [lia|].
      replace (Z.of_nat ip + 1 + 1) with (Z.of_nat ip + 2) by lia.
      rewrite (Hrd 2%nat : _ -> rd inb (Z.of_nat ip + 2) = _) by lia. cbn [obind nth]. rewrite Href.
      replace (7 + (L - 7)) with L by lia.
      destruct (Z.ltb_spec (Z.of_nat (length p + length rest)) (Z.of_nat (length p) + L + 2)); [lia|].
      destruct (Z.ltb_spec (Z.of_nat (length p - 1 - off)) 0); [lia|].
      rewrite Hcp. cbn [obind]. repeat (f_equal; try lia).
Qed.

Lemma copy_back_bytes n p off : bytes p -> (off < length p)%nat -> bytes (copy_back n p off).
Proof.
  revert p. induction n as [|n IH]; intros p Hb Ho; simpl; [done|]. apply IH.
  - apply Forall_app. split; [done|]. constructor; [|done]. apply (at_byte p); [done|lia].
  - rewrite length_app. lia.
Qed.

Lemma expand_bytes p t : bytes p -> tok_ok p t -> bytes (expand p t).
Proof.
  intros Hb. destruct t; simpl; [|intros (? & _); by apply copy_back_bytes].
  intros [_ ?]. by apply Forall_app.
Qed.

Lemma expand_length p t : (length p <= length (expand p t))%nat.
Proof. destruct t; simpl; [rewrite length_app|rewrite copy_back_length]; lia. Qed.

Lemma plain_length p ts : (length p <= length (plain p ts))%nat.
Proof.
  revert p. induction ts as [|t ts IH]; intros p; [done|]. etransitivity; [apply (expand_length p t)|apply IH].
Qed.

Lemma enc_length t : (1 <= length (enc t))%nat.
Proof. destruct t; simpl; [lia|]. destruct (_ <? 7); simpl; lia. Qed.

(** The decompressor turns a well-formed stream into the text it stands for. *)
Lemma decompress_loop_spec ts fuel inb ip p rest : toks_ok p ts -> has inb ip (encode ts) -> bytes p ->
  (ip + length (encode ts))%nat = length inb -> (length (encode ts) <= fuel)%nat ->
  (length (plain p ts) <= length p + length rest)%nat ->
  decompress_loop fuel inb (p ++ rest) (Z.of_nat ip) (Z.of_nat (length p)) =
  Ret (Some (plain p ts ++ drop (length (plain p ts) - length p) rest, Z.of_nat (length (plain p ts)))).
Proof.
  revert fuel ip p rest. induction ts as [|t ts IH]; intros fuel ip p rest Hok Hh Hb Hip Hf Hl.
  { simpl in *. destruct fuel; simpl; (case_bool; [lia|]); by rewrite Nat.sub_diag, drop_0. }
  destruct Hok as [Ht Hok]. change (encode (t :: ts)) with (enc t ++ encode ts) in *.
  change (plain p (t :: ts)) with (plain (expand p t) ts) in *.
  apply has_app in Hh as [Hh1 Hh2]. rewrite length_app in Hip, Hf.
  pose proof (enc_length t). pose proof (plain_length (expand p t) ts). pose proof (expand_length p t).
  destruct fuel as [|fuel]; [lia|]. simpl. case_bool; [|lia].
  rewrite (decompress_step_spec _ _ _ _ t) by (done || lia). cbn [obind].
  rewrite IH; [|done|done|by apply expand_bytes|lia|lia|rewrite length_drop; lia].
  do 4 f_equal. rewrite drop_drop. f_equal. lia.
Qed.

(** ** No input makes the decompressor leave its buffers *)

Lemma rd_wr_ok b i v : 0 <= i < Z.of_nat (length b) ->
  (exists c, rd b i = Ret c) /\ exists b', wr b i v = Ret b' /\ length b' = length b.
Proof.
  intros Hi. rewrite rd_ret, wr_ret by done. split; [by eexists|]. eexists. split; [done|].
  apply length_store. simpl. lia.
Qed.

Lemma copy_octets_ok n out op ref : 0 <= ref -> ref < op -> op + Z.of_nat n <= Z.of_nat (length out) ->
  exists out', copy_octets n out op ref = Ret out' /\ length out' = length out.
Proof.
  revert out op ref. induction n as [|n IH]; intros out op ref Hr Hro Ho; simpl; [by eexists|].
  destruct (rd_wr_ok out ref 0) as [[c ->] _]; [lia|]. simpl.
  destruct (rd_wr_ok out op c) as [_ (o & -> & El)]; [lia|]. simpl.
  destruct (IH o (op + 1) (ref + 1)) as (o' & -> & El'); [lia|lia|lia|]. eexists. split; [done|]. lia.
Qed.

Lemma copy_literals_ok n inb out op ip : 0 <= ip -> 0 <= op -> ip + Z.of_nat n <= Z.of_nat (length inb) ->
  op + Z.of_nat n <= Z.of_nat (length out) ->
  exists out', copy_literals n inb out op ip = Ret out' /\ length out' = length out.
Proof.
  revert out op ip. induction n as [|n IH]; intros out op ip Hi Ho Hil Hol; simpl; [by eexists|].
  destruct (rd_wr_ok inb ip 0) as [[c ->] _]; [lia|]. simpl.
  destruct (rd_wr_ok out op c) as [_ (o & -> & El)]; [lia|]. simpl.
  destruct (IH o (op + 1) (ip + 1)) as (o' & -> & El'); [lia|lia|lia|lia|]. eexists. split; [done|]. lia.
Qed.

Lemma copy_ref_ok out op ref len : 0 <= ref -> ref < op -> 0 <= len ->
  op + len + 2 <= Z.of_nat (length out) ->
  exists out', copy_ref out op ref len = Ret out' /\ length out' = length out.
Proof.
  intros Hr Hro Hl Ho. unfold copy_ref. case_bool; [apply copy_octets_ok; lia|].
  case_bool; [|apply copy_octets_ok; lia]. unfold memcpy_out. repeat case_bool; try lia. simpl.
  eexists. split; [done|]. apply length_memmove; lia.
Qed.

Lemma decompress_step_ok inb out ip op : bytes inb -> 0 <= ip < Z.of_nat (length inb) ->
  0 <= op <= Z.of_nat (length out) ->
  decompress_step inb out ip op = Ret None \/
  exists ip' op' out', decompress_step inb out ip op = Ret (Some (ip', op', out')) /\
    ip < ip' <= Z.of_nat (length inb) /\ op < op' <= Z.of_nat (length out) /\ length out' = length out.
Proof.
  intros Hb Hip Hop.
  assert (forall i, 0 <= i < Z.of_nat (length inb) -> exists c, rd inb i = Ret c /\ 0 <= c < 256) as Hrd.
  { intros i Hi. rewrite rd_ret by done. eexists. split; [done|]. apply at_byte; [done|lia]. }
  unfold decompress_step. destruct (Hrd ip Hip) as (ctrl & -> & Hc). cbn [obind].
  destruct (Z.ltb_spec ctrl 32).
  { repeat case_bool; try (by left). right.
    destruct (copy_literals_ok (Z.to_nat (ctrl + 1)) inb out op (ip + 1)) as (o & -> & El); [lia..|].
    cbn [obind]. do 3 eexists. split; [done|]. lia. }
  assert (0 <= Z.land ctrl 31 < 32) as Hla.
  { change 31 with (2 ^ 5 - 1). rewrite land_mask by lia. apply Z.mod_pos_bound. lia. }
  assert (1 <= Z.shiftr ctrl 5 <= 7) as Hsr by (rewrite Z.shiftr_div_pow2 by lia; change (2 ^ 5) with 32; zdiv).
  rewrite Z.shiftl_mul_pow2 by lia. change (2 ^ 8) with 256.
  destruct (Z.leb_spec (Z.of_nat (length inb)) (ip + 1)); [by left|].
  assert (exists len ip1 (sh : bool), (if Z.shiftr ctrl 5 =? 7
      then let* b := rd inb (ip + 1) in
           Ret (Z.shiftr ctrl 5 + b, ip + 1 + 1, Z.of_nat (length inb) <=? ip + 1 + 1)
      else Ret (Z.shiftr ctrl 5, ip + 1, false)) = Ret (len, ip1, sh) /\ 0 <= len /\
      (sh = false -> ip < ip1 < Z.of_nat (length inb))) as (len & ip1 & sh & -> & Hlen & Hsh).
  { destruct (Z.eqb_spec (Z.shiftr ctrl 5) 7).
    - destruct (Hrd (ip + 1)) as (b & -> & Hbb); [lia|]. cbn [obind]. do 3 eexists. split; [done|].
      split; [lia|]. intros Hx. zbool. lia.
    - do 3 eexists. split; [done|]. split; [lia|]. intros _. lia. }
  cbn [obind]. destruct sh; [by left|]. specialize (Hsh eq_refl).
  destruct (Hrd ip1) as (b & -> & Hbb); [lia|]. cbn [obind].
  repeat case_bool; try (by left). right.
  destruct (copy_ref_ok out op (op - Z.land ctrl 31 * 256 - 1 - b) len) as (o & -> & El); [lia..|].
  cbn [obind]. do 3 eexists. split; [done|]. lia.
Qed.

Lemma decompress_loop_ok fuel inb out ip op : bytes inb -> 0 <= ip <= Z.of_nat (length inb) ->
  0 <= op <= Z.of_nat (length out) -> (length inb <= Z.to_nat ip + fuel)%nat ->
  decompress_loop fuel inb out ip op = Ret None \/
  exists out' n, decompress_loop fuel inb out ip op = Ret (Some (out', n)) /\
    0 <= n <= Z.of_nat (length out) /\ length out' = length out.
Proof.
  intros Hb. revert out ip op. induction fuel as [|fuel IH]; intros out ip op Hip Hop Hf; simpl.
  { case_bool; [lia|]. right. do 2 eexists. split; [done|]. lia. }
  case_bool; [|right; do 2 eexists; split; [done|]; lia].
  destruct (decompress_step_ok inb out ip op) as [->|(ip' & op' & o & -> & Hi' & Ho' & El)]; [done|lia|lia|by left|].
  cbn [obind]. destruct (IH o ip' op') as [->|(o2 & n & -> & Hn & El2)]; [lia|lia|lia|by left|].
  right. do 2 eexists. split; [done|]. lia.
Qed.

(** ** Compression *)

Lemma has_store_disj b off v p l : (off < length b)%nat -> (p + length l <= off \/ off < p)%nat ->
  has b p l -> has (store b off [v]) p l.
Proof. intros Ho Hd Hh. unfold has. rewrite load_store_disj; [done|simpl; lia|simpl; lia]. Qed.

Lemma has_store_one b off v : (off < length b)%nat -> has (store b off [v]) off [v].
Proof. intros Ho. apply load_store_same. simpl. lia. Qed.

(** Appending a byte to what the output holds. *)
Lemma wr_append out E v : has out 0 E -> (length E < length out)%nat ->
  exists out', wr out (Z.of_nat (length E)) v = Ret out' /\ has out' 0 (E ++ [u8 v]) /\
    length out' = length out.
Proof.
  intros Hh Hl. rewrite wr_ret by lia. rewrite Nat2Z.id. eexists. split; [done|]. split.
  - apply has_app. split; [apply has_store_disj; done || lia|by apply has_store_one].
  - apply length_store. simpl. lia.
Qed.

Section CompressProof.
Context (inb : list Z) (base outlen : Z).
Context (Hbytes : bytes inb) (Hbase : MAX_OFF <= base) (Hspace : base + in_len inb < 2 ^ 64).

Definition matched (r ip n : Z) : Prop :=
  forall j, 0 <= j < n -> at_ inb (Z.to_nat (r + j)) = at_ inb (Z.to_nat (ip + j)).

Lemma rd_in i : 0 <= i < in_len inb -> rd inb i = Ret (at_ inb (Z.to_nat i)).
Proof using. apply rd_ret. Qed.

Lemma unrolled_spec n r ip len : 0 <= r < ip -> 0 <= len -> matched r ip (len + 1) ->
  ip + len + Z.of_nat n < in_len inb ->
  exists len' broke, unrolled inb n r ip len = Ret (len', broke) /\
    if (broke : bool) then len < len' <= len + Z.of_nat n /\ matched r ip len'
    else len' = len + Z.of_nat n /\ matched r ip (len' + 1).
Proof using.
  intros Hr. revert len. induction n as [|n IH]; intros len Hl Hm Hb; simpl.
  { do 2 eexists. split; [done|]. simpl. split; [lia|done]. }
  rewrite !rd_in by lia. cbn [obind]. case_bool.
  - destruct (IH (len + 1)) as (l' & b & -> & H); [lia| |lia|].
    + intros j Hj. destruct (decide (j = len + 1)) as [->|]; [done|]. apply Hm. lia.
    + do 2 eexists. split; [done|]. destruct b; [split; [lia|tauto]|]. split; [lia|tauto].
  - do 2 eexists. split; [done|]. simpl. split; [lia|done].
Qed.

Lemma extend_spec fuel r ip maxlen len : 0 <= r < ip -> 0 <= len -> matched r ip (len + 1) ->
  maxlen <= in_len inb - ip -> maxlen - len <= Z.of_nat fuel ->
  exists len', extend inb fuel r ip maxlen len = Ret len' /\
    len + 1 <= len' <= Z.max (len + 1) maxlen /\ matched r ip len'.
Proof using.
  intros Hr. revert len. induction fuel as [|fuel IH]; intros len Hl Hm Hb Hf; simpl;
    (case_bool; [|eexists; split; [done|]; split; [lia|done]]); [lia|].
  rewrite !rd_in by lia. cbn [obind]. case_bool.
  - destruct (IH (len + 1)) as (l' & -> & Hl' & Hm'); [lia| |lia|lia|].
    + intros j Hj. destruct (decide (j = len + 1)) as [->|]; [done|]. apply Hm. lia.
    + eexists. split; [done|]. split; [lia|done].
  - eexists. split; [done|]. split; [lia|done].
Qed.

Lemma match_len_spec r ip : 0 <= r < ip -> ip < in_len inb - 2 -> matched r ip 3 ->
  let maxlen := in_len inb - ip - 2 in
  exists len, match_len inb r ip (if MAX_REF <? maxlen then MAX_REF else maxlen) = Ret len /\
    3 <= len <= 264 /\ ip + len <= in_len inb /\ matched r ip len.
Proof using.
  intros Hr Hip Hm maxlen. unfold match_len.
  set (ml := if MAX_REF <? maxlen then MAX_REF else maxlen).
  assert (0 < ml <= maxlen /\ ml <= 264) as Hml by (unfold ml, MAX_REF; case_bool; lia).
  unfold maxlen in *. case_bool.
  - destruct (unrolled_spec 16 r ip 2) as (l & b & -> & H1); [done|lia|done|lia|]. cbn [obind].
    destruct b; [destruct H1 as [? ?]; eexists; split; [done|]; split_and!; lia || done|].
    destruct H1 as [-> Hm1].
    destruct (extend_spec (Z.to_nat ml) r ip ml (2 + Z.of_nat 16)) as (l' & -> & Hl' & Hm'); [done|lia|done|lia|lia|].
    eexists. split; [done|]. split_and!; lia || done.
  - cbn [obind]. destruct (extend_spec (Z.to_nat ml) r ip ml 2) as (l' & -> & Hl' & Hm'); [done|lia|done|lia|lia|].
    eexists. split; [done|]. split_and!; lia || done.
Qed.

(** A back reference to a match gives the matched text. *)
Lemma copy_back_matched n off ip : (off < ip)%nat -> (ip + n <= length inb)%nat ->
  (forall j, (j < n)%nat -> at_ inb (ip - 1 - off + j) = at_ inb (ip + j)) ->
  copy_back n (take ip inb) off = take (ip + n) inb.
Proof using.
  revert ip. induction n as [|n IH]; intros ip Ho Hl Hm; simpl; [by rewrite Nat.add_0_r|].
  assert (take ip inb ++ [at_ (take ip inb) (length (take ip inb) - 1 - off)] = take (ip + 1) inb) as ->.
  { rewrite length_take, Nat.min_l by lia. unfold at_. rewrite nth_lookup, lookup_take_lt by lia.
    rewrite <- nth_lookup. fold (at_ inb (ip - 1 - off)).
    specialize (Hm 0%nat ltac:(lia)). rewrite !Nat.add_0_r in Hm. rewrite Hm.
    pose proof (load_snoc inb 0 ip ltac:(simpl; lia)) as E. unfold load in E. rewrite drop_0 in E. simpl in E.
    by rewrite Nat.add_1_r, E. }
  rewrite IH; [f_equal; lia|lia|lia|]. intros j Hj. specialize (Hm (S j) ltac:(lia)).
  replace (ip + 1 - 1 - off + j)%nat with (ip - 1 - off + S j)%nat by lia.
  by replace (ip + 1 + j)%nat with (ip + S j)%nat by lia.
Qed.

Lemma candidate_spec ref ip : 0 <= ref < 2 ^ 64 -> 0 <= ip < in_len inb - 2 ->
  candidate inb base ref ip = Ret None \/
  exists off, candidate inb base ref ip = Ret (Some off) /\ 0 <= off < MAX_OFF /\
    ref - base = ip - 1 - off /\ 0 < ref - base /\ matched (ref - base) ip 3.
Proof using Hbytes Hbase Hspace.
  intros Href Hip. unfold candidate. unfold MAX_OFF in *. set (off := u64 _).
  assert (0 <= off < 2 ^ 64) as Hoff by (apply wrap_range; lia).
  destruct (Z.ltb_spec off 8192); [|by left]. destruct (Z.ltb_spec base ref); [|by left].
  assert (ref - base = ip - 1 - off) as Er.
  { unfold off, wrap in *. destruct (Z.le_gt_cases 0 (base + ip - ref - 1)).
    - rewrite Z.mod_small in * by lia. lia.
    - assert ((base + ip - ref - 1) mod 2 ^ 64 = base + ip - ref - 1 + 2 ^ 64) as E; [|lia].
      symmetry. apply (Z.mod_unique _ _ (-1)); lia. }
  simpl. rewrite !rd_in by lia. cbn [obind]. destruct (Z.eqb_spec (at_ inb (Z.to_nat (ref - base + 2))) (at_ inb (Z.to_nat (ip + 2)))) as [E2|];
    [|by left].
  assert (forall i, 0 <= i < in_len inb -> 0 <= at_ inb (Z.to_nat i) < 256) as Hby.
  { intros i Hi. apply at_byte; [done|]. unfold in_len in Hi. lia. }
  pose proof (Hby (ref - base) ltac:(lia)). pose proof (Hby (ref - base + 1) ltac:(lia)).
  pose proof (Hby ip ltac:(lia)). pose proof (Hby (ip + 1) ltac:(lia)).
  rewrite (Z.lor_comm _ (at_ inb (Z.to_nat (ref - base)))), (Z.lor_comm _ (at_ inb (Z.to_nat ip))).
  rewrite !lor_shiftl by (simpl; lia). change (2 ^ 8) with 256.
  destruct (Z.eqb_spec (at_ inb (Z.to_nat (ref - base)) + at_ inb (Z.to_nat (ref - base + 1)) * 256)
    (at_ inb (Z.to_nat ip) + at_ inb (Z.to_nat (ip + 1)) * 256)); [|by left].
  right. exists off. split_and!; try done; try lia. intros j Hj.
  assert (j = 0 \/ j = 1 \/ j = 2) as [->|[->| ->]] by lia; rewrite ?Z.add_0_r; [lia|lia|done].
Qed.

(** The output holds the tokens so far, then one byte kept for the length of
    the current run, then the bytes of the run. *)
Record cinv (st : cstate) (ts : list token) : Prop := {
  ci_ip : 0 <= c_ip st <= in_len inb;
  ci_lit : 0 <= c_lit st <= c_ip st;
  ci_lit_max : c_lit st < MAX_LIT;
  ci_len : Z.of_nat (length (c_out st)) = outlen;
  ci_ok : toks_ok [] ts;
  ci_plain : plain [] ts = take (Z.to_nat (c_ip st - c_lit st)) inb;
  ci_op : c_op st = Z.of_nat (length (encode ts)) + 1 + c_lit st;
  ci_enc : has (c_out st) 0 (encode ts);
  ci_run : has (c_out st) (length (encode ts) + 1)
             (load inb (Z.to_nat (c_ip st - c_lit st)) (Z.to_nat (c_lit st)));
  ci_htab : forall i, 0 <= c_htab st i < 2 ^ 64;
}.

(** What the output holds between runs. *)
Record between (out : list Z) (ip op : Z) (ts : list token) : Prop := {
  bt_len : Z.of_nat (length out) = outlen;
  bt_ok : toks_ok [] ts;
  bt_plain : plain [] ts = take (Z.to_nat ip) inb;
  bt_op : op = Z.of_nat (length (encode ts));
  bt_enc : has out 0 (encode ts);
}.

Lemma run_length st ts : cinv st ts ->
  length (load inb (Z.to_nat (c_ip st - c_lit st)) (Z.to_nat (c_lit st))) = Z.to_nat (c_lit st).
Proof using.
  intros [Hip Hlit _ _ _ _ _ _ _ _]. unfold in_len in *. apply length_load. lia.
Qed.

(** A run as a literal token. *)
Lemma close_run out ts k n : (1 <= n <= 32)%nat -> (k + n <= length inb)%nat ->
  toks_ok [] ts -> plain [] ts = take k inb -> has out 0 (encode ts) ->
  has out (length (encode ts) + 1) (load inb k n) ->
  let out' := store out (length (encode ts)) [u8 (Z.of_nat n - 1)] in
  let ts' := ts ++ [Lit (load inb k n)] in
  toks_ok [] ts' /\ plain [] ts' = take (k + n) inb /\ has out' 0 (encode ts') /\
  length out' = length out /\ length (encode ts') = (length (encode ts) + 1 + n)%nat.
Proof using Hbytes.
  intros Hn Hk Hok Hp He Hr out' ts'. assert (length (load inb k n) = n) as Hln by (by apply length_load).
  pose proof (has_bound _ _ _ Hr ltac:(intros E; rewrite E in Hln; simpl in Hln; lia)) as Hb. rewrite Hln in Hb.
  assert (u8 (Z.of_nat n - 1) = Z.of_nat n - 1) as Eu by (apply wrap_small; unfold in_u; simpl; lia).
  unfold out', ts'. rewrite encode_app, plain_app, Hp, Eu. cbn [expand enc]. rewrite Hln. split_and!.
  - apply toks_ok_app; [done|]. simpl. rewrite Hln. split; [lia|]. by apply bytes_load.
  - apply take_take_drop.
  - apply has_app. split; [apply has_store_disj; done || lia|].
    change (?x :: ?l) with ([x] ++ l). apply has_app. split; [apply has_store_one; lia|].
    simpl. apply has_store_disj; [lia|lia|done].
  - apply length_store. simpl. lia.
  - rewrite length_app. simpl. rewrite Hln. lia.
Qed.

Lemma put_lit_inv st ts : cinv st ts -> c_ip st < in_len inb -> c_op st < outlen ->
  exists st' ts', put_lit inb st = Ret st' /\ cinv st' ts' /\ c_ip st' = c_ip st + 1 /\
    if c_lit st + 1 =? MAX_LIT then c_op st' = c_op st + 2 /\ c_lit st' = 0
    else c_op st' = c_op st + 1 /\ c_lit st' = c_lit st + 1.
Proof using Hbytes.
  intros Hinv Hin Hout. pose proof (run_length _ _ Hinv) as Hrl.
  destruct Hinv as [Hip Hlit Hlm Hlen Hok Hp Hop He Hr Hh]. unfold put_lit.
  rewrite rd_in by lia. cbn [obind]. rewrite wr_ret by lia. cbn [obind]. unfold in_len in *.
  set (k := Z.to_nat (c_ip st - c_lit st)) in *. set (L := Z.to_nat (c_lit st)) in *.
  set (e := length (encode ts)) in *. set (c := at_ inb (Z.to_nat (c_ip st))).
  assert (u8 c = c) as -> by (apply wrap_small, at_byte; [done|lia]).
  assert (Z.to_nat (c_op st) = e + 1 + L)%nat as -> by lia.
  set (out1 := store _ _ [c]).
  assert (length out1 = length (c_out st)) as Hl1 by (apply length_store; simpl; lia).
  assert (has out1 0 (encode ts)) as He1 by (apply has_store_disj; [lia|fold e; lia|done]).
  assert (has out1 (e + 1) (load inb k (S L))) as Hr1.
  { rewrite load_snoc by lia. apply has_app. split; [apply has_store_disj; [lia|lia|done]|].
    rewrite Hrl. replace (k + L)%nat with (Z.to_nat (c_ip st)) by lia. apply has_store_one. lia. }
  unfold MAX_LIT in *. case_bool.
  - rewrite wr_ret by lia. cbn [obind].
    replace (Z.to_nat (c_op st + 1 - (c_lit st + 1) - 1)) with e by lia.
    replace (c_lit st + 1 - 1) with (Z.of_nat (S L) - 1) by lia.
    destruct (close_run out1 ts k (S L)) as (T1 & T2 & T3 & T4 & T5); [lia|lia|done|done|done|done|].
    fold e in T3, T4, T5. eexists _, (ts ++ [Lit (load inb k (S L))]). split; [done|]. split; [|simpl; lia].
    split; unfold in_len, MAX_LIT; simpl; try done; try lia.
    + rewrite T2. f_equal. lia.
  - eexists _, ts. split; [done|]. split; [|simpl; lia]. split; unfold in_len, MAX_LIT; simpl; try done; try lia.
    + rewrite Hp. f_equal. lia.
    + replace (Z.to_nat (c_ip st + 1 - (c_lit st + 1))) with k by lia.
      by replace (Z.to_nat (c_lit st + 1)) with (S L) by lia.
Qed.

(** [op [- lit - 1] = lit - 1; op -= !lit] *)
Lemma stop_run st ts : cinv st ts -> c_op st - c_lit st - 1 < outlen ->
  exists out ts', wr (c_out st) (c_op st - c_lit st - 1) (c_lit st - 1) = Ret out /\
    between out (c_ip st) (c_op st - (if c_lit st =? 0 then 1 else 0)) ts'.
Proof using Hbytes.
  intros [Hip Hlit Hlm Hlen Hok Hp Hop He Hr Hh] Hout. unfold in_len, MAX_LIT in *. rewrite wr_ret by lia.
  replace (Z.to_nat (c_op st - c_lit st - 1)) with (length (encode ts)) by lia.
  destruct (Z.eqb_spec (c_lit st) 0) as [E|E].
  - eexists _, ts. split; [done|]. split; try done; [|rewrite Hp; f_equal; lia|lia|].
    + rewrite length_store; [done|]. simpl. lia.
    + apply has_store_disj; [lia|lia|done].
  - destruct (close_run (c_out st) ts (Z.to_nat (c_ip st - c_lit st)) (Z.to_nat (c_lit st)))
      as (T1 & T2 & T3 & T4 & T5); [lia|lia|done|done|done|done|].
    rewrite Z2Nat.id in * by lia. eexists _, (ts ++ [_]). split; [done|]. split; try done.
    + lia.
    + rewrite T2. f_equal. lia.
    + rewrite T5. lia.
Qed.

(** The bytes of a back reference, as the code writes them. *)
Definition write_ref (out : list Z) (op off len : Z) : outcome (list Z * Z) :=
  let* (out, op) :=
    if len <? 7 then
      let* out := wr out op (Z.shiftr off 8 + Z.shiftl len 5) in Ret (out, op + 1)
    else
      let* out := wr out op (Z.shiftr off 8 + Z.shiftl 7 5) in
      let* out := wr out (op + 1) (len - 7) in Ret (out, op + 2) in
  let* out := wr out op off in
  Ret (out, op + 1).

Lemma write_ref_spec out E off n : has out 0 E -> Z.of_nat (length E) + 4 < Z.of_nat (length out) ->
  Z.of_nat off < MAX_OFF -> (3 <= n <= 264)%nat ->
  exists out', write_ref out (Z.of_nat (length E)) (Z.of_nat off) (Z.of_nat n - 2) =
      Ret (out', Z.of_nat (length (E ++ enc (Ref off n)))) /\
    has out' 0 (E ++ enc (Ref off n)) /\ length out' = length out.
Proof using.
  intros He Hl Ho Hn. unfold write_ref, enc, MAX_OFF in *.
  set (o := Z.of_nat off) in *. set (L := Z.of_nat n - 2) in *.
  rewrite !Z.shiftl_mul_pow2, Z.shiftr_div_pow2 by lia. change (2 ^ 8) with 256. change (2 ^ 5) with 32.
  assert (forall a, 0 <= a <= 7 -> u8 (o / 256 + a * 32) = o / 256 + a * 32) as Hc.
  { intros a Ha. apply wrap_small. unfold in_u. simpl. zdiv. }
  destruct (Z.ltb_spec L 7).
  - destruct (wr_append out E (o / 256 + L * 32)) as (o1 & -> & H1 & L1); [done|lia|]. cbn [obind].
    rewrite Hc in H1 by lia.
    destruct (wr_append o1 _ o H1) as (o2 & E2 & H2 & L2); [rewrite length_app; simpl; lia|].
    rewrite length_app in E2. simpl in E2.
    replace (Z.of_nat (length E) + 1) with (Z.of_nat (length E + 1)) by lia. rewrite E2. cbn [obind].
    exists o2. rewrite <- app_assoc in H2. simpl in H2. split; [|by rewrite L2, L1].
    do 3 f_equal. rewrite length_app. simpl. lia.
  - destruct (wr_append out E (o / 256 + 7 * 32)) as (o1 & -> & H1 & L1); [done|lia|]. cbn [obind].
    rewrite Hc in H1 by lia.
    destruct (wr_append o1 _ (L - 7) H1) as (o2 & E2 & H2 & L2); [rewrite length_app; simpl; lia|].
    rewrite length_app in E2. simpl in E2.
    replace (Z.of_nat (length E) + 1) with (Z.of_nat (length E + 1)) by lia. rewrite E2. cbn [obind].
    rewrite wrap_small in H2 by (unfold in_u; simpl; lia).
    destruct (wr_append o2 _ o H2) as (o3 & E3 & H3 & L3); [rewrite !length_app; simpl; lia|].
    rewrite !length_app in E3. simpl in E3.
    replace (Z.of_nat (length E) + 2) with (Z.of_nat (length E + 1 + 1)) by lia. rewrite E3. cbn [obind].
    exists o3. rewrite <- !app_assoc in H3. simpl in H3. split; [|by rewrite L3, L2, L1].
    do 3 f_equal. rewrite length_app. simpl. lia.
Qed.

(** How an iteration goes on: the invariant holds again and input was used. *)
Definition advanced (ip : Z) (f : flow) : Prop :=
  match f with
  | Return0 => True
  | Break st | Continue st => exists ts, cinv st ts /\ ip < c_ip st
  end /\ match f with Break st => in_len inb - 2 <= c_ip st | _ => True end.

Lemma htab_set_range h i v : (forall j, 0 <= h j < 2 ^ 64) -> 0 <= v < 2 ^ 64 ->
  forall j, 0 <= htab_set h i v j < 2 ^ 64.
Proof using. intros Hh Hv j. unfold htab_set. by case_bool. Qed.

Lemma between_cinv out ip op hval htab ts : between out ip op ts -> 0 <= ip <= in_len inb ->
  (forall j, 0 <= htab j < 2 ^ 64) -> cinv (CState ip (op + 1) 0 hval htab out) ts.
Proof using.
  intros [Hl Hok Hp Ho He] Hip Hh. split; unfold MAX_LIT; simpl; try done; try lia.
  rewrite Hp. f_equal. lia.
Qed.

Lemma emit_match_inv st ts off : cinv st ts -> c_ip st < in_len inb - 2 -> 0 <= off < MAX_OFF ->
  0 < c_ip st - 1 - off -> matched (c_ip st - 1 - off) (c_ip st) 3 ->
  exists f, emit_match inb base outlen st (c_ip st - 1 - off) off = Ret f /\ advanced (c_ip st) f.
Proof using Hbytes Hbase Hspace.
  intros Hinv Hin Hoff Hr Hm. unfold emit_match.
  set (nolit := if c_lit st =? 0 then 1 else 0).
  assert (0 <= nolit <= 1) as Hnl by (unfold nolit; case_bool; lia).
  destruct ((_ <=? _) && _) eqn:Eo; [by exists Return0|].
  assert (c_op st - nolit + 4 < outlen) as Hroom.
  { apply andb_false_iff in Eo as [Eo|Eo]; apply Z.leb_gt in Eo; lia. }
  pose proof Hinv as [Hip Hlit Hlm _ _ _ Hop _ _ Hh].
  destruct (stop_run _ _ Hinv) as (out1 & ts1 & -> & [Bl Bok Bp Bo Be]); [lia|]. fold nolit in Bo. cbn [obind].
  destruct (match_len_spec (c_ip st - 1 - off) (c_ip st)) as (len & -> & Hlen & Hend & Hml); [lia|lia|done|].
  cbn [obind]. rewrite Bo.
  destruct (write_ref_spec out1 (encode ts1) (Z.to_nat off) (Z.to_nat len)) as (out2 & Ew & H2 & L2);
    [done|lia|rewrite Z2Nat.id by lia; lia|lia|].
  rewrite <- encode_app in Ew, H2. set (ts2 := ts1 ++ [Ref _ _]) in *.
  rewrite !Z2Nat.id in Ew by lia. unfold write_ref in Ew.
  destruct (if len - 2 <? 7 then _ else _) as [|[o1 op1]]; [done|]. cbn [obind] in Ew |- *.
  destruct (wr o1 op1 off) as [|o2]; [done|]. cbn [obind] in Ew |- *. injection Ew as -> Eop. rewrite Eop.
  replace (c_ip st + 1 + (len - 2) + 1) with (c_ip st + len) by lia.
  assert (between out2 (c_ip st + len) (Z.of_nat (length (encode ts2))) ts2) as B2.
  { unfold in_len, MAX_OFF in *. split; [lia| | |done|done].
    - apply toks_ok_app; [done|]. simpl. rewrite Bp, length_take. unfold MAX_OFF. lia.
    - unfold ts2. rewrite plain_app, Bp. simpl. rewrite copy_back_matched; [f_equal; lia|lia|lia|].
      intros j Hj. specialize (Hml (Z.of_nat j) ltac:(lia)).
      replace (Z.to_nat (c_ip st) - 1 - Z.to_nat off + j)%nat with (Z.to_nat (c_ip st - 1 - off + Z.of_nat j)) by lia.
      by replace (Z.to_nat (c_ip st) + j)%nat with (Z.to_nat (c_ip st + Z.of_nat j)) by lia. }
  case_bool.
  - eexists. split; [done|]. split; [exists ts2|simpl; lia]. split; [|simpl; lia].
    apply between_cinv; [done|lia|done].
  - unfold FRST, NEXT. rewrite !rd_in by lia. cbn [obind].
    eexists. split; [done|]. split; [exists ts2|done]. split; [|simpl; lia].
    replace (c_ip st + len - 2 + 1 + 1) with (c_ip st + len) by lia.
    apply between_cinv; [done|lia|]. unfold MAX_OFF in *. repeat apply htab_set_range; done || lia.
Qed.

Lemma compress_step_inv st ts : cinv st ts -> c_ip st < in_len inb - 2 ->
  exists f, compress_step inb base outlen st = Ret f /\ advanced (c_ip st) f.
Proof using Hbytes Hbase Hspace.
  intros Hinv Hin. pose proof Hinv as [Hip Hlit Hlm Hlen Hok Hp Hop He Hr Hh].
  unfold compress_step, NEXT. rewrite rd_in by lia. cbn [obind].
  set (hv := Z.lor _ _). set (st1 := CState _ _ _ hv _ _).
  assert (cinv st1 ts) as Hinv1.
  { split; try done. simpl. apply htab_set_range; [done|]. unfold MAX_OFF in *. lia. }
  destruct (candidate_spec (c_htab st (IDX hv)) (c_ip st)) as [->|(off & -> & Ho & Er & Hpos & Hm)];
    [apply Hh|lia| |]; cbn [obind].
  - case_bool; [by exists Return0|].
    destruct (put_lit_inv st1 ts Hinv1) as (st2 & ts2 & -> & Hinv2 & Eip & _); [simpl; lia|simpl in *; lia|]. cbn [obind].
    exists (Continue st2). split; [done|]. split; [|done]. exists ts2. split; [done|]. simpl in Eip. lia.
  - rewrite Er in *. by apply (emit_match_inv st1 ts off).
Qed.

Lemma compress_loop_inv fuel st ts : cinv st ts -> in_len inb <= c_ip st + Z.of_nat fuel ->
  compress_loop inb base outlen fuel st = Ret None \/
  exists st' ts', compress_loop inb base outlen fuel st = Ret (Some st') /\ cinv st' ts' /\
    in_len inb - 2 <= c_ip st'.
Proof using Hbytes Hbase Hspace.
  revert st ts. induction fuel as [|fuel IH]; intros st ts Hinv Hf; simpl.
  { case_bool; [lia|]. right. by exists st, ts. }
  case_bool; [|right; by exists st, ts].
  destruct (compress_step_inv st ts Hinv) as (f & -> & [Ha Hb]); [done|]. cbn [obind].
  destruct f as [|st'|st']; [by left| |]; destruct Ha as (ts' & Hinv' & Hip').
  - right. by exists st', ts'.
  - apply (IH st' ts'); [done|lia].
Qed.

Lemma tail_loop_inv fuel st ts : cinv st ts -> in_len inb <= c_ip st + Z.of_nat fuel ->
  in_len inb - c_ip st < MAX_LIT ->
  c_op st + (in_len inb - c_ip st) +
    (if MAX_LIT <=? c_lit st + (in_len inb - c_ip st) then 1 else 0) <= outlen ->
  exists st' ts', tail_loop inb fuel st = Ret st' /\ cinv st' ts' /\ c_ip st' = in_len inb /\
    c_op st' <= outlen.
Proof using Hbytes.
  revert st ts. induction fuel as [|fuel IH]; intros st ts Hinv Hf Hn Ho; simpl;
    pose proof (ci_ip _ _ Hinv); unfold MAX_LIT in *.
  { case_bool; [lia|]. exists st, ts. split_and!; [done|done|lia|]. revert Ho. case_bool; lia. }
  destruct (Z.ltb_spec (c_ip st) (in_len inb)).
  2: { exists st, ts. split_and!; [done|done|lia|]. revert Ho. case_bool; lia. }
  destruct (put_lit_inv st ts Hinv) as (st2 & ts2 & -> & Hinv2 & Eip & Hl); [done|revert Ho; case_bool; lia|].
  cbn [obind]. apply (IH st2 ts2 Hinv2); [lia|lia|]. rewrite Eip. unfold MAX_LIT in Hl.
  pose proof (ci_lit_max _ _ Hinv). pose proof (ci_lit _ _ Hinv). unfold MAX_LIT in *.
  revert Ho Hl. repeat case_bool; intros; lia.
Qed.

End CompressProof.

(** The compressor always finishes inside its buffers; what it returns is a
    well-formed stream for its input. *)
Lemma lzf_compress_spec inb base htab out : bytes inb -> MAX_OFF <= base ->
  base + Z.of_nat (length inb) < 2 ^ 64 -> (forall i, 0 <= htab i < 2 ^ 64) ->
  length inb <> 1%nat ->
  lzf_compress inb base htab out = Ret None \/
  exists out' n ts, lzf_compress inb base htab out = Ret (Some (out', n)) /\
    0 < n <= Z.of_nat (length out) /\ length out' = length out /\
    toks_ok [] ts /\ plain [] ts = inb /\ take (Z.to_nat n) out' = encode ts.
Proof.
  intros Hb Hbase Hsp Hh H1. unfold lzf_compress. set (outlen := Z.of_nat (length out)).
  destruct (Z.eqb_spec (Z.of_nat (length inb)) 0); [by left|].
  destruct (Z.eqb_spec outlen 0); [by left|]. simpl. unfold FRST. rewrite !rd_ret by lia. cbn [obind].
  set (st0 := CState 0 1 0 _ htab out).
  assert (cinv inb outlen st0 []) as Hi0 by (split; unfold in_len, MAX_LIT; simpl; done || lia).
  destruct (compress_loop_inv inb base outlen Hb Hbase Hsp (length inb) st0 [] Hi0)
    as [->|(st1 & ts1 & -> & Hi1 & Hend)]; [unfold in_len; simpl; lia|by left|]. cbn [obind].
  destruct (Z.ltb_spec outlen (c_op st1 + 3)); [by left|]. right.
  pose proof (ci_ip _ _ _ _ Hi1). unfold in_len in *.
  destruct (tail_loop_inv inb outlen Hb (length inb) st1 ts1 Hi1) as (st2 & ts2 & -> & Hi2 & Eip & Ho2);
    unfold in_len, MAX_LIT in *; [lia|lia|case_bool; lia|]. cbn [obind].
  pose proof (ci_lit _ _ _ _ Hi2).
  destruct (stop_run inb outlen Hb st2 ts2 Hi2) as (out' & ts3 & -> & [Bl Bok Bp Bo Be]); [lia|]. cbn [obind].
  exists out', (c_op st2 - (if c_lit st2 =? 0 then 1 else 0)), ts3. split; [done|].
  rewrite Eip, Nat2Z.id, firstn_all in Bp.
  assert (ts3 <> []) as Hne by (intros ->; simpl in Bp; by subst inb).
  assert (0 < length (encode ts3))%nat as Hpos.
  { destruct ts3 as [|t ts3]; [done|]. change (encode (t :: ts3)) with (enc t ++ encode ts3).
    rewrite length_app. pose proof (enc_length t). lia. }
  assert (c_op st2 - (if c_lit st2 =? 0 then 1 else 0) <= c_op st2) by (case_bool; lia).
  split_and!; try done; try lia. rewrite Bo, Nat2Z.id. apply Be.
Qed.

Lemma lzf_decompress_stream ts dst : toks_ok [] ts -> (length (plain [] ts) <= length dst)%nat ->
  lzf_decompress (encode ts) dst =
  Ret (Some (plain [] ts ++ drop (length (plain [] ts)) dst, Z.of_nat (length (plain [] ts)))).
Proof.
  intros Hok Hl. unfold lzf_decompress.
  pose proof (decompress_loop_spec ts (length (encode ts)) (encode ts) 0 [] dst) as H.
  simpl in H. rewrite Nat.sub_0_r in H. apply H; try done.
  unfold has, load. by rewrite drop_0, firstn_all.
Qed.

(** Both directions together, for the callers. *)
Lemma lzf_compress_decompress inb base htab out out' n dst : bytes inb -> MAX_OFF <= base ->
  base + Z.of_nat (length inb) < 2 ^ 64 -> (forall i, 0 <= htab i < 2 ^ 64) ->
  length inb <> 1%nat -> (length inb <= length dst)%nat ->
  lzf_compress inb base htab out = Ret (Some (out', n)) ->
  lzf_decompress (take (Z.to_nat n) out') dst =
    Ret (Some (inb ++ drop (length inb) dst, Z.of_nat (length inb))).
Proof.
  intros Hb Hbase Hsp Hh H1 Hd E.
  destruct (lzf_compress_spec inb base htab out Hb Hbase Hsp Hh H1)
    as [E'|(o & m & ts & E' & _ & _ & Hok & Hp & Ht)]; rewrite E in E'; [done|].
  injection E' as -> ->. rewrite Ht. subst inb. by apply lzf_decompress_stream.
Qed.

(** ** Theorems *)

(** The compressor stays inside its buffers whatever the uninitialised
    hash table holds: it always returns, and the size it reports fits the
    output.  (An input of one byte is excluded: the first hash reads two.) *)
Theorem lzf_compress_safe (inb : list Z) (base : Z) (htab : Z -> Z) (out : list Z) :
  bytes inb -> MAX_OFF <= base -> base + Z.of_nat (length inb) < 2 ^ 64 ->
  (forall i, 0 <= htab i < 2 ^ 64) -> length inb <> 1%nat ->
  exists r, lzf_compress inb base htab out = Ret r /\
    forall out' n, r = Some (out', n) -> 0 < n <= Z.of_nat (length out) /\ length out' = length out.
Proof.
  intros Hb Hbase Hsp Hh H1.
  destruct (lzf_compress_spec inb base htab out Hb Hbase Hsp Hh H1)
    as [E|(o & m & ts & E & Hm & Hl & _)]; rewrite E; eexists; (split; [done|]); [done|].
  intros out' n [= <- <-]. done.
Qed.

(** C23: decompressing what was compressed gives the input back, whatever the
    uninitialised hash table held. *)
Theorem lzf_roundtrip (inb : list Z) (base : Z) (htab : Z -> Z) (out out' : list Z) (n : Z) (dst : list Z) :
  bytes inb -> MAX_OFF <= base -> base + Z.of_nat (length inb) < 2 ^ 64 ->
  (forall i, 0 <= htab i < 2 ^ 64) -> length inb <> 1%nat -> (length inb <= length dst)%nat ->
  lzf_compress inb base htab out = Ret (Some (out', n)) ->
  exists dst', lzf_decompress (take (Z.to_nat n) out') dst = Ret (Some (dst', Z.of_nat (length inb))) /\
    take (length inb) dst' = inb.
Proof.
  intros Hb Hbase Hsp Hh H1 Hd E. eexists. split; [by eapply lzf_compress_decompress|].
  apply take_app_length.
Qed.

(** C27: no input, well formed or not, makes the decompressor read or write
    outside its two buffers, and it always returns. *)
Theorem lzf_decompress_safe (inb dst : list Z) : bytes inb ->
  exists r, lzf_decompress inb dst = Ret r /\
    forall dst' n, r = Some (dst', n) -> 0 <= n <= Z.of_nat (length dst) /\ length dst' = length dst.
Proof.
  intros Hb. unfold lzf_decompress.
  destruct (decompress_loop_ok (length inb) inb dst 0 0) as [E|(o & n & E & Hn & Hl)];
    [done|lia|lia|lia|..]; rewrite E; eexists; (split; [done|]); [done|].
  intros dst' m [= <- <-]. done.
Qed.

(** ** Witnesses *)

Module Witness.
Definition text : list Z := Eval vm_compute in chars "abcabcabcabcabcabcabc, abcabcabcabc".
(** A table full of addresses inside the input. *)
Definition junk (i : Z) : Z := 10001 + i mod 32.
End Witness.

Lemma lzf_compress_safe_witness : exists r,
  lzf_compress Witness.text 10000 Witness.junk (repeat 0 31) = Ret r /\
  forall out' n, r = Some (out', n) -> 0 < n <= 31 /\ length out' = 31%nat.
Proof.
  apply (lzf_compress_safe Witness.text 10000 Witness.junk (repeat 0 31)).
  - repeat constructor; lia.
  - done.
  - done.
  - intros i. unfold Witness.junk. pose proof (Z.mod_pos_bound i 32). lia.
  - done.
Defined.

Lemma lzf_roundtrip_witness : exists out' dst',
  lzf_compress Witness.text 10000 Witness.junk (repeat 0 31) = Ret (Some (out', 17)) /\
  lzf_decompress (take 17 out') (repeat 0 40) = Ret (Some (dst', 35)) /\ take 35 dst' = Witness.text.
Proof.
  eexists. edestruct (lzf_roundtrip Witness.text 10000 Witness.junk (repeat 0 31)) with (dst := repeat 0 40)
    as (dst' & E & Ht).
  - repeat constructor; lia.
  - done.
  - done.
  - intros i. unfold Witness.junk. pose proof (Z.mod_pos_bound i 32). lia.
  - done.
  - simpl. lia.
  - vm_compute. reflexivity.
  - exists dst'. split; [vm_compute; reflexivity|]. split; [exact E|exact Ht].
Defined.

(** A back reference before the start of the output. *)
Lemma lzf_decompress_safe_witness : lzf_decompress [0; 97; 32; 9] (repeat 0 40) = Ret None /\
  exists r, lzf_decompress [0; 97; 32; 9] (repeat 0 40) = Ret r /\
    forall dst' n, r = Some (dst', n) -> 0 <= n <= 40 /\ length dst' = 40%nat.
Proof.
  split; [vm_compute; reflexivity|].
  apply (lzf_decompress_safe [0; 97; 32; 9] (repeat 0 40)). repeat constructor; lia.
Defined.

End Lzf.
