(* ===== verification/StrObj.v ===== *)
(** * StrObj: string objects (object.c)

    A string object holds its text as an sds string, allocated apart (RAW) or
    together with the object (EMBSTR), or as an integer (INT) when the text is
    the canonical decimal form of a [long].  Commands see the text only: the
    theorems say that every operation treats the three forms alike. *)
From S2P Require Import Prelude NumStr.
Import NumStr.

Module StrObj.

(** [o->encoding] with what [o->ptr] then holds. *)
Inductive body := BRaw (s : list Z) | BEmbstr (s : list Z) | BInt (v : Z).

Record robj := Robj { o_body : body; refcount : Z }.

Definition OBJ_SHARED_INTEGERS : Z := 10000.
Definition OBJ_SHARED_REFCOUNT : Z := 2 ^ 31 - 1.
Definition OBJ_FIRST_SPECIAL_REFCOUNT : Z := OBJ_SHARED_REFCOUNT - 1.
Definition OBJ_ENCODING_EMBSTR_SIZE_LIMIT : Z := 44.
Definition LL2STROBJ_AUTO : Z := 0.
Definition LL2STROBJ_NO_SHARED : Z := 1.
Definition LL2STROBJ_NO_INT_ENC : Z := 2.
Definition LONG_MAX : Z := 2 ^ 63 - 1.
Definition LONG_MIN : Z := - 2 ^ 63.

(** ** Creation *)

Definition createRawStringObject (s : list Z) : robj := Robj (BRaw s) 1.
Definition createEmbeddedStringObject (s : list Z) : robj := Robj (BEmbstr s) 1.

Definition createStringObject (s : list Z) : robj :=
  if Z.of_nat (length s) <=? OBJ_ENCODING_EMBSTR_SIZE_LIMIT
  then createEmbeddedStringObject s else createRawStringObject s.

(** The bytes [ll2string] leaves in a buffer of [size] bytes. *)
Definition printed (size v : Z) : list Z :=
  let '(buf, len) := ll2string (repeat 0 (Z.to_nat size)) size v in take (Z.to_nat len) buf.

Definition createStringObjectFromLongLongWithOptions (value flag : Z) : robj :=
  if (0 <=? value) && (value <? OBJ_SHARED_INTEGERS) && (flag =? LL2STROBJ_AUTO)
  then Robj (BInt value) OBJ_SHARED_REFCOUNT
  else if ((LONG_MIN <=? value) && (value <=? LONG_MAX)) && negb (flag =? LL2STROBJ_NO_INT_ENC)
  then Robj (BInt value) 1
  else createStringObject (printed LONG_STR_SIZE value).

Definition createStringObjectFromLongLong (value : Z) : robj :=
  createStringObjectFromLongLongWithOptions value LL2STROBJ_AUTO.

(** [sharing] is [server.maxmemory == 0 || !(server.maxmemory_policy &
    MAXMEMORY_FLAG_NO_SHARED_INTEGERS)]. *)
Definition createStringObjectFromLongLongForValue (sharing : bool) (value : Z) : robj :=
  if sharing then createStringObjectFromLongLongWithOptions value LL2STROBJ_AUTO
  else createStringObjectFromLongLongWithOptions value LL2STROBJ_NO_SHARED.

Definition createStringObjectFromLongLongWithSds (value : Z) : robj :=
  createStringObjectFromLongLongWithOptions value LL2STROBJ_NO_INT_ENC.

Definition dupStringObject (o : robj) : robj :=
  match o_body o with
  | BRaw s => createRawStringObject s
  | BEmbstr s => createEmbeddedStringObject s
  | BInt v => Robj (BInt v) 1
  end.

(** ** Encoding and decoding *)

(** The string is trimmed in place at the end: spare room is not modelled. *)
Definition tryObjectEncodingEx (sharing : bool) (o : robj) : robj :=
  match o_body o with
  | BInt _ => o
  | BRaw s | BEmbstr s =>
      if 1 <? refcount o then o
      else
        let len := Z.of_nat (length s) in
        let small :=
          if len <=? OBJ_ENCODING_EMBSTR_SIZE_LIMIT then
            match o_body o with BEmbstr _ => o | _ => createEmbeddedStringObject s end
          else o in
        match (if len <=? 20 then string2l s else None) with
        | Some value =>
            if sharing && (0 <=? value) && (value <? OBJ_SHARED_INTEGERS)
            then Robj (BInt value) OBJ_SHARED_REFCOUNT
            else
              match o_body o with
              | BRaw _ => Robj (BInt value) (refcount o)
              | BEmbstr _ => createStringObjectFromLongLongForValue sharing value
              | BInt _ => small
              end
        | None => small
        end
  end.

(** The C string at the start of a buffer. *)
Fixpoint cstr (b : list Z) : list Z :=
  match b with [] => [] | c :: b => if c =? 0 then [] else c :: cstr b end.

(** [Abort]: the panic on an object that lives on the stack. *)
Definition incrRefCount (o : robj) : outcome robj :=
  if refcount o <? OBJ_FIRST_SPECIAL_REFCOUNT then Ret (Robj (o_body o) (refcount o + 1))
  else if refcount o =? OBJ_SHARED_REFCOUNT then Ret o
  else Abort.

Definition getDecodedObject (o : robj) : outcome robj :=
  match o_body o with
  | BInt v => Ret (createStringObject (cstr (fst (ll2string (repeat 0 32) 32 v))))
  | _ => incrRefCount o
  end.

(** ** Comparison *)

(** The difference of the first bytes that differ, 0 when [n] bytes agree. *)
Fixpoint memcmp (a b : list Z) (n : nat) : Z :=
  match n, a, b with
  | S n, x :: a, y :: b => if x =? y then memcmp a b n else x - y
  | _, _, _ => 0
  end.

Definition str_of (o : robj) : list Z :=
  match o_body o with BRaw s | BEmbstr s => s | BInt v => printed 128 v end.

(** With [REDIS_COMPARE_BINARY].  The result is an [int]. *)
Definition compareStringObjects (a b : robj) : Z :=
  let astr := str_of a in
  let bstr := str_of b in
  let alen := length astr in
  let blen := length bstr in
  let minlen := if Nat.ltb alen blen then alen else blen in
  let cmp := memcmp astr bstr minlen in
  if cmp =? 0 then s32 (Z.of_nat alen - Z.of_nat blen) else cmp.

Definition equalStringObjects (a b : robj) : bool :=
  match o_body a, o_body b with
  | BInt x, BInt y => x =? y
  | _, _ => compareStringObjects a b =? 0
  end.

Definition stringObjectLen (o : robj) : Z :=
  match o_body o with BRaw s | BEmbstr s => Z.of_nat (length s) | BInt v => sdigits10 v end.

(** ** Numbers *)

Definition isObjectRepresentableAsLongLong (o : robj) : option Z :=
  match o_body o with BInt v => Some v | BRaw s | BEmbstr s => string2ll s end.

(** [None] is [C_ERR]; a null object counts as 0. *)
Definition getLongLongFromObject (o : option robj) : option Z :=
  match o with
  | None => Some 0
  | Some o => match o_body o with BInt v => Some v | BRaw s | BEmbstr s => string2ll s end
  end.

Definition getLongFromObjectOrReply (o : option robj) : option Z :=
  match getLongLongFromObject o with
  | None => None
  | Some value => if (value <? LONG_MIN) || (LONG_MAX <? value) then None else Some value
  end.

Definition getRangeLongFromObjectOrReply (o : option robj) (min max : Z) : option Z :=
  match getLongFromObjectOrReply o with
  | None => None
  | Some target => if (target <? min) || (max <? target) then None else Some target
  end.

Definition getPositiveLongFromObjectOrReply (o : option robj) : option Z :=
  getRangeLongFromObjectOrReply o 0 LONG_MAX.

Definition getIntFromObjectOrReply (o : option robj) : option Z :=
  getRangeLongFromObjectOrReply o (- 2 ^ 31) (2 ^ 31 - 1).

(** ** What the object stands for *)

Definition content (o : robj) : list Z :=
  match o_body o with BRaw s | BEmbstr s => s | BInt v => repr v end.

Definition obj_ok (o : robj) : Prop :=
  match o_body o with
  | BRaw s => bytes s
  | BEmbstr s => bytes s /\ Z.of_nat (length s) <= OBJ_ENCODING_EMBSTR_SIZE_LIMIT
  | BInt v => in_s 64 v
  end.

(** The three forms of equal text are the same to a reader. *)
Definition obj_equiv (a b : robj) : Prop := content a = content b.
#[export] Instance obj_equiv_equivalence : Equivalence obj_equiv.
Proof. unfold obj_equiv. split; intros ?; congruence. Qed.

Lemma printed_repr size v : in_s 64 v -> 21 <= size -> printed size v = repr v.
Proof.
  intros Hv Hs. unfold printed. destruct (repr_length v Hv) as [Hl H20].
  pose proof (ll2string_spec (repeat 0 (Z.to_nat size)) size v Hv) as H.
  rewrite repeat_length in H. specialize (H ltac:(lia)).
  destruct (Z.ltb_spec (sdigits10 v) size); [|lia]. rewrite H.
  unfold store. simpl. rewrite <- app_assoc. apply take_app_length'. lia.
Qed.

(** The text of a number has no NUL byte. *)
Lemma repr_bytes v : in_s 64 v -> Forall (fun c => 0 < c < 256) (repr v).
Proof.
  intros Hv. unfold repr.
  assert (forall n x, Forall (fun c => 0 < c < 256) (dec_fixed n x)) as H.
  { intros n x. eapply Forall_impl; [apply dec_fixed_digits|]. unfold is_digit. lia. }
  case_bool; [constructor; [lia|]|]; apply H.
Qed.

Lemma cstr_app l rest : Forall (fun c => 0 < c < 256) l -> cstr (l ++ 0 :: rest) = l.
Proof. induction 1 as [|c l Hc _ IH]; simpl; [done|]. case_bool; [lia|]. by rewrite IH. Qed.

Lemma content_createStringObject s : content (createStringObject s) = s.
Proof. unfold createStringObject. by case_bool. Qed.

Lemma obj_ok_createStringObject s : bytes s -> obj_ok (createStringObject s).
Proof. intros Hs. unfold createStringObject. by case_bool. Qed.

Lemma repr_is_bytes v : in_s 64 v -> bytes (repr v).
Proof.
  intros Hv. eapply Forall_impl; [by apply repr_bytes|]. simpl. unfold is_byte, in_u. simpl. lia.
Qed.

Lemma fromLongLong_spec value flag : in_s 64 value ->
  let o := createStringObjectFromLongLongWithOptions value flag in
  content o = repr value /\ obj_ok o.
Proof.
  intros Hv. unfold createStringObjectFromLongLongWithOptions, LONG_STR_SIZE.
  destruct (_ && _); [done|]. destruct (_ && _); [done|].
  rewrite printed_repr by (done || lia). rewrite content_createStringObject.
  split; [done|]. by apply obj_ok_createStringObject, repr_is_bytes.
Qed.

Lemma string2l_spec s v : string2l s = Some v <-> in_s 64 v /\ s = repr v.
Proof.
  rewrite <- string2ll_spec. unfold string2l. destruct (string2ll s) as [u|] eqn:E; [|done].
  apply string2ll_spec in E as [Hu _]. unfold in_s, LLONG_MIN, LLONG_MAX in *.
  repeat case_bool; simpl; done || lia.
Qed.

Lemma tryObjectEncoding_spec sharing o : obj_ok o ->
  content (tryObjectEncodingEx sharing o) = content o /\ obj_ok (tryObjectEncodingEx sharing o).
Proof.
  intros Hok. unfold tryObjectEncodingEx. destruct o as [[s|s|v] rc]; simpl in *; [| |done].
  all: destruct (1 <? rc); [done|].
  all: destruct (if _ <=? 20 then string2l s else None) as [value|] eqn:E.
  all: try (apply (f_equal (fun x => x)) in E; destruct (_ <=? 20); [|done];
            apply string2l_spec in E as [Hv ->]).
  all: try (destruct (_ && _); [done|]).
  - done.
  - destruct (Z.leb_spec (Z.of_nat (length s)) OBJ_ENCODING_EMBSTR_SIZE_LIMIT); done.
  - destruct sharing; by apply fromLongLong_spec.
  - destruct (Z.of_nat (length s) <=? OBJ_ENCODING_EMBSTR_SIZE_LIMIT); (split; [reflexivity|exact Hok]).
Qed.

Lemma str_of_content o : obj_ok o -> str_of o = content o.
Proof.
  unfold obj_ok, str_of, content. destruct (o_body o); [done|done|]. intros H. apply printed_repr; done || lia.
Qed.

Lemma getDecodedObject_spec o : obj_ok o -> refcount o <> OBJ_FIRST_SPECIAL_REFCOUNT ->
  refcount o <= OBJ_SHARED_REFCOUNT ->
  exists d, getDecodedObject o = Ret d /\ content d = content o /\ obj_ok d /\
    forall v, o_body d <> BInt v.
Proof.
  intros Hok Hrc Hle. unfold getDecodedObject, incrRefCount.
  destruct o as [[s|s|v] rc]; unfold obj_ok in Hok; cbn [o_body refcount] in *.
  1,2: destruct (Z.ltb_spec rc OBJ_FIRST_SPECIAL_REFCOUNT); [by eexists|];
       destruct (Z.eqb_spec rc OBJ_SHARED_REFCOUNT); [by eexists|];
       unfold OBJ_FIRST_SPECIAL_REFCOUNT in *; lia.
  destruct (repr_length v Hok) as [Hl H20].
  pose proof (ll2string_spec (repeat 0 32) 32 v Hok eq_refl) as H.
  destruct (Z.ltb_spec (sdigits10 v) 32); [|lia]. rewrite H. cbn [fst].
  assert (cstr (store (repeat 0 32) 0 (repr v ++ [0])) = repr v) as ->.
  { unfold store. rewrite <- app_assoc. apply (cstr_app (repr v)). by apply repr_bytes. }
  eexists. split; [done|]. rewrite content_createStringObject. split; [done|]. split.
  - by apply obj_ok_createStringObject, repr_is_bytes.
  - intros u. unfold createStringObject. by case_bool.
Qed.

Lemma repr_inj u v : in_s 64 u -> in_s 64 v -> repr u = repr v -> u = v.
Proof.
  intros Hu Hv E. assert (string2ll (repr u) = Some u) as H1 by (by apply string2ll_spec).
  assert (string2ll (repr u) = Some v) as H2 by (by apply string2ll_spec). congruence.
Qed.

(** Canonical decimal text becomes an integer. *)
Lemma tryObjectEncoding_int sharing o v : obj_ok o -> refcount o <= 1 -> in_s 64 v ->
  content o = repr v -> o_body (tryObjectEncodingEx sharing o) = BInt v.
Proof.
  intros Hok H1 Hv E. unfold tryObjectEncodingEx, content, obj_ok in *.
  assert (forall s, s = repr v ->
    (if Z.of_nat (length s) <=? 20 then string2l s else None) = Some v) as Hs.
  { intros s ->. destruct (repr_length v Hv). destruct (Z.leb_spec (Z.of_nat (length (repr v))) 20); [|lia].
    by apply string2l_spec. }
  destruct o as [[s|s|u] rc]; cbn [o_body refcount] in *.
  3: { f_equal. by apply repr_inj. }
  all: destruct (Z.ltb_spec 1 rc); [lia|]; rewrite (Hs s E); destruct (_ && _) eqn:Eb; try done.
  unfold createStringObjectFromLongLongForValue, createStringObjectFromLongLongWithOptions, in_s, LONG_MIN, LONG_MAX in *.
  destruct sharing; cbn [andb] in Eb; rewrite ?Eb; cbn [andb]; repeat case_bool; simpl; done || lia.
Qed.

(** Lexicographic order of byte strings. *)
Fixpoint lex (a b : list Z) : comparison :=
  match a, b with
  | [], [] => Eq
  | [], _ :: _ => Lt
  | _ :: _, [] => Gt
  | x :: a, y :: b => match x ?= y with Eq => lex a b | c => c end
  end.

Definition sign (z : Z) : comparison := z ?= 0.

Lemma lex_memcmp a b :
  lex a b = (let n := if Nat.ltb (length a) (length b) then length a else length b in
             if memcmp a b n =? 0 then sign (Z.of_nat (length a) - Z.of_nat (length b))
             else sign (memcmp a b n)).
Proof.
  revert b. induction a as [|x a IH]; intros [|y b]; [done|done|done|].
  specialize (IH b). cbv zeta in *. simpl lex. cbn [length].
  assert ((if Nat.ltb (S (length a)) (S (length b)) then S (length a) else S (length b)) =
          S (if Nat.ltb (length a) (length b) then length a else length b)) as ->.
  { change (Nat.ltb (S (length a)) (S (length b))) with (Nat.ltb (length a) (length b)). by destruct (Nat.ltb _ _). }
  cbn [memcmp]. destruct (Z.eqb_spec x y) as [->|Hne].
  - rewrite Z.compare_refl, IH. destruct (_ =? 0); [|done]. f_equal. lia.
  - destruct (Z.eqb_spec (x - y) 0); [lia|]. unfold sign.
    destruct (Z.compare_spec x y), (Z.compare_spec (x - y) 0); lia || done.
Qed.

Lemma lex_eq a b : lex a b = Eq <-> a = b.
Proof.
  revert b. induction a as [|x a IH]; intros [|y b]; simpl; try done.
  destruct (Z.compare_spec x y); [|split; [done|intros [= ? ?]; lia]..].
  subst. rewrite IH. split; [by intros ->|by intros [= ->]].
Qed.

(** ** Theorems *)

(** The encoding of a string object is invisible.  Trying to encode an
    object, decoding it, and copying it keep its text; its length, and the
    number read from it, are those of its text; and an object that is not shared
    becomes an integer exactly when its text is the canonical form of a 64-bit
    integer. *)
Theorem string_object_encoding (sharing : bool) (o : robj) :
  obj_ok o -> refcount o <> OBJ_FIRST_SPECIAL_REFCOUNT -> refcount o <= OBJ_SHARED_REFCOUNT ->
  obj_equiv (tryObjectEncodingEx sharing o) o /\ obj_equiv (dupStringObject o) o /\
  (exists d, getDecodedObject o = Ret d /\ obj_equiv d o /\ forall v, o_body d <> BInt v) /\
  stringObjectLen o = Z.of_nat (length (content o)) /\
  getLongLongFromObject (Some o) = string2ll (content o) /\
  (refcount o <= 1 -> forall v,
     o_body (tryObjectEncodingEx sharing o) = BInt v <-> in_s 64 v /\ content o = repr v).
Proof.
  intros Hok Hrc Hle. pose proof (tryObjectEncoding_spec sharing o Hok) as [Hc Hok'].
  split; [done|]. split; [by destruct o as [[s|s|v] rc]|]. split.
  { destruct (getDecodedObject_spec o Hok Hrc Hle) as (d & E & Hd & _ & Hn). by exists d. }
  split; [destruct o as [[s|s|v] rc]; simpl; [done|done|]; by destruct (repr_length v Hok)|].
  split. { destruct o as [[s|s|v] rc]; simpl; [done|done|]. symmetry. by apply string2ll_spec. }
  intros H1 v. split.
  - intros E. rewrite <- Hc. unfold obj_ok, content in *. by rewrite E in *.
  - intros [Hv E]. by apply tryObjectEncoding_int.
Qed.

(** The length difference fits an [int]. *)
Lemma compare_lex a b : obj_ok a -> obj_ok b ->
  Z.of_nat (length (content a)) < 2 ^ 31 -> Z.of_nat (length (content b)) < 2 ^ 31 ->
  sign (compareStringObjects a b) = lex (content a) (content b).
Proof.
  intros Ha Hb La Lb. unfold compareStringObjects. rewrite !str_of_content by done.
  rewrite lex_memcmp. cbv zeta. destruct (_ =? 0); [|done].
  rewrite swrap_small; [done|lia|]. unfold in_s. lia.
Qed.

(** Comparing string objects is comparing their texts.  For texts shorter
    than 2 GiB the sign of the result is the lexicographic order, and equality,
    with its shortcut for two integers, holds exactly for equal texts. *)
Theorem string_object_compare (a b : robj) : obj_ok a -> obj_ok b ->
  Z.of_nat (length (content a)) < 2 ^ 31 -> Z.of_nat (length (content b)) < 2 ^ 31 ->
  sign (compareStringObjects a b) = lex (content a) (content b) /\
  (equalStringObjects a b = true <-> obj_equiv a b).
Proof.
  intros Ha Hb La Lb. pose proof (compare_lex a b Ha Hb La Lb) as Hc. split; [done|].
  assert ((compareStringObjects a b =? 0) = true <-> obj_equiv a b) as Hz.
  { unfold obj_equiv. rewrite <- lex_eq, <- Hc, Z.eqb_eq. unfold sign. symmetry. apply Z.compare_eq_iff. }
  unfold equalStringObjects. destruct (o_body a) eqn:Ea, (o_body b) eqn:Eb; try done.
  unfold obj_equiv, content, obj_ok in *. rewrite Ea, Eb in *. rewrite Z.eqb_eq.
  split; [by intros ->|by apply repr_inj].
Qed.

(** Without the bound it fails: lengths are [size_t], their difference is
    returned as an [int], so a string and its extension by 4 GiB compare equal. *)
Lemma equal_length_wraps (s t : list Z) : Z.of_nat (length t) = 2 ^ 32 ->
  equalStringObjects (createRawStringObject s) (createRawStringObject (s ++ t)) = true.
Proof.
  intros Ht. unfold equalStringObjects, compareStringObjects. cbn [o_body createRawStringObject str_of].
  change (str_of (createRawStringObject ?x)) with x. rewrite length_app.
  assert (t <> []) as Hne by (intros ->; simpl in Ht; lia).
  assert (0 < length t)%nat by (destruct t; [done|simpl; lia]).
  destruct (Nat.ltb_spec (length s) (length s + length t)); [|lia].
  assert (memcmp s (s ++ t) (length s) = 0) as ->.
  { clear. induction s as [|c s IH]; simpl; [by destruct t|]. by rewrite Z.eqb_refl. }
  replace (Z.of_nat (length s) - Z.of_nat (length s + length t)) with (- 2 ^ 32) by lia. done.
Qed.

(** ** Witnesses *)

Definition n42 : robj := Eval vm_compute in createStringObject (chars "-42").

Lemma string_object_encoding_witness :
  o_body (tryObjectEncodingEx true n42) = BInt (-42) /\
  obj_equiv (tryObjectEncodingEx true n42) n42.
Proof.
  split; [vm_compute; reflexivity|].
  refine (proj1 (string_object_encoding true n42 _ _ _)).
  - split; [repeat constructor; lia|vm_compute; discriminate].
  - vm_compute. discriminate.
  - vm_compute. discriminate.
Defined.

Lemma string_object_compare_witness :
  equalStringObjects n42 (Robj (BInt (-42)) 1) = true /\
  obj_equiv n42 (Robj (BInt (-42)) 1).
Proof.
  assert (equalStringObjects n42 (Robj (BInt (-42)) 1) = true) as H by (vm_compute; reflexivity).
  split; [exact H|]. revert H.
  refine (proj1 (proj2 (string_object_compare n42 (Robj (BInt (-42)) 1) _ _ _ _))).
  - split; [repeat constructor; lia|vm_compute; discriminate].
  - vm_compute. split; [discriminate|reflexivity].
  - vm_compute. reflexivity.
  - vm_compute. reflexivity.
Defined.

End StrObj.
