(* ===== verification/Rdb.v ===== *)
(** * Rdb: lengths and strings in snapshot files (rdb.c)

    Every key, value and element of a snapshot goes through the functions of
    this file.  A snapshot being written is the list of its bytes, and writing
    fails once it would grow past [limit] bytes; one being read is the list of
    the bytes left.  Functions that return -1, 0 or NULL on error return [None]
    here; [Abort] stands for a failed assertion or an access outside a buffer. *)
From S2P Require Import Prelude NumStr Lzf StrObj.
Import NumStr Lzf StrObj.

Module Rdb.

Definition RDB_6BITLEN : Z := 0.
Definition RDB_14BITLEN : Z := 1.
Definition RDB_32BITLEN : Z := 128.
Definition RDB_64BITLEN : Z := 129.
Definition RDB_ENCVAL : Z := 3.
Definition RDB_LENERR : Z := 2 ^ 64 - 1.
Definition RDB_ENC_INT8 : Z := 0.
Definition RDB_ENC_INT16 : Z := 1.
Definition RDB_ENC_INT32 : Z := 2.
Definition RDB_ENC_LZF : Z := 3.
Definition UINT32_MAX : Z := 2 ^ 32 - 1.

(** Results of code that may also fail an assertion. *)
Definition io (A : Type) : Type := outcome (option A).
Definition iobind {A B} (m : io A) (f : A -> io B) : io B :=
  let* r := m in match r with None => Ret None | Some a => f a end.
Notation "'let!' x ':=' m 'in' k" := (iobind m (fun x => k))
  (at level 10, x pattern, m at level 100, k at level 200) : outcome_scope.

(** Big-endian: [htonl], [htonu64] and back. *)
Definition be_encode (n : nat) (z : Z) : list Z := rev (le_encode n z).
Definition be_decode (b : list Z) : Z := le_decode (rev b).
#[local] Arguments be_encode : simpl never.
#[local] Arguments be_decode : simpl never.

(** ** Writing *)

Section Save.
Context (limit : Z).

Definition rdbWriteRaw (rdb p : list Z) : option (list Z * Z) :=
  if Z.of_nat (length rdb) + Z.of_nat (length p) <=? limit
  then Some (rdb ++ p, Z.of_nat (length p)) else None.

Definition rdbSaveType (rdb : list Z) (type : Z) : option (list Z * Z) := rdbWriteRaw rdb [u8 type].

Definition rdbSaveMillisecondTime (rdb : list Z) (t : Z) : option (list Z * Z) :=
  rdbWriteRaw rdb (le_encode 8 t).

Definition rdbSaveLen (rdb : list Z) (len : Z) : option (list Z * Z) :=
  if len <? Z.shiftl 1 6 then
    '(rdb, _) ← rdbWriteRaw rdb [u8 (Z.lor (Z.land len 255) (Z.shiftl RDB_6BITLEN 6))];
    Some (rdb, 1)
  else if len <? Z.shiftl 1 14 then
    '(rdb, _) ← rdbWriteRaw rdb
      [u8 (Z.lor (Z.land (Z.shiftr len 8) 255) (Z.shiftl RDB_14BITLEN 6)); u8 (Z.land len 255)];
    Some (rdb, 2)
  else if len <=? UINT32_MAX then
    '(rdb, _) ← rdbWriteRaw rdb [RDB_32BITLEN];
    '(rdb, _) ← rdbWriteRaw rdb (be_encode 4 len);
    Some (rdb, 1 + 4)
  else
    '(rdb, _) ← rdbWriteRaw rdb [RDB_64BITLEN];
    '(rdb, _) ← rdbWriteRaw rdb (be_encode 8 len);
    Some (rdb, 1 + 8).

(** The bytes stored in [enc]; none for a return value 0. *)
Definition rdbEncodeInteger (value : Z) : list Z :=
  if (- Z.shiftl 1 7 <=? value) && (value <=? Z.shiftl 1 7 - 1) then
    [Z.lor (Z.shiftl RDB_ENCVAL 6) RDB_ENC_INT8; Z.land value 255]
  else if (- Z.shiftl 1 15 <=? value) && (value <=? Z.shiftl 1 15 - 1) then
    [Z.lor (Z.shiftl RDB_ENCVAL 6) RDB_ENC_INT16; Z.land value 255; Z.land (Z.shiftr value 8) 255]
  else if (- Z.shiftl 1 31 <=? value) && (value <=? Z.shiftl 1 31 - 1) then
    [Z.lor (Z.shiftl RDB_ENCVAL 6) RDB_ENC_INT32; Z.land value 255; Z.land (Z.shiftr value 8) 255;
     Z.land (Z.shiftr value 16) 255; Z.land (Z.shiftr value 24) 255]
  else [].

Definition rdbTryIntegerEncoding (s : list Z) : list Z :=
  match string2ll s with Some value => rdbEncodeInteger value | None => [] end.

Definition rdbSaveLzfBlob (rdb data : list Z) (compress_len original_len : Z)
  : option (list Z * Z) :=
  '(rdb, n1) ← rdbWriteRaw rdb [Z.lor (Z.shiftl RDB_ENCVAL 6) RDB_ENC_LZF];
  '(rdb, n2) ← rdbSaveLen rdb compress_len;
  '(rdb, n3) ← rdbSaveLen rdb original_len;
  '(rdb, n4) ← rdbWriteRaw rdb (take (Z.to_nat compress_len) data);
  Some (rdb, n1 + n2 + n3 + n4).

(** What the compressor finds in memory: the address of its input, the contents
    of its hash table and of its output buffer. *)
Record memory := Memory { m_base : Z; m_htab : Z -> Z; m_fresh : nat -> Z }.

Definition new_buffer (m : memory) (n : Z) : list Z := realloc (m_fresh m) [] (Z.to_nat n).

(** [Some None] is the return value 0: not compressed.  [zmalloc] does not fail;
    the compressor is told of one byte less than was allocated. *)
Definition rdbSaveLzfStringObject (m : memory) (rdb s : list Z) : io (option (list Z * Z)) :=
  let len := Z.of_nat (length s) in
  if len <=? 4 then Ret (Some None)
  else
    let outlen := len - 4 in
    let* r := lzf_compress s (m_base m) (m_htab m) (new_buffer m outlen) in
    match r with
    | None => Ret (Some None)
    | Some (out, comprlen) =>
        Ret (match rdbSaveLzfBlob rdb out comprlen len with None => None | Some x => Some (Some x) end)
    end.

Definition rdbSaveRawString (m : memory) (rdb_compression : bool) (rdb s : list Z) : io (list Z * Z) :=
  let len := Z.of_nat (length s) in
  let enc := if len <=? 11 then rdbTryIntegerEncoding s else [] in
  if negb (Nat.eqb (length enc) 0) then
    Ret ('(rdb, _) ← rdbWriteRaw rdb enc; Some (rdb, Z.of_nat (length enc)))
  else
    let! lz := if rdb_compression && (20 <? len) then rdbSaveLzfStringObject m rdb s
               else Ret (Some None) in
    match lz with
    | Some x => Ret (Some x)
    | None =>
        Ret ('(rdb, n) ← rdbSaveLen rdb len;
             if 0 <? len then '(rdb, _) ← rdbWriteRaw rdb s; Some (rdb, n + len) else Some (rdb, n))
    end.

Definition rdbSaveLongLongAsStringObject (rdb : list Z) (value : Z) : io (list Z * Z) :=
  let enc := rdbEncodeInteger value in
  if negb (Nat.eqb (length enc) 0) then Ret (rdbWriteRaw rdb enc)
  else
    let '(buf, enclen) := ll2string (repeat 0 32) 32 value in
    if negb (enclen <? 32) then Abort
    else
      Ret ('(rdb, n) ← rdbSaveLen rdb enclen;
           '(rdb, n') ← rdbWriteRaw rdb (take (Z.to_nat enclen) buf);
           Some (rdb, n + n')).

Definition rdbSaveStringObject (m : memory) (rdb_compression : bool) (rdb : list Z) (obj : robj)
  : io (list Z * Z) :=
  match o_body obj with
  | BInt v => rdbSaveLongLongAsStringObject rdb v
  | BRaw s | BEmbstr s => rdbSaveRawString m rdb_compression rdb s
  end.

End Save.

(** ** Reading *)

Definition rioRead (rdb : list Z) (n : Z) : option (list Z * list Z) :=
  if n <=? Z.of_nat (length rdb) then Some (take (Z.to_nat n) rdb, drop (Z.to_nat n) rdb) else None.

Definition rdbLoadType (rdb : list Z) : option (Z * list Z) :=
  '(b, rdb) ← rioRead rdb 1; Some (at_ b 0, rdb).

(** On a little-endian machine the version makes no difference. *)
Definition rdbLoadMillisecondTime (rdb : list Z) (rdbver : Z) : option (Z * list Z) :=
  '(b, rdb) ← rioRead rdb 8; Some (s64 (le_decode b), rdb).

(** [*isencoded], [*lenptr] and the bytes left. *)
Definition rdbLoadLenByRef (rdb : list Z) : option (bool * Z * list Z) :=
  '(b, rdb) ← rioRead rdb 1;
  let b0 := at_ b 0 in
  let type := Z.shiftr (Z.land b0 192) 6 in
  if type =? RDB_ENCVAL then Some (true, Z.land b0 63, rdb)
  else if type =? RDB_6BITLEN then Some (false, Z.land b0 63, rdb)
  else if type =? RDB_14BITLEN then
    '(b, rdb) ← rioRead rdb 1;
    Some (false, Z.lor (Z.shiftl (Z.land b0 63) 8) (at_ b 0), rdb)
  else if b0 =? RDB_32BITLEN then
    '(b, rdb) ← rioRead rdb 4; Some (false, be_decode b, rdb)
  else if b0 =? RDB_64BITLEN then
    '(b, rdb) ← rioRead rdb 8; Some (false, be_decode b, rdb)
  else None.

(** The length read, or [RDB_LENERR]. *)
Definition rdbLoadLen (rdb : list Z) : bool * Z * list Z :=
  match rdbLoadLenByRef rdb with None => (false, RDB_LENERR, rdb) | Some r => r end.

Definition RDB_LOAD_NONE : Z := 0.
Definition RDB_LOAD_ENC : Z := 1.
Definition RDB_LOAD_PLAIN : Z := 2.
Definition RDB_LOAD_SDS : Z := 4.
Definition RDB_LOAD_HFLD : Z := 8.
Definition RDB_LOAD_HFLD_TTL : Z := 16.

(** What the flags ask for. *)
Inductive loaded := LPlain (s : list Z) | LSds (s : list Z) | LHfield (ttl : bool) (s : list Z) | LObj (o : robj).

Definition plainFlag (flags : Z) : bool := negb (Z.land flags RDB_LOAD_PLAIN =? 0).
Definition sdsFlag (flags : Z) : bool := negb (Z.land flags RDB_LOAD_SDS =? 0).
Definition hfldFlag (flags : Z) : bool :=
  negb (Z.land flags (Z.lor RDB_LOAD_HFLD RDB_LOAD_HFLD_TTL) =? 0).
Definition encFlag (flags : Z) : bool := negb (Z.land flags RDB_LOAD_ENC =? 0).
Definition robjFlag (flags : Z) : bool := negb (plainFlag flags || sdsFlag flags || hfldFlag flags).

(** The string in the container the flags ask for, other than an object. *)
Definition contain (flags : Z) (s : list Z) : loaded :=
  if plainFlag flags then LPlain s else if sdsFlag flags then LSds s
  else LHfield (Z.land flags RDB_LOAD_HFLD =? 0) s.

Section Load.
(** Whether an allocation of that size succeeds, what new memory holds, and
    whether values may share small integers. *)
Context (alloc_ok : Z -> bool) (fresh : nat -> Z) (sharing : bool).

Definition rdbLoadIntegerObject (rdb : list Z) (enctype flags : Z) : option (loaded * list Z) :=
  '(val, rdb) ← (if enctype =? RDB_ENC_INT8 then
      '(enc, rdb) ← rioRead rdb 1; Some (s8 (at_ enc 0), rdb)
    else if enctype =? RDB_ENC_INT16 then
      '(enc, rdb) ← rioRead rdb 2; Some (s16 (Z.lor (at_ enc 0) (Z.shiftl (at_ enc 1) 8)), rdb)
    else if enctype =? RDB_ENC_INT32 then
      '(enc, rdb) ← rioRead rdb 4;
      Some (s32 (Z.lor (Z.lor (Z.lor (at_ enc 0) (Z.shiftl (at_ enc 1) 8)) (Z.shiftl (at_ enc 2) 16))
                   (Z.shiftl (at_ enc 3) 24)), rdb)
    else None);
  if plainFlag flags || sdsFlag flags || hfldFlag flags
  then Some (contain flags (printed LONG_STR_SIZE val), rdb)
  else if encFlag flags then Some (LObj (createStringObjectFromLongLongForValue sharing val), rdb)
  else Some (LObj (createStringObjectFromLongLongWithSds val), rdb).

Definition rdbLoadLzfStringObject (rdb : list Z) (flags : Z) : io (loaded * list Z) :=
  let '(_, clen, rdb) := rdbLoadLen rdb in
  if clen =? RDB_LENERR then Ret None
  else
    let '(_, len, rdb) := rdbLoadLen rdb in
    if len =? RDB_LENERR then Ret None
    else if negb (alloc_ok clen) then Ret None
    else if negb (alloc_ok len) then Ret None
    else
      match rioRead rdb clen with
      | None => Ret None
      | Some (c, rdb) =>
          let* r := lzf_decompress c (realloc fresh [] (Z.to_nat len)) in
          let '(val, n) := match r with None => ([], 0) | Some x => x end in
          if negb (n =? len) then Ret None
          else if robjFlag flags then Ret (Some (LObj (createRawStringObject val), rdb))
          else Ret (Some (contain flags val, rdb))
      end.

Definition rdbGenericLoadStringObject (rdb : list Z) (flags : Z) : io (loaded * list Z) :=
  let '(isencoded, len, rdb) := rdbLoadLen rdb in
  if len =? RDB_LENERR then Ret None
  else if isencoded then
    if (len =? RDB_ENC_INT8) || (len =? RDB_ENC_INT16) || (len =? RDB_ENC_INT32)
    then Ret (rdbLoadIntegerObject rdb len flags)
    else if len =? RDB_ENC_LZF then rdbLoadLzfStringObject rdb flags
    else Ret None
  else if robjFlag flags then
    if (OBJ_ENCODING_EMBSTR_SIZE_LIMIT <? len) && negb (alloc_ok len) then Ret None
    else if len =? 0 then Ret (Some (LObj (createStringObject []), rdb))
    else Ret ('(s, rdb) ← rioRead rdb len; Some (LObj (createStringObject s), rdb))
  else if negb (alloc_ok len) then Ret None
  else if len =? 0 then Ret (Some (contain flags [], rdb))
  else Ret ('(s, rdb) ← rioRead rdb len; Some (contain flags s, rdb)).

Definition rdbLoadStringObject (rdb : list Z) : io (loaded * list Z) :=
  rdbGenericLoadStringObject rdb RDB_LOAD_NONE.
Definition rdbLoadEncodedStringObject (rdb : list Z) : io (loaded * list Z) :=
  rdbGenericLoadStringObject rdb RDB_LOAD_ENC.

End Load.

(** ** Bytes and lengths *)

Lemma be_decode_encode n z : be_decode (be_encode n z) = wrap (8 * Z.of_nat n) z.
Proof. unfold be_decode, be_encode. rewrite rev_involutive. apply le_decode_encode. Qed.

Lemma length_be_encode n z : length (be_encode n z) = n.
Proof. unfold be_encode. by rewrite length_rev, length_le_encode. Qed.

(** The first byte of a length: its two high bits and its six low bits. *)
Lemma head_bits b : 0 <= b < 256 ->
  Z.shiftr (Z.land b 192) 6 = b / 64 /\ Z.land b 63 = b mod 64.
Proof.
  intros Hb. split.
  - apply Z.eqb_eq. apply (range_check (fun b => Z.shiftr (Z.land b 192) 6 =? b / 64) 256);
      [vm_compute; reflexivity|lia].
  - change 63 with (2 ^ 6 - 1). by rewrite land_mask by lia.
Qed.

Definition len_bytes (len : Z) : list Z :=
  if len <? 64 then [len]
  else if len <? 16384 then [64 + len / 256; len mod 256]
  else if len <=? UINT32_MAX then RDB_32BITLEN :: be_encode 4 len
  else RDB_64BITLEN :: be_encode 8 len.

Lemma length_len_bytes len : (1 <= length (len_bytes len) <= 9)%nat.
Proof.
  unfold len_bytes. repeat case_bool; simpl; rewrite ?length_be_encode; lia.
Qed.

Lemma write_write limit rdb a b :
  ('(rdb, n) ← rdbWriteRaw limit rdb a; '(rdb, n') ← rdbWriteRaw limit rdb b; Some (rdb, n + n'))
  = rdbWriteRaw limit rdb (a ++ b).
Proof.
  unfold rdbWriteRaw. rewrite length_app.
  destruct (Z.leb_spec (Z.of_nat (length rdb) + Z.of_nat (length a)) limit); simpl;
    [rewrite length_app|]; repeat case_bool; simpl; try lia; try done.
  rewrite <- app_assoc. do 2 f_equal. lia.
Qed.

Lemma write_count limit rdb a n : Z.of_nat (length a) = n ->
  ('(rdb, _) ← rdbWriteRaw limit rdb a; Some (rdb, n)) = rdbWriteRaw limit rdb a.
Proof. intros <-. unfold rdbWriteRaw. by case_bool. Qed.

Lemma rdbSaveLen_spec limit rdb len : 0 <= len < 2 ^ 64 ->
  rdbSaveLen limit rdb len = rdbWriteRaw limit rdb (len_bytes len).
Proof.
  intros Hl. unfold rdbSaveLen, len_bytes, RDB_6BITLEN, RDB_14BITLEN.
  change (Z.shiftl 1 6) with 64. change (Z.shiftl 1 14) with 16384.
  change (Z.shiftl 0 6) with 0. rewrite Z.lor_0_r, !land_255.
  case_bool.
  { rewrite write_count by done. rewrite (Z.mod_small len) by lia.
    by rewrite wrap_small by (unfold in_u; simpl; lia). }
  case_bool.
  { rewrite write_count by done. rewrite Z.shiftr_div_pow2 by lia. change (2 ^ 8) with 256.
    rewrite (Z.mod_small (len / 256)) by zdiv.
    rewrite (lor_shiftl (len / 256) 1 6 : _ -> _ -> Z.lor _ 64 = _) by (simpl; zdiv). change (1 * 2 ^ 6) with 64.
    rewrite !wrap_small by (unfold in_u; simpl; zdiv). by rewrite Z.add_comm. }
  case_bool.
  - transitivity ('(rdb, n) ← rdbWriteRaw limit rdb [RDB_32BITLEN];
      '(rdb, n') ← rdbWriteRaw limit rdb (be_encode 4 len); Some (rdb, n + n')); [|apply write_write].
    unfold rdbWriteRaw. rewrite length_be_encode. simpl. repeat (case_bool; simpl; try done).
  - transitivity ('(rdb, n) ← rdbWriteRaw limit rdb [RDB_64BITLEN];
      '(rdb, n') ← rdbWriteRaw limit rdb (be_encode 8 len); Some (rdb, n + n')); [|apply write_write].
    unfold rdbWriteRaw. rewrite length_be_encode. simpl. repeat (case_bool; simpl; try done).
Qed.

Lemma rioRead_app a rest n : n = Z.of_nat (length a) -> rioRead (a ++ rest) n = Some (a, rest).
Proof.
  intros ->. unfold rioRead. rewrite length_app. case_bool; [|lia].
  by rewrite Nat2Z.id, take_app_length, drop_app_length.
Qed.

Lemma rioRead_cons c rest : rioRead (c :: rest) 1 = Some ([c], rest).
Proof. by apply (rioRead_app [c]). Qed.

Lemma rioRead_short a n : Z.of_nat (length a) < n -> rioRead a n = None.
Proof. intros H. unfold rioRead. by case_bool; [lia|]. Qed.

Lemma rdbLoadLen_bytes len rest : 0 <= len < 2 ^ 64 ->
  rdbLoadLenByRef (len_bytes len ++ rest) = Some (false, len, rest).
Proof.
  intros Hl. unfold rdbLoadLenByRef, len_bytes, UINT32_MAX.
  pose proof (length_be_encode 4 len) as L4. pose proof (length_be_encode 8 len) as L8.
  pose proof (be_decode_encode 4 len) as D4. pose proof (be_decode_encode 8 len) as D8.
  generalize dependent (be_encode 4 len). generalize dependent (be_encode 8 len). intros e8 L8 D8 e4 L4 D4.
  repeat case_bool; cbn [app]; rewrite rioRead_cons; cbn [mbind option_bind];
    change (at_ [?x] 0) with x.
  - destruct (head_bits len) as [-> ->]; [lia|]. rewrite Z.div_small, Z.mod_small by lia. done.
  - destruct (head_bits (64 + len / 256)) as [-> ->]; [zdiv|].
    replace ((64 + len / 256) / 64) with 1 by zdiv. replace ((64 + len / 256) mod 64) with (len / 256) by zdiv.
    simpl. rewrite rioRead_cons. cbn [mbind option_bind]. change (at_ [?x] 0) with x.
    rewrite Z.lor_comm, lor_shiftl by (simpl; zdiv). do 3 f_equal. simpl. zdiv.
  - simpl. rewrite (rioRead_app e4) by (by rewrite L4). cbn [mbind option_bind].
    rewrite D4, wrap_small; [done|]. unfold in_u. simpl. lia.
  - simpl. rewrite (rioRead_app e8) by (by rewrite L8). cbn [mbind option_bind].
    rewrite D8, wrap_small; [done|]. unfold in_u. simpl. lia.
Qed.

(** A length that is cut short is refused. *)
Lemma rdbLoadLen_short len k : 0 <= len < 2 ^ 64 -> (k < length (len_bytes len))%nat ->
  rdbLoadLenByRef (take k (len_bytes len)) = None.
Proof.
  intros Hl Hk. destruct k as [|k]; [done|]. unfold len_bytes in *.
  repeat case_bool; simpl in Hk; rewrite ?length_be_encode in Hk; cbn [take]; unfold rdbLoadLenByRef;
    rewrite rioRead_cons; cbn [mbind option_bind]; change (at_ [?x] 0) with x.
  - lia.
  - destruct (head_bits (64 + len / 256)) as [-> ->]; [zdiv|].
    replace ((64 + len / 256) / 64) with 1 by zdiv. assert (k = 0%nat) as -> by lia. done.
  - simpl. rewrite rioRead_short; [done|]. rewrite length_take, length_be_encode. lia.
  - simpl. rewrite rioRead_short; [done|]. rewrite length_take, length_be_encode. lia.
Qed.

(** ** Integers *)

(** The type and the little-endian bytes of an integer that fits 32 bits. *)
Lemma rdbEncodeInteger_spec value :
  rdbEncodeInteger value = [] /\ ~ in_s 32 value \/
  exists t n, rdbEncodeInteger value = 192 + t :: le_encode n value /\
    in_s (8 * Z.of_nat n) value /\
    (t = RDB_ENC_INT8 /\ n = 1%nat \/ t = RDB_ENC_INT16 /\ n = 2%nat \/ t = RDB_ENC_INT32 /\ n = 4%nat).
Proof.
  unfold rdbEncodeInteger. rewrite !land_255, !Z.shiftr_div_pow2 by lia.
  change (Z.shiftl 1 7) with 128. change (Z.shiftl 1 15) with 32768. change (Z.shiftl 1 31) with 2147483648.
  change (2 ^ 8) with 256. change (2 ^ 16) with (256 * 256). change (2 ^ 24) with (256 * 256 * 256).
  rewrite <- !Z.div_div by lia.
  destruct ((- (128) <=? value) && (value <=? _)) eqn:E1;
    [|destruct ((- (32768) <=? value) && (value <=? _)) eqn:E2;
      [|destruct ((- (2147483648) <=? value) && (value <=? _)) eqn:E3]]; zbool.
  - right. exists 0, 1%nat. split; [done|]. split; [unfold in_s; simpl; lia|tauto].
  - right. exists 1, 2%nat. split; [done|]. split; [unfold in_s; simpl; lia|tauto].
  - right. exists 2, 4%nat. split; [done|]. split; [unfold in_s; simpl; lia|tauto].
  - left. split; [done|]. unfold in_s. simpl.
    apply andb_false_iff in E3 as [E3|E3]; zbool; lia.
Qed.

Definition value (l : loaded) : list Z :=
  match l with LPlain s | LSds s | LHfield _ s => s | LObj o => content o end.

Lemma value_contain flags s : value (contain flags s) = s.
Proof. unfold contain. destruct (plainFlag flags); [done|]. by destruct (sdsFlag flags). Qed.

(** Little-endian bytes put together with shifts. *)
Lemma or_bytes2 a b : is_byte a -> is_byte b -> Z.lor a (Z.shiftl b 8) = le_decode [a; b].
Proof. unfold is_byte, in_u. simpl. intros Ha Hb. rewrite lor_shiftl by (simpl; lia). simpl. lia. Qed.

Lemma or_bytes4 a b c d : is_byte a -> is_byte b -> is_byte c -> is_byte d ->
  Z.lor (Z.lor (Z.lor a (Z.shiftl b 8)) (Z.shiftl c 16)) (Z.shiftl d 24) = le_decode [a; b; c; d].
Proof.
  unfold is_byte, in_u. simpl. intros Ha Hb Hc Hd.
  rewrite (lor_shiftl a b), (lor_shiftl _ c), (lor_shiftl _ d) by (simpl; lia). simpl. lia.
Qed.

Lemma le_encode_signed n v : (0 < n)%nat -> in_s (8 * Z.of_nat n) v ->
  swrap (8 * Z.of_nat n) (le_decode (le_encode n v)) = v.
Proof. intros Hn Hv. rewrite le_decode_encode, swrap_wrap. apply swrap_small; [lia|done]. Qed.

Lemma rdbLoadIntegerObject_spec sharing v t n rest flags :
  in_s (8 * Z.of_nat n) v ->
  (t = RDB_ENC_INT8 /\ n = 1%nat \/ t = RDB_ENC_INT16 /\ n = 2%nat \/ t = RDB_ENC_INT32 /\ n = 4%nat) ->
  exists l, rdbLoadIntegerObject sharing (le_encode n v ++ rest) t flags = Some (l, rest) /\ value l = repr v.
Proof.
  intros Hv Ht. unfold rdbLoadIntegerObject.
  assert (in_s 64 v) as H64.
  { unfold in_s in *. destruct Ht as [[_ ->]|[[_ ->]|[_ ->]]]; simpl in Hv; lia. }
  set (m := (if t =? RDB_ENC_INT8 then _ else _)).
  assert (m = Some (v, rest)) as ->.
  { pose proof (le_encode_signed n v) as Hs. pose proof (bytes_le_encode n v) as Hb.
    pose proof (length_le_encode n v) as Hl. unfold m. clear m.
    destruct Ht as [[-> ->]|[[-> ->]|[-> ->]]]; specialize (Hs ltac:(lia) Hv);
      destruct (le_encode _ v) as [|a [|b [|c [|d [|]]]]]; try discriminate Hl; cbn [Z.eqb Pos.eqb RDB_ENC_INT8 RDB_ENC_INT16 RDB_ENC_INT32];
      repeat (let H := fresh in apply Forall_cons_1 in Hb as [H Hb]).
    - rewrite (rioRead_app [a]) by done. cbn [mbind option_bind]. change (at_ [a] 0) with a.
      replace a with (le_decode [a]) by (simpl; lia). by rewrite (Hs : s8 (le_decode [a]) = v).
    - rewrite (rioRead_app [a; b]) by done. cbn [mbind option_bind].
      change (at_ [a; b] 0) with a. change (at_ [a; b] 1) with b.
      rewrite or_bytes2 by done. by rewrite (Hs : s16 (le_decode [a; b]) = v).
    - rewrite (rioRead_app [a; b; c; d]) by done. cbn [mbind option_bind].
      change (at_ [a; b; c; d] 0) with a. change (at_ [a; b; c; d] 1) with b.
      change (at_ [a; b; c; d] 2) with c. change (at_ [a; b; c; d] 3) with d.
      rewrite or_bytes4 by done. by rewrite (Hs : s32 (le_decode [a; b; c; d]) = v). }
  cbn [mbind option_bind]. unfold LONG_STR_SIZE. rewrite printed_repr by (done || lia).
  destruct (_ || _ || _); [|destruct (encFlag flags)]; eexists; (split; [done|]).
  - apply value_contain.
  - simpl. unfold createStringObjectFromLongLongForValue. destruct sharing; by apply fromLongLong_spec.
  - by apply fromLongLong_spec.
Qed.

(** ** Strings *)

Lemma rdbLoadLen_enc t rest : 0 <= t < 64 -> rdbLoadLen (192 + t :: rest) = (true, t, rest).
Proof.
  intros Ht. unfold rdbLoadLen, rdbLoadLenByRef. rewrite rioRead_cons. cbn [mbind option_bind].
  change (at_ [?x] 0) with x. destruct (head_bits (192 + t)) as [-> ->]; [lia|].
  replace ((192 + t) / 64) with 3 by zdiv. replace ((192 + t) mod 64) with t by zdiv. done.
Qed.

Lemma rdbLoadLen_len len rest : 0 <= len < 2 ^ 64 -> rdbLoadLen (len_bytes len ++ rest) = (false, len, rest).
Proof. intros H. unfold rdbLoadLen. by rewrite rdbLoadLen_bytes. Qed.

(** What a stored string is: its bytes read back as the string, in every
    container, and the rest is left for the next item. *)
Definition stores (enc s : list Z) : Prop :=
  forall fresh sharing rest flags,
    exists l, rdbGenericLoadStringObject (fun _ => true) fresh sharing (enc ++ rest) flags
                = Ret (Some (l, rest)) /\ value l = s.

Lemma stores_int v : rdbEncodeInteger v <> [] -> stores (rdbEncodeInteger v) (repr v).
Proof.
  intros Hne fresh sharing rest flags. unfold rdbGenericLoadStringObject.
  destruct (rdbEncodeInteger_spec v) as [[? _]|(t & n & -> & Hv & Ht)]; [done|].
  destruct (rdbLoadIntegerObject_spec sharing v t n rest flags Hv Ht) as (l & El & Hl).
  exists l. split; [|done]. cbn [app]. unfold RDB_ENC_INT8, RDB_ENC_INT16, RDB_ENC_INT32, RDB_LENERR in *.
  rewrite rdbLoadLen_enc by lia. rewrite El.
  by destruct Ht as [[-> _]|[[-> _]|[-> _]]].
Qed.

Lemma stores_verbatim s : Z.of_nat (length s) < RDB_LENERR ->
  stores (len_bytes (Z.of_nat (length s)) ++ s) s.
Proof.
  intros Hl fresh sharing rest flags. unfold rdbGenericLoadStringObject, RDB_LENERR in *.
  rewrite <- app_assoc, rdbLoadLen_len by lia.
  destruct (Z.eqb_spec (Z.of_nat (length s)) (2 ^ 64 - 1)); [lia|]. cbn [negb]. rewrite andb_false_r.
  destruct (robjFlag flags); case_bool.
  - destruct s; [|done]. by eexists.
  - rewrite rioRead_app by done. cbn [mbind option_bind]. eexists. split; [done|].
    apply content_createStringObject.
  - destruct s; [|done]. eexists. split; [done|]. apply value_contain.
  - rewrite rioRead_app by done. cbn [mbind option_bind]. eexists. split; [done|]. apply value_contain.
Qed.

Lemma stores_lzf c s : Z.of_nat (length c) < RDB_LENERR -> Z.of_nat (length s) < RDB_LENERR ->
  (forall dst, length dst = length s ->
     lzf_decompress c dst = Ret (Some (s ++ drop (length s) dst, Z.of_nat (length s)))) ->
  stores (195 :: len_bytes (Z.of_nat (length c)) ++ len_bytes (Z.of_nat (length s)) ++ c) s.
Proof.
  intros Hc Hs Hd fresh sharing rest flags. unfold rdbGenericLoadStringObject, RDB_LENERR in *.
  cbn [app]. rewrite (rdbLoadLen_enc 3 _ : _ -> rdbLoadLen (195 :: _) = _) by lia. cbn [Z.eqb Z.sub orb].
  unfold RDB_ENC_INT8, RDB_ENC_INT16, RDB_ENC_INT32, RDB_ENC_LZF. simpl (3 =? _). cbn [orb].
  unfold rdbLoadLzfStringObject, RDB_LENERR. rewrite <- !app_assoc, rdbLoadLen_len by lia. case_bool; [lia|].
  rewrite rdbLoadLen_len by lia. case_bool; [lia|]. cbn [negb]. rewrite rioRead_app by done.
  rewrite Nat2Z.id, Hd by apply length_realloc. cbn [obind].
  rewrite drop_ge, app_nil_r by (by rewrite length_realloc). rewrite Z.eqb_refl. cbn [negb].
  destruct (robjFlag flags); eexists; (split; [done|]); [done|apply value_contain].
Qed.

(** The compressor's surroundings are sane: the string lies in the address
    space above its first pages, and table entries are 64-bit words. *)
Definition memory_ok (m : memory) (s : list Z) : Prop :=
  MAX_OFF <= m_base m /\ m_base m + Z.of_nat (length s) < 2 ^ 64 /\ forall i, 0 <= m_htab m i < 2 ^ 64.

Lemma write_blob limit rdb a b c d : 0 <= b < 2 ^ 64 -> 0 <= c < 2 ^ 64 ->
  ('(rdb, n1) ← rdbWriteRaw limit rdb a; '(rdb, n2) ← rdbSaveLen limit rdb b;
   '(rdb, n3) ← rdbSaveLen limit rdb c; '(rdb, n4) ← rdbWriteRaw limit rdb d;
   Some (rdb, n1 + n2 + n3 + n4))
  = rdbWriteRaw limit rdb (a ++ len_bytes b ++ len_bytes c ++ d).
Proof.
  intros Hb Hc. rewrite <- !write_write. destruct (rdbWriteRaw limit rdb a) as [[r1 n1]|]; [|done]. simpl.
  rewrite rdbSaveLen_spec, <- !write_write by done.
  destruct (rdbWriteRaw limit r1 (len_bytes b)) as [[r2 n2]|]; [|done]. simpl.
  rewrite rdbSaveLen_spec, <- !write_write by done.
  destruct (rdbWriteRaw limit r2 (len_bytes c)) as [[r3 n3]|]; [|done]. simpl.
  destruct (rdbWriteRaw limit r3 d) as [[r4 n4]|]; [|done]. simpl. do 2 f_equal. lia.
Qed.

Lemma rdbSaveLzf_spec m s : bytes s -> memory_ok m s ->
  (forall limit rdb, rdbSaveLzfStringObject limit m rdb s = Ret (Some None)) \/
  exists enc, stores enc s /\ (length enc <= length s + 15)%nat /\
    forall limit rdb, rdbSaveLzfStringObject limit m rdb s =
      Ret (match rdbWriteRaw limit rdb enc with None => None | Some x => Some (Some x) end).
Proof.
  intros Hb (Hbase & Hsp & Hh). unfold rdbSaveLzfStringObject. case_bool; [by left|].
  set (len := Z.of_nat (length s)) in *. unfold MAX_OFF in Hbase.
  assert (length (new_buffer m (len - 4)) = Z.to_nat (len - 4)) as Hnb by apply length_realloc.
  destruct (lzf_compress_spec s (m_base m) (m_htab m) (new_buffer m (len - 4)) Hb Hbase Hsp Hh)
    as [->|(out & n & ts & E & Hn & Hlo & _)]; [lia|by left|]. rewrite Hnb in *. right.
  assert (length (take (Z.to_nat n) out) = Z.to_nat n) as Hlc by (rewrite length_take; lia).
  exists (195 :: len_bytes n ++ len_bytes len ++ take (Z.to_nat n) out). split_and!.
  - pose proof (stores_lzf (take (Z.to_nat n) out) s) as Hst. unfold RDB_LENERR in Hst.
    rewrite Hlc, Z2Nat.id in Hst by lia. apply Hst; [lia|lia|]. intros dst Hd.
    eapply lzf_compress_decompress; try done; [lia|]. lia.
  - simpl. rewrite !length_app, Hlc. pose proof (length_len_bytes n). pose proof (length_len_bytes len). lia.
  - intros limit rdb. rewrite E. cbn [obind]. unfold rdbSaveLzfBlob. rewrite write_blob by lia. done.
Qed.

Lemma rdbSaveRawString_spec m comp s : bytes s -> memory_ok m s -> Z.of_nat (length s) < RDB_LENERR ->
  exists enc, stores enc s /\ (length enc <= length s + 15)%nat /\
    forall limit rdb, rdbSaveRawString limit m comp rdb s = Ret (rdbWriteRaw limit rdb enc).
Proof.
  intros Hb Hm Hl. unfold rdbSaveRawString. set (len := Z.of_nat (length s)) in *.
  set (ie := if len <=? 11 then rdbTryIntegerEncoding s else []).
  destruct (Nat.eqb_spec (length ie) 0) as [E0|E0]; cbn [negb].
  2: { assert (exists v, in_s 64 v /\ s = repr v /\ ie = rdbEncodeInteger v) as (v & Hv & -> & Ei).
       { unfold ie, rdbTryIntegerEncoding in *. destruct (len <=? 11); [|done].
         destruct (string2ll s) as [v|] eqn:Es; [|done]. apply string2ll_spec in Es as [Hv ->]. by exists v. }
       exists ie. split_and!.
       - rewrite Ei in *. apply stores_int. by intros E; rewrite E in E0.
       - rewrite Ei. destruct (rdbEncodeInteger_spec v) as [[-> _]|(t & n & -> & _ & Ht)]; simpl; [lia|].
         rewrite length_le_encode. lia.
       - intros limit rdb. by rewrite write_count. }
  assert (exists enc, stores enc s /\ (length enc <= length s + 15)%nat /\ forall limit rdb,
    ('(rdb, n) ← rdbSaveLen limit rdb len;
     if 0 <? len then '(rdb, _) ← rdbWriteRaw limit rdb s; Some (rdb, n + len) else Some (rdb, n))
    = rdbWriteRaw limit rdb enc) as Hplain.
  { exists (len_bytes len ++ s). split_and!; [by apply stores_verbatim| |].
    { rewrite length_app. pose proof (length_len_bytes len). lia. }
    intros limit rdb. rewrite rdbSaveLen_spec by (unfold RDB_LENERR in *; lia). case_bool.
    - rewrite <- write_write. destruct (rdbWriteRaw limit rdb (len_bytes len)) as [[r n]|]; [|done]. simpl.
      unfold rdbWriteRaw. by case_bool.
    - assert (s = []) as -> by (destruct s; [done|simpl in *; lia]). rewrite app_nil_r.
      unfold rdbWriteRaw. by case_bool. }
  destruct Hplain as (enc & Hst & Hle & Hw).
  destruct (comp && (20 <? len)); cbn [iobind obind].
  2: { exists enc. split_and!; [done|done|]. intros limit rdb. by rewrite Hw. }
  destruct (rdbSaveLzf_spec m s Hb Hm) as [Hz|(ez & Hsz & Hlz & Hwz)].
  - exists enc. split_and!; [done|done|]. intros limit rdb. unfold iobind. rewrite Hz. cbn [obind]. by rewrite Hw.
  - exists ez. split_and!; [done|done|]. intros limit rdb. unfold iobind. rewrite Hwz. cbn [obind].
    by destruct (rdbWriteRaw limit rdb ez).
Qed.

Lemma rdbSaveLongLong_spec v : in_s 64 v ->
  exists enc, stores enc (repr v) /\ (length enc <= length (repr v) + 15)%nat /\
    forall limit rdb, rdbSaveLongLongAsStringObject limit rdb v = Ret (rdbWriteRaw limit rdb enc).
Proof.
  intros Hv. unfold rdbSaveLongLongAsStringObject.
  destruct (Nat.eqb_spec (length (rdbEncodeInteger v)) 0) as [E0|E0]; cbn [negb].
  2: { exists (rdbEncodeInteger v). split_and!; [|destruct (rdbEncodeInteger_spec v) as [[-> _]|(t & n & -> & _ & Ht)];
         simpl; rewrite ?length_le_encode; lia|done].
       apply stores_int. by intros E; rewrite E in E0. }
  destruct (repr_length v Hv) as [Hl H20].
  pose proof (ll2string_spec (repeat 0 32) 32 v Hv eq_refl) as H.
  destruct (Z.ltb_spec (sdigits10 v) 32); [|lia]. rewrite H.
  destruct (Z.ltb_spec (sdigits10 v) 32); [|lia]. cbn [negb].
  assert (take (Z.to_nat (sdigits10 v)) (store (repeat 0 32) 0 (repr v ++ [0])) = repr v) as ->.
  { unfold store. change (take 0 (repeat 0 32)) with ([] : list Z). cbn [app].
    rewrite <- app_assoc. apply take_app_length'. lia. }
  exists (len_bytes (sdigits10 v) ++ repr v). rewrite <- Hl. split_and!.
  - apply stores_verbatim. unfold RDB_LENERR. lia.
  - rewrite length_app. pose proof (length_len_bytes (Z.of_nat (length (repr v)))). lia.
  - intros limit rdb. rewrite <- write_write, rdbSaveLen_spec by lia. done.
Qed.

(** ** Theorems *)

(** Lengths.  Every 64-bit length is written in 1, 2, 5 or 9 bytes and read
    back with nothing else consumed; a length cut short is refused; writing
    fails exactly when the bytes do not fit. *)
Theorem rdb_len_roundtrip (len : Z) : 0 <= len < 2 ^ 64 ->
  exists enc, length enc ∈ [1; 2; 5; 9]%nat /\
    (forall limit rdb, rdbSaveLen limit rdb len =
       if Z.of_nat (length rdb) + Z.of_nat (length enc) <=? limit
       then Some (rdb ++ enc, Z.of_nat (length enc)) else None) /\
    (forall rest, rdbLoadLenByRef (enc ++ rest) = Some (false, len, rest)) /\
    (forall k, (k < length enc)%nat -> rdbLoadLenByRef (take k enc) = None).
Proof.
  intros Hl. exists (len_bytes len). split_and!.
  - unfold len_bytes. repeat case_bool; simpl; rewrite ?length_be_encode;
      repeat (first [by left|right]).
  - intros limit rdb. by rewrite rdbSaveLen_spec.
  - intros rest. by apply rdbLoadLen_bytes.
  - intros k. by apply rdbLoadLen_short.
Qed.

(** C22: strings.  Whatever the form of a string object, the compression
    setting and the memory the compressor starts from, saving appends bytes from
    which loading, into any container, gives the same text and stops right
    after them; the save fails only for want of room. *)
Theorem rdb_string_roundtrip (m : memory) (rdb_compression : bool) (o : robj) :
  obj_ok o -> memory_ok m (content o) -> Z.of_nat (length (content o)) < RDB_LENERR ->
  exists enc, (length enc <= length (content o) + 15)%nat /\
    (forall limit rdb, rdbSaveStringObject limit m rdb_compression rdb o =
       Ret (if Z.of_nat (length rdb) + Z.of_nat (length enc) <=? limit
            then Some (rdb ++ enc, Z.of_nat (length enc)) else None)) /\
    (forall fresh sharing rest flags, exists l,
       rdbGenericLoadStringObject (fun _ => true) fresh sharing (enc ++ rest) flags = Ret (Some (l, rest)) /\
       value l = content o).
Proof.
  intros Hok Hm Hl. unfold rdbSaveStringObject, obj_ok, content in *. destruct (o_body o) as [s|s|v].
  1: destruct (rdbSaveRawString_spec m rdb_compression s Hok Hm Hl) as (enc & Hs & Hn & Hw).
  2: destruct (rdbSaveRawString_spec m rdb_compression s (proj1 Hok) Hm Hl) as (enc & Hs & Hn & Hw).
  3: destruct (rdbSaveLongLong_spec v Hok) as (enc & Hs & Hn & Hw).
  all: exists enc; split_and!; [done|intros limit rdb; by rewrite Hw|exact Hs].
Qed.

(** ** Witnesses *)

Module Witness.
Definition mem : memory := Memory 65536 (fun _ => 65537) (fun i => Z.of_nat i).
Definition text : robj := Eval vm_compute in createStringObject (chars "aaaaaaaaaaaaaaaaaaaaaaaaaaaaaaaaaaaaaaaa").
End Witness.

Lemma rdb_len_roundtrip_witness : rdbSaveLen 100 [7] 16384 = Some ([7; 128; 0; 0; 64; 0], 5) /\
  exists enc, length enc ∈ [1; 2; 5; 9]%nat /\
    forall rest, rdbLoadLenByRef (enc ++ rest) = Some (false, 16384, rest).
Proof.
  split; [vm_compute; reflexivity|].
  destruct (rdb_len_roundtrip 16384) as (enc & H1 & _ & H3 & _); [lia|]. exists enc. split; [exact H1|exact H3].
Defined.

(** Forty equal bytes are stored in twelve, compressed. *)
Lemma rdb_string_roundtrip_witness :
  rdbSaveStringObject 100 Witness.mem true [] Witness.text
    = Ret (Some ([195; 9; 40; 1; 97; 97; 224; 27; 0; 1; 97; 97], 12)) /\
  exists enc, (length enc <= 55)%nat /\ forall fresh sharing rest flags, exists l,
    rdbGenericLoadStringObject (fun _ => true) fresh sharing (enc ++ rest) flags = Ret (Some (l, rest)) /\
    value l = content Witness.text.
Proof.
  split; [vm_compute; reflexivity|].
  destruct (rdb_string_roundtrip Witness.mem true Witness.text) as (enc & H1 & _ & H3).
  - split; [repeat constructor; lia|vm_compute; discriminate].
  - split_and!; [vm_compute; discriminate|vm_compute; reflexivity|].
    intros i. vm_compute. split; [discriminate|reflexivity].
  - vm_compute. reflexivity.
  - exists enc. split; [exact H1|exact H3].
Defined.

End Rdb.
