(* ===== verification/Double.v ===== *)
(** * Double: comparison of IEEE doubles

    Scores are C doubles.  They are the binary floats of the Standard Library
    here, with mantissas normalised to 53 bits, whose comparisons are those of
    IEEE 754: a NaN compares false with everything, the two zeroes are equal.  Away from NaN the comparisons are those
    of a total order, by a key of three integers. *)
From S2P Require Import Prelude.
From Stdlib Require Import SpecFloat.

Module Double.

Definition double : Type := spec_float.

Definition isnan (a : double) : bool := match a with S754_nan => true | _ => false end.
(** [a < b], [a == b] and [a <= b] of C. *)
Definition dlt (a b : double) : bool := SFltb a b.
Definition deq (a b : double) : bool := SFeqb a b.
Definition dle (a b : double) : bool := SFleb a b.

(** [a + b], rounded to nearest: 53 bits of mantissa, exponents below 1024. *)
Definition dadd (a b : double) : double := SFadd 53 1024 a b.

(** The double of an integer, with the mantissa normalised as [dadd] leaves it. *)
Definition of_int (z : Z) : double := binary_normalize 53 1024 z 0 false.

#[export] Instance double_eq_dec : EqDecision double.
Proof. unfold EqDecision, Decision. decide equality; apply Bool.bool_dec || apply Z.eq_dec || apply Pos.eq_dec. Defined.

(** Class, exponent and mantissa, negated for negative numbers. *)
Definition dkey (a : double) : Z * Z * Z :=
  match a with
  | S754_zero _ | S754_nan => (0, 0, 0)
  | S754_infinity s => (if s then -2 else 2, 0, 0)
  | S754_finite s m e => if s then (-1, - e, - Zpos m) else (1, e, Zpos m)
  end.

Definition klt (a b : Z * Z * Z) : Prop :=
  let '(a1, a2, a3) := a in let '(b1, b2, b3) := b in
  a1 < b1 \/ a1 = b1 /\ (a2 < b2 \/ a2 = b2 /\ a3 < b3).

Lemma SFcompare_key a b : isnan a = false -> isnan b = false ->
  exists c, SFcompare a b = Some c /\
    match c with
    | Lt => klt (dkey a) (dkey b)
    | Eq => dkey a = dkey b
    | Gt => klt (dkey b) (dkey a)
    end.
Proof.
  intros Ha Hb. destruct a as [sa|sa| |sa ma ea], b as [sb|sb| |sb mb eb]; try done;
    try (destruct sa; destruct sb; simpl; eexists; (split; [reflexivity|]); simpl; (done || lia));
    try (destruct sa || destruct sb; simpl; eexists; (split; [reflexivity|]); simpl; (done || lia)).
  destruct sa, sb; simpl; try (eexists; split; [reflexivity|]; simpl; lia).
  all: destruct (Z.compare_spec ea eb); subst; simpl; try (eexists; split; [reflexivity|]; simpl; lia).
  all: change (Pos.compare_cont Eq ma mb) with (Pos.compare ma mb).
  all: destruct (Pos.compare_spec ma mb); subst; simpl; (eexists; split; [reflexivity|]); simpl; done || lia.
Qed.

Lemma dlt_key a b : isnan a = false -> isnan b = false -> dlt a b = true <-> klt (dkey a) (dkey b).
Proof.
  intros Ha Hb. unfold dlt, SFltb. destruct (SFcompare_key a b Ha Hb) as ([] & -> & H);
    destruct (dkey a) as [[a1 a2] a3], (dkey b) as [[b1 b2] b3]; simpl in *; simplify_eq;
    (split; [|]); intros; done || lia.
Qed.

Lemma deq_key a b : isnan a = false -> isnan b = false -> deq a b = true <-> dkey a = dkey b.
Proof.
  intros Ha Hb. unfold deq, SFeqb. destruct (SFcompare_key a b Ha Hb) as ([] & -> & H);
    destruct (dkey a) as [[a1 a2] a3], (dkey b) as [[b1 b2] b3]; simpl in *; simplify_eq;
    (split; [|]); intros; simplify_eq; done || lia.
Qed.

Lemma dle_key a b : isnan a = false -> isnan b = false ->
  dle a b = true <-> klt (dkey a) (dkey b) \/ dkey a = dkey b.
Proof.
  intros Ha Hb. unfold dle, SFleb. destruct (SFcompare_key a b Ha Hb) as ([] & -> & H);
    destruct (dkey a) as [[a1 a2] a3], (dkey b) as [[b1 b2] b3]; simpl in *; simplify_eq;
    (split; [|]); intros; simplify_eq; try done; try lia; try (by left); try (by right).
  destruct H0 as [?|E]; [lia|injection E as -> -> ->; lia].
Qed.

Lemma klt_irrefl a : ~ klt a a.
Proof. destruct a as [[? ?] ?]. simpl. lia. Qed.

Lemma klt_trans a b c : klt a b -> klt b c -> klt a c.
Proof. destruct a as [[? ?] ?], b as [[? ?] ?], c as [[? ?] ?]. simpl. lia. Qed.

Lemma klt_total a b : klt a b \/ a = b \/ klt b a.
Proof.
  destruct a as [[a1 a2] a3], b as [[b1 b2] b3]. simpl.
  destruct (Z.lt_trichotomy a1 b1) as [?|[->|?]]; [tauto| |tauto].
  destruct (Z.lt_trichotomy a2 b2) as [?|[->|?]]; [tauto| |tauto].
  destruct (Z.lt_trichotomy a3 b3) as [?|[->|?]]; tauto.
Qed.

End Double.
