(* ===== verification/Zskiplist.v ===== *)
(** * Zskiplist: the skip list of sorted sets (t_zset.c)

    Nodes live in a store, a map from addresses to nodes, and hold their forward
    pointers and spans, one pair per level, as the C structure does.  The header
    is a node of 32 levels without an element.  A missing node or level is
    [Abort].  The address [malloc] returns and the level the random generator
    gives are arguments.

    The representation relation says which sequence of towers the store holds:
    what a node's pair at a level must be is a function of the towers after it.
    Every search of the file is an instance of one walk. *)
From S2P Require Import Prelude StrObj Double.
Import Double.

Module Zskiplist.

Definition ZSKIPLIST_MAXLEVEL : nat := 32.

(** [level[i]]: forward pointer and span. *)
Abbreviation zlevel := (option Z * Z)%type.

Record node := Node {
  n_ele : option (list Z);   (* NULL in the header *)
  n_score : double;
  n_backward : option Z;
  n_level : list zlevel;
}.

Record zskiplist := Zsl {
  header : Z;
  tail : option Z;
  length_ : Z;
  level : nat;
  heap : gmap Z node;
}.

(** [sdscmp] *)
Definition sdscmp (a b : list Z) : Z :=
  let l1 := Z.of_nat (length a) in
  let l2 := Z.of_nat (length b) in
  let minlen := if l1 <? l2 then length a else length b in
  let cmp := StrObj.memcmp a b minlen in
  if cmp =? 0 then (if l2 <? l1 then 1 else if l1 <? l2 then -1 else 0) else cmp.

(** ** The store *)

Definition deref (h : gmap Z node) (p : Z) : outcome node :=
  match h !! p with Some n => Ret n | None => Abort end.
Definition lvl (n : node) (i : nat) : outcome zlevel :=
  match n_level n !! i with Some l => Ret l | None => Abort end.
Definition get_lvl (h : gmap Z node) (p : Z) (i : nat) : outcome zlevel :=
  let* n := deref h p in lvl n i.

Definition set_lvl (h : gmap Z node) (p : Z) (i : nat) (l : zlevel) : outcome (gmap Z node) :=
  let* n := deref h p in
  let* _ := lvl n i in
  Ret (<[p := Node (n_ele n) (n_score n) (n_backward n) (<[i := l]> (n_level n))]> h).

Definition set_backward (h : gmap Z node) (p : Z) (b : option Z) : outcome (gmap Z node) :=
  let* n := deref h p in
  Ret (<[p := Node (n_ele n) (n_score n) b (n_level n)]> h).

Definition set_score (h : gmap Z node) (p : Z) (s : double) : outcome (gmap Z node) :=
  let* n := deref h p in
  Ret (<[p := Node (n_ele n) s (n_backward n) (n_level n)]> h).

(** ** Creation *)

(** The levels of a new node are indeterminate; every caller fills them. *)
Definition zslCreateNode (h : gmap Z node) (p : Z) (level : nat) (score : double)
  (ele : option (list Z)) : gmap Z node :=
  <[p := Node ele score None (replicate level (None, 0))]> h.

Definition zslFreeNode (h : gmap Z node) (p : Z) : gmap Z node := delete p h.

Definition zslCreate (hdr : Z) : zskiplist :=
  Zsl hdr None 0 1 (zslCreateNode ∅ hdr ZSKIPLIST_MAXLEVEL (of_int 0) None).

(** [ZSKIPLIST_P * RAND_MAX] *)
Definition threshold : Z := (2 ^ 31 - 1) / 4.

(** [draws] are the results of [random()]; [None] when they run out before one
    reaches the threshold. *)
Fixpoint random_loop (draws : list Z) (level : nat) : option nat :=
  match draws with
  | [] => None
  | r :: draws => if r <? threshold then random_loop draws (S level) else Some level
  end.

Definition zslRandomLevel (draws : list Z) : option nat :=
  match random_loop draws 1 with
  | None => None
  | Some level => Some (if Nat.ltb level ZSKIPLIST_MAXLEVEL then level else ZSKIPLIST_MAXLEVEL)
  end.

(** ** Searching *)

(** The inner loop of every search: go forward at level [i] while the next node,
    and the rank it would bring, satisfy the condition. *)
Fixpoint walk (cond : Z -> node -> bool) (fuel : nat) (h : gmap Z node) (i : nat) (x rank : Z)
  : outcome (Z * Z) :=
  let* (forward, span) := get_lvl h x i in
  match forward with
  | None => Ret (x, rank)
  | Some f =>
      let* fn := deref h f in
      if cond (rank + span) fn then
        match fuel with
        | O => Abort
        | S fuel => walk cond fuel h i f (rank + span)
        end
      else Ret (x, rank)
  end.

(** The outer loop, from level [n - 1] down to 0: [update[i]] and [rank[i]]. *)
Fixpoint descend (cond : Z -> node -> bool) (fuel : nat) (h : gmap Z node) (n : nat) (x rank : Z)
  : outcome (list (Z * Z)) :=
  match n with
  | O => Ret []
  | S i =>
      let* (x, rank) := walk cond fuel h i x rank in
      let* rest := descend cond fuel h i x rank in
      Ret (rest ++ [(x, rank)])
  end.

(** At most one step per node and level. *)
Definition steps (zsl : zskiplist) : nat := S (Z.to_nat (length_ zsl)).

Definition ele_of (n : node) : list Z := match n_ele n with Some e => e | None => [] end.

(** [forward->score < score || (forward->score == score && sdscmp(forward->ele,ele) < 0)] *)
Definition before (score : double) (ele : list Z) (_ : Z) (n : node) : bool :=
  dlt (n_score n) score || (deq (n_score n) score && (sdscmp (ele_of n) ele <? 0)).

Definition seek (zsl : zskiplist) (cond : Z -> node -> bool) : outcome (list (Z * Z)) :=
  descend cond (steps zsl) (heap zsl) (level zsl) (header zsl) 0.

(** ** Insertion *)

(** [update[i]], [rank[i]] *)
Definition nth_up (ups : list (Z * Z)) (i : nat) : outcome (Z * Z) :=
  match ups !! i with Some u => Ret u | None => Abort end.

(** [for (i = zsl->level; i < level; i++)] *)
Fixpoint raise_loop (n : nat) (h : gmap Z node) (hdr len : Z) (i : nat) : outcome (gmap Z node) :=
  match n with
  | O => Ret h
  | S n =>
      let* (f, _) := get_lvl h hdr i in
      let* h := set_lvl h hdr i (f, len) in
      raise_loop n h hdr len (S i)
  end.

(** [for (i = 0; i < level; i++)] *)
Fixpoint link_loop (n : nat) (h : gmap Z node) (x rank0 : Z) (ups : list (Z * Z)) (i : nat)
  : outcome (gmap Z node) :=
  match n with
  | O => Ret h
  | S n =>
      let* (u, r) := nth_up ups i in
      let* (f, s) := get_lvl h u i in
      let* h := set_lvl h x i (f, s - (rank0 - r)) in
      let* h := set_lvl h u i (Some x, (rank0 - r) + 1) in
      link_loop n h x rank0 ups (S i)
  end.

(** [for (i = level; i < zsl->level; i++)] *)
Fixpoint widen_loop (n : nat) (h : gmap Z node) (ups : list (Z * Z)) (i : nat)
  : outcome (gmap Z node) :=
  match n with
  | O => Ret h
  | S n =>
      let* (u, _) := nth_up ups i in
      let* (f, s) := get_lvl h u i in
      let* h := set_lvl h u i (f, s + 1) in
      widen_loop n h ups (S i)
  end.

(** From the choice of the level on. *)
Definition insert_at (zsl : zskiplist) (score : double) (ele : list Z) (lv : nat) (x : Z)
  (ups : list (Z * Z)) : outcome (zskiplist * Z) :=
  let grow := (lv - level zsl)%nat in
  let* h := raise_loop grow (heap zsl) (header zsl) (length_ zsl) (level zsl) in
  let ups := ups ++ replicate grow (header zsl, 0) in
  let zlv := if Nat.ltb (level zsl) lv then lv else level zsl in
  let h := zslCreateNode h x lv score (Some ele) in
  let* (u0, rank0) := nth_up ups 0 in
  let* h := link_loop lv h x rank0 ups 0 in
  let* h := widen_loop (zlv - lv) h ups lv in
  let* h := set_backward h x (if u0 =? header zsl then None else Some u0) in
  let* (f, _) := get_lvl h x 0 in
  match f with
  | Some f =>
      let* h := set_backward h f (Some x) in
      Ret (Zsl (header zsl) (tail zsl) (length_ zsl + 1) zlv h, x)
  | None => Ret (Zsl (header zsl) (Some x) (length_ zsl + 1) zlv h, x)
  end.

(** [x] is the address of the new node, [lv] the random level. *)
Definition zslInsert (zsl : zskiplist) (score : double) (ele : list Z) (lv : nat) (x : Z)
  : outcome (zskiplist * Z) :=
  if isnan score then Abort
  else let* ups := seek zsl (before score ele) in insert_at zsl score ele lv x ups.

(** ** Deletion *)

Fixpoint unlink_loop (n : nat) (h : gmap Z node) (x : Z) (ups : list (Z * Z)) (i : nat)
  : outcome (gmap Z node) :=
  match n with
  | O => Ret h
  | S n =>
      let* (u, _) := nth_up ups i in
      let* (f, s) := get_lvl h u i in
      let* h :=
        if bool_decide (f = Some x) then
          let* (xf, xs) := get_lvl h x i in set_lvl h u i (xf, s + (xs - 1))
        else set_lvl h u i (f, s - 1) in
      unlink_loop n h x ups (S i)
  end.

(** [while (zsl->level > 1 && header->level[zsl->level-1].forward == NULL)]; the
    argument is [zsl->level - 1]. *)
Fixpoint lower_loop (h : gmap Z node) (hdr : Z) (m : nat) : outcome nat :=
  match m with
  | O => Ret 1%nat
  | S m' =>
      let* (f, _) := get_lvl h hdr m in
      match f with
      | None => lower_loop h hdr m'
      | Some _ => Ret (S m)
      end
  end.

Definition zslDeleteNode (zsl : zskiplist) (x : Z) (ups : list (Z * Z)) : outcome zskiplist :=
  let* h := unlink_loop (level zsl) (heap zsl) x ups 0 in
  let* xn := deref h x in
  let* (f, _) := lvl xn 0 in
  let* (h, tl) :=
    match f with
    | Some f => let* h := set_backward h f (n_backward xn) in Ret (h, tail zsl)
    | None => Ret (h, n_backward xn)
    end in
  let* lv := lower_loop h (header zsl) (level zsl - 1) in
  Ret (Zsl (header zsl) tl (length_ zsl - 1) lv h).

(** The node after the last one passed at level 0. *)
Definition next_of (zsl : zskiplist) (ups : list (Z * Z)) : outcome (option Z) :=
  let* (u0, _) := nth_up ups 0 in
  let* (f, _) := get_lvl (heap zsl) u0 0 in
  Ret f.

(** Whether an element was deleted.  The node is freed, as when the caller
    passes no [node]. *)
Definition zslDelete (zsl : zskiplist) (score : double) (ele : list Z) : outcome (zskiplist * bool) :=
  let* ups := seek zsl (before score ele) in
  let* x := next_of zsl ups in
  match x with
  | None => Ret (zsl, false)
  | Some x =>
      let* xn := deref (heap zsl) x in
      if deq score (n_score xn) && (sdscmp (ele_of xn) ele =? 0) then
        let* zsl := zslDeleteNode zsl x ups in
        Ret (Zsl (header zsl) (tail zsl) (length_ zsl) (level zsl) (zslFreeNode (heap zsl) x), true)
      else Ret (zsl, false)
  end.

(** The test that the node may stay where it is. *)
Definition stays (h : gmap Z node) (xn : node) (newscore : double) : outcome bool :=
  let* after :=
    match n_backward xn with
    | None => Ret true
    | Some b => let* bn := deref h b in Ret (dlt (n_score bn) newscore)
    end in
  if after : bool then
    let* (f, _) := lvl xn 0 in
    match f with
    | None => Ret true
    | Some f => let* fn := deref h f in Ret (dlt newscore (n_score fn))
    end
  else Ret false.

(** [lv] and [y] are for the new node, if one is needed. *)
Definition zslUpdateScore (zsl : zskiplist) (curscore : double) (ele : list Z) (newscore : double)
  (lv : nat) (y : Z) : outcome (zskiplist * Z) :=
  let* ups := seek zsl (before curscore ele) in
  let* x := next_of zsl ups in
  match x with
  | None => Abort
  | Some x =>
      let* xn := deref (heap zsl) x in
      if negb (deq curscore (n_score xn) && (sdscmp (ele_of xn) ele =? 0)) then Abort
      else
        let* stay := stays (heap zsl) xn newscore in
        if stay : bool then
          let* h := set_score (heap zsl) x newscore in
          Ret (Zsl (header zsl) (tail zsl) (length_ zsl) (level zsl) h, x)
        else
          let* zsl := zslDeleteNode zsl x ups in
          let* (zsl, newnode) := zslInsert zsl newscore (ele_of xn) lv y in
          Ret (Zsl (header zsl) (tail zsl) (length_ zsl) (level zsl) (zslFreeNode (heap zsl) x), newnode)
  end.

(** ** Ranks *)

Definition upto (score : double) (ele : list Z) (_ : Z) (n : node) : bool :=
  dlt (n_score n) score || (deq (n_score n) score && (sdscmp (ele_of n) ele <=? 0)).

Fixpoint rank_loop (fuel : nat) (h : gmap Z node) (score : double) (ele : list Z) (n : nat) (x rank : Z)
  : outcome Z :=
  match n with
  | O => Ret 0
  | S i =>
      let* (x, rank) := walk (upto score ele) fuel h i x rank in
      let* xn := deref h x in
      if match n_ele xn with
         | Some e => deq (n_score xn) score && (sdscmp e ele =? 0)
         | None => false
         end
      then Ret rank
      else rank_loop fuel h score ele i x rank
  end.

(** 1-based; 0 when the element is not there. *)
Definition zslGetRank (zsl : zskiplist) (score : double) (ele : list Z) : outcome Z :=
  rank_loop (steps zsl) (heap zsl) score ele (level zsl) (header zsl) 0.

Fixpoint by_rank_loop (fuel : nat) (h : gmap Z node) (rank : Z) (n : nat) (x traversed : Z)
  : outcome (option Z) :=
  match n with
  | O => Ret None
  | S i =>
      let* (x, traversed) := walk (fun t _ => t <=? rank) fuel h i x traversed in
      if traversed =? rank then Ret (Some x) else by_rank_loop fuel h rank i x traversed
  end.

(** [start_level] levels are searched, from the highest. *)
Definition zslGetElementByRankFromNode (zsl : zskiplist) (start_node : Z) (levels : nat) (rank : Z)
  : outcome (option Z) :=
  by_rank_loop (steps zsl) (heap zsl) rank levels start_node 0.

Definition zslGetElementByRank (zsl : zskiplist) (rank : Z) : outcome (option Z) :=
  zslGetElementByRankFromNode zsl (header zsl) (level zsl) rank.

(** ** What the store represents *)

(** A node: its address, number of levels, score and element. *)
Record tower := Tower { t_id : Z; t_height : nat; t_score : double; t_ele : option (list Z) }.

(** The pair a node must hold at level [i] when [R] comes after it: the first
    tower that high, or nothing; and how far it is, or how much is left. *)
Fixpoint link (i : nat) (R : list tower) : zlevel :=
  match R with
  | [] => (None, 0)
  | y :: R =>
      if Nat.ltb i (t_height y) then (Some (t_id y), 1)
      else let '(f, s) := link i R in (f, s + 1)
  end.

Definition low (i : nat) (y : tower) : Prop := (t_height y <= i)%nat.

Lemma link_low i S1 S2 : Forall (low i) S1 ->
  link i (S1 ++ S2) = (fst (link i S2), snd (link i S2) + Z.of_nat (length S1)).
Proof.
  induction 1 as [|y S1 Hy _ IH]; cbn [app link length].
  - destruct (link i S2). simpl. f_equal. lia.
  - destruct (Nat.ltb_spec i (t_height y)) as [Hlt|_]; [unfold low in Hy; lia|].
    rewrite IH. f_equal. lia.
Qed.

Lemma link_hit i S1 y S2 : Forall (low i) S1 -> (i < t_height y)%nat ->
  link i (S1 ++ y :: S2) = (Some (t_id y), Z.of_nat (length S1) + 1).
Proof.
  intros Hl Hy. rewrite link_low by done. cbn [link].
  destruct (Nat.ltb_spec i (t_height y)); [|lia]. simpl. f_equal. lia.
Qed.

Lemma link_none i R : Forall (low i) R -> link i R = (None, Z.of_nat (length R)).
Proof.
  intros Hl. rewrite <- (app_nil_r R) at 1. rewrite link_low by done. done.
Qed.

Lemma first_high i R : Forall (low i) R \/
  exists S1 y S2, R = S1 ++ y :: S2 /\ Forall (low i) S1 /\ (i < t_height y)%nat.
Proof.
  induction R as [|y R [IH|(S1 & z & S2 & -> & IH & Hz)]].
  - left. constructor.
  - destruct (decide (t_height y <= i)%nat); [left; by constructor|]. right.
    exists [], y, R. split; [done|]. split; [constructor|lia].
  - right. destruct (decide (t_height y <= i)%nat).
    + exists (y :: S1), z, S2. split; [done|]. split; [by constructor|done].
    + exists [], y, (S1 ++ z :: S2). split; [done|]. split; [constructor|lia].
Qed.

(** The last tower that high, in a sequence that starts with one. *)
Lemma link_app_high i S1 S2 S3 : ~ Forall (low i) S1 -> link i (S1 ++ S2) = link i (S1 ++ S3).
Proof.
  intros Hn. destruct (first_high i S1) as [?|(Sa & y & Sb & -> & Hl & Hy)]; [done|].
  rewrite <- !app_assoc. cbn [app]. by rewrite !link_hit.
Qed.

(** ** Splitting sequences *)

Lemma splits_app {T} (Q : list T -> T -> list T -> Prop) F1 F2 :
  (forall P y R, F1 ++ F2 = P ++ y :: R -> Q P y R) <->
  (forall P y R, F1 = P ++ y :: R -> Q P y (R ++ F2)) /\
  (forall P y R, F2 = P ++ y :: R -> Q (F1 ++ P) y R).
Proof.
  split.
  - intros H. split; intros P y R ->; apply H; by rewrite <- app_assoc.
  - intros [H1 H2] P y R E. apply app_eq_inv in E as [(k & -> & E)|(k & -> & ->)].
    + destruct k as [|z k]; simpl in E.
      * rewrite app_nil_r in *. specialize (H2 [] y R). rewrite app_nil_r in H2. by apply H2.
      * injection E as <- ->. by apply H1.
    + by apply H2.
Qed.

Lemma split_unique (F P P' : list tower) y y' R R' : NoDup (t_id <$> F) ->
  F = P ++ y :: R -> F = P' ++ y' :: R' -> t_id y = t_id y' -> P = P' /\ y = y' /\ R = R'.
Proof.
  intros Hnd -> E Hid. revert P' E Hnd.
  induction P as [|p P IH]; intros P' E Hnd; destruct P' as [|p' P']; simpl in E; injection E as -> E.
  - done.
  - exfalso. simpl in Hnd. apply NoDup_cons in Hnd as [Hn _]. apply Hn.
    rewrite E, fmap_app, elem_of_app. right. rewrite Hid. by left.
  - exfalso. simpl in Hnd. apply NoDup_cons in Hnd as [Hn _]. apply Hn.
    rewrite fmap_app, elem_of_app. right. rewrite <- Hid. by left.
  - simpl in Hnd. apply NoDup_cons in Hnd as [_ Hnd]. by destruct (IH P' E Hnd) as (-> & -> & ->).
Qed.

Lemma id_distinct (F P P' : list tower) y y' R R' : NoDup (t_id <$> F) ->
  F = P ++ y :: R -> F = P' ++ y' :: R' -> length P <> length P' -> t_id y <> t_id y'.
Proof. intros Hnd E E' Hl Eid. destruct (split_unique F P P' y y' R R' Hnd E E' Eid) as (-> & _). done. Qed.

(** The backward pointer of a node, from what comes before it: the header is not
    pointed to. *)
Definition bk (P : list tower) : option Z :=
  match P with [] | [_] => None | _ => t_id <$> last P end.

(** The node of a tower: [lk i] is its pair at each level below [lim]. *)
Definition holds (h : gmap Z node) (lim : nat) (y : tower) (b : option Z) (lk : nat -> zlevel) : Prop :=
  exists n, h !! t_id y = Some n /\ n_ele n = t_ele y /\ n_score n = t_score y /\
    n_backward n = b /\ length (n_level n) = t_height y /\
    forall i, (i < t_height y)%nat -> (i < lim)%nat -> n_level n !! i = Some (lk i).

Lemma holds_ext h h' lim y b lk lk' : holds h lim y b lk -> h' !! t_id y = h !! t_id y ->
  (forall i, (i < t_height y)%nat -> (i < lim)%nat -> lk i = lk' i) -> holds h' lim y b lk'.
Proof.
  intros (n & Hn & He & Hs & Hb & Hl & Hk) E Hx. exists n. rewrite E. split_and!; try done.
  intros i Hi Hi'. rewrite Hk by done. f_equal. by apply Hx.
Qed.

(** Levels above the tower do not matter. *)
Lemma holds_lim h lim lim' y b lk : holds h lim y b lk -> (t_height y <= lim)%nat -> holds h lim' y b lk.
Proof.
  intros (n & Hn & He & Hs & Hb & Hl & Hk) Hle. exists n. split_and!; try done.
  intros i Hi _. apply Hk; lia.
Qed.

Lemma holds_deref h lim y b lk : holds h lim y b lk ->
  exists n, deref h (t_id y) = Ret n /\ n_ele n = t_ele y /\ n_score n = t_score y /\ n_backward n = b.
Proof. intros (n & Hn & He & Hs & Hb & _). exists n. unfold deref. by rewrite Hn. Qed.

Lemma holds_get h lim y b lk i : holds h lim y b lk -> (i < t_height y)%nat -> (i < lim)%nat ->
  get_lvl h (t_id y) i = Ret (lk i).
Proof.
  intros (n & Hn & _ & _ & _ & _ & Hk) Hi Hl. unfold get_lvl, deref, lvl. rewrite Hn. cbn [obind].
  by rewrite Hk.
Qed.

Lemma holds_set h lim y b lk i l : holds h lim y b lk -> (i < t_height y)%nat -> (i < lim)%nat ->
  exists h', set_lvl h (t_id y) i l = Ret h' /\ (forall q, q <> t_id y -> h' !! q = h !! q) /\
    holds h' lim y b (fun j => if decide (j = i) then l else lk j).
Proof.
  intros (n & Hn & He & Hs & Hb & Hl & Hk) Hi Hlim. unfold set_lvl, deref, lvl. rewrite Hn. cbn [obind].
  rewrite Hk by done. cbn [obind]. eexists. split; [done|]. split.
  - intros q Hq. by rewrite lookup_insert_ne.
  - eexists. rewrite lookup_insert_eq. split; [done|]. simpl. rewrite length_insert. split_and!; try done.
    intros j Hj Hj'. case_decide.
    + subst. rewrite list_lookup_insert_eq; [done|lia].
    + rewrite list_lookup_insert_ne by done. by apply Hk.
Qed.

Lemma get_set_lvl h p k l h' q i : set_lvl h p k l = Ret h' -> i <> k -> get_lvl h' q i = get_lvl h q i.
Proof.
  unfold set_lvl, get_lvl, deref. destruct (h !! p) as [n|] eqn:En; [|done]. cbn [obind].
  destruct (lvl n k); [done|]. cbn [obind]. intros [= <-] Hi. destruct (decide (q = p)) as [->|].
  - rewrite lookup_insert_eq, En. unfold lvl. simpl. by rewrite list_lookup_insert_ne.
  - by rewrite lookup_insert_ne.
Qed.

Lemma get_set_backward h p b h' q i : set_backward h p b = Ret h' -> get_lvl h' q i = get_lvl h q i.
Proof.
  unfold set_backward, get_lvl, deref. destruct (h !! p) as [n|] eqn:En; [|done]. cbn [obind].
  intros [= <-]. destruct (decide (q = p)) as [->|].
  - by rewrite lookup_insert_eq, En.
  - by rewrite lookup_insert_ne.
Qed.

(** A store whose nodes hold what is to come after them. *)
Definition nodes_ok (h : gmap Z node) (lim : nat) (pre F suf : list tower) : Prop :=
  forall P y R, F = P ++ y :: R -> holds h lim y (bk (pre ++ P)) (fun i => link i (R ++ suf)).

Lemma nodes_ok_app h lim pre F1 F2 suf :
  nodes_ok h lim pre (F1 ++ F2) suf <->
  nodes_ok h lim pre F1 (F2 ++ suf) /\ nodes_ok h lim (pre ++ F1) F2 suf.
Proof.
  unfold nodes_ok.
  rewrite (splits_app (fun P y R => holds h lim y (bk (pre ++ P)) (fun i => link i (R ++ suf)))).
  split; intros [H1 H2]; split; intros P y R E.
  - rewrite app_assoc. by apply H1.
  - rewrite <- app_assoc. by apply H2.
  - rewrite <- app_assoc. by apply H1.
  - rewrite app_assoc. by apply H2.
Qed.

Lemma nodes_ok_frame h h' lim pre F suf : nodes_ok h lim pre F suf ->
  (forall y, y ∈ F -> h' !! t_id y = h !! t_id y) -> nodes_ok h' lim pre F suf.
Proof.
  intros H Hf P y R E. eapply holds_ext; [by apply H| |done]. apply Hf. rewrite E.
  apply elem_of_app. right. by left.
Qed.

(** ** Walking *)

(** A condition that looks at scores and elements only. *)
Definition reads (cond : Z -> node -> bool) (condT : Z -> tower -> bool) : Prop :=
  forall k n y, n_ele n = t_ele y -> n_score n = t_score y -> cond k n = condT k y.

(** The condition holds for the towers of [A], at their ranks, and for none of [B]. *)
Definition cut (condT : Z -> tower -> bool) (r0 : Z) (A B : list tower) : Prop :=
  (forall P y R, A = P ++ y :: R -> condT (r0 + Z.of_nat (length P) + 1) y = true) /\
  (forall P y R, B = P ++ y :: R -> condT (r0 + Z.of_nat (length A) + Z.of_nat (length P) + 1) y = false).

Lemma cut_shift condT r0 R1 y R2 B : cut condT r0 (R1 ++ y :: R2) B ->
  cut condT (r0 + Z.of_nat (length R1) + 1) R2 B.
Proof.
  intros [H1 H2]. split; intros P z R E.
  - replace (r0 + Z.of_nat (length R1) + 1 + Z.of_nat (length P) + 1)
      with (r0 + Z.of_nat (length (R1 ++ y :: P)) + 1) by (rewrite length_app; simpl; lia).
    apply (H1 _ _ R). rewrite E. by rewrite <- app_assoc.
  - replace (r0 + Z.of_nat (length R1) + 1 + Z.of_nat (length R2) + Z.of_nat (length P) + 1)
      with (r0 + Z.of_nat (length (R1 ++ y :: R2)) + Z.of_nat (length P) + 1)
      by (rewrite length_app; simpl; lia).
    by apply (H2 _ _ R).
Qed.

Lemma nodes_ok_at h lim pre F suf P y R : nodes_ok h lim pre F suf -> F = P ++ y :: R ->
  holds h lim y (bk (pre ++ P)) (fun i => link i (R ++ suf)).
Proof. intros H E. by apply H. Qed.

Lemma walk_spec cond condT h lim i B : reads cond condT -> (i < lim)%nat ->
  forall fuel pre R x r0, nodes_ok h lim pre (x :: R ++ B) [] -> (i < t_height x)%nat ->
  cut condT r0 R B -> (length R <= fuel)%nat ->
  exists P x' R', x :: R = P ++ x' :: R' /\ (i < t_height x')%nat /\ Forall (low i) R' /\
    walk cond fuel h i (t_id x) r0 = Ret (t_id x', r0 + Z.of_nat (length P)).
Proof.
  intros Hreads Hlim. induction fuel as [|fuel IH]; intros pre R x r0 Hok Hx Hcut Hfuel;
    pose proof (holds_get _ _ _ _ _ i (nodes_ok_at _ _ _ _ _ [] x (R ++ B) Hok eq_refl) Hx Hlim) as Hg;
    cbn [walk]; rewrite Hg, app_nil_r; cbn [obind].
  all: destruct (first_high i R) as [Hlow|(R1 & y & R2 & -> & Hlow & Hy)];
    [|try (rewrite length_app in Hfuel; simpl in Hfuel; lia)].
  1,2: exists [], x, R; split_and!; [done|done|done|]; rewrite link_low by done; simpl; rewrite Z.add_0_r;
    destruct (first_high i B) as [HlB|(B1 & z & B2 & -> & HlB & Hz)]; [by rewrite link_none|];
    rewrite link_hit by done; simpl;
    destruct (holds_deref _ _ _ _ _ (nodes_ok_at _ _ _ _ _ (x :: R ++ B1) z B2 Hok
      ltac:(simpl; by rewrite <- app_assoc))) as (n & -> & He & Hs & _); cbn [obind];
    rewrite (Hreads _ _ z) by done; destruct Hcut as [_ H2];
    (replace (r0 + (Z.of_nat (length B1) + 1 + Z.of_nat (length R)))
      with (r0 + Z.of_nat (length R) + Z.of_nat (length B1) + 1) by lia); by rewrite (H2 _ _ B2).
  rewrite <- app_assoc. cbn [app]. rewrite link_hit by done.
  destruct (holds_deref _ _ _ _ _ (nodes_ok_at _ _ _ _ _ (x :: R1) y (R2 ++ B) Hok
    ltac:(simpl; by rewrite <- app_assoc))) as (n & -> & He & Hs & _). cbn [obind].
  rewrite (Hreads _ _ y) by done.
  replace (r0 + (Z.of_nat (length R1) + 1)) with (r0 + Z.of_nat (length R1) + 1) by lia.
  rewrite (proj1 Hcut R1 y R2 eq_refl).
  destruct (IH (pre ++ x :: R1) R2 y (r0 + Z.of_nat (length R1) + 1)) as (P & x' & R' & E & Hx' & Hl' & ->).
  - change (x :: (R1 ++ y :: R2) ++ B) with ((x :: R1 ++ y :: R2) ++ B) in Hok.
    replace ((x :: R1 ++ y :: R2) ++ B) with ((x :: R1) ++ y :: R2 ++ B) in Hok
      by (simpl; by rewrite <- app_assoc).
    by apply nodes_ok_app in Hok as [_ ?].
  - done.
  - by eapply cut_shift.
  - rewrite length_app in Hfuel. simpl in Hfuel. lia.
  - exists (x :: R1 ++ P), x', R'. split_and!; [|done|done|].
    + simpl. rewrite E. by rewrite <- app_assoc.
    + do 2 f_equal. simpl. rewrite length_app. lia.
Qed.

(** [update] and [rank]: at every level the last tower of the sequence that is
    high enough. *)
Definition ups_ok (F : list tower) (r0 : Z) (n : nat) (ups : list (Z * Z)) : Prop :=
  forall i, (i < n)%nat -> exists P y R, F = P ++ y :: R /\ (i < t_height y)%nat /\
    Forall (low i) R /\ ups !! i = Some (t_id y, r0 + Z.of_nat (length P)).

Lemma descend_spec cond condT h lim B : reads cond condT ->
  forall n fuel pre R x r0, nodes_ok h lim pre (x :: R ++ B) [] -> (n <= t_height x)%nat -> (n <= lim)%nat ->
  cut condT r0 R B -> (length R <= fuel)%nat ->
  exists ups, descend cond fuel h n (t_id x) r0 = Ret ups /\ length ups = n /\ ups_ok (x :: R) r0 n ups.
Proof.
  intros Hreads. induction n as [|i IH]; intros fuel pre R x r0 Hok Hx Hlim Hcut Hfuel; cbn [descend].
  { exists []. split; [done|]. split; [done|]. intros i Hi. lia. }
  destruct (walk_spec cond condT h lim i B Hreads ltac:(lia) fuel pre R x r0 Hok ltac:(lia) Hcut Hfuel)
    as (P & x' & R' & E & Hx' & Hl' & ->). cbn [obind].
  assert (nodes_ok h lim (pre ++ P) (x' :: R' ++ B) []) as Hok'.
  { change (x :: R ++ B) with ((x :: R) ++ B) in Hok. rewrite E, <- app_assoc in Hok.
    by apply nodes_ok_app in Hok as [_ ?]. }
  assert (cut condT (r0 + Z.of_nat (length P)) R' B /\ (length R' <= fuel)%nat) as [Hcut' Hf'].
  { destruct P as [|p P]; simpl in E; injection E as -> ->; [by rewrite Z.add_0_r|].
    apply cut_shift in Hcut. rewrite length_app in Hfuel. simpl in *. split; [|lia].
    by replace (r0 + Z.of_nat (S (length P))) with (r0 + Z.of_nat (length P) + 1) by lia. }
  destruct (IH fuel (pre ++ P) R' x' (r0 + Z.of_nat (length P)) Hok' ltac:(lia) ltac:(lia) Hcut' Hf')
    as (ups & -> & Hlen & Hups). cbn [obind]. eexists. split; [done|]. split.
  - rewrite length_app, Hlen. simpl. lia.
  - intros j Hj. destruct (decide (j = i)) as [->|Hne].
    + exists P, x', R'. split_and!; try done. rewrite lookup_app_r by lia. by rewrite Hlen, Nat.sub_diag.
    + destruct (Hups j ltac:(lia)) as (P2 & y & R2 & E2 & Hy & Hl2 & Hu). exists (P ++ P2), y, R2.
      split_and!; [rewrite E, <- app_assoc; by f_equal|done|done|].
      rewrite lookup_app_l by lia. rewrite Hu. do 2 f_equal. rewrite length_app. lia.
Qed.

(** ** Changing one level after the other *)

(** Levels below [k] hold the new pairs, the others still the old ones. *)
Definition staged (h : gmap Z node) (lim k : nat) (F : list tower)
  (old new : nat -> list tower -> zlevel) : Prop :=
  forall P y R, F = P ++ y :: R ->
    holds h lim y (bk P) (fun i => if decide (i < k)%nat then new i R else old i R).

Lemma staged_frame h h' lim k F old new : staged h lim k F old new ->
  (forall y, y ∈ F -> h' !! t_id y = h !! t_id y) -> staged h' lim k F old new.
Proof.
  intros H Hf P y R E. eapply holds_ext; [by apply H| |done]. apply Hf. rewrite E.
  apply elem_of_app. right. by left.
Qed.

(** The pair of a level changes in the last tower that high, and in no other. *)
Lemma staged_step h lim k F old new P u R : staged h lim k F old new -> NoDup (t_id <$> F) ->
  (forall i R', ~ Forall (low i) R' -> old i R' = new i R') ->
  F = P ++ u :: R -> (k < t_height u)%nat -> (k < lim)%nat -> Forall (low k) R ->
  get_lvl h (t_id u) k = Ret (old k R) /\
  exists h', set_lvl h (t_id u) k (new k R) = Ret h' /\ staged h' lim (S k) F old new /\
    forall q, q <> t_id u -> h' !! q = h !! q.
Proof.
  intros Hst Hnd Hsame E Hu Hlim Hlow.
  pose proof (Hst P u R E) as Hh. split.
  { rewrite (holds_get _ _ _ _ _ k Hh Hu Hlim). by rewrite decide_False by lia. }
  destruct (holds_set _ _ _ _ _ k (new k R) Hh Hu Hlim) as (h' & Es & Hfr & Hh').
  exists h'. split; [done|]. split; [|done]. intros P' y R' E'.
  destruct (decide (t_id y = t_id u)) as [Eid|Nid].
  - destruct (split_unique F P' P y u R' R Hnd E' E Eid) as (-> & -> & ->).
    eapply holds_ext; [exact Hh'|done|]. intros i Hi Hi'. simpl.
    repeat case_decide; subst; done || lia.
  - eapply holds_ext; [by apply (Hst P' y R')|by apply Hfr|]. intros i Hi Hi'. simpl.
    destruct (decide (i = k)) as [->|]; [|repeat case_decide; done || lia].
    rewrite decide_False, decide_True by lia. apply Hsame. intros Hl'.
    assert (y :: R' = u :: R \/ u ∈ R' \/ y ∈ R) as Hcase.
    { rewrite E in E'. apply app_eq_inv in E' as [(k' & -> & E')|(k' & -> & E')].
      - destruct k' as [|z k']; simpl in E'; [by left|]. injection E' as -> ->. right. left.
        apply elem_of_app. right. by left.
      - destruct k' as [|z k']; simpl in E'; [by left|]. injection E' as -> ->. right. right.
        apply elem_of_app. right. by left. }
    destruct Hcase as [Ec|[Hin|Hin]].
    + by injection Ec as -> ->.
    + rewrite Forall_forall in Hl'. specialize (Hl' u Hin). unfold low in Hl'. lia.
    + rewrite Forall_forall in Hlow. specialize (Hlow y Hin). unfold low in Hlow. lia.
Qed.

Lemma holds_back h lim y b lk b' : holds h lim y b lk ->
  exists h', set_backward h (t_id y) b' = Ret h' /\ (forall q, q <> t_id y -> h' !! q = h !! q) /\
    holds h' lim y b' lk.
Proof.
  intros (n & Hn & He & Hs & Hb & Hl & Hk). unfold set_backward, deref. rewrite Hn. cbn [obind].
  eexists. split; [done|]. split; [intros q Hq; by rewrite lookup_insert_ne|].
  eexists. rewrite lookup_insert_eq. split; [done|]. by simpl.
Qed.

(** Where the pair of a level is to change. *)
Lemma ups_at F r0 n ups i : ups_ok F r0 n ups -> (i < n)%nat ->
  exists P y R, F = P ++ y :: R /\ (i < t_height y)%nat /\ Forall (low i) R /\
    nth_up ups i = Ret (t_id y, r0 + Z.of_nat (length P)).
Proof.
  intros H Hi. destruct (H i Hi) as (P & y & R & E & Hy & Hl & Hu). exists P, y, R.
  unfold nth_up. by rewrite Hu.
Qed.

(** ** Linking a tower in *)

Section Link.
Context (hd : tower) (A B : list tower) (xt : tower) (lim : nat) (ups : list (Z * Z)).
Context (Hups : ups_ok (hd :: A) 0 lim ups) (Hnd : NoDup (t_id <$> hd :: A)).
Context (Hx : t_id xt ∉ t_id <$> hd :: A).

Definition old_link (i : nat) (R : list tower) : zlevel := link i (R ++ B).
Definition new_link (i : nat) (R : list tower) : zlevel := link i (R ++ xt :: B).

Lemma old_new i R : ~ Forall (low i) R -> old_link i R = new_link i R.
Proof using. apply link_app_high. Qed.

Lemma id_ne P y R : hd :: A = P ++ y :: R -> t_id y <> t_id xt.
Proof using Hx. intros E Eid. apply Hx. rewrite E, fmap_app, elem_of_app. right. rewrite <- Eid. by left. Qed.

Lemma link_loop_spec b : (t_height xt <= lim)%nat ->
  forall n k h, (k + n = t_height xt)%nat -> staged h lim k (hd :: A) old_link new_link ->
  holds h k xt b (fun i => link i B) ->
  exists h', link_loop n h (t_id xt) (Z.of_nat (length A)) ups k = Ret h' /\
    staged h' lim (t_height xt) (hd :: A) old_link new_link /\
    holds h' (t_height xt) xt b (fun i => link i B) /\
    (forall q, q ∉ t_id <$> hd :: A -> q <> t_id xt -> h' !! q = h !! q) /\
    forall q i, (lim <= i)%nat -> get_lvl h' q i = get_lvl h q i.
Proof using Hups Hnd Hx.
  intros Hlim. induction n as [|n IH]; intros k h Hk Hst Hxt; cbn [link_loop].
  { exists h. assert (k = t_height xt) as -> by lia. done. }
  destruct (ups_at _ _ _ _ k Hups ltac:(lia)) as (P & u & R & E & Hu & Hlow & ->). cbn [obind].
  assert (length A = length P + length R)%nat as HlA.
  { apply (f_equal length) in E. rewrite length_app in E. simpl in E. lia. }
  pose proof (id_ne _ _ _ E) as Hne.
  destruct (staged_step h lim k _ _ _ P u R Hst Hnd old_new E Hu ltac:(lia) Hlow) as [Hg _]. rewrite Hg.
  unfold old_link. rewrite link_low by done. cbn [obind].
  replace (snd (link k B) + Z.of_nat (length R) - (Z.of_nat (length A) - (0 + Z.of_nat (length P))))
    with (snd (link k B)) by lia. rewrite <- surjective_pairing.
  assert (exists h1, set_lvl h (t_id xt) k (link k B) = Ret h1 /\ (forall q, q <> t_id xt -> h1 !! q = h !! q) /\
    holds h1 (S k) xt b (fun i => link i B)) as (h1 & Es1 & Hfr1 & Hx1).
  { destruct Hxt as (n0 & Hn0 & He & Hs & Hb & Hl & Hkk). unfold set_lvl, deref, lvl. rewrite Hn0. cbn [obind].
    destruct (lookup_lt_is_Some_2 (n_level n0) k ltac:(lia)) as [l ->]. cbn [obind].
    eexists. split; [done|]. split; [intros q Hq; by rewrite lookup_insert_ne|].
    eexists. rewrite lookup_insert_eq. split; [done|]. simpl. rewrite length_insert. split_and!; try done.
    intros i Hi Hi'. destruct (decide (i = k)) as [->|].
    - rewrite list_lookup_insert_eq; [done|lia].
    - rewrite list_lookup_insert_ne by done. apply Hkk; lia. }
  rewrite Es1. cbn [obind].
  assert (staged h1 lim k (hd :: A) old_link new_link) as Hst1.
  { eapply staged_frame; [exact Hst|]. intros y Hy. apply Hfr1. intros Eid. apply Hx. rewrite <- Eid.
    by apply list_elem_of_fmap_2. }
  destruct (staged_step h1 lim k _ _ _ P u R Hst1 Hnd old_new E Hu ltac:(lia) Hlow)
    as (_ & h2 & Es & Hst2 & Hfr2).
  replace (Some (t_id xt), Z.of_nat (length A) - (0 + Z.of_nat (length P)) + 1) with (new_link k R).
  2: { unfold new_link. rewrite link_hit by (done || lia). f_equal. lia. }
  rewrite Es. cbn [obind].
  destruct (IH (S k) h2) as (h3 & -> & Hst3 & Hx3 & Hfr3 & Hab3); [lia|done| |].
  { eapply holds_ext; [exact Hx1|apply Hfr2; congruence|done]. }
  exists h3. split_and!; [done|done|done| |].
  - intros q Hq Hq'. rewrite Hfr3, Hfr2, Hfr1; try done.
    intros ->. apply Hq. rewrite E, fmap_app, elem_of_app. right. by left.
  - intros q i Hi. rewrite Hab3 by done.
    rewrite (get_set_lvl _ _ _ _ _ q i Es) by lia. apply (get_set_lvl _ _ _ _ _ q i Es1). lia.
Qed.

Lemma widen_loop_spec b : (t_height xt <= lim)%nat ->
  forall n k h, (k + n = lim)%nat -> (t_height xt <= k)%nat -> staged h lim k (hd :: A) old_link new_link ->
  holds h (t_height xt) xt b (fun i => link i B) ->
  exists h', widen_loop n h ups k = Ret h' /\
    staged h' lim lim (hd :: A) old_link new_link /\
    holds h' (t_height xt) xt b (fun i => link i B) /\
    (forall q, q ∉ t_id <$> hd :: A -> h' !! q = h !! q) /\
    forall q i, (lim <= i)%nat -> get_lvl h' q i = get_lvl h q i.
Proof using Hups Hnd Hx.
  intros Hlim. induction n as [|n IH]; intros k h Hk Hxk Hst Hxt; cbn [widen_loop].
  { exists h. assert (k = lim) as -> by lia. done. }
  destruct (ups_at _ _ _ _ k Hups ltac:(lia)) as (P & u & R & E & Hu & Hlow & ->). cbn [obind].
  pose proof (id_ne _ _ _ E) as Hne.
  destruct (staged_step h lim k _ _ _ P u R Hst Hnd old_new E Hu ltac:(lia) Hlow)
    as (-> & h2 & Es & Hst2 & Hfr2).
  unfold old_link. rewrite link_low by done. cbn [obind].
  replace (fst (link k B), snd (link k B) + Z.of_nat (length R) + 1) with (new_link k R).
  2: { unfold new_link. rewrite link_low by done. cbn [link].
       destruct (Nat.ltb_spec k (t_height xt)); [lia|]. destruct (link k B). simpl. f_equal. lia. }
  rewrite Es. cbn [obind].
  destruct (IH (S k) h2) as (h3 & -> & Hst3 & Hx3 & Hfr3 & Hab3); [lia|lia|done| |].
  { eapply holds_ext; [exact Hxt|apply Hfr2; congruence|done]. }
  exists h3. split_and!; [done|done|done| |].
  - intros q Hq. rewrite Hfr3, Hfr2; try done.
    intros ->. apply Hq. rewrite E, fmap_app, elem_of_app. right. by left.
  - intros q i Hi. rewrite Hab3 by done. apply (get_set_lvl _ _ _ _ _ q i Es). lia.
Qed.

End Link.

(** ** The structure as a whole *)

Definition hd (zsl : zskiplist) : tower := Tower (header zsl) ZSKIPLIST_MAXLEVEL (of_int 0) None.

(** The towers [L] in order: every node holds what comes after it, the levels
    above the current one are empty, and the counters agree. *)
Record shape (zsl : zskiplist) (L : list tower) : Prop := {
  sh_nodes : nodes_ok (heap zsl) (level zsl) [] (hd zsl :: L) [];
  sh_ids : NoDup (t_id <$> hd zsl :: L);
  sh_heights : Forall (fun y => (1 <= t_height y <= level zsl)%nat) L;
  sh_level : (1 <= level zsl <= ZSKIPLIST_MAXLEVEL)%nat;
  sh_top : level zsl = 1%nat \/ Exists (fun y => t_height y = level zsl) L;
  sh_null : forall i, (level zsl <= i < ZSKIPLIST_MAXLEVEL)%nat ->
    exists s, get_lvl (heap zsl) (header zsl) i = Ret (None, s);
  sh_len : length_ zsl = Z.of_nat (length L);
  sh_tail : tail zsl = t_id <$> last L;
  sh_eles : Forall (fun y => is_Some (t_ele y)) L;
}.

Lemma shape_create hdr : shape (zslCreate hdr) [].
Proof.
  split; try done.
  - intros P y R E. destruct P as [|p P]; [|by destruct P]. injection E as <- <-.
    eexists. unfold zslCreate, zslCreateNode. simpl. rewrite lookup_insert_eq. split; [done|].
    split_and!; try done. simpl. intros i _ Hi. by assert (i = 0%nat) as -> by lia.
  - apply NoDup_singleton.
  - simpl. unfold ZSKIPLIST_MAXLEVEL. lia.
  - by left.
  - intros i Hi. exists 0. unfold get_lvl, deref, lvl, zslCreate, zslCreateNode. cbn [heap header].
    rewrite lookup_insert_eq. cbn [obind n_level]. by rewrite lookup_replicate_2 by apply Hi.
Qed.

(** The header's empty levels get a span before they are used. *)
Lemma raise_loop_spec hdr len : forall n h i m, h !! hdr = Some m -> (i + n <= length (n_level m))%nat ->
  exists h' m', raise_loop n h hdr len i = Ret h' /\ h' !! hdr = Some m' /\
    (forall q, q <> hdr -> h' !! q = h !! q) /\
    n_ele m' = n_ele m /\ n_score m' = n_score m /\ n_backward m' = n_backward m /\
    length (n_level m') = length (n_level m) /\
    forall j, n_level m' !! j =
      if decide (i <= j < i + n)%nat then (fun l => (fst l, len)) <$> n_level m !! j else n_level m !! j.
Proof.
  induction n as [|n IH]; intros h i m Hm Hi; cbn [raise_loop].
  { exists h, m. split_and!; try done. intros j. by rewrite decide_False by lia. }
  destruct (lookup_lt_is_Some_2 (n_level m) i ltac:(lia)) as [[f s] Hl].
  unfold get_lvl, set_lvl, deref, lvl. rewrite Hm. cbn [obind]. rewrite Hl. cbn [obind].
  set (m1 := Node _ _ _ _).
  destruct (IH (<[hdr := m1]> h) (S i) m1) as (h' & m' & -> & Hm' & Hfr & He & Hs & Hb & Hlen & Hj).
  { apply lookup_insert_eq. } { simpl. rewrite length_insert. lia. }
  exists h', m'. split_and!; try done.
  - intros q Hq. rewrite Hfr by done. by rewrite lookup_insert_ne.
  - rewrite Hlen. simpl. apply length_insert.
  - intros j. rewrite Hj. unfold m1. cbn [n_level]. destruct (decide (j = i)) as [->|Hne].
    + rewrite list_lookup_insert_eq, Hl by lia. repeat case_decide; done || lia.
    + rewrite list_lookup_insert_ne by done. repeat case_decide; done || lia.
Qed.

(** [zlv]: the level of the list after a tower of [lv] levels came in. *)
Definition new_level (lv zlv : nat) : nat := if Nat.ltb zlv lv then lv else zlv.

Lemma raise_shape zsl L lv : shape zsl L -> (lv <= ZSKIPLIST_MAXLEVEL)%nat ->
  exists h, raise_loop (lv - level zsl) (heap zsl) (header zsl) (length_ zsl) (level zsl) = Ret h /\
    nodes_ok h (new_level lv (level zsl)) [] (hd zsl :: L) [] /\
    (forall q, q <> header zsl -> h !! q = heap zsl !! q) /\
    forall i, (new_level lv (level zsl) <= i < ZSKIPLIST_MAXLEVEL)%nat ->
      exists s, get_lvl h (header zsl) i = Ret (None, s).
Proof.
  unfold ZSKIPLIST_MAXLEVEL. intros [Hn Hids Hh Hlv Htop Hnull Hlen Htail Heles] Hmax.
  unfold ZSKIPLIST_MAXLEVEL in *.
  destruct (Hn [] (hd zsl) L eq_refl) as (m & Hm & He & Hs & Hb & Hl & Hk). simpl in Hm, He, Hs, Hb.
  change (t_height (hd zsl)) with 32%nat in Hl, Hk.
  destruct (raise_loop_spec (header zsl) (length_ zsl) (lv - level zsl) (heap zsl) (level zsl) m Hm ltac:(lia))
    as (h & m' & -> & Hm' & Hfr & He' & Hs' & Hb' & Hl' & Hj). exists h. split; [done|].
  assert (forall j, (level zsl <= j < 32)%nat -> exists s, n_level m !! j = Some (None, s)) as Hnone.
  { intros j Hjj. destruct (Hnull j Hjj) as [s Hg]. exists s. unfold get_lvl, deref, lvl in Hg.
    rewrite Hm in Hg. cbn [obind] in Hg. destruct (n_level m !! j); [by injection Hg as ->|done]. }
  assert (new_level lv (level zsl) = Nat.max lv (level zsl)) as Enl by (unfold new_level; case_match eqn:E; [apply Nat.ltb_lt in E|apply Nat.ltb_ge in E]; lia).
  rewrite Enl. split_and!; [|done|].
  - intros P y R E. destruct P as [|p P]; simpl in E; injection E as <- E.
    + exists m'. rewrite He', Hs', Hb', Hl'. split_and!; [done|done|done|done|done|]. intros i Hi Hi'. rewrite Hj. subst R. change (t_height (hd zsl)) with 32%nat in Hi.
      case_decide as Hd.
      * destruct (Hnone i ltac:(lia)) as [s ->]. simpl. rewrite app_nil_r, link_none, Hlen; [done|].
        eapply Forall_impl; [exact Hh|]. unfold low. simpl. lia.
      * apply Hk; [done|]. lia.
    + subst L. eapply holds_lim; [eapply holds_ext; [apply (Hn (hd zsl :: P) y R eq_refl)| |done]|].
      * apply Hfr. by apply (id_distinct _ (hd zsl :: P) [] y (hd zsl) R (P ++ y :: R) Hids).
      * rewrite Forall_app, Forall_cons in Hh. lia.
  - intros i Hi. unfold get_lvl, deref, lvl. rewrite Hm'. cbn [obind]. rewrite Hj, decide_False by lia.
    destruct (Hnone i ltac:(lia)) as [s ->]. by exists s.
Qed.

Lemma new_level_max lv zlv : new_level lv zlv = Nat.max lv zlv.
Proof. unfold new_level. destruct (Nat.ltb_spec zlv lv); lia. Qed.

(** The raised levels are searched from the header. *)
Lemma ups_raise zsl A ups lv : length ups = level zsl -> ups_ok (hd zsl :: A) 0 (level zsl) ups ->
  Forall (low (level zsl)) A -> (lv <= ZSKIPLIST_MAXLEVEL)%nat ->
  ups_ok (hd zsl :: A) 0 (new_level lv (level zsl)) (ups ++ replicate (lv - level zsl) (header zsl, 0)).
Proof.
  intros Hl Hu Hlow Hmax. rewrite new_level_max. intros i Hi. destruct (decide (i < level zsl)%nat) as [Hlt|Hge].
  - destruct (Hu i Hlt) as (P & y & R & E & Hy & HR & Hup). exists P, y, R. split_and!; try done.
    by rewrite lookup_app_l by lia.
  - exists [], (hd zsl), A. split_and!; try done.
    + simpl. lia.
    + eapply Forall_impl; [exact Hlow|]. unfold low. lia.
    + rewrite lookup_app_r by lia. apply lookup_replicate_2. lia.
Qed.

Lemma ups_first F ups n : ups_ok F 0 n ups -> (0 < n)%nat ->
  (forall P y R, F = P ++ y :: R -> R <> [] -> Forall (fun z => 1 <= t_height z)%nat R) ->
  exists P u, F = P ++ [u] /\ nth_up ups 0 = Ret (t_id u, Z.of_nat (length P)).
Proof.
  intros Hu Hn Hh. destruct (ups_at _ _ _ _ 0 Hu Hn) as (P & u & R & E & _ & Hlow & Hup).
  assert (R = []) as ->.
  { destruct R as [|z R]; [done|]. specialize (Hh _ _ _ E ltac:(done)).
    apply Forall_cons_1 in Hh as [Hz _]. apply Forall_cons_1 in Hlow as [Hl _]. unfold low in Hl. lia. }
  by exists P, u.
Qed.

Lemma bk_last P u : bk (P ++ [u]) = match P with [] => None | _ => Some (t_id u) end.
Proof.
  unfold bk. destruct P as [|p P]; [done|]. simpl app. destruct (P ++ [u]) eqn:E; [by destruct P|].
  rewrite <- E. change (p :: P ++ [u]) with ((p :: P) ++ [u]). by rewrite last_snoc.
Qed.

Lemma bk_cons P x Q : Q <> [] -> P <> [] -> bk (P ++ x :: Q) = bk (P ++ Q).
Proof.
  intros HQ HP. destruct (exists_last HQ) as (Q' & u & ->).
  rewrite app_comm_cons, !app_assoc, !bk_last.
  destruct P as [|p P]; [done|]. by destruct Q'.
Qed.

(** After the tower [x], only the backward pointer of the next node changes. *)
Lemma nodes_behind h h' lim pre x B : pre <> [] -> nodes_ok h lim pre B [] -> NoDup (t_id <$> B) ->
  (forall y, y ∈ B -> t_id y <> t_id x) ->
  match B with
  | [] => True
  | y :: _ => set_backward h (t_id y) (Some (t_id x)) = Ret h'
  end -> nodes_ok h' lim (pre ++ [x]) B [].
Proof.
  intros Hpre Hok Hnd Hx. destruct B as [|y B]; [intros _ P z R E; by destruct P|]. intros Hset P z R E.
  pose proof (Hok [] y B eq_refl) as Hy. rewrite app_nil_r in Hy.
  destruct (holds_back _ _ _ _ _ (Some (t_id x)) Hy) as (h1 & E1 & Hfr & Hy1).
  rewrite Hset in E1. injection E1 as <-. destruct P as [|p P]; simpl in E.
  - injection E as <- <-. rewrite app_nil_r, bk_last. by destruct pre as [|q pre].
  - injection E as <- ->. rewrite <- app_assoc. simpl. rewrite bk_cons by done.
    eapply holds_ext; [by apply (Hok (y :: P) z R)| |done]. apply Hfr. intros Eid.
    simpl in Hnd. apply NoDup_cons in Hnd as [Hn _]. apply Hn. rewrite <- Eid.
    apply list_elem_of_fmap_2. apply elem_of_app. right. by left.
Qed.

Lemma staged_0 h lim F old new : staged h lim 0 F old new <->
  forall P y R, F = P ++ y :: R -> holds h lim y (bk P) (fun i => old i R).
Proof.
  split; intros H P y R E; (eapply holds_ext; [by apply H|done|]); intros i _ _; cbv beta;
    (destruct (decide (i < 0)%nat); [lia|done]).
Qed.

Lemma staged_lim h lim F old new : staged h lim lim F old new ->
  forall P y R, F = P ++ y :: R -> holds h lim y (bk P) (fun i => new i R).
Proof. intros H P y R E. eapply holds_ext; [by apply H|done|]. intros i _ Hi. simpl. by rewrite decide_True. Qed.

Lemma nodes_in h lim pre F suf y : nodes_ok h lim pre F suf -> y ∈ F -> is_Some (h !! t_id y).
Proof.
  intros H Hy. apply list_elem_of_split in Hy as (P & R & E). destruct (H P y R E) as (n & Hn & _). by exists n.
Qed.

Lemma notin_insert q h A x B : (q ∉ t_id <$> h :: A ++ x :: B) <->
  (q ∉ t_id <$> h :: A) /\ q <> t_id x /\ (q ∉ t_id <$> B).
Proof.
  change (h :: A ++ x :: B) with ((h :: A) ++ x :: B). rewrite fmap_app, elem_of_app.
  rewrite (fmap_cons _ x), elem_of_cons. tauto.
Qed.

(** The pieces of the sequence with the new tower. *)
Lemma assemble h h' lim hd A B xt : nodes_ok h lim [] (hd :: A) (xt :: B) ->
  holds h (t_height xt) xt (bk (hd :: A)) (fun i => link i B) ->
  nodes_ok h' lim ((hd :: A) ++ [xt]) B [] ->
  (forall q, q ∉ t_id <$> B -> h' !! q = h !! q) ->
  (forall q, q ∈ t_id <$> hd :: A -> q ∉ t_id <$> B) -> t_id xt ∉ t_id <$> B ->
  nodes_ok h' lim [] (hd :: A ++ xt :: B) [].
Proof.
  intros HA Hx HB Hfr Hd HxB.
  change (hd :: A ++ xt :: B) with ((hd :: A) ++ xt :: B). apply nodes_ok_app. rewrite app_nil_r.
  split; [|change (xt :: B) with ([xt] ++ B); apply nodes_ok_app; split; [|done]].
  - eapply nodes_ok_frame; [exact HA|]. intros y Hy. apply Hfr. apply Hd. by apply list_elem_of_fmap_2.
  - intros Q y R E. destruct Q as [|q Q]; [|by destruct Q]. injection E as <- <-. rewrite !app_nil_r.
    eapply holds_lim; [eapply holds_ext; [exact Hx|by apply Hfr|]|done]. intros i _ _. simpl. by rewrite ?app_nil_r.
Qed.

Lemma insert_nodes zsl A B xt ele ups : shape zsl (A ++ B) -> t_ele xt = Some ele ->
  (1 <= t_height xt <= ZSKIPLIST_MAXLEVEL)%nat -> heap zsl !! t_id xt = None ->
  length ups = level zsl -> ups_ok (hd zsl :: A) 0 (level zsl) ups ->
  exists h tl, insert_at zsl (t_score xt) ele (t_height xt) (t_id xt) ups =
      Ret (Zsl (header zsl) tl (length_ zsl + 1) (new_level (t_height xt) (level zsl)) h, t_id xt) /\
    tl = t_id <$> last (A ++ xt :: B) /\
    nodes_ok h (new_level (t_height xt) (level zsl)) [] (hd zsl :: A ++ xt :: B) [] /\
    (forall i, (new_level (t_height xt) (level zsl) <= i < ZSKIPLIST_MAXLEVEL)%nat ->
      exists s, get_lvl h (header zsl) i = Ret (None, s)) /\
    forall q, q ∉ t_id <$> hd zsl :: A ++ xt :: B -> h !! q = heap zsl !! q.
Proof.
  intros Hsh Hele Hlv Hfresh Hul Hups. pose proof Hsh as [Hn Hids Hh Hlev Htop Hnull Hlen Htail Heles].
  unfold insert_at. set (lv := t_height xt) in *. set (zlv := new_level lv (level zsl)).
  assert (zlv = Nat.max lv (level zsl)) as Ezlv by apply new_level_max.
  destruct (raise_shape zsl (A ++ B) lv Hsh ltac:(lia)) as (h1 & -> & Hok1 & Hfr1 & Hnull1). cbn [obind].
  fold (new_level lv (level zsl)). fold zlv.
  assert (t_id xt ∉ t_id <$> hd zsl :: A ++ B) as Hxn.
  { intros (y & Ey & Hy)%list_elem_of_fmap. destruct (nodes_in _ _ _ _ _ y Hn Hy) as [n Hn'].
    rewrite <- Ey in Hn'. congruence. }
  assert (t_id xt <> header zsl) as Hxh by (intros E; apply Hxn; rewrite E; by left).
  set (h2 := zslCreateNode h1 (t_id xt) lv (t_score xt) (Some ele)).
  assert (forall y, y ∈ hd zsl :: A ++ B -> h2 !! t_id y = h1 !! t_id y) as Hfr2.
  { intros y Hy. apply lookup_insert_ne. intros E. apply Hxn. rewrite E. by apply list_elem_of_fmap_2. }
  assert (Forall (fun y => (1 <= t_height y)%nat) A) as HhA.
  { apply Forall_app in Hh as [Hh _]. eapply Forall_impl; [exact Hh|]. simpl. lia. }
  pose proof (ups_raise zsl A ups lv Hul Hups) as Hups'.
  specialize (Hups' ltac:(apply Forall_app in Hh as [Hh _]; eapply Forall_impl; [exact Hh|]; unfold low; simpl; lia) ltac:(lia)).
  fold zlv in Hups'. set (ups' := ups ++ _) in *.
  apply (nodes_ok_frame _ h2) in Hok1; [|done].
  change (hd zsl :: A ++ B) with ((hd zsl :: A) ++ B) in Hok1, Hids, Hxn.
  apply nodes_ok_app in Hok1 as [HokA HokB]. rewrite app_nil_r in HokA.
  rewrite fmap_app in Hids, Hxn. apply NoDup_app in Hids as (HndA & HdAB & HndB).
  rewrite elem_of_app in Hxn. apply Decidable.not_or in Hxn as [HxA HxB].
  destruct (ups_first _ _ _ Hups' ltac:(lia)) as (P & u & EA & ->).
  { intros P y R E _. destruct P as [|p P]; simpl in E; injection E as _ ->; [done|].
    apply Forall_app in HhA as [_ HhA]. by apply Forall_cons_1 in HhA as [_ HhA]. }
  cbn [obind].
  assert (length P = length A) as HlP.
  { apply (f_equal length) in EA. rewrite length_app in EA. simpl in EA. lia. }
  rewrite HlP.
  destruct (link_loop_spec (hd zsl) A B xt zlv ups' Hups' HndA HxA None ltac:(lia) lv 0 h2)
    as (h3 & -> & Hst3 & Hx3 & Hfr3 & Hab3); [done| | |].
  { apply staged_0. intros Q y R E. by apply HokA. }
  { eexists. unfold h2, zslCreateNode. rewrite lookup_insert_eq. split; [done|]. simpl.
    split_and!; try done; [apply length_replicate|]. intros i _ Hi. lia. }
  cbn [obind]. fold lv in Hst3, Hx3.
  destruct (widen_loop_spec (hd zsl) A B xt zlv ups' Hups' HndA HxA None ltac:(lia) (zlv - lv) lv h3)
    as (h4 & -> & Hst4 & Hx4 & Hfr4 & Hab4); [lia|lia|done|done|]. cbn [obind].
  destruct (holds_back _ _ _ _ _ (if t_id u =? header zsl then None else Some (t_id u)) Hx4)
    as (h5 & E5 & Hfr5 & Hx5). rewrite E5. cbn [obind].
  assert ((if t_id u =? header zsl then None else Some (t_id u)) = bk (hd zsl :: A)) as Ebk.
  { rewrite EA, bk_last. destruct P as [|p P]; simpl in EA; injection EA as <- EA; [by rewrite Z.eqb_refl|].
    destruct (Z.eqb_spec (t_id u) (header zsl)) as [E|]; [|done]. exfalso. subst A.
    by apply (id_distinct _ (hd zsl :: P) [] u (hd zsl) [] (P ++ [u]) HndA). }
  rewrite Ebk in Hx5.
  assert (nodes_ok h5 zlv [] (hd zsl :: A) (xt :: B)) as Hok5.
  { intros Q y R E. eapply holds_ext; [by apply (staged_lim _ _ _ _ _ Hst4 Q y R E)| |done].
    apply Hfr5. intros Eid. apply HxA. rewrite <- Eid, E. apply list_elem_of_fmap_2, elem_of_app. right. by left. }
  assert (forall y, y ∈ B -> h5 !! t_id y = h2 !! t_id y /\ t_id y <> t_id xt) as HfrB.
  { intros y Hy. assert (t_id y ∉ t_id <$> hd zsl :: A) as Hya.
    { intros Hin. apply (HdAB _ Hin). by apply list_elem_of_fmap_2. }
    assert (t_id y <> t_id xt) by (intros E; apply HxB; rewrite <- E; by apply list_elem_of_fmap_2).
    split_and!; try done. rewrite Hfr5, Hfr4, Hfr3; done. }
  assert (nodes_ok h5 zlv (hd zsl :: A) B []) as HokB5.
  { eapply nodes_ok_frame; [exact HokB|]. intros y Hy. by apply HfrB. }
  rewrite (holds_get _ _ _ _ _ 0 Hx5 ltac:(lia) ltac:(lia)). cbn [obind].
  assert (forall q, q ∉ t_id <$> hd zsl :: A ++ xt :: B -> h5 !! q = heap zsl !! q) as Hfinal.
  { intros q Hq. apply notin_insert in Hq as (Hqa & Hqx & _).
    rewrite Hfr5, Hfr4, Hfr3 by done. unfold h2, zslCreateNode. rewrite lookup_insert_ne by done.
    apply Hfr1. intros ->. apply Hqa. by left. }
  assert (forall i, (zlv <= i < ZSKIPLIST_MAXLEVEL)%nat -> exists s, get_lvl h5 (header zsl) i = Ret (None, s)) as Hnull5.
  { intros i Hi. rewrite (get_set_backward _ _ _ _ (header zsl) i E5), Hab4, Hab3 by lia.
    unfold get_lvl, deref, h2, zslCreateNode. rewrite lookup_insert_ne by done. by apply Hnull1. }
  destruct B as [|y B].
  - simpl. do 2 eexists. split; [done|]. split; [by rewrite last_snoc|]. split; [|by split].
    apply (assemble h5 h5 zlv (hd zsl) A [] xt); try done. intros P' z R E. by destruct P'.
  - assert (1 <= t_height y)%nat as Hy by (apply Forall_app in Hh as [_ Hh]; apply Forall_cons_1 in Hh; lia).
    cbn [link]. destruct (Nat.ltb_spec 0 (t_height y)); [|lia].
    pose proof (HokB5 [] y B eq_refl) as Hy5. rewrite app_nil_r in Hy5.
    destruct (holds_back _ _ _ _ _ (Some (t_id xt)) Hy5) as (h6 & E6 & Hfr6 & Hy6). rewrite E6. cbn [obind].
    assert (forall q, q ∉ t_id <$> y :: B -> h6 !! q = h5 !! q) as Hfr6'.
    { intros q Hq. apply Hfr6. intros ->. apply Hq. by left. }
    do 2 eexists. split; [done|]. split; [by rewrite Htail, !last_app_cons, last_cons_cons|]. split.
    + apply (assemble h5 h6 zlv (hd zsl) A (y :: B) xt); try done.
      eapply (nodes_behind h5 h6); [done|exact HokB5|done| |].
      * intros z Hz. by apply HfrB.
      * exact E6.
    + split.
      * intros i Hi. rewrite (get_set_backward _ _ _ _ (header zsl) i E6). by apply Hnull5.
      * intros q Hq. rewrite Hfr6'; [by apply Hfinal|]. by apply notin_insert in Hq as (_ & _ & ?).
Qed.

(** ** Taking a tower out *)

Lemma link_in i R f s : link i R = (Some f, s) -> exists y, y ∈ R /\ f = t_id y /\ (i < t_height y)%nat.
Proof.
  intros H. destruct (first_high i R) as [Hl|(R1 & y & R2 & -> & Hl & Hy)].
  - rewrite link_none in H by done. done.
  - rewrite link_hit in H by done. injection H as <- _. exists y. split_and!; try done.
    apply elem_of_app. right. by left.
Qed.

Section Unlink.
Context (hd : tower) (A B : list tower) (xt : tower) (lim : nat) (ups : list (Z * Z)).
Context (Hups : ups_ok (hd :: A) 0 lim ups) (Hnd : NoDup (t_id <$> hd :: A)).
Context (HxA : t_id xt ∉ t_id <$> hd :: A) (HxB : t_id xt ∉ t_id <$> B).
Context (Hlim : (t_height xt <= lim)%nat).

Lemma unlink_loop_spec b : forall n k h, (k + n = lim)%nat ->
  staged h lim k (hd :: A) (new_link B xt) (old_link B) -> holds h lim xt b (fun i => link i B) ->
  exists h', unlink_loop n h (t_id xt) ups k = Ret h' /\
    staged h' lim lim (hd :: A) (new_link B xt) (old_link B) /\
    holds h' lim xt b (fun i => link i B) /\
    (forall q, q ∉ t_id <$> hd :: A -> h' !! q = h !! q) /\
    forall q i, (lim <= i)%nat -> get_lvl h' q i = get_lvl h q i.
Proof using Hups Hnd HxA HxB Hlim.
  induction n as [|n IH]; intros k h Hk Hst Hxt; cbn [unlink_loop].
  { exists h. assert (k = lim) as -> by lia. done. }
  destruct (ups_at _ _ _ _ k Hups ltac:(lia)) as (P & u & R & E & Hu & Hlow & ->). cbn [obind].
  pose proof (id_ne hd A xt HxA _ _ _ E) as Hne.
  destruct (staged_step h lim k _ _ _ P u R Hst Hnd
    (fun i R' H => eq_sym (old_new B xt i R' H)) E Hu ltac:(lia) Hlow) as (-> & h2 & Es & Hst2 & Hfr2).
  assert ((if bool_decide (fst (new_link B xt k R) = Some (t_id xt))
           then let* (xf, xs) := get_lvl h (t_id xt) k in
                set_lvl h (t_id u) k (xf, snd (new_link B xt k R) + (xs - 1))
           else set_lvl h (t_id u) k (fst (new_link B xt k R), snd (new_link B xt k R) - 1)) = Ret h2) as Hgo.
  { rewrite <- Es. unfold new_link, old_link. rewrite !link_low by done. cbn [link fst snd].
    destruct (Nat.ltb_spec k (t_height xt)) as [Hlt|Hge].
    - cbn [fst snd]. rewrite bool_decide_eq_true_2 by done.
      rewrite (holds_get _ _ _ _ _ k Hxt Hlt ltac:(lia)). destruct (link k B) as [f s]. cbn [obind fst snd].
      do 2 f_equal. lia.
    - destruct (link k B) as [f s] eqn:El. cbn [fst snd]. rewrite bool_decide_eq_false_2.
      + do 2 f_equal. lia.
      + intros ->. apply link_in in El as (y & Hy & Ef & _). apply HxB. rewrite Ef. by apply list_elem_of_fmap_2. }
  destruct (new_link B xt k R) as [f s]. cbn [obind fst snd] in *. rewrite Hgo. cbn [obind].
  destruct (IH (S k) h2) as (h3 & -> & Hst3 & Hx3 & Hfr3 & Hab3); [lia|done| |].
  { eapply holds_ext; [exact Hxt|apply Hfr2; congruence|done]. }
  exists h3. split_and!; [done|done|done| |].
  - intros q Hq. rewrite Hfr3, Hfr2; try done.
    intros ->. apply Hq. rewrite E, fmap_app, elem_of_app. right. by left.
  - intros q i Hi. rewrite Hab3 by done. apply (get_set_lvl _ _ _ _ _ q i Es). lia.
Qed.

End Unlink.

Lemma lower_loop_spec h lim y b R : holds h lim y b (fun i => link i R) ->
  forall m, (m < t_height y)%nat -> (m < lim)%nat ->
  exists lv, lower_loop h (t_id y) m = Ret lv /\ (1 <= lv <= S m)%nat /\
    (lv = 1%nat \/ ~ Forall (low (lv - 1)) R) /\ forall i, (lv <= i <= m)%nat -> Forall (low i) R.
Proof.
  intros Hh. induction m as [|m IH]; intros Hm Hl; cbn [lower_loop].
  { exists 1%nat. split_and!; [done|lia|lia|by left|]. intros i Hi. lia. }
  rewrite (holds_get _ _ _ _ _ (S m) Hh Hm Hl).
  destruct (first_high (S m) R) as [Hlow|(R1 & z & R2 & -> & Hlow & Hz)].
  - rewrite link_none by done. cbn [obind]. destruct (IH ltac:(lia) ltac:(lia)) as (lv & -> & Hlv & Htop & Hall).
    exists lv. split_and!; [done|lia|lia|done|]. intros i Hi. destruct (decide (i = S m)) as [->|]; [done|].
    apply Hall. lia.
  - rewrite link_hit by done. cbn [obind]. exists (S (S m)). split_and!; [done|lia|lia| |].
    + right. rewrite Forall_app, Forall_cons. unfold low at 2. replace (S (S m) - 1)%nat with (S m) by lia. lia.
    + intros i Hi. lia.
Qed.

Lemma holds_weaken h lim lim' y b lk : holds h lim y b lk -> (lim' <= lim)%nat -> holds h lim' y b lk.
Proof.
  intros (n & Hn & He & Hs & Hb & Hl & Hk) Hle. exists n. split_and!; try done.
  intros i Hi Hi'. apply Hk; lia.
Qed.

(** What comes after the tower that was taken out. *)
Lemma nodes_before h h' lim pre x B : pre <> [] -> nodes_ok h lim (pre ++ [x]) B [] -> NoDup (t_id <$> B) ->
  match B with
  | [] => True
  | y :: _ => set_backward h (t_id y) (bk pre) = Ret h'
  end -> nodes_ok h' lim pre B [].
Proof.
  intros Hpre Hok Hnd. destruct B as [|y B]; [intros _ P z R E; by destruct P|]. intros Hset P z R E.
  pose proof (Hok [] y B eq_refl) as Hy.
  destruct (holds_back _ _ _ _ _ (bk pre) Hy) as (h1 & E1 & Hfr & Hy1).
  rewrite Hset in E1. injection E1 as <-. destruct P as [|p P]; simpl in E.
  - injection E as <- <-. by rewrite app_nil_r.
  - injection E as <- ->. rewrite <- (bk_cons pre x (y :: P)) by done.
    eapply holds_ext; [pose proof (Hok (y :: P) z R eq_refl) as H; rewrite <- app_assoc in H; exact H| |done].
    apply Hfr. by apply (id_distinct _ (y :: P) [] z y R (P ++ z :: R) Hnd).
Qed.

(** ** The two changes of the structure *)

(** What a change leaves alone: the header and every address but those of the towers. *)
Definition frame (zsl zsl' : zskiplist) (L : list tower) : Prop :=
  header zsl' = header zsl /\
  forall q, q ∉ t_id <$> hd zsl :: L -> heap zsl' !! q = heap zsl !! q.

Lemma ids_middle h A x B : NoDup (t_id <$> h :: A ++ x :: B) <->
  NoDup (t_id <$> h :: A ++ B) /\ t_id x ∉ t_id <$> h :: A ++ B.
Proof.
  assert (t_id <$> h :: A ++ x :: B ≡ₚ t_id x :: (t_id <$> h :: A ++ B)) as ->.
  { rewrite <- fmap_cons. apply fmap_Permutation. by rewrite <- Permutation_middle, Permutation_swap. }
  rewrite NoDup_cons. tauto.
Qed.

Lemma insert_shape zsl A B xt ele ups : shape zsl (A ++ B) -> t_ele xt = Some ele ->
  (1 <= t_height xt <= ZSKIPLIST_MAXLEVEL)%nat -> heap zsl !! t_id xt = None ->
  length ups = level zsl -> ups_ok (hd zsl :: A) 0 (level zsl) ups ->
  exists zsl', insert_at zsl (t_score xt) ele (t_height xt) (t_id xt) ups = Ret (zsl', t_id xt) /\
    shape zsl' (A ++ xt :: B) /\ frame zsl zsl' (A ++ xt :: B).
Proof.
  intros Hsh Hele Hlv Hfresh Hul Hups.
  destruct (insert_nodes zsl A B xt ele ups) as (h & tl & -> & Etl & Hok & Hnull & Hfr); try done.
  eexists. split; [done|]. split; [|by split]. pose proof (new_level_max (t_height xt) (level zsl)) as Em.
  destruct Hsh as [Hn Hids Hh Hlev Htop _ Hlen _ Heles].
  split; cbn [header heap level length_ tail]; try done.
  - apply ids_middle. split; [done|]. intros (y & Ey & Hy)%list_elem_of_fmap.
    destruct (nodes_in _ _ _ _ _ y Hn Hy) as [n Hn']. rewrite <- Ey in Hn'. congruence.
  - apply Forall_app in Hh as [HhA HhB]. rewrite Em. apply Forall_app. split; [|constructor; [lia|]];
      (eapply Forall_impl; [eassumption|]); simpl; lia.
  - rewrite Em. lia.
  - rewrite Em. destruct (decide (level zsl <= t_height xt)%nat).
    + right. rewrite Nat.max_l by lia. apply Exists_app. right. by left.
    + rewrite Nat.max_r by lia. destruct Htop as [?|Htop]; [by left|]. right.
      apply Exists_app in Htop as [?|?]; apply Exists_app; [by left|]. right. by right.
  - rewrite Hlen, !length_app. simpl. lia.
  - apply Forall_app in Heles as [? ?]. apply Forall_app. split; [done|]. by constructor.
Qed.

Lemma bk_tail h A : bk (h :: A) = t_id <$> last A.
Proof. by destruct A. Qed.

(** The store after the pointers around the tower have changed. *)
Lemma delete_nodes zsl A B xt ups : shape zsl (A ++ xt :: B) -> ups_ok (hd zsl :: A) 0 (level zsl) ups ->
  exists h tl, zslDeleteNode zsl (t_id xt) ups =
      (let* lv := lower_loop h (header zsl) (level zsl - 1) in
       Ret (Zsl (header zsl) tl (length_ zsl - 1) lv h)) /\
    tl = t_id <$> last (A ++ B) /\
    nodes_ok h (level zsl) [] (hd zsl :: A ++ B) [] /\
    (forall q, q ∉ t_id <$> hd zsl :: A ++ B -> h !! q = heap zsl !! q) /\
    (forall i, (level zsl <= i)%nat -> get_lvl h (header zsl) i = get_lvl (heap zsl) (header zsl) i).
Proof.
  intros [Hn Hids Hh Hlev _ _ _ Htail _] Hups. unfold zslDeleteNode.
  change (hd zsl :: A ++ xt :: B) with ((hd zsl :: A) ++ [xt] ++ B) in Hn.
  apply nodes_ok_app in Hn as [HnA Hn]. apply nodes_ok_app in Hn as [Hnx HnB].
  pose proof (Hnx [] xt [] eq_refl) as Hx. rewrite app_nil_r in HnA. rewrite !app_nil_r in Hx.
  apply ids_middle in Hids as [Hids Hxn]. change (hd zsl :: A ++ B) with ((hd zsl :: A) ++ B) in Hids, Hxn.
  rewrite fmap_app in Hids, Hxn. apply NoDup_app in Hids as (HndA & HdAB & HndB).
  rewrite elem_of_app in Hxn. apply Decidable.not_or in Hxn as [HxA HxB].
  pose proof Hh as Hh'. apply Forall_app in Hh' as [_ [Hhx HhB]%Forall_cons_1].
  destruct (unlink_loop_spec (hd zsl) A B xt (level zsl) ups Hups HndA HxA HxB ltac:(lia)
    (bk (hd zsl :: A)) (level zsl) 0 (heap zsl)) as (h1 & -> & Hst & Hx1 & Hfr1 & Hab1); [done| | |].
  { apply staged_0. intros P y R E. by apply (HnA P y R E). }
  { eapply holds_ext; [exact Hx|done|]. intros i _ _. simpl. by rewrite ?app_nil_r. }
  cbn [obind]. destruct Hx1 as (xn & Exn & _ & _ & Ebk & _ & Hlv). unfold deref at 1, lvl.
  rewrite Exn. cbn [obind]. rewrite Hlv by lia. cbn [obind].
  assert (nodes_ok h1 (level zsl) [] (hd zsl :: A) B) as HA1.
  { intros P y R E. by apply (staged_lim _ _ _ _ _ Hst P y R E). }
  assert (nodes_ok h1 (level zsl) ((hd zsl :: A) ++ [xt]) B []) as HB1.
  { eapply nodes_ok_frame; [exact HnB|]. intros y Hy. apply Hfr1. intros Hin. apply (HdAB _ Hin).
    by apply list_elem_of_fmap_2. }
  destruct B as [|y B]; cbn [link].
  - cbn [obind]. exists h1, (n_backward xn). split; [done|]. rewrite app_nil_r, Ebk, bk_tail.
    split_and!; [done|done| |].
    + intros q Hq. by apply Hfr1.
    + intros i Hi. by apply Hab1.
  - apply Forall_cons_1 in HhB as [Hhy _]. destruct (Nat.ltb_spec 0 (t_height y)); [|lia].
    pose proof (HB1 [] y B eq_refl) as Hy1.
    destruct (holds_back _ _ _ _ _ (n_backward xn) Hy1) as (h2 & E2 & Hfr2 & _). rewrite E2. cbn [obind].
    exists h2, (tail zsl). split; [done|]. split_and!.
    + by rewrite Htail, !last_app_cons, last_cons_cons.
    + change (hd zsl :: A ++ y :: B) with ((hd zsl :: A) ++ y :: B). apply nodes_ok_app. rewrite app_nil_r. split.
      * eapply nodes_ok_frame; [exact HA1|]. intros z Hz. apply Hfr2. intros Eid.
        apply (HdAB (t_id z)); [by apply list_elem_of_fmap_2|]. rewrite Eid. by left.
      * rewrite Ebk in E2. by apply (nodes_before h1 h2 _ _ xt).
    + intros q Hq. change (hd zsl :: A ++ y :: B) with ((hd zsl :: A) ++ y :: B) in Hq.
      rewrite fmap_app, elem_of_app in Hq.
      apply Decidable.not_or in Hq as [Hq1 Hq2]. rewrite Hfr2; [by apply Hfr1|]. intros ->. apply Hq2. by left.
    + intros i Hi. rewrite (get_set_backward _ _ _ _ (header zsl) i E2). by apply Hab1.
Qed.

Lemma not_low i L : ~ Forall (low i) L -> Exists (fun y => (i < t_height y)%nat) L.
Proof.
  intros Hn. destruct (first_high i L) as [?|(P & y & R & -> & _ & Hy)]; [done|].
  apply Exists_app. right. by left.
Qed.

Lemma delete_shape zsl A B xt ups : shape zsl (A ++ xt :: B) -> ups_ok (hd zsl :: A) 0 (level zsl) ups ->
  exists zsl', zslDeleteNode zsl (t_id xt) ups = Ret zsl' /\ shape zsl' (A ++ B) /\
    frame zsl zsl' (A ++ B) /\ (level zsl' <= level zsl)%nat.
Proof.
  intros Hsh Hups. destruct (delete_nodes zsl A B xt ups Hsh Hups) as (h & tl & -> & Etl & Hok & Hfr & Hab).
  destruct Hsh as [_ Hids Hh Hlev _ Hnull Hlen _ Heles]. pose proof Hlev as Hmax. unfold ZSKIPLIST_MAXLEVEL in Hmax.
  pose proof (Hok [] (hd zsl) (A ++ B) eq_refl) as Hhd.
  destruct (lower_loop_spec h (level zsl) (hd zsl) None (A ++ B)) with (m := (level zsl - 1)%nat)
    as (lv & Elv & Hlv & Htop & Hlow).
  { eapply holds_ext; [exact Hhd|done|]. intros i _ _. simpl. by rewrite app_nil_r. }
  { simpl. lia. } { lia. }
  simpl t_id in Elv. rewrite Elv. cbn [obind]. eexists. split; [done|]. split; [|split; [by split|simpl; lia]].
  assert (Forall (fun y => (1 <= t_height y <= level zsl)%nat) (A ++ B)) as Hh1.
  { rewrite Forall_app, Forall_cons in Hh. apply Forall_app. tauto. }
  assert (Forall (fun y => (1 <= t_height y <= lv)%nat) (A ++ B)) as Hh2.
  { destruct (decide (lv = level zsl)) as [->|]; [done|]. specialize (Hlow lv ltac:(lia)).
    rewrite Forall_forall in Hh1, Hlow |- *. intros y Hy. specialize (Hh1 y Hy). specialize (Hlow y Hy).
    unfold low in Hlow. lia. }
  split; cbn [header heap level length_ tail]; try done.
  - intros P y R E. eapply holds_weaken; [by apply (Hok P y R E)|lia].
  - by apply ids_middle in Hids as [? _].
  - lia.
  - destruct Htop as [?|Htop]; [by left|]. right. apply not_low in Htop.
    apply Exists_exists in Htop as (y & Hy & Hi). apply Exists_exists. exists y. split; [done|].
    rewrite Forall_forall in Hh2. specialize (Hh2 y Hy). simpl in Hh2. lia.
  - intros i Hi. destruct (decide (level zsl <= i)%nat) as [Hle|].
    + rewrite Hab by done. apply Hnull. lia.
    + exists (Z.of_nat (length (A ++ B))). change (header zsl) with (t_id (hd zsl)).
      rewrite (holds_get _ _ _ _ _ i Hhd); [|simpl; unfold ZSKIPLIST_MAXLEVEL in *; lia|lia].
      rewrite app_nil_r, link_none; [done|]. apply Hlow. lia.
  - rewrite Hlen, !length_app. simpl. lia.
  - rewrite Forall_app, Forall_cons in Heles. apply Forall_app. tauto.
Qed.

End Zskiplist.
