(* ===== verification/ZslSpec.v ===== *)
(** * ZslSpec: the skip list refines a sorted list

    Entries, pairs of a score and an element, are ordered by score and then by
    element.  The skip list represents the list of its entries in that order, and
    each of its operations is the obvious one on that list. *)
From S2P Require Import Prelude StrObj Double Zskiplist.
From Stdlib Require Import Sorting.Sorted.
Import Double Zskiplist.

Module ZslSpec.

(** ** The order *)

Abbreviation entry := (double * list Z)%type.

Definition eltb (a b : entry) : bool :=
  dlt (fst a) (fst b) || deq (fst a) (fst b) && match StrObj.lex (snd a) (snd b) with Lt => true | _ => false end.

Definition esame (a b : entry) : bool := deq (fst a) (fst b) && bool_decide (snd a = snd b).

Definition elt (a b : entry) : Prop := eltb a b = true.
Definition number (a : entry) : Prop := isnan (fst a) = false.

(** Strictly increasing, and no score is NaN. *)
Definition sorted (L : list entry) : Prop := StronglySorted elt L /\ Forall number L.

Lemma lex_antisym a b : StrObj.lex b a = CompOpp (StrObj.lex a b).
Proof.
  revert b. induction a as [|x a IH]; intros [|y b]; try done. simpl.
  rewrite Z.compare_antisym. destruct (x ?= y); simpl; done.
Qed.

Lemma lex_trans a b c : StrObj.lex a b = Lt -> StrObj.lex b c = Lt -> StrObj.lex a c = Lt.
Proof.
  revert b c. induction a as [|x a IH]; intros [|y b] [|z c]; try done. simpl.
  destruct (Z.compare_spec x y), (Z.compare_spec y z), (Z.compare_spec x z); subst; try done; try lia.
  apply IH.
Qed.

Lemma sdscmp_lex a b : StrObj.sign (sdscmp a b) = StrObj.lex a b.
Proof.
  rewrite StrObj.lex_memcmp. unfold sdscmp. cbv zeta.
  replace (if Z.of_nat (length a) <? Z.of_nat (length b) then length a else length b)
    with (if Nat.ltb (length a) (length b) then length a else length b).
  2: { case_bool; destruct (Nat.ltb_spec (length a) (length b)); lia. }
  destruct (_ =? 0); [|done]. unfold StrObj.sign.
  destruct (Z.compare_spec (Z.of_nat (length a) - Z.of_nat (length b)) 0); repeat case_bool; lia || done.
Qed.

Lemma sdscmp_lt a b : (sdscmp a b <? 0) = match StrObj.lex a b with Lt => true | _ => false end.
Proof. rewrite <- sdscmp_lex. unfold StrObj.sign, Z.ltb. by destruct (sdscmp a b ?= 0). Qed.

Lemma sdscmp_eq a b : (sdscmp a b =? 0) = bool_decide (a = b).
Proof.
  pose proof (sdscmp_lex a b) as H. pose proof (StrObj.lex_eq a b) as He. unfold StrObj.sign in H.
  destruct (Z.eqb_spec (sdscmp a b) 0) as [E|E].
  - rewrite E in H. symmetry. apply bool_decide_eq_true_2. by apply He.
  - symmetry. apply bool_decide_eq_false_2. intros Hab%He. rewrite Hab in H. by apply Z.compare_eq in H.
Qed.

Lemma sdscmp_le a b : (sdscmp a b <=? 0) = negb match StrObj.lex b a with Lt => true | _ => false end.
Proof.
  rewrite (lex_antisym a b), <- sdscmp_lex. unfold StrObj.sign, Z.leb. by destruct (sdscmp a b ?= 0).
Qed.

(** Lexicographic comparison of the keys. *)
Lemma elt_key a b : number a -> number b -> elt a b <->
  klt (dkey (fst a)) (dkey (fst b)) \/ dkey (fst a) = dkey (fst b) /\ StrObj.lex (snd a) (snd b) = Lt.
Proof.
  intros Ha Hb. unfold elt, eltb. rewrite orb_true_iff, andb_true_iff, dlt_key, deq_key by done.
  destruct (StrObj.lex _ _); intuition congruence.
Qed.

Lemma esame_key a b : number a -> number b -> esame a b = true <-> dkey (fst a) = dkey (fst b) /\ snd a = snd b.
Proof. intros Ha Hb. unfold esame. by rewrite andb_true_iff, bool_decide_eq_true, deq_key by done. Qed.

Lemma elt_trans a b c : number a -> number b -> number c -> elt a b -> elt b c -> elt a c.
Proof.
  intros Ha Hb Hc. rewrite !elt_key by done. intros [H1|[E1 H1]] [H2|[E2 H2]].
  - left. by eapply klt_trans.
  - left. by rewrite <- E2.
  - left. by rewrite E1.
  - right. split; [congruence|]. by eapply lex_trans.
Qed.

Lemma elt_total a b : number a -> number b -> elt a b \/ esame a b = true \/ elt b a.
Proof.
  intros Ha Hb. rewrite !elt_key, esame_key by done.
  destruct (klt_total (dkey (fst a)) (dkey (fst b))) as [?|[E|?]]; [tauto| |tauto].
  rewrite (lex_antisym (snd a) (snd b)). pose proof (StrObj.lex_eq (snd a) (snd b)) as He.
  destruct (StrObj.lex (snd a) (snd b)); simpl;
    [right; left; split; [done|by apply He]|intuition..].
Qed.

Lemma elt_irrefl a b : number a -> number b -> esame a b = true -> ~ elt a b.
Proof.
  intros Ha Hb. rewrite esame_key, elt_key by done. intros [-> ->] [H|[_ H]].
  - by apply klt_irrefl in H.
  - by rewrite (proj2 (StrObj.lex_eq (snd b) (snd b)) eq_refl) in H.
Qed.

Lemma esame_sym a b : number a -> number b -> esame a b = esame b a.
Proof.
  intros Ha Hb. apply eq_true_iff_eq. rewrite !esame_key by done. split; intros [? ?]; done.
Qed.

Lemma elt_asym a b : number a -> number b -> elt a b -> ~ elt b a.
Proof.
  intros Ha Hb H1 H2. assert (elt a a) as H by (by apply (elt_trans a b a)).
  revert H. apply elt_irrefl; try done. by rewrite esame_key by done.
Qed.

(** Entries equal for the order are interchangeable in it. *)
Lemma elt_same a b c : number a -> number b -> number c -> esame a b = true -> eltb a c = eltb b c /\ eltb c a = eltb c b.
Proof.
  intros Ha Hb Hc H. apply esame_key in H as [Hk He]; try done.
  split; apply eq_true_iff_eq; change (elt a c <-> elt b c) || change (elt c a <-> elt c b);
    rewrite !elt_key by done; by rewrite Hk, He.
Qed.

(** ** What the towers of a skip list say *)

Definition tele (y : tower) : list Z := match t_ele y with Some e => e | None => [] end.
Definition ent (y : tower) : entry := (t_score y, tele y).

(** A well-formed skip list: the structure, the order, and nothing else in the
    store. *)
Record zsl_ok (zsl : zskiplist) (T : list tower) : Prop := {
  ok_shape : shape zsl T;
  ok_sorted : sorted (ent <$> T);
}.

Definition no_leak (zsl : zskiplist) (T : list tower) : Prop :=
  forall q, q ∉ t_id <$> hd zsl :: T -> heap zsl !! q = None.

(** A sorted list falls in two at a condition that holds of all below what it
    holds of. *)
Lemma sorted_cut {X} (R : X -> X -> Prop) (p : X -> bool) L : StronglySorted R L ->
  (forall a b, a ∈ L -> b ∈ L -> R a b -> p b = true -> p a = true) ->
  exists A B, L = A ++ B /\ Forall (fun a => p a = true) A /\ Forall (fun b => p b = false) B.
Proof.
  induction 1 as [|a L HL IH Ha]; intros Hp.
  { exists [], []. repeat constructor. }
  destruct IH as (A & B & -> & HA & HB).
  { intros x y Hx Hy. apply Hp; by right. }
  destruct (p a) eqn:Ep.
  - exists (a :: A), B. split; [done|]. split; [by constructor|done].
  - exists [], (a :: A ++ B). split; [done|]. split; [done|]. constructor; [done|].
    apply Forall_app. split; [|done]. rewrite Forall_forall in Ha |- *. intros b Hb.
    destruct (p b) eqn:Eb; [|done]. rewrite <- Ep. symmetry. apply (Hp a b); try done.
    + by left.
    + right. apply elem_of_app. by left.
    + apply Ha. apply elem_of_app. by left.
Qed.

Lemma cut_pred (p : tower -> bool) r0 A B : Forall (fun a => p a = true) A -> Forall (fun b => p b = false) B ->
  cut (fun _ => p) r0 A B.
Proof.
  rewrite !Forall_forall. intros HA HB. split; intros P y R ->; [apply HA|apply HB];
    apply elem_of_app; right; by left.
Qed.

Lemma seek_spec zsl cond condT A B : shape zsl (A ++ B) -> reads cond condT -> cut condT 0 A B ->
  exists ups, seek zsl cond = Ret ups /\ length ups = level zsl /\ ups_ok (hd zsl :: A) 0 (level zsl) ups.
Proof.
  intros [Hn _ _ Hlev _ _ Hlen _ _] Hr Hc. unfold seek. change (header zsl) with (t_id (hd zsl)).
  apply (descend_spec cond condT _ (level zsl) B Hr _ _ [] A); try done.
  - simpl. lia.
  - unfold steps. rewrite Hlen, length_app. lia.
Qed.

Lemma next_of_spec zsl A B ups : shape zsl (A ++ B) -> ups_ok (hd zsl :: A) 0 (level zsl) ups ->
  next_of zsl ups = Ret (t_id <$> head B).
Proof.
  intros [Hn _ Hh Hlev _ _ _ _ _] Hups. apply Forall_app in Hh as [HhA HhB].
  destruct (ups_first _ _ _ Hups ltac:(lia)) as (P & u & E & Hu).
  { intros P y R E _. destruct P as [|p P]; simpl in E; injection E as _ ->;
      [|apply Forall_app in HhA as [_ HhA]; apply Forall_cons_1 in HhA as [_ HhA]];
      (eapply Forall_impl; [exact HhA|]); simpl; lia. }
  unfold next_of. rewrite Hu. cbn [obind].
  assert (0 < t_height u)%nat as Hhu.
  { destruct P as [|p P]; simpl in E; injection E as <- E; [simpl; unfold ZSKIPLIST_MAXLEVEL; lia|].
    subst A. apply Forall_app in HhA as [_ HhA]. apply Forall_cons_1 in HhA. lia. }
  assert (hd zsl :: A ++ B = P ++ u :: B) as E2.
  { change (hd zsl :: A ++ B) with ((hd zsl :: A) ++ B). rewrite E. by rewrite <- app_assoc. }
  rewrite (holds_get _ _ _ _ _ 0 (Hn P u B E2)) by lia. rewrite app_nil_r. cbn [obind].
  destruct B as [|y B]; [done|]. apply Forall_cons_1 in HhB as [Hy _]. cbn [link].
  by destruct (Nat.ltb_spec 0 (t_height y)); [|lia].
Qed.

(** The conditions of the searches, on towers. *)
Lemma before_reads score ele : reads (before score ele) (fun _ y => eltb (ent y) (score, ele)).
Proof.
  intros k n y He Hs. unfold before, eltb, ent, ele_of, tele. simpl.
  by rewrite He, Hs, sdscmp_lt.
Qed.

Lemma Forall_ent (Q : entry -> Prop) T : Forall (fun y => Q (ent y)) T <-> Forall Q (ent <$> T).
Proof. symmetry. apply Forall_fmap. Qed.

Lemma sorted_towers T : sorted (ent <$> T) <->
  StronglySorted (fun a b => elt (ent a) (ent b)) T /\ Forall (fun y => number (ent y)) T.
Proof.
  unfold sorted. rewrite Forall_fmap. apply and_iff_compat_r. induction T as [|y T IH]; [|rewrite fmap_cons].
  - split; constructor.
  - split; intros H; apply StronglySorted_inv in H as [H1 H2]; constructor; try (by apply IH);
      [by apply (Forall_ent (elt (ent y)))|by apply (Forall_ent (elt (ent y))) in H2].
Qed.

(** Everything below the entry, and everything not below. *)
Lemma cut_before T e : sorted (ent <$> T) -> number e ->
  exists A B, T = A ++ B /\ Forall (fun y => eltb (ent y) e = true) A /\ Forall (fun y => eltb (ent y) e = false) B.
Proof.
  intros [Hs Hn]%sorted_towers He. apply (sorted_cut _ _ _ Hs). intros a b Ha Hb Hab Hbe.
  rewrite Forall_forall in Hn. by apply (elt_trans _ (ent b)); auto.
Qed.

(** ** The list *)

Fixpoint place (e : entry) (L : list entry) : list entry :=
  match L with
  | [] => [e]
  | a :: L' => if eltb a e then a :: place e L' else e :: L
  end.

Definition remove (e : entry) (L : list entry) : list entry := filter (fun a => esame a e = false) L.

(** 1-based; 0 when the entry is not in the list. *)
Definition rank_of (e : entry) (L : list entry) : Z :=
  match list_find (fun a => esame a e = true) L with Some (i, _) => Z.of_nat i + 1 | None => 0 end.

Definition absent (e : entry) (L : list entry) : Prop := Forall (fun a => esame a e = false) L.

Lemma place_cut e A B : Forall (fun a => eltb a e = true) A -> Forall (fun b => eltb b e = false) B ->
  place e (A ++ B) = A ++ e :: B.
Proof.
  intros HA HB. induction HA as [|a A Ha _ IH]; simpl.
  - destruct HB as [|b B Hb _]; simpl; [done|]. by rewrite Hb.
  - by rewrite Ha, IH.
Qed.

Lemma remove_absent e L : absent e L -> remove e L = L.
Proof. intros H. unfold remove. induction H as [|a L Ha _ IH]; [done|]. rewrite filter_cons_True by done. by rewrite IH. Qed.

Lemma remove_middle e A x B : esame x e = true -> absent e (A ++ B) -> remove e (A ++ x :: B) = A ++ B.
Proof.
  intros Hx [HA HB]%Forall_app. unfold remove. rewrite filter_app, filter_cons_False by congruence.
  fold (remove e A) (remove e B). by rewrite !remove_absent.
Qed.

Lemma rank_middle e A x B : esame x e = true -> absent e A -> rank_of e (A ++ x :: B) = Z.of_nat (length A) + 1.
Proof.
  intros Hx HA. unfold rank_of.
  assert (list_find (fun a => esame a e = true) A = None) as EA.
  { apply list_find_None. eapply Forall_impl; [exact HA|]. simpl. congruence. }
  rewrite list_find_app_r by done. simpl. by rewrite decide_True by done.
Qed.

Lemma rank_absent e L : absent e L -> rank_of e L = 0.
Proof.
  intros H. unfold rank_of. replace (list_find _ L) with (@None (nat * entry)); [done|]. symmetry.
  apply list_find_None. eapply Forall_impl; [exact H|]. simpl. congruence.
Qed.

Lemma SS_app {X} (R : X -> X -> Prop) A B : StronglySorted R (A ++ B) <->
  StronglySorted R A /\ StronglySorted R B /\ Forall (fun a => Forall (R a) B) A.
Proof.
  induction A as [|a A IH]; simpl.
  - split; [intros H; split_and!; [constructor|done|constructor]|by intros (_ & ? & _)].
  - split.
    + intros [H1 H2]%StronglySorted_inv. apply IH in H1 as (? & ? & ?). apply Forall_app in H2 as [? ?].
      split_and!; [by constructor|done|by constructor].
    + intros (H1 & H2 & H3). apply StronglySorted_inv in H1 as [? ?]. apply Forall_cons_1 in H3 as [? ?].
      constructor; [by apply IH|]. by apply Forall_app.
Qed.

Lemma sorted_app A B : sorted (A ++ B) <-> sorted A /\ sorted B /\ Forall (fun a => Forall (elt a) B) A.
Proof. unfold sorted. rewrite SS_app, Forall_app. tauto. Qed.

Lemma sorted_cons x L : sorted (x :: L) <-> number x /\ Forall (elt x) L /\ sorted L.
Proof.
  unfold sorted. rewrite Forall_cons. split.
  - intros [[? ?]%StronglySorted_inv ?]. tauto.
  - intros (? & ? & ? & ?). split; [by constructor|done].
Qed.

Lemma sorted_middle A x B : sorted (A ++ x :: B) <->
  sorted (A ++ B) /\ number x /\ Forall (fun a => elt a x) A /\ Forall (elt x) B.
Proof.
  rewrite !sorted_app, sorted_cons. split.
  - intros (HA & (Hx & HxB & HB) & HAB). split_and!; try done; (eapply Forall_impl; [exact HAB|]);
      intros a [? ?]%Forall_cons_1; done.
  - intros ((HA & HB & HAB) & Hx & HAx & HxB). split_and!; try done.
    rewrite Forall_forall in HAB, HAx |- *. intros a Ha. constructor; [by apply HAx|by apply HAB].
Qed.

(** Where an entry is, or would be. *)
Lemma sorted_place_cut e A B : sorted (A ++ B) -> number e ->
  Forall (fun a => eltb a e = true) A -> Forall (fun b => eltb b e = false) B -> absent e B ->
  sorted (A ++ e :: B).
Proof.
  intros Hs He HA HB Hab. apply sorted_middle. split_and!; [done|done|done|].
  apply sorted_app in Hs as (_ & [_ Hn] & _). unfold absent in Hab. rewrite Forall_forall in HB, Hab, Hn |- *.
  intros b Hb. destruct (elt_total b e (Hn b Hb) He) as [H|[H|H]]; [|by rewrite Hab in H|done].
  unfold elt in H. by rewrite HB in H.
Qed.

Lemma cut_absent e A : Forall number A -> number e -> Forall (fun a => eltb a e = true) A -> absent e A.
Proof.
  intros Hn He. unfold absent. rewrite !Forall_forall in *. intros HA a Ha.
  destruct (esame a e) eqn:E; [|done]. exfalso. by apply (elt_irrefl a e (Hn a Ha) He E), HA.
Qed.

Lemma sorted_numbers A B : sorted (A ++ B) -> Forall number A /\ Forall number B.
Proof. intros [_ H]. by apply Forall_app in H. Qed.

Lemma cut_found e A x B : sorted (A ++ x :: B) -> number e ->
  Forall (fun a => eltb a e = true) A -> eltb x e = false ->
  if esame x e then absent e (A ++ B) else absent e (A ++ x :: B).
Proof.
  intros Hs He HA Hx. pose proof (sorted_numbers _ _ Hs) as [HnA HnB].
  apply Forall_cons_1 in HnB as [Hnx HnB]. pose proof (cut_absent e A HnA He HA) as HabA.
  apply sorted_app in Hs as (_ & Hs & _). apply sorted_cons in Hs as (_ & HxB & _).
  assert (forall b, b ∈ B -> number b /\ elt x b) as HB by (intros b Hb; rewrite Forall_forall in HnB, HxB; auto).
  destruct (esame x e) eqn:E; apply Forall_app; (split; [done|]); [|constructor; [done|]];
    apply Forall_forall; intros b Hb; destruct (HB b Hb) as [Hnb Hxb];
    (destruct (esame b e) eqn:Eb; [|done]); exfalso.
  - rewrite esame_key in E, Eb by done. apply (elt_irrefl x b); try done. rewrite esame_key by done.
    destruct E, Eb. split; congruence.
  - destruct (elt_total x e Hnx He) as [H|[H|H]]; [by rewrite H in Hx|congruence|].
    apply (elt_irrefl b b Hnb Hnb); [by rewrite esame_key by done|]. apply (elt_trans b x b); try done.
    unfold elt. by rewrite (proj1 (elt_same b e x Hnb He Hnx Eb)).
Qed.

(** ** Operations on the structure *)

(** Another store that agrees on the towers. *)
Definition with_heap (zsl : zskiplist) (h : gmap Z node) : zskiplist :=
  Zsl (header zsl) (tail zsl) (length_ zsl) (level zsl) h.

Lemma shape_frame zsl T h : shape zsl T -> (forall q, q ∈ t_id <$> hd zsl :: T -> h !! q = heap zsl !! q) ->
  shape (with_heap zsl h) T.
Proof.
  intros [Hn Hids Hh Hlev Htop Hnull Hlen Htail Heles] Hf. split; try done.
  - eapply nodes_ok_frame; [exact Hn|]. intros y Hy. apply Hf. by apply list_elem_of_fmap_2.
  - intros i Hi. destruct (Hnull i Hi) as [s Hs]. exists s. unfold get_lvl, deref in *. simpl.
    rewrite Hf; [done|by left].
Qed.

Lemma insert_spec zsl T score ele lv x : zsl_ok zsl T -> number (score, ele) ->
  (1 <= lv <= ZSKIPLIST_MAXLEVEL)%nat -> heap zsl !! x = None -> absent (score, ele) (ent <$> T) ->
  exists zsl' A B, T = A ++ B /\ zslInsert zsl score ele lv x = Ret (zsl', x) /\
    let T' := A ++ Tower x lv score (Some ele) :: B in
    zsl_ok zsl' T' /\ frame zsl zsl' T' /\ ent <$> T' = place (score, ele) (ent <$> T).
Proof.
  intros [Hsh Hso] Hnum Hlv Hx Hab. destruct (cut_before T (score, ele) Hso Hnum) as (A & B & -> & HA & HB).
  destruct (seek_spec zsl _ _ A B Hsh (before_reads score ele) (cut_pred _ _ _ _ HA HB)) as (ups & Es & Hul & Hups).
  set (xt := Tower x lv score (Some ele)).
  destruct (insert_shape zsl A B xt ele ups Hsh) as (zsl' & Ei & Hsh' & Hfr); try done.
  exists zsl', A, B. split; [done|]. unfold zslInsert. change (isnan score = false) in Hnum. rewrite Hnum, Es. cbn [obind].
  simpl in Ei. split; [done|]. rewrite !fmap_app, fmap_cons in *. apply Forall_app in Hab as [_ Hab].
  assert (ent xt = (score, ele)) as -> by done.
  apply (Forall_ent (fun a => eltb a (score, ele) = true)) in HA.
  apply (Forall_ent (fun a => eltb a (score, ele) = false)) in HB.
  split_and!; [|done|by rewrite place_cut].
  split; [done|]. rewrite fmap_app, fmap_cons. by apply sorted_place_cut.
Qed.

Lemma tower_deref zsl T y : shape zsl T -> y ∈ T ->
  exists n, deref (heap zsl) (t_id y) = Ret n /\ n_score n = t_score y /\ ele_of n = tele y /\
    heap zsl !! t_id y = Some n.
Proof.
  intros Hsh Hy. apply list_elem_of_split in Hy as (P & R & ->).
  destruct (sh_nodes _ _ Hsh (hd zsl :: P) y R eq_refl) as (n & En & He & Hs & _).
  exists n. unfold deref, ele_of, tele. rewrite En, He, Hs. done.
Qed.

(** The search for an entry: the node at hand has it if any node has. *)
Lemma find_spec zsl T score ele : zsl_ok zsl T -> number (score, ele) ->
  exists A B ups, T = A ++ B /\ seek zsl (before score ele) = Ret ups /\
    ups_ok (hd zsl :: A) 0 (level zsl) ups /\ next_of zsl ups = Ret (t_id <$> head B) /\
    match B with
    | [] => absent (score, ele) (ent <$> T)
    | y :: B' =>
        if esame (ent y) (score, ele) then absent (score, ele) (ent <$> A ++ B')
        else absent (score, ele) (ent <$> T)
    end.
Proof.
  intros [Hsh Hso] Hnum. destruct (cut_before T (score, ele) Hso Hnum) as (A & B & -> & HA & HB).
  destruct (seek_spec zsl _ _ A B Hsh (before_reads score ele) (cut_pred _ _ _ _ HA HB)) as (ups & Es & Hul & Hups).
  exists A, B, ups. split_and!; try done; [by apply (next_of_spec zsl A B)|].
  apply (Forall_ent (fun a => eltb a (score, ele) = true)) in HA.
  rewrite fmap_app in Hso. destruct B as [|y B].
  - rewrite app_nil_r. rewrite fmap_nil, app_nil_r in Hso. apply cut_absent; try done. apply Hso.
  - apply Forall_cons_1 in HB as [Hy _]. rewrite fmap_cons in Hso.
    pose proof (cut_found _ _ _ _ Hso Hnum HA Hy) as H. by rewrite !fmap_app, fmap_cons.
Qed.

(** The test on the node the search stops at. *)
Lemma deq_test n y score ele : n_score n = t_score y -> ele_of n = tele y -> number (ent y) -> number (score, ele) ->
  deq score (n_score n) && (sdscmp (ele_of n) ele =? 0) = esame (ent y) (score, ele).
Proof.
  intros -> -> Hy Hn. rewrite sdscmp_eq. unfold esame, ent. simpl. f_equal. apply eq_true_iff_eq.
  by rewrite !deq_key by done.
Qed.

Lemma ok_number zsl T y : zsl_ok zsl T -> y ∈ T -> number (ent y).
Proof. intros [_ [_ H]] Hy. rewrite Forall_forall in H. apply H. by apply list_elem_of_fmap_2. Qed.

Lemma ok_remove zsl zsl' A y B : zsl_ok zsl (A ++ y :: B) -> shape zsl' (A ++ B) -> zsl_ok zsl' (A ++ B).
Proof.
  intros [_ Hso] Hsh. split; [done|]. rewrite fmap_app in *. rewrite fmap_cons in Hso.
  by apply sorted_middle in Hso as [? _].
Qed.

(** Unlinking a tower and releasing its node. *)
Lemma drop_spec zsl A y B ups : zsl_ok zsl (A ++ y :: B) -> ups_ok (hd zsl :: A) 0 (level zsl) ups ->
  exists zsl', zslDeleteNode zsl (t_id y) ups = Ret zsl' /\ zsl_ok zsl' (A ++ B) /\
    frame zsl zsl' (A ++ B) /\ zsl_ok (with_heap zsl' (zslFreeNode (heap zsl') (t_id y))) (A ++ B) /\
    (level zsl' <= level zsl)%nat.
Proof.
  intros Hok Hups. destruct (delete_shape zsl A B y ups (ok_shape _ _ Hok) Hups) as (zsl' & E & Hsh & Hfr & Hle).
  exists zsl'. split; [done|]. assert (zsl_ok zsl' (A ++ B)) as Hok' by (by eapply ok_remove).
  split_and!; [done|done| |done]. split; [|apply Hok']. apply shape_frame; [done|]. intros q Hq.
  apply lookup_delete_ne. intros <-. destruct Hfr as [Eh _].
  apply (proj1 (ids_middle _ _ _ _) (sh_ids _ _ (ok_shape _ _ Hok))). unfold hd in Hq. by rewrite Eh in Hq.
Qed.

Lemma delete_spec zsl T score ele : zsl_ok zsl T -> number (score, ele) ->
  (absent (score, ele) (ent <$> T) /\ zslDelete zsl score ele = Ret (zsl, false)) \/
  exists zsl' A y B, T = A ++ y :: B /\ esame (ent y) (score, ele) = true /\
    absent (score, ele) (ent <$> A ++ B) /\ zslDelete zsl score ele = Ret (zsl', true) /\
    zsl_ok zsl' (A ++ B) /\ header zsl' = header zsl /\ heap zsl' !! t_id y = None /\
    forall q, q ∉ t_id <$> hd zsl :: A ++ y :: B -> heap zsl' !! q = heap zsl !! q.
Proof.
  intros Hok Hnum. destruct (find_spec zsl T score ele Hok Hnum) as (A & B & ups & -> & Es & Hups & En & Hcase).
  unfold zslDelete. rewrite Es. cbn [obind]. rewrite En. cbn [obind]. destruct B as [|y B]; [by left|].
  change (t_id <$> head (y :: B)) with (Some (t_id y)). cbv iota beta.
  assert (y ∈ A ++ y :: B) as Hin by (apply elem_of_app; right; by left).
  destruct (tower_deref zsl _ y (ok_shape _ _ Hok) Hin) as (n & -> & Hs & He & _). cbn [obind].
  rewrite (deq_test n y) by (done || by eapply ok_number). destruct (esame (ent y) (score, ele)) eqn:E; [|by left].
  destruct (drop_spec zsl A y B ups Hok Hups) as (zsl' & -> & _ & Hfr & Hok' & _). cbn [obind]. right.
  do 4 eexists. split; [done|]. split_and!; [done|done|done|exact Hok'|apply Hfr|apply lookup_delete_eq|].
  intros q Hq. apply notin_insert in Hq as (H1 & H2 & H3). cbn [heap]. unfold zslFreeNode. rewrite lookup_delete_ne by done.
  apply Hfr. change (hd zsl :: A ++ B) with ((hd zsl :: A) ++ B). rewrite fmap_app, elem_of_app. tauto.
Qed.

(** ** Changing a score in place *)

Definition rescore (x : Z) (s : double) (y : tower) : tower :=
  if decide (t_id y = x) then Tower (t_id y) (t_height y) s (t_ele y) else y.

Lemma rescore_id x s y : t_id (rescore x s y) = t_id y /\ t_height (rescore x s y) = t_height y /\
  t_ele (rescore x s y) = t_ele y.
Proof. unfold rescore. by case_decide. Qed.

Lemma rescore_ids x s (T : list tower) : t_id <$> (rescore x s <$> T) = t_id <$> T.
Proof. rewrite <- list_fmap_compose. apply list_fmap_ext. intros ? y _. apply (rescore_id x s y). Qed.

Lemma rescore_last x s (T : list tower) : t_id <$> last (rescore x s <$> T) = t_id <$> last T.
Proof. rewrite fmap_last. destruct (last T) as [y|]; [|done]. simpl. by rewrite (proj1 (rescore_id x s y)). Qed.

Lemma rescore_bk x s (P : list tower) : bk (rescore x s <$> P) = bk P.
Proof.
  destruct P as [|p [|q P]]; try done. change (t_id <$> last (rescore x s <$> p :: q :: P) = t_id <$> last (p :: q :: P)).
  apply rescore_last.
Qed.

Lemma rescore_link x s i R : link i (rescore x s <$> R) = link i R.
Proof.
  induction R as [|y R IH]; [done|]. rewrite fmap_cons. cbn [link].
  destruct (rescore_id x s y) as (-> & -> & _). by rewrite IH.
Qed.

Lemma rescore_heights x s T (Q : nat -> Prop) : Forall (fun y => Q (t_height y)) (rescore x s <$> T) <->
  Forall (fun y => Q (t_height y)) T.
Proof.
  rewrite Forall_fmap. split; intros H; (eapply Forall_impl; [exact H|]); intros y; simpl;
    destruct (rescore_id x s y) as (_ & -> & _); done.
Qed.

Lemma rescore_node h lim x s y b lk h' : holds h lim y b lk -> set_score h x s = Ret h' ->
  holds h' lim (rescore x s y) b lk.
Proof.
  intros (n & En & He & Hs & Hb & Hl & Hk) Eset. unfold set_score, deref in Eset.
  destruct (h !! x) as [m|] eqn:Em; [|done]. cbn [obind] in Eset. injection Eset as <-.
  unfold rescore. case_decide as Ey.
  - rewrite Ey in En. assert (m = n) as -> by congruence. eexists. simpl. rewrite Ey, lookup_insert_eq.
    by split_and!.
  - exists n. rewrite lookup_insert_ne by done. by split_and!.
Qed.

Lemma rescore_shape zsl T x s h' : shape zsl T -> x <> header zsl -> set_score (heap zsl) x s = Ret h' ->
  shape (with_heap zsl h') (rescore x s <$> T).
Proof.
  intros [Hn Hids Hh Hlev Htop Hnull Hlen Htail Heles] Hx Eset.
  assert (hd zsl :: (rescore x s <$> T) = rescore x s <$> hd zsl :: T) as Ehd.
  { rewrite fmap_cons. f_equal. unfold rescore. by rewrite decide_False by done. }
  split; cbn [header heap level length_ tail with_heap]; try done.
  - intros P y R E. change (hd (with_heap zsl h')) with (hd zsl) in E. rewrite Ehd in E. apply fmap_app_inv in E as (P0 & F0 & -> & E & EF).
    symmetry in E. apply fmap_cons_inv in E as (y0 & R0 & -> & -> & ->).
    simpl app. rewrite rescore_bk, app_nil_r.
    eapply holds_ext; [eapply rescore_node; [by apply (Hn P0 y0 R0)|done]|done|].
    intros i _ _. by rewrite app_nil_r, rescore_link.
  - change (hd (with_heap zsl h')) with (hd zsl). by rewrite Ehd, rescore_ids.
  - by apply (rescore_heights x s T (fun k => (1 <= k <= level zsl)%nat)).
  - destruct Htop as [?|Htop]; [by left|]. right. apply Exists_fmap. eapply Exists_impl; [exact Htop|].
    intros y Hy. simpl. by rewrite (proj1 (proj2 (rescore_id x s y))).
  - intros i Hi. destruct (Hnull i Hi) as [sp Hs]. exists sp. rewrite <- Hs. unfold set_score in Eset.
    destruct (deref (heap zsl) x); [done|]. cbn [obind] in Eset. injection Eset as <-.
    unfold get_lvl, deref. by rewrite lookup_insert_ne.
  - by rewrite length_fmap.
  - by rewrite rescore_last.
  - apply Forall_fmap. eapply Forall_impl; [exact Heles|]. intros y Hy. simpl.
    by rewrite (proj2 (proj2 (rescore_id x s y))).
Qed.

Lemma rescore_middle x s A y B : NoDup (t_id <$> A ++ y :: B) -> t_id y = x ->
  rescore x s <$> A ++ y :: B = A ++ Tower x (t_height y) s (t_ele y) :: B.
Proof.
  intros Hnd Ey. assert (forall F : list tower, (forall z, z ∈ F -> t_id z <> x) -> rescore x s <$> F = F) as Hsame.
  { intros F HF. rewrite <- (list_fmap_id F) at 2. apply list_fmap_ext. intros i z Hz.
    apply list_elem_of_lookup_2 in Hz. unfold rescore. rewrite decide_False by (by apply HF). done. }
  rewrite fmap_app, fmap_cons. rewrite fmap_app, fmap_cons in Hnd. apply NoDup_app in Hnd as (_ & HAB & [Hy _]%NoDup_cons).
  rewrite !Hsame.
  - unfold rescore. by rewrite decide_True, Ey.
  - intros z Hz E. apply Hy. rewrite Ey, <- E. by apply list_elem_of_fmap_2.
  - intros z Hz E. apply (HAB (t_id z)); [by apply list_elem_of_fmap_2|]. rewrite E, <- Ey. by left.
Qed.

(** The test of [zslUpdateScore] looks at the two neighbours. *)
Lemma stays_spec zsl A y B n new : shape zsl (A ++ y :: B) -> heap zsl !! t_id y = Some n ->
  stays (heap zsl) n new = Ret
    (match last A with None => true | Some a => dlt (t_score a) new end &&
     match B with [] => true | b :: _ => dlt new (t_score b) end).
Proof.
  intros Hsh En. unfold stays.
  destruct (sh_nodes _ _ Hsh (hd zsl :: A) y B eq_refl) as (n' & En' & _ & _ & Hb & _ & Hl).
  assert (n' = n) as -> by congruence. simpl app in Hb. rewrite Hb, bk_tail.
  pose proof (sh_heights _ _ Hsh) as Hh. pose proof (sh_level _ _ Hsh).
  apply Forall_app in Hh as [_ [Hy HhB]%Forall_cons_1].
  assert (lvl n 0 = Ret (link 0 B)) as Elv by (unfold lvl; rewrite Hl by lia; by rewrite app_nil_r).
  assert ((let* (f, _) := lvl n 0 in
           match f with
           | Some f => let* fn := deref (heap zsl) f in Ret (dlt new (n_score fn))
           | None => Ret true
           end) = Ret (match B with [] => true | b :: _ => dlt new (t_score b) end)) as Hnext.
  { rewrite Elv. destruct B as [|b B]; [done|]. apply Forall_cons_1 in HhB as [Hhb _]. cbn [link].
    destruct (Nat.ltb_spec 0 (t_height b)); [|lia]. cbn [obind].
    destruct (tower_deref zsl _ b Hsh) as (m & -> & Hs & _); [|cbn [obind]; by rewrite Hs].
    apply elem_of_app. right. right. by left. }
  destruct (last A) as [a|] eqn:Ela; [|exact Hnext].
  destruct (tower_deref zsl _ a Hsh) as (m & Em & Hs & _).
  { apply elem_of_app. left. apply last_Some in Ela as [A' ->]. apply elem_of_app. right. by left. }
  cbn [fmap option_fmap option_map]. rewrite Em. cbn [obind]. rewrite Hs.
  destruct (dlt (t_score a) new); [exact Hnext|done].
Qed.

(** A score between those of the neighbours keeps the order. *)
Lemma sorted_stay A x x' B : sorted (A ++ x :: B) -> number x' ->
  match last A with None => True | Some a => elt a x' end ->
  match B with [] => True | b :: _ => elt x' b end -> sorted (A ++ x' :: B).
Proof.
  intros Hs Hn Ha Hb. pose proof (sorted_numbers _ _ Hs) as [HnA [_ HnB]%Forall_cons_1].
  apply sorted_middle in Hs as (Hs & _). apply sorted_middle. split_and!; [done|done| |].
  - destruct (last A) as [a|] eqn:Ela; [|by apply last_None in Ela; subst].
    apply last_Some in Ela as [A' ->]. apply Forall_app in HnA as [HnA' [Hna _]%Forall_cons_1].
    apply sorted_app in Hs as (Hs & _). apply sorted_app in Hs as (_ & _ & HA').
    apply Forall_app. split; [|by constructor]. rewrite Forall_forall in HA', HnA' |- *. intros c Hc.
    pose proof (HA' c Hc) as [Hca _]%Forall_cons_1. by apply (elt_trans c a x'); auto.
  - destruct B as [|b B]; [done|]. apply Forall_cons_1 in HnB as [Hnb HnB].
    apply sorted_app in Hs as (_ & Hs & _). apply sorted_cons in Hs as (_ & Hb' & _).
    constructor; [done|]. rewrite Forall_forall in Hb', HnB |- *. intros c Hc. apply (elt_trans x' b c); auto.
Qed.

Lemma place_sorted A x B : sorted (A ++ x :: B) -> place x (A ++ B) = A ++ x :: B.
Proof.
  intros Hs. pose proof (sorted_numbers _ _ Hs) as [_ [Hnx HnB]%Forall_cons_1].
  apply sorted_middle in Hs as (_ & _ & HA & HB). apply place_cut; [done|].
  rewrite Forall_forall in HB, HnB |- *. intros b Hb. destruct (eltb b x) eqn:E; [|done]. exfalso.
  by apply (elt_asym x b Hnx (HnB b Hb) (HB b Hb)).
Qed.

Lemma dlt_elt a b : dlt (fst a) (fst b) = true -> elt a b.
Proof. intros H. unfold elt, eltb. by rewrite H. Qed.

Lemma stay_spec zsl A y B new : zsl_ok zsl (A ++ y :: B) -> number (new, tele y) ->
  match last A with None => true | Some a => dlt (t_score a) new end = true ->
  match B with [] => true | b :: _ => dlt new (t_score b) end = true ->
  exists h, set_score (heap zsl) (t_id y) new = Ret h /\
    zsl_ok (with_heap zsl h) (A ++ Tower (t_id y) (t_height y) new (t_ele y) :: B) /\
    forall q, q <> t_id y -> h !! q = heap zsl !! q.
Proof.
  intros [Hsh Hso] Hn Ha Hb. pose proof (sh_ids _ _ Hsh) as Hids. rewrite fmap_cons in Hids.
  apply NoDup_cons in Hids as [Hhd Hids].
  destruct (tower_deref zsl _ y Hsh) as (n & Ed & Hs & He & En); [apply elem_of_app; right; by left|].
  assert (exists h, set_score (heap zsl) (t_id y) new = Ret h) as [h Eh] by (unfold set_score; rewrite Ed; by eexists).
  exists h. split; [done|]. split; [split|].
  - rewrite <- (rescore_middle _ new A y B Hids eq_refl). apply rescore_shape; [done| |done].
    intros E. apply Hhd. simpl. rewrite <- E, fmap_app, elem_of_app. right. by left.
  - rewrite fmap_app, fmap_cons in *. eapply sorted_stay; [exact Hso|exact Hn| |].
    + rewrite fmap_last. destruct (last A) as [a|]; [|done]. by apply dlt_elt.
    + destruct B as [|b B]; [done|]. rewrite fmap_cons. by apply dlt_elt.
  - intros q Hq. unfold set_score in Eh. rewrite Ed in Eh. cbn [obind] in Eh. injection Eh as <-.
    by apply lookup_insert_ne.
Qed.

(** A well-formed skip list without stray nodes. *)
Definition zsl_inv (zsl : zskiplist) (T : list tower) : Prop := zsl_ok zsl T /\ no_leak zsl T.

Lemma no_leak_frame zsl zsl' T T' : no_leak zsl T -> header zsl' = header zsl ->
  (forall q, q ∉ t_id <$> hd zsl :: T' -> heap zsl' !! q = heap zsl !! q \/ heap zsl' !! q = None) ->
  (forall y, y ∈ T -> y ∈ T' \/ heap zsl' !! t_id y = None \/ t_id y ∈ t_id <$> T') -> no_leak zsl' T'.
Proof.
  intros Hl Eh Hfr Hin q Hq. unfold hd in Hq. rewrite Eh in Hq. fold (hd zsl) in Hq.
  destruct (Hfr q Hq) as [E|]; [|done].
  rewrite fmap_cons, elem_of_cons in Hq. apply Decidable.not_or in Hq as [Hqh Hq].
  destruct (decide (q ∈ t_id <$> T)) as [Hq'|Hn].
  - apply list_elem_of_fmap in Hq' as (y & -> & Hy). destruct (Hin y Hy) as [H|[H|H]]; [|done|done].
    exfalso. apply Hq. by apply list_elem_of_fmap_2.
  - rewrite E. apply Hl. rewrite fmap_cons, elem_of_cons. by intros [?|?].
Qed.

(** The node is taken out and another one put in for it. *)
Lemma move_spec zsl A y B ups new lv p : zsl_inv zsl (A ++ y :: B) -> ups_ok (hd zsl :: A) 0 (level zsl) ups ->
  number (new, tele y) -> absent (new, tele y) (ent <$> A ++ B) -> (1 <= lv <= ZSKIPLIST_MAXLEVEL)%nat ->
  heap zsl !! p = None ->
  exists zsl1 zsl2 T', zslDeleteNode zsl (t_id y) ups = Ret zsl1 /\
    zslInsert zsl1 new (tele y) lv p = Ret (zsl2, p) /\
    zsl_inv (with_heap zsl2 (zslFreeNode (heap zsl2) (t_id y))) T' /\ header zsl2 = header zsl /\
    ent <$> T' = place (new, tele y) (ent <$> A ++ B) /\
    exists A' B', T' = A' ++ Tower p lv new (Some (tele y)) :: B' /\ A' ++ B' = A ++ B.
Proof.
  intros [Hok Hleak] Hups Hnew Habs Hlv Hp.
  destruct (drop_spec zsl A y B ups Hok Hups) as (zsl1 & E1 & Hok1 & [Eh1 Hfr1] & _).
  pose proof (sh_ids _ _ (ok_shape _ _ Hok)) as Hids. apply ids_middle in Hids as [_ Hy].
  assert (forall q, heap zsl !! q = None -> q ∉ t_id <$> hd zsl :: A ++ y :: B) as Hnode.
  { intros q Hq (z & -> & Hz)%list_elem_of_fmap.
    destruct (nodes_in _ _ _ _ _ z (sh_nodes _ _ (ok_shape _ _ Hok)) Hz) as [m Hm]. congruence. }
  assert (forall q, q ∉ t_id <$> hd zsl :: A ++ y :: B -> q ∉ t_id <$> hd zsl :: A ++ B) as Hsub.
  { intros q Hq Hq'. apply Hq. change (hd zsl :: A ++ B) with ((hd zsl :: A) ++ B) in Hq'.
    change (hd zsl :: A ++ y :: B) with ((hd zsl :: A) ++ y :: B). rewrite fmap_app in *.
    apply elem_of_app in Hq' as [?|?]; apply elem_of_app; [by left|]. right. by right. }
  destruct (insert_spec zsl1 (A ++ B) new (tele y) lv p Hok1 Hnew Hlv) as (zsl2 & A' & B' & EAB & E2 & Hok2 & [Eh2 Hfr2] & Een);
    [by rewrite Hfr1 by (by apply Hsub, Hnode)|done|].
  assert (hd zsl1 = hd zsl) as Ehd1 by (unfold hd; by rewrite Eh1). rewrite Ehd1 in Hfr2.
  exists zsl1, zsl2. eexists. split; [done|]. split; [done|].
  assert (t_id y <> p) as Hyp.
  { intros Ep. apply (Hnode p Hp). rewrite <- Ep. apply list_elem_of_fmap_2. right. apply elem_of_app. right. by left. }
  split_and!; [split|congruence|done|by exists A', B'].
  - split; [|apply Hok2]. apply shape_frame; [apply Hok2|]. intros q Hq. apply lookup_delete_ne. intros <-.
    assert (hd zsl2 = hd zsl) as Ehd2 by (unfold hd; congruence). rewrite Ehd2 in Hq.
    revert Hq. apply notin_insert. rewrite EAB in Hy. change (hd zsl :: A' ++ B') with ((hd zsl :: A') ++ B') in Hy.
    rewrite fmap_app, elem_of_app in Hy. tauto.
  - intros q Hq. change (hd (with_heap zsl2 (zslFreeNode (heap zsl2) (t_id y)))) with (hd zsl2) in Hq.
    assert (hd zsl2 = hd zsl) as Ehd2 by (unfold hd; congruence). rewrite Ehd2 in Hq.
    unfold with_heap, zslFreeNode. cbn [heap]. destruct (decide (q = t_id y)) as [->|Hqy]; [apply lookup_delete_eq|].
    rewrite lookup_delete_ne, Hfr2 by done. apply notin_insert in Hq as (H1 & H2 & H3).
    assert (q ∉ t_id <$> hd zsl :: A ++ B) as Hq.
    { rewrite EAB. change (hd zsl :: A' ++ B') with ((hd zsl :: A') ++ B'). rewrite fmap_app, elem_of_app. tauto. }
    rewrite Hfr1 by done. apply Hleak. apply notin_insert.
    change (hd zsl :: A ++ B) with ((hd zsl :: A) ++ B) in Hq. rewrite fmap_app, elem_of_app in Hq. tauto.
Qed.

Lemma update_spec zsl T cur ele new lv p : zsl_inv zsl T -> number (cur, ele) -> number (new, ele) ->
  ~ absent (cur, ele) (ent <$> T) -> absent (new, ele) (remove (cur, ele) (ent <$> T)) ->
  (1 <= lv <= ZSKIPLIST_MAXLEVEL)%nat -> heap zsl !! p = None ->
  exists zsl' T' q, zslUpdateScore zsl cur ele new lv p = Ret (zsl', q) /\ zsl_inv zsl' T' /\
    header zsl' = header zsl /\ ent <$> T' = place (new, ele) (remove (cur, ele) (ent <$> T)) /\
    exists A y B A' y' B', T = A ++ y :: B /\ esame (ent y) (cur, ele) = true /\ T' = A' ++ y' :: B' /\
      A' ++ B' = A ++ B /\ t_id y' = q /\ ent y' = (new, ele).
Proof.
  intros [Hok Hleak] Hcur Hnew Hin Habs Hlv Hp.
  destruct (find_spec zsl T cur ele Hok Hcur) as (A & B & ups & -> & Es & Hups & En & Hcase).
  destruct B as [|y B]; [done|]. destruct (esame (ent y) (cur, ele)) eqn:E; [|done].
  unfold zslUpdateScore. rewrite Es. cbn [obind]. rewrite En.
  change (t_id <$> head (y :: B)) with (Some (t_id y)). cbn [obind].
  assert (y ∈ A ++ y :: B) as Hy by (apply elem_of_app; right; by left).
  destruct (tower_deref zsl _ y (ok_shape _ _ Hok) Hy) as (n & -> & Hs & He & Hn). cbn [obind].
  rewrite (deq_test n y) by (done || by eapply ok_number). rewrite E. cbn [negb].
  assert (tele y = ele) as Ey by (unfold esame in E; apply andb_true_iff in E as [_ E]; by apply bool_decide_eq_true in E).
  rewrite (stays_spec zsl A y B n new (ok_shape _ _ Hok) Hn). cbn [obind].
  assert (remove (cur, ele) (ent <$> A ++ y :: B) = ent <$> A ++ B) as Erem.
  { rewrite !fmap_app, fmap_cons in *. by apply remove_middle. }
  rewrite Erem in Habs |- *. destruct (_ && _) eqn:Est.
  - apply andb_true_iff in Est as [Ha Hb]. rewrite <- Ey in Hnew.
    destruct (stay_spec zsl A y B new Hok Hnew Ha Hb) as (h & -> & Hok' & Hfr). cbn [obind].
    exists (with_heap zsl h). do 2 eexists. split; [done|]. split; [split; [exact Hok'|]|].
    + eapply no_leak_frame; [exact Hleak|done| |].
      * intros q Hq. left. apply Hfr. intros ->. apply Hq. rewrite fmap_cons, fmap_app, fmap_cons.
        right. apply elem_of_app. right. by left.
      * intros z Hz. right. right. rewrite fmap_app, fmap_cons in *. apply (list_elem_of_fmap_2 t_id) in Hz.
        by rewrite fmap_app, fmap_cons in Hz.
    + split; [done|]. assert (ent (Tower (t_id y) (t_height y) new (t_ele y)) = (new, ele)) as Ee by (by rewrite <- Ey).
      split; [|by exists A, y, B, A, (Tower (t_id y) (t_height y) new (t_ele y)), B].
      destruct Hok' as [_ Hso]. rewrite !fmap_app, fmap_cons, Ee in *. by rewrite place_sorted.
  - rewrite <- Ey in Habs, Hnew.
    destruct (move_spec zsl A y B ups new lv p) as (zsl1 & zsl2 & T' & -> & E2 & Hinv & Eh & Een & A' & B' & ET & EAB); try done.
    cbn [obind]. rewrite He, E2. cbn [obind]. do 3 eexists. split; [done|]. split; [exact Hinv|].
    rewrite <- Ey in E |- *. split_and!; [done|done|].
    by exists A, y, B, A', (Tower p lv new (Some (tele y))), B'.
Qed.

(** ** Ranks *)

(** The part of the walk's result the loops below go on from. *)
Lemma walk_step cond condT h lim i B fuel pre R x r0 : reads cond condT -> (i < lim)%nat ->
  nodes_ok h lim pre (x :: R ++ B) [] -> (i < t_height x)%nat -> cut condT r0 R B -> (length R <= fuel)%nat ->
  exists P x' R', x :: R = P ++ x' :: R' /\ (i < t_height x')%nat /\ Forall (low i) R' /\
    walk cond fuel h i (t_id x) r0 = Ret (t_id x', r0 + Z.of_nat (length P)) /\
    nodes_ok h lim (pre ++ P) (x' :: R' ++ B) [] /\ cut condT (r0 + Z.of_nat (length P)) R' B /\
    (length R' <= fuel)%nat.
Proof.
  intros Hr Hlim Hok Hx Hcut Hf.
  destruct (walk_spec cond condT h lim i B Hr Hlim fuel pre R x r0 Hok Hx Hcut Hf) as (P & x' & R' & E & Hx' & Hl & Hw).
  exists P, x', R'. split_and!; try done.
  - change (x :: R ++ B) with ((x :: R) ++ B) in Hok. rewrite E, <- app_assoc in Hok.
    by apply nodes_ok_app in Hok as [_ ?].
  - destruct P as [|p P]; simpl in E; injection E as -> ->; [by rewrite Z.add_0_r|].
    apply cut_shift in Hcut. simpl length.
    by replace (r0 + Z.of_nat (S (length P))) with (r0 + Z.of_nat (length P) + 1) by lia.
  - apply (f_equal length) in E. rewrite length_app in E. simpl in E. lia.
Qed.

(** [x->ele && x->score == score && sdscmp(x->ele,ele) == 0] *)
Definition hit (score : double) (ele : list Z) (y : tower) : bool :=
  match t_ele y with Some e => deq (t_score y) score && (sdscmp e ele =? 0) | None => false end.

Lemma upto_reads score ele : reads (upto score ele)
  (fun _ y => dlt (t_score y) score || deq (t_score y) score && (sdscmp (tele y) ele <=? 0)).
Proof. intros k n y He Hs. unfold upto, ele_of, tele. by rewrite He, Hs. Qed.

Lemma deref_tower h lim pre F suf P y R : nodes_ok h lim pre F suf -> F = P ++ y :: R ->
  exists n, deref h (t_id y) = Ret n /\ n_ele n = t_ele y /\ n_score n = t_score y.
Proof.
  intros Hok E. destruct (holds_deref _ _ _ _ _ (Hok P y R E)) as (n & ? & ? & ? & _). by exists n.
Qed.

(** Nothing on the way matches. *)
Lemma rank_loop_miss score ele h lim B : forall n fuel pre R x r0, let cond := upto score ele in
  nodes_ok h lim pre (x :: R ++ B) [] -> (n <= t_height x)%nat -> (n <= lim)%nat ->
  cut (fun _ y => dlt (t_score y) score || deq (t_score y) score && (sdscmp (tele y) ele <=? 0)) r0 R B ->
  (length R <= fuel)%nat -> Forall (fun y => hit score ele y = false) (x :: R) ->
  rank_loop fuel h score ele n (t_id x) r0 = Ret 0.
Proof.
  induction n as [|i IH]; intros fuel pre R x r0 cond Hok Hx Hlim Hcut Hf Hmiss; cbn [rank_loop]; [done|].
  destruct (walk_step _ _ h lim i B fuel pre R x r0 (upto_reads score ele) ltac:(lia) Hok ltac:(lia) Hcut Hf)
    as (P & x' & R' & E & Hx' & _ & -> & Hok' & Hcut' & Hf'). cbn [obind].
  destruct (deref_tower _ _ _ _ _ [] x' (R' ++ B) Hok' eq_refl) as (n & -> & He & Hs). cbn [obind].
  rewrite E in Hmiss. apply Forall_app in Hmiss as [_ Hmiss]. pose proof (Forall_cons_1 _ _ _ Hmiss) as [Hm _].
  unfold hit in Hm. rewrite He, Hs, Hm. eapply IH; try done; lia.
Qed.

(** Either the walk has come to the last tower, or the last one is still ahead. *)
Lemma walk_last (P R' Q : list tower) x' y : P ++ x' :: R' = Q ++ [y] ->
  (R' = [] /\ Q = P /\ y = x') \/ exists R2, R' = R2 ++ [y] /\ Q = P ++ x' :: R2.
Proof.
  intros E. destruct R' as [|r R'] using rev_ind.
  - left. by apply app_inj_tail in E as [-> ->].
  - right. exists R'. rewrite app_comm_cons, app_assoc in E. by apply app_inj_tail in E as [<- ->].
Qed.

(** The last tower passed matches. *)
Lemma rank_loop_hit score ele h lim B : forall n fuel pre R x r0 Q y,
  nodes_ok h lim pre (x :: R ++ B) [] -> (1 <= n <= t_height x)%nat -> (n <= lim)%nat ->
  cut (fun _ y => dlt (t_score y) score || deq (t_score y) score && (sdscmp (tele y) ele <=? 0)) r0 R B ->
  (length R <= fuel)%nat -> x :: R = Q ++ [y] -> hit score ele y = true -> (1 <= t_height y)%nat ->
  Forall (fun y => hit score ele y = false) Q ->
  rank_loop fuel h score ele n (t_id x) r0 = Ret (r0 + Z.of_nat (length Q)).
Proof.
  induction n as [|i IH]; intros fuel pre R x r0 Q y Hok Hx Hlim Hcut Hf EQ Hhit Hh Hmiss; [lia|]. cbn [rank_loop].
  destruct (walk_step _ _ h lim i B fuel pre R x r0 (upto_reads score ele) ltac:(lia) Hok ltac:(lia) Hcut Hf)
    as (P & x' & R' & E & Hx' & Hlow & -> & Hok' & Hcut' & Hf'). cbn [obind].
  destruct (deref_tower _ _ _ _ _ [] x' (R' ++ B) Hok' eq_refl) as (n & -> & He & Hs). cbn [obind].
  rewrite He, Hs. fold (hit score ele x'). rewrite EQ in E. symmetry in E.
  destruct (walk_last P R' Q x' y E) as [(-> & -> & ->)|(R2 & -> & ->)]; [by rewrite Hhit|].
  apply Forall_app in Hmiss as [_ Hmiss]. pose proof (Forall_cons_1 _ _ _ Hmiss) as [Hm _]. rewrite Hm.
  apply Forall_app in Hlow as [_ [Hy _]%Forall_cons_1]. unfold low in Hy.
  rewrite (IH fuel (pre ++ P) (R2 ++ [y]) x' _ (x' :: R2) y); try done; try lia.
  f_equal. rewrite length_app. lia.
Qed.

(** The same for ranks: the tower at the distance asked for is the last one passed. *)
Lemma by_rank_hit h lim B rank : forall n fuel pre R x r0 Q y,
  nodes_ok h lim pre (x :: R ++ B) [] -> (1 <= n <= t_height x)%nat -> (n <= lim)%nat ->
  cut (fun t _ => t <=? rank) r0 R B -> (length R <= fuel)%nat -> x :: R = Q ++ [y] ->
  r0 + Z.of_nat (length Q) = rank -> (1 <= t_height y)%nat ->
  by_rank_loop fuel h rank n (t_id x) r0 = Ret (Some (t_id y)).
Proof.
  induction n as [|i IH]; intros fuel pre R x r0 Q y Hok Hx Hlim Hcut Hf EQ Hr Hh; [lia|]. cbn [by_rank_loop].
  destruct (walk_step (fun t _ => t <=? rank) (fun t _ => t <=? rank) h lim i B fuel pre R x r0 ltac:(done) ltac:(lia) Hok ltac:(lia) Hcut Hf)
    as (P & x' & R' & E & Hx' & Hlow & -> & Hok' & Hcut' & Hf'). cbn [obind]. rewrite EQ in E. symmetry in E.
  destruct (walk_last P R' Q x' y E) as [(-> & -> & ->)|(R2 & -> & ->)].
  - by rewrite Hr, Z.eqb_refl.
  - rewrite length_app in Hr. simpl in Hr. destruct (Z.eqb_spec (r0 + Z.of_nat (length P)) rank); [lia|].
    apply Forall_app in Hlow as [_ [Hy _]%Forall_cons_1]. unfold low in Hy.
    apply (IH fuel (pre ++ P) (R2 ++ [y]) x' _ (x' :: R2) y); try done; simpl; lia.
Qed.

Lemma by_rank_miss h lim rank : forall n fuel pre R x r0,
  nodes_ok h lim pre (x :: R) [] -> (n <= t_height x)%nat -> (n <= lim)%nat ->
  (length R <= fuel)%nat -> r0 + Z.of_nat (length R) < rank ->
  by_rank_loop fuel h rank n (t_id x) r0 = Ret None.
Proof.
  induction n as [|i IH]; intros fuel pre R x r0 Hok Hx Hlim Hf Hr; [done|]. cbn [by_rank_loop].
  rewrite <- (app_nil_r R) in Hok.
  destruct (walk_step (fun t _ => t <=? rank) (fun t _ => t <=? rank) h lim i [] fuel pre R x r0 ltac:(done) ltac:(lia) Hok ltac:(lia))
    as (P & x' & R' & E & Hx' & Hlow & -> & Hok' & _ & Hf'); [|done|].
  { split; intros P y F E; [|by destruct P]. apply Z.leb_le. apply (f_equal length) in E.
    rewrite length_app in E. simpl in E. lia. }
  cbn [obind]. apply (f_equal length) in E. rewrite length_app in E. simpl in E.
  destruct (Z.eqb_spec (r0 + Z.of_nat (length P)) rank); [lia|]. rewrite app_nil_r in Hok'.
  apply (IH fuel (pre ++ P) R' x'); try done; lia.
Qed.

Lemma upto_key y score ele : number (ent y) -> number (score, ele) ->
  dlt (t_score y) score || deq (t_score y) score && (sdscmp (tele y) ele <=? 0) = true <->
  elt (ent y) (score, ele) \/ esame (ent y) (score, ele) = true.
Proof.
  intros Hy He. rewrite elt_key, esame_key by done. rewrite orb_true_iff, andb_true_iff, dlt_key, deq_key by done.
  rewrite sdscmp_le, (lex_antisym (tele y) ele). simpl. pose proof (StrObj.lex_eq (tele y) ele) as Heq.
  destruct (StrObj.lex (tele y) ele); simpl; intuition congruence.
Qed.

Lemma hit_same zsl T y score ele : zsl_ok zsl T -> y ∈ T -> hit score ele y = esame (ent y) (score, ele).
Proof.
  intros Hok Hy. pose proof (sh_eles _ _ (ok_shape _ _ Hok)) as He. rewrite Forall_forall in He.
  destruct (He y Hy) as [e Ee]. unfold hit, esame, ent, tele. rewrite Ee. simpl. by rewrite sdscmp_eq.
Qed.

(** Everything up to the entry; the entry itself comes last. *)
Lemma cut_upto T score ele : sorted (ent <$> T) -> number (score, ele) ->
  exists A B, T = A ++ B /\
    (forall r0, cut (fun _ y => dlt (t_score y) score || deq (t_score y) score && (sdscmp (tele y) ele <=? 0)) r0 A B) /\
    absent (score, ele) (ent <$> B) /\
    (absent (score, ele) (ent <$> A) \/
     exists A' y, A = A' ++ [y] /\ esame (ent y) (score, ele) = true /\ absent (score, ele) (ent <$> A')).
Proof.
  intros Hso He. pose proof Hso as [Hs Hn]%sorted_towers. rewrite Forall_forall in Hn.
  destruct (sorted_cut _ (fun y => dlt (t_score y) score || deq (t_score y) score && (sdscmp (tele y) ele <=? 0)) T Hs)
    as (A & B & -> & HA & HB).
  { intros a b Ha Hb Hab. rewrite !upto_key by auto. intros [H|H]; left.
    - by apply (elt_trans _ (ent b)); auto.
    - unfold elt. by rewrite <- (proj2 (elt_same _ _ (ent a) (Hn b Hb) He (Hn a Ha) H)). }
  assert (forall y, y ∈ A ++ B -> number (ent y)) as Hn' by auto.
  exists A, B. split; [done|]. split; [intros r0; by apply cut_pred|]. split.
  - apply Forall_ent. rewrite Forall_forall in HB |- *. intros b Hb. specialize (HB b Hb). simpl in HB.
    destruct (esame (ent b) (score, ele)) eqn:E; [|done]. rewrite <- HB. symmetry. apply upto_key; [|done|by right].
    apply Hn'. apply elem_of_app. by right.
  - destruct A as [|y A _] using rev_ind; [left; constructor|].
    apply Forall_app in HA as [HA [Hy _]%Forall_cons_1].
    assert (number (ent y)) as Hny by (apply Hn', elem_of_app; left; apply elem_of_app; right; by left).
    rewrite <- app_assoc, fmap_app in Hso. apply sorted_middle in Hso as (_ & _ & HAy & _).
    apply (Forall_ent (fun a => elt a (ent y))) in HAy. rewrite Forall_forall in HAy.
    apply upto_key in Hy; [|done|done].
    assert (absent (score, ele) (ent <$> A)) as HabA.
    { apply Forall_ent. apply Forall_forall. intros a Ha. destruct (esame (ent a) (score, ele)) eqn:E; [|done].
      assert (number (ent a)) as Hna by (apply Hn', elem_of_app; left; apply elem_of_app; by left).
      exfalso. specialize (HAy a Ha). destruct Hy as [Hy|Hy].
      - by apply (elt_irrefl _ _ Hna He E), (elt_trans _ (ent y)).
      - apply (elt_irrefl (ent a) (ent y)); try done. rewrite esame_key in * by done. intuition congruence. }
    destruct Hy as [Hy|Hy]; [left|right; by exists A, y].
    rewrite fmap_app. apply Forall_app. split; [done|]. constructor; [|constructor].
    destruct (esame (ent y) (score, ele)) eqn:E; [|done]. by destruct (elt_irrefl _ _ Hny He E).
Qed.

Lemma rank_spec zsl T score ele : zsl_ok zsl T -> number (score, ele) ->
  zslGetRank zsl score ele = Ret (rank_of (score, ele) (ent <$> T)).
Proof.
  intros Hok He. destruct (cut_upto T score ele (ok_sorted _ _ Hok) He) as (A & B & -> & Hcut & HB & HA).
  pose proof (ok_shape _ _ Hok) as [Hn _ Hh Hlev _ _ Hlen _ _]. unfold zslGetRank. change (header zsl) with (t_id (hd zsl)).
  assert (length A <= steps zsl)%nat as Hst by (unfold steps; rewrite Hlen, length_app; lia).
  assert (hit score ele (hd zsl) = false) as Hhd by done.
  assert (forall A', (forall y, y ∈ A' -> y ∈ A ++ B) -> absent (score, ele) (ent <$> A') ->
    Forall (fun y => hit score ele y = false) A') as Hmiss.
  { intros A' Hsub HA'. apply Forall_ent in HA'. rewrite Forall_forall in HA' |- *. intros y Hy.
    rewrite (hit_same zsl (A ++ B)) by auto. by apply HA'. }
  destruct HA as [HA|(A' & y & -> & Hy & HA')].
  - rewrite rank_absent by (rewrite fmap_app; by apply Forall_app).
    eapply (rank_loop_miss score ele _ (level zsl) B); try done; [simpl; lia|].
    constructor; [done|]. apply Hmiss; [|done]. intros y Hy. apply elem_of_app. by left.
  - replace (rank_of _ _) with (Z.of_nat (length (ent <$> A')) + 1).
    2: { rewrite <- app_assoc, fmap_app. symmetry. by apply rank_middle. }
    rewrite (rank_loop_hit score ele _ (level zsl) B _ _ [] (A' ++ [y]) (hd zsl) 0 (hd zsl :: A') y); try done.
    + rewrite length_fmap. simpl. f_equal. lia.
    + rewrite (hit_same zsl ((A' ++ [y]) ++ B)); [done|done|].
      apply elem_of_app. left. apply elem_of_app. right. by left.
    + rewrite <- app_assoc in Hh. apply Forall_app in Hh as [_ Hh]. simpl in Hh. apply Forall_cons_1 in Hh. lia.
    + constructor; [done|]. apply Hmiss; [|done]. intros z Hz. apply elem_of_app. left. apply elem_of_app. by left.
Qed.

Lemma by_rank_spec zsl T rank : shape zsl T -> 1 <= rank ->
  zslGetElementByRank zsl rank = Ret (t_id <$> T !! Z.to_nat (rank - 1)).
Proof.
  intros [Hn _ Hh Hlev _ _ Hlen _ _] Hr. unfold zslGetElementByRank, zslGetElementByRankFromNode.
  change (header zsl) with (t_id (hd zsl)).
  destruct (T !! Z.to_nat (rank - 1)) as [y|] eqn:Ey.
  - apply list_elem_of_split_length in Ey as (A & B & -> & El).
    replace (A ++ y :: B) with ((A ++ [y]) ++ B) in Hn by (by rewrite <- app_assoc).
    apply (by_rank_hit _ (level zsl) B rank _ _ [] (A ++ [y]) (hd zsl) 0 (hd zsl :: A) y); try done.
    + split; intros P z R E.
      * apply Z.leb_le. apply (f_equal length) in E. rewrite !length_app in E. simpl in E. lia.
      * apply Z.leb_gt. rewrite length_app. simpl. lia.
    + unfold steps. rewrite Hlen, !length_app. simpl. lia.
    + simpl. lia.
    + apply Forall_app in Hh as [_ Hh]. apply Forall_cons_1 in Hh. lia.
  - apply lookup_ge_None_1 in Ey. apply (by_rank_miss _ (level zsl) rank _ _ [] T); try done; simpl; try lia.
    unfold steps. lia.
Qed.

(** ** Sequences of operations *)

(** [draws]: what the random generator gives while the level is chosen. *)
Inductive zop :=
| ZInsert (score : double) (ele : list Z) (draws : list Z)
| ZDelete (score : double) (ele : list Z)
| ZUpdate (curscore : double) (ele : list Z) (newscore : double) (draws : list Z).

(** What the operations promise: callers insert and update numbers only, insert
    an entry that is not there, update one that is there, to one that is not. *)
Definition spec_exec (L : list entry) (op : zop) : option (list entry * bool) :=
  match op with
  | ZInsert score ele draws =>
      if isnan score || existsb (fun a => esame a (score, ele)) L || negb (existsb (fun r => threshold <=? r) draws)
      then None else Some (place (score, ele) L, true)
  | ZDelete score ele =>
      if isnan score then None
      else Some (remove (score, ele) L, existsb (fun a => esame a (score, ele)) L)
  | ZUpdate cur ele new draws =>
      let L' := remove (cur, ele) L in
      if isnan cur || isnan new || negb (existsb (fun a => esame a (cur, ele)) L) ||
         existsb (fun a => esame a (new, ele)) L' || negb (existsb (fun r => threshold <=? r) draws)
      then None else Some (place (new, ele) L', true)
  end.

Fixpoint spec_run (L : list entry) (ops : list zop) : option (list entry * list bool) :=
  match ops with
  | [] => Some (L, [])
  | op :: ops =>
      match spec_exec L op with
      | None => None
      | Some (L, b) => match spec_run L ops with None => None | Some (L, bs) => Some (L, b :: bs) end
      end
  end.

Lemma absent_existsb e L : existsb (fun a => esame a e) L = false <-> absent e L.
Proof.
  unfold absent. induction L as [|a L IH]; simpl; [split; [constructor|done]|].
  rewrite orb_false_iff, IH, Forall_cons. done.
Qed.

Lemma random_loop_spec draws : forall level,
  match random_loop draws level with
  | Some lv => (level <= lv)%nat /\ Exists (fun r => threshold <= r) draws /\
      Forall (fun r => r < threshold) (take (lv - level) draws) /\
      exists r, draws !! (lv - level)%nat = Some r /\ threshold <= r
  | None => Forall (fun r => r < threshold) draws
  end.
Proof.
  induction draws as [|r draws IH]; intros level; cbn [random_loop]; [constructor|].
  destruct (Z.ltb_spec r threshold) as [Hlt|Hge].
  - specialize (IH (S level)). destruct (random_loop draws (S level)) as [lv|]; [|by constructor].
    destruct IH as (Hlv & Hex & Hall & r' & Hr' & Hle). split_and!; [lia|by right| |].
    + replace (lv - level)%nat with (S (lv - S level))%nat by lia. by constructor.
    + exists r'. split; [|done]. replace (lv - level)%nat with (S (lv - S level))%nat by lia. done.
  - split_and!; [lia|by left|by rewrite Nat.sub_diag|]. exists r. by rewrite Nat.sub_diag.
Qed.

Lemma random_level_spec draws : existsb (fun r => threshold <=? r) draws = true ->
  exists lv, zslRandomLevel draws = Some lv /\ (1 <= lv <= ZSKIPLIST_MAXLEVEL)%nat.
Proof.
  intros (r & Hr & Hle)%existsb_exists. apply list_elem_of_In in Hr. unfold zslRandomLevel.
  pose proof (random_loop_spec draws 1) as H. destruct (random_loop draws 1) as [lv|].
  - eexists. split; [done|]. unfold ZSKIPLIST_MAXLEVEL. destruct (Nat.ltb_spec lv 32); lia.
  - rewrite Forall_forall in H. specialize (H r Hr). zbool. simpl in H. lia.
Qed.

Lemma inv_create hdr : zsl_inv (zslCreate hdr) [].
Proof.
  split; [split; [apply shape_create|split; constructor]|]. intros q Hq. unfold zslCreate, zslCreateNode. simpl.
  apply lookup_insert_None. split; [done|]. intros <-. apply Hq. by left.
Qed.

Lemma insert_inv zsl T score ele lv x : zsl_inv zsl T -> number (score, ele) ->
  (1 <= lv <= ZSKIPLIST_MAXLEVEL)%nat -> heap zsl !! x = None -> absent (score, ele) (ent <$> T) ->
  exists zsl' T', zslInsert zsl score ele lv x = Ret (zsl', x) /\ zsl_inv zsl' T' /\
    ent <$> T' = place (score, ele) (ent <$> T).
Proof.
  intros [Hok Hl] Hn Hlv Hx Hab. destruct (insert_spec zsl T score ele lv x) as (zsl' & A & B & -> & E & Hok' & [Eh Hfr] & Ee); try done.
  do 2 eexists. split; [done|]. split; [split; [exact Hok'|]|exact Ee].
  eapply no_leak_frame; [exact Hl|done|intros q Hq; left; by apply Hfr|].
  intros y Hy. left. apply elem_of_app in Hy as [?|?]; apply elem_of_app; [by left|]. right. by right.
Qed.

Lemma delete_inv zsl T score ele : zsl_inv zsl T -> number (score, ele) ->
  exists zsl' T', zslDelete zsl score ele = Ret (zsl', existsb (fun a => esame a (score, ele)) (ent <$> T)) /\
    zsl_inv zsl' T' /\ ent <$> T' = remove (score, ele) (ent <$> T) /\
    (absent (score, ele) (ent <$> T) \/ exists A y B, T = A ++ y :: B /\ esame (ent y) (score, ele) = true /\ T' = A ++ B).
Proof.
  intros [Hok Hl] Hn.
  destruct (delete_spec zsl T score ele Hok Hn) as [[Hab ->]|(zsl' & A & y & B & -> & Hy & Hab & -> & Hok' & Eh & Hnone & Hfr)].
  - exists zsl, T. split; [do 2 f_equal; symmetry; by apply absent_existsb|]. rewrite remove_absent by done.
    split_and!; try done. by left.
  - exists zsl', (A ++ B). rewrite !fmap_app in *. rewrite fmap_cons, remove_middle by done.
    split_and!; [|split; [done|]|done|right; by exists A, y, B].
    + do 2 f_equal. symmetry. apply existsb_exists. exists (ent y). split; [|done].
      apply list_elem_of_In, elem_of_app. right. by left.
    + eapply no_leak_frame; [exact Hl|done| |].
      * intros q Hq. destruct (decide (q = t_id y)) as [->|Hqy]; [by right|]. left. apply Hfr.
        apply notin_insert. change (hd zsl :: A ++ B) with ((hd zsl :: A) ++ B) in Hq.
        rewrite fmap_app, elem_of_app in Hq. tauto.
      * intros z [Hz|[->|Hz]%elem_of_cons]%elem_of_app; [left; apply elem_of_app; by left|right; by left|].
        left. apply elem_of_app. by right.
Qed.

Section Run.
Context (malloc : gmap Z node -> Z) (Hmalloc : forall h, h !! malloc h = None).

Definition exec (zsl : zskiplist) (op : zop) : outcome (zskiplist * bool) :=
  match op with
  | ZInsert score ele draws =>
      match zslRandomLevel draws with
      | None => Abort
      | Some lv => let* (zsl, _) := zslInsert zsl score ele lv (malloc (heap zsl)) in Ret (zsl, true)
      end
  | ZDelete score ele => zslDelete zsl score ele
  | ZUpdate cur ele new draws =>
      match zslRandomLevel draws with
      | None => Abort
      | Some lv => let* (zsl, _) := zslUpdateScore zsl cur ele new lv (malloc (heap zsl)) in Ret (zsl, true)
      end
  end.

Fixpoint run (zsl : zskiplist) (ops : list zop) : outcome (zskiplist * list bool) :=
  match ops with
  | [] => Ret (zsl, [])
  | op :: ops =>
      let* (zsl, b) := exec zsl op in
      let* (zsl, bs) := run zsl ops in
      Ret (zsl, b :: bs)
  end.

Lemma exec_spec zsl T op L b : zsl_inv zsl T -> spec_exec (ent <$> T) op = Some (L, b) ->
  exists zsl' T', exec zsl op = Ret (zsl', b) /\ zsl_inv zsl' T' /\ ent <$> T' = L.
Proof using Hmalloc.
  intros Hinv. destruct op as [score ele draws|score ele|cur ele new draws]; cbn [spec_exec exec]; cbv zeta.
  - destruct (_ || _) eqn:E; [done|]. intros [= <- <-]. zbool.
    destruct (random_level_spec draws ltac:(done)) as (lv & -> & Hlv).
    destruct (insert_inv zsl T score ele lv (malloc (heap zsl))) as (zsl' & T' & -> & ? & ?); try done.
    { by apply absent_existsb. }
    by exists zsl', T'.
  - destruct (isnan score) eqn:E; [done|]. intros [= <- <-].
    destruct (delete_inv zsl T score ele Hinv E) as (zsl' & T' & ? & ? & ? & _). by exists zsl', T'.
  - destruct (_ || _) eqn:E; [done|]. intros [= <- <-]. zbool.
    destruct (random_level_spec draws ltac:(done)) as (lv & -> & Hlv).
    destruct (update_spec zsl T cur ele new lv (malloc (heap zsl))) as (zsl' & T' & q & -> & ? & _ & ? & _); try done.
    { rewrite <- absent_existsb. congruence. } { by apply absent_existsb. }
    by exists zsl', T'.
Qed.

Lemma run_spec ops : forall zsl T L bs, zsl_inv zsl T -> spec_run (ent <$> T) ops = Some (L, bs) ->
  exists zsl' T', run zsl ops = Ret (zsl', bs) /\ zsl_inv zsl' T' /\ ent <$> T' = L.
Proof using Hmalloc.
  induction ops as [|op ops IH]; intros zsl T L bs Hinv; cbn [spec_run run].
  { intros [= <- <-]. by exists zsl, T. }
  destruct (spec_exec (ent <$> T) op) as [[L1 b]|] eqn:E1; [|done].
  destruct (exec_spec zsl T op L1 b Hinv E1) as (zsl1 & T1 & -> & Hinv1 & <-). cbn [obind].
  destruct (spec_run (ent <$> T1) ops) as [[L2 bs2]|] eqn:E2; [|done]. intros [= <- <-].
  destruct (IH zsl1 T1 L2 bs2 Hinv1 E2) as (zsl' & T' & -> & ? & ?). by exists zsl', T'.
Qed.

End Run.

(** ** Theorems *)

(** C13: any sequence of insertions, deletions and score updates that respects
    the preconditions runs without a failed assertion or a bad pointer, answers as
    the sorted list does, and leaves a skip list that represents that list: every
    forward pointer, span, backward pointer and counter is right, and every node of
    the store belongs to it. *)
Theorem zsl_refines (malloc : gmap Z node -> Z) (Hmalloc : forall h, h !! malloc h = None) hdr ops L bs :
  spec_run [] ops = Some (L, bs) ->
  exists zsl T, run malloc (zslCreate hdr) ops = Ret (zsl, bs) /\ zsl_inv zsl T /\ ent <$> T = L /\
    length_ zsl = Z.of_nat (length L) /\ (level zsl <= ZSKIPLIST_MAXLEVEL)%nat.
Proof.
  intros E. destruct (run_spec malloc Hmalloc ops (zslCreate hdr) [] L bs (inv_create hdr) E) as (zsl & T & -> & Hinv & <-).
  exists zsl, T. pose proof (ok_shape _ _ (proj1 Hinv)) as Hsh.
  split_and!; [done|done|done| |apply Hsh].
  rewrite (sh_len _ _ Hsh). by rewrite length_fmap.
Qed.

(** Ranks.  [zslGetRank] gives the position of an entry in the sorted list, 0
    when it is not there, and [zslGetElementByRank] the node at a position, NULL
    past the end; the two are inverse to each other. *)
Theorem zsl_ranks zsl T score ele : zsl_inv zsl T -> isnan score = false ->
  zslGetRank zsl score ele = Ret (rank_of (score, ele) (ent <$> T)) /\
  (forall rank, 1 <= rank -> zslGetElementByRank zsl rank = Ret (t_id <$> T !! Z.to_nat (rank - 1))) /\
  (rank_of (score, ele) (ent <$> T) <> 0 -> exists p n,
     zslGetElementByRank zsl (rank_of (score, ele) (ent <$> T)) = Ret (Some p) /\
     heap zsl !! p = Some n /\ esame (n_score n, ele_of n) (score, ele) = true).
Proof.
  intros [Hok _] Hn. split; [by apply rank_spec|]. split; [intros rank; apply by_rank_spec, Hok|].
  unfold rank_of. destruct (list_find _ _) as [[i e]|] eqn:Ef; [|done]. intros _.
  apply list_find_Some in Ef as (El & Hs & _). rewrite list_lookup_fmap in El.
  destruct (T !! i) as [y|] eqn:Ey; [|done]. injection El as <-.
  destruct (tower_deref zsl T y (ok_shape _ _ Hok)) as (n & _ & Es & Ee & En); [by eapply list_elem_of_lookup_2|].
  exists (t_id y), n. rewrite (by_rank_spec zsl T) by (apply Hok || lia).
  replace (Z.to_nat (Z.of_nat i + 1 - 1)) with i by lia. rewrite Ey. split_and!; [done|done|].
  by rewrite Es, Ee.
Qed.

(** The random level ends at the first draw that reaches the threshold, and
    is the number of draws up to it, at least 1 and never above the 32 levels the
    header and the arrays of the insertion have. *)
Theorem zslRandomLevel_bounds draws k r : draws !! k = Some r -> threshold <= r ->
  Forall (fun d => d < threshold) (take k draws) ->
  zslRandomLevel draws = Some (Nat.min (S k) ZSKIPLIST_MAXLEVEL).
Proof.
  intros Hk Hr Hall. unfold zslRandomLevel. pose proof (random_loop_spec draws 1) as H.
  destruct (random_loop draws 1) as [lv|].
  - destruct H as (Hlv & _ & Hbelow & r' & Hr' & Hle).
    assert (lv - 1 = k)%nat as Ek.
    { destruct (Nat.lt_trichotomy (lv - 1) k) as [Hc|[?|Hc]]; [|done|].
      - rewrite Forall_forall in Hall. specialize (Hall r'). simpl in Hall. enough (r' < threshold) by lia.
        apply Hall. apply list_elem_of_lookup. exists (lv - 1)%nat. by rewrite lookup_take_lt.
      - rewrite Forall_forall in Hbelow. specialize (Hbelow r). simpl in Hbelow. enough (r < threshold) by lia.
        apply Hbelow. apply list_elem_of_lookup. exists k. by rewrite lookup_take_lt. }
    f_equal. destruct (Nat.ltb_spec lv ZSKIPLIST_MAXLEVEL); lia.
  - rewrite Forall_forall in H. specialize (H r). enough (r < threshold) by lia. apply H.
    by eapply list_elem_of_lookup_2.
Qed.

(** ** Witnesses *)

Definition fresh_addr (h : gmap Z node) : Z := fresh (elements (dom h : gset Z)).

Lemma fresh_addr_ok h : h !! fresh_addr h = None.
Proof.
  apply (not_elem_of_dom (D := gset Z)). intros H. apply elem_of_elements in H. revert H.
  apply infinite_is_fresh.
Qed.

(** Two equal scores, a level above the first, a score that moves past another
    node, one that stays, a deletion that fails and one that succeeds. *)
Definition some_ops : list zop :=
  let hi := 2 ^ 30 in
  [ZInsert (of_int 2) (chars "b") [0; 0; hi]; ZInsert (of_int 1) (chars "z") [hi];
   ZInsert (of_int 2) (chars "a") [0; hi]; ZDelete (of_int 3) (chars "a");
   ZUpdate (of_int 1) (chars "z") (of_int 7) [0; 0; 0; hi]; ZUpdate (of_int 7) (chars "z") (of_int 8) [hi];
   ZDelete (of_int 2) (chars "b")].

Lemma zsl_refines_witness :
  exists zsl T, run fresh_addr (zslCreate 0) some_ops = Ret (zsl, [true; true; true; false; true; true; true]) /\
    zsl_inv zsl T /\ ent <$> T = [(of_int 2, chars "a"); (of_int 8, chars "z")] /\
    length_ zsl = 2 /\ (level zsl <= ZSKIPLIST_MAXLEVEL)%nat.
Proof. apply (zsl_refines fresh_addr fresh_addr_ok 0 some_ops). vm_compute. reflexivity. Defined.

(** One insertion. *)
Definition one : zskiplist :=
  match zslInsert (zslCreate 0) (of_int 5) (chars "a") 2 1 with Ret (z, _) => z | Abort => zslCreate 0 end.

Lemma one_inv : zsl_inv one [Tower 1 2 (of_int 5) (Some (chars "a"))].
Proof.
  destruct (insert_spec (zslCreate 0) [] (of_int 5) (chars "a") 2 1) as (zsl' & A & B & E & Ei & Hok & [Eh Hfr] & _);
    [apply inv_create|done|unfold ZSKIPLIST_MAXLEVEL; lia|done|constructor|].
  symmetry in E. apply app_nil in E as [-> ->]. unfold one. rewrite Ei.
  split; [done|]. intros q Hq. unfold hd in Hq. rewrite Eh in Hq. rewrite Hfr by done.
  apply inv_create. intros Hin. apply Hq. apply list_elem_of_singleton in Hin. rewrite Hin. by left.
Qed.

Lemma zsl_ranks_witness :
  zslGetRank one (of_int 5) (chars "a") = Ret 1 /\
  (forall rank, 1 <= rank -> zslGetElementByRank one rank =
     Ret (t_id <$> [Tower 1 2 (of_int 5) (Some (chars "a"))] !! Z.to_nat (rank - 1))) /\
  (1 <> 0 -> exists p n, zslGetElementByRank one 1 = Ret (Some p) /\ heap one !! p = Some n /\
     esame (n_score n, ele_of n) (of_int 5, chars "a") = true).
Proof. apply (zsl_ranks one _ (of_int 5) (chars "a") one_inv). reflexivity. Defined.

Lemma zslRandomLevel_bounds_witness : zslRandomLevel [0; 0; 2 ^ 30] = Some 3%nat.
Proof.
  apply (zslRandomLevel_bounds [0; 0; 2 ^ 30] 2 (2 ^ 30)); [reflexivity|vm_compute; discriminate|].
  repeat constructor.
Defined.

End ZslSpec.
