(* ===== verification/ZslRange.v ===== *)
(** * ZslRange: ranges of a skip list by score, by element and by rank

    [zslNthInRange] and [zslNthInLexRange] are the same text up to the two
    comparisons with the ends of the range, and so are [zslDeleteRangeByScore]
    and [zslDeleteRangeByLex]: each pair is one definition here, with the
    comparisons as arguments, and two instances.

    The ends of a lexicographic range are strings or one of the two shared
    objects [shared.minstring] and [shared.maxstring], which the code tells by
    their addresses. *)
From S2P Require Import Prelude StrObj Double Zskiplist ZslSpec.
From Stdlib Require Import Sorting.Sorted.
Import Double Zskiplist ZslSpec.

Module ZslRange.

Record zrangespec := Zrange { r_min : double; r_max : double; r_minex : bool; r_maxex : bool }.

Definition zslValueGteMin (value : double) (spec : zrangespec) : bool :=
  if r_minex spec then dlt (r_min spec) value else dle (r_min spec) value.
Definition zslValueLteMax (value : double) (spec : zrangespec) : bool :=
  if r_maxex spec then dlt value (r_max spec) else dle value (r_max spec).

(** ** Lexicographic ends *)

Inductive lexend := LMin | LMax | LStr (s : list Z).

Record zlexrangespec := Zlexrange { l_min : lexend; l_max : lexend; l_minex : bool; l_maxex : bool }.

Definition sdscmplex (a b : lexend) : Z :=
  match a, b with
  | LMin, LMin | LMax, LMax => 0
  | LMin, _ | _, LMax => -1
  | LMax, _ | _, LMin => 1
  | LStr a, LStr b => sdscmp a b
  end.

Definition zslLexValueGteMin (value : list Z) (spec : zlexrangespec) : bool :=
  if l_minex spec then 0 <? sdscmplex (LStr value) (l_min spec) else 0 <=? sdscmplex (LStr value) (l_min spec).
Definition zslLexValueLteMax (value : list Z) (spec : zlexrangespec) : bool :=
  if l_maxex spec then sdscmplex (LStr value) (l_max spec) <? 0 else sdscmplex (LStr value) (l_max spec) <=? 0.

(** The end and whether it is exclusive.  A string is followed by a NUL byte. *)
Definition zslParseLexRangeItem (item : list Z) : option (lexend * bool) :=
  let c := at_ item in
  if c 0%nat =? 43 (* + *) then if c 1%nat =? 0 then Some (LMax, true) else None
  else if c 0%nat =? 45 (* - *) then if c 1%nat =? 0 then Some (LMin, true) else None
  else if c 0%nat =? 40 (* left parenthesis *) then Some (LStr (drop 1 item), true)
  else if c 0%nat =? 91 (* left bracket *) then Some (LStr (drop 1 item), false)
  else None.

Definition zslParseLexRange (min max : StrObj.robj) : option zlexrangespec :=
  match StrObj.o_body min, StrObj.o_body max with
  | StrObj.BInt _, _ | _, StrObj.BInt _ => None
  | (StrObj.BRaw a | StrObj.BEmbstr a), (StrObj.BRaw b | StrObj.BEmbstr b) =>
      match zslParseLexRangeItem a, zslParseLexRangeItem b with
      | Some (lo, loex), Some (hi, hiex) => Some (Zlexrange lo hi loex hiex)
      | _, _ => None
      end
  end.

(** ** Is there an element in the range *)

(** [empty]: the range has no element whatever the list. *)
Definition is_in (zsl : zskiplist) (empty : bool) (gte lte : node -> bool) : outcome bool :=
  if empty then Ret false else
  match tail zsl with
  | None => Ret false
  | Some t =>
      let* tn := deref (heap zsl) t in
      if negb (gte tn) then Ret false else
      let* (f, _) := get_lvl (heap zsl) (header zsl) 0 in
      match f with
      | None => Ret false
      | Some f => let* fn := deref (heap zsl) f in Ret (lte fn)
      end
  end.

Definition empty_range (range : zrangespec) : bool :=
  dlt (r_max range) (r_min range) ||
  deq (r_min range) (r_max range) && (r_minex range || r_maxex range).
Definition gte_min (range : zrangespec) (n : node) : bool := zslValueGteMin (n_score n) range.
Definition lte_max (range : zrangespec) (n : node) : bool := zslValueLteMax (n_score n) range.

Definition zslIsInRange (zsl : zskiplist) (range : zrangespec) : outcome bool :=
  is_in zsl (empty_range range) (gte_min range) (lte_max range).

Definition empty_lex (range : zlexrangespec) : bool :=
  let cmp := sdscmplex (l_min range) (l_max range) in
  (0 <? cmp) || (cmp =? 0) && (l_minex range || l_maxex range).
Definition gte_min_lex (range : zlexrangespec) (n : node) : bool := zslLexValueGteMin (ele_of n) range.
Definition lte_max_lex (range : zlexrangespec) (n : node) : bool := zslLexValueLteMax (ele_of n) range.

Definition zslIsInLexRange (zsl : zskiplist) (range : zlexrangespec) : outcome bool :=
  is_in zsl (empty_lex range) (gte_min_lex range) (lte_max_lex range).

(** ** The nth element of the range *)

Definition ZSKIPLIST_MAX_SEARCH : Z := 10.

(** The searches that keep only the last node and its rank. *)
Fixpoint go_down (cond : Z -> node -> bool) (fuel : nat) (h : gmap Z node) (n : nat) (x rank : Z)
  : outcome (Z * Z) :=
  match n with
  | O => Ret (x, rank)
  | S i =>
      let* (x, rank) := walk cond fuel h i x rank in
      go_down cond fuel h i x rank
  end.

(** [k] times [x = x->level[0].forward], and [x = x->backward]. *)
Fixpoint forwards (k : nat) (h : gmap Z node) (x : option Z) : outcome (option Z) :=
  match k with
  | O => Ret x
  | S k =>
      match x with
      | None => Abort
      | Some x => let* (f, _) := get_lvl h x 0 in forwards k h f
      end
  end.

Fixpoint backwards (k : nat) (h : gmap Z node) (x : option Z) : outcome (option Z) :=
  match k with
  | O => Ret x
  | S k =>
      match x with
      | None => Abort
      | Some x => let* n := deref h x in backwards k h (n_backward n)
      end
  end.

(** [if (x && !ok(x)) return NULL; return x;] *)
Definition keep_if (h : gmap Z node) (ok : node -> bool) (x : option Z) : outcome (option Z) :=
  match x with
  | None => Ret None
  | Some p => let* n := deref h p in Ret (if ok n then Some p else None)
  end.

Definition nth_in (zsl : zskiplist) (empty : bool) (gte lte : node -> bool) (n : Z) : outcome (option Z) :=
  let h := heap zsl in
  let* inside := is_in zsl empty gte lte in
  if negb inside then Ret None else
  let out := fun (_ : Z) x => negb (gte x) in
  let* (last_node, last_rank) := walk out (steps zsl) h (level zsl - 1) (header zsl) 0 in
  if 0 <=? n then
    let* (x, edge_rank) := go_down out (steps zsl) h (level zsl - 1) last_node last_rank in
    if length_ zsl <=? u64 (edge_rank + n) then Ret None else
    let* x :=
      if n <? ZSKIPLIST_MAX_SEARCH then forwards (Z.to_nat (n + 1)) h (Some x)
      else zslGetElementByRankFromNode zsl last_node (level zsl) (u64 (edge_rank + 1 + n - last_rank)) in
    keep_if h lte x
  else
    let* (x, edge_rank) := go_down (fun _ => lte) (steps zsl) h (level zsl) last_node last_rank in
    if edge_rank <? s64 (- n) then Ret None else
    let* x :=
      if - ZSKIPLIST_MAX_SEARCH <? n + 1 then backwards (Z.to_nat (- n - 1)) h (Some x)
      else zslGetElementByRankFromNode zsl last_node (level zsl) (u64 (edge_rank + 1 + n - last_rank)) in
    keep_if h gte x.

Definition zslNthInRange (zsl : zskiplist) (range : zrangespec) (n : Z) : outcome (option Z) :=
  nth_in zsl (empty_range range) (gte_min range) (lte_max range) n.

Definition zslNthInLexRange (zsl : zskiplist) (range : zlexrangespec) (n : Z) : outcome (option Z) :=
  nth_in zsl (empty_lex range) (gte_min_lex range) (lte_max_lex range) n.

(** ** Deleting ranges *)

(** The elements to delete from the dictionary of the sorted set, in order, are
    returned; their number is what the functions return. *)
Fixpoint delete_loop (fuel : nat) (zsl : zskiplist) (inside : Z -> node -> bool) (ups : list (Z * Z))
  (x : option Z) (traversed : Z) : outcome (zskiplist * list (list Z)) :=
  match x with
  | None => Ret (zsl, [])
  | Some x =>
      let* xn := deref (heap zsl) x in
      if inside traversed xn then
        match fuel with
        | O => Abort
        | S fuel =>
            let* (next, _) := lvl xn 0 in
            let* zsl := zslDeleteNode zsl x ups in
            let zsl := Zsl (header zsl) (tail zsl) (length_ zsl) (level zsl) (zslFreeNode (heap zsl) x) in
            let* (zsl, removed) := delete_loop fuel zsl inside ups next (traversed + 1) in
            Ret (zsl, ele_of xn :: removed)
        end
      else Ret (zsl, [])
  end.

Definition delete_range (zsl : zskiplist) (out inside : Z -> node -> bool) : outcome (zskiplist * list (list Z)) :=
  let* ups := seek zsl out in
  let* (_, traversed) := nth_up ups 0 in
  let* x := next_of zsl ups in
  delete_loop (steps zsl) zsl inside ups x (traversed + 1).

Definition zslDeleteRangeByScore (zsl : zskiplist) (range : zrangespec) : outcome (zskiplist * list (list Z)) :=
  delete_range zsl (fun _ n => negb (gte_min range n)) (fun _ => lte_max range).

Definition zslDeleteRangeByLex (zsl : zskiplist) (range : zlexrangespec) : outcome (zskiplist * list (list Z)) :=
  delete_range zsl (fun _ n => negb (gte_min_lex range n)) (fun _ => lte_max_lex range).

(** [start] and [end] are 1-based and inclusive, and of type [unsigned int]. *)
Definition zslDeleteRangeByRank (zsl : zskiplist) (start stop : Z) : outcome (zskiplist * list (list Z)) :=
  let start := wrap 32 start in
  let stop := wrap 32 stop in
  delete_range zsl (fun t _ => t <? start) (fun t _ => t <=? stop).

(** ** Deletion of a run of towers *)

Lemma head_link zsl A y B n : shape zsl (A ++ y :: B) -> heap zsl !! t_id y = Some n ->
  exists s, lvl n 0 = Ret (t_id <$> head B, s).
Proof.
  intros Hsh En. destruct (sh_nodes _ _ Hsh (hd zsl :: A) y B eq_refl) as (n' & En' & _ & _ & _ & _ & Hl).
  assert (n' = n) as -> by congruence. pose proof (sh_heights _ _ Hsh) as Hh. pose proof (sh_level _ _ Hsh).
  apply Forall_app in Hh as [_ [Hy HhB]%Forall_cons_1]. unfold lvl. rewrite Hl by lia. rewrite app_nil_r.
  destruct B as [|b B]; [by exists 0|]. apply Forall_cons_1 in HhB as [Hb _]. cbn [link].
  destruct (Nat.ltb_spec 0 (t_height b)); [by exists 1|lia].
Qed.

Lemma drop_inv zsl A y B ups : zsl_inv zsl (A ++ y :: B) -> ups_ok (hd zsl :: A) 0 (level zsl) ups ->
  exists zsl', zslDeleteNode zsl (t_id y) ups = Ret zsl' /\
    let zsl2 := with_heap zsl' (zslFreeNode (heap zsl') (t_id y)) in
    zsl_inv zsl2 (A ++ B) /\ hd zsl2 = hd zsl /\ (level zsl2 <= level zsl)%nat.
Proof.
  intros [Hok Hl] Hups. destruct (drop_spec zsl A y B ups Hok Hups) as (zsl' & -> & _ & [Eh Hfr] & Hok' & Hle).
  exists zsl'. split; [done|]. split_and!; [split; [done|]|unfold hd; simpl; by rewrite Eh|done].
  eapply no_leak_frame; [exact Hl|done| |]; unfold zslFreeNode, with_heap; cbn [heap].
  - intros q Hq. destruct (decide (q = t_id y)) as [->|Hne]; [right; apply lookup_delete_eq|].
    left. rewrite lookup_delete_ne by done. by apply Hfr.
  - intros z [Hz|[->|Hz]%elem_of_cons]%elem_of_app; [left; apply elem_of_app; by left| |left; apply elem_of_app; by right].
    right. left. apply lookup_delete_eq.
Qed.

Lemma delete_loop_spec inside insideT ups A C : reads inside insideT -> forall M zsl fuel tr,
  zsl_inv zsl (A ++ M ++ C) -> ups_ok (hd zsl :: A) 0 (level zsl) ups ->
  (forall P y R, M = P ++ y :: R -> insideT (tr + Z.of_nat (length P)) y = true) ->
  (forall c C', C = c :: C' -> insideT (tr + Z.of_nat (length M)) c = false) -> (length M <= fuel)%nat ->
  exists zsl', delete_loop fuel zsl inside ups (t_id <$> head (M ++ C)) tr = Ret (zsl', tele <$> M) /\
    zsl_inv zsl' (A ++ C) /\ header zsl' = header zsl.
Proof.
  intros Hr. induction M as [|y M IH]; intros zsl fuel tr Hinv Hups Hin Hout Hf.
  - exists zsl. split; [|done]. destruct C as [|c C]; [by destruct fuel|].
    change (t_id <$> head ([] ++ c :: C)) with (Some (t_id c)).
    destruct (tower_deref zsl _ c (ok_shape _ _ (proj1 Hinv))) as (n & Ed & Hs & He & En).
    { apply elem_of_app. right. by left. }
    destruct (sh_nodes _ _ (ok_shape _ _ (proj1 Hinv)) (hd zsl :: A) c C eq_refl) as (n' & En' & He' & _).
    assert (n' = n) as -> by congruence. specialize (Hout c C eq_refl). rewrite Z.add_0_r in Hout.
    destruct fuel; cbn [delete_loop]; rewrite Ed; cbn [obind]; rewrite (Hr _ _ c) by done; by rewrite Hout.
  - change (t_id <$> head ((y :: M) ++ C)) with (Some (t_id y)). simpl in Hf.
    destruct fuel as [|fuel]; [lia|]. cbn [delete_loop].
    destruct (tower_deref zsl _ y (ok_shape _ _ (proj1 Hinv))) as (n & -> & Hs & He & En).
    { apply elem_of_app. right. by left. }
    destruct (sh_nodes _ _ (ok_shape _ _ (proj1 Hinv)) (hd zsl :: A) y (M ++ C) eq_refl) as (n' & En' & He' & _).
    assert (n' = n) as -> by congruence. cbn [obind]. rewrite (Hr _ _ y) by done.
    pose proof (Hin [] y M eq_refl) as Hy. rewrite Z.add_0_r in Hy. rewrite Hy.
    destruct (head_link zsl A y (M ++ C) n (ok_shape _ _ (proj1 Hinv)) En) as [s ->]. cbn [obind].
    destruct (drop_inv zsl A y (M ++ C) ups Hinv Hups) as (zsl' & -> & Hinv' & Ehd & Hle). cbn [obind].
    fold (with_heap zsl' (zslFreeNode (heap zsl') (t_id y))). set (zsl2 := with_heap _ _) in *.
    destruct (IH zsl2 fuel (tr + 1) Hinv') as (zsl3 & -> & Hinv3 & Eh3).
    + rewrite Ehd. intros i Hi. apply Hups. lia.
    + intros P z R E. replace (tr + 1 + Z.of_nat (length P)) with (tr + Z.of_nat (length (y :: P))) by (simpl; lia).
      apply (Hin (y :: P) z R). by rewrite E.
    + intros c C' E. replace (tr + 1 + Z.of_nat (length M)) with (tr + Z.of_nat (length (y :: M))) by (simpl; lia).
      by apply (Hout c C').
    + lia.
    + cbn [obind]. exists zsl3. split; [by rewrite He|]. split; [done|].
      rewrite Eh3. unfold hd in Ehd. by injection Ehd.
Qed.

Lemma delete_range_spec zsl A M C out outT inside insideT : zsl_inv zsl (A ++ M ++ C) ->
  reads out outT -> reads inside insideT -> cut outT 0 A (M ++ C) ->
  (forall P y R, M = P ++ y :: R -> insideT (Z.of_nat (length A) + 1 + Z.of_nat (length P)) y = true) ->
  (forall c C', C = c :: C' -> insideT (Z.of_nat (length A) + 1 + Z.of_nat (length M)) c = false) ->
  exists zsl', delete_range zsl out inside = Ret (zsl', tele <$> M) /\ zsl_inv zsl' (A ++ C).
Proof.
  intros Hinv Hro Hri Hcut Hin Hout. pose proof (ok_shape _ _ (proj1 Hinv)) as Hsh. unfold delete_range.
  destruct (seek_spec zsl out outT A (M ++ C) Hsh Hro Hcut) as (ups & -> & _ & Hups). cbn [obind].
  destruct (ups_first _ _ _ Hups) as (P & u & E & ->).
  { pose proof (sh_level _ _ Hsh). lia. }
  { intros P y R E _. pose proof (sh_heights _ _ Hsh) as Hh. apply Forall_app in Hh as [Hh _].
    destruct P as [|p P]; simpl in E; injection E as _ ->; [|apply Forall_app in Hh as [_ [_ Hh]%Forall_cons_1]];
      (eapply Forall_impl; [exact Hh|]); simpl; lia. }
  cbn [obind]. rewrite (next_of_spec zsl A (M ++ C) ups Hsh Hups). cbn [obind].
  assert (length P = length A) as -> by (apply (f_equal length) in E; rewrite length_app in E; simpl in E; lia).
  destruct (delete_loop_spec inside insideT ups A C Hri M zsl (steps zsl) (Z.of_nat (length A) + 1)) as (zsl' & -> & ? & _); try done.
  - unfold steps. rewrite (sh_len _ _ Hsh), !length_app. lia.
  - by exists zsl'.
Qed.

(** ** The three parts of a sorted list *)

(** A range: [gte] holds from some point on, [lte] up to some point. *)
Record bounds (T : list tower) (gte lte : tower -> bool) : Prop := {
  b_up : forall a b, a ∈ T -> b ∈ T -> elt (ent a) (ent b) -> gte a = true -> gte b = true;
  b_down : forall a b, a ∈ T -> b ∈ T -> elt (ent a) (ent b) -> lte b = true -> lte a = true;
}.

Definition inside (gte lte : tower -> bool) (T : list tower) : list tower :=
  filter (fun y => gte y && lte y = true) T.
Definition outside (gte lte : tower -> bool) (T : list tower) : list tower :=
  filter (fun y => gte y && lte y = false) T.

Lemma filter_all {X} (Q : X -> Prop) `{!forall x, Decision (Q x)} L : Forall Q L -> filter Q L = L.
Proof. induction 1; [done|]. rewrite filter_cons_True by done. by f_equal. Qed.

Lemma filter_none {X} (Q : X -> Prop) `{!forall x, Decision (Q x)} L : Forall (fun x => ~ Q x) L -> filter Q L = [].
Proof. induction 1; [done|]. by rewrite filter_cons_False. Qed.

Lemma three_parts T gte lte : sorted (ent <$> T) -> bounds T gte lte ->
  exists A M C, T = A ++ M ++ C /\ Forall (fun y => gte y = false) A /\
    Forall (fun y => gte y = true /\ lte y = true) M /\ Forall (fun y => gte y = true /\ lte y = false) C.
Proof.
  intros [Hs _]%sorted_towers [Hup Hdown].
  destruct (sorted_cut _ (fun y => negb (gte y)) T Hs) as (A & B & -> & HA & HB).
  { intros a b Ha Hb Hab Hg. apply negb_true_iff in Hg. apply negb_true_iff.
    destruct (gte a) eqn:E; [|done]. by rewrite (Hup a b) in Hg. }
  apply SS_app in Hs as (_ & Hs & _).
  destruct (sorted_cut _ lte B Hs) as (M & C & -> & HM & HC).
  { intros a b Ha Hb. apply Hdown; apply elem_of_app; by right. }
  exists A, M, C. split; [done|]. rewrite Forall_app in HB. destruct HB as [HgM HgC].
  rewrite !Forall_forall in *. split_and!.
  - intros y Hy. by apply negb_true_iff, HA.
  - intros y Hy. split; [|by apply HM]. by apply negb_false_iff, HgM.
  - intros y Hy. split; [|by apply HC]. by apply negb_false_iff, HgC.
Qed.

Lemma parts_inside gte lte A M C : Forall (fun y => gte y = false) A ->
  Forall (fun y => gte y = true /\ lte y = true) M -> Forall (fun y => gte y = true /\ lte y = false) C ->
  inside gte lte (A ++ M ++ C) = M /\ outside gte lte (A ++ M ++ C) = A ++ C.
Proof.
  intros HA HM HC. unfold inside, outside. rewrite !filter_app.
  assert (forall (Q : tower -> Prop) b F, (forall y, Q y -> gte y && lte y = b) -> Forall Q F ->
    Forall (fun y => gte y && lte y = b) F) as Hw by (intros Q b F HQ HF; eapply Forall_impl; [exact HF|done]).
  assert (forall y, gte y = false -> gte y && lte y = false) as H1 by (by intros y ->).
  assert (forall y, gte y = true /\ lte y = true -> gte y && lte y = true) as H2 by (by intros y [-> ->]).
  assert (forall y, gte y = true /\ lte y = false -> gte y && lte y = false) as H3 by (by intros y [-> ->]).
  apply (Hw _ false) in HA; [|done]. apply (Hw _ true) in HM; [|done]. apply (Hw _ false) in HC; [|done].
  split.
  - rewrite (filter_none _ A), (filter_all _ M), (filter_none _ C); [by rewrite app_nil_r| | |];
      try done; (eapply Forall_impl; [eassumption|]); simpl; congruence.
  - rewrite (filter_all _ A), (filter_none _ M), (filter_all _ C); try done.
    eapply Forall_impl; [exact HM|]. simpl. congruence.
Qed.

(** ** Score ranges *)

Definition range_ok (range : zrangespec) : Prop := isnan (r_min range) = false /\ isnan (r_max range) = false.
Definition gteT (range : zrangespec) (y : tower) : bool := zslValueGteMin (t_score y) range.
Definition lteT (range : zrangespec) (y : tower) : bool := zslValueLteMax (t_score y) range.

Definition kle (a b : Z * Z * Z) : Prop := klt a b \/ a = b.

Lemma kle_lt_trans a b c : kle a b -> klt b c -> klt a c.
Proof. intros [H| ->]; [by apply klt_trans|done]. Qed.
Lemma klt_le_trans a b c : klt a b -> kle b c -> klt a c.
Proof. intros H [H'| <-]; [by eapply klt_trans|done]. Qed.
Lemma kle_trans a b c : kle a b -> kle b c -> kle a c.
Proof. intros [H| ->]; [|done]. left. by eapply klt_le_trans. Qed.

Lemma gte_key v range : isnan v = false -> range_ok range ->
  zslValueGteMin v range = true <->
  if r_minex range then klt (dkey (r_min range)) (dkey v) else kle (dkey (r_min range)) (dkey v).
Proof. intros Hv [H _]. unfold zslValueGteMin. destruct (r_minex range); [by apply dlt_key|by apply dle_key]. Qed.

Lemma lte_key v range : isnan v = false -> range_ok range ->
  zslValueLteMax v range = true <->
  if r_maxex range then klt (dkey v) (dkey (r_max range)) else kle (dkey v) (dkey (r_max range)).
Proof. intros Hv [_ H]. unfold zslValueLteMax. destruct (r_maxex range); [by apply dlt_key|by apply dle_key]. Qed.

Lemma elt_kle a b : number a -> number b -> elt a b -> kle (dkey (fst a)) (dkey (fst b)).
Proof. intros Ha Hb. rewrite elt_key by done. intros [?|[? _]]; [by left|by right]. Qed.

Lemma score_bounds T range : sorted (ent <$> T) -> range_ok range -> bounds T (gteT range) (lteT range).
Proof.
  intros [_ Hn]%sorted_towers Hr. rewrite Forall_forall in Hn.
  split; intros a b Ha Hb Hab; apply elt_kle in Hab; auto; pose proof (Hn a Ha) as Hna; pose proof (Hn b Hb) as Hnb;
    unfold number, ent in *; simpl in *; unfold gteT, lteT; [rewrite !gte_key by done|rewrite !lte_key by done];
    [destruct (r_minex range)|destruct (r_maxex range)]; intros H.
  - by eapply klt_le_trans.
  - by eapply kle_trans.
  - by eapply kle_lt_trans.
  - by eapply kle_trans.
Qed.

Lemma gte_reads range : reads (fun _ n => negb (gte_min range n)) (fun _ y => negb (gteT range y)).
Proof. intros k n y He Hs. unfold gte_min, gteT. by rewrite Hs. Qed.
Lemma lte_reads range : reads (fun _ => lte_max range) (fun _ => lteT range).
Proof. intros k n y He Hs. unfold lte_max, lteT. by rewrite Hs. Qed.

(** ** Lexicographic ranges *)

Definition gteL (range : zlexrangespec) (y : tower) : bool := zslLexValueGteMin (tele y) range.
Definition lteL (range : zlexrangespec) (y : tower) : bool := zslLexValueLteMax (tele y) range.

(** Commands by element are for sorted sets whose scores are all the same. *)
Definition same_scores (T : list tower) : Prop :=
  forall a b, a ∈ T -> b ∈ T -> deq (t_score a) (t_score b) = true.

Lemma cmplex_str v m : StrObj.sign (sdscmplex (LStr v) m) =
  match m with LMin => Gt | LMax => Lt | LStr m => StrObj.lex v m end.
Proof. destruct m; [done|done|]. apply sdscmp_lex. Qed.

Lemma sign_cases z : (0 <? z) = (match StrObj.sign z with Gt => true | _ => false end) /\
  (0 <=? z) = (match StrObj.sign z with Lt => false | _ => true end) /\
  (z <? 0) = (match StrObj.sign z with Lt => true | _ => false end) /\
  (z <=? 0) = (match StrObj.sign z with Gt => false | _ => true end).
Proof.
  unfold StrObj.sign. destruct (Z.compare_spec z 0); split_and!; case_bool; lia || done.
Qed.

Lemma gte_lex v range : zslLexValueGteMin v range =
  (let c := match l_min range with LMin => Gt | LMax => Lt | LStr m => StrObj.lex v m end in
   if l_minex range then match c with Gt => true | _ => false end else match c with Lt => false | _ => true end).
Proof.
  unfold zslLexValueGteMin. cbv zeta. rewrite <- cmplex_str.
  by destruct (sign_cases (sdscmplex (LStr v) (l_min range))) as (-> & -> & _ & _).
Qed.

Lemma lte_lex v range : zslLexValueLteMax v range =
  (let c := match l_max range with LMin => Gt | LMax => Lt | LStr m => StrObj.lex v m end in
   if l_maxex range then match c with Lt => true | _ => false end else match c with Gt => false | _ => true end).
Proof.
  unfold zslLexValueLteMax. cbv zeta. rewrite <- cmplex_str.
  by destruct (sign_cases (sdscmplex (LStr v) (l_max range))) as (_ & _ & -> & ->).
Qed.

Lemma lex_gt_trans a b m : StrObj.lex a b = Lt ->
  (StrObj.lex a m <> Lt -> StrObj.lex b m = Gt) /\ (StrObj.lex b m <> Gt -> StrObj.lex a m = Lt).
Proof.
  intros Hab. split; intros H.
  - rewrite lex_antisym. destruct (StrObj.lex m b) eqn:E; [|done|].
    + apply StrObj.lex_eq in E as ->. done.
    + exfalso. apply H. rewrite lex_antisym in E. destruct (StrObj.lex b m) eqn:E2; try done. by apply (lex_trans a b m).
  - destruct (StrObj.lex b m) eqn:E; [apply StrObj.lex_eq in E as ->; done| |done]. by apply (lex_trans a b m).
Qed.

Lemma lex_bounds T range : sorted (ent <$> T) -> same_scores T -> bounds T (gteL range) (lteL range).
Proof.
  intros [_ Hn]%sorted_towers Heq. rewrite Forall_forall in Hn.
  assert (forall a b, a ∈ T -> b ∈ T -> elt (ent a) (ent b) -> StrObj.lex (tele a) (tele b) = Lt) as Hlex.
  { intros a b Ha Hb Hab. apply elt_key in Hab; auto. specialize (Heq a b Ha Hb).
    apply deq_key in Heq; [|by apply Hn..]. destruct Hab as [H|[_ H]]; [|done].
    simpl in H. rewrite Heq in H. by apply klt_irrefl in H. }
  split; intros a b Ha Hb Hab; specialize (Hlex a b Ha Hb Hab); unfold gteL, lteL; rewrite !gte_lex || rewrite !lte_lex.
  - destruct (l_min range) as [| |m]; [by destruct (l_minex range)..|].
    destruct (lex_gt_trans _ _ m Hlex) as [H _]. cbv zeta. intros Ha'. rewrite H; [by destruct (l_minex range)|].
    intros E. rewrite E in Ha'. by destruct (l_minex range).
  - destruct (l_max range) as [| |m]; [by destruct (l_maxex range)..|].
    destruct (lex_gt_trans _ _ m Hlex) as [_ H]. cbv zeta. intros Hb'. rewrite H; [by destruct (l_maxex range)|].
    intros E. rewrite E in Hb'. by destruct (l_maxex range).
Qed.

Lemma gteL_reads range : reads (fun _ n => negb (gte_min_lex range n)) (fun _ y => negb (gteL range y)).
Proof. intros k n y He Hs. unfold gte_min_lex, gteL, ele_of, tele. by rewrite He. Qed.
Lemma lteL_reads range : reads (fun _ => lte_max_lex range) (fun _ => lteL range).
Proof. intros k n y He Hs. unfold lte_max_lex, lteL, ele_of, tele. by rewrite He. Qed.

Lemma delete_bounds zsl T gte lte out ins : zsl_inv zsl T -> bounds T gte lte ->
  reads out (fun _ y => negb (gte y)) -> reads ins (fun _ => lte) ->
  exists zsl', delete_range zsl out ins = Ret (zsl', tele <$> inside gte lte T) /\ zsl_inv zsl' (outside gte lte T).
Proof.
  intros Hinv Hb Hro Hri. destruct (three_parts T gte lte (ok_sorted _ _ (proj1 Hinv)) Hb) as (A & M & C & -> & HA & HM & HC).
  destruct (parts_inside gte lte A M C HA HM HC) as [-> ->].
  apply (delete_range_spec zsl A M C out (fun _ y => negb (gte y)) ins (fun _ => lte)); try done.
  - apply cut_pred.
    + eapply Forall_impl; [exact HA|]. simpl. by intros y ->.
    + apply Forall_app. split; (eapply Forall_impl; [eassumption|]); simpl; by intros y [-> _].
  - intros P y R ->. apply Forall_app in HM as [_ [HM _]%Forall_cons_1]. by destruct HM.
  - intros c C' ->. apply Forall_cons_1 in HC as [HC _]. by destruct HC.
Qed.

Lemma delete_ranks zsl T start stop : zsl_inv zsl T -> 1 <= start < 2 ^ 32 -> 0 <= stop < 2 ^ 32 ->
  let a := Z.to_nat (start - 1) in let b := Z.to_nat (stop - start + 1) in
  exists zsl', zslDeleteRangeByRank zsl start stop = Ret (zsl', tele <$> take b (drop a T)) /\
    zsl_inv zsl' (take a T ++ drop b (drop a T)).
Proof.
  intros Hinv Hs He a b. unfold zslDeleteRangeByRank. rewrite !wrap_small by (unfold in_u; lia). cbv zeta. set (A := take a T). set (M := take b (drop a T)). set (C := drop b (drop a T)).
  assert (T = A ++ M ++ C) as ET by (unfold A, M, C; by rewrite !take_drop). rewrite ET in Hinv.
  assert (length A = Nat.min a (length T)) as HlA by apply length_take.
  assert (length M = Nat.min b (length T - a)) as HlM by (unfold M; by rewrite length_take, length_drop).
  assert (length C = length T - a - b)%nat as HlC by (unfold C; by rewrite !length_drop).
  apply (delete_range_spec zsl A M C _ (fun t _ => t <? start) _ (fun t _ => t <=? stop)); try done.
  - split; intros P y R E; apply (f_equal length) in E; rewrite !length_app in E; simpl in E.
    + apply Z.ltb_lt. lia.
    + apply Z.ltb_ge. lia.
  - intros P y R E. apply (f_equal length) in E. rewrite length_app in E. simpl in E. apply Z.leb_le. lia.
  - intros c C' E. apply (f_equal length) in E. simpl in E. apply Z.leb_gt. lia.
Qed.

(** ** The nth element *)

Lemma go_down_spec cond condT h lim B : reads cond condT -> forall n fuel pre R x r0,
  nodes_ok h lim pre (x :: R ++ B) [] -> (n <= t_height x)%nat -> (n <= lim)%nat ->
  cut condT r0 R B -> (length R <= fuel)%nat -> Forall (fun y => 1 <= t_height y)%nat R -> Forall (low n) R ->
  exists Q y, x :: R = Q ++ [y] /\ go_down cond fuel h n (t_id x) r0 = Ret (t_id y, r0 + Z.of_nat (length Q)).
Proof.
  intros Hr. induction n as [|i IH]; intros fuel pre R x r0 Hok Hx Hlim Hcut Hf Hh Hlow; cbn [go_down].
  - assert (R = []) as ->.
    { destruct R as [|y R]; [done|]. apply Forall_cons_1 in Hh as [Hy _]. apply Forall_cons_1 in Hlow as [Hl _].
      unfold low in Hl. lia. }
    exists [], x. split; [done|]. do 2 f_equal. simpl. lia.
  - destruct (walk_step cond condT h lim i B fuel pre R x r0 Hr ltac:(lia) Hok ltac:(lia) Hcut Hf)
      as (P & x' & R' & E & Hx' & Hlow' & -> & Hok' & Hcut' & Hf'). cbn [obind].
    assert (Forall (fun y => 1 <= t_height y)%nat R') as Hh'.
    { destruct P as [|p P]; simpl in E; injection E as _ ->; [done|].
      by apply Forall_app in Hh as [_ [_ Hh]%Forall_cons_1]. }
    destruct (IH fuel (pre ++ P) R' x' (r0 + Z.of_nat (length P)) Hok' ltac:(lia) ltac:(lia) Hcut' Hf' Hh' Hlow')
      as (Q & y & EQ & ->). exists (P ++ Q), y. split; [by rewrite E, EQ, app_assoc|].
    do 2 f_equal. rewrite length_app. lia.
Qed.

Lemma forwards_spec h lim : (0 < lim)%nat -> forall k pre x F y,
  nodes_ok h lim pre (x :: F) [] -> Forall (fun z => 1 <= t_height z)%nat (x :: F) -> (x :: F) !! k = Some y ->
  forwards k h (Some (t_id x)) = Ret (Some (t_id y)).
Proof.
  intros Hlim. induction k as [|k IH]; intros pre x F y Hok Hh Hy; cbn [forwards]; [by injection Hy as ->|].
  destruct F as [|z F]; [done|]. pose proof (Forall_cons_1 _ _ _ Hh) as [Hx Hh'].
  pose proof (Forall_cons_1 _ _ _ Hh') as [Hz _].
  rewrite (holds_get _ _ _ _ _ 0 (nodes_ok_at _ _ _ _ _ [] x (z :: F) Hok eq_refl)) by lia.
  rewrite app_nil_r. cbn [link]. destruct (Nat.ltb_spec 0 (t_height z)); [|lia]. cbn [obind].
  apply (IH (pre ++ [x]) z F); [|done|done]. change (x :: z :: F) with ([x] ++ z :: F) in Hok.
  by apply nodes_ok_app in Hok as [_ ?].
Qed.

Lemma backwards_spec h lim x0 F : nodes_ok h lim [] (x0 :: F) [] -> forall k i y z,
  F !! (i + k)%nat = Some y -> F !! i = Some z -> backwards k h (Some (t_id y)) = Ret (Some (t_id z)).
Proof.
  intros Hok. induction k as [|k IH]; intros i y z Hy Hz; cbn [backwards].
  - rewrite Nat.add_0_r in Hy. by rewrite Hz in Hy; injection Hy as ->.
  - assert (x0 :: F = (x0 :: take (i + S k) F) ++ y :: drop (S (i + S k)) F) as E.
    { simpl. f_equal. symmetry. by apply take_drop_middle. }
    destruct (holds_deref _ _ _ _ _ (Hok _ _ _ E)) as (n & -> & _ & _ & Hb). cbn [obind].
    destruct (lookup_lt_is_Some_2 F (i + k)) as [w Hw].
    { apply lookup_lt_Some in Hy. lia. }
    rewrite Hb. simpl app. rewrite bk_tail, last_lookup, length_take.
    replace (pred (Nat.min (i + S k) (length F))) with (i + k)%nat by (apply lookup_lt_Some in Hy; lia).
    rewrite lookup_take_lt, Hw by lia. simpl. by apply (IH i).
Qed.

(** The first test: the last element is not below the range and the first one not above. *)
Lemma is_in_spec zsl T empty gte lte gteT lteT : shape zsl T -> reads (fun _ => gte) (fun _ => gteT) ->
  reads (fun _ => lte) (fun _ => lteT) ->
  is_in zsl empty gte lte = Ret (negb empty && match last T with None => false | Some y => gteT y end &&
    match head T with None => false | Some y => lteT y end).
Proof.
  intros Hsh Hg Hl. unfold is_in. destruct empty; [done|]. rewrite (sh_tail _ _ Hsh).
  assert (forall y, y ∈ T -> exists n, deref (heap zsl) (t_id y) = Ret n /\ gte n = gteT y /\ lte n = lteT y) as Hd.
  { intros y Hy. apply list_elem_of_split in Hy as (P & R & ->).
    destruct (sh_nodes _ _ Hsh (hd zsl :: P) y R eq_refl) as (n & En & He & Hs & _). exists n. unfold deref.
    rewrite En. split_and!; [done|by apply (Hg 0)|by apply (Hl 0)]. }
  destruct (last T) as [y|] eqn:El; [|done]. cbn [negb andb fmap option_fmap option_map].
  destruct (Hd y) as (n & -> & Hgn & _).
  { apply last_Some in El as [T' ->]. apply elem_of_app. right. by left. }
  cbn [obind]. rewrite Hgn. destruct (gteT y); [|done]. cbn [negb andb].
  destruct T as [|z T]; [done|]. pose proof (sh_heights _ _ Hsh) as [Hz _]%Forall_cons_1. pose proof (sh_level _ _ Hsh).
  change (header zsl) with (t_id (hd zsl)).
  rewrite (holds_get _ _ _ _ _ 0 (sh_nodes _ _ Hsh [] (hd zsl) (z :: T) eq_refl)); [|simpl; lia|lia].
  rewrite app_nil_r. cbn [link]. destruct (Nat.ltb_spec 0 (t_height z)); [|lia]. cbn [obind].
  destruct (Hd z) as (m & -> & _ & Hlm); [by left|]. cbn [obind]. by rewrite Hlm.
Qed.

Lemma keep_spec zsl T ok okT x : shape zsl T -> reads (fun _ => ok) (fun _ => okT) ->
  match x with None => True | Some y => y ∈ T end ->
  keep_if (heap zsl) ok (t_id <$> x) = Ret (t_id <$> (x ≫= fun y => if okT y then Some y else None)).
Proof.
  intros Hsh Hr Hx. destruct x as [y|]; [|done]. simpl. apply list_elem_of_split in Hx as (P & R & ->).
  destruct (sh_nodes _ _ Hsh (hd zsl :: P) y R eq_refl) as (n & En & He & Hs & _). unfold deref. rewrite En. cbn [obind].
  rewrite (Hr 0 n y) by done. by destruct (okT y).
Qed.

Section Nth.
Context (zsl : zskiplist) (A M C : list tower) (gte lte : node -> bool) (gteT lteT : tower -> bool).
Context (Hsh : shape zsl (A ++ M ++ C)).
Context (HA : Forall (fun y => gteT y = false /\ lteT y = true) A).
Context (HM : Forall (fun y => gteT y = true /\ lteT y = true) M).
Context (HC : Forall (fun y => gteT y = true /\ lteT y = false) C).
Context (Hg : reads (fun _ => gte) (fun _ => gteT)) (Hl : reads (fun _ => lte) (fun _ => lteT)).
Context (Hlen : Z.of_nat (length (A ++ M ++ C)) < 2 ^ 62).

Lemma heights_ok L : (forall y, y ∈ L -> y ∈ A ++ M ++ C) ->
  Forall (fun y => 1 <= t_height y)%nat L /\ Forall (low (level zsl)) L.
Proof using Hsh.
  intros Hsub. pose proof (sh_heights _ _ Hsh) as Hh. unfold low. rewrite !Forall_forall. rewrite Forall_forall in Hh.
  split; intros y Hy; specialize (Hh y (Hsub y Hy)); simpl in Hh; lia.
Qed.

(** The node the jumps start from. *)
Definition start_at (P0 : list tower) (x0 : tower) (R0 : list tower) : Prop :=
  hd zsl :: A = P0 ++ x0 :: R0 /\ (level zsl <= t_height x0)%nat /\ Forall (low (level zsl - 1)) R0 /\
  nodes_ok (heap zsl) (level zsl) P0 (x0 :: R0 ++ M ++ C) [].

Lemma out_cut r0 R : (forall y, y ∈ R -> y ∈ A) -> cut (fun _ y => negb (gteT y)) r0 R (M ++ C).
Proof using HA HM HC.
  intros Hsub. apply cut_pred.
  - rewrite Forall_forall in HA |- *. intros y Hy. by destruct (HA y (Hsub y Hy)) as [-> _].
  - apply Forall_app. rewrite Forall_forall in HM, HC. rewrite !Forall_forall. split; intros y Hy; [by destruct (HM y Hy) as [-> _]|].
    by destruct (HC y Hy) as [-> _].
Qed.

Lemma out_reads : reads (fun _ n => negb (gte n)) (fun _ y => negb (gteT y)).
Proof using Hg. intros k n y He Hs. f_equal. by apply (Hg k). Qed.

Lemma top_walk : exists P0 x0 R0, start_at P0 x0 R0 /\
  walk (fun _ n => negb (gte n)) (steps zsl) (heap zsl) (level zsl - 1) (header zsl) 0 =
    Ret (t_id x0, Z.of_nat (length P0)).
Proof using Hsh HA HM HC Hg.
  pose proof (sh_level _ _ Hsh) as Hlev. change (header zsl) with (t_id (hd zsl)).
  destruct (walk_step (fun _ n => negb (gte n)) (fun _ y => negb (gteT y)) (heap zsl) (level zsl) (level zsl - 1)
    (M ++ C) (steps zsl) [] A (hd zsl) 0) as (P & x & R & E & Hx & Hlow & Hw & Hok & _ & _).
  - exact out_reads.
  - lia.
  - apply Hsh.
  - change (t_height (hd zsl)) with ZSKIPLIST_MAXLEVEL. lia.
  - by apply out_cut.
  - unfold steps. rewrite (sh_len _ _ Hsh), !length_app. lia.
  - exists P, x, R. split; [|done]. split_and!; [done|lia|done|done].
Qed.

(** A jump to an absolute rank, from the node the search started at. *)
Lemma jump P0 x0 R0 t y : start_at P0 x0 R0 -> 1 <= t -> (A ++ M ++ C) !! Z.to_nat (t - 1) = Some y ->
  zslGetElementByRankFromNode zsl (t_id x0) (level zsl) (u64 (t - Z.of_nat (length P0))) =
  Ret (if Z.of_nat (length P0) <=? t then Some (t_id y) else None).
Proof using Hsh Hlen.
  intros (E & Hx & Hlow & Hok) Ht Hy. unfold zslGetElementByRankFromNode.
  pose proof (sh_level _ _ Hsh) as Hlev. pose proof (lookup_lt_Some _ _ _ Hy) as Hlt.
  assert (length P0 + length R0 = length A)%nat as HlP.
  { apply (f_equal length) in E. rewrite length_app in E. simpl in E. lia. }
  assert (length (R0 ++ M ++ C) <= steps zsl)%nat as Hst.
  { unfold steps. rewrite (sh_len _ _ Hsh), !length_app. lia. }
  destruct (Z.leb_spec (Z.of_nat (length P0)) t) as [Hle|Hgt].
  - unfold wrap. rewrite Z.mod_small by lia. set (d := Z.to_nat (t - Z.of_nat (length P0))).
    assert ((x0 :: R0 ++ M ++ C) !! d = Some y) as Hd.
    { replace (x0 :: R0 ++ M ++ C) with (drop (length P0) (hd zsl :: A ++ M ++ C)).
      - rewrite lookup_drop. replace (length P0 + d)%nat with (S (Z.to_nat (t - 1))) by lia. done.
      - change (hd zsl :: A ++ M ++ C) with ((hd zsl :: A) ++ M ++ C). rewrite E, <- app_assoc. by rewrite drop_app_length. }
    pose proof Hd as Hd'. apply list_elem_of_split_length in Hd' as (Q & S2 & EQ & HlQ).
    assert (exists R, x0 :: R = Q ++ [y] /\ R0 ++ M ++ C = R ++ S2) as (R & ER & ER2).
    { destruct Q as [|q Q]; simpl in EQ; injection EQ as -> EQ; [by exists []|].
      exists (Q ++ [y]). split; [done|]. by rewrite EQ, <- app_assoc. }
    rewrite ER2 in Hok, Hst. rewrite length_app in Hst.
    apply (by_rank_hit _ (level zsl) S2 _ _ _ P0 R x0 0 Q y); try done; try lia.
    + assert (length R = length Q) by (apply (f_equal length) in ER; rewrite length_app in ER; simpl in ER; lia).
      split; intros P z F EF; apply (f_equal length) in EF; rewrite length_app in EF; simpl in EF;
        [apply Z.leb_le|apply Z.leb_gt]; lia.
    + assert (y ∈ A ++ M ++ C) as Hin by (by eapply list_elem_of_lookup_2).
      destruct (heights_ok [y]) as [Hh _]; [by intros z ->%list_elem_of_singleton|]. by apply Forall_cons_1 in Hh as [? _].
  - apply (by_rank_miss _ (level zsl) _ _ _ P0 (R0 ++ M ++ C) x0); try done; try lia.
    rewrite !length_app in Hlen, Hlt |- *. unfold wrap.
    assert ((t - Z.of_nat (length P0)) mod 2 ^ 64 = t - Z.of_nat (length P0) + 2 ^ 64) as ->.
    { symmetry. apply (Z.mod_unique _ _ (-1)); lia. }
    lia.
Qed.

Lemma M_lookup i y : (A ++ M ++ C) !! i = Some y ->
  (gteT y && lteT y = true -> (length A <= i)%nat /\ M !! (i - length A)%nat = Some y) /\
  (gteT y = false -> (i < length A)%nat) /\ (lteT y = false -> (length A + length M <= i)%nat).
Proof using HA HM HC.
  intros Hy. rewrite Forall_forall in HA, HM, HC. apply lookup_app_Some in Hy as [Hy|[Hi Hy]].
  - pose proof (lookup_lt_Some _ _ _ Hy). apply list_elem_of_lookup_2 in Hy. destruct (HA y Hy) as [-> ->]. done.
  - apply lookup_app_Some in Hy as [Hy|[Hi' Hy]].
    + pose proof (list_elem_of_lookup_2 _ _ _ Hy) as Hy'. by destruct (HM y Hy') as [-> ->].
    + apply list_elem_of_lookup_2 in Hy. destruct (HC y Hy) as [-> ->]. split_and!; [done|done|lia].
Qed.

Lemma nodes_after Q u B : hd zsl :: A ++ M ++ C = Q ++ u :: B -> nodes_ok (heap zsl) (level zsl) Q (u :: B) [].
Proof using Hsh. intros E. pose proof (sh_nodes _ _ Hsh) as Hn. rewrite E in Hn. by apply nodes_ok_app in Hn as [_ ?]. Qed.

Lemma sub_A P0 x0 R0 : start_at P0 x0 R0 -> forall y, y ∈ R0 -> y ∈ A.
Proof using.
  intros (E & _) y Hy. destruct P0 as [|p P0]; simpl in E; injection E as _ EA; rewrite EA; [done|].
  apply elem_of_app. right. by right.
Qed.

Lemma nth_forward P0 x0 R0 n : start_at P0 x0 R0 -> 0 <= n < 2 ^ 63 ->
  (let* (x, edge_rank) := go_down (fun _ n => negb (gte n)) (steps zsl) (heap zsl) (level zsl - 1)
     (t_id x0) (Z.of_nat (length P0)) in
   if length_ zsl <=? u64 (edge_rank + n) then Ret None else
   let* x :=
     if n <? ZSKIPLIST_MAX_SEARCH then forwards (Z.to_nat (n + 1)) (heap zsl) (Some x)
     else zslGetElementByRankFromNode zsl (t_id x0) (level zsl) (u64 (edge_rank + 1 + n - Z.of_nat (length P0))) in
   keep_if (heap zsl) lte x) = Ret (t_id <$> M !! Z.to_nat n).
Proof using Hsh HA HM HC Hg Hl Hlen.
  intros Hst Hn. pose proof Hst as (E & Hx & Hlow & Hok). pose proof (sub_A _ _ _ Hst) as Hsub.
  pose proof (sh_level _ _ Hsh) as Hlev.
  destruct (heights_ok R0) as [Hh _]; [intros y Hy; apply elem_of_app; left; by apply Hsub|].
  destruct (go_down_spec _ _ (heap zsl) (level zsl) (M ++ C) out_reads (level zsl - 1) (steps zsl) P0 R0 x0
    (Z.of_nat (length P0)) Hok ltac:(lia) ltac:(lia) (out_cut _ _ Hsub)) as (Q & u & EQ & ->); [|done|done|].
  { apply (f_equal length) in E. rewrite length_app in E. simpl in E. unfold steps.
    rewrite (sh_len _ _ Hsh), !length_app. lia. }
  cbn [obind]. assert (hd zsl :: A = (P0 ++ Q) ++ [u]) as EA by (by rewrite E, EQ, app_assoc).
  assert (length P0 + length Q = length A)%nat as HlQ.
  { apply (f_equal length) in EA. rewrite !length_app in EA. simpl in EA. lia. }
  replace (Z.of_nat (length P0) + Z.of_nat (length Q)) with (Z.of_nat (length A)) by lia.
  rewrite (sh_len _ _ Hsh). pose proof Hlen as Hlen'. rewrite !length_app in Hlen' |- *. unfold wrap.
  rewrite Z.mod_small by lia. destruct (Z.leb_spec (Z.of_nat (length A + (length M + length C))) (Z.of_nat (length A) + n)).
  { rewrite lookup_ge_None_2 by lia. done. }
  destruct (lookup_lt_is_Some_2 (A ++ M ++ C) (length A + Z.to_nat n)) as [y Hy]; [rewrite !length_app; lia|].
  assert ((if n <? ZSKIPLIST_MAX_SEARCH then forwards (Z.to_nat (n + 1)) (heap zsl) (Some (t_id u))
           else zslGetElementByRankFromNode zsl (t_id x0) (level zsl)
                  ((Z.of_nat (length A) + 1 + n - Z.of_nat (length P0)) mod 2 ^ 64)) = Ret (t_id <$> Some y)) as ->.
  { assert (hd zsl :: A ++ M ++ C = (P0 ++ Q) ++ u :: M ++ C) as EF.
    { change (hd zsl :: A ++ M ++ C) with ((hd zsl :: A) ++ M ++ C). rewrite EA. by rewrite <- app_assoc. }
    case_bool.
    - apply (forwards_spec _ (level zsl) ltac:(lia) _ (P0 ++ Q) u (M ++ C)); [by apply nodes_after| |].
      + constructor.
        * destruct (P0 ++ Q) as [|p L]; simpl in EA; injection EA as EA1 EA2.
          -- rewrite <- EA1. simpl. unfold ZSKIPLIST_MAXLEVEL. lia.
          -- destruct (heights_ok [u]) as [Hu _]; [|by apply Forall_cons_1 in Hu as [? _]].
             intros z ->%list_elem_of_singleton. apply elem_of_app. left. rewrite EA2. apply elem_of_app. right. by left.
        * apply heights_ok. intros z Hz. apply elem_of_app. by right.
      + replace (Z.to_nat (n + 1)) with (S (Z.to_nat n)) by lia. simpl.
        rewrite lookup_app_r in Hy by lia. by replace (length A + Z.to_nat n - length A)%nat with (Z.to_nat n) in Hy by lia.
    - pose proof (jump P0 x0 R0 (Z.of_nat (length A) + 1 + n) y Hst ltac:(lia)) as Hj.
      replace (Z.to_nat (Z.of_nat (length A) + 1 + n - 1)) with (length A + Z.to_nat n)%nat in Hj by lia.
      specialize (Hj Hy). unfold wrap in Hj. rewrite Hj. destruct (Z.leb_spec (Z.of_nat (length P0)) (Z.of_nat (length A) + 1 + n)); [done|lia]. }
  cbn [obind]. rewrite (keep_spec zsl _ lte lteT (Some y) Hsh Hl) by (by eapply list_elem_of_lookup_2). do 2 f_equal. simpl.
  destruct (M_lookup _ _ Hy) as (H1 & H2 & H3). destruct (lteT y) eqn:El.
  - destruct (gteT y) eqn:Eg; [|specialize (H2 eq_refl); lia]. destruct (H1 eq_refl) as [_ H4]. rewrite <- H4. f_equal. lia.
  - rewrite lookup_ge_None_2; [done|]. specialize (H3 eq_refl). lia.
Qed.

Lemma nth_backward P0 x0 R0 n : start_at P0 x0 R0 -> - 2 ^ 63 < n < 0 ->
  (let* (x, edge_rank) := go_down (fun _ => lte) (steps zsl) (heap zsl) (level zsl) (t_id x0) (Z.of_nat (length P0)) in
   if edge_rank <? s64 (- n) then Ret None else
   let* x :=
     if - ZSKIPLIST_MAX_SEARCH <? n + 1 then backwards (Z.to_nat (- n - 1)) (heap zsl) (Some x)
     else zslGetElementByRankFromNode zsl (t_id x0) (level zsl) (u64 (edge_rank + 1 + n - Z.of_nat (length P0))) in
   keep_if (heap zsl) gte x) =
  Ret (t_id <$> (if - n <=? Z.of_nat (length M) then M !! Z.to_nat (Z.of_nat (length M) + n) else None)).
Proof using Hsh HA HM HC Hg Hl Hlen.
  intros Hst Hn. pose proof Hst as (E & Hx & Hlow & Hok). pose proof (sub_A _ _ _ Hst) as Hsub.
  pose proof (sh_level _ _ Hsh) as Hlev. rewrite app_assoc in Hok.
  assert (length P0 + length R0 = length A)%nat as HlP.
  { apply (f_equal length) in E. rewrite length_app in E. simpl in E. lia. }
  destruct (heights_ok (R0 ++ M)) as [Hh Hlow'].
  { intros y [Hy|Hy]%elem_of_app; apply elem_of_app; [left; by apply Hsub|]. right. apply elem_of_app. by left. }
  destruct (go_down_spec _ _ (heap zsl) (level zsl) C Hl (level zsl) (steps zsl) P0 (R0 ++ M) x0
    (Z.of_nat (length P0)) Hok ltac:(lia) ltac:(lia)) as (Q & u & EQ & ->); [| |done|done|].
  { rewrite Forall_forall in HA, HM, HC. apply cut_pred; [apply Forall_app; split|]; apply Forall_forall; intros y Hy.
    - by destruct (HA y (Hsub y Hy)).
    - by destruct (HM y Hy).
    - by destruct (HC y Hy). }
  { unfold steps. rewrite (sh_len _ _ Hsh), !length_app. lia. }
  cbn [obind]. assert (hd zsl :: A ++ M = (P0 ++ Q) ++ [u]) as EA.
  { rewrite <- app_assoc, <- EQ. change (hd zsl :: A ++ M) with ((hd zsl :: A) ++ M). rewrite E. by rewrite <- app_assoc. }
  assert (length P0 + length Q = length A + length M)%nat as HlQ.
  { apply (f_equal length) in EA. rewrite !length_app in EA. simpl in EA. rewrite length_app in EA. lia. }
  replace (Z.of_nat (length P0) + Z.of_nat (length Q)) with (Z.of_nat (length A + length M)) by lia.
  rewrite swrap_small by (unfold in_s; lia). pose proof Hlen as Hlen'. rewrite !length_app in Hlen'.
  destruct (Z.ltb_spec (Z.of_nat (length A + length M)) (- n)).
  { destruct (Z.leb_spec (- n) (Z.of_nat (length M))); [lia|done]. }
  set (t := Z.of_nat (length A + length M) + 1 + n).
  destruct (lookup_lt_is_Some_2 (A ++ M ++ C) (Z.to_nat (t - 1))) as [y Hy]; [rewrite !length_app; lia|].
  assert (exists b, (b = false -> t < Z.of_nat (length P0)) /\
    (if - ZSKIPLIST_MAX_SEARCH <? n + 1 then backwards (Z.to_nat (- n - 1)) (heap zsl) (Some (t_id u))
     else zslGetElementByRankFromNode zsl (t_id x0) (level zsl) (u64 (t - Z.of_nat (length P0)))) =
     Ret (t_id <$> (if b then Some y else None))) as (b & Hb & ->).
  { case_bool.
    - exists true. split; [done|]. apply (backwards_spec _ (level zsl) (hd zsl) (A ++ M ++ C) (sh_nodes _ _ Hsh) _ (Z.to_nat (t - 1))); [|done].
      replace (Z.to_nat (t - 1) + Z.to_nat (- n - 1))%nat with (length A + length M - 1)%nat by lia.
      destruct (P0 ++ Q) as [|p L] eqn:EL; simpl in EA; injection EA as _ EA.
      + apply (f_equal length) in EL. rewrite length_app in EL. simpl in EL. lia.
      + rewrite app_assoc, EA. apply (f_equal length) in EL. rewrite length_app in EL. simpl in EL.
        replace (length A + length M - 1)%nat with (length L) by lia. rewrite <- app_assoc. by apply list_lookup_middle.
    - exists (Z.of_nat (length P0) <=? t). split; [intros Hf; by apply Z.leb_gt in Hf|].
      rewrite (jump P0 x0 R0 t y Hst ltac:(lia) Hy). by destruct (_ <=? _). }
  cbn [obind]. rewrite (keep_spec zsl _ gte gteT (if b then Some y else None) Hsh Hg).
  2: { destruct b; [|done]. by eapply list_elem_of_lookup_2. }
  do 2 f_equal. destruct (M_lookup _ _ Hy) as (H1 & H2 & H3).
  destruct (Z.leb_spec (- n) (Z.of_nat (length M))).
  - destruct b; [|specialize (Hb eq_refl); lia]. simpl. destruct (gteT y) eqn:Eg; [|specialize (H2 eq_refl); lia].
    destruct (lteT y) eqn:El; [|specialize (H3 eq_refl); lia]. destruct (H1 eq_refl) as [_ H4]. rewrite <- H4. f_equal. lia.
  - destruct b; [|done]. simpl. destruct (gteT y) eqn:Eg; [|done]. destruct (lteT y) eqn:El.
    + destruct (H1 eq_refl). lia.
    + specialize (H3 eq_refl). lia.
Qed.

End Nth.

(** What the code's early test for empty ranges means. *)
Record consistent (T : list tower) (empty : bool) (gte lte : tower -> bool) : Prop := {
  c_none : empty = true -> forall y, y ∈ T -> gte y && lte y = false;
  c_side : empty = false -> forall y, y ∈ T -> gte y = false -> lte y = true;
}.

(** The nth of a list, from the end when [n] is negative. *)
Definition nth_of {X} (L : list X) (n : Z) : option X :=
  if 0 <=? n then L !! Z.to_nat n
  else if - n <=? Z.of_nat (length L) then L !! Z.to_nat (Z.of_nat (length L) + n) else None.

Lemma nth_nil {X} n : nth_of (@nil X) n = None.
Proof. unfold nth_of. case_bool; [done|]. simpl. case_bool; [lia|done]. Qed.

Lemma nth_in_spec zsl T empty gte lte gteT lteT n : zsl_ok zsl T -> bounds T gteT lteT ->
  consistent T empty gteT lteT -> reads (fun _ => gte) (fun _ => gteT) -> reads (fun _ => lte) (fun _ => lteT) ->
  Z.of_nat (length T) < 2 ^ 62 -> - 2 ^ 63 < n < 2 ^ 63 ->
  nth_in zsl empty gte lte n = Ret (t_id <$> nth_of (inside gteT lteT T) n).
Proof.
  intros [Hsh Hso] Hb [Hnone Hside] Hg Hl Hlen Hn. unfold nth_in. rewrite (is_in_spec zsl T empty gte lte gteT lteT) by done.
  cbn [obind]. destruct (_ && _) eqn:Ein; cbn [negb].
  - apply andb_true_iff in Ein as [Ein _]. apply andb_true_iff in Ein as [Ein _]. apply negb_true_iff in Ein. subst empty.
    destruct (three_parts T gteT lteT Hso Hb) as (A & M & C & -> & HA & HM & HC).
    destruct (parts_inside gteT lteT A M C HA HM HC) as [-> _].
    assert (Forall (fun y => gteT y = false /\ lteT y = true) A) as HA'.
    { rewrite Forall_forall in HA |- *. intros y Hy. specialize (HA y Hy). split; [done|]. apply Hside; try done.
      apply elem_of_app. by left. }
    destruct (top_walk zsl A M C gte gteT lteT Hsh HA' HM HC Hg) as (P0 & x0 & R0 & Hst & ->). cbn [obind].
    unfold nth_of. destruct (Z.leb_spec 0 n).
    + apply (nth_forward zsl A M C gte lte gteT lteT Hsh HA' HM HC Hg Hl Hlen P0 x0 R0 n Hst). lia.
    + apply (nth_backward zsl A M C gte lte gteT lteT Hsh HA' HM HC Hg Hl Hlen P0 x0 R0 n Hst). lia.
  - assert (inside gteT lteT T = []) as ->; [|by rewrite nth_nil].
    apply filter_none. apply Forall_forall. intros y Hy Hin. apply andb_true_iff in Hin as [Hyg Hyl].
    destruct empty; [by specialize (Hnone eq_refl y Hy); rewrite Hyg, Hyl in Hnone|]. simpl in Ein.
    pose proof Hso as [Hs _]%sorted_towers. apply list_elem_of_split in Hy as (P & R & ET).
    assert (forall z, z ∈ T -> z = y \/ elt (ent z) (ent y) \/ elt (ent y) (ent z)) as Hcmp.
    { intros z Hz. rewrite ET in Hz, Hs. apply SS_app in Hs as (_ & Hs & HPR). apply StronglySorted_inv in Hs as [_ HyR].
      apply elem_of_app in Hz as [Hz|Hz].
      - right. left. rewrite Forall_forall in HPR. specialize (HPR z Hz). by apply Forall_cons_1 in HPR as [? _].
      - apply elem_of_cons in Hz as [->|Hz]; [by left|]. right. right. rewrite Forall_forall in HyR. by apply HyR. }
    assert (match last T with Some y => gteT y | None => false end = true) as El.
    { destruct (last T) as [z|] eqn:El; [|apply last_None in El; by rewrite El in ET; destruct P].
      destruct R as [|r R] using rev_ind; [rewrite ET, last_snoc in El; by injection El as ->|].
      rewrite ET, app_comm_cons, app_assoc, last_snoc in El. injection El as ->.
      rewrite ET in Hs. apply SS_app in Hs as (_ & Hs & _). apply StronglySorted_inv in Hs as [_ Hs].
      apply Forall_app in Hs as [_ [Hs _]%Forall_cons_1].
      apply (b_up _ _ _ Hb y z); try done; rewrite ET; apply elem_of_app; right; [by left|right; apply elem_of_app; right; by left]. }
    assert (match head T with Some y => lteT y | None => false end = true) as Eh.
    { destruct P as [|p P]; rewrite ET; simpl; [done|].
      rewrite ET in Hs. apply StronglySorted_inv in Hs as [_ Hs]. apply Forall_app in Hs as [_ [Hs _]%Forall_cons_1].
      apply (b_down _ _ _ Hb p y); try done; rewrite ET; [by left|]. right. apply elem_of_app. right. by left. }
    by rewrite El, Eh in Ein.
Qed.

Lemma score_consistent T range : sorted (ent <$> T) -> range_ok range ->
  consistent T (empty_range range) (gteT range) (lteT range).
Proof.
  intros [_ Hn]%sorted_towers Hr. rewrite Forall_forall in Hn. pose proof Hr as [Hmin Hmax].
  assert (empty_range range = true <-> klt (dkey (r_max range)) (dkey (r_min range)) \/
    dkey (r_min range) = dkey (r_max range) /\ (r_minex range || r_maxex range = true)) as He.
  { unfold empty_range. rewrite orb_true_iff, andb_true_iff, dlt_key, deq_key by done. done. }
  split; intros E y Hy; specialize (Hn y Hy); unfold number in Hn; simpl in Hn; unfold gteT, lteT.
  - apply andb_false_iff. rewrite <- !not_true_iff_false, gte_key, lte_key by done. apply He in E.
    destruct (klt_total (dkey (t_score y)) (dkey (r_min range))) as [H|[H|H]].
    + left. intros Hc. apply (klt_irrefl (dkey (t_score y))). destruct (r_minex range);
        [by eapply klt_trans|by eapply klt_le_trans].
    + destruct (r_minex range); [left; rewrite H; apply klt_irrefl|]. right. intros Hc. rewrite H in Hc.
      destruct E as [E|[E Ex]].
      * apply (klt_irrefl (dkey (r_max range))). destruct (r_maxex range); [by eapply klt_trans|by eapply klt_le_trans].
      * simpl in Ex. rewrite Ex, E in Hc. by apply klt_irrefl in Hc.
    + right. intros Hc. apply (klt_irrefl (dkey (r_max range))).
      assert (kle (dkey (r_max range)) (dkey (r_min range))) as Hle by (destruct E as [?|[E _]]; [by left|by right]).
      assert (klt (dkey (r_max range)) (dkey (t_score y))) as Hlt by (by eapply kle_lt_trans).
      destruct (r_maxex range); [by eapply klt_trans|by eapply klt_le_trans].
  - rewrite <- not_true_iff_false, gte_key by done. intros Hg. apply lte_key; try done.
    apply not_true_iff_false in E. rewrite He in E. apply Decidable.not_or in E as [E1 E2].
    destruct (klt_total (dkey (t_score y)) (dkey (r_min range))) as [H|[H|H]].
    + assert (klt (dkey (t_score y)) (dkey (r_max range))) as Hlt.
      { eapply klt_le_trans; [exact H|]. destruct (klt_total (dkey (r_min range)) (dkey (r_max range))) as [?|[?|?]];
          [by left|by right|done]. }
      destruct (r_maxex range); [done|by left].
    + destruct (r_minex range); [|destruct Hg; by right]. rewrite H.
      destruct (klt_total (dkey (r_min range)) (dkey (r_max range))) as [Hc|[Hc|Hc]]; [|by destruct E2|done].
      destruct (r_maxex range); [done|by left].
    + destruct (r_minex range); [done|]. destruct Hg. by left.
Qed.

Lemma lex_consistent T range : consistent T (empty_lex range) (gteL range) (lteL range).
Proof.
  assert (empty_lex range = match StrObj.sign (sdscmplex (l_min range) (l_max range)) with
    | Gt => true | Eq => l_minex range || l_maxex range | Lt => false end) as Ee.
  { unfold empty_lex. cbv zeta. destruct (sign_cases (sdscmplex (l_min range) (l_max range))) as (-> & _).
    unfold StrObj.sign. destruct (Z.compare_spec (sdscmplex (l_min range) (l_max range)) 0) as [->| |]; simpl; try done.
    case_bool; [lia|done]. }
  split; rewrite Ee; intros E y _; unfold gteL, lteL; rewrite gte_lex, lte_lex; cbv zeta;
    destruct (l_min range) as [| |a], (l_max range) as [| |b], (l_minex range), (l_maxex range); simpl in *;
    rewrite ?sdscmp_lex in E; try done.
  all: try (by destruct (StrObj.lex (tele y) _)).
  all: destruct (StrObj.lex a b) eqn:Eab; try done.
  all: try (apply StrObj.lex_eq in Eab; subst; by destruct (StrObj.lex (tele y) _)).
  all: try (pose proof (lex_gt_trans a b (tele y) Eab) as [H1 H2]).
  all: try (assert (StrObj.lex b a = Lt) as Eba by (by rewrite lex_antisym, Eab);
    pose proof (lex_gt_trans b a (tele y) Eba) as [H1 H2]).
  all: rewrite (lex_antisym (tele y) a), (lex_antisym (tele y) b) in H1.
  all: by destruct (StrObj.lex (tele y) a), (StrObj.lex (tele y) b); simpl in *; try done; specialize (H1 ltac:(done)).
Qed.

(** ** Theorems *)

Lemma gte_reads' range : reads (fun _ => gte_min range) (fun _ => gteT range).
Proof. intros k n y He Hs. unfold gte_min, gteT. by rewrite Hs. Qed.
Lemma gteL_reads' range : reads (fun _ => gte_min_lex range) (fun _ => gteL range).
Proof. intros k n y He Hs. unfold gte_min_lex, gteL, ele_of, tele. by rewrite He. Qed.

(** The nth element of a range, by score or by element, is the nth of the
    entries of the sorted list that lie in the range, counted from the end when
    [n] is negative; NULL when there are fewer.  This holds for small offsets, where
    the code steps from node to node, and for large ones, where it jumps by ranks,
    also when the rank difference of a backward jump wraps around. *)
Theorem zsl_nth_in_range zsl T range lrange n : zsl_inv zsl T -> range_ok range ->
  Z.of_nat (length T) < 2 ^ 62 -> - 2 ^ 63 < n < 2 ^ 63 ->
  zslNthInRange zsl range n = Ret (t_id <$> nth_of (inside (gteT range) (lteT range) T) n) /\
  (same_scores T -> zslNthInLexRange zsl lrange n = Ret (t_id <$> nth_of (inside (gteL lrange) (lteL lrange) T) n)).
Proof.
  intros [Hok _] Hr Hlen Hn. pose proof (ok_sorted _ _ Hok) as Hso. split.
  - apply nth_in_spec; try done; [by apply score_bounds|by apply score_consistent|apply gte_reads'|apply lte_reads].
  - intros Hsame. apply nth_in_spec; try done; [by apply lex_bounds|apply lex_consistent|apply gteL_reads'|apply lteL_reads].
Qed.

(** Deleting a range by score, by element or by rank removes exactly the
    entries in the range, gives the elements to delete from the dictionary in
    order, and leaves a well-formed skip list of the others. *)
Theorem zsl_delete_ranges zsl T range lrange start stop : zsl_inv zsl T -> range_ok range -> 1 <= start < 2 ^ 32 -> 0 <= stop < 2 ^ 32 ->
  (exists zsl', zslDeleteRangeByScore zsl range = Ret (zsl', tele <$> inside (gteT range) (lteT range) T) /\
     zsl_inv zsl' (outside (gteT range) (lteT range) T)) /\
  (same_scores T -> exists zsl',
     zslDeleteRangeByLex zsl lrange = Ret (zsl', tele <$> inside (gteL lrange) (lteL lrange) T) /\
     zsl_inv zsl' (outside (gteL lrange) (lteL lrange) T)) /\
  (let a := Z.to_nat (start - 1) in let b := Z.to_nat (stop - start + 1) in
   exists zsl', zslDeleteRangeByRank zsl start stop = Ret (zsl', tele <$> take b (drop a T)) /\
     zsl_inv zsl' (take a T ++ drop b (drop a T))).
Proof.
  intros Hinv Hr Hs He. pose proof (ok_sorted _ _ (proj1 Hinv)) as Hso. split_and!.
  - apply (delete_bounds zsl T); [done|by apply score_bounds|apply gte_reads|apply lte_reads].
  - intros Hsame. apply (delete_bounds zsl T); [done|by apply lex_bounds|apply gteL_reads|apply lteL_reads].
  - by apply delete_ranks.
Qed.

(** ** Witnesses *)

Definition from4to6 : zrangespec := Zrange (of_int 4) (of_int 6) false true.
Definition from_a : zlexrangespec := Zlexrange (LStr (chars "a")) LMax false true.
Definition one_tower : list tower := [Tower 1 2 (of_int 5) (Some (chars "a"))].

Lemma zsl_nth_in_range_witness :
  zslNthInRange one from4to6 (-1) = Ret (Some 1) /\ (same_scores one_tower -> zslNthInLexRange one from_a (-1) = Ret (Some 1)).
Proof.
  apply (zsl_nth_in_range one one_tower from4to6 from_a (-1) one_inv); [by split|vm_compute; reflexivity|].
  split; vm_compute; reflexivity.
Defined.

Lemma zsl_delete_ranges_witness :
  (exists zsl', zslDeleteRangeByScore one from4to6 = Ret (zsl', [chars "a"]) /\ zsl_inv zsl' []) /\
  (same_scores one_tower -> exists zsl', zslDeleteRangeByLex one from_a = Ret (zsl', [chars "a"]) /\ zsl_inv zsl' []) /\
  exists zsl', zslDeleteRangeByRank one 1 1 = Ret (zsl', [chars "a"]) /\ zsl_inv zsl' [].
Proof. apply (zsl_delete_ranges one one_tower from4to6 from_a 1 1 one_inv); [by split|lia|lia]. Defined.

End ZslRange.
