(* ===== verification/Zset.v ===== *)
(** * Zset: sorted sets as a dictionary and a skip list (t_zset.c)

    A large sorted set has its elements in a skip list and in a dictionary from
    elements to nodes, whose scores the dictionary's values point to.  The code
    calls a few dict operations, which are an interface here; the hash table of
    [Dict] implements it.  The element string a node and the dictionary share is
    copied in the model.

    The operations of the common API are modelled for this encoding; the small
    encoding, a listpack, is not. *)
From S2P Require Import Prelude Dict StrObj Double Zskiplist ZslSpec ZslRange.
Import Double Zskiplist ZslSpec ZslRange.

(** ** What the code asks of a dictionary *)

(** [E] is a pointer to an entry.  The values are addresses of nodes. *)
Class ScoreDict (D E : Type) := {
  s_create : D;
  s_find : D -> list Z -> outcome (D * option E);
  s_get : D -> E -> outcome Z;
  s_set : D -> E -> Z -> outcome D;
  s_add : D -> list Z -> Z -> outcome (D * Z);
  s_unlink : D -> list Z -> outcome (D * option Z);
  s_delete : D -> list Z -> outcome (D * Z);
}.

Class ScoreDictLaws (D E : Type) `{ScoreDict D E} := {
  s_ok : D -> Prop;
  s_map : D -> gmap (list Z) Z;
  (** The entry of a key. *)
  s_at : D -> E -> list Z -> Prop;
  s_create_ok : s_ok s_create /\ s_map s_create = ∅;
  s_find_ok : forall d k, s_ok d -> exists d' r, s_find d k = Ret (d', r) /\ s_ok d' /\ s_map d' = s_map d /\
    match r with Some e => s_at d' e k | None => s_map d !! k = None end;
  s_get_ok : forall d e k, s_ok d -> s_at d e k -> exists v, s_get d e = Ret v /\ s_map d !! k = Some v;
  s_set_ok : forall d e k v, s_ok d -> s_at d e k ->
    exists d', s_set d e v = Ret d' /\ s_ok d' /\ s_map d' = <[k := v]> (s_map d);
  s_add_ok : forall d k v, s_ok d -> s_map d !! k = None ->
    exists d', s_add d k v = Ret (d', Dict.DICT_OK) /\ s_ok d' /\ s_map d' = <[k := v]> (s_map d);
  s_unlink_ok : forall d k, s_ok d ->
    exists d', s_unlink d k = Ret (d', s_map d !! k) /\ s_ok d' /\ s_map d' = delete k (s_map d);
  s_delete_ok : forall d k, s_ok d -> exists d', s_ok d' /\ s_map d' = delete k (s_map d) /\
    s_delete d k = Ret (d', match s_map d !! k with Some _ => Dict.DICT_OK | None => Dict.DICT_ERR end);
}.

Module Zset.

Definition ZADD_IN_INCR : Z := 1.
Definition ZADD_IN_NX : Z := 2.
Definition ZADD_IN_XX : Z := 4.
Definition ZADD_IN_GT : Z := 8.
Definition ZADD_IN_LT : Z := 16.
Definition ZADD_OUT_NOP : Z := 1.
Definition ZADD_OUT_NAN : Z := 2.
Definition ZADD_OUT_ADDED : Z := 4.
Definition ZADD_OUT_UPDATED : Z := 8.

(** [(in_flags & f) != 0] *)
Definition has_flag (in_flags f : Z) : bool := negb (Z.land in_flags f =? 0).

(** What the value of an entry points to: the score of a node. *)
Definition score_at (zsl : zskiplist) (p : Z) : outcome double :=
  let* n := Zskiplist.deref (heap zsl) p in Ret (n_score n).

Section Ops.
Context {D E : Type} `{ScoreDict D E}.

Record zset := Zs { zs_dict : D; zs_zsl : zskiplist }.

Definition zsetLength (zs : zset) : Z := length_ (zs_zsl zs).

(** The lookup may move the dictionary's rehashing on. *)
Definition zsetScore (zs : zset) (member : list Z) : outcome (zset * option double) :=
  let* (d, de) := s_find (zs_dict zs) member in
  match de with
  | None => Ret (Zs d (zs_zsl zs), None)
  | Some de =>
      let* p := s_get d de in
      let* score := score_at (zs_zsl zs) p in
      Ret (Zs d (zs_zsl zs), Some score)
  end.

(** The result, [*out_flags] and what is written to [*newscore], if anything.
    [lv] and [p] are the level and the address of a new node. *)
Definition zsetAdd (zs : zset) (score : double) (ele : list Z) (in_flags : Z) (lv : nat) (p : Z)
  : outcome (zset * (Z * Z * option double)) :=
  let incr := has_flag in_flags ZADD_IN_INCR in
  let nx := has_flag in_flags ZADD_IN_NX in
  let xx := has_flag in_flags ZADD_IN_XX in
  let gt := has_flag in_flags ZADD_IN_GT in
  let lt := has_flag in_flags ZADD_IN_LT in
  if isnan score then Ret (zs, (0, ZADD_OUT_NAN, None)) else
  let* (d, de) := s_find (zs_dict zs) ele in
  let zs := Zs d (zs_zsl zs) in
  match de with
  | Some de =>
      if nx then Ret (zs, (1, ZADD_OUT_NOP, None)) else
      let* v := s_get d de in
      let* curscore := score_at (zs_zsl zs) v in
      let score := if incr then dadd score curscore else score in
      if incr && isnan score then Ret (zs, (0, ZADD_OUT_NAN, None)) else
      if lt && dle curscore score || gt && dle score curscore then Ret (zs, (1, ZADD_OUT_NOP, None)) else
      if negb (deq score curscore) then
        let* (zsl, znode) := zslUpdateScore (zs_zsl zs) curscore ele score lv p in
        let* d := s_set d de znode in
        Ret (Zs d zsl, (1, ZADD_OUT_UPDATED, Some score))
      else Ret (zs, (1, 0, Some score))
  | None =>
      if negb xx then
        let* (zsl, znode) := zslInsert (zs_zsl zs) score ele lv p in
        let* (d, r) := s_add d ele znode in
        if r =? Dict.DICT_OK then Ret (Zs d zsl, (1, ZADD_OUT_ADDED, Some score)) else Abort
      else Ret (zs, (1, ZADD_OUT_NOP, None))
  end.

Definition zsetRemoveFromSkiplist (zs : zset) (ele : list Z) : outcome (zset * bool) :=
  let* (d, de) := s_unlink (zs_dict zs) ele in
  match de with
  | None => Ret (Zs d (zs_zsl zs), false)
  | Some v =>
      let* score := score_at (zs_zsl zs) v in
      let* (zsl, retval) := zslDelete (zs_zsl zs) score ele in
      if retval : bool then Ret (Zs d zsl, true) else Abort
  end.

Definition zsetDel (zs : zset) (ele : list Z) : outcome (zset * bool) :=
  let* (zs, r) := zsetRemoveFromSkiplist zs ele in
  Ret (zs, r).

(** The 0-based rank, or -1, and the score. *)
Definition zsetRank (zs : zset) (ele : list Z) (reverse : bool) : outcome (zset * (Z * option double)) :=
  let llen := zsetLength zs in
  let* (d, de) := s_find (zs_dict zs) ele in
  let zs := Zs d (zs_zsl zs) in
  match de with
  | None => Ret (zs, (-1, None))
  | Some de =>
      let* p := s_get d de in
      let* score := score_at (zs_zsl zs) p in
      let* rank := zslGetRank (zs_zsl zs) score ele in
      if rank =? 0 then Abort
      else Ret (zs, (if reverse then llen - rank else rank - 1, Some score))
  end.

(** [dictDelete(dict,x->ele)] for every node a range deletion removes.  The code deletes
    each element from the dictionary when it has unlinked its node; here all nodes are
    unlinked first, which comes to the same, since the one touches only the skip list and
    the other only the dictionary. *)
Fixpoint forget (d : D) (eles : list (list Z)) : outcome D :=
  match eles with
  | [] => Ret d
  | e :: eles => let* (d, _) := s_delete d e in forget d eles
  end.

(** The three range deletions with the dictionary; the number removed. *)
Definition remove_range (zs : zset) (del : zskiplist -> outcome (zskiplist * list (list Z))) : outcome (zset * Z) :=
  let* (zsl, removed) := del (zs_zsl zs) in
  let* d := forget (zs_dict zs) removed in
  Ret (Zs d zsl, Z.of_nat (length removed)).

Definition removeRangeByScore (zs : zset) (range : zrangespec) : outcome (zset * Z) :=
  remove_range zs (fun zsl => zslDeleteRangeByScore zsl range).
Definition removeRangeByLex (zs : zset) (range : zlexrangespec) : outcome (zset * Z) :=
  remove_range zs (fun zsl => zslDeleteRangeByLex zsl range).
Definition removeRangeByRank (zs : zset) (start stop : Z) : outcome (zset * Z) :=
  remove_range zs (fun zsl => zslDeleteRangeByRank zsl start stop).

End Ops.
Arguments zset : clear implicits.

(** ** The sorted list with unique elements *)

Definition score_of (L : list entry) (ele : list Z) : option double :=
  (fun f => fst (snd f)) <$> list_find (fun a => snd a = ele) L.

Definition spec_add (L : list entry) (score : double) (ele : list Z) (in_flags : Z)
  : list entry * (Z * Z * option double) :=
  let incr := has_flag in_flags ZADD_IN_INCR in
  if isnan score then (L, (0, ZADD_OUT_NAN, None)) else
  match score_of L ele with
  | Some cur =>
      if has_flag in_flags ZADD_IN_NX then (L, (1, ZADD_OUT_NOP, None)) else
      let new := if incr then dadd score cur else score in
      if isnan new then (L, (0, ZADD_OUT_NAN, None)) else
      if has_flag in_flags ZADD_IN_LT && dle cur new || has_flag in_flags ZADD_IN_GT && dle new cur
      then (L, (1, ZADD_OUT_NOP, None)) else
      if deq new cur then (L, (1, 0, Some new))
      else (place (new, ele) (remove (cur, ele) L), (1, ZADD_OUT_UPDATED, Some new))
  | None =>
      if has_flag in_flags ZADD_IN_XX then (L, (1, ZADD_OUT_NOP, None))
      else (place (score, ele) L, (1, ZADD_OUT_ADDED, Some score))
  end.

Definition uniq (T : list tower) : Prop := NoDup (tele <$> T).
Definition nodes (T : list tower) : gmap (list Z) Z := list_to_map ((fun y => (tele y, t_id y)) <$> T).

Lemma nodes_keys T : ((fun y => (tele y, t_id y)) <$> T).*1 = tele <$> T.
Proof. rewrite <- list_fmap_compose. done. Qed.

Lemma nodes_perm T T' : uniq T -> T ≡ₚ T' -> nodes T = nodes T'.
Proof. intros Hu Hp. apply list_to_map_proper; [by rewrite nodes_keys|]. by rewrite Hp. Qed.

Lemma uniq_perm T T' : T ≡ₚ T' -> uniq T -> uniq T'.
Proof. unfold uniq. by intros ->. Qed.

Lemma middle_perm (A : list tower) y B : A ++ y :: B ≡ₚ y :: (A ++ B).
Proof. symmetry. apply Permutation_middle. Qed.

Lemma nodes_cons y T : nodes (y :: T) = <[tele y := t_id y]> (nodes T).
Proof. done. Qed.

Lemma nodes_notin T e : e ∉ tele <$> T -> nodes T !! e = None.
Proof. intros He. apply not_elem_of_list_to_map_1. by rewrite nodes_keys. Qed.

Lemma nodes_lookup T e p : nodes T !! e = Some p -> exists A y B, T = A ++ y :: B /\ tele y = e /\ t_id y = p.
Proof.
  intros Hl. apply elem_of_list_to_map_2 in Hl. apply list_elem_of_fmap in Hl as (y & [= -> ->] & Hy).
  apply list_elem_of_split in Hy as (A & B & ->). by exists A, y, B.
Qed.

Lemma zset_nodes_in T y : uniq T -> y ∈ T -> nodes T !! tele y = Some (t_id y).
Proof.
  intros Hu Hy. apply elem_of_list_to_map_1; [by rewrite nodes_keys|].
  by apply (list_elem_of_fmap_2 (fun y => (tele y, t_id y))).
Qed.

Lemma score_of_middle T A y B : uniq T -> T = A ++ y :: B -> score_of (ent <$> T) (tele y) = Some (t_score y).
Proof.
  intros Hu ->. unfold score_of, uniq in *. rewrite fmap_app, fmap_cons. rewrite fmap_app, fmap_cons in Hu.
  apply NoDup_app in Hu as (_ & Hu & _). rewrite list_find_app_r.
  - simpl. by rewrite decide_True by done.
  - apply list_find_None. apply (Forall_ent (fun a => ~ snd a = tele y)). apply Forall_forall. intros z Hz E.
    apply (Hu (tele z)); [by apply list_elem_of_fmap_2|]. simpl in E. rewrite E. by left.
Qed.

Lemma score_of_notin T e : e ∉ tele <$> T -> score_of (ent <$> T) e = None.
Proof.
  intros He. unfold score_of. replace (list_find _ _) with (@None (nat * entry)); [done|]. symmetry.
  apply list_find_None. apply (Forall_ent (fun a => ~ snd a = e)). apply Forall_forall. intros z Hz E.
  apply He. simpl in E. rewrite <- E. by apply list_elem_of_fmap_2.
Qed.

Lemma absent_notin T e s : e ∉ tele <$> T -> absent (s, e) (ent <$> T).
Proof.
  intros He. apply (Forall_ent (fun a => esame a (s, e) = false)). apply Forall_forall. intros z Hz.
  unfold esame. simpl. rewrite bool_decide_eq_false_2; [apply andb_false_r|]. intros E. apply He. rewrite <- E.
  by apply list_elem_of_fmap_2.
Qed.

Lemma uniq_rest A y B : uniq (A ++ y :: B) -> uniq (A ++ B) /\ (tele y ∉ tele <$> A ++ B).
Proof.
  intros Hu. apply (uniq_perm _ (y :: A ++ B)) in Hu; [|apply middle_perm]. unfold uniq in Hu.
  rewrite fmap_cons in Hu. by apply NoDup_cons in Hu as [? ?].
Qed.

Lemma uniq_middle A y B : uniq (A ++ B) -> tele y ∉ tele <$> A ++ B -> uniq (A ++ y :: B).
Proof.
  intros Hu Hn. apply (uniq_perm (y :: A ++ B)); [symmetry; apply middle_perm|]. unfold uniq. rewrite fmap_cons.
  by apply NoDup_cons.
Qed.

Lemma nodes_middle A y B : uniq (A ++ y :: B) -> nodes (A ++ y :: B) = <[tele y := t_id y]> (nodes (A ++ B)).
Proof. intros Hu. by rewrite (nodes_perm _ _ Hu (middle_perm A y B)). Qed.

Section Spec.
Context {D E : Type} `{SD : ScoreDict D E, SDL : !ScoreDictLaws D E}.

(** The skip list, and the dictionary that maps its elements to its nodes. *)
Record zset_inv (zs : zset D) (T : list tower) : Prop := {
  z_zsl : zsl_inv (zs_zsl zs) T;
  z_uniq : uniq T;
  z_ok : s_ok (zs_dict zs);
  z_map : s_map (zs_dict zs) = nodes T;
}.

Lemma score_at_spec zsl T y : zsl_inv zsl T -> y ∈ T -> score_at zsl (t_id y) = Ret (t_score y).
Proof using.
  intros [Hok _] Hy. unfold score_at. destruct (tower_deref zsl T y (ok_shape _ _ Hok) Hy) as (n & -> & Hs & _).
  cbn [obind]. by rewrite Hs.
Qed.

(** The lookup of an element, in the dictionary and in the list. *)
Lemma find_entry zs T ele : zset_inv zs T ->
  exists d de, s_find (zs_dict zs) ele = Ret (d, de) /\ zset_inv (Zs d (zs_zsl zs)) T /\
    match de with
    | Some e => s_at d e ele /\ exists A y B, T = A ++ y :: B /\ tele y = ele /\ s_get d e = Ret (t_id y) /\
        score_at (zs_zsl zs) (t_id y) = Ret (t_score y) /\ score_of (ent <$> T) ele = Some (t_score y)
    | None => (ele ∉ tele <$> T) /\ score_of (ent <$> T) ele = None
    end.
Proof using.
  intros [Hz Hu Hok Hm]. destruct (s_find_ok (zs_dict zs) ele Hok) as (d & r & Ef & Hok' & Hm' & Hr).
  exists d, r. split; [done|]. split; [split; try done; simpl; congruence|]. destruct r as [e|].
  - split; [done|]. destruct (s_get_ok d e ele Hok' Hr) as (v & Hg & Hv). rewrite Hm', Hm in Hv.
    destruct (nodes_lookup T ele v Hv) as (A & y & B & ET & Ey & Ei). exists A, y, B.
    split_and!; [done|done|congruence| |].
    + apply (score_at_spec _ T); [done|]. rewrite ET. apply elem_of_app. right. by left.
    + rewrite <- Ey. by apply (score_of_middle T A y B).
  - assert (ele ∉ tele <$> T) as Hn; [|split; [done|by apply score_of_notin]].
    intros (y & -> & Hy)%list_elem_of_fmap. rewrite Hm, (zset_nodes_in T y Hu Hy) in Hr. done.
Qed.

Lemma esame_refl s e : isnan s = false -> esame (s, e) (s, e) = true.
Proof using. intros Hs. by apply esame_key. Qed.

(** A new element. *)
Lemma add_new (zs : zset D) T (d : D) score ele lv p : zset_inv (Zs d (zs_zsl zs)) T -> isnan score = false ->
  ele ∉ tele <$> T -> (1 <= lv <= ZSKIPLIST_MAXLEVEL)%nat -> heap (zs_zsl zs) !! p = None ->
  exists zsl d' T', zslInsert (zs_zsl zs) score ele lv p = Ret (zsl, p) /\ s_add d ele p = Ret (d', Dict.DICT_OK) /\
    zset_inv (Zs d' zsl) T' /\ ent <$> T' = place (score, ele) (ent <$> T).
Proof using.
  intros [[Hok Hl] Hu Hd Hm] Hn Hele Hlv Hp. simpl in *.
  destruct (insert_spec (zs_zsl zs) T score ele lv p Hok Hn Hlv Hp (absent_notin T ele score Hele))
    as (zsl & A & B & -> & Ei & Hok' & [Eh Hfr] & Ee).
  destruct (s_add_ok d ele p Hd) as (d' & Ea & Hd' & Hm'); [by rewrite Hm, nodes_notin|].
  exists zsl, d'. eexists. split; [done|]. split; [done|]. split; [|exact Ee].
  assert (uniq (A ++ Tower p lv score (Some ele) :: B)) as Hu' by (by apply uniq_middle).
  split; simpl; [split; [exact Hok'|]|done|done|].
  - eapply no_leak_frame; [exact Hl|done|intros q Hq; left; by apply Hfr|].
    intros y Hy. left. apply elem_of_app in Hy as [?|?]; apply elem_of_app; [by left|]. right. by right.
  - by rewrite nodes_middle, Hm', Hm by done.
Qed.

(** A new score for an element that is there. *)
Lemma add_move (zs : zset D) T (d : D) de A y B new lv p : zset_inv (Zs d (zs_zsl zs)) T -> T = A ++ y :: B -> s_at d de (tele y) ->
  isnan new = false -> (1 <= lv <= ZSKIPLIST_MAXLEVEL)%nat -> heap (zs_zsl zs) !! p = None ->
  exists zsl q d' T', zslUpdateScore (zs_zsl zs) (t_score y) (tele y) new lv p = Ret (zsl, q) /\ s_set d de q = Ret d' /\
    zset_inv (Zs d' zsl) T' /\ ent <$> T' = place (new, tele y) (remove (t_score y, tele y) (ent <$> T)).
Proof using.
  intros [Hz Hu Hd Hm] ET Hat Hn Hlv Hp. simpl in *.
  assert (y ∈ T) as Hy by (rewrite ET; apply elem_of_app; right; by left).
  assert (isnan (t_score y) = false) as Hc by (apply (ok_number _ _ y (proj1 Hz) Hy)).
  pose proof Hu as Hu'. rewrite ET in Hu'. apply uniq_rest in Hu' as [_ Hrest].
  assert (remove (t_score y, tele y) (ent <$> T) = ent <$> A ++ B) as Erem.
  { rewrite ET, !fmap_app, fmap_cons. apply remove_middle; [by apply esame_refl|]. rewrite <- fmap_app. by apply absent_notin. }
  destruct (update_spec (zs_zsl zs) T (t_score y) (tele y) new lv p Hz Hc Hn)
    as (zsl & T' & q & Eu & Hz' & _ & Ee & A1 & y1 & B1 & A2 & y2 & B2 & ET1 & Hs & ET2 & EAB & Eq & Ey2); try done.
  { intros Hab. unfold absent in Hab. rewrite Forall_forall in Hab. specialize (Hab (ent y)).
    unfold ent in Hab. rewrite esame_refl in Hab by done. by specialize (Hab (list_elem_of_fmap_2 ent T y Hy)). }
  { rewrite Erem. by apply absent_notin. }
  destruct (s_set_ok d de (tele y) q Hd Hat) as (d' & Es & Hd' & Hm').
  exists zsl, q, d', T'. split_and!; [done|done| |done].
  assert (tele y1 = tele y) as Ey1.
  { unfold esame in Hs. apply andb_true_iff in Hs as [_ Hs]. by apply bool_decide_eq_true in Hs. }
  assert (tele y2 = tele y) as Ey2' by (unfold ent in Ey2; by injection Ey2).
  assert (uniq (A2 ++ y2 :: B2)) as Hu2.
  { pose proof Hu as Hu1. rewrite ET1 in Hu1. apply uniq_rest in Hu1 as [Hu1 Hn1]. apply uniq_middle; rewrite EAB; congruence. }
  split; simpl; [done|by rewrite ET2|done|].
  rewrite Hm', Hm, ET2, (nodes_middle A2 y2 B2 Hu2), EAB, ET1, nodes_middle by (by rewrite <- ET1).
  rewrite Ey1, Ey2', Eq. by rewrite insert_insert_eq.
Qed.

Lemma zsetAdd_spec zs T score ele in_flags lv p : zset_inv zs T ->
  (1 <= lv <= ZSKIPLIST_MAXLEVEL)%nat -> heap (zs_zsl zs) !! p = None ->
  exists zs' T', zsetAdd zs score ele in_flags lv p = Ret (zs', snd (spec_add (ent <$> T) score ele in_flags)) /\
    zset_inv zs' T' /\ ent <$> T' = fst (spec_add (ent <$> T) score ele in_flags).
Proof using.
  intros Hinv Hlv Hp. unfold zsetAdd, spec_add. cbv zeta.
  destruct (isnan score) eqn:En; [by exists zs, T|].
  destruct (find_entry zs T ele Hinv) as (d & de & -> & Hinv' & Hde). cbn [obind]. destruct de as [de|].
  - destruct Hde as (Hat & A & y & B & ET & Ey & Hg & Hs & ->).
    destruct (has_flag in_flags ZADD_IN_NX); [by eexists _, T|]. rewrite Hg. cbn [obind zs_zsl]. rewrite Hs. cbn [obind].
    set (new := if has_flag in_flags ZADD_IN_INCR then dadd score (t_score y) else score).
    assert (has_flag in_flags ZADD_IN_INCR && isnan new = isnan new) as ->.
    { unfold new. destruct (has_flag in_flags ZADD_IN_INCR); [done|]. by rewrite En. }
    destruct (isnan new) eqn:Enn; [by eexists _, T|]. destruct (_ || _); [by eexists _, T|].
    destruct (deq new (t_score y)); [by eexists _, T|]. cbn [negb]. rewrite <- Ey in Hat |- *.
    destruct (add_move zs T d de A y B new lv p Hinv' ET Hat Enn Hlv Hp) as (zsl & q & d' & T' & -> & Eset & Hi & He).
    cbn [obind]. rewrite Eset. cbn [obind]. by exists (Zs d' zsl), T'.
  - destruct Hde as (Hn & ->). destruct (has_flag in_flags ZADD_IN_XX); cbn [negb]; [by eexists _, T|].
    destruct (add_new zs T d score ele lv p Hinv' En Hn Hlv Hp) as (zsl & d' & T' & Ei & Ea & Hi & He).
    cbn [zs_zsl]. rewrite Ei. cbn [obind]. rewrite Ea. cbn [obind]. by exists (Zs d' zsl), T'.
Qed.

Lemma zsetDel_spec zs T ele : zset_inv zs T ->
  exists zs' T', zsetDel zs ele = Ret (zs', match score_of (ent <$> T) ele with Some _ => true | None => false end) /\
    zset_inv zs' T' /\ ent <$> T' = filter (fun a => snd a <> ele) (ent <$> T).
Proof using.
  intros Hinv. pose proof Hinv as [Hz Hu Hd Hm]. unfold zsetDel, zsetRemoveFromSkiplist.
  destruct (s_unlink_ok (zs_dict zs) ele Hd) as (d & -> & Hd' & Hm'). cbn [obind]. rewrite Hm in Hm' |- *.
  destruct (nodes T !! ele) as [p|] eqn:El.
  - destruct (nodes_lookup T ele p El) as (A & y & B & ET & Ey & <-). cbn [obind].
    assert (y ∈ T) as Hy by (rewrite ET; apply elem_of_app; right; by left).
    rewrite (score_at_spec _ T y Hz Hy). cbn [obind].
    assert (isnan (t_score y) = false) as Hc by (apply (ok_number _ _ y (proj1 Hz) Hy)).
    pose proof Hu as Hu'. rewrite ET in Hu'. apply uniq_rest in Hu' as [_ Hrest].
    destruct (delete_inv (zs_zsl zs) T (t_score y) ele Hz Hc) as (zsl & T' & -> & Hz' & Ee & Hcase). cbn [obind].
    assert (absent (t_score y, ele) (ent <$> T) -> False) as Hna.
    { unfold absent. rewrite Forall_forall. intros Hab. specialize (Hab _ (list_elem_of_fmap_2 ent T y Hy)).
      unfold ent in Hab. by rewrite Ey, esame_refl in Hab. }
    destruct Hcase as [Hab|(A1 & y1 & B1 & ET1 & Hs & ->)]; [done|].
    destruct (existsb _ _) eqn:Ex; [|by apply absent_existsb in Ex]. cbn [obind].
    assert (tele y1 = ele) as Ey1.
    { unfold esame in Hs. apply andb_true_iff in Hs as [_ Hs]. by apply bool_decide_eq_true in Hs. }
    pose proof Hu as Hu1. rewrite ET1 in Hu1. pose proof (uniq_rest _ _ _ Hu1) as [Hu2 Hn2].
    exists (Zs d zsl), (A1 ++ B1). split; [|split; [split; simpl; try done|]].
    + rewrite <- Ey. by rewrite (score_of_middle T A y B Hu ET).
    + rewrite Hm', ET1, nodes_middle, Ey1 by done. rewrite delete_insert_eq. apply delete_id.
      apply nodes_notin. congruence.
    + rewrite ET1, !fmap_app, fmap_cons, filter_app, filter_cons_False by (simpl; by rewrite Ey1; intros ?).
      rewrite <- filter_app, <- fmap_app. symmetry. apply filter_all.
      apply (Forall_ent (fun a => snd a <> ele)). apply Forall_forall. intros z Hz0 E0. apply Hn2.
      rewrite Ey1. simpl in E0. rewrite <- E0. by apply list_elem_of_fmap_2.
  - cbn [obind]. assert (ele ∉ tele <$> T) as Hn.
    { intros (y & -> & Hy)%list_elem_of_fmap. by rewrite (zset_nodes_in T y Hu Hy) in El. }
    exists (Zs d (zs_zsl zs)), T. rewrite score_of_notin by done. split; [done|]. split.
    + split; simpl; try done. rewrite Hm'. by apply delete_id.
    + symmetry. apply filter_all. apply (Forall_ent (fun a => snd a <> ele)). apply Forall_forall. intros z Hz0 E0.
      apply Hn. simpl in E0. rewrite <- E0. by apply list_elem_of_fmap_2.
Qed.

Lemma zsetScore_spec zs T ele : zset_inv zs T ->
  exists zs', zsetScore zs ele = Ret (zs', score_of (ent <$> T) ele) /\ zset_inv zs' T.
Proof using.
  intros Hinv. unfold zsetScore. destruct (find_entry zs T ele Hinv) as (d & de & -> & Hinv' & Hde). cbn [obind].
  exists (Zs d (zs_zsl zs)). destruct de as [de|].
  - destruct Hde as (_ & A & y & B & _ & _ & -> & Hs & ->). cbn [obind]. rewrite Hs. done.
  - destruct Hde as (_ & ->). done.
Qed.

(** The position of an element among all, from the front or from the back. *)
Definition spec_rank (L : list entry) (ele : list Z) (reverse : bool) : Z * option double :=
  match list_find (fun a => snd a = ele) L with
  | None => (-1, None)
  | Some (i, a) => (if reverse then Z.of_nat (length L) - 1 - Z.of_nat i else Z.of_nat i, Some (fst a))
  end.

Lemma zsetRank_spec zs T ele reverse : zset_inv zs T ->
  exists zs', zsetRank zs ele reverse = Ret (zs', spec_rank (ent <$> T) ele reverse) /\ zset_inv zs' T.
Proof using.
  intros Hinv. unfold zsetRank. destruct (find_entry zs T ele Hinv) as (d & de & -> & Hinv' & Hde). cbn [obind].
  exists (Zs d (zs_zsl zs)). split; [|done]. pose proof Hinv as [Hz Hu _ _]. destruct de as [de|].
  - destruct Hde as (_ & A & y & B & ET & Ey & -> & Hs & _). cbn [obind zs_zsl]. rewrite Hs. cbn [obind].
    assert (y ∈ T) as Hy by (rewrite ET; apply elem_of_app; right; by left).
    assert (isnan (t_score y) = false) as Hc by (apply (ok_number _ _ y (proj1 Hz) Hy)).
    pose proof Hu as Hu'. rewrite ET in Hu'. apply uniq_rest in Hu' as [_ Hrest].
    rewrite fmap_app, elem_of_app in Hrest. apply Decidable.not_or in Hrest as [HA _].
    rewrite (rank_spec (zs_zsl zs) T (t_score y) ele (proj1 Hz) Hc). cbn [obind].
    assert (rank_of (t_score y, ele) (ent <$> T) = Z.of_nat (length A) + 1) as ->.
    { rewrite ET, fmap_app, fmap_cons, rank_middle; [by rewrite length_fmap| |].
      - unfold ent. rewrite Ey. by apply esame_refl.
      - apply absent_notin. congruence. }
    assert (list_find (fun a => snd a = ele) (ent <$> T) = Some (length A, ent y)) as Ef.
    { rewrite ET, fmap_app, fmap_cons. rewrite list_find_app_r.
      - simpl. rewrite decide_True by done. simpl. by rewrite length_fmap.
      - apply list_find_None. apply (Forall_ent (fun a => ~ snd a = ele)). apply Forall_forall. intros z Hz0 E0.
        apply HA. rewrite Ey. simpl in E0. rewrite <- E0. by apply list_elem_of_fmap_2. }
    unfold spec_rank, zsetLength. rewrite Ef, length_fmap, (sh_len _ _ (ok_shape _ _ (proj1 Hz))).
    destruct (Z.eqb_spec (Z.of_nat (length A) + 1) 0); [lia|]. do 4 f_equal.
    destruct reverse; lia.
  - destruct Hde as (Hn & Hso). unfold spec_rank. unfold score_of in Hso.
    by destruct (list_find _ _) as [[? ?]|].
Qed.

(** ** Ranges *)

Lemma forget_spec M : forall (d : D) R, s_ok d -> uniq (M ++ R) -> s_map d = nodes (M ++ R) ->
  exists d', forget d (tele <$> M) = Ret d' /\ s_ok d' /\ s_map d' = nodes R.
Proof using.
  induction M as [|y M IH]; intros d R Hd Hu Hm; [by exists d|]. rewrite fmap_cons. cbn [forget].
  destruct (s_delete_ok d (tele y) Hd) as (d1 & Hd1 & Hm1 & ->). cbn [obind].
  pose proof (uniq_rest [] y (M ++ R) Hu) as [Hu1 Hn]. apply (IH d1 R Hd1 Hu1).
  rewrite Hm1, Hm. simpl app. rewrite nodes_cons, delete_insert_eq. apply delete_id, nodes_notin, Hn.
Qed.

Lemma remove_range_spec zs T M R del : zset_inv zs T -> T ≡ₚ M ++ R ->
  (exists zsl, del (zs_zsl zs) = Ret (zsl, tele <$> M) /\ zsl_inv zsl R) ->
  exists zs', remove_range zs del = Ret (zs', Z.of_nat (length M)) /\ zset_inv zs' R.
Proof using.
  intros [Hz Hu Hd Hm] Hp (zsl & Edel & Hz'). unfold remove_range. rewrite Edel. cbn [obind].
  pose proof (uniq_perm _ _ Hp Hu) as Hu2. rewrite (nodes_perm _ _ Hu Hp) in Hm.
  destruct (forget_spec M (zs_dict zs) R Hd Hu2 Hm) as (d' & -> & Hd' & Hm'). cbn [obind].
  exists (Zs d' zsl). rewrite length_fmap. split; [done|]. split; try done.
  unfold uniq in *. rewrite fmap_app in Hu2. by apply NoDup_app in Hu2 as (_ & _ & ?).
Qed.

Lemma inside_outside gte lte T : T ≡ₚ inside gte lte T ++ outside gte lte T.
Proof using.
  induction T as [|y T IH]; [done|]. unfold inside, outside in *.
  destruct (gte y && lte y) eqn:Eb.
  - rewrite filter_cons_True, filter_cons_False by congruence. simpl. by rewrite <- IH.
  - rewrite filter_cons_False, filter_cons_True by congruence. rewrite <- Permutation_middle. by rewrite <- IH.
Qed.

Lemma ranks_split (T : list tower) a b : T ≡ₚ take b (drop a T) ++ take a T ++ drop b (drop a T).
Proof using.
  rewrite <- (take_drop a T) at 1. rewrite <- (take_drop b (drop a T)) at 1.
  rewrite !app_assoc. apply Permutation_app_tail. apply Permutation_app_comm.
Qed.

End Spec.

(** ** Sequences of operations *)

Inductive zcmd :=
| ZAdd (score : double) (ele : list Z) (in_flags : Z) (draws : list Z)
| ZRem (ele : list Z)
| ZScore (ele : list Z)
| ZRank (ele : list Z) (reverse : bool)
| ZCard
| ZRemByScore (range : zrangespec)
| ZRemByLex (range : zlexrangespec)
| ZRemByRank (start stop : Z).

Inductive zreply :=
| RAdd (r : Z * Z * option double)
| RFlag (b : bool)
| RScore (s : option double)
| RRank (r : Z * option double)
| RCount (n : Z).

(** Splits a list: the entries a test holds for are counted and dropped. *)
Definition drop_if (test : entry -> bool) (L : list entry) : list entry * Z :=
  (filter (fun a => test a = false) L, Z.of_nat (length (filter (fun a => test a = true) L))).

Definition all_same (L : list entry) : bool :=
  match L with [] => true | a :: _ => forallb (fun b => deq (fst a) (fst b)) L end.

(** The ranges: an end is included unless it is exclusive, and strings are ordered byte by
    byte. *)
Definition in_scores (range : zrangespec) (v : double) : bool :=
  (if r_minex range then dlt (r_min range) v else dle (r_min range) v) && (if r_maxex range then dlt v (r_max range) else dle v (r_max range)).
Definition in_words (range : zlexrangespec) (v : list Z) : bool :=
  match l_min range with
  | LMin => true
  | LMax => false
  | LStr m => match StrObj.lex m v with Lt => true | Eq => negb (l_minex range) | Gt => false end
  end &&
  match l_max range with
  | LMax => true
  | LMin => false
  | LStr m => match StrObj.lex v m with Lt => true | Eq => negb (l_maxex range) | Gt => false end
  end.

Lemma words_code v range : zslLexValueGteMin v range && zslLexValueLteMax v range = in_words range v.
Proof.
  rewrite gte_lex, lte_lex. unfold in_words. cbv zeta. f_equal.
  - destruct (l_min range) as [| |m]; [by destruct (l_minex range)|by destruct (l_minex range)|]. rewrite (lex_antisym v m). by destruct (StrObj.lex v m), (l_minex range).
  - destruct (l_max range) as [| |m]; [by destruct (l_maxex range)|by destruct (l_maxex range)|]. by destruct (StrObj.lex v m), (l_maxex range).
Qed.

(** Preconditions: the generator ends, the ends of score ranges are numbers, ranks
    count from 1 and fit 32 bits, and ranges by element are for equal scores. *)
Definition spec_cmd (L : list entry) (c : zcmd) : option (list entry * zreply) :=
  match c with
  | ZAdd score ele in_flags draws =>
      if existsb (fun r => threshold <=? r) draws then
        let '(L, r) := spec_add L score ele in_flags in Some (L, RAdd r)
      else None
  | ZRem ele =>
      Some (filter (fun a => snd a <> ele) L, RFlag (match score_of L ele with Some _ => true | None => false end))
  | ZScore ele => Some (L, RScore (score_of L ele))
  | ZRank ele reverse => Some (L, RRank (spec_rank L ele reverse))
  | ZCard => Some (L, RCount (Z.of_nat (length L)))
  | ZRemByScore range =>
      if isnan (r_min range) || isnan (r_max range) then None else
      let '(L, n) := drop_if (fun a => in_scores range (fst a)) L in
      Some (L, RCount n)
  | ZRemByLex range =>
      if all_same L then
        let '(L, n) := drop_if (fun a => in_words range (snd a)) L in
        Some (L, RCount n)
      else None
  | ZRemByRank start stop =>
      if (start <? 1) || (2 ^ 32 <=? start) || (stop <? 0) || (2 ^ 32 <=? stop) then None else
      let a := Z.to_nat (start - 1) in let b := Z.to_nat (stop - start + 1) in
      Some (take a L ++ drop b (drop a L), RCount (Z.of_nat (length (take b (drop a L)))))
  end.

Fixpoint spec_cmds (L : list entry) (cs : list zcmd) : option (list entry * list zreply) :=
  match cs with
  | [] => Some (L, [])
  | c :: cs =>
      match spec_cmd L c with
      | None => None
      | Some (L, r) => match spec_cmds L cs with None => None | Some (L, rs) => Some (L, r :: rs) end
      end
  end.

Lemma filter_ent (test : entry -> bool) b (T : list tower) :
  filter (fun a => test a = b) (ent <$> T) = ent <$> filter (fun y => test (ent y) = b) T.
Proof.
  induction T as [|y T IH]; [done|]. rewrite fmap_cons. destruct (decide (test (ent y) = b)).
  - rewrite !filter_cons_True by done. rewrite fmap_cons. by f_equal.
  - by rewrite !filter_cons_False.
Qed.

Lemma all_same_scores T : all_same (ent <$> T) = true -> Forall (fun y => number (ent y)) T -> same_scores T.
Proof.
  intros Ha Hn. destruct T as [|y T]; [intros a b Hab; by apply not_elem_of_nil in Hab|].
  unfold all_same in Ha. rewrite fmap_cons, forallb_forall in Ha. rewrite Forall_forall in Hn.
  assert (forall z, z ∈ y :: T -> dkey (t_score y) = dkey (t_score z)) as Hk.
  { intros z Hz. apply deq_key; [apply (Hn y); by left|by apply (Hn z)|]. apply (Ha (ent z)).
    apply list_elem_of_In. change (ent y :: (ent <$> T)) with (ent <$> y :: T). by apply list_elem_of_fmap_2. }
  intros a b Ha' Hb'. apply deq_key; [by apply (Hn a)|by apply (Hn b)|]. by rewrite <- (Hk a), <- (Hk b).
Qed.

Section Machine.
Context {D E : Type} `{SD : ScoreDict D E, SDL : !ScoreDictLaws D E}.
Context (malloc : gmap Z node -> Z) (Hmalloc : forall h, h !! malloc h = None).

(** [createZsetObject] *)
Definition zset_new (hdr : Z) : zset D := Zs s_create (zslCreate hdr).

Definition cmd (zs : zset D) (c : zcmd) : outcome (zset D * zreply) :=
  match c with
  | ZAdd score ele in_flags draws =>
      match zslRandomLevel draws with
      | None => Abort
      | Some lv => let* (zs, r) := zsetAdd zs score ele in_flags lv (malloc (heap (zs_zsl zs))) in Ret (zs, RAdd r)
      end
  | ZRem ele => let* (zs, b) := zsetDel zs ele in Ret (zs, RFlag b)
  | ZScore ele => let* (zs, s) := zsetScore zs ele in Ret (zs, RScore s)
  | ZRank ele reverse => let* (zs, r) := zsetRank zs ele reverse in Ret (zs, RRank r)
  | ZCard => Ret (zs, RCount (zsetLength zs))
  | ZRemByScore range => let* (zs, n) := removeRangeByScore zs range in Ret (zs, RCount n)
  | ZRemByLex range => let* (zs, n) := removeRangeByLex zs range in Ret (zs, RCount n)
  | ZRemByRank start stop => let* (zs, n) := removeRangeByRank zs start stop in Ret (zs, RCount n)
  end.

Fixpoint cmds (zs : zset D) (cs : list zcmd) : outcome (zset D * list zreply) :=
  match cs with
  | [] => Ret (zs, [])
  | c :: cs =>
      let* (zs, r) := cmd zs c in
      let* (zs, rs) := cmds zs cs in
      Ret (zs, r :: rs)
  end.

Lemma zset_new_inv hdr : zset_inv (zset_new hdr) [].
Proof using. destruct s_create_ok as [Hok Hm]. split; [apply inv_create|constructor|done|done]. Qed.

Lemma range_cmd_spec zs T gte lte (test : entry -> bool) del : zset_inv zs T -> bounds T gte lte ->
  (forall y, gte y && lte y = test (ent y)) ->
  (exists zsl, del (zs_zsl zs) = Ret (zsl, tele <$> inside gte lte T) /\ zsl_inv zsl (outside gte lte T)) ->
  exists zs' T', remove_range zs del = Ret (zs', snd (drop_if test (ent <$> T))) /\ zset_inv zs' T' /\
    ent <$> T' = fst (drop_if test (ent <$> T)).
Proof using.
  intros Hinv Hb Ht Hdel.
  destruct (remove_range_spec zs T _ _ del Hinv (inside_outside gte lte T) Hdel) as (zs' & -> & Hinv').
  exists zs', (outside gte lte T). unfold drop_if. cbn [fst snd]. rewrite !filter_ent, length_fmap.
  assert (forall b, filter (fun y => gte y && lte y = b) T = filter (fun y => test (ent y) = b) T) as Hf.
  { intros b. apply list_filter_iff. intros y. by rewrite Ht. }
  unfold inside, outside in *. split_and!; [by rewrite Hf|done|by rewrite Hf].
Qed.

Lemma cmd_spec zs T c L r : zset_inv zs T -> spec_cmd (ent <$> T) c = Some (L, r) ->
  exists zs' T', cmd zs c = Ret (zs', r) /\ zset_inv zs' T' /\ ent <$> T' = L.
Proof using Hmalloc.
  intros Hinv. pose proof (ok_sorted _ _ (proj1 (z_zsl _ _ Hinv))) as Hso.
  destruct c as [score ele fl draws|ele|ele|ele rv| |range|range|start stop]; cbn [spec_cmd cmd].
  - destruct (existsb _ _) eqn:Ed; [|done]. destruct (random_level_spec draws Ed) as (lv & -> & Hlv).
    destruct (zsetAdd_spec zs T score ele fl lv (malloc (heap (zs_zsl zs))) Hinv Hlv (Hmalloc _)) as (zs' & T' & -> & ? & ?).
    destruct (spec_add _ _ _ _) as [L' r']. intros [= <- <-]. by exists zs', T'.
  - intros [= <- <-]. destruct (zsetDel_spec zs T ele Hinv) as (zs' & T' & -> & ? & ?). by exists zs', T'.
  - intros [= <- <-]. destruct (zsetScore_spec zs T ele Hinv) as (zs' & -> & ?). by exists zs', T.
  - intros [= <- <-]. destruct (zsetRank_spec zs T ele rv Hinv) as (zs' & -> & ?). by exists zs', T.
  - intros [= <- <-]. exists zs, T. split; [|done]. unfold zsetLength.
    by rewrite (sh_len _ _ (ok_shape _ _ (proj1 (z_zsl _ _ Hinv)))), length_fmap.
  - destruct (_ || _) eqn:En; [done|]. apply orb_false_iff in En as [H1 H2].
    destruct (range_cmd_spec zs T (gteT range) (lteT range) (fun a => in_scores range (fst a))
      (fun zsl => zslDeleteRangeByScore zsl range) Hinv) as (zs' & T' & E1 & Hi & He); [by apply score_bounds|done| |].
    { apply (delete_bounds _ T); [apply Hinv|by apply score_bounds|apply gte_reads|apply lte_reads]. }
    unfold removeRangeByScore. rewrite E1. destruct (drop_if _ _) as [L' n]. intros [= <- <-]. by exists zs', T'.
  - destruct (all_same _) eqn:Ea; [|done].
    assert (same_scores T) as Hsame by (apply all_same_scores; [done|]; by apply sorted_towers in Hso as [_ ?]).
    destruct (range_cmd_spec zs T (gteL range) (lteL range) (fun a => in_words range (snd a))
      (fun zsl => zslDeleteRangeByLex zsl range) Hinv) as (zs' & T' & E1 & Hi & He); [by apply lex_bounds|intros y; exact (words_code (tele y) range)| |].
    { apply (delete_bounds _ T); [apply Hinv|by apply lex_bounds|apply gteL_reads|apply lteL_reads]. }
    unfold removeRangeByLex. rewrite E1. destruct (drop_if _ _) as [L' n]. intros [= <- <-]. by exists zs', T'.
  - destruct (_ || _) eqn:Eb; [done|]. zbool. cbv zeta. intros [= <- <-].
    destruct (remove_range_spec zs T _ _ (fun zsl => zslDeleteRangeByRank zsl start stop) Hinv
      (ranks_split T (Z.to_nat (start - 1)) (Z.to_nat (stop - start + 1)))) as (zs' & E1 & Hi).
    { apply (delete_ranks _ T); [apply Hinv|lia|lia]. }
    unfold removeRangeByRank. rewrite E1. cbn [obind]. eexists zs', _. split; [|split; [exact Hi|]].
    + do 3 f_equal. by rewrite <- fmap_drop, <- fmap_take, length_fmap.
    + by rewrite fmap_app, fmap_take, !fmap_drop.
Qed.

Lemma cmds_spec cs : forall zs T L rs, zset_inv zs T -> spec_cmds (ent <$> T) cs = Some (L, rs) ->
  exists zs' T', cmds zs cs = Ret (zs', rs) /\ zset_inv zs' T' /\ ent <$> T' = L.
Proof using Hmalloc.
  induction cs as [|c cs IH]; intros zs T L rs Hinv; cbn [spec_cmds cmds].
  { intros [= <- <-]. by exists zs, T. }
  destruct (spec_cmd (ent <$> T) c) as [[L1 r]|] eqn:E1; [|done].
  destruct (cmd_spec zs T c L1 r Hinv E1) as (zs1 & T1 & -> & Hinv1 & <-). cbn [obind].
  destruct (spec_cmds (ent <$> T1) cs) as [[L2 rs2]|] eqn:E2; [|done]. intros [= <- <-].
  destruct (IH zs1 T1 L2 rs2 Hinv1 E2) as (zs' & T' & -> & ? & ?). by exists zs', T'.
Qed.

End Machine.

(** ** The hash table implements the interface *)

Section HashTable.
Context `{DT : DictType (list Z), DTok : !DictTypeOk (list Z)} (Hval : no_value = false).

Definition table := Dict.dict (list Z) Z.

Definition get_value (v : option Z) : outcome Z := match v with Some p => Ret p | None => Abort end.

#[local] Instance table_ops : ScoreDict table Dict.entry_ref := {
  s_create := Dict.dictCreate;
  s_find := Dict.dictFind Dict.DICT_RESIZE_ENABLE;
  s_get d e := let* v := Dict.dictGetVal d e in get_value v;
  s_set := Dict.dictSetVal;
  s_add := Dict.dictAdd Dict.DICT_RESIZE_ENABLE;
  s_unlink d k :=
    let* (d, de) := Dict.dictUnlink Dict.DICT_RESIZE_ENABLE d k in
    match de with
    | None => Ret (d, None)
    | Some e => let* p := get_value (Dict.val e) in Ret (d, Some p)
    end;
  s_delete := Dict.dictDelete Dict.DICT_RESIZE_ENABLE;
}.

(** A table whose entries all have a value, never paused. *)
Definition valued (m : gmap (list Z) (option Z)) : Prop := map_Forall (fun _ v => is_Some v) m.
Definition table_ok (d : table) : Prop :=
  Dict.dict_ok d /\ Dict.pauseAutoResize d = 0 /\ valued (Dict.to_map d).
Definition values (d : table) : gmap (list Z) Z := omap id (Dict.to_map d).

Lemma values_insert (m : gmap (list Z) (option Z)) k v : omap id (<[k := Some v]> m) = <[k := v]> (omap id m).
Proof using. by rewrite (omap_insert_Some _ m k (Some v) v). Qed.

Lemma valued_insert m k v : valued m -> valued (<[k := Some v]> m).
Proof using. intros Hm. apply map_Forall_insert_2; [by exists v|done]. Qed.

Lemma delete_values d k : table_ok d ->
  exists d', Dict.dictGenericDelete Dict.DICT_RESIZE_ENABLE d k = Ret (d', Dict.Entry k <$> (Dict.to_map d !! k)) /\
    table_ok d' /\ values d' = delete k (values d).
Proof using DTok.
  intros (Hd & Ha & Hv). destruct (Dict.dictGenericDelete_spec Dict.DICT_RESIZE_ENABLE d k Hd) as (d' & E & Hok & Hm & Ea & _).
  exists d'. split; [done|]. split; [split_and!; [done|congruence|rewrite Hm; by apply map_Forall_delete]|].
  unfold values. by rewrite Hm, omap_delete.
Qed.

#[local] Instance table_laws : ScoreDictLaws table Dict.entry_ref.
Proof using Hval DTok.
  refine {| s_ok := table_ok; s_map := values;
            s_at := fun d e k => exists en, Dict.deref d e = Ret en /\ Dict.key en = k |}.
  - split; [|done]. split_and!; [|done|done].
    split; [apply Dict.table_ok_reset|apply Dict.table_ok_reset|constructor|by left].
  - intros d k (Hd & Ha & Hv). destruct (Dict.dictFind_spec Dict.DICT_RESIZE_ENABLE d k Hd) as (d' & r & Ef & Hsame & Hr).
    exists d', r. pose proof (Dict.to_map_same d d' Hd Hsame) as Em.
    split; [done|]. split; [split_and!; [apply Hsame|by rewrite (Dict.sc_auto _ _ Hsame)|by rewrite Em]|].
    unfold values. rewrite Em. split; [done|]. destruct r as [e|]; [done|]. by rewrite lookup_omap, Hr.
  - intros d e k (Hd & Ha & Hv) (en & He & <-). simpl. unfold Dict.dictGetVal. rewrite Hval, He. cbn [obind].
    pose proof (Dict.to_map_deref d e en Hd He) as Hm. destruct (Hv _ _ Hm) as [p Ep]. rewrite Ep in Hm |- *.
    exists p. split; [done|]. unfold values. by rewrite lookup_omap, Hm.
  - intros d e k v (Hd & Ha & Hv) (en & He & <-).
    destruct (Dict.dictSetVal_spec d e en v Hd Hval He) as (d' & Es & Hok & Ea & Em).
    exists d'. split; [done|]. unfold values. rewrite Em, values_insert. split; [|done].
    split_and!; [done|congruence|rewrite Em; by apply valued_insert].
  - intros d k v (Hd & Ha & Hv) Hn. destruct (Dict.dictAdd_spec Dict.DICT_RESIZE_ENABLE d k v Hd ltac:(left; lia)) as (d' & Hok & Ea & H).
    unfold values in Hn. rewrite lookup_omap in Hn. destruct (Dict.to_map d !! k) as [w|] eqn:Ew.
    { destruct (Hv _ _ Ew) as [p ->]. done. }
    destruct H as [Es Em]. unfold Dict.stored in Em. rewrite Hval in Em. exists d'. split; [done|].
    unfold values. rewrite Em, values_insert. split; [|done]. split_and!; [done|congruence|rewrite Em; by apply valued_insert].
  - intros d k Hok. destruct (delete_values d k Hok) as (d' & Eg & Hok' & Hm). exists d'. split; [|done].
    simpl. unfold Dict.dictUnlink. rewrite Eg. cbn [obind]. unfold values. rewrite lookup_omap.
    destruct (Dict.to_map d !! k) as [w|] eqn:Ew; [|done]. destruct Hok as (_ & _ & Hv). destruct (Hv _ _ Ew) as [p ->]. done.
  - intros d k Hok. destruct (delete_values d k Hok) as (d' & Eg & Hok' & Hm). exists d'. split; [done|]. split; [done|].
    simpl. unfold Dict.dictDelete. rewrite Eg. cbn [obind]. unfold values. rewrite lookup_omap.
    destruct (Dict.to_map d !! k) as [w|] eqn:Ew; [|done]. destruct Hok as (_ & _ & Hv). destruct (Hv _ _ Ew) as [p ->]. done.
Qed.

Lemma cmds_hashed malloc : (forall h, h !! malloc h = None) -> forall hdr cs L rs, spec_cmds [] cs = Some (L, rs) ->
  exists (zs : zset table) T, cmds malloc (zset_new hdr) cs = Ret (zs, rs) /\ zset_inv zs T /\ ent <$> T = L.
Proof using Hval DTok.
  intros Hm hdr cs L rs. apply (cmds_spec malloc Hm cs (zset_new hdr) []). apply zset_new_inv.
Qed.

(** C5: sorted sets.  Any sequence of additions under any flags, removals, score
    and rank queries, and range removals by score, element and rank, on a sorted
    set made of the hash table and the skip list, gives exactly the replies of a
    list of (score, element) pairs kept in order; at the end the skip list holds
    that list and the dictionary maps each of its elements to its node.  No
    assertion fails: in particular every element of the dictionary has a rank.
    The conditions, where [spec_cmds] has no result: a removal by element range is
    made only while all scores are equal, as the commands document (the code does not
    check it, and then stops at the first node that does not fit); the ends of a score
    range are not NaN; ranks are from 1 and fit 32 bits; and the random draws for the
    level of a new node contain one that ends them.  The hash table is one whose
    resizing is enabled. *)
Theorem zset_refines malloc (Hmalloc : forall h, h !! malloc h = None) hdr cs L rs :
  spec_cmds [] cs = Some (L, rs) ->
  exists (zs : zset table) T, cmds malloc (zset_new hdr) cs = Ret (zs, rs) /\ zset_inv zs T /\ ent <$> T = L.
Proof using Hval DTok. by apply cmds_hashed. Qed.

End HashTable.

(** ** Witness *)

Section Example_.

#[local] Instance byteDictType : DictType (list Z) := {
  hashFunction k := Z.of_nat (length k) mod 2 ^ 64;
  keyCompare a b := bool_decide (a = b);
  no_value := false;
  resizeAllowed _ _ _ := true;
}.

#[local] Instance byteDictTypeOk : DictTypeOk (list Z).
Proof. split; [intros k; apply wrap_range; lia|intros a b; apply bool_decide_eq_true]. Qed.

(** Two new elements, an increment, a refused update, a rank, a range. *)
Definition some_cmds : list zcmd :=
  let hi := [0; 2 ^ 30] in
  [ZAdd (of_int 2) (chars "b") 0 hi; ZAdd (of_int 1) (chars "a") 0 hi;
   ZAdd (of_int 5) (chars "a") ZADD_IN_INCR hi; ZAdd (of_int 9) (chars "b") ZADD_IN_LT hi;
   ZRank (chars "a") false; ZScore (chars "b"); ZRemByScore (Zrange (of_int 0) (of_int 3) false false); ZCard].

Lemma zset_refines_witness : exists L rs, spec_cmds [] some_cmds = Some (L, rs) /\
  rs = [RAdd (1, ZADD_OUT_ADDED, Some (of_int 2)); RAdd (1, ZADD_OUT_ADDED, Some (of_int 1));
        RAdd (1, ZADD_OUT_UPDATED, Some (of_int 6)); RAdd (1, ZADD_OUT_NOP, None);
        RRank (1, Some (of_int 6)); RScore (Some (of_int 2)); RCount 1; RCount 1] /\
  exists (zs : zset table) T, @cmds table _ table_ops fresh_addr (@zset_new table _ table_ops 0) some_cmds = Ret (zs, rs) /\
    @zset_inv table _ table_ops (@table_laws byteDictType byteDictTypeOk eq_refl) zs T /\ ent <$> T = L.
Proof.
  do 2 eexists. split; [vm_compute; reflexivity|]. split; [vm_compute; reflexivity|].
  apply (@zset_refines byteDictType byteDictTypeOk eq_refl fresh_addr fresh_addr_ok 0 some_cmds). vm_compute. reflexivity.
Defined.

End Example_.

End Zset.
