(* ===== verification/SdsArgs.v ===== *)
(** * SdsArgs: splitting a line into arguments and quoting (sds.c)

    [sdssplitargs] reads the inline protocol, configuration files and scripts;
    [sdscatrepr] writes quoted strings.  A C string is the list of its bytes up to
    the first NUL, and the character classes are those of the "C" locale. *)
From S2P Require Import Prelude.

Module SdsArgs.

(** ** Characters *)

Definition isspace (c : Z) : bool := (c =? 32) || (9 <=? c) && (c <=? 13).
Definition isprint (c : Z) : bool := (32 <=? c) && (c <=? 126).

Definition is_hex_digit (c : Z) : bool :=
  (48 <=? c) && (c <=? 57) || (97 <=? c) && (c <=? 102) || (65 <=? c) && (c <=? 70).

Definition hex_digit_to_int (c : Z) : Z :=
  if (48 <=? c) && (c <=? 57) then c - 48
  else if (97 <=? c) && (c <=? 102) then c - 87
  else if (65 <=? c) && (c <=? 70) then c - 55
  else 0.

(** The string a pointer to the bytes [l] points to. *)
Fixpoint cstr (l : list Z) : list Z :=
  match l with
  | [] => []
  | c :: l => if c =? 0 then [] else c :: cstr l
  end.

Definition tolower (c : Z) : Z := if (65 <=? c) && (c <=? 90) then c + 32 else c.
(** [!strcasecmp(a, b)] *)
Definition same_case (a b : list Z) : bool := bool_decide (map tolower (cstr a) = map tolower (cstr b)).

(** ** Splitting *)

(** Whether the loop is in double quotes ([inq]), in single quotes ([insq]) or
    in neither. *)
Inductive quoting := Bare | Inq | Insq.

(** The character after a backslash. *)
Definition unescape (c : Z) : Z :=
  if c =? 110 then 10 (* n *)
  else if c =? 114 then 13 (* r *)
  else if c =? 116 then 9 (* t *)
  else if c =? 98 then 8 (* b *)
  else if c =? 97 then 7 (* a *)
  else c.

(** [*(p+1) && !isspace( *(p+1))]: what follows the closing quote. *)
Definition glued (rest : list Z) : bool := match rest with [] => false | c :: _ => negb (isspace c) end.

(** One token from the position [p]: the token and where it ends; [None] is the
    jump to [err]. *)
Fixpoint token (q : quoting) (p current : list Z) : option (list Z * list Z) :=
  match q with
  | Inq =>
      match p with
      | [] => None
      | c :: p1 =>
          if c =? 92 then
            match p1 with
            | [] => token Inq p1 (current ++ [c])
            | x :: p2 =>
                match p2 with
                | h1 :: (h2 :: p4) =>
                    if (x =? 120) && is_hex_digit h1 && is_hex_digit h2
                    then token Inq p4 (current ++ [hex_digit_to_int h1 * 16 + hex_digit_to_int h2])
                    else token Inq p2 (current ++ [unescape x])
                | _ => token Inq p2 (current ++ [unescape x])
                end
            end
          else if c =? 34 then if glued p1 then None else Some (current, p1)
          else token Inq p1 (current ++ [c])
      end
  | Insq =>
      match p with
      | [] => None
      | c :: p1 =>
          match p1 with
          | x :: p2 =>
              if (c =? 92) && (x =? 39) then token Insq p2 (current ++ [39])
              else if c =? 39 then if glued p1 then None else Some (current, p1)
              else token Insq p1 (current ++ [c])
          | [] => if c =? 39 then Some (current, p1) else token Insq p1 (current ++ [c])
          end
      end
  | Bare =>
      match p with
      | [] => Some (current, [])
      | c :: p1 =>
          if (c =? 32) || (c =? 10) || (c =? 13) || (c =? 9) then Some (current, p1)
          else if c =? 34 then token Inq p1 current
          else if c =? 39 then token Insq p1 current
          else token Bare p1 (current ++ [c])
      end
  end.

Fixpoint skip_blanks (p : list Z) : list Z :=
  match p with
  | [] => []
  | c :: p1 => if isspace c then skip_blanks p1 else p
  end.

(** The outer loop; [vector] is what has been read. *)
Fixpoint split_loop (fuel : nat) (p : list Z) (vector : list (list Z)) : outcome (option (list (list Z))) :=
  match skip_blanks p with
  | [] => Ret (Some vector)
  | c :: p1 =>
      match fuel with
      | O => Abort
      | S fuel =>
          match token Bare (c :: p1) [] with
          | None => Ret None
          | Some (current, rest) => split_loop fuel rest (vector ++ [current])
          end
      end
  end.

Definition sdssplitargs (line : list Z) : outcome (option (list (list Z))) :=
  split_loop (length line) (cstr line) [].

(** ** Quoting *)

(** ["%02x"] *)
Definition hex_char (d : Z) : Z := if d <? 10 then d + 48 else d + 87.

Definition repr_char (c : Z) : list Z :=
  if (c =? 92) || (c =? 34) then [92; c]
  else if c =? 10 then [92; 110]
  else if c =? 13 then [92; 114]
  else if c =? 9 then [92; 116]
  else if c =? 7 then [92; 97]
  else if c =? 8 then [92; 98]
  else if isprint c then [c]
  else [92; 120; hex_char (c / 16); hex_char (c mod 16)].

Definition sdscatrepr (s p : list Z) : list Z := s ++ [34] ++ concat (map repr_char p) ++ [34].

Definition needs_escape (c : Z) : bool :=
  (c =? 92) || (c =? 34) || (c =? 10) || (c =? 13) || (c =? 9) || (c =? 7) || (c =? 8) || negb (isprint c) || isspace c.

Definition sdsneedsrepr (s : list Z) : bool := existsb needs_escape s.

(** ** Trimming *)

(** [strchr(cset, c)], which finds the NUL at the end of [cset] too. *)
Definition in_cset (cset : list Z) (c : Z) : bool := (c =? 0) || bool_decide (c ∈ cset).

Fixpoint trim_left (cset s : list Z) : list Z :=
  match s with
  | [] => []
  | c :: s' => if in_cset cset c then trim_left cset s' else s
  end.

Definition sdstrim (s cset : list Z) : list Z := rev (trim_left cset (rev (trim_left cset s))).

(** ** Facts *)

Lemma token_progress p : forall q current t rest, token q p current = Some (t, rest) ->
  (length rest <= length p)%nat /\ ((0 < length p)%nat -> (length rest < length p)%nat).
Proof.
  remember (length p) as n eqn:En. revert p En. induction (lt_wf n) as [n _ IH]. intros p -> q current t rest.
  assert (forall q' p' cur, (length p' < length p)%nat -> token q' p' cur = Some (t, rest) ->
    (length rest <= length p)%nat /\ ((0 < length p)%nat -> (length rest < length p)%nat)) as Hstep.
  { intros q' p' cur Hlt E. destruct (IH (length p') Hlt p' eq_refl _ _ _ _ E). split; lia. }
  destruct q, p as [|c p1]; cbn [token]; try done.
  - intros [= <- <-]. simpl. lia.
  - destruct (_ || _); [intros [= <- <-]; simpl; lia|]. destruct (_ =? _); [by apply Hstep; simpl; lia|].
    destruct (_ =? _); apply Hstep; simpl; lia.
  - destruct (c =? 92).
    + destruct p1 as [|x p2]; [apply Hstep; simpl; lia|]. destruct p2 as [|h1 [|h2 p4]]; try (apply Hstep; simpl; lia).
      destruct (_ && _); apply Hstep; simpl; lia.
    + destruct (c =? 34); [destruct (glued p1); [done|intros [= <- <-]; simpl; lia]|apply Hstep; simpl; lia].
  - destruct p1 as [|x p2].
    + destruct (c =? 39); [intros [= <- <-]; simpl; lia|apply Hstep; simpl; lia].
    + destruct (_ && _); [apply Hstep; simpl; lia|]. destruct (c =? 39); [|apply Hstep; simpl; lia].
      destruct (glued _); [done|intros [= <- <-]; simpl; lia].
Qed.

Lemma skip_length p : (length (skip_blanks p) <= length p)%nat.
Proof. induction p as [|c p IH]; simpl; [lia|]. destruct (isspace c); simpl; lia. Qed.

Lemma cstr_length l : (length (cstr l) <= length l)%nat.
Proof. induction l as [|c l IH]; simpl; [lia|]. destruct (_ =? _); simpl; lia. Qed.

Lemma split_total fuel : forall p vector, (length p <= fuel)%nat -> split_loop fuel p vector <> Abort.
Proof.
  induction fuel as [|fuel IH]; intros p vector Hf; cbn [split_loop]; pose proof (skip_length p) as Hs;
    destruct (skip_blanks p) as [|c p1]; try done; [simpl in Hs; lia|].
  destruct (token Bare (c :: p1) []) as [[t rest]|] eqn:Et; [|done].
  destruct (token_progress _ _ _ _ _ Et) as [_ Hp]. apply IH. simpl in *. specialize (Hp ltac:(lia)). lia.
Qed.

Lemma sdssplitargs_total line : exists args, sdssplitargs line = Ret args.
Proof.
  destruct (sdssplitargs line) as [|args] eqn:E; [exfalso; revert E; apply split_total, cstr_length|by exists args].
Qed.

(** ** Quoting is undone by splitting *)

Lemma hex_back d : 0 <= d < 16 -> is_hex_digit (hex_char d) = true /\ hex_digit_to_int (hex_char d) = d.
Proof.
  intros Hd. unfold is_hex_digit, hex_digit_to_int, hex_char. destruct (Z.ltb_spec d 10).
  - replace ((48 <=? d + 48) && (d + 48 <=? 57)) with true by (symmetry; apply andb_true_iff; lia). split; [done|lia].
  - replace ((48 <=? d + 87) && (d + 87 <=? 57)) with false by (symmetry; apply andb_false_iff; lia).
    replace ((97 <=? d + 87) && (d + 87 <=? 102)) with true by (symmetry; apply andb_true_iff; lia). split; [done|lia].
Qed.

Lemma token_escape x tail current : x <> 120 -> token Inq (92 :: x :: tail) current = token Inq tail (current ++ [unescape x]).
Proof.
  intros Hx. cbn [token]. rewrite Z.eqb_refl. destruct (Z.eqb_spec x 120); [done|]. by destruct tail as [|? [|? ?]].
Qed.

Ltac escaped := cbn [orb app Z.eqb Pos.eqb]; rewrite token_escape by done; done.

Lemma token_repr c tail current : is_byte c -> token Inq (repr_char c ++ tail) current = token Inq tail (current ++ [c]).
Proof.
  intros Hc. unfold is_byte, in_u in Hc. change (2 ^ 8) with 256 in Hc. unfold repr_char.
  destruct (Z.eqb_spec c 92) as [->|H92]; [escaped|].
  destruct (Z.eqb_spec c 34) as [->|H34]; [escaped|]. cbn [orb].
  destruct (Z.eqb_spec c 10) as [->|]; [escaped|]. destruct (Z.eqb_spec c 13) as [->|]; [escaped|].
  destruct (Z.eqb_spec c 9) as [->|]; [escaped|]. destruct (Z.eqb_spec c 7) as [->|]; [escaped|].
  destruct (Z.eqb_spec c 8) as [->|]; [escaped|]. destruct (isprint c).
  - cbn [app token]. destruct (Z.eqb_spec c 92); [done|]. by destruct (Z.eqb_spec c 34).
  - destruct (hex_back (c / 16)) as [H1 E1]; [zdiv|]. destruct (hex_back (c mod 16)) as [H2 E2]; [zdiv|].
    cbn [app token]. rewrite !Z.eqb_refl, H1, H2, E1, E2. cbn [andb]. do 3 f_equal. zdiv.
Qed.

Lemma token_reprs p : forall tail current, bytes p ->
  token Inq (concat (map repr_char p) ++ 34 :: tail) current = if glued tail then None else Some (current ++ p, tail).
Proof.
  induction p as [|c p IH]; intros tail current Hp; cbn [map concat].
  - cbn [app token]. by rewrite app_nil_r.
  - apply Forall_cons_1 in Hp as [Hc Hp]. rewrite <- app_assoc, token_repr, IH by done. by rewrite <- app_assoc.
Qed.

Lemma repr_printable c : is_byte c -> Forall (fun x => 32 <= x <= 126) (repr_char c).
Proof.
  intros Hc. unfold is_byte, in_u in Hc. change (2 ^ 8) with 256 in Hc. unfold repr_char.
  destruct (_ || _) eqn:E1; [zbool; apply orb_true_iff in E1; repeat constructor; zbool; lia|].
  repeat (case_bool; [repeat constructor; lia|]). destruct (isprint c) eqn:Ep.
  - unfold isprint in Ep. zbool. repeat constructor; lia.
  - repeat constructor; try lia; unfold hex_char; case_bool; zdiv.
Qed.

Lemma quoted_printable w : bytes w -> Forall (fun x => 32 <= x <= 126) (sdscatrepr [] w).
Proof.
  intros Hb. unfold sdscatrepr. simpl. constructor; [lia|]. apply Forall_app. split; [|repeat constructor; lia].
  apply Forall_concat, Forall_map. eapply Forall_impl; [exact Hb|]. intros c. apply repr_printable.
Qed.

Lemma cstr_nonzero l : Forall (fun x => x <> 0) l -> cstr l = l.
Proof. induction 1 as [|c l Hc _ IH]; [done|]. simpl. destruct (Z.eqb_spec c 0); [done|]. by rewrite IH. Qed.

(** A line of quoted arguments, each followed by a space. *)
Definition quoted_line (args : list (list Z)) : list Z := concat (map (fun a => sdscatrepr [] a ++ [32]) args).

Lemma quoted_nonzero args : Forall bytes args -> Forall (fun x => x <> 0) (quoted_line args).
Proof.
  intros Ha. unfold quoted_line. apply Forall_concat, Forall_map. eapply Forall_impl; [exact Ha|]. intros a Hb.
  apply Forall_app. split; [|repeat constructor; done]. eapply Forall_impl; [by apply quoted_printable|]. simpl. lia.
Qed.

Lemma split_quoted args : forall fuel vector, Forall bytes args -> (length args <= fuel)%nat ->
  split_loop fuel (quoted_line args) vector = Ret (Some (vector ++ args)).
Proof.
  induction args as [|a args IH]; intros fuel vector Ha Hf.
  - destruct fuel; simpl; by rewrite app_nil_r.
  - apply Forall_cons_1 in Ha as [Hb Ha]. simpl in Hf. destruct fuel as [|fuel]; [lia|].
    assert (quoted_line (a :: args) = 34 :: concat (map repr_char a) ++ 34 :: 32 :: quoted_line args) as ->.
    { unfold quoted_line, sdscatrepr. simpl. f_equal. rewrite <- !app_assoc. done. }
    assert (skip_blanks (32 :: quoted_line args) = skip_blanks (quoted_line args)) as Hsk by done.
    cbn [split_loop skip_blanks]. change (isspace 34) with false. cbn iota. cbn [token].
    change ((34 =? 32) || (34 =? 10) || (34 =? 13) || (34 =? 9)) with false. change (34 =? 34) with true. cbn iota.
    rewrite token_reprs by done. cbn [glued]. change (negb (isspace 32)) with false. cbn iota. cbn [app].
    specialize (IH fuel (vector ++ [a]) Ha ltac:(lia)). rewrite <- app_assoc in IH. simpl in IH. rewrite <- IH.
    by destruct fuel; cbn [split_loop]; rewrite Hsk.
Qed.

(** ** Words with or without quotes *)

Definition plain (c : Z) : Prop := isspace c = false /\ c <> 34 /\ c <> 39 /\ c <> 0.

(** [t] is a text of the word [w]. *)
Definition text_of (t w : list Z) : Prop := t = w /\ w <> [] /\ Forall plain w \/ t = sdscatrepr [] w /\ bytes w.

Fixpoint join (ts : list (list Z)) : list Z :=
  match ts with
  | [] => []
  | [t] => t
  | t :: ts => t ++ 32 :: join ts
  end.

Lemma token_plain w : forall current tail, Forall plain w -> tail = [] \/ (exists r, tail = 32 :: r) ->
  exists rest, token Bare (w ++ tail) current = Some (current ++ w, rest) /\ skip_blanks rest = skip_blanks tail.
Proof.
  induction w as [|c w IH]; intros current tail Hw Ht; cbn [app].
  - rewrite app_nil_r. destruct Ht as [->|[r ->]]; [by exists []|]. by exists r.
  - apply Forall_cons_1 in Hw as [(Hs & H34 & H39 & _) Hw]. cbn [token]. unfold isspace in Hs.
    assert ((c =? 32) || (c =? 10) || (c =? 13) || (c =? 9) = false) as -> by (zbool; lia).
    destruct (Z.eqb_spec c 34); [done|]. destruct (Z.eqb_spec c 39); [done|].
    destruct (IH (current ++ [c]) tail Hw Ht) as (rest & E & Hr). exists rest. by rewrite E, <- app_assoc.
Qed.

Lemma token_text t w tail : text_of t w -> tail = [] \/ (exists r, tail = 32 :: r) ->
  exists rest, token Bare (t ++ tail) [] = Some (w, rest) /\ skip_blanks rest = skip_blanks tail.
Proof.
  intros [(-> & _ & Hw)|[-> Hb]] Ht; [by apply token_plain|]. exists tail. split; [|done].
  unfold sdscatrepr. cbn [app]. rewrite <- app_assoc. cbn [app token].
  change ((34 =? 32) || (34 =? 10) || (34 =? 13) || (34 =? 9)) with false. change (34 =? 34) with true. cbn iota.
  rewrite token_reprs by done. by destruct Ht as [->|[r ->]].
Qed.

Lemma text_head t w tail : text_of t w -> exists c t', t = c :: t' /\ skip_blanks (t ++ tail) = t ++ tail.
Proof.
  intros [(-> & Hne & Hw)|[-> _]]; [|by eexists _, _]. destruct w as [|c w]; [done|]. apply Forall_cons_1 in Hw as [[Hs _] _].
  exists c, w. cbn [app skip_blanks]. by rewrite Hs.
Qed.

Lemma split_loop_skip fuel p q vector : skip_blanks p = skip_blanks q -> split_loop fuel p vector = split_loop fuel q vector.
Proof. intros E. destruct fuel; cbn [split_loop]; by rewrite E. Qed.

Lemma split_words : forall ts ws fuel vector, Forall2 text_of ts ws -> (length ts <= fuel)%nat ->
  split_loop fuel (join ts) vector = Ret (Some (vector ++ ws)).
Proof.
  induction ts as [|t ts IH]; intros ws fuel vector Hf Hl.
  - inversion Hf; subst. destruct fuel; simpl; by rewrite app_nil_r.
  - inversion Hf as [|? w ? ws' Ht Hts]; subst. simpl in Hl. destruct fuel as [|fuel]; [lia|].
    assert (exists tail, join (t :: ts) = t ++ tail /\ (tail = [] \/ exists r, tail = 32 :: r) /\ skip_blanks tail = skip_blanks (join ts))
      as (tail & -> & Htail & Hsk).
    { destruct ts; [exists []; rewrite app_nil_r; split_and!; [done|by left|done]|]. eexists. split; [reflexivity|].
      split; [right; by eexists|done]. }
    destruct (text_head t w tail Ht) as (c & t' & E & Hh). destruct (token_text t w tail Ht Htail) as (rest & Etok & Hr).
    cbn [split_loop]. rewrite Hh. rewrite E in *. cbn [app] in *. rewrite Etok.
    rewrite (split_loop_skip _ rest (join ts)) by congruence. rewrite (IH ws') by (done || lia). by rewrite <- app_assoc.
Qed.

Lemma join_length ts ws : Forall2 text_of ts ws -> (length ts <= length (join ts))%nat.
Proof.
  induction 1 as [|t w ts ws Ht _ IH]; [done|]. destruct (text_head t w [] Ht) as (c & t' & -> & _).
  destruct ts; [simpl; lia|]. cbn [join length app] in *. rewrite length_app. simpl in *. lia.
Qed.

(** A line of words separated by one space is split into them. *)
Lemma sdssplitargs_words ts ws : Forall2 text_of ts ws -> Forall (fun x => x <> 0) (join ts) ->
  sdssplitargs (join ts) = Ret (Some ws).
Proof.
  intros Hf Hz. unfold sdssplitargs. rewrite cstr_nonzero by done. apply (split_words ts ws _ []); [done|].
  by eapply join_length.
Qed.

(** ** Theorems *)

(** C37: [sdssplitargs] reads back what [sdscatrepr] writes: a line of quoted
    strings, of any bytes with NUL among them, is split into exactly those strings. *)
Theorem sdssplitargs_repr args : Forall bytes args -> sdssplitargs (quoted_line args) = Ret (Some args).
Proof.
  intros Ha. unfold sdssplitargs. rewrite cstr_nonzero by (by apply quoted_nonzero).
  rewrite split_quoted; [done|done|]. unfold quoted_line. clear Ha. induction args as [|a args IH]; [done|].
  cbn [map concat length]. rewrite length_app, (length_app _ [32]). cbn [length]. lia.
Qed.

Lemma sdssplitargs_repr_witness :
  sdssplitargs (quoted_line [[0; 255; 34; 92]; []; chars "a b"]) = Ret (Some [[0; 255; 34; 92]; []; chars "a b"]).
Proof. apply (sdssplitargs_repr [[0; 255; 34; 92]; []; chars "a b"]). repeat constructor; vm_compute; discriminate || reflexivity. Defined.

(** ** Words of commands *)

(** [w] is the word [s], each letter in either case; what follows a NUL is not looked at. *)
Definition spells (s w : list Z) : Prop :=
  exists u rest, w = u ++ rest /\ (rest = [] \/ exists r, rest = 0 :: r) /\ Forall2 (fun x c => c = x \/ c = x - 32) s u.
Definition lower_case (s : list Z) : bool := forallb (fun x => (97 <=? x) && (x <=? 122)) s.

Lemma lower_case_cons x s : lower_case (x :: s) = true <-> 97 <= x <= 122 /\ lower_case s = true.
Proof. unfold lower_case. cbn [forallb]. rewrite andb_true_iff. split; intros [? ?]; (split; [lia|done]). Qed.

Lemma tolower_letter x c : 97 <= x <= 122 -> tolower c = x <-> c = x \/ c = x - 32.
Proof. intros Hx. unfold tolower. destruct ((65 <=? c) && (c <=? 90)) eqn:E; lia. Qed.

(** A word spelled is compared as the word itself, and only a word spelled is. *)
Lemma spells_cstr s w : lower_case s = true -> spells s w <-> map tolower (cstr w) = s.
Proof.
  intros Hs. split.
  - intros (u & rest & -> & Hr & Hu). assert (cstr rest = []) as Er by (destruct Hr as [->|[r ->]]; done). revert Hs.
    induction Hu as [|x c s u Hc _ IH]; [intros _; cbn [app]; by rewrite Er|]. intros [Hx Hs]%lower_case_cons. cbn [app cstr]. destruct (Z.eqb_spec c 0); [lia|].
    cbn [map]. f_equal; [by apply tolower_letter|by apply IH].
  - revert s Hs. induction w as [|c w IH]; intros s Hs; cbn [cstr]; [intros <-; exists [], []; by repeat constructor|].
    destruct (Z.eqb_spec c 0) as [->|Hc]; [intros <-; exists [], (0 :: w); split; [done|split; [right; by eexists|constructor]]|].
    intros <-. apply lower_case_cons in Hs as [Hx Hs]. destruct (IH _ Hs eq_refl) as (u & rest & E & Hr & Hu). exists (c :: u), rest. split; [by rewrite E|]. split; [done|].
    constructor; [|done]. by apply (tolower_letter (tolower c)).
Qed.

Lemma same_case_word s w : lower_case s = true -> same_case w s = true <-> spells s w.
Proof.
  intros Hs. rewrite spells_cstr by done. unfold same_case. rewrite bool_decide_eq_true.
  assert (map tolower (cstr s) = s) as ->; [|done]. apply spells_cstr; [done|]. exists s, []. rewrite app_nil_r. split; [done|]. split; [by left|]. clear Hs. by induction s; constructor; [left|].
Qed.

(** Which word it is decides every comparison. *)
Lemma spells_same s w t : lower_case s = true -> spells s w -> same_case w t = bool_decide (s = map tolower (cstr t)).
Proof. intros Hs H. unfold same_case. apply spells_cstr in H as ->; [done|done]. Qed.

(** The same, computed. *)
Fixpoint named (s w : list Z) : bool :=
  match s, w with
  | [], [] => true
  | [], c :: _ => c =? 0
  | x :: s, c :: w => ((c =? x) || (c =? x - 32)) && named s w
  | _ :: _, [] => false
  end.

Lemma same_case_named s w : lower_case s = true -> same_case w s = named s w.
Proof.
  intros Hs. apply eq_true_iff_eq. rewrite same_case_word, spells_cstr by done. revert s Hs. induction w as [|c w IH]; intros [|x s] Hs; cbn [cstr named]; try done.
  - destruct (Z.eqb_spec c 0); cbn; split; done.
  - apply lower_case_cons in Hs as [Hx Hs]. rewrite andb_true_iff, orb_true_iff, !Z.eqb_eq. destruct (Z.eqb_spec c 0) as [->|Hc]; [cbn; split; [done|intros [[?|?] _]; lia]|].
    rewrite <- IH, <- (tolower_letter x c) by done. cbn [map]. split; [intros [= -> ->]; done|intros [-> ->]; done].
Qed.

(** No two words are written the same. *)
Lemma named_same s s' w : lower_case s = true -> lower_case s' = true -> named s w = true -> named s' w = true -> s = s'.
Proof. intros Hs Hs' H H'. rewrite <- same_case_named in H, H' by done. apply same_case_word, spells_cstr in H; [|done..]. apply same_case_word, spells_cstr in H'; [|done..]. congruence. Qed.

End SdsArgs.
