(* ===== verification/Resp.v ===== *)
(** * Resp: the request parser (networking.c)

    A client's query buffer grows by what each [read] returns and is parsed as far
    as it goes: inline commands, lines split like a shell does, and multi bulk
    requests, a count and then that many strings with their lengths.  The parser's
    state is in the client, so that a request may arrive in any pieces.

    Modelled for clients that are not masters, outside I/O threads; the two line
    parsers have the master's exceptions too.  The execution of a command is a
    parameter that says what becomes of the client.  Reads beyond the buffer or
    the argument vector, and failed assertions, are [Abort]. *)
From S2P Require Import Prelude NumStr SdsArgs.
Import NumStr.

Module Resp.

Definition PROTO_INLINE_MAX_SIZE : Z := 1024 * 64.
Definition PROTO_MBULK_BIG_ARG : Z := 1024 * 32.
Definition PROTO_REQ_INLINE : Z := 1.
Definition PROTO_REQ_MULTIBULK : Z := 2.
Definition INT_MAX : Z := 2 ^ 31 - 1.

(** The replies of the protocol errors. *)
Inductive perror :=
| TooBigInline | UnbalancedQuotes | InlineFromMaster
| TooBigMbulkCount | InvalidMbulkCount | UnauthMbulkCount
| TooBigBulkCount | ExpectedDollar (got : Z) | InvalidBulkLength | UnauthBulkLength.

Record client := Client {
  querybuf : list Z;
  qb_pos : nat;
  reqtype : Z;
  multibulklen : Z;
  bulklen : Z;
  argv : list (list Z);      (* argc is its length *)
  argv_len : Z;              (* slots allocated *)
  argv_len_sum : Z;
  close_after_reply : bool;  (* CLIENT_CLOSE_AFTER_REPLY, with CLIENT_PROTOCOL_ERROR on an error *)
  blocked : bool;            (* CLIENT_BLOCKED *)
  error : option perror;
}.

Definition createClient : client := Client [] 0 0 0 (-1) [] 0 0 false false None.

Definition argc (c : client) : Z := Z.of_nat (length (argv c)).
(** [sdslen(c->querybuf) - c->qb_pos], signed and as a [size_t]. *)
Definition left_ (c : client) : Z := Z.of_nat (length (querybuf c)) - Z.of_nat (qb_pos c).
Definition avail (c : client) : Z := if left_ c <? 0 then left_ c + 2 ^ 64 else left_ c.
Definition unparsed (c : client) : list Z := drop (qb_pos c) (querybuf c).

Definition set_buf (c : client) (b : list Z) (pos : nat) : client :=
  Client b pos (reqtype c) (multibulklen c) (bulklen c) (argv c) (argv_len c) (argv_len_sum c)
    (close_after_reply c) (blocked c) (error c).
Definition set_reqtype (c : client) (t : Z) : client :=
  Client (querybuf c) (qb_pos c) t (multibulklen c) (bulklen c) (argv c) (argv_len c) (argv_len_sum c)
    (close_after_reply c) (blocked c) (error c).
Definition set_lens (c : client) (m b : Z) : client :=
  Client (querybuf c) (qb_pos c) (reqtype c) m b (argv c) (argv_len c) (argv_len_sum c)
    (close_after_reply c) (blocked c) (error c).
Definition set_argv (c : client) (a : list (list Z)) (len sum : Z) : client :=
  Client (querybuf c) (qb_pos c) (reqtype c) (multibulklen c) (bulklen c) a len sum
    (close_after_reply c) (blocked c) (error c).

(** The error reply and the flags. *)
Definition setProtocolError (e : perror) (c : client) : client :=
  Client (querybuf c) (qb_pos c) (reqtype c) (multibulklen c) (bulklen c) (argv c) (argv_len c) (argv_len_sum c)
    true (blocked c) (Some e).

Definition resetClient (c : client) : client :=
  Client (querybuf c) (qb_pos c) 0 0 (-1) [] 0 0 (close_after_reply c) (blocked c) (error c).

(** [strchr]: stops at a NUL byte; the buffer ends with one. *)
Fixpoint strchr (l : list Z) (ch : Z) : option nat :=
  match l with
  | [] => None
  | x :: l => if x =? ch then Some 0%nat else if x =? 0 then None else S <$> strchr l ch
  end.

(** Reads of an sds: a byte, which may be the NUL after the last one, some bytes, and a
    search from a position to the NUL. *)
Definition buf_byte (b : list Z) (p : nat) : outcome Z := if (p <=? length b)%nat then Ret (at_ b p) else Abort.
Definition buf_bytes (b : list Z) (p : nat) (n : Z) : outcome (list Z) :=
  if (0 <=? n) && (Z.of_nat p + n <=? Z.of_nat (length b)) then Ret (load b p (Z.to_nat n)) else Abort.
Definition find_char (b : list Z) (p : nat) (ch : Z) : outcome (option nat) :=
  if (p <=? length b)%nat then Ret (strchr (drop p b) ch) else Abort.

Definition sum_len (a : list (list Z)) : Z := foldr (fun x n => Z.of_nat (length x) + n) 0 a.

(** ** Inline commands *)

Definition processInlineBuffer (master : bool) (c : client) : outcome (client * bool) :=
  let* found := find_char (querybuf c) (qb_pos c) 10 in
  match found with
  | None =>
      Ret (if PROTO_INLINE_MAX_SIZE <? avail c then setProtocolError TooBigInline c else c, false)
  | Some newline =>
      let* cr := if Nat.eqb newline 0 then Ret false
                 else let* b := buf_byte (querybuf c) (qb_pos c + newline - 1) in Ret (b =? 13) in
      let querylen := if cr : bool then (newline - 1)%nat else newline in
      let linefeed_chars := if cr : bool then 2%nat else 1%nat in
      let* aux := buf_bytes (querybuf c) (qb_pos c) (Z.of_nat querylen) in
      let* args := SdsArgs.sdssplitargs aux in
      match args with
      | None => Ret (setProtocolError UnbalancedQuotes c, false)
      | Some args =>
          if negb (Nat.eqb querylen 0) && master then Ret (setProtocolError InlineFromMaster c, false)
          else
            let c := set_buf c (querybuf c) (qb_pos c + (querylen + linefeed_chars)) in
            match args with
            | [] => Ret (set_argv c [] (argv_len c) (argv_len_sum c), true)
            | _ => Ret (set_argv c args (Z.of_nat (length args)) (sum_len args), true)
            end
      end
  end.

(** ** Multi bulk requests *)

Section Mbulk.
(** [c->flags & CLIENT_MASTER], [authRequired(c)] and the configured limit. *)
Context (master auth : bool) (proto_max_bulk_len : Z).

(** The length of the next argument, when [c->bulklen == -1]; [false] ends the loop. *)
Definition bulk_header (c : client) : outcome (client * bool) :=
  let* found := find_char (querybuf c) (qb_pos c) 13 in
  match found with
  | None => Ret (if PROTO_INLINE_MAX_SIZE <? avail c then setProtocolError TooBigBulkCount c else c, false)
  | Some newline =>
      if left_ c - 2 <? Z.of_nat newline then Ret (c, false) else
      let* b := buf_byte (querybuf c) (qb_pos c) in
      if negb (b =? 36) then Ret (setProtocolError (ExpectedDollar b) c, false)
      else
        let* digits := buf_bytes (querybuf c) (qb_pos c + 1) (Z.of_nat newline - 1) in
        match string2ll digits with
        | None => Ret (setProtocolError InvalidBulkLength c, false)
        | Some ll =>
            if (ll <? 0) || negb master && (proto_max_bulk_len <? ll) then
              Ret (setProtocolError InvalidBulkLength c, false)
            else if (16384 <? ll) && auth then Ret (setProtocolError UnauthBulkLength c, false)
            else
              let c := set_buf c (querybuf c) (qb_pos c + newline + 2) in
              let c :=
                if negb master && (PROTO_MBULK_BIG_ARG <=? ll) && (avail c <=? ll + 2)
                then set_buf c (unparsed c) 0 else c in
              Ret (set_lens c (multibulklen c) ll, true)
        end
  end.

(** The argument itself, of which there is all. *)
Definition take_arg (c : client) : outcome client :=
  let len :=
    if argv_len c <=? argc c then
      Z.min (if argv_len c <? INT_MAX / 2 then argv_len c * 2 else INT_MAX) (argc c + multibulklen c)
    else argv_len c in
  if len <=? argc c then Abort else
  let n := Z.to_nat (bulklen c) in
  let* (arg, c) :=
    if negb master && Nat.eqb (qb_pos c) 0 && (PROTO_MBULK_BIG_ARG <=? bulklen c) &&
       (Z.of_nat (length (querybuf c)) =? bulklen c + 2)
    then
      if (length (querybuf c) <? 2)%nat then Abort
      else Ret (take (length (querybuf c) - 2) (querybuf c), set_buf c [] 0)
    else
      let* arg := buf_bytes (querybuf c) (qb_pos c) (bulklen c) in
      Ret (arg, set_buf c (querybuf c) (qb_pos c + (n + 2))) in
  let c := set_argv c (argv c ++ [arg]) len (argv_len_sum c + bulklen c) in
  Ret (set_lens c (multibulklen c - 1) (-1)).

(** [while (c->multibulklen)]; [todo] is [c->multibulklen]. *)
Fixpoint args_loop (todo : nat) (c : client) : outcome (client * bool) :=
  match todo with
  | O => Ret (c, true)
  | S todo =>
      let* (c, go) := if bulklen c =? -1 then bulk_header c else Ret (c, true) in
      if negb go then Ret (c, false)
      else if avail c <? bulklen c + 2 then Ret (c, false)
      else let* c := take_arg c in args_loop todo c
  end.

(** The number of arguments; [Some true] when there are none, [Some false] when
    the caller returns, [None] when it goes on to them. *)
Definition mbulk_header (c : client) : outcome (client * option bool) :=
  if negb (argc c =? 0) then Abort else
  let* found := find_char (querybuf c) (qb_pos c) 13 in
  match found with
  | None => Ret (if PROTO_INLINE_MAX_SIZE <? avail c then setProtocolError TooBigMbulkCount c else c, Some false)
  | Some newline =>
      if left_ c - 2 <? Z.of_nat newline then Ret (c, Some false) else
      let* b := buf_byte (querybuf c) (qb_pos c) in
      if negb (b =? 42) then Abort
      else
        let* digits := buf_bytes (querybuf c) (qb_pos c + 1) (Z.of_nat newline - 1) in
        match string2ll digits with
        | None => Ret (setProtocolError InvalidMbulkCount c, Some false)
        | Some ll =>
            if INT_MAX <? ll then Ret (setProtocolError InvalidMbulkCount c, Some false)
            else if (10 <? ll) && auth then Ret (setProtocolError UnauthMbulkCount c, Some false)
            else
              let c := set_buf c (querybuf c) (qb_pos c + newline + 2) in
              if ll <=? 0 then Ret (c, Some true)
              else Ret (set_argv (set_lens c ll (bulklen c)) [] (Z.min ll 1024) 0, None)
        end
  end.

Definition processMultibulkBuffer (c : client) : outcome (client * bool) :=
  let* (c, r) := if multibulklen c =? 0 then mbulk_header c else Ret (c, None) in
  match r with
  | Some ok => Ret (c, ok)
  | None =>
      if multibulklen c <=? 0 then Abort
      else args_loop (Z.to_nat (multibulklen c)) c
  end.

End Mbulk.

(** ** The input buffer *)

(** What becomes of a client whose command was executed. *)
Inductive after := Alive | Block | Close | Dead.

Section Input.
Context (auth : bool) (proto_max_bulk_len client_max_querybuf_len : Z).
Context (execute : list (list Z) -> after).

Definition set_flags (c : client) (close block : bool) : client :=
  Client (querybuf c) (qb_pos c) (reqtype c) (multibulklen c) (bulklen c) (argv c) (argv_len c) (argv_len_sum c)
    close block (error c).

(** [processCommandAndResetClient]; [false] when the client is gone. *)
Definition processCommandAndResetClient (c : client) : client * bool :=
  match execute (argv c) with
  | Alive => (resetClient c, true)
  | Block => (set_flags c (close_after_reply c) true, true)
  | Close => (resetClient (set_flags c true (blocked c)), true)
  | Dead => (c, false)
  end.

(** The commands executed, with their request types, are collected. *)
Fixpoint input_loop (fuel : nat) (c : client) : outcome (client * list (Z * list (list Z)) * bool) :=
  if negb (Nat.ltb (qb_pos c) (length (querybuf c))) || blocked c || close_after_reply c then Ret (c, [], true)
  else
    match fuel with
    | O => Abort
    | S fuel =>
        let* c :=
          if reqtype c =? 0 then
            let* b := buf_byte (querybuf c) (qb_pos c) in
            Ret (set_reqtype c (if b =? 42 then PROTO_REQ_MULTIBULK else PROTO_REQ_INLINE))
          else Ret c in
        let* (c, ok) :=
          if reqtype c =? PROTO_REQ_INLINE then processInlineBuffer false c
          else if reqtype c =? PROTO_REQ_MULTIBULK then processMultibulkBuffer false auth proto_max_bulk_len c
          else Abort in
        if negb ok then Ret (c, [], true)
        else if argc c =? 0 then input_loop fuel (resetClient c)
        else
          let ran := (reqtype c, argv c) in
          let '(c, alive) := processCommandAndResetClient c in
          if negb alive then Ret (c, [ran], false)
          else
            let* (c, rans, alive) := input_loop fuel c in
            Ret (c, ran :: rans, alive)
    end.

Definition processInputBuffer (c : client) : outcome (client * list (Z * list (list Z)) * bool) :=
  let* (c, rans, alive) := input_loop (length (unparsed c)) c in
  if negb alive then Ret (c, rans, false)
  else Ret (if Nat.eqb (qb_pos c) 0 then c else set_buf c (unparsed c) 0, rans, true).

(** What [connRead] returned: -1, with the connection still up or not, or the bytes it
    read; none is the end of the connection. *)
Inductive conn_read := Failed (connected : bool) | Read (data : list Z).

(** [queued] is the size of the commands queued by a transaction. *)
Definition readQueryFromClient (c : client) (queued : Z) (nread : conn_read)
  : outcome (client * list (Z * list (list Z)) * bool) :=
  match nread with
  | Failed connected => Ret (c, [], connected)
  | Read [] => Ret (c, [], false)
  | Read data =>
      let c := set_buf c (querybuf c ++ data) (qb_pos c) in
      let size := queued + Z.of_nat (length (querybuf c)) in
      if (client_max_querybuf_len <? size) || (1024 * 1024 <? size) && auth then Ret (c, [], false)
      else processInputBuffer c
  end.

(** The reads of a connection, until the client is gone. *)
Fixpoint read_all (c : client) (nreads : list conn_read) : outcome (client * list (Z * list (list Z)) * bool) :=
  match nreads with
  | [] => Ret (c, [], true)
  | nread :: nreads =>
      let* (c, rans, alive) := readQueryFromClient c 0 nread in
      if negb alive then Ret (c, rans, false)
      else
        let* (c, rans', alive) := read_all c nreads in
        Ret (c, rans ++ rans', alive)
  end.

(** A chunk of a stream; an empty one is a read that finds nothing yet. *)
Definition chunk (data : list Z) : conn_read := match data with [] => Failed true | _ => Read data end.
Definition reads (c : client) (chunks : list (list Z)) : outcome (client * list (Z * list (list Z)) * bool) := read_all c (chunk <$> chunks).

End Input.

(** ** Reads inside the buffer *)

Lemma buf_byte_ok b p : (p <= length b)%nat -> buf_byte b p = Ret (at_ b p).
Proof. intros H. unfold buf_byte. by destruct (Nat.leb_spec p (length b)); [|lia]. Qed.

Lemma buf_bytes_ok b p n : (p + n <= length b)%nat -> buf_bytes b p (Z.of_nat n) = Ret (load b p n).
Proof.
  intros H. unfold buf_bytes. rewrite (proj2 (Z.leb_le 0 _)), (proj2 (Z.leb_le (_ + _) _)) by lia. by rewrite Nat2Z.id.
Qed.

Lemma find_char_ok c ch : (qb_pos c <= length (querybuf c))%nat -> find_char (querybuf c) (qb_pos c) ch = Ret (strchr (unparsed c) ch).
Proof. intros H. unfold find_char. by destruct (Nat.leb_spec (qb_pos c) (length (querybuf c))); [|lia]. Qed.

Lemma avail_ok c : (qb_pos c <= length (querybuf c))%nat -> avail c = left_ c.
Proof. intros H. unfold avail, left_. by rewrite (proj2 (Z.ltb_ge _ _)) by lia. Qed.

Lemma ret_if {A} (b : bool) (x y : A) : (if b then Ret x else Ret y) = Ret (if b then x else y).
Proof. by destruct b. Qed.

(** ** Lines *)

(** A part of a line that ends with CR LF, long enough to hold it or not. *)
Lemma line_prefix l unread h X : l ++ unread = h ++ 13 :: 10 :: X -> Forall (fun c => c <> 0 /\ c <> 13) h ->
  (exists Y, l = h ++ 13 :: 10 :: Y /\ Y ++ unread = X /\ strchr l 13 = Some (length h)) \/
  ((length l <= length h + 1)%nat /\ unread <> [] /\
   (strchr l 13 = None \/ strchr l 13 = Some (length h) /\ length l = (length h + 1)%nat)).
Proof.
  revert l. induction h as [|c h IH]; intros l E Hh.
  - destruct l as [|x [|y l]]; simpl in E.
    + right. split; [simpl; lia|]. split; [by intros ->|by left].
    + injection E as -> E. right. split; [simpl; lia|]. split; [by intros ->|]. right. by split.
    + injection E as -> -> E. left. exists l. by split_and!.
  - apply Forall_cons_1 in Hh as [[Hc0 Hc13] Hh]. destruct l as [|x l]; simpl in E.
    + right. split; [simpl; lia|]. split; [by intros ->|by left].
    + injection E as -> E. cbn [strchr]. destruct (Z.eqb_spec c 13); [done|]. destruct (Z.eqb_spec c 0); [done|].
      destruct (IH l E Hh) as [(Y & -> & EY & ->)|(Hl & Hu & [-> |[-> Hl']])].
      * left. exists Y. by split_and!.
      * right. simpl. split; [lia|]. split; [done|by left].
      * right. simpl. split; [lia|]. split; [done|]. right. split; [done|lia].
Qed.

Lemma header_parts c ch n Y : unparsed c = (ch :: repr n) ++ 13 :: 10 :: Y ->
  (qb_pos c <= length (querybuf c))%nat /\ at_ (querybuf c) (qb_pos c) = ch /\
  load (querybuf c) (qb_pos c + 1) (length (repr n)) = repr n /\
  left_ c = Z.of_nat (length (repr n)) + 3 + Z.of_nat (length Y) /\
  drop (qb_pos c + S (length (repr n)) + 2) (querybuf c) = Y.
Proof.
  unfold unparsed, left_. intros E.
  assert (length (drop (qb_pos c) (querybuf c)) = length (repr n) + 3 + length Y)%nat as Hl.
  { rewrite E. simpl. rewrite length_app. simpl. lia. }
  rewrite length_drop in Hl. split; [lia|]. split_and!.
  - unfold at_. rewrite nth_lookup. replace (qb_pos c) with (qb_pos c + 0)%nat at 1 by lia.
    by rewrite <- lookup_drop, E.
  - unfold load. rewrite <- drop_drop, E. cbn [app drop]. apply take_app_length.
  - lia.
  - rewrite <- !drop_drop, E. cbn [app drop]. rewrite drop_app_length. done.
Qed.

Lemma header_digits c ch n : load (querybuf c) (qb_pos c + 1) (length (repr n)) = repr n -> Z.of_nat (length (ch :: repr n)) <= left_ c - 2 ->
  buf_bytes (querybuf c) (qb_pos c + 1) (Z.of_nat (length (ch :: repr n)) - 1) = Ret (repr n).
Proof.
  unfold left_. cbn [length]. intros E H. replace (Z.of_nat (S (length (repr n))) - 1) with (Z.of_nat (length (repr n))) by lia. rewrite buf_bytes_ok by lia. by rewrite E.
Qed.

(** ** Requests and their encoding *)

Definition encode_bulk (a : list Z) : list Z := 36 :: repr (Z.of_nat (length a)) ++ 13 :: 10 :: a ++ [13; 10].
Definition encode (r : list (list Z)) : list Z :=
  42 :: repr (Z.of_nat (length r)) ++ 13 :: 10 :: concat (map encode_bulk r).
Definition encodes (rs : list (list (list Z))) : list Z := concat (map encode rs).

Section Stream.
Context (auth : bool) (maxb : Z) (Hmax : maxb < 2 ^ 62).

(** What the limits allow. *)
Definition arg_ok (a : list Z) : Prop :=
  Z.of_nat (length a) <= maxb /\ (auth = true -> Z.of_nat (length a) <= 16384).
Definition req_ok (r : list (list Z)) : Prop :=
  r <> [] /\ Z.of_nat (length r) <= INT_MAX /\ (auth = true -> Z.of_nat (length r) <= 10) /\ Forall arg_ok r.

(** The next slot of the argument vector can be found. *)
Definition slots (c : client) : Prop := 1 <= argv_len c /\ argc c <= argv_len c.
Definition calm (c : client) : Prop :=
  close_after_reply c = false /\ blocked c = false /\ error c = None /\ (qb_pos c <= length (querybuf c))%nat.

(** In the middle of a request: after an argument, and after a length. *)
Definition in_args (c : client) (rest : list (list Z)) : Prop :=
  reqtype c = PROTO_REQ_MULTIBULK /\ multibulklen c = Z.of_nat (length rest) /\ bulklen c = -1 /\ slots c.
Definition in_arg (c : client) (a : list Z) (rest : list (list Z)) : Prop :=
  reqtype c = PROTO_REQ_MULTIBULK /\ multibulklen c = Z.of_nat (length rest) + 1 /\
  bulklen c = Z.of_nat (length a) /\ slots c.

Definition bulks (args : list (list Z)) (todo : list (list (list Z))) : list Z :=
  concat (map encode_bulk args) ++ encodes todo.

Lemma digits_line ch n : ch = 36 \/ ch = 42 -> 0 <= n -> Forall (fun c => c <> 0 /\ c <> 13) (ch :: repr n).
Proof using.
  intros Hch Hn. constructor; [lia|]. eapply Forall_impl; [by apply repr_digits|]. simpl. lia.
Qed.

Lemma short_line c ch n : 0 <= n < 2 ^ 62 -> (qb_pos c <= length (querybuf c))%nat ->
  (length (unparsed c) <= length (ch :: repr n) + 1)%nat -> avail c <= PROTO_INLINE_MAX_SIZE.
Proof using.
  intros Hn Hp Hl. destruct (repr_length n) as [E H]; [unfold in_s; lia|].
  unfold unparsed in Hl. rewrite length_drop in Hl. simpl in Hl. rewrite avail_ok by done. unfold left_, PROTO_INLINE_MAX_SIZE. lia.
Qed.

Lemma bulk_header_spec c a rest todo unread : calm c -> arg_ok a -> in_args c (a :: rest) ->
  unparsed c ++ unread = bulks (a :: rest) todo ->
  (bulk_header false auth maxb c = Ret (c, false) /\ unread <> []) \/
  exists c', bulk_header false auth maxb c = Ret (c', true) /\ calm c' /\ in_arg c' a rest /\ argv c' = argv c /\
    unparsed c' ++ unread = a ++ 13 :: 10 :: bulks rest todo.
Proof using Hmax.
  intros Hcalm [Hmaxa Hautha] (Hrt & Hml & Hbl & Hsl) E. set (n := Z.of_nat (length a)).
  assert (0 <= n < 2 ^ 62) as Hn by lia.
  assert (unparsed c ++ unread = (36 :: repr n) ++ 13 :: 10 :: a ++ 13 :: 10 :: bulks rest todo) as E'.
  { rewrite E. unfold bulks, encode_bulk, n. simpl. f_equal. rewrite <- !app_assoc. simpl. by rewrite <- !app_assoc. }
  unfold bulk_header. rewrite find_char_ok by apply Hcalm. cbn [obind].
  destruct (line_prefix _ _ _ _ E' (digits_line 36 n ltac:(by left) ltac:(lia))) as [(Y & EY & EX & ->)|(Hl & Hu & Hs)].
  - destruct (header_parts c 36 n Y EY) as (Hp & Hch & Hload & Hav & Hdrop). right.
    replace (left_ c - 2 <? Z.of_nat (length (36 :: repr n))) with false by (symmetry; apply Z.ltb_ge; simpl; lia).
    rewrite buf_byte_ok, Hch by done. cbn [obind]. change (negb (36 =? 36)) with false. cbn iota. rewrite header_digits by (done || (cbn [length]; lia)). cbn [obind length].
    assert (string2ll (repr n) = Some n) as -> by (apply string2ll_spec; split; [unfold in_s; lia|done]).
    replace ((n <? 0) || negb false && (maxb <? n)) with false
      by (symmetry; apply orb_false_iff; simpl; split; apply Z.ltb_ge; lia).
    replace ((16384 <? n) && auth) with false.
    2: { symmetry. destruct auth; [|apply andb_false_r]. rewrite andb_true_r. apply Z.ltb_ge. by apply Hautha. }
    set (c1 := set_buf c (querybuf c) (qb_pos c + S (length (repr n)) + 2)).
    assert (unparsed c1 = Y) as Hc1 by exact Hdrop.
    assert (calm c1) as Hcalm1.
    { destruct Hcalm as (? & ? & ? & ?). split_and!; try done. unfold left_ in Hav. simpl. lia. }
    eexists. split; [reflexivity|]. destruct (_ && _).
    + split; [destruct Hcalm as (? & ? & ? & ?); split_and!; try done; simpl; lia|]. split; [|split; [done|]].
      * split_and!; try done; simpl; [rewrite Hml; simpl; lia|..]; apply Hsl.
      * change (drop 0 (unparsed c1) ++ unread = a ++ 13 :: 10 :: bulks rest todo). by rewrite drop_0, Hc1.
    + split; [done|]. split; [|split; [done|]].
      * split_and!; try done; simpl; [rewrite Hml; simpl; lia|..]; apply Hsl.
      * change (unparsed (set_lens c1 (multibulklen c1) n)) with (unparsed c1). by rewrite Hc1.
  - left. destruct Hcalm as (_ & _ & _ & Hp). pose proof (short_line c 36 n Hn Hp Hl) as Hav.
    destruct Hs as [->|[-> Hl']].
    + split; [|done]. destruct (Z.ltb_spec PROTO_INLINE_MAX_SIZE (avail c)); [lia|done].
    + split; [|done]. unfold unparsed in Hl'. rewrite length_drop in Hl'. unfold left_ in *.
      destruct (Z.ltb_spec (Z.of_nat (length (querybuf c)) - Z.of_nat (qb_pos c) - 2) (Z.of_nat (length (36 :: repr n)))); [done|lia].
Qed.

Lemma prefix_split (l unread a X : list Z) : l ++ unread = a ++ X -> (length a <= length l)%nat ->
  exists Y, l = a ++ Y /\ Y ++ unread = X.
Proof using.
  intros E Hl. exists (drop (length a) l). rewrite <- (take_drop (length a) l), <- app_assoc in E.
  apply app_inj_1 in E as [E1 E2]; [|rewrite length_take; lia]. rewrite <- E1 at 1. by rewrite take_drop.
Qed.

Lemma take_arg_spec c a rest X unread : calm c -> in_arg c a rest -> argc c + 1 + Z.of_nat (length rest) <= INT_MAX ->
  unparsed c ++ unread = a ++ 13 :: 10 :: X -> bulklen c + 2 <= avail c ->
  exists c', take_arg false c = Ret c' /\ calm c' /\ in_args c' rest /\ argv c' = argv c ++ [a] /\
    unparsed c' ++ unread = X /\ (length (unparsed c') < length (unparsed c))%nat.
Proof using.
  intros (Hcl & Hbk & Her & Hp) (Hrt & Hml & Hbl & [Hs1 Hs2]) Hint E Hav. unfold take_arg.
  set (len := if argv_len c <=? argc c then _ else _).
  assert (argc c + 1 <= len) as Hlen.
  { unfold len, INT_MAX in *. pose proof (Zle_0_nat (length rest)). assert (0 <= argc c) by (unfold argc; lia).
    destruct (Z.leb_spec (argv_len c) (argc c)); [|lia]. apply Z.min_glb; [|lia]. case_bool; lia. }
  destruct (Z.leb_spec len (argc c)); [lia|]. rewrite Hbl, Nat2Z.id. rewrite avail_ok in Hav by done. unfold left_ in Hav.
  assert (length a + 2 <= length (unparsed c))%nat as Hl by (unfold unparsed; rewrite length_drop; lia).
  destruct (prefix_split (unparsed c) unread (a ++ [13; 10]) X) as (Y & EY & EX).
  { by rewrite <- app_assoc. } { rewrite length_app. simpl. lia. }
  assert (load (querybuf c) (qb_pos c) (length a) = a) as Eload.
  { unfold load. fold (unparsed c). rewrite EY, <- app_assoc. apply take_app_length. }
  assert (length (a ++ [13%Z; 10%Z]) = length a + 2)%nat as Hl2 by (rewrite length_app; done).
  destruct (_ && _ && _ && _) eqn:Eb.
  - apply andb_true_iff in Eb as [Eb E4]. apply andb_true_iff in Eb as [Eb _]. apply andb_true_iff in Eb as [_ Epos].
    apply Nat.eqb_eq in Epos. apply Z.eqb_eq in E4.
    assert (Y = []) as ->.
    { apply (f_equal length) in EY. rewrite length_app, Hl2 in EY. unfold unparsed in EY. rewrite length_drop in EY.
      destruct Y; [done|simpl in EY; lia]. }
    assert (take (length a) (querybuf c) = a) as Et.
    { unfold load in Eload. by rewrite Epos, drop_0 in Eload. }
    destruct (Nat.ltb_spec (length (querybuf c)) 2); [lia|]. replace (length (querybuf c) - 2)%nat with (length a) by lia. cbn [obind].
    eexists. split; [reflexivity|]. unfold calm, in_args, slots, argc in *. cbn in *. split_and!; try done; try lia.
    + rewrite length_app. simpl. lia.
    + by rewrite Et.
  - assert (drop (qb_pos c + (length a + 2)) (querybuf c) = Y) as Ed.
    { rewrite <- drop_drop. fold (unparsed c). rewrite EY, <- Hl2. apply drop_app_length. }
    unfold unparsed in Hl. rewrite length_drop in Hl. rewrite buf_bytes_ok by lia. cbn [obind].
    eexists. split; [reflexivity|]. unfold calm, in_args, slots, argc in *. split_and!; try done; cbn in *; try lia.
    + rewrite length_app. simpl. lia.
    + by rewrite Eload.
    + by rewrite Ed.
    + apply (f_equal length) in EY. rewrite length_app, Hl2 in EY. unfold unparsed in EY |- *. cbn. rewrite Ed. lia.
Qed.

(** The state of a request whose arguments are [done] and [rest]. *)
Definition mid (c : client) (r : list (list Z)) (todo : list (list (list Z))) (stream : list Z) : Prop :=
  (exists rest, rest <> [] /\ in_args c rest /\ r = argv c ++ rest /\ stream = bulks rest todo) \/
  (exists a rest, in_arg c a rest /\ r = argv c ++ a :: rest /\ stream = a ++ 13 :: 10 :: bulks rest todo).

Lemma args_loop_spec r todo unread : req_ok r -> forall n c, calm c -> multibulklen c = Z.of_nat n ->
  mid c r todo (unparsed c ++ unread) ->
  exists c' ok, args_loop false auth maxb n c = Ret (c', ok) /\ calm c' /\ reqtype c' = PROTO_REQ_MULTIBULK /\
    (length (unparsed c') <= length (unparsed c))%nat /\
    if ok : bool then multibulklen c' = 0 /\ bulklen c' = -1 /\ argv c' = r /\ unparsed c' ++ unread = encodes todo /\
      (length (unparsed c') < length (unparsed c))%nat
    else unread <> [] /\ mid c' r todo (unparsed c' ++ unread).
Proof using Hmax.
  intros (Hne & Hint & Hauth & Hargs). induction n as [|n IH]; intros c Hcalm Hn Hmid.
  { exfalso. destruct Hmid as [(rest & Hr & (_ & Hm & _) & _)|(a & rest & (_ & Hm & _) & _)]; [destruct rest; simpl in *; [done|lia]|lia]. }
  cbn [args_loop].
  assert (exists c1 go, (if bulklen c =? -1 then bulk_header false auth maxb c else Ret (c, true)) = Ret (c1, go) /\
    calm c1 /\ reqtype c1 = PROTO_REQ_MULTIBULK /\ (length (unparsed c1) <= length (unparsed c))%nat /\ multibulklen c1 = multibulklen c /\
    if go : bool then exists a rest, in_arg c1 a rest /\ r = argv c1 ++ a :: rest /\ unparsed c1 ++ unread = a ++ 13 :: 10 :: bulks rest todo
    else unread <> [] /\ mid c1 r todo (unparsed c1 ++ unread)) as (c1 & go & -> & Hcalm1 & Hrt1 & Hle1 & Hmb1 & Hgo).
  { destruct Hmid as [(rest & Hr & Hin & Er & Es)|(a & rest & Hin & Er & Es)].
    - destruct rest as [|a rest]; [done|]. pose proof Hin as (Hrt & _ & -> & _). change (-1 =? -1) with true. cbn iota.
      assert (arg_ok a) as Ha.
      { rewrite Forall_forall in Hargs. apply Hargs. rewrite Er. apply elem_of_app. right. by left. }
      destruct (bulk_header_spec c a rest todo unread Hcalm Ha Hin Es) as [[-> Hu]|(c1 & -> & Hc1 & Hin1 & Ea & Es1)].
      + exists c, false. split_and!; try done. left. by exists (a :: rest).
      + exists c1, true. pose proof Hin1 as (Hrt1 & _). split_and!; try done.
        * apply (f_equal length) in Es, Es1. rewrite !length_app in Es, Es1. unfold bulks, encode_bulk in *.
          simpl in *. rewrite !length_app in *. simpl in *. rewrite !length_app in *. simpl in *. lia.
        * destruct Hin as (_ & -> & _). destruct Hin1 as (_ & -> & _). simpl. lia.
        * exists a, rest. by rewrite Ea.
    - pose proof Hin as (Hrt & _ & Hb & _). destruct (Z.eqb_spec (bulklen c) (-1)); [lia|].
      exists c, true. split_and!; try done. by exists a, rest. }
  cbn [obind]. destruct go; cbn [negb].
  2: { exists c1, false. split_and!; try done; apply Hgo. }
  destruct Hgo as (a & rest & Hin & Er & Es). pose proof Hin as (_ & Hm & Hb & Hsl).
  destruct (Z.ltb_spec (avail c1) (bulklen c1 + 2)) as [Hlt|Hge].
  - exists c1, false. split_and!; try done.
    + intros ->. rewrite app_nil_r in Es. apply (f_equal length) in Es. unfold unparsed in Es.
      rewrite length_drop, length_app in Es. simpl in Es. rewrite avail_ok in Hlt by apply Hcalm1. unfold left_ in Hlt. lia.
    + right. by exists a, rest.
  - assert (argc c1 + 1 + Z.of_nat (length rest) <= INT_MAX) as Hi.
    { rewrite Er, length_app in Hint. simpl in Hint. unfold argc. lia. }
    destruct (take_arg_spec c1 a rest (bulks rest todo) unread Hcalm1 Hin Hi Es Hge)
      as (c2 & -> & Hcalm2 & Hin2 & Ea2 & Es2 & Hlt2). cbn [obind].
    assert (r = argv c2 ++ rest) as Er2 by (rewrite Ea2, <- app_assoc; done).
    destruct rest as [|b rest].
    + assert (n = 0%nat) as -> by (simpl in Hm; lia). cbn [args_loop]. exists c2, true. split; [done|].
      destruct Hin2 as (Hrt2 & Hm2 & Hb2 & _). rewrite app_nil_r in Er2. split_and!; try done; lia.
    + destruct (IH c2 Hcalm2) as (c' & ok & -> & Hc' & Hrt' & Hle' & Hok).
      * destruct Hin2 as (_ & -> & _). simpl in *. lia.
      * left. by exists (b :: rest).
      * exists c', ok. split; [done|]. split_and!; try done; [lia|]. destruct ok; [|done].
        destruct Hok as (? & ? & ? & ? & ?). split_and!; try done. lia.
Qed.

Lemma mbulk_header_spec c r todo unread : calm c -> req_ok r -> reqtype c = PROTO_REQ_MULTIBULK -> multibulklen c = 0 ->
  bulklen c = -1 -> argv c = [] -> unparsed c ++ unread = encodes (r :: todo) ->
  (mbulk_header auth c = Ret (c, Some false) /\ unread <> []) \/
  exists c', mbulk_header auth c = Ret (c', None) /\ calm c' /\ reqtype c' = PROTO_REQ_MULTIBULK /\
    multibulklen c' = Z.of_nat (length r) /\ mid c' r todo (unparsed c' ++ unread) /\
    (length (unparsed c') <= length (unparsed c))%nat.
Proof using.
  intros Hcalm (Hne & Hint & Hauth & Hargs) Hrt Hml Hbl Hav0 E. set (n := Z.of_nat (length r)).
  assert (1 <= n <= INT_MAX) as Hn by (split; [destruct r; simpl in *; [done|lia]|done]).
  assert (n < 2 ^ 62) as Hn62 by (unfold INT_MAX in *; lia).
  assert (unparsed c ++ unread = (42 :: repr n) ++ 13 :: 10 :: bulks r todo) as E'.
  { rewrite E. unfold encodes, bulks. simpl. unfold encode, n. simpl. f_equal. by rewrite <- app_assoc. }
  unfold mbulk_header, argc. rewrite Hav0. change (negb (Z.of_nat (length []) =? 0)) with false. cbn iota. rewrite find_char_ok by apply Hcalm. cbn [obind].
  destruct (line_prefix _ _ _ _ E' (digits_line 42 n ltac:(by right) ltac:(lia))) as [(Y & EY & EX & ->)|(Hl & Hu & Hs)].
  - destruct (header_parts c 42 n Y EY) as (Hp & Hch & Hload & Hav & Hdrop). right.
    replace (left_ c - 2 <? Z.of_nat (length (42 :: repr n))) with false by (symmetry; apply Z.ltb_ge; simpl; lia).
    rewrite buf_byte_ok, Hch by done. cbn [obind]. change (negb (42 =? 42)) with false. cbn iota. rewrite header_digits by (done || (cbn [length]; lia)). cbn [obind length].
    assert (string2ll (repr n) = Some n) as -> by (apply string2ll_spec; split; [unfold in_s; lia|done]).
    destruct (Z.ltb_spec INT_MAX n); [lia|].
    replace ((10 <? n) && auth) with false.
    2: { symmetry. destruct auth; [|apply andb_false_r]. rewrite andb_true_r. apply Z.ltb_ge. by apply Hauth. }
    destruct (Z.leb_spec n 0); [lia|]. eexists. split; [reflexivity|].
    set (c1 := set_argv _ _ _ _). assert (unparsed c1 = Y) as Hc1 by exact Hdrop.
    split_and!; try done.
    + destruct Hcalm as (? & ? & ? & ?). split_and!; try done. unfold left_ in Hav. simpl. lia.
    + left. exists r. split_and!; try done; [split_and!; try done; unfold slots, argc; rewrite ?Z.min_spec; cbn; try lia|]. by rewrite Hc1, EX.
    + rewrite Hc1. apply (f_equal length) in EY. rewrite length_app in EY. simpl in EY. lia.
  - left. destruct Hcalm as (_ & _ & _ & Hp). pose proof (short_line c 42 n ltac:(lia) Hp Hl) as Hav.
    destruct Hs as [->|[-> Hl']].
    + split; [|done]. destruct (Z.ltb_spec PROTO_INLINE_MAX_SIZE (avail c)); [lia|done].
    + split; [|done]. unfold unparsed in Hl'. rewrite length_drop in Hl'. unfold left_ in *.
      destruct (Z.ltb_spec (Z.of_nat (length (querybuf c)) - Z.of_nat (qb_pos c) - 2) (Z.of_nat (length (42 :: repr n)))); [done|lia].
Qed.

(** Between requests, before a count, and in a request. *)
Definition waiting (c : client) : Prop := multibulklen c = 0 /\ bulklen c = -1 /\ argv c = [].
Definition expects (c : client) (todo : list (list (list Z))) (stream : list Z) : Prop :=
  (reqtype c = 0 /\ waiting c /\ stream = encodes todo) \/
  (exists r rs, todo = r :: rs /\
    (reqtype c = PROTO_REQ_MULTIBULK /\ waiting c /\ stream = encodes todo \/ mid c r rs stream)).

Lemma multibulk_spec c r todo unread : calm c -> req_ok r ->
  reqtype c = PROTO_REQ_MULTIBULK /\ waiting c /\ unparsed c ++ unread = encodes (r :: todo) \/
    mid c r todo (unparsed c ++ unread) ->
  exists c' ok, processMultibulkBuffer false auth maxb c = Ret (c', ok) /\ calm c' /\ reqtype c' = PROTO_REQ_MULTIBULK /\
    (length (unparsed c') <= length (unparsed c))%nat /\
    if ok : bool then argv c' = r /\ unparsed c' ++ unread = encodes todo /\
      (length (unparsed c') < length (unparsed c))%nat
    else unread <> [] /\ expects c' (r :: todo) (unparsed c' ++ unread).
Proof using Hmax.
  intros Hcalm Hr Hst. unfold processMultibulkBuffer.
  assert (exists c1 o, (if multibulklen c =? 0 then mbulk_header auth c else Ret (c, None)) = Ret (c1, o) /\ calm c1 /\
    (length (unparsed c1) <= length (unparsed c))%nat /\
    (o = Some false /\ c1 = c /\ unread <> [] /\ reqtype c = PROTO_REQ_MULTIBULK /\ waiting c /\ unparsed c ++ unread = encodes (r :: todo) \/
     o = None /\ mid c1 r todo (unparsed c1 ++ unread))) as (c1 & o & -> & Hcalm1 & Hle1 & Ho).
  { destruct Hst as [(Hrt & (Hm & Hb & Ha) & E)|Hmid].
    - rewrite Hm. change (0 =? 0) with true. cbn iota.
      destruct (mbulk_header_spec c r todo unread Hcalm Hr Hrt Hm Hb Ha E) as [[-> Hu]|(c1 & -> & Hc1 & _ & _ & Hmid & Hle)].
      + exists c, (Some false). split_and!; try done. left. done.
      + exists c1, None. split_and!; try done. by right.
    - assert (multibulklen c <> 0) as Hm0.
      { destruct Hmid as [(rest & Hne & (_ & Hm & _) & _)|(a & rest & (_ & Hm & _) & _)]; [destruct rest; simpl in *; [done|lia]|lia]. }
      destruct (Z.eqb_spec (multibulklen c) 0); [done|]. exists c, None. split_and!; try done. by right. }
  cbn [obind]. destruct Ho as [(-> & -> & Hu & Hrt & Hw & E)|[-> Hmid]].
  - exists c, false. split_and!; try done. right. exists r, todo. split; [done|]. by left.
  - assert (1 <= multibulklen c1) as Hm1.
    { destruct Hmid as [(rest & Hne & (_ & Hm & _) & _)|(a & rest & (_ & Hm & _) & _)]; [destruct rest; simpl in *; [done|lia]|lia]. }
    destruct (Z.leb_spec (multibulklen c1) 0); [lia|].
    destruct (args_loop_spec r todo unread Hr (Z.to_nat (multibulklen c1)) c1 Hcalm1) as (c' & ok & -> & Hc' & Hrt' & Hle' & Hok);
      [lia|done|]. exists c', ok. split_and!; try done; [lia|]. destruct ok.
    + destruct Hok as (_ & _ & ? & ? & ?). split_and!; try done. lia.
    + destruct Hok as [Hu Hm]. split; [done|]. right. exists r, todo. split; [done|]. by right.
Qed.

Lemma encodes_nil todo : encodes todo = [] -> todo = [].
Proof using. destruct todo; [done|]. unfold encodes, encode. simpl. done. Qed.

Lemma expects_nil c todo : expects c todo [] -> todo = [].
Proof using.
  intros [(_ & _ & E)|(r & rs & -> & [(_ & _ & E)|[(rest & Hne & _ & _ & E)|(a & rest & _ & _ & E)]])].
  - by apply encodes_nil.
  - symmetry in E. by apply encodes_nil in E.
  - destruct rest; [done|]. unfold bulks, encode_bulk in E. simpl in E. done.
  - by destruct a.
Qed.

Context (execute : list (list Z) -> after) (Hexec : forall a, execute a = Alive).

Lemma input_loop_spec unread : forall fuel c todo, Forall req_ok todo -> calm c -> expects c todo (unparsed c ++ unread) ->
  (length (unparsed c) <= fuel)%nat ->
  exists c' ran rest, input_loop auth maxb execute fuel c = Ret (c', (fun r => (PROTO_REQ_MULTIBULK, r)) <$> ran, true) /\
    todo = ran ++ rest /\ calm c' /\ expects c' rest (unparsed c' ++ unread) /\ (unread = [] -> rest = []) /\
    (length (unparsed c') <= length (unparsed c))%nat.
Proof using Hmax Hexec.
  induction fuel as [|fuel IH]; intros c todo Hok Hcalm Hex Hf; cbn [input_loop];
    pose proof Hcalm as (Hcl & Hbk & _ & Hp); rewrite Hcl, Hbk;
    assert (length (unparsed c) = length (querybuf c) - qb_pos c)%nat as Hlu by (unfold unparsed; by rewrite length_drop);
    destruct (Nat.ltb_spec (qb_pos c) (length (querybuf c))) as [Hlt|Hge]; cbn [negb orb]; try lia.
  all: try (exists c, [], todo; split_and!; try done; intros ->;
    (assert (unparsed c = []) as E0 by (apply nil_length_inv; lia)); rewrite E0 in Hex; by apply (expects_nil c)).
  assert (exists r rs, todo = r :: rs /\
    let c0 := if reqtype c =? 0 then set_reqtype c (if at_ (querybuf c) (qb_pos c) =? 42 then PROTO_REQ_MULTIBULK else PROTO_REQ_INLINE) else c in
    reqtype c0 = PROTO_REQ_MULTIBULK /\ calm c0 /\ unparsed c0 = unparsed c /\
    (reqtype c0 = PROTO_REQ_MULTIBULK /\ waiting c0 /\ unparsed c0 ++ unread = encodes todo \/ mid c0 r rs (unparsed c0 ++ unread)))
    as (r & rs & -> & Hst).
  { destruct Hex as [(Hrt & Hw & E)|(r & rs & -> & Hst)].
    - destruct todo as [|r rs].
      { apply (f_equal length) in E. rewrite length_app in E. unfold encodes in E. simpl in E. lia. }
      exists r, rs. split; [done|]. cbv zeta. rewrite Hrt. change (0 =? 0) with true. cbn iota.
      assert (at_ (querybuf c) (qb_pos c) = 42) as ->.
      { unfold at_. rewrite nth_lookup. replace (qb_pos c) with (qb_pos c + 0)%nat at 1 by lia. rewrite <- lookup_drop.
        fold (unparsed c). destruct (unparsed c) as [|x u]; [simpl in Hlu; lia|]. unfold encodes, encode in E. simpl in E.
        by injection E as ->. }
      change (42 =? 42) with true. cbn iota. split_and!; try done. left. by split_and!.
    - exists r, rs. split; [done|]. assert (reqtype c = PROTO_REQ_MULTIBULK) as Hrt.
      { destruct Hst as [[? _]|[(rest & _ & [? _] & _)|(a & rest & [? _] & _)]]; done. }
      cbv zeta. rewrite Hrt. change (PROTO_REQ_MULTIBULK =? 0) with false. cbn iota. by split_and!. }
  cbv zeta in Hst. rewrite buf_byte_ok by lia. cbn [obind]. rewrite ret_if. cbn [obind]. set (c0 := if reqtype c =? 0 then _ else c) in *. destruct Hst as (Hrt0 & Hcalm0 & Hun0 & Hst).
  rewrite Hrt0. change (PROTO_REQ_MULTIBULK =? PROTO_REQ_INLINE) with false.
  change (PROTO_REQ_MULTIBULK =? PROTO_REQ_MULTIBULK) with true. cbn iota.
  apply Forall_cons_1 in Hok as [Hr Hrs].
  destruct (multibulk_spec c0 r rs unread Hcalm0 Hr Hst) as (c1 & ok & -> & Hcalm1 & Hrt1 & Hle1 & Hres). cbn [obind].
  rewrite Hun0 in *. destruct ok; cbn [negb].
  - destruct Hres as (Ha & Es & Hlt1).
    assert ((argc c1 =? 0) = false) as ->.
    { apply Z.eqb_neq. unfold argc. rewrite Ha. destruct Hr as [Hne _]. destruct r; simpl; [done|lia]. }
    unfold processCommandAndResetClient. rewrite Hexec. cbn [negb].
    destruct (IH (resetClient c1) rs Hrs) as (c' & ran & rest & -> & -> & Hc' & Hex' & Hnil & Hle').
    + destruct Hcalm1 as (? & ? & ? & ?). by split_and!.
    + left. by split_and!.
    + change (unparsed (resetClient c1)) with (unparsed c1). lia.
    + cbn [obind]. exists c', (r :: ran), rest. rewrite Hrt1, Ha. split_and!; try done.
      change (unparsed (resetClient c1)) with (unparsed c1) in Hle'. lia.
  - destruct Hres as [Hu Hex']. exists c1, [], (r :: rs). split_and!; try done.
Qed.

(** Only the parser's fields matter. *)
Lemma expects_buf c todo stream b pos : expects c todo stream -> expects (set_buf c b pos) todo stream.
Proof using. done. Qed.

Context (limit : Z).

Lemma reads_spec chunks : forall c todo, Forall req_ok todo -> calm c -> qb_pos c = 0%nat ->
  expects c todo (unparsed c ++ concat chunks) -> (concat chunks = [] -> todo = []) ->
  Z.of_nat (length (querybuf c) + length (concat chunks)) <= limit ->
  (auth = true -> Z.of_nat (length (querybuf c) + length (concat chunks)) <= 1024 * 1024) ->
  exists c', reads auth maxb limit execute c chunks = Ret (c', (fun r => (PROTO_REQ_MULTIBULK, r)) <$> todo, true) /\
    calm c' /\ reqtype c' = 0 /\ waiting c' /\ querybuf c' = [] /\ qb_pos c' = 0%nat.
Proof using Hmax Hexec.
  induction chunks as [|data chunks IH]; intros c todo Hok Hcalm Hpos Hex Hnil Hlim Hauth; cbn [concat] in *.
  - rewrite (Hnil eq_refl) in *. exists c. unfold unparsed in Hex. rewrite Hpos, drop_0, app_nil_r in Hex.
    destruct Hex as [(Hrt & Hw & E)|(r & rs & ? & _)]; [|done]. split_and!; done || apply Hw.
  - unfold reads. cbn [fmap list_fmap read_all]. destruct data as [|x data].
    { cbn [chunk readQueryFromClient obind negb]. fold (reads auth maxb limit execute c chunks). destruct (IH c todo Hok Hcalm Hpos Hex Hnil Hlim Hauth) as (c' & -> & Hc'). by exists c'. }
    cbn [chunk readQueryFromClient]. set (data' := x :: data) in *. clearbody data'. clear x data. rename data' into data.
    rewrite length_app in Hlim, Hauth. simpl length. cbn [querybuf set_buf].
    set (c0 := set_buf c (querybuf c ++ data) (qb_pos c)).
    assert (unparsed c0 = unparsed c ++ data) as Hun0.
    { unfold unparsed. simpl. rewrite Hpos. done. }
    assert (length (querybuf c0) = length (querybuf c) + length data)%nat as Hl0 by (simpl; by rewrite length_app).
    replace ((limit <? _) || _) with false.
    2: { symmetry. apply orb_false_iff. rewrite length_app. split; [apply Z.ltb_ge; lia|].
         destruct auth; [|apply andb_false_r]. rewrite andb_true_r. apply Z.ltb_ge. specialize (Hauth eq_refl). lia. }
    unfold processInputBuffer.
    destruct (input_loop_spec (concat chunks) (length (unparsed c0)) c0 todo Hok) as (c1 & ran & rest & -> & -> & Hcalm1 & Hex1 & Hnil1 & Hle1).
    + destruct Hcalm as (? & ? & ? & ?). split_and!; try done. simpl. rewrite Hpos. lia.
    + rewrite Hun0, <- app_assoc. by apply expects_buf.
    + done.
    + cbn [obind negb]. set (c2 := if Nat.eqb (qb_pos c1) 0 then c1 else set_buf c1 (unparsed c1) 0).
      assert (unparsed c2 = unparsed c1 /\ qb_pos c2 = 0%nat /\ expects c2 rest (unparsed c1 ++ concat chunks) /\ calm c2)
        as (Hun2 & Hpos2 & Hex2 & Hcalm2).
      { unfold c2. destruct (Nat.eqb_spec (qb_pos c1) 0); [done|]. split; [unfold unparsed at 1; simpl; by rewrite drop_0|].
        destruct Hcalm1 as (? & ? & ? & ?). unfold calm. split_and!; try done. simpl. lia. }
      assert (length (querybuf c2) = length (unparsed c1)) as Hl2.
      { rewrite <- Hun2. unfold unparsed. by rewrite Hpos2, drop_0. }
      assert (length (unparsed c0) = length (querybuf c) + length data)%nat as Hl3.
      { unfold unparsed. rewrite length_drop, Hl0. simpl. lia. }
      apply Forall_app in Hok as [_ Hok].
      fold (reads auth maxb limit execute c2 chunks). destruct (IH c2 rest Hok Hcalm2 Hpos2) as (c' & -> & Hc'); [by rewrite Hun2|done|lia| |].
      * intros Ha. specialize (Hauth Ha). lia.
      * cbn [obind]. exists c'. by rewrite fmap_app.
Qed.

End Stream.

(** ** Any bytes *)



Section Safe.
Context (auth : bool) (maxb : Z).

Definition len_ok (n : Z) : Prop := n <= maxb /\ (auth = true -> n <= 16384).

(** A multi bulk request that has begun. *)
Record args_inv (c : client) : Prop := {
  ai_type : reqtype c = PROTO_REQ_MULTIBULK;
  ai_left : 0 < multibulklen c;
  ai_slots : slots c;
  ai_count : argc c + multibulklen c <= INT_MAX;
  ai_auth : auth = true -> argc c + multibulklen c <= 10;
  ai_args : Forall (arg_ok auth maxb) (argv c);
  ai_bulk : bulklen c = -1 \/ 0 <= bulklen c /\ len_ok (bulklen c);
  ai_pos : (qb_pos c <= length (querybuf c))%nat;
}.






(** Between two requests, or before one's count. *)
Definition idle (c : client) : Prop :=
  multibulklen c = 0 /\ bulklen c = -1 /\ argv c = [] /\
  (reqtype c = 0 \/ reqtype c = PROTO_REQ_INLINE \/
   reqtype c = PROTO_REQ_MULTIBULK /\ (qb_pos c < length (querybuf c))%nat /\ at_ (querybuf c) (qb_pos c) = 42).

Record cinv (c : client) : Prop := {
  ci_pos : (qb_pos c <= length (querybuf c))%nat;
  ci_error : error c <> None -> close_after_reply c = true;
  ci_live : blocked c = false -> close_after_reply c = false -> idle c \/ args_inv c;
}.


Lemma cinv_error e c : cinv c -> cinv (setProtocolError e c).
Proof using. intros [Hp _ _]. by split. Qed.






(** ** The loop over a buffer, and the reads *)

Context (execute : list (list Z) -> after) (limit : Z).








Abbreviation read := (readQueryFromClient auth maxb limit execute).
Abbreviation read_all := (read_all auth maxb limit execute).





End Safe.

(** ** Theorems *)

(** C14: requests arrive however the network cuts them.  A stream of multi bulk
    requests within the limits, split into any chunks, is executed as exactly those
    requests, in order, each with its arguments byte for byte, and the parser is
    back in its initial state with an empty buffer; the buffer tricks for big
    arguments are invisible. *)
Theorem requests_any_chunks auth maxb limit execute reqs chunks : maxb < 2 ^ 62 -> (forall a, execute a = Alive) ->
  Forall (req_ok auth maxb) reqs -> concat chunks = encodes reqs -> Z.of_nat (length (encodes reqs)) <= limit ->
  (auth = true -> Z.of_nat (length (encodes reqs)) <= 1024 * 1024) ->
  exists c, reads auth maxb limit execute createClient chunks = Ret (c, (fun r => (PROTO_REQ_MULTIBULK, r)) <$> reqs, true) /\
    reqtype c = 0 /\ multibulklen c = 0 /\ bulklen c = -1 /\ argv c = [] /\ querybuf c = [] /\ error c = None.
Proof.
  intros Hmax Hexec Hok E Hlim Hauth.
  destruct (reads_spec auth maxb Hmax execute Hexec limit chunks createClient reqs Hok) as (c & -> & Hcalm & Hrt & (? & ? & ?) & Hb & _).
  - by split_and!.
  - done.
  - left. by split_and!.
  - rewrite E. apply encodes_nil.
  - rewrite E. done.
  - rewrite E. done.
  - exists c. destruct Hcalm as (_ & _ & ? & _). by split_and!.
Qed.

(** SET and PING, cut inside a count, a CR LF and an argument. *)
Lemma requests_any_chunks_witness :
  exists c, reads true 512 1000 (fun _ => Alive) createClient
      [[42]; [51; 13]; [10; 36; 51; 13; 10; 83; 69]; [84; 13; 10; 36; 49; 13; 10; 107; 13; 10; 36; 50; 13; 10; 13];
       [10; 13; 10; 42; 49; 13; 10; 36; 52; 13; 10; 80; 73; 78; 71; 13]; [10]] =
    Ret (c, [(2, [chars "SET"; chars "k"; [13; 10]]); (2, [chars "PING"])], true) /\
    reqtype c = 0 /\ multibulklen c = 0 /\ bulklen c = -1 /\ argv c = [] /\ querybuf c = [] /\ error c = None.
Proof.
  apply (requests_any_chunks true 512 1000 (fun _ => Alive) [[chars "SET"; chars "k"; [13; 10]]; [chars "PING"]]).
  - lia.
  - done.
  - repeat constructor; vm_compute; try discriminate; intros; discriminate.
  - vm_compute. reflexivity.
  - vm_compute. discriminate.
  - intros _. vm_compute. discriminate.
Defined.


End Resp.
