(* ===== verification/AofManifest.v ===== *)
(** * AofManifest: the manifest of the append only files (aof.c)

    The append only log is made of a base file (a snapshot), of incremental files
    with the commands executed after it, and of history files to be removed.  The
    manifest lists them; it is kept in memory, edited in place or in a copy, written
    to disk as one line per file and read back when the server starts.

    A file type is its character, as in the source.  The [exit(1)] of the loader is
    the left of a sum, with the error. *)
From S2P Require Import Prelude NumStr SdsArgs.
Import NumStr.

Module AofManifest.

Definition AOF_FILE_TYPE_BASE : Z := 98.
Definition AOF_FILE_TYPE_HIST : Z := 104.
Definition AOF_FILE_TYPE_INCR : Z := 105.

Record aofInfo := AofInfo { file_name : list Z; file_seq : Z; file_type : Z }.

Record aofManifest := Manifest {
  base_aof_info : option aofInfo;
  incr_aof_list : list aofInfo;
  history_aof_list : list aofInfo;
  curr_base_file_seq : Z;
  curr_incr_file_seq : Z;
  dirty : bool;
}.

Definition aofManifestCreate : aofManifest := Manifest None [] [] 0 0 false.

Definition set_dirty (am : aofManifest) (d : bool) : aofManifest :=
  Manifest (base_aof_info am) (incr_aof_list am) (history_aof_list am) (curr_base_file_seq am) (curr_incr_file_seq am) d.
Definition set_type (ai : aofInfo) (t : Z) : aofInfo := AofInfo (file_name ai) (file_seq ai) t.

(** ** Writing *)

(** [%s] prints up to a NUL, [%lld] the decimal digits. *)
Definition aofInfoFormat (buf : list Z) (ai : aofInfo) : list Z :=
  let name := if SdsArgs.sdsneedsrepr (file_name ai) then SdsArgs.sdscatrepr [] (file_name ai) else file_name ai in
  buf ++ chars "file " ++ SdsArgs.cstr name ++ chars " seq " ++ repr (file_seq ai) ++ chars " type " ++ [file_type ai; 10].

Definition getAofManifestAsString (am : aofManifest) : list Z :=
  let buf := match base_aof_info am with Some ai => aofInfoFormat [] ai | None => [] end in
  let buf := fold_left aofInfoFormat (history_aof_list am) buf in
  fold_left aofInfoFormat (incr_aof_list am) buf.

(** ** Reading *)

Definition MANIFEST_MAX_LINE : nat := 1024.

(** [fgets] with room for [n] characters: up to a newline, which is kept. *)
Fixpoint fgets_loop (n : nat) (file : list Z) : list Z * list Z :=
  match n, file with
  | S n, c :: file => if c =? 10 then ([c], file) else let '(line, rest) := fgets_loop n file in (c :: line, rest)
  | _, _ => ([], file)
  end.

Definition fgets (n : nat) (file : list Z) : option (list Z * list Z) :=
  match file with [] => None | _ => Some (fgets_loop n file) end.

(** [atoll]: the value of the digits after blanks and a sign, saturated. *)
Fixpoint digits_value (acc : Z) (s : list Z) : Z :=
  match s with
  | c :: s => if (48 <=? c) && (c <=? 57) then digits_value (acc * 10 + (c - 48)) s else acc
  | [] => acc
  end.
Definition atoll (s : list Z) : Z :=
  let s := SdsArgs.skip_blanks s in
  let v := match s with
           | c :: s' => if c =? 45 then - digits_value 0 s' else if c =? 43 then digits_value 0 s' else digits_value 0 s
           | [] => 0
           end in
  Z.max (- 2 ^ 63) (Z.min v (2 ^ 63 - 1)).

Definition pathIsBaseName (path : list Z) : bool := negb (bool_decide (47 ∈ path)) && negb (bool_decide (92 ∈ path)).

Inductive loaderr :=
| EmptyManifest | TooLongLine | InvalidFormat | NotAFilename | DuplicateBase | NonMonotonic | UnknownType.

(** The fields of a line that were met: a NULL name, a zero number or type were not. *)
Record fields := Fields { f_name : option (list Z); f_seq : Z; f_type : Z }.

Fixpoint read_fields (argv : list (list Z)) (f : fields) : loaderr + fields :=
  match argv with
  | key :: value :: argv =>
      if SdsArgs.same_case key (chars "file") then
        let name := SdsArgs.cstr value in
        if pathIsBaseName name then read_fields argv (Fields (Some name) (f_seq f) (f_type f)) else inl NotAFilename
      else if SdsArgs.same_case key (chars "seq") then
        read_fields argv (Fields (f_name f) (atoll (SdsArgs.cstr value)) (f_type f))
      else if SdsArgs.same_case key (chars "type") then
        read_fields argv (Fields (f_name f) (f_seq f) (default 0 (head value)))
      else read_fields argv f
  | _ => inr f
  end.

(** Where a line's file goes; [maxseq] is the last number of an incremental file. *)
Definition add_info (am : aofManifest) (maxseq : Z) (ai : aofInfo) : loaderr + aofManifest * Z :=
  if file_type ai =? AOF_FILE_TYPE_BASE then
    match base_aof_info am with
    | Some _ => inl DuplicateBase
    | None => inr (Manifest (Some ai) (incr_aof_list am) (history_aof_list am) (file_seq ai) (curr_incr_file_seq am) (dirty am), maxseq)
    end
  else if file_type ai =? AOF_FILE_TYPE_HIST then
    inr (Manifest (base_aof_info am) (incr_aof_list am) (history_aof_list am ++ [ai])
      (curr_base_file_seq am) (curr_incr_file_seq am) (dirty am), maxseq)
  else if file_type ai =? AOF_FILE_TYPE_INCR then
    if file_seq ai <=? maxseq then inl NonMonotonic
    else inr (Manifest (base_aof_info am) (incr_aof_list am ++ [ai]) (history_aof_list am)
      (curr_base_file_seq am) (file_seq ai) (dirty am), file_seq ai)
  else inl UnknownType.

(** What a line that is not a comment holds. *)
Definition load_line (buf : list Z) : outcome (loaderr + aofInfo) :=
  if negb (bool_decide (10 ∈ SdsArgs.cstr buf)) then Ret (inl TooLongLine) else
  let line := SdsArgs.sdstrim (SdsArgs.cstr buf) [32; 9; 13; 10] in
  if Nat.eqb (length line) 0 then Ret (inl InvalidFormat) else
  let* argv := SdsArgs.sdssplitargs line in
  match argv with
  | None => Ret (inl InvalidFormat)
  | Some argv =>
      if Nat.ltb (length argv) 6 || Nat.odd (length argv) then Ret (inl InvalidFormat) else
      match read_fields argv (Fields None 0 0) with
      | inl e => Ret (inl e)
      | inr f =>
          match f_name f with
          | Some name =>
              if (f_seq f =? 0) || (f_type f =? 0) then Ret (inl InvalidFormat)
              else Ret (inr (AofInfo name (f_seq f) (f_type f)))
          | None => Ret (inl InvalidFormat)
          end
      end
  end.

Fixpoint load_loop (fuel : nat) (file : list Z) (am : aofManifest) (maxseq : Z) (linenum : Z)
  : outcome (loaderr + aofManifest) :=
  match fgets MANIFEST_MAX_LINE file with
  | None => Ret (if linenum =? 0 then inl EmptyManifest else inr am)
  | Some (buf, file) =>
      match fuel with
      | O => Abort
      | S fuel =>
          if default 0 (head buf) =? 35 then load_loop fuel file am maxseq (linenum + 1)
          else
            let* r := load_line buf in
            match r with
            | inl e => Ret (inl e)
            | inr ai =>
                match add_info am maxseq ai with
                | inl e => Ret (inl e)
                | inr (am, maxseq) => load_loop fuel file am maxseq (linenum + 1)
                end
            end
      end
  end.

Definition aofLoadManifestFromFile (file : list Z) : outcome (loaderr + aofManifest) :=
  load_loop (length file) file aofManifestCreate 0 0.

Definition sample : aofManifest :=
  Manifest (Some (AofInfo (chars "appendonly.aof.2.base.rdb") 2 98)) [AofInfo (chars "a b.4.incr.aof") 4 105; AofInfo (chars "appendonly.aof.5.incr.aof") 5 105]
    [AofInfo (chars "appendonly.aof.1.incr.aof") 1 104] 2 5 false.

Example sample_loads : aofLoadManifestFromFile (getAofManifestAsString sample) = Ret (inr sample).
Proof. vm_compute. reflexivity. Qed.

(** ** Facts *)

Lemma fgets_loop_line line rest n : Forall (fun c => c <> 10) line -> (length line < n)%nat ->
  fgets_loop n (line ++ 10 :: rest) = (line ++ [10], rest).
Proof.
  intros Hl. revert n. induction Hl as [|c line Hc _ IH]; intros n Hn; (destruct n as [|n]; [simpl in Hn; lia|]); [done|].
  simpl in *. destruct (Z.eqb_spec c 10); [done|]. by rewrite IH by lia.
Qed.

Lemma fgets_line line rest n : Forall (fun c => c <> 10) line -> (length line < n)%nat ->
  fgets n (line ++ 10 :: rest) = Some (line ++ [10], rest).
Proof. intros Hl Hn. unfold fgets. rewrite fgets_loop_line by done. by destruct line. Qed.

Lemma digits_eval ds acc : Forall is_digit ds -> digits_value acc ds = eval_dec acc ds.
Proof.
  intros H. revert acc. induction H as [|c ds Hc _ IH]; intros acc; [done|]. unfold is_digit in Hc. simpl.
  replace ((48 <=? c) && (c <=? 57)) with true by (symmetry; apply andb_true_iff; lia). apply IH.
Qed.

Lemma digits_repr n : 0 <= n < 2 ^ 63 -> digits_value 0 (repr n) = n.
Proof.
  intros Hn. rewrite digits_eval by (apply repr_digits; lia). unfold repr. destruct (Z.ltb_spec n 0); [lia|].
  assert (in_u 64 n) as Hu by (unfold in_u; lia). destruct (digits10_bounds n Hu) as (? & ? & _).
  rewrite eval_dec_fixed; rewrite Z2Nat.id; lia.
Qed.

(** A number that does not start with a blank or a sign. *)
Lemma atoll_digits c ds : 48 <= c <= 57 -> atoll (c :: ds) = Z.max (- 2 ^ 63) (Z.min (digits_value 0 (c :: ds)) (2 ^ 63 - 1)).
Proof.
  intros Hc. unfold atoll. cbn [SdsArgs.skip_blanks].
  assert (SdsArgs.isspace c = false) as -> by (unfold SdsArgs.isspace; zbool; lia).
  destruct (Z.eqb_spec c 45); [lia|]. by destruct (Z.eqb_spec c 43); [lia|].
Qed.

Lemma atoll_repr n : 0 < n < 2 ^ 63 -> atoll (repr n) = n.
Proof.
  intros Hn. pose proof (digits_repr n ltac:(lia)) as E. pose proof (repr_digits n ltac:(lia)) as Hd.
  destruct (repr n) as [|c ds]; [simpl in E; lia|]. apply Forall_cons_1 in Hd as [Hc _]. rewrite atoll_digits by done. lia.
Qed.

Lemma trim_ends c line x cset : SdsArgs.in_cset cset c = false -> SdsArgs.in_cset cset x = false -> SdsArgs.in_cset cset 10 = true ->
  SdsArgs.sdstrim ((c :: line ++ [x]) ++ [10]) cset = c :: line ++ [x].
Proof.
  intros Hc Hx Hn. unfold SdsArgs.sdstrim. cbn [app SdsArgs.trim_left]. rewrite Hc.
  change (c :: (line ++ [x]) ++ [10]) with ((c :: line ++ [x]) ++ [10]). rewrite rev_unit. cbn [SdsArgs.trim_left]. rewrite Hn.
  change (c :: line ++ [x]) with ((c :: line) ++ [x]). rewrite rev_unit. cbn [SdsArgs.trim_left]. rewrite Hx.
  by rewrite <- rev_unit, rev_involutive.
Qed.

(** ** A line is read back *)

(** A name that the loader accepts. *)
Definition name_ok (n : list Z) : Prop :=
  bytes n /\ Forall (fun c => c <> 0) n /\ pathIsBaseName n = true /\ (SdsArgs.sdsneedsrepr n = true \/ n <> [] /\ 39 ∉ n).

Record info_ok (t : Z) (ai : aofInfo) : Prop := {
  io_type : file_type ai = t;
  io_seq : 0 < file_seq ai < 2 ^ 63;
  io_name : name_ok (file_name ai);
  io_len : (length (aofInfoFormat [] ai) <= MANIFEST_MAX_LINE)%nat;
}.

Definition name_text (n : list Z) : list Z := if SdsArgs.sdsneedsrepr n then SdsArgs.sdscatrepr [] n else n.

Lemma name_text_ok n : name_ok n -> SdsArgs.text_of (name_text n) n /\ Forall (fun x => 32 <= x <= 126) (name_text n).
Proof.
  intros (Hb & Hz & _ & Hn). unfold name_text. destruct (SdsArgs.sdsneedsrepr n) eqn:E.
  - split; [by right|by apply SdsArgs.quoted_printable].
  - destruct Hn as [?|[Hne Hq]]; [done|].
    assert (Forall (fun c => SdsArgs.plain c /\ 32 <= c <= 126) n) as Hp.
    { apply Forall_forall. intros c Hc. assert (c <> 39) by (by intros ->).
      assert (c <> 0) by (by rewrite Forall_forall in Hz; apply Hz).
      assert (SdsArgs.needs_escape c = false) as Ec.
      { apply not_true_is_false. intros Ec. apply not_true_iff_false in E. apply E. apply existsb_exists.
        exists c. split; [by apply list_elem_of_In|done]. }
      unfold SdsArgs.needs_escape in Ec. repeat (apply orb_false_iff in Ec as [Ec ?]). zbool.
      unfold SdsArgs.isprint in *. zbool. repeat split; try done; lia. }
    split; [left; split_and!; try done|]; (eapply Forall_impl; [exact Hp|]); by intros ? [].
Qed.


(** A line without its newline. *)
Definition line_of (ai : aofInfo) : list Z :=
  SdsArgs.join [chars "file"; name_text (file_name ai); chars "seq"; repr (file_seq ai); chars "type"; [file_type ai]].

Lemma line_ends ai : exists m, line_of ai = 102 :: m ++ [file_type ai].
Proof.
  exists (chars "ile" ++ 32 :: name_text (file_name ai) ++ 32 :: chars "seq" ++ 32 :: repr (file_seq ai) ++ 32 :: chars "type" ++ [32]).
  unfold line_of. cbn [SdsArgs.join]. change (chars "file") with (102 :: chars "ile"). by list_simplifier.
Qed.

Lemma info_line ai t : info_ok t ai -> aofInfoFormat [] ai = line_of ai ++ [10].
Proof.
  intros [_ _ Hn _]. destruct (name_text_ok _ Hn) as [_ Hp]. unfold aofInfoFormat, line_of. cbv zeta. fold (name_text (file_name ai)).
  rewrite SdsArgs.cstr_nonzero by (eapply Forall_impl; [exact Hp|]; simpl; lia).
  change (chars "file ") with (chars "file" ++ [32]). change (chars " seq ") with (32 :: chars "seq" ++ [32]).
  change (chars " type ") with (32 :: chars "type" ++ [32]). cbn [SdsArgs.join]. by list_simplifier.
Qed.

Lemma line_printable ai t : info_ok t ai -> 32 <= t <= 126 -> Forall (fun x => 32 <= x <= 126) (line_of ai).
Proof.
  intros [Ht Hs Hn _] Hr. destruct (name_text_ok _ Hn) as [_ Hp]. unfold line_of. cbn [SdsArgs.join].
  assert (Forall (fun x => 32 <= x <= 126) (repr (file_seq ai))) as Hd.
  { eapply Forall_impl; [apply repr_digits; lia|]. simpl. lia. }
  repeat first [done | apply Forall_nil; done | apply Forall_app; split | apply Forall_cons; split]; try lia;
    vm_compute; repeat constructor; discriminate.
Qed.

Lemma same_case_refl a : SdsArgs.same_case a a = true.
Proof. unfold SdsArgs.same_case. by apply bool_decide_eq_true. Qed.

Lemma load_line_ok ai t : info_ok t ai -> t = 98 \/ t = 104 \/ t = 105 -> load_line (line_of ai ++ [10]) = Ret (inr ai).
Proof.
  intros Hok Ht. assert (Forall (fun x => 32 <= x <= 126) (line_of ai)) as Hp by (apply (line_printable ai t); [done|lia]).
  destruct Hok as [Hty Hs Hn _]. destruct (name_text_ok _ Hn) as [Htx _]. destruct Hn as (_ & Hz & Hbase & _).
  assert (Forall (fun x => x <> 0) (line_of ai)) as Hnz by (eapply Forall_impl; [exact Hp|]; simpl; lia).
  unfold load_line. rewrite SdsArgs.cstr_nonzero by (apply Forall_app; split; [done|by repeat constructor]).
  rewrite bool_decide_true by (rewrite elem_of_app; right; by apply list_elem_of_singleton). cbn [negb].
  destruct (line_ends ai) as [m Em]. rewrite Em. rewrite trim_ends; [|done| |done].
  2: { rewrite Hty. by destruct Ht as [->|[->| ->]]. }
  rewrite <- Em. destruct (Nat.eqb_spec (length (line_of ai)) 0) as [E0|_]; [rewrite Em in E0; simpl in E0; lia|].
  unfold line_of. rewrite (SdsArgs.sdssplitargs_words _ [chars "file"; file_name ai; chars "seq"; repr (file_seq ai); chars "type"; [file_type ai]]).
  - cbn [obind length Nat.ltb Nat.leb Nat.odd Nat.even orb negb read_fields]. rewrite same_case_refl.
    rewrite SdsArgs.cstr_nonzero, Hbase by done. cbn [f_name f_seq f_type read_fields].
    change (SdsArgs.same_case (chars "seq") (chars "file")) with false. rewrite same_case_refl. cbn [f_name f_seq f_type read_fields].
    change (SdsArgs.same_case (chars "type") (chars "file")) with false. change (SdsArgs.same_case (chars "type") (chars "seq")) with false.
    rewrite same_case_refl. cbn [f_name f_seq f_type read_fields head default].
    rewrite SdsArgs.cstr_nonzero by (eapply Forall_impl; [apply repr_digits; lia|]; simpl; lia). rewrite atoll_repr by done.
    destruct (Z.eqb_spec (file_seq ai) 0); [lia|]. rewrite Hty. cbn [orb].
    destruct ai; simpl in *. subst. destruct (Z.eqb_spec t 0); [lia|done].
  - assert (forall w, w <> [] -> Forall (fun c => 48 <= c <= 57 \/ 97 <= c <= 122) w -> SdsArgs.text_of w w) as Hw.
    { intros w Hne Hw. left. split_and!; try done. eapply Forall_impl; [exact Hw|]. simpl. intros c Hc.
      unfold SdsArgs.plain, SdsArgs.isspace. repeat split; zbool; lia. }
    repeat (apply Forall2_cons; split); try done; try (apply Hw; [done|]; by apply (bool_decide_unpack _)).
    + apply Hw; [|eapply Forall_impl; [apply repr_digits; lia|]; simpl; lia]. intros E.
      pose proof (atoll_repr _ Hs) as Ha. rewrite E in Ha. change (atoll []) with 0 in Ha. lia.
    + apply Hw; [done|]. apply Forall_singleton. lia.
  - exact Hnz.
Qed.

Lemma load_step fuel ai t rest am maxseq n : info_ok t ai -> t = 98 \/ t = 104 \/ t = 105 -> (0 < fuel)%nat ->
  load_loop fuel (aofInfoFormat [] ai ++ rest) am maxseq n =
  match add_info am maxseq ai with
  | inl e => Ret (inl e)
  | inr (am, maxseq) => load_loop (fuel - 1) rest am maxseq (n + 1)
  end.
Proof.
  intros Hok Ht Hf. pose proof (io_len _ _ Hok) as Hl. rewrite (info_line ai t Hok) in *. rewrite length_app in Hl. cbn [length] in Hl.
  assert (Forall (fun x => 32 <= x <= 126) (line_of ai)) as Hp by (apply (line_printable ai t); [done|lia]).
  rewrite <- app_assoc. cbn [app]. destruct fuel as [|fuel]; [lia|]. cbn [load_loop].
  rewrite fgets_line; [|eapply Forall_impl; [exact Hp|]; simpl; lia|lia].
  destruct (line_ends ai) as [m Em]. rewrite Em at 1. cbn [app head default Z.eqb Pos.eqb].
  rewrite (load_line_ok ai t) by done. cbn [obind]. rewrite Nat.sub_succ, Nat.sub_0_r. done.
Qed.

(** ** The whole manifest *)

Lemma format_app buf ai : aofInfoFormat buf ai = buf ++ aofInfoFormat [] ai.
Proof. done. Qed.

Lemma format_fold l : forall buf, fold_left aofInfoFormat l buf = buf ++ concat (map (aofInfoFormat []) l).
Proof.
  induction l as [|ai l IH]; intros buf; simpl; [by rewrite app_nil_r|]. by rewrite IH, format_app, <- app_assoc.
Qed.

(** The numbers of the incremental files increase from [n] on, to [last]. *)
Fixpoint increasing (n : Z) (l : list aofInfo) (last : Z) : Prop :=
  match l with
  | [] => last = n
  | ai :: l => n < file_seq ai /\ increasing (file_seq ai) l last
  end.

Record manifest_ok (am : aofManifest) : Prop := {
  mo_base : match base_aof_info am with
            | Some ai => info_ok AOF_FILE_TYPE_BASE ai /\ curr_base_file_seq am = file_seq ai
            | None => curr_base_file_seq am = 0
            end;
  mo_hist : Forall (info_ok AOF_FILE_TYPE_HIST) (history_aof_list am);
  mo_incr : Forall (info_ok AOF_FILE_TYPE_INCR) (incr_aof_list am);
  mo_seqs : increasing 0 (incr_aof_list am) (curr_incr_file_seq am);
}.

Definition is_empty (am : aofManifest) : bool :=
  match base_aof_info am, history_aof_list am, incr_aof_list am with None, [], [] => true | _, _, _ => false end.

Lemma load_history l : forall fuel b i h cb ci d maxseq n rest, Forall (info_ok AOF_FILE_TYPE_HIST) l -> (length l <= fuel)%nat ->
  load_loop fuel (concat (map (aofInfoFormat []) l) ++ rest) (Manifest b i h cb ci d) maxseq n =
  load_loop (fuel - length l) rest (Manifest b i (h ++ l) cb ci d) maxseq (n + Z.of_nat (length l)).
Proof.
  induction l as [|ai l IH]; intros fuel b i h cb ci d maxseq n rest Hl Hf; cbn [map concat].
  - by rewrite app_nil_r, Nat.sub_0_r, Z.add_0_r.
  - apply Forall_cons_1 in Hl as [Ha Hl]. simpl in Hf. rewrite <- app_assoc, (load_step _ _ AOF_FILE_TYPE_HIST) by (auto || lia).
    unfold add_info. rewrite (io_type _ _ Ha). change (AOF_FILE_TYPE_HIST =? AOF_FILE_TYPE_BASE) with false.
    change (AOF_FILE_TYPE_HIST =? AOF_FILE_TYPE_HIST) with true. cbn [base_aof_info incr_aof_list history_aof_list curr_base_file_seq curr_incr_file_seq dirty].
    rewrite IH by (done || lia). rewrite <- app_assoc. f_equal; simpl; lia.
Qed.

Lemma load_incr l : forall fuel b i h cb ci d maxseq n rest last, Forall (info_ok AOF_FILE_TYPE_INCR) l -> (length l <= fuel)%nat ->
  increasing maxseq l last -> ci = maxseq ->
  load_loop fuel (concat (map (aofInfoFormat []) l) ++ rest) (Manifest b i h cb ci d) maxseq n =
  load_loop (fuel - length l) rest (Manifest b (i ++ l) h cb last d) last (n + Z.of_nat (length l)).
Proof.
  induction l as [|ai l IH]; intros fuel b i h cb ci d maxseq n rest last Hl Hf Hi ->; cbn [map concat].
  - simpl in Hi. subst. by rewrite app_nil_r, Nat.sub_0_r, Z.add_0_r.
  - apply Forall_cons_1 in Hl as [Ha Hl]. simpl in Hf. destruct Hi as [Hlt Hi].
    rewrite <- app_assoc, (load_step _ _ AOF_FILE_TYPE_INCR) by (auto || lia).
    unfold add_info. rewrite (io_type _ _ Ha). change (AOF_FILE_TYPE_INCR =? AOF_FILE_TYPE_BASE) with false.
    change (AOF_FILE_TYPE_INCR =? AOF_FILE_TYPE_HIST) with false. change (AOF_FILE_TYPE_INCR =? AOF_FILE_TYPE_INCR) with true.
    destruct (Z.leb_spec (file_seq ai) maxseq); [lia|].
    cbn [base_aof_info incr_aof_list history_aof_list curr_base_file_seq curr_incr_file_seq dirty].
    rewrite (IH _ _ _ _ _ _ _ _ _ _ last) by (done || lia). rewrite <- app_assoc. f_equal; simpl; lia.
Qed.

Lemma manifest_lines am : getAofManifestAsString am =
  concat (map (aofInfoFormat []) (option_list (base_aof_info am))) ++
  concat (map (aofInfoFormat []) (history_aof_list am)) ++ concat (map (aofInfoFormat []) (incr_aof_list am)) ++ [].
Proof.
  unfold getAofManifestAsString. rewrite !format_fold, (app_nil_r (concat (map _ (incr_aof_list am)))), <- app_assoc.
  destruct (base_aof_info am) as [ai|]; [|done]. change (option_list (Some ai)) with [ai]. cbn [map concat].
  by rewrite (app_nil_r (aofInfoFormat [] ai)).
Qed.

Lemma lines_length l : (length l <= length (concat (map (aofInfoFormat []) l)))%nat.
Proof. induction l as [|ai l IH]; [done|]. cbn [map concat length]. rewrite length_app. unfold aofInfoFormat at 1. simpl. lia. Qed.

Lemma load_string am : manifest_ok am -> is_empty am = false ->
  aofLoadManifestFromFile (getAofManifestAsString am) = Ret (inr (set_dirty am false)).
Proof.
  intros [Hb Hh Hi Hs] He. unfold aofLoadManifestFromFile. rewrite manifest_lines.
  pose proof (lines_length (option_list (base_aof_info am))) as L1. pose proof (lines_length (history_aof_list am)) as L2.
  pose proof (lines_length (incr_aof_list am)) as L3.
  match goal with |- load_loop ?f _ _ _ _ = _ => set (fuel := f); assert (length (option_list (base_aof_info am)) + length (history_aof_list am) + length (incr_aof_list am) <= fuel)%nat as Hf end.
  { unfold fuel. rewrite !length_app. simpl. lia. }
  clearbody fuel. clear L1 L2 L3. destruct am as [b i h cb ci d]. unfold aofManifestCreate, set_dirty. simpl in *.
  assert (load_loop fuel (concat (map (aofInfoFormat []) (option_list b)) ++ concat (map (aofInfoFormat []) h) ++ concat (map (aofInfoFormat []) i) ++ [])
     (Manifest None [] [] 0 0 false) 0 0 =
    load_loop (fuel - length (option_list b)) (concat (map (aofInfoFormat []) h) ++ concat (map (aofInfoFormat []) i) ++ [])
     (Manifest b [] [] cb 0 false) 0 (Z.of_nat (length (option_list b)))) as ->.
  { destruct b as [ai|]; [|subst; by rewrite Nat.sub_0_r]. destruct Hb as [Ha ->]. change (option_list (Some ai)) with [ai] in *. cbn [map concat length] in *.
    rewrite (app_nil_r (aofInfoFormat [] ai)), (load_step _ _ AOF_FILE_TYPE_BASE) by (auto || lia). unfold add_info. by rewrite (io_type _ _ Ha). }
  rewrite load_history, (load_incr _ _ _ _ _ _ _ _ _ _ _ ci) by (done || lia). cbn [app].
  destruct (fuel - _ - _ - _)%nat; cbn [load_loop fgets];
    (destruct (Z.eqb_spec (Z.of_nat (length (option_list b)) + Z.of_nat (length h) + Z.of_nat (length i)) 0); [|done]);
    destruct b, h, i; simpl in *; try lia; done.
Qed.

(** ** Theorems *)

(** C21: a manifest that is written is read back as it was, with its base, history and
    incremental files in order and the numbers the next files are named after, whatever
    the names, spaces and control characters included, that the loader accepts. *)
Theorem manifest_roundtrip am : manifest_ok am -> is_empty am = false ->
  aofLoadManifestFromFile (getAofManifestAsString am) = Ret (inr (set_dirty am false)).
Proof. apply load_string. Qed.

Lemma manifest_roundtrip_witness : aofLoadManifestFromFile (getAofManifestAsString sample) = Ret (inr (set_dirty sample false)).
Proof.
  apply (manifest_roundtrip sample); [|reflexivity].
  assert (forall n s t, bytes n -> Forall (fun c => c <> 0) n -> pathIsBaseName n = true ->
    (SdsArgs.sdsneedsrepr n = true \/ n <> [] /\ 39 ∉ n) -> 0 < s < 2 ^ 63 -> (length (aofInfoFormat [] (AofInfo n s t)) <= MANIFEST_MAX_LINE)%nat ->
    info_ok t (AofInfo n s t)) as Hok by (intros; split; try done; by split_and!).
  assert (forall n, Forall (fun c => 0 <= c < 256) n -> bytes n) as Hb by done.
  split; cbn.
  - split; [|done]. apply Hok; [apply Hb; by apply (bool_decide_unpack _)|by apply (bool_decide_unpack _)|done| |lia|vm_compute; lia].
    right. split; [done|]. by apply (bool_decide_unpack _).
  - apply Forall_singleton. apply Hok; [apply Hb; by apply (bool_decide_unpack _)|by apply (bool_decide_unpack _)|done| |lia|vm_compute; lia].
    right. split; [done|]. by apply (bool_decide_unpack _).
  - constructor; [|apply Forall_singleton]; (apply Hok; [apply Hb; by apply (bool_decide_unpack _)|by apply (bool_decide_unpack _)|done| |lia|vm_compute; lia]).
    + by left.
    + right. split; [done|]. by apply (bool_decide_unpack _).
  - lia.
Defined.

End AofManifest.
