(* ===== verification/Aof.v ===== *)
(** * Aof: the append only files across rewrites and crashes (aof.c)

    The server appends the commands it executes to the last incremental file,
    switches to a new one and forks to rewrite the log, installs the child's snapshot
    as the new base file when the child is done, turns the log on and off, and on
    start loads the files of the manifest.

    A file is its snapshot, if it has one, and its commands; datasets, commands and
    the execution of a command are parameters, as is what the child saves: a file
    that loads as the dataset at the fork.  System calls succeed or fail as their
    arguments say; [seen] records the disk after every call that changes it, which
    are the states a crash may leave.  A descriptor is the name its file has now.
    There is no log of an older version to upgrade, and the AOF child is the only
    child. *)
From stdpp Require Import gmap.
From S2P Require Import Prelude NumStr SdsArgs AofManifest.
Import NumStr AofManifest.

Module Aof.

Section Model.
Context {D C : Type} (apply : D -> C -> D) (empty_db : D).
(** [server.aof_filename] *)
Context (aof_filename : list Z).

Record content := Content { snapshot : option D; commands : list C }.

Record disk := Disk { files : gmap (list Z) content; manifest_file : option (list Z) }.

Inductive state := AOF_OFF | AOF_WAIT_REWRITE | AOF_ON.

(** An open file: its name, or none after it was unlinked or replaced. *)
Inductive fdesc := Named (n : list Z) | Unlinked.

Record server := Server {
  aof_state : state;
  aof_fd : option fdesc;
  aof_manifest : aofManifest;
  aof_buf : list C;
  db : D;
  child : option D;  (* the dataset of the rewriting child *)
}.

Record world := World { srv : server; dsk : disk; seen : list disk }.

Definition set_srv (w : world) (s : server) : world := World s (dsk w) (seen w).
Definition set_fd (s : server) (fd : option fdesc) : server := Server (aof_state s) fd (aof_manifest s) (aof_buf s) (db s) (child s).
Definition set_state (s : server) (st : state) : server := Server st (aof_fd s) (aof_manifest s) (aof_buf s) (db s) (child s).
Definition set_manifest (s : server) (am : aofManifest) : server := Server (aof_state s) (aof_fd s) am (aof_buf s) (db s) (child s).
Definition set_aof_buf (s : server) (b : list C) : server := Server (aof_state s) (aof_fd s) (aof_manifest s) b (db s) (child s).
Definition set_child (s : server) (c : option D) : server := Server (aof_state s) (aof_fd s) (aof_manifest s) (aof_buf s) (db s) c.

(** ** The file system *)

(** Calls that change the directory, and the name of the open file with it. *)
Definition fs_set (w : world) (fs : gmap (list Z) content) (fd : option fdesc) : world :=
  let d := Disk fs (manifest_file (dsk w)) in World (set_fd (srv w) fd) d (seen w ++ [d]).

(** [n] is removed or replaced. *)
Definition lose (n : list Z) (fd : option fdesc) : option fdesc :=
  match fd with Some (Named m) => if bool_decide (m = n) then Some Unlinked else fd | _ => fd end.

Definition fs_unlink (n : list Z) (w : world) : world := fs_set w (delete n (files (dsk w))) (lose n (aof_fd (srv w))).

(** A file from outside the directory is moved to [n]. *)
Definition fs_move_in (x : content) (n : list Z) (w : world) : world :=
  fs_set w (<[n := x]> (files (dsk w))) (lose n (aof_fd (srv w))).

Definition renamed (a b : list Z) (fd : option fdesc) : option fdesc :=
  match fd with Some (Named m) => if bool_decide (m = a) then Some (Named b) else lose b fd | _ => fd end.

(** [rename], which fails on a missing file. *)
Definition fs_rename (a b : list Z) (w : world) : world * bool :=
  match files (dsk w) !! a with
  | None => (w, false)
  | Some x => (fs_set w (<[b := x]> (delete a (files (dsk w)))) (renamed a b (aof_fd (srv w))), true)
  end.

(** [open] with [O_TRUNC] and with [O_APPEND], creating the file. *)
Definition fs_truncate (n : list Z) (w : world) : world :=
  fs_set w (<[n := Content None []]> (files (dsk w))) (aof_fd (srv w)).
Definition fs_append (n : list Z) (w : world) : world :=
  match files (dsk w) !! n with Some _ => w | None => fs_truncate n w end.

Definition fs_write (cs : list C) (w : world) : world :=
  match aof_fd (srv w) with
  | Some (Named n) =>
      match files (dsk w) !! n with
      | Some x => fs_set w (<[n := Content (snapshot x) (commands x ++ cs)]> (files (dsk w))) (aof_fd (srv w))
      | None => w
      end
  | _ => w
  end.

(** ** The manifest in memory *)

(** [server.aof_filename].seq.base.format and [server.aof_filename].seq.incr.aof *)
Definition base_name (rdb_preamble : bool) (seq : Z) : list Z :=
  aof_filename ++ chars "." ++ repr seq ++ chars ".base" ++ (if rdb_preamble then chars ".rdb" else chars ".aof").
Definition incr_name (seq : Z) : list Z := aof_filename ++ chars "." ++ repr seq ++ chars ".incr" ++ chars ".aof".

Definition getNewBaseFileNameAndMarkPreAsHistory (rdb_preamble : bool) (am : aofManifest) : list Z * aofManifest :=
  let history := match base_aof_info am with
                 | Some ai => set_type ai AOF_FILE_TYPE_HIST :: history_aof_list am
                 | None => history_aof_list am
                 end in
  let seq := curr_base_file_seq am + 1 in
  let name := base_name rdb_preamble seq in
  (name, Manifest (Some (AofInfo name seq AOF_FILE_TYPE_BASE)) (incr_aof_list am) history seq (curr_incr_file_seq am) true).

Definition getNewIncrAofName (am : aofManifest) : list Z * aofManifest :=
  let seq := curr_incr_file_seq am + 1 in
  let name := incr_name seq in
  (name, Manifest (base_aof_info am) (incr_aof_list am ++ [AofInfo name seq AOF_FILE_TYPE_INCR]) (history_aof_list am)
    (curr_base_file_seq am) seq true).

Definition getTempIncrAofName : list Z := chars "temp-" ++ aof_filename ++ chars ".incr".

Definition getLastIncrAofName (am : aofManifest) : list Z * aofManifest :=
  match last (incr_aof_list am) with
  | None => getNewIncrAofName am
  | Some ai => (file_name ai, am)
  end.

(** [open] tells whether [server.aof_fd != -1]: the last file is being written then. *)
Definition markRewrittenIncrAofAsHistory (open : bool) (am : aofManifest) : aofManifest :=
  let incr := incr_aof_list am in
  if Nat.eqb (length incr) 0 then am else
  let n := if open then (length incr - 1)%nat else length incr in
  Manifest (base_aof_info am) (drop n incr)
    (map (fun ai => set_type ai AOF_FILE_TYPE_HIST) (take n incr) ++ history_aof_list am)
    (curr_base_file_seq am) (curr_incr_file_seq am) true.

(** How writing the manifest ends: a failure may come before the new file replaced
    the old one, or after, when the directory cannot be synced. *)
Inductive persist := PersistOk | FailBefore | FailAfter.

Definition writeAofManifestFile (p : persist) (buf : list Z) (w : world) : world * bool :=
  let d := Disk (files (dsk w)) (Some buf) in
  let w' := World (srv w) d (seen w ++ [d]) in
  match p with
  | PersistOk => (w', true)
  | FailBefore => (w, false)
  | FailAfter => (w', false)
  end.

Definition persistAofManifest (p : persist) (am : aofManifest) (w : world) : world * aofManifest * bool :=
  if negb (dirty am) then (w, am, true) else
  let '(w, ok) := writeAofManifestFile p (getAofManifestAsString am) w in
  (w, if ok then set_dirty am false else am, ok).

Definition aofManifestFreeAndUpdate (am : aofManifest) (w : world) : world := set_srv w (set_manifest (srv w) am).

Definition aofDelHistoryFiles (disable_auto_gc : bool) (p : persist) (w : world) : world :=
  let am := aof_manifest (srv w) in
  if disable_auto_gc || Nat.eqb (length (history_aof_list am)) 0 then w else
  let w := fold_left (fun w ai => fs_unlink (file_name ai) w) (history_aof_list am) w in
  let am := Manifest (base_aof_info am) (incr_aof_list am) [] (curr_base_file_seq am) (curr_incr_file_seq am) true in
  let '(w, am, _) := persistAofManifest p am w in
  aofManifestFreeAndUpdate am w.

(** ** Writing the log *)

Definition feedAppendOnlyFile (c : C) (w : world) : world :=
  let s := srv w in
  let feed := match aof_state s with
              | AOF_ON => true
              | AOF_WAIT_REWRITE => match child s with Some _ => true | None => false end
              | AOF_OFF => false
              end in
  set_srv w (Server (aof_state s) (aof_fd s) (aof_manifest s) (if feed then aof_buf s ++ [c] else aof_buf s) (apply (db s) c) (child s)).

(** [k] is how many commands the write (and a failed [ftruncate]) left in the file;
    what is left stays in the buffer.  A write fails when no file is open. *)
Definition flushAppendOnlyFile (k : nat) (w : world) : world :=
  match aof_buf (srv w) with
  | [] => w
  | buf =>
      let k := match aof_fd (srv w) with Some _ => k | None => O end in
      let w := fs_write (take k buf) w in
      set_srv w (set_aof_buf (srv w) (drop k buf))
  end.

(** ** Rewriting *)

Definition openNewIncrAofForAppend (open_ok : bool) (p : persist) (w : world) : world * bool :=
  match aof_state (srv w) with
  | AOF_OFF => (w, true)
  | AOF_WAIT_REWRITE =>
      if negb open_ok then (w, false) else
      let w := fs_truncate getTempIncrAofName w in
      (set_srv w (set_fd (srv w) (Some (Named getTempIncrAofName))), true)
  | AOF_ON =>
      let '(name, temp_am) := getNewIncrAofName (aof_manifest (srv w)) in
      if negb open_ok then (w, false) else
      let w := fs_truncate name w in
      let '(w, temp_am, ok) := persistAofManifest p temp_am w in
      if negb ok then (w, false) else
      let w := set_srv w (set_fd (srv w) (Some (Named name))) in
      (aofManifestFreeAndUpdate temp_am w, true)
  end.

(** The outcomes of the calls of a rewrite's start. *)
Record start_outcome := StartOutcome { so_write : nat; so_open : bool; so_persist : persist; so_fork : bool }.

Definition rewriteAppendOnlyFileBackground (o : start_outcome) (w : world) : world * bool :=
  match child (srv w) with
  | Some _ => (w, false)
  | None =>
      let w := flushAppendOnlyFile (so_write o) w in
      let '(w, ok) := openNewIncrAofForAppend (so_open o) (so_persist o) w in
      if negb ok then (w, false)
      else if negb (so_fork o) then (w, false)
      else (set_srv w (set_child (srv w) (Some (db (srv w)))), true)
  end.

(** The child failed or was killed, or succeeded; then what the calls did. *)
Record done_outcome := DoneOutcome {
  do_success : bool; do_rdb_preamble : bool; do_rename : bool; do_rename_incr : bool;
  do_persist : persist; do_disable_gc : bool; do_gc_persist : persist }.

Definition done_cleanup (w : world) : world :=
  let w := match aof_state (srv w) with
           | AOF_WAIT_REWRITE => fs_unlink getTempIncrAofName (set_srv w (set_aof_buf (srv w) []))
           | _ => w
           end in
  set_srv w (set_child (srv w) None).

(** The names of the files, when the temporary incremental file has been renamed. *)
Definition rename_incr (o : done_outcome) (temp_am : aofManifest) (w : world) : world * aofManifest * option (list Z) * bool :=
  match aof_state (srv w) with
  | AOF_WAIT_REWRITE =>
      let '(name, temp_am) := getNewIncrAofName temp_am in
      if negb (do_rename_incr o) then (w, temp_am, Some name, false) else
      let '(w, ok) := fs_rename getTempIncrAofName name w in
      (w, temp_am, Some name, ok)
  | _ => (w, temp_am, None, true)
  end.

(** The new manifest is on disk. *)
Definition done_install (o : done_outcome) (temp_am : aofManifest) (w : world) : world :=
  let w := aofManifestFreeAndUpdate temp_am w in
  let w := aofDelHistoryFiles (do_disable_gc o) (do_gc_persist o) w in
  let w := match aof_state (srv w) with
           | AOF_WAIT_REWRITE => set_srv w (set_state (srv w) AOF_ON)
           | _ => w
           end in
  done_cleanup w.

Definition backgroundRewriteDoneHandler (o : done_outcome) (w : world) : world :=
  match child (srv w) with
  | None => w
  | Some saved =>
      if negb (do_success o) then done_cleanup w else
      let '(base, temp_am) := getNewBaseFileNameAndMarkPreAsHistory (do_rdb_preamble o) (aof_manifest (srv w)) in
      if negb (do_rename o) then done_cleanup w else
      let w := fs_move_in (Content (Some saved) []) base w in
      let '(w, temp_am, incr, ok) := rename_incr o temp_am w in
      if negb ok then done_cleanup (fs_unlink base w) else
      let temp_am := markRewrittenIncrAofAsHistory (bool_decide (is_Some (aof_fd (srv w)))) temp_am in
      let '(w, temp_am, ok) := persistAofManifest (do_persist o) temp_am w in
      if negb ok then
        let w := fs_unlink base w in
        done_cleanup (match incr with Some name => fs_unlink name w | None => w end)
      else
        done_install o temp_am w
  end.
(** ** Turning the log on and off *)

Definition killAppendOnlyChild (w : world) : world := set_srv w (set_child (srv w) None).

Definition stopAppendOnly (k : nat) (w : world) : world :=
  match aof_state (srv w) with
  | AOF_OFF => w
  | _ =>
      let w := flushAppendOnlyFile k w in
      let w := set_srv w (set_state (set_fd (srv w) None) AOF_OFF) in
      let w := killAppendOnlyChild w in
      set_srv w (set_aof_buf (srv w) [])
  end.

(** [scheduled]: a transaction is running, the rewrite is left for later. *)
Definition startAppendOnly (scheduled : bool) (o : start_outcome) (w : world) : world :=
  match aof_state (srv w) with
  | AOF_OFF =>
      let w := set_srv w (set_state (srv w) AOF_WAIT_REWRITE) in
      if scheduled then w else
      let w := killAppendOnlyChild w in
      let '(w, ok) := rewriteAppendOnlyFileBackground o w in
      if ok then w else set_srv w (set_state (srv w) AOF_OFF)
  | _ => w
  end.

(** ** Starting the server *)

Inductive load_result := AOF_OK (d : D) | AOF_NOT_EXIST | AOF_FAILED.

Definition replay (d : D) (cs : list C) : D := fold_left apply cs d.

Definition load_content (x : content) (d : D) : D := replay (default d (snapshot x)) (commands x).

(** [names] exist: the sizes of all files are asked for before any is loaded. *)
Fixpoint load_names (fs : gmap (list Z) content) (names : list (list Z)) (d : D) : option D :=
  match names with
  | [] => Some d
  | n :: names =>
      match fs !! n with
      | None => None
      | Some x => load_names fs names (load_content x d)
      end
  end.

Definition loadAppendOnlyFiles (am : aofManifest) (d : disk) : load_result :=
  match base_aof_info am, incr_aof_list am with
  | None, [] => AOF_NOT_EXIST
  | base, incr =>
      match load_names (files d) (map file_name (option_list base ++ incr)) empty_db with
      | None => AOF_FAILED
      | Some x => AOF_OK x
      end
  end.

(** [None] is an [exit(1)]. *)
Definition aofLoadManifestFromDisk (d : disk) : option aofManifest :=
  match manifest_file d with
  | None => Some aofManifestCreate
  | Some bytes => match aofLoadManifestFromFile bytes with Ret (inr am) => Some am | _ => None end
  end.

Definition loadDataFromDisk (on : bool) (rdb : D) (am : aofManifest) (d : disk) : option D :=
  if on then match loadAppendOnlyFiles am d with AOF_OK x => Some x | AOF_NOT_EXIST => Some empty_db | AOF_FAILED => None end
  else Some rdb.

(** Every failure here is an [exit(1)]. *)
Definition aofOpenIfNeededOnServerStart (rdb_preamble : bool) (p : persist) (w : world) : option world :=
  match aof_state (srv w) with
  | AOF_ON =>
      let am := aof_manifest (srv w) in
      let '(w, am) :=
        match base_aof_info am, incr_aof_list am with
        | None, [] =>
            let '(base, am) := getNewBaseFileNameAndMarkPreAsHistory rdb_preamble am in
            (fs_move_in (Content (Some (db (srv w))) []) base w, am)
        | _, _ => (w, am)
        end in
      let '(name, am) := getLastIncrAofName am in
      let w := fs_append name w in
      let w := set_srv w (set_fd (srv w) (Some (Named name))) in
      let '(w, am, ok) := persistAofManifest p am w in
      if ok then Some (aofManifestFreeAndUpdate am w) else None
  | _ => Some w
  end.

(** The server starts on what is on disk, with its log on or off; [rdb] is the
    dataset of the snapshot file.  [None] when it exits. *)
Definition startup (on rdb_preamble : bool) (p : persist) (disable_gc : bool) (gc : persist) (rdb : D) (d : disk) : option world :=
  match aofLoadManifestFromDisk d with
  | None => None
  | Some am =>
      match loadDataFromDisk on rdb am d with
      | None => None
      | Some x =>
          let s := Server (if on then AOF_ON else AOF_OFF) None am [] x None in
          match aofOpenIfNeededOnServerStart rdb_preamble p (World s d []) with
          | None => None
          | Some w => Some (aofDelHistoryFiles disable_gc gc w)
          end
      end
  end.
(** ** Runs *)

Inductive op :=
| Exec (c : C)
| Flush (k : nat)
| Rewrite (o : start_outcome)
| Done (o : done_outcome)
| Stop (k : nat)
| Start (scheduled : bool) (o : start_outcome)
| Restart (cut : nat) (on rdb_preamble : bool) (p : persist) (disable_gc : bool) (gc : persist) (rdb : D).

(** Where a crash left the disk: after the call number [cut] of the last operation
    that changed it, or at its end. *)
Definition crash_disk (cut : nat) (w : world) : disk := default (dsk w) (seen w !! cut).

(** [None] when the server exits while it starts. *)
Definition step (o : op) (w0 : world) : option world :=
  let w := World (srv w0) (dsk w0) [] in
  match o with
  | Exec c => Some (feedAppendOnlyFile c w)
  | Flush k => Some (flushAppendOnlyFile k w)
  | Rewrite o => Some (fst (rewriteAppendOnlyFileBackground o w))
  | Done o => Some (backgroundRewriteDoneHandler o w)
  | Stop k => Some (stopAppendOnly k w)
  | Start scheduled o => Some (startAppendOnly scheduled o w)
  | Restart cut on pre p gcd gc rdb => startup on pre p gcd gc rdb (crash_disk cut w0)
  end.

Fixpoint run (ops : list op) (w : world) : option world :=
  match ops with
  | [] => Some w
  | o :: ops => match step o w with Some w => run ops w | None => None end
  end.

(** A directory without log, and the log off. *)
Definition fresh (d : D) : world := World (Server AOF_OFF None aofManifestCreate [] d None) (Disk ∅ None) [].

(** What the files on a disk load as. *)
Definition recover (d : disk) : load_result :=
  match aofLoadManifestFromDisk d with
  | None => AOF_FAILED
  | Some am => loadAppendOnlyFiles am d
  end.
End Model.

End Aof.
