(* ===== verification/AofSafe.v ===== *)
(** * AofSafe: what the append only files hold at every moment

    The names of the files of a manifest never meet, the manifest on disk is the one
    in memory up to history files, and while the log is on the files of the manifest
    load as the dataset less the commands still in the buffer; all of it at every
    state of the disk, so that a crash loses nothing that was written. *)
From stdpp Require Import gmap.
From S2P Require Import Prelude NumStr SdsArgs AofManifest Aof.
Import NumStr AofManifest Aof.

Module AofSafe.

#[local] Arguments getTempIncrAofName : simpl never.
#[local] Arguments base_name : simpl never.
#[local] Arguments incr_name : simpl never.
#[local] Arguments getAofManifestAsString : simpl never.

(** ** Names *)

(** A file name that needs no quotes, of a length that fits in a line. *)
Definition plain_name (f : list Z) : Prop :=
  f <> [] /\ Forall (fun c => 33 <= c <= 126 /\ c <> 34 /\ c <> 39 /\ c <> 47 /\ c <> 92) f /\ (length f <= 900)%nat.

Section Names.
Context (f : list Z) (Hf : plain_name f).

Lemma name_chars_ok n s t : Forall (fun c => 33 <= c <= 126 /\ c <> 34 /\ c <> 39 /\ c <> 47 /\ c <> 92) n -> n <> [] ->
  (length n <= 940)%nat -> 0 < s < 2 ^ 63 -> info_ok t (AofInfo n s t).
Proof using.
  intros Hn Hne Hl Hs.
  assert (SdsArgs.sdsneedsrepr n = false) as He.
  { apply not_true_is_false. unfold SdsArgs.sdsneedsrepr. intros Hx. apply existsb_exists in Hx as (c & Hc & E).
    apply list_elem_of_In in Hc. rewrite Forall_forall in Hn. specialize (Hn c Hc). simpl in Hn. revert E.
    unfold SdsArgs.needs_escape, SdsArgs.isprint, SdsArgs.isspace. apply not_true_iff_false. zbool. lia. }
  assert (forall c, c ∈ n -> 33 <= c <= 126 /\ c <> 34 /\ c <> 39 /\ c <> 47 /\ c <> 92) as Hc by (by apply Forall_forall).
  split; cbn [file_type file_seq file_name]; [done|done| |].
  - split_and!.
    + apply Forall_forall. intros c H. specialize (Hc c H). unfold is_byte, in_u. lia.
    + apply Forall_forall. intros c H. specialize (Hc c H). lia.
    + unfold pathIsBaseName. rewrite !bool_decide_false; [done| |]; intros H; specialize (Hc _ H); lia.
    + right. split; [done|]. intros H. specialize (Hc _ H). lia.
  - unfold aofInfoFormat. cbn [file_type file_seq file_name]. rewrite He, SdsArgs.cstr_nonzero.
    2: { apply Forall_forall. intros c H. specialize (Hc c H). lia. }
    cbn [app]. rewrite !length_app. cbn [length].
    destruct (repr_length s) as [Hr1 Hr2]; [unfold in_s; lia|]. unfold MANIFEST_MAX_LINE.
    change (length (chars "file ")) with 5%nat. change (length (chars " seq ")) with 5%nat.
    change (length (chars " type ")) with 6%nat. lia.
Qed.

Lemma suffix_chars s sfx : 0 <= s -> Forall (fun c => 33 <= c <= 126 /\ c <> 34 /\ c <> 39 /\ c <> 47 /\ c <> 92) sfx ->
  Forall (fun c => 33 <= c <= 126 /\ c <> 34 /\ c <> 39 /\ c <> 47 /\ c <> 92) (f ++ chars "." ++ repr s ++ sfx).
Proof using Hf.
  intros Hs Hx. repeat (apply Forall_app; split); [apply Hf|by apply (bool_decide_unpack _)| |done].
  eapply Forall_impl; [by apply repr_digits|]. simpl. lia.
Qed.

Lemma suffix_info s sfx t : 0 < s < 2 ^ 63 -> Forall (fun c => 33 <= c <= 126 /\ c <> 34 /\ c <> 39 /\ c <> 47 /\ c <> 92) sfx ->
  (length sfx <= 9)%nat -> info_ok t (AofInfo (f ++ chars "." ++ repr s ++ sfx) s t).
Proof using Hf.
  intros Hs Hx Hl. apply name_chars_ok; [by apply suffix_chars; [lia|]| | |done].
  - destruct Hf as [? _]. by destruct f.
  - destruct Hf as (_ & _ & ?). destruct (repr_length s) as [Hr1 Hr2]; [unfold in_s; lia|].
    rewrite !length_app. change (length (chars ".")) with 1%nat. lia.
Qed.

Lemma base_info b s t : 0 < s < 2 ^ 63 -> info_ok t (AofInfo (base_name f b s) s t).
Proof using Hf.
  intros Hs. unfold base_name. destruct b; (apply suffix_info; [done|by apply (bool_decide_unpack _)|by vm_compute; lia]).
Qed.

Lemma incr_info s t : 0 < s < 2 ^ 63 -> info_ok t (AofInfo (incr_name f s) s t).
Proof using Hf. intros Hs. apply suffix_info; [done|by apply (bool_decide_unpack _)|by vm_compute; lia]. Qed.

(** A number ends where the dot after it is. *)
Lemma digits_dot a b x y : Forall is_digit a -> Forall is_digit b -> a ++ 46 :: x = b ++ 46 :: y -> a = b /\ x = y.
Proof using.
  intros Ha. revert b. induction Ha as [|c a Hc _ IH]; intros b Hb E.
  - destruct b as [|c b]; [by injection E|]. injection E as <- _. apply Forall_cons_1 in Hb as [Hb _]. unfold is_digit in Hb. lia.
  - destruct b as [|c' b]; [injection E as -> _; unfold is_digit in Hc; lia|]. injection E as <- E.
    apply Forall_cons_1 in Hb as [_ Hb]. destruct (IH b Hb E) as [-> ->]. done.
Qed.

Lemma suffix_inj s s' x y : 0 < s < 2 ^ 63 -> 0 < s' < 2 ^ 63 ->
  f ++ chars "." ++ repr s ++ 46 :: x = f ++ chars "." ++ repr s' ++ 46 :: y -> s = s' /\ x = y.
Proof using.
  intros Hs Hs' E. apply app_inv_head in E. injection E as E. apply digits_dot in E as [E ->]; [|apply repr_digits; lia..].
  split; [|done]. by rewrite <- (atoll_repr s), <- (atoll_repr s'), E.
Qed.

Lemma base_name_inj b b' s s' : 0 < s < 2 ^ 63 -> 0 < s' < 2 ^ 63 -> base_name f b s = base_name f b' s' -> s = s'.
Proof using. intros Hs Hs' E. unfold base_name in E. by apply suffix_inj in E as [? _]. Qed.

Lemma incr_name_inj s s' : 0 < s < 2 ^ 63 -> 0 < s' < 2 ^ 63 -> incr_name f s = incr_name f s' -> s = s'.
Proof using. intros Hs Hs' E. unfold incr_name in E. by apply suffix_inj in E as [? _]. Qed.

Lemma base_incr b s s' : 0 < s < 2 ^ 63 -> 0 < s' < 2 ^ 63 -> base_name f b s <> incr_name f s'.
Proof using. intros Hs Hs' E. unfold base_name, incr_name in E. apply suffix_inj in E as [_ E]; done. Qed.

Lemma temp_base b s : getTempIncrAofName f <> base_name f b s.
Proof using.
  unfold getTempIncrAofName, base_name. intros E. apply (f_equal (@rev Z)) in E. rewrite !rev_app_distr in E. by destruct b.
Qed.

Lemma temp_incr s : getTempIncrAofName f <> incr_name f s.
Proof using.
  unfold getTempIncrAofName, incr_name. intros E. apply (f_equal (@rev Z)) in E. by rewrite !rev_app_distr in E.
Qed.
End Names.


(** ** The manifest *)

Ltac pick H Hx := rewrite Forall_forall in H; specialize (H _ Hx); cbn beta in H.

Lemma increasing_in n l m : increasing n l m -> n <= m /\ Forall (fun ai => n < file_seq ai <= m) l.
Proof.
  revert n. induction l as [|ai l IH]; intros n; simpl; [intros ->; split; [lia|constructor]|]. intros [Hlt Hi].
  destruct (IH _ Hi) as [Hle Hall]. split; [lia|]. constructor; [lia|]. eapply Forall_impl; [exact Hall|]. simpl. lia.
Qed.

Lemma increasing_snoc n l ai m : increasing n (l ++ [ai]) m <-> (exists k, increasing n l k /\ k < file_seq ai) /\ m = file_seq ai.
Proof.
  revert n. induction l as [|x l IH]; intros n; simpl.
  - split; [intros [? ->]; split; [by exists n|done]|]. intros [(k & -> & ?) ->]. done.
  - rewrite IH. split; [intros (? & (k & ? & ?) & ->); split; [by exists k|done]|].
    intros [(k & [? ?] & ?) ->]. split; [done|]. split; [by exists k|done].
Qed.

Definition last_seq (l : list aofInfo) : Z := match last l with Some ai => file_seq ai | None => 0 end.

Lemma increasing_last l m : increasing 0 l m -> m = last_seq l.
Proof.
  destruct l as [|x l _] using rev_ind; [done|]. rewrite increasing_snoc. unfold last_seq. rewrite last_snoc. by intros [_ ->].
Qed.

Section Manifest.
Context (f : list Z) (Hf : plain_name f).

(** A history file: an older base or an incremental file that is not used any more. *)
Definition hist_ok (cb ci : Z) (incr : list aofInfo) (ai : aofInfo) : Prop :=
  file_type ai = AOF_FILE_TYPE_HIST /\ 0 < file_seq ai /\
  ((exists b, file_name ai = base_name f b (file_seq ai)) /\ file_seq ai < cb \/
   file_name ai = incr_name f (file_seq ai) /\ file_seq ai <= ci /\ Forall (fun i => file_seq ai < file_seq i) incr).

Record named (N : Z) (am : aofManifest) : Prop := {
  nm_base : base_aof_info am = None /\ am = Manifest None [] [] 0 0 (dirty am) \/
            exists b, base_aof_info am = Some (AofInfo (base_name f b (curr_base_file_seq am)) (curr_base_file_seq am) AOF_FILE_TYPE_BASE) /\
              0 < curr_base_file_seq am;
  nm_incr : Forall (fun ai => file_name ai = incr_name f (file_seq ai) /\ file_type ai = AOF_FILE_TYPE_INCR) (incr_aof_list am);
  nm_seqs : exists l, increasing 0 (incr_aof_list am) l /\ l <= curr_incr_file_seq am /\ (incr_aof_list am <> [] -> l = curr_incr_file_seq am);
  nm_hist : Forall (hist_ok (curr_base_file_seq am) (curr_incr_file_seq am) (incr_aof_list am)) (history_aof_list am);
  nm_cb : 0 <= curr_base_file_seq am <= N;
  nm_ci : 0 <= curr_incr_file_seq am <= N;
}.

(** The files that are loaded. *)
Definition live (am : aofManifest) : list aofInfo := option_list (base_aof_info am) ++ incr_aof_list am.
Definition names (l : list aofInfo) : list (list Z) := map file_name l.

Context (N : Z) (HN : N < 2 ^ 62).

Lemma live_cases am n : named N am -> n ∈ names (live am) ->
  (exists b, n = base_name f b (curr_base_file_seq am) /\ 0 < curr_base_file_seq am) \/
  (exists ai, ai ∈ incr_aof_list am /\ n = incr_name f (file_seq ai) /\ 0 < file_seq ai <= curr_incr_file_seq am).
Proof using.
  intros [Hb Hi (l & Hl & Hle & _) _ _ _] Hn. unfold names, live in Hn. rewrite map_app, elem_of_app in Hn.
  destruct Hn as [Hn|Hn].
  - left. destruct Hb as [[E _]|(b & E & ?)]; rewrite E in Hn; [by apply elem_of_nil in Hn|].
    apply list_elem_of_singleton in Hn. subst. by exists b.
  - right. apply list_elem_of_fmap in Hn as (ai & -> & Ha). exists ai. split; [done|]. pick Hi Ha. destruct Hi as [-> _]. split; [done|]. apply increasing_in in Hl as [_ Hl]. pick Hl Ha. lia.
Qed.

Lemma new_incr_fresh am : named N am -> incr_name f (curr_incr_file_seq am + 1) ∉ names (live am).
Proof using HN.
  intros Hn H. pose proof Hn as [_ _ _ _ Hcb Hci]. destruct (live_cases am _ Hn H) as [(b & E & ?)|(ai & _ & E & ?)].
  - symmetry in E. revert E. apply base_incr; lia.
  - apply incr_name_inj in E; lia.
Qed.

Lemma new_base_fresh am b : named N am -> base_name f b (curr_base_file_seq am + 1) ∉ names (live am).
Proof using HN.
  intros Hn H. pose proof Hn as [_ _ _ _ Hcb Hci]. destruct (live_cases am _ Hn H) as [(b' & E & ?)|(ai & _ & E & ?)].
  - apply base_name_inj in E; lia.
  - revert E. apply base_incr; lia.
Qed.

Lemma temp_fresh am : named N am -> getTempIncrAofName f ∉ names (live am).
Proof using.
  intros Hn H. destruct (live_cases am _ Hn H) as [(b' & E & ?)|(ai & _ & E & ?)]; revert E; [apply temp_base|apply temp_incr].
Qed.

Lemma hist_fresh am ai : named N am -> ai ∈ history_aof_list am -> file_name ai ∉ names (live am).
Proof using HN.
  intros Hn Ha H. pose proof Hn as [_ _ _ Hh Hcb Hci]. rewrite Forall_forall in Hh. destruct (Hh ai Ha) as (_ & Hs & Hk).
  destruct (live_cases am _ Hn H) as [(b' & E & ?)|(x & Hx & E & ?)], Hk as [((b & En) & ?)|(En & ? & Hi)]; rewrite En in E.
  - apply base_name_inj in E; lia.
  - symmetry in E. revert E. apply base_incr; lia.
  - revert E. apply base_incr; lia.
  - apply incr_name_inj in E; try lia. pick Hi Hx. lia.
Qed.

Lemma last_fresh am pre ai : named N am -> incr_aof_list am = pre ++ [ai] ->
  file_name ai = incr_name f (curr_incr_file_seq am) /\ file_seq ai = curr_incr_file_seq am /\
  file_name ai ∉ names (option_list (base_aof_info am) ++ pre).
Proof using HN.
  intros Hn E. pose proof Hn as [Hb Hi (l & Hl & _ & Hl2) _ Hcb Hci]. rewrite E in *. rewrite (Hl2 ltac:(by destruct pre)) in Hl.
  apply increasing_snoc in Hl as [(k & Hk & Hlt) Ec]. apply increasing_in in Hk as [? Hk].
  apply Forall_app in Hi as [Hi Hai]. apply Forall_singleton in Hai as [Ea _]. rewrite Ec, Ea. split; [done|]. split; [done|].
  unfold names. rewrite map_app, elem_of_app. intros [H'|H'].
  - destruct Hb as [[E' _]|(b & E' & ?)]; rewrite E' in H'; [by apply elem_of_nil in H'|]. apply list_elem_of_singleton in H'.
    cbn [file_name] in H'. symmetry in H'. revert H'. apply base_incr; lia.
  - apply list_elem_of_fmap in H' as (x & E' & Hx). pick Hk Hx. pick Hi Hx. destruct Hi as [Ex _].
    rewrite Ex in E'. apply incr_name_inj in E'; lia.
Qed.

(** What the loader makes of a manifest that was written. *)
Definition reloaded (am : aofManifest) : aofManifest :=
  Manifest (base_aof_info am) (incr_aof_list am) (history_aof_list am) (curr_base_file_seq am) (last_seq (incr_aof_list am)) false.

Lemma reload am : named N am -> base_aof_info am <> None ->
  aofLoadManifestFromFile (getAofManifestAsString am) = Ret (inr (reloaded am)).
Proof using Hf HN.
  intros Hn Hb. change (getAofManifestAsString am) with (getAofManifestAsString (reloaded am)).
  change (Ret (inr (reloaded am))) with (@Ret (loaderr + aofManifest) (inr (set_dirty (reloaded am) false))). apply load_string.
  - pose proof Hn as [Hbase Hi (l & Hl & Hle & _) Hh Hcb Hci]. split; cbn.
    + destruct Hbase as [[? _]|(b & -> & ?)]; [done|]. split; [apply base_info; [done|lia]|done].
    + rewrite Forall_forall in Hh. apply Forall_forall. intros ai Ha. destruct (Hh ai Ha) as (Et & Hs & Hk). destruct ai as [n s t].
      cbn in *. subst t. destruct Hk as [((b & ->) & ?)|(-> & ? & _)]; [apply base_info|apply incr_info]; try done; lia.
    + rewrite Forall_forall in Hi. apply Forall_forall. intros ai Ha. destruct (Hi ai Ha) as [En Et]. apply increasing_in in Hl as [_ Hl].
      pick Hl Ha. destruct ai as [n s t]. cbn in *. subst. apply incr_info; [done|lia].
    + by rewrite <- (increasing_last _ _ Hl).
  - unfold is_empty, reloaded. cbn. by destruct (base_aof_info am).
Qed.
End Manifest.


(** ** The changes of a manifest *)

Section Changes.
Context (f : list Z) (N : Z) (HN : N < 2 ^ 62).
Implicit Types am : aofManifest.

Lemma named_mono N' am : named f N am -> N <= N' -> named f N' am.
Proof using. intros [? ? ? ? ? ?] H. split; try done; lia. Qed.

Lemma named_dirty am d : named f N am -> named f N (set_dirty am d).
Proof using. intros [[[E ->]|?] ? ? ? ? ?]; split; cbn in *; try done; by (left + right). Qed.

Lemma named_no_hist am d : named f N am ->
  named f N (Manifest (base_aof_info am) (incr_aof_list am) [] (curr_base_file_seq am) (curr_incr_file_seq am) d).
Proof using. intros [[[E ->]|?] ? ? ? ? ?]; split; cbn in *; try done; by (left + right). Qed.

Lemma named_incr am : named f N am -> base_aof_info am <> None -> named f (N + 1) (snd (getNewIncrAofName f am)).
Proof using.
  intros [Hb Hi (l & Hl & Hle & _) Hh Hcb Hci] Hne. cbn. split; cbn; try lia.
  - destruct Hb as [[? _]|?]; [done|by right].
  - apply Forall_app. split; [done|]. by apply Forall_singleton.
  - exists (curr_incr_file_seq am + 1). split; [|split; [lia|done]]. apply increasing_snoc. cbn. split; [|done]. exists l. split; [done|lia].
  - eapply Forall_impl; [exact Hh|]. intros ai (? & ? & [?|(? & ? & ?)]); repeat split; try done; [by left|right]. split_and!; [done|lia|].
    apply Forall_app. split; [done|]. apply Forall_singleton. cbn. lia.
Qed.

Lemma named_base b am : named f N am -> named f (N + 1) (snd (getNewBaseFileNameAndMarkPreAsHistory f b am)).
Proof using.
  intros [Hb Hi Hs Hh Hcb Hci]. cbn. split; cbn; try lia.
  - right. exists b. split; [done|lia].
  - done.
  - done.
  - assert (Forall (hist_ok f (curr_base_file_seq am + 1) (curr_incr_file_seq am) (incr_aof_list am)) (history_aof_list am)) as Hh'.
    { eapply Forall_impl; [exact Hh|]. intros ai (? & ? & [[? ?]|?]); repeat split; try done; [left|by right]. split; [done|lia]. }
    destruct Hb as [[-> _]|(b' & -> & ?)]; [done|]. constructor; [|done]. cbn. split_and!; try done. left. cbn. split; [by exists b'|lia].
Qed.

Lemma snoc_length {A} (l : list A) x : Nat.eqb (length (l ++ [x])) 0 = false.
Proof using. apply Nat.eqb_neq. rewrite length_app. simpl. lia. Qed.

Lemma drop_all_but_last {A} (l : list A) x : drop (length (l ++ [x]) - 1) (l ++ [x]) = [x] /\ take (length (l ++ [x]) - 1) (l ++ [x]) = l.
Proof using. rewrite length_app. simpl. rewrite Nat.add_sub. by rewrite drop_app_length, take_app_length. Qed.

Lemma named_mark open am : named f N am -> base_aof_info am <> None -> named f N (markRewrittenIncrAofAsHistory open am).
Proof using.
  intros Hn Hne. pose proof Hn as [Hb Hi (m & Hm & Hle & Hc) Hh Hcb Hci]. unfold markRewrittenIncrAofAsHistory.
  destruct (incr_aof_list am) as [|x l _] eqn:E using rev_ind; [done|].
  rewrite snoc_length. cbv zeta.
  apply increasing_snoc in Hm as [(k & Hk & Hlt) ->]. specialize (Hc ltac:(by destruct l)).
  assert (Forall (fun ai => file_seq ai < file_seq x) l) as Hsm.
  { apply increasing_in in Hk as [_ Hk]. eapply Forall_impl; [exact Hk|]. cbn. lia. }
  assert (0 < file_seq x) by (apply increasing_in in Hk as [? _]; lia).
  destruct (drop_all_but_last l x) as [Ed Et]. destruct open.
  - rewrite Ed, Et. split; cbn; try done.
    + destruct Hb as [[? _]|?]; [done|by right].
    + by apply Forall_app in Hi as [_ Hi].
    + exists (file_seq x). split_and!; [done|done|done|by intros _].
    + apply Forall_app. split.
      * apply Forall_forall. intros ai Ha. apply list_elem_of_fmap in Ha as (y & -> & Hy). pick Hsm Hy.
        apply Forall_app in Hi as [Hi _]. pick Hi Hy. destruct Hi as [En _]. apply increasing_in in Hk as [_ Hk]. pick Hk Hy.
        split; [done|]. cbn. split; [lia|]. right. split_and!; [done|lia|by apply Forall_singleton].
      * eapply Forall_impl; [exact Hh|]. intros ai (? & ? & [?|(? & ? & Hx)]); repeat split; try done; [by left|right].
        split_and!; try done. by apply Forall_app in Hx as [_ ?].
  - rewrite drop_all, firstn_all. split; cbn; try done.
    + destruct Hb as [[? _]|?]; [done|by right].
    + exists 0. split_and!; [done|lia|done].
    + apply Forall_app. split.
      * apply Forall_forall. intros ai Ha. apply list_elem_of_fmap in Ha as (y & -> & Hy). pick Hi Hy. destruct Hi as [En _].
        assert (0 < file_seq y <= curr_incr_file_seq am).
        { rewrite <- Hc. apply elem_of_app in Hy as [Hy|Hy%list_elem_of_singleton]; [|subst; lia]. apply increasing_in in Hk as [_ Hk].
          pick Hk Hy. lia. }
        split; [done|]. cbn. split; [lia|]. right. split_and!; [done|lia|done].
      * eapply Forall_impl; [exact Hh|]. intros ai (? & ? & [?|(? & ? & Hx)]); repeat split; try done; [by left|right]. by split_and!.
Qed.

Lemma mark_incr open am pre ai : incr_aof_list am = pre ++ [ai] -> incr_aof_list (markRewrittenIncrAofAsHistory open am) = (if open then [ai] else []).
Proof using.
  intros E. unfold markRewrittenIncrAofAsHistory. rewrite E, snoc_length. cbv zeta.
  destruct (drop_all_but_last pre ai) as [Ed _]. destruct open; cbn; [done|by rewrite drop_all].
Qed.
End Changes.


(** ** The disk *)

Section Disk.
Context {D C : Type} (apply : D -> C -> D) (e : D) (f : list Z) (Hf : plain_name f).
Implicit Types (d : @disk D C) (w : @world D C) (am : aofManifest).

Definition with_hist am (h : list aofInfo) : aofManifest :=
  Manifest (base_aof_info am) (incr_aof_list am) h (curr_base_file_seq am) (curr_incr_file_seq am) false.

(** The manifest on disk is that of [am], with the history files [h]. *)
Record dinv (N : Z) d am (h : list aofInfo) : Prop := {
  di_named : named f N (with_hist am h);
  di_file : manifest_file d = match base_aof_info am with None => None | Some _ => Some (getAofManifestAsString (with_hist am h)) end;
  di_plain : forall ai x, ai ∈ incr_aof_list am -> files d !! file_name ai = Some x -> snapshot x = None;
}.

(** [d] has a manifest of [am]'s files, and these as [d0] has them. *)
Definition still (N : Z) am d0 d : Prop :=
  (exists h, dinv N d am h) /\ forall n, n ∈ names (live am) -> files d !! n = files d0 !! n.

Definition sees (Q : @disk D C -> Prop) w w' : Prop := exists l, seen w' = seen w ++ l /\ Forall Q l.

Lemma sees_refl Q w : sees Q w w.
Proof using. exists []. by rewrite app_nil_r. Qed.

Lemma sees_none Q w w' : seen w' = seen w -> sees Q w w'.
Proof using. intros E. exists []. by rewrite app_nil_r. Qed.

Lemma sees_trans Q w1 w2 w3 : sees Q w1 w2 -> sees Q w2 w3 -> sees Q w1 w3.
Proof using. intros (l1 & E1 & H1) (l2 & E2 & H2). exists (l1 ++ l2). rewrite E2, E1, app_assoc. split; [done|]. by apply Forall_app. Qed.

Lemma sees_impl (Q R : @disk D C -> Prop) w w' : (forall d, Q d -> R d) -> sees Q w w' -> sees R w w'.
Proof using. intros H (l & E & Hl). exists l. split; [done|]. by eapply Forall_impl. Qed.

Lemma in_live am ai : ai ∈ incr_aof_list am -> file_name ai ∈ names (live am).
Proof using. intros H. apply list_elem_of_fmap. exists ai. split; [done|]. unfold live. apply elem_of_app. by right. Qed.

Lemma dinv_change N d am h fs : dinv N d am h -> (forall n, n ∈ names (live am) -> fs !! n = files d !! n) ->
  dinv N (Disk fs (manifest_file d)) am h.
Proof using.
  intros [Hn Hm Hp] H. split; [done|done|]. cbn. intros ai x Ha E. apply (Hp ai x Ha). rewrite <- E. symmetry. by apply H, in_live.
Qed.

Lemma dinv_mono N N' d am h : dinv N d am h -> N <= N' -> dinv N' d am h.
Proof using. intros [Hn Hm Hp] H. split; try done. by eapply named_mono. Qed.

Lemma still_change N am d0 d fs : still N am d0 d -> (forall n, n ∈ names (live am) -> fs !! n = files d !! n) ->
  still N am d0 (Disk fs (manifest_file d)).
Proof using.
  intros [[h Hd] Hs] H. split; [exists h; by apply dinv_change|]. intros n Hn. cbn. rewrite (H n Hn). by apply Hs.
Qed.

Lemma still_refl N am d h : dinv N d am h -> still N am d d.
Proof using. intros H. split; [by exists h|done]. Qed.

Lemma still_mono N N' am d0 d : still N am d0 d -> N <= N' -> still N' am d0 d.
Proof using. intros [[h H] Hs] Hle. split; [exists h; by eapply dinv_mono|done]. Qed.

Lemma still_insert N am d0 d n x : still N am d0 d -> n ∉ names (live am) -> still N am d0 (Disk (<[n := x]> (files d)) (manifest_file d)).
Proof using. intros H Hn. apply still_change; [done|]. intros m Hm. rewrite lookup_insert_ne; [done|]. by intros ->. Qed.

Lemma still_delete N am d0 d n : still N am d0 d -> n ∉ names (live am) -> still N am d0 (Disk (delete n (files d)) (manifest_file d)).
Proof using. intros H Hn. apply still_change; [done|]. intros m Hm. rewrite lookup_delete_ne; [done|]. by intros ->. Qed.

Lemma still_ins N am d0 fs m n x : still N am d0 (Disk fs m) -> n ∉ names (live am) -> still N am d0 (Disk (<[n := x]> fs) m).
Proof using. apply (still_insert N am d0 (Disk fs m)). Qed.

Lemma still_del N am d0 fs m n : still N am d0 (Disk fs m) -> n ∉ names (live am) -> still N am d0 (Disk (delete n fs) m).
Proof using. apply (still_delete N am d0 (Disk fs m)). Qed.

(** A manifest that has just been written. *)
Lemma dinv_written N fs am : named f N am -> base_aof_info am <> None ->
  (forall ai x, ai ∈ incr_aof_list am -> fs !! file_name ai = Some x -> snapshot x = None) ->
  dinv N (Disk fs (Some (getAofManifestAsString am))) am (history_aof_list am).
Proof using.
  intros Hn Hb Hp. split; [apply (named_dirty f N am false Hn)| |done].
  assert (forall x : list Z, match base_aof_info am with None => None | Some _ => Some x end = Some x) as -> by (by destruct (base_aof_info am)).
  done.
Qed.

Lemma load_names_ext fs fs' l x : (forall n, n ∈ l -> fs' !! n = fs !! n) -> load_names apply fs' l x = load_names apply fs l x.
Proof using.
  revert x. induction l as [|n l IH]; intros x H; cbn [load_names]; [done|]. rewrite H by (by left).
  destruct (fs !! n); [|done]. apply IH. intros m Hm. apply H. by right.
Qed.

Lemma load_names_app fs l l' x : load_names apply fs (l ++ l') x =
  match load_names apply fs l x with Some y => load_names apply fs l' y | None => None end.
Proof using. revert x. induction l as [|n l IH]; intros x; cbn [load_names app]; [done|]. by destruct (fs !! n). Qed.

Context (N : Z) (HN : N < 2 ^ 62).

Lemma load_manifest d am h : dinv N d am h ->
  aofLoadManifestFromDisk d = Some (match base_aof_info am with None => aofManifestCreate | Some _ => reloaded (with_hist am h) end).
Proof using Hf HN.
  intros [Hn Hm _]. unfold aofLoadManifestFromDisk. rewrite Hm. destruct (base_aof_info am) as [b|] eqn:E; [|done].
  rewrite (reload f Hf N HN); [done|done|cbn; by rewrite E].
Qed.

Lemma recover_live d am h r : dinv N d am h -> base_aof_info am <> None ->
  load_names apply (files d) (names (live am)) e = Some r -> recover apply e d = AOF_OK r.
Proof using Hf HN.
  intros Hd Hb Hl. unfold recover. rewrite (load_manifest d am h Hd). destruct (base_aof_info am) as [b|] eqn:E; [|done].
  unfold loadAppendOnlyFiles, reloaded, with_hist. cbn. rewrite E. unfold names, live in Hl. rewrite E in Hl. cbn in Hl. cbn. by rewrite Hl.
Qed.

Lemma lose_other n m (fd : option fdesc) : fd = Some (Named m) -> m <> n -> lose n fd = fd.
Proof using. intros -> H. unfold lose. by rewrite bool_decide_false. Qed.

(** History files are unlinked. *)
Lemma unlinks_spec am d0 l : (forall ai, ai ∈ l -> file_name ai ∉ names (live am)) -> forall w, still N am d0 (dsk w) ->
  let w' := fold_left (fun w ai => fs_unlink (file_name ai) w) l w in
  still N am d0 (dsk w') /\ sees (still N am d0) w w' /\ (exists fd', srv w' = set_fd (srv w) fd') /\
  (forall n, n ∈ names (live am) -> aof_fd (srv w) = Some (Named n) -> aof_fd (srv w') = Some (Named n)).
Proof using.
  induction l as [|ai l IH]; intros Hl w Hs; cbn [fold_left]; cbv zeta.
  - split_and!; [done|apply sees_refl|exists (aof_fd (srv w)); by destruct w as [[] ? ?]|done].
  - set (w1 := fs_unlink (file_name ai) w).
    assert (still N am d0 (dsk w1)) as Hs1 by (apply still_delete; [done|apply Hl; by left]).
    destruct (IH (fun x Hx => Hl x (list_elem_of_further _ _ _ Hx)) w1 Hs1) as (H1 & H2 & (fd' & H3) & H4). split_and!; [done| | |].
    + eapply sees_trans; [|exact H2]. exists [dsk w1]. split; [done|]. by apply Forall_singleton.
    + exists fd'. rewrite H3. done.
    + intros n Hn E. apply H4; [done|]. cbn. rewrite (lose_other _ n); [done|done|]. intros ->. by apply (Hl ai ltac:(by left)).
Qed.
End Disk.


(** ** The invariant *)

Section Inv.
Context {D C : Type} (apply : D -> C -> D) (e : D) (f : list Z) (Hf : plain_name f).
Implicit Types (d : @disk D C) (w : @world D C) (s : @server D C) (am : aofManifest).
Abbreviation dinv := (dinv f).
Abbreviation still := (still f).
Abbreviation temp := (getTempIncrAofName f).

(** The log is on: the last file is open, and the files of the manifest with the
    buffer make the dataset; so do the child's dataset and the last file. *)
Definition on_ok am (fs : gmap (list Z) (@content D C)) (fd : option fdesc) (buf : list C) (x : D) (ch : option D) : Prop :=
  exists pre ai cs r, base_aof_info am <> None /\ incr_aof_list am = pre ++ [ai] /\ fd = Some (Named (file_name ai)) /\
    fs !! file_name ai = Some (Content None cs) /\
    load_names apply fs (names (option_list (base_aof_info am) ++ pre)) e = Some r /\
    replay apply r (cs ++ buf) = x /\ (forall y, ch = Some y -> replay apply y (cs ++ buf) = x).

(** The log waits for a rewrite: the temporary file has the commands since the fork. *)
Definition wait_ok (fs : gmap (list Z) (@content D C)) (fd : option fdesc) (buf : list C) (x : D) (ch : option D) : Prop :=
  match ch with
  | None => buf = []
  | Some y => exists cs, fd = Some (Named temp) /\ fs !! temp = Some (Content None cs) /\ replay apply y (cs ++ buf) = x
  end.

Definition state_ok s (fs : gmap (list Z) (@content D C)) : Prop :=
  match aof_state s with
  | AOF_ON => on_ok (aof_manifest s) fs (aof_fd s) (aof_buf s) (db s) (child s)
  | AOF_WAIT_REWRITE => wait_ok fs (aof_fd s) (aof_buf s) (db s) (child s)
  | AOF_OFF => aof_buf s = []
  end.

Record core (N : Z) w : Prop := {
  co_named : named f N (aof_manifest (srv w));
  co_disk : exists h, dinv N (dsk w) (aof_manifest (srv w)) h;
  co_state : state_ok (srv w) (files (dsk w));
}.

Definition fine (N : Z) d : Prop := exists am h, dinv N d am h.
(** [d] loads as [x] less the commands [buf], and the server starts on it so. *)
Definition holds d (x : D) (buf : list C) : Prop :=
  exists r, recover apply e d = AOF_OK r /\ replay apply r buf = x /\
    forall pre p gcd gcp rdb, exists w', startup apply e f true pre p gcd gcp rdb d = Some w' /\ db (srv w') = r.

Lemma fine_still N am d0 d : still N am d0 d -> fine N d.
Proof using. intros [[h H] _]. by exists am, h. Qed.

Lemma fine_mono N N' d : fine N d -> N <= N' -> fine N' d.
Proof using. intros (am & h & H) Hle. exists am, h. by eapply dinv_mono. Qed.

Lemma named_live_split am pre ai : incr_aof_list am = pre ++ [ai] ->
  names (live am) = names (option_list (base_aof_info am) ++ pre) ++ [file_name ai].
Proof using. intros E. unfold names, live. rewrite E, app_assoc, map_app. done. Qed.

Lemma on_load am fs fd buf x ch : on_ok am fs fd buf x ch -> base_aof_info am <> None /\
  exists r, load_names apply fs (names (live am)) e = Some r /\ replay apply r buf = x.
Proof using.
  intros (pre & ai & cs & r & Hb & Hi & _ & Hc & Hl & Hr & _). split; [done|]. exists (replay apply r cs).
  rewrite (named_live_split am pre ai Hi), load_names_app, Hl. cbn. rewrite Hc. unfold load_content. cbn.
  split; [done|]. unfold replay in *. by rewrite <- fold_left_app.
Qed.

Lemma dinv_same N d am am' h : with_hist am [] = with_hist am' [] -> dinv N d am h -> dinv N d am' h.
Proof using.
  destruct am, am'. unfold with_hist. cbn. intros [= -> -> -> ->] [H1 H2 H3]. by split.
Qed.

Lemma still_same N am am' d0 d : with_hist am [] = with_hist am' [] -> still N am d0 d -> still N am' d0 d.
Proof using.
  intros E [[h H] Hs]. split; [exists h; by eapply dinv_same|]. destruct am, am'. unfold with_hist in E. cbn in E. by injection E as -> -> -> ->.
Qed.

Lemma on_same am am' fs fs' fd buf x ch : with_hist am [] = with_hist am' [] -> (forall n, n ∈ names (live am) -> fs' !! n = fs !! n) ->
  on_ok am fs fd buf x ch -> on_ok am' fs' fd buf x ch.
Proof using.
  intros E Hs (pre & ai & cs & r & Hb & Hi & Hfd & Hc & Hl & Hr & Hch). exists pre, ai, cs, r.
  assert (base_aof_info am' = base_aof_info am /\ incr_aof_list am' = incr_aof_list am) as [-> ->].
  { destruct am, am'. unfold with_hist in E. cbn in *. by injection E as -> -> -> ->. }
  rewrite (named_live_split am pre ai Hi) in Hs. split_and!; try done.
  - rewrite Hs by (apply elem_of_app; right; by apply list_elem_of_singleton). done.
  - rewrite (load_names_ext _ fs); [done|]. intros n Hn. apply Hs. apply elem_of_app. by left.
Qed.

Lemma persist_dirty p am w : dirty am = true -> persistAofManifest p am w =
  let d := Disk (files (dsk w)) (Some (getAofManifestAsString am)) in
  let w' := World (srv w) d (seen w ++ [d]) in
  match p with PersistOk => (w', set_dirty am false, true) | FailBefore => (w, am, false) | FailAfter => (w', am, false) end.
Proof using. intros E. unfold persistAofManifest. rewrite E. by destruct p. Qed.

Lemma del_history_db gcd p w : db (srv (aofDelHistoryFiles gcd p w)) = db (srv w).
Proof using.
  unfold aofDelHistoryFiles. destruct (_ || _); [done|]. rewrite persist_dirty by done. set (l := history_aof_list _).
  assert (forall w, db (srv (fold_left (fun w ai => fs_unlink (file_name ai) w) l w)) = db (srv w)) as E.
  { induction l as [|ai l IH]; intros w1; cbn [fold_left]; [done|]. by rewrite IH. }
  destruct p; cbn; apply E.
Qed.

(** A start on a manifest with an incremental file changes nothing in it. *)
Lemma startup_live N d am h r : N < 2 ^ 62 -> dinv N d am h -> base_aof_info am <> None -> incr_aof_list am <> [] ->
  load_names apply (files d) (names (live am)) e = Some r ->
  forall pre p gcd gcp rdb, exists w', startup apply e f true pre p gcd gcp rdb d = Some w' /\ db (srv w') = r.
Proof using Hf.
  intros HN Hd Hb Hi Hl pre p gcd gcp rdb. unfold startup. rewrite (load_manifest f Hf N HN d am h Hd).
  pose proof Hd as [Hn _ _]. destruct (base_aof_info am) as [b|] eqn:E; [|done].
  destruct (incr_aof_list am) as [|ai l _] eqn:Ei using rev_ind; [done|].
  assert (exists am', reloaded (with_hist am h) = am' /\ base_aof_info am' = Some b /\ incr_aof_list am' = l ++ [ai] /\ dirty am' = false /\
    named f N am') as (am' & -> & Eb' & Ei' & Ed' & Hn').
  { eexists. split; [done|]. cbn. rewrite E, Ei. split_and!; try done. destruct Hn as [H1 H2 (m & Hm & Hle & Hc) H4 H5 H6]. cbn in *. rewrite Ei in *.
    specialize (Hc ltac:(by destruct l)). apply increasing_last in Hm as Em. unfold reloaded. cbn. rewrite Ei.
    split; cbn; rewrite <- ?Em, ?Hc; try done; [|by exists m; subst].
    destruct H1 as [[? _]|?]; [congruence|by right]. }
  assert (loadAppendOnlyFiles apply e am' d = AOF_OK r) as El.
  { unfold loadAppendOnlyFiles. rewrite Eb', Ei'. unfold names, live in Hl. rewrite E, Ei in Hl. cbn in *. by rewrite Hl. }
  unfold loadDataFromDisk. rewrite El. unfold aofOpenIfNeededOnServerStart. cbn. rewrite Eb'. cbn.
  unfold getLastIncrAofName. rewrite Ei', last_snoc. cbn. unfold fs_append. cbn.
  assert (exists x, files d !! file_name ai = Some x) as [x Hx].
  { unfold names, live in Hl. rewrite E, Ei, map_app, map_app, app_assoc, load_names_app in Hl.
    destruct (load_names apply (files d) _ e) as [y|]; [|done]. cbn in Hl. destruct (files d !! file_name ai) as [x|]; [by exists x|done]. }
  rewrite Hx. cbn. unfold persistAofManifest. rewrite Ed'. cbn.
  eexists. split; [done|]. by rewrite del_history_db.
Qed.

Lemma still_holds N am d0 d fd buf x ch : N < 2 ^ 62 -> still N am d0 d -> on_ok am (files d0) fd buf x ch -> holds d x buf.
Proof using Hf.
  intros HN [[h Hd] Hs] Hon. destruct (on_load _ _ _ _ _ _ Hon) as (Hb & r & Hl & Hr). assert (load_names apply (files d) (names (live am)) e = Some r) as Hl' by (by rewrite (load_names_ext _ (files d0))).
  exists r. split_and!; [|done|].
  2: { apply (startup_live N d am h); try done. destruct Hon as (pre & ai & ? & ? & _ & -> & _). by destruct pre. }
  apply (recover_live apply e f Hf N HN d am h); done.
Qed.

Lemma del_history_spec N am d0 gcd p w : N < 2 ^ 62 -> am = aof_manifest (srv w) -> named f N am -> still N am d0 (dsk w) ->
  let w' := aofDelHistoryFiles gcd p w in
  exists fd' am', srv w' = set_manifest (set_fd (srv w) fd') am' /\ named f N am' /\ with_hist am [] = with_hist am' [] /\
    still N am d0 (dsk w') /\ sees (still N am d0) w w' /\
    (forall n, n ∈ names (live am) -> aof_fd (srv w) = Some (Named n) -> fd' = Some (Named n)).
Proof using.
  intros HN Ea Hn Hs. unfold aofDelHistoryFiles. rewrite <- Ea. cbv zeta.
  destruct (gcd || _) eqn:Eg.
  { exists (aof_fd (srv w)), am. split_and!; try done; [subst am; by destruct w as [[] ? ?]|apply sees_refl]. }
  apply orb_false_iff in Eg as [_ Eg]. apply Nat.eqb_neq in Eg.
  assert (base_aof_info am <> None) as Hb.
  { intros E. destruct (nm_base _ _ _ Hn) as [[_ E']|(b & E' & _)]; [rewrite E' in Eg; done|congruence]. }
  destruct (unlinks_spec f N am d0 (history_aof_list am) (fun ai => hist_fresh f N HN am ai Hn) w Hs) as (H1 & H2 & (fd' & H3) & H4).
  set (w1 := fold_left _ _ w) in *. clearbody w1.
  rewrite persist_dirty by done. set (am3 := Manifest _ _ [] _ _ true).
  assert (still N am d0 (Disk (files (dsk w1)) (Some (getAofManifestAsString am3)))) as Hw.
  { destruct H1 as [[h Hd] Hl]. split; [|done]. exists []. apply (dinv_same N _ am3 am []); [done|].
    apply (dinv_written f N (files (dsk w1)) am3); [by apply named_no_hist|done|]. apply (di_plain _ _ _ _ _ Hd). }
  assert (forall n, n ∈ names (live am) -> aof_fd (srv w) = Some (Named n) -> fd' = Some (Named n)) as Hfd.
  { intros n Hin E. specialize (H4 n Hin E). by rewrite H3 in H4. }
  destruct p; cbn.
  - exists fd', (set_dirty am3 false). rewrite H3. split_and!; try done; [apply named_dirty; by apply named_no_hist|].
    eapply sees_trans; [exact H2|]. eexists. split; [done|]. by apply Forall_singleton.
  - exists fd', am3. rewrite H3. split_and!; try done. by apply named_no_hist.
  - exists fd', am3. rewrite H3. split_and!; try done; [by apply named_no_hist|].
    eapply sees_trans; [exact H2|]. eexists. split; [done|]. by apply Forall_singleton.
Qed.

(** Flushing moves commands from the buffer to the open file. *)
Lemma aof_flush_spec N k w : N < 2 ^ 62 -> core N w ->
  let w' := flushAppendOnlyFile k w in
  core N w' /\ srv w' = set_aof_buf (srv w) (drop k (aof_buf (srv w))) /\ sees (fine N) w w' /\
  (aof_state (srv w) = AOF_ON -> sees (fun d => holds d (db (srv w')) (aof_buf (srv w'))) w w').
Proof using Hf.
  intros HN Hc. pose proof Hc as [Hn [h Hd] Hst]. unfold flushAppendOnlyFile. cbv zeta.
  destruct (aof_buf (srv w)) as [|c buf] eqn:Eb.
  { rewrite drop_nil. split_and!; [done|destruct w as [[] ? ?]; cbn in *; by subst|apply sees_refl|intros _; apply sees_refl]. }
  set (b := c :: buf) in *. destruct w as [[st fd am bf x ch] dk sn]. cbn in *. subst bf. unfold state_ok in Hst. cbn in Hst.
  destruct st.
  - done.
  - destruct ch as [y|]; [|done]. destruct Hst as (cs & -> & Hx & Hr). unfold fs_write. cbn. rewrite Hx. cbn.
    assert (still N am dk (Disk (<[temp := Content None (cs ++ take k b)]> (files dk)) (manifest_file dk))) as Hs.
    { apply still_insert; [by eapply still_refl|by eapply temp_fresh]. }
    split_and!; [|done| |done].
    + split; cbn; [done|apply Hs|]. unfold state_ok. cbn. exists (cs ++ take k b). split_and!; [done|by rewrite lookup_insert_eq|].
      by rewrite <- app_assoc, take_drop.
    + eexists. split; [done|]. apply Forall_singleton. by eapply fine_still.
  - pose proof Hst as (pre & ai & cs & r & Hb & Hi & -> & Hx & Hl & Hr & Hch). unfold fs_write. cbn. rewrite Hx. cbn.
    destruct (last_fresh f N HN am pre ai Hn Hi) as (_ & _ & Hfresh). fold b.
    set (fs := <[file_name ai := Content None (cs ++ take k b)]> (files dk)).
    assert (on_ok am fs (Some (Named (file_name ai))) (drop k b) x ch) as Hon.
    { exists pre, ai, (cs ++ take k b), r. rewrite <- app_assoc, take_drop. split_and!; try done.
      - unfold fs. by rewrite lookup_insert_eq.
      - rewrite (load_names_ext _ (files dk)); [done|]. intros n Hin. unfold fs. rewrite lookup_insert_ne; [done|]. by intros <-. }
    assert (dinv N (Disk fs (manifest_file dk)) am h) as Hd'.
    { destruct Hd as [H1 H2 H3]. split; [done|done|]. cbn. intros a z Ha E. unfold fs in E. destruct (decide (file_name a = file_name ai)) as [E'|].
      - rewrite E', lookup_insert_eq in E. by injection E as <-.
      - rewrite lookup_insert_ne in E by done. by apply (H3 a z). }
    split_and!; [|done| |].
    + split; cbn; [done|by exists h|exact Hon].
    + eexists. split; [done|]. apply Forall_singleton. by exists am, h.
    + intros _. eexists. split; [done|]. apply Forall_singleton.
      apply (still_holds N am (Disk fs (manifest_file dk)) _ _ _ _ _ HN (still_refl f N am _ h Hd') Hon).
Qed.
End Inv.


(** ** The operations *)

Section Ops.
Context {D C : Type} (apply : D -> C -> D) (e : D) (f : list Z) (Hf : plain_name f).
Implicit Types (d : @disk D C) (w : @world D C) (s : @server D C) (am : aofManifest).
Abbreviation dinv := (dinv f).
Abbreviation still := (still f).
Abbreviation temp := (getTempIncrAofName f).
Abbreviation core := (core apply e f).
Abbreviation fine := (@fine D C f).
Abbreviation holds := (holds apply e f).
Abbreviation on_ok := (on_ok apply e).

Lemma core_mono N N' w : core N w -> N <= N' -> core N' w.
Proof using. intros [H1 [h H2] H3] Hle. split; [by eapply named_mono|exists h; by eapply dinv_mono|done]. Qed.

(** What an operation is proved to do. *)
Record good_step (N : Z) w w' : Prop := {
  gs_core : core N w';
  gs_fine : sees (fine N) w w';
  gs_holds : aof_state (srv w) = AOF_ON -> aof_state (srv w') = AOF_ON ->
    sees (fun d => holds d (db (srv w)) (aof_buf (srv w)) \/ holds d (db (srv w')) (aof_buf (srv w'))) w w';
}.

Lemma exec_step N c w : core N w -> good_step N w (feedAppendOnlyFile apply c w).
Proof using.
  intros [Hn Hd Hst]. split; [|by apply sees_none|intros _ _; by apply sees_none].
  destruct w as [[st fd am buf x ch] dk sn]. split; cbn in *; [done|done|]. unfold state_ok in *. cbn in *. destruct st; [done| |].
  - destruct ch as [y|]; [|done]. destruct Hst as (cs & -> & Hx & Hr). exists cs. split_and!; [done|done|].
    unfold replay in *. by rewrite app_assoc, fold_left_app, Hr.
  - destruct Hst as (pre & ai & cs & r & Hb & Hi & Hfd & Hx & Hl & Hr & Hch). exists pre, ai, cs, r. split_and!; try done.
    + unfold replay in *. by rewrite app_assoc, fold_left_app, Hr.
    + intros y E. unfold replay in *. by rewrite app_assoc, fold_left_app, (Hch y E).
Qed.

Lemma flush_step N k w : N < 2 ^ 62 -> core N w -> good_step N w (flushAppendOnlyFile k w).
Proof using Hf.
  intros HN Hc. destruct (aof_flush_spec apply e f Hf N k w HN Hc) as (H1 & H2 & H3 & H4). split; [done|done|].
  intros Hon _. eapply sees_impl; [|by apply H4]. intros d Hd. by right.
Qed.

(** A new incremental file while the log is on, with nothing in the buffer. *)
Lemma open_on N o p w ch : N + 1 < 2 ^ 62 -> core N w -> aof_state (srv w) = AOF_ON -> aof_buf (srv w) = [] -> child (srv w) = None ->
  p <> FailAfter -> (forall y, ch = Some y -> y = db (srv w)) ->
  let '(w', ok) := openNewIncrAofForAppend f o p w in
  core (N + 1) (if ok then set_srv w' (set_child (srv w') ch) else w') /\
  aof_state (srv w') = AOF_ON /\ aof_buf (srv w') = [] /\ db (srv w') = db (srv w) /\ child (srv w') = None /\
  sees (fun d => fine (N + 1) d /\ holds d (db (srv w)) []) w w'.
Proof using Hf.
  intros HN Hc Hst Hbuf Hchild Hp Hch. pose proof Hc as [Hn [h Hd] Hon]. destruct w as [[st fd am buf x c0] dk sn]. cbn in *. subst.
  unfold state_ok in Hon. cbn in Hon. unfold openNewIncrAofForAppend. cbn [aof_state srv aof_manifest].
  destruct o; cbn [negb]; [|split_and!; try done; [eapply core_mono; [done|lia]|apply sees_refl]].
  destruct (getNewIncrAofName f am) as [name am2] eqn:E2. assert (name = incr_name f (curr_incr_file_seq am + 1)) as Ename by (by injection E2).
  assert (am2 = snd (getNewIncrAofName f am)) as Eam2 by (by rewrite E2).
  pose proof (new_incr_fresh f N ltac:(lia) am Hn) as Hfresh. rewrite <- Ename in Hfresh.
  destruct (on_load _ _ _ _ _ _ _ _ Hon) as (Hb & r & Hl & Hr). cbn in Hr. subst x.
  set (fs := <[name := Content None []]> (files dk)).
  assert (still (N + 1) am dk (Disk fs (manifest_file dk))) as Hs1.
  { apply (still_mono f N); [|lia]. apply still_insert; [by eapply still_refl|done]. }
  assert (named f (N + 1) am2) as Hn2 by (rewrite Eam2; by apply named_incr).
  assert (dirty am2 = true) as Hdirty by (by subst am2).
  assert (holds (Disk fs (manifest_file dk)) r []) as Hh1 by (eapply (still_holds apply e f Hf (N + 1)); [lia|exact Hs1|exact Hon]).
  unfold fs_truncate, fs_set. cbn [srv dsk seen aof_fd files manifest_file set_fd]. fold fs. rewrite persist_dirty by done.
  assert (on_ok am2 fs (Some (Named name)) [] r ch) as Hon2.
  { exists (incr_aof_list am), (AofInfo name (curr_incr_file_seq am + 1) AOF_FILE_TYPE_INCR), [], r. subst am2. cbn. split_and!; try done.
    - by rewrite <- Ename.
    - unfold fs. by rewrite lookup_insert_eq.
    - rewrite (load_names_ext _ (files dk)); [done|]. intros n Hin. unfold fs. rewrite lookup_insert_ne; [done|]. by intros <-. }
  assert (dinv (N + 1) (Disk fs (Some (getAofManifestAsString am2))) am2 (history_aof_list am2)) as Hd2.
  { apply dinv_written; [done|by subst am2|]. subst am2. cbn. intros ai z Ha Ez. apply elem_of_app in Ha as [Ha|Ha%list_elem_of_singleton].
    - destruct Hs1 as [[h1 [_ _ Hpl]] _]. by apply (Hpl ai z Ha).
    - subst ai. cbn in Ez. rewrite <- Ename in Ez. unfold fs in Ez. rewrite lookup_insert_eq in Ez. by injection Ez as <-. }
  destruct p; [| |done]; cbn [negb].
  - split_and!; try done.
    + split; cbn; [by apply named_dirty|exists (history_aof_list am2); by apply (dinv_same f (N + 1) _ am2)|].
      unfold state_ok. cbn. by eapply (on_same _ _ am2); [..|exact Hon2].
    + eexists [_; _]. cbn. split; [by rewrite <- app_assoc|]. constructor; [|apply Forall_singleton]; split.
      * by eapply fine_still.
      * done.
      * by exists am2, (history_aof_list am2).
      * eapply (still_holds apply e f Hf (N + 1)); [lia|by eapply still_refl|exact Hon2].
  - split_and!; try done.
    + split; cbn; [eapply named_mono; [done|lia]|apply Hs1|]. unfold state_ok. cbn. eapply on_same; [done| |exact Hon].
      intros n Hin. by apply Hs1.
    + eexists [_]. cbn. split; [done|]. apply Forall_singleton. split; [by eapply fine_still|done].
Qed.

Lemma sees_seen Q w1 w1' w2 w2' : seen w1' = seen w1 -> seen w2' = seen w2 -> @sees D C Q w1 w2 -> sees Q w1' w2'.
Proof using. intros E1 E2 (l & E & H). exists l. by rewrite E1, E2. Qed.

(** Nothing happened. *)
Lemma idle_step N N' w : core N w -> N <= N' -> good_step N' w w.
Proof using. intros Hc H. split; [by eapply core_mono|apply sees_refl|intros _ _; apply sees_refl]. Qed.

Lemma flush_nothing k w : aof_buf (srv w) = [] -> flushAppendOnlyFile k w = w.
Proof using. intros E. unfold flushAppendOnlyFile. by rewrite E. Qed.

Lemma rewrite_step N o w : N + 1 < 2 ^ 62 -> core N w -> so_persist o <> FailAfter ->
  (aof_state (srv w) = AOF_ON -> (length (aof_buf (srv w)) <= so_write o)%nat) ->
  let '(w', ok) := rewriteAppendOnlyFileBackground f o w in
  good_step (N + 1) w w' /\ aof_state (srv w') = aof_state (srv w) /\
  (ok = false -> child (srv w) = None -> child (srv w') = None).
Proof using Hf.
  intros HN Hc Hp Hbuf. unfold rewriteAppendOnlyFileBackground. destruct (child (srv w)) as [y|] eqn:Ech.
  { split_and!; [|done|done]. apply (idle_step N); [done|lia]. }
  pose proof Hc as [Hn [h Hd] Hst]. unfold state_ok in Hst. destruct (aof_state (srv w)) eqn:Est.
  - rewrite flush_nothing by done. unfold openNewIncrAofForAppend. rewrite Est. cbn [negb].
    destruct (so_fork o); cbn [negb]; [|split_and!; [apply (idle_step N); [done|lia]|done|done]].
    split_and!; [|done|done]. split; [|by apply sees_none|intros H; congruence].
    split; [by eapply named_mono; [exact Hn|lia]|exists h; by eapply dinv_mono; [exact Hd|lia]|]. unfold state_ok. cbn. by rewrite Est.
  - unfold wait_ok in Hst. rewrite Ech in Hst. rewrite flush_nothing by done. unfold openNewIncrAofForAppend. rewrite Est.
    destruct (so_open o); cbn [negb]; [|split_and!; [apply (idle_step N); [done|lia]|done|done]].
    destruct w as [[st fd am buf x c0] dk sn]. cbn in *. subst. unfold fs_truncate, fs_set. cbn.
    assert (still (N + 1) am dk (Disk (<[temp := Content None []]> (files dk)) (manifest_file dk))) as Hs.
    { apply (still_mono f N); [|lia]. apply still_insert; [by eapply still_refl|by eapply temp_fresh]. }
    assert (sees (fine (N + 1)) (World (Server AOF_WAIT_REWRITE fd am [] x None) dk sn)
      (World (Server AOF_WAIT_REWRITE (Some (Named temp)) am [] x None) (Disk (<[temp := Content None []]> (files dk)) (manifest_file dk))
        (sn ++ [Disk (<[temp := Content None []]> (files dk)) (manifest_file dk)]))) as Hsee.
    { eexists. split; [done|]. apply Forall_singleton. by eapply fine_still. }
    destruct (so_fork o); cbn [negb]; (split_and!; [|done|done]); (split; [|by eapply sees_seen; [..|exact Hsee]|done]).
    + split; cbn; [eapply named_mono; [done|lia]|apply Hs|]. exists []. cbn. by rewrite lookup_insert_eq.
    + split; cbn; [eapply named_mono; [done|lia]|apply Hs|]. done.
  - destruct (aof_flush_spec apply e f Hf N (so_write o) w ltac:(lia) Hc) as (Hc1 & E1 & Hs1 & Hh1).
    specialize (Hh1 Est). rewrite (drop_ge (aof_buf (srv w))) in E1 by (by apply Hbuf).
    set (w1 := flushAppendOnlyFile (so_write o) w) in *. clearbody w1.
    pose proof (open_on N (so_open o) (so_persist o) w1 (if so_fork o then Some (db (srv w1)) else None) HN Hc1) as Ho.
    rewrite E1 in Ho. cbn in Ho. specialize (Ho Est eq_refl Ech Hp ltac:(destruct (so_fork o); congruence)).
    destruct (openNewIncrAofForAppend f (so_open o) (so_persist o) w1) as [w2 ok]. destruct Ho as (Hc2 & Es2 & Eb2 & Ed2 & Ech2 & Hs2).
    assert (db (srv w1) = db (srv w)) as Ed1 by (by rewrite E1). assert (aof_buf (srv w1) = []) as Eb1 by (by rewrite E1).
    assert (sees (fine (N + 1)) w w2) as Hfine.
    { eapply sees_trans; [eapply sees_impl; [|exact Hs1]; intros d Hd'; eapply fine_mono; [exact Hd'|lia]|].
      eapply sees_impl; [|exact Hs2]. by intros d []. }
    assert (sees (fun d => holds d (db (srv w)) []) w w2) as Hholds.
    { eapply sees_trans; [eapply sees_impl; [|exact Hh1]; intros d; by rewrite Ed1, Eb1|].
      eapply sees_impl; [|exact Hs2]. by intros d []. }
    assert (forall w', srv w' = srv w2 \/ (exists ch, srv w' = set_child (srv w2) ch) -> seen w' = seen w2 -> core (N + 1) w' -> good_step (N + 1) w w') as Hgood.
    { intros w' Es Eseen Hcore. split; [done|by eapply sees_seen; [..|exact Hfine]|]. intros _ _.
      eapply sees_seen; [done|exact Eseen|]. eapply sees_impl; [|exact Hholds]. intros d Hd'. right.
      assert (db (srv w') = db (srv w) /\ aof_buf (srv w') = []) as [-> ->] by (destruct Es as [->|[ch ->]]; cbn; by rewrite Ed2, Eb2). done. }
    assert (forall w', w' = set_srv w2 (set_child (srv w2) None) -> w' = w2) as Hno.
    { intros w' ->. destruct w2 as [[] ? ?]. cbn in *. by subst. }
    destruct ok; cbn [negb].
    + destruct (so_fork o) eqn:Ef; cbn [negb]; cbn in Hc2.
      * split_and!; [|cbn; by rewrite Es2|done]. apply Hgood; [right; by eexists|done|]. rewrite Ed2. done.
      * rewrite (Hno _ eq_refl) in Hc2. split_and!; [apply Hgood; [by left|done|done]|by rewrite Es2|done].
    + split_and!; [apply Hgood; [by left|done|done]|by rewrite Es2|done].
Qed.

(** The new manifest is on disk: history files go, and a log that waited is on. *)
Lemma install_spec N o w am2 : N < 2 ^ 62 -> named f N am2 -> dinv N (dsk w) am2 (history_aof_list am2) ->
  let w' := done_install f o am2 w in
  db (srv w') = db (srv w) /\ aof_buf (srv w') = aof_buf (srv w) /\
  (aof_state (srv w) <> AOF_OFF -> on_ok am2 (files (dsk w)) (aof_fd (srv w)) (aof_buf (srv w)) (db (srv w)) None ->
   core N w' /\ sees (fun d => fine N d /\ holds d (db (srv w)) (aof_buf (srv w))) w w') /\
  (aof_state (srv w) = AOF_OFF -> aof_buf (srv w) = [] -> core N w' /\ aof_state (srv w') = AOF_OFF /\ sees (fine N) w w').
Proof using Hf.
  intros HN Hn Hd. unfold done_install, done_cleanup. set (w1 := aofManifestFreeAndUpdate am2 w).
  destruct (del_history_spec f N am2 (dsk w) (do_disable_gc o) (do_gc_persist o) w1 HN eq_refl Hn (still_refl f N am2 _ _ Hd))
    as (fd' & am' & Es & Hn' & Ea & Hst & Hsee & Hfd). set (w2 := aofDelHistoryFiles _ _ w1) in *. clearbody w2.
  assert (exists h, dinv N (dsk w2) am' h) as Hd'.
  { destruct Hst as [[h Hd'] _]. exists h. by eapply dinv_same. }
  destruct w as [[st fd am buf x ch] dk sn]. destruct w2 as [s2 dk2 sn2]. cbn in *. subst s2. cbn.
  split_and!; [by destruct st|by destruct st| |].
  - intros Hst0 Hon. assert (on_ok am' (files dk2) fd' buf x None) as Hon'.
    { destruct (Hon) as (pre & ai & cs & r & _ & Hi & Efd & _). 
      rewrite (Hfd (file_name ai)); [rewrite <- Efd| |done].
      - eapply on_same; [exact Ea|apply Hst|exact Hon].
      - apply in_live. rewrite Hi. apply elem_of_app. right. by apply list_elem_of_singleton. }
    split.
    + destruct st; [done| |]; split; cbn; try done; exact Hon'.
    + eapply sees_seen; [done| |eapply sees_impl; [|exact Hsee]]; [by destruct st|]. intros d Hd2. split; [by eapply fine_still|].
      eapply still_holds; [exact Hf|exact HN|exact Hd2|exact Hon].
  - intros -> ->. cbn. split_and!; [by split|done|]. eapply sees_seen; [..|eapply sees_impl; [|exact Hsee]]; try done.
    intros d Hd2. by eapply fine_still.
Qed.

(** The child is gone and nothing was installed. *)
Lemma cleanup_spec N w : named f N (aof_manifest (srv w)) -> (exists h, dinv N (dsk w) (aof_manifest (srv w)) h) ->
  (aof_state (srv w) <> AOF_WAIT_REWRITE -> state_ok apply e f (srv w) (files (dsk w))) -> let w' := done_cleanup f w in
  core N w' /\ aof_state (srv w') = aof_state (srv w) /\ sees (fine N) w w' /\
  (aof_state (srv w) = AOF_ON -> db (srv w') = db (srv w) /\ aof_buf (srv w') = aof_buf (srv w) /\ seen w' = seen w).
Proof using.
  intros Hn [h Hd] Hst. destruct w as [[st fd am buf x ch] dk sn]. unfold done_cleanup, state_ok in *. cbn in *. destruct st; cbn.
  - specialize (Hst ltac:(done)). split_and!; [|done|by apply sees_none|done]. split; cbn; [done|by exists h|done].
  - assert (still N am dk (Disk (delete temp (files dk)) (manifest_file dk))) as Hs.
    { apply still_delete; [by eapply still_refl|by eapply temp_fresh]. }
    split_and!; [|done| |done].
    + split; cbn; [done|apply Hs|done].
    + eexists. split; [done|]. apply Forall_singleton. by eapply fine_still.
  - specialize (Hst ltac:(done)). split_and!; [|done|by apply sees_none|done]. split; cbn; [done|by exists h|].
    destruct Hst as (pre & ai & cs & r & ? & ? & ? & ? & ? & ? & _). exists pre, ai, cs, r. by split_and!.
Qed.

Lemma new_base_manifest b am : exists am1, getNewBaseFileNameAndMarkPreAsHistory f b am = (base_name f b (curr_base_file_seq am + 1), am1) /\
  base_aof_info am1 = Some (AofInfo (base_name f b (curr_base_file_seq am + 1)) (curr_base_file_seq am + 1) AOF_FILE_TYPE_BASE) /\
  incr_aof_list am1 = incr_aof_list am /\ curr_incr_file_seq am1 = curr_incr_file_seq am /\ dirty am1 = true /\
  (forall N, named f N am -> named f (N + 1) am1).
Proof using. eexists. split; [reflexivity|]. split_and!; try done. intros N Hn. by apply (named_base f N b am). Qed.

Lemma mark_base open am : base_aof_info (markRewrittenIncrAofAsHistory open am) = base_aof_info am.
Proof using. unfold markRewrittenIncrAofAsHistory. by destruct (Nat.eqb _ 0). Qed.

Lemma mark_dirty open am : dirty am = true -> dirty (markRewrittenIncrAofAsHistory open am) = true.
Proof using. unfold markRewrittenIncrAofAsHistory. by destruct (Nat.eqb _ 0). Qed.

(** Nothing but a file that is not of the manifest changed. *)
Lemma abort_step N N' w w' : N <= N' -> N' < 2 ^ 62 -> core N w -> aof_manifest (srv w') = aof_manifest (srv w) -> aof_state (srv w') = aof_state (srv w) ->
  still N' (aof_manifest (srv w)) (dsk w) (dsk w') -> sees (still N' (aof_manifest (srv w)) (dsk w)) w w' ->
  (aof_state (srv w) <> AOF_WAIT_REWRITE -> aof_buf (srv w') = aof_buf (srv w) /\ db (srv w') = db (srv w) /\ child (srv w') = child (srv w)) ->
  (aof_state (srv w) = AOF_ON -> aof_fd (srv w') = aof_fd (srv w)) -> good_step N' w (done_cleanup f w').
Proof using Hf.
  intros Hle HN [Hn Hd Hst] Em Es Hs Hsee Hsame Hfd.
  destruct (cleanup_spec N' w') as (H1 & H2 & H3 & H4).
  - rewrite Em. by eapply named_mono.
  - rewrite Em. apply Hs.
  - rewrite Es. intros Hw. unfold state_ok in *. rewrite Es. destruct (Hsame Hw) as (-> & -> & ->). destruct (aof_state (srv w)); [done|done|].
    rewrite Em, Hfd by done. eapply on_same; [done|apply Hs|done].
  - split; [done| |].
    + eapply sees_trans; [|exact H3]. eapply sees_impl; [|exact Hsee]. intros d. apply fine_still.
    + intros Hon _. rewrite Es in H4. destruct (H4 Hon) as (Ed & Eb & Esn). eapply sees_seen; [done|exact Esn|].
      eapply sees_impl; [|exact Hsee]. intros d Hd'. left. unfold state_ok in Hst. rewrite Hon in Hst.
      eapply still_holds; [exact Hf|exact HN|exact Hd'|exact Hst].
Qed.

Lemma done_on N o w : N + 2 < 2 ^ 62 -> core N w -> aof_state (srv w) = AOF_ON -> do_persist o <> FailAfter ->
  good_step (N + 2) w (backgroundRewriteDoneHandler f o w).
Proof using Hf.
  intros HN Hc Est Hp. pose proof Hc as [Hn [h Hd] Hst]. unfold backgroundRewriteDoneHandler.
  destruct w as [[st fd am buf x [saved|]] dk sn]; cbn [srv child] in *; [|apply (idle_step N); [done|lia]].
  unfold state_ok in Hst. cbn in Est. subst st. cbn in Hst, Hn, Hd.
  assert (still (N + 2) am dk dk) as Hs0 by (apply (still_mono f N); [by eapply still_refl|lia]).
  assert (forall w', srv w' = Server AOF_ON fd am buf x (Some saved) -> still (N + 2) am dk (dsk w') ->
    sees (still (N + 2) am dk) (World (Server AOF_ON fd am buf x (Some saved)) dk sn) w' ->
    good_step (N + 2) (World (Server AOF_ON fd am buf x (Some saved)) dk sn) (done_cleanup f w')) as Habort.
  { intros w' E ? ?. apply (abort_step N); try done; try lia; cbn; by rewrite E. }
  destruct (do_success o); cbn [negb]; [|apply Habort; [done|done|apply sees_refl]].
  cbn [aof_manifest]. destruct (new_base_manifest (do_rdb_preamble o) am) as (am1 & -> & Eb1 & Ei1 & _ & Ed1 & Hn1).
  specialize (Hn1 N Hn). set (b := base_name f (do_rdb_preamble o) (curr_base_file_seq am + 1)) in *.
  destruct (do_rename o); cbn [negb]; [|apply Habort; [done|done|apply sees_refl]].
  pose proof (new_base_fresh f N ltac:(lia) am (do_rdb_preamble o) Hn) as Hb. fold b in Hb.
  destruct (Hst) as (pre & ai & cs & r & Hbase & Hi & Efd & Hx & Hl & Hr & Hch).
  assert (file_name ai ∈ names (live am)) as Hai by (apply in_live; rewrite Hi; apply elem_of_app; right; by apply list_elem_of_singleton).
  assert (file_name ai <> b) as Hne by (intros E; by rewrite E in Hai).
  unfold fs_move_in, fs_set, set_fd. cbn [srv dsk seen aof_fd files manifest_file aof_state aof_manifest aof_buf db child]. rewrite (lose_other b (file_name ai)) by done.
  set (fs1 := <[b := Content (Some saved) []]> (files dk)). set (d1 := Disk fs1 (manifest_file dk)).
  assert (still (N + 2) am dk d1) as Hs1 by (by apply still_insert).
  unfold rename_incr. cbn [srv aof_state negb aof_fd]. rewrite bool_decide_true by (rewrite Efd; by eexists).
  set (am2 := markRewrittenIncrAofAsHistory true am1).
  assert (named f (N + 2) am2) as Hn2.
  { apply named_mark; [eapply named_mono; [exact Hn1|lia]|by rewrite Eb1]. }
  assert (incr_aof_list am2 = [ai]) as Ei2 by (apply (mark_incr true am1 pre ai); by rewrite Ei1).
  assert (base_aof_info am2 = Some (AofInfo b (curr_base_file_seq am + 1) AOF_FILE_TYPE_BASE)) as Eb2 by (unfold am2; by rewrite mark_base).
  rewrite persist_dirty by (by apply mark_dirty). cbv zeta. cbn [dsk files srv seen]. change (files d1) with fs1.
  destruct (do_persist o); [| |done]; cbn [negb].
  - set (d2 := Disk fs1 (Some (getAofManifestAsString am2))).
    assert (fs1 !! file_name ai = Some (Content None cs)) as Hx1 by (unfold fs1; by rewrite lookup_insert_ne).
    assert (dinv (N + 2) d2 am2 (history_aof_list am2)) as Hd2.
    { apply dinv_written; [done|by rewrite Eb2|]. rewrite Ei2. intros a z ->%list_elem_of_singleton Ez. rewrite Hx1 in Ez. by injection Ez as <-. }
    set (w2 := World (Server AOF_ON fd am buf x (Some saved)) d2 _).
    assert (on_ok am2 (files d2) fd buf x None) as Hon2.
    { exists [], ai, cs, saved. rewrite Eb2, Ei2. split_and!; try done; [|by apply Hch]. cbn. unfold fs1. by rewrite lookup_insert_eq. }
    destruct (install_spec (N + 2) o w2 (set_dirty am2 false)) as (E1 & E2 & Hins & _); [lia|by apply named_dirty| |].
    { by apply (dinv_same f (N + 2) _ am2). }
    cbn in Hins. destruct Hins as [Hcore Hsee]; [done|by eapply (on_same _ _ am2)|].
    assert (sees (fun d => fine (N + 2) d /\ holds d x buf) (World (Server AOF_ON fd am buf x (Some saved)) dk sn) w2) as Hsee1.
    { exists [d1; d2]. split; [cbn; by rewrite <- app_assoc|]. constructor; [|apply Forall_singleton]; split.
      - by eapply fine_still.
      - eapply still_holds; [exact Hf|exact HN|exact Hs1|exact Hst].
      - by exists am2, (history_aof_list am2).
      - eapply still_holds; [exact Hf|exact HN|by eapply still_refl|exact Hon2]. }
    pose proof (sees_trans _ _ _ _ Hsee1 Hsee) as Hall. split; [done| |].
    + eapply sees_impl; [|exact Hall]. by intros d [].
    + intros _ _. eapply sees_impl; [|exact Hall]. intros d [_ ?]. by left.
  - set (w1 := World (Server AOF_ON fd am buf x (Some saved)) d1 _).
    assert (still (N + 2) am dk (Disk (delete b fs1) (manifest_file dk))) as Hs2 by (apply (still_delete f (N + 2) am dk d1); done).
    unfold fs_unlink, fs_set, set_fd, w1, d1. cbn [srv dsk seen aof_fd files manifest_file aof_state aof_manifest aof_buf db child]. rewrite (lose_other b (file_name ai)) by done.
    apply Habort; [done|done|]. exists [d1; Disk (delete b fs1) (manifest_file dk)]. split; [cbn; by rewrite <- app_assoc|].
    constructor; [done|by apply Forall_singleton].
Qed.

Lemma done_off N o w : N + 2 < 2 ^ 62 -> core N w -> aof_state (srv w) = AOF_OFF -> do_persist o <> FailAfter ->
  good_step (N + 2) w (backgroundRewriteDoneHandler f o w).
Proof using Hf.
  intros HN Hc Est Hp. pose proof Hc as [Hn [h Hd] Hst]. unfold backgroundRewriteDoneHandler.
  destruct w as [[st fd am buf x [saved|]] dk sn]; cbn [srv child] in *; [|apply (idle_step N); [done|lia]].
  unfold state_ok in Hst. cbn in Est. subst st. cbn in Hst, Hn, Hd. subst buf.
  assert (still (N + 2) am dk dk) as Hs0 by (apply (still_mono f N); [by eapply still_refl|lia]).
  assert (forall w' fd', srv w' = Server AOF_OFF fd' am [] x (Some saved) -> still (N + 2) am dk (dsk w') ->
    sees (still (N + 2) am dk) (World (Server AOF_OFF fd am [] x (Some saved)) dk sn) w' ->
    good_step (N + 2) (World (Server AOF_OFF fd am [] x (Some saved)) dk sn) (done_cleanup f w')) as Habort.
  { intros w' fd' E ? ?. apply (abort_step N); try done; try lia; cbn; by rewrite E. }
  destruct (do_success o); cbn [negb]; [|eapply Habort; [done|done|apply sees_refl]].
  cbn [aof_manifest]. destruct (new_base_manifest (do_rdb_preamble o) am) as (am1 & -> & Eb1 & Ei1 & _ & Ed1 & Hn1).
  specialize (Hn1 N Hn). set (b := base_name f (do_rdb_preamble o) (curr_base_file_seq am + 1)) in *.
  destruct (do_rename o); cbn [negb]; [|eapply Habort; [done|done|apply sees_refl]].
  pose proof (new_base_fresh f N ltac:(lia) am (do_rdb_preamble o) Hn) as Hb. fold b in Hb.
  unfold fs_move_in, fs_set, set_fd. cbn [srv dsk seen aof_fd files manifest_file aof_state aof_manifest aof_buf db child].
  set (fs1 := <[b := Content (Some saved) []]> (files dk)). set (d1 := Disk fs1 (manifest_file dk)). set (fd1 := lose b fd).
  assert (still (N + 2) am dk d1) as Hs1 by (by apply still_insert).
  unfold rename_incr. cbn [srv aof_state negb aof_fd]. set (open := bool_decide _).
  set (am2 := markRewrittenIncrAofAsHistory open am1).
  assert (named f (N + 2) am2) as Hn2.
  { apply named_mark; [eapply named_mono; [exact Hn1|lia]|by rewrite Eb1]. }
  assert (base_aof_info am2 = Some (AofInfo b (curr_base_file_seq am + 1) AOF_FILE_TYPE_BASE)) as Eb2 by (unfold am2; by rewrite mark_base).
  assert (forall a, a ∈ incr_aof_list am2 -> a ∈ incr_aof_list am) as Hin2.
  { intros a. unfold am2, markRewrittenIncrAofAsHistory. rewrite Ei1. destruct (Nat.eqb _ 0); cbn; [by rewrite Ei1|].
    destruct (incr_aof_list am) as [|z l _] using rev_ind; [by destruct open|]. destruct (drop_all_but_last l z) as [Edr _].
    destruct open; [rewrite Edr; intros ?; apply elem_of_app; by right|by rewrite drop_all; intros ?%elem_of_nil]. }
  rewrite persist_dirty by (by apply mark_dirty). cbv zeta. cbn [dsk files srv seen]. change (files d1) with fs1.
  destruct (do_persist o); [| |done]; cbn [negb].
  - set (d2 := Disk fs1 (Some (getAofManifestAsString am2))).
    assert (dinv (N + 2) d2 am2 (history_aof_list am2)) as Hd2.
    { apply dinv_written; [done|by rewrite Eb2|]. intros a z Ha Ez. destruct Hs1 as [[h1 [_ _ Hpl]] _]. by apply (Hpl a z (Hin2 a Ha)). }
    set (w2 := World (Server AOF_OFF fd1 am [] x (Some saved)) d2 _).
    destruct (install_spec (N + 2) o w2 (set_dirty am2 false)) as (E1 & E2 & _ & Hins); [lia|by apply named_dirty| |].
    { by apply (dinv_same f (N + 2) _ am2). }
    cbn in Hins. destruct Hins as (Hcore & Eoff & Hsee); [done|done|]. split; [done| |intros H; done].
    eapply sees_trans; [|exact Hsee]. exists [d1; d2]. split; [cbn; by rewrite <- app_assoc|]. constructor; [by eapply fine_still|].
    apply Forall_singleton. by exists am2, (history_aof_list am2).
  - set (w1 := World (Server AOF_OFF fd1 am [] x (Some saved)) d1 _).
    assert (still (N + 2) am dk (Disk (delete b fs1) (manifest_file dk))) as Hs2 by (apply (still_delete f (N + 2) am dk d1); done).
    unfold fs_unlink, fs_set, set_fd, w1, d1. cbn [srv dsk seen aof_fd files manifest_file aof_state aof_manifest aof_buf db child].
    eapply Habort; [done|done|]. exists [d1; Disk (delete b fs1) (manifest_file dk)]. split; [cbn; by rewrite <- app_assoc|].
    constructor; [done|by apply Forall_singleton].
Qed.

Lemma done_wait N o w : N + 2 < 2 ^ 62 -> core N w -> aof_state (srv w) = AOF_WAIT_REWRITE -> do_persist o <> FailAfter ->
  good_step (N + 2) w (backgroundRewriteDoneHandler f o w).
Proof using Hf.
  intros HN Hc Est Hp. pose proof Hc as [Hn [h Hd] Hst]. unfold backgroundRewriteDoneHandler.
  destruct w as [[st fd am buf x [saved|]] dk sn]; cbn [srv child] in *; [|apply (idle_step N); [done|lia]].
  unfold state_ok in Hst. cbn in Est. subst st. cbn in Hst, Hn, Hd. destruct Hst as (cs & -> & Hx & Hr).
  assert (still (N + 2) am dk dk) as Hs0 by (apply (still_mono f N); [by eapply still_refl|lia]).
  assert (forall w' fd', srv w' = Server AOF_WAIT_REWRITE fd' am buf x (Some saved) -> still (N + 2) am dk (dsk w') ->
    sees (still (N + 2) am dk) (World (Server AOF_WAIT_REWRITE (Some (Named temp)) am buf x (Some saved)) dk sn) w' ->
    good_step (N + 2) (World (Server AOF_WAIT_REWRITE (Some (Named temp)) am buf x (Some saved)) dk sn) (done_cleanup f w')) as Habort.
  { intros w' fd' E ? ?. apply (abort_step N); try done; try lia; cbn; by rewrite E. }
  destruct (do_success o); cbn [negb]; [|eapply Habort; [done|done|apply sees_refl]].
  cbn [aof_manifest]. destruct (new_base_manifest (do_rdb_preamble o) am) as (am1 & -> & Eb1 & Ei1 & Ec1 & Ed1 & Hn1).
  specialize (Hn1 N Hn). set (b := base_name f (do_rdb_preamble o) (curr_base_file_seq am + 1)) in *.
  destruct (do_rename o); cbn [negb]; [|eapply Habort; [done|done|apply sees_refl]].
  pose proof (new_base_fresh f N ltac:(lia) am (do_rdb_preamble o) Hn) as Hb. fold b in Hb.
  assert (temp <> b) as Htb by apply temp_base.
  unfold fs_move_in, fs_set, set_fd. cbn [srv dsk seen aof_fd files manifest_file aof_state aof_manifest aof_buf db child].
  rewrite (lose_other b temp) by done.
  set (fs1 := <[b := Content (Some saved) []]> (files dk)). set (d1 := Disk fs1 (manifest_file dk)).
  assert (still (N + 2) am dk d1) as Hs1 by (by apply still_insert).
  unfold rename_incr. cbn [srv aof_state].
  destruct (getNewIncrAofName f am1) as [name am2] eqn:E2. assert (name = incr_name f (curr_incr_file_seq am + 1)) as Ename.
  { rewrite <- Ec1. by injection E2. }
  assert (am2 = snd (getNewIncrAofName f am1)) as Eam2 by (by rewrite E2).
  pose proof (new_incr_fresh f N ltac:(lia) am Hn) as Hi. rewrite <- Ename in Hi.
  assert (temp <> name) as Htn by (rewrite Ename; apply temp_incr).
  assert (b <> name) as Hbn.
  { rewrite Ename. pose proof (nm_cb _ _ _ Hn). pose proof (nm_ci _ _ _ Hn). apply base_incr; lia. }
  destruct (do_rename_incr o); cbn [negb].
  2: { unfold fs_unlink, fs_set, set_fd. cbn [srv dsk seen aof_fd files manifest_file aof_state aof_manifest aof_buf db child d1].
       assert (still (N + 2) am dk (Disk (delete b (files d1)) (manifest_file d1))) as Hs2 by (by apply still_delete).
       eapply Habort; [done|done|]. exists [d1; Disk (delete b (files d1)) (manifest_file d1)]. split; [cbn; by rewrite <- app_assoc|].
       constructor; [done|by apply Forall_singleton]. }
  unfold fs_rename, fs_set, set_fd. cbn [srv dsk seen aof_fd files manifest_file aof_state aof_manifest aof_buf db child].
  change (files d1) with fs1. change (manifest_file d1) with (manifest_file dk).
  assert (fs1 !! temp = Some (Content None cs)) as Hx1 by (unfold fs1; by rewrite lookup_insert_ne). rewrite Hx1.
  unfold renamed. rewrite bool_decide_true by done. cbn [negb aof_fd srv]. rewrite bool_decide_true by (by eexists).
  set (fs2 := <[name := Content None cs]> (delete temp fs1)). set (d2 := Disk fs2 (manifest_file dk)).
  assert (still (N + 2) am dk d2) as Hs2.
  { apply still_ins; [|done]. apply still_del; [done|by eapply temp_fresh]. }
  set (am3 := markRewrittenIncrAofAsHistory true am2).
  assert (base_aof_info am2 = Some (AofInfo b (curr_base_file_seq am + 1) AOF_FILE_TYPE_BASE)) as Eb2 by (by rewrite Eam2).
  assert (named f (N + 2) am3) as Hn3.
  { apply named_mark; [|by rewrite Eb2]. rewrite Eam2. replace (N + 2) with (N + 1 + 1) by lia. apply named_incr; [done|by rewrite Eb1]. }
  set (ai := AofInfo name (curr_incr_file_seq am1 + 1) AOF_FILE_TYPE_INCR).
  assert (incr_aof_list am3 = [ai]) as Ei3.
  { apply (mark_incr true am2 (incr_aof_list am1) ai). rewrite Eam2. cbn. unfold ai. rewrite Ename, Ec1. done. }
  assert (base_aof_info am3 = Some (AofInfo b (curr_base_file_seq am + 1) AOF_FILE_TYPE_BASE)) as Eb3 by (unfold am3; by rewrite mark_base).
  rewrite persist_dirty by (apply mark_dirty; by rewrite Eam2). cbv zeta. cbn [dsk files srv seen]. change (files d2) with fs2.
  destruct (do_persist o); [| |done]; cbn [negb].
  - set (d3 := Disk fs2 (Some (getAofManifestAsString am3))).
    assert (fs2 !! name = Some (Content None cs)) as Hx2 by (unfold fs2; by rewrite lookup_insert_eq).
    assert (dinv (N + 2) d3 am3 (history_aof_list am3)) as Hd3.
    { apply dinv_written; [done|by rewrite Eb3|]. rewrite Ei3. intros a z ->%list_elem_of_singleton Ez. cbn in Ez. rewrite Hx2 in Ez. by injection Ez as <-. }
    set (w3 := World (Server AOF_WAIT_REWRITE (Some (Named name)) am buf x (Some saved)) d3 _).
    assert (on_ok am3 (files d3) (Some (Named name)) buf x None) as Hon3.
    { exists [], ai, cs, saved. rewrite Eb3, Ei3. split_and!; try done. cbn. unfold fs2, fs1.
      rewrite lookup_insert_ne, lookup_delete_ne, lookup_insert_eq by done. done. }
    destruct (install_spec (N + 2) o w3 (set_dirty am3 false)) as (E1 & _ & Hins & _); [lia|by apply named_dirty| |].
    { by apply (dinv_same f (N + 2) _ am3). }
    cbn in Hins. destruct Hins as [Hcore Hsee]; [done|by eapply (on_same _ _ am3)|]. split; [done| |done].
    eapply sees_trans; [|eapply sees_impl; [|exact Hsee]; by intros d []]. exists [d1; d2; d3]. split; [cbn; by rewrite <- !app_assoc|].
    repeat (constructor; [by eapply fine_still|]). apply Forall_singleton. by exists am3, (history_aof_list am3).
  - unfold fs_unlink, fs_set, set_fd. cbn [srv dsk seen aof_fd files manifest_file aof_state aof_manifest aof_buf db child].
    rewrite (lose_other b name) by done. change (files d2) with fs2. change (manifest_file d2) with (manifest_file dk).
    assert (still (N + 2) am dk (Disk (delete b fs2) (manifest_file dk))) as Hs3 by (by apply still_del).
    assert (still (N + 2) am dk (Disk (delete name (delete b fs2)) (manifest_file dk))) as Hs4.
    { by apply still_del. }
    eapply Habort; [done|done|].
    exists [d1; d2; Disk (delete b fs2) (manifest_file dk); Disk (delete name (delete b fs2)) (manifest_file dk)].
    split; [cbn; by rewrite <- !app_assoc|]. repeat (constructor; [done|]). constructor.
Qed.

Lemma stop_step N k w : N < 2 ^ 62 -> core N w -> good_step N w (stopAppendOnly k w).
Proof using Hf.
  intros HN Hc. unfold stopAppendOnly.
  assert (aof_state (srv w) <> AOF_OFF -> good_step N w (set_srv (killAppendOnlyChild (set_srv (flushAppendOnlyFile k w)
    (set_state (set_fd (srv (flushAppendOnlyFile k w)) None) AOF_OFF)))
    (set_aof_buf (srv (killAppendOnlyChild (set_srv (flushAppendOnlyFile k w) (set_state (set_fd (srv (flushAppendOnlyFile k w)) None) AOF_OFF)))) []))) as H.
  { intros _. destruct (aof_flush_spec apply e f Hf N k w HN Hc) as (Hc1 & E1 & Hs1 & _). set (w1 := flushAppendOnlyFile k w) in *. clearbody w1.
    destruct Hc1 as [H1 H2 _]. split; [by split|by eapply sees_seen; [..|exact Hs1]|done]. }
  destruct (aof_state (srv w)); [|by apply H..]. by apply (idle_step N).
Qed.

Lemma start_step N scheduled o w : N + 1 < 2 ^ 62 -> core N w -> so_persist o <> FailAfter -> (scheduled = true -> child (srv w) = None) ->
  good_step (N + 1) w (startAppendOnly f scheduled o w).
Proof using Hf.
  intros HN Hc Hp Hsch. unfold startAppendOnly. destruct (aof_state (srv w)) eqn:Est; [|apply (idle_step N); [done|lia]..].
  pose proof Hc as [Hn Hd Hst]. unfold state_ok in Hst. rewrite Est in Hst.
  assert (core N (set_srv w (set_child (set_state (srv w) AOF_WAIT_REWRITE) None))) as Hc1 by (by split).
  destruct scheduled.
  - assert (set_srv w (set_state (srv w) AOF_WAIT_REWRITE) = set_srv w (set_child (set_state (srv w) AOF_WAIT_REWRITE) None)) as ->.
    { specialize (Hsch eq_refl). destruct w as [[] ? ?]. cbn in *. by subst. }
    split; [eapply core_mono; [done|lia]|by apply sees_none|intros H; congruence].
  - change (killAppendOnlyChild (set_srv w (set_state (srv w) AOF_WAIT_REWRITE))) with (set_srv w (set_child (set_state (srv w) AOF_WAIT_REWRITE) None)).
    set (w0 := set_srv w (set_child (set_state (srv w) AOF_WAIT_REWRITE) None)) in *.
    pose proof (rewrite_step N o w0 HN Hc1 Hp ltac:(intros H; discriminate H)) as Hr.
    destruct (rewriteAppendOnlyFileBackground f o w0) as [w' ok]. destruct Hr as ([Hc' Hs' _] & Es' & Hch'). destruct ok.
    + split; [done|by eapply sees_seen; [..|exact Hs']|intros H; congruence].
    + specialize (Hch' eq_refl eq_refl). split; [|by eapply sees_seen; [..|exact Hs']|intros H; congruence].
      destruct Hc' as [H1 H2 H3]. split; [done|done|]. unfold state_ok in *. rewrite Es' in H3. cbn in *. unfold wait_ok in H3. by rewrite Hch' in H3.
Qed.

(** A start does not meet files the manifest does not know. *)
Definition restart_ok (on : bool) d : Prop :=
  match aofLoadManifestFromDisk d with
  | None => False
  | Some am => incr_aof_list am <> [] \/ history_aof_list am = [] /\ (on = true -> files d !! incr_name f 1 = None)
  end.

Lemma named_create N : 0 <= N -> named f N aofManifestCreate.
Proof using. intros H. split; cbn; [by left|constructor|exists 0; by split_and!|constructor|lia|lia]. Qed.

(** The manifest a server that starts works with. *)
Lemma loaded_spec N on d : N < 2 ^ 62 -> fine N d -> restart_ok on d ->
  exists am, aofLoadManifestFromDisk d = Some am /\ named f N am /\ dinv N d am (history_aof_list am) /\ dirty am = false /\
    (incr_aof_list am = [] -> curr_incr_file_seq am = 0 /\ (on = true -> files d !! incr_name f 1 = None)).
Proof using Hf.
  intros HN (am & h & Hd) Hok. unfold restart_ok in Hok. pose proof (load_manifest f Hf N HN d am h Hd) as Hload. rewrite Hload in *.
  pose proof Hd as [[Hb Hi (l & Hl & Hle & Hc) Hh Hcb Hci] Hm Hp]. cbn in *. destruct (base_aof_info am) as [b|] eqn:Eb.
  - eexists. split; [reflexivity|]. destruct Hb as [[? _]|Hb]; [done|]. cbn in *. apply increasing_last in Hl as El.
    assert (named f N (reloaded (with_hist am h))) as Hn.
    { split; cbn; try rewrite Eb; rewrite <- ?El.
      - by right.
      - done.
      - exists l. by split_and!.
      - destruct Hok as [Hne|[-> _]]; [by rewrite (Hc Hne)|constructor].
      - done.
      - apply increasing_in in Hl as [? _]. lia. }
    split_and!; try done.
    + split; [by apply (named_dirty f N _ false) in Hn|cbn; by rewrite Eb|done].
    + intros E. destruct Hok as [?|[_ ?]]; [done|]. split; [|done]. by rewrite E.
  - destruct Hb as [[_ E]|(? & ? & _)]; [|done]. eexists. split; [reflexivity|]. cbn in *.
    split_and!; try done; [apply named_create; lia| |].
    + split; [apply named_create; lia|done|]. cbn. intros a z Ha. by apply elem_of_nil in Ha.
    + intros _. split; [done|]. destruct Hok as [?|[_ ?]]; done.
Qed.

(** The end of a start: history files go. *)
Lemma start_gc N gcd gcp w : N < 2 ^ 62 -> core N w -> aof_state (srv w) <> AOF_WAIT_REWRITE ->
  core N (aofDelHistoryFiles gcd gcp w) /\ sees (fine N) w (aofDelHistoryFiles gcd gcp w).
Proof using.
  intros HN [Hn [h Hd] Hst] Hw.
  destruct (del_history_spec f N _ (dsk w) gcd gcp w HN eq_refl Hn (still_refl f N _ _ _ Hd)) as (fd' & am' & Es & Hn' & Ea & Hs & Hsee & Hfd).
  split; [|eapply sees_impl; [|exact Hsee]; intros d; apply fine_still].
  split; rewrite Es; cbn; [done|destruct Hs as [[h' ?] _]; exists h'; by eapply dinv_same|].
  unfold state_ok in *. cbn. destruct (aof_state (srv w)); [done|done|].
  - destruct (Hst) as (pre & ai & cs & r & _ & Hi & Efd & _). rewrite (Hfd (file_name ai)); [rewrite <- Efd| |done].
    + eapply on_same; [exact Ea|apply Hs|exact Hst].
    + apply in_live. rewrite Hi. apply elem_of_app. right. by apply list_elem_of_singleton.
Qed.

(** What follows once there is a base file. *)
Definition open_last (p : persist) am w : option (@world D C) :=
  let '(name, am) := getLastIncrAofName f am in
  let w := fs_append name w in
  let w := set_srv w (set_fd (srv w) (Some (Named name))) in
  let '(w, am, ok) := persistAofManifest p am w in
  if ok then Some (aofManifestFreeAndUpdate am w) else None.

(** A start without incremental file makes one, under a name that is not used. *)
Lemma open_first N p am am0 x fs m sn w' : N + 1 < 2 ^ 62 -> named f N am -> base_aof_info am <> None -> incr_aof_list am = [] ->
  curr_incr_file_seq am = 0 -> fs !! incr_name f 1 = None ->
  fine (N + 1) (Disk (<[incr_name f 1 := Content None []]> fs) m) ->
  load_names apply fs (names (option_list (base_aof_info am))) e = Some x -> Forall (fine (N + 1)) sn ->
  open_last p am (World (Server AOF_ON None am0 [] x None) (Disk fs m) sn) = Some w' ->
  core (N + 1) w' /\ aof_state (srv w') = AOF_ON /\ Forall (fine (N + 1)) (seen w').
Proof using.
  intros HN Hn Hb Hi Hci Hfree Hfine Hl Hsn. unfold open_last, getLastIncrAofName. rewrite Hi. cbn [last].
  destruct (getNewIncrAofName f am) as [name am2] eqn:E2. assert (name = incr_name f 1) as -> by (injection E2 as <- _; by rewrite Hci).
  assert (am2 = snd (getNewIncrAofName f am)) as Eam2 by (by rewrite E2).
  pose proof (new_incr_fresh f N ltac:(lia) am Hn) as Hfresh. rewrite Hci in Hfresh. change (0 + 1) with 1 in Hfresh.
  pose proof (named_incr f N am Hn Hb) as Hn2. rewrite <- Eam2 in Hn2.
  unfold fs_append. cbn [dsk files]. rewrite Hfree. unfold fs_truncate, fs_set. cbn [srv dsk seen files manifest_file aof_fd set_fd].
  rewrite persist_dirty by (by rewrite Eam2). set (fs1 := <[incr_name f 1 := Content None []]> fs) in *.
  destruct p; [|done..]. cbv zeta. cbn [dsk files srv seen set_srv]. intros [= <-].
  set (ai := AofInfo (incr_name f 1) 1 AOF_FILE_TYPE_INCR).
  assert (incr_aof_list am2 = [ai]) as Ei2 by (rewrite Eam2; cbn; by rewrite Hi, Hci).
  assert (dinv (N + 1) (Disk fs1 (Some (getAofManifestAsString am2))) am2 (history_aof_list am2)) as Hd2.
  { apply dinv_written; [done|by rewrite Eam2|]. rewrite Ei2. intros a z ->%list_elem_of_singleton Ez. cbn in Ez. unfold fs1 in Ez.
    rewrite lookup_insert_eq in Ez. by injection Ez as <-. }
  split_and!; [|done|].
  - split; cbn; [by apply named_dirty|exists (history_aof_list am2); by apply (dinv_same f (N + 1) _ am2)|].
    exists [], ai, [], x. cbn. rewrite Ei2. assert (base_aof_info am2 = base_aof_info am) as -> by (by rewrite Eam2).
    split_and!; try done; [unfold fs1; by rewrite lookup_insert_eq|].
    rewrite app_nil_r, (load_names_ext _ fs); [done|]. intros n Hin. unfold fs1. rewrite lookup_insert_ne; [done|]. intros <-.
    apply Hfresh. unfold live. by rewrite Hi, app_nil_r.
  - cbn. rewrite <- app_assoc. apply Forall_app. split; [done|]. constructor; [done|]. apply Forall_singleton. by exists am2, (history_aof_list am2).
Qed.

(** A start with an incremental file goes on with the last one. *)
Lemma open_again N p am x d pre ai w' : named f N am -> dinv N d am (history_aof_list am) -> base_aof_info am <> None ->
  incr_aof_list am = pre ++ [ai] -> dirty am = false -> load_names apply (files d) (names (live am)) e = Some x ->
  open_last p am (World (Server AOF_ON None am [] x None) d []) = Some w' -> core N w' /\ aof_state (srv w') = AOF_ON /\ seen w' = [].
Proof using.
  intros Hn Hd Hb Hi Hdirty Hl. unfold open_last, getLastIncrAofName. rewrite Hi, last_snoc.
  rewrite (named_live_split am pre ai Hi), load_names_app in Hl.
  destruct (load_names apply (files d) _ e) as [r|] eqn:Er; [|done]. cbn in Hl.
  destruct (files d !! file_name ai) as [z|] eqn:Ez; [|done]. injection Hl as Hx.
  assert (snapshot z = None) as Hz.
  { apply (di_plain _ _ _ _ _ Hd ai z); [|done]. rewrite Hi. apply elem_of_app. right. by apply list_elem_of_singleton. }
  destruct z as [sz cs]. cbn in Hz. subst sz. unfold load_content in Hx. cbn in Hx.
  unfold fs_append. cbn [dsk]. rewrite Ez. unfold persistAofManifest. rewrite Hdirty. cbn [negb]. intros [= <-].
  split_and!; [|done|done]. split; cbn; [done|by exists (history_aof_list am)|]. exists pre, ai, cs, r. split_and!; try done. by rewrite app_nil_r.
Qed.

Lemma startup_step N on pre p gcd gcp rdb d w' : N + 2 < 2 ^ 62 -> fine N d -> restart_ok on d ->
  startup apply e f on pre p gcd gcp rdb d = Some w' -> core (N + 2) w' /\ Forall (fine (N + 2)) (seen w').
Proof using Hf.
  intros HN Hfine Hok. destruct (loaded_spec N on d ltac:(lia) Hfine Hok) as (am & Hload & Hn & Hd & Hdirty & Hempty).
  unfold startup. rewrite Hload. destruct (loadDataFromDisk apply e on rdb am d) as [x|] eqn:Ex; [|done].
  assert (forall w, core (N + 2) w -> aof_state (srv w) <> AOF_WAIT_REWRITE -> Forall (fine (N + 2)) (seen w) ->
    core (N + 2) (aofDelHistoryFiles gcd gcp w) /\ Forall (fine (N + 2)) (seen (aofDelHistoryFiles gcd gcp w))) as Hgc.
  { intros w Hc Hw Hs. destruct (start_gc (N + 2) gcd gcp w HN Hc Hw) as [? (l & E & ?)]. split; [done|]. rewrite E. by apply Forall_app. }
  assert (dinv (N + 2) d am (history_aof_list am)) as Hd' by (eapply dinv_mono; [done|lia]).
  assert (named f (N + 2) am) as Hn' by (eapply named_mono; [done|lia]).
  unfold aofOpenIfNeededOnServerStart. destruct on; cbn [srv aof_state aof_manifest].
  2: { intros [= <-]. apply Hgc; [|done|constructor]. split; cbn; [done|by exists (history_aof_list am)|done]. }
  destruct (base_aof_info am) as [b|] eqn:Eb; [|destruct (nm_base _ _ _ Hn) as [[_ Eam]|(? & ? & _)]; [|congruence]].
  - (* there is a base file *)
    fold (open_last p am (World (Server AOF_ON None am [] x None) d [])).
    destruct (open_last p am _) as [w1|] eqn:E1; [|done]. intros [= <-].
    assert (load_names apply (files d) (names (live am)) e = Some x) as Hl.
    { unfold loadDataFromDisk, loadAppendOnlyFiles in Ex. rewrite Eb in Ex. unfold names, live. rewrite Eb.
      destruct (load_names apply (files d) _ e); [by injection Ex as <-|done]. }
    destruct (incr_aof_list am) as [|ai l _] eqn:Ei using rev_ind.
    + destruct (Hempty eq_refl) as [Eci Hfree]. unfold live in Hl. rewrite Ei, app_nil_r in Hl.
      destruct d as [fs m]. destruct (open_first (N + 1) p am am x fs m [] w1) as (? & Es & ?); try done; try lia.
      * eapply named_mono; [exact Hn|lia].
      * by rewrite Eb.
      * by apply Hfree.
      * replace (N + 1 + 1) with (N + 2) by lia. eapply fine_still, still_ins; [by eapply (still_refl f (N + 2) am)|].
        replace 1 with (curr_incr_file_seq am + 1) by lia. by apply (new_incr_fresh f N ltac:(lia)).
      * replace (N + 1 + 1) with (N + 2) in * by lia. apply Hgc; [done|by rewrite Es|done].
    + destruct (open_again (N + 2) p am x d l ai w1) as (? & Es & Esn); try done; [by rewrite Eb|].
      apply Hgc; [done|by rewrite Es|by rewrite Esn].
  - (* a base file is made first *)
    rewrite Eam in *. cbn [incr_aof_list] in *. cbn in Eb. destruct (Hempty eq_refl) as [_ Hfree].
    unfold loadDataFromDisk, loadAppendOnlyFiles in Ex. cbn in Ex. injection Ex as <-.
    destruct (new_base_manifest pre (Manifest None [] [] 0 0 (dirty am))) as (am1 & -> & Eb1 & Ei1 & Ec1 & _ & Hn1).
    specialize (Hn1 N Hn). cbn [curr_base_file_seq] in *. change (0 + 1) with 1 in *.
    set (fs := <[base_name f pre 1 := Content (Some e) []]> (files d)).
    set (w0 := World (Server AOF_ON None (Manifest None [] [] 0 0 (dirty am)) [] e None) (Disk fs (manifest_file d)) [Disk fs (manifest_file d)]).
    change (match open_last p am1 w0 with None => None | Some w => Some (aofDelHistoryFiles gcd gcp w) end = Some w' ->
      core (N + 2) w' /\ Forall (fine (N + 2)) (seen w')).
    destruct (open_last p am1 w0) as [w1|] eqn:E1; [|done]. intros [= <-].
    assert (still (N + 2) (Manifest None [] [] 0 0 (dirty am)) d (Disk fs (manifest_file d))) as Hs1.
    { apply still_insert; [by eapply still_refl|]. by intros ?%elem_of_nil. }
    destruct (open_first (N + 1) p am1 (Manifest None [] [] 0 0 (dirty am)) e fs (manifest_file d) [Disk fs (manifest_file d)] w1) as (? & Es & ?);
      try done; try lia; try (replace (N + 1 + 1) with (N + 2) by lia).
    + by rewrite Eb1.
    + unfold fs. rewrite lookup_insert_ne by (apply base_incr; lia). by apply Hfree.
    + eapply fine_still, still_ins; [exact Hs1|]. by intros ?%elem_of_nil.
    + rewrite Eb1. cbn. unfold fs. by rewrite lookup_insert_eq.
    + apply Forall_singleton. by eapply fine_still.
    + replace (N + 1 + 1) with (N + 2) in * by lia. apply Hgc; [done|by rewrite Es|done].
Qed.
End Ops.

(** ** Runs *)

Section Runs.
Context {D C : Type} (apply : D -> C -> D) (e : D) (f : list Z).
Implicit Types (w : @world D C).

Definition op_pre (o : @op D C) w : Prop :=
  match o with
  | Rewrite o => so_persist o <> FailAfter /\ (aof_state (srv w) = AOF_ON -> (length (aof_buf (srv w)) <= so_write o)%nat)
  | Done o => do_persist o <> FailAfter
  | Start scheduled o => so_persist o <> FailAfter /\ (scheduled = true -> child (srv w) = None)
  | Restart cut on _ _ _ _ _ => restart_ok f on (crash_disk cut w)
  | _ => True
  end.

Definition fails_after (p : persist) : bool := match p with FailAfter => true | _ => false end.
Definition is_on w : bool := match aof_state (srv w) with AOF_ON => true | _ => false end.
Definition unused (n : list Z) (d : @disk D C) : bool := match files d !! n with None => true | Some _ => false end.

(** The directory can be synced, the buffer is written before a fork while the log is
    on, a rewrite is not left for later while a child runs, and a start does not meet
    leftovers under the name of its first incremental file. *)
Definition op_ok (o : @op D C) w : bool :=
  match o with
  | Rewrite o => negb (fails_after (so_persist o)) && (negb (is_on w) || Nat.leb (length (aof_buf (srv w))) (so_write o))
  | Done o => negb (fails_after (do_persist o))
  | Start scheduled o =>
      negb (fails_after (so_persist o)) && (negb scheduled || match child (srv w) with None => true | Some _ => false end)
  | Restart cut on _ _ _ _ _ =>
      match aofLoadManifestFromDisk (crash_disk cut w) with
      | None => false
      | Some am =>
          negb (Nat.eqb (length (incr_aof_list am)) 0) ||
          Nat.eqb (length (history_aof_list am)) 0 && (negb on || unused (incr_name f 1) (crash_disk cut w))
      end
  | _ => true
  end.

Lemma op_ok_pre o w : op_ok o w = true -> op_pre o w.
Proof using.
  destruct o as [c|k|o|o|k|sch o|cut on pre p gcd gcp rdb]; cbn [op_ok op_pre]; try done.
  - intros [H1 H2]%andb_true_iff. split; [by destruct (so_persist o)|]. intros E. unfold is_on in H2. rewrite E in H2. by apply Nat.leb_le.
  - by destruct (do_persist o).
  - intros [H1 H2]%andb_true_iff. split; [by destruct (so_persist o)|]. intros ->. by destruct (child (srv w)).
  - unfold restart_ok. destruct (aofLoadManifestFromDisk _) as [am|]; [|done]. intros [H|[H1 H2]%andb_true_iff]%orb_true_iff.
    + left. by destruct (incr_aof_list am).
    + right. split; [by destruct (history_aof_list am)|]. intros ->. unfold unused in H2. by destruct (_ !! _).
Qed.

Fixpoint run_ok (ops : list (@op D C)) w : bool :=
  match ops with
  | [] => true
  | o :: ops => op_ok o w && match step apply e f o w with Some w => run_ok ops w | None => true end
  end.

Definition is_restart (o : @op D C) : bool := match o with Restart _ _ _ _ _ _ _ => true | _ => false end.

Definition winv (N : Z) w : Prop := core apply e f N w /\ Forall (fine f N) (seen w).

Context (Hf : plain_name f).

Lemma aof_step_spec N o w w' : N + 2 < 2 ^ 62 -> winv N w -> op_pre o w -> step apply e f o w = Some w' ->
  winv (N + 2) w' /\
  (is_restart o = false -> aof_state (srv w) = AOF_ON -> aof_state (srv w') = AOF_ON ->
   Forall (fun d => holds apply e f d (db (srv w)) (aof_buf (srv w)) \/ holds apply e f d (db (srv w')) (aof_buf (srv w'))) (seen w')).
Proof using Hf.
  intros HN [Hc Hs] Hok. unfold step. set (w0 := World (srv w) (dsk w) []).
  assert (core apply e f N w0) as Hc0 by (destruct Hc; by split).
  assert (forall N' w', N' <= N + 2 -> good_step apply e f N' w0 w' -> winv (N + 2) w' /\
    (is_restart o = false -> aof_state (srv w) = AOF_ON -> aof_state (srv w') = AOF_ON ->
     Forall (fun d => holds apply e f d (db (srv w)) (aof_buf (srv w)) \/ holds apply e f d (db (srv w')) (aof_buf (srv w'))) (seen w'))) as Hgood.
  { intros N' w1 Hle [H1 (l & E & Hl) H3]. cbn in E. split; [split|].
    - by eapply core_mono.
    - rewrite E. eapply Forall_impl; [exact Hl|]. intros d Hd. by eapply fine_mono.
    - intros _ Hon Hon'. destruct (H3 Hon Hon') as (l' & E' & Hl'). cbn in E'. rewrite E'. exact Hl'. }
  destruct o as [c|k|o|o|k|sch o|cut on pre p gcd gcp rdb]; cbn [op_pre] in Hok.
  - intros [= <-]. apply (Hgood N); [lia|]. by apply exec_step.
  - intros [= <-]. apply (Hgood N); [lia|]. apply flush_step; [done|lia|done].
  - destruct Hok as [Hp Hbuf]. intros [= <-]. apply (Hgood (N + 1)); [lia|].
    pose proof (rewrite_step apply e f Hf N o w0 ltac:(lia) Hc0 Hp Hbuf) as Hr.
    destruct (rewriteAppendOnlyFileBackground f o w0) as [w1 ok]. apply Hr.
  - intros [= <-]. apply (Hgood (N + 2)); [lia|]. destruct (aof_state (srv w0)) eqn:Est.
    + by apply done_off.
    + by apply done_wait.
    + by apply done_on.
  - intros [= <-]. apply (Hgood N); [lia|]. apply stop_step; [done|lia|done].
  - destruct Hok as [Hp Hsch]. intros [= <-]. apply (Hgood (N + 1)); [lia|]. apply start_step; [done|lia|done..].
  - intros E. split; [|done]. eapply (startup_step apply e f Hf N); [done| |exact Hok|exact E].
    unfold crash_disk. destruct (seen w !! cut) as [d|] eqn:Ed; cbn.
    + rewrite Forall_forall in Hs. apply Hs. by eapply list_elem_of_lookup_2.
    + destruct (co_disk _ _ _ _ _ Hc) as [h Hd]. by exists (aof_manifest (srv w)), h.
Qed.

Lemma fresh_inv (x : D) : winv 0 (fresh x).
Proof using.
  split; [|constructor]. split; cbn; [by apply named_create| |done]. exists []. split; [by apply (named_create f 0)|done|].
  cbn. by intros a z Ha%elem_of_nil.
Qed.

Lemma aof_run_spec ops : forall N w w', N + 2 * Z.of_nat (length ops) < 2 ^ 62 -> winv N w -> run_ok ops w = true ->
  run apply e f ops w = Some w' -> winv (N + 2 * Z.of_nat (length ops)) w'.
Proof using Hf.
  induction ops as [|o ops IH]; intros N w w' HN Hw Hok; cbn [run run_ok length] in *.
  - intros [= <-]. by rewrite Z.add_0_r.
  - apply andb_true_iff in Hok as [Ho%op_ok_pre Hok]. destruct (step apply e f o w) as [w1|] eqn:E1; [|done]. intros E.
    destruct (aof_step_spec N o w w1 ltac:(lia) Hw Ho E1) as [Hw1 _].
    replace (N + 2 * Z.of_nat (S (length ops))) with (N + 2 + 2 * Z.of_nat (length ops)) in * by lia. by apply (IH (N + 2) w1 w').
Qed.

Lemma core_holds N w : N < 2 ^ 62 -> core apply e f N w -> aof_state (srv w) = AOF_ON -> holds apply e f (dsk w) (db (srv w)) (aof_buf (srv w)).
Proof using Hf.
  intros HN [_ [h Hd] Hst] Hon. unfold state_ok in Hst. rewrite Hon in Hst.
  eapply still_holds; [done|exact HN|by eapply still_refl|exact Hst].
Qed.
End Runs.

(** ** Theorems *)

(** C2: the log is durable.  After any run of commands, flushes with short writes, rewrites,
    switches of the log on and off and restarts, also in the middle of an operation, while
    the log is on the files of the manifest on disk load as a dataset from which the
    commands still in the buffer make the current one; and a server that starts on that disk
    comes up with it.  Any call of a rewrite or a switch may fail, but for the conditions of
    [run_ok], checked along the run: no sync of the directory fails after a manifest was
    renamed; the buffer is wholly written before a fork while the log is on; the log is not
    switched on with a rewrite to be scheduled while a child runs; and a restart can read its
    manifest, which lists an incremental file, or else no history file, the name of the
    first incremental file being unused if the log is on.  File names need no quotes and have
    at most 900 characters, and there are fewer than 2^60 operations.  [aof_faults] has a run
    for each condition that is left out. *)
Theorem aof_durable {D C} (apply : D -> C -> D) e f ops x w : plain_name f -> Z.of_nat (length ops) < 2 ^ 60 ->
  run_ok apply e f ops (fresh x) = true -> run apply e f ops (fresh x) = Some w -> aof_state (srv w) = AOF_ON ->
  exists r, recover apply e (dsk w) = AOF_OK r /\ replay apply r (aof_buf (srv w)) = db (srv w) /\
    forall pre p gcd gcp rdb, exists w', startup apply e f true pre p gcd gcp rdb (dsk w) = Some w' /\ db (srv w') = r.
Proof.
  intros Hf Hlen Hok E Hon. destruct (aof_run_spec apply e f Hf ops 0 _ w ltac:(lia) (fresh_inv apply e f x) Hok E) as [Hc _].
  eapply (core_holds apply e f Hf); [|exact Hc|exact Hon]. lia.
Qed.


(** A log of numbers. *)
Definition push (x : list nat) (c : nat) : list nat := x ++ [c].
Definition aof : list Z := chars "appendonly.aof".
Definition calls_ok : start_outcome := StartOutcome 100 true PersistOk true.
Definition done_ok : done_outcome := DoneOutcome true true true true PersistOk false PersistOk.
Definition boot : @op (list nat) nat := Restart 0 true true PersistOk false PersistOk [].

(** A run with a rewrite that succeeds, one whose manifest cannot be written, and a
    crash in the middle of the installation of a third. *)
Definition sample_run : list (@op (list nat) nat) :=
  [boot; Exec 1%nat; Flush 9; Rewrite calls_ok; Exec 2%nat; Flush 9; Done done_ok; Exec 3%nat;
   Rewrite (StartOutcome 9 true FailBefore true); Rewrite calls_ok; Exec 4%nat; Flush 1; Done done_ok;
   Restart 1 true true PersistOk true PersistOk []; Exec 5%nat; Flush 9; Rewrite calls_ok; Exec 6%nat].

Definition final (ops : list (@op (list nat) nat)) : @world (list nat) nat :=
  default (fresh []) (run push [] aof ops (fresh [])).

Lemma aof_plain : plain_name aof.
Proof. split_and!; [done|by apply (bool_decide_unpack _)|vm_compute; lia]. Qed.

Lemma aof_durable_witness :
  exists r, recover push [] (dsk (final sample_run)) = AOF_OK r /\
    replay push r (aof_buf (srv (final sample_run))) = db (srv (final sample_run)) /\
    forall pre p gcd gcp rdb, exists w', startup push [] aof true pre p gcd gcp rdb (dsk (final sample_run)) = Some w' /\ db (srv w') = r.
Proof.
  apply (aof_durable push [] aof sample_run [] (final sample_run)).
  - exact aof_plain.
  - vm_compute. reflexivity.
  - vm_compute. reflexivity.
  - vm_compute. reflexivity.
  - vm_compute. reflexivity.
Defined.



(** ** What happens without the conditions *)

(** What is on disk, in memory and in the buffer after a run. *)
Definition after_run (ops : list (@op (list nat) nat)) : option (@load_result (list nat) * list nat * list nat) :=
  match run push [] aof ops (fresh []) with
  | Some w => Some (recover push [] (dsk w), db (srv w), aof_buf (srv w))
  | None => None
  end.

(** A restart after the last operation ended. *)
Definition again : @op (list nat) nat := Restart 99 true true PersistOk false PersistOk [].
(** A rewrite that keeps its history files, and one whose directory cannot be synced. *)
Definition done_keep : done_outcome := DoneOutcome true true true true PersistOk true PersistOk.
Definition done_nosync : done_outcome := DoneOutcome true true true true FailAfter false PersistOk.

(** Each condition of the two theorems above is needed.  In turn: a buffer that
    cannot be written before the fork is replayed twice; a directory that cannot be
    synced after the manifest was replaced leaves a manifest whose base file was
    removed; after a rewrite with the log off whose history files stay, a restart
    reuses the name of one of them and removes the file being written; a log turned on
    by a transaction while a child runs ends up on without an open file; a crash
    before the first manifest is written leaves commands that are replayed by the
    next log; a fork that fails while the log is turned on leaves a file open, whose
    commands a later rewrite keeps although the new base has them; and a manifest with
    a single quote in a file name cannot be loaded. *)
Theorem aof_faults :
  after_run [boot; Exec 1; Rewrite (StartOutcome 0 true PersistOk true); Exec 2; Flush 9; Done done_ok]%nat =
    Some (AOF_OK [1; 1; 2], [1; 2], [])%nat /\
  after_run [boot; Exec 1; Flush 9; Rewrite calls_ok; Done done_nosync]%nat = Some (AOF_FAILED, [1], [])%nat /\
  after_run [boot; Exec 1; Flush 9; Stop 0; Rewrite calls_ok; Done done_keep; again; Exec 2; Flush 9]%nat =
    Some (AOF_FAILED, [1; 2], [])%nat /\
  (let ops := [Exec 1; Start false calls_ok; Exec 2; Flush 9; Stop 0; Rewrite calls_ok; Start true calls_ok; Done done_ok]%nat in
   aof_state (srv (final ops)) = AOF_ON /\ aof_fd (srv (final ops)) = None) /\
  after_run [Exec 1; Start false calls_ok; Exec 2; Flush 9; Done done_ok; Restart 1 true true PersistOk false PersistOk []; Exec 3; Flush 9]%nat =
    Some (AOF_OK [2; 3], [3], [])%nat /\
  after_run [boot; Exec 1; Flush 9; Stop 9; Start false (StartOutcome 9 true PersistOk false); Rewrite calls_ok; Done done_ok; again]%nat =
    Some (AOF_OK [1; 1], [1; 1], [])%nat /\
  aofLoadManifestFromFile (getAofManifestAsString (snd (getNewIncrAofName (chars "it's.aof") aofManifestCreate))) = Ret (inl InvalidFormat).
Proof. cbv zeta. split_and!; vm_compute; reflexivity. Qed.
End AofSafe.
