(* ===== verification/AofLog.v ===== *)
(** * AofLog: the bytes of an append only file (aof.c)

    The server propagates what it executes as units: one command, or several between
    MULTI and EXEC.  A unit is written to the file in the request format, with a
    SELECT when the database changes and timestamps when they are enabled; on start a
    fake client reads the file back and executes it, and a file that ends in the
    middle of a command is cut where it is still well formed.

    Datasets, the commands other than MULTI, EXEC and SELECT, what the default user
    may run, the allocator and the loader of snapshots are parameters.  Reads do not
    fail other than at the end of the file. *)
From stdpp Require Import gmap.
From S2P Require Import Prelude NumStr SdsArgs AofManifest Aof.
Import NumStr AofManifest.

Module AofLog.

Abbreviation arg := (list Z).
Abbreviation argv := (list (list Z)).

Definition CRLF : list Z := [13; 10].
Definition AOF_ANNOTATION_LINE_MAX_LEN : nat := 1024.
Definition INT_MIN : Z := - 2 ^ 31.
Definition INT_MAX : Z := 2 ^ 31 - 1.

(** ** Writing *)

(** A character, a number and the end of a line, put together in [char buf[32]]. *)
Definition catHeader (dst : list Z) (c n : Z) : list Z :=
  let '(buf, len) := ll2string (replicate 31 0) 31 n in
  dst ++ c :: take (Z.to_nat len) buf ++ CRLF.

Definition catAppendOnlyGenericCommand (dst : list Z) (args : argv) : list Z :=
  fold_left (fun dst o => catHeader dst 36 (Z.of_nat (length o)) ++ o ++ CRLF) args (catHeader dst 42 (Z.of_nat (length args))).

(** The fields of [server] that are concerned; [logging] says whether [aof_state] and
    the child make the commands reach the buffer. *)
Record server := Server {
  aof_timestamp_enabled : bool; aof_cur_timestamp : Z; unixtime : Z; aof_selected_db : Z; logging : bool; aof_buf : list Z }.

Definition genAofTimestampAnnotationIfNeeded (s : server) : outcome (server * list Z) :=
  if aof_cur_timestamp s <? unixtime s then
    let ts := chars "#TS:" ++ repr (unixtime s) ++ CRLF in
    if (length ts <=? AOF_ANNOTATION_LINE_MAX_LEN)%nat then
      Ret (Server (aof_timestamp_enabled s) (unixtime s) (unixtime s) (aof_selected_db s) (logging s) (aof_buf s), ts)
    else Abort
  else Ret (s, []).

Definition feedAppendOnlyFile (dbnum : Z) (dictid : Z) (args : argv) (s : server) : outcome server :=
  if negb ((dictid =? -1) || (0 <=? dictid) && (dictid <? dbnum)) then Abort else
  let* (s, buf) := if aof_timestamp_enabled s then genAofTimestampAnnotationIfNeeded s else Ret (s, []) in
  let '(sel, buf) :=
    if negb (dictid =? -1) && negb (dictid =? aof_selected_db s) then
      let seldb := repr dictid in
      (dictid, buf ++ chars "*2" ++ CRLF ++ chars "$6" ++ CRLF ++ chars "SELECT" ++ CRLF ++
         chars "$" ++ repr (Z.of_nat (length seldb)) ++ CRLF ++ seldb ++ CRLF)
    else (aof_selected_db s, buf) in
  let buf := catAppendOnlyGenericCommand buf args in
  Ret (Server (aof_timestamp_enabled s) (aof_cur_timestamp s) (unixtime s) sel (logging s)
        (if logging s then aof_buf s ++ buf else aof_buf s)).

(** The commands of a unit with their databases, and whether MULTI and EXEC go around
    them: [transaction] is [numops > 1] unless the command touches arbitrary keys. *)
Record unit_ := Unit { transaction : bool; ops : list (Z * argv) }.

Definition propagatePendingCommands (dbnum : Z) (u : unit_) (s : server) : outcome server :=
  let feed s op := let* s := s in feedAppendOnlyFile dbnum (fst op) (snd op) s in
  let* s := if transaction u then feedAppendOnlyFile dbnum (-1) [chars "MULTI"] s else Ret s in
  let* s := fold_left feed (ops u) (Ret s) in
  if transaction u then feedAppendOnlyFile dbnum (-1) [chars "EXEC"] s else Ret s.

(** ** Reading a stream *)

Record stream := Stream { rest : list Z; feof : bool }.

(** [fgets] with [n] the size of the buffer: [None] at the end of the file. *)
Definition fgets (n : nat) (f : stream) : option (list Z) * stream :=
  match rest f with
  | [] => (None, Stream [] true)
  | _ =>
      let '(line, r) := fgets_loop (n - 1) (rest f) in
      let hit := (length line <? n - 1)%nat && negb (bool_decide (last line = Some 10)) in
      (Some line, Stream r (feof f || hit))
  end.

(** [fread] of one item of [n] bytes. *)
Definition fread (n : Z) (f : stream) : option (list Z) * stream :=
  if n <=? Z.of_nat (length (rest f)) then (Some (take (Z.to_nat n) (rest f)), Stream (drop (Z.to_nat n) (rest f)) (feof f))
  else (None, Stream [] true).

(** [strtol] in base 10, for a [long] of 64 bits. *)
Definition strtol (s : list Z) : Z := atoll s.
Definition atoi (s : list Z) : Z := swrap 32 (strtol s).

(** ** The fake client *)

Inductive command := MULTI | EXEC | SELECT | OTHER.

Section Load.
Context {D : Type}.
(** A command of the table that is none of the three runs in a database. *)
Context (known : argv -> bool) (proc : Z -> argv -> D -> D).
(** [ACLCheckAllPerm] for the default user. *)
Context (acl : argv -> bool).
Context (zmalloc_ok : Z -> bool).
(** [rdbLoadRio]: the dataset and what follows the snapshot. *)
Context (rdbLoadRio : list Z -> D -> option (D * list Z)).
Context (dbnum : Z) (cluster_enabled : bool).

Definition lookupCommand (args : argv) : option command :=
  match args with
  | [] => None
  | name :: _ =>
      let named s := bool_decide (map SdsArgs.tolower name = map SdsArgs.tolower (chars s)) in
      if named "multi" then Some MULTI else if named "exec" then Some EXEC else if named "select" then Some SELECT
      else if known args then Some OTHER else None
  end.

(** The client's database, and the queue of its transaction when it is in one. *)
Record client := Client { db : Z; multi : option (list (command * argv)) }.

Definition selectDb (id : Z) (c : client) : client :=
  if (id <? 0) || (dbnum <=? id) then c else Client id (multi c).

Definition selectCommand (args : argv) (c : client) : outcome client :=
  match args !! 1%nat with
  | None => Abort
  | Some a =>
      match string2ll a with
      | None => Ret c
      | Some id =>
          if (id <? INT_MIN) || (INT_MAX <? id) then Ret c
          else if cluster_enabled && negb (id =? 0) then Ret c
          else Ret (selectDb id c)
      end
  end.

(** [cmd->proc(c)], for all but EXEC, which runs the commands of the queue. *)
Definition call (cmd : command) (args : argv) (cd : client * D) : outcome (client * D) :=
  let '(c, d) := cd in
  match cmd with
  | MULTI => Ret (match multi c with Some _ => c | None => Client (db c) (Some []) end, d)
  | EXEC => Ret (c, d)
  | SELECT => let* c := selectCommand args c in Ret (c, d)
  | OTHER => Ret (c, proc (db c) args d)
  end.

Definition execCommand (cd : client * D) : outcome (client * D) :=
  match multi (fst cd) with
  | None => Ret cd
  | Some queue =>
      let one cd q := let* cd := cd in if acl (snd q) then call (fst q) (snd q) cd else Ret cd in
      let* cd := fold_left one queue (Ret cd) in
      let '(c, d) := cd in
      Ret (Client (db c) None, d)
  end.

(** A command that was read: queued in a transaction, run otherwise. *)
Definition run_command (cmd : command) (args : argv) (cd : client * D) : outcome (client * D) :=
  let '(c, d) := cd in
  match multi c, cmd with
  | Some q, EXEC => execCommand cd
  | Some q, _ => Ret (Client (db c) (Some (q ++ [(cmd, args)])), d)
  | None, EXEC => execCommand cd
  | None, _ => call cmd args cd
  end.

(** ** Loading a file *)

Inductive failure := ReadErr | FmtErr | UnknownCommand.

(** The arguments of a command: a length, the bytes, and two bytes to discard. *)
Fixpoint read_args (argc : nat) (acc : argv) (f : stream) : outcome ((failure + argv) * stream) :=
  match argc with
  | O => Ret (inr acc, f)
  | S argc =>
      match fgets AOF_ANNOTATION_LINE_MAX_LEN f with
      | (None, f) => Ret (inl ReadErr, f)
      | (Some buf, f) =>
          if negb (at_ buf 0 =? 36) then Ret (inl FmtErr, f) else
          let len := wrap 64 (strtol (drop 1 buf)) in
          if negb (zmalloc_ok len) then Abort else
          match (if len =? 0 then (Some [], f) else fread len f) with
          | (None, f) => Ret (inl ReadErr, f)
          | (Some argsds, f) =>
              match fread 2 f with
              | (None, f) => Ret (inl ReadErr, f)
              | (Some _, f) => read_args argc (acc ++ [argsds]) f
              end
          end
      end
  end.

Record loading := Loading { file : stream; cl : client; data : D; valid_up_to : Z; valid_before_multi : Z }.

(** One turn of the loop: [inl None] at the end of the file. *)
Definition load_step (aof_load_truncated : bool) (size : Z) (l : loading) : outcome ((option failure + unit) * loading) :=
  let at_file f := Loading f (cl l) (data l) (valid_up_to l) (valid_before_multi l) in
  match fgets AOF_ANNOTATION_LINE_MAX_LEN (file l) with
  | (None, f) => Ret (inl (if feof f then None else Some ReadErr), at_file f)
  | (Some buf, f) =>
      if at_ buf 0 =? 35 then Ret (inr tt, at_file f)
      else if negb (at_ buf 0 =? 42) then Ret (inl (Some FmtErr), at_file f)
      else if at_ buf 1 =? 0 then Ret (inl (Some ReadErr), at_file f)
      else
        let argc := atoi (drop 1 buf) in
        if argc <? 1 then Ret (inl (Some FmtErr), at_file f)
        else if negb (zmalloc_ok (8 * argc)) then Abort
        else
          let* (r, f) := read_args (Z.to_nat argc) [] f in
          match r with
          | inl e => Ret (inl (Some e), at_file f)
          | inr args =>
              match lookupCommand args with
              | None => Ret (inl (Some UnknownCommand), at_file f)
              | Some cmd =>
                  let before := match cmd with MULTI => valid_up_to l | _ => valid_before_multi l end in
                  let* (c, d) := run_command cmd args (cl l, data l) in
                  let up_to := if aof_load_truncated then size - Z.of_nat (length (rest f)) else valid_up_to l in
                  Ret (inr tt, Loading f c d up_to before)
              end
          end
  end.

Fixpoint load_loop (fuel : nat) (trunc : bool) (size : Z) (l : loading) : outcome (option failure * loading) :=
  match fuel with
  | O => Abort
  | S fuel =>
      let* (r, l) := load_step trunc size l in
      match r with
      | inl e => Ret (e, l)
      | inr _ => load_loop fuel trunc size l
      end
  end.

Inductive status := AOF_OK | AOF_NOT_EXIST | AOF_OPEN_ERR | AOF_EMPTY | AOF_TRUNCATED | AOF_FAILED.

(** Whether [aof-load-truncated] is set, and whether the calls succeed: [fopen],
    [truncate], and [lseek] on the file being written, if there is one. *)
Record env := Env { aof_load_truncated : bool; fopen_ok : bool; truncate_ok : bool; lseek_ok : bool }.

(** Label [uxeof]: the file ends too early, at [valid_up_to] it was well formed. *)
Definition uxeof (e : env) (d : D) (bytes : list Z) (valid_up_to : Z) : status * D * list Z :=
  if aof_load_truncated e then
    if negb (truncate_ok e) then (AOF_FAILED, d, bytes)
    else
      let bytes := take (Z.to_nat valid_up_to) bytes in
      (if lseek_ok e then AOF_TRUNCATED else AOF_FAILED, d, bytes)
  else (AOF_FAILED, d, bytes).

(** The status, the dataset and the file afterwards. *)
Definition loadSingleAppendOnlyFile (e : env) (contents : option (list Z)) (d : D) : outcome (status * D * list Z) :=
  match contents with
  | None => Ret (AOF_NOT_EXIST, d, [])
  | Some bytes =>
      if negb (fopen_ok e) then Ret (AOF_OPEN_ERR, d, bytes)
      else if (length bytes =? 0)%nat then Ret (AOF_EMPTY, d, bytes)
      else
        let start := if bool_decide (take 5 bytes = chars "REDIS") then rdbLoadRio bytes d else Some (d, bytes) in
        match start with
        | None => Ret (AOF_FAILED, d, bytes)
        | Some (d, tail) =>
            let* (r, l) := load_loop (S (length tail)) (aof_load_truncated e) (Z.of_nat (length bytes))
                             (Loading (Stream tail false) (Client 0 None) d 0 0) in
            match r with
            | Some FmtErr | Some UnknownCommand => Ret (AOF_FAILED, data l, bytes)
            | Some ReadErr =>
                if feof (file l) then Ret (uxeof e (data l) bytes (valid_up_to l)) else Ret (AOF_FAILED, data l, bytes)
            | None =>
                match multi (cl l) with
                | Some _ => Ret (uxeof e (data l) bytes (valid_before_multi l))
                | None => Ret (AOF_OK, data l, bytes)
                end
            end
        end
  end.

(** ** Loading the files of a manifest *)

(** The files from the one at hand on; [ret] is the status so far. *)
Fixpoint load_files (e : env) (incr : bool) (names : list (list Z)) (fs : gmap (list Z) (list Z)) (ret : status) (d : D) :
    outcome (status * D * gmap (list Z) (list Z)) :=
  match names with
  | [] => Ret (ret, d, fs)
  | name :: names =>
      let* (rd, bytes) := loadSingleAppendOnlyFile e (fs !! name) d in
      let '(ret, d) := rd in
      let fs := match fs !! name with Some _ => <[name := bytes]> fs | None => fs end in
      let last_file := match names with [] => true | _ => false end in
      let ret := match ret with AOF_EMPTY => if incr then AOF_OK else AOF_EMPTY | _ => ret end in
      let ret := match ret with AOF_TRUNCATED => if last_file then AOF_TRUNCATED else AOF_FAILED | _ => ret end in
      match ret with
      | AOF_OPEN_ERR | AOF_FAILED => Ret (ret, d, fs)
      | _ => load_files e true names fs ret d
      end
  end.

Definition loadAppendOnlyFiles (e : env) (am : aofManifest) (fs : gmap (list Z) (list Z)) (d : D) :
    outcome (status * D * gmap (list Z) (list Z)) :=
  let base := match base_aof_info am with Some ai => [file_name ai] | None => [] end in
  let names := base ++ map file_name (incr_aof_list am) in
  match names with
  | [] => Ret (AOF_NOT_EXIST, d, fs)
  | _ =>
      if existsb (fun n => bool_decide (fs !! n = None)) names then Ret (AOF_FAILED, d, fs)
      else if forallb (fun n => bool_decide (fs !! n = Some [])) names then Ret (AOF_EMPTY, d, fs)
      else load_files e (bool_decide (base = [])) names fs AOF_OK d
  end.

End Load.

End AofLog.
