(* ===== verification/AofLogSafe.v ===== *)
(** * AofLogSafe: loading gives back what was logged, whole or cut

    The log is a sequence of items, timestamps and commands; the loader executes the
    items that are whole and detects an item that is cut.  Units are executed
    entirely or not at all, wherever the file ends. *)
From stdpp Require Import gmap.
From S2P Require Import Prelude NumStr SdsArgs AofManifest Aof AofLog.
Import NumStr AofManifest AofLog.

Module AofLogSafe.

(** ** Lines *)

Lemma fgets_loop_all line n : Forall (fun c => c <> 10) line -> (length line <= n)%nat -> fgets_loop n line = (line, []).
Proof.
  intros Hl. revert n. induction Hl as [|c line Hc _ IH]; intros n Hn; [by destruct n|].
  destruct n as [|n]; simpl in *; [lia|]. destruct (Z.eqb_spec c 10); [done|]. by rewrite IH by lia.
Qed.

Lemma fgets_whole line r e : Forall (fun c => c <> 10) line -> (length line < 1023)%nat ->
  fgets AOF_ANNOTATION_LINE_MAX_LEN (Stream (line ++ 10 :: r) e) = (Some (line ++ [10]), Stream r e).
Proof.
  intros Hl Hn. unfold fgets. cbn [rest feof]. change (AOF_ANNOTATION_LINE_MAX_LEN - 1)%nat with 1023%nat.
  rewrite fgets_loop_line by done. destruct (line ++ 10 :: r) eqn:E; [by destruct line|].
  rewrite last_snoc, bool_decide_eq_true_2 by done. cbn [negb]. by rewrite andb_false_r, orb_false_r.
Qed.

Lemma fgets_cut line e : line <> [] -> Forall (fun c => c <> 10) line -> (length line < 1023)%nat ->
  fgets AOF_ANNOTATION_LINE_MAX_LEN (Stream line e) = (Some line, Stream [] true).
Proof.
  intros Hne Hl Hn. unfold fgets. cbn [rest feof]. change (AOF_ANNOTATION_LINE_MAX_LEN - 1)%nat with 1023%nat.
  rewrite fgets_loop_all by (done || lia). destruct line as [|c line]; [done|].
  rewrite (proj2 (Nat.ltb_lt _ _) Hn). rewrite bool_decide_eq_false_2; [by rewrite orb_true_r|].
  intros Hlast%last_Some_elem_of. rewrite Forall_forall in Hl. by specialize (Hl _ Hlast).
Qed.

Lemma digits_value_mono ds acc : Forall (fun c => 48 <= c <= 57) ds -> 0 <= acc -> acc <= digits_value acc ds.
Proof.
  intros H. revert acc. induction H as [|c ds Hc _ IH]; intros acc Ha; [simpl; lia|]. simpl.
  destruct ((48 <=? c) && (c <=? 57)); [|lia]. specialize (IH (acc * 10 + (c - 48)) ltac:(lia)). lia.
Qed.

Lemma digits_value_app a b acc : Forall (fun c => 48 <= c <= 57) a ->
  digits_value acc (a ++ b) = digits_value (digits_value acc a) b.
Proof.
  intros H. revert acc. induction H as [|c ds Hc _ IH]; intros acc; [done|]. simpl.
  by rewrite (proj2 (andb_true_iff _ _)) by (split; lia).
Qed.

(** A number of a header, whole, and the start of one. *)
Lemma strtol_repr n : 0 <= n < 2 ^ 63 -> strtol (repr n ++ CRLF) = n.
Proof.
  intros Hn. pose proof (digits_repr n Hn) as E. pose proof (repr_digits n ltac:(lia)) as Hd.
  assert (digits_value 0 (repr n ++ CRLF) = n) as E' by (by rewrite digits_value_app, E).
  assert (repr n <> []) as Hne by (apply repr_head; unfold in_s; lia).
  destruct (repr n) as [|c ds]; [done|]. apply Forall_cons_1 in Hd as [Hc _]. unfold strtol. cbn [app] in *.
  rewrite atoll_digits by done. lia.
Qed.

Lemma repr_first n : 0 < n < 2 ^ 63 -> exists c ds, repr n = c :: ds /\ 49 <= c <= 57 /\ Forall (fun c => 48 <= c <= 57) ds.
Proof.
  intros Hn. pose proof (repr_digits n ltac:(lia)) as Hd. pose proof (digits_repr n ltac:(lia)) as E.
  rewrite digits_eval in E by done. destruct (digits10_bounds n ltac:(unfold in_u; lia)) as (H1 & _ & H2).
  assert (length (repr n) = Z.to_nat (digits10 n)) as Hl.
  { unfold repr. destruct (Z.ltb_spec n 0); [lia|]. apply length_dec_fixed. }
  destruct (repr n) as [|c ds]; [simpl in Hl; lia|]. apply Forall_cons_1 in Hd as [Hc Hds]. exists c, ds. split; [done|]. split; [|done].
  change (c :: ds) with ([c] ++ ds) in E. rewrite eval_dec_app, eval_dec_acc in E. pose proof (eval_dec_bounds ds Hds) as Hb.
  destruct H2 as [H2|[H2 _]]; [|lia]. replace (digits10 n - 1) with (Z.of_nat (length ds)) in H2 by (simpl in Hl; lia).
  destruct (Z.eq_dec c 48) as [->|]; [|lia]. unfold eval_dec in E at 1. simpl in E. lia.
Qed.

(** The start of a header's number, with the carriage return or not. *)
Lemma strtol_cut n k : 0 <= n < 2 ^ 63 -> let s := strtol (take k (repr n ++ [13])) in 0 <= s <= n /\ (0 < n -> (0 < k)%nat -> 0 < s).
Proof.
  intros Hn. rewrite take_app. set (q := take (k - length (repr n)) [13]). set (p := take k (repr n)).
  pose proof (repr_digits n ltac:(lia)) as Hd. assert (Forall (fun c => 48 <= c <= 57) p) as Hp by (by apply Forall_take).
  assert (digits_value 0 p <= n) as Hle.
  { rewrite <- (digits_repr n Hn) at 1. rewrite <- (take_drop k (repr n)). fold p. rewrite digits_value_app by done.
    apply digits_value_mono; [by apply Forall_drop|]. by apply digits_value_mono. }
  assert (digits_value 0 (p ++ q) = digits_value 0 p) as Hv.
  { rewrite digits_value_app by done. unfold q. by destruct (k - length (repr n))%nat as [|[|]]. }
  pose proof (digits_value_mono p 0 Hp ltac:(lia)) as H0. cbv zeta. unfold strtol.
  destruct p as [|c p'] eqn:Ep.
  - assert (take k (repr n) = []) as Ep' by done. assert (k = 0%nat) as ->.
    { destruct k; [done|]. assert (repr n <> []) by (apply repr_head; unfold in_s; lia). by destruct (repr n). }
    subst q. rewrite Nat.sub_0_l. change (atoll ([] ++ take 0 [13])) with 0. lia.
  - apply Forall_cons_1 in Hp as [Hc Hp']. cbn [app] in *. rewrite atoll_digits, Hv by done. split; [lia|]. intros Hpos Hk.
    destruct (repr_first n ltac:(lia)) as (c' & ds & E & Hc' & _). subst p. rewrite E in Ep. destruct k; [done|]. injection Ep as -> _.
    cbn [digits_value]. rewrite (proj2 (andb_true_iff _ _)) by (split; lia).
    pose proof (digits_value_mono p' (0 * 10 + (c - 48)) Hp' ltac:(lia)). lia.
Qed.

(** ** Items *)

Definition bulk (o : list Z) : list Z := 36 :: repr (Z.of_nat (length o)) ++ CRLF ++ o ++ CRLF.
Definition enc (a : argv) : list Z := 42 :: repr (Z.of_nat (length a)) ++ CRLF ++ concat (map bulk a).

Inductive item := Note (t : list Z) | Cmd (a : argv).

Definition ibytes (i : item) : list Z := match i with Note t => 35 :: t ++ [10] | Cmd a => enc a end.
Definition bytes_of (l : list item) : list Z := concat (map ibytes l).

(** A header line: the end of the line is where the digits and the return end. *)
Lemma header_fgets c n r e : c <> 10 -> 0 <= n < 2 ^ 63 ->
  fgets AOF_ANNOTATION_LINE_MAX_LEN (Stream (c :: repr n ++ CRLF ++ r) e) = (Some (c :: repr n ++ CRLF), Stream r e).
Proof.
  intros Hc Hn. pose proof (fgets_whole (c :: repr n ++ [13]) r e) as H.
  assert (c :: repr n ++ CRLF = (c :: repr n ++ [13]) ++ [10]) as E by (unfold CRLF; simpl; by rewrite <- app_assoc).
  change (c :: repr n ++ CRLF ++ r) with ((c :: repr n) ++ CRLF ++ r). rewrite (app_assoc (c :: repr n)).
  change ((c :: repr n) ++ CRLF) with (c :: repr n ++ CRLF). rewrite E, <- app_assoc. apply H.
  - constructor; [done|]. apply Forall_app. split; [|by repeat constructor].
    eapply Forall_impl; [apply repr_digits; lia|]. simpl. lia.
  - destruct (repr_length n ltac:(unfold in_s; lia)). simpl. rewrite length_app. simpl. lia.
Qed.

(** The start of one, without the end of the line. *)
Lemma header_cut c n k e : c <> 10 -> 0 <= n < 2 ^ 63 -> (0 < k)%nat ->
  fgets AOF_ANNOTATION_LINE_MAX_LEN (Stream (take k (c :: repr n ++ [13])) e) = (Some (take k (c :: repr n ++ [13])), Stream [] true).
Proof.
  intros Hc Hn Hk. apply fgets_cut.
  - by destruct k; [lia|].
  - apply Forall_take. constructor; [done|]. apply Forall_app. split; [|by repeat constructor].
    eapply Forall_impl; [apply repr_digits; lia|]. simpl. lia.
  - destruct (repr_length n ltac:(unfold in_s; lia)). rewrite length_take. simpl. rewrite length_app. simpl. lia.
Qed.

Lemma fread_app x r e : fread (Z.of_nat (length x)) (Stream (x ++ r) e) = (Some x, Stream r e).
Proof.
  unfold fread. cbn [rest feof]. rewrite (proj2 (Z.leb_le _ _)) by (rewrite length_app; lia).
  rewrite Nat2Z.id, take_app_length, drop_app_length. done.
Qed.

Lemma fread_short n f : Z.of_nat (length (rest f)) < n -> fread n f = (None, Stream [] true).
Proof. intros H. unfold fread. by rewrite (proj2 (Z.leb_gt _ _)) by lia. Qed.

Section Args.
Context (zmalloc_ok : Z -> bool) (M : Z).
Context (Hmem : forall n, 0 <= n <= M -> zmalloc_ok n = true) (HM : M < 2 ^ 63).

Definition arg_ok (o : list Z) : Prop := Z.of_nat (length o) <= M.

Lemma read_args_one k acc o r e : arg_ok o ->
  read_args zmalloc_ok (S k) acc (Stream (bulk o ++ r) e) = read_args zmalloc_ok k (acc ++ [o]) (Stream r e).
Proof using Hmem HM.
  intros Ho. unfold arg_ok in Ho. set (n := Z.of_nat (length o)) in *. cbn [read_args].
  assert (bulk o ++ r = 36 :: repr n ++ CRLF ++ (o ++ CRLF ++ r)) as -> by (unfold bulk; fold n; cbn [app]; rewrite <- !app_assoc; reflexivity).
  rewrite header_fgets by lia. cbn [at_ nth]. rewrite Z.eqb_refl. cbn [negb drop]. rewrite drop_0, strtol_repr by lia.
  rewrite wrap_small by (unfold in_u; lia). rewrite Hmem by lia. cbn [negb].
  assert ((if n =? 0 then (Some [], Stream (o ++ CRLF ++ r) e) else fread n (Stream (o ++ CRLF ++ r) e)) = (Some o, Stream (CRLF ++ r) e)) as ->.
  { destruct (Z.eqb_spec n 0) as [E|_]; [|apply fread_app]. by destruct o. }
  by rewrite (fread_app CRLF r e : fread 2 _ = _).
Qed.

Lemma read_args_all a acc r e : Forall arg_ok a ->
  read_args zmalloc_ok (length a) acc (Stream (concat (map bulk a) ++ r) e) = Ret (inr (acc ++ a), Stream r e).
Proof using Hmem HM.
  intros Ha. revert acc. induction Ha as [|o a Ho _ IH]; intros acc; [by rewrite app_nil_r|].
  cbn [map concat length]. rewrite <- app_assoc, read_args_one, IH, <- app_assoc by done. done.
Qed.

(** The file ends within an argument. *)
Lemma read_args_bulk_cut k acc o m e : arg_ok o -> (m < length (bulk o))%nat ->
  exists f, read_args zmalloc_ok (S k) acc (Stream (take m (bulk o)) e) = Ret (inl ReadErr, f) /\ feof f = true.
Proof using Hmem HM.
  intros Ho Hm. unfold arg_ok in Ho. set (n := Z.of_nat (length o)) in *. cbn [read_args].
  set (h := 36 :: repr n ++ [13]).
  assert (bulk o = h ++ 10 :: o ++ CRLF) as Eb by (unfold bulk, h, CRLF; fold n; simpl; by rewrite <- !app_assoc).
  rewrite Eb in *. destruct (decide (m <= length h)%nat) as [Hle|Hgt].
  - rewrite take_app_le by done. destruct m as [|m]; [by eexists|].
    unfold h. rewrite header_cut by lia. cbn [take at_ nth]. rewrite Z.eqb_refl. cbn [negb drop]. rewrite drop_0.
    destruct (strtol_cut n m ltac:(lia)) as [Hs _]. set (len := strtol (take m (repr n ++ [13]))) in *. rewrite wrap_small by (unfold in_u; lia).
    rewrite Hmem by lia. cbn [negb]. destruct (Z.eqb_spec len 0).
    + rewrite fread_short by (simpl; lia). by eexists.
    + rewrite fread_short by (simpl; lia). by eexists.
  - rewrite take_app_ge by lia. set (j := (m - length h - 1)%nat).
    replace (m - length h)%nat with (S j) by lia. cbn [take].
    assert (h ++ 10 :: take j (o ++ CRLF) = 36 :: repr n ++ CRLF ++ take j (o ++ CRLF)) as -> by (unfold h, CRLF; simpl; by rewrite <- app_assoc).
    rewrite header_fgets by lia. cbn [at_ nth]. rewrite Z.eqb_refl. cbn [negb drop]. rewrite drop_0, strtol_repr by lia.
    rewrite wrap_small by (unfold in_u; lia). rewrite Hmem by lia. cbn [negb].
    assert (j < length o + 2)%nat as Hj by (rewrite length_app, length_cons, length_app in Hm; change (length CRLF) with 2%nat in Hm; lia).
    destruct (decide (j < length o)%nat) as [Hs|Hs].
    + destruct (Z.eqb_spec n 0); [lia|]. rewrite fread_short by (simpl; rewrite length_take; lia). by eexists.
    + rewrite take_app_ge by lia.
      assert ((if n =? 0 then (Some [], Stream (o ++ take (j - length o) CRLF) e) else fread n (Stream (o ++ take (j - length o) CRLF) e))
        = (Some o, Stream (take (j - length o) CRLF) e)) as ->.
      { destruct (Z.eqb_spec n 0) as [E|_]; [|apply fread_app]. by destruct o. }
      rewrite fread_short by (cbn [rest]; rewrite length_take; simpl; lia). by eexists.
Qed.

(** The file ends within the arguments. *)
Lemma read_args_cut a m acc e : Forall arg_ok a -> (m < length (concat (map bulk a)))%nat ->
  exists f, read_args zmalloc_ok (length a) acc (Stream (take m (concat (map bulk a))) e) = Ret (inl ReadErr, f) /\ feof f = true.
Proof using Hmem HM.
  intros Ha. revert m acc. induction Ha as [|o a Ho _ IH]; intros m acc Hm; cbn [map concat length] in *; [lia|].
  rewrite length_app in Hm. destruct (decide (m < length (bulk o))%nat) as [Hs|Hs].
  - rewrite take_app_le by lia. by apply read_args_bulk_cut.
  - rewrite take_app_ge, read_args_one by (done || lia). apply IH. lia.
Qed.

End Args.

(** ** The loop over items *)

Section Loop.
Context {D : Type} (known : argv -> bool) (proc : Z -> argv -> D -> D) (acl : argv -> bool).
Context (zmalloc_ok : Z -> bool) (dbnum : Z) (cluster_enabled : bool).
Context (M : Z) (Hmem : forall n, 0 <= n <= M -> zmalloc_ok n = true) (HM : M < 2 ^ 31).

Definition item_ok (i : item) : Prop :=
  match i with
  | Note t => Forall (fun c => c <> 10) t /\ (length t < 1000)%nat
  | Cmd a => a <> [] /\ Forall (arg_ok M) a /\ 8 * Z.of_nat (length a) <= M
  end.

(** The loader between two items, at an offset of the file. *)
Record lst := Lst { l_cl : client; l_data : D; l_pos : Z; l_up : Z; l_multi : Z }.

Definition istep (trunc : bool) (l : lst) (i : item) : outcome lst :=
  let pos := l_pos l + Z.of_nat (length (ibytes i)) in
  match i with
  | Note _ => Ret (Lst (l_cl l) (l_data l) pos (l_up l) (l_multi l))
  | Cmd a =>
      match lookupCommand known a with
      | None => Abort
      | Some cmd =>
          let* (c, d) := run_command proc acl dbnum cluster_enabled cmd a (l_cl l, l_data l) in
          Ret (Lst c d pos (if trunc then pos else l_up l) (match cmd with MULTI => l_up l | _ => l_multi l end))
      end
  end.

Fixpoint irun (trunc : bool) (l : lst) (items : list item) : outcome lst :=
  match items with [] => Ret l | i :: items => let* l := istep trunc l i in irun trunc l items end.

Lemma irun_app trunc l a b : irun trunc l (a ++ b) = let* l := irun trunc l a in irun trunc l b.
Proof. revert l. induction a as [|i a IH]; intros l; [done|]. cbn [app irun]. destruct (istep trunc l i); [done|]. apply IH. Qed.

Lemma irun_pos trunc l items l' : irun trunc l items = Ret l' -> l_pos l' = l_pos l + Z.of_nat (length (bytes_of items)).
Proof.
  revert l. induction items as [|i items IH]; intros l H; [injection H as <-; simpl; lia|]. cbn [irun] in H.
  destruct (istep trunc l i) as [|l1] eqn:E; [done|]. apply IH in H. unfold bytes_of in *. cbn [map concat]. rewrite length_app.
  assert (l_pos l1 = l_pos l + Z.of_nat (length (ibytes i))); [|lia]. unfold istep in E. destruct i as [t|a]; [by injection E as <-|].
  destruct (lookupCommand known a) as [cmd|]; [|done]. destruct (run_command _ _ _ _ cmd a _) as [|[c d]]; [done|]. by injection E as <-.
Qed.

Definition loading_of (l : lst) (r : list Z) (e : bool) : loading := Loading (Stream r e) (l_cl l) (l_data l) (l_up l) (l_multi l).

#[local] Abbreviation loadstep := (load_step known proc acl zmalloc_ok dbnum cluster_enabled).
#[local] Abbreviation loadloop := (load_loop known proc acl zmalloc_ok dbnum cluster_enabled).

Lemma argc_ok (a : argv) : a <> [] -> 8 * Z.of_nat (length a) <= M -> 0 < Z.of_nat (length a) < 2 ^ 31.
Proof using HM. intros Ha H. destruct a; [done|]. simpl in *. lia. Qed.

Lemma at1_repr c n s : 0 < n < 2 ^ 63 -> (at_ (c :: repr n ++ s) 1 =? 0) = false.
Proof. intros Hn. destruct (repr_first n Hn) as (d & ds & -> & Hd & _). apply Z.eqb_neq. unfold at_. simpl. lia. Qed.

Lemma load_step_item trunc size l i r e l' : item_ok i -> istep trunc l i = Ret l' -> size = l_pos l' + Z.of_nat (length r) ->
  loadstep trunc size (loading_of l (ibytes i ++ r) e) = Ret (inr tt, loading_of l' r e).
Proof using HM Hmem.
  intros Hi Hs Hz. unfold AofLog.load_step, loading_of in *. cbn [file cl data valid_up_to valid_before_multi]. destruct i as [t|a].
  - destruct Hi as [Ht Hl]. injection Hs as <-. cbn [ibytes]. change ((35 :: t ++ [10]) ++ r) with ((35 :: t ++ [10]) ++ r).
    replace ((35 :: t ++ [10]) ++ r) with ((35 :: t) ++ 10 :: r) by (cbn [app]; by rewrite <- app_assoc).
    rewrite fgets_whole by (simpl; (constructor; done) || lia). done.
  - destruct Hi as (Hne & Ha & Hlen). pose proof (argc_ok a Hne Hlen) as Hc. cbn [ibytes]. unfold enc.
    set (n := Z.of_nat (length a)) in *.
    replace ((42 :: repr n ++ CRLF ++ concat (map bulk a)) ++ r) with (42 :: repr n ++ CRLF ++ (concat (map bulk a) ++ r)) by (cbn [app]; by rewrite <- !app_assoc).
    rewrite header_fgets by lia. rewrite at1_repr by lia. cbn [at_ nth drop]. rewrite drop_0. unfold atoi. rewrite strtol_repr, swrap_small by (unfold in_s; lia).
    change (42 =? 35) with false. change (42 =? 42) with true. cbn [negb]. rewrite (proj2 (Z.ltb_ge n 1)) by lia. rewrite Hmem by lia. cbn [negb].
    unfold n. rewrite Nat2Z.id. rewrite (read_args_all zmalloc_ok M Hmem) by (done || lia). cbn [obind app].
    unfold istep in Hs. destruct (lookupCommand known a) as [cmd|]; [|done]. destruct (run_command _ _ _ _ cmd a _) as [|[c d]]; [done|].
    injection Hs as <-. cbn [obind rest l_cl l_data l_up l_multi l_pos] in *. subst size. do 3 f_equal. destruct trunc; [|done]. lia.
Qed.

Lemma load_loop_items trunc size items l l' r e fuel : Forall item_ok items -> irun trunc l items = Ret l' -> size = l_pos l' + Z.of_nat (length r) ->
  loadloop (length items + fuel) trunc size (loading_of l (bytes_of items ++ r) e) = loadloop fuel trunc size (loading_of l' r e).
Proof using HM Hmem.
  intros Hi. revert l. induction Hi as [|i items Hi Hit IH]; intros l Hr Hz; [by injection Hr as <-|].
  cbn [irun] in Hr. destruct (istep trunc l i) as [|l1] eqn:E; [done|]. cbn [obind] in Hr.
  unfold bytes_of. cbn [map concat length Nat.add AofLog.load_loop]. rewrite <- app_assoc. fold (bytes_of items).
  pose proof (irun_pos _ _ _ _ Hr) as Hp.
  rewrite (load_step_item trunc size l i _ e l1) by (done || (rewrite length_app; lia)). cbn [obind]. by apply IH.
Qed.

(** A cut item is detected: the end of the file has been met. *)
Lemma load_loop_note trunc size l t m e fuel : item_ok (Note t) -> (m < length (ibytes (Note t)))%nat ->
  exists e', loadloop (S (S fuel)) trunc size (loading_of l (take m (ibytes (Note t))) e) = Ret (None, loading_of l [] e').
Proof using.
  intros [Ht Hl] Hm. unfold loading_of. destruct m as [|m]; [by eexists|]. cbn [ibytes take] in *. cbn [AofLog.load_loop].
  unfold AofLog.load_step at 1. cbn [file cl data valid_up_to valid_before_multi].
  assert (m <= length t)%nat as Hmt by (simpl in Hm; rewrite length_app in Hm; simpl in Hm; lia). rewrite (take_app_le t [10] m) by done.
  rewrite fgets_cut; [|done|by constructor; [|apply Forall_take]|simpl; rewrite length_take; lia]. cbn [at_ nth]. change (35 =? 35) with true.
  cbn [obind]. by eexists.
Qed.

Lemma load_step_cut trunc size l a m e : item_ok (Cmd a) -> (0 < m < length (enc a))%nat ->
  exists f, loadstep trunc size (loading_of l (take m (enc a)) e) =
    Ret (inl (Some ReadErr), Loading f (l_cl l) (l_data l) (l_up l) (l_multi l)) /\ feof f = true.
Proof using HM Hmem.
  intros (Hne & Ha & Hlen) Hm. pose proof (argc_ok a Hne Hlen) as Hc. unfold enc in *. set (n := Z.of_nat (length a)) in *.
  set (h := 42 :: repr n ++ [13]).
  assert (42 :: repr n ++ CRLF ++ concat (map bulk a) = h ++ 10 :: concat (map bulk a)) as Eb by (unfold h, CRLF; cbn [app]; by rewrite <- app_assoc).
  rewrite Eb in *. unfold AofLog.load_step, loading_of. cbn [file cl data valid_up_to valid_before_multi].
  destruct (decide (m <= length h)%nat) as [Hle|Hgt].
  - rewrite take_app_le by done. unfold h. rewrite header_cut by lia. destruct m as [|m]; [lia|]. cbn [take at_ nth].
    change (42 =? 35) with false. change (42 =? 42) with true. cbn [negb drop]. rewrite drop_0. destruct (decide (m = 0%nat)) as [->|Hm0].
    { cbn [take nth]. change (0 =? 0) with true. by eexists. }
    destruct (strtol_cut n m ltac:(lia)) as [Hs Hs0]. set (v := strtol (take m (repr n ++ [13]))) in *.
    assert ((nth 0 (take m (repr n ++ [13])) 0 =? 0) = false) as ->.
    { destruct (repr_first n ltac:(lia)) as (d & ds & -> & Hd & _). destruct m; [done|]. apply Z.eqb_neq. simpl. lia. }
    unfold atoi. fold v. rewrite swrap_small by (unfold in_s; lia). rewrite (proj2 (Z.ltb_ge v 1)) by lia. rewrite Hmem by lia. cbn [negb].
    destruct (Z.to_nat v) as [|k] eqn:Ek; [lia|]. by eexists.
  - rewrite take_app_ge by lia. set (j := (m - length h - 1)%nat). replace (m - length h)%nat with (S j) by lia. cbn [take].
    assert (h ++ 10 :: take j (concat (map bulk a)) = 42 :: repr n ++ CRLF ++ take j (concat (map bulk a))) as ->
      by (unfold h, CRLF; cbn [app]; by rewrite <- app_assoc).
    rewrite header_fgets by lia. rewrite at1_repr by lia. cbn [at_ nth drop]. rewrite drop_0. unfold atoi. rewrite strtol_repr, swrap_small by (unfold in_s; lia).
    change (42 =? 35) with false. change (42 =? 42) with true. cbn [negb]. rewrite (proj2 (Z.ltb_ge n 1)) by lia. rewrite Hmem by lia. cbn [negb].
    unfold n. rewrite Nat2Z.id. destruct (read_args_cut zmalloc_ok M Hmem ltac:(lia) a j [] e Ha) as (f & -> & Hf).
    { rewrite length_app, length_cons in Hm. lia. }
    by exists f.
Qed.

End Loop.

(** ** What is written, as items *)

Definition emit (items : list item) (s : server) : server :=
  Server (aof_timestamp_enabled s) (aof_cur_timestamp s) (unixtime s) (aof_selected_db s) (logging s) (aof_buf s ++ bytes_of items).

Definition notes (s : server) : list item :=
  if aof_timestamp_enabled s && (aof_cur_timestamp s <? unixtime s) then [Note (chars "TS:" ++ repr (unixtime s) ++ [13])] else [].
Definition selects (dictid : Z) (s : server) : list item :=
  if negb (dictid =? -1) && negb (dictid =? aof_selected_db s) then [Cmd [chars "SELECT"; repr dictid]] else [].
Definition fed (op : Z * argv) (s : server) : list item := notes s ++ selects (fst op) s ++ [Cmd (snd op)].
Definition fed_server (op : Z * argv) (s : server) : server :=
  Server (aof_timestamp_enabled s)
    (if aof_timestamp_enabled s && (aof_cur_timestamp s <? unixtime s) then unixtime s else aof_cur_timestamp s)
    (unixtime s) (if fst op =? -1 then aof_selected_db s else fst op) (logging s) (aof_buf s).

Fixpoint fed_ops (ops : list (Z * argv)) (s : server) : list item :=
  match ops with [] => [] | op :: ops => fed op s ++ fed_ops ops (fed_server op s) end.
Definition fed_ops_server (ops : list (Z * argv)) (s : server) : server := fold_left (fun s op => fed_server op s) ops s.

Definition multi_op : Z * argv := (-1, [chars "MULTI"]).
Definition exec_op : Z * argv := (-1, [chars "EXEC"]).
Definition all_ops (u : unit_) : list (Z * argv) := if transaction u then multi_op :: ops u ++ [exec_op] else ops u.

Lemma bytes_of_app a b : bytes_of (a ++ b) = bytes_of a ++ bytes_of b.
Proof. unfold bytes_of. by rewrite map_app, concat_app. Qed.

Lemma emit_emit a b s : emit b (emit a s) = emit (a ++ b) s.
Proof. unfold emit. simpl. by rewrite bytes_of_app, app_assoc. Qed.

Lemma emit_nil s : emit [] s = s.
Proof. destruct s. unfold emit. simpl. by rewrite app_nil_r. Qed.

Lemma fed_emit items op s : fed op (emit items s) = fed op s /\ fed_server op (emit items s) = emit items (fed_server op s).
Proof. done. Qed.

Lemma fed_ops_emit ops items s : fed_ops ops (emit items s) = fed_ops ops s /\ fed_ops_server ops (emit items s) = emit items (fed_ops_server ops s).
Proof.
  revert s. induction ops as [|op ops IH]; intros s; [done|]. cbn [fed_ops fed_ops_server fold_left]. destruct (fed_emit items op s) as [-> ->].
  destruct (IH (fed_server op s)) as [-> E]. split; [done|exact E].
Qed.

Lemma fed_ops_app a b s : fed_ops (a ++ b) s = fed_ops a s ++ fed_ops b (fed_ops_server a s).
Proof. revert s. induction a as [|op a IH]; intros s; [done|]. cbn [app fed_ops]. by rewrite IH, <- app_assoc. Qed.

Lemma catHeader_spec dst c n : 0 <= n < 2 ^ 63 -> catHeader dst c n = dst ++ c :: repr n ++ CRLF.
Proof.
  intros Hn. unfold catHeader. pose proof (ll2string_spec (replicate 31 0) 31 n ltac:(unfold in_s; lia) eq_refl) as H.
  destruct (repr_length n ltac:(unfold in_s; lia)) as [Hl Hd]. rewrite (proj2 (Z.ltb_lt (sdigits10 n) 31)) in H by lia. rewrite H.
  do 3 f_equal. rewrite <- Hl, Nat2Z.id. unfold store. rewrite take_0. cbn [app]. by rewrite <- app_assoc, take_app_length.
Qed.

Lemma cat_enc dst a : Z.of_nat (length a) < 2 ^ 63 -> Forall (fun o : list Z => Z.of_nat (length o) < 2 ^ 63) a ->
  catAppendOnlyGenericCommand dst a = dst ++ enc a.
Proof.
  intros Hn Ha. unfold catAppendOnlyGenericCommand, enc. rewrite catHeader_spec by lia.
  assert (forall acc, fold_left (fun dst o => catHeader dst 36 (Z.of_nat (length o)) ++ o ++ CRLF) a acc = acc ++ concat (map bulk a)) as ->.
  { induction Ha as [|o a Ho _ IH]; intros acc; [by rewrite app_nil_r|]. cbn [fold_left map concat]. rewrite IH by (simpl in Hn; lia).
    rewrite catHeader_spec by lia. unfold bulk. rewrite <- !app_assoc. cbn [app]. by rewrite <- !app_assoc. }
  rewrite <- !app_assoc. cbn [app]. by rewrite <- !app_assoc.
Qed.

Section Units.
Context {D : Type} (known : argv -> bool) (proc : Z -> argv -> D -> D) (acl : argv -> bool).
Context (zmalloc_ok : Z -> bool) (dbnum : Z) (cluster_enabled : bool).
Context (M : Z) (Hmem : forall n, 0 <= n <= M -> zmalloc_ok n = true) (HM : 64 <= M < 2 ^ 31) (Hdb : 0 <= dbnum < 2 ^ 31).
Context (Hcluster : cluster_enabled = true -> dbnum = 1).

Definition clock_ok (s : server) : Prop := logging s = true /\ 0 <= unixtime s < 2 ^ 63.

Lemma notes_bytes s : clock_ok s ->
  (if aof_timestamp_enabled s then genAofTimestampAnnotationIfNeeded s else Ret (s, [])) =
  Ret (fed_server (-1, []) s, bytes_of (notes s)).
Proof using.
  intros [_ Ht]. unfold genAofTimestampAnnotationIfNeeded, notes, fed_server. cbn [fst]. change (-1 =? -1) with true.
  destruct s as [en cur now sel lg buf]. cbn [aof_timestamp_enabled aof_cur_timestamp unixtime aof_selected_db logging aof_buf] in *.
  destruct en; [|done]. cbn [andb]. destruct (cur <? now); [|done].
  destruct (repr_length now ltac:(unfold in_s; lia)) as [Hl Hd].
  rewrite (proj2 (Nat.leb_le _ _)); [|unfold AOF_ANNOTATION_LINE_MAX_LEN; rewrite !length_app; simpl length; lia].
  do 2 f_equal. unfold bytes_of, CRLF. cbn [map concat ibytes]. rewrite app_nil_r, <- !app_assoc.
  change (chars "#TS:") with (35 :: chars "TS:"). cbn [app]. done.
Qed.

Lemma feed_fed op s : clock_ok s -> fst op = -1 \/ 0 <= fst op < dbnum -> item_ok M (Cmd (snd op)) ->
  feedAppendOnlyFile dbnum (fst op) (snd op) s = Ret (emit (fed op s) (fed_server op s)).
Proof using HM Hdb.
  intros Hs Hr (Hne & Ha & Hlen). destruct op as [dictid args]. cbn [fst snd] in *. unfold feedAppendOnlyFile.
  rewrite notes_bytes by done. replace (negb _) with false by (destruct Hr as [->|Hr]; [done|]; symmetry; zbool; lia).
  cbn [obind]. destruct Hs as [Hlg Ht].
  assert (forall dst, catAppendOnlyGenericCommand dst args = dst ++ enc args) as Hcat.
  { intros dst. pose proof (argc_ok M ltac:(lia) args Hne Hlen). apply cat_enc; [lia|]. eapply Forall_impl; [exact Ha|].
    unfold arg_ok. intros o Ho. simpl in Ho. lia. }
  assert (bytes_of [Cmd args] = enc args) as Henc by (unfold bytes_of; simpl; by rewrite app_nil_r).
  unfold fed, selects, emit, fed_server.
  cbn [fst snd aof_timestamp_enabled aof_cur_timestamp unixtime aof_selected_db logging aof_buf].
  change (-1 =? -1) with true. cbn iota. rewrite !bytes_of_app, Henc, Hlg. destruct (Z.eqb_spec dictid (-1)) as [->|Hd]; cbn [negb andb].
  { by rewrite Hcat. }
  destruct (Z.eqb_spec dictid (aof_selected_db s)) as [<-|Hsel]; cbn [negb]; rewrite Hcat; [done|].
  do 2 f_equal. rewrite <- !app_assoc. do 2 f_equal. unfold bytes_of. cbn [map concat ibytes]. unfold enc. cbn [map concat length].
  unfold bulk. change (Z.of_nat (length (chars "SELECT"))) with 6. change (repr (Z.of_nat 2)) with (chars "2"). change (repr 6) with (chars "6").
  change (chars "*2") with (42 :: chars "2"). change (chars "$6") with (36 :: chars "6"). change (chars "$") with [36].
  cbn [app]. rewrite !app_nil_r. rewrite <- !app_assoc. cbn [app]. rewrite <- !app_assoc. cbn [app]. by rewrite <- !app_assoc.
Qed.

(** A command of a unit: an ordinary one, of a size the allocator can provide. *)
Definition op_ok (op : Z * argv) : Prop :=
  0 <= fst op < dbnum /\ item_ok M (Cmd (snd op)) /\ lookupCommand known (snd op) = Some OTHER.

(** Units are atomic: several commands are in a transaction, which the default user may run. *)
Record unit_ok (u : unit_) : Prop := {
  uo_ops : Forall op_ok (ops u);
  uo_one : transaction u = false -> (length (ops u) <= 1)%nat;
  uo_acl : transaction u = true -> Forall (fun op => acl (snd op) = true /\ acl [chars "SELECT"; repr (fst op)] = true) (ops u) }.

Definition feedable (op : Z * argv) : Prop := (fst op = -1 \/ 0 <= fst op < dbnum) /\ item_ok M (Cmd (snd op)).

Lemma feed_ops l s : clock_ok s -> Forall feedable l ->
  fold_left (fun s op => let* s := s in feedAppendOnlyFile dbnum (fst op) (snd op) s) l (Ret s) = Ret (emit (fed_ops l s) (fed_ops_server l s)).
Proof using HM Hdb.
  intros Hs Hl. revert s Hs. induction Hl as [|op l [Hr Hi] _ IH]; intros s Hs; [cbn; by rewrite emit_nil|].
  cbn [fold_left obind]. rewrite feed_fed by done. rewrite IH by done. destruct (fed_ops_emit l (fed op s) (fed_server op s)) as [-> ->].
  by rewrite emit_emit.
Qed.

Lemma all_feedable u : unit_ok u -> Forall feedable (all_ops u).
Proof using HM.
  intros [H _ _]. assert (Forall feedable (ops u)) as Hf by (eapply Forall_impl; [exact H|]; intros op (? & ? & _); split; [by right|done]).
  unfold all_ops. destruct (transaction u); [|done]. constructor; [|apply Forall_app; split; [done|constructor; [|constructor]]].
  all: split; [by left|]; split; [done|]; split; [|simpl; lia]; constructor; [|constructor]; unfold arg_ok; simpl; lia.
Qed.

(** A unit appends its items. *)
Lemma propagate_items u s : clock_ok s -> unit_ok u ->
  propagatePendingCommands dbnum u s = Ret (emit (fed_ops (all_ops u) s) (fed_ops_server (all_ops u) s)).
Proof using HM Hdb.
  intros Hs Hu. pose proof (all_feedable u Hu) as Hf. rewrite <- feed_ops by done. unfold propagatePendingCommands, all_ops in *.
  cbv zeta. destruct (transaction u); [|cbn [obind]; by destruct (fold_left _ _ _)]. cbn [fold_left obind]. rewrite fold_left_app.
  change (feedAppendOnlyFile dbnum (-1) [chars "MULTI"] s) with (feedAppendOnlyFile dbnum (fst multi_op) (snd multi_op) s).
  apply Forall_cons_1 in Hf as [[Hr Hi] Hf]. rewrite !(feed_fed multi_op) by done. cbn [obind fold_left]. done.
Qed.

(** ** Executing the items of a unit *)

#[local] Abbreviation irun := (irun known proc acl dbnum cluster_enabled true).

Definition apply_op (d : D) (op : Z * argv) : D := proc (fst op) (snd op) d.
Definition apply_unit (d : D) (u : unit_) : D := fold_left apply_op (ops u) d.

Definition is_note (i : item) : Prop := match i with Note _ => True | Cmd _ => False end.
Definition queueable (i : item) : Prop :=
  match i with Note _ => True | Cmd a => lookupCommand known a = Some SELECT \/ lookupCommand known a = Some OTHER end.
Definition queue_of (items : list item) : list (command * argv) :=
  omap (fun i => match i with Note _ => None | Cmd a => cmd ← lookupCommand known a; Some (cmd, a) end) items.

Definition in_file (l : lst (D := D)) : Prop := l_up l <= l_pos l.

Lemma lookup_select a : lookupCommand known (chars "SELECT" :: a) = Some SELECT.
Proof using. done. Qed.

Lemma select_ok id c : 0 <= id < dbnum -> selectCommand dbnum cluster_enabled [chars "SELECT"; repr id] c = Ret (Client id (multi c)).
Proof using Hdb Hcluster.
  intros Hid. unfold selectCommand. cbn [lookup list_lookup]. rewrite (proj2 (string2ll_spec (repr id) id)) by (split; [unfold in_s; lia|done]).
  replace (_ || _) with false by (unfold INT_MIN, INT_MAX; symmetry; zbool; lia).
  replace (cluster_enabled && _) with false; [|symmetry; apply andb_false_iff; destruct cluster_enabled; [right; rewrite Hcluster in Hid by done|by left]].
  - unfold selectDb. replace (_ || _) with false; [done|]. symmetry. zbool; lia.
  - replace id with 0 by lia. done.
Qed.

Lemma notes_run l items : Forall is_note items -> irun l items =
  Ret (Lst (l_cl l) (l_data l) (l_pos l + Z.of_nat (length (bytes_of items))) (l_up l) (l_multi l)).
Proof using.
  intros H. revert l. induction H as [|i items Hi _ IH]; intros l; [destruct l; cbn; by rewrite Z.add_0_r|]. destruct i; [|done].
  cbn [AofLogSafe.irun istep obind]. rewrite IH. cbn [l_cl l_data l_pos l_up l_multi]. unfold bytes_of. cbn [map concat]. rewrite length_app. do 2 f_equal. lia.
Qed.

Lemma queue_run l items q : multi (l_cl l) = Some q -> Forall queueable items -> in_file l ->
  exists l', irun l items = Ret l' /\ l_cl l' = Client (db (l_cl l)) (Some (q ++ queue_of items)) /\ l_data l' = l_data l /\
    l_up l <= l_up l' /\ in_file l' /\ l_multi l' = l_multi l.
Proof using.
  intros Hq Hi. revert l q Hq. induction Hi as [|i items Hi _ IH]; intros l q Hq Hf.
  { exists l. rewrite app_nil_r. destruct l as [[b m] d p up mu]. simpl in *. subst m. repeat split; (done || lia). }
  cbn [AofLogSafe.irun]. destruct i as [t|a].
  - cbn [istep obind]. destruct (IH (Lst (l_cl l) (l_data l) (l_pos l + Z.of_nat (length (ibytes (Note t)))) (l_up l) (l_multi l)) q Hq) as (l' & H);
      [unfold in_file in *; simpl in *; lia|]. by exists l'.
  - set (p := l_pos l + Z.of_nat (length (ibytes (Cmd a)))). unfold in_file in Hf.
    assert (exists cmd, lookupCommand known a = Some cmd /\ istep known proc acl dbnum cluster_enabled true l (Cmd a) =
      Ret (Lst (Client (db (l_cl l)) (Some (q ++ [(cmd, a)]))) (l_data l) p p (l_multi l))) as (cmd & Hc & Hs).
    { unfold istep, run_command. rewrite Hq. destruct Hi as [Hi|Hi]; rewrite Hi; eexists; split; done. }
    rewrite Hs. cbn [obind]. destruct (IH (Lst (Client (db (l_cl l)) (Some (q ++ [(cmd, a)]))) (l_data l) p p (l_multi l)) (q ++ [(cmd, a)]) eq_refl) as (l' & H1 & H2 & H3 & H4 & H5 & H6);
      [unfold in_file; simpl; lia|].
    exists l'. repeat split; try done; [|simpl in H4; lia]. rewrite H2. unfold queue_of. cbn [omap list_omap]. rewrite Hc. cbn [mbind option_bind].
    by rewrite <- app_assoc.
Qed.

(** The loader's database is the one the log is in. *)
Definition sel_ok (b : Z) (s : server) : Prop := aof_selected_db s = -1 \/ b = aof_selected_db s.

Lemma notes_are s : Forall is_note (notes s).
Proof using. unfold notes. destruct (_ && _); by repeat constructor. Qed.

Lemma queue_of_app a b : queue_of (a ++ b) = queue_of a ++ queue_of b.
Proof using. unfold queue_of. apply omap_app. Qed.

Lemma queue_of_notes items : Forall is_note items -> queue_of items = [].
Proof using. induction 1 as [|[] items Hi _ IH]; done. Qed.

#[local] Abbreviation exec_queue := (fold_left (fun cd q => let* cd := cd in if acl (snd q) then call proc dbnum cluster_enabled (fst q) (snd q) cd else Ret cd)).

Lemma queue_exec l s b m d : Forall op_ok l -> Forall (fun op => acl (snd op) = true /\ acl [chars "SELECT"; repr (fst op)] = true) l -> sel_ok b s ->
  exists b', exec_queue (queue_of (fed_ops l s)) (Ret (Client b m, d)) = Ret (Client b' m, fold_left apply_op l d) /\ sel_ok b' (fed_ops_server l s).
Proof using Hdb Hcluster.
  intros Hl Ha. revert s b d. induction Hl as [|op l (Hr & _ & Ho) _ IH]; intros s b d Hb; [by exists b|].
  apply Forall_cons_1 in Ha as [[Ha1 Ha2] Ha]. cbn [fed_ops fed_ops_server fold_left]. unfold fed. rewrite !queue_of_app, (queue_of_notes (notes s)) by apply notes_are.
  cbn [app]. rewrite <- app_assoc, !fold_left_app.
  assert (exec_queue (queue_of (selects (fst op) s)) (Ret (Client b m, d)) = Ret (Client (fst op) m, d)) as ->.
  { unfold selects. destruct (Z.eqb_spec (fst op) (-1)); [lia|]. cbn [negb andb]. destruct (Z.eqb_spec (fst op) (aof_selected_db s)) as [E|E]; cbn [negb].
    - destruct Hb as [Hb| ->]; [lia|]. by rewrite E.
    - unfold queue_of. cbn [omap list_omap]. rewrite lookup_select. cbn [mbind option_bind fold_left obind fst snd call]. rewrite Ha2, select_ok by done. done. }
  assert (queue_of [Cmd (snd op)] = [(OTHER, snd op)]) as -> by (unfold queue_of; cbn [omap list_omap]; by rewrite Ho).
  cbn [fold_left obind fst snd call]. rewrite Ha1. cbn [db].
  apply (IH Ha (fed_server op s) (fst op) (apply_op d op)). right. unfold fed_server. cbn. destruct (Z.eqb_spec (fst op) (-1)); [lia|done].
Qed.

(** Between the items of a unit nothing has been executed. *)
Record mid (l0 l : lst (D := D)) : Prop := {
  mid_data : l_data l = l_data l0; mid_up : l_up l0 <= l_up l; mid_file : in_file l;
  mid_multi : multi (l_cl l) <> None -> l_multi l = l_up l0 }.

Definition partial (l0 : lst) (items : list item) : Prop :=
  forall pre suf, items = pre ++ suf -> suf <> [] -> exists l, irun l0 pre = Ret l /\ mid l0 l.

Lemma queue_items l s : Forall op_ok l -> Forall queueable (fed_ops l s).
Proof using.
  intros H. revert s. induction H as [|op l (_ & _ & Ho) _ IH]; intros s; [constructor|]. cbn [fed_ops]. unfold fed, notes, selects.
  repeat rewrite Forall_app. repeat split.
  - by destruct (_ && _); repeat constructor.
  - destruct (_ && _); [|constructor]. constructor; [by left|constructor].
  - constructor; [by right|constructor].
  - apply IH.
Qed.

Lemma snoc_split {A} (a : list A) x pre suf : a ++ [x] = pre ++ suf -> suf <> [] -> exists suf', suf = suf' ++ [x] /\ a = pre ++ suf'.
Proof using.
  intros E Hs. destruct suf as [|y suf _] using rev_ind; [done|]. rewrite app_assoc in E. apply app_inj_tail in E as [-> <-]. by exists suf.
Qed.

Lemma tx_items u s : transaction u = true -> exists q s1 s2, fed_ops (all_ops u) s = notes s ++ Cmd [chars "MULTI"] :: q ++ [Cmd [chars "EXEC"]] /\
  q = fed_ops (ops u) s1 ++ notes s2 /\ (forall b, sel_ok b s -> sel_ok b s1) /\
  (forall b, sel_ok b (fed_ops_server (ops u) s1) -> sel_ok b (fed_ops_server (all_ops u) s)).
Proof using.
  intros Ht. unfold all_ops. rewrite Ht. set (s1 := fed_server multi_op s). set (s2 := fed_ops_server (ops u) s1).
  exists (fed_ops (ops u) s1 ++ notes s2), s1, s2. cbn [fed_ops]. rewrite fed_ops_app. fold s1 s2. cbn [fed_ops]. unfold fed.
  split; [|split; [done|split; [done|]]].
  - cbn. by rewrite <- !app_assoc, app_nil_r.
  - intros b Hb. unfold fed_ops_server. cbn [fold_left]. rewrite fold_left_app. exact Hb.
Qed.

(** A transaction. *)
Lemma tx_run u s l : unit_ok u -> transaction u = true -> multi (l_cl l) = None -> sel_ok (db (l_cl l)) s -> in_file l ->
  partial l (fed_ops (all_ops u) s) /\
  exists l', irun l (fed_ops (all_ops u) s) = Ret l' /\ l_data l' = apply_unit (l_data l) u /\ multi (l_cl l') = None /\
    sel_ok (db (l_cl l')) (fed_ops_server (all_ops u) s) /\ l_up l' = l_pos l'.
Proof using Hdb Hcluster.
  intros [Hops _ Hacl] Ht Hm Hs Hf. specialize (Hacl Ht). destruct (tx_items u s Ht) as (q & s1 & s2 & -> & Eq & Hs1 & Hs2).
  set (ln := Lst (l_cl l) (l_data l) (l_pos l + Z.of_nat (length (bytes_of (notes s)))) (l_up l) (l_multi l)).
  set (lm := Lst (Client (db (l_cl l)) (Some [])) (l_data l) (l_pos ln + Z.of_nat (length (enc [chars "MULTI"]))) (l_pos ln + Z.of_nat (length (enc [chars "MULTI"]))) (l_up l)).
  assert (istep known proc acl dbnum cluster_enabled true ln (Cmd [chars "MULTI"]) = Ret lm) as Em.
  { unfold istep. change (lookupCommand known [chars "MULTI"]) with (Some MULTI). unfold run_command. cbn [l_cl ln]. rewrite Hm.
    cbn [call obind]. rewrite Hm. done. }
  assert (Forall queueable q) as Hq.
  { rewrite Eq. apply Forall_app. split; [by apply queue_items|]. eapply Forall_impl; [apply notes_are|]. by intros []. }
  assert (in_file lm) as Hfm by (unfold in_file; simpl; lia).
  assert (forall q', Forall queueable q' -> exists l', irun l (notes s ++ Cmd [chars "MULTI"] :: q') = Ret l' /\
    l_cl l' = Client (db (l_cl l)) (Some (queue_of q')) /\ mid l l') as Hrun.
  { intros q' Hq'. destruct (queue_run lm q' [] eq_refl Hq' Hfm) as (l' & H1 & H2 & H3 & H4 & H5 & H6). exists l'.
    rewrite irun_app, (notes_run l (notes s)) by apply notes_are. cbn [obind]. fold ln. cbn [AofLogSafe.irun]. rewrite Em. cbn [obind].
    split; [done|]. split; [done|]. unfold in_file in *. simpl in *. split; (done || lia). }
  split.
  - intros pre suf E Hsuf. rewrite app_comm_cons, app_assoc in E. apply snoc_split in E as (suf' & -> & E); [|done].
    apply app_eq_inv in E as [(r & En & E)|(r & -> & E)].
    + exists (Lst (l_cl l) (l_data l) (l_pos l + Z.of_nat (length (bytes_of pre))) (l_up l) (l_multi l)).
      pose proof (notes_are s) as Hn. rewrite En in Hn. apply Forall_app in Hn as [Hn _].
      rewrite notes_run by done. split; [done|]. split; unfold in_file in *; simpl; (done || lia || by rewrite Hm).
    + destruct r as [|i r]; [|injection E as <- E].
      * rewrite app_nil_r, notes_run by apply notes_are. eexists. split; [done|]. split; unfold in_file in *; simpl; (done || lia || by rewrite Hm).
      * rewrite E in Hq. apply Forall_app in Hq as [Hr _]. destruct (Hrun r Hr) as (l' & H1 & _ & H3). by exists l'.
  - destruct (Hrun q Hq) as (l' & H1 & H2 & [H3 H4 H5 H6]).
    destruct (queue_exec (ops u) s1 (db (l_cl l)) (Some (queue_of q)) (l_data l) Hops Hacl (Hs1 _ Hs)) as (b' & Hx & Hb').
    eexists. rewrite app_comm_cons, app_assoc, irun_app, H1. cbn [obind AofLogSafe.irun]. unfold istep.
    change (lookupCommand known [chars "EXEC"]) with (Some EXEC). unfold run_command. rewrite H2. cbn [multi]. unfold execCommand. cbn [fst multi].
    rewrite H3. assert (queue_of q = queue_of (fed_ops (ops u) s1)) as Equ by (by rewrite Eq, queue_of_app, (queue_of_notes (notes s2)), app_nil_r by apply notes_are).
    rewrite Equ in Hx |- *. rewrite Hx. cbn [obind]. split; [done|]. cbn. split; [done|]. split; [done|]. split; [by apply Hs2|done].
Qed.

(** A command on its own. *)
Lemma one_run op s l : op_ok op -> multi (l_cl l) = None -> sel_ok (db (l_cl l)) s -> in_file l ->
  partial l (fed op s) /\
  exists l', irun l (fed op s) = Ret l' /\ l_data l' = apply_op (l_data l) op /\ multi (l_cl l') = None /\
    sel_ok (db (l_cl l')) (fed_server op s) /\ l_up l' = l_pos l'.
Proof using Hdb Hcluster.
  intros (Hr & _ & Ho) Hm Hs Hf. unfold fed. set (ns := notes s). pose proof (notes_are s : Forall is_note ns) as Hn.
  assert (exists l1, irun l (ns ++ selects (fst op) s) = Ret l1 /\ l_cl l1 = Client (fst op) None /\ mid l l1) as (l1 & H1 & H2 & H3).
  { rewrite irun_app, notes_run by done. cbn [obind]. unfold selects. destruct (Z.eqb_spec (fst op) (-1)); [lia|]. cbn [negb andb].
    destruct (Z.eqb_spec (fst op) (aof_selected_db s)) as [E|E]; cbn [negb].
    - eexists. split; [done|]. destruct Hs as [Hs|Hs]; [lia|]. cbn. split; [rewrite E, <- Hs, <- Hm; by destruct (l_cl l)|].
      split; unfold in_file in *; simpl; (done || lia || by rewrite Hm).
    - cbn [AofLogSafe.irun]. unfold istep. rewrite lookup_select. unfold run_command. cbn [l_cl]. rewrite Hm. cbn [call]. rewrite select_ok by done.
      cbn [obind]. rewrite Hm. eexists. split; [done|]. split; [done|]. split; unfold in_file in *; simpl; (done || lia). }
  assert (partial l (ns ++ selects (fst op) s ++ [Cmd (snd op)])) as Hp.
  { intros pre suf E Hsuf. rewrite app_assoc in E. apply snoc_split in E as (suf' & -> & E); [|done].
    destruct suf' as [|i suf']; [rewrite app_nil_r in E; subst pre; by exists l1|].
    assert (exists r, ns = pre ++ r) as [r En].
    { apply app_eq_inv in E as [(r & En & _)|(r & -> & E)]; [by exists r|]. exists []. rewrite app_nil_r.
      unfold selects in E. destruct (_ && _); [|by destruct r]. destruct r as [|? r]; [by rewrite app_nil_r|].
      injection E as _ E. by destruct r. }
    rewrite En in Hn. apply Forall_app in Hn as [Hn _]. rewrite notes_run by done. eexists. split; [done|].
    split; unfold in_file in *; simpl; (done || lia || by rewrite Hm). }
  split; [done|]. rewrite app_assoc, irun_app, H1. cbn [obind AofLogSafe.irun]. unfold istep. rewrite Ho. unfold run_command. rewrite H2. cbn [multi call obind db].
  destruct H3 as [H3 _ _ _]. rewrite H3. eexists. split; [done|]. cbn. split; [done|]. split; [done|]. split; [|done]. right. unfold fed_server. cbn.
  by destruct (Z.eqb_spec (fst op) (-1)); [lia|].
Qed.

Lemma unit_run u s l : unit_ok u -> multi (l_cl l) = None -> sel_ok (db (l_cl l)) s -> l_up l = l_pos l ->
  partial l (fed_ops (all_ops u) s) /\
  exists l', irun l (fed_ops (all_ops u) s) = Ret l' /\ l_data l' = apply_unit (l_data l) u /\ multi (l_cl l') = None /\
    sel_ok (db (l_cl l')) (fed_ops_server (all_ops u) s) /\ l_up l' = l_pos l'.
Proof using Hdb Hcluster.
  intros Hu Hm Hs Hf. assert (in_file l) as Hf' by (unfold in_file; lia). destruct (transaction u) eqn:Ht; [by apply tx_run|].
  destruct Hu as [Hops Hone _]. specialize (Hone Ht). unfold all_ops, apply_unit. rewrite Ht. destruct (ops u) as [|op [|]]; [| |simpl in Hone; lia].
  - split; [by intros [] [] ? ?|]. by exists l.
  - cbn [fed_ops fed_ops_server fold_left]. rewrite app_nil_r. apply Forall_cons_1 in Hops as [Hop _]. by apply one_run.
Qed.

(** ** Logs *)

(** The clock moves between units. *)
Definition tick (t : Z) (s : server) : server :=
  Server (aof_timestamp_enabled s) (aof_cur_timestamp s) t (aof_selected_db s) (logging s) (aof_buf s).

Fixpoint log_units (us : list (Z * unit_)) (s : server) : outcome server :=
  match us with [] => Ret s | (t, u) :: us => let* s := propagatePendingCommands dbnum u (tick t s) in log_units us s end.

(** The units whose last byte is among the first [n] of the log. *)
Fixpoint whole (s : server) (us : list (Z * unit_)) (n : nat) : list unit_ :=
  match us with
  | [] => []
  | (t, u) :: us =>
      match propagatePendingCommands dbnum u (tick t s) with
      | Ret s => if (length (aof_buf s) <=? n)%nat then u :: whole s us n else []
      | Abort => []
      end
  end.

Fixpoint log_items (us : list (Z * unit_)) (s : server) : list item :=
  match us with [] => [] | (t, u) :: us => fed_ops (all_ops u) (tick t s) ++ log_items us (fed_ops_server (all_ops u) (tick t s)) end.

Definition timed_ok (tu : Z * unit_) : Prop := 0 <= fst tu < 2 ^ 63 /\ unit_ok (snd tu).

Lemma log_items_emit us items s : log_items us (emit items s) = log_items us s.
Proof using.
  revert s. induction us as [|[t u] us IH]; intros s; [done|]. cbn [log_items]. change (tick t (emit items s)) with (emit items (tick t s)).
  destruct (fed_ops_emit (all_ops u) items (tick t s)) as [-> ->]. by rewrite IH.
Qed.

Lemma fed_ops_server_flags l s : logging (fed_ops_server l s) = logging s /\ aof_buf (fed_ops_server l s) = aof_buf s.
Proof using. revert s. induction l as [|op l IH]; intros s; [done|]. cbn [fed_ops_server fold_left]. by destruct (IH (fed_server op s)). Qed.

Lemma log_units_items us s : logging s = true -> Forall timed_ok us ->
  exists s', log_units us s = Ret s' /\ aof_buf s' = aof_buf s ++ bytes_of (log_items us s).
Proof using HM Hdb.
  intros Hl H. revert s Hl. induction H as [|[t u] us [Ht Hu] _ IH]; intros s Hl; [exists s; cbn; by rewrite app_nil_r|].
  cbn [log_units log_items]. rewrite propagate_items by (done || split; done). cbn [obind].
  destruct (fed_ops_server_flags (all_ops u) (tick t s)) as [H1 H2].
  destruct (IH (emit (fed_ops (all_ops u) (tick t s)) (fed_ops_server (all_ops u) (tick t s)))) as (s' & E1 & E2); [cbn [emit logging]; by rewrite H1|].
  exists s'. split; [done|]. rewrite E2, log_items_emit, bytes_of_app. cbn [emit aof_buf]. by rewrite H2, app_assoc.
Qed.

Lemma ibytes_pos i : (0 < length (ibytes i))%nat.
Proof using. destruct i; simpl; lia. Qed.

Lemma split_bytes items k : (k < length (bytes_of items))%nat ->
  exists pre it suf j, items = pre ++ it :: suf /\ take k (bytes_of items) = bytes_of pre ++ take j (ibytes it) /\ (j < length (ibytes it))%nat.
Proof using.
  revert k. induction items as [|i items IH]; intros k Hk; [simpl in Hk; lia|]. unfold bytes_of in *. cbn [map concat] in *. rewrite length_app in Hk.
  destruct (decide (k < length (ibytes i))%nat) as [Hs|Hs].
  - exists [], i, items, k. rewrite take_app_le by lia. done.
  - destruct (IH (k - length (ibytes i))%nat ltac:(lia)) as (pre & it & suf & j & -> & E & Hj).
    exists (i :: pre), it, suf, j. rewrite take_app_ge, E by lia. cbn [map concat]. by rewrite <- app_assoc.
Qed.

(** Where the loader is when the file ends after [n] bytes: between two items, or within one. *)
Record stopped (us : list (Z * unit_)) (s : server) (l : lst) (n : nat) (pre : list item) (l1 : lst) (p : Z) : Prop := {
  st_run : irun l pre = Ret l1;
  st_data : l_data l1 = fold_left apply_unit (whole s us n) (l_data l);
  st_base : l_pos l <= p <= l_up l1; st_file : in_file l1;
  st_multi : multi (l_cl l1) <> None -> l_multi l1 = p;
  st_same : forall m, p <= Z.of_nat m -> (m <= n)%nat -> whole s us m = whole s us n }.

Lemma stops us s l n : Forall timed_ok us -> logging s = true -> multi (l_cl l) = None -> sel_ok (db (l_cl l)) s -> l_up l = l_pos l ->
  l_pos l = Z.of_nat (length (aof_buf s)) -> (length (aof_buf s) <= n)%nat ->
  exists pre suf j l1 p, stopped us s l n pre l1 p /\ log_items us s = pre ++ suf /\
    take (n - length (aof_buf s)) (bytes_of (log_items us s)) = bytes_of pre ++ match suf with it :: _ => take j (ibytes it) | [] => [] end /\
    match suf with it :: _ => (j < length (ibytes it))%nat | [] => multi (l_cl l1) = None /\ whole s us n = map snd us end.
Proof using Hcluster Hdb HM.
  intros H. revert s l. induction H as [|[t u] us [Ht Hu] _ IH]; intros s l Hl Hm Hs Hup Hpos Hn.
  - exists [], [], 0%nat, l, (l_pos l). split; [|split; [done|split; [cbn; by rewrite take_nil|done]]].
    split; try done; [lia|unfold in_file; lia].
  - cbn [log_items]. set (U := fed_ops (all_ops u) (tick t s)). set (s1 := fed_ops_server (all_ops u) (tick t s)).
    destruct (fed_ops_server_flags (all_ops u) (tick t s)) as [H1 H2]. fold s1 in H1, H2. cbn [tick aof_buf logging] in H1, H2.
    destruct (unit_run u (tick t s) l Hu Hm Hs Hup) as (Hpart & l' & Hr & Hd' & Hm' & Hs' & Hup'). fold U in Hpart, Hr.
    pose proof (irun_pos _ _ _ _ _ _ _ _ _ Hr) as Hp'.
    assert (forall m, whole s ((t, u) :: us) m = if (length (aof_buf s) + length (bytes_of U) <=? m)%nat then u :: whole (emit U s1) us m else []) as Hw.
    { intros m. cbn [whole]. rewrite propagate_items by (done || split; done). fold U s1. cbn [emit aof_buf]. by rewrite H2, length_app. }
    destruct (decide (length (aof_buf s) + length (bytes_of U) <= n)%nat) as [Hle|Hgt].
    + destruct (IH (emit U s1) l') as (pre & suf & j & l1 & p & [S1 S2 S3 S4 S5 S6] & E1 & E2 & E3); try done.
      { by rewrite <- H1 in Hl. }
      { cbn [emit aof_buf]. rewrite H2, length_app. lia. }
      { cbn [emit aof_buf]. rewrite H2, length_app. lia. }
      rewrite log_items_emit in E1, E2. cbn [emit aof_buf] in E2. rewrite H2, length_app in E2.
      exists (U ++ pre), suf, j, l1, p. split; [|split; [by rewrite E1, app_assoc|split]].
      * split; try done; [by rewrite irun_app, Hr| |lia|].
        { rewrite S2, Hd', Hw. by rewrite (proj2 (Nat.leb_le _ _) Hle). }
        { intros m Hpm Hmn. rewrite !Hw. rewrite !(proj2 (Nat.leb_le _ _)) by lia. by rewrite S6. }
      * rewrite !bytes_of_app, take_app_ge by lia. rewrite <- app_assoc. f_equal. rewrite <- E2. f_equal. lia.
      * destruct suf as [|it suf]; [|done]. destruct E3 as [E3 E4]. split; [done|]. rewrite Hw. rewrite (proj2 (Nat.leb_le _ _) Hle). cbn. by rewrite E4.
    + destruct (split_bytes U (n - length (aof_buf s)) ltac:(lia)) as (pre & it & suf & j & EU & Et & Hj).
      destruct (Hpart pre (it :: suf) EU ltac:(done)) as (l1 & Hr1 & [M1 M2 M3 M4]).
      assert (forall m, (m <= n)%nat -> whole s ((t, u) :: us) m = []) as Hw0 by (intros m Hmn; rewrite Hw; by rewrite (proj2 (Nat.leb_gt _ _)) by lia).
      exists pre, (it :: suf ++ log_items us s1), j, l1, (l_up l). split; [|split; [by rewrite EU, <- app_assoc|split; [|done]]].
      * split; try done; [by rewrite Hw0|lia|]. intros m _ Hmn. by rewrite !Hw0.
      * rewrite bytes_of_app, take_app_le by lia. done.
Qed.

Lemma fed_ops_ok l s : clock_ok s -> Forall feedable l -> Forall (item_ok M) (fed_ops l s).
Proof using HM Hdb.
  intros Hs Hl. revert s Hs. induction Hl as [|op l [Hr Hi] _ IH]; intros s Hs; [constructor|]. cbn [fed_ops]. apply Forall_app. split; [|by apply IH].
  unfold fed, notes, selects. repeat rewrite Forall_app. repeat split; [| |by constructor].
  - destruct Hs as [_ Ht]. destruct (_ && _); [|constructor]. constructor; [|constructor]. destruct (repr_length (unixtime s) ltac:(unfold in_s; lia)) as [Hl1 Hl2].
    split; [|rewrite !length_app; simpl; lia]. apply Forall_app. split; [by repeat constructor|]. apply Forall_app. split; [|by repeat constructor].
    eapply Forall_impl; [apply repr_digits; lia|]. simpl. lia.
  - destruct (Z.eqb_spec (fst op) (-1)); [constructor|]. cbn [negb andb]. destruct (negb _); [|constructor].
    destruct Hr as [?|Hr]; [done|]. destruct (repr_length (fst op) ltac:(unfold in_s; lia)) as [Hl1 Hl2].
    constructor; [|constructor]. split; [done|]. split; [|simpl; lia]. constructor; [unfold arg_ok; simpl; lia|]. constructor; [unfold arg_ok; lia|constructor].
Qed.

Lemma log_items_ok us s : Forall timed_ok us -> logging s = true -> Forall (item_ok M) (log_items us s).
Proof using HM Hdb.
  intros H. revert s. induction H as [|[t u] us [Ht Hu] _ IH]; intros s Hl; [constructor|]. cbn [log_items]. apply Forall_app. split.
  - apply fed_ops_ok; [by split|by apply all_feedable].
  - apply IH. destruct (fed_ops_server_flags (all_ops u) (tick t s)) as [-> _]. done.
Qed.

Lemma bytes_of_length items : (length items <= length (bytes_of items))%nat.
Proof using. induction items as [|i items IH]; [done|]. unfold bytes_of in *. cbn [map concat length]. rewrite length_app. pose proof (ibytes_pos i). lia. Qed.

(** A log is not a snapshot. *)
Lemma not_rdb items k : bool_decide (take 5 (take k (bytes_of items)) = chars "REDIS") = false.
Proof using.
  apply bool_decide_eq_false_2. destruct items as [|i items]; [cbn; by rewrite take_nil|]. unfold bytes_of. cbn [map concat].
  destruct k as [|k]; [done|]. intros E%(f_equal head). change (head (chars "REDIS")) with (Some 82) in E. destruct i; by cbn in E.
Qed.

Context (rdbLoadRio : list Z -> D -> option (D * list Z)).
#[local] Abbreviation load_file := (loadSingleAppendOnlyFile known proc acl zmalloc_ok rdbLoadRio dbnum cluster_enabled (Env true true true true)).

(** The result of the loop at the end of a cut file. *)
Lemma loop_end l1 it j size fuel : item_ok M it -> (j < length (ibytes it))%nat -> (2 <= fuel \/ j = 0%nat /\ 1 <= fuel)%nat ->
  exists r f, load_loop known proc acl zmalloc_ok dbnum cluster_enabled fuel true size (loading_of l1 (take j (ibytes it)) false) =
    Ret (r, Loading f (l_cl l1) (l_data l1) (l_up l1) (l_multi l1)) /\ (r = None \/ r = Some ReadErr /\ feof f = true).
Proof using HM Hmem.
  intros Hi Hj Hf. destruct j as [|j].
  { destruct fuel as [|fuel]; [lia|]. exists None. eexists. split; [reflexivity|by left]. }
  destruct fuel as [|[|fuel]]; [lia|lia|]. destruct it as [t|a].
  - destruct (load_loop_note known proc acl zmalloc_ok dbnum cluster_enabled M true size l1 t (S j) false fuel Hi Hj) as (e' & ->). exists None. eexists. by split; [|left].
  - destruct (load_step_cut known proc acl zmalloc_ok dbnum cluster_enabled M Hmem ltac:(lia) true size l1 a (S j) false Hi ltac:(simpl in Hj |- *; lia)) as (f & E & Hf').
    cbn [load_loop ibytes]. rewrite E. cbn [obind]. exists (Some ReadErr), f. by split; [|right].
Qed.

Lemma load_cut us s d n : Forall timed_ok us -> logging s = true -> aof_selected_db s = -1 -> aof_buf s = [] ->
  exists s', log_units us s = Ret s' /\ exists ret m,
    load_file (Some (take n (aof_buf s'))) d = Ret (ret, fold_left apply_unit (whole s us n) d, take m (aof_buf s')) /\
    (m <= n)%nat /\ whole s us m = whole s us n /\ (ret = AOF_OK \/ ret = AOF_TRUNCATED \/ ret = AOF_EMPTY) /\
    ((length (aof_buf s') <= n)%nat -> ret <> AOF_TRUNCATED /\ m = n /\ whole s us n = map snd us).
Proof using Hcluster Hdb HM Hmem.
  intros Hus Hl Hsel Hbuf. destruct (log_units_items us s Hl Hus) as (s' & E1 & E2). exists s'. split; [done|]. rewrite Hbuf in E2. cbn [app] in E2.
  set (l0 := Lst (Client 0 None) d 0 0 0).
  destruct (stops us s l0 n Hus Hl eq_refl (or_introl Hsel) eq_refl) as (pre & suf & j & l1 & p & [S1 S2 S3 S4 S5 S6] & Ei & Et & Es); [by rewrite Hbuf|rewrite Hbuf; simpl; lia|].
  rewrite Hbuf in Et. cbn [length] in Et. rewrite Nat.sub_0_r in Et. rewrite E2. set (log := bytes_of (log_items us s)) in *.
  set (tail := match suf with it :: _ => take j (ibytes it) | [] => [] end) in *. cbn [l_data l0] in S2.
  pose proof (irun_pos _ _ _ _ _ _ _ _ _ S1) as Hp. cbn [l_pos l0] in *. unfold in_file in S4.
  pose proof (log_items_ok us s Hus Hl) as Hok. rewrite Ei in Hok. apply Forall_app in Hok as [Hok1 Hok2].
  assert ((length log <= n)%nat -> suf = []) as Hfull.
  { intros Hn. destruct suf as [|it suf]; [done|]. rewrite take_ge in Et by done. exfalso. apply (f_equal length) in Et. unfold log in Et. rewrite Ei in Et.
    rewrite bytes_of_app in Et. unfold bytes_of at 2 in Et. cbn [map concat] in Et. rewrite !length_app in Et. unfold tail in Et. rewrite length_take in Et. lia. }
  assert (length (take n log) = length (bytes_of pre) + length tail)%nat as Hlen by (by rewrite Et, length_app).
  assert ((length log <= n)%nat -> multi (l_cl l1) = None /\ whole s us n = map snd us) as Hall by (intros Hn; by rewrite (Hfull Hn) in Es).
  unfold loadSingleAppendOnlyFile. cbn [fopen_ok aof_load_truncated negb]. destruct (Nat.eqb_spec (length (take n log)) 0) as [H0|H0].
  { assert (pre = []) as -> by (destruct pre; [done|]; pose proof (bytes_of_length (i :: pre)); simpl in *; lia). injection S1 as <-.
    exists AOF_EMPTY, n. cbn [l_data l0] in S2. rewrite <- S2. repeat split; try done; [by right; right|]. by apply Hall. }
  unfold log at 1. rewrite not_rdb. fold log.
  assert (exists r f, load_loop known proc acl zmalloc_ok dbnum cluster_enabled (S (length (take n log))) true (Z.of_nat (length (take n log)))
      (Loading (Stream (take n log) false) (Client 0 None) d 0 0) = Ret (r, Loading f (l_cl l1) (l_data l1) (l_up l1) (l_multi l1)) /\
      (r = None \/ r = Some ReadErr /\ feof f = true) /\ (suf = [] -> r = None)) as (r & f & -> & Hr & Hr0).
  { pose proof (bytes_of_length pre) as Hbl. set (size := Z.of_nat (length (take n log))).
    replace (S (length (take n log))) with (length pre + (S (length (take n log)) - length pre))%nat by lia.
    set (fuel := (S (length (take n log)) - length pre)%nat).
    change (Loading (Stream (take n log) false) (Client 0 None) d 0 0) with (loading_of l0 (take n log) false). rewrite Et.
    rewrite (load_loop_items known proc acl zmalloc_ok dbnum cluster_enabled M Hmem ltac:(lia) true size pre l0 l1) by (done || (unfold size; lia)).
    destruct suf as [|it suf].
    - destruct fuel as [|fuel'] eqn:Ef; [lia|]. exists None. eexists. split; [reflexivity|]. split; [by left|done].
    - apply Forall_cons_1 in Hok2 as [Hit _]. assert (length tail = j) as Htl by (unfold tail; rewrite length_take; lia).
      destruct (loop_end l1 it j size fuel Hit Es) as (r & f & Hlf); [lia|]. exists r, f. by destruct Hlf. }
  cbn [obind data cl valid_up_to valid_before_multi file]. rewrite S2.
  assert (forall v, p <= v <= l_pos l1 -> Ret (uxeof (Env true true true true) (fold_left apply_unit (whole s us n) d) (take n log) v) =
      Ret (AOF_TRUNCATED, fold_left apply_unit (whole s us n) d, take (Z.to_nat v) log) /\ (Z.to_nat v <= n)%nat /\ whole s us (Z.to_nat v) = whole s us n) as Hux.
  { intros v Hv. assert (Z.to_nat v <= n)%nat as Hvn by (rewrite length_take in Hlen; lia). split; [|split; [done|apply S6; lia]].
    unfold uxeof. cbn [aof_load_truncated truncate_ok lseek_ok negb]. rewrite take_take. by rewrite Nat.min_l. }
  assert (p <= p <= l_pos l1 /\ p <= l_up l1 <= l_pos l1) as [Hb1 Hb2] by lia.
  assert (suf <> [] -> ~ (length log <= n)%nat) as Hnf by tauto.
  destruct Hr as [->|[-> Hf]]; [destruct (multi (l_cl l1)) eqn:Hm1|].
  - rewrite S5 by done. destruct (Hux p Hb1) as (-> & Hm & Hw). exists AOF_TRUNCATED, (Z.to_nat p). repeat split; try done; [by right; left| | |].
    all: intros; exfalso; by destruct (Hall ltac:(done)).
  - exists AOF_OK, n. repeat split; try done; [by left|]. by apply Hall.
  - rewrite Hf. destruct (Hux (l_up l1) Hb2) as (-> & Hm & Hw). exists AOF_TRUNCATED, (Z.to_nat (l_up l1)). repeat split; try done; [by right; left| | |].
    all: intros; exfalso; by specialize (Hr0 (Hfull ltac:(done))).
Qed.

(** C4: logging a sequence of units, single commands and transactions in any databases
    and with timestamps or not, and loading the file gives the dataset the units lead
    to.  If only the first [n] bytes of the log reached the disk, the load succeeds
    with exactly the units that are whole in them, a transaction entirely or not at
    all, and leaves a file that is again a start of the log with the same whole units.
    The conditions: aof-load-truncated is yes, and the truncation and the seek of a cut file
    succeed; the log starts empty; units of several commands are transactions, and the
    default user may run every command of a transaction; the commands are known ones other
    than the connection's own, with arguments that memory can be found for; times are in 63
    bits.  [aof_log_faults] has runs without them. *)
Theorem aof_log_recovers us s d : Forall timed_ok us -> logging s = true -> aof_selected_db s = -1 -> aof_buf s = [] ->
  exists s', log_units us s = Ret s' /\
    (exists ret, load_file (Some (aof_buf s')) d = Ret (ret, Aof.replay apply_unit d (map snd us), aof_buf s') /\ (ret = AOF_OK \/ ret = AOF_EMPTY)) /\
    forall n, exists ret m,
      load_file (Some (take n (aof_buf s'))) d = Ret (ret, Aof.replay apply_unit d (whole s us n), take m (aof_buf s')) /\
      (m <= n)%nat /\ whole s us m = whole s us n /\ (ret = AOF_OK \/ ret = AOF_TRUNCATED \/ ret = AOF_EMPTY).
Proof using Hcluster Hdb HM Hmem.
  intros Hus Hl Hs Hb. destruct (log_units_items us s Hl Hus) as (s' & E & _). exists s'. split; [done|]. split.
  - destruct (load_cut us s d (length (aof_buf s')) Hus Hl Hs Hb) as (s1 & E1 & ret & m & E2 & _ & _ & Hr & Hall).
    rewrite E in E1. injection E1 as <-. destruct (Hall ltac:(lia)) as (Hnt & -> & Hw). rewrite firstn_all, Hw in E2. exists ret. split; [done|].
    destruct Hr as [?|[?|?]]; [by left|done|by right].
  - intros n. destruct (load_cut us s d n Hus Hl Hs Hb) as (s1 & E1 & ret & m & E2 & H1 & H2 & H3 & _).
    rewrite E in E1. injection E1 as <-. by exists ret, m.
Qed.
End Units.

(** ** Examples *)

(** A dataset is the list of the commands executed. *)
Definition journal := list (Z * argv).
Definition record (n : Z) (a : argv) (d : journal) : journal := d ++ [(n, a)].
Definition yes {A} (_ : A) : bool := true.
(** A snapshot of nine bytes, "REDIS0012". *)
Definition small_rdb (b : list Z) (d : journal) : option (journal * list Z) := Some (d ++ [(99, [])], drop 9 b).

Definition load_demo (acl : argv -> bool) (file : list Z) (d : journal) : outcome (status * journal * list Z) :=
  loadSingleAppendOnlyFile yes record acl yes small_rdb 16 false (Env true true true true) (Some file) d.

Definition set_unit : unit_ := Unit false [(0, [chars "SET"; chars "a"; chars "1"])].
Definition tx_unit : unit_ := Unit true [(0, [chars "INCR"; chars "a"]); (1, [chars "DEL"; []])].
Definition new_log (ts : bool) (us : list (Z * unit_)) : list Z :=
  match log_units 16 us (Server ts 0 0 (-1) true []) with Ret s => aof_buf s | Abort => [] end.

Lemma aof_log_recovers_witness : exists s', log_units 16 [(7, set_unit); (8, tx_unit)] (Server true 0 0 (-1) true []) = Ret s' /\
  (exists ret, load_demo yes (aof_buf s') [] = Ret (ret, Aof.replay (apply_unit record) [] (map snd [(7, set_unit); (8, tx_unit)]), aof_buf s') /\ (ret = AOF_OK \/ ret = AOF_EMPTY)) /\
  forall n, exists ret m,
    load_demo yes (take n (aof_buf s')) [] = Ret (ret, Aof.replay (apply_unit record) [] (whole 16 (Server true 0 0 (-1) true []) [(7, set_unit); (8, tx_unit)] n), take m (aof_buf s')) /\
    (m <= n)%nat /\ whole 16 (Server true 0 0 (-1) true []) [(7, set_unit); (8, tx_unit)] m = whole 16 (Server true 0 0 (-1) true []) [(7, set_unit); (8, tx_unit)] n /\
    (ret = AOF_OK \/ ret = AOF_TRUNCATED \/ ret = AOF_EMPTY).
Proof.
  apply (aof_log_recovers yes record yes yes 16 false 64); [done|lia|lia|done| |done|done|done].
  assert (forall op, 0 <= fst op < 16 -> snd op <> [] -> (length (snd op) <= 8)%nat -> Forall (fun o : list Z => (length o <= 64)%nat) (snd op) ->
    lookupCommand yes (snd op) = Some OTHER -> op_ok yes 16 64 op) as Hop.
  { intros op H1 H2 H3 H4 H5. split; [done|]. split; [|done]. split; [done|]. split; [|lia]. eapply Forall_impl; [exact H4|]. unfold arg_ok. simpl. lia. }
  constructor; [|constructor; [|constructor]]; (split; [simpl; lia|]); split; simpl; try done; try lia.
  - constructor; [|constructor]. apply Hop; simpl; [lia|done|lia| |done]. repeat constructor; simpl; lia.
  - constructor; [|constructor; [|constructor]]; apply Hop; simpl; [lia|done|lia| |done|lia|done|lia| |done]; repeat constructor; simpl; lia.
  - by repeat constructor.
Defined.

Definition logged_set : journal := [(0, [chars "SET"; chars "a"; chars "1"])].

(** Corners of the loader that do not keep what was acknowledged.  (1) A file that
    ends within a command of a transaction is cut inside the transaction: the commands
    logged after the restart are queued, and the next load discards them.  (2) A
    snapshot with a tail whose first command is cut: the whole file is emptied.
    (3) A cut file that is not the last one is an error, but it was cut on the disk,
    so the next start accepts it.  (4) A file that ends within a timestamp is accepted
    as it is; a command appended to that line makes the file unreadable.  (5) The
    commands of a transaction that the default user may not run are skipped.  (6) The
    number of arguments is not checked. *)
Theorem aof_log_faults :
  (let log := new_log true [(7, set_unit); (8, tx_unit)] in
   load_demo yes (take 120 log) [] = Ret (AOF_TRUNCATED, logged_set, take 100 log) /\
   load_demo yes (take 100 log ++ new_log false [(9, set_unit)]) [] = Ret (AOF_TRUNCATED, logged_set, new_log true [(7, set_unit)])) /\
  load_demo yes (chars "REDIS0012" ++ take 20 (new_log false [(7, set_unit)])) [] = Ret (AOF_TRUNCATED, [(99, [])], []) /\
  (let am := Manifest None [AofInfo [1] 1 105; AofInfo [2] 2 105] [] 0 2 false in
   let load fs := loadAppendOnlyFiles yes record yes yes small_rdb 16 false (Env true true true true) am fs [] in
   let log := new_log false [(7, set_unit)] in
   load (<[[1] := take 30 log]> {[ [2] := log ]}) = Ret (AOF_FAILED, [], <[[1] := take 23 log]> {[ [2] := log ]}) /\
   load (<[[1] := take 23 log]> {[ [2] := log ]}) = Ret (AOF_OK, logged_set, <[[1] := take 23 log]> {[ [2] := log ]})) /\
  (let log := take 60 (new_log true [(7, set_unit); (8, set_unit)]) in
   load_demo yes log [] = Ret (AOF_OK, logged_set, log) /\
   let log := log ++ new_log false [(9, set_unit)] in load_demo yes log [] = Ret (AOF_FAILED, logged_set, log)) /\
  (let log := new_log false [(7, set_unit); (8, tx_unit)] in
   load_demo (fun a => bool_decide (length a = 3%nat)) log [] = Ret (AOF_OK, logged_set, log)) /\
  load_demo yes (enc [chars "SELECT"]) [] = Abort.
Proof. repeat split; vm_compute; reflexivity. Qed.

End AofLogSafe.
