(* ===== verification/Bitops.v ===== *)
(** * Bitops: strings as arrays of bits (bitops.c)

    Counting and finding bits by words, the integers of any width of BITFIELD with
    their overflow policies, and the commands GETBIT, SETBIT, BITCOUNT, BITPOS, BITOP,
    BITFIELD and BITFIELD_RO on a database.

    Bit 0 of a string is the most significant bit of its first byte.  The functions
    that read words depend on the address of their buffer, an argument; an access
    outside of a buffer is [Abort].  A value of the database is a string object or an
    object of another type; a missing key is [None].  Arguments are the strings the
    request parser makes.  The result of a command has what it adds to
    [server.dirty], which is positive when it signals a modified key. *)
From stdpp Require Import gmap.
From S2P Require Import Prelude NumStr SdsArgs StrObj.
Import NumStr.

Module Bitops.

Definition u32 (z : Z) : Z := wrap 32 z.
Definition i64 (z : Z) : Z := swrap 64 z.
Definition UINT64_MAX : Z := 2 ^ 64 - 1.
Definition INT64_MAX : Z := 2 ^ 63 - 1.
Definition ULONG_MAX : Z := 2 ^ 64 - 1.
(** [~z] of an unsigned 64-bit integer. *)
Definition not64 (z : Z) : Z := Z.lxor z UINT64_MAX.

(** ** Counting *)

Definition bitsinbyte : list Z := [
  0;1;1;2;1;2;2;3;1;2;2;3;2;3;3;4;1;2;2;3;2;3;3;4;2;3;3;4;3;4;4;5;1;2;2;3;2;3;3;4;2;3;3;4;3;4;4;5;2;3;3;4;3;4;4;5;3;4;4;5;4;5;5;6;
  1;2;2;3;2;3;3;4;2;3;3;4;3;4;4;5;2;3;3;4;3;4;4;5;3;4;4;5;4;5;5;6;2;3;3;4;3;4;4;5;3;4;4;5;4;5;5;6;3;4;4;5;4;5;5;6;4;5;5;6;5;6;6;7;
  1;2;2;3;2;3;3;4;2;3;3;4;3;4;4;5;2;3;3;4;3;4;4;5;3;4;4;5;4;5;5;6;2;3;3;4;3;4;4;5;3;4;4;5;4;5;5;6;3;4;4;5;4;5;5;6;4;5;5;6;5;6;6;7;
  2;3;3;4;3;4;4;5;3;4;4;5;4;5;5;6;3;4;4;5;4;5;5;6;4;5;5;6;5;6;6;7;3;4;4;5;4;5;5;6;4;5;5;6;5;6;6;7;4;5;5;6;5;6;6;7;5;6;6;7;6;7;7;8].

Definition byte_bits_count (b : Z) : Z := nth (Z.to_nat b) bitsinbyte 0.

(** Initial bytes not aligned to 32 bits; [p] is the bytes left, at address [addr]. *)
Fixpoint pop_head (addr : Z) (p : list Z) (bits : Z) : list Z * Z :=
  match p with
  | [] => ([], bits)
  | b :: p' => if Z.land addr 3 =? 0 then (p, bits) else pop_head (addr + 1) p' (bits + byte_bits_count b)
  end.

Definition pop_aux (aux : Z) : Z :=
  let aux := u32 (aux - Z.land (Z.shiftr aux 1) 1431655765) in
  u32 (Z.land aux 858993459 + Z.land (Z.shiftr aux 2) 858993459).

Definition pop_nibbles (aux : Z) : Z := Z.land (u32 (aux + Z.shiftr aux 4)) 252645135.

(** The [uint32_t] at [p + 4 i]. *)
Definition word_at (p : list Z) (i : nat) : Z := le_decode (load p (4 * i) 4).

(** 28 bytes at a time. *)
Fixpoint pop_words (fuel : nat) (p : list Z) (bits : Z) : outcome (list Z * Z) :=
  if (28 <=? length p)%nat then
    match fuel with
    | O => Abort
    | S fuel =>
        let aux i := pop_nibbles (pop_aux (word_at p i)) in
        let sum := u32 (u32 (u32 (u32 (u32 (u32 (aux 0%nat + aux 1%nat) + aux 2%nat) + aux 3%nat) + aux 4%nat) + aux 5%nat) + aux 6%nat) in
        pop_words fuel (drop 28 p) (bits + Z.shiftr (u32 (sum * 16843009)) 24)
    end
  else Ret (p, bits).

Definition pop_tail (p : list Z) (bits : Z) : Z := fold_left (fun bits b => bits + byte_bits_count b) p bits.

(** [s] is the [count] bytes at address [addr]. *)
Definition redisPopcount (addr : Z) (s : list Z) : outcome Z :=
  let '(p, bits) := pop_head addr s 0 in
  let* (p, bits) := pop_words (length s) p bits in
  Ret (pop_tail p bits).

(** ** Finding *)

(** Bytes before an aligned address: the bytes left, the position, and [found]. *)
Fixpoint skip_bytes (addr skipval : Z) (c : list Z) (pos : Z) : list Z * Z * bool :=
  match c with
  | [] => ([], pos, false)
  | b :: c' =>
      if Z.land addr 7 =? 0 then (c, pos, false)
      else if negb (b =? skipval) then (c, pos, true)
      else skip_bytes (addr + 1) skipval c' (pos + 8)
  end.

Fixpoint skip_words (fuel : nat) (skipval : Z) (l : list Z) (pos : Z) : outcome (list Z * Z) :=
  if (8 <=? length l)%nat then
    if negb (le_decode (take 8 l) =? skipval) then Ret (l, pos)
    else match fuel with O => Abort | S fuel => skip_words fuel skipval (drop 8 l) (pos + 64) end
  else Ret (l, pos).

(** Up to [j] bytes as a big endian word, padded with zeroes. *)
Fixpoint load_word (j : nat) (c : list Z) (word : Z) : Z :=
  match j with
  | O => word
  | S j =>
      let word := wrap 64 (Z.shiftl word 8) in
      match c with [] => load_word j [] word | b :: c => load_word j c (Z.lor word b) end
  end.

(** [while (one)], at most 64 times. *)
Fixpoint scan_bits (fuel : nat) (one word : Z) (bit : bool) (pos : Z) : outcome Z :=
  if one =? 0 then Abort
  else if Bool.eqb (negb (Z.land one word =? 0)) bit then Ret pos
  else match fuel with O => Abort | S fuel => scan_bits fuel (Z.shiftr one 1) word bit (pos + 1) end.

Definition redisBitpos (addr : Z) (s : list Z) (bit : bool) : outcome Z :=
  let '(c, pos, found) := skip_bytes addr (if bit then 0 else 255) s 0 in
  let* (c, pos) := if found then Ret (c, pos) else skip_words (length s) (if bit then 0 else ULONG_MAX) c pos in
  let word := load_word 8 c 0 in
  if bit && (word =? 0) then Ret (-1) else
  scan_bits 64 (not64 (Z.shiftr ULONG_MAX 1)) word bit pos.

(** ** Integers of any width *)

Definition get8 (p : list Z) (byte : Z) : outcome Z := match p !! Z.to_nat byte with Some b => Ret b | None => Abort end.

(** The loop over the bits, [j] of them left. *)
Fixpoint setUnsigned_loop (j : nat) (p : list Z) (offset value : Z) : outcome (list Z) :=
  match j with
  | O => Ret p
  | S j =>
      let bitval := if Z.land value (Z.shiftl 1 (Z.of_nat j)) =? 0 then 0 else 1 in
      let byte := Z.shiftr offset 3 in
      let bit := 7 - Z.land offset 7 in
      let* byteval := get8 p byte in
      let byteval := Z.land byteval (Z.lnot (Z.shiftl 1 bit)) in
      let byteval := Z.lor byteval (Z.shiftl bitval bit) in
      setUnsigned_loop j (<[Z.to_nat byte := Z.land byteval 255]> p) (offset + 1) value
  end.

Definition setUnsignedBitfield (p : list Z) (offset bits value : Z) : outcome (list Z) := setUnsigned_loop (Z.to_nat bits) p offset value.

Definition setSignedBitfield (p : list Z) (offset bits value : Z) : outcome (list Z) := setUnsignedBitfield p offset bits (wrap 64 value).

Fixpoint getUnsigned_loop (j : nat) (p : list Z) (offset value : Z) : outcome Z :=
  match j with
  | O => Ret value
  | S j =>
      let byte := Z.shiftr offset 3 in
      let bit := 7 - Z.land offset 7 in
      let* byteval := get8 p byte in
      let bitval := Z.land (Z.shiftr byteval bit) 1 in
      getUnsigned_loop j p (offset + 1) (Z.lor (wrap 64 (Z.shiftl value 1)) bitval)
  end.

Definition getUnsignedBitfield (p : list Z) (offset bits : Z) : outcome Z := getUnsigned_loop (Z.to_nat bits) p offset 0.

Definition getSignedBitfield (p : list Z) (offset bits : Z) : outcome Z :=
  let* u := getUnsignedBitfield p offset bits in
  Ret (if (bits <? 64) && negb (Z.land u (Z.shiftl 1 (bits - 1)) =? 0)
       then i64 (Z.lor u (wrap 64 (Z.shiftl UINT64_MAX bits))) else i64 u).

Inductive owtype := BFOVERFLOW_WRAP | BFOVERFLOW_SAT | BFOVERFLOW_FAIL.

(** The code returned, and [*limit], [None] where it is left as it was.  The shift of
    [handle_wrap] is by less than 64 in both callers. *)
Definition checkUnsignedBitfieldOverflow (value incr bits : Z) (ow : owtype) : Z * option Z :=
  let max := if bits =? 64 then UINT64_MAX else Z.shiftl 1 bits - 1 in
  let maxincr := i64 (wrap 64 (max - value)) in
  let minincr := i64 (wrap 64 (- value)) in
  let handle_wrap :=
    let mask := wrap 64 (Z.shiftl UINT64_MAX bits) in
    let res := wrap 64 (value + incr) in
    (1, Some (Z.land res (not64 mask))) in
  if (max <? value) || (0 <? incr) && (maxincr <? incr) then
    match ow with
    | BFOVERFLOW_WRAP => handle_wrap
    | BFOVERFLOW_SAT => (1, Some max)
    | BFOVERFLOW_FAIL => (1, None)
    end
  else if (incr <? 0) && (incr <? minincr) then
    match ow with
    | BFOVERFLOW_WRAP => handle_wrap
    | BFOVERFLOW_SAT => (-1, Some 0)
    | BFOVERFLOW_FAIL => (-1, None)
    end
  else (0, None).

Definition checkSignedBitfieldOverflow (value incr bits : Z) (ow : owtype) : Z * option Z :=
  let max := if bits =? 64 then INT64_MAX else Z.shiftl 1 (bits - 1) - 1 in
  let min := (- max) - 1 in
  let maxincr := i64 (wrap 64 (max - value)) in
  let minincr := i64 (min - value) in
  let handle_wrap :=
    let msb := Z.shiftl 1 (bits - 1) in
    let c := wrap 64 (wrap 64 value + wrap 64 incr) in
    let c := if bits <? 64 then
               let mask := wrap 64 (Z.shiftl UINT64_MAX bits) in
               if negb (Z.land c msb =? 0) then Z.lor c mask else Z.land c (not64 mask)
             else c in
    (1, Some (i64 c)) in
  if (max <? value) || negb (bits =? 64) && (maxincr <? incr) || (0 <=? value) && (0 <? incr) && (maxincr <? incr) then
    match ow with
    | BFOVERFLOW_WRAP => handle_wrap
    | BFOVERFLOW_SAT => (1, Some max)
    | BFOVERFLOW_FAIL => (1, None)
    end
  else if (value <? min) || negb (bits =? 64) && (incr <? minincr) || (value <? 0) && (incr <? 0) && (incr <? minincr) then
    match ow with
    | BFOVERFLOW_WRAP => handle_wrap
    | BFOVERFLOW_SAT => (-1, Some min)
    | BFOVERFLOW_FAIL => (-1, None)
    end
  else (0, None).

(** ** The database and the arguments *)

Inductive value := VString (b : StrObj.body) | VOther.
Abbreviation database := (gmap (list Z) value).

(** The bytes of a string object, as [getDecodedObject] and [getObjectReadOnlyString] give them. *)
Definition text (b : StrObj.body) : list Z :=
  match b with StrObj.BRaw s | StrObj.BEmbstr s => s | StrObj.BInt v => StrObj.printed LONG_STR_SIZE v end.

Inductive error := ErrOffset | ErrBit | ErrInteger | ErrSyntax | ErrWrongType | ErrFieldType | ErrBitArgument | ErrOverflowType | ErrReadOnly | ErrNotKeys.
Inductive reply := RInt (z : Z) | RNull | RError (e : error).

Definition arg (argv : list (list Z)) (i : nat) : outcome (list Z) := match argv !! i with Some a => Ret a | None => Abort end.

(** Negative indexes count from the end, [end] is at most the last. *)
Definition clamp (totlen start end_ : Z) : Z * Z :=
  let start := if start <? 0 then totlen + start else start in
  let end_ := if end_ <? 0 then totlen + end_ else end_ in
  let start := if start <? 0 then 0 else start in
  let end_ := if end_ <? 0 then 0 else end_ in
  (start, if totlen <=? end_ then totlen - 1 else end_).

(** The bits of the first byte before [start], those of the last after [end_]. *)
Definition neg_masks (start end_ : Z) : Z * Z :=
  (Z.land (Z.lnot (Z.shiftl 1 (8 - Z.land start 7) - 1)) 255, Z.shiftl 1 (7 - Z.land end_ 7) - 1).

(** The [n] bytes from [start] on. *)
Definition bytes_at (p : list Z) (start n : Z) : outcome (list Z) :=
  if (0 <=? start) && (0 <=? n) && (start + n <=? Z.of_nat (length p)) then Ret (load p (Z.to_nat start) (Z.to_nat n)) else Abort.

Section Commands.
(** [server.proto_max_bulk_len], [mustObeyClient(c)], and the addresses of the string
    and of the local buffers. *)
Context (proto_max_bulk_len : Z) (obey : bool) (addr aux_addr : Z).

Definition getBitOffsetFromArgument (o : list Z) (hash : bool) (bits : Z) : option Z :=
  let usehash := (at_ o 0 =? 35) && hash && (0 <? bits) in
  match string2ll (if usehash then drop 1 o else o) with
  | None => None
  | Some loffset =>
      let loffset := if usehash then i64 (loffset * bits) else loffset in
      if (loffset <? 0) || negb obey && (proto_max_bulk_len <=? Z.shiftr loffset 3) then None else Some loffset
  end.

(** The sign and the width. *)
Definition getBitfieldTypeFromArgument (o : list Z) : option (bool * Z) :=
  let parse sign max :=
    match string2ll (SdsArgs.cstr (drop 1 o)) with
    | None => None
    | Some bits => if (bits <? 1) || (max <? bits) then None else Some (sign, bits)
    end in
  if at_ o 0 =? 105 then parse true 64 else if at_ o 0 =? 117 then parse false 63 else None.

(** The database with the string grown to hold the bit, the string, and [*dirty];
    [None] when the key has another type. *)
Definition lookupStringForBitCommand (d : database) (key : list Z) (maxbit : Z) : option (database * list Z * bool) :=
  let byte := Z.to_nat (Z.shiftr maxbit 3) in
  match d !! key with
  | Some VOther => None
  | None => let s := replicate (S byte) 0 in Some (<[key := VString (StrObj.BRaw s)]> d, s, true)
  | Some (VString b) =>
      let old := text b in
      let s := old ++ replicate (S byte - length old) 0 in
      Some (<[key := VString (StrObj.BRaw s)]> d, s, negb (length old =? length s)%nat)
  end.

(** ** SETBIT and GETBIT *)

Definition setbitCommand (argv : list (list Z)) (d : database) : outcome (database * reply * Z) :=
  let* key := arg argv 1 in
  let* a2 := arg argv 2 in
  let* a3 := arg argv 3 in
  match getBitOffsetFromArgument a2 false 0 with
  | None => Ret (d, RError ErrOffset, 0)
  | Some bitoffset =>
      match string2ll a3 with
      | None => Ret (d, RError ErrBit, 0)
      | Some on =>
          if negb (Z.land on (Z.lnot 1) =? 0) then Ret (d, RError ErrBit, 0) else
          match lookupStringForBitCommand d key bitoffset with
          | None => Ret (d, RError ErrWrongType, 0)
          | Some (d, s, dirty) =>
              let byte := Z.shiftr bitoffset 3 in
              let* byteval := get8 s byte in
              let bit := 7 - Z.land bitoffset 7 in
              let bitval := Z.land byteval (Z.shiftl 1 bit) in
              let old := if bitval =? 0 then 0 else 1 in
              if dirty || negb (old =? on) then
                let byteval := Z.land byteval (Z.lnot (Z.shiftl 1 bit)) in
                let byteval := Z.lor byteval (Z.shiftl (Z.land on 1) bit) in
                let s := <[Z.to_nat byte := Z.land byteval 255]> s in
                Ret (<[key := VString (StrObj.BRaw s)]> d, RInt old, 1)
              else Ret (d, RInt old, 0)
          end
      end
  end.

Definition getbitCommand (argv : list (list Z)) (d : database) : outcome reply :=
  let* key := arg argv 1 in
  let* a2 := arg argv 2 in
  match getBitOffsetFromArgument a2 false 0 with
  | None => Ret (RError ErrOffset)
  | Some bitoffset =>
      match d !! key with
      | None => Ret (RInt 0)
      | Some VOther => Ret (RError ErrWrongType)
      | Some (VString b) =>
          let byte := Z.shiftr bitoffset 3 in
          let bit := 7 - Z.land bitoffset 7 in
          let s := match b with StrObj.BInt v => StrObj.printed 32 v | _ => text b end in
          if byte <? Z.of_nat (length s) then
            let* c := get8 s byte in
            Ret (RInt (if Z.land c (Z.shiftl 1 bit) =? 0 then 0 else 1))
          else Ret (RInt 0)
      end
  end.

(** ** BITCOUNT *)

(** The [BIT] or [BYTE] argument. *)
Definition unit_argument (a : list Z) : option bool :=
  if SdsArgs.same_case a (chars "bit") then Some true else if SdsArgs.same_case a (chars "byte") then Some false else None.

(** The count from byte [start] to byte [end_] without the masked bits. *)
Definition bitcount_range (p : list Z) (start end_ first_byte_neg_mask last_byte_neg_mask : Z) : outcome reply :=
  if end_ <? start then Ret (RInt 0) else
  let* bytes := bytes_at p start (end_ - start + 1) in
  let* count := redisPopcount (addr + start) bytes in
  if negb (first_byte_neg_mask =? 0) || negb (last_byte_neg_mask =? 0) then
    let* first := if negb (first_byte_neg_mask =? 0) then let* b := get8 p start in Ret (Z.land b first_byte_neg_mask) else Ret 0 in
    let* last := if negb (last_byte_neg_mask =? 0) then let* b := get8 p end_ in Ret (Z.land b last_byte_neg_mask) else Ret 0 in
    let* out := redisPopcount aux_addr [first; last] in
    Ret (RInt (count - out))
  else Ret (RInt count).

(** The whole string, or a range of bytes or bits. *)
Inductive range := Whole | Range (start end_ : Z) (isbit : bool).

Definition bitcount_string (o : option value) (r : range) : outcome reply :=
  match o with
  | Some VOther => Ret (RError ErrWrongType)
  | _ =>
      let p := match o with Some (VString b) => text b | _ => [] end in
      let strlen := Z.of_nat (length p) in
      match r with
      | Whole => match o with None => Ret (RInt 0) | Some _ => bitcount_range p 0 (strlen - 1) 0 0 end
      | Range start end_ isbit =>
          if Z.shiftr LLONG_MAX 3 <? strlen then Abort else
          if (start <? 0) && (end_ <? 0) && (end_ <? start) then Ret (RInt 0) else
          let totlen := if isbit then Z.shiftl strlen 3 else strlen in
          let '(start, end_) := clamp totlen start end_ in
          let '(start, end_, (m1, m2)) :=
            if isbit && (start <=? end_) then (Z.shiftr start 3, Z.shiftr end_ 3, neg_masks start end_) else (start, end_, (0, 0)) in
          match o with None => Ret (RInt 0) | Some _ => bitcount_range p start end_ m1 m2 end
      end
  end.

Definition bitcountCommand (argv : list (list Z)) (d : database) : outcome reply :=
  let* key := arg argv 1 in
  match length argv with
  | 2%nat => bitcount_string (d !! key) Whole
  | 4%nat | 5%nat =>
      let* a2 := arg argv 2 in
      let* a3 := arg argv 3 in
      match string2ll a2, string2ll a3 with
      | Some start, Some end_ =>
          match (if (length argv =? 5)%nat then let* a4 := arg argv 4 in Ret (unit_argument a4) else Ret (Some false)) with
          | Abort => Abort
          | Ret None => Ret (RError ErrSyntax)
          | Ret (Some isbit) => bitcount_string (d !! key) (Range start end_ isbit)
          end
      | _, _ => Ret (RError ErrInteger)
      end
  | _ => Ret (RError ErrSyntax)
  end.

(** ** BITPOS *)

(** The search from byte [start] to byte [end_]: the position found, with the byte the
    last search started at and the number of bytes it had. *)
Definition bitpos_search (bit : bool) (p : list Z) (start end_ first_byte_neg_mask last_byte_neg_mask : Z) : outcome (Z * Z * Z) :=
  let bytes := end_ - start + 1 in
  let masked b m := if bit then Z.land b (Z.lxor m 255) else Z.lor b m in
  let* r :=
    if negb (first_byte_neg_mask =? 0) then
      let* b := get8 p start in
      let tmpchar := masked b first_byte_neg_mask in
      let tmpchar := if negb (last_byte_neg_mask =? 0) && (bytes =? 1) then masked tmpchar last_byte_neg_mask else tmpchar in
      let* pos := redisBitpos aux_addr [tmpchar] bit in
      if (bytes =? 1) || negb (pos =? -1) && negb (pos =? 8) then Ret (inr (pos, start, bytes))
      else Ret (inl (start + 1, bytes - 1))
    else Ret (inl (start, bytes)) in
  match r with
  | inr found => Ret found
  | inl (start, bytes) =>
      let curbytes := bytes - (if negb (last_byte_neg_mask =? 0) then 1 else 0) in
      let* r :=
        if 0 <? curbytes then
          let* s := bytes_at p start curbytes in
          let* pos := redisBitpos (addr + start) s bit in
          if (bytes =? curbytes) || negb (pos =? -1) && negb (pos =? Z.shiftl curbytes 3) then Ret (inr (pos, start, bytes))
          else Ret (inl (start + curbytes, bytes - curbytes))
        else Ret (inl (start, bytes)) in
      match r with
      | inr found => Ret found
      | inl (start, bytes) =>
          let* b := get8 p end_ in
          let* pos := redisBitpos aux_addr [masked b last_byte_neg_mask] bit in
          Ret (pos, start, bytes)
      end
  end.

Definition bitpos_range (bit end_given : bool) (p : list Z) (start end_ first_byte_neg_mask last_byte_neg_mask : Z) : outcome reply :=
  if end_ <? start then Ret (RInt (-1)) else
  let* (ps, bytes) := bitpos_search bit p start end_ first_byte_neg_mask last_byte_neg_mask in
  let '(pos, start) := ps in
  if end_given && negb bit && (pos =? Z.shiftl bytes 3) then Ret (RInt (-1))
  else Ret (RInt (if negb (pos =? -1) then pos + Z.shiftl start 3 else pos)).

(** [end_] is [None] when it is not given. *)
Definition bitpos_string (o : option value) (bit : bool) (r : option (Z * option Z * bool)) : outcome reply :=
  match o with
  | Some VOther => Ret (RError ErrWrongType)
  | _ =>
      let p := match o with Some (VString b) => text b | _ => [] end in
      let strlen := Z.of_nat (length p) in
      let missing := RInt (if bit then -1 else 0) in
      match r with
      | None => match o with None => Ret missing | Some _ => bitpos_range bit false p 0 (strlen - 1) 0 0 end
      | Some (start, end_, isbit) =>
          if Z.shiftr LLONG_MAX 3 <? strlen then Abort else
          let end_given := bool_decide (is_Some end_) in
          let end_ := match end_ with Some e => e | None => if isbit then Z.shiftl strlen 3 + 7 else strlen - 1 end in
          let totlen := if isbit then Z.shiftl strlen 3 else strlen in
          let '(start, end_) := clamp totlen start end_ in
          let '(start, end_, (m1, m2)) :=
            if isbit && (start <=? end_) then (Z.shiftr start 3, Z.shiftr end_ 3, neg_masks start end_) else (start, end_, (0, 0)) in
          match o with None => Ret missing | Some _ => bitpos_range bit end_given p start end_ m1 m2 end
      end
  end.

Definition bitposCommand (argv : list (list Z)) (d : database) : outcome reply :=
  let* key := arg argv 1 in
  let* a2 := arg argv 2 in
  match string2ll a2 with
  | None => Ret (RError ErrInteger)
  | Some bit =>
      if negb (bit =? 0) && negb (bit =? 1) then Ret (RError ErrBitArgument) else
      let bit := bit =? 1 in
      match length argv with
      | 3%nat => bitpos_string (d !! key) bit None
      | 4%nat | 5%nat | 6%nat =>
          let* a3 := arg argv 3 in
          match string2ll a3 with
          | None => Ret (RError ErrInteger)
          | Some start =>
              let* isbit := if (length argv =? 6)%nat then let* a5 := arg argv 5 in Ret (unit_argument a5) else Ret (Some false) in
              match isbit with
              | None => Ret (RError ErrSyntax)
              | Some isbit =>
                  if (5 <=? length argv)%nat then
                    let* a4 := arg argv 4 in
                    match string2ll a4 with
                    | None => Ret (RError ErrInteger)
                    | Some end_ => bitpos_string (d !! key) bit (Some (start, Some end_, isbit))
                    end
                  else bitpos_string (d !! key) bit (Some (start, None, isbit))
              end
          end
      | _ => Ret (RError ErrSyntax)
      end
  end.

(** ** BITOP *)

Inductive bitop := BITOP_AND | BITOP_OR | BITOP_XOR | BITOP_NOT.

Definition bitop_name (name : list Z) : option bitop :=
  if SdsArgs.same_case name (chars "and") then Some BITOP_AND
  else if SdsArgs.same_case name (chars "or") then Some BITOP_OR
  else if SdsArgs.same_case name (chars "xor") then Some BITOP_XOR
  else if SdsArgs.same_case name (chars "not") then Some BITOP_NOT
  else None.

(** The sources, [maxlen] and [minlen]; [None] when a key has another type. *)
Fixpoint bitop_sources (d : database) (keys : list (list Z)) (first : bool) (maxlen minlen : nat) : option (list (list Z) * nat * nat) :=
  match keys with
  | [] => Some ([], maxlen, minlen)
  | k :: keys =>
      match d !! k with
      | Some VOther => None
      | None => '(l, mx, mn) ← bitop_sources d keys false maxlen 0; Some ([] :: l, mx, mn)
      | Some (VString b) =>
          let s := text b in
          let mn := if first || (length s <? minlen)%nat then length s else minlen in
          '(l, mx, mn) ← bitop_sources d keys false (Nat.max maxlen (length s)) mn; Some (s :: l, mx, mn)
      end
  end.

Definition word_op (op : bitop) (a b : Z) : Z :=
  match op with BITOP_AND => Z.land a b | BITOP_OR => Z.lor a b | BITOP_XOR => Z.lxor a b | BITOP_NOT => a end.

(** [lres[k] op= lp[i][k]] for the word at byte [j]. *)
Definition word_assign (op : bitop) (res src : list Z) (j : nat) : list Z :=
  store res j (le_encode 8 (word_op op (le_decode (load res j 8)) (le_decode (load src j 8)))).
Definition word_not (res : list Z) (j : nat) : list Z := store res j (le_encode 8 (not64 (le_decode (load res j 8)))).

(** Four words of the result, with every other source. *)
Definition bitop_block (op : bitop) (srcs : list (list Z)) (res : list Z) (j : nat) : list Z :=
  match op with
  | BITOP_NOT => word_not (word_not (word_not (word_not res j) (j + 8)) (j + 16)) (j + 24)
  | _ =>
      fold_left (fun res src => word_assign op (word_assign op (word_assign op (word_assign op res src j) src (j + 8)) src (j + 16)) src (j + 24))
        (drop 1 srcs) res
  end.

Fixpoint bitop_fast (fuel : nat) (op : bitop) (srcs : list (list Z)) (res : list Z) (j minlen : nat) : outcome (list Z * nat) :=
  if (32 <=? minlen)%nat then
    match fuel with
    | O => Abort
    | S fuel => bitop_fast fuel op srcs (bitop_block op srcs res j) (j + 32) (minlen - 32)
    end
  else Ret (res, j).

(** One byte of the result; the loop over the other sources stops once nothing can change. *)
Fixpoint bitop_rest (op : bitop) (srcs : list (list Z)) (j : nat) (output : Z) : Z :=
  match srcs with
  | [] => output
  | src :: srcs =>
      let byte := nth j src 0 in
      match op with
      | BITOP_AND => let output := Z.land output byte in if output =? 0 then output else bitop_rest op srcs j output
      | BITOP_OR => let output := Z.lor output byte in if output =? 255 then output else bitop_rest op srcs j output
      | BITOP_XOR => bitop_rest op srcs j (Z.lxor output byte)
      | BITOP_NOT => bitop_rest op srcs j output
      end
  end.

Definition bitop_byte (op : bitop) (srcs : list (list Z)) (j : nat) : Z :=
  let output := nth j (hd [] srcs) 0 in
  let output := match op with BITOP_NOT => Z.lxor output 255 | _ => output end in
  bitop_rest op (drop 1 srcs) j output.

Definition bitop_slow (op : bitop) (srcs : list (list Z)) (res : list Z) (j maxlen : nat) : list Z :=
  fold_left (fun res j => <[j := bitop_byte op srcs j]> res) (seq j (maxlen - j)) res.

Definition bitop_compute (op : bitop) (srcs : list (list Z)) (maxlen minlen : nat) : outcome (list Z) :=
  let res := replicate maxlen 0 in
  let* (res, j) :=
    if (32 <=? minlen)%nat && (length srcs <=? 16)%nat
    then bitop_fast minlen op srcs (store res 0 (take minlen (hd [] srcs))) 0 minlen
    else Ret (res, 0%nat) in
  Ret (bitop_slow op srcs res j maxlen).

Definition bitopCommand (argv : list (list Z)) (d : database) : outcome (database * reply * Z) :=
  let* opname := arg argv 1 in
  let* targetkey := arg argv 2 in
  match bitop_name opname with
  | None => Ret (d, RError ErrSyntax, 0)
  | Some op =>
      if match op with BITOP_NOT => negb (length argv =? 4)%nat | _ => false end then Ret (d, RError ErrNotKeys, 0) else
      match bitop_sources d (drop 3 argv) true 0 0 with
      | None => Ret (d, RError ErrWrongType, 0)
      | Some (srcs, maxlen, minlen) =>
          if (maxlen =? 0)%nat then
            match d !! targetkey with
            | Some _ => Ret (delete targetkey d, RInt 0, 1)
            | None => Ret (d, RInt 0, 0)
            end
          else
            let* res := bitop_compute op srcs maxlen minlen in
            Ret (<[targetkey := VString (StrObj.BRaw res)]> d, RInt (Z.of_nat maxlen), 1)
      end
  end.

(** ** BITFIELD *)

Inductive opcode := BITFIELDOP_GET | BITFIELDOP_SET | BITFIELDOP_INCRBY.

Record bitfieldOp := BitfieldOp { bf_offset : Z; bf_i64 : Z; bf_opcode : opcode; bf_owtype : owtype; bf_bits : Z; bf_sign : bool }.

(** The subcommands: the operations, whether all are GET, and the highest bit written. *)
Fixpoint bitfield_parse (args : list (list Z)) (ow : owtype) (ops : list bitfieldOp) (readonly : bool) (highest : Z) :
    error + (list bitfieldOp * bool * Z) :=
  match args with
  | [] => inr (ops, readonly, highest)
  | subcmd :: args =>
      let named s := SdsArgs.same_case subcmd (chars s) in
      if named "get" && (2 <=? length args)%nat then
        match args with
        | ty :: off :: args =>
            match getBitfieldTypeFromArgument ty with
            | None => inl ErrFieldType
            | Some (sign, bits) =>
                match getBitOffsetFromArgument off true bits with
                | None => inl ErrOffset
                | Some o => bitfield_parse args ow (ops ++ [BitfieldOp o 0 BITFIELDOP_GET ow bits sign]) readonly highest
                end
            end
        | _ => inl ErrSyntax
        end
      else if (named "set" || named "incrby") && (3 <=? length args)%nat then
        match args with
        | ty :: off :: val :: args =>
            match getBitfieldTypeFromArgument ty with
            | None => inl ErrFieldType
            | Some (sign, bits) =>
                match getBitOffsetFromArgument off true bits with
                | None => inl ErrOffset
                | Some o =>
                    match string2ll val with
                    | None => inl ErrInteger
                    | Some v =>
                        let code := if named "set" then BITFIELDOP_SET else BITFIELDOP_INCRBY in
                        bitfield_parse args ow (ops ++ [BitfieldOp o v code ow bits sign]) false (Z.max highest (o + bits - 1))
                    end
                end
            end
        | _ => inl ErrSyntax
        end
      else if named "overflow" && (1 <=? length args)%nat then
        match args with
        | name :: args =>
            if SdsArgs.same_case name (chars "wrap") then bitfield_parse args BFOVERFLOW_WRAP ops readonly highest
            else if SdsArgs.same_case name (chars "sat") then bitfield_parse args BFOVERFLOW_SAT ops readonly highest
            else if SdsArgs.same_case name (chars "fail") then bitfield_parse args BFOVERFLOW_FAIL ops readonly highest
            else inl ErrOverflowType
        | _ => inl ErrSyntax
        end
      else inl ErrSyntax
  end.

(** What the variable [wrapped] holds before it is set. *)
Context (garbage : Z).

(** The old value, the new one, the reply, and whether there was an overflow. *)
Definition write_values (op : bitfieldOp) (s : list Z) : outcome (Z * Z * Z * bool) :=
  let bits := bf_bits op in
  if bf_sign op then
    let* oldval := getSignedBitfield s (bf_offset op) bits in
    match bf_opcode op with
    | BITFIELDOP_INCRBY =>
        let '(code, limit) := checkSignedBitfieldOverflow oldval (bf_i64 op) bits (bf_owtype op) in
        let newval := if negb (code =? 0) then default garbage limit else oldval + bf_i64 op in
        Ret (oldval, newval, newval, negb (code =? 0))
    | _ =>
        let '(code, limit) := checkSignedBitfieldOverflow (bf_i64 op) 0 bits (bf_owtype op) in
        let newval := if negb (code =? 0) then default garbage limit else bf_i64 op in
        Ret (oldval, newval, oldval, negb (code =? 0))
    end
  else
    let* oldval := getUnsignedBitfield s (bf_offset op) bits in
    match bf_opcode op with
    | BITFIELDOP_INCRBY =>
        let '(code, limit) := checkUnsignedBitfieldOverflow oldval (bf_i64 op) bits (bf_owtype op) in
        let newval := if negb (code =? 0) then default 0 limit else wrap 64 (oldval + bf_i64 op) in
        Ret (oldval, newval, newval, negb (code =? 0))
    | _ =>
        let '(code, limit) := checkUnsignedBitfieldOverflow (wrap 64 (bf_i64 op)) 0 bits (bf_owtype op) in
        let newval := if negb (code =? 0) then default 0 limit else wrap 64 (bf_i64 op) in
        Ret (oldval, newval, oldval, negb (code =? 0))
    end.

Definition exec_write (op : bitfieldOp) (dirty : bool) (s : list Z) : outcome (list Z * reply * Z) :=
  let bits := bf_bits op in
  let* (r, overflow) := write_values op s in
  let '(oldval, newval, retval) := r in
  if overflow && match bf_owtype op with BFOVERFLOW_FAIL => true | _ => false end then Ret (s, RNull, 0)
  else
    let* s := if bf_sign op then setSignedBitfield s (bf_offset op) bits newval else setUnsignedBitfield s (bf_offset op) bits newval in
    Ret (s, RInt (i64 retval), if dirty || negb (oldval =? newval) then 1 else 0).

(** Up to 9 bytes are copied to a buffer of zeroes. *)
Definition exec_get (op : bitfieldOp) (s : list Z) : outcome reply :=
  let byte := Z.shiftr (bf_offset op) 3 in
  let src := load s (Z.to_nat byte) 9 in
  let buf := src ++ replicate (9 - length src) 0 in
  let* v := if bf_sign op then getSignedBitfield buf (bf_offset op - byte * 8) (bf_bits op)
            else getUnsignedBitfield buf (bf_offset op - byte * 8) (bf_bits op) in
  Ret (RInt (i64 v)).

(** The string, empty for a missing key, after the operations, the replies and the changes. *)
Fixpoint exec_ops (ops : list bitfieldOp) (dirty : bool) (s : list Z) : outcome (list Z * list reply * Z) :=
  match ops with
  | [] => Ret (s, [], 0)
  | op :: ops =>
      let* (sr, n) := match bf_opcode op with
                      | BITFIELDOP_GET => let* r := exec_get op s in Ret (s, r, 0)
                      | _ => exec_write op dirty s
                      end in
      let '(s, r) := sr in
      let* (srs, m) := exec_ops ops dirty s in
      let '(s, rs) := srs in
      Ret (s, r :: rs, n + m)
  end.

Definition bitfieldGeneric (ro : bool) (argv : list (list Z)) (d : database) : outcome (database * (error + list reply) * Z) :=
  let* key := arg argv 1 in
  match bitfield_parse (drop 2 argv) BFOVERFLOW_WRAP [] true 0 with
  | inl e => Ret (d, inl e, 0)
  | inr (ops, readonly, highest) =>
      if readonly then
        match d !! key with
        | Some VOther => Ret (d, inl ErrWrongType, 0)
        | o =>
            let s := match o with Some (VString b) => text b | _ => [] end in
            let* (sr, _) := exec_ops ops false s in
            Ret (d, inr (snd sr), 0)
        end
      else if ro then Ret (d, inl ErrReadOnly, 0)
      else
        match lookupStringForBitCommand d key highest with
        | None => Ret (d, inl ErrWrongType, 0)
        | Some (d, s, dirty) =>
            let* (sr, changes) := exec_ops ops dirty s in
            Ret (<[key := VString (StrObj.BRaw (fst sr))]> d, inr (snd sr), changes)
        end
  end.
End Commands.

End Bitops.
