(* ===== verification/BitopsSpec.v ===== *)
(** * BitopsSpec: bit arrays

    A string is a list of bits, the first byte's most significant bit first.  Every
    routine of [Bitops] is the evident function on that list, whatever the words and
    bytes it works with. *)
From stdpp Require Import gmap.
From S2P Require Import Prelude NumStr SdsArgs StrObj Bitops.
Import NumStr Bitops.

Module BitopsSpec.

(** ** Bits and numbers *)

Definition byte_bits (b : Z) : list bool := map (Z.testbit b) [7; 6; 5; 4; 3; 2; 1; 0].
Definition bits (s : list Z) : list bool := concat (map byte_bits s).

Definition b2z (b : bool) : Z := if b then 1 else 0.
Fixpoint count (l : list bool) : Z := match l with [] => 0 | b :: l => b2z b + count l end.

(** The number with these bits, most significant first, and back. *)
Definition be_value (l : list bool) : Z := fold_left (fun v b => 2 * v + b2z b) l 0.
Fixpoint to_bits (n : nat) (v : Z) : list bool := match n with O => [] | S n => Z.testbit v (Z.of_nat n) :: to_bits n v end.

(** The position of the first bit that is [b]. *)
Fixpoint first (b : bool) (l : list bool) : option nat :=
  match l with [] => None | x :: l => if Bool.eqb x b then Some O else S <$> first b l end.

Lemma bits_app a b : bits (a ++ b) = bits a ++ bits b.
Proof. unfold bits. by rewrite map_app, concat_app. Qed.

Lemma bits_cons b s : bits (b :: s) = byte_bits b ++ bits s.
Proof. done. Qed.

Lemma length_bits s : length (bits s) = (8 * length s)%nat.
Proof. induction s as [|b s IH]; [done|]. rewrite bits_cons, length_app, IH. simpl. lia. Qed.

Lemma count_app a b : count (a ++ b) = count a + count b.
Proof. induction a as [|x a IH]; simpl; [done|]. rewrite IH. lia. Qed.

Lemma be_value_acc l v : fold_left (fun v b => 2 * v + b2z b) l v = v * 2 ^ Z.of_nat (length l) + be_value l.
Proof.
  revert v. induction l as [|b l IH]; intros v; [unfold be_value; simpl; lia|]. unfold be_value. cbn [fold_left]. rewrite !IH.
  cbn [length]. rewrite Nat2Z.inj_succ, Z.pow_succ_r by lia. lia.
Qed.

Lemma be_value_cons b l : be_value (b :: l) = b2z b * 2 ^ Z.of_nat (length l) + be_value l.
Proof. unfold be_value at 1. cbn [fold_left]. by rewrite be_value_acc. Qed.

Lemma be_value_app a b : be_value (a ++ b) = be_value a * 2 ^ Z.of_nat (length b) + be_value b.
Proof. unfold be_value at 1. rewrite fold_left_app. apply be_value_acc. Qed.

Lemma be_value_range l : 0 <= be_value l < 2 ^ Z.of_nat (length l).
Proof.
  induction l as [|b l IH]; [done|]. rewrite be_value_cons. cbn [length]. rewrite Nat2Z.inj_succ, Z.pow_succ_r by lia. destruct b; simpl b2z; lia.
Qed.

Lemma testbit_be_value l i : (i < length l)%nat -> Z.testbit (be_value l) (Z.of_nat i) = nth (length l - 1 - i) l false.
Proof.
  revert i. induction l as [|b l IH]; intros i Hi; [simpl in Hi; lia|]. rewrite be_value_cons. pose proof (be_value_range l) as Hr.
  set (n := length l) in *. cbn [length] in *. fold n in Hi |- *.
  replace (b2z b * 2 ^ Z.of_nat n + be_value l) with (Z.lor (be_value l) (Z.shiftl (b2z b) (Z.of_nat n)))
    by (rewrite lor_shiftl by lia; lia).
  rewrite Z.lor_spec, Z.shiftl_spec by lia. destruct (decide (i = n)) as [->|Hne].
  - rewrite (testbit_above (Z.of_nat n) (be_value l)) by (unfold in_u; lia). rewrite Z.sub_diag. replace (S n - 1 - n)%nat with 0%nat by lia. by destruct b.
  - rewrite IH by lia. rewrite (Z.testbit_neg_r _ (Z.of_nat i - Z.of_nat n)) by lia. rewrite orb_false_r.
    replace (S n - 1 - i)%nat with (S (n - 1 - i)) by lia. done.
Qed.

Lemma length_to_bits n v : length (to_bits n v) = n.
Proof. induction n; simpl; congruence. Qed.

Lemma be_value_to_bits n v : be_value (to_bits n v) = v mod 2 ^ Z.of_nat n.
Proof.
  induction n as [|n IH]; [by rewrite Z.mod_1_r|]. cbn [to_bits]. rewrite be_value_cons, IH, length_to_bits.
  rewrite Nat2Z.inj_succ, Z.pow_succ_r by lia. pose proof (pow2_pos (Z.of_nat n) ltac:(lia)) as Hp.
  rewrite (Z.mul_comm 2), Z.rem_mul_r by lia.
  rewrite <- Z.testbit_spec' by lia. destruct (Z.testbit v (Z.of_nat n)); simpl; lia.
Qed.

(** ** Counting *)

Lemma byte_count b : is_byte b -> byte_bits_count b = count (byte_bits b).
Proof.
  intros Hb. apply Z.eqb_eq. revert b Hb. apply (range_check (fun b => byte_bits_count b =? count (byte_bits b)) 256). vm_compute. reflexivity.
Qed.

Lemma land_in_u w x m : 0 <= w -> in_u w m -> in_u w (Z.land x m).
Proof. intros Hw Hm. apply in_u_bits; [done|]. intros i Hi. by rewrite Z.land_spec, (testbit_above w m), andb_false_r by done. Qed.

(** Operations on the bytes of a word side by side: no bit crosses a byte. *)
Lemma land_shift_byte b y m m' k : 0 <= k < 8 -> 0 <= b < 256 -> 0 <= y -> 0 <= m' -> 0 <= m < 2 ^ (8 - k) ->
  Z.land (Z.shiftr (b + 256 * y) k) (m + 256 * m') = Z.land (Z.shiftr b k) m + 256 * Z.land (Z.shiftr y k) m'.
Proof.
  intros Hk Hb Hy Hm' Hm. assert (2 ^ (8 - k) <= 2 ^ 8) by (apply Z.pow_le_mono_r; lia).
  assert (forall p q, 0 <= p < 256 -> p + 256 * q = Z.lor p (Z.shiftl q 8)) as E by (intros p q Hp; rewrite lor_shiftl by lia; lia).
  assert (0 <= Z.land (Z.shiftr b k) m < 256) as Hl.
  { apply (land_in_u 8); unfold in_u; lia. }
  rewrite !E by lia. apply Z.bits_inj'. intros i Hi.
  rewrite Z.land_spec, Z.shiftr_spec, !Z.lor_spec, Z.land_spec, Z.shiftr_spec, !Z.shiftl_spec, Z.land_spec by lia.
  destruct (Z.lt_ge_cases i 8) as [Hi8|Hi8].
  - rewrite !(Z.testbit_neg_r _ (i - 8)) by lia. rewrite !orb_false_r. destruct (Z.lt_ge_cases (i + k) 8) as [Hik|Hik].
    + rewrite (Z.testbit_neg_r _ (i + k - 8)) by lia. by rewrite !orb_false_r.
    + rewrite (testbit_above (8 - k) m i) by (unfold in_u; lia). by rewrite !andb_false_r.
  - rewrite Z.shiftr_spec by lia. rewrite (testbit_above 8 b (i + k)), (testbit_above 8 m i) by (unfold in_u; lia). cbn [orb].
    rewrite andb_false_r. cbn [orb]. f_equal. f_equal. lia.
Qed.

Definition quad (a b c d : Z) : Z := a + 256 * (b + 256 * (c + 256 * d)).

Lemma land_shift_quad a b c d m k : 0 <= k < 8 -> is_byte a -> is_byte b -> is_byte c -> is_byte d -> 0 <= m < 2 ^ (8 - k) ->
  Z.land (Z.shiftr (quad a b c d) k) (quad m m m m) =
  quad (Z.land (Z.shiftr a k) m) (Z.land (Z.shiftr b k) m) (Z.land (Z.shiftr c k) m) (Z.land (Z.shiftr d k) m).
Proof. unfold is_byte, in_u, quad. intros Hk Ha Hb Hc Hd Hm. rewrite !land_shift_byte by lia. done. Qed.

(** The steps of the count on one byte. *)
Definition pairs (a : Z) : Z := a - Z.land (Z.shiftr a 1) 85.
Definition nibbles (a : Z) : Z := Z.land (pairs a) 51 + Z.land (Z.shiftr (pairs a) 2) 51.

Lemma byte_steps a : is_byte a -> is_byte (pairs a) /\ is_byte (nibbles a) /\ nibbles a mod 16 <= 4 /\ nibbles a / 16 <= 4 /\
  nibbles a mod 16 + nibbles a / 16 = count (byte_bits a).
Proof.
  intros Ha. set (f := fun a => (0 <=? pairs a) && (pairs a <? 256) && (0 <=? nibbles a) && (nibbles a <? 256) && (nibbles a mod 16 <=? 4) && (nibbles a / 16 <=? 4) &&
    (nibbles a mod 16 + nibbles a / 16 =? count (byte_bits a))).
  assert (f a = true) as E by (revert a Ha; apply (range_check f 256); vm_compute; reflexivity).
  unfold f in E. unfold is_byte, in_u. lia.
Qed.

Lemma u32_small z : 0 <= z < 2 ^ 32 -> u32 z = z.
Proof. intros H. apply wrap_small. exact H. Qed.

Lemma pop_word a b c d : is_byte a -> is_byte b -> is_byte c -> is_byte d ->
  pop_nibbles (pop_aux (quad a b c d)) = quad (count (byte_bits a)) (count (byte_bits b)) (count (byte_bits c)) (count (byte_bits d)).
Proof.
  intros Ha Hb Hc Hd. unfold pop_nibbles, pop_aux.
  change 1431655765 with (quad 85 85 85 85). change 858993459 with (quad 51 51 51 51). change 252645135 with (quad 15 15 15 15).
  rewrite land_shift_quad by (done || lia).
  destruct (byte_steps a Ha) as (Ha1 & Ha2 & Ha3 & Ha4 & Ha5). destruct (byte_steps b Hb) as (Hb1 & Hb2 & Hb3 & Hb4 & Hb5).
  destruct (byte_steps c Hc) as (Hc1 & Hc2 & Hc3 & Hc4 & Hc5). destruct (byte_steps d Hd) as (Hd1 & Hd2 & Hd3 & Hd4 & Hd5).
  assert (quad a b c d - quad (Z.land (Z.shiftr a 1) 85) (Z.land (Z.shiftr b 1) 85) (Z.land (Z.shiftr c 1) 85) (Z.land (Z.shiftr d 1) 85) =
    quad (pairs a) (pairs b) (pairs c) (pairs d)) as -> by (unfold quad, pairs; lia).
  assert (forall a b c d, is_byte a -> is_byte b -> is_byte c -> is_byte d -> 0 <= quad a b c d < 2 ^ 32) as Hq by (unfold is_byte, in_u, quad; lia).
  rewrite (u32_small (quad (pairs a) _ _ _)) by (apply Hq; done).
  pose proof (land_shift_quad (pairs a) (pairs b) (pairs c) (pairs d) 51 0 ltac:(lia) Ha1 Hb1 Hc1 Hd1 ltac:(lia)) as E0. rewrite !Z.shiftr_0_r in E0.
  rewrite E0, land_shift_quad by (done || lia).
  assert (forall p q r s p' q' r' s', quad p q r s + quad p' q' r' s' = quad (p + p') (q + q') (r + r') (s + s')) as Hadd by (unfold quad; lia).
  rewrite Hadd. fold (nibbles a) (nibbles b) (nibbles c) (nibbles d).
  rewrite (u32_small (quad (nibbles a) _ _ _)) by (apply Hq; done). rewrite (Z.shiftr_div_pow2 _ 4) by lia.
  set (na := nibbles a) in *. set (nb := nibbles b) in *. set (nc := nibbles c) in *. set (nd := nibbles d) in *. unfold is_byte, in_u in Ha2, Hb2, Hc2, Hd2.
  assert (quad na nb nc nd + quad na nb nc nd / 2 ^ 4 =
    quad (na + na / 16 + 16 * (nb mod 16)) (nb + nb / 16 + 16 * (nc mod 16)) (nc + nc / 16 + 16 * (nd mod 16)) (nd + nd / 16)) as -> by (unfold quad; zdiv).
  rewrite u32_small by (apply Hq; unfold is_byte, in_u; zdiv).
  pose proof (land_shift_quad (na + na / 16 + 16 * (nb mod 16)) (nb + nb / 16 + 16 * (nc mod 16)) (nc + nc / 16 + 16 * (nd mod 16)) (nd + nd / 16) 15 0) as E1.
  rewrite !Z.shiftr_0_r in E1. rewrite E1 by (unfold is_byte, in_u; zdiv).
  assert (forall z, Z.land z 15 = z mod 16) as Hl by (intros z; apply (land_mask z 4); lia). rewrite !Hl.
  f_equal; zdiv.
Qed.

Lemma word_quad p i : bytes p -> (4 * i + 4 <= length p)%nat -> exists a b c d,
  load p (4 * i) 4 = [a; b; c; d] /\ is_byte a /\ is_byte b /\ is_byte c /\ is_byte d /\ word_at p i = quad a b c d.
Proof.
  intros Hb Hl. pose proof (bytes_load p (4 * i) 4 Hb) as Hbl. assert (length (load p (4 * i) 4) = 4%nat) as E by (rewrite length_load; lia).
  unfold word_at. destruct (load p (4 * i) 4) as [|a [|b [|c [|d [|]]]]]; try done. exists a, b, c, d.
  rewrite !Forall_cons in Hbl. destruct Hbl as (Ha & Hb' & Hc & Hd & _). split; [done|]. do 4 (split; [done|]).
  unfold quad. cbn [le_decode]. lia.
Qed.

Lemma count_bound l : 0 <= count l <= Z.of_nat (length l).
Proof. induction l as [|b l IH]; simpl; [lia|]. destruct b; simpl b2z; lia. Qed.

(** What one word contributes: the counts of its bytes, in the bytes of a word. *)
Lemma pop_word_count p i : bytes p -> (4 * i + 4 <= length p)%nat -> exists a b c d,
  pop_nibbles (pop_aux (word_at p i)) = quad a b c d /\ 0 <= a <= 8 /\ 0 <= b <= 8 /\ 0 <= c <= 8 /\ 0 <= d <= 8 /\
  a + b + c + d = count (bits (load p (4 * i) 4)).
Proof.
  intros Hb Hl. destruct (word_quad p i Hb Hl) as (a & b & c & d & E & Ha & Hb' & Hc & Hd & ->). rewrite pop_word by done.
  assert (forall x, 0 <= count (byte_bits x) <= 8) as Hx by (intros x; apply (count_bound (byte_bits x))).
  do 4 eexists. split; [done|]. do 4 (split; [apply Hx|]). rewrite E. unfold bits. cbn [map concat]. rewrite !count_app. simpl count at 9. lia.
Qed.

(** The multiplication adds the bytes into the highest one. *)
Lemma multiply_sums a b c d : 0 <= a <= 56 -> 0 <= b <= 56 -> 0 <= c <= 56 -> 0 <= d <= 56 -> Z.shiftr (u32 (quad a b c d * 16843009)) 24 = a + b + c + d.
Proof. intros. rewrite Z.shiftr_div_pow2 by lia. unfold u32, wrap, quad.
  replace ((a + 256 * (b + 256 * (c + 256 * d))) * 16843009)
    with ((a + b + c + d) * 2 ^ 24 + (65536 * (a + b + c) + 256 * (a + b) + a) + (256 * (256 * d + (c + d)) + (b + c + d)) * 2 ^ 32) by lia.
  rewrite Z.mod_add, Z.mod_small, Z.div_add_l, Z.div_small by lia. lia.
Qed.

Lemma load_split p n k : load p n (k + 4) = load p n k ++ load p (n + k) 4.
Proof. unfold load. rewrite <- (take_drop k (take (k + 4) (drop n p))). rewrite take_take, skipn_firstn_comm, drop_drop. f_equal; f_equal; lia. Qed.

Lemma pop_words_spec fuel p n : bytes p -> (length p <= fuel)%nat -> exists p', pop_words fuel p n = Ret (p', n + count (bits p) - count (bits p')) /\ bytes p'.
Proof.
  revert p n. induction fuel as [|fuel IH]; intros p n Hb Hl; cbn [pop_words].
  { destruct p; [|simpl in Hl; lia]. exists []. split; [|done]. do 2 f_equal. simpl. lia. }
  destruct (Nat.leb_spec 28 (length p)) as [H28|H28]; [|exists p; split; [do 2 f_equal; lia|done]].
  destruct (IH (drop 28 p) (n + count (bits (take 28 p)))) as (p' & E & Hp'); [by apply Forall_drop|rewrite length_drop; lia|]. exists p'. split; [|done].
  rewrite <- (take_drop 28 p) at 9. rewrite bits_app, count_app. etrans; [|etrans; [exact E|do 2 f_equal; lia]]. f_equal. f_equal.
  assert (take 28 p = load p 0 4 ++ load p 4 4 ++ load p 8 4 ++ load p 12 4 ++ load p 16 4 ++ load p 20 4 ++ load p 24 4) as ->.
  { change (take 28 p) with (load p 0 (24 + 4)). rewrite load_split. change (load p 0 24) with (load p 0 (20 + 4)). rewrite load_split.
    change (load p 0 20) with (load p 0 (16 + 4)). rewrite load_split. change (load p 0 16) with (load p 0 (12 + 4)). rewrite load_split.
    change (load p 0 12) with (load p 0 (8 + 4)). rewrite load_split. change (load p 0 8) with (load p 0 (4 + 4)). rewrite load_split.
    by rewrite <- !app_assoc. }
  destruct (pop_word_count p 0 Hb ltac:(lia)) as (a0 & b0 & c0 & d0 & -> & ? & ? & ? & ? & E0). destruct (pop_word_count p 1 Hb ltac:(lia)) as (a1 & b1 & c1 & d1 & -> & ? & ? & ? & ? & E1).
  destruct (pop_word_count p 2 Hb ltac:(lia)) as (a2 & b2 & c2 & d2 & -> & ? & ? & ? & ? & E2). destruct (pop_word_count p 3 Hb ltac:(lia)) as (a3 & b3 & c3 & d3 & -> & ? & ? & ? & ? & E3).
  destruct (pop_word_count p 4 Hb ltac:(lia)) as (a4 & b4 & c4 & d4 & -> & ? & ? & ? & ? & E4). destruct (pop_word_count p 5 Hb ltac:(lia)) as (a5 & b5 & c5 & d5 & -> & ? & ? & ? & ? & E5).
  destruct (pop_word_count p 6 Hb ltac:(lia)) as (a6 & b6 & c6 & d6 & -> & ? & ? & ? & ? & E6). simpl Nat.mul in *.
  rewrite !bits_app, !count_app, <- E0, <- E1, <- E2, <- E3, <- E4, <- E5, <- E6. clear E0 E1 E2 E3 E4 E5 E6.
  assert (forall p q r s p' q' r' s', quad p q r s + quad p' q' r' s' = quad (p + p') (q + q') (r + r') (s + s')) as Hadd by (unfold quad; lia).
  do 6 (rewrite ?Hadd; rewrite (u32_small (quad _ _ _ _)) by (unfold quad; lia)). rewrite multiply_sums by lia. lia.
Qed.

Lemma pop_head_spec addr s n : bytes s -> exists p, pop_head addr s n = (p, n + count (bits s) - count (bits p)) /\ bytes p /\ (length p <= length s)%nat.
Proof.
  intros Hb. revert addr n. induction Hb as [|b s Hb Hs IH]; intros addr n; [exists []; split; [simpl; f_equal; lia|done]|]. cbn [pop_head].
  destruct (Z.land addr 3 =? 0); [exists (b :: s); split; [f_equal; lia|by split; [constructor|]]|].
  destruct (IH (addr + 1) (n + byte_bits_count b)) as (p & -> & Hp & Hl). exists p. split; [|split; [done|simpl; lia]].
  rewrite byte_count, bits_cons, count_app by done. f_equal. lia.
Qed.

Lemma pop_tail_spec p n : bytes p -> pop_tail p n = n + count (bits p).
Proof.
  intros Hb. revert n. unfold pop_tail. induction Hb as [|b s Hb Hs IH]; intros n; cbn [fold_left]; [simpl; lia|].
  rewrite IH, byte_count, bits_cons, count_app by done. lia.
Qed.

Lemma popcount_spec addr s : bytes s -> redisPopcount addr s = Ret (count (bits s)).
Proof.
  intros Hb. unfold redisPopcount. destruct (pop_head_spec addr s 0 Hb) as (p & -> & Hp & Hl).
  destruct (pop_words_spec (length s) p (0 + count (bits s) - count (bits p)) Hp Hl) as (p' & -> & Hp'). cbn [obind]. rewrite pop_tail_spec by done. f_equal. lia.
Qed.

(** ** Finding *)

Lemma first_app b l1 l2 : first b (l1 ++ l2) = match first b l1 with Some i => Some i | None => Nat.add (length l1) <$> first b l2 end.
Proof.
  induction l1 as [|x l1 IH]; [simpl; by destruct (first b l2)|]. cbn [app first length]. destruct (Bool.eqb x b); [done|]. rewrite IH.
  destruct (first b l1); [done|]. by destruct (first b l2).
Qed.

Lemma first_bound b l i : first b l = Some i -> (i < length l)%nat.
Proof.
  revert i. induction l as [|x l IH]; intros i H; [done|]. cbn [first] in H. destruct (Bool.eqb x b); [injection H as <-; simpl; lia|].
  destruct (first b l) as [k|]; [|done]. injection H as <-. specialize (IH k eq_refl). simpl. lia.
Qed.

Definition skip_byte (bit : bool) : Z := if bit then 0 else 255.

Lemma first_byte bit b : is_byte b -> (first bit (byte_bits b) = None <-> b = skip_byte bit).
Proof.
  intros Hb. set (f := fun b => Bool.eqb (bool_decide (first true (byte_bits b) = None)) (b =? 0) && Bool.eqb (bool_decide (first false (byte_bits b) = None)) (b =? 255)).
  assert (f b = true) as E by (revert b Hb; apply (range_check f 256); vm_compute; reflexivity). unfold f in E. apply andb_true_iff in E as [E1 E2].
  apply Bool.eqb_prop in E1, E2. unfold skip_byte. destruct bit.
  - rewrite <- (bool_decide_eq_true (first true (byte_bits b) = None)), E1. apply Z.eqb_eq.
  - rewrite <- (bool_decide_eq_true (first false (byte_bits b) = None)), E2. apply Z.eqb_eq.
Qed.

Lemma first_skips bit k : first bit (bits (replicate k (skip_byte bit))) = None.
Proof.
  induction k as [|k IH]; [done|]. cbn [replicate]. rewrite bits_cons, first_app, IH. rewrite (proj2 (first_byte bit (skip_byte bit) ltac:(by destruct bit))) by done. done.
Qed.

Lemma skip_bytes_spec bit addr s pos : bytes s -> exists k c found, skip_bytes addr (skip_byte bit) s pos = (c, pos + 8 * Z.of_nat k, found) /\
  s = replicate k (skip_byte bit) ++ c /\ bytes c /\ (found = true -> exists b c', c = b :: c' /\ b <> skip_byte bit).
Proof.
  intros Hb. revert addr pos. induction Hb as [|b s Hb Hs IH]; intros addr pos; cbn [skip_bytes].
  { exists 0%nat, [], false. split; [f_equal; f_equal; lia|done]. }
  destruct (Z.land addr 7 =? 0). { exists 0%nat, (b :: s), false. split; [f_equal; f_equal; lia|]. by split; [|split; [constructor|]]. }
  destruct (Z.eqb_spec b (skip_byte bit)) as [->|Hne]; cbn [negb].
  - destruct (IH (addr + 1) (pos + 8)) as (k & c & found & -> & -> & Hc & Hf). exists (S k), c, found. split; [f_equal; f_equal; lia|]. by split.
  - exists 0%nat, (b :: s), true. split; [f_equal; f_equal; lia|]. split; [done|]. split; [by constructor|]. intros _. by exists b, s.
Qed.

(** A word whose bytes are not all to be skipped holds the bit. *)
Lemma word_skip (bit : bool) l : bytes l -> length l = 8%nat -> (le_decode l = (if bit then 0 else ULONG_MAX) <-> l = replicate 8 (skip_byte bit)).
Proof.
  intros Hb Hl. split; [|intros ->; by destruct bit]. intros E.
  rewrite <- (le_encode_decode l Hb), Hl, E. by destruct bit.
Qed.

Lemma first_none bit t : bytes t -> first bit (bits t) = None -> t = replicate (length t) (skip_byte bit).
Proof.
  induction 1 as [|b t Hb Ht IH]; intros Hn; [done|]. rewrite bits_cons, first_app in Hn.
  destruct (first bit (byte_bits b)) eqn:Eb; [done|]. apply first_byte in Eb as ->; [|done]. cbn [length replicate]. f_equal. apply IH.
  by destruct (first bit (bits t)).
Qed.

Lemma skip_words_spec (bit : bool) fuel l pos : bytes l -> (length l <= fuel)%nat -> exists k c,
  skip_words fuel (if bit then 0 else ULONG_MAX) l pos = Ret (c, pos + 8 * Z.of_nat k) /\ l = replicate k (skip_byte bit) ++ c /\ bytes c /\
  ((length c < 8)%nat \/ first bit (bits (take 8 c)) <> None).
Proof.
  revert l pos. induction fuel as [|fuel IH]; intros l pos Hb Hl; cbn [skip_words].
  { destruct l; [|simpl in Hl; lia]. exists 0%nat, []. split; [do 2 f_equal; lia|]. split; [done|]. split; [done|]. left. simpl. lia. }
  destruct (Nat.leb_spec 8 (length l)) as [H8|H8].
  - destruct (Z.eqb_spec (le_decode (take 8 l)) (if bit then 0 else ULONG_MAX)) as [E|E]; cbn [negb].
    + apply word_skip in E; [|by apply Forall_take|rewrite length_take; lia].
      destruct (IH (drop 8 l) (pos + 64)) as (k & c & -> & Ed & Hc & Hor); [by apply Forall_drop|rewrite length_drop; lia|].
      exists (8 + k)%nat, c. split; [do 2 f_equal; lia|]. split; [|done]. rewrite <- (take_drop 8 l), E, Ed, app_assoc. by rewrite <- replicate_add.
    + exists 0%nat, l. split; [do 2 f_equal; lia|]. split; [done|]. split; [done|]. right. intros Hn. apply E. apply word_skip; [by apply Forall_take|rewrite length_take; lia|].
      rewrite (first_none bit (take 8 l)) by (done || by apply Forall_take). by rewrite length_take, Nat.min_l by done.
  - exists 0%nat, l. split; [do 2 f_equal; lia|]. split; [done|]. split; [done|]. by left.
Qed.

Lemma be_byte b : is_byte b -> be_value (byte_bits b) = b.
Proof. intros Hb. apply Z.eqb_eq. revert b Hb. apply (range_check (fun b => be_value (byte_bits b) =? b) 256). vm_compute. reflexivity. Qed.

Lemma load_word_spec j c w : bytes c -> 0 <= w -> (w + 1) * 256 ^ Z.of_nat j <= 2 ^ 64 ->
  load_word j c w = w * 256 ^ Z.of_nat j + be_value (bits (take j c ++ replicate (j - length c) 0)).
Proof.
  revert c w. induction j as [|j IH]; intros c w Hc Hw Hlt.
  { change (w = w * 1 + 0). lia. }
  cbn [load_word].
  rewrite Nat2Z.inj_succ, Z.pow_succ_r in Hlt |- * by lia. assert (1 <= 256 ^ Z.of_nat j) by (pose proof (Z.pow_pos_nonneg 256 (Z.of_nat j)); lia).
  assert (wrap 64 (Z.shiftl w 8) = w * 256) as ->.
  { rewrite Z.shiftl_mul_pow2 by lia. change (2 ^ 8) with 256. apply wrap_small. unfold in_u. nia. }
  assert (forall l, length (bits l) = (8 * length l)%nat) as Hlb by apply length_bits.
  assert (256 ^ Z.of_nat j = 2 ^ Z.of_nat (8 * j)) as Hp by (rewrite Nat2Z.inj_mul, Z.pow_mul_r by lia; done).
  destruct Hc as [|b c Hb Hc].
  - rewrite IH by (done || nia). cbn [take length]. rewrite !Nat.sub_0_r. cbn [replicate app]. rewrite take_nil. cbn [app]. rewrite bits_cons, be_value_app.
    change (be_value (byte_bits 0)) with 0. lia.
  - assert (Z.lor (w * 256) b = w * 256 + b) as ->.
    { unfold is_byte, in_u in Hb. pose proof (lor_shiftl b w 8 ltac:(lia) ltac:(lia)) as E. rewrite Z.shiftl_mul_pow2 in E by lia. rewrite Z.lor_comm.
      change (2 ^ 8) with 256 in E. lia. }
    unfold is_byte, in_u in Hb. rewrite IH by (done || nia). cbn [take length]. cbn [app]. rewrite bits_cons, be_value_app, be_byte by done.
    replace (S j - S (length c))%nat with (j - length c)%nat by lia. rewrite Hlb.
    assert (length (take j c ++ replicate (j - length c) 0) = j) as -> by (rewrite length_app, length_take, length_replicate; lia). lia.
Qed.

Lemma land_pow2 n w : 0 <= n -> negb (Z.land (2 ^ n) w =? 0) = Z.testbit w n.
Proof.
  intros Hn. destruct (Z.testbit w n) eqn:E.
  - apply negb_true_iff, Z.eqb_neq. intros H0. assert (Z.testbit (Z.land (2 ^ n) w) n = true) as Ht by (rewrite Z.land_spec, Z.pow2_bits_true, E by done; done).
    by rewrite H0, Z.bits_0 in Ht.
  - apply negb_false_iff, Z.eqb_eq. apply Z.bits_inj'. intros i Hi. rewrite Z.land_spec, Z.bits_0. destruct (Z.eq_dec i n) as [->|Hne]; [by rewrite E, andb_false_r|].
    by rewrite Z.pow2_bits_false by lia.
Qed.

Lemma scan_spec r bit w pos fuel : (length r <= fuel)%nat -> r <> [] -> (forall i, (i < length r)%nat -> Z.testbit w (Z.of_nat (length r - 1 - i)) = nth i r false) ->
  scan_bits fuel (2 ^ (Z.of_nat (length r) - 1)) w bit pos = match first bit r with Some i => Ret (pos + Z.of_nat i) | None => Abort end.
Proof.
  revert pos fuel. induction r as [|x r IH]; intros pos fuel Hf Hne H; [done|]. destruct fuel as [|fuel]; [simpl in Hf; lia|].
  cbn [scan_bits first length]. replace (Z.of_nat (S (length r)) - 1) with (Z.of_nat (length r)) by lia. set (n := length r) in *.
  assert ((2 ^ Z.of_nat n =? 0) = false) as -> by (apply Z.eqb_neq; pose proof (pow2_pos (Z.of_nat n)); lia).
  rewrite land_pow2 by lia. pose proof (H 0%nat ltac:(simpl; lia)) as H0. cbn [length nth] in H0. fold n in H0. replace (S n - 1 - 0)%nat with n in H0 by lia. rewrite H0.
  destruct (Bool.eqb x bit); [f_equal; lia|]. destruct r as [|y r].
  - cbn [first fmap option_fmap option_map]. subst n. cbn [length]. change (Z.shiftr (2 ^ Z.of_nat 0) 1) with 0. by destruct fuel.
  - rewrite Z.shiftr_div_pow2 by lia. replace (2 ^ Z.of_nat n / 2 ^ 1) with (2 ^ (Z.of_nat n - 1)).
    2: { replace (Z.of_nat n) with (Z.of_nat n - 1 + 1) at 2 by lia. rewrite Z.pow_add_r by (subst n; simpl length; lia). by rewrite Z.div_mul. }
    rewrite IH; [|simpl in *; lia|done|].
    + fold n. destruct (first bit (y :: r)); [cbn; f_equal; lia|done].
    + intros i Hi. change (nth i (y :: r) false) with (nth (S i) (x :: y :: r) false). rewrite <- (H (S i)) by (simpl in *; lia). f_equal. f_equal. cbn [length]. fold n. simpl in *. lia.
Qed.

Lemma be_value_zero l : be_value l = 0 <-> first true l = None.
Proof.
  induction l as [|b l IH]; [done|]. rewrite be_value_cons. cbn [first]. pose proof (be_value_range l). pose proof (pow2_pos (Z.of_nat (length l))).
  destruct b; simpl b2z; cbn [Bool.eqb]; [split; [lia|done]|]. rewrite Z.mul_0_l, Z.add_0_l, IH. by destruct (first true l).
Qed.

(** The end of the string is padded with zeroes. *)
Lemma bitpos_spec addr s bit : bytes s -> redisBitpos addr s bit =
  Ret (match first bit (bits s) with Some i => Z.of_nat i | None => if bit then -1 else 8 * Z.of_nat (length s) end).
Proof.
  intros Hb. unfold redisBitpos. fold (skip_byte bit). destruct (skip_bytes_spec bit addr s 0 Hb) as (k & c & found & -> & Es & Hc & Hf).
  assert (exists k' c', (if found then Ret (c, 0 + 8 * Z.of_nat k) else skip_words (length s) (if bit then 0 else ULONG_MAX) c (0 + 8 * Z.of_nat k)) =
    Ret (c', 8 * Z.of_nat k') /\ s = replicate k' (skip_byte bit) ++ c' /\ bytes c' /\ ((length c' < 8)%nat \/ first bit (bits (take 8 c')) <> None)) as (k' & c' & -> & Es' & Hc' & Hor).
  { destruct found.
    - exists k, c. split; [done|]. split; [done|]. split; [done|]. right. destruct (Hf eq_refl) as (b & c' & -> & Hne). cbn [take]. rewrite bits_cons, first_app.
      inversion_clear Hc as [|? ? Hb' _]. destruct (first bit (byte_bits b)) eqn:E; [done|]. by apply first_byte in E.
    - destruct (skip_words_spec bit (length s) c (0 + 8 * Z.of_nat k) Hc) as (k2 & c2 & -> & -> & Hc2 & Hor); [rewrite Es, length_app; lia|].
      exists (k + k2)%nat, c2. split; [do 2 f_equal; lia|]. split; [|done]. by rewrite replicate_add, <- app_assoc. }
  cbn [obind]. set (pad := replicate (8 - length c') 0). set (L := bits (take 8 c' ++ pad)).
  rewrite load_word_spec by (done || lia). fold pad. fold L. change (0 * 256 ^ Z.of_nat 8) with 0. rewrite Z.add_0_l.
  assert (length L = 64%nat) as HL by (unfold L, pad; rewrite length_bits, length_app, length_take, length_replicate; lia).
  assert (scan_bits 64 (not64 (Z.shiftr ULONG_MAX 1)) (be_value L) bit (8 * Z.of_nat k') = match first bit L with Some i => Ret (8 * Z.of_nat k' + Z.of_nat i) | None => Abort end) as Hscan.
  { change (not64 (Z.shiftr ULONG_MAX 1)) with (2 ^ (Z.of_nat 64 - 1)). rewrite <- HL. apply scan_spec; [done|by destruct L|].
    intros i Hi. rewrite testbit_be_value by lia. f_equal. lia. }
  assert (forall i, first bit (bits (take 8 c')) = Some i -> first bit (bits s) = Some (8 * k' + i)%nat /\ first bit L = Some i) as Hfound.
  { intros i Hi. split.
    - rewrite Es', bits_app, first_app, first_skips, length_bits, length_replicate. rewrite <- (take_drop 8 c'), bits_app, first_app, Hi. done.
    - unfold L. by rewrite bits_app, first_app, Hi. }
  rewrite Hscan. destruct (first bit (bits (take 8 c'))) as [i|] eqn:Ei.
  - destruct (Hfound i eq_refl) as [-> ->]. destruct bit; cbn [andb]; [|f_equal; lia].
    destruct (Z.eqb_spec (be_value L) 0) as [E0|E0]; [|f_equal; lia]. exfalso. destruct (Hfound i eq_refl) as [_ E].
    apply be_value_zero in E0. congruence.
  - destruct Hor as [Hlt|Hn]; [|done]. rewrite take_ge in Ei by lia.
    assert (first bit (bits s) = None) as -> by (by rewrite Es', bits_app, first_app, first_skips, Ei).
    assert (length s = (k' + length c')%nat) as Hls by (rewrite Es', length_app, length_replicate; done).
    assert (first bit L = if bit then None else Some (8 * length c')%nat) as ->.
    { unfold L, pad. rewrite bits_app, (take_ge c') by lia. rewrite first_app, Ei, length_bits. destruct bit; [by rewrite (first_skips true)|].
      destruct (8 - length c')%nat eqn:Ep; [lia|]. cbn. f_equal. lia. }
    destruct bit; cbn [andb]; [|f_equal; lia]. assert (be_value L = 0) as ->; [|done]. apply be_value_zero. unfold L, pad.
    rewrite bits_app, (take_ge c') by lia. by rewrite first_app, Ei, (first_skips true).
Qed.

(** ** Ranges *)

(** Bits [a] to [b]. *)
Definition sub (l : list bool) (a b : Z) : list bool := take (Z.to_nat (b - a + 1)) (drop (Z.to_nat a) l).

(** Negative positions count from the end. *)
Definition index (total i : Z) : Z := if i <? 0 then Z.max 0 (total + i) else i.
Definition ends (total start end_ : Z) : Z * Z := (index total start, Z.min (total - 1) (index total end_)).

Lemma clamp_ends total start end_ : clamp total start end_ = ends total start end_.
Proof. unfold clamp, ends, index. destruct (Z.ltb_spec start 0), (Z.ltb_spec end_ 0); repeat case_bool; f_equal; lia. Qed.

Lemma bits_take n s : bits (take n s) = take (8 * n) (bits s).
Proof.
  destruct (decide (n <= length s)%nat) as [Hn|Hn]; [|by rewrite !take_ge by (rewrite ?length_bits; lia)].
  rewrite <- (take_drop n s) at 2. rewrite bits_app, take_app_le by (rewrite length_bits, length_take; lia). symmetry. apply take_ge. rewrite length_bits, length_take. lia.
Qed.

Lemma bits_drop n s : bits (drop n s) = drop (8 * n) (bits s).
Proof.
  destruct (decide (n <= length s)%nat) as [Hn|Hn]; [|by rewrite !drop_ge by (rewrite ?length_bits; lia)].
  rewrite <- (take_drop n s) at 2. rewrite bits_app, drop_app_ge by (rewrite length_bits, length_take; lia).
  rewrite length_bits, length_take, Nat.min_l, Nat.sub_diag by lia. done.
Qed.

Lemma bits_load s a b : 0 <= a -> a <= b + 1 -> bits (load s (Z.to_nat a) (Z.to_nat (b - a + 1))) = sub (bits s) (8 * a) (8 * b + 7).
Proof. intros Ha Hb. unfold load, sub. rewrite bits_take, bits_drop. f_equal; [lia|]. f_equal. lia. Qed.

Lemma sub_split l a b c : 0 <= a -> a <= b -> b <= c + 1 -> sub l a c = sub l a (b - 1) ++ sub l b c.
Proof.
  intros Ha Hab Hbc. unfold sub. replace (Z.to_nat b) with (Z.to_nat a + Z.to_nat (b - 1 - a + 1))%nat by lia. rewrite <- drop_drop.
  rewrite <- (take_drop (Z.to_nat (b - 1 - a + 1)) (take (Z.to_nat (c - a + 1)) (drop (Z.to_nat a) l))).
  rewrite take_take, skipn_firstn_comm. f_equal; [f_equal; lia|]. f_equal. lia.
Qed.

(** The bits of one byte. *)
Lemma sub_byte s k x i j : s !! Z.to_nat k = Some x -> 0 <= k -> 0 <= i -> i <= j + 1 -> j < 8 -> sub (bits s) (8 * k + i) (8 * k + j) = sub (byte_bits x) i j.
Proof.
  intros Hx Hk Hi Hij Hj. unfold sub. rewrite <- (take_drop_middle s (Z.to_nat k) x Hx) at 1. rewrite bits_app, bits_cons.
  rewrite drop_app_ge by (rewrite length_bits, length_take; lia). rewrite length_bits, length_take.
  assert (Z.to_nat k < length s)%nat as Hlt by (by apply lookup_lt_Some in Hx). rewrite Nat.min_l by lia.
  replace (Z.to_nat (8 * k + i) - 8 * Z.to_nat k)%nat with (Z.to_nat i) by lia. replace (8 * k + j - (8 * k + i) + 1) with (j - i + 1) by lia.
  rewrite drop_app_le by (simpl; lia). rewrite take_app_le; [done|]. rewrite length_drop. simpl. lia.
Qed.

Lemma get8_ok s k : 0 <= k < Z.of_nat (length s) -> exists x, get8 s k = Ret x /\ s !! Z.to_nat k = Some x.
Proof.
  intros Hk. unfold get8. destruct (lookup_lt_is_Some_2 s (Z.to_nat k) ltac:(lia)) as [x Hx]. exists x. by rewrite Hx.
Qed.

Lemma byte_of s k x : bytes s -> s !! k = Some x -> is_byte x.
Proof. intros Hs Hx. by apply (Forall_lookup_1 _ _ _ _ Hs Hx). Qed.

(** *** The masks of a range of bits *)

Lemma mask_count x k : is_byte x -> 0 <= k < 8 ->
  count (byte_bits (Z.land x (fst (neg_masks k 0)))) = count (sub (byte_bits x) 0 (k - 1)) /\
  count (byte_bits (Z.land x (snd (neg_masks 0 k)))) = count (sub (byte_bits x) (k + 1) 7).
Proof.
  intros Hx Hk.
  set (f := fun x => forallb (fun k => (count (byte_bits (Z.land x (fst (neg_masks k 0)))) =? count (sub (byte_bits x) 0 (k - 1))) &&
    (count (byte_bits (Z.land x (snd (neg_masks 0 k)))) =? count (sub (byte_bits x) (k + 1) 7))) (map Z.of_nat (seq 0 8))).
  assert (f x = true) as E by (revert x Hx; apply (range_check f 256); vm_compute; reflexivity).
  pose proof (range_check _ 8 E k Hk) as E'. cbn beta in E'. lia.
Qed.

Lemma neg_masks_mod a b : neg_masks a b = (fst (neg_masks (a mod 8) 0), snd (neg_masks 0 (b mod 8))).
Proof.
  unfold neg_masks. cbn [fst snd]. assert (forall z, Z.land z 7 = z mod 8) as E by (intros z; apply (land_mask z 3); lia). by rewrite !E, !Z.mod_mod by lia.
Qed.

Lemma mask_bytes a : 0 <= a < 8 -> is_byte (fst (neg_masks a 0)) /\ is_byte (snd (neg_masks 0 a)) /\ (fst (neg_masks a 0) = 0 -> a = 0) /\ (snd (neg_masks 0 a) = 0 -> a = 7).
Proof.
  intros Ha. set (f := fun a => let '(m1, m2) := (fst (neg_masks a 0), snd (neg_masks 0 a)) in
    (0 <=? m1) && (m1 <? 256) && (0 <=? m2) && (m2 <? 256) && (negb (m1 =? 0) || (a =? 0)) && (negb (m2 =? 0) || (a =? 7))).
  assert (f a = true) as E by (revert a Ha; apply (range_check f 8); vm_compute; reflexivity). unfold f in E. unfold is_byte, in_u. lia.
Qed.

Section Range.
Context (addr aux_addr : Z).

(** BITCOUNT of bits [a] to [b], with the masks for the ends. *)
Lemma bitcount_bits p a b : bytes p -> 0 <= a <= b -> b < 8 * Z.of_nat (length p) ->
  let '(m1, m2) := neg_masks a b in bitcount_range addr aux_addr p (Z.shiftr a 3) (Z.shiftr b 3) m1 m2 = Ret (RInt (count (sub (bits p) a b))).
Proof.
  intros Hp Ha Hb. rewrite neg_masks_mod. rewrite !Z.shiftr_div_pow2 by lia. change (2 ^ 3) with 8.
  set (A := a / 8). set (B := b / 8). set (i := a mod 8). set (j := b mod 8).
  assert (a = 8 * A + i /\ b = 8 * B + j /\ 0 <= i < 8 /\ 0 <= j < 8 /\ 0 <= A <= B /\ B < Z.of_nat (length p)) as (Ea & Eb & Hi & Hj & HAB & HB) by (subst A B i j; zdiv).
  clearbody A B i j. subst a b. unfold bitcount_range. rewrite (proj2 (Z.ltb_ge B A)) by lia. unfold bytes_at.
  replace (_ && _) with true by (symmetry; zbool; lia). cbn [obind]. rewrite popcount_spec by (by apply bytes_load). cbn [obind]. rewrite bits_load by lia.
  destruct (get8_ok p A ltac:(lia)) as (x & Ex & Hx). destruct (get8_ok p B ltac:(lia)) as (y & Ey & Hy).
  pose proof (byte_of p _ x Hp Hx) as Hbx. pose proof (byte_of p _ y Hp Hy) as Hby.
  destruct (mask_count x i Hbx Hi) as [M1 _]. destruct (mask_count y j Hby Hj) as [_ M2].
  destruct (mask_bytes i Hi) as (Hm1 & _ & Z1 & _). destruct (mask_bytes j Hj) as (_ & Hm2 & _ & Z2).
  assert (count (sub (bits p) (8 * A) (8 * B + 7)) = count (sub (byte_bits x) 0 (i - 1)) + count (sub (bits p) (8 * A + i) (8 * B + j)) + count (sub (byte_bits y) (j + 1) 7)) as Ec.
  { rewrite (sub_split _ (8 * A) (8 * A + i)) by lia. rewrite (sub_split _ (8 * A + i) (8 * B + j + 1)) by lia. rewrite !count_app.
    pose proof (sub_byte p A x 0 (i - 1) Hx) as S1. rewrite Z.add_0_r in S1. replace (8 * A + i - 1) with (8 * A + (i - 1)) by lia. rewrite S1 by lia.
    pose proof (sub_byte p B y (j + 1) 7 Hy) as S2. replace (8 * B + j + 1) with (8 * B + (j + 1)) by lia. rewrite S2 by lia.
    replace (8 * B + (j + 1) - 1) with (8 * B + j) by lia. lia. }
  set (m1 := fst (neg_masks i 0)) in *. set (m2 := snd (neg_masks 0 j)) in *.
  assert (forall m (g : outcome Z), (if negb (m =? 0) then let* v := g in Ret (Z.land v m) else Ret 0) =
     match g with Ret v => Ret (Z.land v m) | Abort => if negb (m =? 0) then Abort else Ret 0 end) as Hg.
  { intros m g. destruct (Z.eqb_spec m 0) as [->|]; cbn [negb]; [|by destruct g]. destruct g; [done|]. by rewrite Z.land_0_r. }
  rewrite !Hg, Ex, Ey. cbn [obind].
  rewrite popcount_spec; [|repeat constructor; by apply (land_in_u 8)]. cbn [obind]. rewrite bits_cons, count_app, bits_cons, count_app, M1, M2.
  change (count (bits [])) with 0. destruct (negb (m1 =? 0) || negb (m2 =? 0)) eqn:Em; [do 2 f_equal; lia|].
  apply orb_false_iff in Em as [E1%negb_false_iff%Z.eqb_eq E2%negb_false_iff%Z.eqb_eq]. specialize (Z1 E1). specialize (Z2 E2). subst i j. do 2 f_equal. rewrite Ec.
  change (sub (byte_bits x) 0 (0 - 1)) with (@nil bool). change (sub (byte_bits y) (7 + 1) 7) with (@nil bool). simpl count at 1 3. lia.
Qed.

Lemma bitcount_bytes p a b : bytes p -> 0 <= a -> b < Z.of_nat (length p) -> bitcount_range addr aux_addr p a b 0 0 = Ret (RInt (count (sub (bits p) (8 * a) (8 * b + 7)))).
Proof.
  intros Hp Ha Hb. unfold bitcount_range. destruct (Z.ltb_spec b a) as [Hlt|Hle].
  - unfold sub. replace (Z.to_nat _) with 0%nat by lia. done.
  - unfold bytes_at. replace (_ && _) with true by (symmetry; zbool; lia). cbn [obind]. rewrite popcount_spec by (by apply bytes_load). cbn [obind].
    change (negb (0 =? 0) || negb (0 =? 0)) with false. cbn iota. by rewrite bits_load by lia.
Qed.

End Range.

(** *** Searching a range *)

Definition masked (bit : bool) (b m : Z) : Z := if bit then Z.land b (Z.lxor m 255) else Z.lor b m.

Lemma masked_0 bit x : is_byte x -> masked bit x 0 = x.
Proof.
  intros Hx. destruct bit; simpl; [|apply Z.lor_0_r]. change (Z.lxor 0 255) with 255. rewrite land_255. apply Z.mod_small. exact Hx.
Qed.

(** Bits outside of the range are set to what is not looked for. *)
Lemma masked_bits bit x i j : is_byte x -> 0 <= i < 8 -> 0 <= j < 8 -> i <= j ->
  is_byte (masked bit x (fst (neg_masks i 0))) /\ is_byte (masked bit x (snd (neg_masks 0 j))) /\ is_byte (masked bit (masked bit x (fst (neg_masks i 0))) (snd (neg_masks 0 j))) /\
  byte_bits (masked bit x (fst (neg_masks i 0))) = replicate (Z.to_nat i) (negb bit) ++ sub (byte_bits x) i 7 /\
  byte_bits (masked bit x (snd (neg_masks 0 j))) = sub (byte_bits x) 0 j ++ replicate (Z.to_nat (7 - j)) (negb bit) /\
  byte_bits (masked bit (masked bit x (fst (neg_masks i 0))) (snd (neg_masks 0 j))) = replicate (Z.to_nat i) (negb bit) ++ sub (byte_bits x) i j ++ replicate (Z.to_nat (7 - j)) (negb bit).
Proof.
  intros Hx Hi Hj Hij.
  set (ok := fun z => (0 <=? z) && (z <? 256)).
  set (g := fun x i j bit => let a := masked bit x (fst (neg_masks i 0)) in let b := masked bit x (snd (neg_masks 0 j)) in let c := masked bit a (snd (neg_masks 0 j)) in
    ok a && ok b && ok c && ((j <? i) || bool_decide (byte_bits a = replicate (Z.to_nat i) (negb bit) ++ sub (byte_bits x) i 7) &&
    bool_decide (byte_bits b = sub (byte_bits x) 0 j ++ replicate (Z.to_nat (7 - j)) (negb bit)) &&
    bool_decide (byte_bits c = replicate (Z.to_nat i) (negb bit) ++ sub (byte_bits x) i j ++ replicate (Z.to_nat (7 - j)) (negb bit)))).
  assert (g x i j bit = true) as E.
  { set (h := fun x => forallb (fun i => forallb (fun j => g x i j true && g x i j false) (map Z.of_nat (seq 0 8))) (map Z.of_nat (seq 0 8))).
    assert (h x = true) as E by (clear -Hx; revert x Hx; apply (range_check h 256); vm_compute; reflexivity).
    pose proof (range_check _ 8 E i Hi) as Ei. cbn beta in Ei. pose proof (range_check _ 8 Ei j Hj) as Ej. cbn beta in Ej. apply andb_true_iff in Ej as [? ?]. by destruct bit. }
  unfold g in E. rewrite (proj2 (Z.ltb_ge j i)) in E by lia. cbn [orb] in E. rewrite !andb_true_iff, !bool_decide_eq_true in E. unfold ok in E. unfold is_byte, in_u.
  destruct E as [[[E1 E2] E3] [[E4 E5] E6]]. repeat split; (done || lia).
Qed.

(** The result of the search for [bit] in [l], the bits of [n] bytes from byte [A] on:
    the last search began at byte [st] and had [k] bytes. *)
Definition search_ok (bit : bool) (l : list bool) (A n : Z) (r : Z * Z * Z) : Prop :=
  let '(pos, st, k) := r in
  A <= st /\ st + k = A + n /\ 1 <= k /\
  match first bit l with
  | Some i => pos = Z.of_nat i - 8 * (st - A) /\ 0 <= pos < 8 * k
  | None => pos = if bit then -1 else 8 * k
  end.

Section Search.
Context (addr aux_addr : Z) (bit : bool) (p : list Z) (B y m2 : Z).
Context (Hp : bytes p) (Hy : p !! Z.to_nat B = Some y) (HB : 0 <= B) (Hm2 : is_byte (masked bit y m2)).

(** From byte [st] on, the last byte masked. *)
Lemma search_tail st : 0 <= st <= B -> exists r, 
  (let bytes := B - st + 1 in
   let curbytes := bytes - (if negb (m2 =? 0) then 1 else 0) in
   let* r := if 0 <? curbytes then
               let* s := bytes_at p st curbytes in
               let* pos := redisBitpos (addr + st) s bit in
               if (bytes =? curbytes) || negb (pos =? -1) && negb (pos =? Z.shiftl curbytes 3) then Ret (inr (pos, st, bytes))
               else Ret (inl (st + curbytes, bytes - curbytes))
             else Ret (inl (st, bytes)) in
   match r with
   | inr found => Ret found
   | inl (start, bytes) =>
       let* b := get8 p B in
       let* pos := redisBitpos aux_addr [masked bit b m2] bit in
       Ret (pos, start, bytes)
   end) = Ret r /\ search_ok bit (bits (load p (Z.to_nat st) (Z.to_nat (B - st)) ++ [masked bit y m2])) st (B - st + 1) r.
Proof using Hp Hy HB Hm2.
  intros Hst. pose proof (lookup_lt_Some _ _ _ Hy) as Hlen. pose proof (byte_of p _ y Hp Hy) as Hby. cbv zeta.
  destruct (Z.eqb_spec m2 0) as [->|Hne]; cbn [negb].
  - rewrite Z.sub_0_r, Z.eqb_refl. cbn [orb]. rewrite (proj2 (Z.ltb_lt 0 (B - st + 1))) by lia. unfold bytes_at. replace (_ && _) with true by (symmetry; zbool; lia).
    cbn [obind]. rewrite bitpos_spec by (by apply bytes_load). cbn [obind]. eexists. split; [done|]. rewrite masked_0 by done.
    assert (load p (Z.to_nat st) (Z.to_nat (B - st)) ++ [y] = load p (Z.to_nat st) (Z.to_nat (B - st + 1))) as ->.
    { unfold load. replace (Z.to_nat (B - st + 1)) with (S (Z.to_nat (B - st))) by lia. symmetry. apply take_S_r. rewrite lookup_drop. by replace (Z.to_nat st + Z.to_nat (B - st))%nat with (Z.to_nat B) by lia. }
    split; [lia|]. split; [lia|]. split; [lia|]. assert (length (load p (Z.to_nat st) (Z.to_nat (B - st + 1))) = Z.to_nat (B - st + 1)) as Hll by (rewrite length_load; lia).
    destruct (first bit _) as [i|] eqn:Ei; [|rewrite Hll; destruct bit; lia]. apply first_bound in Ei. rewrite length_bits, Hll in Ei. lia.
  - replace (B - st + 1 - 1) with (B - st) by lia. rewrite Z.shiftl_mul_pow2 by lia. change (2 ^ 3) with 8.
    assert (bits (load p (Z.to_nat st) (Z.to_nat (B - st)) ++ [masked bit y m2]) = bits (load p (Z.to_nat st) (Z.to_nat (B - st))) ++ byte_bits (masked bit y m2)) as -> by (by rewrite bits_app, bits_cons, app_nil_r).
    set (l1 := bits (load p (Z.to_nat st) (Z.to_nat (B - st)))).
    assert (length (load p (Z.to_nat st) (Z.to_nat (B - st))) = Z.to_nat (B - st)) as Hll by (rewrite length_load; lia).
    assert (length l1 = Z.to_nat (8 * (B - st))) as Hl1 by (unfold l1; rewrite length_bits, Hll; lia).
    assert (forall st' k, st' + k = B + 1 -> st' = B -> first bit l1 = None -> exists r,
      (let* b := get8 p B in let* pos := redisBitpos aux_addr [masked bit b m2] bit in Ret (pos, st', k)) = Ret r /\ search_ok bit (l1 ++ byte_bits (masked bit y m2)) st (B - st + 1) r) as Hlast.
    { intros st' k Hk -> Hn. unfold get8. rewrite Hy. cbn [obind]. rewrite bitpos_spec by (by constructor). cbn [obind]. eexists. split; [done|].
      rewrite bits_cons, app_nil_r. split; [lia|]. split; [lia|]. split; [lia|]. rewrite first_app, Hn. destruct (first bit (byte_bits _)) as [i|] eqn:Ei; cbn.
      - apply first_bound in Ei. simpl in Ei. lia.
      - destruct bit; lia. }
    destruct (Z.ltb_spec 0 (B - st)) as [Hpos|Hz].
    + unfold bytes_at. replace (_ && _) with true by (symmetry; zbool; lia). cbn [obind]. rewrite bitpos_spec by (by apply bytes_load). cbn [obind]. fold l1.
      rewrite (proj2 (Z.eqb_neq (B - st + 1) (B - st))) by lia. cbn [orb]. destruct (first bit l1) as [i|] eqn:Ei.
      * pose proof (first_bound _ _ _ Ei) as Hi. replace (negb _ && negb _) with true by (symmetry; zbool; lia). eexists. split; [done|].
        unfold search_ok. rewrite first_app, Ei. lia.
      * replace (negb _ && negb _) with false by (symmetry; rewrite Hll; destruct bit; [done|apply andb_false_iff; right; apply negb_false_iff, Z.eqb_eq; lia]). cbn [obind]. apply Hlast; (done || lia).
    + assert (first bit l1 = None) as Hn by (destruct l1; [done|simpl in Hl1; lia]). apply Hlast; (done || lia).
Qed.

End Search.

Definition masked_bytes (bit : bool) (p : list Z) (A B x y m1 m2 : Z) : list Z :=
  if A =? B then [masked bit (masked bit x m1) m2]
  else masked bit x m1 :: load p (Z.to_nat (A + 1)) (Z.to_nat (B - (A + 1))) ++ [masked bit y m2].

Lemma search_ok_later bit l l' A n r : first bit l = None -> length l = 8%nat -> search_ok bit l' (A + 1) (n - 1) r -> search_ok bit (l ++ l') A n r.
Proof.
  unfold search_ok. destruct r as [[pos st] k]. intros Hn Hl (H1 & H2 & H3 & H4). split; [lia|]. split; [lia|]. split; [done|].
  rewrite first_app, Hn, Hl. destruct (first bit l') as [i|]; cbn; lia.
Qed.

Lemma bitpos_search_spec addr aux_addr bit p A B x y m1 m2 : bytes p -> 0 <= A <= B -> p !! Z.to_nat A = Some x -> p !! Z.to_nat B = Some y ->
  is_byte (masked bit x m1) -> is_byte (masked bit y m2) -> is_byte (masked bit (masked bit x m1) m2) ->
  exists r, bitpos_search addr aux_addr bit p A B m1 m2 = Ret r /\ search_ok bit (bits (masked_bytes bit p A B x y m1 m2)) A (B - A + 1) r.
Proof.
  intros Hp HAB Hx Hy Hbx Hby Hbxy. pose proof (byte_of p _ x Hp Hx) as Hxb. unfold bitpos_search, masked_bytes. cbv zeta.
  destruct (search_tail addr aux_addr bit p B y m2 Hp Hy ltac:(lia) Hby A ltac:(lia)) as (r0 & E0 & H0). cbv zeta in E0.
  destruct (Z.eqb_spec m1 0) as [->|Hm1]; cbn [negb obind].
  - exists r0. split; [exact E0|]. rewrite masked_0 in * by done. destruct (Z.eqb_spec A B) as [->|Hne].
    + rewrite Hx in Hy. injection Hy as <-. by rewrite Z.sub_diag in *.
    + assert (x :: load p (Z.to_nat (A + 1)) (Z.to_nat (B - (A + 1))) = load p (Z.to_nat A) (Z.to_nat (B - A))) as E.
      { unfold load. rewrite (drop_S p x (Z.to_nat A) Hx). replace (Z.to_nat (B - A)) with (S (Z.to_nat (B - (A + 1)))) by lia. cbn [take].
        by replace (Z.to_nat (A + 1)) with (S (Z.to_nat A)) by lia. }
      rewrite app_comm_cons, E. exact H0.
  - unfold get8 at 1. rewrite Hx. cbn [obind]. fold (masked bit x m1). fold (masked bit (masked bit x m1) m2).
    destruct (Z.eqb_spec A B) as [->|Hne].
    + rewrite Z.sub_diag. change (0 + 1 =? 1) with true. cbn [andb orb].
      assert ((if negb (m2 =? 0) && true then masked bit (masked bit x m1) m2 else masked bit x m1) = masked bit (masked bit x m1) m2) as ->.
      { destruct (Z.eqb_spec m2 0) as [->|]; cbn [negb andb]; [by rewrite masked_0|done]. }
      rewrite bitpos_spec by (by constructor). cbn [obind]. eexists. split; [done|]. split; [lia|]. split; [lia|]. split; [lia|].
      destruct (first bit _) as [i|] eqn:Ei; [|done]. apply first_bound in Ei. simpl in Ei. lia.
    + rewrite (proj2 (Z.eqb_neq (B - A + 1) 1)) by lia. rewrite andb_false_r. cbn [orb]. rewrite bitpos_spec by (by constructor). cbn [obind].
      rewrite bits_cons. change (bits []) with (@nil bool). rewrite app_nil_r. set (l1 := byte_bits (masked bit x m1)).
      rewrite bits_cons. fold l1. destruct (first bit l1) as [i|] eqn:Ei.
      * pose proof (first_bound _ _ _ Ei) as Hi. simpl in Hi. replace (negb _ && negb _) with true by (symmetry; zbool; lia). cbn [obind]. eexists. split; [done|].
        unfold search_ok. rewrite first_app, Ei. lia.
      * replace (negb _ && negb _) with false by (destruct bit; done). cbn [obind].
        destruct (search_tail addr aux_addr bit p B y m2 Hp Hy ltac:(lia) Hby (A + 1) ltac:(lia)) as (r1 & E1 & H1). cbv zeta in E1.
        exists r1. split; [|apply search_ok_later; [done|done|by replace (B - A + 1 - 1) with (B - (A + 1) + 1) by lia]].
        replace (B - A + 1 - 1) with (B - (A + 1) + 1) by lia. exact E1.
Qed.

(** The bits of the masked bytes: those of the range, between bits not looked for. *)
Lemma masked_bytes_bits bit p A B i j x y : bytes p -> 0 <= A <= B -> p !! Z.to_nat A = Some x -> p !! Z.to_nat B = Some y -> 0 <= i < 8 -> 0 <= j < 8 -> 8 * A + i <= 8 * B + j ->
  bits (masked_bytes bit p A B x y (fst (neg_masks i 0)) (snd (neg_masks 0 j))) =
  replicate (Z.to_nat i) (negb bit) ++ sub (bits p) (8 * A + i) (8 * B + j) ++ replicate (Z.to_nat (7 - j)) (negb bit).
Proof.
  intros Hp HAB Hx Hy Hi Hj Hle. pose proof (byte_of p _ x Hp Hx) as Hbx. pose proof (byte_of p _ y Hp Hy) as Hby. unfold masked_bytes.
  destruct (Z.eqb_spec A B) as [->|Hne].
  - rewrite bits_cons. change (bits []) with (@nil bool). rewrite app_nil_r. destruct (masked_bits bit x i j Hbx Hi Hj ltac:(lia)) as (_ & _ & _ & _ & _ & ->).
    by rewrite (sub_byte p B x) by (done || lia).
  - rewrite bits_cons, bits_app, bits_cons. change (bits []) with (@nil bool). rewrite app_nil_r.
    destruct (masked_bits bit x i 7 Hbx Hi ltac:(lia) ltac:(lia)) as (_ & _ & _ & -> & _ & _). destruct (masked_bits bit y 0 j Hby ltac:(lia) Hj ltac:(lia)) as (_ & _ & _ & _ & -> & _).
    rewrite <- !app_assoc. f_equal. rewrite (sub_split (bits p) (8 * A + i) (8 * (A + 1))) by lia. rewrite (sub_split (bits p) (8 * (A + 1)) (8 * B)) by lia. rewrite <- !app_assoc.
    pose proof (sub_byte p A x i 7 Hx) as S1. replace (8 * (A + 1) - 1) with (8 * A + 7) by lia. rewrite S1 by lia. f_equal.
    pose proof (sub_byte p B y 0 j Hy) as S2. rewrite Z.add_0_r in S2. rewrite S2 by lia. f_equal.
    pose proof (bits_load p (A + 1) (B - 1) ltac:(lia) ltac:(lia)) as S3. replace (B - 1 - (A + 1) + 1) with (B - (A + 1)) in S3 by lia. rewrite S3. f_equal. lia.
Qed.

Lemma first_padded bit k l k' : first bit (replicate k (negb bit) ++ l ++ replicate k' (negb bit)) = Nat.add k <$> first bit l.
Proof.
  assert (forall k, first bit (replicate k (negb bit)) = None) as Hr by (induction k0 as [|k0 IH]; [done|]; cbn [replicate first]; rewrite IH; by destruct bit).
  rewrite first_app, Hr, first_app, Hr, length_replicate. by destruct (first bit l).
Qed.

(** BITPOS of bits [a] to [b]. *)
Definition pos_in (bit end_given : bool) (l : list bool) (a b : Z) : Z :=
  match first bit (sub l a b) with
  | Some i => a + Z.of_nat i
  | None => if bit || end_given then -1 else b + 1
  end.

Lemma bitpos_bits addr aux_addr bit end_given p a b : bytes p -> 0 <= a <= b -> b < 8 * Z.of_nat (length p) -> (end_given = false -> b mod 8 = 7) ->
  let '(m1, m2) := neg_masks a b in
  bitpos_range addr aux_addr bit end_given p (Z.shiftr a 3) (Z.shiftr b 3) m1 m2 = Ret (RInt (pos_in bit end_given (bits p) a b)).
Proof.
  intros Hp Ha Hb Heg. rewrite neg_masks_mod. rewrite !Z.shiftr_div_pow2 by lia. change (2 ^ 3) with 8.
  set (A := a / 8). set (B := b / 8). set (i := a mod 8). set (j := b mod 8).
  assert (a = 8 * A + i /\ b = 8 * B + j /\ 0 <= i < 8 /\ 0 <= j < 8 /\ 0 <= A <= B /\ B < Z.of_nat (length p)) as (Ea & Eb & Hi & Hj & HAB & HB) by (subst A B i j; zdiv).
  fold j in Heg. clearbody A B i j. subst a b. unfold bitpos_range. rewrite (proj2 (Z.ltb_ge B A)) by lia.
  destruct (get8_ok p A ltac:(lia)) as (x & _ & Hx). destruct (get8_ok p B ltac:(lia)) as (y & _ & Hy).
  pose proof (byte_of p _ x Hp Hx) as Hbx. pose proof (byte_of p _ y Hp Hy) as Hby.
  destruct (masked_bits bit x i 7 Hbx Hi ltac:(lia) ltac:(lia)) as (M1 & _). destruct (masked_bits bit y 0 j Hby ltac:(lia) Hj ltac:(lia)) as (_ & M2 & _).
  destruct (masked_bits bit (masked bit x (fst (neg_masks i 0))) 0 j M1 ltac:(lia) Hj ltac:(lia)) as (_ & M3 & _).
  destruct (bitpos_search_spec addr aux_addr bit p A B x y _ _ Hp HAB Hx Hy M1 M2 M3) as ([[pos st] k] & -> & Hs). cbn [obind].
  rewrite masked_bytes_bits in Hs by (done || lia). destruct Hs as (H1 & H2 & H3 & H4). rewrite first_padded in H4. rewrite !Z.shiftl_mul_pow2 by lia. change (2 ^ 3) with 8.
  unfold pos_in. destruct (first bit (sub (bits p) (8 * A + i) (8 * B + j))) as [q|]; cbn in H4.
  - destruct H4 as [-> H4]. rewrite (proj2 (Z.eqb_neq _ (k * 8))) by lia. rewrite andb_false_r. rewrite (proj2 (Z.eqb_neq _ (-1))) by lia. cbn [negb]. do 2 f_equal. lia.
  - subst pos. destruct bit; cbn [negb andb orb].
    + rewrite andb_false_r. done.
    + rewrite andb_true_r. rewrite (proj2 (Z.eqb_eq (8 * k) (k * 8))) by lia. rewrite andb_true_r. destruct end_given; [done|].
      rewrite (proj2 (Z.eqb_neq _ (-1))) by lia. cbn [negb]. specialize (Heg eq_refl). do 2 f_equal. lia.
Qed.

(** ** BITCOUNT and BITPOS *)

(** The bits a range selects. *)
Definition selected (s : list Z) (start end_ : Z) (isbit : bool) : Z * Z :=
  let n := Z.of_nat (length s) in
  if isbit then ends (8 * n) start end_ else let '(a, b) := ends n start end_ in (8 * a, 8 * b + 7).

Definition bitcount_of (s : list Z) (r : range) : Z :=
  match r with
  | Whole => count (bits s)
  | Range start end_ isbit =>
      if (start <? 0) && (end_ <? 0) && (end_ <? start) then 0
      else let '(a, b) := selected s start end_ isbit in count (sub (bits s) a b)
  end.

Definition bitpos_of (s : list Z) (bit : bool) (r : option (Z * option Z * bool)) : Z :=
  let last (isbit : bool) := (if isbit then 8 else 1) * Z.of_nat (length s) - 1 in
  let '(a, b, end_given) :=
    match r with
    | None => (0, 8 * Z.of_nat (length s) - 1, false)
    | Some (start, None, isbit) => (selected s start (last isbit) isbit, false)
    | Some (start, Some end_, isbit) => (selected s start end_ isbit, true)
    end in
  if b <? a then -1 else pos_in bit end_given (bits s) a b.

(** The arguments after the key, or after the bit. *)
Definition unit_name (isbit : bool) : list Z := if isbit then chars "BIT" else chars "byte".
Definition count_args (r : range) : list (list Z) :=
  match r with Whole => [] | Range start end_ isbit => [repr start; repr end_; unit_name isbit] end.
Definition pos_args (r : option (Z * option Z * bool)) : list (list Z) :=
  match r with
  | None => []
  | Some (start, None, _) => [repr start]
  | Some (start, Some end_, isbit) => [repr start; repr end_; unit_name isbit]
  end.

Definition in_range (i : Z) : Prop := in_s 64 i.

Lemma sub_all s : sub (bits s) 0 (8 * Z.of_nat (length s) - 1) = bits s.
Proof. unfold sub. rewrite drop_0. apply take_ge. rewrite length_bits. lia. Qed.

Lemma string2ll_repr v : in_s 64 v -> string2ll (repr v) = Some v.
Proof. intros Hv. by apply string2ll_spec. Qed.

Lemma unit_argument_name isbit : unit_argument (unit_name isbit) = Some isbit.
Proof. by destruct isbit. Qed.

Section Positions.
Context (addr aux_addr : Z) (b : StrObj.body).
Context (Hb : bytes (text b)) (Hlen : Z.of_nat (length (text b)) <= Z.shiftr LLONG_MAX 3).

Lemma shift_range isbit (a e : Z) : 0 <= a -> (if isbit && (a <=? e) then (Z.shiftr a 3, Z.shiftr e 3, neg_masks a e) else (a, e, (0, 0))) =
  if isbit && (a <=? e) then (Z.shiftr a 3, Z.shiftr e 3, (fst (neg_masks a e), snd (neg_masks a e))) else (a, e, (0, 0)).
Proof using. intros _. by destruct (neg_masks a e). Qed.

Lemma bitcount_string_spec r : bitcount_string addr aux_addr (Some (VString b)) r = Ret (RInt (bitcount_of (text b) r)).
Proof using Hb Hlen.
  unfold bitcount_string. destruct r as [|start end_ isbit].
  - rewrite bitcount_bytes by (done || lia). cbn [bitcount_of]. rewrite Z.mul_0_r.
    replace (8 * (Z.of_nat (length (text b)) - 1) + 7) with (8 * Z.of_nat (length (text b)) - 1) by lia. by rewrite sub_all.
  - rewrite (proj2 (Z.ltb_ge _ _) Hlen). cbn [bitcount_of]. destruct (_ && _ && _); [done|]. rewrite clamp_ends. unfold selected.
    set (n := Z.of_nat (length (text b))) in *. rewrite Z.shiftl_mul_pow2 by lia. change (2 ^ 3) with 8. rewrite (Z.mul_comm n 8).
    assert (forall t x, 0 <= t -> 0 <= index t x) as Hidx by (intros t x Ht; unfold index; case_bool; lia).
    destruct isbit; cbn [andb].
    + destruct (ends (8 * n) start end_) as [a e] eqn:Ee. unfold ends in Ee. injection Ee as Ea Ee.
      assert (0 <= a) as Ha by (subst a; apply Hidx; lia). destruct (Z.leb_spec a e) as [Hle|Hgt].
      * pose proof (bitcount_bits addr aux_addr (text b) a e Hb ltac:(lia) ltac:(lia)) as H. by destruct (neg_masks a e).
      * unfold bitcount_range. rewrite (proj2 (Z.ltb_lt e a)) by lia. unfold sub. replace (Z.to_nat _) with 0%nat by lia. done.
    + destruct (ends n start end_) as [a e] eqn:Ee. unfold ends in Ee. injection Ee as Ea Ee.
      apply bitcount_bytes; [done|subst a; apply Hidx; lia|lia].
Qed.

Lemma bitpos_bytes bit end_given a e : 0 <= a -> e < Z.of_nat (length (text b)) ->
  bitpos_range addr aux_addr bit end_given (text b) a e 0 0 = Ret (RInt (if 8 * e + 7 <? 8 * a then -1 else pos_in bit end_given (bits (text b)) (8 * a) (8 * e + 7))).
Proof using Hb.
  intros Ha He. destruct (Z.ltb_spec (8 * e + 7) (8 * a)) as [Hlt|Hle]; [unfold bitpos_range; by rewrite (proj2 (Z.ltb_lt e a)) by lia|].
  pose proof (bitpos_bits addr aux_addr bit end_given (text b) (8 * a) (8 * e + 7) Hb ltac:(lia) ltac:(lia) ltac:(intros; zdiv)) as H.
  rewrite neg_masks_mod in H. rewrite !Z.shiftr_div_pow2 in H by lia. change (2 ^ 3) with 8 in H.
  replace (8 * a / 8) with a in H by zdiv. replace ((8 * e + 7) / 8) with e in H by zdiv. replace (8 * a mod 8) with 0 in H by zdiv. replace ((8 * e + 7) mod 8) with 7 in H by zdiv.
  exact H.
Qed.

Lemma bitpos_string_spec bit r : bitpos_string addr aux_addr (Some (VString b)) bit r = Ret (RInt (bitpos_of (text b) bit r)).
Proof using Hb Hlen.
  unfold bitpos_string, bitpos_of. set (n := Z.of_nat (length (text b))) in *. destruct r as [[[start end_] isbit]|].
  2: { rewrite bitpos_bytes by lia. rewrite Z.mul_0_r. replace (8 * (n - 1) + 7) with (8 * n - 1) by lia. done. }
  rewrite (proj2 (Z.ltb_ge _ _) Hlen), clamp_ends. rewrite Z.shiftl_mul_pow2 by lia. change (2 ^ 3) with 8. rewrite (Z.mul_comm n 8).
  assert (forall t x, 0 <= t -> 0 <= index t x) as Hidx by (intros t x Ht; unfold index; case_bool; lia).
  set (e0 := match end_ with Some e => e | None => if isbit then 8 * n + 7 else n - 1 end).
  set (eg := bool_decide (is_Some end_)). set (t := if isbit then 8 * n else n). fold t.
  assert ((let '(a, e, g) := match end_ with Some e => (selected (text b) start e isbit, true) | None => (selected (text b) start ((if isbit then 8 else 1) * n - 1) isbit, false) end in
    if e <? a then -1 else pos_in bit g (bits (text b)) a e) =
    let '(a, e) := ends t start e0 in let '(a, e) := if isbit then (a, e) else (8 * a, 8 * e + 7) in if e <? a then -1 else pos_in bit eg (bits (text b)) a e) as Espec.
  { unfold selected. fold n. unfold t, e0, eg. assert (forall k s, 0 <= k -> ends k s (k - 1) = ends k s (k + 7)) as Hend.
    { intros k s Hk. unfold ends, index. f_equal. repeat case_bool; lia. }
    destruct end_ as [e|]; [rewrite bool_decide_eq_true_2 by (by eexists)|rewrite bool_decide_eq_false_2 by (by intros [])]; destruct isbit; rewrite ?Z.mul_1_l.
    all: rewrite ?Hend by lia; repeat match goal with |- context [ends ?x ?y ?z] => destruct (ends x y z) end; done. }
  transitivity (Ret (RInt (let '(a, e) := ends t start e0 in let '(a, e) := if isbit then (a, e) else (8 * a, 8 * e + 7) in if e <? a then -1 else pos_in bit eg (bits (text b)) a e))).
  2: { by rewrite <- Espec. }
  clear Espec. destruct (ends t start e0) as [a e] eqn:Ee. unfold ends in Ee. injection Ee as Ea Ee. destruct isbit; cbn [andb].
  - assert (0 <= a) as Ha by (subst a; apply Hidx; unfold t; lia). destruct (Z.leb_spec a e) as [Hle|Hgt].
    + pose proof (bitpos_bits addr aux_addr bit eg (text b) a e Hb ltac:(lia) ltac:(unfold t in Ee; lia)) as H. rewrite (proj2 (Z.ltb_ge e a)) by lia.
      destruct (neg_masks a e) as [m1 m2]. apply H. intros Heg. assert (end_ = None) as -> by (destruct end_; [|done]; unfold eg in Heg; rewrite bool_decide_eq_true_2 in Heg by (by eexists); done).
      unfold t, e0 in Ee. assert (e = 8 * n - 1) as -> by (rewrite <- Ee; unfold index; case_bool; lia). zdiv.
    + unfold bitpos_range. by rewrite (proj2 (Z.ltb_lt e a)) by lia.
  - apply bitpos_bytes; [subst a; apply Hidx; unfold t; lia|unfold t in Ee; lia].
Qed.

End Positions.

(** ** BITOP *)

(** Byte by byte. *)
Lemma word_op_byte op a b x y : is_byte a -> is_byte b -> 0 <= x -> 0 <= y ->
  word_op op (a + 256 * x) (b + 256 * y) = word_op op a b + 256 * word_op op x y /\ is_byte (word_op op a b) /\ 0 <= word_op op x y.
Proof.
  intros Ha Hb Hx Hy. unfold is_byte, in_u in *. change (2 ^ 8) with 256 in *.
  assert (forall p q, 0 <= p < 256 -> p + 256 * q = Z.lor p (Z.shiftl q 8)) as E by (intros p q Hp; rewrite lor_shiftl by lia; lia).
  assert (forall z, (forall i, 8 <= i -> Z.testbit z i = false) -> 0 <= z < 256) as Hu by (intros z Hz; apply (in_u_bits 8); [lia|done]).
  assert (forall i, 8 <= i -> Z.testbit a i = false) as Ta by (intros i Hi; apply (testbit_above 8); [done|lia]).
  assert (forall i, 8 <= i -> Z.testbit b i = false) as Tb by (intros i Hi; apply (testbit_above 8); [done|lia]).
  assert (0 <= word_op op a b < 256) as Hw.
  { apply Hu. intros i Hi. destruct op; cbn [word_op]; rewrite ?Z.land_spec, ?Z.lor_spec, ?Z.lxor_spec, ?Ta, ?Tb by done; done. }
  split; [|split; [done|]].
  - rewrite !E by done. apply Z.bits_inj'. intros i Hi.
    destruct (Z.lt_ge_cases i 8) as [H8|H8]; destruct op; cbn [word_op];
      repeat (rewrite ?Z.land_spec, ?Z.lor_spec, ?Z.lxor_spec, ?Z.shiftl_spec by lia); rewrite ?Ta, ?Tb by lia;
      rewrite ?(Z.testbit_neg_r _ (i - 8)) by lia; rewrite ?orb_false_r, ?xorb_false_r; done.
  - destruct op; cbn [word_op]; [apply Z.land_nonneg; lia|apply Z.lor_nonneg; lia|apply Z.lxor_nonneg; lia|lia].
Qed.

Lemma le_decode_nonneg l : bytes l -> 0 <= le_decode l.
Proof. intros H. pose proof (le_decode_range l H) as [? _]. done. Qed.

Lemma word_bytes op a b : bytes a -> bytes b -> length a = length b ->
  le_encode (length a) (word_op op (le_decode a) (le_decode b)) = zip_with (word_op op) a b.
Proof.
  intros Ha. revert b. induction Ha as [|x a Hx Ha IH]; intros b Hb Hl; [done|]. destruct Hb as [|y b Hy Hb]; [done|]. cbn [length le_encode le_decode zip_with].
  destruct (word_op_byte op x y (le_decode a) (le_decode b) Hx Hy (le_decode_nonneg a Ha) (le_decode_nonneg b Hb)) as (-> & Hw & _). unfold is_byte, in_u in Hw.
  f_equal; [zdiv|]. rewrite <- IH by (done || (simpl in Hl; lia)). f_equal. zdiv.
Qed.

Lemma nth_store b off bs i : (off + length bs <= length b)%nat -> nth i (store b off bs) 0 = if decide (off <= i < off + length bs)%nat then nth (i - off) bs 0 else nth i b 0.
Proof.
  intros Hl. rewrite !nth_lookup, store_lookup by done. repeat case_decide; try done; lia.
Qed.

Lemma nth_word_assign op res src j i : bytes res -> bytes src -> (j + 8 <= length res)%nat -> (j + 8 <= length src)%nat ->
  nth i (word_assign op res src j) 0 = if decide (j <= i < j + 8)%nat then word_op op (nth i res 0) (nth i src 0) else nth i res 0.
Proof.
  intros Hr Hs Hlr Hls. unfold word_assign. assert (length (load res j 8) = 8%nat /\ length (load src j 8) = 8%nat) as [E1 E2] by (rewrite !length_load; lia).
  pose proof (word_bytes op (load res j 8) (load src j 8) ltac:(by apply bytes_load) ltac:(by apply bytes_load) ltac:(congruence)) as Ew. rewrite E1 in Ew. rewrite Ew.
  assert (length (zip_with (word_op op) (load res j 8) (load src j 8)) = 8%nat) as El by (rewrite length_zip_with; lia).
  rewrite nth_store by lia. rewrite El. case_decide as Hd; [|done]. rewrite !nth_lookup, lookup_zip_with, !load_lookup. rewrite !decide_True by lia.
  replace (j + (i - j))%nat with i by lia. destruct (lookup_lt_is_Some_2 res i ltac:(lia)) as [x ->]. by destruct (lookup_lt_is_Some_2 src i ltac:(lia)) as [y ->].
Qed.

Lemma word_assign_keeps op res src j : bytes res -> bytes src -> (j + 8 <= length res)%nat -> (j + 8 <= length src)%nat ->
  bytes (word_assign op res src j) /\ length (word_assign op res src j) = length res.
Proof.
  intros Hr Hs Hl Hls. unfold word_assign. split; [apply bytes_store; [done|apply bytes_le_encode]|]. apply length_store. rewrite length_le_encode. lia.
Qed.

(** The other sources of a block are combined one after the other. *)
Definition quad_assign (op : bitop) (res src : list Z) (j : nat) : list Z :=
  word_assign op (word_assign op (word_assign op (word_assign op res src j) src (j + 8)) src (j + 16)) src (j + 24).

Lemma quad_assign_spec op res src j : bytes res -> bytes src -> (j + 32 <= length res)%nat -> (j + 32 <= length src)%nat ->
  bytes (quad_assign op res src j) /\ length (quad_assign op res src j) = length res /\
  forall i, nth i (quad_assign op res src j) 0 = if decide (j <= i < j + 32)%nat then word_op op (nth i res 0) (nth i src 0) else nth i res 0.
Proof.
  intros Hr Hs Hl Hls. unfold quad_assign.
  destruct (word_assign_keeps op res src j Hr Hs ltac:(lia) ltac:(lia)) as [B1 L1]. set (r1 := word_assign op res src j) in *.
  destruct (word_assign_keeps op r1 src (j + 8) B1 Hs ltac:(lia) ltac:(lia)) as [B2 L2]. set (r2 := word_assign op r1 src (j + 8)) in *.
  destruct (word_assign_keeps op r2 src (j + 16) B2 Hs ltac:(lia) ltac:(lia)) as [B3 L3]. set (r3 := word_assign op r2 src (j + 16)) in *.
  destruct (word_assign_keeps op r3 src (j + 24) B3 Hs ltac:(lia) ltac:(lia)) as [B4 L4]. split; [done|]. split; [lia|]. intros i.
  rewrite nth_word_assign by (done || lia). unfold r3. rewrite nth_word_assign by (done || lia). unfold r2. rewrite nth_word_assign by (done || lia).
  unfold r1. rewrite nth_word_assign by (done || lia). repeat case_decide; (done || lia).
Qed.

Definition rest_op (op : bitop) (srcs : list (list Z)) (i : nat) (v : Z) : Z := fold_left (fun v src => word_op op v (nth i src 0)) srcs v.

Lemma fold_quads op srcs res j : bytes res -> (j + 32 <= length res)%nat -> Forall (fun s => bytes s /\ (j + 32 <= length s)%nat) srcs ->
  let r := fold_left (fun res src => quad_assign op res src j) srcs res in
  bytes r /\ length r = length res /\ forall i, nth i r 0 = if decide (j <= i < j + 32)%nat then rest_op op srcs i (nth i res 0) else nth i res 0.
Proof.
  intros Hr Hl Hs. revert res Hr Hl. induction Hs as [|s srcs [Hb Hsl] _ IH]; intros res Hr Hl; cbn [fold_left].
  { split; [done|]. split; [done|]. intros i. by case_decide. }
  destruct (quad_assign_spec op res s j Hr Hb Hl Hsl) as (B & L & N). destruct (IH _ B ltac:(lia)) as (B' & L' & N'). split; [done|]. split; [lia|].
  intros i. rewrite N', !N. unfold rest_op. cbn [fold_left]. by case_decide.
Qed.

(** The value of byte [i], zero beyond the end of a source. *)
Definition op_byte (op : bitop) (srcs : list (list Z)) (i : nat) : Z :=
  let v := nth i (hd [] srcs) 0 in
  match op with BITOP_NOT => Z.lxor v 255 | _ => rest_op op (drop 1 srcs) i v end.

Lemma word_not_assign res j : word_not res j = word_assign BITOP_XOR res (replicate (j + 8) 255) j.
Proof.
  unfold word_not, word_assign, word_op, not64. do 3 f_equal. unfold load. rewrite drop_replicate. replace (j + 8 - j)%nat with 8%nat by lia. by vm_compute.
Qed.

Lemma block_spec op srcs res j : srcs <> [] -> (op = BITOP_NOT -> length srcs = 1%nat) -> bytes res -> (j + 32 <= length res)%nat -> Forall (fun s => bytes s /\ (j + 32 <= length s)%nat) srcs ->
  bytes (bitop_block op srcs res j) /\ length (bitop_block op srcs res j) = length res /\
  forall i, nth i (bitop_block op srcs res j) 0 =
    if decide (j <= i < j + 32)%nat then match op with BITOP_NOT => Z.lxor (nth i res 0) 255 | _ => rest_op op (drop 1 srcs) i (nth i res 0) end else nth i res 0.
Proof.
  intros Hne Hnot Hr Hl Hs. assert (Forall (fun s => bytes s /\ (j + 32 <= length s)%nat) (drop 1 srcs)) as Hd by (by apply Forall_drop).
  destruct op; try (apply (fold_quads _ (drop 1 srcs) res j Hr Hl Hd)).
  cbn [bitop_block]. set (ff := replicate (j + 32) 255).
  assert (forall res k, (k + 8 <= j + 32)%nat -> word_not res k = word_assign BITOP_XOR res ff k) as E.
  { intros r k Hk. rewrite word_not_assign. unfold word_assign. do 4 f_equal. unfold load, ff. rewrite !drop_replicate, !take_replicate. f_equal. lia. }
  rewrite !E by lia. destruct (quad_assign_spec BITOP_XOR res ff j Hr) as (B & L & N); [unfold ff; by apply Forall_replicate|done|unfold ff; rewrite length_replicate; lia|].
  split; [done|]. split; [done|]. intros i. rewrite (N i : nth i (word_assign _ _ _ _) 0 = _). case_decide; [|done]. cbn [word_op]. f_equal.
  unfold ff. rewrite nth_lookup, lookup_replicate_2 by lia. done.
Qed.

Lemma fast_spec fuel op srcs res j minlen : srcs <> [] -> (op = BITOP_NOT -> length srcs = 1%nat) -> (minlen <= fuel)%nat ->
  bytes res -> (j + minlen <= length res)%nat -> Forall (fun s => bytes s /\ (j + minlen <= length s)%nat) srcs ->
  (forall i, (i < j)%nat -> nth i res 0 = op_byte op srcs i) -> (forall i, (j <= i < j + minlen)%nat -> nth i res 0 = nth i (hd [] srcs) 0) ->
  exists r J, bitop_fast fuel op srcs res j minlen = Ret (r, J) /\ bytes r /\ length r = length res /\ (J <= j + minlen)%nat /\ forall i, (i < J)%nat -> nth i r 0 = op_byte op srcs i.
Proof.
  intros Hne Hnot. revert res j minlen. induction fuel as [|fuel IH]; intros res j minlen Hf Hr Hl Hs Hdone Htodo; cbn [bitop_fast].
  { rewrite (proj2 (Nat.leb_gt 32 minlen)) by lia. exists res, j. split; [done|]. split; [done|]. split; [done|]. split; [lia|done]. }
  destruct (Nat.leb_spec 32 minlen) as [H32|H32].
  2: { exists res, j. split; [done|]. split; [done|]. split; [done|]. split; [lia|done]. }
  destruct (block_spec op srcs res j Hne Hnot Hr ltac:(lia)) as (B & L & N). { eapply Forall_impl; [exact Hs|]. intros s [? ?]. split; [done|lia]. }
  destruct (IH (bitop_block op srcs res j) (j + 32)%nat (minlen - 32)%nat) as (r & J & E & Hrest); [lia|done|lia| | | |].
  - eapply Forall_impl; [exact Hs|]. intros s [? ?]. split; [done|lia].
  - intros i Hi. rewrite N. case_decide as Hd; [|apply Hdone; lia]. unfold op_byte. rewrite Htodo by lia. by destruct op.
  - intros i Hi. rewrite N. rewrite decide_False by lia. apply Htodo. lia.
  - exists r, J. split; [done|]. rewrite L in Hrest. replace (j + 32 + (minlen - 32))%nat with (j + minlen)%nat in Hrest by lia. exact Hrest.
Qed.

Lemma byte_or_255 v x : is_byte v -> is_byte x -> v = 255 -> Z.lor v x = 255.
Proof.
  intros _ Hx ->. apply Z.eqb_eq. revert x Hx. apply (range_check (fun x => Z.lor 255 x =? 255) 256). vm_compute. reflexivity.
Qed.

Lemma nth_byte s i : bytes s -> is_byte (nth i s 0).
Proof. intros Hs. rewrite nth_lookup. destruct (s !! i) as [x|] eqn:E; [by apply (byte_of s i)|]. cbn. unfold is_byte, in_u. lia. Qed.

(** Stopping early does not change the result. *)
Lemma bitop_rest_spec op srcs i v : Forall (fun s => bytes s) srcs -> is_byte v -> bitop_rest op srcs i v = rest_op op srcs i v.
Proof.
  intros Hs. revert v. induction Hs as [|s srcs Hb Hs IH]; intros v Hv; [done|]. cbn [bitop_rest]. unfold rest_op. cbn [fold_left]. fold (rest_op op srcs i (word_op op v (nth i s 0))).
  pose proof (nth_byte s i Hb) as Hx. destruct (word_op_byte op v (nth i s 0) 0 0 Hv Hx ltac:(lia) ltac:(lia)) as (_ & Hw & _).
  destruct op; cbn [word_op] in *; try (by apply IH).
  - destruct (Z.eqb_spec (Z.land v (nth i s 0)) 0) as [E|_]; [|by apply IH]. rewrite E. clear. induction srcs as [|s srcs IH]; [done|]. unfold rest_op in *. cbn [fold_left word_op]. by rewrite Z.land_0_l.
  - destruct (Z.eqb_spec (Z.lor v (nth i s 0)) 255) as [E|_]; [|by apply IH]. rewrite E. clear -Hs. induction Hs as [|s srcs Hb _ IH]; [done|]. unfold rest_op in *. cbn [fold_left word_op].
    rewrite byte_or_255; [done|done|by apply nth_byte|done].
Qed.

Lemma bitop_byte_spec op srcs i : (op = BITOP_NOT -> length srcs = 1%nat) -> Forall (fun s => bytes s) srcs -> bitop_byte op srcs i = op_byte op srcs i.
Proof.
  intros Hnot Hs. unfold bitop_byte, op_byte. assert (is_byte (nth i (hd [] srcs) 0)) as Hv by (apply nth_byte; destruct Hs; [constructor|done]).
  destruct op; try (apply bitop_rest_spec; [by apply Forall_drop|done]). specialize (Hnot eq_refl). by destruct srcs as [|? [|]].
Qed.

Lemma slow_spec op srcs res j maxlen : (op = BITOP_NOT -> length srcs = 1%nat) -> Forall (fun s => bytes s) srcs -> length res = maxlen -> (j <= maxlen)%nat ->
  (forall i, (i < j)%nat -> nth i res 0 = op_byte op srcs i) -> bitop_slow op srcs res j maxlen = map (op_byte op srcs) (seq 0 maxlen).
Proof.
  intros Hnot Hs Hl Hj Hdone. unfold bitop_slow.
  assert (forall k j res, length res = maxlen -> (j + k = maxlen)%nat -> (forall i, (i < j)%nat -> nth i res 0 = op_byte op srcs i) ->
    fold_left (fun res j => <[j := bitop_byte op srcs j]> res) (seq j k) res = map (op_byte op srcs) (seq 0 maxlen)) as H; [|apply H; (done || lia)].
  clear j res Hl Hj Hdone. induction k as [|k IH]; intros j res Hl Hj Hdone; cbn [seq fold_left].
  - apply list_eq. intros i. destruct (decide (i < maxlen)%nat) as [Hi|Hi].
    + specialize (Hdone i ltac:(lia)). rewrite nth_lookup in Hdone. destruct (lookup_lt_is_Some_2 res i ltac:(lia)) as [x Hx]. rewrite Hx in *. cbn in Hdone. subst x.
      rewrite list_lookup_fmap, lookup_seq_lt by done. done.
    + rewrite !lookup_ge_None_2; [done| |lia]. rewrite length_map, length_seq. lia.
  - rewrite IH; [done|by rewrite length_insert|lia|]. intros i Hi. rewrite nth_lookup. destruct (decide (i = j)) as [->|Hne].
    + rewrite list_lookup_insert_eq by lia. cbn. by apply bitop_byte_spec.
    + rewrite list_lookup_insert_ne, <- nth_lookup by done. apply Hdone. lia.
Qed.

Lemma compute_spec op srcs maxlen minlen : srcs <> [] -> (op = BITOP_NOT -> length srcs = 1%nat) -> Forall (fun s => bytes s /\ (minlen <= length s)%nat) srcs -> (minlen <= maxlen)%nat ->
  bitop_compute op srcs maxlen minlen = Ret (map (op_byte op srcs) (seq 0 maxlen)).
Proof.
  intros Hne Hnot Hs Hm. assert (Forall (fun s => bytes s) srcs) as Hb by (eapply Forall_impl; [exact Hs|]; by intros s []). unfold bitop_compute.
  destruct (_ && _); cbn [obind]; [|f_equal; apply slow_spec; (done || rewrite ?length_replicate; lia || lia)].
  assert (bytes (hd [] srcs) /\ (minlen <= length (hd [] srcs))%nat) as [Hh Hhl] by (by destruct Hs).
  assert (length (store (replicate maxlen 0) 0 (take minlen (hd [] srcs))) = maxlen) as Hl by (rewrite length_store; rewrite ?length_take, length_replicate; lia).
  destruct (fast_spec minlen op srcs (store (replicate maxlen 0) 0 (take minlen (hd [] srcs))) 0 minlen) as (r & J & -> & B & L & HJ & N); try done.
  - apply bytes_store; [by apply Forall_replicate|by apply Forall_take].
  - lia.
  - lia.
  - intros i Hi. rewrite nth_store by (rewrite length_take, length_replicate; lia). rewrite length_take, Nat.min_l, decide_True by lia.
    rewrite !nth_lookup, lookup_take_lt by lia. by rewrite Nat.sub_0_r.
  - cbn [obind]. f_equal. apply slow_spec; (done || lia).
Qed.

(** The value of a key as BITOP reads it. *)
Definition source (d : database) (k : list Z) : list Z := match d !! k with Some (VString b) => text b | _ => [] end.

Lemma sources_spec d keys fst_ mx mn : Forall (fun k => d !! k <> Some VOther) keys -> exists mn',
  bitop_sources d keys fst_ mx mn = Some (map (source d) keys, fold_left (fun m k => Nat.max m (length (source d k))) keys mx, mn') /\
  Forall (fun k => (mn' <= length (source d k))%nat) keys /\ (fst_ = false \/ keys = [] -> (mn' <= mn)%nat).
Proof.
  intros H. revert fst_ mx mn. induction H as [|k keys Hk _ IH]; intros fst_ mx mn; cbn [bitop_sources]; [by exists mn|]. cbn [map fold_left].
  destruct (d !! k) as [[b|]|] eqn:Ek; [|done|].
  - assert (source d k = text b) as Es by (unfold source; by rewrite Ek). rewrite Es.
    destruct (IH false (Nat.max mx (length (text b))) (if fst_ || (length (text b) <? mn)%nat then length (text b) else mn)) as (mn' & -> & H1 & H2).
    specialize (H2 ltac:(by left)). exists mn'. cbn [mbind option_bind]. split; [done|].
    assert (mn' <= length (text b) /\ (fst_ = false -> mn' <= mn))%nat as [H3 H4].
    { destruct fst_; cbn [orb] in H2; [by split|]. destruct (Nat.ltb_spec (length (text b)) mn); lia. }
    split; [constructor; [by rewrite Es|done]|]. intros [->|]; [by apply H4|done].
  - assert (source d k = []) as Es by (unfold source; by rewrite Ek). rewrite Es.
    destruct (IH false mx 0%nat) as (mn' & -> & H1 & H2). specialize (H2 ltac:(by left)). exists mn'. cbn [mbind option_bind]. split; [|split; [|lia]].
    + rewrite Nat.max_0_r. done.
    + constructor; [rewrite Es; simpl; lia|done].
Qed.

Lemma sources_wrong d keys fst_ mx mn : Exists (fun k => d !! k = Some VOther) keys -> bitop_sources d keys fst_ mx mn = None.
Proof.
  intros H. revert fst_ mx mn. induction H as [k keys Hk|k keys _ IH]; intros; cbn [bitop_sources]; [by rewrite Hk|]. destruct (d !! k) as [[b|]|]; [|done|]; by rewrite IH.
Qed.

Definition combine (op : bitop) (bs : list bool) : bool :=
  match op with
  | BITOP_AND => forallb id bs
  | BITOP_OR => existsb id bs
  | BITOP_XOR => fold_right xorb false bs
  | BITOP_NOT => negb (hd false bs)
  end.

Lemma nth_bits s j k : (k < 8)%nat -> nth (8 * j + k) (bits s) false = Z.testbit (nth j s 0) (7 - Z.of_nat k).
Proof.
  intros Hk. revert j. induction s as [|b s IH]; intros j.
  { change (bits []) with (@nil bool). rewrite (nth_overflow (@nil bool)), (nth_overflow (@nil Z)) by (simpl; lia). by rewrite Z.bits_0. }
  rewrite bits_cons. destruct j as [|j].
  - rewrite app_nth1 by (simpl; lia). do 8 (destruct k as [|k]; [done|]). lia.
  - rewrite app_nth2 by (simpl; lia). cbn [nth]. rewrite <- IH. f_equal. simpl. lia.
Qed.

Lemma combine_fold op n (vs : list Z) v : 0 <= n < 8 ->
  Z.testbit (match op with BITOP_NOT => Z.lxor v 255 | _ => fold_left (word_op op) vs v end) n = combine op (Z.testbit v n :: map (fun x => Z.testbit x n) vs).
Proof.
  intros Hn. assert (forall (f : Z -> Z -> Z) (g : bool -> bool -> bool) vs v, (forall a b, Z.testbit (f a b) n = g (Z.testbit a n) (Z.testbit b n)) ->
    Z.testbit (fold_left f vs v) n = fold_left g (map (fun x => Z.testbit x n) vs) (Z.testbit v n)) as H.
  { intros f g l. induction l as [|x l IH]; intros w Hfg; [done|]. cbn [fold_left map]. rewrite IH by done. by rewrite Hfg. }
  destruct op; cbn [combine word_op].
  - rewrite (H _ andb) by (intros; apply Z.land_spec). generalize (Z.testbit v n). clear. induction vs as [|x vs IH]; intros b; [destruct b; done|]. cbn [map fold_left]. rewrite IH. cbn. by rewrite andb_assoc.
  - rewrite (H _ orb) by (intros; apply Z.lor_spec). generalize (Z.testbit v n). clear. induction vs as [|x vs IH]; intros b; [destruct b; done|]. cbn [map fold_left]. rewrite IH. cbn. by rewrite orb_assoc.
  - rewrite (H _ xorb) by (intros; apply Z.lxor_spec). generalize (Z.testbit v n). clear. induction vs as [|x vs IH]; intros b; [by destruct b|]. cbn [map fold_left]. rewrite IH. cbn. by rewrite xorb_assoc.
  - cbn [hd]. rewrite Z.lxor_spec. change 255 with (Z.ones 8). rewrite Z.ones_spec_low by lia. apply xorb_true_r.
Qed.

Lemma op_byte_bits op srcs j k : srcs <> [] -> (k < 8)%nat -> Z.testbit (op_byte op srcs j) (7 - Z.of_nat k) = combine op (map (fun s => nth (8 * j + k) (bits s) false) srcs).
Proof.
  intros Hne Hk. destruct srcs as [|s srcs]; [done|]. unfold op_byte. cbn [hd drop]. rewrite drop_0.
  assert (forall v, fold_left (word_op op) (map (fun s => nth j s 0) srcs) v = rest_op op srcs j v) as E.
  { unfold rest_op. clear. induction srcs as [|t srcs IH]; intros v; [done|]. cbn [map fold_left]. apply IH. }
  pose proof (combine_fold op (7 - Z.of_nat k) (map (fun s => nth j s 0) srcs) (nth j s 0) ltac:(lia)) as H.
  rewrite E in H. rewrite map_map in H. cbn [map]. rewrite nth_bits by done. erewrite (map_ext (fun s => nth (8 * j + k) (bits s) false)) by (intros t; by apply nth_bits). exact H.
Qed.

(** ** The commands *)

(** C25: BITCOUNT replies the number of ones in the bits it is given, all of them or a
    range in bytes or bits with positions from either end, and BITPOS the position of
    the first bit of the value asked for in its range, or -1, or the bit after the
    string when a clear bit is asked for and no end is given: the routines that work on
    words of 28, 8 and 4 bytes, at any alignment, and mask the ends of a range, are
    equivalent to a scan of the bits. *)
Theorem bitcount_bitpos_correct addr aux_addr d key b : d !! key = Some (VString b) -> bytes (text b) -> Z.of_nat (length (text b)) < 2 ^ 60 ->
  (forall name r, (match r with Whole => True | Range s e _ => in_range s /\ in_range e end) ->
     bitcountCommand addr aux_addr (name :: key :: count_args r) d = Ret (RInt (bitcount_of (text b) r))) /\
  (forall name bit r, (match r with None => True | Some (s, e, isbit) => in_range s /\ in_range (default 0 e) /\ (e = None -> isbit = false) end) ->
     bitposCommand addr aux_addr (name :: key :: repr (b2z bit) :: pos_args r) d = Ret (RInt (bitpos_of (text b) bit r))).
Proof.
  intros Hd Hb Hl. assert (Z.of_nat (length (text b)) <= Z.shiftr LLONG_MAX 3) as Hl' by (change (Z.shiftr LLONG_MAX 3) with (2 ^ 60 - 1); lia). split.
  - intros name r Hr. pose proof (bitcount_string_spec addr aux_addr b Hb Hl' r) as H. rewrite <- Hd in H. rewrite <- H. destruct r as [|s e isbit]; [done|].
    destruct Hr as [H1 H2]. unfold bitcountCommand. cbn [count_args length arg lookup list_lookup obind]. rewrite !string2ll_repr by done. cbn [Nat.eqb]. by rewrite unit_argument_name.
  - intros name bit r Hr. pose proof (bitpos_string_spec addr aux_addr b Hb Hl' bit r) as H. rewrite <- Hd in H. rewrite <- H. unfold bitposCommand. cbn [arg lookup list_lookup obind].
    rewrite string2ll_repr by (destruct bit; done). assert (negb (b2z bit =? 0) && negb (b2z bit =? 1) = false) as -> by (by destruct bit).
    assert ((b2z bit =? 1) = bit) as -> by (by destruct bit). destruct r as [[[s e] isbit]|]; [|done]. destruct Hr as (H1 & H2 & H3).
    destruct e as [e|]; cbn [pos_args length arg lookup list_lookup obind Nat.eqb Nat.leb]; rewrite !string2ll_repr by done.
    + by rewrite unit_argument_name.
    + by rewrite H3.
Qed.

Definition sample_db : database := {[ chars "k" := VString (StrObj.BRaw [240; 15; 255; 255; 0; 1]) ]}.

Lemma bitcount_bitpos_correct_witness :
  bitcountCommand 5 3 [chars "BITCOUNT"; chars "k"; repr (-44); repr 20; chars "BIT"] sample_db = Ret (RInt 9) /\
  bitposCommand 5 3 [chars "BITPOS"; chars "k"; repr 0; repr 14; repr 40; chars "BIT"] sample_db = Ret (RInt 32).
Proof.
  destruct (bitcount_bitpos_correct 5 3 sample_db (chars "k") (StrObj.BRaw [240; 15; 255; 255; 0; 1]) eq_refl) as [H1 H2]; [by repeat (constructor; [done|])|simpl; lia|].
  split.
  - exact (H1 (chars "BITCOUNT") (Range (-44) 20 true) ltac:(vm_compute; repeat split; congruence)).
  - exact (H2 (chars "BITPOS") false (Some (14, Some 40, true)) ltac:(vm_compute; repeat split; congruence)).
Defined.

(** C26: BITOP stores at the target the strings combined bit by bit, the shorter ones
    and missing keys padded with zeroes, of the length of the longest, which it replies;
    the target is deleted when that is zero, and nothing changes when a key has another
    type.  The fast path over four words at a time and the early exits of the byte loop
    do not show. *)
Theorem bitop_correct d cmd opname op target keys : bitop_name opname = Some op -> keys <> [] -> (op = BITOP_NOT -> length keys = 1%nat) -> Forall (fun k => bytes (source d k)) keys ->
  let n := fold_left (fun m k => Nat.max m (length (source d k))) keys 0%nat in
  (Exists (fun k => d !! k = Some VOther) keys -> bitopCommand (cmd :: opname :: target :: keys) d = Ret (d, RError ErrWrongType, 0)) /\
  (Forall (fun k => d !! k <> Some VOther) keys -> n = 0%nat -> exists dirty, bitopCommand (cmd :: opname :: target :: keys) d = Ret (delete target d, RInt 0, dirty)) /\
  (Forall (fun k => d !! k <> Some VOther) keys -> n <> 0%nat -> exists res,
     bitopCommand (cmd :: opname :: target :: keys) d = Ret (<[target := VString (StrObj.BRaw res)]> d, RInt (Z.of_nat n), 1) /\ length res = n /\
     forall i, (i < 8 * n)%nat -> nth i (bits res) false = combine op (map (fun k => nth i (bits (source d k)) false) keys)).
Proof.
  intros Hop Hne Hnot Hb n. unfold bitopCommand. cbn [arg lookup list_lookup obind]. rewrite Hop. cbn [length drop]. rewrite drop_0.
  replace (match op with BITOP_NOT => _ | _ => false end) with false by (destruct op; try done; by rewrite Hnot). split; [|split].
  - intros Hex. by rewrite sources_wrong.
  - intros Hok Hn. destruct (sources_spec d keys true 0 0 Hok) as (mn & -> & _ & _). fold n. rewrite Hn. cbn. destruct (d !! target) eqn:Et; [by eexists|].
    rewrite delete_id by done. by eexists.
  - intros Hok Hn. destruct (sources_spec d keys true 0 0 Hok) as (mn & -> & Hmn & _). fold n. rewrite (proj2 (Nat.eqb_neq n 0) Hn).
    assert (forall l m, (m <= fold_left (fun m k => Nat.max m (length (source d k))) l m)%nat) as Hmono by (induction l as [|k l IH]; intros m; cbn [fold_left]; [done|]; specialize (IH (Nat.max m (length (source d k)))); lia).
    rewrite compute_spec.
    + cbn [obind]. eexists. split; [done|]. split; [by rewrite length_map, length_seq|]. intros i Hi.
      rewrite (Nat.div_mod i 8) by lia. pose proof (Nat.mod_upper_bound i 8 ltac:(lia)) as Hm. assert (i / 8 < n)%nat as Hq by (apply Nat.Div0.div_lt_upper_bound; lia).
      rewrite nth_bits by done. rewrite nth_lookup, list_lookup_fmap, lookup_seq_lt by done. cbn [fmap option_fmap option_map default Nat.add id].
      rewrite op_byte_bits by (done || by destruct keys). by rewrite map_map.
    + by destruct keys.
    + intros E. rewrite length_map. by apply Hnot.
    + apply Forall_map. rewrite Forall_forall in *. intros k Hk. split; [by apply Hb|by apply Hmn].
    + destruct keys as [|k keys]; [done|]. apply Forall_cons_1 in Hmn as [Hmn _]. unfold n. cbn [fold_left]. specialize (Hmono keys (Nat.max 0 (length (source d k)))). lia.
Qed.

Lemma bitop_correct_witness : exists res,
  bitopCommand [chars "BITOP"; chars "xor"; chars "t"; chars "k"; chars "none"] sample_db = Ret (<[chars "t" := VString (StrObj.BRaw res)]> sample_db, RInt 6, 1) /\
  length res = 6%nat /\ forall i, (i < 48)%nat -> nth i (bits res) false = combine BITOP_XOR (map (fun k => nth i (bits (source sample_db k)) false) [chars "k"; chars "none"]).
Proof.
  apply (bitop_correct sample_db (chars "BITOP") (chars "xor") BITOP_XOR (chars "t") [chars "k"; chars "none"]); [done|done|done| | |done].
  - constructor; [by repeat (constructor; [done|])|]. by repeat constructor.
  - constructor; [by vm_compute|]. by constructor; [vm_compute|].
Defined.

End BitopsSpec.
