(* ===== verification/BitfieldSpec.v ===== *)
(** * BitfieldSpec: integers of any width in a bit array

    SETBIT, GETBIT and BITFIELD read and write fields of a list of bits; the values are
    integers, and what happens when one does not fit its field is decided by comparing
    integers, however the code avoids overflows. *)
From stdpp Require Import gmap.
From S2P Require Import Prelude NumStr SdsArgs StrObj Bitops BitopsSpec.
Import NumStr Bitops BitopsSpec.

Module BitfieldSpec.

(** [n] bits from [off] on, zeroes beyond the end. *)
Definition field (l : list bool) (off n : nat) : list bool := map (fun i => nth i l false) (seq off n).
Definition splice (l : list bool) (off : nat) (bs : list bool) : list bool := take off l ++ bs ++ drop (off + length bs) l.

(** ** Reading *)

Lemma offset_split off : 0 <= off -> Z.shiftr off 3 = off / 8 /\ 7 - Z.land off 7 = 7 - off mod 8 /\ Z.to_nat off = (8 * Z.to_nat (off / 8) + Z.to_nat (off mod 8))%nat.
Proof.
  intros H. rewrite Z.shiftr_div_pow2 by lia. change (2 ^ 3) with 8. split; [done|]. split; [f_equal; apply (land_mask off 3); lia|]. zdiv.
Qed.

Lemma bit_at p off : 0 <= off < 8 * Z.of_nat (length p) -> exists x, get8 p (Z.shiftr off 3) = Ret x /\ p !! Z.to_nat (off / 8) = Some x /\
  Z.testbit x (7 - Z.land off 7) = nth (Z.to_nat off) (bits p) false.
Proof.
  intros Ho. destruct (offset_split off ltac:(lia)) as (-> & -> & E). destruct (get8_ok p (off / 8) ltac:(zdiv)) as (x & E1 & E2). exists x. split; [done|]. split; [done|].
  rewrite E, nth_bits by zdiv. rewrite nth_lookup, E2. cbn. f_equal. zdiv.
Qed.

Lemma land_1_testbit x b : 0 <= b -> Z.land (Z.shiftr x b) 1 = b2z (Z.testbit x b).
Proof.
  intros Hb. rewrite (land_mask _ 1) by lia. change (2 ^ 1) with 2. rewrite Z.shiftr_div_pow2 by lia. rewrite <- Z.testbit_spec' by lia. by destruct (Z.testbit x b).
Qed.

Lemma field_cons l off n : field l off (S n) = nth off l false :: field l (S off) n.
Proof. done. Qed.

Lemma length_field l off n : length (field l off n) = n.
Proof. unfold field. by rewrite length_map, length_seq. Qed.

Lemma get_loop j p off v : 0 <= off -> off + Z.of_nat j <= 8 * Z.of_nat (length p) -> 0 <= v -> (v + 1) * 2 ^ Z.of_nat j <= 2 ^ 64 ->
  getUnsigned_loop j p off v = Ret (v * 2 ^ Z.of_nat j + be_value (field (bits p) (Z.to_nat off) j)).
Proof.
  revert off v. induction j as [|j IH]; intros off v Ho Hl Hv Hlt; [cbn; f_equal; lia|]. cbn [getUnsigned_loop].
  destruct (bit_at p off ltac:(lia)) as (x & -> & _ & Ex). cbn [obind]. rewrite Nat2Z.inj_succ, Z.pow_succ_r in Hlt |- * by lia.
  assert (0 < 2 ^ Z.of_nat j) by (apply pow2_pos; lia). destruct (offset_split off Ho) as (_ & E2 & _).
  rewrite land_1_testbit by (rewrite E2; zdiv). rewrite Ex. set (b := nth (Z.to_nat off) (bits p) false).
  assert (Z.lor (wrap 64 (Z.shiftl v 1)) (b2z b) = 2 * v + b2z b) as ->.
  { rewrite wrap_small by (unfold in_u; rewrite Z.shiftl_mul_pow2 by lia; change (2 ^ 1) with 2; nia). rewrite Z.lor_comm, lor_shiftl by (destruct b; simpl; lia). lia. }
  rewrite IH by (destruct b; simpl b2z; nia || lia). replace (Z.to_nat (off + 1)) with (S (Z.to_nat off)) by lia. rewrite field_cons, be_value_cons, length_field.
  fold b. f_equal. lia.
Qed.

Lemma get_unsigned p off n : 0 <= off -> off + n <= 8 * Z.of_nat (length p) -> 0 <= n <= 64 ->
  getUnsignedBitfield p off n = Ret (be_value (field (bits p) (Z.to_nat off) (Z.to_nat n))).
Proof.
  intros Ho Hl Hn. unfold getUnsignedBitfield. rewrite get_loop; [f_equal; lia|lia|lia|lia|]. rewrite Z2Nat.id, Z.mul_1_l by lia. apply Z.pow_le_mono_r; lia.
Qed.

Lemma mask_bits n : 0 <= n <= 64 -> wrap 64 (Z.shiftl UINT64_MAX n) = 2 ^ 64 - 2 ^ n.
Proof.
  intros Hn. rewrite Z.shiftl_mul_pow2 by lia. unfold wrap, UINT64_MAX. assert (0 < 2 ^ n <= 2 ^ 64) by (split; [apply pow2_pos; lia|apply Z.pow_le_mono_r; lia]).
  replace ((2 ^ 64 - 1) * 2 ^ n) with (2 ^ 64 - 2 ^ n + (2 ^ n - 1) * 2 ^ 64) by lia. rewrite Z.mod_add by lia. apply Z.mod_small. lia.
Qed.

(** Setting the bits above [n]. *)
Lemma lor_mask u n : 0 <= n <= 64 -> in_u n u -> Z.lor u (2 ^ 64 - 2 ^ n) = u + (2 ^ 64 - 2 ^ n).
Proof.
  intros Hn Hu. replace (2 ^ 64 - 2 ^ n) with (Z.shiftl (2 ^ (64 - n) - 1) n).
  - rewrite lor_shiftl by (done || lia). by rewrite Z.shiftl_mul_pow2 by lia.
  - rewrite Z.shiftl_mul_pow2 by lia. rewrite Z.mul_sub_distr_r, <- Z.pow_add_r by lia. replace (64 - n + n) with 64 by lia. lia.
Qed.

Lemma swrap_shift w z k : 0 < w -> swrap w (z + k * 2 ^ w) = swrap w z.
Proof. intros Hw. unfold swrap. replace (z + k * 2 ^ w + 2 ^ (w - 1)) with (z + 2 ^ (w - 1) + k * 2 ^ w) by lia. by rewrite Z.mod_add by (pose proof (pow2_pos w); lia). Qed.

(** The two halves of the unsigned values. *)
Lemma swrap_halves n u : 0 < n -> in_u n u -> swrap n u = if Z.testbit u (n - 1) then u - 2 ^ n else u.
Proof.
  intros Hn Hu. unfold in_u in Hu. assert (2 ^ n = 2 * 2 ^ (n - 1)) as E by (rewrite <- Z.pow_succ_r by lia; f_equal; lia).
  assert (0 < 2 ^ (n - 1)) by (apply pow2_pos; lia).
  assert (Z.testbit u (n - 1) = (2 ^ (n - 1) <=? u)) as ->.
  { destruct (Z.leb_spec (2 ^ (n - 1)) u) as [H1|H1]; [|apply (testbit_above (n - 1)); [unfold in_u; lia|lia]].
    rewrite Z.testbit_true by lia. replace (u / 2 ^ (n - 1)) with 1; [done|]. apply (Z.div_unique u (2 ^ (n - 1)) 1 (u - 2 ^ (n - 1))); lia. }
  destruct (Z.leb_spec (2 ^ (n - 1)) u) as [H1|H1].
  - rewrite <- (swrap_shift n u (-1)) by done. replace (u + -1 * 2 ^ n) with (u - 2 ^ n) by lia. apply swrap_small; [done|]. unfold in_s. lia.
  - apply swrap_small; [done|]. unfold in_s. lia.
Qed.

Lemma get_signed p off n : 0 <= off -> off + n <= 8 * Z.of_nat (length p) -> 1 <= n <= 64 ->
  getSignedBitfield p off n = Ret (swrap n (be_value (field (bits p) (Z.to_nat off) (Z.to_nat n)))).
Proof.
  intros Ho Hl Hn. unfold getSignedBitfield. rewrite get_unsigned by lia. cbn [obind]. set (u := be_value _).
  assert (in_u n u) as Hu by (pose proof (be_value_range (field (bits p) (Z.to_nat off) (Z.to_nat n))) as H; rewrite length_field, Z2Nat.id in H by lia; exact H).
  f_equal. rewrite (Z.land_comm u), Z.shiftl_1_l, land_pow2 by lia. destruct (Z.ltb_spec n 64) as [H64|H64]; cbn [andb].
  - rewrite (swrap_halves n u) by (done || lia). assert (0 < 2 ^ n /\ 2 * 2 ^ n <= 2 ^ 64) as [? ?].
    { split; [apply pow2_pos; lia|]. rewrite <- Z.pow_succ_r by lia. apply Z.pow_le_mono_r; lia. }
    unfold in_u in Hu. destruct (Z.testbit u (n - 1)); unfold i64.
    + rewrite mask_bits, lor_mask by (unfold in_u; lia). rewrite <- (swrap_shift 64 _ (-1)) by lia.
      replace (u + (2 ^ 64 - 2 ^ n) + -1 * 2 ^ 64) with (u - 2 ^ n) by lia. apply swrap_small; [lia|]. unfold in_s. lia.
    + apply swrap_small; [lia|]. unfold in_s. lia.
  - by replace n with 64 by lia.
Qed.

(** ** Writing *)

Lemma byte_set x k (b : bool) : is_byte x -> 0 <= k < 8 ->
  is_byte (Z.land (Z.lor (Z.land x (Z.lnot (Z.shiftl 1 (7 - k)))) (Z.shiftl (b2z b) (7 - k))) 255) /\
  byte_bits (Z.land (Z.lor (Z.land x (Z.lnot (Z.shiftl 1 (7 - k)))) (Z.shiftl (b2z b) (7 - k))) 255) = <[Z.to_nat k := b]> (byte_bits x).
Proof.
  intros Hx Hk. set (v := fun x k b => Z.land (Z.lor (Z.land x (Z.lnot (Z.shiftl 1 (7 - k)))) (Z.shiftl (b2z b) (7 - k))) 255).
  set (g := fun x k b => (0 <=? v x k b) && (v x k b <? 256) && bool_decide (byte_bits (v x k b) = <[Z.to_nat k := b]> (byte_bits x))).
  assert (g x k b = true) as E.
  { set (h := fun x => forallb (fun k => g x k true && g x k false) (map Z.of_nat (seq 0 8))).
    assert (h x = true) as E by (clear -Hx; revert x Hx; apply (range_check h 256); vm_compute; reflexivity).
    pose proof (range_check _ 8 E k Hk) as Ek. cbn beta in Ek. apply andb_true_iff in Ek as [? ?]. by destruct b. }
  unfold g in E. rewrite !andb_true_iff, bool_decide_eq_true in E. destruct E as [[E1 E2] E3]. split; [unfold is_byte, in_u; fold (v x k b); lia|exact E3].
Qed.

Lemma bits_insert p q x y k (b : bool) : p !! q = Some x -> (k < 8)%nat -> byte_bits y = <[k := b]> (byte_bits x) -> bits (<[q := y]> p) = <[(8 * q + k)%nat := b]> (bits p).
Proof.
  intros Hx Hk Hy. pose proof (lookup_lt_Some _ _ _ Hx) as Hq. rewrite insert_take_drop by done. rewrite bits_app, bits_cons, Hy.
  rewrite <- (take_drop_middle p q x Hx) at 3. rewrite bits_app, bits_cons. rewrite insert_app_r_alt by (rewrite length_bits, length_take; lia).
  rewrite length_bits, length_take, Nat.min_l by lia. replace (8 * q + k - 8 * q)%nat with k by lia. by rewrite insert_app_l by (simpl; lia).
Qed.

Lemma splice_set (l : list bool) off b bs : (off < length l)%nat -> splice (<[off := b]> l) (S off) bs = splice l off (b :: bs).
Proof.
  intros Ho. unfold splice. cbn [length]. rewrite insert_take_drop by done.
  rewrite take_app_ge by (rewrite length_take; lia). rewrite length_take, Nat.min_l by lia. replace (S off - off)%nat with 1%nat by lia. cbn [take]. rewrite take_0, <- app_assoc. cbn [app].
  f_equal. f_equal. f_equal. rewrite drop_app_ge by (rewrite length_take; lia). rewrite length_take, Nat.min_l by lia. replace (S off + length bs - off)%nat with (S (length bs)) by lia.
  cbn [drop]. rewrite drop_drop. f_equal. lia.
Qed.

Lemma set_loop j p off v : bytes p -> 0 <= off -> off + Z.of_nat j <= 8 * Z.of_nat (length p) -> exists p',
  setUnsigned_loop j p off v = Ret p' /\ bytes p' /\ length p' = length p /\ bits p' = splice (bits p) (Z.to_nat off) (to_bits j v).
Proof.
  revert p off. induction j as [|j IH]; intros p off Hp Ho Hl; cbn [setUnsigned_loop to_bits].
  { exists p. split; [done|]. split; [done|]. split; [done|]. unfold splice. cbn. by rewrite Nat.add_0_r, take_drop. }
  destruct (bit_at p off ltac:(lia)) as (x & -> & Hx & _). cbn [obind]. destruct (offset_split off Ho) as (-> & -> & Eo).
  assert ((if Z.land v (Z.shiftl 1 (Z.of_nat j)) =? 0 then 0 else 1) = b2z (Z.testbit v (Z.of_nat j))) as ->.
  { rewrite Z.shiftl_1_l, <- (land_pow2 (Z.of_nat j) v) by lia. rewrite (Z.land_comm v). by destruct (Z.land _ v =? 0). }
  destruct (byte_set x (off mod 8) (Z.testbit v (Z.of_nat j)) (byte_of p _ x Hp Hx) ltac:(zdiv)) as [Hb Ey].
  set (y := Z.land (Z.lor _ _) 255) in *. set (p1 := <[Z.to_nat (off / 8) := y]> p).
  assert (bytes p1) as Hp1 by (by apply Forall_insert). assert (length p1 = length p) as Hl1 by apply length_insert.
  destruct (IH p1 (off + 1) Hp1 ltac:(lia) ltac:(lia)) as (p' & E & H1 & H2 & H3). exists p'. split; [done|]. split; [done|]. split; [lia|].
  rewrite H3. replace (Z.to_nat (off + 1)) with (S (Z.to_nat off)) by lia. unfold p1. rewrite (bits_insert p _ x y (Z.to_nat (off mod 8)) (Z.testbit v (Z.of_nat j))) by (done || zdiv).
  rewrite <- Eo. apply splice_set. rewrite length_bits. lia.
Qed.

Lemma to_bits_mod n v w : (forall i, 0 <= i < Z.of_nat n -> Z.testbit v i = Z.testbit w i) -> to_bits n v = to_bits n w.
Proof. induction n as [|n IH]; intros H; [done|]. cbn [to_bits]. rewrite H by lia. f_equal. apply IH. intros. apply H. lia. Qed.

Lemma set_signed p off n v : bytes p -> 0 <= off -> off + n <= 8 * Z.of_nat (length p) -> 0 <= n <= 64 -> exists p',
  setSignedBitfield p off n v = Ret p' /\ bytes p' /\ length p' = length p /\ bits p' = splice (bits p) (Z.to_nat off) (to_bits (Z.to_nat n) v).
Proof.
  intros Hp Ho Hl Hn. destruct (set_loop (Z.to_nat n) p off (wrap 64 v) Hp Ho ltac:(lia)) as (p' & E & H1 & H2 & H3). exists p'. split; [done|]. split; [done|]. split; [done|].
  rewrite H3. f_equal. apply to_bits_mod. intros i Hi. unfold wrap. apply Z.mod_pow2_bits_low. lia.
Qed.

(** What was written is read back, truncated to its width. *)
Lemma field_splice l off v n : (off + n <= length l)%nat -> be_value (field (splice l off (to_bits n v)) off n) = v mod 2 ^ Z.of_nat n.
Proof.
  intros Hl. assert (field (splice l off (to_bits n v)) off n = to_bits n v) as ->; [|apply be_value_to_bits].
  unfold field, splice. apply list_eq. intros i. rewrite list_lookup_fmap. destruct (decide (i < n)%nat) as [Hi|Hi].
  - rewrite lookup_seq_lt by done. cbn. rewrite nth_lookup, lookup_app_r by (rewrite length_take; lia). rewrite length_take, Nat.min_l by lia. replace (off + i - off)%nat with i by lia.
    rewrite lookup_app_l by (rewrite length_to_bits; lia). destruct (lookup_lt_is_Some_2 (to_bits n v) i ltac:(rewrite length_to_bits; lia)) as [b Hb]. by rewrite Hb.
  - rewrite lookup_seq_ge by lia. cbn. symmetry. apply lookup_ge_None_2. rewrite length_to_bits. lia.
Qed.

(** ** Values that do not fit *)

(** The range of a field, what is stored for [t] under a policy, [None] for a refusal. *)
Definition lowest (sign : bool) (n : Z) : Z := if sign then - 2 ^ (n - 1) else 0.
Definition highest_of (sign : bool) (n : Z) : Z := if sign then 2 ^ (n - 1) - 1 else 2 ^ n - 1.
Definition fits (sign : bool) (n t : Z) : bool := (lowest sign n <=? t) && (t <=? highest_of sign n).
Definition limit (sign : bool) (n : Z) (ow : owtype) (t : Z) : option Z :=
  match ow with
  | BFOVERFLOW_WRAP => Some (if sign then swrap n t else wrap n t)
  | BFOVERFLOW_SAT => Some (if t <? lowest sign n then lowest sign n else highest_of sign n)
  | BFOVERFLOW_FAIL => None
  end.

Lemma not64_sub z : in_u 64 z -> not64 z = 2 ^ 64 - 1 - z.
Proof.
  intros Hz. unfold not64, UINT64_MAX. change (2 ^ 64 - 1) with (Z.ones 64). set (w := Z.lxor z (Z.ones 64)).
  assert (Z.land z w = 0) as H0.
  { apply Z.bits_inj'. intros i Hi. unfold w. rewrite Z.land_spec, Z.lxor_spec, Z.bits_0. destruct (Z.lt_ge_cases i 64).
    - rewrite Z.ones_spec_low by lia. by destruct (Z.testbit z i).
    - by rewrite (testbit_above 64 z) by done. }
  assert (z + w = Z.lxor z w) as E by (by apply Z.add_nocarry_lxor). unfold w in E at 2. rewrite <- Z.lxor_assoc, Z.lxor_nilpotent, Z.lxor_0_l in E. lia.
Qed.

Lemma pow_bounds n : 1 <= n <= 64 -> 0 < 2 ^ (n - 1) /\ 2 ^ n = 2 * 2 ^ (n - 1) /\ 2 ^ n <= 2 ^ 64 /\ (n < 64 -> 2 * 2 ^ n <= 2 ^ 64).
Proof.
  intros Hn. split; [apply pow2_pos; lia|]. split; [rewrite <- Z.pow_succ_r by lia; f_equal; lia|]. split; [apply Z.pow_le_mono_r; lia|].
  intros H. rewrite <- Z.pow_succ_r by lia. apply Z.pow_le_mono_r; lia.
Qed.

Lemma land_not_mask c n : 0 <= n <= 64 -> Z.land c (not64 (2 ^ 64 - 2 ^ n)) = c mod 2 ^ n.
Proof.
  intros Hn. assert (0 < 2 ^ n <= 2 ^ 64) by (split; [apply pow2_pos; lia|apply Z.pow_le_mono_r; lia]). rewrite not64_sub by (unfold in_u; lia).
  replace (2 ^ 64 - 1 - (2 ^ 64 - 2 ^ n)) with (2 ^ n - 1) by lia. apply land_mask. lia.
Qed.

Lemma wrap_mod n z : 0 <= n <= 64 -> wrap 64 z mod 2 ^ n = z mod 2 ^ n.
Proof.
  intros Hn. unfold wrap. replace (2 ^ 64) with (2 ^ n * 2 ^ (64 - n)) by (rewrite <- Z.pow_add_r by lia; f_equal; lia).
  assert (0 < 2 ^ n /\ 0 < 2 ^ (64 - n)) as [? ?] by (split; apply pow2_pos; lia). rewrite Z.rem_mul_r, Z.mul_comm, Z.mod_add, Z.mod_mod by lia. done.
Qed.

Lemma lor_mask_high c n : 0 <= n <= 64 -> in_u 64 c -> Z.lor c (2 ^ 64 - 2 ^ n) = c mod 2 ^ n + (2 ^ 64 - 2 ^ n).
Proof.
  intros Hn Hc. assert (0 < 2 ^ n <= 2 ^ 64) by (split; [apply pow2_pos; lia|apply Z.pow_le_mono_r; lia]). rewrite <- lor_mask by (lia || by apply wrap_range; lia).
  assert (in_u 64 (2 ^ 64 - 2 ^ n)) as Hm by (unfold in_u; lia).
  apply Z.bits_inj'. intros i Hi. rewrite !Z.lor_spec. destruct (Z.lt_ge_cases i n) as [Hin|Hin]; [by rewrite Z.mod_pow2_bits_low by lia|].
  rewrite Z.mod_pow2_bits_high by lia. destruct (Z.lt_ge_cases i 64) as [H64|H64]; [|by rewrite (testbit_above 64 c) by done].
  assert (Z.testbit (2 ^ 64 - 2 ^ n) i = true) as ->; [|by rewrite orb_true_r].
  replace (2 ^ 64 - 2 ^ n) with (Z.shiftl (Z.ones (64 - n)) n).
  - rewrite Z.shiftl_spec by lia. apply Z.ones_spec_low. lia.
  - rewrite Z.shiftl_mul_pow2, Z.ones_equiv by lia. unfold Z.pred. rewrite Z.mul_add_distr_r, <- Z.pow_add_r by lia. replace (64 - n + n) with 64 by lia. lia.
Qed.

(** The value is in the range of the field, or nothing is added. *)
Definition operand_ok (sign : bool) (n value incr : Z) : Prop := fits sign n value = true \/ incr = 0.

Lemma check_unsigned value incr n ow : 1 <= n <= 63 -> in_u 64 value -> in_s 64 incr -> operand_ok false n value incr ->
  exists code l, checkUnsignedBitfieldOverflow value incr n ow = (code, l) /\ negb (code =? 0) = negb (fits false n (value + incr)) /\
    (fits false n (value + incr) = false -> l = limit false n ow (value + incr)).
Proof.
  intros Hn Hv Hi Hok. destruct (pow_bounds n ltac:(lia)) as (P1 & P2 & P3 & P4). specialize (P4 ltac:(lia)). unfold operand_ok, fits, lowest, highest_of in *. unfold in_u in Hv. unfold in_s in Hi. change (2 ^ (64 - 1)) with (2 ^ 63) in Hi.
  unfold checkUnsignedBitfieldOverflow. rewrite (proj2 (Z.eqb_neq n 64)) by lia. rewrite Z.shiftl_1_l.
  set (m := 2 ^ n) in *. assert (value < m -> i64 (wrap 64 (m - 1 - value)) = m - 1 - value) as E1.
  { intros Hlt. unfold i64. rewrite wrap_small by (unfold in_u; lia). apply swrap_small; [lia|]. unfold in_s. lia. }
  assert (value < m -> i64 (wrap 64 (- value)) = - value) as E2.
  { intros Hlt. unfold i64. rewrite swrap_wrap. apply swrap_small; [lia|]. unfold in_s. lia. }
  assert (Z.land (wrap 64 (value + incr)) (not64 (wrap 64 (Z.shiftl UINT64_MAX n))) = wrap n (value + incr)) as Ew.
  { rewrite mask_bits, land_not_mask by lia. apply wrap_mod. lia. }
  rewrite Ew. unfold limit, lowest, highest_of. fold m.
  destruct (Z.ltb_spec (m - 1) value) as [H1|H1]; cbn [orb].
  - assert (incr = 0) as -> by (destruct Hok; [lia|done]). rewrite Z.add_0_r. rewrite (proj2 (Z.ltb_ge value 0)) by lia. rewrite (proj2 (Z.leb_gt value (m - 1))) by lia. rewrite andb_false_r.
    destruct ow; eexists _, _; (split; [reflexivity|]); split; done.
  - rewrite E1, E2 by lia. destruct ((0 <? incr) && (m - 1 - value <? incr)) eqn:C1.
    + rewrite (proj2 (Z.ltb_ge (value + incr) 0)) by lia. rewrite (proj2 (Z.leb_gt (value + incr) (m - 1))) by lia. rewrite andb_false_r. destruct ow; eexists _, _; (split; [reflexivity|]); split; done.
    + destruct ((incr <? 0) && (incr <? - value)) eqn:C2.
      * rewrite (proj2 (Z.ltb_lt (value + incr) 0)) by lia. rewrite (proj2 (Z.leb_gt 0 (value + incr))) by lia. destruct ow; eexists _, _; (split; [reflexivity|]); split; done.
      * eexists _, _. split; [reflexivity|]. replace (_ && _) with true by (symmetry; zbool; lia). done.
Qed.

(** The saturation of a very negative value: [max - value] does not fit 64 bits. *)
Definition saturation_fault (n value : Z) (ow : owtype) : Prop := ow = BFOVERFLOW_SAT /\ n < 64 /\ value <= 2 ^ (n - 1) - 1 - 2 ^ 63.

Lemma signed_wrap n value incr : 1 <= n <= 64 -> in_s 64 value -> in_s 64 incr ->
  let c := wrap 64 (wrap 64 value + wrap 64 incr) in
  i64 (if n <? 64 then
         if negb (Z.land c (Z.shiftl 1 (n - 1)) =? 0) then Z.lor c (wrap 64 (Z.shiftl UINT64_MAX n)) else Z.land c (not64 (wrap 64 (Z.shiftl UINT64_MAX n)))
       else c) = swrap n (value + incr).
Proof.
  intros Hn Hv Hi. cbv zeta. assert (wrap 64 (wrap 64 value + wrap 64 incr) = wrap 64 (value + incr)) as -> by (unfold wrap; by rewrite <- Zplus_mod).
  set (c := wrap 64 (value + incr)). assert (in_u 64 c) as Hc by (apply wrap_range; lia). destruct (pow_bounds n Hn) as (P1 & P2 & P3 & P4).
  destruct (Z.ltb_spec n 64) as [H64|H64].
  - specialize (P4 H64). rewrite mask_bits by lia. set (u := c mod 2 ^ n). assert (in_u n u) as Hu by (apply wrap_range; lia).
    assert (swrap n (value + incr) = swrap n u) as ->.
    { unfold u, c. rewrite wrap_mod by lia. symmetry. apply swrap_wrap. }
    rewrite (Z.land_comm c), Z.shiftl_1_l, land_pow2 by lia. rewrite (swrap_halves n u) by (done || lia).
    assert (Z.testbit u (n - 1) = Z.testbit c (n - 1)) as -> by (unfold u; apply Z.mod_pow2_bits_low; lia). unfold in_u in Hu.
    destruct (Z.testbit c (n - 1)); unfold i64.
    + rewrite lor_mask_high by (done || lia). fold u. rewrite <- (swrap_shift 64 _ (-1)) by lia. replace (u + (2 ^ 64 - 2 ^ n) + -1 * 2 ^ 64) with (u - 2 ^ n) by lia. apply swrap_small; [lia|]. unfold in_s. lia.
    + rewrite land_not_mask by lia. fold u. apply swrap_small; [lia|]. unfold in_s. lia.
  - replace n with 64 by lia. unfold i64, c. apply swrap_wrap.
Qed.

Lemma check_signed value incr n ow : 1 <= n <= 64 -> in_s 64 value -> in_s 64 incr -> operand_ok true n value incr -> ~ saturation_fault n value ow ->
  exists code l, checkSignedBitfieldOverflow value incr n ow = (code, l) /\ negb (code =? 0) = negb (fits true n (value + incr)) /\
    (fits true n (value + incr) = false -> l = limit true n ow (value + incr)).
Proof.
  intros Hn Hv Hi Hok Hsf. pose proof (signed_wrap n value incr Hn Hv Hi) as Ew. cbv zeta in Ew. destruct (pow_bounds n Hn) as (P1 & P2 & P3 & P4).
  unfold operand_ok, fits, lowest, highest_of in *. unfold in_s in Hv, Hi. change (2 ^ (64 - 1)) with (2 ^ 63) in *.
  unfold checkSignedBitfieldOverflow. cbv zeta. rewrite Ew. unfold limit, lowest, highest_of.
  assert ((if n =? 64 then INT64_MAX else Z.shiftl 1 (n - 1) - 1) = 2 ^ (n - 1) - 1) as -> by (rewrite Z.shiftl_1_l; destruct (Z.eqb_spec n 64) as [->|]; done).
  replace (- (2 ^ (n - 1) - 1) - 1) with (- 2 ^ (n - 1)) by lia. unfold saturation_fault in Hsf. set (m := 2 ^ (n - 1)) in *.
  assert (n < 64 -> m <= 2 ^ 62) as Hm by (intros; specialize (P4 ltac:(done)); lia). assert (n = 64 -> m = 2 ^ 63) as Hm64 by (intros ->; done).
  set (maxincr := i64 (wrap 64 (m - 1 - value))). set (minincr := i64 (- m - value)).
  assert (m - 1 - value < 2 ^ 63 -> value < m -> maxincr = m - 1 - value) as E1.
  { intros H1 H2. unfold maxincr, i64. rewrite swrap_wrap. apply swrap_small; [lia|]. unfold in_s. lia. }
  assert (- m <= value < m -> n < 64 \/ value < 0 -> minincr = - m - value) as E2.
  { intros H1 H2. unfold minincr, i64. apply swrap_small; [lia|]. unfold in_s. change (2 ^ (64 - 1)) with (2 ^ 63). destruct (Z.eq_dec n 64); lia. }
  assert (2 ^ 63 <= m - 1 - value -> maxincr < 0) as E3.
  { intros H1. unfold maxincr, i64. rewrite swrap_wrap. rewrite <- (swrap_shift 64 _ (-1)) by lia. rewrite swrap_small; [lia|lia|]. unfold in_s. change (2 ^ (64 - 1)) with (2 ^ 63). destruct (Z.eq_dec n 64); lia. }
  destruct (Z.ltb_spec (m - 1) value) as [H1|H1]; cbn [orb].
  - (* above the range *) assert (incr = 0) as -> by (destruct Hok; [lia|done]). rewrite Z.add_0_r in *. rewrite (proj2 (Z.ltb_ge value (- m))) by lia.
    rewrite (proj2 (Z.leb_gt value (m - 1))) by lia. rewrite andb_false_r. destruct ow; eexists _, _; (split; [reflexivity|]); split; done.
  - destruct (Z.ltb_spec value (- m)) as [H2|H2]; cbn [orb].
    + (* below the range *) assert (incr = 0) as -> by (destruct Hok; [lia|done]). assert (n < 64) as Hlt by (destruct (Z.eq_dec n 64); lia). rewrite Z.add_0_r in *.
      rewrite (proj2 (Z.eqb_neq n 64)) by lia. rewrite (proj2 (Z.ltb_lt value (- m))) by lia. rewrite (proj2 (Z.leb_gt (- m) value)) by lia. rewrite (proj2 (Z.leb_gt 0 value)) by lia.
      cbn [negb andb]. rewrite orb_false_r. destruct (Z.ltb_spec maxincr 0) as [H3|H3].
      * destruct ow; eexists _, _; (split; [reflexivity|]); (split; [done|]); try done. exfalso. apply Hsf. split; [done|]. split; [done|].
        destruct (Z.lt_ge_cases (m - 1 - value) (2 ^ 63)); [rewrite E1 in H3 by lia; lia|lia].
      * destruct ow; eexists _, _; (split; [reflexivity|]); split; done.
    + (* in the range *)
      assert (negb (n =? 64) && (maxincr <? incr) || (0 <=? value) && (0 <? incr) && (maxincr <? incr) = (m - 1 <? value + incr)) as ->.
      { destruct (Z.eqb_spec n 64) as [E64|E64]; cbn [negb andb orb].
        - specialize (Hm64 E64). destruct (Z.leb_spec 0 value); cbn [andb]; [rewrite E1 by lia; zbool; lia|]. symmetry. apply Z.ltb_ge. lia.
        - rewrite E1 by lia. zbool; lia. }
      assert (negb (n =? 64) && (incr <? minincr) || (value <? 0) && (incr <? 0) && (incr <? minincr) = (value + incr <? - m)) as ->.
      { destruct (Z.eqb_spec n 64) as [E64|E64]; cbn [negb andb orb].
        - specialize (Hm64 E64). destruct (Z.ltb_spec value 0); cbn [andb]; [rewrite E2 by lia; zbool; lia|]. symmetry. apply Z.ltb_ge. lia.
        - rewrite E2 by lia. zbool; lia. }
      destruct (Z.ltb_spec (m - 1) (value + incr)) as [H3|H3].
      * rewrite (proj2 (Z.ltb_ge (value + incr) (- m))) by lia. rewrite (proj2 (Z.leb_gt (value + incr) (m - 1))) by lia. rewrite andb_false_r. destruct ow; eexists _, _; (split; [reflexivity|]); split; done.
      * destruct (Z.ltb_spec (value + incr) (- m)) as [H4|H4].
        -- rewrite (proj2 (Z.leb_gt (- m) (value + incr))) by lia. destruct ow; eexists _, _; (split; [reflexivity|]); split; done.
        -- eexists _, _. split; [reflexivity|]. replace (_ && _) with true by (symmetry; zbool; lia). done.
Qed.

(** ** The operations of BITFIELD *)

Record op_ok (op : bitfieldOp) : Prop := {
  ok_offset : 0 <= bf_offset op; ok_bits : 1 <= bf_bits op <= (if bf_sign op then 64 else 63); ok_i64 : in_s 64 (bf_i64 op) }.

Definition value_of (sign : bool) (n : Z) (l : list bool) : Z := if sign then swrap n (be_value l) else be_value l.
Definition store_value (sign : bool) (n : Z) (ow : owtype) (t : Z) : option Z := if fits sign n t then Some t else limit sign n ow t.

(** An operation on the bits. *)
Definition spec_op (op : bitfieldOp) (l : list bool) : list bool * reply :=
  let n := bf_bits op in
  let old := value_of (bf_sign op) n (field l (Z.to_nat (bf_offset op)) (Z.to_nat n)) in
  let write t ret :=
    match store_value (bf_sign op) n (bf_owtype op) t with
    | Some v => (splice l (Z.to_nat (bf_offset op)) (to_bits (Z.to_nat n) v), RInt (ret v))
    | None => (l, RNull)
    end in
  match bf_opcode op with
  | BITFIELDOP_GET => (l, RInt old)
  | BITFIELDOP_SET => write (if bf_sign op then bf_i64 op else wrap 64 (bf_i64 op)) (fun _ => old)
  | BITFIELDOP_INCRBY => write (old + bf_i64 op) (fun v => v)
  end.

Fixpoint spec_ops (ops : list bitfieldOp) (l : list bool) : list bool * list reply :=
  match ops with
  | [] => (l, [])
  | op :: ops => let '(l, r) := spec_op op l in let '(l, rs) := spec_ops ops l in (l, r :: rs)
  end.

Lemma fits_range (sign : bool) n v : 1 <= n <= (if sign then 64 else 63) -> fits sign n v = true -> in_s 64 v.
Proof.
  intros Hn H. unfold fits, lowest, highest_of in H. unfold in_s. change (2 ^ (64 - 1)) with (2 ^ 63). destruct sign.
  - assert (2 ^ (n - 1) <= 2 ^ 63) by (apply Z.pow_le_mono_r; lia). lia.
  - assert (2 ^ n <= 2 ^ 63) by (apply Z.pow_le_mono_r; lia). lia.
Qed.

Lemma value_fits sign n l : 1 <= n -> Z.of_nat (length l) = n -> fits sign n (value_of sign n l) = true.
Proof.
  intros Hn Hl. pose proof (be_value_range l) as H. rewrite Hl in H. unfold fits, lowest, highest_of, value_of. destruct sign; [|lia].
  pose proof (swrap_range n (be_value l) ltac:(lia)) as Hr. unfold in_s in Hr. lia.
Qed.

Lemma store_fits (sign : bool) n ow t v : 1 <= n <= (if sign then 64 else 63) -> store_value sign n ow t = Some v -> fits sign n v = true.
Proof.
  intros Hn. unfold store_value. destruct (fits sign n t) eqn:E; [by intros [= <-]|]. unfold limit, fits, lowest, highest_of. 
  assert (0 < 2 ^ (n - 1) /\ 0 < 2 ^ n) as [? ?] by (split; apply pow2_pos; destruct sign; lia).
  destruct ow; intros [= <-].
  - destruct sign; [pose proof (swrap_range n t ltac:(lia)) as Hr; unfold in_s in Hr; lia|]. pose proof (wrap_range n t ltac:(lia)) as Hr. unfold in_u in Hr. lia.
  - destruct sign; destruct (t <? _); lia.
Qed.

#[export] Instance opcode_eq_dec : EqDecision opcode.
Proof. solve_decision. Defined.

Section Exec.
Context (garbage : Z).

(** What the code finds and stores, once the overflow is known. *)
Lemma exec_store sign n ow t code l (g : Z) : negb (code =? 0) = negb (fits sign n t) -> (fits sign n t = false -> l = limit sign n ow t) ->
  match store_value sign n ow t with
  | Some v => (if negb (code =? 0) then default g l else t) = v /\ negb (code =? 0) && match ow with BFOVERFLOW_FAIL => true | _ => false end = false
  | None => negb (code =? 0) && match ow with BFOVERFLOW_FAIL => true | _ => false end = true
  end.
Proof using. intros -> Hl. unfold store_value. destruct (fits sign n t); cbn [negb]; [done|]. rewrite Hl by done. by destruct ow. Qed.

(** The integer the field would hold, and the one it held. *)
Definition old_value (op : bitfieldOp) (l : list bool) : Z := value_of (bf_sign op) (bf_bits op) (field l (Z.to_nat (bf_offset op)) (Z.to_nat (bf_bits op))).
Definition operand (op : bitfieldOp) (l : list bool) : Z :=
  match bf_opcode op with BITFIELDOP_INCRBY => old_value op l + bf_i64 op | _ => if bf_sign op then bf_i64 op else wrap 64 (bf_i64 op) end.
Definition returned (op : bitfieldOp) (l : list bool) (v : Z) : Z := match bf_opcode op with BITFIELDOP_INCRBY => v | _ => old_value op l end.

Lemma spec_write op l : bf_opcode op <> BITFIELDOP_GET -> spec_op op l =
  match store_value (bf_sign op) (bf_bits op) (bf_owtype op) (operand op l) with
  | Some v => (splice l (Z.to_nat (bf_offset op)) (to_bits (Z.to_nat (bf_bits op)) v), RInt (returned op l v))
  | None => (l, RNull)
  end.
Proof using. intros H. unfold spec_op, operand, returned, old_value. by destruct (bf_opcode op). Qed.

Lemma old_fits op l : op_ok op -> fits (bf_sign op) (bf_bits op) (old_value op l) = true.
Proof using.
  intros [_ Hb _]. assert (1 <= bf_bits op) by (destruct (bf_sign op); lia). apply value_fits; [done|]. rewrite length_field. lia.
Qed.

(** The operand of a write that the code handles. *)
Definition no_fault (op : bitfieldOp) : Prop :=
  bf_sign op = true -> bf_opcode op = BITFIELDOP_SET -> ~ saturation_fault (bf_bits op) (bf_i64 op) (bf_owtype op).

Lemma write_values_signed op s : op_ok op -> bf_sign op = true -> bf_opcode op <> BITFIELDOP_GET -> bf_offset op + bf_bits op <= 8 * Z.of_nat (length s) -> no_fault op ->
  exists code l, write_values garbage op s =
    (let newval := if negb (code =? 0) then default garbage l else operand op (bits s) in Ret (old_value op (bits s), newval, returned op (bits s) newval, negb (code =? 0))) /\
    negb (code =? 0) = negb (fits true (bf_bits op) (operand op (bits s))) /\ (fits true (bf_bits op) (operand op (bits s)) = false -> l = limit true (bf_bits op) (bf_owtype op) (operand op (bits s))).
Proof using.
  intros Hok Es Hop Hl Hsf. pose proof (old_fits op (bits s) Hok) as Hold. destruct Hok as [Ho Hb Hi]. unfold no_fault in Hsf. rewrite Es in *. specialize (Hsf eq_refl).
  unfold write_values. rewrite Es, get_signed by lia. cbn [obind]. unfold operand, returned in *.
  assert (swrap (bf_bits op) (be_value (field (bits s) (Z.to_nat (bf_offset op)) (Z.to_nat (bf_bits op)))) = old_value op (bits s)) as -> by (unfold old_value, value_of; by rewrite Es).
  destruct (bf_opcode op) eqn:Ec; [done| |].
  - destruct (check_signed (bf_i64 op) 0 (bf_bits op) (bf_owtype op) Hb Hi) as (code & l & -> & H1 & H2); [unfold in_s; lia|by right|by apply Hsf|].
    rewrite Z.add_0_r in H1, H2. rewrite Es. by exists code, l.
  - assert (in_s 64 (old_value op (bits s))) as Hos by (eapply fits_range; [|exact Hold]; done).
    destruct (check_signed (old_value op (bits s)) (bf_i64 op) (bf_bits op) (bf_owtype op) Hb Hos Hi) as (code & l & -> & H1 & H2); [by left| |by exists code, l].
    intros (_ & Hlt & Hle). unfold fits, lowest, highest_of in Hold. assert (2 ^ (bf_bits op - 1) <= 2 ^ 62) by (apply Z.pow_le_mono_r; lia). lia.
Qed.

Lemma write_values_unsigned op s : op_ok op -> bf_sign op = false -> bf_opcode op <> BITFIELDOP_GET -> bf_offset op + bf_bits op <= 8 * Z.of_nat (length s) ->
  exists code l, write_values garbage op s =
    (let newval := if negb (code =? 0) then default 0 l else operand op (bits s) in Ret (old_value op (bits s), newval, returned op (bits s) newval, negb (code =? 0))) /\
    negb (code =? 0) = negb (fits false (bf_bits op) (operand op (bits s))) /\ (fits false (bf_bits op) (operand op (bits s)) = false -> l = limit false (bf_bits op) (bf_owtype op) (operand op (bits s))).
Proof using.
  intros Hok Es Hop Hl. pose proof (old_fits op (bits s) Hok) as Hold. destruct Hok as [Ho Hb Hi]. rewrite Es in *.
  unfold write_values. rewrite Es, get_unsigned by lia. cbn [obind]. unfold operand, returned in *.
  assert (be_value (field (bits s) (Z.to_nat (bf_offset op)) (Z.to_nat (bf_bits op))) = old_value op (bits s)) as -> by (unfold old_value, value_of; by rewrite Es).
  destruct (bf_opcode op) eqn:Ec; [done| |].
  - destruct (check_unsigned (wrap 64 (bf_i64 op)) 0 (bf_bits op) (bf_owtype op) Hb) as (code & l & -> & H1 & H2); [apply wrap_range; lia|unfold in_s; lia|by right|].
    rewrite Z.add_0_r in H1, H2. rewrite Es. by exists code, l.
  - set (old := old_value op (bits s)) in *. set (n := bf_bits op) in *.
    assert (0 <= old < 2 ^ n /\ 2 ^ n <= 2 ^ 63) as [Hos Hn63] by (split; [unfold fits, lowest, highest_of in Hold; lia|apply Z.pow_le_mono_r; lia]).
    destruct (check_unsigned old (bf_i64 op) n (bf_owtype op) Hb) as (code & l & -> & H1 & H2); [unfold in_u; lia|done|by left|]. exists code, l. split; [|done].
    assert (negb (code =? 0) = false -> wrap 64 (old + bf_i64 op) = old + bf_i64 op) as Hw.
    { rewrite H1. intros Hf%negb_false_iff. apply wrap_small. unfold fits, lowest, highest_of in Hf. unfold in_u. lia. }
    destruct (negb (code =? 0)); [done|]. cbv zeta. by rewrite Hw.
Qed.

Lemma exec_write_spec op dirty s : op_ok op -> bf_opcode op <> BITFIELDOP_GET -> bytes s -> bf_offset op + bf_bits op <= 8 * Z.of_nat (length s) -> no_fault op ->
  exists s' r n, exec_write garbage op dirty s = Ret (s', r, n) /\ bytes s' /\ length s' = length s /\ (bits s', r) = spec_op op (bits s).
Proof using.
  intros Hok Hop Hs Hl Hsf. pose proof (ok_offset op Hok) as Ho. pose proof (ok_bits op Hok) as Hb. rewrite spec_write by done. unfold exec_write.
  assert (exists newval ovf, write_values garbage op s = Ret (old_value op (bits s), newval, returned op (bits s) newval, ovf) /\
      match store_value (bf_sign op) (bf_bits op) (bf_owtype op) (operand op (bits s)) with
      | Some v => newval = v /\ ovf && match bf_owtype op with BFOVERFLOW_FAIL => true | _ => false end = false
      | None => ovf && match bf_owtype op with BFOVERFLOW_FAIL => true | _ => false end = true
      end) as (newval & ovf & -> & Hst).
  { destruct (bf_sign op) eqn:Es.
    - destruct (write_values_signed op s Hok Es Hop Hl Hsf) as (code & l & -> & H1 & H2). cbv zeta. do 2 eexists. split; [reflexivity|]. by apply exec_store.
    - destruct (write_values_unsigned op s Hok Es Hop Hl) as (code & l & -> & H1 & H2). cbv zeta. do 2 eexists. split; [reflexivity|]. by apply exec_store. }
  cbn [obind]. destruct (store_value _ _ _ _) as [v|] eqn:Ev; [|rewrite Hst; by do 3 eexists].
  destruct Hst as [-> ->]. pose proof (store_fits _ _ _ _ _ Hb Ev) as Hvf.
  assert (exists s', (if bf_sign op then setSignedBitfield s (bf_offset op) (bf_bits op) v else setUnsignedBitfield s (bf_offset op) (bf_bits op) v) = Ret s' /\ bytes s' /\ length s' = length s /\
    bits s' = splice (bits s) (Z.to_nat (bf_offset op)) (to_bits (Z.to_nat (bf_bits op)) v)) as (s' & -> & H1 & H2 & H3).
  { destruct (bf_sign op); [apply set_signed; (done || lia)|]. apply set_loop; (done || lia). }
  cbn [obind]. do 3 eexists. split; [reflexivity|]. split; [done|]. split; [done|]. rewrite H3. do 2 f_equal. unfold i64. apply swrap_small; [lia|].
  unfold returned. destruct (bf_opcode op); (eapply fits_range; [exact Hb|]); (done || by apply old_fits).
Qed.

Lemma nth_pad s q i : (i < 72)%nat -> nth i (bits (load s q 9 ++ replicate (9 - length (load s q 9)) 0)) false = nth (8 * q + i) (bits s) false.
Proof using.
  intros Hi. rewrite (Nat.div_mod i 8) at 1 by lia. pose proof (Nat.mod_upper_bound i 8 ltac:(lia)) as Hm. rewrite nth_bits by done.
  replace (8 * q + i)%nat with (8 * (q + i / 8) + i mod 8)%nat by (pose proof (Nat.div_mod i 8 ltac:(lia)); lia). rewrite nth_bits by done.
  f_equal. assert (i / 8 < 9)%nat as Hq by (apply Nat.Div0.div_lt_upper_bound; lia). rewrite !nth_lookup. destruct (decide (i / 8 < length (load s q 9))%nat) as [Hin|Hout].
  - rewrite lookup_app_l by done. rewrite load_lookup, decide_True by done. done.
  - rewrite lookup_app_r by lia. rewrite lookup_replicate_2 by lia. unfold load in Hout. rewrite length_take, length_drop in Hout. rewrite (lookup_ge_None_2 s (q + i / 8)); [done|lia].
Qed.

Lemma exec_get_spec op s : op_ok op -> exec_get op s = Ret (RInt (old_value op (bits s))).
Proof using.
  intros Hok. pose proof (old_fits op (bits s) Hok) as Hold. destruct Hok as [Ho Hb Hi]. unfold exec_get. destruct (offset_split (bf_offset op) Ho) as (-> & _ & Eo).
  set (q := Z.to_nat (bf_offset op / 8)) in *. set (buf := load s q 9 ++ replicate (9 - length (load s q 9)) 0). assert (1 <= bf_bits op <= 64) as Hb64 by (destruct (bf_sign op); lia).
  assert (length buf = 9%nat) as Hlb by (unfold buf; rewrite length_app, length_replicate; unfold load; rewrite length_take; lia).
  assert (field (bits buf) (Z.to_nat (bf_offset op - bf_offset op / 8 * 8)) (Z.to_nat (bf_bits op)) = field (bits s) (Z.to_nat (bf_offset op)) (Z.to_nat (bf_bits op))) as Ef.
  { unfold field. replace (Z.to_nat (bf_offset op - bf_offset op / 8 * 8)) with (Z.to_nat (bf_offset op mod 8)) by zdiv. rewrite Eo. apply list_eq. intros i. rewrite !list_lookup_fmap.
    destruct (decide (i < Z.to_nat (bf_bits op))%nat) as [Hlt|Hge]; [|by rewrite !lookup_seq_ge by lia]. rewrite !lookup_seq_lt by done. cbn. f_equal. unfold buf. rewrite nth_pad by zdiv. f_equal. lia. }
  unfold old_value, value_of in *. destruct (bf_sign op) eqn:Es.
  - rewrite get_signed by zdiv. rewrite Ef. cbn [obind]. do 2 f_equal. unfold i64. apply swrap_small; [lia|]. eapply fits_range; [|exact Hold]. done.
  - rewrite get_unsigned by zdiv. rewrite Ef. cbn [obind]. do 2 f_equal. unfold i64. apply swrap_small; [lia|]. eapply fits_range; [|exact Hold]. done.
Qed.

Definition writes (op : bitfieldOp) : Prop := bf_opcode op <> BITFIELDOP_GET.

Lemma exec_ops_spec ops dirty s : Forall op_ok ops -> Forall no_fault ops -> bytes s -> Forall (fun op => writes op -> bf_offset op + bf_bits op <= 8 * Z.of_nat (length s)) ops ->
  exists s' rs n, exec_ops garbage ops dirty s = Ret (s', rs, n) /\ bytes s' /\ (bits s', rs) = spec_ops ops (bits s) /\ (Forall (fun op => ~ writes op) ops -> s' = s).
Proof using.
  intros Hok. revert s. induction Hok as [|op ops Hop _ IH]; intros s Hnf Hs Hl; cbn [exec_ops spec_ops]; [by exists s, [], 0|].
  apply Forall_cons_1 in Hnf as [Hnf1 Hnf]. apply Forall_cons_1 in Hl as [Hl1 Hl].
  assert (exists s1 r n, match bf_opcode op with BITFIELDOP_GET => let* r := exec_get op s in Ret (s, r, 0) | _ => exec_write garbage op dirty s end = Ret (s1, r, n) /\
    bytes s1 /\ length s1 = length s /\ (bits s1, r) = spec_op op (bits s) /\ (~ writes op -> s1 = s)) as (s1 & r & n & -> & B1 & L1 & E1 & G1).
  { destruct (decide (bf_opcode op = BITFIELDOP_GET)) as [Eg|Hw].
    - rewrite Eg, exec_get_spec by done. cbn [obind]. exists s, (RInt (old_value op (bits s))), 0. split; [done|]. split; [done|]. split; [done|]. split; [|done].
      unfold spec_op. rewrite Eg. done.
    - destruct (exec_write_spec op dirty s Hop Hw Hs (Hl1 Hw) Hnf1) as (s' & r & n & E & H1 & H2 & H3). exists s', r, n. split; [by destruct (bf_opcode op)|]. split; [done|]. split; [done|]. split; [done|].
      intros Hnw. by destruct Hnw. }
  cbn [obind]. rewrite <- L1 in Hl. destruct (IH s1 Hnf B1 Hl) as (s' & rs & m & -> & B' & E' & G'). cbn [obind]. exists s', (r :: rs), (n + m). split; [done|]. split; [done|].
  rewrite <- E1. rewrite <- E'. split; [done|]. intros Hg. apply Forall_cons_1 in Hg as [Hg1 Hg]. by rewrite G', G1.
Qed.

End Exec.

(** ** Parsing *)

Section Parse.
Context (proto_max_bulk_len : Z) (obey : bool).

Lemma offset_argument a hash n o : getBitOffsetFromArgument proto_max_bulk_len obey a hash n = Some o -> 0 <= o.
Proof using.
  unfold getBitOffsetFromArgument. destruct (string2ll _) as [v|]; [|done]. set (w := if (_ : bool) then i64 _ else v). destruct (Z.ltb_spec w 0); [done|]. cbn [orb].
  destruct (negb obey && _); [done|]. by intros [= <-].
Qed.

Lemma type_argument a (sign : bool) n : getBitfieldTypeFromArgument a = Some (sign, n) -> 1 <= n <= (if sign then 64 else 63).
Proof using.
  unfold getBitfieldTypeFromArgument. cbv zeta.
  destruct (_ =? 105); [|destruct (_ =? 117); [|done]].
  all: destruct (string2ll _) as [v|]; [|done]; destruct ((v <? 1) || _) eqn:E; [done|]; intros [= <- <-]; lia.
Qed.

(** *** What the arguments say

    The subcommands, as they are meant: a field has a type and a place, which is a bit
    offset or, after a [#], the number of a field of that width. *)
Inductive place := At (o : Z) | Nth (o : Z).
Inductive subcommand :=
| Overflow (ow : owtype) | Get (sign : bool) (n : Z) (p : place)
| Set_ (sign : bool) (n : Z) (p : place) (v : Z) | Incrby (sign : bool) (n : Z) (p : place) (v : Z).

Definition first_bit (n : Z) (p : place) : Z := match p with At o => o | Nth o => o * n end.

(** How they are written. *)
Definition place_text (p : place) : list Z := match p with At o => repr o | Nth o => 35 :: repr o end.
Definition type_text (sign : bool) (n : Z) (w : list Z) : Prop :=
  exists rest, w = (if sign then 105 else 117) :: repr n ++ rest /\ (rest = [] \/ exists r, rest = 0 :: r).
Definition mode_word (ow : owtype) : list Z :=
  match ow with BFOVERFLOW_WRAP => chars "wrap" | BFOVERFLOW_SAT => chars "sat" | BFOVERFLOW_FAIL => chars "fail" end.

Inductive script : list (list Z) -> list subcommand -> Prop :=
| script_nil : script [] []
| script_overflow w m ow args subs : SdsArgs.spells (chars "overflow") w -> SdsArgs.spells (mode_word ow) m -> script args subs ->
    script (w :: m :: args) (Overflow ow :: subs)
| script_get w t sign n p args subs : SdsArgs.spells (chars "get") w -> type_text sign n t -> script args subs ->
    script (w :: t :: place_text p :: args) (Get sign n p :: subs)
| script_set w t sign n p v args subs : SdsArgs.spells (chars "set") w -> type_text sign n t -> script args subs ->
    script (w :: t :: place_text p :: repr v :: args) (Set_ sign n p v :: subs)
| script_incrby w t sign n p v args subs : SdsArgs.spells (chars "incrby") w -> type_text sign n t -> script args subs ->
    script (w :: t :: place_text p :: repr v :: args) (Incrby sign n p v :: subs).

(** What is accepted: widths up to 64 signed bits or 63 unsigned, 64-bit integers, and
    places before the end of the largest string.  The number of a field is multiplied in
    64 bits. *)
Definition accepted_field (sign : bool) (n : Z) (p : place) : Prop :=
  1 <= n <= (if sign then 64 else 63) /\ match p with At o | Nth o => in_s 64 o end /\
  0 <= swrap 64 (first_bit n p) /\ (obey = true \/ swrap 64 (first_bit n p) / 8 < proto_max_bulk_len).
Definition accepted (c : subcommand) : Prop :=
  match c with
  | Overflow _ => True
  | Get sign n p => accepted_field sign n p
  | Set_ sign n p v | Incrby sign n p v => accepted_field sign n p /\ in_s 64 v
  end.
Definition in_range (c : subcommand) : Prop :=
  match c with Overflow _ => True | Get _ n p | Set_ _ n p _ | Incrby _ n p _ => 0 <= first_bit n p < 2 ^ 63 end.

(** What they ask for: the operations, each under the last policy before it, whether one
    of them writes, and the last bit written. *)
Fixpoint operations (ow : owtype) (subs : list subcommand) : list bitfieldOp :=
  match subs with
  | [] => []
  | Overflow ow :: subs => operations ow subs
  | Get sign n p :: subs => BitfieldOp (first_bit n p) 0 BITFIELDOP_GET ow n sign :: operations ow subs
  | Set_ sign n p v :: subs => BitfieldOp (first_bit n p) v BITFIELDOP_SET ow n sign :: operations ow subs
  | Incrby sign n p v :: subs => BitfieldOp (first_bit n p) v BITFIELDOP_INCRBY ow n sign :: operations ow subs
  end.
Definition only_reads (subs : list subcommand) : bool := forallb (fun c => match c with Overflow _ | Get _ _ _ => true | _ => false end) subs.
Definition last_bit (subs : list subcommand) : Z :=
  foldr (fun c m => match c with Set_ _ n p _ | Incrby _ n p _ => Z.max (first_bit n p + n - 1) m | _ => m end) 0 subs.

Lemma repr_chars v : Forall (fun c => c = 45 \/ 48 <= c <= 57) (repr v).
Proof using.
  unfold repr. destruct (v <? 0); [constructor; [by left|]|]; (eapply Forall_impl; [apply dec_fixed_digits|]); unfold is_digit; simpl; lia.
Qed.

Lemma first_not_hash v : (at_ (repr v) 0 =? 35) = false.
Proof using. apply Z.eqb_neq. pose proof (repr_chars v) as Hc. destruct (repr v); [done|]. apply Forall_cons_1 in Hc as [Hc _]. cbn in *. lia. Qed.

Lemma type_written (sign : bool) n w : 1 <= n <= (if sign then 64 else 63) -> type_text sign n w -> getBitfieldTypeFromArgument w = Some (sign, n).
Proof using.
  intros Hn (rest & -> & Hr). unfold getBitfieldTypeFromArgument. cbv zeta. cbn [drop]. rewrite drop_0.
  assert (string2ll (SdsArgs.cstr (repr n ++ rest)) = Some n) as E.
  { apply string2ll_spec. split; [unfold in_s; change (2 ^ (64 - 1)) with (2 ^ 63); destruct sign; lia|]. assert (Forall (fun c => c <> 0) (repr n)) as Hz by (eapply Forall_impl; [apply repr_chars|]; simpl; lia).
    revert Hz. generalize (repr n). intros l Hz. induction Hz as [|c l Hc _ IH]; [by destruct Hr as [->|[r ->]]|]. cbn [app SdsArgs.cstr]. rewrite (proj2 (Z.eqb_neq c 0) Hc). by f_equal. }
  destruct sign; cbn [at_ nth Z.eqb Pos.eqb]; rewrite E; (rewrite (proj2 (Z.ltb_ge _ _)) by lia); (rewrite (proj2 (Z.ltb_ge _ _)) by lia); done.
Qed.

Lemma type_read w sign n : getBitfieldTypeFromArgument w = Some (sign, n) -> type_text sign n w.
Proof using.
  assert (forall l, exists rest, l = SdsArgs.cstr l ++ rest /\ (rest = [] \/ exists r, rest = 0 :: r)) as Hcut.
  { induction l as [|c l (rest & E & Hr)]; [exists []; by split; [|left]|]. cbn [SdsArgs.cstr]. destruct (Z.eqb_spec c 0) as [->|]; [exists (0 :: l); by split; [|right; eexists]|].
    exists rest. split; [by rewrite E at 1|done]. }
  unfold getBitfieldTypeFromArgument, type_text. cbv zeta. destruct w as [|c w]; [done|]. cbn [at_ nth drop]. rewrite drop_0. destruct (Hcut w) as (rest & Ew & Hr).
  destruct (Z.eqb_spec c 105) as [->|]; [|destruct (Z.eqb_spec c 117) as [->|]; [|done]].
  all: destruct (string2ll _) as [v|] eqn:Ev; [|done]; apply string2ll_spec in Ev as [_ Ev]; destruct (_ || _); [done|]; intros [= <- <-]; exists rest; by rewrite <- Ev, <- Ew.
Qed.

Lemma place_written sign n p : accepted_field sign n p -> getBitOffsetFromArgument proto_max_bulk_len obey (place_text p) true n = Some (swrap 64 (first_bit n p)).
Proof using.
  intros (Hn & Ho & H0 & Hl). unfold getBitOffsetFromArgument. rewrite andb_true_r. rewrite (proj2 (Z.ltb_lt 0 n)) by lia. rewrite andb_true_r.
  assert (forall o, in_s 64 o -> swrap 64 o = o) as Hs by (intros; apply swrap_small; [lia|done]).
  destruct p as [o|o]; cbn [place_text first_bit] in *.
  - rewrite first_not_hash. rewrite string2ll_repr by done. rewrite Hs in * by done.
    rewrite (proj2 (Z.ltb_ge o 0)) by lia. rewrite Z.shiftr_div_pow2 by lia. change (2 ^ 3) with 8. destruct Hl as [->|Hl]; [done|]. rewrite (proj2 (Z.leb_gt _ _) Hl). by rewrite andb_false_r.
  - cbn [at_ nth drop]. rewrite drop_0. rewrite Z.eqb_refl. rewrite string2ll_repr by done. change (swrap 64 (o * n)) with (i64 (o * n)) in *. rewrite (proj2 (Z.ltb_ge (i64 (o * n)) 0)) by lia.
    rewrite Z.shiftr_div_pow2 by lia. change (2 ^ 3) with 8. destruct Hl as [->|Hl]; [done|]. rewrite (proj2 (Z.leb_gt _ _) Hl). by rewrite andb_false_r.
Qed.

Lemma offset_limit b o : (if (b <? 0) || negb obey && (proto_max_bulk_len <=? Z.shiftr b 3) then None else Some b) = Some o ->
  0 <= b /\ (obey = true \/ b / 8 < proto_max_bulk_len).
Proof using.
  rewrite Z.shiftr_div_pow2 by lia. change (2 ^ 3) with 8. destruct (Z.ltb_spec b 0); [done|]. cbn [orb]. intros Ho. split; [done|].
  destruct obey; [by left|right]. cbn [negb andb] in Ho. destruct (Z.leb_spec proto_max_bulk_len (b / 8)); [done|lia].
Qed.

Lemma place_read (sign : bool) n w o : 1 <= n <= (if sign then 64 else 63) -> getBitOffsetFromArgument proto_max_bulk_len obey w true n = Some o ->
  exists p, w = place_text p /\ accepted_field sign n p.
Proof using.
  intros Hn. unfold getBitOffsetFromArgument. rewrite andb_true_r. rewrite (proj2 (Z.ltb_lt 0 n)) by lia. rewrite andb_true_r. unfold accepted_field.
  destruct (Z.eqb_spec (at_ w 0) 35) as [E|E]; (destruct (string2ll _) as [v|] eqn:Ev; [|done]); apply string2ll_spec in Ev as [Hv Ev].
  - destruct w as [|c w]; [done|]. cbn [at_ nth drop] in *. rewrite drop_0 in Ev. subst. intros Ho. exists (Nth v). split; [done|]. split; [done|]. split; [done|].
    cbn [first_bit]. change (swrap 64 (v * n)) with (i64 (v * n)). by apply offset_limit in Ho.
  - intros Ho. exists (At v). split; [done|]. split; [done|]. split; [done|]. cbn [first_bit]. rewrite swrap_small by (done || lia). by apply offset_limit in Ho.
Qed.

Ltac compared H s b :=
  lazymatch type of H with SdsArgs.spells ?t ?w => assert (SdsArgs.same_case w (chars s) = b) as -> by (rewrite (SdsArgs.spells_same t w (chars s) eq_refl H); vm_compute; reflexivity) end.

(** Arguments that are written as they should are read as they are meant. *)
Lemma parse_written args subs : script args subs -> Forall accepted subs -> Forall in_range subs -> forall ow ops ro hi, 0 <= hi ->
  bitfield_parse proto_max_bulk_len obey args ow ops ro hi = inr (ops ++ operations ow subs, ro && only_reads subs, Z.max hi (last_bit subs)).
Proof using.
  assert (forall n p, 0 <= first_bit n p < 2 ^ 63 -> swrap 64 (first_bit n p) = first_bit n p) as Hsmall by (intros; apply swrap_small; [lia|]; unfold in_s; lia).
  intros Hs. induction Hs as [|w m ow' args subs Hw Hm _ IH|w t sign n p args subs Hw Ht _ IH|w t sign n p v args subs Hw Ht _ IH|w t sign n p v args subs Hw Ht _ IH];
    intros Ha Hr ow ops ro hi Hhi; [cbn; rewrite app_nil_r, andb_true_r, Z.max_l by lia; done|..];
    apply Forall_cons_1 in Ha as [Ha1 Ha]; apply Forall_cons_1 in Hr as [Hr1 Hr]; specialize (IH Ha Hr); cbn [accepted in_range] in Ha1, Hr1; cbn [bitfield_parse].
  - compared Hw "get" false. compared Hw "set" false. compared Hw "incrby" false. compared Hw "overflow" true. cbn [andb orb length Nat.leb].
    destruct ow'; cbn [mode_word] in Hm.
    + compared Hm "wrap" true. by apply IH.
    + compared Hm "wrap" false. compared Hm "sat" true. by apply IH.
    + compared Hm "wrap" false. compared Hm "sat" false. compared Hm "fail" true. by apply IH.
  - compared Hw "get" true. cbn [andb length Nat.leb]. pose proof Ha1 as (Hn & _). rewrite (type_written sign n t Hn Ht), (place_written sign n p Ha1).
    rewrite IH by done. rewrite (Hsmall n p) by done. by rewrite <- app_assoc.
  - compared Hw "get" false. compared Hw "set" true. cbn [andb orb length Nat.leb]. destruct Ha1 as [Ha1 Hv]. pose proof Ha1 as (Hn & _).
    rewrite (type_written sign n t Hn Ht), (place_written sign n p Ha1), string2ll_repr by done. rewrite IH by lia. rewrite (Hsmall n p) by done. rewrite <- app_assoc, andb_false_r. unfold last_bit. cbn [foldr]. f_equal. f_equal. lia.
  - compared Hw "get" false. compared Hw "set" false. compared Hw "incrby" true. cbn [andb orb length Nat.leb]. destruct Ha1 as [Ha1 Hv]. pose proof Ha1 as (Hn & _).
    rewrite (type_written sign n t Hn Ht), (place_written sign n p Ha1), string2ll_repr by done. rewrite IH by lia. rewrite (Hsmall n p) by done. rewrite <- app_assoc, andb_false_r. unfold last_bit. cbn [foldr]. f_equal. f_equal. lia.
Qed.

(** And what is read was written so. *)
Lemma parse_read args ow ops ro hi r : bitfield_parse proto_max_bulk_len obey args ow ops ro hi = inr r -> exists subs, script args subs /\ Forall accepted subs.
Proof using.
  revert ow ops ro hi. induction args as [args IH] using (induction_ltof1 _ (@length (list Z))). unfold ltof in IH. intros ow ops ro hi.
  destruct args as [|sub args]; [intros _; exists []; by repeat constructor|]. cbn [bitfield_parse].
  destruct (SdsArgs.same_case sub (chars "get") && _) eqn:E.
  { apply andb_true_iff in E as [Eg%SdsArgs.same_case_word _]; [|done]. destruct args as [|ty [|off args]]; [done|done|].
    destruct (getBitfieldTypeFromArgument ty) as [[sign n]|] eqn:Et; [|done]. destruct (getBitOffsetFromArgument _ _ off true n) as [o|] eqn:Eo; [|done].
    intros H. apply IH in H as (subs & Hs & Ha); [|simpl; lia]. destruct (place_read sign n off o (type_argument _ _ _ Et) Eo) as (p & -> & Hp).
    exists (Get sign n p :: subs). split; [|by constructor]. constructor; [done|by apply type_read|done]. }
  destruct ((_ || _) && _) eqn:E'.
  { apply andb_true_iff in E' as [Ew _]. destruct args as [|ty [|off [|val args]]]; [done|done|done|].
    destruct (getBitfieldTypeFromArgument ty) as [[sign n]|] eqn:Et; [|done]. destruct (getBitOffsetFromArgument _ _ off true n) as [o|] eqn:Eo; [|done].
    destruct (string2ll val) as [v|] eqn:Ev; [|done]. apply string2ll_spec in Ev as [Hv ->]. intros H. apply IH in H as (subs & Hs & Ha); [|simpl; lia].
    destruct (place_read sign n off o (type_argument _ _ _ Et) Eo) as (p & -> & Hp). apply type_read in Et. apply orb_true_iff in Ew as [Ew|Ew]; apply SdsArgs.same_case_word in Ew; try done.
    - exists (Set_ sign n p v :: subs). split; [by constructor|]. constructor; [by split|done].
    - exists (Incrby sign n p v :: subs). split; [by constructor|]. constructor; [by split|done]. }
  destruct (SdsArgs.same_case sub (chars "overflow") && _) eqn:Eo; [|done]. apply andb_true_iff in Eo as [Eo%SdsArgs.same_case_word _]; [|done]. destruct args as [|nm args]; [done|].
  assert (forall ow', SdsArgs.same_case nm (mode_word ow') = true -> forall ow, bitfield_parse proto_max_bulk_len obey args ow ops ro hi = inr r ->
    exists subs, script (sub :: nm :: args) subs /\ Forall accepted subs) as Hmode.
  { intros ow' Em ow1 H. apply IH in H as (subs & Hs & Ha); [|simpl; lia]. exists (Overflow ow' :: subs). split; [|by constructor]. constructor; [done| |done]. apply SdsArgs.same_case_word; [by destruct ow'|done]. }
  destruct (SdsArgs.same_case nm (chars "wrap")) eqn:E1; [by apply (Hmode BFOVERFLOW_WRAP)|]. destruct (SdsArgs.same_case nm (chars "sat")) eqn:E2; [by apply (Hmode BFOVERFLOW_SAT)|].
  destruct (SdsArgs.same_case nm (chars "fail")) eqn:E3; [by apply (Hmode BFOVERFLOW_FAIL)|done].
Qed.

(** The operations are well formed, and the last bit is beyond every write. *)
Lemma operations_ok subs ow : Forall accepted subs -> Forall in_range subs -> Forall op_ok (operations ow subs) /\
  Forall (fun op => writes op -> bf_offset op + bf_bits op - 1 <= last_bit subs) (operations ow subs) /\ (only_reads subs = true -> Forall (fun op => ~ writes op) (operations ow subs)) /\ 0 <= last_bit subs.
Proof using.
  intros Ha. revert ow. induction Ha as [|c subs Hc _ IH]; intros ow Hr; [by repeat split|]. apply Forall_cons_1 in Hr as [Hr1 Hr].
  assert (forall m m' l, m <= m' -> Forall (fun op => writes op -> bf_offset op + bf_bits op - 1 <= m) l -> Forall (fun op => writes op -> bf_offset op + bf_bits op - 1 <= m') l) as Hle.
  { intros m m' l Hm Hl. eapply Forall_impl; [exact Hl|]. intros op Hop Hw. specialize (Hop Hw). lia. }
  assert (forall c', op_ok c' -> (writes c' -> bf_offset c' + bf_bits c' - 1 <= last_bit (c :: subs)) -> last_bit subs <= last_bit (c :: subs) ->
    (only_reads (c :: subs) = true -> ~ writes c' /\ only_reads subs = true) ->
    Forall op_ok (c' :: operations ow subs) /\ Forall (fun op => writes op -> bf_offset op + bf_bits op - 1 <= last_bit (c :: subs)) (c' :: operations ow subs) /\
    (only_reads (c :: subs) = true -> Forall (fun op => ~ writes op) (c' :: operations ow subs)) /\ 0 <= last_bit (c :: subs)) as Hcons.
  { intros c' K1 K2 K3 K4. destruct (IH ow Hr) as (H1 & H2 & H3 & H4). split; [by constructor|]. split; [constructor; [done|by eapply Hle]|]. split; [|lia].
    intros [Hn Ho]%K4. constructor; [done|by apply H3]. }
  destruct c as [ow'|sign n p|sign n p v|sign n p v]; [by apply IH|..]; cbn [operations accepted in_range] in *; apply Hcons; unfold last_bit; cbn [foldr only_reads forallb]; cbn [bf_offset bf_bits]; try done; try lia.
  - split; cbn; [lia|by destruct Hc|unfold in_s; lia].
  - intros Ho. split; [by intros []|done].
  - destruct Hc as [[Hc _] Hv]. split; cbn; [lia|done|done].
  - destruct Hc as [[Hc _] Hv]. split; cbn; [lia|done|done].
Qed.

End Parse.

(** ** The commands *)

Definition grown (s : list Z) (maxbit : Z) : list Z := s ++ replicate (S (Z.to_nat (Z.shiftr maxbit 3)) - length s) 0.

Lemma lookup_grown d key maxbit : d !! key <> Some VOther -> exists dirty,
  lookupStringForBitCommand d key maxbit = Some (<[key := VString (StrObj.BRaw (grown (source d key) maxbit))]> d, grown (source d key) maxbit, dirty).
Proof.
  intros H. unfold lookupStringForBitCommand, source, grown. destruct (d !! key) as [[b|]|]; [by eexists|done|]. cbn [length app]. rewrite Nat.sub_0_r. by eexists.
Qed.

Lemma grown_bytes s maxbit : bytes s -> bytes (grown s maxbit).
Proof. intros H. apply Forall_app. split; [done|]. by apply Forall_replicate. Qed.

Lemma grown_length s maxbit : 0 <= maxbit -> maxbit < 8 * Z.of_nat (length (grown s maxbit)).
Proof. intros H. unfold grown. rewrite length_app, length_replicate, Z.shiftr_div_pow2 by lia. change (2 ^ 3) with 8. zdiv. Qed.

Lemma nth_zeroes n k : nth k (bits (replicate n 0)) false = false.
Proof.
  revert k. induction n as [|n IH]; intros k; [by destruct k|]. cbn [replicate]. rewrite bits_cons. do 8 (destruct k as [|k]; [done|]). apply IH.
Qed.

(** C24: BITFIELD, on arguments that spell any list of subcommands (words in any case,
    types [i<n>] of 1 to 64 bits and [u<n>] of 1 to 63, offsets or [#] numbers of fields),
    executes them as operations on the bits of the string: a field is read as an integer,
    zeroes beyond the end; the integer written is the one asked for, wrapped, saturated
    or refused, by the last OVERFLOW before it, when it is out of the range of the field;
    other bits are untouched, and the replies are the integers or null.  The string is
    grown once for all the writes; reads alone leave the database as it is.  Two conditions:
    the bit offset of each field is below 2^63, and no SET of [i<n>], n < 64, under SAT has
    a value of at most 2^(n-1) - 1 - 2^63 ([bitfield_faults] says what happens there).
    Arguments that spell no such list, or a field or number out of bounds, get an error
    and change nothing. *)
Theorem bitfield_correct proto_max_bulk_len obey garbage d name key args : d !! key <> Some VOther -> bytes (source d key) ->
  (forall subs, script args subs -> Forall (accepted proto_max_bulk_len obey) subs -> Forall in_range subs ->
    let ops := operations BFOVERFLOW_WRAP subs in Forall no_fault ops ->
    (only_reads subs = true -> forall ro, bitfieldGeneric proto_max_bulk_len obey garbage ro (name :: key :: args) d = Ret (d, inr (snd (spec_ops ops (bits (source d key)))), 0)) /\
    (only_reads subs = false -> exists s rs n,
       bitfieldGeneric proto_max_bulk_len obey garbage false (name :: key :: args) d = Ret (<[key := VString (StrObj.BRaw s)]> d, inr rs, n) /\
       (bits s, rs) = spec_ops ops (bits (grown (source d key) (last_bit subs))) /\ bytes s)) /\
  ((forall subs, script args subs -> ~ Forall (accepted proto_max_bulk_len obey) subs) -> forall ro, exists e,
    bitfieldGeneric proto_max_bulk_len obey garbage ro (name :: key :: args) d = Ret (d, inl e, 0)).
Proof.
  intros Hk Hb. unfold bitfieldGeneric. cbn [arg lookup list_lookup obind drop]. rewrite drop_0. split.
  2:{ intros Hno ro. destruct (bitfield_parse _ _ _ _ _ _ _) as [e|r] eqn:E; [by exists e|]. destruct (parse_read _ _ _ _ _ _ _ _ E) as (subs & Hs & Ha). by destruct (Hno subs Hs). }
  intros subs Hs Ha Hr Hnf. set (ops := operations BFOVERFLOW_WRAP subs) in *. destruct (operations_ok _ _ subs BFOVERFLOW_WRAP Ha Hr) as (Hok & Hw & Hro & Hhi).
  rewrite (parse_written _ _ args subs Hs Ha Hr BFOVERFLOW_WRAP [] true 0) by done. cbn [app andb]. rewrite Z.max_r by done. fold ops. fold ops in Hok, Hw, Hro. split; intros E; rewrite E.
  - intros ro. assert (match d !! key with Some (VString b) => text b | _ => [] end = source d key) as Es by done. specialize (Hro E).
    destruct (exec_ops_spec garbage ops false (source d key) Hok Hnf Hb) as (s & rs & n & E' & _ & Er & _).
    { eapply Forall_impl; [exact Hro|]. intros op H1 H2. by destruct (H1 H2). }
    rewrite <- Er. destruct (d !! key) as [[b|]|]; [|done|]; rewrite Es, E'; done.
  - destruct (lookup_grown d key (last_bit subs) Hk) as (dirty & ->).
    destruct (exec_ops_spec garbage ops dirty (grown (source d key) (last_bit subs)) Hok Hnf (grown_bytes _ _ Hb)) as (s & rs & n & -> & Hbs & Er & _).
    { eapply Forall_impl; [exact Hw|]. intros op H1 H2. specialize (H1 H2). pose proof (grown_length (source d key) (last_bit subs) Hhi). lia. }
    cbn [obind fst snd]. exists s, rs, n. split; [by rewrite insert_insert_eq|done].
Qed.

Definition field_args : list (list Z) := [chars "OVERFLOW"; chars "Sat"; chars "INCRBY"; chars "i5"; chars "3"; chars "-100"; chars "get"; chars "u4"; chars "#1"].
Definition field_subs : list subcommand := [Overflow BFOVERFLOW_SAT; Incrby true 5 (At 3) (-100); Get false 4 (Nth 1)].

Lemma field_script : script field_args field_subs.
Proof.
  change field_args with [chars "OVERFLOW"; chars "Sat"; chars "INCRBY"; chars "i5"; place_text (At 3); repr (-100); chars "get"; chars "u4"; place_text (Nth 1)].
  repeat (apply script_overflow || apply script_incrby || apply script_get || apply script_nil); try (apply SdsArgs.same_case_word; reflexivity); exists []; by split; [|left].
Qed.

Lemma bitfield_correct_witness : exists s rs n,
  bitfieldGeneric 512 false 0 false (chars "BITFIELD" :: chars "k" :: field_args) sample_db = Ret (<[chars "k" := VString (StrObj.BRaw s)]> sample_db, inr rs, n) /\
  (bits s, rs) = spec_ops (operations BFOVERFLOW_WRAP field_subs) (bits (grown (source sample_db (chars "k")) 7)) /\ bytes s.
Proof.
  eapply (proj1 (bitfield_correct 512 false 0 sample_db (chars "BITFIELD") (chars "k") field_args ltac:(by vm_compute) ltac:(by repeat (constructor; [done|]))) field_subs); [exact field_script| | | |reflexivity].
  - repeat constructor; try (by vm_compute); right; by vm_compute.
  - by repeat constructor.
  - repeat constructor; intros _; done.
Defined.

(** The bits of the database are those of well formed objects. *)
Definition body_ok (b : StrObj.body) : Prop := match b with StrObj.BInt v => in_s 64 v | _ => True end.
Definition offset_ok (proto_max_bulk_len : Z) (obey : bool) (off : Z) : Prop := 0 <= off < 2 ^ 63 /\ (obey = true \/ Z.shiftr off 3 < proto_max_bulk_len).

Lemma plain_offset pm obey off : offset_ok pm obey off -> getBitOffsetFromArgument pm obey (repr off) false 0 = Some off.
Proof.
  intros [Ho Hl]. unfold getBitOffsetFromArgument. rewrite andb_false_r. cbn [andb]. rewrite string2ll_repr by (unfold in_s; lia). rewrite (proj2 (Z.ltb_ge off 0)) by lia. cbn [orb].
  destruct Hl as [->|Hl]; [done|]. rewrite (proj2 (Z.leb_gt _ _) Hl). by rewrite andb_false_r.
Qed.

Lemma test_land c k : 0 <= k -> (if Z.land c (Z.shiftl 1 k) =? 0 then 0 else 1) = b2z (Z.testbit c k).
Proof. intros Hk. rewrite Z.shiftl_1_l, Z.land_comm. rewrite <- (land_pow2 k c) by done. by destruct (_ =? 0). Qed.

Lemma getbit_spec pm obey d name key off : d !! key <> Some VOther -> (forall b, d !! key = Some (VString b) -> body_ok b) -> offset_ok pm obey off ->
  getbitCommand pm obey [name; key; repr off] d = Ret (RInt (b2z (nth (Z.to_nat off) (bits (source d key)) false))).
Proof.
  intros Hk Hok Ho. unfold getbitCommand. cbn [arg lookup list_lookup obind]. rewrite plain_offset by done. destruct Ho as [Ho _]. unfold source.
  destruct (d !! key) as [[b|]|] eqn:Ek; [|done|by rewrite nth_overflow by (simpl; lia)].
  assert (match b with StrObj.BInt v => StrObj.printed 32 v | _ => text b end = text b) as ->.
  { destruct b as [| |v]; try done. specialize (Hok _ eq_refl). cbn in Hok. unfold text. rewrite !StrObj.printed_repr by (done || unfold LONG_STR_SIZE; lia). done. }
  destruct (Z.ltb_spec (Z.shiftr off 3) (Z.of_nat (length (text b)))) as [Hlt|Hge].
  - rewrite Z.shiftr_div_pow2 in Hlt by lia. change (2 ^ 3) with 8 in Hlt. destruct (bit_at (text b) off ltac:(zdiv)) as (x & -> & _ & <-). cbn [obind]. do 2 f_equal.
    apply test_land. destruct (offset_split off ltac:(lia)) as (_ & -> & _). zdiv.
  - rewrite nth_overflow; [done|]. rewrite length_bits. rewrite Z.shiftr_div_pow2 in Hge by lia. change (2 ^ 3) with 8 in Hge. zdiv.
Qed.

Lemma setbit_spec pm obey d name key off b : d !! key <> Some VOther -> bytes (source d key) -> offset_ok pm obey off -> exists s n,
  setbitCommand pm obey [name; key; repr off; repr (b2z b)] d = Ret (<[key := VString (StrObj.BRaw s)]> d, RInt (b2z (nth (Z.to_nat off) (bits (source d key)) false)), n) /\
  bytes s /\ bits s = <[Z.to_nat off := b]> (bits (grown (source d key) off)).
Proof.
  intros Hk Hb Ho. unfold setbitCommand. cbn [arg lookup list_lookup obind]. rewrite plain_offset by done. rewrite string2ll_repr by (destruct b; done).
  replace (negb _) with false by (by destruct b). destruct Ho as [Ho _]. destruct (lookup_grown d key off Hk) as (dirty & ->).
  set (s := grown (source d key) off). pose proof (grown_bytes _ off Hb : bytes s) as Hs. pose proof (grown_length (source d key) off ltac:(lia)) as Hl. fold s in Hl.
  destruct (bit_at s off ltac:(lia)) as (x & -> & Hx & Ex). cbn [obind]. destruct (offset_split off ltac:(lia)) as (E1 & E2 & E3).
  rewrite test_land by (rewrite E2; zdiv). rewrite Ex.
  assert (nth (Z.to_nat off) (bits (source d key)) false = nth (Z.to_nat off) (bits s) false) as ->.
  { unfold s, grown. rewrite bits_app. destruct (decide (Z.to_nat off < length (bits (source d key)))%nat) as [Hi|Hi]; [by rewrite app_nth1|]. rewrite app_nth2 by lia. rewrite nth_overflow by lia.
    symmetry. apply nth_zeroes. }
  set (old := nth (Z.to_nat off) (bits s) false). rewrite E2. assert (Z.land (b2z b) 1 = b2z b) as -> by (by destruct b).
  destruct (byte_set x (off mod 8) b (byte_of s _ x Hs Hx) ltac:(zdiv)) as [Hy Ey]. set (y := Z.land (Z.lor _ _) 255) in *.
  assert (bits (<[Z.to_nat (off / 8) := y]> s) = <[Z.to_nat off := b]> (bits s)) as Eb by (rewrite E3; apply (bits_insert s _ x); [done|zdiv|done]).
  rewrite E1. destruct (dirty || _) eqn:Ed.
  - eexists _, _. split; [by rewrite insert_insert_eq|]. split; [by apply Forall_insert|done].
  - apply orb_false_iff in Ed as [_ Ed]. assert (old = b) as <- by (destruct old, b; done). exists s, 0. split; [done|]. split; [done|]. symmetry. apply list_insert_id.
    assert (Z.to_nat off < length (bits s))%nat as Hlt by (rewrite length_bits; lia). destruct (lookup_lt_is_Some_2 _ _ Hlt) as [v Hv]. unfold old. by rewrite nth_lookup, Hv.
Qed.

(** SETBIT replies the bit it replaces, and afterwards GETBIT replies the new bit
    at that offset and the same bits as before at every other one. *)
Theorem setbit_getbit pm obey d name key off b off' : d !! key <> Some VOther -> (forall b, d !! key = Some (VString b) -> body_ok b) -> bytes (source d key) ->
  offset_ok pm obey off -> offset_ok pm obey off' -> exists d' old n,
  getbitCommand pm obey [name; key; repr off] d = Ret (RInt old) /\
  setbitCommand pm obey [name; key; repr off; repr (b2z b)] d = Ret (d', RInt old, n) /\
  getbitCommand pm obey [name; key; repr off'] d' = (if off' =? off then Ret (RInt (b2z b)) else getbitCommand pm obey [name; key; repr off'] d).
Proof.
  intros Hk Hok Hb Ho Ho'. destruct (setbit_spec pm obey d name key off b Hk Hb Ho) as (s & n & -> & Hs & Es). eexists _, _, _. rewrite getbit_spec by done. split; [done|]. split; [done|].
  rewrite getbit_spec; [|by rewrite lookup_insert_eq|intros b'; rewrite lookup_insert_eq; by intros [= <-]|done].
  assert (source (<[key:=VString (StrObj.BRaw s)]> d) key = s) as -> by (unfold source; by rewrite lookup_insert_eq). rewrite Es, getbit_spec by done.
  destruct Ho as [Ho _], Ho' as [Ho' _]. pose proof (grown_length (source d key) off ltac:(lia)) as Hl. rewrite nth_lookup. destruct (Z.eqb_spec off' off) as [->|Hne].
  - rewrite list_lookup_insert_eq by (rewrite length_bits; lia). done.
  - rewrite list_lookup_insert_ne by lia. rewrite <- nth_lookup. do 3 f_equal. unfold grown. rewrite bits_app. destruct (decide (Z.to_nat off' < length (bits (source d key)))%nat) as [Hi|Hi]; [by rewrite app_nth1|].
    rewrite app_nth2 by lia. rewrite (nth_overflow (bits (source d key))) by lia. apply nth_zeroes.
Qed.

Lemma setbit_getbit_witness : exists d' old n,
  getbitCommand 512 false [chars "x"; chars "k"; repr 3] sample_db = Ret (RInt old) /\
  setbitCommand 512 false [chars "x"; chars "k"; repr 3; repr (b2z false)] sample_db = Ret (d', RInt old, n) /\
  getbitCommand 512 false [chars "x"; chars "k"; repr 7] d' = (if 7 =? 3 then Ret (RInt (b2z false)) else getbitCommand 512 false [chars "x"; chars "k"; repr 7] sample_db).
Proof.
  apply (setbit_getbit 512 false sample_db (chars "x") (chars "k") 3 false 7).
  - by vm_compute.
  - intros b H. change (Some (VString (StrObj.BRaw [240; 15; 255; 255; 0; 1])) = Some (VString b)) in H. by injection H as <-.
  - by repeat (constructor; [done|]).
  - split; [lia|right; by vm_compute].
  - split; [lia|right; by vm_compute].
Defined.




End BitfieldSpec.
