(* ===== verification/LpBulk.v ===== *)
(** * LpBulk: searching, bulk edits and sampling of listpacks (listpack.c)

    [lpFind] with its callback, the insertion of several elements, the deletion of
    ranges and of given elements, the merge of two listpacks, and the random samplers.
    [rand()] is a sequence of numbers, an argument; what is left of it is returned. *)
From stdpp Require Import sorting.
From S2P Require Import Prelude NumStr LpEntry Listpack.

Module LpBulk.
Import NumStr LpEntry Listpack.

Definition UINT16_MAX : Z := 65535.

(** ** Searching *)

(** The search of [lpFindCb]; the callback gets the value and answers whether it
    matches, with the state it leaves in [user]. *)
Fixpoint lpFindCb_loop {U} (cmp : U -> lpval -> U * bool) (fuel : nat) (lp : list Z) (lp_bytes skip : Z)
    (p : nat) (skipcnt entry_size : Z) (user : U) : outcome (option nat) :=
  match fuel with
  | O => Abort
  | S fuel =>
      let* r :=
        if skipcnt =? 0 then
          let '(value, entry_size) := lpGetWithSize lp p entry_size in
          if match value with
             | VStr _ _ => negb ((LP_HDR_SIZE <=? p)%nat && (Z.of_nat p + entry_size <? lp_bytes))
             | VInt _ => false
             end
          then Abort
          else
            let '(user, equal) := cmp user value in
            if equal then Ret None else Ret (Some ((p + Z.to_nat entry_size)%nat, skip, entry_size, user))
        else Ret (Some (lpSkip lp p, skipcnt - 1, entry_size, user)) in
      match r with
      | None => Ret (Some p)
      | Some (p, skipcnt, entry_size, user) =>
          if negb (if lp_bytes <=? Z.of_nat p + 8 then lpAssertValidEntry lp lp_bytes p
                   else (LP_HDR_SIZE <=? p)%nat && (Z.of_nat p <? lp_bytes))
          then Abort
          else if at_ lp p =? LP_EOF then Ret None
          else lpFindCb_loop cmp fuel lp lp_bytes skip p skipcnt entry_size user
      end
  end.

Definition lpFindCb {U} (cmp : U -> lpval -> U * bool) (lp : list Z) (p : option nat) (user : U) (skip : Z) : outcome (option nat) :=
  let* p := match p with Some p => Ret (Some p) | None => lpFirst lp end in
  match p with
  | None => Ret None
  | Some p => lpFindCb_loop cmp (length lp) lp (lpBytes lp) skip p 0 123456789 user
  end.

(** [vencoding]: not tried yet, not an integer ([UCHAR_MAX]), or an integer. *)
Inductive vencoding := Untried | NoInt | AnInt (vll : Z).
Record lpFindArg := FindArg { fa_s : list Z; fa_venc : vencoding }.

Definition lpFindCmp (lp : list Z) (arg : lpFindArg) (value : lpval) : lpFindArg * bool :=
  match value with
  | VStr off len => (arg, (len =? Z.of_nat (length (fa_s arg))) && bool_decide (load lp off (length (fa_s arg)) = fa_s arg))
  | VInt ll =>
      let slen := Z.of_nat (length (fa_s arg)) in
      let venc := match fa_venc arg with
                  | Untried =>
                      if (32 <=? slen) || (slen =? 0) then NoInt
                      else match lpStringToInt64 (fa_s arg) with None => NoInt | Some vll => AnInt vll end
                  | v => v
                  end in
      (FindArg (fa_s arg) venc, match venc with AnInt vll => ll =? vll | _ => false end)
  end.

Definition lpFind (lp : list Z) (p : option nat) (s : list Z) (skip : Z) : outcome (option nat) :=
  lpFindCb (lpFindCmp lp) lp p (FindArg s Untried) skip.

(** What a caller of [lpGetValue] gets: the string, or the integer. *)
Inductive listpackEntry := SVal (s : list Z) | LVal (v : Z).

Definition lpGetValue (lp : list Z) (p : nat) : listpackEntry :=
  match lpGet lp p with VStr off len => SVal (load lp off (Z.to_nat len)) | VInt v => LVal v end.

Section Alloc.
Context (fresh : nat -> Z) (usable : nat -> nat).

(** ** Insertion of several elements *)

(** The encoded element, [enclen] and the encoded [backlen]. *)
Definition encode_new (e : listpackEntry) : list Z * Z * list Z :=
  let '(payload, enclen) := match e with
                            | SVal s => insert_payload (Some s) None
                            | LVal v => insert_payload None (Some (lpEncodeIntegerGetType v))
                            end in
  (payload, enclen, lpEncodeBacklen enclen).

Fixpoint store_new (lp : list Z) (dst : nat) (newp : option nat) (enc : list (list Z * Z * list Z)) : list Z * option nat :=
  match enc with
  | [] => (lp, newp)
  | (payload, enclen, backlen) :: enc =>
      let lp := store (store lp dst payload) (dst + Z.to_nat enclen) backlen in
      store_new lp (dst + Z.to_nat enclen + length backlen) (Some dst) enc
  end.

(** The new listpack and [*newp], the last element added; [None] is NULL. *)
Definition lpBatchInsert (lp : list Z) (p : nat) (wh : where_) (entries : list listpackEntry) : outcome (option (list Z * option nat)) :=
  if match wh with LP_REPLACE => true | _ => false end || (length entries =? 0)%nat then Abort else
  let* p := match wh with
            | LP_AFTER => let p := lpSkip lp p in if ASSERT_INTEGRITY lp p then Ret p else Abort
            | _ => Ret p
            end in
  let enc := map encode_new entries in
  let addedlen := fold_left (fun n e => n + snd (fst e) + Z.of_nat (length (snd e))) enc 0 in
  let old_listpack_bytes := lpGetTotalBytes lp in
  let new_listpack_bytes := old_listpack_bytes + addedlen in
  if UINT32_MAX <? new_listpack_bytes then Ret None else
  let poff := p in
  let lp := if (old_listpack_bytes <? new_listpack_bytes) && (lp_malloc_size lp <? new_listpack_bytes)
            then lp_realloc fresh usable lp new_listpack_bytes else lp in
  let lp := memmove lp (poff + Z.to_nat addedlen) poff (Z.to_nat (old_listpack_bytes - Z.of_nat poff)) in
  let '(lp, newp) := store_new lp poff None enc in
  let num_elements := lpGetNumElements lp in
  let len := Z.of_nat (length entries) in
  let lp := if num_elements =? LP_HDR_NUMELE_UNKNOWN then lp
            else if LP_HDR_NUMELE_UNKNOWN - num_elements <? len then lpSetNumElements lp LP_HDR_NUMELE_UNKNOWN
            else lpSetNumElements lp (num_elements + len) in
  Ret (Some (lpSetTotalBytes lp new_listpack_bytes, newp)).

Definition lpBatchAppend (lp : list Z) (entries : list listpackEntry) : outcome (option (list Z * option nat)) :=
  lpBatchInsert lp (Z.to_nat (lpGetTotalBytes lp - 1)) LP_BEFORE entries.

(** ** Deletion *)

(** The entry after the last one to delete, and how many are deleted. *)
Fixpoint delete_walk (num : nat) (lp : list Z) (bytes : Z) (tail : nat) (deleted : Z) : outcome (nat * Z) :=
  match num with
  | O => Ret (tail, deleted)
  | S num =>
      let tail := lpSkip lp tail in
      if at_ lp tail =? LP_EOF then Ret (tail, deleted + 1)
      else if lpAssertValidEntry lp bytes tail then delete_walk num lp bytes tail (deleted + 1) else Abort
  end.

(** The listpack and [*p]. *)
Definition lpDeleteRangeWithEntry (lp : list Z) (p : nat) (num : nat) : outcome (list Z * option nat) :=
  let bytes := lpBytes lp in
  let eofptr := bytes - 1 in
  let first := p in
  if (num =? 0)%nat then Ret (lp, Some p) else
  let* (tail, deleted) := delete_walk num lp bytes first 0 in
  let poff := first in
  let lp := memmove lp first tail (Z.to_nat (eofptr - Z.of_nat tail + 1)) in
  let lp := lpSetTotalBytes lp (bytes - (Z.of_nat tail - Z.of_nat first)) in
  let numele := lpGetNumElements lp in
  let lp := if numele =? LP_HDR_NUMELE_UNKNOWN then lp else lpSetNumElements lp (numele - deleted) in
  let lp := lpShrinkToFit fresh usable lp in
  Ret (lp, if at_ lp poff =? LP_EOF then None else Some poff).

Definition lpDeleteRange (lp : list Z) (index : Z) (num : nat) : outcome (list Z) :=
  let numele := lpGetNumElements lp in
  if (num =? 0)%nat then Ret lp else
  let* p := lpSeek lp index in
  match p with
  | None => Ret lp
  | Some p =>
      let known := negb (numele =? LP_HDR_NUMELE_UNKNOWN) in
      let index := if known && (index <? 0) then numele + index else index in
      if known && (u64 (numele - index) <=? Z.of_nat num) then
        let lp := <[p := LP_EOF]> lp in
        let lp := lpSetTotalBytes lp (Z.of_nat p + 1) in
        let lp := lpSetNumElements lp index in
        Ret (lpShrinkToFit fresh usable lp)
      else let* (lp, _) := lpDeleteRangeWithEntry lp p num in Ret lp
  end.

(** The loop over the pointers: [dst] at the end. *)
Fixpoint batch_delete (ps : list nat) (lp : list Z) (lp_end dst : nat) : outcome (list Z * nat) :=
  match ps with
  | [] => Ret (lp, dst)
  | skip :: ps =>
      if at_ lp skip =? LP_EOF then Abort else
      let keep_start := lpSkip lp skip in
      let keep_end := match ps with [] => lp_end | next :: _ => next end in
      if negb (length ps =? 0)%nat && (keep_start =? keep_end)%nat then batch_delete ps lp lp_end dst
      else if (keep_end <=? keep_start)%nat then Abort
      else
        let bytes_to_keep := (keep_end - keep_start)%nat in
        batch_delete ps (memmove lp dst keep_start bytes_to_keep) lp_end (dst + bytes_to_keep)
  end.

Definition lpBatchDelete (lp : list Z) (ps : list nat) : outcome (list Z) :=
  match ps with
  | [] => Ret lp
  | dst :: _ =>
      let total_bytes := lpGetTotalBytes lp in
      let lp_end := Z.to_nat total_bytes in
      if negb (at_ lp (lp_end - 1) =? LP_EOF) then Abort else
      let* (lp, dst) := batch_delete ps lp lp_end dst in
      let deleted_bytes := Z.of_nat lp_end - Z.of_nat dst in
      let total_bytes := total_bytes - deleted_bytes in
      if negb (at_ lp (Z.to_nat total_bytes - 1) =? LP_EOF) then Abort else
      let lp := lpSetTotalBytes lp total_bytes in
      let numele := lpGetNumElements lp in
      let lp := if numele =? LP_HDR_NUMELE_UNKNOWN then lp else lpSetNumElements lp (numele - Z.of_nat (length ps)) in
      Ret (lpShrinkToFit fresh usable lp)
  end.

(** ** Merging *)

(** [None] is NULL; otherwise the merged listpack and whether it took the place of
    the first one.  The arguments are NULL pointers or listpacks; [same] says that
    they are the same pointer. *)
Definition lpMerge (first second : option (list Z)) (same : bool) : outcome (option (list Z * bool)) :=
  match first, second with
  | Some first, Some second =>
      if same then Ret None else
      let first_bytes := lpBytes first in
      let* (first_len, first) := lpLength first in
      let second_bytes := lpBytes second in
      let* (second_len, second) := lpLength second in
      let append := second_bytes <=? first_bytes in
      let '(target, target_bytes, source, source_bytes) :=
        if append then (first, first_bytes, second, second_bytes) else (second, second_bytes, first, first_bytes) in
      let lpbytes := first_bytes + second_bytes - Z.of_nat LP_HDR_SIZE - 1 in
      if UINT32_MAX <=? lpbytes then Abort else
      let lplength := first_len + second_len in
      let lplength := if lplength <? UINT16_MAX then lplength else UINT16_MAX in
      let target := lp_realloc fresh usable target lpbytes in
      let target :=
        if append then store target (Z.to_nat (target_bytes - 1)) (load source LP_HDR_SIZE (Z.to_nat source_bytes - LP_HDR_SIZE))
        else
          let target := memmove target (Z.to_nat (source_bytes - 1)) LP_HDR_SIZE (Z.to_nat target_bytes - LP_HDR_SIZE) in
          store target 0 (load source 0 (Z.to_nat (source_bytes - 1))) in
      let target := lpSetNumElements target lplength in
      Ret (Some (lpSetTotalBytes target lpbytes, append))
  | _, _ => Ret None
  end.

End Alloc.

(** ** Sampling *)

(** The next number of the sequence. *)
Definition rand (rs : list Z) : outcome (Z * list Z) := match rs with r :: rs => Ret (r, rs) | [] => Abort end.

Section Random.
(** [(double)r / RAND_MAX <= (double)remaining / available]. *)
Context (below : Z -> Z -> Z -> bool).

(** [lpLength] gives [total_size]; the pointer and [*index], or NULL. *)
Fixpoint next_random (fuel : nat) (lp : list Z) (p : option nat) (i total_size remaining tuple_len : Z) (rs : list Z) :
    outcome (option (nat * Z) * list Z) :=
  match p with
  | None => Ret (None, rs)
  | Some q =>
      if i <? total_size then
        match fuel with
        | O => Abort
        | S fuel =>
            if negb (i mod tuple_len =? 0) then
              let* p := lpNext lp q in next_random fuel lp p (i + 1) total_size remaining tuple_len rs
            else
              let available := (total_size - i) / tuple_len in
              let* (r, rs) := rand rs in
              if below r remaining available then Ret (Some (q, i), rs)
              else let* p := lpNext lp q in next_random fuel lp p (i + 1) total_size remaining tuple_len rs
        end
      else Ret (None, rs)
  end.

Definition lpNextRandom (lp : list Z) (p : option nat) (index remaining tuple_len : Z) (rs : list Z) :
    outcome (option (nat * Z) * list Z * list Z) :=
  if negb (0 <? tuple_len) then Abort else
  let* (total_size, lp) := lpLength lp in
  let* r := next_random (length lp) lp p index total_size remaining tuple_len rs in
  Ret (r, lp).

(** Keys, with their values when [with_vals]; the sequence and the listpack left. *)
Fixpoint pick_pairs (fuel : nat) (lp : list Z) (p : option nat) (index remaining tuple_len : Z) (with_vals : bool) (rs : list Z) :
    outcome (list (listpackEntry * option listpackEntry) * list Z * list Z) :=
  match fuel, p with
  | O, _ | _, None => Ret ([], rs, lp)
  | S fuel, Some _ =>
      let* (r, lp) := lpNextRandom lp p index remaining tuple_len rs in
      let '(r, rs) := r in
      match r with
      | None => Abort
      | Some (p, index) =>
          let key := lpGetValue lp p in
          let* p := lpNext lp p in
          match p with
          | None => Abort
          | Some p =>
              let val := if with_vals then Some (lpGetValue lp p) else None in
              let* p := lpNext lp p in
              let* (r, lp) := pick_pairs fuel lp p (index + 2) (remaining - 1) tuple_len with_vals rs in
              let '(l, rs) := r in
              Ret ((key, val) :: l, rs, lp)
          end
      end
  end.

Definition lpRandomPairsUnique (lp : list Z) (count tuple_len : Z) (with_vals : bool) (rs : list Z) :
    outcome (list (listpackEntry * option listpackEntry) * list Z * list Z) :=
  if negb (2 <=? tuple_len) then Abort else
  let* (len, lp) := lpLength lp in
  let total_size := len / tuple_len in
  let count := if total_size <? count then total_size else count in
  let* p := lpFirst lp in
  pick_pairs (Z.to_nat count) lp p 0 count tuple_len with_vals rs.
End Random.

(** A pair at random; [total_count] is the number of pairs. *)
Definition lpRandomPair (lp : list Z) (total_count tuple_len : Z) (with_val : bool) (rs : list Z) :
    outcome (listpackEntry * option listpackEntry * list Z) :=
  if negb (2 <=? tuple_len) || (total_count =? 0) then Abort else
  let* (r, rs) := rand rs in
  let* p := lpSeek lp (s32 (r mod total_count * tuple_len)) in
  match p with
  | None => Abort
  | Some p =>
      let key := lpGetValue lp p in
      if negb with_val then Ret (key, None, rs) else
      let* p := lpNext lp p in
      match p with None => Abort | Some p => Ret (key, Some (lpGetValue lp p), rs) end
  end.

(** The [count] picks: the index of each and its order. *)
Fixpoint draw (count : nat) (order : nat) (pick : Z -> Z) (rs : list Z) : outcome (list (Z * nat) * list Z) :=
  match count with
  | O => Ret ([], rs)
  | S count =>
      let* (r, rs) := rand rs in
      let* (l, rs) := draw count (S order) pick rs in
      Ret ((pick r, order) :: l, rs)
  end.

Definition by_index (a b : Z * nat) : Prop := fst a <= fst b.
#[local] Instance by_index_dec a b : Decision (by_index a b).
Proof. unfold by_index. apply _. Defined.

(** [qsort] of the picks by index. *)
Definition sort_picks (picks : list (Z * nat)) : list (Z * nat) := merge_sort by_index picks.

(** [while (j < index) p = lpNext(lp, p)], [n] times. *)
Fixpoint advance (n : nat) (lp : list Z) (p : option nat) : outcome (option nat) :=
  match n with
  | O => Ret p
  | S n => match p with None => Abort | Some p => let* p := lpNext lp p in advance n lp p end
  end.

Fixpoint fetch_entries (picks : list (Z * nat)) (lp : list Z) (p : option nat) (j : Z) (entries : list listpackEntry) : outcome (list listpackEntry) :=
  match picks with
  | [] => Ret entries
  | (index, order) :: picks =>
      let* p := advance (Z.to_nat (index - j)) lp p in
      match p with
      | None => Abort
      | Some q => fetch_entries picks lp p (Z.max j index) (<[order := lpGetValue lp q]> entries)
      end
  end.

(** [entries] is the caller's array, of [count] cells. *)
Definition lpRandomEntries (lp : list Z) (entries : list listpackEntry) (rs : list Z) : outcome (list listpackEntry * list Z * list Z) :=
  let* (total_size, lp) := lpLength lp in
  if total_size =? 0 then Abort else
  let* (picks, rs) := draw (length entries) 0 (fun r => r mod total_size) rs in
  let* p := lpFirst lp in
  let* entries := fetch_entries (sort_picks picks) lp p 0 entries in
  Ret (entries, rs, lp).

(** Stores the pair for the picks of its index; the picks left. *)
Fixpoint save_pair (picks : list (Z * nat)) (lpindex : Z) (key value : listpackEntry) (keys vals : list listpackEntry) :
    list (Z * nat) * list listpackEntry * list listpackEntry :=
  match picks with
  | (index, order) :: picks' =>
      if lpindex =? index then save_pair picks' lpindex key value (<[order := key]> keys) (<[order := value]> vals) else (picks, keys, vals)
  | [] => (picks, keys, vals)
  end.

Fixpoint fetch_pairs (fuel : nat) (picks : list (Z * nat)) (lp : list Z) (p : option nat) (lpindex tuple_len : Z) (keys vals : list listpackEntry) :
    outcome (list listpackEntry * list listpackEntry) :=
  match p, picks with
  | None, _ | _, [] => Ret (keys, vals)
  | Some q, _ =>
      match fuel with
      | O => Abort
      | S fuel =>
          let key := lpGetValue lp q in
          let* p := lpNext lp q in
          match p with
          | None => Abort
          | Some q =>
              let value := lpGetValue lp q in
              let '(picks, keys, vals) := save_pair picks lpindex key value keys vals in
              let* p := advance (Z.to_nat (tuple_len - 1)) lp p in
              fetch_pairs fuel picks lp p (lpindex + tuple_len) tuple_len keys vals
          end
      end
  end.

(** [keys] and [vals] are the caller's arrays; the code reads the first pick. *)
Definition lpRandomPairs (lp : list Z) (tuple_len : Z) (keys vals : list listpackEntry) (rs : list Z) :
    outcome (list listpackEntry * list listpackEntry * list Z * list Z) :=
  if negb (2 <=? tuple_len) then Abort else
  let* (len, lp) := lpLength lp in
  let total_size := len / tuple_len in
  if total_size =? 0 then Abort else
  let* (picks, rs) := draw (length keys) 0 (fun r => r mod total_size * tuple_len) rs in
  let picks := sort_picks picks in
  match picks with
  | [] => Abort
  | (lpindex, _) :: _ =>
      let* p := lpSeek lp lpindex in
      let* kv := fetch_pairs (length lp) picks lp p lpindex tuple_len keys vals in
      Ret (kv, rs, lp)
  end.

(** ** Searching *)

Definition elem_matches (e : elem) (s : list Z) : bool :=
  match e with EStr t => bool_decide (t = s) | EInt v => bool_decide (string2ll s = Some v) end.

(** The index of the first match among the elements that are looked at: [k] are skipped
    first, then [skip] between two. *)
Fixpoint find_from (skip k : nat) (es : list elem) (s : list Z) : option nat :=
  match es with
  | [] => None
  | e :: es =>
      match k with
      | S k => S <$> find_from skip k es s
      | O => if elem_matches e s then Some 0%nat else S <$> find_from skip skip es s
      end
  end.

Definition venc_ok (s : list Z) (v : vencoding) : Prop :=
  match v with Untried => True | NoInt => string2ll s = None | AnInt vll => string2ll s = Some vll end.

Lemma string2ll_long s : 32 <= Z.of_nat (length s) \/ length s = 0%nat -> string2ll s = None.
Proof.
  intros H. rewrite string2ll_alt. unfold LONG_STR_SIZE.
  destruct (Z.eqb_spec (Z.of_nat (length s)) 0), (Z.leb_spec 21 (Z.of_nat (length s))); cbn [orb]; done || lia.
Qed.

Lemma findCmp_spec lp p e arg : elem_ok e -> has lp p (encode_elem e) -> venc_ok (fa_s arg) (fa_venc arg) ->
  exists arg', lpFindCmp lp arg (elem_val e p) = (arg', elem_matches e (fa_s arg)) /\ fa_s arg' = fa_s arg /\ venc_ok (fa_s arg) (fa_venc arg').
Proof.
  intros He Hh Hv. destruct e as [v|t]; cbn [elem_val lpFindCmp elem_matches].
  - eexists. split; [f_equal|split; [done|]].
    + rewrite lpStringToInt64_string2ll. destruct (fa_venc arg) as [| |vll]; cbn [venc_ok] in Hv.
      * destruct ((32 <=? Z.of_nat (length (fa_s arg))) || (Z.of_nat (length (fa_s arg)) =? 0)) eqn:E.
        -- rewrite string2ll_long by (apply orb_true_iff in E as [E|E]; zbool; lia). by case_bool_decide.
        -- destruct (string2ll (fa_s arg)) as [x|]; case_bool_decide as Hx; try done; [apply Z.eqb_eq|apply Z.eqb_neq]; congruence.
      * rewrite Hv. by case_bool_decide.
      * rewrite Hv. case_bool_decide as Hx; [apply Z.eqb_eq|apply Z.eqb_neq]; congruence.
    + cbn [fa_venc]. rewrite lpStringToInt64_string2ll. destruct (fa_venc arg); cbn [venc_ok] in *; try done.
      destruct (_ || _) eqn:E; cbn [venc_ok]; [apply string2ll_long; apply orb_true_iff in E as [E|E]; zbool; lia|]. destruct (string2ll (fa_s arg)) eqn:Es; exact Es.
  - exists arg. split; [|done]. f_equal. cbn [encode_elem] in Hh.
    destruct (lpEncodeString_split t) as (hdr & E & Hl). rewrite E in Hh. apply has_app in Hh as [_ Hh]. rewrite Hl in Hh. unfold has in Hh.
    destruct (Z.eqb_spec (Z.of_nat (length t)) (Z.of_nat (length (fa_s arg)))) as [El|Hne]; cbn [andb].
    + replace (length (fa_s arg)) with (length t) by lia. by rewrite Hh.
    + symmetry. apply bool_decide_eq_false. intros ->. done.
Qed.

Section Find.
Context (lp : list Z) (es : list elem) (nf : Z) (slack : list Z).
Context (R : listpack_at lp es nf slack).

Lemma getWithSize_spec es1 e es2 z : es = es1 ++ e :: es2 -> lpGetWithSize lp (pos es1) z = (elem_val e (pos es1), Z.of_nat (length (entry e))).
Proof using R.
  intros E. destruct (entry_facts lp es nf slack R es1 e es2 E) as ((D & _) & Hsz & _). by rewrite D, Hsz.
Qed.

(** Whatever place the walk reaches passes the check of [lpFindCb]. *)
Lemma find_guard es1 es2 : es = es1 ++ es2 ->
  (if total es <=? Z.of_nat (pos es1) + 8 then lpAssertValidEntry lp (total es) (pos es1)
   else (LP_HDR_SIZE <=? pos es1)%nat && (Z.of_nat (pos es1) <? total es)) = true.
Proof using R.
  intros E. destruct (_ <=? _); [by eapply assert_valid|]. rewrite E. unfold total. rewrite pos_app. unfold pos. apply andb_true_intro. split; [apply Nat.leb_le|apply Z.ltb_lt]; lia.
Qed.

Lemma at_end_test es1 es2 : es = es1 ++ es2 -> (at_ lp (pos es1) =? LP_EOF) = match es2 with [] => true | _ => false end.
Proof using R.
  intros E. destruct es2 as [|e es2].
  - rewrite app_nil_r in E. subst es1. by rewrite (at_eof lp es nf slack R).
  - apply Z.eqb_neq. by apply (at_start lp es nf slack R es1 e es2).
Qed.

Lemma lpFindCb_loop_spec s (skip : nat) fuel es1 es2 (k : nat) z arg : es = es1 ++ es2 -> es2 <> [] -> (length es2 <= fuel)%nat -> fa_s arg = s -> venc_ok s (fa_venc arg) ->
  lpFindCb_loop (lpFindCmp lp) fuel lp (total es) (Z.of_nat skip) (pos es1) (Z.of_nat k) z arg
  = Ret ((fun i => pos (es1 ++ take i es2)) <$> find_from skip k es2 s).
Proof using R.
  revert es1 es2 k z arg. induction fuel as [|fuel IH]; intros es1 es2 k z arg E Hne Hf Hs Hv; [destruct es2; [done|simpl in Hf; lia]|].
  destruct es2 as [|e es2]; [done|]. cbn [length] in Hf. cbn [lpFindCb_loop find_from].
  assert (es = (es1 ++ [e]) ++ es2) as E' by (by rewrite <- app_assoc).
  assert (forall k' z' arg', fa_s arg' = s -> venc_ok s (fa_venc arg') ->
    (if negb (if total es <=? Z.of_nat (pos (es1 ++ [e])) + 8 then lpAssertValidEntry lp (total es) (pos (es1 ++ [e]))
              else (LP_HDR_SIZE <=? pos (es1 ++ [e]))%nat && (Z.of_nat (pos (es1 ++ [e])) <? total es))
     then Abort
     else if at_ lp (pos (es1 ++ [e])) =? LP_EOF then Ret None
     else lpFindCb_loop (lpFindCmp lp) fuel lp (total es) (Z.of_nat skip) (pos (es1 ++ [e])) (Z.of_nat k') z' arg')
    = Ret ((fun i => pos (es1 ++ take i (e :: es2))) <$> (S <$> find_from skip k' es2 s))) as Hnext.
  { intros k' z' arg' Hs' Hv'. rewrite (find_guard _ _ E'), (at_end_test _ _ E'). cbn [negb]. destruct es2 as [|e' es2]; [done|].
    rewrite (IH _ (e' :: es2)) by (done || lia). f_equal. rewrite <- option_fmap_compose. apply option_fmap_ext. intros i. cbn [compose take]. by rewrite <- app_assoc. }
  destruct k as [|k].
  - change (Z.of_nat 0 =? 0) with true. cbn [negb]. rewrite (getWithSize_spec es1 e es2 z E).
    destruct (pos_split_lt lp es nf slack R es1 e es2 E) as (He & Hle & _).
    assert (match elem_val e (pos es1) with VStr _ _ => negb ((LP_HDR_SIZE <=? pos es1)%nat && (Z.of_nat (pos es1) + Z.of_nat (length (entry e)) <? total es)) | VInt _ => false end = false) as ->.
    { destruct (elem_val _ _); [done|]. apply negb_false_iff, andb_true_intro. unfold total. split; [apply Nat.leb_le; unfold pos; lia|apply Z.ltb_lt; lia]. }
    pose proof (has_entry lp es nf slack R es1 e es2 E) as Hh. apply has_app in Hh as [Hh _]. subst s.
    destruct (findCmp_spec lp (pos es1) e arg He Hh Hv) as (arg' & -> & Ea & Hv'). destruct (elem_matches e (fa_s arg)); cbn [obind].
    + cbn [fmap option_fmap option_map take]. by rewrite app_nil_r.
    + rewrite Nat2Z.id, <- pos_snoc. by apply Hnext.
  - destruct (Z.eqb_spec (Z.of_nat (S k)) 0); [lia|]. cbn [obind]. rewrite (lpSkip_spec lp es nf slack R es1 e es2 E).
    replace (Z.of_nat (S k) - 1) with (Z.of_nat k) by lia. by apply Hnext.
Qed.

Lemma lpFind_spec es1 es2 s (skip : nat) : es = es1 ++ es2 -> es2 <> [] ->
  lpFind lp (Some (pos es1)) s (Z.of_nat skip) = Ret ((fun i => pos (es1 ++ take i es2)) <$> find_from skip 0 es2 s).
Proof using R.
  intros E Hne. unfold lpFind, lpFindCb, lpBytes. cbn [obind]. rewrite (get_total lp es nf slack R).
  apply (lpFindCb_loop_spec s skip (length lp) es1 es2 0); try done. pose proof (length_es_total es (lp_elems _ _ _ _ R)) as H. pose proof (length_lp lp es nf slack R) as H2.
  unfold total in H. rewrite E, length_app in H. rewrite <- E in H. lia.
Qed.
End Find.


(** ** Edits *)

Lemma memmove_down h o m s : memmove (h ++ o ++ m ++ s) (length h) (length h + length o) (length m) = h ++ m ++ drop (length m) (o ++ m) ++ s.
Proof.
  unfold memmove. replace (load _ _ _) with m by (rewrite <- length_app, app_assoc; symmetry; apply has_middle).
  unfold store. rewrite take_app_length. do 2 f_equal. rewrite <- drop_drop, drop_app_length, (app_assoc o), drop_app_le by (rewrite length_app; lia). done.
Qed.

Lemma at_middle (h : list Z) x r : at_ (h ++ x :: r) (length h) = x.
Proof. unfold at_. by rewrite app_nth2, Nat.sub_diag by lia. Qed.

(** The images the edits leave, with the count and the size of the result. *)
Lemma rebuilt lp res nf slack : lp = header res nf ++ body res ++ [LP_EOF] ++ slack -> Forall elem_ok res -> total res < 2 ^ 32 -> count_field res nf -> listpack lp res.
Proof. intros. exists nf, slack. by split. Qed.

Lemma count_less es res nf d : count_field es nf -> Z.of_nat (length res) = Z.of_nat (length es) - d -> 0 <= d ->
  count_field res (if nf =? LP_HDR_NUMELE_UNKNOWN then nf else nf - d).
Proof. unfold count_field, LP_HDR_NUMELE_UNKNOWN. intros. case_bool; lia. Qed.

Section Bulk.
Context (fresh : nat -> Z) (usable : nat -> nat).
Context (Husable : forall n, (n <= usable n)%nat).

Lemma lpShrinkToFit_spec lp es : listpack lp es -> listpack (lpShrinkToFit fresh usable lp) es.
Proof using Husable.
  intros (nf & slack & R). unfold lpShrinkToFit. rewrite (get_total lp es nf slack R). destruct (_ <? _); [|by exists nf, slack].
  pose proof R as [-> H1 H2 H3]. rewrite (app_assoc (body es)), (app_assoc (header es nf)).
  destruct (lp_realloc_prefix fresh usable Husable (header es nf ++ body es ++ [LP_EOF]) slack (total es)) as [t ->].
  { rewrite !length_app, length_header. cbn [length]. unfold total, pos. lia. }
  exists nf, t. split; try done. by rewrite <- !app_assoc.
Qed.

(** What stays of the listpack when the middle is taken out, before the header is set. *)
Lemma set_header x nf rest n y : in_u 16 nf ->
  (let lp := lpSetTotalBytes (le_encode 4 x ++ le_encode 2 nf ++ rest) n in
   let numele := lpGetNumElements lp in
   if numele =? LP_HDR_NUMELE_UNKNOWN then lp else lpSetNumElements lp (numele - y))
  = le_encode 4 n ++ le_encode 2 (if nf =? LP_HDR_NUMELE_UNKNOWN then nf else nf - y) ++ rest.
Proof using.
  intros H. cbv zeta. rewrite set_total_raw, get_num_raw by done. destruct (_ =? _); [done|]. by rewrite set_num_raw.
Qed.

Lemma delete_walk_spec lp es nf slack : listpack_at lp es nf slack -> forall num es1 es2 d, es = es1 ++ es2 -> es2 <> [] ->
  delete_walk num lp (total es) (pos es1) d = Ret (pos (es1 ++ take num es2), d + Z.of_nat (length (take num es2))).
Proof using.
  intros R. induction num as [|num IH]; intros es1 es2 d E Hne; cbn [delete_walk].
  - rewrite app_nil_r. cbn. by rewrite Z.add_0_r.
  - destruct es2 as [|e es2]; [done|]. rewrite (lpSkip_spec lp es nf slack R es1 e es2 E).
    assert (es = (es1 ++ [e]) ++ es2) as E' by (by rewrite <- app_assoc). rewrite (at_end_test lp es nf slack R _ _ E').
    destruct es2 as [|e' es2].
    + cbn [take length]. rewrite take_nil. done.
    + rewrite (assert_valid lp es nf slack R _ _ E'), (IH _ (e' :: es2)) by done. cbn [take length]. rewrite <- app_assoc. cbn [app]. do 2 f_equal. lia.
Qed.

Lemma lpDeleteRangeWithEntry_spec lp es es1 es2 num : listpack lp es -> es = es1 ++ es2 -> es2 <> [] -> (0 < num)%nat ->
  exists lp', lpDeleteRangeWithEntry fresh usable lp (pos es1) num = Ret (lp', ptr es1 (drop num es2)) /\ listpack lp' (es1 ++ drop num es2).
Proof using Husable.
  intros (nf & slack & R) E Hne Hn. unfold lpDeleteRangeWithEntry, lpBytes. rewrite (get_total lp es nf slack R).
  destruct (Nat.eqb_spec num 0); [lia|]. rewrite (delete_walk_spec lp es nf slack R num es1 es2 0 E Hne). cbn [obind].
  set (mid := take num es2). set (rest := drop num es2). assert (es = es1 ++ mid ++ rest) as E2 by (unfold mid, rest; by rewrite take_drop).
  pose proof R as [Elp Hok Ht Hc]. rewrite E2 in Hok, Ht, Hc. rewrite !Forall_app in Hok. destruct Hok as (Ho1 & _ & Ho2).
  assert (lp = (header es nf ++ body es1) ++ body mid ++ (body rest ++ [LP_EOF]) ++ slack) as Eb by (rewrite Elp, E2, !body_app, <- !app_assoc; done).
  assert (length (header es nf ++ body es1) = pos es1) as Hh by (by rewrite length_app, length_header).
  replace (Z.to_nat (total es - 1 - Z.of_nat (pos (es1 ++ mid)) + 1)) with (length (body rest ++ [LP_EOF])) by (rewrite E2; unfold total; rewrite !pos_app, body_app, !length_app; cbn [length]; lia).
  rewrite pos_app, Eb, <- Hh, memmove_down, Hh. unfold header. rewrite <- !app_assoc.
  rewrite set_header by (by eapply count_field_range). rewrite Z.add_0_l.
  assert (total es - (Z.of_nat (pos es1 + length (body mid)) - Z.of_nat (pos es1)) = total (es1 ++ rest)) as -> by (rewrite E2; unfold total; rewrite !pos_app, body_app, length_app; lia).
  set (nf' := if nf =? _ then _ else _). set (junk := drop _ _ ++ slack).
  assert (listpack (lpShrinkToFit fresh usable (le_encode 4 (total (es1 ++ rest)) ++ le_encode 2 nf' ++ body es1 ++ body rest ++ [LP_EOF] ++ junk)) (es1 ++ rest)) as Hl.
  { apply lpShrinkToFit_spec, (rebuilt _ _ nf' junk).
    - unfold header. by rewrite body_app, <- !app_assoc.
    - by rewrite Forall_app.
    - unfold total in *. rewrite !pos_app, ?body_app, ?length_app in *. lia.
    - eapply count_less; [exact Hc| |lia]. rewrite !length_app. lia. }
  eexists. split; [|exact Hl]. do 2 f_equal. destruct Hl as (nf2 & sl2 & R2).
  rewrite (at_end_test _ _ _ _ R2 es1 rest eq_refl). by destruct rest.
Qed.

(** The place an index designates, counted from the end if negative. *)
Definition resolve (es : list elem) (i : Z) : option nat :=
  let n := Z.of_nat (length es) in
  let i := if i <? 0 then n + i else i in
  if (0 <=? i) && (i <? n) then Some (Z.to_nat i) else None.

Lemma nth_ptr_resolve es i : nth_ptr es i = (fun k => pos (take k es)) <$> resolve es i.
Proof using.
  unfold nth_ptr, resolve. repeat case_bool; cbn; try done; try lia.
Qed.

Lemma lpDeleteRange_spec lp es i num : listpack lp es -> exists lp', lpDeleteRange fresh usable lp i num = Ret lp' /\
  listpack lp' (match resolve es i with Some k => take k es ++ drop (k + num) es | None => es end).
Proof using Husable.
  intros Hl. pose proof Hl as (nf & slack & R). unfold lpDeleteRange. rewrite (get_num lp es nf slack R).
  destruct (Nat.eqb_spec num 0) as [->|Hn].
  { exists lp. split; [done|]. destruct (resolve es i); [|done]. by rewrite Nat.add_0_r, take_drop. }
  rewrite (lpSeek_spec lp es nf slack R), nth_ptr_resolve. cbn [obind]. destruct (resolve es i) as [k|] eqn:Ek; cbn [fmap option_fmap option_map]; [|by exists lp].
  assert ((k < length es)%nat /\ (nf = LP_HDR_NUMELE_UNKNOWN \/ (if i <? 0 then Z.of_nat (length es) + i else i) = Z.of_nat k)) as [Hk Hi].
  { unfold resolve in Ek. destruct (_ && _) eqn:E2; [|done]. zbool. injection Ek as <-. split; [lia|right; lia]. }
  set (es1 := take k es). assert (es = es1 ++ drop k es) as E by (unfold es1; by rewrite take_drop).
  assert (drop k es <> []) as Hne by (intros E0; apply (f_equal length) in E0; rewrite length_drop in E0; simpl in E0; lia).
  assert (length es1 = k) as Hl1 by (unfold es1; rewrite length_take; lia).
  destruct (_ && (u64 _ <=? _)) eqn:Eb.
  - apply andb_true_iff in Eb as [E1 E2]. rewrite E1 in *. cbn [andb] in *. apply negb_true_iff in E1. zbool.
    destruct Hi as [?|Hi]; [done|]. pose proof R as [Elp Hok Ht Hc]. destruct Hc as [?|[En Hlt]]; [done|]. rewrite <- En in Hi. rewrite Hi in E2 |- *.
    rewrite wrap_small in E2 by (unfold in_u, LP_HDR_NUMELE_UNKNOWN in *; lia). eexists. split; [done|].
    rewrite (drop_ge es (k + num)), app_nil_r by lia. fold es1. apply lpShrinkToFit_spec.
    destruct (body (drop k es)) as [|x xs] eqn:Ex.
    { exfalso. destruct (drop k es) as [|e r] eqn:Ed; [done|]. rewrite body_cons in Ex. apply app_eq_nil in Ex as [Ex _]. unfold entry in Ex.
      apply (f_equal length) in Ex. rewrite length_app in Ex. pose proof (length_lpEncodeBacklen (Z.of_nat (length (encode_elem e)))). simpl in Ex. lia. }
    assert (lp = (header es nf ++ body es1) ++ x :: xs ++ [LP_EOF] ++ slack) as Eb.
    { rewrite Elp. rewrite <- app_assoc. f_equal. change (x :: xs ++ [LP_EOF] ++ slack) with ((x :: xs) ++ [LP_EOF] ++ slack). rewrite <- Ex, (app_assoc (body es1)), <- body_app. by rewrite <- E. }
    assert (length (header es nf ++ body es1) = pos es1) as Hh by (by rewrite length_app, length_header).
    rewrite Eb, <- Hh. rewrite insert_app_r_alt, Nat.sub_diag by lia. cbn [list_insert insert]. rewrite Hh. unfold header. rewrite <- !app_assoc.
    rewrite set_total_raw, set_num_raw. apply (rebuilt _ _ (Z.of_nat k) (xs ++ [LP_EOF] ++ slack)).
    + unfold header, total. by rewrite <- !app_assoc.
    + rewrite E, Forall_app in Hok. tauto.
    + rewrite E in Ht. unfold total in *. rewrite pos_app in Ht. lia.
    + right. unfold LP_HDR_NUMELE_UNKNOWN in *. lia.
  - destruct (lpDeleteRangeWithEntry_spec lp es es1 (drop k es) num Hl E Hne ltac:(lia)) as (lp' & -> & Hl'). cbn [obind].
    exists lp'. split; [done|]. by rewrite drop_drop in Hl'.
Qed.

(** ** Deleting given elements *)

Lemma lpSkip_raw b p e : elem_ok e -> has b p (encode_elem e) -> lpSkip b p = (p + length (entry e))%nat.
Proof using.
  intros He H. destruct (decode_elem b p e He H) as (_ & D & _). unfold lpSkip. rewrite D. unfold entry. rewrite length_app. unfold backlen_size. lia.
Qed.

(** A listpack as runs of elements to keep, an element to delete after each. *)
Fixpoint runs_all (runs : list (elem * list elem)) : list elem := match runs with [] => [] | (d, keep) :: runs => d :: keep ++ runs_all runs end.
Fixpoint runs_kept (runs : list (elem * list elem)) : list elem := match runs with [] => [] | (_, keep) :: runs => keep ++ runs_kept runs end.
Fixpoint runs_ptrs (es1 : list elem) (runs : list (elem * list elem)) : list nat :=
  match runs with [] => [] | (d, keep) :: runs => pos es1 :: runs_ptrs (es1 ++ d :: keep) runs end.

Lemma batch_delete_spec slack runs h g es1 lp lp_end : runs <> [] -> Forall elem_ok (runs_all runs) ->
  lp = h ++ g ++ body (runs_all runs) ++ [LP_EOF] ++ slack -> (length h + length g = pos es1)%nat -> lp_end = (pos (es1 ++ runs_all runs) + 1)%nat ->
  exists junk, batch_delete (runs_ptrs es1 runs) lp lp_end (length h)
    = Ret (h ++ body (runs_kept runs) ++ [LP_EOF] ++ junk, (length h + length (body (runs_kept runs)) + 1)%nat).
Proof using.
  revert h g es1 lp. induction runs as [|[d keep] runs IH]; intros h g es1 lp Hne Hok Elp Hg Hend; [done|]. cbn [runs_ptrs batch_delete runs_all runs_kept] in *.
  inversion_clear Hok as [|? ? Hd Hok2]. apply Forall_app in Hok2 as [Hkeep Hok2].
  set (after := body keep ++ body (runs_all runs) ++ [LP_EOF] ++ slack).
  assert (lp = (h ++ g) ++ entry d ++ after) as E1 by (rewrite Elp, body_cons, body_app, <- !app_assoc; done).
  assert (has lp (pos es1) (entry d)) as Hh by (rewrite E1, <- Hg, <- length_app; apply has_middle).
  apply has_app in Hh as [Hh _]. rewrite (lpSkip_raw _ _ d Hd Hh). destruct (decode_elem lp (pos es1) d Hd Hh) as (_ & _ & _ & Hx).
  destruct (Z.eqb_spec (at_ lp (pos es1)) LP_EOF); [done|].
  assert (forall m s, after = m ++ s -> memmove lp (length h) (pos es1 + length (entry d)) (length m) = h ++ m ++ drop (length m) ((g ++ entry d) ++ m) ++ s) as Hmv.
  { intros m s Es. rewrite E1, Es, <- memmove_down, length_app, <- !app_assoc. by rewrite Nat.add_assoc, Hg. }
  destruct runs as [|[d2 keep2] runs].
  - cbn [runs_ptrs length negb Nat.eqb andb runs_all runs_kept app] in *. rewrite app_nil_r in *. subst lp_end. rewrite pos_app, body_cons, length_app.
    destruct (Nat.leb_spec (pos es1 + (length (entry d) + length (body keep)) + 1) (pos es1 + length (entry d))); [lia|].
    replace (pos es1 + (length (entry d) + length (body keep)) + 1 - (pos es1 + length (entry d)))%nat with (length (body keep ++ [LP_EOF])) by (rewrite length_app; cbn [length]; lia).
    rewrite (Hmv (body keep ++ [LP_EOF]) slack) by (unfold after; rewrite <- !app_assoc; done). cbn [batch_delete]. eexists. rewrite length_app. cbn [length]. rewrite <- !app_assoc. f_equal. f_equal. lia.
  - set (runs' := (d2, keep2) :: runs) in *.
    assert (runs_ptrs (es1 ++ d :: keep) runs' = pos (es1 ++ d :: keep) :: runs_ptrs ((es1 ++ d :: keep) ++ d2 :: keep2) runs) as Ep by done.
    assert (negb (length (runs_ptrs (es1 ++ d :: keep) runs') =? 0)%nat = true) as -> by (by rewrite Ep). cbn [andb].
    assert (match runs_ptrs (es1 ++ d :: keep) runs' with [] => lp_end | next :: _ => next end = pos (es1 ++ d :: keep)) as -> by (by rewrite Ep).
    assert (pos (es1 ++ d :: keep) = (pos es1 + length (entry d) + length (body keep))%nat) as Ep2 by (rewrite pos_app, body_cons, length_app; lia). rewrite Ep2.
    destruct keep as [|k0 keep0].
    + cbn [app] in *. cbn [length]. rewrite Nat.add_0_r, Nat.eqb_refl.
      apply (IH h (g ++ entry d) (es1 ++ [d])); try done; [by rewrite Elp, body_cons, <- !app_assoc|by rewrite length_app, pos_snoc, <- Hg, Nat.add_assoc|by rewrite <- app_assoc].
    + set (keep := k0 :: keep0) in *. assert (0 < length (body keep))%nat as Hk.
      { unfold keep. rewrite body_cons, length_app. unfold entry. rewrite length_app. pose proof (length_lpEncodeBacklen (Z.of_nat (length (encode_elem k0)))). lia. }
      destruct (Nat.eqb_spec (pos es1 + length (entry d)) (pos es1 + length (entry d) + length (body keep))); [lia|].
      destruct (Nat.leb_spec (pos es1 + length (entry d) + length (body keep)) (pos es1 + length (entry d))); [lia|].
      replace (pos es1 + length (entry d) + length (body keep) - (pos es1 + length (entry d)))%nat with (length (body keep)) by lia.
      rewrite (Hmv (body keep) (body (runs_all runs') ++ [LP_EOF] ++ slack)) by done.
      set (g' := drop _ _). assert (length g' = length (g ++ entry d)) as Hg' by (unfold g'; rewrite length_drop, !length_app; lia).
      destruct (IH (h ++ body keep) g' (es1 ++ d :: keep) ((h ++ body keep) ++ g' ++ body (runs_all runs') ++ [LP_EOF] ++ slack)) as (junk & Ej); try done.
      { rewrite Ep2, Hg', !length_app. lia. }
      { by rewrite <- app_assoc. }
      exists junk. rewrite <- app_assoc, length_app in Ej. rewrite Ej. rewrite body_app, length_app, <- !app_assoc. f_equal. f_equal. lia.
Qed.

Lemma runs_length runs : length (runs_all runs) = (length runs + length (runs_kept runs))%nat.
Proof using. induction runs as [|[d keep] runs IH]; [done|]. cbn [runs_all runs_kept length]. rewrite !length_app, IH. lia. Qed.

Lemma runs_kept_ok runs : Forall elem_ok (runs_all runs) -> Forall elem_ok (runs_kept runs).
Proof using.
  induction runs as [|[d keep] runs IH]; [done|]. cbn [runs_all runs_kept]. rewrite Forall_cons, !Forall_app. tauto.
Qed.

Lemma runs_kept_bytes runs : (length (body (runs_kept runs)) <= length (body (runs_all runs)))%nat.
Proof using.
  induction runs as [|[d keep] runs IH]; [done|]. cbn [runs_all runs_kept]. rewrite body_cons, !body_app, !length_app. lia.
Qed.

Lemma length_runs_ptrs runs es1 : length (runs_ptrs es1 runs) = length runs.
Proof using. revert es1. induction runs as [|[d keep] runs IH]; intros es1; [done|]. cbn. by rewrite IH. Qed.

Lemma lpBatchDelete_spec lp es1 runs : listpack lp (es1 ++ runs_all runs) ->
  exists lp', lpBatchDelete fresh usable lp (runs_ptrs es1 runs) = Ret lp' /\ listpack lp' (es1 ++ runs_kept runs).
Proof using Husable.
  intros Hl. pose proof Hl as (nf & slack & R). destruct runs as [|[d keep] runs0]; [by exists lp|]. set (runs := (d, keep) :: runs0) in *.
  unfold lpBatchDelete. assert (runs_ptrs es1 runs = pos es1 :: runs_ptrs (es1 ++ d :: keep) runs0) as Ep by done. rewrite Ep, <- Ep.
  set (es := es1 ++ runs_all runs) in *. rewrite (get_total lp es nf slack R). assert (Z.to_nat (total es) = (pos es + 1)%nat) as Et by (unfold total; lia). rewrite Et, Nat.add_sub.
  rewrite (at_eof lp es nf slack R). cbn [negb Z.eqb LP_EOF Pos.eqb].
  pose proof R as [Elp Hok Ht Hc]. pose proof Hok as Hok'. unfold es in Hok'. apply Forall_app in Hok' as [Hok1 Hok2].
  assert (length (header es nf ++ body es1) = pos es1) as Hh by (by rewrite length_app, length_header).
  destruct (batch_delete_spec slack runs (header es nf ++ body es1) [] es1 lp (pos es + 1)) as (junk & E); try done.
  { rewrite Elp. unfold es at 2. by rewrite body_app, <- !app_assoc. }
  rewrite Hh in E. rewrite E. cbn [obind]. clear E.
  set (res := es1 ++ runs_kept runs).
  assert (total es - (Z.of_nat (pos es + 1) - Z.of_nat (pos es1 + length (body (runs_kept runs)) + 1)) = total res) as -> by (unfold total, res; rewrite (pos_app es1); lia).
  assert (at_ ((header es nf ++ body es1) ++ body (runs_kept runs) ++ [LP_EOF] ++ junk) (Z.to_nat (total res) - 1) = LP_EOF) as ->.
  { replace (Z.to_nat (total res) - 1)%nat with (length ((header es nf ++ body es1) ++ body (runs_kept runs))); [rewrite app_assoc; apply at_middle|].
    rewrite length_app, Hh. unfold total, res. rewrite pos_app. lia. }
  cbn [negb Z.eqb LP_EOF Pos.eqb]. unfold header. rewrite <- !app_assoc.
  rewrite set_header by (by eapply count_field_range). rewrite length_runs_ptrs. eexists. split; [done|]. apply lpShrinkToFit_spec.
  eapply (rebuilt _ res _ junk).
  - unfold header. rewrite <- !app_assoc. do 2 f_equal. unfold res. by rewrite body_app, <- !app_assoc.
  - apply Forall_app. split; [done|]. by apply runs_kept_ok.
  - pose proof (runs_kept_bytes runs). unfold total, es, res in *. rewrite (pos_app es1) in *. lia.
  - eapply count_less; [exact Hc| |lia]. unfold es, res. rewrite !length_app, runs_length. lia.
Qed.

(** ** Inserting several elements *)

Definition new_elem (e : listpackEntry) : elem := match e with SVal s => elem_of_string s | LVal v => EInt v end.
Definition new_ok (e : listpackEntry) : Prop := match e with SVal s => bytes s /\ Z.of_nat (length s) < 2 ^ 32 | LVal v => in_s 64 v end.

Lemma new_args e : new_ok e -> insert_args (Some (new_elem e)) (match e with SVal s => Some s | LVal _ => None end) (match e with SVal _ => None | LVal v => Some (lpEncodeIntegerGetType v) end).
Proof using. destruct e as [s|v]; cbn; [intros [? _]; left; by exists s|intros; right; by exists v]. Qed.

Lemma encode_new_spec e : new_ok e ->
  encode_new e = (encode_elem (new_elem e), Z.of_nat (length (encode_elem (new_elem e))), lpEncodeBacklen (Z.of_nat (length (encode_elem (new_elem e))))).
Proof using.
  intros H. pose proof (insert_args_payload _ _ _ (new_args e H)) as E. unfold encode_new. by destruct e; rewrite E.
Qed.

Lemma addedlen_spec entries n : Forall new_ok entries ->
  fold_left (fun n e => n + snd (fst e) + Z.of_nat (length (snd e))) (map encode_new entries) n = n + Z.of_nat (length (body (map new_elem entries))).
Proof using.
  intros H. revert n. induction H as [|e entries He _ IH]; intros n; [cbn; lia|]. cbn [map fold_left]. rewrite IH, (encode_new_spec e He). cbn [fst snd].
  rewrite body_cons, length_app. unfold entry. rewrite length_app. lia.
Qed.

Lemma store_new_spec entries h g rest np : Forall new_ok entries -> length g = length (body (map new_elem entries)) ->
  store_new (h ++ g ++ rest) (length h) np (map encode_new entries)
  = (h ++ body (map new_elem entries) ++ rest,
     match entries with [] => np | _ => Some (length h + length (body (map new_elem (take (length entries - 1) entries))))%nat end).
Proof using.
  intros H. revert h g np. induction H as [|e entries He _ IH]; intros h g np Hg.
  - cbn in Hg. destruct g; [done|done].
  - cbn [map store_new]. rewrite (encode_new_spec e He). cbn [map] in Hg. rewrite body_cons, length_app in Hg.
    set (x := new_elem e) in *. rewrite <- (take_drop (length (entry x)) g), <- (app_assoc (take _ g)), Nat2Z.id.
    rewrite store_entry by (rewrite length_take; lia).
    replace (length h + length (encode_elem x) + length (lpEncodeBacklen (Z.of_nat (length (encode_elem x)))))%nat with (length (h ++ entry x))
      by (rewrite length_app; unfold entry; rewrite length_app; lia).
    rewrite (app_assoc h), IH by (rewrite length_drop; lia). rewrite body_cons, <- !app_assoc. f_equal.
    destruct entries as [|e2 entries]; [cbn; f_equal; lia|]. cbn [length]. rewrite length_app. replace (S (S (length entries)) - 1)%nat with (S (length entries)) by lia.
    replace (S (length entries) - 1)%nat with (length entries) by lia. rewrite firstn_cons. cbn [map]. rewrite body_cons, length_app. fold x. f_equal. lia.
Qed.

Lemma new_elem_ok e : new_ok e -> Z.of_nat (length (encode_elem (new_elem e))) + 7 < 2 ^ 32 -> elem_ok (new_elem e).
Proof using. intros H. eapply insert_args_ok. by apply new_args. Qed.

(** Where the elements go: before the given place, or after its element. *)
Definition batch_at (wh : where_) (es1 es2 : list elem) : option (list elem * list elem) :=
  match wh, es2 with LP_BEFORE, _ => Some (es1, es2) | LP_AFTER, o :: r => Some (es1 ++ [o], r) | _, _ => None end.

Lemma lpBatchInsert_spec lp es1 es2 wh left right entries : listpack lp (es1 ++ es2) -> batch_at wh es1 es2 = Some (left, right) -> entries <> [] -> Forall new_ok entries ->
  let new := map new_elem entries in
  if UINT32_MAX <? total (left ++ new ++ right) then lpBatchInsert fresh usable lp (pos es1) wh entries = Ret None
  else exists lp', lpBatchInsert fresh usable lp (pos es1) wh entries = Ret (Some (lp', Some (pos (left ++ take (length entries - 1) new)))) /\
    listpack lp' (left ++ new ++ right).
Proof using Husable.
  intros (nf & slack & R) Hat Hne Hok new. unfold lpBatchInsert.
  assert (match wh with LP_REPLACE => true | _ => false end || (length entries =? 0)%nat = false) as ->.
  { destruct wh, entries; done || by destruct es2. }
  assert (es1 ++ es2 = left ++ right) as Ees by (destruct wh, es2; simplify_eq/=; rewrite <- ?app_assoc; done).
  match goal with |- context [obind ?x _] => assert (x = Ret (pos left)) as -> end.
  { destruct wh; [by simplify_eq/=| |by destruct es2]. destruct es2 as [|o r]; simplify_eq/=. rewrite (lpSkip_spec lp _ nf slack R es1 o right eq_refl).
    unfold ASSERT_INTEGRITY. rewrite (get_total lp _ nf slack R), Ees. unfold total. rewrite (pos_app (es1 ++ [o])).
    rewrite (proj2 (Nat.leb_le _ _)), (proj2 (Z.ltb_lt _ _)) by (unfold pos; lia). done. }
  cbn [obind]. rewrite (addedlen_spec entries 0 Hok), Z.add_0_l. fold new. rewrite Ees in R. rewrite (get_total lp _ nf slack R).
  assert (total (left ++ right) + Z.of_nat (length (body new)) = total (left ++ new ++ right)) as Et by (unfold total; rewrite !pos_app, body_app, length_app; lia).
  rewrite Et. destruct (Z.ltb_spec UINT32_MAX (total (left ++ new ++ right))) as [Hbig|Hsmall]; [done|].
  pose proof R as [Elp Hoks Ht Hc]. set (h := header (left ++ right) nf ++ body left). set (m := body right ++ [LP_EOF]).
  assert (length h = pos left) as Hh by (unfold h; by rewrite length_app, length_header).
  assert (length m = (length (body right) + 1)%nat) as Hm by (unfold m; by rewrite length_app).
  assert (lp = h ++ [] ++ m ++ slack) as Eb by (rewrite Elp; unfold h, m; cbn [app]; by rewrite body_app, <- !app_assoc).
  destruct (open_gap fresh usable Husable h [] m slack (length (body new))) as (g & t & E3 & Hg).
  rewrite <- Eb in E3. cbn [app length] in E3. rewrite length_app, Hh, Hm in E3.
  assert (Z.of_nat (pos left + (length (body right) + 1)) = total (left ++ right)) as E4 by (unfold total; rewrite pos_app; lia).
  assert (Z.of_nat (pos left + length (body new) + (length (body right) + 1)) = total (left ++ new ++ right)) as E5 by (unfold total; rewrite !pos_app, body_app, length_app; lia).
  rewrite E4, E5, Nat.add_0_r in E3. destruct (Z.ltb_spec (total (left ++ new ++ right)) (total (left ++ right))); [lia|].
  rewrite Nat2Z.id. replace (Z.to_nat (total (left ++ right) - Z.of_nat (pos left))) with (length (body right) + 1)%nat by (rewrite <- E4; lia).
  rewrite E3, <- Hh, store_new_spec by done. fold new. rewrite Hh. unfold h, header. rewrite <- !app_assoc.
  pose proof (count_field_range _ _ Hc) as Hnf. rewrite get_num_raw by done.
  set (nf' := if nf =? LP_HDR_NUMELE_UNKNOWN then nf else if LP_HDR_NUMELE_UNKNOWN - nf <? Z.of_nat (length entries) then LP_HDR_NUMELE_UNKNOWN else nf + Z.of_nat (length entries)).
  match goal with |- context [lpSetTotalBytes ?x _] => assert (x = le_encode 4 (total (left ++ right)) ++ le_encode 2 nf' ++ body left ++ body new ++ m ++ t) as -> end.
  { unfold nf'. clear nf'. destruct (nf =? LP_HDR_NUMELE_UNKNOWN); [done|]. destruct (LP_HDR_NUMELE_UNKNOWN - nf <? Z.of_nat (length entries)); by rewrite set_num_raw. }
  rewrite set_total_raw. assert (forall A (x y : A), match entries with [] => x | _ => y end = y) as -> by (by destruct entries). eexists. split.
  { do 4 f_equal. unfold new. rewrite firstn_map, pos_app. done. }
  eapply (rebuilt _ _ nf' t).
  - unfold header, m. by rewrite !body_app, <- !app_assoc.
  - rewrite !Forall_app in *. split; [tauto|]. split; [|tauto]. unfold new. apply Forall_map, Forall_forall. intros e He. rewrite Forall_forall in Hok. apply new_elem_ok; [by apply Hok|].
    apply list_elem_of_split in He as (l1 & l2 & Ee). unfold UINT32_MAX in Hsmall. rewrite <- Et in Hsmall. unfold new in Hsmall. rewrite Ee, map_app, body_app in Hsmall. cbn [map] in Hsmall.
    rewrite body_cons, !length_app in Hsmall. unfold entry in Hsmall. rewrite length_app in Hsmall. pose proof (total_pos (left ++ right)). lia.
  - unfold UINT32_MAX in Hsmall. lia.
  - unfold nf', count_field, LP_HDR_NUMELE_UNKNOWN in *. rewrite !length_app in *. unfold new. rewrite length_map. repeat case_bool; lia.
Qed.

(** ** Merging *)

Lemma merged x y rest es1 es2 n : Forall elem_ok es1 -> Forall elem_ok es2 -> total (es1 ++ es2) < 2 ^ 32 -> n = Z.of_nat (length es1) + Z.of_nat (length es2) ->
  listpack (lpSetTotalBytes (lpSetNumElements (le_encode 4 x ++ le_encode 2 y ++ body es1 ++ body es2 ++ [LP_EOF] ++ rest) (if n <? UINT16_MAX then n else UINT16_MAX)) (total (es1 ++ es2))) (es1 ++ es2).
Proof using.
  intros H1 H2 Ht ->. rewrite set_num_raw, set_total_raw. eapply (rebuilt _ _ _ rest).
  - unfold header. by rewrite body_app, <- !app_assoc.
  - by rewrite Forall_app.
  - done.
  - unfold count_field, UINT16_MAX, LP_HDR_NUMELE_UNKNOWN. rewrite length_app. case_bool; lia.
Qed.

Lemma lp_payload lp es nf slack : listpack_at lp es nf slack ->
  load lp LP_HDR_SIZE (Z.to_nat (total es) - LP_HDR_SIZE) = body es ++ [LP_EOF] /\ load lp 0 (Z.to_nat (total es - 1)) = header es nf ++ body es.
Proof using.
  intros [-> _ _ _]. assert (length (header es nf) = LP_HDR_SIZE) as Hh by apply length_header. split.
  - replace (Z.to_nat (total es) - LP_HDR_SIZE)%nat with (length (body es ++ [LP_EOF])) by (rewrite length_app; cbn [length]; unfold total, pos; lia).
    rewrite <- Hh at 1. rewrite (app_assoc (body es)). apply has_middle.
  - replace (Z.to_nat (total es - 1)) with (length (header es nf ++ body es)) by (rewrite length_app, Hh; unfold total, pos; lia).
    rewrite app_assoc. apply (has_middle []).
Qed.

Lemma lpMerge_spec lp1 lp2 es1 es2 : listpack lp1 es1 -> listpack lp2 es2 ->
  if UINT32_MAX <=? total (es1 ++ es2) then lpMerge fresh usable (Some lp1) (Some lp2) false = Abort
  else exists lp, lpMerge fresh usable (Some lp1) (Some lp2) false = Ret (Some (lp, total es2 <=? total es1)) /\ listpack lp (es1 ++ es2).
Proof using Husable.
  intros H1 H2. unfold lpMerge, lpBytes. destruct (lpLength_spec lp1 es1 H1) as (lp1' & -> & H1'), (lpLength_spec lp2 es2 H2) as (lp2' & -> & H2').
  destruct H1 as (nf1 & sl1 & R1), H2 as (nf2 & sl2 & R2). cbn [obind]. rewrite (get_total lp1 es1 _ _ R1), (get_total lp2 es2 _ _ R2). clear R1 R2 lp1 lp2 nf1 nf2 sl1 sl2.
  destruct H1' as (nf1 & sl1 & R1), H2' as (nf2 & sl2 & R2).
  assert (total es1 + total es2 - Z.of_nat LP_HDR_SIZE - 1 = total (es1 ++ es2)) as Et by (unfold total; rewrite pos_app; unfold pos; lia).
  destruct (lp_payload _ _ _ _ R1) as [P1 Q1], (lp_payload _ _ _ _ R2) as [P2 Q2].
  pose proof R1 as [E1 Ho1 Ht1 _]. pose proof R2 as [E2 Ho2 Ht2 _]. pose proof (total_pos es1). pose proof (total_pos es2).
  destruct (Z.leb_spec UINT32_MAX (total (es1 ++ es2))) as [Hb|Hs].
  { destruct (total es2 <=? total es1); rewrite Et; destruct (Z.leb_spec UINT32_MAX (total (es1 ++ es2))); done || lia. }
  assert (total (es1 ++ es2) < 2 ^ 32) as Ht by (unfold UINT32_MAX in Hs; lia).
  destruct (total es2 <=? total es1) eqn:Ec; rewrite Et; destruct (Z.leb_spec UINT32_MAX (total (es1 ++ es2))); try lia.
  - eexists. split; [done|]. rewrite P2. set (h := header es1 nf1 ++ body es1).
    assert (lp1' = h ++ LP_EOF :: sl1) as -> by (rewrite E1; unfold h; by rewrite <- app_assoc).
    destruct (lp_realloc_prefix fresh usable Husable h (LP_EOF :: sl1) (total (es1 ++ es2))) as [t ->].
    { unfold h. rewrite length_app, length_header. unfold total. rewrite pos_app. unfold pos. lia. }
    replace (Z.to_nat (total es1 - 1)) with (length h) by (unfold h; rewrite length_app, length_header; unfold total, pos; lia).
    unfold store. rewrite take_app_length. unfold h at 1. unfold header. rewrite <- !app_assoc. by apply merged.
  - eexists. split; [done|]. rewrite Q1. set (h := header es1 nf1 ++ body es1). assert (length h = pos es1) as Hh by (unfold h; by rewrite length_app, length_header).
    set (b := lp_realloc fresh usable lp2' (total (es1 ++ es2))).
    assert (length b = usable (Z.to_nat (total (es1 ++ es2)))) as Hb by apply length_realloc. pose proof (Husable (Z.to_nat (total (es1 ++ es2)))) as Hu.
    assert (load b LP_HDR_SIZE (Z.to_nat (total es2) - LP_HDR_SIZE) = body es2 ++ [LP_EOF]) as Pb.
    { rewrite <- P2. unfold b, lp_realloc. apply load_realloc.
      - unfold total in *. rewrite pos_app in *. unfold pos, LP_HDR_SIZE in *. lia.
      - rewrite E2, !length_app, length_header. cbn [length]. unfold total, pos, LP_HDR_SIZE in *. lia. }
    unfold memmove. rewrite Pb. replace (Z.to_nat (total es1 - 1)) with (pos es1) by (unfold total; lia).
    unfold store at 1. rewrite take_0. cbn [app]. rewrite Nat.add_0_l, Hh. unfold store. rewrite drop_app_ge, length_take by (rewrite length_take; lia).
    replace (pos es1 - pos es1 `min` length b)%nat with 0%nat by (unfold total in *; rewrite pos_app in *; lia). rewrite drop_0. unfold h, header. rewrite <- !app_assoc. by apply merged.
Qed.

Lemma lpGetValue_spec lp es es1 e es2 : listpack lp es -> es = es1 ++ e :: es2 ->
  lpGetValue lp (pos es1) = match e with EInt v => LVal v | EStr s => SVal s end.
Proof using.
  intros (nf & slack & R) E. unfold lpGetValue, lpGet. rewrite (getWithSize_spec lp es nf slack R es1 e es2 0 E). cbn [fst].
  pose proof (has_entry lp es nf slack R es1 e es2 E) as Hh. apply has_app in Hh as [Hh _]. destruct e as [v|s]; cbn [elem_val]; [done|]. f_equal.
  cbn [encode_elem] in Hh. destruct (lpEncodeString_split s) as (hdr & Es & Hl). rewrite Es in Hh. apply has_app in Hh as [_ Hh]. rewrite Hl in Hh. unfold has in Hh. by rewrite Nat2Z.id.
Qed.
End Bulk.


(** ** Sampling *)

Definition value_of (e : elem) : listpackEntry := match e with EInt v => LVal v | EStr s => SVal s end.
Definition entry_at (es : list elem) (j : nat) : option listpackEntry := value_of <$> es !! j.

Section Sampling.
Context (below : Z -> Z -> Z -> bool).
(** A quotient of at least one is not below a number of at most one. *)
Context (Hbelow : forall r remaining available, 0 < remaining -> available <= remaining -> below r remaining available = true).

(** From place [i] on there is room for [remaining] groups of [t] elements. *)
Definition room (n i t remaining : Z) : Prop := exists q, i <= q < i + t /\ q mod t = 0 /\ remaining * t <= n - q.

Lemma next_random_spec lp es nf slack t remaining : listpack_at lp es nf slack -> 0 < t -> 0 < remaining ->
  forall es2 es1 fuel rs, es = es1 ++ es2 -> (length es2 <= fuel)%nat -> (length es2 <= length rs)%nat -> room (Z.of_nat (length es)) (Z.of_nat (length es1)) t remaining ->
  exists sk e tl used rs', es2 = sk ++ e :: tl /\ rs = used ++ rs' /\ (length used <= length sk + 1)%nat /\
    let j := Z.of_nat (length (es1 ++ sk)) in
    j mod t = 0 /\ remaining * t <= Z.of_nat (length es) - j /\
    next_random below fuel lp (ptr es1 es2) (Z.of_nat (length es1)) (Z.of_nat (length es)) remaining t rs = Ret (Some (pos (es1 ++ sk), j), rs').
Proof using Hbelow.
  intros R Ht Hr. induction es2 as [|e es2 IH]; intros es1 fuel rs E Hf Hrs (q & Hq & Hm & Hroom).
  { exfalso. rewrite app_nil_r in E. rewrite E in Hroom. nia. }
  cbn [length] in Hf, Hrs. destruct fuel as [|fuel]; [lia|]. cbn [next_random ptr].
  destruct (Z.ltb_spec (Z.of_nat (length es1)) (Z.of_nat (length es))); [|rewrite E, length_app in *; cbn [length] in *; lia].
  assert (es = (es1 ++ [e]) ++ es2) as E' by (by rewrite <- app_assoc).
  assert (Z.of_nat (length es1) + 1 = Z.of_nat (length (es1 ++ [e]))) as El by (rewrite length_app; cbn [length]; lia).
  assert (forall rs, (length es2 <= length rs)%nat -> room (Z.of_nat (length es)) (Z.of_nat (length (es1 ++ [e]))) t remaining ->
    exists sk e' tl used rs', e :: es2 = sk ++ e' :: tl /\ rs = used ++ rs' /\ (length used + 1 <= length sk + 1)%nat /\
      let j := Z.of_nat (length (es1 ++ sk)) in j mod t = 0 /\ remaining * t <= Z.of_nat (length es) - j /\
      (let* p := lpNext lp (pos es1) in next_random below fuel lp p (Z.of_nat (length es1) + 1) (Z.of_nat (length es)) remaining t rs) = Ret (Some (pos (es1 ++ sk), j), rs')) as Hnext.
  { intros rs0 Hrs0 Hroom0. destruct (IH _ fuel rs0 E' ltac:(lia) Hrs0 Hroom0) as (sk & e' & tl & used & rs' & -> & -> & Hu & H1 & H2 & H3).
    exists (e :: sk), e', tl, used, rs'. rewrite (lpNext_spec lp es nf slack R es1 e _ E), El. cbn [obind]. rewrite H3, <- app_assoc in *. cbn [app length] in *. split_and!; done || lia. }
  destruct (Z.eqb_spec (Z.of_nat (length es1) mod t) 0) as [H0|H0]; cbn [negb].
  - assert (q = Z.of_nat (length es1)) as ->.
    { apply Z.mod_divide in H0 as [a Ha], Hm as [b Hb]; [|lia|lia]. assert (b = a); [|lia]. nia. }
    destruct rs as [|r rs]; [cbn in Hrs; lia|]. cbn [rand obind length] in *.
    destruct (below r remaining ((Z.of_nat (length es) - Z.of_nat (length es1)) / t)) eqn:Eb.
    + exists [], e, es2, [r], rs. rewrite app_nil_r. split_and!; done || (cbn; lia).
    + assert (remaining < (Z.of_nat (length es) - Z.of_nat (length es1)) / t) as Hlt.
      { destruct (Z.lt_ge_cases remaining ((Z.of_nat (length es) - Z.of_nat (length es1)) / t)) as [|Hge]; [done|]. by rewrite Hbelow in Eb. }
      assert ((remaining + 1) * t <= Z.of_nat (length es) - Z.of_nat (length es1)) as Hroom'.
      { pose proof (Z.mul_div_le (Z.of_nat (length es) - Z.of_nat (length es1)) t Ht). nia. }
      destruct (Hnext rs ltac:(lia)) as (sk & e' & tl & used & rs' & E1 & -> & Hu & H1 & H2 & H3).
      { exists (Z.of_nat (length es1) + t). split; [lia|]. split; [|lia]. rewrite <- Z.add_mod_idemp_r, Z_mod_same_full, Z.add_0_r by lia. done. }
      exists sk, e', tl, (r :: used), rs'. split_and!; try done. cbn [length]. lia.
  - destruct (Hnext rs ltac:(lia)) as (sk & e' & tl & used & rs' & E1 & -> & Hu & H1 & H2 & H3).
    { exists q. split; [|done]. assert (q <> Z.of_nat (length es1)) by (intros ->; done). lia. }
    exists sk, e', tl, used, rs'. split_and!; try done. lia.
Qed.

Lemma lpNextRandom_spec lp es es1 es2 t remaining rs : listpack lp es -> es = es1 ++ es2 -> 0 < t -> 0 < remaining -> (length es2 <= length rs)%nat ->
  room (Z.of_nat (length es)) (Z.of_nat (length es1)) t remaining ->
  exists sk e tl used rs' lp', es2 = sk ++ e :: tl /\ rs = used ++ rs' /\ (length used <= length sk + 1)%nat /\ listpack lp' es /\
    let j := Z.of_nat (length (es1 ++ sk)) in
    j mod t = 0 /\ remaining * t <= Z.of_nat (length es) - j /\
    lpNextRandom below lp (ptr es1 es2) (Z.of_nat (length es1)) remaining t rs = Ret (Some (pos (es1 ++ sk), j), rs', lp').
Proof using Hbelow.
  intros Hl E Ht Hr Hrs Hroom. unfold lpNextRandom. destruct (Z.ltb_spec 0 t); [|lia]. cbn [negb]. destruct (lpLength_spec lp es Hl) as (lp' & -> & Hl'). cbn [obind].
  pose proof Hl' as (nf & slack & R). pose proof (length_es_total es (lp_elems _ _ _ _ R)) as H1. pose proof (length_lp lp' es nf slack R) as H2.
  destruct (next_random_spec lp' es nf slack t remaining R Ht Hr es2 es1 (length lp') rs E) as (sk & e & tl & used & rs' & ? & ? & ? & ? & ? & ->); try done.
  { unfold total in H1. assert (length es = length es1 + length es2)%nat by (by rewrite E, length_app). lia. }
  by exists sk, e, tl, used, rs', lp'.
Qed.

Lemma pick_pairs_spec t with_vals es : 2 <= t -> forall (k : nat) lp es1 es2 rs, listpack lp es -> es = es1 ++ es2 -> (length es2 <= length rs)%nat ->
  (k = 0%nat \/ room (Z.of_nat (length es)) (Z.of_nat (length es1)) t (Z.of_nat k)) ->
  exists idxs l rs' lp', pick_pairs below k lp (ptr es1 es2) (Z.of_nat (length es1)) (Z.of_nat k) t with_vals rs = Ret (l, rs', lp') /\ listpack lp' es /\
    length idxs = k /\ StronglySorted lt idxs /\ Forall (fun j => (length es1 <= j)%nat /\ Z.of_nat j mod t = 0) idxs /\
    Forall2 (fun j kv => entry_at es j = Some (fst kv) /\ if with_vals : bool then is_Some (snd kv) /\ snd kv = entry_at es (S j) else snd kv = None) idxs l.
Proof using Hbelow.
  intros Ht. induction k as [|k IH]; intros lp es1 es2 rs Hl E Hrs Hroom.
  { exists [], [], rs, lp. split_and!; try done; constructor. }
  destruct Hroom as [?|Hroom]; [lia|]. cbn [pick_pairs].
  destruct (lpNextRandom_spec lp es es1 es2 t (Z.of_nat (S k)) rs Hl E ltac:(lia) ltac:(lia) Hrs Hroom) as (sk & e & tl & used & rs1 & lp1 & E2 & Ers & Hu & Hl1 & Hj & Hleft & EN).
  assert (match ptr es1 es2 with None => false | Some _ => true end = true) as Hp by (rewrite E2; by destruct sk).
  destruct (ptr es1 es2) as [p0|] eqn:Ep; [|done]. rewrite EN. cbn [obind].
  assert (es = (es1 ++ sk) ++ e :: tl) as E3 by (by rewrite E, E2, <- app_assoc). destruct tl as [|e2 tl].
  { exfalso. rewrite E3, length_app in Hleft. cbn [length] in Hleft. nia. }
  pose proof Hl1 as (nf & slack & R). rewrite (lpNext_spec lp1 es nf slack R _ _ _ E3). cbn [obind ptr].
  assert (es = ((es1 ++ sk) ++ [e]) ++ e2 :: tl) as E4 by (by rewrite E3, <- !app_assoc). rewrite (lpNext_spec lp1 es nf slack R _ _ _ E4). cbn [obind].
  set (es1' := ((es1 ++ sk) ++ [e]) ++ [e2]). assert (es = es1' ++ tl) as E5 by (unfold es1'; by rewrite E4, <- !app_assoc).
  assert (Z.of_nat (length (es1 ++ sk)) + 2 = Z.of_nat (length es1')) as El by (unfold es1'; rewrite !length_app; cbn [length]; lia). rewrite El.
  replace (Z.of_nat (S k) - 1) with (Z.of_nat k) by lia.
  destruct (IH lp1 es1' tl rs1 Hl1 E5) as (idxs & l & rs' & lp' & EP & Hl' & Hlen & Hs & Hf & H2).
  { rewrite E2, Ers, !length_app in Hrs. cbn [length] in Hrs. lia. }
  { right. exists (Z.of_nat (length (es1 ++ sk)) + t). split; [lia|]. split; [|lia]. rewrite <- Z.add_mod_idemp_r, Z_mod_same_full, Z.add_0_r by lia. done. }
  rewrite EP. cbn [obind]. eexists (length (es1 ++ sk) :: idxs), _, rs', lp'. split; [done|]. split; [done|]. split; [cbn; lia|]. split; [|split].
  - constructor; [done|]. eapply Forall_impl; [exact Hf|]. intros j [H _]. lia.
  - constructor; [rewrite length_app; split; [lia|by rewrite <- length_app]|]. eapply Forall_impl; [exact Hf|]. intros j [H ?]. split; [|done]. rewrite length_app in El. lia.
  - constructor; [|done]. cbn [fst snd]. rewrite (lpGetValue_spec lp1 es _ _ _ Hl1 E3), (lpGetValue_spec lp1 es _ _ _ Hl1 E4). unfold entry_at.
    rewrite E3 at 1. rewrite (list_lookup_middle (es1 ++ sk)) by done. split; [done|]. destruct with_vals; [|done]. split; [done|].
    rewrite E4. rewrite (list_lookup_middle ((es1 ++ sk) ++ [e])) by (rewrite (length_app (es1 ++ sk)); cbn [length]; lia). done.
Qed.

Lemma lpRandomPairsUnique_spec lp es t (count : nat) with_vals rs : listpack lp es -> 2 <= t -> Z.of_nat (length es) mod t = 0 -> (length es <= length rs)%nat ->
  exists idxs l rs' lp', lpRandomPairsUnique below lp (Z.of_nat count) t with_vals rs = Ret (l, rs', lp') /\ listpack lp' es /\
    length idxs = Nat.min count (Z.to_nat (Z.of_nat (length es) / t)) /\ StronglySorted lt idxs /\ Forall (fun j => Z.of_nat j mod t = 0) idxs /\
    Forall2 (fun j kv => entry_at es j = Some (fst kv) /\ if with_vals : bool then is_Some (snd kv) /\ snd kv = entry_at es (S j) else snd kv = None) idxs l.
Proof using Hbelow.
  intros Hl Ht Hm Hrs. unfold lpRandomPairsUnique. destruct (Z.leb_spec 2 t); [|lia]. cbn [negb]. destruct (lpLength_spec lp es Hl) as (lp1 & -> & Hl1). cbn [obind].
  pose proof Hl1 as (nf & slack & R). rewrite (lpFirst_spec lp1 es nf slack R). cbn [obind]. set (n := Z.of_nat (length es)) in *.
  assert (0 <= n / t) as Hd by (apply Z.div_pos; lia). pose proof (Z.div_mod n t ltac:(lia)) as Hdm. rewrite Hm in Hdm.
  set (k := Nat.min count (Z.to_nat (n / t))).
  assert ((if n / t <? Z.of_nat count then n / t else Z.of_nat count) = Z.of_nat k) as -> by (unfold k; case_bool; lia). rewrite Nat2Z.id.
  destruct (pick_pairs_spec t with_vals es Ht k lp1 [] es rs Hl1 eq_refl Hrs) as (idxs & l & rs' & lp' & E & Hl' & Hlen & Hs & Hf & H2).
  { destruct k as [|k0] eqn:Ek; [by left|right]. exists 0. split; [cbn; lia|]. split; [by apply Z.mod_0_l; lia|]. fold n. assert (Z.of_nat (S k0) <= n / t) by lia. nia. }
  exists idxs, l, rs', lp'. split_and!; try done. eapply Forall_impl; [exact Hf|]. by intros j [_ ?].
Qed.
End Sampling.


Lemma draw_spec count order pick rs : (count <= length rs)%nat ->
  draw count order pick rs = Ret (imap (fun i r => (pick r, (order + i)%nat)) (take count rs), drop count rs).
Proof.
  revert order rs. induction count as [|count IH]; intros order rs H; [done|]. destruct rs as [|r rs]; [cbn in H; lia|]. cbn [draw rand obind length] in *.
  rewrite IH by lia. cbn [obind take imap drop]. rewrite Nat.add_0_r. do 3 f_equal. apply imap_ext. intros i x _. cbn. f_equal. lia.
Qed.

#[local] Instance by_index_trans : Transitive by_index.
Proof. intros a b c. unfold by_index. lia. Qed.
#[local] Instance by_index_total : Total by_index.
Proof. intros a b. unfold by_index. lia. Qed.

Lemma advance_spec lp es nf slack n es1 es2 : listpack_at lp es nf slack -> es = es1 ++ es2 -> (n < length es2)%nat ->
  advance n lp (Some (pos es1)) = Ret (Some (pos (es1 ++ take n es2))).
Proof.
  intros R. revert es1 es2. induction n as [|n IH]; intros es1 es2 E Hn; cbn [advance]; [by rewrite app_nil_r|].
  destruct es2 as [|e es2]; [cbn in Hn; lia|]. rewrite (lpNext_spec lp es nf slack R _ _ _ E). cbn [obind length] in *.
  destruct es2 as [|e' es2]; [cbn in Hn; lia|]. cbn [ptr]. rewrite (IH (es1 ++ [e]) (e' :: es2)) by (done || lia || by rewrite <- app_assoc). by rewrite <- app_assoc.
Qed.

Lemma fetch_entries_spec lp es : listpack lp es -> forall picks (j : nat) entries, (j < length es)%nat ->
  Sorted by_index picks -> Forall (fun p => Z.of_nat j <= fst p < Z.of_nat (length es) /\ (snd p < length entries)%nat) picks -> NoDup (snd <$> picks) ->
  exists l, fetch_entries picks lp (Some (pos (take j es))) (Z.of_nat j) entries = Ret l /\ length l = length entries /\
    (forall i o, (i, o) ∈ picks -> l !! o = entry_at es (Z.to_nat i)) /\ (forall o, o ∉ (snd <$> picks) -> l !! o = entries !! o).
Proof.
  intros Hl. pose proof Hl as (nf & slack & R). induction picks as [|[i o] picks IH]; intros j entries Hj Hs Hf Hnd.
  { exists entries. split_and!; try done. intros i o H. by apply elem_of_nil in H. }
  apply Forall_cons in Hf as [[Hi Ho] Hf]. cbn [fst snd] in *. cbn [fmap list_fmap snd] in Hnd. apply NoDup_cons in Hnd as [Hno Hnd].
  assert (es = take j es ++ drop j es) as E by (by rewrite take_drop).
  cbn [fetch_entries]. rewrite (advance_spec lp es nf slack (Z.to_nat (i - Z.of_nat j)) (take j es) (drop j es) R E) by (rewrite length_drop; lia). cbn [obind].
  rewrite take_take_drop. replace (j + Z.to_nat (i - Z.of_nat j))%nat with (Z.to_nat i) by lia. replace (Z.max (Z.of_nat j) i) with (Z.of_nat (Z.to_nat i)) by lia.
  destruct (lookup_lt_is_Some_2 es (Z.to_nat i)) as [e He]; [lia|].
  assert (lpGetValue lp (pos (take (Z.to_nat i) es)) = value_of e) as ->.
  { apply (lpGetValue_spec lp es _ e (drop (S (Z.to_nat i)) es) Hl). by rewrite take_drop_middle. }
  destruct (IH (Z.to_nat i) (<[o:=value_of e]> entries) ltac:(lia)) as (l & El & Hlen & H1 & H2).
  { by apply Sorted_inv in Hs as [? _]. }
  { apply Sorted_StronglySorted in Hs; [|apply _]. apply StronglySorted_inv in Hs as [_ Hs]. rewrite length_insert. rewrite Forall_forall in *. intros p Hp. specialize (Hs p Hp). specialize (Hf p Hp). unfold by_index in Hs. cbn [fst] in Hs. lia. }
  { done. }
  exists l. rewrite El. split; [done|]. rewrite length_insert in Hlen. split; [done|]. split.
  - intros i' o' [[= -> ->]|Hin]%elem_of_cons; [|by apply H1]. rewrite H2, list_lookup_insert_eq by done. unfold entry_at. by rewrite He.
  - intros o' Hn. cbn [fmap list_fmap snd] in Hn. apply not_elem_of_cons in Hn as [Hn1 Hn2]. rewrite H2 by done. by rewrite list_lookup_insert_ne.
Qed.

Lemma picks_orders pick rs : snd <$> imap (fun i (r : Z) => (pick r : Z, (0 + i)%nat)) rs = seq 0 (length rs).
Proof.
  apply list_eq. intros i. rewrite list_lookup_fmap, list_lookup_imap. destruct (rs !! i) as [r|] eqn:E; cbn.
  - apply lookup_lt_Some in E. by rewrite lookup_seq_lt.
  - apply lookup_ge_None in E. by rewrite lookup_seq_ge.
Qed.

Lemma lpRandomEntries_spec lp es entries rs : listpack lp es -> es <> [] -> (length entries <= length rs)%nat ->
  exists l lp', lpRandomEntries lp entries rs = Ret (l, drop (length entries) rs, lp') /\ listpack lp' es /\ length l = length entries /\
    forall i r, (i < length entries)%nat -> rs !! i = Some r -> l !! i = entry_at es (Z.to_nat (r mod Z.of_nat (length es))).
Proof.
  intros Hl Hne Hrs. unfold lpRandomEntries. destruct (lpLength_spec lp es Hl) as (lp' & -> & Hl'). cbn [obind].
  destruct (Z.eqb_spec (Z.of_nat (length es)) 0) as [?|Hn0]; [destruct es; [done|cbn in *; lia]|]. rewrite draw_spec by done. cbn [obind].
  pose proof Hl' as (nf & slack & R). rewrite (lpFirst_spec lp' es nf slack R). cbn [obind]. assert (ptr [] es = Some (pos [])) as -> by (by destruct es).
  set (picks := imap _ _). set (n := Z.of_nat (length es)) in *.
  assert (snd <$> picks = seq 0 (length entries)) as Ho.
  { etrans; [apply (picks_orders (fun r => r mod n))|]. by rewrite length_take, Nat.min_l by lia. }
  pose proof (merge_sort_Permutation by_index picks) as HP. fold (sort_picks picks) in HP.
  destruct (fetch_entries_spec lp' es Hl' (sort_picks picks) 0 entries ltac:(lia)) as (l & El & Hlen & H1 & _).
  - apply Sorted_merge_sort, _.
  - rewrite HP. apply Forall_lookup. intros i [x o] Hx. unfold picks in Hx. rewrite list_lookup_imap in Hx. destruct (take _ rs !! i) as [r|] eqn:Er; simplify_eq/=.
    apply lookup_lt_Some in Er. rewrite length_take in Er. pose proof (Z.mod_pos_bound r n). lia.
  - rewrite HP, Ho. apply NoDup_seq.
  - rewrite take_0 in El. change (Z.of_nat 0) with 0 in El. rewrite El. cbn [obind]. exists l, lp'. split_and!; try done. intros i r Hi Hr. apply (H1 (r mod n) i). rewrite HP.
    apply list_elem_of_lookup_2 with i. unfold picks. rewrite list_lookup_imap, lookup_take_lt, Hr by done. done.
Qed.


(** C20: the bulk operations are operations on the list of elements.  On a well-formed
    listpack [lpFind] returns the first match among every [skip + 1]-th element,
    comparing integers by value; [lpBatchInsert] adds all the elements at the place, or
    returns NULL exactly when they do not fit the size field, and [lpBatchAppend] adds them
    at the end; [lpDeleteRangeWithEntry] removes up to a number of elements from a pointer
    on and leaves the pointer at the element that follows them, or NULL when none does;
    [lpDeleteRange] removes the elements from an index on, counted from the end if negative,
    with its short cut when the range reaches the end; [lpBatchDelete] removes the elements of ascending
    pointers; [lpMerge] concatenates, whichever listpack it keeps. *)
Theorem listpack_bulk fresh usable lp es : (forall n, (n <= usable n)%nat) -> listpack lp es ->
  (forall es1 es2 s skip, es = es1 ++ es2 -> es2 <> [] ->
     lpFind lp (Some (pos es1)) s (Z.of_nat skip) = Ret ((fun i => pos (es1 ++ take i es2)) <$> find_from skip 0 es2 s)) /\
  (forall es1 es2 wh left right entries, es = es1 ++ es2 -> batch_at wh es1 es2 = Some (left, right) -> entries <> [] -> Forall new_ok entries ->
     let new := map new_elem entries in
     if UINT32_MAX <? total (left ++ new ++ right) then lpBatchInsert fresh usable lp (pos es1) wh entries = Ret None
     else exists lp', lpBatchInsert fresh usable lp (pos es1) wh entries = Ret (Some (lp', Some (pos (left ++ take (length entries - 1) new)))) /\ listpack lp' (left ++ new ++ right)) /\
  (forall entries, entries <> [] -> Forall new_ok entries ->
     let new := map new_elem entries in
     if UINT32_MAX <? total (es ++ new) then lpBatchAppend fresh usable lp entries = Ret None
     else exists lp', lpBatchAppend fresh usable lp entries = Ret (Some (lp', Some (pos (es ++ take (length entries - 1) new)))) /\ listpack lp' (es ++ new)) /\
  (forall es1 es2 num, es = es1 ++ es2 -> es2 <> [] ->
     exists lp', lpDeleteRangeWithEntry fresh usable lp (pos es1) num = Ret (lp', match drop num es2 with [] => None | _ => Some (pos es1) end) /\
       listpack lp' (es1 ++ drop num es2)) /\
  (forall i num, exists lp', lpDeleteRange fresh usable lp i num = Ret lp' /\
     listpack lp' (match resolve es i with Some k => take k es ++ drop (k + num) es | None => es end)) /\
  (forall es1 runs, es = es1 ++ runs_all runs ->
     exists lp', lpBatchDelete fresh usable lp (runs_ptrs es1 runs) = Ret lp' /\ listpack lp' (es1 ++ runs_kept runs)) /\
  (forall lp2 es2, listpack lp2 es2 ->
     if UINT32_MAX <=? total (es ++ es2) then lpMerge fresh usable (Some lp) (Some lp2) false = Abort
     else exists lp', lpMerge fresh usable (Some lp) (Some lp2) false = Ret (Some (lp', total es2 <=? total es)) /\ listpack lp' (es ++ es2)).
Proof.
  intros Hu Hl. split; [|split; [|split; [|split; [|split; [|split]]]]].
  - intros es1 es2 s skip E Hne. destruct Hl as (nf & slack & R). by eapply lpFind_spec.
  - intros es1 es2 wh left right entries -> Hat Hne Hok. by apply (lpBatchInsert_spec fresh usable Hu lp es1 es2 wh left right entries).
  - intros entries Hne Hok. pose proof (lpBatchInsert_spec fresh usable Hu lp es [] LP_BEFORE es [] entries ltac:(by rewrite app_nil_r) eq_refl Hne Hok) as H.
    cbv zeta in *. rewrite app_nil_r in H. unfold lpBatchAppend. destruct Hl as (nf & slack & R). rewrite (get_total lp es nf slack R). by replace (Z.to_nat (total es - 1)) with (pos es) by (unfold total; lia).
  - intros es1 es2 num E Hne. destruct num as [|num]; [exists lp; rewrite drop_0; split; [by destruct es2|by rewrite <- E]|].
    destruct (lpDeleteRangeWithEntry_spec fresh usable Hu lp es es1 es2 (S num) Hl E Hne ltac:(lia)) as (lp' & E' & Hl'). exists lp'. split; [|done]. rewrite E'. by destruct (drop (S num) es2).
  - intros i num. by apply lpDeleteRange_spec.
  - intros es1 runs ->. by apply lpBatchDelete_spec.
  - intros lp2 es2 Hl2. by apply lpMerge_spec.
Qed.

Lemma listpack_bulk_witness :
  lpFind lp2 (Some (pos [])) (chars "1000") 0 = Ret (Some (pos [EStr (chars "hi")])) /\
  exists lp', lpBatchDelete poison exact_size lp2 [pos []] = Ret lp' /\ listpack lp' [EInt 1000].
Proof.
  destruct (listpack_bulk poison exact_size lp2 _ exact_size_ok lp2_listpack) as (H1 & _ & _ & _ & _ & H4 & _). split.
  - exact (H1 [] _ (chars "1000") 0%nat eq_refl ltac:(done)).
  - exact (H4 [] [(EStr (chars "hi"), [EInt 1000])] eq_refl).
Defined.

(** The samplers.  [lpRandomPairsUnique] picks exactly as many distinct groups as
    asked for, or all of them, in the order of the listpack, each with its value, and
    [lpRandomEntries] gives for every random number the element it designates.  The
    comparison of the two quotients is only known to accept the last candidates. *)
Theorem listpack_samples below lp es rs : (forall r remaining available, 0 < remaining -> available <= remaining -> below r remaining available = true) ->
  listpack lp es -> es <> [] -> (length es <= length rs)%nat ->
  (forall t count, 2 <= t -> Z.of_nat (length es) mod t = 0 -> exists idxs l rs' lp', lpRandomPairsUnique below lp (Z.of_nat count) t true rs = Ret (l, rs', lp') /\ listpack lp' es /\
     length idxs = Nat.min count (Z.to_nat (Z.of_nat (length es) / t)) /\ StronglySorted lt idxs /\ Forall (fun j => Z.of_nat j mod t = 0) idxs /\
     Forall2 (fun j kv => entry_at es j = Some (fst kv) /\ is_Some (snd kv) /\ snd kv = entry_at es (S j)) idxs l) /\
  (forall entries, (length entries <= length rs)%nat -> exists l lp', lpRandomEntries lp entries rs = Ret (l, drop (length entries) rs, lp') /\ listpack lp' es /\ length l = length entries /\
     forall i r, (i < length entries)%nat -> rs !! i = Some r -> l !! i = entry_at es (Z.to_nat (r mod Z.of_nat (length es)))).
Proof.
  intros Hb Hl Hne Hrs. split.
  - intros t count Ht Hm. exact (lpRandomPairsUnique_spec below Hb lp es t count true rs Hl Ht Hm Hrs).
  - intros entries He. by apply lpRandomEntries_spec.
Qed.

(** The quotients compared as rational numbers. *)
Definition rational_below (r remaining available : Z) : bool := (r mod 2 ^ 31) * available <=? remaining * 2 ^ 31.

Lemma listpack_samples_witness : exists l lp', lpRandomEntries lp2 [LVal 0; LVal 0] [5; 4; 7] = Ret (l, [7], lp') /\ length l = 2%nat.
Proof.
  destruct (listpack_samples rational_below lp2 [EStr (chars "hi"); EInt 1000] [5; 4; 7]) as [_ H].
  - intros r k a Hk Ha. unfold rational_below. apply Z.leb_le. pose proof (Z.mod_pos_bound r (2 ^ 31)). nia.
  - exact lp2_listpack.
  - done.
  - cbn; lia.
  - destruct (H [LVal 0; LVal 0] ltac:(cbn; lia)) as (l & lp' & E & _ & Hlen & _). by exists l, lp'.
Defined.

End LpBulk.
