(* ===== verification/DictIter.v ===== *)
(** * DictIter: iterators over a dict (dict.c)

    [dictNext] with safe and unsafe iterators, and the fingerprint that detects the
    misuse of the latter.  A pointer to an entry is its key, since a dict has no key
    twice; following a pointer to an entry that is no longer in the dict, which was
    freed, is a failure.  [address] gives the addresses of the tables, which only the
    fingerprint uses. *)
From S2P Require Import Prelude Dict.
Import Dict.

Module DictIter.

(** Tomas Wang's integer hash. *)
Definition mix (hash : Z) : Z :=
  let hash := u64 (u64 (Z.lnot hash) + u64 (Z.shiftl hash 21)) in
  let hash := Z.lxor hash (Z.shiftr hash 24) in
  let hash := u64 (u64 (hash + u64 (Z.shiftl hash 3)) + u64 (Z.shiftl hash 8)) in
  let hash := Z.lxor hash (Z.shiftr hash 14) in
  let hash := u64 (u64 (hash + u64 (Z.shiftl hash 2)) + u64 (Z.shiftl hash 4)) in
  let hash := Z.lxor hash (Z.shiftr hash 28) in
  u64 (hash + u64 (Z.shiftl hash 31)).

Section Iter.
Context {K V : Type} `{DictType K}.
Context (address : ht K V -> Z).

Definition dictFingerprint (d : dict K V) : Z :=
  fold_left (fun hash i => mix (u64 (hash + u64 i)))
    [address (ht0 d); ht_size_exp (ht0 d); ht_used (ht0 d); address (ht1 d); ht_size_exp (ht1 d); ht_used (ht1 d)] 0.

Record dictIterator := Iterator {
  it_index : Z;
  it_table : bool;
  it_safe : bool;
  it_entry : option K;
  it_nextEntry : option K;
  it_fingerprint : Z;
}.

Definition dictInitIterator : dictIterator := Iterator (-1) false false None None 0.
Definition dictInitSafeIterator : dictIterator := Iterator (-1) false true None None 0.

Definition started (it : dictIterator) : bool := negb ((it_index it =? -1) && negb (it_table it)).

Definition dictPauseRehashing (d : dict K V) : dict K V := set_pauserehash d (pauserehash d + 1).
Definition dictResumeRehashing (d : dict K V) : dict K V := set_pauserehash d (pauserehash d - 1).

Definition dictResetIterator (d : dict K V) (it : dictIterator) : outcome (dict K V) :=
  if started it then
    if it_safe it then Ret (dictResumeRehashing d)
    else if it_fingerprint it =? dictFingerprint d then Ret d else Abort
  else Ret d.

Definition at_place (it : dictIterator) (table : bool) (index : Z) : dictIterator :=
  Iterator index table (it_safe it) (it_entry it) (it_nextEntry it) (it_fingerprint it).
Definition at_entry (it : dictIterator) (e : option K) (next : option K) : dictIterator :=
  Iterator (it_index it) (it_table it) (it_safe it) e next (it_fingerprint it).
Definition with_fingerprint (it : dictIterator) (f : Z) : dictIterator :=
  Iterator (it_index it) (it_table it) (it_safe it) (it_entry it) (it_nextEntry it) f.

(** The entry of key [k], and [dictGetNext] of it. *)
Fixpoint follow (chains : list (list (dictEntry K V))) (k : K) : option (dictEntry K V * option K) :=
  match chains with
  | [] => None
  | c :: chains =>
      match find_in k c with
      | Some i => match c !! i with Some e => Some (e, key <$> c !! S i) | None => None end
      | None => follow chains k
      end
  end.

(** The first call: the start of the iteration. *)
Definition begin (d : dict K V) (it : dictIterator) : dict K V * dictIterator :=
  if started it then (d, it)
  else
    let '(d, it) := if it_safe it then (dictPauseRehashing d, it) else (d, with_fingerprint it (dictFingerprint d)) in
    (d, if dictIsRehashing d then at_place it (it_table it) (rehashidx d - 1) else it).

(** The place after the current bucket, [None] past the last. *)
Definition next_bucket (d : dict K V) (it : dictIterator) : dictIterator * bool :=
  let it := at_place it (it_table it) (it_index it + 1) in
  if DICTHT_SIZE (ht_size_exp (ht_of d (it_table it))) <=? it_index it then
    if dictIsRehashing d && negb (it_table it) then (at_place it true 0, true) else (it, false)
  else (it, true).

Fixpoint dictNext_loop (fuel : nat) (d : dict K V) (it : dictIterator) : outcome (dict K V * dictIterator * option (dictEntry K V)) :=
  match fuel with
  | O => Abort
  | S fuel =>
      match it_entry it with
      | None =>
          let '(d, it) := begin d it in
          let '(it, more) := next_bucket d it in
          if negb more then Ret (d, it, None)
          else
            let* chain := bucket (ht_of d (it_table it)) (it_index it) in
            match chain with
            | [] => dictNext_loop fuel d (at_entry it None (it_nextEntry it))
            | e :: next => Ret (d, at_entry it (Some (key e)) (key <$> head next), Some e)
            end
      | Some _ =>
          match it_nextEntry it with
          | None => dictNext_loop fuel d (at_entry it None None)
          | Some k =>
              match follow (ht_table (ht0 d) ++ ht_table (ht1 d)) k with
              | None => Abort
              | Some (e, next) => Ret (d, at_entry it (Some k) next, Some e)
              end
          end
      end
  end.

Definition dictNext (d : dict K V) (it : dictIterator) : outcome (dict K V * dictIterator * option (dictEntry K V)) :=
  dictNext_loop (length (ht_table (ht0 d)) + length (ht_table (ht1 d)) + 3) d it.

(** [while ((de = dictNext(iter)) != NULL)]: the entries in order. *)
Fixpoint dictIterate_loop (fuel : nat) (d : dict K V) (it : dictIterator) : outcome (dict K V * dictIterator * list (dictEntry K V)) :=
  match fuel with
  | O => Abort
  | S fuel =>
      let* (r, de) := dictNext d it in
      let '(d, it) := r in
      match de with
      | None => Ret (d, it, [])
      | Some e => let* (r, l) := dictIterate_loop fuel d it in Ret (r, e :: l)
      end
  end.

Definition dictIterate (d : dict K V) (it : dictIterator) : outcome (dict K V * list (dictEntry K V)) :=
  let* (r, l) := dictIterate_loop (Z.to_nat (dictSize d) + 1) d it in
  let* d := dictResetIterator (fst r) (snd r) in
  Ret (d, l).

End Iter.

Section Spec.
Context {K V : Type} `{EqK : EqDecision K, CK : !Countable K, DT : DictType K, DTok : !DictTypeOk K}.
Context (address : ht K V -> Z).
Implicit Types (d : dict K V) (it : dictIterator (K := K)).

(** The entries in the buckets after the current one. *)
Definition later d it : list (dictEntry K V) :=
  concat (drop (Z.to_nat (it_index it + 1)) (ht_table (ht_of d (it_table it)))) ++
  (if negb (it_table it) && dictIsRehashing d then telems (ht1 d) else []).

#[local] Opaque dictFingerprint.

(** What is left of the chain of the current entry. *)
Definition pending d it (rest : list (dictEntry K V)) : Prop :=
  match it_entry it with
  | None => rest = []
  | Some _ => it_nextEntry it = key <$> head rest /\
              (rest <> [] -> exists pre, ht_table (ht_of d (it_table it)) !! Z.to_nat (it_index it) = Some (pre ++ rest))
  end.

(** A place in the second table is reached while rehashing only. *)
Definition tables_ok d it : Prop := it_table it = true -> dictIsRehashing d = true.

(** [l] is what the iterator has not returned yet. *)
Definition coming d it (l : list (dictEntry K V)) : Prop :=
  started it = false /\ it_entry it = None /\ l = elements d \/
  started it = true /\ 0 <= it_index it /\ tables_ok d it /\ exists rest, pending d it rest /\ l = rest ++ later d it.

(** Buckets left to visit. *)
Definition left_buckets d it : nat :=
  length (ht_table (ht_of d (it_table it))) - Z.to_nat (it_index it + 1) + (if it_table it then 0 else length (ht_table (ht1 d)))%nat.

Lemma table_size (t : ht K V) : table_ok t -> DICTHT_SIZE (ht_size_exp t) = Z.of_nat (length (ht_table t)).
Proof using.
  intros [Hs _ _]. unfold DICTHT_SIZE. destruct Hs as [[-> ->]|[He ->]]; [done|]. destruct (Z.eqb_spec (ht_size_exp t) (-1)); [lia|]. rewrite Z.shiftl_1_l. pose proof (pow2_pos (ht_size_exp t)). lia.
Qed.

Lemma ok_tables d (table : bool) : dict_ok d -> table_ok (ht_of d table).
Proof using. intros [H0 H1 _ _]. by destruct table. Qed.

Lemma second_table d : dict_ok d -> dictIsRehashing d = true -> exists chain rest, ht_table (ht1 d) = chain :: rest.
Proof using.
  intros Hd Hr. pose proof (ok_tables d true Hd) as [Hs _ _]. cbn [ht_of] in Hs. unfold dictIsRehashing in Hr. zbool.
  destruct (ok_phase _ Hd) as [[? _]|(_ & _ & He & _)]; [done|]. destruct Hs as [[? _]|[_ Hl]]; [lia|]. pose proof (pow2_pos (ht_size_exp (ht1 d)) He).
  destruct (ht_table (ht1 d)) as [|c r]; [cbn in Hl; lia|]. eauto.
Qed.

(** The next bucket, if any, and what is left after it. *)
Lemma next_bucket_spec d it : dict_ok d -> -1 <= it_index it -> exists it' more, next_bucket d it = (it', more) /\
  it_safe it' = it_safe it /\ it_entry it' = it_entry it /\ it_nextEntry it' = it_nextEntry it /\ it_fingerprint it' = it_fingerprint it /\ 0 <= it_index it' /\ started it' = true /\ (tables_ok d it -> tables_ok d it') /\
  if more : bool then exists chain, ht_table (ht_of d (it_table it')) !! Z.to_nat (it_index it') = Some chain /\
    later d it = chain ++ later d it' /\ (left_buckets d it' < left_buckets d it)%nat
  else later d it = [] /\ later d it' = [].
Proof using.
  intros Hd Hi. pose proof (ok_tables d (it_table it) Hd) as Hok. destruct it as [i table safe entry nextEntry fp]. unfold next_bucket, at_place, later, left_buckets, started. cbn [it_index it_table it_safe it_entry it_nextEntry it_fingerprint] in *.
  rewrite table_size by done. destruct (Z.leb_spec (Z.of_nat (length (ht_table (ht_of d table)))) (i + 1)) as [Hge|Hlt].
  - rewrite (drop_ge _ (Z.to_nat (i + 1))) by lia. cbn [concat app]. destruct (dictIsRehashing d && negb table) eqn:Eb.
    + apply andb_true_iff in Eb as [Er Et]. apply negb_true_iff in Et. subst table. destruct (second_table d Hd Er) as (chain & rest & E1).
      eexists _, true. split; [done|]. cbn [it_index it_table it_safe it_entry it_nextEntry it_fingerprint negb andb ht_of]. rewrite Er, E1. split_and!; try done; [by intros _ _|].
      exists chain. split; [done|]. unfold telems. rewrite E1, app_nil_r. cbn [concat Z.to_nat Z.add Pos.to_nat drop]. split; [done|]. cbn [length]. cbn. lia.
    + eexists _, false. split; [done|]. cbn [it_index it_table it_safe it_entry it_nextEntry it_fingerprint]. split_and!; try done; try lia.
      * rewrite andb_comm, Eb. done.
      * rewrite (drop_ge _ (Z.to_nat (i + 1 + 1))) by lia. rewrite andb_comm, Eb. done.
  - destruct (lookup_lt_is_Some_2 (ht_table (ht_of d table)) (Z.to_nat (i + 1))) as [chain Hc]; [lia|].
    eexists _, true. split; [done|]. cbn [it_index it_table it_safe it_entry it_nextEntry it_fingerprint]. split_and!; try done; try lia.
    exists chain. split; [done|]. split; [|lia]. rewrite (drop_S _ chain) by done. cbn [concat]. replace (Z.to_nat (i + 1 + 1)) with (S (Z.to_nat (i + 1))) by lia. by rewrite <- app_assoc.
Qed.

Lemma begin_started d it : started it = true -> begin address d it = (d, it).
Proof using. unfold begin. by intros ->. Qed.

(** One turn with no current entry. *)
Definition turn (fuel : nat) d it :=
  let '(it, more) := next_bucket d it in
  if negb more then Ret (d, it, None)
  else
    let* chain := bucket (ht_of d (it_table it)) (it_index it) in
    match chain with
    | [] => dictNext_loop address fuel d (at_entry it None (it_nextEntry it))
    | e :: next => Ret (d, at_entry it (Some (key e)) (key <$> head next), Some e)
    end.

Lemma loop_none fuel d it : it_entry it = None -> dictNext_loop address (S fuel) d it = (let '(d, it) := begin address d it in turn fuel d it).
Proof using. intros E. cbn [dictNext_loop]. by rewrite E. Qed.

Lemma loop_some fuel d it k : it_entry it = Some k -> dictNext_loop address (S fuel) d it =
  match it_nextEntry it with
  | None => dictNext_loop address fuel d (at_entry it None None)
  | Some k => match follow (ht_table (ht0 d) ++ ht_table (ht1 d)) k with None => Abort | Some (e, next) => Ret (d, at_entry it (Some k) next, Some e) end
  end.
Proof using. intros E. cbn [dictNext_loop]. by rewrite E. Qed.

(** The loop, with no current entry. *)
Lemma iter_scan_spec fuel d it : dict_ok d -> tables_ok d it -> -1 <= it_index it -> it_entry it = None -> (left_buckets d it <= fuel)%nat ->
  exists it', turn fuel d it = Ret (d, it', head (later d it)) /\ coming d it' (tail (later d it)) /\ started it' = true /\
    it_safe it' = it_safe it /\ it_fingerprint it' = it_fingerprint it.
Proof using.
  intros Hd. revert it. induction fuel as [|fuel IH]; intros it Ht Hi He Hf; unfold turn;
    destruct (next_bucket_spec d it Hd Hi) as (it' & more & -> & Es & Ee & En & Ef & Hi' & Hst & Hto & Hm); (destruct more; cbn [negb];
    [destruct Hm as (chain & Hc & El & Hm)|destruct Hm as [El El']; rewrite El; exists it'; split; [done|]; split_and!; try done; right; split; [done|]; split; [done|]; split; [by apply Hto|]; exists [];
       split; [|by rewrite El']; unfold pending; by rewrite Ee, He]); [lia|].
  rewrite (proj2 (bucket_Ret _ _ _) Hc). cbn [obind]. destruct chain as [|e next].
  - set (it1 := at_entry it' None (it_nextEntry it')). assert (left_buckets d it1 = left_buckets d it') as E3 by done.
    destruct (IH it1 (Hto Ht) ltac:(cbn; lia) eq_refl ltac:(lia)) as (it2 & E4 & H1 & H2 & H3 & H4). exists it2. rewrite El. cbn [app].
    rewrite loop_none, begin_started by done. split_and!; [exact E4|exact H1|done|by rewrite H3|by rewrite H4].
  - rewrite El. eexists. split; [done|]. split_and!; try done. right. split; [done|]. split; [done|]. split; [exact (Hto Ht)|]. exists next. split; [|done].
    split; [done|]. intros _. by exists [e].
Qed.

Lemma find_in_here pre (e : dictEntry K V) rest : key e ∉ key <$> pre -> find_in (key e) (pre ++ e :: rest) = Some (length pre).
Proof using DTok.
  induction pre as [|x pre IH]; intros Hn; cbn [find_in app].
  - by rewrite (proj2 (keyCompare_spec (key e) (key e)) eq_refl).
  - cbn [fmap list_fmap] in Hn. apply not_elem_of_cons in Hn as [Hn1 Hn2]. destruct (keyCompare (key e) (key x)) eqn:Ek; [by apply keyCompare_spec in Ek|]. by rewrite IH.
Qed.

Lemma find_in_absent k (c : list (dictEntry K V)) : k ∉ key <$> c -> find_in k c = None.
Proof using DTok.
  induction c as [|x c IH]; intros Hn; [done|]. cbn [fmap list_fmap find_in] in *. apply not_elem_of_cons in Hn as [Hn1 Hn2].
  destruct (keyCompare k (key x)) eqn:Ek; [by apply keyCompare_spec in Ek|]. by rewrite IH.
Qed.

Lemma follow_spec (chains : list (list (dictEntry K V))) j pre e rest : NoDup (key <$> concat chains) -> chains !! j = Some (pre ++ e :: rest) ->
  follow chains (key e) = Some (e, key <$> head rest).
Proof using DTok.
  revert j. induction chains as [|c chains IH]; intros j Hnd Hj; [done|]. cbn [concat follow] in *. rewrite fmap_app in Hnd. apply NoDup_app in Hnd as (Hc & Hdis & Hnd).
  destruct j as [|j]; cbn in Hj; simplify_eq.
  - rewrite fmap_app in Hc. apply NoDup_app in Hc as (_ & Hx & _). rewrite find_in_here.
    + rewrite list_lookup_middle by done. rewrite lookup_app_r by lia. replace (S (length pre) - length pre)%nat with 1%nat by lia. cbn. by destruct rest.
    + intros Hin. apply (Hx _ Hin). cbn [fmap list_fmap]. left.
  - rewrite find_in_absent; [by apply (IH j)|]. intros Hin. apply (Hdis _ Hin). apply list_elem_of_fmap. exists e. split; [done|].
    apply list_elem_of_lookup_2 in Hj. apply list_elem_of_In, in_concat. exists (pre ++ e :: rest). split; apply list_elem_of_In; [done|]. apply elem_of_app. right. left.
Qed.

Lemma follow_entry d (table : bool) i pre e rest : dict_ok d -> ht_table (ht_of d table) !! i = Some (pre ++ e :: rest) ->
  follow (ht_table (ht0 d) ++ ht_table (ht1 d)) (key e) = Some (e, key <$> head rest).
Proof using DTok.
  intros Hd Hi. assert (NoDup (key <$> concat (ht_table (ht0 d) ++ ht_table (ht1 d)))) as Hn by (rewrite concat_app; apply (ok_nodup _ Hd)).
  destruct table; cbn [ht_of] in Hi.
  - apply (follow_spec _ (length (ht_table (ht0 d)) + i) pre e rest Hn). by rewrite lookup_app_r, Nat.add_comm, Nat.add_sub by lia.
  - apply (follow_spec _ i pre e rest Hn). rewrite lookup_app_l; [done|]. by eapply lookup_lt_Some.
Qed.

(** The dict after the first call of [dictNext]. *)
Definition begun d it : dict K V := if started it then d else if it_safe it then dictPauseRehashing d else d.

Lemma left_buckets_bound d it : (left_buckets d it <= length (ht_table (ht0 d)) + length (ht_table (ht1 d)))%nat.
Proof using. unfold left_buckets. destruct (it_table it); cbn [ht_of]; lia. Qed.

Lemma dictPauseRehashing_ok d : dict_ok d -> dict_ok (dictPauseRehashing d).
Proof using. apply set_pauserehash_ok. Qed.

Lemma begin_spec d it : dict_ok d -> started it = false -> it_entry it = None -> exists it', begin address d it = (begun d it, it') /\
  it_entry it' = None /\ -1 <= it_index it' /\ tables_ok (begun d it) it' /\ it_safe it' = it_safe it /\ it_fingerprint it' = (if it_safe it then it_fingerprint it else dictFingerprint address d) /\ later (begun d it) it' = elements d.
Proof using.
  intros Hd Hs He. unfold begin, begun. rewrite Hs. unfold started in Hs. apply negb_false_iff, andb_true_iff in Hs as [Hi Ht]. apply negb_true_iff in Ht. zbool.
  assert (forall it' d', it_table it' = false -> ht0 d' = ht0 d -> ht1 d' = ht1 d -> rehashidx d' = rehashidx d -> it_index it' = (if dictIsRehashing d then rehashidx d - 1 else -1) -> later d' it' = elements d) as Hl.
  { intros it' d' E1 E2 E3 E4 E5. unfold later, elements, telems, dictIsRehashing in *. rewrite E1, E4, E5. cbn [ht_of negb andb]. rewrite E2, E3.
    destruct (Z.eqb_spec (rehashidx d) (-1)) as [Er|Er]; cbn [negb].
    - destruct (ok_phase _ Hd) as [[_ ->]|[? _]]; [done|lia].
    - destruct (ok_phase _ Hd) as [[? _]|(Hr & _ & _ & Hz)]; [done|]. f_equal. replace (Z.to_nat (rehashidx d - 1 + 1)) with (Z.to_nat (rehashidx d)) by lia.
      rewrite <- (take_drop (Z.to_nat (rehashidx d)) (ht_table (ht0 d))) at 2. rewrite concat_app. rewrite <- (app_nil_l (concat (drop _ _))) at 1. f_equal. symmetry. apply concat_nil_Forall, Forall_lookup.
      intros i b Hb. apply lookup_take_Some in Hb as [Hb Hlt]. apply (Hz i b); [lia|done]. }
  assert (0 <= rehashidx d \/ dictIsRehashing d = false) as Hr.
  { unfold dictIsRehashing. destruct (ok_phase _ Hd) as [[-> _]|[? _]]; [by right|by left]. }
  assert (forall it' d', it_table it' = false -> it_index it' = -1 -> rehashidx d' = rehashidx d ->
    let it2 := if dictIsRehashing d then at_place it' (it_table it') (rehashidx d' - 1) else it' in
    -1 <= it_index it2 /\ it_table it2 = false /\ it_index it2 = (if dictIsRehashing d then rehashidx d - 1 else -1) /\
    it_entry it2 = it_entry it' /\ it_safe it2 = it_safe it' /\ it_fingerprint it2 = it_fingerprint it') as Hp.
  { intros it' d' E1 E2 E3. destruct (dictIsRehashing d); cbn; destruct Hr; rewrite ?E3; split_and!; done || lia. }
  destruct (it_safe it) eqn:Esafe.
  - destruct (Hp it (dictPauseRehashing d) Ht Hi eq_refl) as (H1 & H2 & H3 & H4 & H5 & H6). eexists. split; [done|].
    split_and!; [etrans; [exact H4|done]|exact H1|intros Hx; discriminate (eq_trans (eq_sym Hx) H2)|etrans; [exact H5|done]|exact H6|]. by apply Hl.
  - destruct (Hp (with_fingerprint it (dictFingerprint address d)) d Ht Hi eq_refl) as (H1 & H2 & H3 & H4 & H5 & H6). eexists. split; [done|].
    split_and!; [by rewrite H4|exact H1|intros Hx; by rewrite Hx in H2|by rewrite H5|by rewrite H6|]. by apply Hl.
Qed.

(** One call: the first of the entries to come, which is [NULL] when there is none. *)
Lemma dictNext_spec d it l : dict_ok d -> coming d it l -> exists it', dictNext address d it = Ret (begun d it, it', head l) /\
  coming (begun d it) it' (tail l) /\ started it' = true /\ it_safe it' = it_safe it /\
  it_fingerprint it' = (if started it || it_safe it then it_fingerprint it else dictFingerprint address d).
Proof using DTok.
  intros Hd Hc0. unfold dictNext. set (n := (length (ht_table (ht0 d)) + length (ht_table (ht1 d)))%nat). replace (n + 3)%nat with (S (S (S n))) by lia.
  assert (forall it, left_buckets d it <= n)%nat as Hn by apply left_buckets_bound. destruct Hc0 as [(Hs & He & ->)|(Hs & Hi & Ht & rest & Hp & ->)].
  - rewrite loop_none by done. destruct (begin_spec d it Hd Hs He) as (it1 & -> & He1 & Hi1 & Ht1 & Es & Ef & El).
    assert (dict_ok (begun d it)) as Hd' by (unfold begun; rewrite Hs; destruct (it_safe it); [by apply dictPauseRehashing_ok|done]).
    assert (left_buckets (begun d it) it1 <= S (S n))%nat as Hf.
    { assert (left_buckets (begun d it) it1 = left_buckets d it1) as -> by (unfold begun; rewrite Hs; by destruct (it_safe it)). specialize (Hn it1). lia. }
    destruct (iter_scan_spec _ _ it1 Hd' Ht1 Hi1 He1 Hf) as (it2 & E & Hc & Hst & E2 & E3). rewrite El in E, Hc. exists it2. rewrite E. split_and!; try done; [by rewrite E2|].
    by rewrite E3, Hs, Ef.
  - assert (begun d it = d) as -> by (unfold begun; by rewrite Hs). rewrite Hs. cbn [orb]. unfold pending in Hp. destruct (it_entry it) as [k0|] eqn:Ee.
    + rewrite (loop_some _ _ _ k0 Ee). destruct Hp as [En Hp]. rewrite En. destruct rest as [|e rest]; cbn [head fmap option_fmap option_map].
      * rewrite loop_none, begin_started by done.
        destruct (iter_scan_spec (S n) d (at_entry it None None) Hd Ht ltac:(cbn; lia) eq_refl) as (it2 & E & Hc & Hst2 & E2 & E3); [specialize (Hn (at_entry it None None)); lia|].
        exists it2. rewrite E. cbn [app]. done.
      * destruct (Hp ltac:(done)) as (pre & Hpre). rewrite (follow_entry d _ _ _ _ _ Hd Hpre). eexists. split; [done|]. split_and!; try done. right. split; [done|]. split; [done|]. split; [done|].
        exists rest. split; [|done]. split; [done|]. intros _. exists (pre ++ [e]). cbn. by rewrite <- app_assoc.
    + subst rest. cbn [app]. rewrite loop_none, begin_started by done.
      destruct (iter_scan_spec (S (S n)) d it Hd Ht ltac:(lia) Ee) as (it2 & E & Hc & Hst2 & E2 & E3); [specialize (Hn it); lia|]. exists it2. rewrite E. done.
Qed.

Lemma iterate_loop_spec fuel d it l : dict_ok d -> coming d it l -> started it = true -> (length l < fuel)%nat ->
  exists it', dictIterate_loop address fuel d it = Ret (d, it', l) /\ started it' = true /\ it_safe it' = it_safe it /\ it_fingerprint it' = it_fingerprint it.
Proof using DTok.
  intros Hd. revert it l. induction fuel as [|fuel IH]; intros it l Hc Hs Hf; [lia|]. cbn [dictIterate_loop].
  destruct (dictNext_spec d it l Hd Hc) as (it1 & -> & Hc1 & Hs1 & E1 & E2). unfold begun in *. rewrite Hs in *. cbn [obind orb] in *. destruct l as [|e l]; cbn [head tail length] in *.
  - by exists it1.
  - destruct (IH it1 l Hc1 Hs1 ltac:(lia)) as (it2 & -> & H1 & H2 & H3). cbn [obind]. exists it2. split_and!; [done|done|by rewrite H2|by rewrite H3].
Qed.

(** A whole iteration gives every entry once, and leaves the dict as it was. *)
Lemma dictIterate_spec d (safe : bool) : dict_ok d -> dictIterate address d (if safe then dictInitSafeIterator else dictInitIterator) = Ret (d, elements d).
Proof using DTok.
  intros Hd. set (it := if safe then _ else _). assert (started it = false) as Hs by (by destruct safe). assert (it_entry it = None) as He by (by destruct safe). assert (it_safe it = safe) as Esafe by (by destruct safe).
  assert (coming d it (elements d)) as Hc by (left; done). unfold dictIterate. replace (Z.to_nat (dictSize d) + 1)%nat with (S (length (elements d))).
  2:{ unfold dictSize, elements. rewrite (ok_used _ (ok_ht0 _ Hd)), (ok_used _ (ok_ht1 _ Hd)), length_app. lia. }
  cbn [dictIterate_loop]. destruct (dictNext_spec d it _ Hd Hc) as (it1 & -> & Hc1 & Hs1 & E1 & E2). rewrite Hs, Esafe in E2. cbn [orb] in E2.
  assert (dict_ok (begun d it)) as Hd' by (unfold begun; rewrite Hs, Esafe; destruct safe; [by apply dictPauseRehashing_ok|done]).
  assert (forall it', started it' = true -> it_safe it' = it_safe it1 -> it_fingerprint it' = it_fingerprint it1 -> dictResetIterator address (begun d it) it' = Ret d) as Hreset.
  { intros it' H1 H2 H3. unfold dictResetIterator, begun. rewrite H1, H2, H3, E1, E2, Hs, Esafe. destruct safe.
    - unfold dictResumeRehashing, dictPauseRehashing, set_pauserehash. cbn. rewrite Z.add_simpl_r. by destruct d.
    - by rewrite Z.eqb_refl. }
  cbn [obind]. destruct (elements d) as [|e l]; cbn [head tail length] in *.
  - cbn [obind fst snd]. by rewrite Hreset.
  - destruct (iterate_loop_spec (S (length l)) (begun d it) it1 l Hd' Hc1 Hs1 ltac:(lia)) as (it2 & -> & H1 & H2 & H3). cbn [obind fst snd]. by rewrite Hreset.
Qed.

(** ** Deleting while a safe iterator is at work *)

Context (dict_can_resize : dictResizeEnable).
Abbreviation others k := (filter (fun e : dictEntry K V => key e <> k)).

Lemma others_absent k (c : list (dictEntry K V)) : k ∉ key <$> c -> others k c = c.
Proof using.
  induction c as [|x c IH]; intros Hn; [done|]. cbn [fmap list_fmap] in Hn. apply not_elem_of_cons in Hn as [H1 H2]. rewrite filter_cons_True by done. by rewrite IH.
Qed.

Lemma others_remove (chains : list (list (dictEntry K V))) i c j e : NoDup (key <$> concat chains) -> chains !! i = Some c -> c !! j = Some e ->
  <[i := delete j c]> chains = map (others (key e)) chains.
Proof using.
  revert i. induction chains as [|c0 chains IH]; intros i Hn Hi Hj; [done|]. cbn [concat map] in *. rewrite fmap_app in Hn. apply NoDup_app in Hn as (Hc & Hdis & Hn).
  destruct i as [|i]; cbn in Hi.
  - injection Hi as ->. cbn. rewrite <- (take_drop_middle c j e Hj) in Hc |- * at 2. rewrite fmap_app in Hc. apply NoDup_app in Hc as (_ & Hx & Hy). cbn [fmap list_fmap] in Hy. apply NoDup_cons in Hy as [Hy _].
    assert (others (key e) (take j c) = take j c) as E1 by (apply others_absent; intros Hin; apply (Hx _ Hin); left).
    assert (others (key e) (drop (S j) c) = drop (S j) c) as E2 by (by apply others_absent).
    rewrite filter_app, filter_cons_False, E1, E2, delete_take_drop by naive_solver. f_equal. symmetry. rewrite <- (map_id chains) at 2. apply map_ext_in. intros c' Hc'.
    apply others_absent. intros Hin. apply (Hdis (key e)).
    + apply list_elem_of_fmap. exists e. split; [done|]. by eapply list_elem_of_lookup_2.
    + apply list_elem_of_fmap in Hin as (x & -> & Hin). apply list_elem_of_fmap. exists x. split; [done|]. apply list_elem_of_In, in_concat. exists c'. split; [done|]. by apply list_elem_of_In.
  - cbn. f_equal; [|by apply IH]. symmetry. apply others_absent. intros Hin. apply (Hdis _ Hin). apply list_elem_of_fmap. exists e. split; [done|].
    apply list_elem_of_In, in_concat. exists c. split; apply list_elem_of_In; by eapply list_elem_of_lookup_2.
Qed.

Lemma unlink_others d r e : dict_ok d -> deref d r = Ret e -> exists d', unlink d r = Ret d' /\ rehashidx d' = rehashidx d /\
  forall table, ht_table (ht_of d' table) = map (others (key e)) (ht_table (ht_of d table)).
Proof using.
  intros Hd Hr. destruct (deref_spec d r e Hd Hr) as (b & Hb & Hi & _). unfold unlink. rewrite Hb. cbn [obind]. eexists. split; [done|]. split; [by destruct (r_table r)|].
  apply bucket_Ret in Hb. assert (NoDup (key <$> concat (ht_table (ht0 d) ++ ht_table (ht1 d)))) as Hn by (rewrite concat_app; apply (ok_nodup _ Hd)).
  assert (forall table, ht_table (ht_of (set_ht d (r_table r) (upd_bucket (ht_of d (r_table r)) (r_idx r) (delete (r_pos r) b) (-1))) table)
    = if eqb table (r_table r) then <[Z.to_nat (r_idx r) := delete (r_pos r) b]> (ht_table (ht_of d table)) else ht_table (ht_of d table)) as Et.
  { intros table. by destruct table, (r_table r). }
  assert (length (ht_table (ht0 d)) = length (map (others (key e)) (ht_table (ht0 d)))) as Hlen by (by rewrite length_map).
  destruct (r_table r); cbn [ht_of] in *.
  - pose proof (others_remove _ (length (ht_table (ht0 d)) + Z.to_nat (r_idx r)) b (r_pos r) e Hn) as E.
    rewrite lookup_app_r, Nat.add_comm, Nat.add_sub, Nat.add_comm in E by lia. specialize (E Hb Hi). rewrite insert_app_r, map_app in E.
    apply app_inj_1 in E as [E1 E2]; [|done]. intros [|]; rewrite Et; cbn [eqb ht_of]; done.
  - pose proof (others_remove _ (Z.to_nat (r_idx r)) b (r_pos r) e Hn) as E. pose proof (lookup_lt_Some _ _ _ Hb) as Hlt.
    rewrite lookup_app_l in E by lia. specialize (E Hb Hi). rewrite insert_app_l, map_app in E by lia.
    apply app_inj_1 in E as [E1 E2]; [|by rewrite length_insert]. intros [|]; rewrite Et; cbn [eqb ht_of]; done.
Qed.

(** A shrinking that starts moves nothing: it leaves the table as it is, or replaces one
    without entries. *)
Lemma shrink_shape d : dict_ok d -> exists d', _dictShrinkIfNeeded dict_can_resize d = Ret d' /\
  (d' = d \/ dictIsRehashing d = false /\ telems (ht1 d') = [] /\ (ht0 d' = ht0 d \/ telems (ht0 d) = [] /\ telems (ht0 d') = [])).
Proof using.
  intros Hd. unfold _dictShrinkIfNeeded. destruct (0 <? pauseAutoResize d); [by exists d; auto|]. unfold dictShrinkIfNeeded.
  destruct (dictIsRehashing d) eqn:Er; [by exists d; auto|]. destruct (_ <=? DICT_HT_INITIAL_SIZE); [by exists d; auto|]. destruct (_ || _); [|by exists d; auto].
  destruct (dictTypeResizeAllowed d _); [|by exists d; auto]. unfold dictShrink. rewrite Er. cbn [orb]. destruct (_ || _); [by exists d; auto|]. unfold _dictResize. rewrite Er.
  destruct (_ || _); [by exists d; auto|]. destruct (_ =? _); [by exists d; auto|]. cbn zeta. destruct (_ || _) eqn:Ec; cbn [obind fst snd]; eexists; (split; [reflexivity|]); right; (split; [done|]).
  - split; [done|]. right. split; [|apply concat_replicate_nil]. apply orb_true_iff in Ec as [Ec|Ec]; cbn in Ec.
    + unfold telems. by destruct (ht_table (ht0 d)).
    + apply used_0_elements; [apply (ok_ht0 _ Hd)|]. by apply Z.eqb_eq.
  - split; [apply concat_replicate_nil|]. by left.
Qed.

Lemma concat_others k (chains : list (list (dictEntry K V))) : concat (map (others k) chains) = others k (concat chains).
Proof using. induction chains as [|c chains IH]; [done|]. cbn [map concat]. by rewrite filter_app, IH. Qed.

(** The iterator does not see a deletion but of the entry, unless it points at it. *)
Lemma coming_others d d' it l k : started it = true -> coming d it l -> it_nextEntry it <> Some k -> rehashidx d' = rehashidx d ->
  (forall table, ht_table (ht_of d' table) = map (others k) (ht_table (ht_of d table))) -> coming d' it (others k l).
Proof using.
  intros Hs [(Hs' & _)|(_ & Hi & Ht & rest & Hp & ->)] Hk Er Et; [by rewrite Hs in Hs'|]. right. split; [done|]. split; [done|].
  split; [unfold tables_ok, dictIsRehashing in *; by rewrite Er|]. exists (others k rest). split.
  - unfold pending in *. destruct (it_entry it); [|by rewrite Hp]. destruct Hp as [Hn Hp]. destruct rest as [|e rest]; [done|]. rewrite Hn in Hk. cbn [head fmap option_fmap option_map] in Hk.
    rewrite filter_cons_True by congruence. split; [done|]. intros _. destruct (Hp ltac:(done)) as (pre & E). exists (others k pre).
    rewrite Et, list_lookup_fmap, E. cbn. rewrite filter_app, filter_cons_True by congruence. done.
  - unfold later. rewrite Et. rewrite filter_app. f_equal. rewrite filter_app. f_equal.
    + rewrite <- concat_others. f_equal. by rewrite <- (fmap_drop (others k)).
    + unfold dictIsRehashing. rewrite Er. destruct (_ && _); [|done]. unfold telems. pose proof (Et true) as E1. cbn [ht_of] in E1. rewrite E1. by rewrite concat_others.
Qed.

Lemma coming_empty d it l : coming d it l -> started it = true -> (forall table, telems (ht_of d table) = []) -> l = [].
Proof using.
  intros [(Hs & _)|(_ & _ & _ & rest & Hp & ->)] Hs' He; [by rewrite Hs in Hs'|]. assert (later d it = []) as ->.
  { unfold later. pose proof (He true) as E1. cbn [ht_of] in E1. rewrite E1. assert (concat (drop (Z.to_nat (it_index it + 1)) (ht_table (ht_of d (it_table it)))) = []) as ->; [|by destruct (_ && _)].
    apply concat_nil_Forall, Forall_drop, concat_nil_Forall, He. }
  rewrite app_nil_r. unfold pending in Hp. destruct (it_entry it); [|done]. destruct Hp as [_ Hp]. destruct rest as [|e rest]; [done|]. destruct (Hp ltac:(done)) as (pre & E).
  specialize (He (it_table it)). unfold telems in He. rewrite concat_nil_Forall, Forall_lookup in He. apply He in E. by destruct pre.
Qed.

Lemma coming_shrink d d' it l : dict_ok d -> started it = true -> coming d it l ->
  (d' = d \/ dictIsRehashing d = false /\ telems (ht1 d') = [] /\ (ht0 d' = ht0 d \/ telems (ht0 d) = [] /\ telems (ht0 d') = [])) -> coming d' it l.
Proof using.
  intros Hd Hs Hc [->|(Er & E1 & E0)]; [done|].
  assert (it_table it = false) as Ef by (destruct Hc as [(Hs' & _)|(_ & _ & Ht & _)]; [by rewrite Hs in Hs'|]; unfold tables_ok in Ht; destruct (it_table it); [by rewrite Ht in Er|done]).
  destruct E0 as [E0|[E0 E0']].
  - destruct Hc as [(Hs' & _)|(_ & Hi & _ & rest & Hp & ->)]; [by rewrite Hs in Hs'|]. right. split; [done|]. split; [done|]. split; [intros Hx; by rewrite Hx in Ef|]. exists rest. split.
    + unfold pending in *. destruct (it_entry it); [|done]. rewrite Ef in *. cbn [ht_of] in *. by rewrite E0.
    + unfold later. rewrite Ef, E1, Er. cbn [ht_of negb andb]. rewrite E0. by destruct (dictIsRehashing d').
  - assert (l = []) as ->.
    { apply (coming_empty d it l Hc Hs). intros [|]; cbn [ht_of]; [|done]. apply not_rehashing in Er; [|done]. destruct (ok_phase _ Hd) as [[_ ->]|[? _]]; [done|lia]. }
    destruct Hc as [(Hs' & _)|(_ & Hi & _ & rest & Hp & El)]; [by rewrite Hs in Hs'|]. symmetry in El. apply app_eq_nil in El as [-> _]. right. split; [done|]. split; [done|]. split; [intros Hx; by rewrite Hx in Ef|]. exists []. split.
    + unfold pending in *. destruct (it_entry it); [|done]. destruct Hp as [Hn _]. by split.
    + unfold later. rewrite Ef, E1. cbn [ht_of negb andb app]. assert (concat (drop (Z.to_nat (it_index it + 1)) (ht_table (ht0 d'))) = []) as ->; [|by destruct (dictIsRehashing d')].
      apply concat_nil_Forall, Forall_drop, concat_nil_Forall, E0'.
Qed.

Lemma access_paused d k : dict_ok d -> pauserehash d <> 0 -> rehash_on_access dict_can_resize d (Z.land (hashFunction k) (DICTHT_SIZE_MASK (ht_size_exp (ht0 d)))) = Ret d.
Proof using.
  intros Hd Hp. unfold rehash_on_access. destruct (dictIsRehashing d) eqn:Er; [|done]. destruct (initial_idx d k Hd) as (_ & _ & Hb). destruct (Hb Er) as (b & ->).
  destruct (_ <=? _); cbn [obind]; unfold _dictBucketRehash, _dictRehashStep; destruct (Z.eqb_spec (pauserehash d) 0); try done. by destruct b.
Qed.

Lemma dictFind_paused d k : dict_ok d -> pauserehash d <> 0 -> exists r, dictFind dict_can_resize d k = Ret (d, r).
Proof using CK DTok EqK.
  intros Hd Hp. destruct (dictFind_spec dict_can_resize d k Hd) as (d' & r & E & _). exists r. rewrite E. revert E. unfold dictFind. destruct (_ =? 0); [by intros [= <- <-]|].
  rewrite access_paused by done. cbn [obind]. destruct (search _ _ _ _) as [|[he i]]; cbn [obind]; [done|]. by intros [= <- <-].
Qed.

Lemma dictDelete_paused d it l k : dict_ok d -> pauserehash d <> 0 -> started it = true -> coming d it l -> it_nextEntry it <> Some k ->
  exists d' rc, dictDelete dict_can_resize d k = Ret (d', rc) /\ dict_ok d' /\ pauserehash d' = pauserehash d /\ coming d' it (others k l) /\
    elements d' = others k (elements d).
Proof using DTok.
  intros Hd Hp Hs Hc Hk. assert (forall l : list (dictEntry K V), k ∉ key <$> elements d -> (forall e, e ∈ l -> e ∈ elements d) -> others k l = l) as Habs.
  { intros l' Hn Hsub. apply others_absent. intros Hin. apply Hn. apply list_elem_of_fmap in Hin as (e & -> & He). apply list_elem_of_fmap. eauto. }
  assert (forall e, e ∈ l -> e ∈ elements d) as Hsub.
  { intros e He. assert (forall table c, c ∈ ht_table (ht_of d table) -> e ∈ c -> e ∈ elements d) as Hin.
    { intros table c Hcin Hec. unfold elements. apply elem_of_app. destruct table; [right|left]; apply list_elem_of_In, in_concat; exists c; split; by apply list_elem_of_In. }
    destruct Hc as [(Hs' & _)|(_ & _ & _ & rest & Hpe & ->)]; [by rewrite Hs in Hs'|]. apply elem_of_app in He as [He|He].
    - unfold pending in Hpe. destruct (it_entry it); [|subst rest; by apply elem_of_nil in He]. destruct Hpe as [_ Hpe]. destruct Hpe as (pre & E); [intros ->; by apply elem_of_nil in He|].
      apply (Hin (it_table it) (pre ++ rest)); [by eapply list_elem_of_lookup_2|]. apply elem_of_app. by right.
    - unfold later in He. apply elem_of_app in He as [He|He].
      + apply list_elem_of_In, in_concat in He as (c & Hcin & Hec). apply (Hin (it_table it) c); [|by apply list_elem_of_In]. apply list_elem_of_In in Hcin. apply list_elem_of_lookup_1 in Hcin as (i & Hci). rewrite lookup_drop in Hci. by eapply list_elem_of_lookup_2.
      + destruct (_ && _); [|by apply elem_of_nil in He]. apply elem_of_app. by right. }
  unfold dictDelete, dictGenericDelete. destruct (Z.eqb_spec (dictSize d) 0) as [Hz|Hnz].
  { assert (elements d = []) as E0 by (unfold dictSize in Hz; rewrite (ok_used _ (ok_ht0 _ Hd)), (ok_used _ (ok_ht1 _ Hd)) in Hz; unfold elements; destruct (telems (ht0 d)), (telems (ht1 d)); cbn in *; done || lia).
    assert (k ∉ key <$> elements d) as Hn by (rewrite E0; apply not_elem_of_nil). cbn [obind]. eexists d, _. split; [done|]. rewrite (Habs l Hn Hsub), (Habs (elements d) Hn) by done. done. }
  rewrite access_paused by done. cbn [obind]. pose proof (nonempty_exp d Hd Hnz) as Hx. destruct (initial_idx d k Hd) as (Hi & Em & _).
  destruct (search_spec d k (Z.land (hashFunction k) (DICTHT_SIZE_MASK (ht_size_exp (ht0 d)))) Hd Hx) as (r & i & -> & Hr); [split; [done|right; auto]|]. cbn [obind]. destruct r as [r|].
  - destruct Hr as (e & Hr & <-). rewrite Hr. cbn [obind]. destruct (unlink_others d r e Hd Hr) as (d1 & E1 & Er1 & Et1).
    destruct (unlink_spec d r e Hd Hr) as (d1' & rest & E1' & Hok1 & _ & _ & Ep1 & _). rewrite E1 in E1'. injection E1' as <-. rewrite E1. cbn [obind].
    destruct (shrink_shape d1 Hok1) as (d2 & E2 & Hsh). destruct (_dictShrinkIfNeeded_spec dict_can_resize d1 Hok1) as (d2' & E2' & S2). rewrite E2 in E2'. injection E2' as <-. rewrite E2. cbn [obind].
    assert (dictIsRehashing d1 = dictIsRehashing d) as Er by (unfold dictIsRehashing; by rewrite Er1).
    pose proof (coming_others d d1 it l (key e) Hs Hc Hk Er1 Et1) as Hc1.
    assert (elements d1 = others (key e) (elements d)) as Ee1.
    { unfold elements, telems. rewrite filter_app. pose proof (Et1 false) as F0. pose proof (Et1 true) as F1. cbn [ht_of] in *. by rewrite F0, F1, !concat_others. }
    eexists d2, _. split; [done|]. split; [apply S2|]. split; [rewrite (sc_pause _ _ S2); done|]. split; [by eapply coming_shrink|].
    rewrite <- Ee1. destruct Hsh as [->|(F & F1 & F0)]; [done|]. unfold elements. rewrite F1. apply not_rehashing in F; [|done]. destruct (ok_phase _ Hok1) as [[_ ->]|[? _]]; [|lia]. destruct F0 as [->|[-> ->]]; done.
  - destruct Hr as [Hn _]. eexists d, _. split; [done|]. rewrite (Habs l Hn Hsub), (Habs (elements d) Hn) by done. done.
Qed.

(** ** A program that uses a safe iterator *)

(** It takes the next entry, looks a key up, or deletes one, other than the one the
    iterator points at next, in any order. *)
Inductive op := ONext | OFind (k : K) | ODelete (k : K).

Fixpoint run (ops : list op) d it (seen : list (dictEntry K V)) : outcome (dict K V * dictIterator (K := K) * list (dictEntry K V)) :=
  match ops with
  | [] => Ret (d, it, seen)
  | ONext :: ops => let* (r, de) := dictNext address d it in let '(d, it) := r in run ops d it (match de with Some e => seen ++ [e] | None => seen end)
  | OFind k :: ops => let* (d, _) := dictFind dict_can_resize d k in run ops d it seen
  | ODelete k :: ops =>
      if decide (it_nextEntry it = Some k) then run ops d it seen
      else let* (d, _) := dictDelete dict_can_resize d k in run ops d it seen
  end.

(** What has been returned, and what will be, are entries of the first dict, once each,
    and every entry of the present one is among them. *)
Record progress d0 d it (seen : list (dictEntry K V)) : Prop := {
  pr_ok : dict_ok d;
  pr_pause : pauserehash d = pauserehash d0 + 1;
  pr_started : started it = true;
  pr_safe : it_safe it = true;
  pr_coming : exists l, coming d it l /\ NoDup (key <$> seen ++ l) /\ (forall e, e ∈ seen ++ l -> e ∈ elements d0) /\ (forall e, e ∈ elements d -> e ∈ seen ++ l);
}.

Lemma progress_next d0 d it seen : progress d0 d it seen -> exists it' de, dictNext address d it = Ret (d, it', de) /\
  progress d0 d it' (match de with Some e => seen ++ [e] | None => seen end) /\ (de = None -> forall e, e ∈ elements d -> e ∈ seen).
Proof using DTok.
  intros [Hok Hp Hs Hsafe (l & Hc & Hn & Hin & Hall)]. destruct (dictNext_spec d it l Hok Hc) as (it' & E & Hc' & Hs' & Es & _). unfold begun in *. rewrite Hs in *.
  exists it', (head l). split; [done|]. destruct l as [|e l]; cbn [head tail] in *.
  - split; [|intros _ e He; specialize (Hall e He); by rewrite app_nil_r in Hall]. split; try done; [congruence|]. exists []. done.
  - split; [|done]. split; try done; [congruence|]. exists l. rewrite <- !app_assoc. done.
Qed.

Lemma sublist_others (l : list (dictEntry K V)) k : sublist (others k l) l.
Proof using. induction l as [|e l IH]; [done|]. rewrite filter_cons. case_decide; by constructor. Qed.

Lemma progress_delete d0 d it seen k : 0 <= pauserehash d0 -> progress d0 d it seen -> it_nextEntry it <> Some k -> exists d' rc, dictDelete dict_can_resize d k = Ret (d', rc) /\ progress d0 d' it seen.
Proof using CK DTok EqK.
  intros H0 [Hok Hp Hs Hsafe (l & Hc & Hn & Hin & Hall)] Hk. destruct (dictDelete_paused d it l k Hok ltac:(lia) Hs Hc Hk) as (d' & rc & E & Hok' & Hp' & Hc' & Ee).
  exists d', rc. split; [done|]. split; try done; [congruence|]. exists (others k l). split; [done|]. split_and!.
  - apply (sublist_NoDup _ _ Hn). rewrite !fmap_app. apply sublist_app; [done|]. apply fmap_sublist, sublist_others.
  - intros e He. apply Hin. apply elem_of_app in He as [He|He]; apply elem_of_app; [by left|right]. apply list_elem_of_filter in He. tauto.
  - intros e He. rewrite Ee in He. apply list_elem_of_filter in He as [Hne He]. specialize (Hall e He). apply elem_of_app in Hall as [?|?]; apply elem_of_app; [by left|right]. by apply list_elem_of_filter.
Qed.

Lemma iter_run_spec d0 ops d it seen : 0 <= pauserehash d0 -> progress d0 d it seen -> exists d' it' seen', run ops d it seen = Ret (d', it', seen') /\ progress d0 d' it' seen'.
Proof using CK DTok EqK.
  intros H0. revert d it seen. induction ops as [|o ops IH]; intros d it seen Hpr; [by exists d, it, seen|]. destruct o as [|k|k]; cbn [run].
  - destruct (progress_next d0 d it seen Hpr) as (it' & de & -> & Hpr' & _). cbn [obind]. by apply IH.
  - destruct (dictFind_paused d k (pr_ok _ _ _ _ Hpr)) as (r & ->); [rewrite (pr_pause _ _ _ _ Hpr); lia|]. cbn [obind]. by apply IH.
  - case_decide as Hk; [by apply IH|]. destruct (progress_delete d0 d it seen k H0 Hpr Hk) as (d' & rc & -> & Hpr'). cbn [obind]. by apply IH.
Qed.

(** C18: iteration over a dict, in the middle of a rehashing or not.  An iteration, safe
    or unsafe, returns every entry exactly once and leaves the dict as it was.  While a
    safe iterator is at work, lookups and deletions of any keys but the one it points at
    next may come in any order between the calls: no freed entry is read, no entry is
    returned twice, every entry that is still in the dict when the end is reached has
    been returned, and releasing the iterator restores the pause counter. *)
Theorem dict_iteration d : dict_ok d ->
  (forall safe : bool, dictIterate address d (if safe then dictInitSafeIterator else dictInitIterator) = Ret (d, elements d)) /\
  (0 <= pauserehash d -> forall ops, exists d' it' seen, run (ONext :: ops) d dictInitSafeIterator [] = Ret (d', it', seen) /\
     dict_ok d' /\ NoDup (key <$> seen) /\ (forall e, e ∈ seen -> e ∈ elements d) /\
     (exists d2, dictResetIterator address d' it' = Ret d2 /\ pauserehash d2 = pauserehash d) /\
     (forall it2, dictNext address d' it' = Ret (d', it2, None) -> forall e, e ∈ elements d' -> e ∈ seen)).
Proof using CK DTok EqK.
  intros Hd. split; [intros safe; by apply dictIterate_spec|]. intros Hp ops. cbn [run].
  assert (coming d dictInitSafeIterator (elements d)) as Hc by (left; done).
  destruct (dictNext_spec d _ _ Hd Hc) as (it1 & -> & Hc1 & Hs1 & E1 & _). cbn [obind]. unfold begun in *. cbn [started dictInitSafeIterator it_index it_table it_safe negb andb Z.eqb Pos.eqb] in *.
  destruct (iter_run_spec d ops (dictPauseRehashing d) it1 (match head (elements d) with Some e => [] ++ [e] | None => [] end)) as (d' & it' & seen & E & Hpr); [done| |].
  - split; [by apply dictPauseRehashing_ok|done|done|by rewrite E1|]. exists (tail (elements d)). split; [done|]. pose proof (ok_nodup _ Hd) as Hn.
    change (elements (dictPauseRehashing d)) with (elements d). destruct (elements d) as [|e l]; cbn [head tail app] in *; done.
  - exists d', it', seen. rewrite E. split; [done|]. pose proof Hpr as [Hok Hpa Hst Hsafe (l & Hcl & Hnd & Hin & Hall)]. split; [done|]. split; [rewrite fmap_app in Hnd; by apply NoDup_app in Hnd as [? _]|].
    split; [intros e He; apply Hin, elem_of_app; by left|]. split.
    + unfold dictResetIterator. rewrite Hst, Hsafe. eexists. split; [done|]. cbn. lia.
    + intros it2 EN. destruct (progress_next d d' it' seen Hpr) as (it3 & de & EN' & _ & Hend). rewrite EN in EN'. injection EN' as _ <-. by apply Hend.
Qed.
End Spec.


(** The iterator is in bucket 1 of table 0, behind entry 5, and 1 is deleted under it. *)
Definition no_address (t : ht Z Z) : Z := 0.

Lemma dict_iteration_witness : exists d' it' seen,
  run no_address DICT_RESIZE_ENABLE [ONext; ODelete 2; ONext; OFind 8; ODelete 1; ONext] d_rehashing dictInitSafeIterator [] = Ret (d', it', seen) /\ NoDup (key <$> seen).
Proof.
  destruct (dict_iteration no_address DICT_RESIZE_ENABLE d_rehashing d_rehashing_ok) as [_ H].
  destruct (H ltac:(done) [ODelete 2; ONext; OFind 8; ODelete 1; ONext]) as (d' & it' & seen & E & _ & Hn & _). by exists d', it', seen.
Defined.

(** A deletion that a safe iterator does not survive.  The comment in dict.h lets the
    caller of a safe iterator use any function of the dict; after the entry that
    [nextEntry] points at is deleted, the next call of [dictNext] reads a freed entry. *)
Theorem safe_iterator_fault :
  exists d it, dictNext no_address d_rehashing dictInitSafeIterator = Ret (d, it, Some (Entry 5 (Some 50))) /\
  exists d2, dictDelete DICT_RESIZE_ENABLE d 1 = Ret (d2, DICT_OK) /\ dictNext no_address d2 it = Abort.
Proof.
  exists (dictPauseRehashing d_rehashing), (Iterator 1 false true (Some 5) (Some 1) 0). split; [vm_compute; reflexivity|].
  exists (match dictDelete DICT_RESIZE_ENABLE (dictPauseRehashing d_rehashing) 1 with Ret (d2, _) => d2 | Abort => d_rehashing end). split; vm_compute; reflexivity.
Qed.

End DictIter.
