(* ===== verification/TSet.v ===== *)
(** * TSet: the set type in its three encodings (t_set.c)

    A set object is an intset, a listpack or a hash table without values; the operations
    choose among the encodings and convert between them as the code does, with the limits
    of the configuration.  A value that comes as an integer ([str == NULL] in the code)
    is [LVal], one that comes as a string is [SVal]; whether the string is an sds only
    decides about copies.  The loops over a set run the iterator of the code. *)
From S2P Require Import Prelude NumStr Intset LpEntry Listpack LpBulk Dict DictIter StrObj.
Import NumStr LpEntry Listpack LpBulk Dict DictIter.

Module TSet.

Inductive setobj := SIntset (iset : Intset.t) | SListpack (lp : list Z) | SHt (ht : dict (list Z) unit).
Inductive encoding := OBJ_ENCODING_HT | OBJ_ENCODING_INTSET | OBJ_ENCODING_LISTPACK.

Definition encoding_of (s : setobj) : encoding :=
  match s with SIntset _ => OBJ_ENCODING_INTSET | SListpack _ => OBJ_ENCODING_LISTPACK | SHt _ => OBJ_ENCODING_HT end.

(** The value as a string, [ll2string] into a local buffer for an integer. *)
Definition text_of (v : listpackEntry) : list Z := match v with SVal s => s | LVal ll => StrObj.printed LONG_STR_SIZE ll end.

Record config := Config { set_max_intset_entries : Z; set_max_listpack_entries : Z; set_max_listpack_value : Z }.

(** The position of an iterator; only the field of the encoding is used. *)
Record setTypeIterator := SetIter { ii : Z; lpi : option nat; di : dictIterator (K := list Z) }.
Definition setTypeInitIterator : setTypeIterator := SetIter 0 None dictInitIterator.

Section Set_.
Context `{DT : DictType (list Z)}.
Context (server : config) (fresh : nat -> Z) (usable : nat -> nat).
Context (dict_can_resize : dictResizeEnable) (address : ht (list Z) unit -> Z).

Definition createSetObject : setobj := SHt dictCreate.
Definition createIntsetObject : setobj := SIntset Intset.intsetNew.
Definition createSetListpackObject : setobj := SListpack (lpNew fresh usable 0).

(** A listpack operation that must not return NULL. *)
Definition the_listpack (r : outcome (option (list Z * option nat))) : outcome (list Z) :=
  let* r := r in match r with Some (lp, _) => Ret lp | None => Abort end.

(** ** Iteration *)

(** [None] is the return value -1. *)
Definition setTypeNext (s : setobj) (si : setTypeIterator) : outcome (setTypeIterator * option listpackEntry) :=
  match s with
  | SHt d =>
      let* (r, de) := dictNext address d (di si) in
      Ret (SetIter (ii si) (lpi si) (snd r), (fun e => SVal (key e)) <$> de)
  | SIntset iset => Ret (SetIter (ii si + 1) (lpi si) (di si), LVal <$> Intset.intsetGet iset (ii si))
  | SListpack lp =>
      let* p := match lpi si with None => lpFirst lp | Some p => lpNext lp p end in
      match p with
      | None => Ret (si, None)
      | Some p => Ret (SetIter (ii si) (Some p) (di si), Some (lpGetValue lp p))
      end
  end.

Definition setTypeReleaseIterator (s : setobj) (si : setTypeIterator) : outcome unit :=
  match s with SHt d => let* _ := dictResetIterator address d (di si) in Ret tt | _ => Ret tt end.

(** More turns than any loop over the set takes. *)
Definition turns (s : setobj) : nat :=
  match s with SIntset iset => S (Z.to_nat (Intset.intsetLen iset)) | SListpack lp => length lp | SHt d => S (Z.to_nat (dictSize d)) end.

(** [while (setTypeNext(si, ...) != -1)]; the body says whether it goes on. *)
Fixpoint foreach_loop {A} (fuel : nat) (s : setobj) (body : A -> listpackEntry -> outcome (A * bool)) (si : setTypeIterator) (a : A) : outcome (A * setTypeIterator) :=
  match fuel with
  | O => Abort
  | S fuel =>
      let* (si, v) := setTypeNext s si in
      match v with
      | None => Ret (a, si)
      | Some v =>
          let* (a, more) := body a v in
          if more : bool then foreach_loop fuel s body si a else Ret (a, si)
      end
  end.

Definition foreach {A} (s : setobj) (body : A -> listpackEntry -> outcome (A * bool)) (a : A) : outcome A :=
  let* (a, si) := foreach_loop (turns s) s body setTypeInitIterator a in
  let* _ := setTypeReleaseIterator s si in
  Ret a.

(** ** Size and conversions *)

(** [lpLength] may write the count it found into the header. *)
Definition setTypeSize (s : setobj) : outcome (Z * setobj) :=
  match s with
  | SHt d => Ret (dictSize d, s)
  | SIntset iset => Ret (Intset.intsetLen iset, s)
  | SListpack lp => let* (n, lp) := lpLength lp in Ret (n, SListpack lp)
  end.

(** The new set, and whether the code is C_OK.  [panic] is [None], and otherwise whether
    the allocation of the table succeeds. *)
Definition setTypeConvertAndExpand (s : setobj) (enc : encoding) (cap : Z) (panic : option bool) : outcome (setobj * bool) :=
  match enc, s with
  | OBJ_ENCODING_HT, SHt _ | OBJ_ENCODING_LISTPACK, SListpack _ | OBJ_ENCODING_INTSET, _ => Abort
  | OBJ_ENCODING_HT, _ =>
      let d := dictCreate in
      let* (d, ok) := match panic with
                      | None => let* (d, _) := dictExpand d cap in Ret (d, true)
                      | Some alloc => let* (d, rc) := dictTryExpand d cap alloc in Ret (d, rc =? DICT_OK)
                      end in
      if negb ok then Ret (s, false) else
      let* d := foreach s (fun d v => let* (d, rc) := dictAdd dict_can_resize d (text_of v) tt in
                                      if rc =? DICT_OK then Ret (d, true) else Abort) d in
      Ret (SHt d, true)
  | OBJ_ENCODING_LISTPACK, _ =>
      let* (estcap, s) :=
        match s with
        | SIntset iset =>
            let* (n, s) := setTypeSize s in
            if 0 <? n then
              Ret (Z.max (lpEstimateBytesRepeatedInteger (Intset.intsetMin iset) cap) (lpEstimateBytesRepeatedInteger (Intset.intsetMax iset) cap), s)
            else Ret (cap * 2, s)
        | _ => Ret (cap * 2, s)
        end in
      let lp := lpNew fresh usable estcap in
      let* lp := foreach s (fun lp v => let* lp := the_listpack (match v with SVal s => lpAppend fresh usable lp s | LVal ll => lpAppendInteger fresh usable lp ll end) in
                                        Ret (lp, true)) lp in
      Ret (SListpack lp, true)
  end.

Definition convert (s : setobj) (enc : encoding) (cap : Z) : outcome setobj := let* (s, _) := setTypeConvertAndExpand s enc cap None in Ret s.

Definition setTypeConvert (s : setobj) (enc : encoding) : outcome setobj :=
  let* (n, s) := setTypeSize s in convert s enc n.

Definition isSdsRepresentableAsLongLong (s : list Z) : bool := match string2ll s with Some _ => true | None => false end.

Definition setTypeCreate (value : list Z) (size_hint : Z) : outcome setobj :=
  if isSdsRepresentableAsLongLong value && (size_hint <=? set_max_intset_entries server) then Ret createIntsetObject
  else if size_hint <=? set_max_listpack_entries server then Ret createSetListpackObject
  else let* (d, _) := dictExpand dictCreate size_hint in Ret (SHt d).

Definition setTypeMaybeConvert (s : setobj) (size_hint : Z) : outcome setobj :=
  if match s with
     | SListpack _ => set_max_listpack_entries server <? size_hint
     | SIntset _ => set_max_intset_entries server <? size_hint
     | SHt _ => false
     end
  then convert s OBJ_ENCODING_HT size_hint else Ret s.

Definition intsetMaxEntries : Z := if 2 ^ 30 <=? set_max_intset_entries server then 2 ^ 30 else set_max_intset_entries server.

Definition maybeConvertIntset (iset : Intset.t) : outcome setobj :=
  if intsetMaxEntries <? Intset.intsetLen iset then setTypeConvert (SIntset iset) OBJ_ENCODING_HT else Ret (SIntset iset).

Definition maybeConvertToIntset (s : setobj) : outcome setobj :=
  match s with
  | SIntset _ => Ret s
  | _ =>
      let* (n, s) := setTypeSize s in
      if intsetMaxEntries <? n then Ret s else
      let* iset := foreach s (fun iset v =>
                              match (match v with SVal str => string2ll str | LVal ll => Some ll end) with
                              | None => Abort
                              | Some llval => let '(iset, success) := Intset.intsetAdd fresh iset llval in if success : bool then Ret (iset, true) else Abort
                              end) Intset.intsetNew in
      Ret (SIntset iset)
  end.

(** ** Adding, removing, testing *)

(** [lpFind] from the first element. *)
Definition lp_find (lp str : list Z) : outcome (option nat) :=
  let* p := lpFirst lp in match p with None => Ret None | Some p => lpFind lp (Some p) str 0 end.

Definition add_intset (iset : Intset.t) (llval : Z) : outcome (setobj * bool) :=
  let '(iset, success) := Intset.intsetAdd fresh iset llval in
  if success : bool then let* s := maybeConvertIntset iset in Ret (s, true) else Ret (SIntset iset, false).

(** [dictAdd] of a string that must be new. *)
Definition add_new (s : setobj) (str : list Z) : outcome (setobj * bool) :=
  match s with
  | SHt d => let* (d, rc) := dictAdd dict_can_resize d str tt in if rc =? DICT_OK then Ret (SHt d, true) else Abort
  | _ => Abort
  end.

Definition add_listpack (lp : list Z) (v : listpackEntry) : outcome (setobj * bool) :=
  let str := text_of v in
  let len := Z.of_nat (length str) in
  let* p := lp_find lp str in
  match p with
  | Some _ => Ret (SListpack lp, false)
  | None =>
      let* (n, lp) := lpLength lp in
      if (n <? set_max_listpack_entries server) && (len <=? set_max_listpack_value server) && lpSafeToAdd (Some lp) len then
        let* lp := the_listpack (match v with LVal ll => lpAppendInteger fresh usable lp ll | SVal s => lpAppend fresh usable lp s end) in
        Ret (SListpack lp, true)
      else
        let* (n, lp) := lpLength lp in
        let* s := convert (SListpack lp) OBJ_ENCODING_HT (n + 1) in
        add_new s str
  end.

(** A string that is not an integer into an intset. *)
Definition add_other (iset : Intset.t) (str : list Z) : outcome (setobj * bool) :=
  let len := Z.of_nat (length str) in
  let n := Intset.intsetLen iset in
  let '(maxelelen, totsize) :=
    if negb (n =? 0) then
      let elelen1 := sdigits10 (Intset.intsetMax iset) in
      let elelen2 := sdigits10 (Intset.intsetMin iset) in
      let s1 := lpEstimateBytesRepeatedInteger (Intset.intsetMax iset) n in
      let s2 := lpEstimateBytesRepeatedInteger (Intset.intsetMin iset) n in
      (Z.max elelen1 elelen2, Z.max s1 s2)
    else (0, 0) in
  if (n <? set_max_listpack_entries server) && (len <=? set_max_listpack_value server) &&
     (maxelelen <=? set_max_listpack_value server) && lpSafeToAdd None (totsize + len) then
    let* s := convert (SIntset iset) OBJ_ENCODING_LISTPACK (n + 1) in
    match s with
    | SListpack lp =>
        let* lp := the_listpack (lpAppend fresh usable lp str) in
        Ret (SListpack (lpShrinkToFit fresh usable lp), true)
    | _ => Abort
    end
  else
    let* s := convert (SIntset iset) OBJ_ENCODING_HT (n + 1) in
    add_new s str.

(** The set, and whether the value was added. *)
Definition setTypeAddAux (s : setobj) (v : listpackEntry) : outcome (setobj * bool) :=
  match v, s with
  | LVal llval, SIntset iset => add_intset iset llval
  | _, SHt d =>
      let* (d, position) := dictFindPositionForInsert dict_can_resize d (text_of v) in
      match position with
      | inl position => let* (d, _) := dictInsertAtPosition d (text_of v) position in Ret (SHt d, true)
      | inr _ => Ret (SHt d, false)
      end
  | _, SListpack lp => add_listpack lp v
  | SVal str, SIntset iset => match string2ll str with Some value => add_intset iset value | None => add_other iset str end
  end.

Definition setTypeAdd (s : setobj) (value : list Z) : outcome (setobj * bool) := setTypeAddAux s (SVal value).

Definition setTypeRemoveAux (s : setobj) (v : listpackEntry) : outcome (setobj * bool) :=
  match v, s with
  | LVal llval, SIntset iset => let '(iset, success) := Intset.intsetRemove fresh iset llval in Ret (SIntset iset, success)
  | _, SHt d => let* (d, rc) := dictDelete dict_can_resize d (text_of v) in Ret (SHt d, rc =? DICT_OK)
  | _, SListpack lp =>
      let* p := lp_find lp (text_of v) in
      match p with
      | None => Ret (s, false)
      | Some p => let* lp := the_listpack (lpDelete fresh usable lp p) in Ret (SListpack lp, true)
      end
  | SVal str, SIntset iset =>
      match string2ll str with
      | Some llval => let '(iset, success) := Intset.intsetRemove fresh iset llval in Ret (SIntset iset, success)
      | None => Ret (s, false)
      end
  end.

Definition setTypeRemove (s : setobj) (value : list Z) : outcome (setobj * bool) := setTypeRemoveAux s (SVal value).

(** The lookup in the hash table may do a step of its rehashing. *)
Definition setTypeIsMemberAux (s : setobj) (v : listpackEntry) : outcome (setobj * bool) :=
  match v, s with
  | LVal llval, SIntset iset => Ret (s, Intset.intsetFind iset llval)
  | _, SListpack lp => let* p := lp_find lp (text_of v) in Ret (s, match p with Some _ => true | None => false end)
  | SVal str, SIntset iset => Ret (s, match string2ll str with Some llval => Intset.intsetFind iset llval | None => false end)
  | _, SHt d => let* (d, de) := dictFind dict_can_resize d (text_of v) in Ret (SHt d, match de with Some _ => true | None => false end)
  end.

Definition setTypeIsMember (s : setobj) (value : list Z) : outcome (setobj * bool) := setTypeIsMemberAux s (SVal value).

(** ** Copying *)

Definition setTypeDup (s : setobj) : outcome setobj :=
  match s with
  | SIntset iset => Ret (SIntset (Intset.of_blob (take (Z.to_nat (Intset.intsetBlobLen iset)) (Intset.to_blob iset))))
  | SListpack lp => let sz := lpBytes lp in Ret (SListpack (store (lp_realloc fresh usable [] sz) 0 (load lp 0 (Z.to_nat sz))))
  | SHt d =>
      let* (d', _) := dictExpand dictCreate (dictSize d) in
      foreach s (fun o v => let* (o, _) := setTypeAdd o (text_of v) in Ret (o, true)) (SHt d')
  end.

End Set_.

End TSet.
