(* ===== verification/TSetSpec.v ===== *)
(** * TSetSpec: set objects refine finite sets (t_set.c)

    Every operation of the set type, in every encoding and across the conversions,
    against a finite set of strings. *)
From stdpp Require Import gmap.
From S2P Require Import Prelude NumStr Intset LpEntry Listpack LpBulk Dict DictIter StrObj TSet.
Import NumStr LpEntry Listpack LpBulk Dict DictIter TSet.

Module TSetSpec.

Abbreviation sset := (gset (list Z)).

(** The string a value stands for. *)
Definition vtext (v : listpackEntry) : list Z := match v with SVal s => s | LVal ll => repr ll end.

Lemma text_of_vtext v : new_ok v -> text_of v = vtext v.
Proof. destruct v as [s|ll]; [done|]. intros H. apply StrObj.printed_repr; [done|]. unfold LONG_STR_SIZE. lia. Qed.

Lemma parse_repr v : in_s 64 v -> string2ll (repr v) = Some v.
Proof. intros. by apply string2ll_spec. Qed.

Lemma repr_text_inj v w : in_s 64 v -> in_s 64 w -> repr v = repr w -> v = w.
Proof. intros Hv Hw E. pose proof (parse_repr v Hv) as H1. rewrite E, parse_repr in H1 by done. by injection H1. Qed.

Lemma repr_ok v : in_s 64 v -> bytes (repr v) /\ Z.of_nat (length (repr v)) <= 20.
Proof.
  intros Hv. destruct (repr_length v Hv) as [H1 H2]. split; [|lia].
  assert (forall n x, bytes (dec_fixed n x)) as Hd by (intros n x; eapply Forall_impl; [apply dec_fixed_digits|]; cbn; unfold is_digit, is_byte, in_u; lia).
  unfold repr. destruct (v <? 0); [|apply Hd]. constructor; [by vm_compute|apply Hd].
Qed.

(** ** What the encodings hold *)

(** A string is stored as an integer when it is one. *)
Definition canonical (e : elem) : Prop := match e with EStr t => string2ll t = None | EInt _ => True end.

Section Spec.
Context `{DT : DictType (list Z), DTok : !DictTypeOk (list Z)}.
Context (server : config) (fresh : nat -> Z) (usable : nat -> nat).
Context (dict_can_resize : dictResizeEnable) (address : ht (list Z) unit -> Z).
Context (Husable : forall n, (n <= usable n)%nat).

Definition string_ok (s : list Z) : Prop := bytes s /\ Z.of_nat (length s) < 2 ^ 32.

Definition holds (s : setobj) (X : sset) : Prop :=
  match s with
  | SIntset iset => Intset.wf iset /\ X = list_to_set (repr <$> Intset.elements iset)
  | SListpack lp => exists es, listpack lp es /\ Forall canonical es /\ NoDup (elem_text <$> es) /\ X = list_to_set (elem_text <$> es)
  | SHt d => dict_ok d /\ pauseAutoResize d <= 0 /\ X = dom (to_map d) /\ (forall k, k ∈ X -> string_ok k)
  end.

(** The values an iterator gives. *)
Definition values_of (s : setobj) (X : sset) (vs : list listpackEntry) : Prop :=
  NoDup (vtext <$> vs) /\ X = list_to_set (vtext <$> vs) /\ Forall new_ok vs.

(** Calls of [setTypeNext] from [si] on give [vs]; wherever it stops, the iterator can be released. *)
Inductive nexts (s : setobj) : setTypeIterator -> list listpackEntry -> Prop :=
| nexts_end si si' : setTypeNext address s si = Ret (si', None) -> setTypeReleaseIterator address s si' = Ret tt -> nexts s si []
| nexts_cons si si' v vs : setTypeNext address s si = Ret (si', Some v) -> setTypeReleaseIterator address s si' = Ret tt -> nexts s si' vs -> nexts s si (v :: vs).

Lemma elements_s64 iset v : Intset.wf iset -> v ∈ Intset.elements iset -> in_s 64 v.
Proof using.
  intros Hwf Hv. apply Intset.elements_elem in Hv as (i & _ & <-); [|apply (Intset.wf_len _ Hwf)].
  pose proof (Intset.get_swrap_range iset i (Intset.encoding iset) (Intset.wf_enc _ Hwf)) as H. unfold Intset._intsetGet. destruct (Intset.wf_enc _ Hwf) as [E|[E|E]]; rewrite E in H |- *; unfold in_s in *; cbn in *; lia.
Qed.

Lemma elements_nodup iset : Intset.wf iset -> NoDup (Intset.elements iset).
Proof using.
  intros Hwf. apply NoDup_alt. intros i j x Hi Hj. apply Intset.elements_lookup in Hi as [Hi <-], Hj as [Hj E].
  destruct (Nat.lt_trichotomy i j) as [H|[H|H]]; [|done|]; exfalso.
  - pose proof (Intset.wf_sorted _ Hwf (Z.of_nat i) (Z.of_nat j)). lia.
  - pose proof (Intset.wf_sorted _ Hwf (Z.of_nat j) (Z.of_nat i)). lia.
Qed.

Lemma length_elements iset : length (Intset.elements iset) = Z.to_nat (Intset.len iset).
Proof using. unfold Intset.elements. by rewrite length_map, length_seq. Qed.

Lemma nexts_intset iset (k : nat) d lpi_ : 0 <= Intset.len iset < 2 ^ 32 - 1 -> nexts (SIntset iset) (SetIter (Z.of_nat k) lpi_ d) (LVal <$> drop k (Intset.elements iset)).
Proof using.
  intros Hl. remember (drop k (Intset.elements iset)) as vs eqn:E. revert k E. induction vs as [|v vs IH]; intros k E.
  - eapply nexts_end; [|done]. cbn [setTypeNext ii lpi di]. do 2 f_equal. apply (f_equal length) in E. rewrite length_drop, length_elements in E. cbn in E.
    unfold Intset.intsetGet. destruct (Z.ltb_spec (Z.of_nat k) (Intset.len iset)); [lia|done].
  - assert (Intset.elements iset !! k = Some v) as Hk by (rewrite <- (Nat.add_0_r k), <- lookup_drop, <- E; done).
    pose proof Hk as Hk'. apply Intset.elements_lookup in Hk' as [Hlt Hv].
    eapply (nexts_cons _ _ (SetIter (Z.of_nat k + 1) lpi_ d)); [|done|].
    + cbn [setTypeNext ii lpi di]. do 2 f_equal. unfold Intset.intsetGet. destruct (Z.ltb_spec (Z.of_nat k) (Intset.len iset)); [by rewrite Hv|lia].
    + replace (Z.of_nat k + 1) with (Z.of_nat (S k)) by lia. apply IH. rewrite (drop_S _ v) in E by done. by injection E.
Qed.

Lemma nexts_listpack lp es k d : listpack lp es -> forall es2 es1 lpi_,
  es = es1 ++ es2 -> match lpi_ with None => es1 = [] | Some p => exists es0 e, es1 = es0 ++ [e] /\ p = pos es0 end ->
  nexts (SListpack lp) (SetIter k lpi_ d) (value_of <$> es2).
Proof using.
  intros Hl. pose proof Hl as (nf & slack & R). induction es2 as [|e es2 IH]; intros es1 lpi_ E Hp.
  - assert ((match lpi_ with None => lpFirst lp | Some p => lpNext lp p end) = Ret None) as En.
    { rewrite app_nil_r in E. destruct lpi_ as [p|].
      - destruct Hp as (es0 & e & -> & ->). by rewrite (lpNext_spec lp es nf slack R es0 e [] E).
      - rewrite Hp in E. subst es. by rewrite (lpFirst_spec lp [] nf slack R). }
    eapply nexts_end; [|done]. cbn [setTypeNext lpi]. by rewrite En.
  - assert ((match lpi_ with None => lpFirst lp | Some p => lpNext lp p end) = Ret (Some (pos es1))) as En.
    { destruct lpi_ as [p|].
      - destruct Hp as (es0 & e0 & -> & ->). rewrite <- app_assoc in E. cbn [app] in E. by rewrite (lpNext_spec lp es nf slack R es0 e0 _ E).
      - rewrite Hp in E |- *. cbn [app] in E. subst es. by rewrite (lpFirst_spec lp _ nf slack R). }
    cbn [fmap list_fmap]. eapply (nexts_cons _ _ (SetIter k (Some (pos es1)) d)); [|done|].
    + cbn [setTypeNext lpi ii di]. rewrite En. cbn [obind]. rewrite (lpGetValue_spec lp es es1 e es2 Hl E). by destruct e.
    + apply (IH (es1 ++ [e])); [by rewrite <- app_assoc|eauto].
Qed.

Lemma nexts_ht d k p : dict_ok d -> forall l it, coming d it l -> it_safe it = false -> (started it = true -> it_fingerprint it = dictFingerprint address d) ->
  nexts (SHt d) (SetIter k p it) ((fun e => SVal (key e)) <$> l).
Proof using DTok.
  intros Hd. induction l as [|e l IH]; intros it Hc Hs Hf; destruct (dictNext_spec address d it _ Hd Hc) as (it' & E & Hc' & Hs' & Es & Ef);
    assert (begun d it = d) as Eb by (unfold begun; rewrite Hs; by destruct (started it)); rewrite Eb in *;
    assert (it_fingerprint it' = dictFingerprint address d) as Ef' by (rewrite Ef, Hs; destruct (started it); [by apply Hf|done]);
    assert (setTypeReleaseIterator address (SHt d) (SetIter k p it') = Ret tt) as Hrel by (cbn [setTypeReleaseIterator di]; unfold dictResetIterator; by rewrite Hs', Es, Hs, Ef', Z.eqb_refl).
  - eapply nexts_end; [|exact Hrel]. cbn [setTypeNext di ii lpi]. by rewrite E.
  - cbn [fmap list_fmap]. eapply (nexts_cons _ _ (SetIter k p it')); [|exact Hrel|].
    + cbn [setTypeNext di ii lpi]. by rewrite E.
    + apply IH; [done|by rewrite Es|done].
Qed.

(** The loop as a fold over the values. *)
Fixpoint fold_body {A} (body : A -> listpackEntry -> outcome (A * bool)) (vs : list listpackEntry) (a : A) : outcome A :=
  match vs with
  | [] => Ret a
  | v :: vs => let* (a, more) := body a v in if more : bool then fold_body body vs a else Ret a
  end.

Lemma foreach_loop_spec {A} (body : A -> listpackEntry -> outcome (A * bool)) s fuel si vs a : nexts s si vs -> (length vs < fuel)%nat ->
  (let* (a, si) := foreach_loop address fuel s body si a in let* _ := setTypeReleaseIterator address s si in Ret a) = fold_body body vs a.
Proof using.
  intros Hn. revert fuel a. induction Hn as [si si' E Hr|si si' v vs E Hr Hn IH]; intros fuel a Hf; (destruct fuel as [|fuel]; [cbn in Hf; lia|]); cbn [foreach_loop fold_body]; rewrite E; cbn [obind].
  - by rewrite Hr.
  - destruct (body a v) as [|[a' []]]; cbn [obind]; [done|apply IH; cbn in Hf; lia|by rewrite Hr].
Qed.

(** What the loops see of a set. *)
Lemma nexts_spec s X : holds s X -> exists vs, values_of s X vs /\ nexts s setTypeInitIterator vs /\ (length vs < turns s)%nat.
Proof using DTok.
  destruct s as [iset|lp|d]; cbn [holds].
  - intros [Hwf ->]. exists (LVal <$> Intset.elements iset). assert (forall v, v ∈ Intset.elements iset -> in_s 64 v) as Hs by (intros v; by apply elements_s64). split; [|split].
    + assert (vtext <$> (LVal <$> Intset.elements iset) = repr <$> Intset.elements iset) as E by (by rewrite <- list_fmap_compose). split; [|split; [by rewrite E|]].
      * rewrite E. apply NoDup_fmap_2_strong; [|by apply elements_nodup]. intros x y Hx Hy. apply repr_text_inj; by apply Hs.
      * apply Forall_fmap, Forall_forall. exact Hs.
    + pose proof (Intset.wf_len_small iset Hwf). pose proof (Intset.wf_len iset Hwf). apply (nexts_intset iset 0). lia.
    + pose proof (Intset.wf_len iset Hwf). rewrite length_fmap, length_elements. cbn. unfold Intset.intsetLen. lia.
  - intros (es & Hl & Hc & Hn & ->). pose proof Hl as (nf & slack & R). exists (value_of <$> es).
    assert (vtext <$> (value_of <$> es) = elem_text <$> es) as E by (rewrite <- list_fmap_compose; apply list_fmap_ext; intros i [v|t] _; done). split; [|split].
    + split; [by rewrite E|split; [by rewrite E|]]. apply Forall_fmap. pose proof (lp_elems _ _ _ _ R) as He. eapply Forall_impl; [exact He|]. intros [v|t]; cbn; [done|]. intros [? ?]. split; [done|lia].
    + by apply (nexts_listpack lp es 0 dictInitIterator Hl es [] None).
    + pose proof (length_es_total es (lp_elems _ _ _ _ R)) as H1. pose proof (length_lp lp es nf slack R) as H2. unfold total in H1. rewrite length_fmap. cbn. lia.
  - intros (Hd & Hp & -> & Hk). exists ((fun e => SVal (key e)) <$> elements d).
    assert (vtext <$> ((fun e : dictEntry (list Z) unit => SVal (key e)) <$> elements d) = key <$> elements d) as E by (by rewrite <- list_fmap_compose).
    assert (dom (to_map d) = list_to_set (key <$> elements d)) as Ed by (unfold to_map; rewrite dom_list_to_map_L; f_equal; apply fst_kv). split; [|split].
    + split; [rewrite E; apply (ok_nodup _ Hd)|split; [by rewrite E|]]. apply Forall_fmap, Forall_forall. intros e He. apply Hk. rewrite Ed. apply elem_of_list_to_set, list_elem_of_fmap. eauto.
    + apply (nexts_ht d 0 None Hd (elements d)); [left|..]; done.
    + rewrite length_fmap. cbn. unfold dictSize, elements. rewrite (ok_used _ (ok_ht0 _ Hd)), (ok_used _ (ok_ht1 _ Hd)), length_app. lia.
Qed.

Lemma foreach_spec s X : holds s X -> exists vs, values_of s X vs /\
  forall A (body : A -> listpackEntry -> outcome (A * bool)) a, foreach address s body a = fold_body body vs a.
Proof using DTok. intros H. destruct (nexts_spec s X H) as (vs & Hv & Hn & Hl). exists vs. split; [done|]. intros A body a. by apply foreach_loop_spec. Qed.

(** ** Size *)

Lemma size_values s X vs : values_of s X vs -> size X = length vs.
Proof using. intros (Hn & -> & _). rewrite size_list_to_set by done. by rewrite length_fmap. Qed.

Lemma setTypeSize_spec s X : holds s X -> exists s', setTypeSize s = Ret (Z.of_nat (size X), s') /\ holds s' X /\ (forall i, s = SIntset i -> s' = s) /\ encoding_of s' = encoding_of s.
Proof using.
  intros H. destruct s as [iset|lp|d]; cbn [setTypeSize].
  - exists (SIntset iset). split; [|done]. do 2 f_equal. destruct H as [Hwf ->]. pose proof (Intset.wf_len _ Hwf). pose proof (elements_nodup _ Hwf) as Hn.
    rewrite size_list_to_set; [rewrite length_fmap, length_elements; unfold Intset.intsetLen; lia|]. apply NoDup_fmap_2_strong; [|done]. intros x y Hx Hy. by apply repr_text_inj; eapply elements_s64.
  - destruct H as (es & Hl & Hc & Hn & ->). destruct (lpLength_spec lp es Hl) as (lp' & -> & Hl'). cbn [obind]. exists (SListpack lp'). split; [|split; [by exists es|done]].
    do 2 f_equal. rewrite size_list_to_set by done. by rewrite length_fmap.
  - exists (SHt d). split; [|done]. destruct H as (Hd & _ & -> & _). do 2 f_equal. rewrite size_dom. by apply dictSize_map.
Qed.

(** ** Conversions *)

Lemma dictExpand_new cap : exists d rc, dictExpand (K := list Z) (V := unit) dictCreate cap = Ret (d, rc) /\ dict_ok d /\ pauseAutoResize d <= 0 /\ to_map d = ∅.
Proof using.
  assert (dict_ok (dictCreate (K := list Z) (V := unit))) as Hd.
  { split; [apply table_ok_reset|apply table_ok_reset|constructor|by left]. }
  unfold dictExpand, _dictExpand. destruct (_ || _); cbn [obind].
  - eexists _, _. split; [done|]. split; [done|]. split; [done|]. done.
  - destruct (_dictResize_spec dictCreate cap None Hd eq_refl) as (d & rc & mf & -> & S1 & _). cbn [obind]. exists d, rc. split; [done|]. split; [apply S1|].
    split; [by rewrite (sc_auto _ _ S1)|]. by rewrite (to_map_same _ _ Hd S1).
Qed.

Lemma fold_dictAdd vs d : dict_ok d -> pauseAutoResize d <= 0 -> Forall new_ok vs -> NoDup (vtext <$> vs) -> (forall k, k ∈ vtext <$> vs -> k ∉ dom (to_map d)) ->
  exists d', fold_body (fun d v => let* (d, rc) := dictAdd dict_can_resize d (text_of v) tt in if rc =? DICT_OK then Ret (d, true) else Abort) vs d = Ret d' /\
    dict_ok d' /\ pauseAutoResize d' <= 0 /\ dom (to_map d') = list_to_set (vtext <$> vs) ∪ dom (to_map d).
Proof using DTok.
  revert d. induction vs as [|v vs IH]; intros d Hd Hp Hok Hn Hnew.
  { exists d. split; [done|]. split_and!; try done. symmetry. apply (union_empty_l_L (dom (to_map d))). }
  apply Forall_cons in Hok as [Hv Hok]. cbn [fmap list_fmap] in Hn, Hnew. apply NoDup_cons in Hn as [Hvn Hn]. cbn [fold_body]. rewrite text_of_vtext by done.
  destruct (dictAdd_spec dict_can_resize d (vtext v) tt Hd (or_introl Hp)) as (d1 & Hd1 & Hp1 & Hm).
  assert (to_map d !! vtext v = None) as E by (apply not_elem_of_dom, Hnew; left). rewrite E in Hm. destruct Hm as [-> Em]. cbn [obind Z.eqb DICT_OK].
  destruct (IH d1 Hd1 ltac:(lia) Hok Hn) as (d2 & E2 & Hd2 & Hp2 & Ed).
  { intros k Hk. rewrite Em, dom_insert_L, not_elem_of_union, not_elem_of_singleton. split; [by intros ->|]. apply Hnew. by right. }
  exists d2. rewrite E2. split_and!; try done. rewrite Ed, Em, dom_insert_L. apply set_eq. intros x. rewrite fmap_cons. rewrite list_to_set_cons, !elem_of_union. tauto.
Qed.

(** Into a hash table. *)
Lemma convert_ht s X cap : holds s X -> encoding_of s <> OBJ_ENCODING_HT -> (forall k, k ∈ X -> string_ok k) ->
  exists d, convert fresh usable dict_can_resize address s OBJ_ENCODING_HT cap = Ret (SHt d) /\ holds (SHt d) X.
Proof using DTok.
  intros H Hne Hk. destruct (foreach_spec s X H) as (vs & (Hn & EX & Hok) & Hf). destruct (dictExpand_new cap) as (d & rc & E & Hd & Hp & Em).
  destruct (fold_dictAdd vs d Hd Hp Hok Hn) as (d' & E' & Hd' & Hp' & Ed).
  { intros k _. rewrite Em, dom_empty_L. apply not_elem_of_empty. }
  exists d'. unfold convert, setTypeConvertAndExpand. rewrite Em, dom_empty_L, union_empty_r_L, <- EX in Ed.
  destruct s as [iset|lp|d0]; [| |done]; rewrite E; cbn [obind negb]; rewrite Hf, E'; cbn [obind]; split_and!; done.
Qed.

Lemma members_ok s X : holds s X -> forall k, k ∈ X -> string_ok k.
Proof using DTok address.
  intros H k Hk. destruct (foreach_spec s X H) as (vs & (_ & -> & Hok) & _). apply elem_of_list_to_set, list_elem_of_fmap in Hk as (v & -> & Hv).
  rewrite Forall_forall in Hok. specialize (Hok v Hv). destruct v as [t|ll]; [done|]. cbn. destruct (repr_ok ll Hok). split; [done|lia].
Qed.

(** ** Listpacks *)

Lemma matches_text e s : elem_ok e -> canonical e -> elem_matches e s = true <-> elem_text e = s.
Proof using.
  destruct e as [v|t]; cbn; intros Hok Hc; rewrite bool_decide_eq_true; [|done]. rewrite string2ll_spec. split; [by intros [_ ->]|by intros <-].
Qed.

Lemma find_texts es s : Forall elem_ok es -> Forall canonical es ->
  match find_from 0 0 es s with Some i => exists e, es !! i = Some e /\ elem_text e = s | None => s ∉ elem_text <$> es end.
Proof using.
  intros Hok Hc. induction es as [|e es IH]; cbn [find_from]; [apply not_elem_of_nil|]. apply Forall_cons in Hok as [He Hok], Hc as [Hce Hc]. pose proof (matches_text e s He Hce) as Hm.
  destruct (elem_matches e s); [exists e; tauto|]. specialize (IH Hok Hc). destruct (find_from 0 0 es s) as [i|]; cbn; [done|]. apply not_elem_of_cons. split; [|done]. intros ->. discriminate (proj2 Hm eq_refl).
Qed.

Lemma lp_find_spec lp es s : listpack lp es -> Forall canonical es ->
  (lp_find lp s = Ret None /\ s ∉ elem_text <$> es) \/
  (exists es1 e es2, lp_find lp s = Ret (Some (pos es1)) /\ es = es1 ++ e :: es2 /\ elem_text e = s).
Proof using.
  intros Hl Hc. pose proof Hl as (nf & slack & R). unfold lp_find. rewrite (lpFirst_spec lp es nf slack R). cbn [obind].
  destruct es as [|e0 es0] eqn:Ees; [left; split; [done|apply not_elem_of_nil]|]. cbn [ptr]. rewrite <- Ees in *.
  pose proof (lpFind_spec lp es nf slack R [] es s 0 eq_refl ltac:(by rewrite Ees)) as Hf. change (Z.of_nat 0) with 0 in Hf. rewrite Hf. cbn [app].
  pose proof (find_texts es s (lp_elems _ _ _ _ R) Hc) as Ht. destruct (find_from 0 0 es s) as [i|]; [right|by left]. destruct Ht as (e & He & Et).
  exists (take i es), e, (drop (S i) es). split; [done|]. split; [by rewrite take_drop_middle|done].
Qed.

Lemma new_elem_text v : new_ok v -> elem_text (new_elem v) = vtext v /\ canonical (new_elem v).
Proof using.
  destruct v as [s|ll]; cbn [new_elem vtext]; [|done]. unfold elem_of_string. rewrite lpStringToInt64_string2ll. intros _.
  destruct (string2ll s) as [v|] eqn:E; [|done]. apply string2ll_spec in E as [_ ->]. done.
Qed.

(** Adding at the end. *)
Definition append_value (lp : list Z) (v : listpackEntry) : outcome (list Z) :=
  the_listpack (match v with LVal ll => lpAppendInteger fresh usable lp ll | SVal s => lpAppend fresh usable lp s end).

Lemma append_fits lp es v : listpack lp es -> new_ok v -> total (es ++ [new_elem v]) <= UINT32_MAX -> exists lp', append_value lp v = Ret lp' /\ listpack lp' (es ++ [new_elem v]).
Proof using Husable.
  intros Hl Hv Ht. pose proof Hl as (nf & slack & R). pose proof (new_args v Hv) as Ha. rewrite <- (app_nil_r es) in Hl.
  destruct (lpInsert_fits fresh usable Husable lp es [] (Some (new_elem v)) _ _ LP_BEFORE es [] [] Hl Ha) as (lp' & E & Hl'); [|done|done|].
  { intros s. destruct v as [s'|]; [|done]. intros [= <-]. apply Hv. }
  exists lp'. split; [|done]. unfold append_value, the_listpack, lpAppend, lpAppendInteger, lpInsertInteger. rewrite (get_total lp es nf slack R).
  replace (Z.to_nat (total es - 1)) with (pos es) by (unfold total; lia). destruct v; by rewrite E.
Qed.

Lemma entry_bound v : new_ok v -> Z.of_nat (length (entry (new_elem v))) <= Z.of_nat (length (vtext v)) + 24.
Proof using.
  intros Hv. unfold entry. rewrite length_app. pose proof (length_lpEncodeBacklen (Z.of_nat (length (encode_elem (new_elem v))))) as Hb.
  assert (Z.of_nat (length (encode_elem (new_elem v))) <= Z.of_nat (length (vtext v)) + 19) as He; [|lia].
  assert (forall ll, in_s 64 ll -> (length (lpEncodeIntegerGetType ll) <= 19)%nat) as Hi by (intros ll _; unfold lpEncodeIntegerGetType; repeat destruct (_ && _); cbn; lia).
  destruct v as [s|ll]; cbn [new_elem vtext]; [|cbn [encode_elem]; specialize (Hi ll Hv); lia]. unfold elem_of_string. rewrite lpStringToInt64_string2ll. destruct (string2ll s) as [v|] eqn:E.
  - apply string2ll_spec in E as [Hs _]. cbn [encode_elem]. specialize (Hi v Hs). lia.
  - cbn [encode_elem]. rewrite length_lpEncodeString. unfold str_hdr. repeat case_bool; lia.
Qed.

Lemma total_snoc es e : total (es ++ [e]) = total es + Z.of_nat (length (entry e)).
Proof using. unfold total. rewrite pos_snoc. lia. Qed.

(** ** From an intset to a listpack *)

Lemma int_size v : lpEntrySizeInteger v = Z.of_nat (length (lpEncodeIntegerGetType v)) + 1 /\ (length (lpEncodeIntegerGetType v) <= 9)%nat.
Proof using.
  assert (length (lpEncodeIntegerGetType v) <= 9)%nat as Hl by (unfold lpEncodeIntegerGetType; repeat destruct (_ && _); cbn; lia). split; [|done].
  unfold lpEntrySizeInteger, backlen_size, lpEncodeBacklen. destruct (Z.leb_spec (Z.of_nat (length (lpEncodeIntegerGetType v))) 127); [done|lia].
Qed.

Lemma enc_len_pos v : 0 <= v -> Z.of_nat (length (lpEncodeIntegerGetType v)) =
  if v <=? 127 then 1 else if v <=? 4095 then 2 else if v <=? 32767 then 3 else if v <=? 8388607 then 4 else if v <=? 2147483647 then 5 else 9.
Proof using.
  intros H. unfold lpEncodeIntegerGetType. rewrite !(proj2 (Z.leb_le _ v)) by lia. cbn [andb]. repeat case_bool; done.
Qed.

Lemma enc_len_neg v : v < 0 -> Z.of_nat (length (lpEncodeIntegerGetType v)) =
  if -4096 <=? v then 2 else if -32768 <=? v then 3 else if -8388608 <=? v then 4 else if -2147483648 <=? v then 5 else 9.
Proof using.
  intros H. unfold lpEncodeIntegerGetType. rewrite (proj2 (Z.leb_gt 0 v)) by lia. rewrite !(proj2 (Z.leb_le v _)) by lia. rewrite !andb_true_r. cbn [andb]. repeat case_bool; done.
Qed.

(** The estimate of the code is an upper bound. *)
Lemma int_size_between mn v mx : mn <= v <= mx -> lpEntrySizeInteger v <= Z.max (lpEntrySizeInteger mn) (lpEntrySizeInteger mx).
Proof using.
  intros H. rewrite !(proj1 (int_size _)). destruct (Z.lt_ge_cases v 0) as [Hv|Hv].
  - rewrite (enc_len_neg v), (enc_len_neg mn) by lia. repeat case_bool; lia.
  - rewrite (enc_len_pos v), (enc_len_pos mx) by lia. repeat case_bool; lia.
Qed.

Lemma total_ints l m : Forall (fun v => lpEntrySizeInteger v <= m) l -> total (EInt <$> l) <= 7 + m * Z.of_nat (length l).
Proof using.
  induction 1 as [|v l Hv _ IH]; [cbn [length fmap list_fmap]; change (total []) with 7; lia|]. unfold total, pos in *. rewrite fmap_cons, body_cons, length_app. cbn [length].
  assert (Z.of_nat (length (entry (EInt v))) = lpEntrySizeInteger v) as E by (unfold entry, lpEntrySizeInteger, backlen_size; cbn [encode_elem]; rewrite length_app; lia). unfold LP_HDR_SIZE in *. nia.
Qed.

Lemma foreach_intset {A} (body : A -> listpackEntry -> outcome (A * bool)) iset a : Intset.wf iset ->
  foreach address (SIntset iset) body a = fold_body body (LVal <$> Intset.elements iset) a.
Proof using.
  intros Hwf. pose proof (Intset.wf_len_small iset Hwf). pose proof (Intset.wf_len iset Hwf).
  apply foreach_loop_spec; [apply (nexts_intset iset 0); lia|]. rewrite length_fmap, length_elements. cbn. unfold Intset.intsetLen. lia.
Qed.

Lemma fold_append vs lp es : listpack lp es -> Forall new_ok vs -> total (es ++ map new_elem vs) <= UINT32_MAX ->
  exists lp', fold_body (fun lp v => let* lp := append_value lp v in Ret (lp, true)) vs lp = Ret lp' /\ listpack lp' (es ++ map new_elem vs).
Proof using Husable.
  revert lp es. induction vs as [|v vs IH]; intros lp es Hl Hok Ht; [exists lp; by rewrite app_nil_r|]. apply Forall_cons in Hok as [Hv Hok]. cbn [map] in Ht |- *.
  assert (es ++ new_elem v :: map new_elem vs = (es ++ [new_elem v]) ++ map new_elem vs) as E by (by rewrite <- app_assoc). rewrite E in Ht |- *.
  destruct (append_fits lp es v Hl Hv) as (lp1 & E1 & Hl1); [unfold total in *; rewrite (pos_app (es ++ _)) in Ht; lia|]. cbn [fold_body]. rewrite E1. cbn [obind]. by apply IH.
Qed.

Lemma max_min_bound iset v : Intset.wf iset -> v ∈ Intset.elements iset -> Intset.intsetMin iset <= v <= Intset.intsetMax iset.
Proof using.
  intros Hwf Hv. apply Intset.elements_elem in Hv as (i & Hi & <-); [|apply (Intset.wf_len _ Hwf)]. unfold Intset.intsetMin, Intset.intsetMax. pose proof (Intset.wf_sorted _ Hwf) as Hs. split.
  - destruct (Z.eq_dec i 0) as [->|]; [lia|]. specialize (Hs 0 i ltac:(lia) ltac:(lia)). lia.
  - destruct (Z.eq_dec i (Intset.len iset - 1)) as [->|]; [lia|]. specialize (Hs i (Intset.len iset - 1) ltac:(lia) ltac:(lia)). lia.
Qed.

Lemma intset_total iset : Intset.wf iset -> total (EInt <$> Intset.elements iset) <=
  (if negb (Intset.len iset =? 0) then Z.max (lpEstimateBytesRepeatedInteger (Intset.intsetMax iset) (Intset.len iset)) (lpEstimateBytesRepeatedInteger (Intset.intsetMin iset) (Intset.len iset)) else 7).
Proof using.
  intros Hwf. pose proof (Intset.wf_len _ Hwf) as Hn. destruct (Z.eqb_spec (Intset.len iset) 0) as [E|Hne]; cbn [negb].
  - unfold Intset.elements. rewrite E. done.
  - etrans; [apply (total_ints _ (Z.max (lpEntrySizeInteger (Intset.intsetMin iset)) (lpEntrySizeInteger (Intset.intsetMax iset))))|].
    + apply Forall_forall. intros v Hv. by apply int_size_between, max_min_bound.
    + rewrite length_elements, Z2Nat.id by lia. unfold lpEstimateBytesRepeatedInteger. nia.
Qed.

Lemma convert_listpack iset cap : Intset.wf iset -> total (EInt <$> Intset.elements iset) <= UINT32_MAX ->
  exists lp, convert fresh usable dict_can_resize address (SIntset iset) OBJ_ENCODING_LISTPACK cap = Ret (SListpack lp) /\ listpack lp (EInt <$> Intset.elements iset).
Proof using Husable.
  intros Hwf Ht. unfold convert, setTypeConvertAndExpand. cbn [setTypeSize obind].
  assert (map new_elem (LVal <$> Intset.elements iset) = EInt <$> Intset.elements iset) as E by apply map_map.
  assert (forall e, exists lp, fold_body (fun lp v => let* lp := append_value lp v in Ret (lp, true)) (LVal <$> Intset.elements iset) (lpNew fresh usable e) = Ret lp /\ listpack lp (EInt <$> Intset.elements iset)) as Hf.
  { intros e. rewrite <- E. apply (fold_append _ _ []); [by apply lpNew_spec| |by rewrite E]. apply Forall_fmap, Forall_forall. intros v Hv. by eapply elements_s64. }
  destruct (0 <? Intset.intsetLen iset); cbn [obind]; rewrite foreach_intset by done.
  - edestruct Hf as (lp & E1 & Hl). unfold append_value in E1. rewrite E1. cbn [obind]. by exists lp.
  - edestruct Hf as (lp & E1 & Hl). unfold append_value in E1. rewrite E1. cbn [obind]. by exists lp.
Qed.

(** ** Adding, removing and testing *)

(** The limit keeps the byte counts of an intset within 32 bits. *)
Definition config_ok (c : config) : Prop := 0 <= set_max_intset_entries c < 2 ^ 29 - 1.

Context (Hconf : config_ok server).

(** A set object between two commands: an intset is within the limit of the configuration. *)
Definition rep (s : setobj) (X : sset) : Prop :=
  holds s X /\ match s with SIntset iset => Intset.intsetLen iset <= intsetMaxEntries server | _ => True end.

Definition texts (iset : Intset.t) : sset := list_to_set (repr <$> Intset.elements iset).

Lemma repr_texts iset v : Intset.wf iset -> in_s 64 v -> repr v ∈ texts iset <-> v ∈ Intset.elements iset.
Proof using.
  intros Hwf Hv. unfold texts. rewrite elem_of_list_to_set, list_elem_of_fmap. split; [|by exists v].
  intros (w & E & Hw). apply repr_text_inj in E; [by subst|done|by eapply elements_s64].
Qed.

Lemma texts_insert iset iset' v : (forall x, x ∈ Intset.elements iset' <-> x = v \/ x ∈ Intset.elements iset) -> texts iset' = {[repr v]} ∪ texts iset.
Proof using.
  intros H. apply set_eq. intros x. unfold texts. rewrite elem_of_union, elem_of_singleton, !elem_of_list_to_set, !list_elem_of_fmap. split.
  - intros (w & -> & Hw). apply H in Hw as [->|Hw]; [by left|right; by exists w].
  - intros [->|(w & -> & Hw)]; [exists v|exists w]; (split; [done|]); apply H; tauto.
Qed.

Lemma texts_remove iset iset' v : Intset.wf iset -> in_s 64 v -> (forall x, x ∈ Intset.elements iset' <-> x <> v /\ x ∈ Intset.elements iset) -> texts iset' = texts iset ∖ {[repr v]}.
Proof using.
  intros Hwf Hv H. apply set_eq. intros x. unfold texts. rewrite elem_of_difference, elem_of_singleton, !elem_of_list_to_set, !list_elem_of_fmap. split.
  - intros (w & -> & Hw). apply H in Hw as [Hne Hw]. split; [by exists w|]. intros E. apply repr_text_inj in E; [done|by eapply elements_s64|done].
  - intros [(w & -> & Hw) Hne]. exists w. split; [done|]. apply H. split; [by intros ->|done].
Qed.

Lemma size_texts iset : Intset.wf iset -> Z.of_nat (size (texts iset)) = Intset.len iset.
Proof using DT.
  intros Hwf. destruct (setTypeSize_spec (SIntset iset) (texts iset)) as (s' & E & _); [by split|]. cbn in E. by injection E.
Qed.

Lemma bool_iff_decide (b : bool) (P : Prop) `{!Decision P} : (b = true <-> P) -> b = bool_decide P.
Proof using. intros [H1 H2]. case_bool_decide as HP; destruct b; [done|exact (H2 HP)|destruct (HP (H1 eq_refl))|done]. Qed.

Lemma intset_limit iset X : rep (SIntset iset) X -> (Intset.len iset + 1) * 8 < 2 ^ 32.
Proof using Hconf. intros [_ H]. unfold config_ok in Hconf. unfold Intset.intsetLen, intsetMaxEntries in H. destruct (_ <=? _) eqn:E; lia. Qed.

Lemma ints_ok iset : Intset.wf iset -> forall k, k ∈ texts iset -> string_ok k.
Proof using DTok address. intros Hwf. by apply (members_ok (SIntset iset)). Qed.

Lemma add_intset_spec iset X v : rep (SIntset iset) X -> in_s 64 v ->
  exists s', add_intset server fresh usable dict_can_resize address iset v = Ret (s', bool_decide (repr v ∉ X)) /\ rep s' ({[repr v]} ∪ X).
Proof using DTok Hconf.
  intros Hr Hv. pose proof (intset_limit _ _ Hr) as Hlim. pose proof Hr as [[Hwf EX] Hfit]. fold (texts iset) in EX. subst X. unfold add_intset.
  pose proof (Intset.intsetAdd_spec fresh iset v Hwf Hv Hlim) as H. destruct (Intset.intsetAdd fresh iset v) as [iset' success]. destruct H as (Hwf' & He & Hs).
  pose proof (texts_insert iset iset' v He) as ET. assert (success = bool_decide (repr v ∉ texts iset)) as <- by (apply bool_iff_decide; by rewrite repr_texts).
  destruct success.
  - unfold maybeConvertIntset. destruct (Z.ltb_spec (intsetMaxEntries server) (Intset.intsetLen iset')) as [Hgt|Hle].
    + unfold setTypeConvert. cbn [setTypeSize obind]. destruct (convert_ht (SIntset iset') (texts iset') (Intset.intsetLen iset')) as (d & -> & Hd); [by split|done|by apply ints_ok|].
      cbn [obind]. exists (SHt d). split; [done|]. rewrite <- ET. by split.
    + cbn [obind]. exists (SIntset iset'). split; [done|]. rewrite <- ET. split; [by split|done].
  - exists (SIntset iset'). split; [done|]. rewrite <- ET. split; [by split|].
    assert (v ∈ Intset.elements iset) as Hin by (destruct (decide (v ∈ Intset.elements iset)); [done|by apply Hs in n]).
    unfold Intset.intsetLen in *. rewrite <- size_texts, ET by done. rewrite <- size_texts in Hfit by done. apply (repr_texts iset v Hwf Hv) in Hin.
    assert ({[repr v]} ∪ texts iset = texts iset) as -> by (apply set_eq; intros x; rewrite elem_of_union, elem_of_singleton; split; [by intros [->|?]|tauto]). done.
Qed.

Lemma dom_keys (d : dict (list Z) unit) : dom (to_map d) = list_to_set (key <$> elements d).
Proof using. unfold to_map. rewrite dom_list_to_map_L. f_equal. apply fst_kv. Qed.

(** [dictAdd] of a new string into the table just made. *)
Lemma add_new_spec s str X : (exists d, s = SHt d /\ holds (SHt d) X) -> string_ok str -> str ∉ X ->
  exists s', add_new dict_can_resize s str = Ret (s', true) /\ rep s' ({[str]} ∪ X).
Proof using DTok.
  intros (d & -> & Hd & Hp & -> & Hk) Hs Hn. cbn [add_new]. destruct (dictAdd_spec dict_can_resize d str tt Hd (or_introl Hp)) as (d1 & Hd1 & Hp1 & Hm).
  apply not_elem_of_dom in Hn. rewrite Hn in Hm. destruct Hm as [-> Em]. cbn [obind Z.eqb DICT_OK]. exists (SHt d1). split; [done|]. split; [|done]. split_and!; [done|lia|by rewrite Em, dom_insert_L|].
  intros k. rewrite elem_of_union, elem_of_singleton. intros [->|?]; auto.
Qed.

Lemma safe_append_total lp es v : listpack lp es -> new_ok v -> lpSafeToAdd (Some lp) (Z.of_nat (length (vtext v))) = true -> total (es ++ [new_elem v]) <= UINT32_MAX.
Proof using.
  intros (nf & slack & R) Hv Hsafe. rewrite total_snoc. pose proof (entry_bound v Hv). unfold lpSafeToAdd in Hsafe. rewrite (get_total lp es nf slack R) in Hsafe.
  apply negb_true_iff, Z.ltb_ge in Hsafe. unfold LISTPACK_MAX_SAFETY_SIZE in Hsafe. unfold UINT32_MAX. lia.
Qed.

Lemma holds_append lp es v : listpack lp (es ++ [new_elem v]) -> new_ok v -> Forall canonical es -> NoDup (elem_text <$> es) -> vtext v ∉ elem_text <$> es ->
  rep (SListpack lp) ({[vtext v]} ∪ list_to_set (elem_text <$> es)).
Proof using.
  intros Hl Hv Hc Hn Hnew. destruct (new_elem_text v Hv) as [Et Hcv]. split; [|done]. exists (es ++ [new_elem v]). split; [done|]. rewrite fmap_app. cbn [fmap list_fmap]. rewrite Et. split_and!.
  - apply Forall_app. auto.
  - apply NoDup_app. split; [done|]. split; [|apply NoDup_singleton]. intros x Hx Hx'. apply list_elem_of_singleton in Hx'. by subst.
  - apply set_eq. intros x. rewrite list_to_set_app_L. cbn [list_to_set]. rewrite !elem_of_union, elem_of_singleton, elem_of_empty. tauto.
Qed.

Lemma new_string_ok v : new_ok v -> string_ok (vtext v).
Proof using. destruct v as [s|ll]; [done|]. cbn. intros H. destruct (repr_ok ll H). split; [done|lia]. Qed.

Lemma add_listpack_spec lp X v : rep (SListpack lp) X -> new_ok v ->
  exists s', add_listpack server fresh usable dict_can_resize address lp v = Ret (s', bool_decide (vtext v ∉ X)) /\ rep s' ({[vtext v]} ∪ X).
Proof using DTok Husable.
  intros [(es & Hl & Hc & Hn & EX) _] Hv. unfold add_listpack. rewrite (text_of_vtext v Hv). destruct (lp_find_spec lp es (vtext v) Hl Hc) as [[-> Hnew]|(es1 & e & es2 & -> & Ees & Et)]; cbn [obind].
  - assert (vtext v ∉ X) as HnX by (by rewrite EX, elem_of_list_to_set). rewrite bool_decide_true by done. destruct (lpLength_spec lp es Hl) as (lp1 & -> & Hl1). cbn [obind].
    match goal with |- context [if ?c then _ else _] => destruct c eqn:Hcond end.
    + apply andb_true_iff in Hcond as [_ Hsafe]. pose proof (safe_append_total lp1 es v Hl1 Hv Hsafe) as Ht. destruct (append_fits lp1 es v Hl1 Hv Ht) as (lp2 & E & Hl2). unfold append_value in E. rewrite E. cbn [obind].
      exists (SListpack lp2). split; [done|]. rewrite EX. by apply holds_append.
    + destruct (lpLength_spec lp1 es Hl1) as (lp2 & -> & Hl2). cbn [obind]. assert (holds (SListpack lp2) X) as H2 by (by exists es).
      destruct (convert_ht (SListpack lp2) X (Z.of_nat (length es) + 1) H2) as (d & -> & Hd); [done|by eapply members_ok|]. cbn [obind]. apply add_new_spec; [eauto|by apply new_string_ok|done].
  - assert (vtext v ∈ X) as HX. { rewrite EX, elem_of_list_to_set, Ees, <- Et. apply list_elem_of_fmap. exists e. split; [done|]. apply elem_of_app. right. left. }
    rewrite bool_decide_false by tauto. exists (SListpack lp). split; [done|]. assert ({[vtext v]} ∪ X = X) as -> by (apply set_eq; intros x; rewrite elem_of_union, elem_of_singleton; split; [by intros [->|?]|tauto]).
    split; [by exists es|done].
Qed.

(** The listpack made of an intset holds what the intset held. *)
Lemma holds_ints lp iset : Intset.wf iset -> listpack lp (EInt <$> Intset.elements iset) -> elem_text <$> (EInt <$> Intset.elements iset) = repr <$> Intset.elements iset /\
  Forall canonical (EInt <$> Intset.elements iset) /\ NoDup (elem_text <$> (EInt <$> Intset.elements iset)).
Proof using.
  intros Hwf Hl. assert (elem_text <$> (EInt <$> Intset.elements iset) = repr <$> Intset.elements iset) as E by (by rewrite <- list_fmap_compose). split; [done|]. split.
  - apply Forall_fmap, Forall_true. done.
  - rewrite E. apply NoDup_fmap_2_strong; [|by apply elements_nodup]. intros x y Hx Hy. by apply repr_text_inj; eapply elements_s64.
Qed.

Lemma add_other_spec iset X str : rep (SIntset iset) X -> string_ok str -> string2ll str = None ->
  exists s', add_other server fresh usable dict_can_resize address iset str = Ret (s', bool_decide (str ∉ X)) /\ rep s' ({[str]} ∪ X).
Proof using DTok Husable.
  intros [[Hwf EX] _] Hs Hnone. fold (texts iset) in EX. subst X. pose proof (intset_total iset Hwf) as Htot. unfold Intset.intsetLen in *.
  assert (str ∉ texts iset) as Hnew.
  { unfold texts. rewrite elem_of_list_to_set, list_elem_of_fmap. intros (w & -> & Hw). rewrite parse_repr in Hnone; [done|by eapply elements_s64]. }
  rewrite bool_decide_true by done. unfold add_other, Intset.intsetLen. match goal with |- context [let '(_, _) := ?p in _] => destruct p as [maxelelen totsize] eqn:Es end.
  match goal with |- context [if ?c then _ else _] => destruct c eqn:Hcond end.
  - apply andb_true_iff in Hcond as [_ Hsafe]. unfold lpSafeToAdd in Hsafe. apply negb_true_iff, Z.ltb_ge in Hsafe. unfold LISTPACK_MAX_SAFETY_SIZE in Hsafe.
    assert (total (EInt <$> Intset.elements iset) <= totsize + 7) as Ht by (destruct (negb _); injection Es as <- <-; lia).
    destruct (convert_listpack iset (Intset.len iset + 1) Hwf) as (lp & -> & Hl); [unfold UINT32_MAX; lia|]. cbn [obind].
    pose proof (entry_bound (SVal str) Hs) as Hb. cbn [vtext] in Hb. destruct (append_fits lp _ (SVal str) Hl Hs) as (lp1 & E1 & Hl1); [rewrite total_snoc; unfold UINT32_MAX; lia|].
    unfold append_value in E1. rewrite E1. cbn [obind]. eexists. split; [done|]. destruct (holds_ints lp iset Hwf Hl) as (E & Hc & Hn).
    unfold texts. rewrite <- E. apply (holds_append _ _ (SVal str)); [by apply lpShrinkToFit_spec|done|done|done|]. rewrite E. by rewrite <- (elem_of_list_to_set (C := sset)).
  - destruct (convert_ht (SIntset iset) (texts iset) (Intset.len iset + 1)) as (d & -> & Hd); [by split|done|by apply ints_ok|]. cbn [obind]. apply add_new_spec; [eauto|done|done].
Qed.

Lemma add_ht_spec d X v : rep (SHt d) X -> new_ok v ->
  exists s', setTypeAddAux server fresh usable dict_can_resize address (SHt d) v = Ret (s', bool_decide (vtext v ∉ X)) /\ rep s' ({[vtext v]} ∪ X).
Proof using DTok.
  intros [(Hd & Hp & -> & Hk) _] Hv. destruct (dictAddRaw_spec dict_can_resize d (vtext v) Hd (or_introl Hp)) as (d1 & r & E & _ & Ep & Hr).
  assert (setTypeAddAux server fresh usable dict_can_resize address (SHt d) v = let* (d, r) := dictAddRaw dict_can_resize d (vtext v) in Ret (SHt d, match r with inl _ => true | inr _ => false end)) as ->.
  { rewrite <- (text_of_vtext v Hv). destruct v; cbn [setTypeAddAux]; unfold dictAddRaw; (destruct (dictFindPositionForInsert _ _ _) as [|[d2 [p|ex]]]; cbn [obind]; [done| |done]);
      by destruct (dictInsertAtPosition _ _ _) as [|[? ?]]. }
  rewrite E. cbn [obind]. exists (SHt d1). destruct r as [new|ex].
  - destruct Hr as (Hd1 & _ & Hperm & Hnone). rewrite bool_decide_true by (by apply not_elem_of_dom). split; [done|]. split; [|done].
    assert (dom (to_map d1) = {[vtext v]} ∪ dom (to_map d)) as Ed.
    { rewrite !dom_keys. apply set_eq. intros x. rewrite elem_of_union, elem_of_singleton, !elem_of_list_to_set. rewrite Hperm. cbn [fmap list_fmap key]. apply elem_of_cons. }
    split_and!; [done|lia|done|]. intros k. rewrite elem_of_union, elem_of_singleton. intros [->|?]; [by apply new_string_ok|auto].
  - destruct Hr as (S1 & e & Hde & Hkey). pose proof (to_map_same _ _ Hd S1) as Em. assert (vtext v ∈ dom (to_map d)) as Hin.
    { rewrite <- Em, <- Hkey. apply to_map_deref in Hde; [|apply S1]. by eapply elem_of_dom_2. }
    rewrite bool_decide_false by tauto. split; [done|]. assert ({[vtext v]} ∪ dom (to_map d) = dom (to_map d)) as -> by (apply set_eq; intros x; rewrite elem_of_union, elem_of_singleton; split; [by intros [->|?]|tauto]).
    split; [|done]. split_and!; [apply S1|lia|by rewrite Em|done].
Qed.

Lemma setTypeAddAux_spec s X v : rep s X -> new_ok v ->
  exists s', setTypeAddAux server fresh usable dict_can_resize address s v = Ret (s', bool_decide (vtext v ∉ X)) /\ rep s' ({[vtext v]} ∪ X).
Proof using DTok Husable Hconf.
  intros Hr Hv. destruct s as [iset|lp|d]; [|destruct v; by apply add_listpack_spec|by apply add_ht_spec]. destruct v as [str|ll]; cbn [setTypeAddAux vtext]; [|by apply add_intset_spec].
  destruct (string2ll str) as [value|] eqn:E; [|by apply add_other_spec]. apply string2ll_spec in E as [Hs ->]. by apply add_intset_spec.
Qed.

Lemma difference_absent (X : sset) k : k ∉ X -> X ∖ {[k]} = X.
Proof using. intros H. apply set_eq. intros x. rewrite elem_of_difference, elem_of_singleton. split; [tauto|]. intros Hx. split; [done|]. by intros ->. Qed.

Lemma remove_intset_spec iset X v : rep (SIntset iset) X -> in_s 64 v ->
  exists s', (let '(iset, success) := Intset.intsetRemove fresh iset v in Ret (SIntset iset, success)) = Ret (s', bool_decide (repr v ∈ X)) /\ rep s' (X ∖ {[repr v]}).
Proof using DT.
  intros [[Hwf EX] Hfit] Hv. fold (texts iset) in EX. subst X. pose proof (Intset.intsetRemove_correct fresh iset v Hwf Hv) as H.
  destruct (Intset.intsetRemove fresh iset v) as [iset' success]. destruct H as (Hwf' & He & Hs). exists (SIntset iset'). pose proof (texts_remove iset iset' v Hwf Hv He) as ET. split.
  - do 2 f_equal. apply bool_iff_decide. by rewrite repr_texts.
  - split; [by split|]. unfold Intset.intsetLen in *. rewrite <- size_texts, ET by done. rewrite <- size_texts in Hfit by done. pose proof (subseteq_size (texts iset ∖ {[repr v]}) (texts iset)) as Hsub.
    etrans; [|exact Hfit]. apply Nat2Z.inj_le, Hsub. intros x Hx. by apply elem_of_difference in Hx as [? _].
Qed.

Lemma remove_listpack_spec lp X v : rep (SListpack lp) X -> new_ok v ->
  exists s', setTypeRemoveAux fresh usable dict_can_resize (SListpack lp) v = Ret (s', bool_decide (vtext v ∈ X)) /\ rep s' (X ∖ {[vtext v]}).
Proof using Husable.
  intros [(es & Hl & Hc & Hn & EX) _] Hv. assert (setTypeRemoveAux fresh usable dict_can_resize (SListpack lp) v = let* p := lp_find lp (vtext v) in
    match p with None => Ret (SListpack lp, false) | Some p => let* lp := the_listpack (lpDelete fresh usable lp p) in Ret (SListpack lp, true) end) as -> by (rewrite <- (text_of_vtext v Hv); by destruct v).
  destruct (lp_find_spec lp es (vtext v) Hl Hc) as [[-> Hnew]|(es1 & e & es2 & -> & Ees & Et)]; cbn [obind].
  - assert (vtext v ∉ X) as HX by (by rewrite EX, elem_of_list_to_set). rewrite bool_decide_false, difference_absent by done. exists (SListpack lp). split; [done|]. split; [by exists es|done].
  - pose proof Hl as (nf & slack & R). pose proof (lp_total _ _ _ _ R) as Ht. subst es.
    destruct (lpInsert_fits fresh usable Husable lp es1 (e :: es2) None None None LP_REPLACE es1 [e] es2 Hl) as (lp' & E & Hl'); [done|done|done| |].
    { cbn [olist app]. unfold total in *. rewrite !pos_app in *. rewrite body_cons, length_app in Ht. unfold UINT32_MAX. lia. }
    cbn [olist app] in Hl'. unfold lpDelete, the_listpack. rewrite E. cbn [obind]. rewrite fmap_app, fmap_cons, Et in EX, Hn.
    apply NoDup_app in Hn as (Hn1 & Hd & Hn2). apply NoDup_cons in Hn2 as [He2 Hn2]. apply Forall_app in Hc as [Hc1 Hc2]. apply Forall_cons in Hc2 as [_ Hc2].
    assert (vtext v ∉ elem_text <$> es1) as He1 by (intros Hin; apply (Hd _ Hin); left).
    exists (SListpack lp'). rewrite bool_decide_true by (rewrite EX, elem_of_list_to_set, elem_of_app, elem_of_cons; tauto). split; [done|]. split; [|done].
    exists (es1 ++ es2). split; [done|]. rewrite fmap_app. split; [by apply Forall_app|]. split.
    + apply NoDup_app. split; [done|]. split; [|done]. intros x Hx Hx2. apply (Hd x Hx). by right.
    + rewrite EX. apply set_eq. intros x. rewrite elem_of_difference, elem_of_singleton, !elem_of_list_to_set, !elem_of_app, elem_of_cons. split; [tauto|]. intros H. split; [tauto|]. intros ->. tauto.
Qed.

Lemma remove_ht_spec d X v : rep (SHt d) X -> new_ok v ->
  exists s', setTypeRemoveAux fresh usable dict_can_resize (SHt d) v = Ret (s', bool_decide (vtext v ∈ X)) /\ rep s' (X ∖ {[vtext v]}).
Proof using DTok.
  intros [(Hd & Hp & -> & Hk) _] Hv. destruct (dictGenericDelete_spec dict_can_resize d (vtext v) Hd) as (d' & E & Hd' & Em & Ep & _).
  assert (setTypeRemoveAux fresh usable dict_can_resize (SHt d) v = let* (d, rc) := dictDelete dict_can_resize d (vtext v) in Ret (SHt d, rc =? DICT_OK)) as -> by (rewrite <- (text_of_vtext v Hv); by destruct v).
  unfold dictDelete. rewrite E. cbn [obind]. exists (SHt d'). split.
  - do 2 f_equal. case_bool_decide as Hin.
    + apply elem_of_dom in Hin as [x Hx]. by rewrite Hx.
    + apply not_elem_of_dom in Hin. by rewrite Hin.
  - split; [|done]. split_and!; [done|lia|by rewrite Em, dom_delete_L|]. intros k. rewrite elem_of_difference. intros [? _]. auto.
Qed.

Lemma setTypeRemoveAux_spec s X v : rep s X -> new_ok v ->
  exists s', setTypeRemoveAux fresh usable dict_can_resize s v = Ret (s', bool_decide (vtext v ∈ X)) /\ rep s' (X ∖ {[vtext v]}).
Proof using DTok Husable.
  intros Hr Hv. destruct s as [iset|lp|d]; [|by apply remove_listpack_spec|by apply remove_ht_spec]. destruct v as [str|ll]; cbn [setTypeRemoveAux vtext]; [|by apply remove_intset_spec].
  destruct (string2ll str) as [value|] eqn:E; [apply string2ll_spec in E as [Hs ->]; by apply remove_intset_spec|]. pose proof Hr as [[Hwf EX] _]. assert (str ∉ X) as HX.
  { rewrite EX, elem_of_list_to_set, list_elem_of_fmap. intros (w & -> & Hw). rewrite parse_repr in E; [done|by eapply elements_s64]. }
  rewrite bool_decide_false, difference_absent by done. eauto.
Qed.

Lemma setTypeIsMemberAux_spec s X v : rep s X -> new_ok v ->
  exists s', setTypeIsMemberAux dict_can_resize s v = Ret (s', bool_decide (vtext v ∈ X)) /\ rep s' X.
Proof using DTok.
  intros Hr Hv. destruct s as [iset|lp|d].
  - exists (SIntset iset). split; [|done]. destruct Hr as [[Hwf EX] _]. fold (texts iset) in EX. subst X. assert (forall ll, in_s 64 ll -> Intset.intsetFind iset ll = bool_decide (repr ll ∈ texts iset)) as Hf.
    { intros ll Hll. apply bool_iff_decide. rewrite repr_texts by done. by apply Intset.intsetFind_correct. }
    destruct v as [str|ll]; cbn [setTypeIsMemberAux vtext]; [|by rewrite Hf]. destruct (string2ll str) as [value|] eqn:E; [apply string2ll_spec in E as [Hs ->]; by rewrite Hf|].
    rewrite bool_decide_false; [done|]. unfold texts. rewrite elem_of_list_to_set, list_elem_of_fmap. intros (w & -> & Hw). rewrite parse_repr in E; [done|by eapply elements_s64].
  - exists (SListpack lp). split; [|done]. destruct Hr as [(es & Hl & Hc & Hn & EX) _].
    assert (setTypeIsMemberAux dict_can_resize (SListpack lp) v = let* p := lp_find lp (vtext v) in Ret (SListpack lp, match p with Some _ => true | None => false end)) as -> by (rewrite <- (text_of_vtext v Hv); by destruct v).
    destruct (lp_find_spec lp es (vtext v) Hl Hc) as [[-> Hnew]|(es1 & e & es2 & -> & Ees & Et)]; cbn [obind].
    + rewrite bool_decide_false; [done|]. by rewrite EX, elem_of_list_to_set.
    + rewrite bool_decide_true; [done|]. rewrite EX, elem_of_list_to_set, Ees, fmap_app, fmap_cons, Et, elem_of_app, elem_of_cons. tauto.
  - destruct Hr as [(Hd & Hp & -> & Hk) _]. destruct (dictFind_spec dict_can_resize d (vtext v) Hd) as (d' & r & E & S1 & Hr).
    assert (setTypeIsMemberAux dict_can_resize (SHt d) v = let* (d, de) := dictFind dict_can_resize d (vtext v) in Ret (SHt d, match de with Some _ => true | None => false end)) as -> by (rewrite <- (text_of_vtext v Hv); by destruct v).
    rewrite E. cbn [obind]. pose proof (to_map_same _ _ Hd S1) as Em. exists (SHt d'). split; [|split; [|done]; split_and!; [apply S1|by rewrite (sc_auto _ _ S1)|by rewrite Em|done]].
    do 2 f_equal. destruct r as [r|].
    + destruct Hr as (e & Hde & Hkey). rewrite bool_decide_true; [done|]. rewrite <- Em, <- Hkey. apply to_map_deref in Hde; [|apply S1]. by eapply elem_of_dom_2.
    + rewrite bool_decide_false; [done|]. by apply not_elem_of_dom.
Qed.

Lemma setTypeSize_rep s X : rep s X -> exists s', setTypeSize s = Ret (Z.of_nat (size X), s') /\ rep s' X.
Proof using.
  intros [H Hfit]. destruct (setTypeSize_spec s X H) as (s' & E & H' & Hi & He). exists s'. split; [done|]. split; [done|]. destruct s as [iset|lp|d]; [by rewrite (Hi iset eq_refl)|destruct s'; done..].
Qed.

(** ** Creation, conversion and copies *)

Lemma holds_new_intset : rep createIntsetObject ∅.
Proof using Hconf.
  unfold config_ok in Hconf. split; [split; [|done]|].
  - split; [by left|done|done|done|]. intros i j H1 H2. cbn in H2. lia.
  - cbn. unfold intsetMaxEntries. destruct (_ <=? _) eqn:E; lia.
Qed.

Lemma holds_new_listpack cap : rep (SListpack (lpNew fresh usable cap)) ∅.
Proof using Husable. split; [|done]. exists []. split; [by apply lpNew_spec|]. split; [constructor|]. split; [constructor|done]. Qed.

Lemma setTypeCreate_spec value size_hint : exists s, setTypeCreate server fresh usable value size_hint = Ret s /\ rep s ∅.
Proof using Husable Hconf.
  unfold setTypeCreate. destruct (_ && _); [eexists; split; [done|apply holds_new_intset]|]. destruct (_ <=? _); [eexists; split; [done|apply holds_new_listpack]|].
  destruct (dictExpand_new size_hint) as (d & rc & -> & Hd & Hp & Em). cbn [obind]. exists (SHt d). split; [done|]. split; [|done].
  split; [done|]. split; [done|]. split; [by rewrite Em, dom_empty_L|]. intros k Hk. by apply elem_of_empty in Hk.
Qed.

Lemma setTypeMaybeConvert_spec s X size_hint : rep s X -> exists s', setTypeMaybeConvert server fresh usable dict_can_resize address s size_hint = Ret s' /\ rep s' X.
Proof using DTok.
  intros Hr. pose proof Hr as [Hh _]. assert (encoding_of s <> OBJ_ENCODING_HT -> exists s', convert fresh usable dict_can_resize address s OBJ_ENCODING_HT size_hint = Ret s' /\ rep s' X) as Hc.
  { intros Hne. destruct (convert_ht s X size_hint Hh Hne) as (d & -> & Hd); [by eapply members_ok|]. exists (SHt d). by split. }
  unfold setTypeMaybeConvert. destruct s as [iset|lp|d]; [destruct (_ <? _); [by apply Hc|by eauto]..|by eauto].
Qed.

(** The integers of a set whose members are all integers go into an intset, one by one. *)
Lemma fold_intsetAdd vs iset : Intset.wf iset -> Intset.len iset + Z.of_nat (length vs) <= intsetMaxEntries server ->
  Forall (fun v => new_ok v /\ exists ll, string2ll (vtext v) = Some ll) vs -> NoDup (vtext <$> vs) -> (forall k, k ∈ vtext <$> vs -> k ∉ texts iset) ->
  exists iset', fold_body (fun iset v => match (match v with SVal str => string2ll str | LVal ll => Some ll end) with
                                         | None => Abort
                                         | Some llval => let '(iset, success) := Intset.intsetAdd fresh iset llval in if success : bool then Ret (iset, true) else Abort
                                         end) vs iset = Ret iset' /\
    Intset.wf iset' /\ texts iset' = list_to_set (vtext <$> vs) ∪ texts iset.
Proof using DT Hconf.
  unfold config_ok in Hconf. revert iset. induction vs as [|v vs IH]; intros iset Hwf Hlen Hok Hn Hnew.
  { exists iset. split_and!; try done. symmetry. apply (union_empty_l_L (texts iset)). }
  apply Forall_cons in Hok as [[Hv [ll Ell]] Hok]. cbn [fmap list_fmap length] in Hn, Hnew, Hlen. apply NoDup_cons in Hn as [Hvn Hn].
  assert ((match v with SVal str => string2ll str | LVal ll => Some ll end) = Some ll) as Ev by (destruct v as [|w]; cbn in *; [done|]; by rewrite <- Ell, parse_repr).
  apply string2ll_spec in Ell as [Hll Et]. cbn [fold_body]. rewrite Ev. assert ((Intset.len iset + 1) * 8 < 2 ^ 32) as Hlim by (unfold intsetMaxEntries in Hlen; destruct (_ <=? _) eqn:E; lia).
  pose proof (Intset.intsetAdd_spec fresh iset ll Hwf Hll Hlim) as H. destruct (Intset.intsetAdd fresh iset ll) as [iset1 success]. destruct H as (Hwf1 & He & Hs).
  pose proof (texts_insert iset iset1 ll He) as ET. rewrite <- Et in ET. assert (vtext v ∉ texts iset) as Hvi by (apply Hnew; left).
  assert (success = true) as -> by (apply Hs; rewrite <- repr_texts, <- Et; done). cbn [obind].
  destruct (IH iset1 Hwf1) as (iset2 & E2 & Hwf2 & Ed); [|done|done| |].
  - rewrite <- size_texts, ET, size_union, size_singleton by (try done; apply disjoint_singleton_l; done). rewrite <- size_texts in Hlen by done. lia.
  - intros k Hk. rewrite ET, not_elem_of_union, not_elem_of_singleton. split; [by intros ->|]. apply Hnew. by right.
  - exists iset2. rewrite E2. split_and!; try done. rewrite Ed, ET. apply set_eq. intros x. rewrite fmap_cons, list_to_set_cons, !elem_of_union. tauto.
Qed.

Lemma maybeConvertToIntset_spec s X : rep s X -> (forall k, k ∈ X -> exists ll, string2ll k = Some ll) -> exists s', maybeConvertToIntset server fresh address s = Ret s' /\ rep s' X.
Proof using DTok Hconf.
  intros Hr Hint. assert ((exists iset, s = SIntset iset) \/ maybeConvertToIntset server fresh address s = let* (n, s) := setTypeSize s in
      if intsetMaxEntries server <? n then Ret s else
      let* iset := foreach address s (fun iset v =>
                              match (match v with SVal str => string2ll str | LVal ll => Some ll end) with
                              | None => Abort
                              | Some llval => let '(iset, success) := Intset.intsetAdd fresh iset llval in if success : bool then Ret (iset, true) else Abort
                              end) Intset.intsetNew in
      Ret (SIntset iset)) as [[iset ->]| ->] by (destruct s; [left; eauto|by right..]); [by eexists|].
  destruct (setTypeSize_rep s X Hr) as (s1 & -> & Hr1). cbn [obind]. destruct (Z.ltb_spec (intsetMaxEntries server) (Z.of_nat (size X))) as [Hgt|Hle]; [eauto|].
  destruct (foreach_spec s1 X (proj1 Hr1)) as (vs & Hvs & Hf). rewrite Hf. pose proof (size_values _ _ _ Hvs) as Es. destruct Hvs as (Hn & EX & Hok).
  destruct (fold_intsetAdd vs Intset.intsetNew) as (iset & -> & Hwf & ET); [apply holds_new_intset|cbn; lia| |done|by intros k _ Hk; apply elem_of_empty in Hk|].
  - rewrite Forall_forall in Hok |- *. intros v Hv. split; [by apply Hok|]. apply Hint. rewrite EX, elem_of_list_to_set. apply list_elem_of_fmap. eauto.
  - cbn [obind]. exists (SIntset iset). split; [done|]. assert (texts iset = X) as Et by (rewrite ET, EX; apply (union_empty_r_L (list_to_set (vtext <$> vs)))).
    split; [by split|]. unfold Intset.intsetLen. rewrite <- size_texts, Et by done. done.
Qed.

Lemma copy_listpack lp es : listpack lp es -> listpack (store (lp_realloc fresh usable [] (lpBytes lp)) 0 (load lp 0 (Z.to_nat (lpBytes lp)))) es.
Proof using.
  intros (nf & slack & R). unfold lpBytes. rewrite (get_total lp es nf slack R). pose proof R as [E H1 H2 H3]. set (img := header es nf ++ body es ++ [LP_EOF]).
  assert (load lp 0 (Z.to_nat (total es)) = img) as ->.
  { rewrite E, !app_assoc, <- (app_assoc (header es nf)). fold img. replace (Z.to_nat (total es)) with (length img); [apply (has_middle [])|]. unfold img. rewrite !length_app, length_header. cbn [length]. unfold total, pos. lia. }
  exists nf, (drop (length img) (lp_realloc fresh usable [] (total es))). split; [|done|done|done]. unfold store. cbn [take app Nat.add]. unfold img. by rewrite <- !app_assoc.
Qed.

Lemma fold_dup vs s X : rep s X -> encoding_of s = OBJ_ENCODING_HT -> Forall new_ok vs ->
  exists s', fold_body (fun o v => let* (o, _) := setTypeAdd server fresh usable dict_can_resize address o (text_of v) in Ret (o, true)) vs s = Ret s' /\
    rep s' (list_to_set (vtext <$> vs) ∪ X) /\ encoding_of s' = OBJ_ENCODING_HT.
Proof using DTok.
  revert s X. induction vs as [|v vs IH]; intros s X Hr Henc Hok.
  { exists s. split; [done|]. split; [|done]. assert (list_to_set (vtext <$> []) ∪ X = X) as -> by apply (union_empty_l_L X). done. }
  apply Forall_cons in Hok as [Hv Hok]. cbn [fold_body]. rewrite text_of_vtext by done. destruct s as [| |d]; [done..|]. unfold setTypeAdd.
  destruct (add_ht_spec d X (SVal (vtext v)) Hr (new_string_ok v Hv)) as (s1 & E1 & Hr1).
  assert (encoding_of s1 = OBJ_ENCODING_HT) as He1.
  { cbn [setTypeAddAux] in E1. destruct (dictFindPositionForInsert _ _ _) as [|[d1 [p|ex]]]; cbn [obind] in E1; [done| |by injection E1 as <- _].
    destruct (dictInsertAtPosition _ _ _) as [|[d2 r]]; cbn [obind] in E1; [done|]. by injection E1 as <- _. }
  rewrite E1. cbn [obind]. destruct (IH s1 _ Hr1 He1 Hok) as (s2 & E2 & Hr2 & He2). exists s2. split; [done|]. split; [|done].
  assert (list_to_set (vtext <$> v :: vs) ∪ X = list_to_set (vtext <$> vs) ∪ ({[vtext v]} ∪ X)) as ->; [|done].
  apply set_eq. intros x. rewrite fmap_cons, list_to_set_cons, !elem_of_union. tauto.
Qed.

(** A copy holds the same set, in the same encoding. *)
Lemma setTypeDup_spec s X : rep s X -> exists s', setTypeDup server fresh usable dict_can_resize address s = Ret s' /\ rep s' X /\ encoding_of s' = encoding_of s.
Proof using DTok.
  intros Hr. destruct s as [iset|lp|d]; cbn [setTypeDup].
  - exists (SIntset iset). split; [|done]. destruct Hr as [[Hwf _] _]. do 2 f_equal. rewrite take_ge; [by apply Intset.of_blob_to_blob|].
    unfold Intset.to_blob, Intset.intsetBlobLen. rewrite !length_app, !length_le_encode. pose proof (Intset.wf_size _ Hwf). pose proof (Intset.wf_len _ Hwf). lia.
  - eexists. split; [done|]. split; [|done]. destruct Hr as [(es & Hl & Hc & Hn & ->) _]. split; [|done]. exists es. split; [by apply copy_listpack|done].
  - destruct (dictExpand_new (dictSize d)) as (d' & rc & -> & Hd' & Hp' & Em). cbn [obind]. destruct (foreach_spec (SHt d) X (proj1 Hr)) as (vs & (Hn & EX & Hok) & Hf). rewrite Hf.
    destruct (fold_dup vs (SHt d') ∅) as (s' & -> & Hr' & He'); [|done|done|].
    + split; [|done]. split; [done|]. split; [done|]. split; [by rewrite Em, dom_empty_L|]. intros k Hk. by apply elem_of_empty in Hk.
    + exists s'. split; [done|]. split; [|done]. by rewrite EX, <- (union_empty_r_L (list_to_set (vtext <$> vs))).
Qed.

Lemma shrink_rep lp X : rep (SListpack lp) X -> rep (SListpack (lpShrinkToFit fresh usable lp)) X.
Proof using Husable. intros [(es & Hl & H) _]. split; [|done]. exists es. split; [by apply lpShrinkToFit_spec|done]. Qed.

(** ** Runs of operations *)

Inductive op := OpAdd (v : listpackEntry) | OpRemove (v : listpackEntry) | OpMember (v : listpackEntry) | OpSize | OpMembers | OpReserve (n : Z) | OpDup.
Inductive reply := RBool (b : bool) | RSize (n : Z) | RMembers (l : list (list Z)) | RNone.

Definition step (s : setobj) (o : op) : outcome (setobj * reply) :=
  match o with
  | OpAdd v => let* (s, b) := setTypeAddAux server fresh usable dict_can_resize address s v in Ret (s, RBool b)
  | OpRemove v => let* (s, b) := setTypeRemoveAux fresh usable dict_can_resize s v in Ret (s, RBool b)
  | OpMember v => let* (s, b) := setTypeIsMemberAux dict_can_resize s v in Ret (s, RBool b)
  | OpSize => let* (n, s) := setTypeSize s in Ret (s, RSize n)
  | OpMembers => let* l := foreach address s (fun l v => Ret (l ++ [text_of v], true)) [] in Ret (s, RMembers l)
  | OpReserve n => let* s := setTypeMaybeConvert server fresh usable dict_can_resize address s n in Ret (s, RNone)
  | OpDup => let* s := setTypeDup server fresh usable dict_can_resize address s in Ret (s, RNone)
  end.

Fixpoint run (s : setobj) (ops : list op) : outcome (setobj * list reply) :=
  match ops with
  | [] => Ret (s, [])
  | o :: ops => let* (s, r) := step s o in let* (s, rs) := run s ops in Ret (s, r :: rs)
  end.

Definition op_ok (o : op) : Prop := match o with OpAdd v | OpRemove v | OpMember v => new_ok v | _ => True end.

(** The same on a finite set of strings. *)
Definition set_after (X : sset) (o : op) : sset :=
  match o with OpAdd v => {[vtext v]} ∪ X | OpRemove v => X ∖ {[vtext v]} | _ => X end.
Definition answer (X : sset) (o : op) (r : reply) : Prop :=
  match o with
  | OpAdd v => r = RBool (bool_decide (vtext v ∉ X))
  | OpRemove v | OpMember v => r = RBool (bool_decide (vtext v ∈ X))
  | OpSize => r = RSize (Z.of_nat (size X))
  | OpMembers => exists l, r = RMembers l /\ l ≡ₚ stdpp.base.elements X
  | OpReserve _ | OpDup => r = RNone
  end.
Fixpoint answers (X : sset) (ops : list op) (rs : list reply) : Prop :=
  match ops, rs with
  | [], [] => True
  | o :: ops, r :: rs => answer X o r /\ answers (set_after X o) ops rs
  | _, _ => False
  end.

Lemma fold_members vs l : Forall new_ok vs -> fold_body (fun l v => Ret (l ++ [text_of v], true)) vs l = Ret (l ++ (vtext <$> vs)).
Proof using.
  revert l. induction vs as [|v vs IH]; intros l Hok; [by rewrite app_nil_r|]. apply Forall_cons in Hok as [Hv Hok]. cbn [fold_body obind]. rewrite IH, text_of_vtext by done. by rewrite <- app_assoc.
Qed.

Lemma members_spec s X : holds s X -> exists l, foreach address s (fun l v => Ret (l ++ [text_of v], true)) [] = Ret l /\ l ≡ₚ stdpp.base.elements X.
Proof using DTok.
  intros H. destruct (foreach_spec s X H) as (vs & (Hn & -> & Hok) & Hf). exists (vtext <$> vs). rewrite Hf, fold_members by done. split; [done|]. symmetry. by apply elements_list_to_set.
Qed.

Lemma set_step_spec s X o : rep s X -> op_ok o -> exists s' r, step s o = Ret (s', r) /\ answer X o r /\ rep s' (set_after X o).
Proof using DTok Husable Hconf.
  intros Hr Ho. destruct o as [v|v|v| | |n|]; cbn [step op_ok answer set_after] in *.
  - destruct (setTypeAddAux_spec s X v Hr Ho) as (s' & -> & H). eexists _, _. by split.
  - destruct (setTypeRemoveAux_spec s X v Hr Ho) as (s' & -> & H). eexists _, _. by split.
  - destruct (setTypeIsMemberAux_spec s X v Hr Ho) as (s' & -> & H). eexists _, _. by split.
  - destruct (setTypeSize_rep s X Hr) as (s' & -> & H). eexists _, _. by split.
  - destruct (members_spec s X (proj1 Hr)) as (l & -> & H). eexists _, _. split; [done|]. split; [by eexists|done].
  - destruct (setTypeMaybeConvert_spec s X n Hr) as (s' & -> & H). eexists _, _. by split.
  - destruct (setTypeDup_spec s X Hr) as (s' & -> & H & _). eexists _, _. by split.
Qed.

Lemma set_run_spec ops s X : rep s X -> Forall op_ok ops -> exists s' rs, run s ops = Ret (s', rs) /\ answers X ops rs.
Proof using DTok Husable Hconf.
  revert s X. induction ops as [|o ops IH]; intros s X Hr Hok; [by eexists _, _|]. apply Forall_cons in Hok as [Ho Hok].
  destruct (set_step_spec s X o Hr Ho) as (s1 & r & E1 & Ha & Hr1). destruct (IH s1 _ Hr1 Hok) as (s2 & rs & E2 & Has). exists s2, (r :: rs). cbn [run]. by rewrite E1; cbn [obind]; rewrite E2.
Qed.
End Spec.


(** C9: a set object is a finite set of strings.  From an object made by [setTypeCreate]
    with any value and size hint, a run of additions, removals, membership tests, size
    queries, full iterations, reservations and copies, in any order, never fails an
    assertion and answers what the operations on a finite set answer; whatever encodings
    and conversions it goes through on the way, a string that is an integer and the
    integer are the same member. *)
Theorem set_refines `{DTok : DictTypeOk (list Z)} server fresh usable dict_can_resize address value size_hint ops :
  (forall n, (n <= usable n)%nat) -> config_ok server -> Forall op_ok ops ->
  exists s s' rs, setTypeCreate server fresh usable value size_hint = Ret s /\
    run server fresh usable dict_can_resize address s ops = Ret (s', rs) /\ answers ∅ ops rs.
Proof.
  intros Hu Hc Hok. destruct (setTypeCreate_spec server fresh usable Hu Hc value size_hint) as (s & E & Hr).
  destruct (set_run_spec server fresh usable dict_can_resize address Hu Hc ops s ∅ Hr Hok) as (s' & rs & E' & Ha). eauto 10.
Qed.

(** ** Witness *)

#[export] Instance stringDictType : DictType (list Z) := {
  hashFunction k := u64 (fold_left (fun h c => 33 * h + c) k 5381);
  keyCompare a b := bool_decide (a = b);
  no_value := true;
  resizeAllowed _ _ _ := true;
}.
#[export] Instance stringDictTypeOk : DictTypeOk (list Z).
Proof. split; [intros k; apply wrap_range; lia|intros a b; apply bool_decide_eq_true]. Qed.

Definition small_config : config := Config 2 4 8.
Definition ex_ops : list op :=
  [OpAdd (SVal (chars "7")); OpAdd (LVal 7); OpMember (SVal (chars "07")); OpAdd (SVal (chars "abc")); OpAdd (LVal (-300)); OpRemove (SVal (chars "7"));
   OpDup; OpAdd (SVal (chars "123456789")); OpMember (LVal (-300)); OpSize].

(** From an intset through a listpack into a hash table. *)
Lemma set_refines_witness :
  (let* s := setTypeCreate small_config (fun _ => 0) id (chars "7") 1 in
   let* (s', rs) := run small_config (fun _ => 0) id DICT_RESIZE_ENABLE (fun _ => 0) s ex_ops in Ret (encoding_of s', rs))
  = Ret (OBJ_ENCODING_HT, [RBool true; RBool false; RBool false; RBool true; RBool true; RBool true; RNone; RBool true; RBool true; RSize 3]) /\
  exists s s' rs, setTypeCreate small_config (fun _ => 0) id (chars "7") 1 = Ret s /\
    run small_config (fun _ => 0) id DICT_RESIZE_ENABLE (fun _ => 0) s ex_ops = Ret (s', rs) /\ answers ∅ ex_ops rs.
Proof.
  split; [vm_compute; reflexivity|]. apply set_refines; [intros n; exact (le_n n)|unfold config_ok; cbn; lia|].
  repeat constructor; vm_compute; (done || intros; discriminate).
Defined.

End TSetSpec.
