(* ===== verification/TSetCmd.v ===== *)
(** * TSetCmd: the set commands (t_set.c)

    SADD, SREM, SMOVE, the membership and size queries, and the intersections, unions and
    differences with and without a destination, on the keys of one database.  A pointer to
    a set object of the database is its key: the object is looked up again wherever the
    code goes through the pointer, so two pointers to one set see the same object, and a
    loop over a set asks the iterator on the object as it then is.  The lookups are those
    of keys that are not expired.  The [int] that counts the result of a union or a
    difference wraps around; those that count arguments cannot. *)
From stdpp Require Import gmap.
From S2P Require Import Prelude NumStr Intset LpEntry Listpack LpBulk Dict DictIter StrObj SdsArgs TSet.
Import NumStr LpEntry Listpack LpBulk Dict DictIter TSet.

Module TSetCmd.

(** An object of the database: a set, or one of another type. *)
Inductive value := VSet (s : setobj) | VOther.

(** What a command leaves behind besides the data: keys whose watchers and tracking
    clients are told ([signalModifiedKey]) and keyspace notifications. *)
Inductive event := Signal (k : list Z) | NotifySet (name k : list Z) | NotifyGeneric (name k : list Z) | NotifyNew (k : list Z).

Record state := State { db : gmap (list Z) value; dirty : Z; events : list event }.

Definition set_db (st : state) (d : gmap (list Z) value) : state := State d (dirty st) (events st).
Definition add_dirty (st : state) (n : Z) : state := State (db st) (dirty st + n) (events st).
Definition emit (st : state) (es : list event) : state := State (db st) (dirty st) (events st ++ es).
Definition put (st : state) (k : list Z) (s : setobj) : state := set_db st (<[k := VSet s]> (db st)).

Inductive reply :=
| RLong (n : Z) | RWrongType | RSyntax | RNotInteger | RTooManyKeys
| RArray (l : list Z) | RSet (n : Z) (items : list (list Z)).

(** ** The database *)

Definition dbAdd (st : state) (k : list Z) (s : setobj) : outcome state :=
  match db st !! k with None => Ret (emit (put st k s) [NotifyNew k]) | Some _ => Abort end.

(** Whether there was a key to delete. *)
Definition dbDelete (st : state) (k : list Z) : state * bool :=
  match db st !! k with None => (st, false) | Some _ => (set_db st (delete k (db st)), true) end.

(** With flags 0. *)
Definition setKey (st : state) (k : list Z) (s : setobj) : outcome state :=
  let* st := match db st !! k with None => dbAdd st k s | Some _ => Ret (put st k s) end in
  Ret (emit st [Signal k]).

(** The set at the end of a pointer. *)
Definition deref_set (st : state) (k : list Z) : outcome setobj :=
  match db st !! k with Some (VSet s) => Ret s | _ => Abort end.

Definition with_set {A} (st : state) (k : list Z) (f : setobj -> outcome (setobj * A)) : outcome (state * A) :=
  let* s := deref_set st k in let* (s, a) := f s in Ret (put st k s, a).

Section Cmd.
Context `{DT : DictType (list Z)}.
Context (server : config) (fresh : nat -> Z) (usable : nat -> nat).
Context (dict_can_resize : dictResizeEnable) (address : ht (list Z) unit -> Z).
(** [qsort] by a size, increasing; the order of sets of the same size is not determined. *)
Context (qsort : forall A, (A -> Z) -> list A -> list A).

Definition add_aux := setTypeAddAux server fresh usable dict_can_resize address.
Definition remove_aux := setTypeRemoveAux fresh usable dict_can_resize.
Definition member_aux := setTypeIsMemberAux dict_can_resize.
Definition size_of (s : setobj) : outcome (setobj * Z) := let* (n, s) := setTypeSize s in Ret (s, n).

(** ** One set *)

Fixpoint add_all (st : state) (k : list Z) (eles : list (list Z)) (added : Z) : outcome (state * Z) :=
  match eles with
  | [] => Ret (st, added)
  | e :: eles =>
      let* (st, b) := with_set st k (fun s => setTypeAdd server fresh usable dict_can_resize address s e) in
      add_all st k eles (if b : bool then added + 1 else added)
  end.

(** [ele] is [argv[2]], [eles] what follows it. *)
Definition saddCommand (st : state) (k ele : list Z) (eles : list (list Z)) : outcome (state * reply) :=
  let count := 1 + Z.of_nat (length eles) in
  match db st !! k with
  | Some VOther => Ret (st, RWrongType)
  | o =>
      let* st := match o with
                 | None => let* s := setTypeCreate server fresh usable ele count in dbAdd st k s
                 | Some _ => let* (st, _) := with_set st k (fun s => let* s := setTypeMaybeConvert server fresh usable dict_can_resize address s count in Ret (s, tt)) in Ret st
                 end in
      let* (st, added) := add_all st k (ele :: eles) 0 in
      let st := if 0 <? added then emit st [Signal k; NotifySet (chars "sadd") k] else st in
      Ret (add_dirty st added, RLong added)
  end.

(** The state, how many were deleted and whether the key was removed. *)
Fixpoint remove_all (st : state) (k : list Z) (eles : list (list Z)) (deleted : Z) : outcome (state * Z * bool) :=
  match eles with
  | [] => Ret (st, deleted, false)
  | e :: eles =>
      let* (st, b) := with_set st k (fun s => setTypeRemove fresh usable dict_can_resize s e) in
      if b : bool then
        let deleted := deleted + 1 in
        let* (st, n) := with_set st k size_of in
        if n =? 0 then Ret (fst (dbDelete st k), deleted, true) else remove_all st k eles deleted
      else remove_all st k eles deleted
  end.

Definition sremCommand (st : state) (k : list Z) (eles : list (list Z)) : outcome (state * reply) :=
  match db st !! k with
  | None => Ret (st, RLong 0)
  | Some VOther => Ret (st, RWrongType)
  | Some (VSet _) =>
      let* (r, keyremoved) := remove_all st k eles 0 in
      let '(st, deleted) := r in
      let st := if 0 <? deleted then
                  let st := emit st [Signal k; NotifySet (chars "srem") k] in
                  let st := if keyremoved : bool then emit st [NotifyGeneric (chars "del") k] else st in
                  add_dirty st deleted
                else st in
      Ret (st, RLong deleted)
  end.

Definition smoveCommand (st : state) (src dst ele : list Z) : outcome (state * reply) :=
  match db st !! src, db st !! dst with
  | None, _ => Ret (st, RLong 0)
  | Some VOther, _ | _, Some VOther => Ret (st, RWrongType)
  | Some (VSet _), dstset =>
      if bool_decide (src = dst) then
        let* (st, b) := with_set st src (fun s => setTypeIsMember dict_can_resize s ele) in
        Ret (st, RLong (if b : bool then 1 else 0))
      else
        let* (st, b) := with_set st src (fun s => setTypeRemove fresh usable dict_can_resize s ele) in
        if negb b then Ret (st, RLong 0) else
        let st := emit st [NotifySet (chars "srem") src] in
        let* (st, n) := with_set st src size_of in
        let st := if n =? 0 then emit (fst (dbDelete st src)) [NotifyGeneric (chars "del") src] else st in
        let* st := match dstset with
                   | None => let* s := setTypeCreate server fresh usable ele 1 in dbAdd st dst s
                   | Some _ => Ret st
                   end in
        let st := add_dirty (emit st [Signal src]) 1 in
        let* (st, b) := with_set st dst (fun s => setTypeAdd server fresh usable dict_can_resize address s ele) in
        let st := if b : bool then emit (add_dirty st 1) [Signal dst; NotifySet (chars "sadd") dst] else st in
        Ret (st, RLong 1)
  end.

Definition sismemberCommand (st : state) (k ele : list Z) : outcome (state * reply) :=
  match db st !! k with
  | None => Ret (st, RLong 0)
  | Some VOther => Ret (st, RWrongType)
  | Some (VSet _) =>
      let* (st, b) := with_set st k (fun s => setTypeIsMember dict_can_resize s ele) in
      Ret (st, RLong (if b : bool then 1 else 0))
  end.

Fixpoint member_each (st : state) (k : list Z) (present : bool) (eles : list (list Z)) : outcome (state * list Z) :=
  match eles with
  | [] => Ret (st, [])
  | e :: eles =>
      let* (st, b) := if present then with_set st k (fun s => setTypeIsMember dict_can_resize s e) else Ret (st, false) in
      let* (st, l) := member_each st k present eles in
      Ret (st, (if b : bool then 1 else 0) :: l)
  end.

Definition smismemberCommand (st : state) (k : list Z) (eles : list (list Z)) : outcome (state * reply) :=
  match db st !! k with
  | Some VOther => Ret (st, RWrongType)
  | o => let* (st, l) := member_each st k (match o with Some _ => true | None => false end) eles in Ret (st, RArray l)
  end.

Definition scardCommand (st : state) (k : list Z) : outcome (state * reply) :=
  match db st !! k with
  | None => Ret (st, RLong 0)
  | Some VOther => Ret (st, RWrongType)
  | Some (VSet _) => let* (st, n) := with_set st k size_of in Ret (st, RLong n)
  end.

(** ** Several sets *)

(** [while (setTypeNext(si, ...) != -1)] on the set a pointer points to. *)
Fixpoint foreach_at_loop {A} (fuel : nat) (k : list Z) (body : state * A -> listpackEntry -> outcome (state * A * bool)) (si : setTypeIterator) (a : state * A) : outcome (state * A * setTypeIterator) :=
  match fuel with
  | O => Abort
  | S fuel =>
      let* s := deref_set (fst a) k in
      let* (si, v) := setTypeNext address s si in
      match v with
      | None => Ret (a, si)
      | Some v =>
          let* (a, more) := body a v in
          if more : bool then foreach_at_loop fuel k body si a else Ret (a, si)
      end
  end.

Definition foreach_at {A} (k : list Z) (body : state * A -> listpackEntry -> outcome (state * A * bool)) (a : state * A) : outcome (state * A) :=
  let* s := deref_set (fst a) k in
  let* (a, si) := foreach_at_loop (turns s) k body setTypeInitIterator a in
  let* s := deref_set (fst a) k in
  let* _ := setTypeReleaseIterator address s si in
  Ret a.

(** [sets[j]]; [None] when some key holds another type. *)
Fixpoint lookup_sets (st : state) (keys : list (list Z)) : option (list (option (list Z))) :=
  match keys with
  | [] => Some []
  | k :: keys =>
      match db st !! k, lookup_sets st keys with
      | Some VOther, _ | _, None => None
      | None, Some sets => Some (None :: sets)
      | Some (VSet _), Some sets => Some (Some k :: sets)
      end
  end.

(** The sizes [qsort] compares; no comparison is made of fewer than two sets. *)
Fixpoint sizes (st : state) (sets : list (option (list Z))) : outcome (state * list (option (list Z) * Z)) :=
  match sets with
  | [] => Ret (st, [])
  | p :: sets =>
      let* (st, n) := match p with Some k => with_set st k size_of | None => Ret (st, 0) end in
      let* (st, l) := sizes st sets in
      Ret (st, (p, n) :: l)
  end.

Definition sort_sets (increasing : bool) (st : state) (sets : list (option (list Z))) : outcome (state * list (option (list Z))) :=
  if (length sets <=? 1)%nat then Ret (st, sets) else
  let* (st, l) := sizes st sets in
  Ret (st, fst <$> qsort _ (fun x => if increasing then snd x else - snd x) l).

(** [for (j = 1; j < setnum; j++)] of the intersection: whether all sets have the value. *)
Fixpoint in_all (st : state) (k0 : list Z) (sets : list (option (list Z))) (v : listpackEntry) : outcome (state * bool) :=
  match sets with
  | [] => Ret (st, true)
  | p :: sets =>
      if bool_decide (p = Some k0) then in_all st k0 sets v else
      match p with
      | None => Abort
      | Some k => let* (st, b) := with_set st k (fun s => member_aux s v) in if b : bool then in_all st k0 sets v else Ret (st, false)
      end
  end.

(** Of the difference: whether no other set has it. *)
Fixpoint in_none (st : state) (k0 : list Z) (sets : list (option (list Z))) (v : listpackEntry) : outcome (state * bool) :=
  match sets with
  | [] => Ret (st, true)
  | None :: sets => in_none st k0 sets v
  | Some k :: sets =>
      if bool_decide (k = k0) then Ret (st, false) else
      let* (st, b) := with_set st k (fun s => member_aux s v) in
      if b : bool then Ret (st, false) else in_none st k0 sets v
  end.

Definition is_ht (s : setobj) : bool := match s with SHt _ => true | _ => false end.

(** What the loop of [sinterGenericCommand] keeps. *)
Record inter := Inter { i_cardinality : Z; i_items : list (list Z); i_dst : setobj; i_only_integers : bool }.

(** The value as it is added to the destination, and [only_integers]. *)
Definition as_integer (from_ht : bool) (dst : setobj) (v : listpackEntry) (only_integers : bool) : listpackEntry * bool :=
  match v with
  | SVal str =>
      if only_integers then
        match (if from_ht then string2ll str else None) with
        | Some ll => (match dst with SHt _ => v | _ => LVal ll end, true)
        | None => (v, false)
        end
      else (v, false)
  | LVal _ => (v, only_integers)
  end.

Definition inter_body (k0 : list Z) (others : list (option (list Z))) (store cardinality_only : bool) (limit : Z) (a : state * inter) (v : listpackEntry) : outcome (state * inter * bool) :=
  let '(st, i) := a in
  let* s0 := deref_set st k0 in
  let* (st, all) := in_all st k0 others v in
  if negb all then Ret (st, i, true) else
  if cardinality_only then
    let n := i_cardinality i + 1 in
    Ret (st, Inter n (i_items i) (i_dst i) (i_only_integers i), negb ((0 <? limit) && (limit <=? n)))
  else if negb store then
    Ret (st, Inter (i_cardinality i + 1) (i_items i ++ [text_of v]) (i_dst i) (i_only_integers i), true)
  else
    let '(v, only) := as_integer (is_ht s0) (i_dst i) v (i_only_integers i) in
    let* (dst, _) := add_aux (i_dst i) v in
    Ret (st, Inter (i_cardinality i) (i_items i) dst only, true).

Definition delete_dst (st : state) (dstkey : list Z) : state :=
  let '(st, found) := dbDelete st dstkey in
  if found : bool then add_dirty (emit st [Signal dstkey; NotifyGeneric (chars "del") dstkey]) 1 else st.

Definition store_dst (st : state) (dstkey : list Z) (dst : setobj) (name : list Z) : outcome (state * reply) :=
  let* st := setKey st dstkey dst in
  let* (st, n) := with_set st dstkey size_of in
  Ret (add_dirty (emit st [NotifySet name dstkey]) 1, RLong n).

Definition shrink (s : setobj) : setobj := match s with SListpack lp => SListpack (lpShrinkToFit fresh usable lp) | _ => s end.

Definition sinterGenericCommand (st : state) (setkeys : list (list Z)) (dstkey : option (list Z)) (cardinality_only : bool) (limit : Z) : outcome (state * reply) :=
  match lookup_sets st setkeys with
  | None => Ret (st, RWrongType)
  | Some sets =>
      if bool_decide (None ∈ sets) then
        match dstkey with
        | Some dst => Ret (delete_dst st dst, RLong 0)
        | None => Ret (st, if cardinality_only then RLong 0 else RSet 0 [])
        end
      else
        let* (st, sets) := sort_sets true st sets in
        match sets with
        | Some k0 :: others =>
            let* s0 := deref_set st k0 in
            let dst := match s0 with
                       | SIntset _ => createIntsetObject
                       | SListpack lp => SListpack (lpNew fresh usable (lpBytes lp))
                       | SHt _ => createSetListpackObject fresh usable
                       end in
            let store := match dstkey with Some _ => true | None => false end in
            let* (st, i) := foreach_at k0 (inter_body k0 others store cardinality_only limit) (st, Inter 0 [] dst true) in
            if cardinality_only then Ret (st, RLong (i_cardinality i)) else
            match dstkey with
            | None => Ret (st, RSet (i_cardinality i) (i_items i))
            | Some dstkey =>
                let* (n, dst) := setTypeSize (i_dst i) in
                if 0 <? n then
                  let* dst := if i_only_integers i then maybeConvertToIntset server fresh address dst else Ret dst in
                  store_dst st dstkey (shrink dst) (chars "sinterstore")
                else Ret (delete_dst st dstkey, RLong 0)
            end
        | _ => Abort
        end
  end.

Definition sinterCommand (st : state) (keys : list (list Z)) := sinterGenericCommand st keys None false 0.
Definition sinterstoreCommand (st : state) (dst : list Z) (keys : list (list Z)) := sinterGenericCommand st keys (Some dst) false 0.

(** The options after the keys: [inl] the limit, [inr] the error. *)
Fixpoint card_options (argv : list (list Z)) (limit : Z) : Z + reply :=
  match argv with
  | [] => inl limit
  | [_] => inr RSyntax
  | opt :: arg :: argv =>
      if SdsArgs.same_case opt (chars "LIMIT") then
        match StrObj.getPositiveLongFromObjectOrReply (Some (StrObj.createStringObject arg)) with
        | None => inr RNotInteger
        | Some limit => card_options argv limit
        end
      else inr RSyntax
  end.

(** [argv] from the number of keys on. *)
Definition sinterCardCommand (st : state) (numkeys : list Z) (argv : list (list Z)) : outcome (state * reply) :=
  match StrObj.getRangeLongFromObjectOrReply (Some (StrObj.createStringObject numkeys)) 1 StrObj.LONG_MAX with
  | None => Ret (st, RNotInteger)
  | Some n =>
      if Z.of_nat (length argv) <? n then Ret (st, RTooManyKeys) else
      match card_options (drop (Z.to_nat n) argv) 0 with
      | inr e => Ret (st, e)
      | inl limit => sinterGenericCommand st (take (Z.to_nat n) argv) None true limit
      end
  end.

(** ** Unions and differences *)

Inductive setop := SET_OP_UNION | SET_OP_DIFF.

(** [cardinality += setTypeAddAux(dstset, ...)] *)
Definition collect (a : state * (setobj * Z)) (v : listpackEntry) : outcome (state * (setobj * Z) * bool) :=
  let '(st, (dst, n)) := a in
  let* (dst, b) := add_aux dst v in
  Ret (st, (dst, s32 (n + (if b : bool then 1 else 0))), true).

(** [cardinality -= setTypeRemoveAux(dstset, ...)] *)
Definition subtract (a : state * (setobj * Z)) (v : listpackEntry) : outcome (state * (setobj * Z) * bool) :=
  let '(st, (dst, n)) := a in
  let* (dst, b) := remove_aux dst v in
  Ret (st, (dst, s32 (n - (if b : bool then 1 else 0))), true).

Fixpoint union_all (sets : list (option (list Z))) (a : state * (setobj * Z)) : outcome (state * (setobj * Z)) :=
  match sets with
  | [] => Ret a
  | None :: sets => union_all sets a
  | Some k :: sets => let* a := foreach_at k collect a in union_all sets a
  end.

Definition diff_one (k0 : list Z) (others : list (option (list Z))) (a : state * (setobj * Z)) : outcome (state * (setobj * Z)) :=
  foreach_at k0 (fun a v => let* (st, none) := in_none (fst a) k0 others v in
                            if none : bool then collect (st, snd a) v else Ret (st, snd a, true)) a.

(** Algorithm 2 from the second set on. *)
Fixpoint subtract_all (sets : list (option (list Z))) (a : state * (setobj * Z)) : outcome (state * (setobj * Z)) :=
  match sets with
  | [] => Ret a
  | None :: sets => subtract_all sets a
  | Some k :: sets => let* a := foreach_at k subtract a in if snd (snd a) =? 0 then Ret a else subtract_all sets a
  end.

Definition diff_two (k0 : list Z) (others : list (option (list Z))) (a : state * (setobj * Z)) : outcome (state * (setobj * Z)) :=
  let* a := foreach_at k0 collect a in
  if snd (snd a) =? 0 then Ret a else subtract_all others a.

(** The work of the two algorithms. *)
Fixpoint work (st : state) (k0 : list Z) (sets : list (option (list Z))) (one two : Z) : outcome (state * (Z * Z)) :=
  match sets with
  | [] => Ret (st, (one, two))
  | None :: sets => work st k0 sets one two
  | Some k :: sets =>
      let* (st, n0) := with_set st k0 size_of in
      let* (st, n) := with_set st k size_of in
      work st k0 sets (one + n0) (two + n)
  end.

Definition diff_sets (st : state) (sets : list (option (list Z))) (a : setobj * Z) : outcome (state * (setobj * Z)) :=
  match sets with
  | Some k0 :: others =>
      if bool_decide (Some k0 ∈ others) then Ret (st, a) else
      let* (st, w) := work st k0 sets 0 0 in
      if Z.quot (fst w) 2 <=? snd w then
        let* (st, others) := sort_sets false st others in
        diff_one k0 others (st, a)
      else diff_two k0 others (st, a)
  | _ => Ret (st, a)
  end.

Definition sunionDiffGenericCommand (st : state) (setkeys : list (list Z)) (dstkey : option (list Z)) (op : setop) : outcome (state * reply) :=
  match lookup_sets st setkeys with
  | None => Ret (st, RWrongType)
  | Some sets =>
      let a := (createIntsetObject, 0) in
      let* (st, r) := match op with SET_OP_UNION => union_all sets (st, a) | SET_OP_DIFF => diff_sets st sets a end in
      let '(dst, cardinality) := r in
      match dstkey with
      | None =>
          let* items := foreach address dst (fun l v => Ret (l ++ [text_of v], true)) [] in
          Ret (st, RSet cardinality items)
      | Some dstkey =>
          let* (n, dst) := setTypeSize dst in
          if 0 <? n then store_dst st dstkey dst (match op with SET_OP_UNION => chars "sunionstore" | SET_OP_DIFF => chars "sdiffstore" end)
          else Ret (delete_dst st dstkey, RLong 0)
      end
  end.

Definition sunionCommand (st : state) (keys : list (list Z)) := sunionDiffGenericCommand st keys None SET_OP_UNION.
Definition sunionstoreCommand (st : state) (dst : list Z) (keys : list (list Z)) := sunionDiffGenericCommand st keys (Some dst) SET_OP_UNION.
Definition sdiffCommand (st : state) (keys : list (list Z)) := sunionDiffGenericCommand st keys None SET_OP_DIFF.
Definition sdiffstoreCommand (st : state) (dst : list Z) (keys : list (list Z)) := sunionDiffGenericCommand st keys (Some dst) SET_OP_DIFF.

End Cmd.

End TSetCmd.
