(* ===== verification/TSetCmdSpec.v ===== *)
(** * TSetCmdSpec: the set commands refine set algebra (t_set.c)

    The commands on a database of set objects against the same commands on a finite map
    from keys to finite sets. *)
From stdpp Require Import gmap.
From S2P Require Import Prelude NumStr Intset LpEntry Listpack LpBulk Dict DictIter StrObj SdsArgs TSet TSetSpec TSetCmd.
Import NumStr LpEntry Listpack LpBulk Dict DictIter TSet TSetSpec TSetCmd.

Module TSetCmdSpec.

(** ** The specification *)

Inductive aval := ASet (X : sset) | AOther.
Abbreviation adb := (gmap (list Z) aval).

(** A missing key is an empty set. *)
Definition cur (D : adb) (k : list Z) : sset := match D !! k with Some (ASet X) => X | _ => ∅ end.
Definition wrong (D : adb) (k : list Z) : bool := match D !! k with Some AOther => true | _ => false end.

(** A set that becomes empty is removed. *)
Definition upd (D : adb) (k : list Z) (X : sset) : adb := if decide (X = ∅) then delete k D else <[k := ASet X]> D.

Definition inter_of (D : adb) (k : list Z) (ks : list (list Z)) : sset := foldr (fun k X => cur D k ∩ X) (cur D k) ks.
Definition union_of (D : adb) (ks : list (list Z)) : sset := foldr (fun k X => cur D k ∪ X) ∅ ks.
Definition diff_of (D : adb) (k : list Z) (ks : list (list Z)) : sset := cur D k ∖ union_of D ks.

Inductive cmd :=
| CAdd (k ele : list Z) (eles : list (list Z)) | CRem (k : list Z) (eles : list (list Z)) | CMove (src dst ele : list Z)
| CIsMember (k ele : list Z) | CMIsMember (k : list Z) (eles : list (list Z)) | CCard (k : list Z)
| CInter (dst : option (list Z)) (k : list Z) (ks : list (list Z)) | CInterCard (limit : option Z) (k : list Z) (ks : list (list Z))
| CUnion (dst : option (list Z)) (k : list Z) (ks : list (list Z)) | CDiff (dst : option (list Z)) (k : list Z) (ks : list (list Z)).

Definition bit_ (P : Prop) `{!Decision P} : Z := if decide P then 1 else 0.

(** The members of [R], each once, in any order, after their number. *)
Definition is_set (R : sset) (r : reply) : Prop := exists l, r = RSet (Z.of_nat (size R)) l /\ l ≡ₚ stdpp.base.elements R.

Definition give (D : adb) (dst : option (list Z)) (R : sset) : adb * (reply -> Prop) :=
  match dst with None => (D, is_set R) | Some dst => (upd D dst R, eq (RLong (Z.of_nat (size R)))) end.

(** The database after the command, and which replies are right. *)
Definition spec (D : adb) (c : cmd) : adb * (reply -> Prop) :=
  match c with
  | CAdd k ele eles =>
      if wrong D k then (D, eq RWrongType) else
      let X := cur D k in let X' := list_to_set (ele :: eles) ∪ X in
      (<[k := ASet X']> D, eq (RLong (Z.of_nat (size X') - Z.of_nat (size X))))
  | CRem k eles =>
      if wrong D k then (D, eq RWrongType) else
      let X := cur D k in let X' := X ∖ list_to_set eles in
      (upd D k X', eq (RLong (Z.of_nat (size X) - Z.of_nat (size X'))))
  | CMove src dst ele =>
      match D !! src with None => (D, eq (RLong 0)) | Some _ =>
      if wrong D src || wrong D dst then (D, eq RWrongType) else
      if decide (ele ∈ cur D src) then
        (if decide (src = dst) then D else <[dst := ASet ({[ele]} ∪ cur D dst)]> (upd D src (cur D src ∖ {[ele]})), eq (RLong 1))
      else (D, eq (RLong 0)) end
  | CIsMember k ele => (D, eq (if wrong D k then RWrongType else RLong (bit_ (ele ∈ cur D k))))
  | CMIsMember k eles => (D, eq (if wrong D k then RWrongType else RArray ((fun ele => bit_ (ele ∈ cur D k)) <$> eles)))
  | CCard k => (D, eq (if wrong D k then RWrongType else RLong (Z.of_nat (size (cur D k)))))
  | CInter dst k ks => if existsb (wrong D) (k :: ks) then (D, eq RWrongType) else give D dst (inter_of D k ks)
  | CInterCard limit k ks =>
      (D, eq (if existsb (wrong D) (k :: ks) then RWrongType else
              let n := Z.of_nat (size (inter_of D k ks)) in
              RLong (match limit with Some limit => if limit =? 0 then n else Z.min limit n | None => n end)))
  | CUnion dst k ks => if existsb (wrong D) (k :: ks) then (D, eq RWrongType) else give D dst (union_of D (k :: ks))
  | CDiff dst k ks => if existsb (wrong D) (k :: ks) then (D, eq RWrongType) else give D dst (diff_of D k ks)
  end.

Section Spec.
Context `{DT : DictType (list Z), DTok : !DictTypeOk (list Z)}.
Context (server : config) (fresh : nat -> Z) (usable : nat -> nat).
Context (dict_can_resize : dictResizeEnable) (address : ht (list Z) unit -> Z).
Context (qsort : forall A, (A -> Z) -> list A -> list A).
Context (Husable : forall n, (n <= usable n)%nat) (Hconf : config_ok server).
(** What [qsort] promises here. *)
Context (Hqsort : forall A (f : A -> Z) l, qsort A f l ≡ₚ l).

(** The command as it comes from a client. *)
Definition exec (st : state) (c : cmd) : outcome (state * reply) :=
  match c with
  | CAdd k ele eles => saddCommand server fresh usable dict_can_resize address st k ele eles
  | CRem k eles => sremCommand fresh usable dict_can_resize st k eles
  | CMove src dst ele => smoveCommand server fresh usable dict_can_resize address st src dst ele
  | CIsMember k ele => sismemberCommand dict_can_resize st k ele
  | CMIsMember k eles => smismemberCommand dict_can_resize st k eles
  | CCard k => scardCommand st k
  | CInter None k ks => sinterCommand server fresh usable dict_can_resize address qsort st (k :: ks)
  | CInter (Some dst) k ks => sinterstoreCommand server fresh usable dict_can_resize address qsort st dst (k :: ks)
  | CInterCard limit k ks =>
      sinterCardCommand server fresh usable dict_can_resize address qsort st (repr (1 + Z.of_nat (length ks)))
        ((k :: ks) ++ match limit with Some limit => [chars "limit"; repr limit] | None => [] end)
  | CUnion None k ks => sunionCommand server fresh usable dict_can_resize address qsort st (k :: ks)
  | CUnion (Some dst) k ks => sunionstoreCommand server fresh usable dict_can_resize address qsort st dst (k :: ks)
  | CDiff None k ks => sdiffCommand server fresh usable dict_can_resize address qsort st (k :: ks)
  | CDiff (Some dst) k ks => sdiffstoreCommand server fresh usable dict_can_resize address qsort st dst (k :: ks)
  end.

Definition cmd_ok (c : cmd) : Prop :=
  match c with
  | CAdd _ ele eles => Forall string_ok (ele :: eles)
  | CRem _ eles | CMIsMember _ eles => Forall string_ok eles
  | CMove _ _ ele | CIsMember _ ele => string_ok ele
  | CInterCard limit k ks => Z.of_nat (length ks) < 2 ^ 31 /\ match limit with Some limit => 0 <= limit < 2 ^ 63 | None => True end
  | _ => True
  end.

(** ** The database holds the sets *)

Definition abs (m : gmap (list Z) value) (D : adb) : Prop := forall k,
  match m !! k, D !! k with
  | Some (VSet s), Some (ASet X) => rep server s X
  | Some VOther, Some AOther | None, None => True
  | _, _ => False
  end.

(** No key holds an empty set. *)
Definition no_empty (D : adb) : Prop := forall k, D !! k <> Some (ASet ∅).

(** Only internals of sets differ, and not those of the set at [k0]. *)
Record reads (D : adb) (k0 : option (list Z)) (st st' : state) : Prop := {
  rd_abs : abs (db st') D;
  rd_keep : forall k, k0 = Some k -> db st' !! k = db st !! k;
  rd_dirty : dirty st' = dirty st;
  rd_events : events st' = events st
}.

Lemma reads_refl D k0 st : abs (db st) D -> reads D k0 st st.
Proof using. done. Qed.

Lemma reads_trans D k0 st1 st2 st3 : reads D k0 st1 st2 -> reads D k0 st2 st3 -> reads D k0 st1 st3.
Proof using. intros [A1 B1 C1 E1] [A2 B2 C2 E2]. split; [done| |congruence|congruence]. intros k Hk. by rewrite B2, B1. Qed.

Lemma reads_weaken D k0 st st' : reads D k0 st st' -> reads D None st st'.
Proof using. intros [A B C E]. by split. Qed.

Lemma abs_set m D k X : abs m D -> D !! k = Some (ASet X) -> exists s, m !! k = Some (VSet s) /\ rep server s X.
Proof using. intros H E. specialize (H k). rewrite E in H. destruct (m !! k) as [[s|]|]; [eauto|done|done]. Qed.

Lemma abs_none m D k : abs m D -> D !! k = None -> m !! k = None.
Proof using. intros H E. specialize (H k). rewrite E in H. by destruct (m !! k) as [[s|]|]. Qed.

Lemma abs_other m D k : abs m D -> D !! k = Some AOther -> m !! k = Some VOther.
Proof using. intros H E. specialize (H k). rewrite E in H. by destruct (m !! k) as [[s|]|]. Qed.

Lemma abs_insert m D k s X : abs m D -> rep server s X -> abs (<[k := VSet s]> m) (<[k := ASet X]> D).
Proof using.
  intros H Hr j. destruct (decide (j = k)) as [->|Hne]; [by rewrite !lookup_insert_eq|]. rewrite !lookup_insert_ne by done. apply H.
Qed.

Lemma abs_delete m D k : abs m D -> abs (delete k m) (delete k D).
Proof using. intros H j. destruct (decide (j = k)) as [->|Hne]; [by rewrite !lookup_delete_eq|]. rewrite !lookup_delete_ne by done. apply H. Qed.

(** An operation on one set of the database. *)
Lemma with_set_spec {A} st D k X X' (Q : A -> Prop) (f : setobj -> outcome (setobj * A)) :
  abs (db st) D -> D !! k = Some (ASet X) -> (forall s, rep server s X -> exists s' a, f s = Ret (s', a) /\ rep server s' X' /\ Q a) ->
  exists st' a, with_set st k f = Ret (st', a) /\ Q a /\ abs (db st') (<[k := ASet X']> D) /\ dirty st' = dirty st /\ events st' = events st /\
    (forall j, j <> k -> db st' !! j = db st !! j).
Proof using.
  intros Ha Hk Hf. destruct (abs_set _ _ _ _ Ha Hk) as (s & Es & Hr). destruct (Hf s Hr) as (s' & a & Ef & Hr' & HQ). exists (put st k s'), a.
  unfold with_set, deref_set. rewrite Es. cbn [obind]. rewrite Ef. cbn [obind]. split_and!; [done|done|by apply abs_insert|done|done|]. intros j Hj. cbn. by rewrite lookup_insert_ne.
Qed.

(** One that leaves the set as it is. *)
Lemma with_set_reads {A} st D k X (a : A) k0 (f : setobj -> outcome (setobj * A)) : k0 <> Some k ->
  abs (db st) D -> D !! k = Some (ASet X) -> (forall s, rep server s X -> exists s', f s = Ret (s', a) /\ rep server s' X) ->
  exists st', with_set st k f = Ret (st', a) /\ reads D k0 st st'.
Proof using.
  intros Hne Ha Hk Hf. destruct (with_set_spec st D k X X (eq a) f Ha Hk) as (st' & a' & E & <- & Ha' & Hd & He & Hj).
  { intros s Hs. destruct (Hf s Hs) as (s' & E & Hr). eauto. }
  exists st'. split; [done|]. rewrite insert_id in Ha' by done. split; [done| |done|done]. intros j Ej. apply Hj. congruence.
Qed.

Lemma member_reads st D k X k0 v : k0 <> Some k -> abs (db st) D -> D !! k = Some (ASet X) -> new_ok v ->
  exists st', with_set st k (fun s => member_aux dict_can_resize s v) = Ret (st', bool_decide (vtext v ∈ X)) /\ reads D k0 st st'.
Proof using DTok. intros Hne Ha Hk Hv. eapply with_set_reads; [done|done|done|]. intros s Hs. by eapply setTypeIsMemberAux_spec. Qed.

Lemma size_reads st D k X k0 : k0 <> Some k -> abs (db st) D -> D !! k = Some (ASet X) ->
  exists st', with_set st k size_of = Ret (st', Z.of_nat (size X)) /\ reads D k0 st st'.
Proof using.
  intros Hne Ha Hk. eapply with_set_reads; [done|done|done|]. intros s Hs. destruct (setTypeSize_rep server s X Hs) as (s' & E & Hr). exists s'. unfold size_of. by rewrite E.
Qed.

(** ** What a command tells *)

(** Every key that changed is signalled, and a change counts for persistence. *)
Record tells (D D' : adb) (st st' : state) : Prop := {
  tl_abs : abs (db st') D';
  tl_events : exists evs, events st' = events st ++ evs /\ forall k, D' !! k <> D !! k -> Signal k ∈ evs;
  tl_dirty : dirty st <= dirty st' /\ (D' <> D -> dirty st < dirty st')
}.

Lemma reads_tells D k0 st st' : reads D k0 st st' -> tells D D st st'.
Proof using. intros [A B C E]. split; [done| |split; [lia|done]]. exists []. rewrite app_nil_r. split; [done|]. by intros k Hk. Qed.

Definition done_right (D : adb) (st : state) (c : cmd) : Prop :=
  exists st' r, exec st c = Ret (st', r) /\ tells D (fst (spec D c)) st st' /\ snd (spec D c) r.

Lemma done_reads D k0 st c st' r : exec st c = Ret (st', r) -> reads D k0 st st' -> fst (spec D c) = D -> snd (spec D c) r -> done_right D st c.
Proof using. intros E Hr Ef Hs. exists st', r. rewrite Ef. split; [done|]. split; [by eapply reads_tells|done]. Qed.

Lemma cur_set D k X : D !! k = Some (ASet X) -> cur D k = X.
Proof using. intros E. unfold cur. by rewrite E. Qed.

Lemma cur_none D k : D !! k = None -> cur D k = ∅.
Proof using. intros E. unfold cur. by rewrite E. Qed.

Lemma new_sval e : string_ok e -> new_ok (SVal e).
Proof using. done. Qed.

(** Adding one after the other. *)
Lemma add_all_spec eles st D k X added : abs (db st) D -> D !! k = Some (ASet X) -> Forall string_ok eles ->
  exists st', add_all server fresh usable dict_can_resize address st k eles added = Ret (st', added + (Z.of_nat (size (list_to_set eles ∪ X)) - Z.of_nat (size X))) /\
    abs (db st') (<[k := ASet (list_to_set eles ∪ X)]> D) /\ dirty st' = dirty st /\ events st' = events st.
Proof using DTok Husable Hconf.
  revert st D X added. induction eles as [|e eles IH]; intros st D X added Ha Hk Hok.
  { exists st. assert (list_to_set [] ∪ X = X) as -> by apply (union_empty_l_L X). split; [|by rewrite insert_id]. cbn [add_all]. do 2 f_equal. lia. }
  apply Forall_cons in Hok as [He Hok]. cbn [add_all].
  destruct (with_set_spec st D k X ({[e]} ∪ X) (eq (bool_decide (e ∉ X))) (fun s => setTypeAdd server fresh usable dict_can_resize address s e) Ha Hk) as (st1 & b & -> & <- & Ha1 & Hd1 & He1 & _).
  { intros s Hs. destruct (setTypeAddAux_spec server fresh usable dict_can_resize address Husable Hconf s X (SVal e) Hs He) as (s' & E & Hr). exists s', (bool_decide (e ∉ X)). done. }
  cbn [obind]. destruct (IH st1 _ ({[e]} ∪ X) (if bool_decide (e ∉ X) then added + 1 else added) Ha1 (lookup_insert_eq _ _ _) Hok) as (st2 & -> & Ha2 & Hd2 & He2).
  exists st2. rewrite insert_insert_eq in Ha2. assert (list_to_set (e :: eles) ∪ X = list_to_set eles ∪ ({[e]} ∪ X)) as -> by (apply set_eq; intros x; rewrite list_to_set_cons, !elem_of_union; tauto).
  split; [|split; [done|split; congruence]]. do 2 f_equal. case_bool_decide as Hin.
  - rewrite (size_union {[e]} X), size_singleton by (by apply disjoint_singleton_l). lia.
  - assert ({[e]} ∪ X = X) as -> by (apply set_eq; intros x; rewrite elem_of_union, elem_of_singleton; split; [by intros [->|?]|tauto]). lia.
Qed.

Lemma size_grows (A X : sset) : (size X <= size (A ∪ X))%nat.
Proof using. apply subseteq_size. intros x Hx. apply elem_of_union. by right. Qed.

Lemma grown (A X : sset) : (size (A ∪ X) <= size X)%nat -> A ∪ X = X.
Proof using. intros H. symmetry. apply set_subseteq_size_eq; [|done]. intros x Hx. apply elem_of_union. by right. Qed.

Lemma sadd_right D st k ele eles : abs (db st) D -> no_empty D -> cmd_ok (CAdd k ele eles) -> done_right D st (CAdd k ele eles).
Proof using DTok Husable Hconf.
  intros Ha Hne Hok. destruct (wrong D k) eqn:Ew.
  { eapply (done_reads D None st _ st RWrongType); [|done|cbn; by rewrite Ew|cbn; by rewrite Ew]. cbn [exec]. unfold saddCommand.
    unfold wrong in Ew. destruct (D !! k) as [[X|]|] eqn:Ek; [done| |done]. by rewrite (abs_other _ _ _ Ha Ek). }
  assert (exists st1 D1, (match db st !! k with
                 | None => let* s := setTypeCreate server fresh usable ele (1 + Z.of_nat (length eles)) in dbAdd st k s
                 | Some _ => let* (st, _) := with_set st k (fun s => let* s := setTypeMaybeConvert server fresh usable dict_can_resize address s (1 + Z.of_nat (length eles)) in Ret (s, tt)) in Ret st
                 end) = Ret st1 /\ abs (db st1) D1 /\ D1 !! k = Some (ASet (cur D k)) /\ (forall j, j <> k -> D1 !! j = D !! j) /\ dirty st1 = dirty st /\ (exists ev1, events st1 = events st ++ ev1) /\ db st !! k <> Some VOther)
    as (st1 & D1 & E1 & Ha1 & Hk1 & Hj1 & Hd1 & (ev1 & He1) & Hno).
  { unfold wrong in Ew. destruct (D !! k) as [[X|]|] eqn:Ek; [|done|].
    - destruct (abs_set _ _ _ _ Ha Ek) as (s & Es & Hr). rewrite Es.
      destruct (with_set_spec st D k X X (fun _ : unit => True) (fun s => let* s := setTypeMaybeConvert server fresh usable dict_can_resize address s (1 + Z.of_nat (length eles)) in Ret (s, tt)) Ha Ek) as (st1 & [] & -> & _ & Ha1 & Hd1 & He1 & _).
      { intros s0 Hs0. destruct (setTypeMaybeConvert_spec server fresh usable dict_can_resize address s0 X (1 + Z.of_nat (length eles)) Hs0) as (s1 & -> & Hr1). by exists s1, tt. }
      cbn [obind]. exists st1, D. rewrite insert_id in Ha1 by done. rewrite (cur_set _ _ _ Ek). split_and!; try done. exists []. by rewrite app_nil_r.
    - rewrite (abs_none _ _ _ Ha Ek), (cur_none _ _ Ek). destruct (setTypeCreate_spec server fresh usable Husable Hconf ele (1 + Z.of_nat (length eles))) as (s & -> & Hr). cbn [obind].
      unfold dbAdd. rewrite (abs_none _ _ _ Ha Ek). exists (emit (put st k s) [NotifyNew k]), (<[k := ASet ∅]> D). split_and!; [done|by apply abs_insert|by rewrite lookup_insert_eq| |done|by exists [NotifyNew k]|done].
      intros j Hj. by rewrite lookup_insert_ne. }
  destruct (add_all_spec (ele :: eles) st1 D1 k (cur D k) 0 Ha1 Hk1 Hok) as (st2 & E2 & Ha2 & Hd2 & He2). set (X' := list_to_set (ele :: eles) ∪ cur D k) in *.
  assert (<[k := ASet X']> D1 = <[k := ASet X']> D) as ED.
  { apply map_eq. intros j. destruct (decide (j = k)) as [->|Hj]; [by rewrite !lookup_insert_eq|]. rewrite !lookup_insert_ne by done. by apply Hj1. }
  rewrite ED in Ha2. pose proof (size_grows (list_to_set (ele :: eles)) (cur D k)) as Hg. fold X' in Hg.
  eexists _, _. split; [|cbn [spec]; rewrite Ew; cbn [fst snd]; fold X'; split; [|reflexivity]].
  - cbn [exec]. unfold saddCommand. destruct (db st !! k) as [[s|]|] eqn:Edb; [|done|]; rewrite E1; cbn [obind]; rewrite E2; cbn [obind]; reflexivity.
  - assert (<[k := ASet X']> D <> D -> 0 < Z.of_nat (size X') - Z.of_nat (size (cur D k))) as Hch.
    { intros Hd. destruct (Z.lt_ge_cases 0 (Z.of_nat (size X') - Z.of_nat (size (cur D k)))) as [|Hle]; [done|]. exfalso. assert (X' = cur D k) as EX by (apply grown; fold X'; lia).
      apply Hd. rewrite EX. apply insert_id. unfold wrong in Ew. unfold cur. destruct (D !! k) as [[X|]|] eqn:Ek; [done|done|]. exfalso.
      assert (ele ∈ X') as Hin by (apply elem_of_union; left; apply elem_of_list_to_set; left). rewrite EX, (cur_none _ _ Ek) in Hin. by apply elem_of_empty in Hin. }
    split.
    + by destruct (_ <? _).
    + destruct (Z.ltb_spec 0 (0 + (Z.of_nat (size X') - Z.of_nat (size (cur D k))))) as [Hlt|Hge].
      * eexists. split; [cbn; by rewrite He2, He1, <- app_assoc|]. intros j Hj. destruct (decide (j = k)) as [->|Hne']; [apply elem_of_app; right; left|]. rewrite lookup_insert_ne in Hj by done. done.
      * exists ev1. split; [cbn; by rewrite He2, He1|]. intros j Hj. exfalso. assert (<[k := ASet X']> D <> D) as Hd by (intros E; by rewrite E in Hj). specialize (Hch Hd). lia.
    + assert (dirty (add_dirty (if 0 <? 0 + (Z.of_nat (size X') - Z.of_nat (size (cur D k))) then emit st2 [Signal k; NotifySet (chars "sadd") k] else st2) (0 + (Z.of_nat (size X') - Z.of_nat (size (cur D k))))) = dirty st + (Z.of_nat (size X') - Z.of_nat (size (cur D k)))) as ->.
      { cbn [dirty add_dirty]. destruct (_ <? _); cbn [dirty emit]; lia. }
      split; [lia|]. intros Hd. specialize (Hch Hd). lia.
Qed.

Lemma upd_empty D k : upd D k ∅ = delete k D.
Proof using. unfold upd. by rewrite decide_True. Qed.

Lemma upd_ne D k X : X <> ∅ -> upd D k X = <[k := ASet X]> D.
Proof using. intros H. unfold upd. by rewrite decide_False. Qed.

Lemma dbDelete_set st D k X : abs (db st) D -> D !! k = Some (ASet X) -> dbDelete st k = (set_db st (delete k (db st)), true).
Proof using. intros Ha Hk. destruct (abs_set _ _ _ _ Ha Hk) as (s & Es & _). unfold dbDelete. by rewrite Es. Qed.

Lemma remove_one st D k X e : abs (db st) D -> D !! k = Some (ASet X) -> string_ok e ->
  exists st', with_set st k (fun s => setTypeRemove fresh usable dict_can_resize s e) = Ret (st', bool_decide (e ∈ X)) /\
    abs (db st') (<[k := ASet (X ∖ {[e]})]> D) /\ dirty st' = dirty st /\ events st' = events st.
Proof using DTok Husable.
  intros Ha Hk He. destruct (with_set_spec st D k X (X ∖ {[e]}) (eq (bool_decide (e ∈ X))) (fun s => setTypeRemove fresh usable dict_can_resize s e) Ha Hk) as (st1 & b & -> & <- & Ha1 & Hd1 & He1 & _).
  { intros s Hs. destruct (setTypeRemoveAux_spec server fresh usable dict_can_resize Husable s X (SVal e) Hs He) as (s' & E & Hr). eauto. }
  eauto.
Qed.

Lemma size_removed (X : sset) e : e ∈ X -> Z.of_nat (size (X ∖ {[e]})) = Z.of_nat (size X) - 1.
Proof using. intros H. rewrite size_difference by (intros x Hx; apply elem_of_singleton in Hx; by subst). rewrite size_singleton. assert (size X <> 0%nat) by (intros E; apply size_empty_inv in E; by apply E, elem_of_empty in H). lia. Qed.

(** Removing one after the other, until nothing is left. *)
Lemma remove_all_spec eles st D k X deleted : abs (db st) D -> D !! k = Some (ASet X) -> X <> ∅ -> Forall string_ok eles ->
  let X' := X ∖ list_to_set eles in
  exists st', remove_all fresh usable dict_can_resize st k eles deleted = Ret (st', deleted + (Z.of_nat (size X) - Z.of_nat (size X')), bool_decide (X' = ∅)) /\
    abs (db st') (upd D k X') /\ dirty st' = dirty st /\ events st' = events st.
Proof using DTok Husable.
  revert st D X deleted. induction eles as [|e eles IH]; intros st D X deleted Ha Hk Hne Hok X'.
  { assert (X' = X) as -> by (unfold X'; apply difference_empty_L). exists st. rewrite bool_decide_false, upd_ne, insert_id by done. split; [|done]. cbn [remove_all]. do 3 f_equal. lia. }
  apply Forall_cons in Hok as [He Hok]. cbn [remove_all]. destruct (remove_one st D k X e Ha Hk He) as (st1 & -> & Ha1 & Hd1 & He1). cbn [obind].
  assert (X' = X ∖ {[e]} ∖ list_to_set eles) as EX by (unfold X'; apply set_eq; intros x; rewrite list_to_set_cons, !elem_of_difference, elem_of_union; tauto).
  case_bool_decide as Hin.
  - destruct (size_reads st1 _ k (X ∖ {[e]}) None ltac:(done) Ha1 (lookup_insert_eq _ _ _)) as (st2 & -> & [Ha2 _ Hd2 He2]). cbn [obind]. pose proof (size_removed X e Hin) as Hsz.
    destruct (Z.eqb_spec (Z.of_nat (size (X ∖ {[e]}))) 0) as [Hz|Hnz].
    + assert (X ∖ {[e]} = ∅) as Hemp by (apply leibniz_equiv, size_empty_inv; lia). assert (X' = ∅) as -> by (rewrite EX, Hemp; apply set_eq; intros x; rewrite elem_of_difference, elem_of_empty; tauto).
      rewrite (dbDelete_set st2 _ k _ Ha2 (lookup_insert_eq _ _ _)). cbn [fst]. eexists. split; [rewrite bool_decide_true by done; do 3 f_equal; rewrite size_empty; lia|]. rewrite upd_empty. split; [|cbn; split; congruence].
      apply (abs_delete _ _ k) in Ha2. by rewrite delete_insert_eq in Ha2.
    + destruct (IH st2 _ (X ∖ {[e]}) (deleted + 1) Ha2 (lookup_insert_eq _ _ _)) as (st3 & -> & Ha3 & Hd3 & He3); [intros E; rewrite E, size_empty in Hnz; lia|done|]. rewrite <- EX in *.
      exists st3. split; [do 3 f_equal; lia|]. split; [|split; congruence]. unfold upd in *. case_decide; [by rewrite delete_insert_eq in Ha3|by rewrite insert_insert_eq in Ha3].
  - rewrite difference_absent in EX, Ha1 by done. rewrite insert_id in Ha1 by done. destruct (IH st1 D X deleted Ha1 Hk Hne Hok) as (st3 & -> & Ha3 & Hd3 & He3). rewrite <- EX in *. exists st3. split; [done|]. split; [done|split; congruence].
Qed.

(** How a database changes at one key. *)
Lemma upd_other D k X j : j <> k -> upd D k X !! j = D !! j.
Proof using. intros Hj. unfold upd. case_decide; [by rewrite lookup_delete_ne|by rewrite lookup_insert_ne]. Qed.

Lemma upd_cur D k X : D !! k = Some (ASet X) -> X <> ∅ -> upd D k X = D.
Proof using. intros H1 H2. rewrite upd_ne by done. by apply insert_id. Qed.

Lemma shrunk (X Y : sset) : Z.of_nat (size X) - Z.of_nat (size (X ∖ Y)) <= 0 -> X ∖ Y = X.
Proof using. intros H. apply set_subseteq_size_eq; [|lia]. intros x Hx. by apply elem_of_difference in Hx as [? _]. Qed.

Lemma srem_right D st k eles : abs (db st) D -> no_empty D -> cmd_ok (CRem k eles) -> done_right D st (CRem k eles).
Proof using DTok Husable.
  intros Ha Hne Hok. destruct (D !! k) as [[X|]|] eqn:Ek.
  - assert (X <> ∅) as HX by (intros ->; by destruct (Hne k)). assert (wrong D k = false) as Ew by (unfold wrong; by rewrite Ek). destruct (abs_set _ _ _ _ Ha Ek) as (s & Es & _).
    destruct (remove_all_spec eles st D k X 0 Ha Ek HX Hok) as (st' & E & Ha' & Hd & He). set (X' := X ∖ list_to_set eles) in *. eexists _, _.
    split; [|cbn [spec]; rewrite Ew, (cur_set _ _ _ Ek); cbn [fst snd]; fold X'; split; [|reflexivity]].
    + cbn [exec]. unfold sremCommand. rewrite Es, E. cbn [obind]. reflexivity.
    + assert (upd D k X' <> D -> 0 < Z.of_nat (size X) - Z.of_nat (size X')) as Hch.
      { intros Hd'. destruct (Z.lt_ge_cases 0 (Z.of_nat (size X) - Z.of_nat (size X'))) as [|Hle]; [done|]. exfalso. apply Hd'. assert (X' = X) as -> by (by apply shrunk). by apply upd_cur. }
      destruct (Z.ltb_spec 0 (0 + (Z.of_nat (size X) - Z.of_nat (size X')))) as [Hlt|Hge].
      * split; [by destruct (bool_decide _)| |].
        -- assert (forall evs : list event, Signal k ∈ evs -> forall j, upd D k X' !! j <> D !! j -> Signal j ∈ evs) as Hsig.
           { intros evs Hin j Hj. destruct (decide (j = k)) as [->|Hjk]; [done|]. by rewrite upd_other in Hj. }
           destruct (bool_decide _); cbn; rewrite He; [rewrite <- app_assoc|]; eexists; (split; [done|]); apply Hsig; left.
        -- assert (forall b : bool, dirty (add_dirty (if b then emit (emit st' [Signal k; NotifySet (chars "srem") k]) [NotifyGeneric (chars "del") k] else emit st' [Signal k; NotifySet (chars "srem") k]) (0 + (Z.of_nat (size X) - Z.of_nat (size X')))) = dirty st' + (0 + (Z.of_nat (size X) - Z.of_nat (size X')))) as Hdd by (by intros []).
           rewrite Hdd. split; [|intros _]; lia.
      * assert (upd D k X' = D) as ED. { unfold upd, X'. rewrite shrunk by (fold X'; lia). fold (upd D k X). by apply upd_cur. }
        rewrite ED in *. apply (reads_tells D None). split; [done|done|done|done].
  - assert (wrong D k = true) as Ew by (unfold wrong; by rewrite Ek). eapply (done_reads D None st _ st RWrongType); [|done|cbn; by rewrite Ew|cbn; by rewrite Ew]. cbn [exec]. unfold sremCommand. by rewrite (abs_other _ _ _ Ha Ek).
  - assert (wrong D k = false) as Ew by (unfold wrong; by rewrite Ek). eapply (done_reads D None st _ st (RLong 0)); [|done| |].
    + cbn [exec]. unfold sremCommand. by rewrite (abs_none _ _ _ Ha Ek).
    + cbn [spec]. rewrite Ew, (cur_none _ _ Ek). cbn [fst]. rewrite empty_difference_L, upd_empty. by apply delete_id.
    + cbn [spec]. rewrite Ew, (cur_none _ _ Ek). cbn [snd]. rewrite empty_difference_L, size_empty. done.
Qed.

Lemma bit_bool (P : Prop) `{!Decision P} : (if bool_decide P then 1 else 0) = bit_ P.
Proof using. unfold bit_. by destruct (decide P); [rewrite bool_decide_true|rewrite bool_decide_false]. Qed.

Lemma sismember_right D st k ele : abs (db st) D -> cmd_ok (CIsMember k ele) -> done_right D st (CIsMember k ele).
Proof using DTok.
  intros Ha Hok. destruct (D !! k) as [[X|]|] eqn:Ek.
  - destruct (abs_set _ _ _ _ Ha Ek) as (s & Es & _). destruct (member_reads st D k X None (SVal ele) ltac:(done) Ha Ek Hok) as (st' & E & Hr).
    eapply done_reads; [cbn [exec]; unfold sismemberCommand; rewrite Es; unfold setTypeIsMember; unfold member_aux in E; rewrite E; reflexivity|exact Hr|done|].
    cbn. unfold wrong. rewrite Ek, (cur_set _ _ _ Ek). f_equal. symmetry. apply bit_bool.
  - eapply (done_reads D None st _ st RWrongType); [|done|done|cbn; unfold wrong; by rewrite Ek]. cbn [exec]. unfold sismemberCommand. by rewrite (abs_other _ _ _ Ha Ek).
  - eapply (done_reads D None st _ st (RLong 0)); [|done|done|cbn; unfold wrong; rewrite Ek, (cur_none _ _ Ek); unfold bit_; by rewrite decide_False]. cbn [exec]. unfold sismemberCommand. by rewrite (abs_none _ _ _ Ha Ek).
Qed.

Lemma member_each_spec eles st D k : abs (db st) D -> wrong D k = false -> Forall string_ok eles ->
  exists st', member_each dict_can_resize st k (match D !! k with Some _ => true | None => false end) eles = Ret (st', (fun e => bit_ (e ∈ cur D k)) <$> eles) /\ reads D None st st'.
Proof using DTok.
  revert st. induction eles as [|e eles IH]; intros st Ha Hw Hok; [by exists st|]. apply Forall_cons in Hok as [He Hok]. cbn [member_each].
  assert (exists st1, (if match D !! k with Some _ => true | None => false end then with_set st k (fun s => setTypeIsMember dict_can_resize s e) else Ret (st, false)) = Ret (st1, bool_decide (e ∈ cur D k)) /\ reads D None st st1) as (st1 & -> & H1).
  { destruct (D !! k) as [[X|]|] eqn:Ek.
    - rewrite (cur_set _ _ _ Ek). by apply (member_reads st D k X None (SVal e)).
    - unfold wrong in Hw. by rewrite Ek in Hw.
    - rewrite (cur_none _ _ Ek), bool_decide_false by apply not_elem_of_empty. by exists st. }
  cbn [obind]. destruct (IH st1 (rd_abs _ _ _ _ H1) Hw Hok) as (st2 & -> & H2). cbn [obind]. exists st2. split; [cbn [fmap list_fmap]; by rewrite bit_bool|by eapply reads_trans].
Qed.

Lemma smismember_right D st k eles : abs (db st) D -> cmd_ok (CMIsMember k eles) -> done_right D st (CMIsMember k eles).
Proof using DTok.
  intros Ha Hok. destruct (wrong D k) eqn:Ew.
  { eapply (done_reads D None st _ st RWrongType); [|done|done|cbn; by rewrite Ew]. cbn [exec]. unfold smismemberCommand. unfold wrong in Ew. destruct (D !! k) as [[X|]|] eqn:Ek; [done| |done]. by rewrite (abs_other _ _ _ Ha Ek). }
  destruct (member_each_spec eles st D k Ha Ew Hok) as (st' & E & Hr). eapply done_reads; [|exact Hr|done|cbn; by rewrite Ew]. cbn [exec]. unfold smismemberCommand.
  unfold wrong in Ew. destruct (D !! k) as [[X|]|] eqn:Ek; [|done|].
  - destruct (abs_set _ _ _ _ Ha Ek) as (s & Es & _). by rewrite Es, E.
  - by rewrite (abs_none _ _ _ Ha Ek), E.
Qed.

Lemma scard_right D st k : abs (db st) D -> done_right D st (CCard k).
Proof using.
  intros Ha. destruct (D !! k) as [[X|]|] eqn:Ek.
  - destruct (abs_set _ _ _ _ Ha Ek) as (s & Es & _). destruct (size_reads st D k X None ltac:(done) Ha Ek) as (st' & E & Hr).
    eapply done_reads; [cbn [exec]; unfold scardCommand; rewrite Es, E; reflexivity|exact Hr|done|]. cbn. unfold wrong. by rewrite Ek, (cur_set _ _ _ Ek).
  - eapply (done_reads D None st _ st RWrongType); [|done|done|cbn; unfold wrong; by rewrite Ek]. cbn [exec]. unfold scardCommand. by rewrite (abs_other _ _ _ Ha Ek).
  - eapply (done_reads D None st _ st (RLong 0)); [|done|done|cbn; unfold wrong; rewrite Ek, (cur_none _ _ Ek); by rewrite size_empty]. cbn [exec]. unfold scardCommand. by rewrite (abs_none _ _ _ Ha Ek).
Qed.

(** The part of SMOVE after the removal. *)
Lemma smove_add (st : state) (D D0 : adb) (src dst ele : list Z) (n : Z) (evs : list event) (Y : sset) : abs (db st) D -> src <> dst -> string_ok ele ->
  (D !! dst = Some (ASet Y) \/ D !! dst = None /\ Y = ∅) -> dirty st = n ->
  (forall j, j <> src -> D !! j = D0 !! j) ->
  exists st1 st2, (match D !! dst with
                   | None => let* s := setTypeCreate server fresh usable ele 1 in dbAdd st dst s
                   | Some _ => Ret st
                   end) = Ret st1 /\
    (let st := add_dirty (emit st1 [Signal src]) 1 in
     let* (st, b) := with_set st dst (fun s => setTypeAdd server fresh usable dict_can_resize address s ele) in
     let st := if b : bool then emit (add_dirty st 1) [Signal dst; NotifySet (chars "sadd") dst] else st in
     Ret (st, RLong 1)) = Ret (st2, RLong 1) /\
    abs (db st2) (<[dst := ASet ({[ele]} ∪ Y)]> D) /\ n < dirty st2 /\
    (events st = evs -> exists more, events st2 = evs ++ more /\ forall j, (<[dst := ASet ({[ele]} ∪ Y)]> D) !! j <> D0 !! j -> Signal j ∈ more).
Proof using DTok Husable Hconf.
  intros Ha Hne He Hy Hn HD. assert (exists st1, (match D !! dst with None => let* s := setTypeCreate server fresh usable ele 1 in dbAdd st dst s | Some _ => Ret st end) = Ret st1 /\
    abs (db st1) (<[dst := ASet Y]> D) /\ dirty st1 = dirty st /\ exists ev1, events st1 = events st ++ ev1) as (st1 & E1 & Ha1 & Hd1 & ev1 & He1).
  { destruct Hy as [Hy|[Hy ->]]; rewrite Hy.
    - exists st. rewrite insert_id by done. split_and!; try done. exists []. by rewrite app_nil_r.
    - destruct (setTypeCreate_spec server fresh usable Husable Hconf ele 1) as (s & -> & Hr). cbn [obind]. unfold dbAdd. rewrite (abs_none _ _ _ Ha Hy). exists (emit (put st dst s) [NotifyNew dst]). split_and!; [done|by apply abs_insert|done|by exists [NotifyNew dst]]. }
  exists st1. destruct (with_set_spec (add_dirty (emit st1 [Signal src]) 1) _ dst Y ({[ele]} ∪ Y) (eq (bool_decide (ele ∉ Y))) (fun s => setTypeAdd server fresh usable dict_can_resize address s ele) Ha1 (lookup_insert_eq _ _ _)) as (st2 & b & E2 & <- & Ha2 & Hd2 & He2 & _).
  { intros s Hs. destruct (setTypeAddAux_spec server fresh usable dict_can_resize address Husable Hconf s Y (SVal ele) Hs He) as (s' & E & Hr). eauto. }
  rewrite insert_insert_eq in Ha2. cbv zeta. rewrite E2. cbn [obind]. eexists. split; [done|]. split; [reflexivity|]. cbn in Hd2, He2. rewrite He1 in He2. split; [by destruct (bool_decide _)|]. split; [destruct (bool_decide _); cbn; lia|].
  intros <-. case_bool_decide as Hin; cbn; rewrite He2.
  - rewrite <- !app_assoc. eexists. split; [done|]. intros j Hj. apply elem_of_app. right. destruct (decide (j = src)) as [->|Hjs]; [left|]. destruct (decide (j = dst)) as [->|Hjd]; [right; left|]. rewrite lookup_insert_ne, HD in Hj by done. done.
  - rewrite <- app_assoc. eexists. split; [done|]. intros j Hj. apply elem_of_app. right. destruct (decide (j = src)) as [->|Hjs]; [left|]. exfalso. apply Hj. rewrite <- HD by done. assert ({[ele]} ∪ Y = Y) as -> by (apply set_eq; intros x; rewrite elem_of_union, elem_of_singleton; split; [by intros [->|?]|tauto]).
    destruct (decide (j = dst)) as [->|Hjd]; [|by rewrite lookup_insert_ne]. rewrite lookup_insert_eq. destruct Hy as [->|[_ ->]]; [done|]. by apply elem_of_empty in Hin.
Qed.

Lemma smove_right D st src dst ele : abs (db st) D -> no_empty D -> cmd_ok (CMove src dst ele) -> done_right D st (CMove src dst ele).
Proof using DTok Husable Hconf.
  intros Ha Hne Hok. cbn [cmd_ok] in Hok. destruct (D !! src) as [vs|] eqn:Es.
  2: { eapply (done_reads D None st _ st (RLong 0)); [|done|cbn [spec]; by rewrite Es|cbn [spec]; by rewrite Es]. cbn [exec]. unfold smoveCommand. by rewrite (abs_none _ _ _ Ha Es). }
  destruct (wrong D src || wrong D dst) eqn:Ew.
  { eapply (done_reads D None st _ st RWrongType); [|done|cbn [spec]; by rewrite Es, Ew|cbn [spec]; by rewrite Es, Ew]. cbn [exec]. unfold smoveCommand. unfold wrong in Ew. rewrite Es in Ew. destruct vs as [X|].
    - destruct (abs_set _ _ _ _ Ha Es) as (s & -> & _). destruct (D !! dst) as [[Y|]|] eqn:Ed; [done| |done]. by rewrite (abs_other _ _ _ Ha Ed).
    - by rewrite (abs_other _ _ _ Ha Es). }
  apply orb_false_iff in Ew as [Ews Ewd]. destruct vs as [X|]; [|unfold wrong in Ews; by rewrite Es in Ews]. destruct (abs_set _ _ _ _ Ha Es) as (s & Edb & _).
  assert (db st !! dst <> Some VOther) as Hdst. { unfold wrong in Ewd. specialize (Ha dst). by destruct (db st !! dst) as [[]|], (D !! dst) as [[]|]. }
  assert (fst (spec D (CMove src dst ele)) = (if decide (ele ∈ X) then if decide (src = dst) then D else <[dst := ASet ({[ele]} ∪ cur D dst)]> (upd D src (X ∖ {[ele]})) else D) /\
          snd (spec D (CMove src dst ele)) = eq (RLong (bit_ (ele ∈ X)))) as [S1 S2].
  { cbn [spec]. rewrite Es, Ews, Ewd, (cur_set _ _ _ Es). cbn [orb]. unfold bit_. by destruct (decide (ele ∈ X)). }
  assert (exec st (CMove src dst ele) = if bool_decide (src = dst) then
        let* (st, b) := with_set st src (fun s => setTypeIsMember dict_can_resize s ele) in
        Ret (st, RLong (if b : bool then 1 else 0))
      else
        let* (st, b) := with_set st src (fun s => setTypeRemove fresh usable dict_can_resize s ele) in
        if negb b then Ret (st, RLong 0) else
        let st := emit st [NotifySet (chars "srem") src] in
        let* (st, n) := with_set st src size_of in
        let st := if n =? 0 then emit (fst (dbDelete st src)) [NotifyGeneric (chars "del") src] else st in
        let* st := match D !! dst with
                   | None => let* s := setTypeCreate server fresh usable ele 1 in dbAdd st dst s
                   | Some _ => Ret st
                   end in
        let st := add_dirty (emit st [Signal src]) 1 in
        let* (st, b) := with_set st dst (fun s => setTypeAdd server fresh usable dict_can_resize address s ele) in
        let st := if b : bool then emit (add_dirty st 1) [Signal dst; NotifySet (chars "sadd") dst] else st in
        Ret (st, RLong 1)) as Ex.
  { cbn [exec]. unfold smoveCommand. rewrite Edb. specialize (Ha dst). destruct (db st !! dst) as [[]|], (D !! dst) as [[]|]; done. }
  case_bool_decide as Heq.
  - destruct (member_reads st D src X None (SVal ele) ltac:(done) Ha Es Hok) as (st' & E & Hr). unfold setTypeIsMember in Ex. unfold member_aux in E. rewrite E in Ex. cbn [obind] in Ex.
    eapply (done_reads D None); [exact Ex|exact Hr| |rewrite S2; by rewrite bit_bool]. rewrite S1. rewrite (decide_True _ _ Heq). by destruct (decide _).
  - destruct (remove_one st D src X ele Ha Es Hok) as (st1 & E & Ha1 & Hd1 & He1). rewrite E in Ex. cbn [obind] in Ex. destruct (decide (ele ∈ X)) as [Hin|Hin].
    + rewrite bool_decide_true in Ex by done. cbn [negb] in Ex. cbv zeta in Ex.
      destruct (size_reads (emit st1 [NotifySet (chars "srem") src]) _ src (X ∖ {[ele]}) None ltac:(done) Ha1 (lookup_insert_eq _ _ _)) as (st2 & E2 & [Ha2 _ Hd2 He2]). rewrite E2 in Ex. cbn [obind] in Ex.
      set (st3 := if Z.of_nat (size (X ∖ {[ele]})) =? 0 then emit (fst (dbDelete st2 src)) [NotifyGeneric (chars "del") src] else st2) in Ex.
      assert (abs (db st3) (upd D src (X ∖ {[ele]})) /\ dirty st3 = dirty st /\ exists evs, events st3 = events st ++ evs) as (Ha3 & Hd3 & evs & He3).
      { unfold st3. cbn in Hd2, He2. destruct (Z.eqb_spec (Z.of_nat (size (X ∖ {[ele]}))) 0) as [Hz|Hnz].
        - rewrite (dbDelete_set st2 _ src _ Ha2 (lookup_insert_eq _ _ _)). cbn [fst]. assert (X ∖ {[ele]} = ∅) as -> by (apply leibniz_equiv, size_empty_inv; lia). rewrite upd_empty.
          apply (abs_delete _ _ src) in Ha2. rewrite delete_insert_eq in Ha2. split; [done|]. split; [cbn; lia|]. cbn. rewrite He2, He1, <- app_assoc. eauto.
        - rewrite upd_ne by (intros E0; rewrite E0, size_empty in Hnz; lia). split; [done|]. split; [lia|]. rewrite He2, He1. eauto. }
      destruct (smove_add st3 (upd D src (X ∖ {[ele]})) D src dst ele (dirty st) (events st ++ evs) (cur D dst) Ha3 Heq Hok) as (st4 & st5 & E4 & E5 & Ha5 & Hd5 & He5); [|done|intros j Hj; by apply upd_other|].
      { rewrite upd_other by done. unfold wrong in Ewd. unfold cur. destruct (D !! dst) as [[Y|]|]; [by left|done|by right]. }
      rewrite upd_other in E4 by done. rewrite E4 in Ex. cbn [obind] in Ex. cbv zeta in E5. rewrite E5 in Ex. exists st5, (RLong 1). rewrite S1, S2, (decide_False _ _ Heq). split; [done|]. split; [|unfold bit_; by rewrite decide_True].
      destruct (He5 He3) as (more & Hm & Hsig). split; [done| |split; [lia|intros _; lia]]. exists (evs ++ more). rewrite app_assoc. split; [done|]. intros j Hj. apply elem_of_app. right. by apply Hsig.
    + rewrite bool_decide_false in Ex by done. cbn [negb] in Ex. rewrite difference_absent, insert_id in Ha1 by done. eapply (done_reads D None); [exact Ex|by split| |rewrite S2; unfold bit_; by rewrite decide_False]. by rewrite S1.
Qed.

(** ** Several sets *)

(** [sets[j]] of a key, and what it holds. *)
Definition ptr_of (D : adb) (k : list Z) : option (list Z) := match D !! k with Some (ASet _) => Some k | _ => None end.
Definition curp (D : adb) (p : option (list Z)) : sset := match p with Some k => cur D k | None => ∅ end.
Definition valid (D : adb) (p : option (list Z)) : Prop := forall k, p = Some k -> exists X, D !! k = Some (ASet X).

Lemma valid_ptr D k : valid D (ptr_of D k).
Proof using. intros j E. unfold ptr_of in E. destruct (D !! k) as [[X|]|] eqn:Ek; [|done|done]. injection E as <-. eauto. Qed.

Lemma curp_ptr D k : wrong D k = false -> curp D (ptr_of D k) = cur D k.
Proof using. unfold wrong, ptr_of. destruct (D !! k) as [[X|]|] eqn:Ek; [done|done|]. intros _. cbn. by rewrite (cur_none _ _ Ek). Qed.

Lemma lookup_sets_spec st D keys : abs (db st) D -> lookup_sets st keys = if existsb (wrong D) keys then None else Some (ptr_of D <$> keys).
Proof using.
  intros Ha. induction keys as [|k keys IH]; [done|]. cbn [lookup_sets existsb fmap list_fmap]. rewrite IH. pose proof (Ha k) as Hk.
  assert (wrong D k = match D !! k with Some AOther => true | _ => false end) as -> by done. assert (ptr_of D k = match D !! k with Some (ASet _) => Some k | _ => None end) as -> by done.
  destruct (db st !! k) as [[s|]|], (D !! k) as [[X|]|]; try done; cbn [orb]; by destruct (existsb _ keys).
Qed.

Lemma sizes_spec sets st D : abs (db st) D -> Forall (valid D) sets -> exists st' l, sizes st sets = Ret (st', l) /\ fst <$> l = sets /\ reads D None st st'.
Proof using.
  revert st. induction sets as [|p sets IH]; intros st Ha Hv; [by eexists _, _|]. apply Forall_cons in Hv as [Hp Hv]. cbn [sizes].
  assert (exists st1 n, (match p with Some k => with_set st k size_of | None => Ret (st, 0) end) = Ret (st1, n) /\ reads D None st st1) as (st1 & n & -> & H1).
  { destruct p as [k|]; [|eexists _, _; split; [done|by apply reads_refl]]. destruct (Hp k eq_refl) as [X Ek]. destruct (size_reads st D k X None ltac:(done) Ha Ek) as (st1 & E & H1). eauto. }
  cbn [obind]. destruct (IH st1 (rd_abs _ _ _ _ H1) Hv) as (st2 & l & -> & <- & H2). cbn [obind]. eexists _, _. split; [done|]. split; [done|]. by eapply reads_trans.
Qed.

Lemma sort_sets_spec b sets st D : abs (db st) D -> Forall (valid D) sets -> exists st' sets', sort_sets qsort b st sets = Ret (st', sets') /\ sets' ≡ₚ sets /\ reads D None st st'.
Proof using Hqsort.
  intros Ha Hv. unfold sort_sets. destruct (_ <=? 1)%nat; [eexists _, _; split; [done|split; [done|by apply reads_refl]]|]. destruct (sizes_spec sets st D Ha Hv) as (st' & l & -> & <- & Hr). cbn [obind]. eexists _, _. split; [done|]. split; [by rewrite Hqsort|done].
Qed.

Lemma in_all_spec k0 sets v st D : abs (db st) D -> Forall (valid D) sets -> None ∉ sets -> new_ok v ->
  exists st' b, in_all dict_can_resize st k0 sets v = Ret (st', b) /\ (b = true <-> Forall (fun p => p = Some k0 \/ vtext v ∈ curp D p) sets) /\ reads D (Some k0) st st'.
Proof using DTok.
  revert st. induction sets as [|p sets IH]; intros st Ha Hv Hn Hok; [exists st, true; split; [done|split; [split; [constructor|done]|by apply reads_refl]]|]. apply Forall_cons in Hv as [Hp Hv]. apply not_elem_of_cons in Hn as [Hpn Hn]. cbn [in_all].
  case_bool_decide as Heq.
  - destruct (IH st Ha Hv Hn Hok) as (st1 & b & E & Hb & H1). exists st1, b. split; [done|]. split; [|done]. rewrite Hb, Forall_cons. tauto.
  - destruct p as [k|]; [|done]. destruct (Hp k eq_refl) as [X Ek]. destruct (member_reads st D k X (Some k0) v ltac:(congruence) Ha Ek Hok) as (st1 & -> & H1). cbn [obind]. case_bool_decide as Hin.
    + destruct (IH st1 (rd_abs _ _ _ _ H1) Hv Hn Hok) as (st2 & b & E & Hb & H2). exists st2, b. split; [done|]. split; [|by eapply reads_trans]. rewrite Hb, Forall_cons. cbn. rewrite (cur_set _ _ _ Ek). tauto.
    + exists st1, false. split; [done|]. split; [|done]. split; [done|]. rewrite Forall_cons. cbn. rewrite (cur_set _ _ _ Ek). tauto.
Qed.

Lemma in_none_spec k0 sets v st D : abs (db st) D -> Forall (valid D) sets -> Some k0 ∉ sets -> new_ok v ->
  exists st' b, in_none dict_can_resize st k0 sets v = Ret (st', b) /\ (b = true <-> Forall (fun p => vtext v ∉ curp D p) sets) /\ reads D (Some k0) st st'.
Proof using DTok.
  revert st. induction sets as [|p sets IH]; intros st Ha Hv Hn Hok; [exists st, true; split; [done|split; [split; [constructor|done]|by apply reads_refl]]|]. apply Forall_cons in Hv as [Hp Hv]. apply not_elem_of_cons in Hn as [Hpn Hn]. cbn [in_none].
  destruct p as [k|].
  - rewrite bool_decide_false by congruence. destruct (Hp k eq_refl) as [X Ek]. destruct (member_reads st D k X (Some k0) v ltac:(congruence) Ha Ek Hok) as (st1 & -> & H1). cbn [obind]. case_bool_decide as Hin.
    + exists st1, false. split; [done|]. split; [|done]. split; [done|]. rewrite Forall_cons. cbn. rewrite (cur_set _ _ _ Ek). tauto.
    + destruct (IH st1 (rd_abs _ _ _ _ H1) Hv Hn Hok) as (st2 & b & E & Hb & H2). exists st2, b. split; [done|]. split; [|by eapply reads_trans]. rewrite Hb, Forall_cons. cbn. rewrite (cur_set _ _ _ Ek). tauto.
  - destruct (IH st Ha Hv Hn Hok) as (st1 & b & E & Hb & H1). exists st1, b. split; [done|]. split; [|done]. rewrite Hb, Forall_cons. cbn. assert (vtext v ∉ (∅ : sset)) by apply not_elem_of_empty. tauto.
Qed.

(** A loop whose body leaves the iterated set alone is a fold over its values. *)
Lemma foreach_at_spec st D k X : abs (db st) D -> D !! k = Some (ASet X) ->
  exists s vs, db st !! k = Some (VSet s) /\ values_of s X vs /\
    forall A (body : state * A -> listpackEntry -> outcome (state * A * bool)) a,
      (forall a v a' more, db (fst a) !! k = db st !! k -> new_ok v -> body a v = Ret (a', more) -> db (fst a') !! k = db st !! k) ->
      foreach_at address k body (st, a) = fold_body body vs (st, a).
Proof using DTok.
  intros Ha Hk. destruct (abs_set _ _ _ _ Ha Hk) as (s & Es & Hr). destruct (nexts_spec address s X (proj1 Hr)) as (vs & Hvs & Hn & Hl). exists s, vs. split; [done|]. split; [done|]. intros A body a Hbody.
  unfold foreach_at. cbn [fst]. unfold deref_set at 1. rewrite Es. cbn [obind]. assert (Forall new_ok vs) as Hok by apply Hvs. clear Hvs.
  assert (db (fst (st, a)) !! k = db st !! k) as Hst by done. generalize dependent (st, a). revert Hl Hok. generalize (turns s) as fuel. induction Hn as [si si' E Hrel|si si' v vs E Hrel Hn IH]; intros fuel Hl Hok b Hb;
    (destruct fuel as [|fuel]; [cbn in Hl; lia|]); cbn [foreach_at_loop fold_body]; unfold deref_set at 1; rewrite Hb, Es; cbn [obind]; rewrite E; cbn [obind].
  - unfold deref_set. rewrite Hb, Es. cbn [obind]. by rewrite Hrel.
  - apply Forall_cons in Hok as [Hv Hok]. destruct (body b v) as [|[b' []]] eqn:Eb; cbn [obind]; [done| |]; pose proof (Hbody _ _ _ _ Hb Hv Eb) as Hb'.
    + apply IH; [cbn in Hl; lia|done|done].
    + unfold deref_set. rewrite Hb', Es. cbn [obind]. by rewrite Hrel.
Qed.

(** ** Intersections *)

Lemma with_set_keep {A} st k j (f : setobj -> outcome (setobj * A)) st' a : with_set st k f = Ret (st', a) -> k <> j -> db st' !! j = db st !! j.
Proof using.
  unfold with_set. destruct (deref_set st k) as [|s]; [done|]. cbn [obind]. destruct (f s) as [|[s' a']]; [done|]. cbn [obind]. intros [= <- _] Hne. cbn. by apply lookup_insert_ne.
Qed.

Lemma in_all_keep k0 sets v st st' b : in_all dict_can_resize st k0 sets v = Ret (st', b) -> db st' !! k0 = db st !! k0.
Proof using.
  revert st. induction sets as [|p sets IH]; intros st; cbn [in_all]; [by intros [= <- _]|]. case_bool_decide as Hp; [apply IH|]. destruct p as [k|]; [|done].
  destruct (with_set st k _) as [|[st1 b1]] eqn:E; cbn [obind]; [done|]. assert (db st1 !! k0 = db st !! k0) as Hkeep by (eapply with_set_keep; [exact E|congruence]). rewrite <- Hkeep. destruct b1; [apply IH|by intros [= <- _]].
Qed.

Lemma in_none_keep k0 sets v st st' b : in_none dict_can_resize st k0 sets v = Ret (st', b) -> db st' !! k0 = db st !! k0.
Proof using.
  revert st. induction sets as [|[k|] sets IH]; intros st; cbn [in_none]; [by intros [= <- _]| |apply IH]. case_bool_decide as Hp; [by intros [= <- _]|].
  destruct (with_set st k _) as [|[st1 b1]] eqn:E; cbn [obind]; [done|]. assert (db st1 !! k0 = db st !! k0) as Hkeep by (eapply with_set_keep; [exact E|congruence]). rewrite <- Hkeep. destruct b1; [by intros [= <- _]|apply IH].
Qed.

Lemma inter_keep k0 others b1 b2 limit a v a' more : inter_body server fresh usable dict_can_resize address k0 others b1 b2 limit a v = Ret (a', more) -> db (fst a') !! k0 = db (fst a) !! k0.
Proof using.
  destruct a as [st i]. unfold inter_body. destruct (deref_set st k0) as [|s0]; [done|]. cbn [obind]. destruct (in_all _ st k0 others v) as [|[st1 all]] eqn:E; [done|]. cbn [obind]. apply in_all_keep in E.
  destruct all; cbn [negb]; [|by intros [= <- _]]. destruct b2; [by intros [= <- _]|]. destruct b1; cbn [negb]; [|by intros [= <- _]].
  destruct (as_integer _ _ _ _) as [v' only]. destruct (add_aux _ _ _ _ _ _ _) as [|[dst x]]; cbn [obind]; [done|]. by intros [= <- _].
Qed.

Section Inter.
Context (D : adb) (k0 : list Z) (s0 : setobj) (others : list (option (list Z))).
Context (Hvalid : Forall (valid D) others) (Hsome : None ∉ others).

(** The values that every set has. *)
Definition common (v : listpackEntry) : Prop := Forall (fun p => p = Some k0 \/ vtext v ∈ curp D p) others.
#[local] Instance common_dec v : Decision (common v).
Proof using. unfold common. apply _. Defined.

Lemma inter_step st v : abs (db st) D -> new_ok v ->
  exists st', in_all dict_can_resize st k0 others v = Ret (st', bool_decide (common v)) /\ reads D (Some k0) st st'.
Proof using DTok Hvalid Hsome.
  intros Ha Hv. destruct (in_all_spec k0 others v st D Ha Hvalid Hsome Hv) as (st' & b & E & Hb & Hr). exists st'. split; [|done]. rewrite E. do 2 f_equal. by apply bool_iff_decide.
Qed.

Lemma deref_keep st st' : db st !! k0 = Some (VSet s0) -> reads D (Some k0) st st' -> db st' !! k0 = Some (VSet s0).
Proof using. intros E Hr. by rewrite (rd_keep _ _ _ _ Hr k0 eq_refl). Qed.

Lemma fold_inter_reply limit vs st i : abs (db st) D -> db st !! k0 = Some (VSet s0) -> Forall new_ok vs ->
  exists st', fold_body (inter_body server fresh usable dict_can_resize address k0 others false false limit) vs (st, i) =
      Ret (st', Inter (i_cardinality i + Z.of_nat (length (filter common vs))) (i_items i ++ (vtext <$> filter common vs)) (i_dst i) (i_only_integers i)) /\
    reads D (Some k0) st st'.
Proof using DTok Hvalid Hsome.
  revert st i. induction vs as [|v vs IH]; intros st i Ha Hk Hok.
  { exists st. split; [|by apply reads_refl]. cbn. destruct i; cbn. rewrite app_nil_r. do 3 f_equal. lia. }
  apply Forall_cons in Hok as [Hv Hok]. cbn [fold_body]. unfold inter_body at 1, deref_set. rewrite Hk. cbn [obind]. destruct (inter_step st v Ha Hv) as (st1 & -> & H1). cbn [obind]. rewrite filter_cons. case_bool_decide as Hc; cbn [negb obind].
  - rewrite decide_True by done. edestruct (IH st1) as (st2 & E & H2); [apply H1|by eapply deref_keep|done|]. exists st2. rewrite E. split; [|by eapply reads_trans]. cbn [i_cardinality i_items i_dst i_only_integers fmap list_fmap length]. rewrite text_of_vtext, <- app_assoc by done. do 3 f_equal. lia.
  - rewrite decide_False by done. destruct (IH st1 i) as (st2 & E & H2); [apply H1|by eapply deref_keep|done|]. exists st2. split; [done|by eapply reads_trans].
Qed.

Lemma fold_inter_count b limit vs st i : abs (db st) D -> db st !! k0 = Some (VSet s0) -> Forall new_ok vs -> 0 <= limit -> 0 <= i_cardinality i -> limit = 0 \/ i_cardinality i < limit ->
  let n := i_cardinality i + Z.of_nat (length (filter common vs)) in
  exists st' i', fold_body (inter_body server fresh usable dict_can_resize address k0 others b true limit) vs (st, i) = Ret (st', i') /\
    i_cardinality i' = (if limit =? 0 then n else Z.min limit n) /\ reads D (Some k0) st st'.
Proof using DTok Hvalid Hsome.
  revert st i. induction vs as [|v vs IH]; intros st i Ha Hk Hok Hl Hi Hlim n.
  { exists st, i. split; [done|]. split; [|by apply reads_refl]. unfold n. cbn. case_bool; lia. }
  apply Forall_cons in Hok as [Hv Hok]. cbn [fold_body]. unfold inter_body at 1, deref_set. rewrite Hk. cbn [obind]. destruct (inter_step st v Ha Hv) as (st1 & -> & H1). cbn [obind]. unfold n. rewrite filter_cons. case_bool_decide as Hc; cbn [negb obind].
  - rewrite decide_True by done. cbn [length]. destruct ((0 <? limit) && (limit <=? i_cardinality i + 1)) eqn:Hstop; cbn [negb].
    + apply andb_true_iff in Hstop as [Hp Hm]. apply Z.ltb_lt in Hp. apply Z.leb_le in Hm. eexists _, _. split; [done|]. split; [|done]. cbn [i_cardinality]. rewrite (proj2 (Z.eqb_neq _ _)) by lia. lia.
    + edestruct (IH st1 (Inter (i_cardinality i + 1) (i_items i) (i_dst i) (i_only_integers i))) as (st2 & i2 & E & Hc2 & H2); [apply H1|by eapply deref_keep|done|done|cbn; lia|cbn|].
      * apply andb_false_iff in Hstop. rewrite Z.ltb_ge, Z.leb_gt in Hstop. lia.
      * exists st2, i2. split; [done|]. split; [|by eapply reads_trans]. rewrite Hc2. cbn [i_cardinality]. case_bool; lia.
  - rewrite decide_False by done. destruct (IH st1 i) as (st2 & i2 & E & Hc2 & H2); [apply H1|by eapply deref_keep|done..|]. exists st2, i2. split; [done|]. split; [done|by eapply reads_trans].
Qed.

Definition is_int (t : list Z) : Prop := exists ll, string2ll t = Some ll.

Lemma as_integer_spec ht dst v only : new_ok v -> let '(v', only') := as_integer ht dst v only in vtext v' = vtext v /\ new_ok v' /\ (only' = true -> only = true /\ is_int (vtext v)).
Proof using.
  intros Hv. unfold as_integer. destruct v as [str|ll].
  - destruct only; [|done]. destruct (if ht then string2ll str else None) as [ll|] eqn:E; [|done]. assert (string2ll str = Some ll) as Ell by (by destruct ht). pose proof Ell as Hs. apply string2ll_spec in Hs as [Hs Et].
    destruct dst; (split; [done|]); (split; [done|]); (intros _; split; [done|by exists ll]).
  - split; [done|]. split; [done|]. intros ->. split; [done|]. exists ll. by apply parse_repr.
Qed.

Lemma fold_inter_store limit vs st i Xd : abs (db st) D -> db st !! k0 = Some (VSet s0) -> Forall new_ok vs -> rep server (i_dst i) Xd -> (i_only_integers i = true -> forall k, k ∈ Xd -> is_int k) ->
  exists st' i', fold_body (inter_body server fresh usable dict_can_resize address k0 others true false limit) vs (st, i) = Ret (st', i') /\
    rep server (i_dst i') (list_to_set (vtext <$> filter common vs) ∪ Xd) /\ (i_only_integers i' = true -> forall k, k ∈ list_to_set (vtext <$> filter common vs) ∪ Xd -> is_int k) /\ reads D (Some k0) st st'.
Proof using DTok Hvalid Hsome Husable Hconf.
  revert st i Xd. induction vs as [|v vs IH]; intros st i Xd Ha Hk Hok Hr Hint.
  { exists st, i. split; [done|]. cbn. rewrite (union_empty_l_L Xd). split; [done|]. split; [done|by apply reads_refl]. }
  apply Forall_cons in Hok as [Hv Hok]. cbn [fold_body]. unfold inter_body at 1, deref_set. rewrite Hk. cbn [obind]. destruct (inter_step st v Ha Hv) as (st1 & -> & H1). cbn [obind]. rewrite filter_cons. case_bool_decide as Hc; cbn [negb obind].
  - rewrite decide_True by done. pose proof (as_integer_spec (is_ht s0) (i_dst i) v (i_only_integers i) Hv) as Has. destruct (as_integer _ _ _ _) as [v' only]. destruct Has as (Et & Hv' & Honly).
    unfold add_aux. destruct (setTypeAddAux_spec server fresh usable dict_can_resize address Husable Hconf (i_dst i) Xd v' Hr Hv') as (dst & E & Hr'). rewrite E. cbn [obind].
    destruct (IH st1 (Inter (i_cardinality i) (i_items i) dst only) ({[vtext v]} ∪ Xd)) as (st2 & i2 & E2 & Hr2 & Hi2 & H2); [apply H1|by eapply deref_keep|done|cbn; by rewrite <- Et| |].
    + intros Ho k. cbn in Ho. destruct (Honly Ho) as [Ho' Hiv]. rewrite elem_of_union, elem_of_singleton. intros [->|Hin]; [done|by apply Hint].
    + exists st2, i2. split; [done|]. rewrite fmap_cons, list_to_set_cons.
      assert ({[vtext v]} ∪ list_to_set (vtext <$> filter common vs) ∪ Xd = list_to_set (vtext <$> filter common vs) ∪ ({[vtext v]} ∪ Xd)) as -> by (apply set_eq; intros x; rewrite !elem_of_union; tauto).
      split; [done|]. split; [done|by eapply reads_trans].
  - rewrite decide_False by done. destruct (IH st1 i Xd) as (st2 & i2 & E & H2 & H3 & H4); [apply H1|by eapply deref_keep|done..|]. exists st2, i2. split; [done|]. split; [done|]. split; [done|by eapply reads_trans].
Qed.

End Inter.
#[local] Existing Instance common_dec.

(** ** The destination *)

Lemma delete_dst_spec D k0 st st1 dst : reads D k0 st st1 -> no_empty D -> tells D (upd D dst ∅) st (delete_dst st1 dst).
Proof using.
  intros [Ha _ Hd He] Hne. rewrite upd_empty. unfold delete_dst, dbDelete. pose proof (Ha dst) as Hk. destruct (db st1 !! dst) as [v|] eqn:Edb.
  - split; [by apply abs_delete| |cbn; split; [lia|intros _; lia]]. cbn. rewrite He. eexists. split; [done|]. intros j Hj. destruct (decide (j = dst)) as [->|Hj']; [left|]. by rewrite lookup_delete_ne in Hj.
  - destruct (D !! dst) as [v|] eqn:Ek; [done|]. rewrite delete_id by done. apply (reads_tells D None). split; [done|done|done|done].
Qed.

Lemma store_dst_spec D k0 st st1 dst s R name : reads D k0 st st1 -> rep server s R -> R <> ∅ ->
  exists st', store_dst st1 dst s name = Ret (st', RLong (Z.of_nat (size R))) /\ tells D (upd D dst R) st st'.
Proof using.
  intros [Ha _ Hd He] Hr Hne. unfold store_dst.
  assert (exists ev1, setKey st1 dst s = Ret (State (<[dst := VSet s]> (db st1)) (dirty st1) (events st1 ++ ev1 ++ [Signal dst]))) as (ev1 & ->).
  { unfold setKey, dbAdd. destruct (db st1 !! dst) as [v|]; [by exists []|]. exists [NotifyNew dst]. cbn. unfold emit. cbn. by rewrite <- app_assoc. }
  cbn [obind]. set (st1' := State _ _ _).
  destruct (size_reads st1' (<[dst := ASet R]> D) dst R None ltac:(done)) as (st2 & -> & [Ha2 _ Hd2 He2]); [by apply abs_insert|by rewrite lookup_insert_eq|]. cbn [obind]. eexists. split; [done|].
  rewrite upd_ne by done. split; [done| |cbn; cbn in Hd2; split; [lia|intros _; lia]]. cbn. cbn in He2. rewrite He2, He, <- !app_assoc. eexists. split; [done|]. intros j Hj. destruct (decide (j = dst)) as [->|Hj']; [apply elem_of_app; right; left|]. by rewrite lookup_insert_ne in Hj.
Qed.

Lemma size_pos (R : sset) : (0 <? Z.of_nat (size R)) = bool_decide (R <> ∅).
Proof using.
  case_bool_decide as H; [apply Z.ltb_lt|apply Z.ltb_ge].
  - assert (size R <> 0%nat); [|lia]. intros E. apply H, leibniz_equiv, size_empty_inv, E.
  - assert (R = ∅) as -> by (destruct (decide (R = ∅)); [done|by destruct H]). by rewrite size_empty.
Qed.

Lemma rep_texts_nodup (s : setobj) (X : sset) (vs : list listpackEntry) (P : listpackEntry -> Prop) `{!forall v, Decision (P v)} (R : sset) : values_of s X vs -> R = list_to_set (vtext <$> filter P vs) ->
  is_set R (RSet (Z.of_nat (length (filter P vs))) (vtext <$> filter P vs)).
Proof using.
  intros (Hn & _ & _) ->. assert (NoDup (vtext <$> filter P vs)) as Hf by (eapply sublist_NoDup; [exact Hn|apply fmap_sublist, sublist_filter]). eexists. split; [|symmetry; by apply elements_list_to_set].
  rewrite size_list_to_set by done. by rewrite length_fmap.
Qed.

Lemma inter_elem D k ks x : x ∈ inter_of D k ks <-> Forall (fun k => x ∈ cur D k) (k :: ks).
Proof using.
  rewrite Forall_cons. unfold inter_of. induction ks as [|j ks IH]; cbn [foldr]; [split; [by split; [|constructor]|tauto]|]. rewrite elem_of_intersection, IH, Forall_cons. tauto.
Qed.

Lemma union_elem D ks x : x ∈ union_of D ks <-> Exists (fun k => x ∈ cur D k) ks.
Proof using.
  unfold union_of. induction ks as [|k ks IH]; cbn [foldr]; [rewrite elem_of_empty, Exists_nil; done|]. by rewrite elem_of_union, IH, Exists_cons.
Qed.

Lemma not_wrong D ks : existsb (wrong D) ks = false -> Forall (fun k => curp D (ptr_of D k) = cur D k) ks.
Proof using. intros H. apply Forall_forall. intros k Hk. apply curp_ptr. destruct (wrong D k) eqn:E; [|done]. rewrite <- H. symmetry. apply existsb_exists. exists k. split; [by apply list_elem_of_In|done]. Qed.

Lemma ptr_sets (D : adb) (P : sset -> Prop) (ks : list (list Z)) : existsb (wrong D) ks = false -> Forall (fun k => P (cur D k)) ks <-> Forall (fun p => P (curp D p)) (ptr_of D <$> ks).
Proof using. intros H%not_wrong. rewrite Forall_fmap. induction H as [|k ks Hk _ IH]; [by split; constructor|]. rewrite !Forall_cons, IH. cbn. by rewrite Hk. Qed.

(** The sets of an intersection, sorted: the first and the others. *)
Lemma inter_sets D k ks sets : existsb (wrong D) (k :: ks) = false -> None ∉ (ptr_of D <$> k :: ks) -> sets ≡ₚ (ptr_of D <$> k :: ks) ->
  exists k0 X0 others, sets = Some k0 :: others /\ D !! k0 = Some (ASet X0) /\ Forall (valid D) others /\ (None ∉ others) /\
    forall s vs, values_of s X0 vs -> inter_of D k ks = list_to_set (vtext <$> filter (common D k0 others) vs).
Proof using.
  intros Hw Hn Hp. assert (Forall (valid D) sets) as Hv by (rewrite Hp; apply Forall_fmap, Forall_forall; intros j _; apply valid_ptr). rewrite <- Hp in Hn.
  destruct sets as [|[k0|] others]; [by apply Permutation_nil_cons in Hp| |by destruct Hn; left]. apply Forall_cons in Hv as [Hv0 Hv]. destruct (Hv0 k0 eq_refl) as [X0 Ek0]. apply not_elem_of_cons in Hn as [_ Hn]. exists k0, X0, others. split_and!; try done.
  intros s vs (_ & EX & _). apply set_eq. intros x. rewrite inter_elem, (ptr_sets D (fun X => x ∈ X) _ Hw), <- Hp, Forall_cons, elem_of_list_to_set, list_elem_of_fmap. cbn [curp]. rewrite (cur_set _ _ _ Ek0). split.
  - intros [Hx Ho]. rewrite EX, elem_of_list_to_set, list_elem_of_fmap in Hx. destruct Hx as (v & -> & Hvs). exists v. split; [done|]. apply list_elem_of_filter. split; [|done]. eapply Forall_impl; [exact Ho|]. intros p Hx. by right.
  - intros (v & -> & Hvs). apply list_elem_of_filter in Hvs as [Hc Hvs]. assert (vtext v ∈ X0) as Hx0 by (rewrite EX, elem_of_list_to_set, list_elem_of_fmap; eauto). split; [done|]. eapply Forall_impl; [exact Hc|].
    intros p [->|Hx]; [|done]. cbn. by rewrite (cur_set _ _ _ Ek0).
Qed.

Lemma missing_inter D k ks : existsb (wrong D) (k :: ks) = false -> None ∈ (ptr_of D <$> k :: ks) -> inter_of D k ks = ∅.
Proof using.
  intros Hw Hn. apply set_eq. intros x. rewrite inter_elem, (ptr_sets D (fun X => x ∈ X) _ Hw), elem_of_empty. split; [|done]. rewrite Forall_forall. intros H. specialize (H None Hn). by apply elem_of_empty in H.
Qed.

Section Inter_cmd.
Context (D : adb) (k : list Z) (ks : list (list Z)) (st : state).
Context (Ha : abs (db st) D) (Hne : no_empty D) (Hw : existsb (wrong D) (k :: ks) = false).

(** The loop of [sinterGenericCommand], after the sets are sorted. *)
Lemma inter_loop : None ∉ (ptr_of D <$> k :: ks) -> exists st1 k0 X0 others s0 vs,
  sort_sets qsort true st (ptr_of D <$> k :: ks) = Ret (st1, Some k0 :: others) /\ reads D None st st1 /\
  D !! k0 = Some (ASet X0) /\ db st1 !! k0 = Some (VSet s0) /\ values_of s0 X0 vs /\ Forall (valid D) others /\ (None ∉ others) /\
  inter_of D k ks = list_to_set (vtext <$> filter (common D k0 others) vs) /\
  forall b1 b2 limit i, foreach_at address k0 (inter_body server fresh usable dict_can_resize address k0 others b1 b2 limit) (st1, i) =
                        fold_body (inter_body server fresh usable dict_can_resize address k0 others b1 b2 limit) vs (st1, i).
Proof using DTok Hqsort Ha Hw.
  intros Hn. destruct (sort_sets_spec true (ptr_of D <$> k :: ks) st D Ha) as (st1 & sets & E & Hp & Hr); [apply Forall_fmap, Forall_forall; intros j _; apply valid_ptr|].
  destruct (inter_sets D k ks sets Hw Hn Hp) as (k0 & X0 & others & -> & Ek0 & Hv & Hno & HR). destruct (abs_set _ _ _ _ (rd_abs _ _ _ _ Hr) Ek0) as (s0 & Es0 & Hs0).
  destruct (foreach_at_spec st1 D k0 X0 (rd_abs _ _ _ _ Hr) Ek0) as (s1 & vs & Es1 & Hvs & Hf). rewrite Es0 in Es1. injection Es1 as <-.
  exists st1, k0, X0, others, s0, vs. split_and!; try done; [by eapply HR|].
  intros b1 b2 limit i. apply Hf. intros a v a' more E1 _ E2. by rewrite (inter_keep _ _ _ _ _ _ _ _ _ E2).
Qed.

End Inter_cmd.

(** [SINTERCARD] and [SINTER] without a destination. *)
Lemma inter_count D k ks st limit : abs (db st) D -> existsb (wrong D) (k :: ks) = false -> 0 <= limit ->
  let n := Z.of_nat (size (inter_of D k ks)) in
  exists st', sinterGenericCommand server fresh usable dict_can_resize address qsort st (k :: ks) None true limit = Ret (st', RLong (if limit =? 0 then n else Z.min limit n)) /\ reads D None st st'.
Proof using DTok Hqsort.
  intros Ha Hw Hl n. unfold sinterGenericCommand. rewrite (lookup_sets_spec st D _ Ha), Hw. case_bool_decide as Hn.
  - exists st. split; [|by apply reads_refl]. unfold n. rewrite missing_inter, size_empty by done. do 3 f_equal. case_bool; lia.
  - destruct (inter_loop D k ks st Ha Hw Hn) as (st1 & k0 & X0 & others & s0 & vs & -> & Hr & Ek0 & Es0 & Hvs & Hv & Hno & HR & Hf). cbn [obind]. unfold deref_set. rewrite Es0. cbn [obind]. rewrite Hf.
    match goal with |- context [fold_body _ vs (st1, ?i)] => destruct (fold_inter_count D k0 s0 others Hv Hno false limit vs st1 i (rd_abs _ _ _ _ Hr) Es0) as (st2 & i2 & -> & Hc & Hr2) end; [apply Hvs|done|done|cbn; lia|].
    cbn [obind]. exists st2. split; [|eapply reads_trans; [exact Hr|by eapply reads_weaken]]. do 3 f_equal. rewrite Hc. cbn [i_cardinality]. unfold n. destruct (rep_texts_nodup s0 X0 vs _ _ Hvs HR) as (l & [= E _] & _). by rewrite E.
Qed.

Lemma inter_reply D k ks st : abs (db st) D -> existsb (wrong D) (k :: ks) = false ->
  exists st' r, sinterGenericCommand server fresh usable dict_can_resize address qsort st (k :: ks) None false 0 = Ret (st', r) /\ is_set (inter_of D k ks) r /\ reads D None st st'.
Proof using DTok Hqsort.
  intros Ha Hw. unfold sinterGenericCommand. rewrite (lookup_sets_spec st D _ Ha), Hw. case_bool_decide as Hn.
  - exists st, (RSet 0 []). split; [done|]. split; [|by apply reads_refl]. rewrite missing_inter by done. exists []. by rewrite size_empty, elements_empty.
  - destruct (inter_loop D k ks st Ha Hw Hn) as (st1 & k0 & X0 & others & s0 & vs & -> & Hr & Ek0 & Es0 & Hvs & Hv & Hno & HR & Hf). cbn [obind]. unfold deref_set. rewrite Es0. cbn [obind]. rewrite Hf.
    match goal with |- context [fold_body _ vs (st1, ?i)] => destruct (fold_inter_reply D k0 s0 others Hv Hno 0 vs st1 i (rd_abs _ _ _ _ Hr) Es0) as (st2 & -> & Hr2) end; [apply Hvs|].
    cbn [obind]. eexists st2, _. split; [done|]. split; [|eapply reads_trans; [exact Hr|by eapply reads_weaken]]. cbn [i_cardinality i_items app]. rewrite Z.add_0_l. by eapply rep_texts_nodup.
Qed.

Lemma shrink_set_rep s X : rep server s X -> rep server (shrink fresh usable s) X.
Proof using Husable. intros H. destruct s as [iset|lp|d]; cbn [shrink]; [done|by apply shrink_rep|done]. Qed.

Lemma inter_store D k ks dst st : abs (db st) D -> no_empty D -> existsb (wrong D) (k :: ks) = false ->
  exists st', sinterGenericCommand server fresh usable dict_can_resize address qsort st (k :: ks) (Some dst) false 0 = Ret (st', RLong (Z.of_nat (size (inter_of D k ks)))) /\ tells D (upd D dst (inter_of D k ks)) st st'.
Proof using DTok Hqsort Husable Hconf.
  intros Ha Hne Hw. unfold sinterGenericCommand. rewrite (lookup_sets_spec st D _ Ha), Hw. case_bool_decide as Hn.
  - eexists. rewrite missing_inter, size_empty by done. split; [done|]. eapply (delete_dst_spec D None); [by apply reads_refl|done].
  - destruct (inter_loop D k ks st Ha Hw Hn) as (st1 & k0 & X0 & others & s0 & vs & -> & Hr & Ek0 & Es0 & Hvs & Hv & Hno & HR & Hf). cbn [obind]. unfold deref_set. rewrite Es0. cbn [obind]. rewrite Hf.
    match goal with |- context [fold_body _ vs (st1, Inter 0 [] ?d true)] => assert (rep server d ∅) as Hd by (destruct s0; [by apply holds_new_intset|by apply holds_new_listpack|by apply holds_new_listpack]);
      destruct (fold_inter_store D k0 s0 others Hv Hno 0 vs st1 (Inter 0 [] d true) ∅ (rd_abs _ _ _ _ Hr) Es0) as (st2 & i2 & -> & Hrep & Hint & Hr2) end; [apply Hvs|done|by intros _ x Hx; apply elem_of_empty in Hx|].
    cbn [obind]. assert (reads D None st st2) as Hr' by (eapply reads_trans; [exact Hr|by eapply reads_weaken]). rewrite union_empty_r_L, <- HR in Hrep, Hint. destruct (setTypeSize_rep server _ _ Hrep) as (d1 & -> & Hd1). cbn [obind]. rewrite size_pos. case_bool_decide as HRe.
    + assert (exists d2, (if i_only_integers i2 then maybeConvertToIntset server fresh address d1 else Ret d1) = Ret d2 /\ rep server d2 (inter_of D k ks)) as (d2 & -> & Hd2).
      { destruct (i_only_integers i2) eqn:Eo; [|by eauto]. apply maybeConvertToIntset_spec; [done|done|by apply Hint]. }
      cbn [obind]. by apply (store_dst_spec D None st st2 dst); [|apply shrink_set_rep|].
    + assert (inter_of D k ks = ∅) as -> by (destruct (decide (inter_of D k ks = ∅)); [done|by destruct HRe]). rewrite size_empty. eexists. split; [done|]. by apply (delete_dst_spec D None).
Qed.

Lemma wrong_keys st D keys : abs (db st) D -> existsb (wrong D) keys = true -> lookup_sets st keys = None.
Proof using. intros Ha Hw. by rewrite (lookup_sets_spec st D _ Ha), Hw. Qed.

Lemma sinter_right D st dst k ks : abs (db st) D -> no_empty D -> done_right D st (CInter dst k ks).
Proof using DTok Hqsort Husable Hconf.
  intros Ha Hne. destruct (existsb (wrong D) (k :: ks)) eqn:Hw.
  - eapply (done_reads D None st _ st RWrongType); [|done|cbn [spec]; by rewrite Hw|cbn [spec]; by rewrite Hw]. cbn [exec]. destruct dst; unfold sinterstoreCommand, sinterCommand, sinterGenericCommand; by rewrite (wrong_keys st D _ Ha Hw).
  - destruct dst as [dst|].
    + destruct (inter_store D k ks dst st Ha Hne Hw) as (st' & E & Ht). eexists st', _. split; [exact E|]. cbn [spec]. rewrite Hw. by split.
    + destruct (inter_reply D k ks st Ha Hw) as (st' & r & E & Hs & Hr). eapply done_reads; [exact E|exact Hr| |]; cbn [spec]; by rewrite Hw.
Qed.

Lemma parse_arg v : in_s 64 v -> StrObj.getLongLongFromObject (Some (StrObj.createStringObject (repr v))) = Some v.
Proof using. intros Hv. unfold StrObj.getLongLongFromObject, StrObj.createStringObject. destruct (_ <=? _); cbn; by apply parse_repr. Qed.

Lemma parse_range v min max : in_s 64 v -> min <= v <= max -> StrObj.getRangeLongFromObjectOrReply (Some (StrObj.createStringObject (repr v))) min max = Some v.
Proof using.
  intros Hv Hm. unfold StrObj.getRangeLongFromObjectOrReply, StrObj.getLongFromObjectOrReply. rewrite parse_arg by done. unfold in_s in Hv. unfold StrObj.LONG_MIN, StrObj.LONG_MAX.
  rewrite !(proj2 (Z.ltb_ge _ _)) by lia. cbn [orb]. by rewrite !(proj2 (Z.ltb_ge _ _)) by lia.
Qed.

Lemma sintercard_right D st limit k ks : abs (db st) D -> cmd_ok (CInterCard limit k ks) -> done_right D st (CInterCard limit k ks).
Proof using DTok Hqsort.
  intros Ha [Hks Hl]. assert (exec st (CInterCard limit k ks) = sinterGenericCommand server fresh usable dict_can_resize address qsort st (k :: ks) None true (default 0 limit)) as Ex.
  { cbn [exec]. unfold sinterCardCommand. rewrite parse_range by (unfold in_s, StrObj.LONG_MAX; lia).
    assert (Z.to_nat (1 + Z.of_nat (length ks)) = length (k :: ks)) as -> by (cbn [length]; lia). rewrite (proj2 (Z.ltb_ge _ _)) by (rewrite length_app; cbn [length]; lia).
    rewrite drop_app_length, take_app_length. destruct limit as [limit|]; [|done]. cbn [card_options default]. assert (SdsArgs.same_case (chars "limit") (chars "LIMIT") = true) as -> by (vm_compute; reflexivity).
    unfold StrObj.getPositiveLongFromObjectOrReply. rewrite parse_range by (unfold in_s, StrObj.LONG_MAX; lia). done. }
  destruct (existsb (wrong D) (k :: ks)) eqn:Hw.
  - eapply (done_reads D None st _ st RWrongType); [|done|done|cbn [spec]; by rewrite Hw]. rewrite Ex. unfold sinterGenericCommand. by rewrite (wrong_keys st D _ Ha Hw).
  - destruct (inter_count D k ks st (default 0 limit) Ha Hw) as (st' & E & Hr); [destruct limit; cbn; lia|]. eapply done_reads; [rewrite Ex; exact E|exact Hr|done|]. cbn [spec]. rewrite Hw. cbn [snd]. by destruct limit.
Qed.

(** ** Unions and differences *)

(** The number of members as the commands count it, in an [int]. *)
Definition card32 (X : sset) : Z := s32 (Z.of_nat (size X)).

Lemma card32_step a b : s32 (s32 a + b) = s32 (a + b).
Proof using. unfold s32, swrap. replace ((a + 2 ^ (32 - 1)) mod 2 ^ 32 - 2 ^ (32 - 1) + b + 2 ^ (32 - 1)) with ((a + 2 ^ (32 - 1)) mod 2 ^ 32 + b) by lia. rewrite Zplus_mod_idemp_l. f_equal. f_equal. lia. Qed.

Lemma card32_small X : Z.of_nat (size X) < 2 ^ 31 -> card32 X = Z.of_nat (size X).
Proof using. intros H. unfold card32, s32. apply swrap_small; [lia|]. unfold in_s. lia. Qed.

Lemma card32_empty : card32 ∅ = 0.
Proof using. unfold card32. by rewrite size_empty. Qed.

Lemma collect_spec st dst X v : rep server dst X -> new_ok v ->
  exists dst', collect server fresh usable dict_can_resize address (st, (dst, card32 X)) v = Ret (st, (dst', card32 ({[vtext v]} ∪ X)), true) /\ rep server dst' ({[vtext v]} ∪ X).
Proof using DTok Husable Hconf.
  intros Hr Hv. unfold collect, add_aux. destruct (setTypeAddAux_spec server fresh usable dict_can_resize address Husable Hconf dst X v Hr Hv) as (dst' & -> & Hr'). cbn [obind]. exists dst'. split; [|done]. do 4 f_equal. unfold card32. rewrite card32_step. case_bool_decide as Hin.
  - rewrite size_union, size_singleton by (by apply disjoint_singleton_l). f_equal. lia.
  - assert ({[vtext v]} ∪ X = X) as -> by (apply set_eq; intros x; rewrite elem_of_union, elem_of_singleton; split; [by intros [->|?]|tauto]). f_equal. lia.
Qed.

Lemma subtract_spec st dst X v : rep server dst X -> new_ok v ->
  exists dst', subtract fresh usable dict_can_resize (st, (dst, card32 X)) v = Ret (st, (dst', card32 (X ∖ {[vtext v]})), true) /\ rep server dst' (X ∖ {[vtext v]}).
Proof using DTok Husable.
  intros Hr Hv. unfold subtract, remove_aux. destruct (setTypeRemoveAux_spec server fresh usable dict_can_resize Husable dst X v Hr Hv) as (dst' & -> & Hr'). cbn [obind]. exists dst'. split; [|done]. do 4 f_equal. unfold card32. rewrite <- Z.add_opp_r, card32_step. case_bool_decide as Hin.
  - rewrite size_removed by done. f_equal; lia.
  - rewrite difference_absent by done. f_equal. lia.
Qed.

Lemma fold_collect vs st dst X : rep server dst X -> Forall new_ok vs ->
  exists dst', fold_body (collect server fresh usable dict_can_resize address) vs (st, (dst, card32 X)) = Ret (st, (dst', card32 (list_to_set (vtext <$> vs) ∪ X))) /\ rep server dst' (list_to_set (vtext <$> vs) ∪ X).
Proof using DTok Husable Hconf.
  revert dst X. induction vs as [|v vs IH]; intros dst X Hr Hok. { exists dst. cbn. by rewrite (union_empty_l_L X). }
  apply Forall_cons in Hok as [Hv Hok]. destruct (collect_spec st dst X v Hr Hv) as (dst1 & E & Hr1). cbn [fold_body]. rewrite E. cbn [obind]. destruct (IH _ _ Hr1 Hok) as (dst2 & -> & Hr2). exists dst2.
  assert (list_to_set (vtext <$> v :: vs) ∪ X = list_to_set (vtext <$> vs) ∪ ({[vtext v]} ∪ X)) as -> by (apply set_eq; intros x; rewrite fmap_cons, list_to_set_cons, !elem_of_union; tauto). done.
Qed.

Lemma fold_subtract vs st dst X : rep server dst X -> Forall new_ok vs ->
  exists dst', fold_body (subtract fresh usable dict_can_resize) vs (st, (dst, card32 X)) = Ret (st, (dst', card32 (X ∖ list_to_set (vtext <$> vs)))) /\ rep server dst' (X ∖ list_to_set (vtext <$> vs)).
Proof using DTok Husable.
  revert dst X. induction vs as [|v vs IH]; intros dst X Hr Hok. { exists dst. cbn. by rewrite (difference_empty_L X). }
  apply Forall_cons in Hok as [Hv Hok]. destruct (subtract_spec st dst X v Hr Hv) as (dst1 & E & Hr1). cbn [fold_body]. rewrite E. cbn [obind]. destruct (IH _ _ Hr1 Hok) as (dst2 & -> & Hr2). exists dst2.
  assert (X ∖ list_to_set (vtext <$> v :: vs) = X ∖ {[vtext v]} ∖ list_to_set (vtext <$> vs)) as -> by (apply set_eq; intros x; rewrite fmap_cons, list_to_set_cons, !elem_of_difference, elem_of_union; tauto). done.
Qed.

Lemma foreach_collect D k X st dst Y : abs (db st) D -> D !! k = Some (ASet X) -> rep server dst Y ->
  exists dst', foreach_at address k (collect server fresh usable dict_can_resize address) (st, (dst, card32 Y)) = Ret (st, (dst', card32 (X ∪ Y))) /\ rep server dst' (X ∪ Y).
Proof using DTok Husable Hconf.
  intros Ha Hk Hr. destruct (foreach_at_spec st D k X Ha Hk) as (s & vs & Es & (_ & -> & Hok) & Hf). rewrite Hf; [by apply fold_collect|]. intros [st1 [d1 n1]] v a' more E1 _ E2. unfold collect in E2. destruct (add_aux _ _ _ _ _ _ _) as [|[d2 b]]; cbn [obind] in E2; [done|]. by injection E2 as <- _.
Qed.

Lemma foreach_subtract D k X st dst Y : abs (db st) D -> D !! k = Some (ASet X) -> rep server dst Y ->
  exists dst', foreach_at address k (subtract fresh usable dict_can_resize) (st, (dst, card32 Y)) = Ret (st, (dst', card32 (Y ∖ X))) /\ rep server dst' (Y ∖ X).
Proof using DTok Husable.
  intros Ha Hk Hr. destruct (foreach_at_spec st D k X Ha Hk) as (s & vs & Es & (_ & -> & Hok) & Hf). rewrite Hf; [by apply fold_subtract|]. intros [st1 [d1 n1]] v a' more E1 _ E2. unfold subtract in E2. destruct (remove_aux _ _ _ _ _) as [|[d2 b]]; cbn [obind] in E2; [done|]. by injection E2 as <- _.
Qed.

Definition big_union (D : adb) (sets : list (option (list Z))) : sset := foldr (fun p X => curp D p ∪ X) ∅ sets.

Lemma big_union_elem D sets x : x ∈ big_union D sets <-> Exists (fun p => x ∈ curp D p) sets.
Proof using. unfold big_union. induction sets as [|p sets IH]; cbn [foldr]; [rewrite elem_of_empty, Exists_nil; done|]. by rewrite elem_of_union, IH, Exists_cons. Qed.

Lemma big_union_perm D sets sets' : sets ≡ₚ sets' -> big_union D sets = big_union D sets'.
Proof using. intros Hp. apply set_eq. intros x. by rewrite !big_union_elem, Hp. Qed.

Lemma big_union_ptr D ks : existsb (wrong D) ks = false -> big_union D (ptr_of D <$> ks) = union_of D ks.
Proof using. intros H%not_wrong. unfold big_union, union_of. induction H as [|k ks Hk _ IH]; [done|]. cbn. rewrite Hk. f_equal. exact IH. Qed.

Lemma union_all_spec sets D st dst Y : abs (db st) D -> Forall (valid D) sets -> rep server dst Y ->
  exists dst', union_all server fresh usable dict_can_resize address sets (st, (dst, card32 Y)) = Ret (st, (dst', card32 (big_union D sets ∪ Y))) /\ rep server dst' (big_union D sets ∪ Y).
Proof using DTok Husable Hconf.
  revert dst Y. induction sets as [|p sets IH]; intros dst Y Ha Hv Hr. { exists dst. cbn. by rewrite (union_empty_l_L Y). }
  apply Forall_cons in Hv as [Hp Hv]. destruct p as [k|]; cbn [union_all].
  - destruct (Hp k eq_refl) as [X Ek]. destruct (foreach_collect D k X st dst Y Ha Ek Hr) as (d1 & -> & Hr1). cbn [obind]. destruct (IH d1 _ Ha Hv Hr1) as (d2 & -> & Hr2). exists d2.
    assert (big_union D (Some k :: sets) ∪ Y = big_union D sets ∪ (X ∪ Y)) as ->; [|done]. cbn. rewrite (cur_set _ _ _ Ek). apply set_eq. intros x. rewrite !elem_of_union. tauto.
  - destruct (IH dst Y Ha Hv Hr) as (d2 & -> & Hr2). exists d2. assert (big_union D (None :: sets) ∪ Y = big_union D sets ∪ Y) as ->; [|done]. cbn. by rewrite (union_empty_l_L (big_union D sets)).
Qed.

Lemma subset_small (X Y : sset) n : X ⊆ Y -> Z.of_nat (size Y) < n -> Z.of_nat (size X) < n.
Proof using. intros H%subseteq_size Hn. lia. Qed.

Lemma subtract_all_spec sets D st dst Y : abs (db st) D -> Forall (valid D) sets -> rep server dst Y -> Z.of_nat (size Y) < 2 ^ 31 ->
  exists dst', subtract_all fresh usable dict_can_resize address sets (st, (dst, card32 Y)) = Ret (st, (dst', card32 (Y ∖ big_union D sets))) /\ rep server dst' (Y ∖ big_union D sets).
Proof using DTok Husable.
  revert dst Y. induction sets as [|p sets IH]; intros dst Y Ha Hv Hr HY. { exists dst. cbn. by rewrite (difference_empty_L Y). }
  apply Forall_cons in Hv as [Hp Hv]. destruct p as [k|]; cbn [subtract_all].
  - destruct (Hp k eq_refl) as [X Ek]. assert (Z.of_nat (size (Y ∖ X)) < 2 ^ 31) as HYX by (eapply subset_small; [|exact HY]; intros x Hx; by apply elem_of_difference in Hx as [? _]). destruct (foreach_subtract D k X st dst Y Ha Ek Hr) as (d1 & -> & Hr1). cbn [obind snd].
    assert (Y ∖ big_union D (Some k :: sets) = Y ∖ X ∖ big_union D sets) as ->. { cbn. rewrite (cur_set _ _ _ Ek). apply set_eq. intros x. rewrite !elem_of_difference, elem_of_union. tauto. }
    destruct (Z.eqb_spec (card32 (Y ∖ X)) 0) as [Hz|Hnz]; [|by apply IH]. exists d1. rewrite card32_small in Hz by done. assert (Y ∖ X = ∅) as E by (apply leibniz_equiv, size_empty_inv; lia). rewrite E in *. by rewrite (empty_difference_L (big_union D sets)).
  - assert (Y ∖ big_union D (None :: sets) = Y ∖ big_union D sets) as ->; [|by apply IH]. cbn. by rewrite (union_empty_l_L (big_union D sets)).
Qed.

Section Diff.
Context (D : adb) (k0 : list Z) (others : list (option (list Z))).
Context (Hvalid : Forall (valid D) others) (Hother : Some k0 ∉ others).

(** The values that no other set has. *)
Definition alone (v : listpackEntry) : Prop := Forall (fun p => vtext v ∉ curp D p) others.
#[local] Instance alone_dec v : Decision (alone v).
Proof using. unfold alone. apply _. Defined.

Definition diff_body (a : state * (setobj * Z)) (v : listpackEntry) : outcome (state * (setobj * Z) * bool) :=
  let* (st, none) := in_none dict_can_resize (fst a) k0 others v in
  if none : bool then collect server fresh usable dict_can_resize address (st, snd a) v else Ret (st, snd a, true).

Lemma fold_diff vs st dst Y : abs (db st) D -> Forall new_ok vs -> rep server dst Y ->
  exists st' dst', fold_body diff_body vs (st, (dst, card32 Y)) = Ret (st', (dst', card32 (list_to_set (vtext <$> filter alone vs) ∪ Y))) /\
    rep server dst' (list_to_set (vtext <$> filter alone vs) ∪ Y) /\ reads D (Some k0) st st'.
Proof using DTok Husable Hconf Hvalid Hother.
  revert st dst Y. induction vs as [|v vs IH]; intros st dst Y Ha Hok Hr.
  { exists st, dst. cbn. rewrite (union_empty_l_L Y). split; [done|]. split; [done|by apply reads_refl]. }
  apply Forall_cons in Hok as [Hv Hok]. destruct (in_none_spec k0 others v st D Ha Hvalid Hother Hv) as (st1 & b & E & Hb & H1). cbn [fold_body]. unfold diff_body at 1. cbn [fst snd]. rewrite E. cbn [obind]. rewrite filter_cons. destruct b.
  - rewrite decide_True by (by apply Hb). destruct (collect_spec st1 dst Y v Hr Hv) as (d1 & -> & Hr1). cbn [obind]. destruct (IH st1 d1 _ (rd_abs _ _ _ _ H1) Hok Hr1) as (st2 & d2 & -> & Hr2 & H2). exists st2, d2.
    assert (list_to_set (vtext <$> v :: filter alone vs) ∪ Y = list_to_set (vtext <$> filter alone vs) ∪ ({[vtext v]} ∪ Y)) as -> by (apply set_eq; intros x; rewrite fmap_cons, list_to_set_cons, !elem_of_union; tauto).
    split; [done|]. split; [done|by eapply reads_trans].
  - rewrite decide_False by (intros Hc; by apply Hb in Hc). cbn [obind]. destruct (IH st1 dst Y (rd_abs _ _ _ _ H1) Hok Hr) as (st2 & d2 & -> & Hr2 & H2). exists st2, d2. split; [done|]. split; [done|by eapply reads_trans].
Qed.

Lemma diff_one_spec st dst X0 : abs (db st) D -> D !! k0 = Some (ASet X0) -> rep server dst ∅ ->
  exists st' dst', diff_one server fresh usable dict_can_resize address k0 others (st, (dst, 0)) = Ret (st', (dst', card32 (X0 ∖ big_union D others))) /\
    rep server dst' (X0 ∖ big_union D others) /\ reads D None st st'.
Proof using DTok Husable Hconf Hvalid Hother.
  intros Ha Hk Hr. destruct (foreach_at_spec st D k0 X0 Ha Hk) as (s & vs & Es & (_ & EX & Hok) & Hf). unfold diff_one. fold diff_body. rewrite Hf.
  - destruct (fold_diff vs st dst ∅ Ha Hok Hr) as (st' & dst' & E & Hr' & Hrd). rewrite card32_empty in E. rewrite union_empty_r_L in E, Hr'.
    assert (list_to_set (vtext <$> filter alone vs) = X0 ∖ big_union D others) as ER.
    { apply set_eq. intros x. rewrite elem_of_difference, big_union_elem, EX, !elem_of_list_to_set, !list_elem_of_fmap, <- Forall_Exists_neg. split.
      - intros (v & -> & Hv). apply list_elem_of_filter in Hv as [Hc Hv]. split; [by exists v|exact Hc].
      - intros [(v & -> & Hv) Hc]. exists v. split; [done|]. by apply list_elem_of_filter. }
    rewrite ER in *. exists st', dst'. split; [exact E|]. split; [done|by eapply reads_weaken].
  - intros [st1 [d1 n1]] v a' more E1 _ E2. unfold diff_body in E2. cbn [fst snd] in *. destruct (in_none _ st1 k0 others v) as [|[st2 b]] eqn:E3; [done|]. apply in_none_keep in E3. cbn [obind] in E2. destruct b; [|by injection E2 as <- _; cbn; rewrite E3].
    unfold collect in E2. destruct (add_aux _ _ _ _ _ _ _) as [|[d2 b]]; cbn [obind] in E2; [done|]. injection E2 as <- _. cbn. by rewrite E3.
Qed.

End Diff.

Lemma work_spec sets D st k0 X0 one two : abs (db st) D -> D !! k0 = Some (ASet X0) -> Forall (valid D) sets -> exists st' w, work st k0 sets one two = Ret (st', w) /\ reads D None st st'.
Proof using.
  revert st one two. induction sets as [|p sets IH]; intros st one two Ha Hk Hv. { eexists st, _. split; [done|by apply reads_refl]. }
  apply Forall_cons in Hv as [Hp Hv]. destruct p as [k|]; cbn [work]; [|by apply IH]. destruct (Hp k eq_refl) as [X Ek]. destruct (size_reads st D k0 X0 None ltac:(done) Ha Hk) as (st1 & -> & H1). cbn [obind].
  destruct (size_reads st1 D k X None ltac:(done) (rd_abs _ _ _ _ H1) Ek) as (st2 & -> & H2). cbn [obind]. edestruct (IH st2) as (st3 & w & E & H3); [apply H2|done|done|]. exists st3, w. split; [exact E|]. eauto using reads_trans.
Qed.

Lemma diff_sets_spec sets D st p others dst : sets = p :: others -> abs (db st) D -> Forall (valid D) sets -> rep server dst ∅ -> Z.of_nat (size (curp D p)) < 2 ^ 31 ->
  exists st' dst', diff_sets server fresh usable dict_can_resize address qsort st sets (dst, 0) = Ret (st', (dst', card32 (curp D p ∖ big_union D others))) /\
    rep server dst' (curp D p ∖ big_union D others) /\ reads D None st st'.
Proof using DTok Husable Hconf Hqsort.
  intros -> Ha Hv Hr Hsz. assert (curp D p ∖ big_union D others = ∅ -> exists st' dst', Ret (st, (dst, 0)) = Ret (st', (dst', card32 (curp D p ∖ big_union D others))) /\
    rep server dst' (curp D p ∖ big_union D others) /\ reads D None st st') as Hnil.
  { intros ->. exists st, dst. rewrite card32_empty. split; [done|]. split; [done|by apply reads_refl]. }
  apply Forall_cons in Hv as [Hp Hv]. destruct p as [k0|]; cbn [diff_sets]; [|apply Hnil; apply (empty_difference_L (big_union D others))]. destruct (Hp k0 eq_refl) as [X0 Ek]. case_bool_decide as Hin.
  { apply Hnil. apply set_eq. intros x. rewrite elem_of_difference, big_union_elem, elem_of_empty. split; [|done]. intros [Hx Hno]. apply Hno, Exists_exists. by exists (Some k0). }
  destruct (work_spec (Some k0 :: others) D st k0 X0 0 0 Ha Ek) as (st1 & w & -> & H1); [by constructor|]. cbn [obind curp] in *. rewrite (cur_set _ _ _ Ek) in *. destruct (_ <=? _).
  - destruct (sort_sets_spec false others st1 D (rd_abs _ _ _ _ H1) Hv) as (st2 & o2 & -> & Hp2 & H2). cbn [obind].
    destruct (diff_one_spec D k0 o2) with (st := st2) (dst := dst) (X0 := X0) as (st3 & d3 & E & Hr3 & H3); [by rewrite Hp2|by rewrite Hp2|apply H2|done|done|].
    rewrite (big_union_perm D _ _ Hp2) in E, Hr3. exists st3, d3. split; [exact E|]. split; [done|]. eauto using reads_trans.
  - unfold diff_two. destruct (foreach_collect D k0 X0 st1 dst ∅ (rd_abs _ _ _ _ H1) Ek Hr) as (d2 & E & Hr2). rewrite card32_empty in E. rewrite union_empty_r_L in E, Hr2. rewrite E. cbn [obind snd].
    destruct (Z.eqb_spec (card32 X0) 0) as [Hz|Hnz].
    + exists st1, d2. rewrite card32_small in Hz by done. assert (X0 = ∅) as -> by (apply leibniz_equiv, size_empty_inv; lia). rewrite (empty_difference_L (big_union D others)). done.
    + destruct (subtract_all_spec others D st1 d2 X0 (rd_abs _ _ _ _ H1) Hv Hr2 Hsz) as (d3 & -> & Hr3). exists st1, d3. done.
Qed.

(** What both commands do with the result. *)
Lemma finish_spec D st st1 dst s R op : no_empty D -> reads D None st st1 -> rep server s R ->
  exists st' r, match dst with
      | None =>
          let* items := foreach address s (fun l v => Ret (l ++ [text_of v], true)) [] in
          Ret (st1, RSet (Z.of_nat (size R)) items)
      | Some dstkey =>
          let* (n, s) := setTypeSize s in
          if 0 <? n then store_dst st1 dstkey s (match op with SET_OP_UNION => chars "sunionstore" | SET_OP_DIFF => chars "sdiffstore" end)
          else Ret (delete_dst st1 dstkey, RLong 0)
      end = Ret (st', r) /\ tells D (fst (give D dst R)) st st' /\ snd (give D dst R) r.
Proof using DTok.
  intros Hne Hr Hrep. destruct dst as [dst|]; cbn [give fst snd].
  - destruct (setTypeSize_rep server _ _ Hrep) as (d1 & -> & Hd1). cbn [obind]. rewrite size_pos. case_bool_decide as HRe.
    + edestruct (store_dst_spec D None st st1 dst d1 R) as (st' & E & Ht); [done|done|done|]. eexists _, _. split; [exact E|]. by split.
    + assert (R = ∅) as -> by (destruct (decide (R = ∅)); [done|by destruct HRe]). rewrite size_empty. eexists _, _. split; [done|]. split; [by apply (delete_dst_spec D None)|done].
  - destruct (members_spec address s R (proj1 Hrep)) as (l & -> & Hl). cbn [obind]. eexists _, _. split; [done|]. split; [by eapply reads_tells|by exists l].
Qed.

Lemma sets_ok D ks : Forall (valid D) (ptr_of D <$> ks).
Proof using. apply Forall_fmap, Forall_forall. intros j _. apply valid_ptr. Qed.

(** All members of all sets are in [U]. *)
Definition within (U : sset) (D : adb) : Prop := forall k, cur D k ⊆ U.

Lemma union_within U D ks : within U D -> union_of D ks ⊆ U.
Proof using. intros H. unfold union_of. induction ks as [|k ks IH]; cbn [foldr]; [apply empty_subseteq|]. apply union_subseteq. split; [apply H|done]. Qed.

Lemma sunion_right D st dst k ks U : abs (db st) D -> no_empty D -> within U D -> Z.of_nat (size U) < 2 ^ 31 -> done_right D st (CUnion dst k ks).
Proof using DTok Hqsort Husable Hconf.
  intros Ha Hne HU Hn. assert (exec st (CUnion dst k ks) = sunionDiffGenericCommand server fresh usable dict_can_resize address qsort st (k :: ks) dst SET_OP_UNION) as Ex by (by destruct dst). destruct (existsb (wrong D) (k :: ks)) eqn:Hw.
  - eapply (done_reads D None st _ st RWrongType); [|done|cbn [spec]; by rewrite Hw|cbn [spec]; by rewrite Hw]. rewrite Ex. unfold sunionDiffGenericCommand. by rewrite (wrong_keys st D _ Ha Hw).
  - unfold sunionDiffGenericCommand in Ex. rewrite (lookup_sets_spec st D _ Ha), Hw in Ex.
    destruct (union_all_spec (ptr_of D <$> k :: ks) D st createIntsetObject ∅ Ha (sets_ok D _) (holds_new_intset server Hconf)) as (d1 & E & Hr1). rewrite card32_empty in E. cbv zeta in Ex. rewrite E in Ex. cbn [obind] in Ex.
    rewrite union_empty_r_L, big_union_ptr in Ex, Hr1 by done. rewrite card32_small in Ex by (eapply subset_small; [by apply (union_within U)|done]). destruct (finish_spec D st st dst d1 _ SET_OP_UNION Hne (reads_refl D None st Ha) Hr1) as (st' & r & E' & Ht & Hs). exists st', r. rewrite Ex. cbn [spec]. rewrite Hw. by split.
Qed.

Lemma sdiff_right D st dst k ks U : abs (db st) D -> no_empty D -> within U D -> Z.of_nat (size U) < 2 ^ 31 -> done_right D st (CDiff dst k ks).
Proof using DTok Hqsort Husable Hconf.
  intros Ha Hne HU Hn. assert (exec st (CDiff dst k ks) = sunionDiffGenericCommand server fresh usable dict_can_resize address qsort st (k :: ks) dst SET_OP_DIFF) as Ex by (by destruct dst). destruct (existsb (wrong D) (k :: ks)) eqn:Hw.
  - eapply (done_reads D None st _ st RWrongType); [|done|cbn [spec]; by rewrite Hw|cbn [spec]; by rewrite Hw]. rewrite Ex. unfold sunionDiffGenericCommand. by rewrite (wrong_keys st D _ Ha Hw).
  - unfold sunionDiffGenericCommand in Ex. rewrite (lookup_sets_spec st D _ Ha), Hw in Ex. pose proof Hw as Hw'. cbn [existsb] in Hw'. apply orb_false_iff in Hw' as [Hwk Hwks].
    destruct (diff_sets_spec (fmap (M := list) (ptr_of D) (k :: ks)) D st (ptr_of D k) (fmap (M := list) (ptr_of D) ks) createIntsetObject eq_refl Ha (sets_ok D (k :: ks)) (holds_new_intset server Hconf)) as (st1 & d1 & E & Hr1 & Hrd); [rewrite curp_ptr by done; eapply subset_small; [apply HU|done]|]. cbv zeta in Ex. rewrite E in Ex. cbn [obind] in Ex.
    rewrite curp_ptr, big_union_ptr in Ex, Hr1 by done. rewrite card32_small in Ex by (eapply subset_small; [|exact Hn]; intros x Hx; apply elem_of_difference in Hx as [Hx _]; by apply (HU k)). destruct (finish_spec D st st1 dst d1 _ SET_OP_DIFF Hne Hrd Hr1) as (st' & r & E' & Ht & Hs). exists st', r. rewrite Ex. cbn [spec]. rewrite Hw. by split.
Qed.

(** ** Runs of commands *)

Lemma upd_no_empty D k X : no_empty D -> no_empty (upd D k X).
Proof using.
  intros H j. unfold upd. case_decide as HX; destruct (decide (j = k)) as [->|Hj].
  - by rewrite lookup_delete_eq.
  - by rewrite lookup_delete_ne.
  - rewrite lookup_insert_eq. congruence.
  - by rewrite lookup_insert_ne.
Qed.

Lemma insert_no_empty D k X x : no_empty D -> x ∈ X -> no_empty (<[k := ASet X]> D).
Proof using. intros H Hx. rewrite <- upd_ne; [by apply upd_no_empty|]. intros ->. by apply elem_of_empty in Hx. Qed.

Lemma give_no_empty D dst R : no_empty D -> no_empty (fst (give D dst R)).
Proof using. intros H. destruct dst; [by apply upd_no_empty|done]. Qed.

Lemma spec_no_empty D c : no_empty D -> no_empty (fst (spec D c)).
Proof using.
  intros H. destruct c as [k ele eles|k eles|src dst ele| | | |dst k ks|limit k ks|dst k ks|dst k ks]; cbn [spec]; try done.
  - destruct (wrong D k); [done|]. cbn [fst]. apply (insert_no_empty _ _ _ ele); [done|]. apply elem_of_union. left. apply elem_of_list_to_set. left.
  - destruct (wrong D k); [done|]. by apply upd_no_empty.
  - destruct (D !! src); [|done]. destruct (_ || _); [done|]. destruct (decide (ele ∈ cur D src)); [|done]. cbn [fst]. destruct (decide (src = dst)); [done|].
    apply (insert_no_empty _ _ _ ele); [by apply upd_no_empty|]. apply elem_of_union. left. by apply elem_of_singleton.
  - destruct (existsb _ _); [done|]. by apply give_no_empty.
  - destruct (existsb _ _); [done|]. by apply give_no_empty.
  - destruct (existsb _ _); [done|]. by apply give_no_empty.
Qed.

(** The members a command brings in. *)
Definition added (c : cmd) : sset := match c with CAdd _ ele eles => list_to_set (ele :: eles) | CMove _ _ ele => {[ele]} | _ => ∅ end.
Definition total_added (cs : list cmd) : Z := foldr (fun c n => Z.of_nat (size (added c)) + n) 0 cs.

Lemma within_insert U D k X : within U D -> X ⊆ U -> within U (<[k := ASet X]> D).
Proof using. intros H HX j. unfold cur. destruct (decide (j = k)) as [->|Hj]; [by rewrite lookup_insert_eq|]. rewrite lookup_insert_ne by done. apply H. Qed.

Lemma within_upd U D k X : within U D -> X ⊆ U -> within U (upd D k X).
Proof using.
  intros H HX. unfold upd. case_decide; [|by apply within_insert]. intros j. unfold cur. destruct (decide (j = k)) as [->|Hj]; [rewrite lookup_delete_eq; apply empty_subseteq|]. rewrite lookup_delete_ne by done. apply H.
Qed.

Lemma inter_within U D k ks : within U D -> inter_of D k ks ⊆ U.
Proof using. intros H. unfold inter_of. destruct ks as [|j ks]; cbn [foldr]; [apply H|]. intros x Hx. apply elem_of_intersection in Hx as [Hx _]. by apply (H j). Qed.

Lemma give_within U D dst R : within U D -> R ⊆ U -> within U (fst (give D dst R)).
Proof using. intros H HR. destruct dst; [by apply within_upd|done]. Qed.

Lemma spec_within U D c : within U D -> within (added c ∪ U) (fst (spec D c)).
Proof using.
  intros H. assert (within (added c ∪ U) D) as H' by (intros k x Hx; apply elem_of_union; right; by apply (H k)). destruct c as [k ele eles|k eles|src dst ele| | | |dst k ks|limit k ks|dst k ks|dst k ks]; cbn [spec added] in *; try done.
  - destruct (wrong D k); [done|]. cbn [fst]. apply within_insert; [done|]. intros x Hx. apply elem_of_union in Hx as [Hx|Hx]; apply elem_of_union; [by left|right; by apply (H k)].
  - destruct (wrong D k); [done|]. apply within_upd; [done|]. intros x Hx. apply elem_of_difference in Hx as [Hx _]. by apply (H' k).
  - destruct (D !! src); [|done]. destruct (_ || _); [done|]. destruct (decide (ele ∈ cur D src)); [|done]. cbn [fst]. destruct (decide (src = dst)); [done|].
    apply within_insert; [apply within_upd; [done|]; intros x Hx; apply elem_of_difference in Hx as [Hx _]; by apply (H' src)|]. intros x Hx. apply elem_of_union in Hx as [Hx|Hx]; [apply elem_of_union; by left|by apply (H' dst)].
  - destruct (existsb _ _); [done|]. apply give_within; [done|by apply inter_within].
  - destruct (existsb _ _); [done|]. apply give_within; [done|by apply union_within].
  - destruct (existsb _ _); [done|]. apply give_within; [done|]. intros x Hx. unfold diff_of in Hx. apply elem_of_difference in Hx as [Hx _]. by apply (H' k).
Qed.

Lemma exec_right D st c U : abs (db st) D -> no_empty D -> within U D -> Z.of_nat (size U) < 2 ^ 31 -> cmd_ok c -> done_right D st c.
Proof using DTok Hqsort Husable Hconf.
  intros Ha Hne HU Hn Hok. destruct c; [by apply sadd_right|by apply srem_right|by apply smove_right|by apply sismember_right|by apply smismember_right|by apply scard_right|by apply sinter_right|by apply sintercard_right|by apply (sunion_right _ _ _ _ _ U)|by apply (sdiff_right _ _ _ _ _ U)].
Qed.

(** Each command in turn is served as the specification says. *)
Fixpoint served (D : adb) (st : state) (cs : list cmd) : Prop :=
  match cs with
  | [] => True
  | c :: cs => exists st' r, exec st c = Ret (st', r) /\ snd (spec D c) r /\ tells D (fst (spec D c)) st st' /\ served (fst (spec D c)) st' cs
  end.

Lemma total_added_nonneg cs : 0 <= total_added cs.
Proof using. unfold total_added. induction cs as [|c cs IH]; cbn [foldr]; lia. Qed.

Lemma all_served cs D st U : abs (db st) D -> no_empty D -> within U D -> Forall cmd_ok cs -> Z.of_nat (size U) + total_added cs < 2 ^ 31 -> served D st cs.
Proof using DTok Hqsort Husable Hconf.
  revert D st U. induction cs as [|c cs IH]; intros D st U Ha Hne HU Hok Hn; [done|]. apply Forall_cons in Hok as [Hc Hok]. unfold total_added in Hn. cbn [foldr] in Hn. fold (total_added cs) in Hn.
  pose proof (total_added_nonneg cs) as Hnn. destruct (exec_right D st c U Ha Hne HU ltac:(lia) Hc) as (st' & r & E & Ht & Hs).
  exists st', r. split; [done|]. split; [done|]. split; [done|]. apply (IH _ _ (added c ∪ U)); [apply Ht|by apply spec_no_empty|by apply spec_within|done|]. pose proof (size_union_alt (added c) U) as Eu. assert (size (U ∖ added c) <= size U)%nat by (apply subseteq_size; intros x Hx; by apply elem_of_difference in Hx as [? _]). lia.
Qed.

(** A database where the keys [K] hold values of other types. *)
Definition start (K : gset (list Z)) : state := State (gset_to_gmap VOther K) 0 [].
Definition astart (K : gset (list Z)) : adb := gset_to_gmap AOther K.

Lemma start_ok K : abs (db (start K)) (astart K) /\ no_empty (astart K).
Proof using.
  split; intros k; cbn; unfold astart; rewrite ?lookup_gset_to_gmap; destruct (decide (k ∈ K)) as [H|H]; rewrite ?option_guard_True, ?option_guard_False by done; done.
Qed.
End Spec.


(** C8: the set commands are set algebra.  On a database where any keys hold values of
    other types, every sequence of SADD, SREM, SMOVE, SISMEMBER, SMISMEMBER, SCARD,
    SINTER, SINTERCARD, SUNION, SDIFF and the variants with a destination runs without
    failing an assertion, in whatever encodings the sets are, also when one key is given
    several times or is the destination too.  Each command replies what the same
    operation on finite sets gives, whichever algorithm and order of the sets it picks;
    the result is what the keys then hold, and no key is left with an empty set.  Every
    key whose value changed is signalled, and every change counts in [dirty].  Fewer than
    2^31 members are added in all, since a union is counted in an [int]; limits of
    SINTERCARD are given as numbers, and set-max-intset-entries is below 2^29 - 1. *)
Theorem set_commands `{DTok : DictTypeOk (list Z)} server fresh usable dict_can_resize address qsort K cs :
  (forall n, (n <= usable n)%nat) -> config_ok server -> (forall A (f : A -> Z) l, qsort A f l ≡ₚ l) -> Forall cmd_ok cs -> total_added cs < 2 ^ 31 ->
  served server fresh usable dict_can_resize address qsort (astart K) (start K) cs.
Proof.
  intros Hu Hc Hq Hok Hn. destruct (start_ok server K) as [Ha Hne]. apply (all_served _ _ _ _ _ _ Hu Hc Hq cs _ _ ∅); try done. intros k x. unfold cur, astart. rewrite lookup_gset_to_gmap. destruct (decide (k ∈ K)); [by rewrite option_guard_True|by rewrite option_guard_False].
Qed.

(** ** Witness *)

Fixpoint insert_by {A} (f : A -> Z) (x : A) (l : list A) : list A :=
  match l with [] => [x] | y :: l => if f x <=? f y then x :: y :: l else y :: insert_by f x l end.
Definition sort_by A (f : A -> Z) (l : list A) : list A := foldr (insert_by f) [] l.

Lemma insert_by_perm {A} (f : A -> Z) x l : insert_by f x l ≡ₚ x :: l.
Proof. induction l as [|y l IH]; cbn [insert_by]; [done|]. destruct (_ <=? _); [done|]. rewrite IH. apply Permutation_swap. Qed.

Lemma sort_by_perm A (f : A -> Z) l : sort_by A f l ≡ₚ l.
Proof. induction l as [|x l IH]; [done|]. cbn. rewrite insert_by_perm. by apply Permutation_skip. Qed.

Definition ex_cmds : list cmd :=
  [CAdd (chars "a") (chars "1") [chars "2"; chars "x"]; CAdd (chars "b") (chars "2") [chars "3"]; CInter None (chars "a") [chars "b"; chars "a"];
   CUnion (Some (chars "a")) (chars "a") [chars "b"; chars "none"]; CDiff (Some (chars "c")) (chars "a") [chars "b"]; CMove (chars "c") (chars "b") (chars "x");
   CCard (chars "s"); CInterCard (Some 1) (chars "a") [chars "b"]; CRem (chars "c") [chars "1"]].

Fixpoint replies (st : state) (cs : list cmd) : outcome (list reply) :=
  match cs with
  | [] => Ret []
  | c :: cs => let* (st, r) := exec small_config (fun _ => 0) id DICT_RESIZE_ENABLE (fun _ => 0) sort_by st c in let* rs := replies st cs in Ret (r :: rs)
  end.

Lemma set_commands_witness :
  replies (start {[chars "s"]}) ex_cmds =
    Ret [RLong 3; RLong 2; RSet 1 [chars "2"]; RLong 4; RLong 2; RLong 1; RWrongType; RLong 1; RLong 1] /\
  served small_config (fun _ => 0) id DICT_RESIZE_ENABLE (fun _ => 0) sort_by (astart {[chars "s"]}) (start {[chars "s"]}) ex_cmds.
Proof.
  split; [vm_compute; reflexivity|]. apply set_commands; [intros n; exact (le_n n)|unfold config_ok; cbn; lia|exact sort_by_perm| |vm_compute; reflexivity].
  repeat constructor; vm_compute; (done || intros; discriminate).
Defined.

End TSetCmdSpec.
