(* ===== verification/Quicklist.v ===== *)
(** * Quicklist: lists as chains of packed lists (quicklist.c)

    A quicklist is a chain of nodes; a node holds a listpack, or one large element as it
    is (PLAIN), as bytes or compressed with LZF.  The chain of [prev] and [next] pointers
    is the list of its nodes; a pointer to a node is the number it got when it was
    allocated, and following one that is not in the chain is [Abort], as is reading a
    compressed node as a listpack.  The counters [count] of the nodes are 16 bits wide.
    Bookmarks, which only defragmentation uses, are left out. *)
From S2P Require Import Prelude NumStr Lzf LpEntry Listpack LpBulk StrObj.
Import NumStr LpEntry Listpack LpBulk.

Module Quicklist.

Definition SIZE_SAFETY_LIMIT : Z := 8192.
Definition SIZE_ESTIMATE_OVERHEAD : Z := 8.
Definition MIN_COMPRESS_BYTES : Z := 48.
Definition MIN_COMPRESS_IMPROVE : Z := 8.
Definition COMPRESS_MAX : Z := 2 ^ 16 - 1.
Definition FILL_MAX : Z := 2 ^ 15 - 1.
Definition optimization_level : list Z := [4096; 8192; 16384; 32768; 65536].

(** [node->entry] with [node->encoding]. *)
Inductive data := Raw (entry : list Z) | LZF (compressed : list Z).
Inductive container := PLAIN | PACKED.

Record quicklistNode := Node {
  nid : nat;
  entry : data;
  sz : Z;
  count : Z;
  kind : container;
  recompress : bool;
  dont_compress : bool
}.

Record quicklist := Quicklist_ {
  nodes : list quicklistNode;
  total_count : Z;
  len : Z;
  fill : Z;
  compress : Z;
  next_nid : nat
}.

Definition set_nodes (q : quicklist) (l : list quicklistNode) : quicklist := Quicklist_ l (total_count q) (len q) (fill q) (compress q) (next_nid q).
Definition add_count (q : quicklist) (n : Z) : quicklist := Quicklist_ (nodes q) (total_count q + n) (len q) (fill q) (compress q) (next_nid q).
Definition add_len (q : quicklist) (n : Z) : quicklist := Quicklist_ (nodes q) (total_count q) (len q + n) (fill q) (compress q) (next_nid q).
Definition set_entry (n : quicklistNode) (e : data) : quicklistNode := Node (nid n) e (sz n) (count n) (kind n) (recompress n) (dont_compress n).
Definition set_sz (n : quicklistNode) (z : Z) : quicklistNode := Node (nid n) (entry n) z (count n) (kind n) (recompress n) (dont_compress n).
Definition set_count (n : quicklistNode) (c : Z) : quicklistNode := Node (nid n) (entry n) (sz n) (wrap 16 c) (kind n) (recompress n) (dont_compress n).
Definition set_kind (n : quicklistNode) (k : container) : quicklistNode := Node (nid n) (entry n) (sz n) (count n) k (recompress n) (dont_compress n).
Definition set_recompress (n : quicklistNode) (b : bool) : quicklistNode := Node (nid n) (entry n) (sz n) (count n) (kind n) b (dont_compress n).
Definition set_dont_compress (n : quicklistNode) (b : bool) : quicklistNode := Node (nid n) (entry n) (sz n) (count n) (kind n) (recompress n) b.

Definition is_plain (n : quicklistNode) : bool := match kind n with PLAIN => true | PACKED => false end.
Definition is_lzf (n : quicklistNode) : bool := match entry n with LZF _ => true | Raw _ => false end.

(** ** The chain *)

Fixpoint find_node (p : nat) (l : list quicklistNode) : outcome nat :=
  match l with
  | [] => Abort
  | n :: l => if (nid n =? p)%nat then Ret 0%nat else let* i := find_node p l in Ret (S i)
  end.

Definition node (q : quicklist) (p : nat) : outcome quicklistNode :=
  let* i := find_node p (nodes q) in match nodes q !! i with Some n => Ret n | None => Abort end.
Definition head (q : quicklist) : option nat := nid <$> List.head (nodes q).
Definition tail (q : quicklist) : option nat := nid <$> last (nodes q).
Definition next (q : quicklist) (p : nat) : outcome (option nat) :=
  let* i := find_node p (nodes q) in Ret (nid <$> nodes q !! S i).
Definition prev (q : quicklist) (p : nat) : outcome (option nat) :=
  let* i := find_node p (nodes q) in Ret (match i with O => None | S j => nid <$> nodes q !! j end).

(** [*p = n]. *)
Definition set_node (q : quicklist) (p : nat) (n : quicklistNode) : outcome quicklist :=
  let* i := find_node p (nodes q) in Ret (set_nodes q (<[i := n]> (nodes q))).

Definition update (q : quicklist) (p : nat) (f : quicklistNode -> quicklistNode) : outcome quicklist :=
  let* n := node q p in set_node q p (f n).

(** ** Creation *)

Definition quicklistCreate : quicklist := Quicklist_ [] 0 0 (-2) 0 0.

Definition quicklistSetCompressDepth (q : quicklist) (depth : Z) : quicklist :=
  let depth := if COMPRESS_MAX <? depth then COMPRESS_MAX else if depth <? 0 then 0 else depth in
  Quicklist_ (nodes q) (total_count q) (len q) (fill q) depth (next_nid q).

Definition quicklistSetFill (q : quicklist) (f : Z) : quicklist :=
  let f := if FILL_MAX <? f then FILL_MAX else if f <? -5 then -5 else f in
  Quicklist_ (nodes q) (total_count q) (len q) f (compress q) (next_nid q).

Definition quicklistSetOptions (q : quicklist) (f depth : Z) : quicklist := quicklistSetCompressDepth (quicklistSetFill q f) depth.
Definition quicklistNew (f depth : Z) : quicklist := quicklistSetOptions quicklistCreate f depth.

(** The node and the quicklist with the next number to give; the node is not in the chain yet. *)
Definition quicklistCreateNode (q : quicklist) : quicklistNode * quicklist :=
  (Node (next_nid q) (Raw []) 0 0 PACKED false false,
   Quicklist_ (nodes q) (total_count q) (len q) (fill q) (compress q) (S (next_nid q))).

(** ** Limits *)

Section Ops.
Context (fresh : nat -> Z) (usable : nat -> nat).
(** The address of a buffer that is compressed, and what is left in the hash table of the compressor. *)
Context (base : list Z -> Z) (htab : list Z -> Z -> Z).
(** [packed_threshold], which only a debugging command sets. *)
Context (packed_threshold : Z).

Definition sizeMeetsSafetyLimit (z : Z) : bool := z <=? SIZE_SAFETY_LIMIT.

Definition quicklistNodeNegFillLimit (f : Z) : Z :=
  let offset := - f - 1 in
  let max_level := Z.of_nat (length optimization_level) in
  let offset := if max_level <=? offset then max_level - 1 else offset in
  nth (Z.to_nat offset) optimization_level 0.

(** The size limit ([None] is SIZE_MAX) and the count limit. *)
Definition quicklistNodeLimit (f : Z) : option Z * option Z :=
  if 0 <=? f then (None, Some (if f =? 0 then 1 else f)) else (Some (quicklistNodeNegFillLimit f), None).

Definition quicklistNodeExceedsLimit (f new_sz new_count : Z) : bool :=
  match quicklistNodeLimit f with
  | (Some sz_limit, _) => sz_limit <? new_sz
  | (None, Some count_limit) => if negb (sizeMeetsSafetyLimit new_sz) then true else count_limit <? new_count
  | (None, None) => true
  end.

Definition isLargeElement (z f : Z) : bool :=
  if negb (packed_threshold =? 0) then packed_threshold <=? z
  else if 0 <=? f then negb (sizeMeetsSafetyLimit z)
  else quicklistNodeNegFillLimit f <? z.

Definition _quicklistNodeAllowInsert (n : option quicklistNode) (f z : Z) : bool :=
  match n with
  | None => false
  | Some n =>
      if is_plain n || isLargeElement z f then false
      else negb (quicklistNodeExceedsLimit f (sz n + z + SIZE_ESTIMATE_OVERHEAD) (count n + 1))
  end.

(** [merge_sz] is an [unsigned int]. *)
Definition _quicklistNodeAllowMerge (a b : option quicklistNode) (f : Z) : bool :=
  match a, b with
  | Some a, Some b =>
      if is_plain a || is_plain b then false
      else negb (quicklistNodeExceedsLimit f (u32 (sz a + sz b - 7)) (count a + count b))
  | _, _ => false
  end.

(** ** Compression *)

(** The node is in the chain: it must have neighbours. *)
Definition __quicklistCompressNode (q : quicklist) (p : nat) : outcome quicklist :=
  let* n := node q p in
  if dont_compress n then Ret q else
  let* pr := prev q p in
  let* nx := next q p in
  match pr, nx with
  | Some _, Some _ =>
      let n := set_recompress n false in
      let* q := set_node q p n in
      if sz n <? MIN_COMPRESS_BYTES then Ret q else
      match entry n with
      | LZF _ => Abort
      | Raw b =>
          if Z.of_nat (length b) <? sz n then Abort else
          let input := take (Z.to_nat (sz n)) b in
          let* r := Lzf.lzf_compress input (base input) (htab input) (map fresh (seq 0 (Z.to_nat (sz n)))) in
          match r with
          | None => Ret q
          | Some (out, m) =>
              if sz n <=? m + MIN_COMPRESS_IMPROVE then Ret q
              else set_node q p (set_entry n (LZF (take (Z.to_nat m) out)))
          end
      end
  | _, _ => Abort
  end.

Definition quicklistCompressNode (q : quicklist) (p : option nat) : outcome quicklist :=
  match p with
  | None => Ret q
  | Some p => let* n := node q p in if is_lzf n then Ret q else __quicklistCompressNode q p
  end.

(** A node that does not decompress stays as it is. *)
Definition __quicklistDecompressNode (n : quicklistNode) : outcome quicklistNode :=
  let n := set_recompress n false in
  match entry n with
  | Raw _ => Abort
  | LZF c =>
      let* r := Lzf.lzf_decompress c (map fresh (seq 0 (Z.to_nat (sz n)))) in
      match r with
      | None => Ret n
      | Some (out, _) => Ret (set_entry n (Raw out))
      end
  end.

Definition quicklistDecompressNode (q : quicklist) (p : nat) : outcome quicklist :=
  let* n := node q p in
  if is_lzf n then let* n := __quicklistDecompressNode n in set_node q p n else Ret q.

Definition quicklistDecompressNodeForUse (q : quicklist) (p : nat) : outcome quicklist :=
  let* n := node q p in
  if is_lzf n then let* n := __quicklistDecompressNode n in set_node q p (set_recompress n true) else Ret q.

Definition quicklistAllowsCompression (q : quicklist) : bool := negb (compress q =? 0).

(** The loop over the depth: the pointers past it, or [None] when the two sides met;
    and whether the node was seen. *)
Fixpoint compress_depth (depth : nat) (q : quicklist) (p : option nat) (forward reverse : nat) (in_depth : bool) : outcome (quicklist * option (nat * nat) * bool) :=
  match depth with
  | O => Ret (q, Some (forward, reverse), in_depth)
  | S depth =>
      let* q := quicklistDecompressNode q forward in
      let* q := quicklistDecompressNode q reverse in
      let in_depth := in_depth || bool_decide (p = Some forward) || bool_decide (p = Some reverse) in
      let* nx := next q forward in
      if (forward =? reverse)%nat || bool_decide (nx = Some reverse) then Ret (q, None, in_depth) else
      let* pr := prev q reverse in
      match nx, pr with
      | Some forward, Some reverse => compress_depth depth q p forward reverse in_depth
      | _, _ => Abort
      end
  end.

Definition __quicklistCompress (q : quicklist) (p : option nat) : outcome quicklist :=
  if len q =? 0 then Ret q else
  match head q, tail q with
  | Some h, Some t =>
      let* hn := node q h in
      let* tn := node q t in
      if recompress hn || recompress tn then Abort else
      if negb (quicklistAllowsCompression q) || (len q <? compress q * 2) then Ret q else
      let* (r, in_depth) := compress_depth (Z.to_nat (compress q)) q p h t false in
      let '(q, ends) := r in
      match ends with
      | None => Ret q
      | Some (forward, reverse) =>
          let* q := if in_depth : bool then Ret q else quicklistCompressNode q p in
          let* q := quicklistCompressNode q (Some forward) in
          quicklistCompressNode q (Some reverse)
      end
  | _, _ => Abort
  end.

Definition quicklistCompress (q : quicklist) (p : nat) : outcome quicklist :=
  let* n := node q p in
  if recompress n then quicklistCompressNode q (Some p) else __quicklistCompress q (Some p).

Definition quicklistRecompressOnly (q : quicklist) (p : nat) : outcome quicklist :=
  let* n := node q p in
  if recompress n then quicklistCompressNode q (Some p) else Ret q.

(** ** Nodes in the chain *)

(** With [old_node] NULL the chain must be empty for the new node to be in it. *)
Definition __quicklistInsertNode (q : quicklist) (old_node : option nat) (new_node : quicklistNode) (after : bool) : outcome quicklist :=
  let* l := match old_node with
            | None => match nodes q with [] => Ret [new_node] | _ => Abort end
            | Some p => let* i := find_node p (nodes q) in
                        let i := if after then S i else i in
                        Ret (take i (nodes q) ++ new_node :: drop i (nodes q))
            end in
  let q := add_len (set_nodes q l) 1 in
  let* q := match old_node with Some p => quicklistCompress q p | None => Ret q end in
  quicklistCompress q (nid new_node).

Definition _quicklistInsertNodeBefore (q : quicklist) (old_node : option nat) (new_node : quicklistNode) := __quicklistInsertNode q old_node new_node false.
Definition _quicklistInsertNodeAfter (q : quicklist) (old_node : option nat) (new_node : quicklistNode) := __quicklistInsertNode q old_node new_node true.

Definition __quicklistDelNode (q : quicklist) (p : nat) : outcome quicklist :=
  let* n := node q p in
  let* i := find_node p (nodes q) in
  let q := add_count (add_len (set_nodes q (take i (nodes q) ++ drop (S i) (nodes q))) (-1)) (- count n) in
  __quicklistCompress q None.

(** The listpack of a node that is not compressed. *)
Definition raw (n : quicklistNode) : outcome (list Z) := match entry n with Raw b => Ret b | LZF _ => Abort end.

(** A listpack that is not NULL, in its node, with the new size. *)
Definition put_lp (n : quicklistNode) (lp : list Z) : quicklistNode := set_sz (set_entry n (Raw lp)) (lpBytes lp).

Definition not_null {A} (r : outcome (option A)) : outcome A := let* r := r in match r with Some a => Ret a | None => Abort end.

Definition __quicklistCreateNode (q : quicklist) (k : container) (value : list Z) : outcome (quicklistNode * quicklist) :=
  let '(n, q) := quicklistCreateNode q in
  let n := set_kind n k in
  let* e := match k with
            | PLAIN => Ret value
            | PACKED => let* (lp, _) := not_null (lpPrepend fresh usable (lpNew fresh usable 0) value) in Ret lp
            end in
  Ret (set_count (set_sz (set_entry n (Raw e)) (Z.of_nat (length value))) 1, q).

Definition __quicklistInsertPlainNode (q : quicklist) (old_node : option nat) (value : list Z) (after : bool) : outcome quicklist :=
  let* (n, q) := __quicklistCreateNode q PLAIN value in
  let* q := __quicklistInsertNode q old_node n after in
  Ret (add_count q 1).

(** ** Pushing *)

(** The node a pointer may point to. *)
Definition node_of (q : quicklist) (p : option nat) : outcome (option quicklistNode) :=
  match p with None => Ret None | Some p => let* n := node q p in Ret (Some n) end.

(** [lpPrepend] or [lpAppend] into the listpack of a node. *)
Definition push_lp (at_head : bool) (lp value : list Z) : outcome (list Z) :=
  let* (lp, _) := not_null (if at_head then lpPrepend fresh usable lp value else lpAppend fresh usable lp value) in Ret lp.

(** A new node with one element. *)
Definition new_lp_node (q : quicklist) (at_head : bool) (value : list Z) : outcome (quicklistNode * quicklist) :=
  let '(n, q) := quicklistCreateNode q in
  let* lp := push_lp at_head (lpNew fresh usable 0) value in
  Ret (put_lp n lp, q).

(** [quicklistPushHead], or [quicklistPushTail] at the other end. *)
Definition push_end (at_head : bool) (q : quicklist) (value : list Z) : outcome quicklist :=
  let z := Z.of_nat (length value) in
  let end_ q := if at_head : bool then head q else tail q in
  if isLargeElement z (fill q) then __quicklistInsertPlainNode q (end_ q) value (negb at_head) else
  let* h := node_of q (end_ q) in
  let* q :=
    match h with
    | Some n =>
        if _quicklistNodeAllowInsert (Some n) (fill q) z then
          let* lp := raw n in
          let* lp := push_lp at_head lp value in
          set_node q (nid n) (put_lp n lp)
        else let* (n, q) := new_lp_node q at_head value in __quicklistInsertNode q (end_ q) n (negb at_head)
    | None => let* (n, q) := new_lp_node q at_head value in __quicklistInsertNode q (end_ q) n (negb at_head)
    end in
  let q := add_count q 1 in
  match end_ q with None => Abort | Some p => update q p (fun n => set_count n (count n + 1)) end.

Definition quicklistPushHead := push_end true.
Definition quicklistPushTail := push_end false.

Definition quicklistAppendListpack (q : quicklist) (zl : list Z) : outcome quicklist :=
  let '(n, q) := quicklistCreateNode q in
  let* (c, zl) := lpLength zl in
  let n := set_sz (set_count (set_entry n (Raw zl)) c) (lpBytes zl) in
  let* q := _quicklistInsertNodeAfter q (tail q) n in
  Ret (add_count q (count n)).

Definition quicklistAppendPlainNode (q : quicklist) (bytes_ : list Z) : outcome quicklist :=
  let '(n, q) := quicklistCreateNode q in
  let n := set_kind (set_sz (set_count (set_entry n (Raw bytes_)) 1) (Z.of_nat (length bytes_))) PLAIN in
  let* q := _quicklistInsertNodeAfter q (tail q) n in
  Ret (add_count q (count n)).

(** ** Deleting one element *)

(** Whether the node is gone, and [*p]. *)
Definition quicklistDelIndex (q : quicklist) (p : nat) (zi : nat) : outcome (quicklist * bool * option nat) :=
  let* n := node q p in
  if is_plain n then let* q := __quicklistDelNode q p in Ret (q, true, Some zi) else
  let* lp := raw n in
  let* (lp, zi) := not_null (lpDelete fresh usable lp zi) in
  let n := set_count (set_entry n (Raw lp)) (count n - 1) in
  let* q := set_node q p n in
  if count n =? 0 then let* q := __quicklistDelNode q p in Ret (add_count q (-1), true, zi)
  else let* q := set_node q p (put_lp n lp) in Ret (add_count q (-1), false, zi).

(** ** Iterators *)

Record quicklistIter := Iter { current : option nat; it_zi : option nat; it_offset : Z; from_head : bool }.
Record quicklistEntry := Entry { e_node : option nat; e_zi : option nat; e_value : listpackEntry; e_offset : Z }.

Definition resetIterator (it : quicklistIter) : quicklistIter := Iter None None (it_offset it) (from_head it).

Definition quicklistGetIterator (q : quicklist) (direction : bool) : quicklistIter :=
  if direction then Iter (head q) None 0 true else Iter (tail q) None (-1) false.

Definition quicklistSetDirection (it : quicklistIter) (direction : bool) : quicklistIter := Iter (current it) (it_zi it) (it_offset it) direction.

(** The node that holds the element [seek_index], and the number of elements passed. *)
Fixpoint seek (fuel : nat) (q : quicklist) (seek_forward : bool) (seek_index : Z) (n : option nat) (accum : Z) : outcome (option (nat * Z)) :=
  match n with
  | None => Ret None
  | Some p =>
      let* nd := node q p in
      if seek_index <? accum + count nd then Ret (Some (p, accum)) else
      match fuel with
      | O => Abort
      | S fuel =>
          let* n := if seek_forward then next q p else prev q p in
          seek fuel q seek_forward seek_index n (accum + count nd)
      end
  end.

Definition quicklistGetIteratorAtIdx (q : quicklist) (direction : bool) (idx : Z) : outcome (option quicklistIter) :=
  let forward := negb (idx <? 0) in
  let index := if forward then idx else - idx - 1 in
  if total_count q <=? index then Ret None else
  let '(seek_forward, seek_index) :=
    if (total_count q - 1) / 2 <? index then (negb forward, total_count q - 1 - index) else (forward, index) in
  let* r := seek (length (nodes q)) q seek_forward seek_index (if seek_forward : bool then head q else tail q) 0 in
  match r with
  | None => Ret None
  | Some (p, accum) =>
      let* n := node q p in
      let accum := if bool_decide (seek_forward = forward) then accum else total_count q - count n - accum in
      let it := quicklistGetIterator q direction in
      Ret (Some (Iter (Some p) (it_zi it) (if forward then index - accum else - index - 1 + accum) direction))
  end.

Definition quicklistReleaseIterator (q : quicklist) (it : quicklistIter) : outcome quicklist :=
  match current it with Some p => quicklistCompress q p | None => Ret q end.

(** The entry when the return value is 1. *)
Fixpoint next_entry (fuel : nat) (q : quicklist) (it : quicklistIter) : outcome (quicklist * quicklistIter * option quicklistEntry) :=
  match fuel with
  | O => Abort
  | S fuel =>
      match current it with
      | None => Ret (q, it, None)
      | Some p =>
          let* n := node q p in
          let plain := is_plain n in
          let* (r, offset) :=
            match it_zi it with
            | None =>
                let* q := quicklistDecompressNodeForUse q p in
                let* n := node q p in
                let* lp := raw n in
                let* zi := if plain then Ret (Some 0%nat) else lpSeek lp (it_offset it) in
                Ret (q, zi, it_offset it)
            | Some zi =>
                if plain then Ret (q, None, it_offset it) else
                let* lp := raw n in
                let* zi := if from_head it then lpNext lp zi else lpPrev lp zi in
                Ret (q, zi, it_offset it + (if from_head it then 1 else -1))
            end in
          let '(q, zi) := r in
          let* n := node q p in
          match zi with
          | Some zi =>
              let* b := raw n in
              let v := if plain then SVal (take (Z.to_nat (sz n)) b) else lpGetValue b zi in
              Ret (q, Iter (Some p) (Some zi) offset (from_head it), Some (Entry (Some p) (Some zi) v offset))
          | None =>
              let* q := quicklistCompress q p in
              let* c := if from_head it then next q p else prev q p in
              next_entry fuel q (Iter c None (if from_head it then 0 else -1) (from_head it))
          end
      end
  end.

Definition quicklistNext (q : quicklist) (it : quicklistIter) : outcome (quicklist * quicklistIter * option quicklistEntry) :=
  next_entry (2 + length (nodes q)) q it.

Definition quicklistGetIteratorEntryAtIdx (q : quicklist) (idx : Z) : outcome (quicklist * option (quicklistIter * quicklistEntry)) :=
  let* it := quicklistGetIteratorAtIdx q false idx in
  match it with
  | None => Ret (q, None)
  | Some it =>
      let* (r, e) := quicklistNext q it in
      match e with Some e => Ret (fst r, Some (snd r, e)) | None => Abort end
  end.

Definition quicklistDelEntry (q : quicklist) (it : quicklistIter) (e : quicklistEntry) : outcome (quicklist * quicklistIter) :=
  match e_node e, e_zi e with
  | Some p, Some zi =>
      let* pr := prev q p in
      let* nx := next q p in
      let* (r, _) := quicklistDelIndex q p zi in
      let '(q, deleted_node) := r in
      let it := Iter (current it) None (it_offset it) (from_head it) in
      Ret (q, if deleted_node : bool then if from_head it then Iter nx None 0 true else Iter pr None (-1) false else it)
  | _, _ => Abort
  end.

Definition quicklistCompare (q : quicklist) (e : quicklistEntry) (p2 : list Z) : outcome bool :=
  match e_node e, e_zi e with
  | Some p, Some zi =>
      let* n := node q p in
      if is_plain n then Ret (match e_value e with SVal s => bool_decide (s = p2) | LVal _ => false end)
      else let* lp := raw n in Ret (lpCompare lp zi p2)
  | _, _ => Abort
  end.

(** ** Merging and splitting *)

(** The node that is kept. *)
Definition _quicklistListpackMerge (q : quicklist) (a b : nat) : outcome (quicklist * option nat) :=
  let* q := quicklistDecompressNode q a in
  let* q := quicklistDecompressNode q b in
  let* na := node q a in
  let* nb := node q b in
  let* la := raw na in
  let* lb := raw nb in
  let* r := lpMerge fresh usable (Some la) (Some lb) (a =? b)%nat in
  match r with
  | None => Ret (q, None)
  | Some (lp, first) =>
      let '(keep, nokeep) := if first : bool then (a, b) else (b, a) in
      let* (c, lp) := lpLength lp in
      let* q := update q keep (fun n => set_recompress (put_lp (set_count n c) lp) false) in
      let* q := update q nokeep (fun n => set_count n 0) in
      let* q := __quicklistDelNode q nokeep in
      let* q := quicklistCompress q keep in
      Ret (q, Some keep)
  end.

Definition try_merge (q : quicklist) (a b : option nat) : outcome (quicklist * option nat * bool) :=
  let* na := node_of q a in
  let* nb := node_of q b in
  match a, b with
  | Some a, Some b =>
      if _quicklistNodeAllowMerge na nb (fill q) then let* (q, r) := _quicklistListpackMerge q a b in Ret (q, r, true) else Ret (q, None, false)
  | _, _ => Ret (q, None, false)
  end.

Definition opt_step (f : nat -> outcome (option nat)) (p : option nat) : outcome (option nat) := match p with Some p => f p | None => Ret None end.

Definition _quicklistMergeNodes (q : quicklist) (center : nat) : outcome (quicklist * nat) :=
  let* pr := prev q center in
  let* pp := opt_step (prev q) pr in
  let* nx := next q center in
  let* nn := opt_step (next q) nx in
  let* (r, _) := try_merge q pp pr in
  let '(q, _) := r in
  let* (r, _) := try_merge q nx nn in
  let '(q, _) := r in
  let* pr := prev q center in
  let* (r, merged) := try_merge q pr (Some center) in
  let '(q, target) := r in
  let* target := if merged : bool then match target with Some t => Ret t | None => Abort end else Ret center in
  let* nx := next q target in
  let* (r, merged) := try_merge q (Some target) nx in
  let '(q, t) := r in
  let* target := if merged : bool then match t with Some t => Ret t | None => Abort end else Ret target in
  Ret (q, target).

(** An extent below zero is one that reaches the end; no listpack has more elements than bytes. *)
Definition lp_delete_range (lp : list Z) (start extent : Z) : outcome (list Z) :=
  lpDeleteRange fresh usable lp start (if extent <? 0 then length lp else Z.to_nat extent).

(** The node and the new one, which is not in the chain. *)
Definition _quicklistSplitNode (q : quicklist) (p : nat) (offset : Z) (after : bool) : outcome (quicklist * quicklistNode) :=
  let* n := node q p in
  let* lp := raw n in
  let '(new, q) := quicklistCreateNode q in
  let copy := take (Z.to_nat (sz n)) lp in
  let offset := if offset <? 0 then count n + offset else offset in
  let* lp := lp_delete_range lp (if after then offset + 1 else 0) (if after then -1 else offset) in
  let* (c, lp) := lpLength lp in
  let* q := set_node q p (put_lp (set_count n c) lp) in
  let* copy := lp_delete_range copy (if after then 0 else offset) (if after then offset + 1 else -1) in
  let* (c, copy) := lpLength copy in
  Ret (q, put_lp (set_count new c) copy).

(** ** Inserting next to an element *)

(** [node->count++] with the new listpack. *)
Definition put_more (n : quicklistNode) (lp : list Z) : quicklistNode := put_lp (set_count n (count n + 1)) lp.

Definition insert_large (q : quicklist) (p : nat) (n : quicklistNode) (e : quicklistEntry) (value : list Z) (after at_end : bool) : outcome quicklist :=
  if is_plain n || at_end then __quicklistInsertPlainNode q (Some p) value after else
  let* q := quicklistDecompressNodeForUse q p in
  let* (q, new_node) := _quicklistSplitNode q p (e_offset e) after in
  let* (entry_node, q) := __quicklistCreateNode q PLAIN value in
  let* q := __quicklistInsertNode q (Some p) entry_node after in
  let* q := __quicklistInsertNode q (Some (nid entry_node)) new_node after in
  Ret (add_count q 1).

(** Into the listpack of the node itself. *)
Definition insert_here (q : quicklist) (p : nat) (e : quicklistEntry) (value : list Z) (after : bool) : outcome quicklist :=
  let* q := quicklistDecompressNodeForUse q p in
  let* n := node q p in
  let* lp := raw n in
  let* zi := match e_zi e with Some zi => Ret zi | None => Abort end in
  let* (lp, _) := not_null (lpInsertString fresh usable lp value zi (if after then LP_AFTER else LP_BEFORE)) in
  let* q := set_node q p (put_more n lp) in
  quicklistRecompressOnly q p.

(** At the end of the neighbour that has room. *)
Definition insert_neighbour (q : quicklist) (p near : nat) (value : list Z) (after : bool) : outcome quicklist :=
  let* q := quicklistDecompressNodeForUse q near in
  let* n := node q near in
  let* lp := raw n in
  let* lp := push_lp after lp value in
  let* q := set_node q near (put_more n lp) in
  let* q := quicklistRecompressOnly q near in
  quicklistRecompressOnly q p.

Definition insert_new_node (q : quicklist) (p : nat) (value : list Z) (after : bool) : outcome quicklist :=
  let* (n, q) := new_lp_node q true value in
  __quicklistInsertNode q (Some p) (set_count n (count n + 1)) after.

Definition insert_split (q : quicklist) (p : nat) (e : quicklistEntry) (value : list Z) (after : bool) : outcome quicklist :=
  let* q := quicklistDecompressNodeForUse q p in
  let* (q, new_node) := _quicklistSplitNode q p (e_offset e) after in
  let* lp := raw new_node in
  let* lp := push_lp after lp value in
  let* q := __quicklistInsertNode q (Some p) (put_more new_node lp) after in
  let* (q, _) := _quicklistMergeNodes q p in
  Ret q.

Definition _quicklistInsert (q : quicklist) (it : quicklistIter) (e : quicklistEntry) (value : list Z) (after : bool) : outcome (quicklist * quicklistIter) :=
  let z := Z.of_nat (length value) in
  match e_node e with
  | None =>
      if isLargeElement z (fill q) then let* q := __quicklistInsertPlainNode q (tail q) value after in Ret (q, it) else
      let '(n, q) := quicklistCreateNode q in
      let* lp := push_lp true (lpNew fresh usable 0) value in
      let* q := __quicklistInsertNode q None (set_entry n (Raw lp)) after in
      let* q := update q (nid n) (fun n => set_count n (count n + 1)) in
      Ret (add_count q 1, it)
  | Some p =>
      let* n := node q p in
      let full := negb (_quicklistNodeAllowInsert (Some n) (fill q) z) in
      let at_end := if after then (e_offset e =? count n - 1) || (e_offset e =? -1) else (e_offset e =? 0) || (e_offset e =? - count n) in
      let* near := if after then next q p else prev q p in
      let* nd := node_of q near in
      let avail := at_end && _quicklistNodeAllowInsert nd (fill q) z in
      if isLargeElement z (fill q) then let* q := insert_large q p n e value after at_end in Ret (q, it) else
      let* q :=
        if negb full then insert_here q p e value after
        else if at_end then
          match near with
          | Some near => if avail then insert_neighbour q p near value after else insert_new_node q p value after
          | None => insert_new_node q p value after
          end
        else insert_split q p e value after in
      Ret (add_count q 1, resetIterator it)
  end.

Definition quicklistInsertBefore (q : quicklist) (it : quicklistIter) (e : quicklistEntry) (value : list Z) := _quicklistInsert q it e value false.
Definition quicklistInsertAfter (q : quicklist) (it : quicklistIter) (e : quicklistEntry) (value : list Z) := _quicklistInsert q it e value true.

(** ** Replacing *)

Definition replace_split (q : quicklist) (p : nat) (e : quicklistEntry) (value : list Z) : outcome quicklist :=
  let z := Z.of_nat (length value) in
  let* q := update q p (fun n => set_dont_compress n true) in
  let* n := node q p in
  let* (q, split_node) :=
    if negb (e_offset e =? count n - 1) && negb (e_offset e =? -1)
    then let* (q, s) := _quicklistSplitNode q p (e_offset e) true in Ret (q, Some s) else Ret (q, None) in
  let* (new_node, q) := __quicklistCreateNode q (if isLargeElement z (fill q) then PLAIN else PACKED) value in
  let* q := __quicklistInsertNode q (Some p) new_node true in
  let* q := match split_node with Some s => __quicklistInsertNode q (Some (nid new_node)) s true | None => Ret q end in
  let q := add_count q 1 in
  let* n := node q p in
  if count n =? 1 then __quicklistDelNode q p else
  let* lp := raw n in
  let* zi := lpSeek lp (-1) in
  match zi with
  | None => Abort
  | Some zi =>
      let* (r, _) := quicklistDelIndex q p zi in
      let* q := update (fst r) p (fun n => set_dont_compress n false) in
      let* (q, new_node) := _quicklistMergeNodes q (nid new_node) in
      let* q := quicklistCompress q new_node in
      let* pr := prev q new_node in
      let* q := match pr with Some pr => quicklistCompress q pr | None => Abort end in
      let* nx := next q new_node in
      match nx with Some nx => quicklistCompress q nx | None => Ret q end
  end.

Definition quicklistReplaceEntry (q : quicklist) (it : quicklistIter) (e : quicklistEntry) (value : list Z) : outcome (quicklist * quicklistIter) :=
  let z := Z.of_nat (length value) in
  match e_node e, e_zi e with
  | Some p, Some zi =>
      let* n := node q p in
      let* newentry :=
        if is_plain n || isLargeElement z (fill q) then Ret None
        else let* lp := raw n in lpReplace fresh usable lp zi value in
      let* q :=
        match newentry with
        | Some (lp, _) => let* q := set_node q p (put_lp n lp) in quicklistCompress q p
        | None =>
            if is_plain n then
              if isLargeElement z (fill q) then
                let* q := set_node q p (set_sz (set_entry n (Raw value)) z) in quicklistCompress q p
              else
                let* (q, _) := quicklistInsertAfter q it e value in __quicklistDelNode q p
            else replace_split q p e value
        end in
      Ret (q, resetIterator it)
  | _, _ => Abort
  end.

Definition quicklistReplaceAtIndex (q : quicklist) (index : Z) (value : list Z) : outcome (quicklist * bool) :=
  let* (q, r) := quicklistGetIteratorEntryAtIdx q index in
  match r with
  | None => Ret (q, false)
  | Some (it, e) =>
      let* (q, it) := quicklistReplaceEntry q it e value in
      let* q := quicklistReleaseIterator q it in
      Ret (q, true)
  end.

(** ** Deleting a range *)

Definition quicklistDeleteIfEmpty (q : quicklist) (p : nat) : outcome (quicklist * bool) :=
  let* n := node q p in
  if count n =? 0 then let* q := __quicklistDelNode q p in Ret (q, true) else Ret (q, false).

(** How many elements of the node go. *)
Definition to_delete (offset extent c : Z) : Z * bool :=
  if (offset =? 0) && (c <=? extent) then (c, true)
  else if (0 <=? offset) && (c <=? extent + offset) then (c - offset, false)
  else if offset <? 0 then (Z.min (- offset) extent, false)
  else (extent, false).

Fixpoint del_range (fuel : nat) (q : quicklist) (p : option nat) (offset extent : Z) : outcome quicklist :=
  if extent =? 0 then Ret q else
  match fuel, p with
  | S fuel, Some p =>
      let* nx := next q p in
      let* n := node q p in
      let '(del, delete_entire_node) := to_delete offset extent (count n) in
      let* q :=
        if delete_entire_node || is_plain n then __quicklistDelNode q p
        else
          let* q := quicklistDecompressNodeForUse q p in
          let* n := node q p in
          let* lp := raw n in
          let* lp := lp_delete_range lp offset del in
          let* q := set_node q p (set_count (put_lp n lp) (count n - del)) in
          let q := add_count q (- del) in
          let* (q, gone) := quicklistDeleteIfEmpty q p in
          if gone : bool then Ret q else quicklistRecompressOnly q p in
      del_range fuel q nx 0 (extent - del)
  | _, _ => Abort
  end.

Definition quicklistDelRange (q : quicklist) (start cnt : Z) : outcome (quicklist * bool) :=
  if cnt <=? 0 then Ret (q, false) else
  let extent := if (0 <=? start) && (u64 (total_count q - start) <? cnt) then u64 (total_count q - start)
                else if (start <? 0) && (- start <? cnt) then - start else cnt in
  let* it := quicklistGetIteratorAtIdx q false start in
  match it with
  | None => Ret (q, false)
  | Some it =>
      let* q := quicklistReleaseIterator q it in
      let* q := del_range (length (nodes q)) q (current it) (it_offset it) extent in
      Ret (q, true)
  end.

(** ** Copying, rotating, popping *)

Fixpoint dup_nodes (l : list quicklistNode) (copy : quicklist) : outcome quicklist :=
  match l with
  | [] => Ret copy
  | c :: l =>
      let '(n, copy) := quicklistCreateNode copy in
      let e := match entry c with LZF b => LZF b | Raw b => Raw (take (Z.to_nat (sz c)) b) end in
      let n := set_kind (set_sz (set_count (set_entry n e) (count c)) (sz c)) (kind c) in
      let* copy := _quicklistInsertNodeAfter (add_count copy (count n)) (tail copy) n in
      dup_nodes l copy
  end.

Definition quicklistDup (orig : quicklist) : outcome quicklist := dup_nodes (nodes orig) (quicklistNew (fill orig) (compress orig)).

Definition quicklistRotatePlain (q : quicklist) : outcome quicklist :=
  match last (nodes q), removelast (nodes q) with
  | Some t, (_ :: _) as l => Ret (set_nodes q (t :: l))
  | _, _ => Abort
  end.

Definition quicklistRotate (q : quicklist) : outcome quicklist :=
  if total_count q <=? 1 then Ret q else
  match tail q with
  | None => Abort
  | Some t =>
      let* n := node q t in
      if is_plain n then quicklistRotatePlain q else
      let* lp := raw n in
      let* p := lpSeek lp (-1) in
      match p with
      | None => Abort
      | Some p =>
          let value := match lpGetValue lp p with SVal s => s | LVal v => StrObj.printed 32 v end in
          let* q := quicklistPushHead q value in
          let* p := if len q =? 1 then
                      match tail q with
                      | None => Abort
                      | Some t => let* n := node q t in let* lp := raw n in let* p := lpSeek lp (-1) in match p with Some p => Ret p | None => Abort end
                      end
                    else Ret p in
          match tail q with
          | None => Abort
          | Some t => let* (r, _) := quicklistDelIndex q t p in Ret (fst r)
          end
      end
  end.

(** The element; [None] when there is none. *)
Definition quicklistPopCustom (q : quicklist) (at_head : bool) : outcome (quicklist * option listpackEntry) :=
  if total_count q =? 0 then Ret (q, None) else
  match (if at_head then head q else tail q) with
  | None => Ret (q, None)
  | Some p =>
      let* n := node q p in
      if is_lzf n then Abort else
      let* b := raw n in
      if is_plain n then
        let* (r, _) := quicklistDelIndex q p 0 in
        Ret (fst r, Some (SVal (take (Z.to_nat (sz n)) b)))
      else
        let* zi := lpSeek b (if at_head then 0 else -1) in
        match zi with
        | None => Abort
        | Some zi => let* (r, _) := quicklistDelIndex q p zi in Ret (fst r, Some (lpGetValue b zi))
        end
  end.

Definition quicklistPush (q : quicklist) (value : list Z) (at_head : bool) : outcome quicklist :=
  let* h := node_of q (head q) in
  let* t := node_of q (tail q) in
  if match h with Some n => is_lzf n | None => false end || match t with Some n => is_lzf n | None => false end then Abort
  else if at_head then quicklistPushHead q value else quicklistPushTail q value.
End Ops.

End Quicklist.
