(* ===== verification/QuicklistSpec.v ===== *)
(** * QuicklistSpec: quicklists are lists (quicklist.c)

    The invariant of the chain of nodes, what compression does to it, and the refinement
    of lists of strings by every operation. *)
From S2P Require Import Prelude NumStr Lzf LpEntry Listpack LpBulk StrObj Quicklist.
Import NumStr LpEntry Listpack LpBulk Quicklist.

Module QuicklistSpec.

(** ** What a node holds *)

(** The largest element that goes into a listpack. *)
Definition elem_limit (f : Z) : Z := if 0 <=? f then SIZE_SAFETY_LIMIT else quicklistNodeNegFillLimit f.

Lemma elem_limit_range f : 4096 <= elem_limit f <= 65536.
Proof.
  unfold elem_limit, SIZE_SAFETY_LIMIT, quicklistNodeNegFillLimit. destruct (0 <=? f); [lia|]. set (o := if _ <=? _ then _ else _).
  assert (nth (Z.to_nat o) optimization_level 0 = 0 \/ 4096 <= nth (Z.to_nat o) optimization_level 0 <= 65536) as H.
  { generalize (Z.to_nat o) as k. intros [|[|[|[|[|k]]]]]; cbn; try lia. destruct k; lia. }
  assert (Z.to_nat o < 5)%nat as Ho by (unfold o; change (Z.of_nat (length optimization_level)) with 5; case_bool; lia).
  revert Ho H. generalize (Z.to_nat o) as k. intros [|[|[|[|[|k]]]]]; cbn; lia.
Qed.

(** The elements of a listpack of a node: even if all are as large as they can be, its
    size is below 2^31. *)
Definition small (f : Z) (ts : list (list Z)) : Prop :=
  Forall (fun t => bytes t /\ Z.of_nat (length t) <= elem_limit f) ts /\
  Z.of_nat (length ts) < 2 ^ 16 /\ Z.of_nat (length ts) * (elem_limit f + 8) + 7 < 2 ^ 31.

(** [c] decompresses to [b]. *)
Definition unpacks (c b : list Z) : Prop := forall dst, length dst = length b -> Lzf.lzf_decompress c dst = Ret (Some (b, Z.of_nat (length b))).

Definition packed_ok (n : quicklistNode) (es : list elem) : Prop :=
  sz n = total es /\
  match entry n with
  | Raw lp => listpack lp es
  | LZF c => exists b, listpack b es /\ Z.of_nat (length b) = total es /\ unpacks c b
  end.

Definition plain_ok (n : quicklistNode) (t : list Z) : Prop :=
  sz n = Z.of_nat (length t) /\ bytes t /\ match entry n with Raw b => b = t | LZF c => unpacks c t end.

(** The texts a node holds, whatever its counter says. *)
Definition body_ok (f : Z) (n : quicklistNode) (ts : list (list Z)) : Prop :=
  match kind n with
  | PACKED => exists es, packed_ok n es /\ ts = elem_text <$> es /\ small f ts
  | PLAIN => exists t, ts = [t] /\ plain_ok n t /\ Z.of_nat (length t) < 2 ^ 62
  end /\ (is_lzf n = true -> recompress n = false).

Lemma listpack_bytes lp es : listpack lp es -> total es <= Z.of_nat (length lp) /\ bytes (take (Z.to_nat (total es)) lp) /\ listpack (take (Z.to_nat (total es)) lp) es /\ length (take (Z.to_nat (total es)) lp) = Z.to_nat (total es).
Proof.
  intros (nf & slack & [-> Hok Ht Hc]). set (img := header es nf ++ body es ++ [LP_EOF]).
  assert (Z.of_nat (length img) = total es) as Hl by (unfold img; rewrite !length_app, length_header; cbn [length]; unfold total, pos; lia).
  replace (header es nf ++ body es ++ [LP_EOF] ++ slack) with (img ++ slack) by (unfold img; by rewrite <- !app_assoc).
  assert (take (Z.to_nat (total es)) (img ++ slack) = img) as -> by (apply take_app_length'; lia). split_and!.
  - rewrite length_app. lia.
  - unfold img, header. repeat apply Forall_app_2; try apply bytes_le_encode.
    + clear -Hok Ht. assert (forall es', Forall elem_ok es' -> total es' < 2 ^ 32 -> bytes (body es')) as H; [|auto].
      induction 1 as [|e es' He _ IH]; intros Ht'; [constructor|]. rewrite body_cons. assert (total (e :: es') = Z.of_nat (length (LpEntry.entry e)) + total es') as Et by (unfold total, pos; rewrite body_cons, length_app; lia).
      pose proof (total_pos es'). apply Forall_app_2; [|apply IH; lia]. unfold LpEntry.entry in *. rewrite length_app in Et. apply Forall_app_2; [by apply bytes_encode_elem|apply bytes_lpEncodeBacklen; lia].
    + by repeat constructor.
  - exists nf, []. split; [|done|done|done]. unfold img. by rewrite app_nil_r.
  - lia.
Qed.

(** Nodes that hold the same, one of which may be compressed. *)
Record sim (n n' : quicklistNode) : Prop := {
  sim_nid : nid n' = nid n;
  sim_count : count n' = count n;
  sim_sz : sz n' = sz n;
  sim_kind : kind n' = kind n;
  sim_dont : dont_compress n' = dont_compress n;
  sim_re : recompress n' = true -> recompress n = true;
  sim_raw : dont_compress n = true -> is_lzf n = false -> is_lzf n' = false;
  sim_body : forall f ts, body_ok f n ts -> body_ok f n' ts
}.

Lemma sim_refl n : sim n n.
Proof. by split. Qed.

Lemma sim_trans a b c : sim a b -> sim b c -> sim a c.
Proof. intros [] []. split; try congruence; auto. intros Hd Hz. apply sim_raw1; [congruence|auto]. Qed.

#[export] Instance sim_preorder : PreOrder sim.
Proof. split; [exact sim_refl|exact sim_trans]. Qed.

(** ** The chain *)

Definition ids (q : quicklist) : list nat := nid <$> nodes q.

Record ids_ok (q : quicklist) : Prop := { ids_nodup : NoDup (ids q); ids_fresh : Forall (fun i => (i < next_nid q)%nat) (ids q) }.

Section Chain.
Context (q : quicklist) (l1 l2 : list quicklistNode) (n : quicklistNode).
Context (E : nodes q = l1 ++ n :: l2) (Hids : ids_ok q).

Lemma find_node_mid : find_node (nid n) (nodes q) = Ret (length l1).
Proof using E Hids.
  destruct Hids as [Hn _]. unfold ids in Hn. rewrite E in Hn |- *. clear E Hids. induction l1 as [|m l IH]; cbn [find_node app length].
  - by rewrite Nat.eqb_refl.
  - cbn [fmap list_fmap app] in Hn. apply NoDup_cons in Hn as [Hm Hn]. destruct (Nat.eqb_spec (nid m) (nid n)) as [Heq|_]; [|by rewrite IH].
    exfalso. apply Hm. rewrite Heq, fmap_app, fmap_cons. apply elem_of_app. right. left.
Qed.

Lemma lookup_mid : nodes q !! length l1 = Some n.
Proof using E. rewrite E. by apply list_lookup_middle. Qed.

Lemma node_mid : node q (nid n) = Ret n.
Proof using E Hids. unfold node. rewrite find_node_mid. cbn [obind]. by rewrite lookup_mid. Qed.

Lemma next_mid : next q (nid n) = Ret (nid <$> List.head l2).
Proof using E Hids.
  unfold next. rewrite find_node_mid. cbn [obind]. rewrite E. rewrite (lookup_app_r l1) by lia. replace (S (length l1) - length l1)%nat with 1%nat by lia. by destruct l2.
Qed.

Lemma prev_mid : prev q (nid n) = Ret (nid <$> last l1).
Proof using E Hids.
  unfold prev. rewrite find_node_mid. cbn [obind]. rewrite E. destruct l1 as [|m l _] using rev_ind; [done|]. rewrite length_app. cbn [length]. rewrite Nat.add_1_r, last_snoc, <- app_assoc. cbn [app].
  by rewrite list_lookup_middle.
Qed.

Lemma set_node_mid n' : set_node q (nid n) n' = Ret (set_nodes q (l1 ++ n' :: l2)).
Proof using E Hids. unfold set_node. rewrite find_node_mid. cbn [obind]. rewrite E. rewrite <- (Nat.add_0_r (length l1)). by rewrite insert_app_r. Qed.

Lemma update_mid f : update q (nid n) f = Ret (set_nodes q (l1 ++ f n :: l2)).
Proof using E Hids. unfold update. rewrite node_mid. cbn [obind]. apply set_node_mid. Qed.

End Chain.

(** Changing nodes but not their numbers. *)
Lemma ids_sim l l' : Forall2 sim l l' -> nid <$> l' = nid <$> l.
Proof. induction 1 as [|a b l l' H _ IH]; [done|]. cbn. by rewrite IH, (sim_nid _ _ H). Qed.

Lemma ids_ok_nodes q l : ids_ok q -> nid <$> l = ids q -> ids_ok (set_nodes q l).
Proof. intros [H1 H2] E. split; unfold ids in *; cbn; by rewrite E. Qed.

Lemma ids_ok_sim q l : ids_ok q -> Forall2 sim (nodes q) l -> ids_ok (set_nodes q l).
Proof. intros H Hs. apply ids_ok_nodes; [done|]. by apply ids_sim. Qed.

Lemma set_nodes_twice q l l' : set_nodes (set_nodes q l) l' = set_nodes q l'.
Proof. done. Qed.

Lemma set_nodes_same q : set_nodes q (nodes q) = q.
Proof. by destruct q. Qed.

(** A pointer into the chain, as a place. *)
Lemma in_chain q p : p ∈ ids q -> exists l1 n l2, nodes q = l1 ++ n :: l2 /\ p = nid n.
Proof. intros H. apply list_elem_of_fmap in H as (n & -> & Hn). apply list_elem_of_split in Hn as (l1 & l2 & E). eauto. Qed.

Lemma sim_lookup l l' i n' : Forall2 sim l l' -> l' !! i = Some n' -> exists n, l !! i = Some n /\ sim n n'.
Proof. intros H E. apply (Forall2_lookup_r _ _ _ _ _ H) in E as (n & ? & ?). eauto. Qed.

Lemma sims_refl l : Forall2 sim l l.
Proof. induction l; constructor; [apply sim_refl|done]. Qed.

Lemma sims_trans l1 l2 l3 : Forall2 sim l1 l2 -> Forall2 sim l2 l3 -> Forall2 sim l1 l3.
Proof. intros H. revert l3. induction H as [|a b l1 l2 Hab _ IH]; intros l3 H3; inversion H3; subst; constructor; [by eapply sim_trans|auto]. Qed.

Lemma sims_mid l1 n n' l2 : sim n n' -> Forall2 sim (l1 ++ n :: l2) (l1 ++ n' :: l2).
Proof. intros H. apply Forall2_app; [apply sims_refl|constructor; [done|apply sims_refl]]. Qed.


(** ** Compression of one node *)

Section Spec.
Context (fresh : nat -> Z) (usable : nat -> nat) (base : list Z -> Z) (htab : list Z -> Z -> Z).
Context (Husable : forall n, (n <= usable n)%nat).
(** A buffer lies within the address space, above the window of the compressor, and the
    hash table holds pointers. *)
Definition memory_ok : Prop :=
  (forall b, Z.of_nat (length b) < 2 ^ 62 -> Lzf.MAX_OFF <= base b /\ base b + Z.of_nat (length b) < 2 ^ 64) /\ (forall b i, 0 <= htab b i < 2 ^ 64).
Context (Hmem : memory_ok).

Abbreviation compressN := (__quicklistCompressNode fresh base htab).
Abbreviation compressC := (quicklistCompressNode fresh base htab).
Abbreviation decompressN := (quicklistDecompressNode fresh).
Abbreviation useN := (quicklistDecompressNodeForUse fresh).
Abbreviation compressL := (__quicklistCompress fresh base htab).
Abbreviation compressQ := (quicklistCompress fresh base htab).
Abbreviation recompressQ := (quicklistRecompressOnly fresh base htab).

(** The bytes that are compressed, and how a node holds them. *)
Lemma raw_bytes f n ts b : body_ok f n ts -> entry n = Raw b -> sz n <= Z.of_nat (length b) /\ bytes (take (Z.to_nat (sz n)) b) /\ 0 <= sz n < 2 ^ 62 /\
  length (take (Z.to_nat (sz n)) b) = Z.to_nat (sz n).
Proof using.
  intros [Hb _] E. destruct (kind n).
  - destruct Hb as (t & _ & (Hs & Hby & He) & Hlt). rewrite E in He. subst b. rewrite Hs, Nat2Z.id, firstn_all. split; [lia|]. split; [done|]. split; [lia|done].
  - destruct Hb as (es & (Hs & He) & _ & _). rewrite E in He. destruct (listpack_bytes b es He) as (H1 & H2 & _ & H3). rewrite Hs. split; [done|]. split; [done|]. split; [|done].
    pose proof (total_pos es). destruct He as (nf & slack & R). pose proof (lp_total _ _ _ _ R). lia.
Qed.

Lemma body_recompress f n ts b : body_ok f n ts -> (is_lzf n = true -> b = false) -> body_ok f (set_recompress n b) ts.
Proof using. intros [H _] Hb. split; [exact H|exact Hb]. Qed.

Lemma body_lzf f n ts b c : body_ok f n ts -> entry n = Raw b -> unpacks c (take (Z.to_nat (sz n)) b) -> body_ok f (set_entry (set_recompress n false) (LZF c)) ts.
Proof using.
  intros [Hb _] E Hu. split; [|done]. cbn. destruct (kind n).
  - destruct Hb as (t & -> & (Hs & Hby & He) & Hlt). rewrite E in He. subst b. rewrite Hs, Nat2Z.id, firstn_all in Hu. exists t. done.
  - destruct Hb as (es & (Hs & He) & -> & Hsm). rewrite E in He. destruct (listpack_bytes b es He) as (H1 & H2 & H3 & H4). exists es. split; [|done]. split; [done|]. cbn.
    rewrite Hs in Hu. exists (take (Z.to_nat (total es)) b). split; [done|]. split; [|done]. rewrite H4. pose proof (total_pos es). lia.
Qed.

Lemma sim_recompress n : (is_lzf n = true -> recompress n = false) \/ is_lzf n = false -> sim n (set_recompress n false).
Proof using. intros _. split; try done. intros f ts H. by apply body_recompress. Qed.

Lemma compress_mid q l1 n l2 f ts : nodes q = l1 ++ n :: l2 -> ids_ok q -> body_ok f n ts -> l1 <> [] -> l2 <> [] -> is_lzf n = false ->
  exists n', compressN q (nid n) = Ret (set_nodes q (l1 ++ n' :: l2)) /\ sim n n' /\ (dont_compress n = false -> recompress n' = false).
Proof using Hmem.
  intros E Hids Hb H1 H2 Hl. unfold __quicklistCompressNode. rewrite (node_mid q l1 l2 n E Hids). cbn [obind]. destruct (dont_compress n) eqn:Hd.
  { exists n. rewrite <- E, set_nodes_same. split; [done|]. split; [apply sim_refl|done]. }
  rewrite (prev_mid q l1 l2 n E Hids), (next_mid q l1 l2 n E Hids). cbn [obind].
  destruct l1 as [|m1 l1 _] using rev_ind; [done|]. rewrite last_snoc. destruct l2 as [|m2 l2]; [done|]. cbn [fmap option_fmap option_map List.head].
  rewrite (set_node_mid q _ _ n E Hids). cbn [obind sz set_recompress].
  assert (sim n (set_recompress n false)) as Hs0 by (apply sim_recompress; by right).
  destruct (Z.ltb_spec (sz n) MIN_COMPRESS_BYTES) as [Hsmall|Hbig]; [eauto|]. cbn [entry set_recompress]. destruct (entry n) as [b|c] eqn:Ee; [|unfold is_lzf in Hl; by rewrite Ee in Hl].
  destruct (raw_bytes f n ts b Hb Ee) as (Hlen & Hby & Hsz & Hlb). rewrite (proj2 (Z.ltb_ge _ _)) by done. set (input := take (Z.to_nat (sz n)) b) in *. destruct Hmem as [Hbase Hhtab].
  assert (length input <> 1%nat) as Hne1 by (unfold MIN_COMPRESS_BYTES in Hbig; lia). destruct (Hbase input) as [Hb1 Hb2]; [lia|].
  pose proof (Lzf.lzf_compress_spec input (base input) (htab input) (map fresh (seq 0 (Z.to_nat (sz n)))) Hby Hb1 Hb2 (Hhtab input) Hne1) as Hc.
  assert (forall out m, Lzf.lzf_compress input (base input) (htab input) (map fresh (seq 0 (Z.to_nat (sz n)))) = Ret (Some (out, m)) -> unpacks (take (Z.to_nat m) out) input) as Hu.
  { intros out m Eo dst Hdst. rewrite (Lzf.lzf_compress_decompress input _ _ _ _ _ dst Hby Hb1 Hb2 (Hhtab input) Hne1 ltac:(lia) Eo). rewrite drop_ge by lia. by rewrite app_nil_r. }
  destruct Hc as [->|(out & m & tk & Eo & _)]; cbn [obind]; [eauto|]. rewrite Eo. specialize (Hu out m Eo). cbn [obind]. destruct (_ <=? _); [eauto|].
  assert (ids_ok (set_nodes q ((l1 ++ [m1]) ++ set_recompress n false :: m2 :: l2))) as Hids' by (apply ids_ok_sim; [done|]; rewrite E; by apply sims_mid).
  rewrite (set_node_mid (set_nodes q ((l1 ++ [m1]) ++ set_recompress n false :: m2 :: l2)) (l1 ++ [m1]) (m2 :: l2) (set_recompress n false) eq_refl Hids'). eexists. split; [done|]. split; [|done].
  split; try done; [cbn; congruence|]. intros f' ts' Hb'. by eapply body_lzf.
Qed.

(** The macro, for a node that may be compressed already. *)
Lemma compressC_mid q l1 n l2 f ts : nodes q = l1 ++ n :: l2 -> ids_ok q -> body_ok f n ts -> l1 <> [] -> l2 <> [] ->
  exists n', compressC q (Some (nid n)) = Ret (set_nodes q (l1 ++ n' :: l2)) /\ sim n n' /\ (dont_compress n = false -> recompress n' = false).
Proof using Hmem.
  intros E Hids Hb H1 H2. unfold quicklistCompressNode. rewrite (node_mid q l1 l2 n E Hids). cbn [obind]. destruct (is_lzf n) eqn:Hl; [|by eapply compress_mid].
  exists n. rewrite <- E, set_nodes_same. split; [done|]. split; [apply sim_refl|]. intros _. destruct Hb as [_ Hb]. auto.
Qed.

Lemma decompress_node f n ts : body_ok f n ts -> is_lzf n = true -> exists b, __quicklistDecompressNode fresh n = Ret (set_entry (set_recompress n false) (Raw b)) /\
  forall f' ts', body_ok f' n ts' -> forall r, body_ok f' (set_recompress (set_entry (set_recompress n false) (Raw b)) r) ts'.
Proof using.
  intros Hb Hl. unfold is_lzf in Hl. destruct (entry n) as [|c] eqn:Ee; [done|]. unfold __quicklistDecompressNode. cbn [entry set_recompress sz]. rewrite Ee.
  assert (exists b, unpacks c b /\ Z.of_nat (length b) = sz n) as (b & Hu & Hlen).
  { destruct Hb as [Hb _]. destruct (kind n).
    - destruct Hb as (t & _ & (Hs & _ & He) & _). rewrite Ee in He. eauto.
    - destruct Hb as (es & (Hs & He) & _). rewrite Ee in He. destruct He as (b & _ & Hl' & Hu). exists b. split; [done|]. lia. }
  rewrite Hu by (rewrite length_map, length_seq; lia). cbn [obind]. exists b. split; [done|]. intros f' ts' [Hb' _] r. split; [|done]. cbn. destruct (kind n).
  - destruct Hb' as (t & -> & (Hs & Hby & He) & Hlt). rewrite Ee in He. exists t. split; [done|]. split; [|done]. split; [done|]. split; [done|]. cbn.
    specialize (Hu (repeat 0 (length b)) (repeat_length _ _)). specialize (He (repeat 0 (length b))). rewrite repeat_length in He. rewrite He in Hu by lia. congruence.
  - destruct Hb' as (es & (Hs & He) & -> & Hsm). rewrite Ee in He. destruct He as (b' & Hlp & Hl' & Hu'). exists es. split; [|done]. split; [done|]. cbn.
    specialize (Hu (repeat 0 (length b)) (repeat_length _ _)). specialize (Hu' (repeat 0 (length b))). rewrite repeat_length in Hu'. rewrite Hu' in Hu by lia. injection Hu as <- _. done.
Qed.

Lemma decompressN_mid q l1 n l2 f ts : nodes q = l1 ++ n :: l2 -> ids_ok q -> body_ok f n ts ->
  exists n', decompressN q (nid n) = Ret (set_nodes q (l1 ++ n' :: l2)) /\ sim n n' /\ is_lzf n' = false /\ (recompress n = false -> recompress n' = false).
Proof using.
  intros E Hids Hb. unfold quicklistDecompressNode. rewrite (node_mid q l1 l2 n E Hids). cbn [obind]. destruct (is_lzf n) eqn:Hl.
  - destruct (decompress_node f n ts Hb Hl) as (b & -> & Hb'). cbn [obind]. rewrite (set_node_mid q l1 l2 n E Hids). eexists. split; [done|]. split; [|done]. split; try done.
    intros f' ts' H. specialize (Hb' f' ts' H false). exact Hb'.
  - exists n. rewrite <- E, set_nodes_same. split; [done|]. split; [apply sim_refl|done].
Qed.

(** For use: the node is marked if it was compressed. *)
Lemma useN_mid q l1 n l2 f ts : nodes q = l1 ++ n :: l2 -> ids_ok q -> body_ok f n ts ->
  exists n', useN q (nid n) = Ret (set_nodes q (l1 ++ n' :: l2)) /\ is_lzf n' = false /\
    nid n' = nid n /\ count n' = count n /\ sz n' = sz n /\ kind n' = kind n /\ dont_compress n' = dont_compress n /\
    recompress n' = (recompress n || is_lzf n) /\ (forall f' ts', body_ok f' n ts' -> body_ok f' n' ts').
Proof using.
  intros E Hids Hb. unfold quicklistDecompressNodeForUse. rewrite (node_mid q l1 l2 n E Hids). cbn [obind]. destruct (is_lzf n) eqn:Hl.
  - destruct (decompress_node f n ts Hb Hl) as (b & -> & Hb'). cbn [obind]. rewrite (set_node_mid q l1 l2 n E Hids). eexists. split; [done|]. split_and!; try done; [by rewrite orb_true_r|].
    intros f' ts' H. specialize (Hb' f' ts' H true). exact Hb'.
  - exists n. rewrite <- E, set_nodes_same, orb_false_r. done.
Qed.

(** ** Compression by depth *)

Definition all_raw (l : list quicklistNode) : Prop := Forall (fun n => is_lzf n = false) l.
Definition bodies (f : Z) (l : list quicklistNode) : Prop := Forall (fun n => exists ts, body_ok f n ts) l.

Lemma bodies_sim f l l' : Forall2 sim l l' -> bodies f l -> bodies f l'.
Proof using. intros H. induction H as [|a b l l' Hab _ IH]; intros Hl; [constructor|]. apply Forall_cons in Hl as [[ts Ha] Hl]. constructor; [|by apply IH]. exists ts. by apply (sim_body _ _ Hab). Qed.

Lemma bodies_mid f l1 n l2 : bodies f (l1 ++ n :: l2) -> exists ts, body_ok f n ts.
Proof using. intros H. apply Forall_app in H as [_ H]. by apply Forall_cons in H as [H _]. Qed.

(** The node is at neither side. *)
Definition apart (p : option nat) (l : list quicklistNode) : Prop := forall n, n ∈ l -> p <> Some (nid n).

Lemma apart_app p l1 l2 : apart p (l1 ++ l2) <-> apart p l1 /\ apart p l2.
Proof using. unfold apart. split; [intros H; split; intros n Hn; apply H; apply elem_of_app; auto|intros [H1 H2] n Hn; apply elem_of_app in Hn as [Hn|Hn]; auto]. Qed.

Lemma apart_one p n : apart p [n] <-> p <> Some (nid n).
Proof using. unfold apart. split; [intros H; apply H; left|intros H m Hm; apply list_elem_of_singleton in Hm; by subst]. Qed.

(** The chain once the loop over the depth has stopped. *)
Definition depth_done (p : option nat) (k : nat) (l : list quicklistNode) (ends : option (nat * nat)) (in_depth : bool) : Prop :=
  match ends with
  | None => all_raw l
  | Some (f, r) => exists A n M B m M', l = A ++ (n :: M) ++ B /\ n :: M = M' ++ [m] /\ f = nid n /\ r = nid m /\
      all_raw A /\ all_raw B /\ length A = k /\ length B = k /\ (in_depth = false -> apart p A /\ apart p B)
  end.

Lemma apart_sim p l l' : Forall2 sim l l' -> apart p l -> apart p l'.
Proof using. intros H Hp n Hn. apply list_elem_of_lookup in Hn as [i Hi]. destruct (sim_lookup _ _ _ _ H Hi) as (m & Em & Hm). rewrite (sim_nid _ _ Hm). apply Hp. by eapply list_elem_of_lookup_2. Qed.

Lemma decompress_at q l1 n l2 : nodes q = l1 ++ n :: l2 -> ids_ok q -> bodies (fill q) (nodes q) ->
  exists n', decompressN q (nid n) = Ret (set_nodes q (l1 ++ n' :: l2)) /\ sim n n' /\ is_lzf n' = false /\ ids_ok (set_nodes q (l1 ++ n' :: l2)) /\ bodies (fill q) (l1 ++ n' :: l2).
Proof using.
  intros E Hids Hb. rewrite E in Hb. destruct (bodies_mid _ _ _ _ Hb) as [ts Hn]. destruct (decompressN_mid q l1 n l2 _ ts E Hids Hn) as (n' & -> & Hs & Hl & _).
  pose proof (sims_mid l1 n n' l2 Hs) as Hss. exists n'. split_and!; try done; [apply ids_ok_sim; [done|by rewrite E]|by eapply bodies_sim].
Qed.

Lemma ids_neq q l1 n l2 m l3 : nodes q = l1 ++ n :: l2 ++ m :: l3 -> ids_ok q -> nid n <> nid m.
Proof using.
  intros E [Hn _] Heq. unfold ids in Hn. rewrite E, fmap_app in Hn. apply NoDup_app in Hn as (_ & _ & Hn). cbn in Hn. apply NoDup_cons in Hn as [Hn _]. apply Hn. rewrite Heq, fmap_app. apply elem_of_app. right. left.
Qed.

Lemma all_raw_app l1 l2 : all_raw (l1 ++ l2) <-> all_raw l1 /\ all_raw l2.
Proof using. apply Forall_app. Qed.

Lemma seen_false b1 b2 (b3 : bool) (p : option nat) f r : b3 || b1 || b2 = false -> b1 = bool_decide (p = Some f) -> b2 = bool_decide (p = Some r) -> b3 = false /\ p <> Some f /\ p <> Some r.
Proof using. intros H -> ->. rewrite !orb_false_iff in H. destruct H as [[-> H1] H2]. apply bool_decide_eq_false in H1, H2. done. Qed.

Lemma compress_depth_spec k : forall q A n M B m M' p seen, nodes q = A ++ (n :: M) ++ B -> n :: M = M' ++ [m] -> ids_ok q -> bodies (fill q) (nodes q) ->
  all_raw A -> all_raw B -> length A = length B -> (seen = false -> apart p A /\ apart p B) ->
  exists l ends seen', compress_depth fresh k q p (nid n) (nid m) seen = Ret (set_nodes q l, ends, seen') /\ Forall2 sim (nodes q) l /\ depth_done p (length A + k) l ends seen'.
Proof using.
  induction k as [|k IH]; intros q A n M B m M' p seen E Em Hids Hb HA HB Hlen Hseen; cbn [compress_depth].
  { exists (nodes q), (Some (nid n, nid m)), seen. rewrite set_nodes_same. split; [done|]. split; [apply sims_refl|]. rewrite Nat.add_0_r. exists A, n, M, B, m, M'. done. }
  destruct (decompress_at q A n (M ++ B) E Hids Hb) as (n' & -> & Hn & Hrn & Hids1 & Hb1). cbn [obind]. rewrite <- (sim_nid _ _ Hn). set (q1 := set_nodes q (A ++ n' :: M ++ B)) in *.
  assert (Forall2 sim (nodes q) (nodes q1)) as Hs1 by (rewrite E; by apply sims_mid).
  destruct M as [|m0 X _] using rev_ind.
  { apply (app_inj_tail []) in Em as [_ <-]. rewrite <- (sim_nid _ _ Hn). destruct (decompress_at q1 A n' B eq_refl Hids1 Hb1) as (n2 & -> & Hn2 & Hr2 & Hids2 & _). cbn [obind]. rewrite <- (sim_nid _ _ Hn2).
    rewrite (next_mid (set_nodes q1 (A ++ n2 :: B)) A B n2 eq_refl Hids2). cbn [obind]. rewrite Nat.eqb_refl. cbn [orb]. exists (A ++ n2 :: B), None, (seen || bool_decide (p = Some (nid n2)) || bool_decide (p = Some (nid n2))). split; [done|]. split.
    - eapply sims_trans; [exact Hs1|]. by apply sims_mid.
    - apply all_raw_app. split; [done|]. by constructor. }
  change (n :: X ++ [m0]) with ((n :: X) ++ [m0]) in Em. apply app_inj_tail in Em as [_ ->]. assert (nodes q1 = (A ++ n' :: X) ++ m :: B) as E1 by (cbn; by rewrite <- !app_assoc).
  destruct (decompress_at q1 _ m B E1 Hids1 Hb1) as (m' & -> & Hm & Hrm & Hids2 & Hb2). cbn [obind]. rewrite <- (sim_nid _ _ Hm). rewrite <- app_assoc in Hids2, Hb2 |- *. cbn [app] in *. set (l2 := A ++ n' :: X ++ m' :: B) in *.
  set (q2 := set_nodes q1 l2) in *. assert (Forall2 sim (nodes q) l2) as Hs2.
  { eapply sims_trans; [exact Hs1|]. rewrite E1. unfold l2. change (n' :: X ++ m' :: B) with ((n' :: X) ++ m' :: B). rewrite app_assoc. by apply sims_mid. }
  rewrite (next_mid q2 A (X ++ m' :: B) n' eq_refl Hids2). cbn [obind]. assert (nid n' <> nid m') as Hne by (by apply (ids_neq q2 A n' X m' B)). rewrite (proj2 (Nat.eqb_neq _ _) Hne). cbn [orb].
  destruct X as [|x X]; cbn [app List.head fmap option_fmap option_map].
  { rewrite bool_decide_true by done. exists l2, None, (seen || bool_decide (p = Some (nid n')) || bool_decide (p = Some (nid m'))). split; [done|]. split; [done|]. apply all_raw_app. split; [done|]. constructor; [done|]. by constructor. }
  assert (nid x <> nid m') as Hne2 by (apply (ids_neq q2 (A ++ [n']) x X m' B); [cbn; by rewrite <- app_assoc|done]). rewrite bool_decide_false by congruence.
  assert (nodes q2 = (A ++ n' :: x :: X) ++ m' :: B) as E2 by (unfold q2, l2; cbn; by rewrite <- app_assoc). rewrite (prev_mid q2 _ B m' E2 Hids2). cbn [obind].
  rewrite last_app. change (last (n' :: x :: X)) with (last (x :: X)). destruct (exists_last (l := x :: X) ltac:(done)) as (Y & y & EX). rewrite EX, last_snoc. cbn [fmap option_fmap option_map].
  destruct (IH q2 (A ++ [n']) x X (m' :: B) y Y p (seen || bool_decide (p = Some (nid n')) || bool_decide (p = Some (nid m')))) as (l & ends & seen' & Er & Hs & Hd); try done.
  - unfold q2, l2. cbn. by rewrite <- !app_assoc.
  - apply all_raw_app. split; [done|by constructor].
  - by constructor.
  - rewrite length_app. cbn. lia.
  - intros Hf. destruct (seen_false _ _ _ p (nid n') (nid m') Hf eq_refl eq_refl) as (-> & H1 & H2). destruct (Hseen eq_refl) as [Ha Hb3]. split; [apply apart_app; split; [done|by apply apart_one]|]. apply (apart_app p [m'] B). split; [by apply apart_one|done].
  - exists l, ends, seen'. rewrite Er. split; [done|]. split; [by eapply sims_trans|]. rewrite length_app in Hd. cbn [length] in Hd. replace (length A + S k)%nat with (length A + 1 + k)%nat by lia. done.
Qed.

(** A node in the middle is compressed; the sides stay as they are. *)
Lemma compressC_inner q A M B p : nodes q = A ++ M ++ B -> A <> [] -> B <> [] -> ids_ok q -> bodies (fill q) (nodes q) -> p ∈ nid <$> M ->
  exists M', compressC q (Some p) = Ret (set_nodes q (A ++ M' ++ B)) /\ Forall2 sim M M' /\ ids_ok (set_nodes q (A ++ M' ++ B)) /\ bodies (fill q) (A ++ M' ++ B).
Proof using Hmem.
  intros E HA HB Hids Hb Hp. apply list_elem_of_fmap in Hp as (n & -> & Hn). apply list_elem_of_split in Hn as (M1 & M2 & ->).
  assert (nodes q = (A ++ M1) ++ n :: M2 ++ B) as E1 by (rewrite E, <- !app_assoc; done). rewrite E1 in Hb. destruct (bodies_mid _ _ _ _ Hb) as [ts Hts].
  destruct (compressC_mid q (A ++ M1) n (M2 ++ B) _ ts E1 Hids Hts) as (n' & -> & Hs & _); [by destruct A|by destruct M2, B|].
  replace ((A ++ M1) ++ n' :: M2 ++ B) with (A ++ (M1 ++ n' :: M2) ++ B) by (rewrite <- !app_assoc; done).
  assert (Forall2 sim (nodes q) (A ++ (M1 ++ n' :: M2) ++ B)) as Hss by (rewrite E; repeat apply Forall2_app; try apply sims_refl; by constructor; [|apply sims_refl]).
  exists (M1 ++ n' :: M2). split; [done|]. split; [by apply sims_mid|]. split; [by apply ids_ok_sim|]. eapply bodies_sim; [exact Hss|]. by rewrite E1.
Qed.

Definition ends (P : quicklistNode -> Prop) (l : list quicklistNode) : Prop := (forall n, List.head l = Some n -> P n) /\ (forall n, last l = Some n -> P n).

(** Compressed nodes are deep enough, except that a node may just have been removed. *)
Definition soft (c : Z) (l : list quicklistNode) : Prop := all_raw l \/ 0 < c /\ 2 * c <= Z.of_nat (length l).
Definition tight (c : Z) (l : list quicklistNode) : Prop := ends (fun n => is_lzf n = false) l /\ (all_raw l \/ 0 < c /\ 2 * c + 1 <= Z.of_nat (length l)).

Lemma ends_all P l : Forall P l -> ends P l.
Proof using.
  intros H. rewrite Forall_forall in H. split; intros n Hn; apply H.
  - destruct l; [done|]. injection Hn as ->. left.
  - apply last_Some in Hn as [l' ->]. apply elem_of_app. right. left.
Qed.

Lemma tight_raw c l : all_raw l -> tight c l.
Proof using. intros H. split; [by apply ends_all|by left]. Qed.

Lemma tight_soft c l : tight c l -> soft c l.
Proof using. intros [_ [H|H]]; [by left|right; lia]. Qed.

Lemma tight_sides c A M B : all_raw A -> all_raw B -> Z.of_nat (length A) = c -> Z.of_nat (length B) = c -> 0 < c -> M <> [] -> tight c (A ++ M ++ B).
Proof using.
  intros HA HB H1 H2 Hc HM. split.
  - split; intros n Hn.
    + destruct A as [|a A]; [cbn in H1; lia|]. injection Hn as <-. by apply Forall_cons in HA as [? _].
    + destruct B as [|b B _] using rev_ind; [cbn in H2; lia|]. rewrite !app_assoc, last_snoc in Hn. injection Hn as <-. apply Forall_app in HB as [_ HB]. by apply Forall_cons in HB as [? _].
  - right. split; [done|]. rewrite !length_app. destruct M; [done|]. cbn [length]. lia.
Qed.

Lemma head_tail q : nodes q <> [] -> exists h t, head q = Some (nid h) /\ tail q = Some (nid t) /\ List.head (nodes q) = Some h /\ last (nodes q) = Some t /\
  (exists l, nodes q = h :: l) /\ (exists l, nodes q = l ++ [t]).
Proof using.
  intros H. unfold head, tail. destruct (exists_last H) as (Y & t & EY). destruct (nodes q) as [|h l] eqn:E; [done|]. exists h, t. split_and!; try done; [by rewrite EY, last_snoc|by rewrite EY, last_snoc|by exists l|by exists Y].
Qed.

Lemma compressL_spec q p : ids_ok q -> bodies (fill q) (nodes q) -> len q = Z.of_nat (length (nodes q)) -> 0 <= compress q -> ends (fun n => recompress n = false) (nodes q) ->
  soft (compress q) (nodes q) -> (forall p', p = Some p' -> p' ∈ ids q) ->
  exists l, compressL q p = Ret (set_nodes q l) /\ Forall2 sim (nodes q) l /\ tight (compress q) l.
Proof using Hmem.
  intros Hids Hb Hlen Hc [He1 He2] Hsoft Hp. unfold __quicklistCompress. rewrite Hlen. destruct (decide (nodes q = [])) as [E0|Hne].
  { exists (nodes q). rewrite set_nodes_same, E0. split; [done|]. split; [constructor|]. apply tight_raw. constructor. }
  destruct (head_tail q Hne) as (h & t & -> & -> & Eh & Et & [lh Elh] & [lt Elt]).
  rewrite (proj2 (Z.eqb_neq _ _)) by (rewrite Elh; cbn [length]; lia). rewrite (node_mid q [] lh h Elh Hids), (node_mid q lt [] t Elt Hids). cbn [obind]. rewrite (He1 h Eh), (He2 t Et). cbn [orb].
  unfold quicklistAllowsCompression. rewrite negb_involutive. destruct (Z.eqb_spec (compress q) 0) as [H0|H0]; cbn [orb].
  { exists (nodes q). rewrite set_nodes_same. split; [done|]. split; [apply sims_refl|]. apply tight_raw. destruct Hsoft; [done|lia]. }
  destruct (Z.ltb_spec (Z.of_nat (length (nodes q))) (compress q * 2)) as [Hlt|Hge].
  { exists (nodes q). rewrite set_nodes_same. split; [done|]. split; [apply sims_refl|]. apply tight_raw. destruct Hsoft; [done|lia]. }
  destruct (compress_depth_spec (Z.to_nat (compress q)) q [] h lh [] t lt p false) as (l & ends_ & seen & -> & Hs & Hd); try done; [by rewrite app_nil_r|congruence|by apply Forall_nil|by apply Forall_nil|intros _; split; intros x Hx; by apply not_elem_of_nil in Hx|].
  cbn [obind]. destruct ends_ as [[f r]|]; [|exists l; split; [done|]; split; [done|]; by apply tight_raw].
  destruct Hd as (A & n & M & B & m & M' & El & Em & -> & -> & HrA & HrB & HlA & HlB & Hap). cbn [length Nat.add] in HlA, HlB.
  assert (A <> []) as HA by (destruct A; [cbn in HlA; lia|done]). assert (B <> []) as HB by (destruct B; [cbn in HlB; lia|done]).
  set (q1 := set_nodes q l). assert (ids_ok q1) as Hids1 by (by apply ids_ok_sim). assert (bodies (fill q1) (nodes q1)) as Hb1 by (by eapply bodies_sim).
  assert (exists M1, (if seen then Ret q1 else compressC q1 p) = Ret (set_nodes q (A ++ M1 ++ B)) /\ Forall2 sim (n :: M) M1 /\ ids_ok (set_nodes q (A ++ M1 ++ B)) /\ bodies (fill q) (A ++ M1 ++ B)) as (M1 & -> & HM1 & Hids2 & Hb2).
  { assert (q1 = set_nodes q (A ++ (n :: M) ++ B)) as Eq1 by (unfold q1; by rewrite El). destruct seen; [exists (n :: M); rewrite <- Eq1; split; [done|]; split; [apply sims_refl|]; split; [done|]; by rewrite <- El|].
    destruct p as [p|]; [|exists (n :: M); rewrite <- Eq1; split; [done|]; split; [apply sims_refl|]; split; [done|]; by rewrite <- El].
    destruct (compressC_inner q1 A (n :: M) B p) as (M1 & E1 & ? & ? & ?); try done; [|by exists M1]. specialize (Hp p eq_refl). unfold ids in Hp. rewrite <- (ids_sim _ _ Hs), El in Hp.
    destruct (Hap eq_refl) as [Hp1 Hp2]. rewrite !fmap_app, !elem_of_app in Hp. destruct Hp as [Hp|[Hp|Hp]]; [|done|]; apply list_elem_of_fmap in Hp as (x & -> & Hx); exfalso; [by apply (Hp1 x Hx)|by apply (Hp2 x Hx)]. }
  cbn [obind]. pose proof (ids_sim _ _ HM1) as I1.
  destruct (compressC_inner (set_nodes q (A ++ M1 ++ B)) A M1 B (nid n)) as (M2 & -> & HM2 & Hids3 & Hb3); try done; [rewrite I1; left|]. cbn [obind]. pose proof (ids_sim _ _ HM2) as I2.
  destruct (compressC_inner (set_nodes (set_nodes q (A ++ M1 ++ B)) (A ++ M2 ++ B)) A M2 B (nid m)) as (M3 & -> & HM3 & _); try done; [rewrite I2, I1, Em, fmap_app; apply elem_of_app; right; left|].
  assert (Forall2 sim (n :: M) M3) as H3 by (eapply sims_trans; [exact HM1|]; by eapply sims_trans).
  exists (A ++ M3 ++ B). split; [done|]. split.
  - eapply sims_trans; [exact Hs|]. rewrite El. repeat apply Forall2_app; try apply sims_refl. done.
  - apply tight_sides; try done; try lia. intros ->. inversion H3.
Qed.

(** ** The invariant of the chain *)

(** Only the node [act] waits to be compressed again; it has neighbours, and the list is
    long enough for compressed nodes. *)
Definition flags (c : Z) (act : option nat) (l : list quicklistNode) : Prop :=
  forall l1 n l2, l = l1 ++ n :: l2 -> recompress n = true -> act = Some (nid n) /\ l1 <> [] /\ l2 <> [] /\ 0 < c /\ 2 * c + 1 <= Z.of_nat (length l).

Definition donts (dc : option nat) (l : list quicklistNode) : Prop := Forall (fun n => dont_compress n = true -> dc = Some (nid n)) l.

Record chain (q : quicklist) (act dc : option nat) (tss : list (list (list Z))) : Prop := {
  ch_ids : ids_ok q;
  ch_body : Forall2 (body_ok (fill q)) (nodes q) tss;
  ch_len : len q = Z.of_nat (length (nodes q));
  ch_compress : 0 <= compress q;
  ch_tight : tight (compress q) (nodes q);
  ch_flags : flags (compress q) act (nodes q);
  ch_donts : donts dc (nodes q)
}.

Lemma bodies_of f l tss : Forall2 (body_ok f) l tss -> bodies f l.
Proof using. induction 1; constructor; eauto. Qed.

Lemma body_sims f l l' tss : Forall2 sim l l' -> Forall2 (body_ok f) l tss -> Forall2 (body_ok f) l' tss.
Proof using. intros H. revert tss. induction H as [|a b l l' Hab _ IH]; intros tss Ht; inversion Ht; subst; constructor; [by apply (sim_body _ _ Hab)|auto]. Qed.

Lemma sims_split_r l l1' n' l2' : Forall2 sim l (l1' ++ n' :: l2') -> exists l1 n l2, l = l1 ++ n :: l2 /\ Forall2 sim l1 l1' /\ sim n n' /\ Forall2 sim l2 l2'.
Proof using. intros H. apply Forall2_app_inv_r in H as (l1 & lr & H1 & Hr & ->). inversion Hr as [|n ? l2 ? Hn H2]; subst. exists l1, n, l2. done. Qed.

Lemma sims_split_l l1 n l2 l' : Forall2 sim (l1 ++ n :: l2) l' -> exists l1' n' l2', l' = l1' ++ n' :: l2' /\ Forall2 sim l1 l1' /\ sim n n' /\ Forall2 sim l2 l2'.
Proof using. intros H. apply Forall2_app_inv_l in H as (l1' & lr & H1 & Hr & ->). inversion Hr as [|? n' ? l2' Hn H2]; subst. exists l1', n', l2'. done. Qed.

Lemma sims_nil l l' : Forall2 sim l l' -> l <> [] -> l' <> [].
Proof using. by intros []. Qed.

Lemma flags_sim c act l l' : Forall2 sim l l' -> flags c act l -> flags c act l'.
Proof using.
  intros H Hf l1 n l2 -> Hr. pose proof (Forall2_length _ _ _ H) as Hlen. destruct (sims_split_r _ _ _ _ H) as (m1 & m & m2 & -> & H1 & Hm & H2). destruct (Hf m1 m m2 eq_refl (sim_re _ _ Hm Hr)) as (-> & ? & ? & ? & ?).
  rewrite (sim_nid _ _ Hm). split_and!; try done; [by eapply sims_nil|by eapply sims_nil|lia].
Qed.

Lemma flags_free c l : Forall (fun n => recompress n = false) l -> flags c None l.
Proof using. intros H l1 n l2 -> Hr. apply Forall_app in H as [_ H]. apply Forall_cons in H as [H _]. congruence. Qed.

Lemma flags_weaken c act l : flags c None l -> flags c act l.
Proof using. intros H l1 n l2 E Hr. by destruct (H l1 n l2 E Hr). Qed.

Lemma donts_sim dc l l' : Forall2 sim l l' -> donts dc l -> donts dc l'.
Proof using. induction 1 as [|a b l l' Hab _ IH]; intros Hd; [constructor|]. apply Forall_cons in Hd as [H1 H2]. constructor; [|by apply IH]. rewrite (sim_dont _ _ Hab), (sim_nid _ _ Hab). done. Qed.

Lemma chain_sim q act dc tss l : chain q act dc tss -> Forall2 sim (nodes q) l -> tight (compress q) l -> chain (set_nodes q l) act dc tss.
Proof using.
  intros [] Hs Ht. split; cbn; [by apply ids_ok_sim|by eapply body_sims| |done|done|by eapply flags_sim|by eapply donts_sim]. rewrite <- (Forall2_length _ _ _ Hs). done.
Qed.

Lemma flags_ends c act l : flags c act l -> ends (fun n => recompress n = false) l.
Proof using.
  intros H. split; intros n Hn; apply not_true_iff_false; intros Hr.
  - destruct l as [|m l]; [done|]. injection Hn as ->. by destruct (H [] n l eq_refl Hr) as (_ & ? & _).
  - apply last_Some in Hn as [l' ->]. by destruct (H l' n [] eq_refl Hr) as (_ & _ & ? & _).
Qed.

(** Compressing a node again uses up its mark. *)
Definition spent (act dc : option nat) (p : nat) (act' : option nat) : Prop := act' = act \/ act = Some p /\ dc <> Some p /\ act' = None.

Lemma chain_spent q act dc tss p : chain q act dc tss -> act = Some p -> (forall n, n ∈ nodes q -> nid n = p -> recompress n = false) -> chain q None dc tss.
Proof using.
  intros [] -> H. split; try done. apply flags_free. apply Forall_forall. intros n Hn. apply not_true_iff_false. intros Hr. pose proof Hn as Hn'. apply list_elem_of_split in Hn' as (l1 & l2 & E). destruct (ch_flags0 l1 n l2 E Hr) as ([= ->] & _).
  rewrite H in Hr; done.
Qed.

Lemma nid_inj q l1 n l2 m : ids_ok q -> nodes q = l1 ++ n :: l2 -> m ∈ nodes q -> nid m = nid n -> m = n.
Proof using.
  intros [Hn _] E Hm Heq. apply list_elem_of_lookup in Hm as [i Hi]. assert (nodes q !! length l1 = Some n) as Hj by (rewrite E; by apply list_lookup_middle).
  assert (i = length l1) as ->; [|congruence]. eapply NoDup_lookup; [exact Hn| |]; unfold ids; rewrite list_lookup_fmap, ?Hi, ?Hj; cbn; [done|congruence].
Qed.

Lemma compressQ_spec q act dc tss p : chain q act dc tss -> p ∈ ids q ->
  exists l, compressQ q p = Ret (set_nodes q l) /\ Forall2 sim (nodes q) l /\ forall act', spent act dc p act' -> chain (set_nodes q l) act' dc tss.
Proof using Hmem.
  intros Hc Hp. destruct (in_chain q p Hp) as (l1 & n & l2 & E & ->). pose proof Hc as [Hids Hbody Hlen Hcomp Htight Hflags Hdont]. pose proof (bodies_of _ _ _ Hbody) as Hbs.
  unfold quicklistCompress. rewrite (node_mid q l1 l2 n E Hids). cbn [obind]. destruct (recompress n) eqn:Hr.
  - destruct (Hflags l1 n l2 E Hr) as (Hact & H1 & H2 & Hc0 & Hl0). rewrite E in Hbs. destruct (bodies_mid _ _ _ _ Hbs) as [ts Hts]. destruct (compressC_mid q l1 n l2 _ ts E Hids Hts H1 H2) as (n' & -> & Hs & Hd).
    set (l := l1 ++ n' :: l2). assert (Forall2 sim (nodes q) l) as Hss by (rewrite E; by apply sims_mid). exists l. split; [done|]. split; [done|].
    assert (tight (compress q) l) as Ht.
    { destruct Htight as [[He1 He2] _]. rewrite E in He1, He2. split; [|right; rewrite <- (Forall2_length _ _ _ Hss); done]. split; intros m Hm.
      - apply He1. destruct l1; [done|]. done.
      - apply He2. destruct l2 as [|x l2 _] using rev_ind; [done|]. unfold l in Hm. rewrite app_comm_cons, app_assoc, last_snoc in Hm |- *. done. }
    pose proof (chain_sim q act dc tss l Hc Hss Ht) as Hc'. intros act' [->|(_ & Hdc & ->)]; [done|]. apply (chain_spent _ act dc tss (nid n) Hc' Hact).
    intros m Hm Heq. assert (m = n') as -> by (eapply (nid_inj (set_nodes q l) l1 n' l2); [apply (ch_ids _ _ _ _ Hc')|done|done|by rewrite (sim_nid _ _ Hs)]). apply Hd.
    apply not_true_iff_false. intros Hd'. unfold donts in Hdont. rewrite E in Hdont. apply Forall_app in Hdont as [_ Hdont]. apply Forall_cons in Hdont as [Hdont _]. by apply Hdc, Hdont.
  - destruct (compressL_spec q (Some (nid n))) as (l & -> & Hs & Ht); try done; [by eapply flags_ends|by apply tight_soft|by intros ? [= <-]|]. exists l. split; [done|]. split; [done|].
    pose proof (chain_sim q act dc tss l Hc Hs Ht) as Hc'. intros act' [->|(Ha & Hdc & ->)]; [done|]. apply (chain_spent _ act dc tss (nid n) Hc' Ha).
    intros m Hm Heq. apply list_elem_of_lookup in Hm as [i Hi]. destruct (sim_lookup _ _ _ _ Hs Hi) as (m0 & Hi0 & Hm0). assert (m0 = n) as -> by (eapply nid_inj; [done|done|by eapply list_elem_of_lookup_2|by rewrite <- (sim_nid _ _ Hm0)]).
    apply not_true_iff_false. intros Hr'. apply (sim_re _ _ Hm0) in Hr'. congruence.
Qed.

(** ** Nodes in and out of the chain *)

Abbreviation insertN := (__quicklistInsertNode fresh base htab).
Abbreviation deleteN := (__quicklistDelNode fresh base htab).

(** A node that is not in the chain yet. *)
Record loose (q : quicklist) (n : quicklistNode) : Prop := {
  lo_new : nid n ∉ ids q;
  lo_lt : (nid n < next_nid q)%nat;
  lo_raw : is_lzf n = false;
  lo_re : recompress n = false;
  lo_dont : dont_compress n = false
}.

Lemma tight_insert c l1 l2 n : tight c (l1 ++ l2) -> is_lzf n = false -> tight c (l1 ++ n :: l2).
Proof using.
  intros [[H1 H2] H] Hn. split.
  - split; intros m Hm.
    + destruct l1; [injection Hm as <-; done|]. by apply H1.
    + destruct l2 as [|x l2 _] using rev_ind; [rewrite last_snoc in Hm; congruence|]. rewrite app_comm_cons, app_assoc, last_snoc in Hm. apply H2. by rewrite app_assoc, last_snoc.
  - destruct H as [H|H]; [left|right; rewrite length_app in H |- *; cbn [length]; lia]. apply all_raw_app in H as [? ?]. apply all_raw_app. split; [done|]. by constructor.
Qed.

Lemma flags_insert c act l1 l2 n : flags c act (l1 ++ l2) -> recompress n = false -> flags c act (l1 ++ n :: l2).
Proof using.
  intros H Hn m1 m m2 E Hr.
  assert (exists r1 r2, l1 ++ l2 = r1 ++ m :: r2 /\ (r1 <> [] -> m1 <> []) /\ (r2 <> [] -> m2 <> [])) as (r1 & r2 & Er & Hr1 & Hr2).
  { destruct (decide (length m1 < length l1)%nat) as [Hlt|Hge].
    - assert (exists l1', l1 = m1 ++ m :: l1') as [l1' ->].
      { exists (drop (S (length m1)) l1). rewrite <- (take_drop (length m1) l1) at 1. assert (take (length m1) l1 = m1) as -> by (apply (f_equal (take (length m1))) in E; rewrite take_app_length, take_app_le in E; [done|lia]).
        f_equal. apply drop_S. assert ((l1 ++ n :: l2) !! length m1 = Some m) as El by (rewrite E; by apply list_lookup_middle). by rewrite lookup_app_l in El by lia. }
      rewrite <- app_assoc in E. apply app_inv_head in E. injection E as E. exists m1, (l1' ++ l2). rewrite <- app_assoc. split; [done|]. split; [done|]. intros _ ->. apply (f_equal length) in E. rewrite length_app in E. cbn in E. lia.
    - assert (exists m1', m1 = l1 ++ m1') as [m1' ->].
      { exists (drop (length l1) m1). rewrite <- (take_drop (length l1) m1) at 1. f_equal. apply (f_equal (take (length l1))) in E. rewrite take_app_length, take_app_le in E; [done|lia]. }
      rewrite <- app_assoc in E. apply app_inv_head in E. destruct m1' as [|x m1']; injection E as -> E; [congruence|]. subst l2. exists (l1 ++ m1'), m2. rewrite <- app_assoc. split; [done|]. split; [|done]. by destruct l1. }
  destruct (H r1 m r2 Er Hr) as (? & ? & ? & ? & ?). split_and!; auto. rewrite length_app in *. cbn [length]. lia.
Qed.

Lemma ids_insert q l1 l2 n k : ids_ok q -> nodes q = l1 ++ l2 -> loose q n -> ids_ok (add_len (set_nodes q (l1 ++ n :: l2)) k).
Proof using.
  intros [Hn Hf] E [Hnew Hlt _ _ _]. unfold ids in *. rewrite E in *. split; unfold ids; cbn.
  - assert (Permutation (nid <$> l1 ++ n :: l2) (nid n :: (nid <$> l1 ++ l2))) as -> by (rewrite <- fmap_cons; apply Permutation_map; by rewrite Permutation_middle). by apply NoDup_cons.
  - rewrite !fmap_app, fmap_cons in *. rewrite Forall_app, Forall_cons in *. tauto.
Qed.

Lemma chain_insert q act dc t1 t2 l1 l2 n ts : chain q act dc (t1 ++ t2) -> nodes q = l1 ++ l2 -> length l1 = length t1 -> loose q n -> body_ok (fill q) n ts ->
  chain (add_len (set_nodes q (l1 ++ n :: l2)) 1) act dc (t1 ++ ts :: t2).
Proof using.
  intros [] E Hlen Hlo Hb. rewrite E in *. apply Forall2_app_inv in ch_body0 as [Hb1 Hb2]; [|done]. split; cbn; [by apply ids_insert| | |done|by apply tight_insert, lo_raw with q|by apply flags_insert, lo_re with q|].
  - apply Forall2_app; [done|]. by constructor.
  - rewrite ch_len0, !length_app. cbn [length]. lia.
  - apply Forall_app in ch_donts0 as [? ?]. apply Forall_app. split; [done|]. constructor; [|done]. rewrite (lo_dont _ _ Hlo). done.
Qed.

Lemma insert_compress q q1 L T act dc n new (Hq : q1 = add_len (set_nodes q L) 1) : chain q1 act dc T -> nid n ∈ ids q1 -> nid new ∈ ids q1 ->
  exists l, (let* q := compressQ q1 (nid n) in compressQ q (nid new)) = Ret (add_len (set_nodes q l) 1) /\ Forall2 sim L l /\
    forall act', spent act dc (nid n) act' -> chain (add_len (set_nodes q l) 1) act' dc T.
Proof using Hmem.
  intros Hc1 H1 H2. destruct (compressQ_spec q1 act dc T (nid n) Hc1 H1) as (l & -> & Hs & Hc2). cbn [obind].
  assert (nid new ∈ ids (set_nodes q1 l)) as H2' by (unfold ids; cbn; by rewrite (ids_sim _ _ Hs)).
  destruct (compressQ_spec _ act dc T (nid new) (Hc2 act (or_introl eq_refl)) H2') as (l' & E' & Hs' & _). exists l'. rewrite E'. subst q1. split; [done|]. split; [by eapply sims_trans|].
  intros act' Hsp. destruct (compressQ_spec _ act' dc T (nid new) (Hc2 act' Hsp) H2') as (l'' & E'' & _ & Hc3). rewrite E'' in E'. injection E' as ->. apply Hc3. by left.
Qed.

(** A new node next to one that is in the chain. *)
Lemma insert_mid q act dc l1 n l2 t1 t t2 new tn (after : bool) : chain q act dc (t1 ++ t :: t2) -> nodes q = l1 ++ n :: l2 -> length l1 = length t1 -> loose q new -> body_ok (fill q) new tn ->
  exists l, insertN q (Some (nid n)) new after = Ret (add_len (set_nodes q l) 1) /\
    Forall2 sim (if after then l1 ++ n :: new :: l2 else l1 ++ new :: n :: l2) l /\
    forall act', spent act dc (nid n) act' -> chain (add_len (set_nodes q l) 1) act' dc (if after then t1 ++ t :: tn :: t2 else t1 ++ tn :: t :: t2).
Proof using Hmem.
  intros Hc E Hlen Hlo Hb. unfold __quicklistInsertNode. rewrite (find_node_mid q l1 l2 n E (ch_ids _ _ _ _ Hc)). cbn [obind]. destruct after.
  - assert (nodes q = (l1 ++ [n]) ++ l2) as E1 by (by rewrite <- app_assoc). replace (S (length l1)) with (length (l1 ++ [n])) by (rewrite length_app; cbn; lia). rewrite E1, take_app_length, drop_app_length.
    pose proof (chain_insert q act dc (t1 ++ [t]) t2 (l1 ++ [n]) l2 new tn ltac:(by rewrite <- app_assoc) E1 ltac:(rewrite !length_app; cbn; lia) Hlo Hb) as Hc1. rewrite <- !app_assoc in *. cbn [app] in *.
    apply (insert_compress q _ _ _ _ _ n new eq_refl Hc1); unfold ids; cbn; rewrite fmap_app, elem_of_app; right; [left|right; left].
  - rewrite E, take_app_length, drop_app_length.
    pose proof (chain_insert q act dc t1 (t :: t2) l1 (n :: l2) new tn Hc E Hlen Hlo Hb) as Hc1.
    apply (insert_compress q _ _ _ _ _ n new eq_refl Hc1); unfold ids; cbn; rewrite fmap_app, elem_of_app; right; [right; left|left].
Qed.

Lemma insert_only q act dc new tn after : chain q act dc [] -> loose q new -> body_ok (fill q) new tn ->
  exists l, insertN q None new after = Ret (add_len (set_nodes q l) 1) /\ Forall2 sim [new] l /\ chain (add_len (set_nodes q l) 1) None dc [tn].
Proof using Hmem.
  intros Hc Hlo Hb. pose proof (ch_body _ _ _ _ Hc) as H0. inversion H0 as [E|]. symmetry in E. unfold __quicklistInsertNode. rewrite E. cbn [obind].
  pose proof (chain_insert q act dc [] [] [] [] new tn Hc E eq_refl Hlo Hb) as Hc1. cbn [app] in Hc1.
  assert (chain (add_len (set_nodes q [new]) 1) None dc [tn]) as Hc2 by (destruct Hc1; split; try done; apply flags_free; constructor; [apply (lo_re _ _ Hlo)|constructor]).
  destruct (compressQ_spec _ None dc [tn] (nid new) Hc2) as (l & -> & Hs & Hc3); [left|]. exists l. split; [done|]. split; [done|]. apply Hc3. by left.
Qed.

Lemma ids_delete q l1 n l2 : ids_ok q -> nodes q = l1 ++ n :: l2 -> ids_ok (set_nodes q (l1 ++ l2)).
Proof using.
  intros [Hn Hf] E. unfold ids in *. rewrite E in *. split; unfold ids; cbn; rewrite !fmap_app, fmap_cons in *.
  - apply NoDup_app in Hn as (Ha & Hb & Hc). apply NoDup_cons in Hc as [_ Hc]. apply NoDup_app. split; [done|]. split; [|done]. intros x Hx Hx2. apply (Hb x Hx). by right.
  - rewrite Forall_app, Forall_cons in Hf. apply Forall_app. tauto.
Qed.

Lemma flags_delete c act l1 n l2 : flags c act (l1 ++ n :: l2) -> (act = None \/ act = Some (nid n)) -> (forall m, m ∈ l1 ++ l2 -> nid m <> nid n) -> flags c None (l1 ++ l2).
Proof using.
  intros H Hact Hne. apply flags_free, Forall_forall. intros m Hm. apply not_true_iff_false. intros Hr.
  assert (m ∈ l1 ++ n :: l2) as Hm' by (rewrite elem_of_app, elem_of_cons in *; tauto). apply list_elem_of_split in Hm' as (a & b & E). destruct (H a m b E Hr) as (Ha & _). destruct Hact as [->| ->]; [done|].
  injection Ha as Ha. by apply (Hne m Hm).
Qed.

(** A node leaves the chain; it may hold anything. *)
Lemma delete_mid q act act' dc l1 n0 n l2 t1 t t2 : chain q act dc (t1 ++ t :: t2) -> nodes q = l1 ++ n0 :: l2 -> length l1 = length t1 -> nid n = nid n0 -> flags (compress q) act' (l1 ++ l2) ->
  exists l, deleteN (set_nodes q (l1 ++ n :: l2)) (nid n0) = Ret (add_count (add_len (set_nodes q l) (-1)) (- count n)) /\ Forall2 sim (l1 ++ l2) l /\
    chain (add_count (add_len (set_nodes q l) (-1)) (- count n)) act' dc (t1 ++ t2).
Proof using Hmem.
  intros Hc E Hlen Hnid Hfl. pose proof Hc as [Hids Hbody Hl Hcomp Htight _ Hdont]. unfold __quicklistDelNode.
  set (q0 := set_nodes q (l1 ++ n :: l2)). assert (ids_ok q0) as Hids0 by (apply ids_ok_nodes; [done|]; unfold ids; rewrite E, !fmap_app, !fmap_cons; by rewrite Hnid).
  rewrite <- Hnid, (node_mid q0 l1 l2 n eq_refl Hids0), (find_node_mid q0 l1 l2 n eq_refl Hids0). cbn [obind]. change (nodes q0) with (l1 ++ n :: l2). rewrite take_app_length. replace (S (length l1)) with (length (l1 ++ [n])) by (rewrite length_app; cbn; lia).
  replace (drop (length (l1 ++ [n])) (l1 ++ n :: l2)) with l2 by (change (n :: l2) with ([n] ++ l2); rewrite app_assoc; by rewrite drop_app_length).
  set (q1 := add_count _ _). rewrite E in Hbody. apply Forall2_app_inv in Hbody as [Hb1 Hb2]; [|done]. inversion Hb2 as [|? ? ? ? _ Hb2']; subst. assert (Forall2 (body_ok (fill q)) (l1 ++ l2) (t1 ++ t2)) as Hb by (by apply Forall2_app).
  assert (ids_ok q1) as Hids1 by (pose proof (ids_delete q0 l1 n l2 Hids0 eq_refl) as [? ?]; by split).
  assert (len q1 = Z.of_nat (length (l1 ++ l2))) as Hlen1 by (cbn; rewrite Hl, E, !length_app; cbn [length]; lia).
  destruct (compressL_spec q1 None) as (l & -> & Hs & Ht); try done; [by eapply bodies_of|by eapply flags_ends| |].
  { change (soft (compress q) (l1 ++ l2)). rewrite E in Htight. destruct Htight as [_ [Hr|Hd]]; [left|right; rewrite length_app in *; cbn [length] in *; lia]. apply all_raw_app in Hr as [? Hr]. apply Forall_cons in Hr as [_ Hr]. by apply all_raw_app. }
  change (nodes q1) with (l1 ++ l2) in Hs. exists l. split; [done|]. split; [done|].
  assert (ids_ok (set_nodes q1 l)) as Hids2 by (by apply ids_ok_sim). split; cbn; [destruct Hids2; by split|by eapply body_sims| |done|done|by eapply flags_sim|].
  - change (len q + -1) with (len q1). rewrite Hlen1. by rewrite (Forall2_length _ _ _ Hs).
  - eapply donts_sim; [exact Hs|]. rewrite E in Hdont. apply Forall_app in Hdont as [? Hd]. apply Forall_cons in Hd as [_ ?]. by apply Forall_app.
Qed.
End Spec.

End QuicklistSpec.
