(* ===== verification/QuicklistElems.v ===== *)
(** * QuicklistElems: the listpack of a node, as texts (quicklist.c)

    What the operations of quicklist.c do to the listpack of one node, stated with the
    texts it holds; a pointer into the listpack is the place of an element. *)
From S2P Require Import Prelude NumStr Lzf LpEntry Listpack LpBulk StrObj Quicklist QuicklistSpec.
Import NumStr LpEntry Listpack LpBulk Quicklist QuicklistSpec.

Module QuicklistElems.

(** ** Sizes *)

Lemma text_of_string s : elem_text (elem_of_string s) = s.
Proof. unfold elem_of_string. rewrite lpStringToInt64_string2ll. destruct (string2ll s) as [v|] eqn:E; [|done]. by apply string2ll_spec in E as [_ ->]. Qed.

(** The text of a value that is read. *)
Definition value_text (v : listpackEntry) : list Z := match v with SVal s => s | LVal v => repr v end.

Lemma backlen_small l : l < 2097151 -> (length (lpEncodeBacklen l) <= 3)%nat.
Proof. intros H. unfold lpEncodeBacklen. destruct (l <=? 127); [cbn; lia|]. destruct (l <? 16383); [cbn; lia|]. by rewrite (proj2 (Z.ltb_lt _ _)) by done. Qed.

Lemma entry_size f e : elem_ok e -> Z.of_nat (length (elem_text e)) <= elem_limit f -> Z.of_nat (length (LpEntry.entry e)) <= elem_limit f + 8.
Proof.
  intros He Hl. pose proof (elem_limit_range f). unfold LpEntry.entry. rewrite length_app. destruct e as [v|s]; cbn [encode_elem elem_text] in *.
  - destruct (length_lpEncodeBacklen (Z.of_nat (length (lpEncodeIntegerGetType v)))). assert (length (lpEncodeIntegerGetType v) <= 9)%nat; [|lia]. destruct (encode_int_cases v He) as [[_ ->]|[[_ ->]|[[_ ->]|[[_ ->]|[[_ ->]|[_ ->]]]]]]; cbn [length]; rewrite ?length_le_encode; lia.
  - rewrite length_lpEncodeString. assert (str_hdr s <= 5)%nat by (unfold str_hdr; repeat case_bool; lia). pose proof (backlen_small (Z.of_nat (str_hdr s + length s)) ltac:(lia)). lia.
Qed.

Lemma total_cons e es : total (e :: es) = Z.of_nat (length (LpEntry.entry e)) + total es.
Proof. unfold total, pos. rewrite body_cons, length_app. lia. Qed.

Lemma total_nil : total [] = 7.
Proof. reflexivity. Qed.

Lemma total_ge es : Forall elem_ok es -> 2 * Z.of_nat (length es) + 7 <= total es.
Proof.
  induction 1 as [|e es He _ IH]; [rewrite total_nil; cbn; lia|]. rewrite total_cons. cbn [length]. unfold LpEntry.entry. rewrite length_app.
  pose proof (length_encode_elem e He). pose proof (length_lpEncodeBacklen (Z.of_nat (length (encode_elem e)))). lia.
Qed.

Lemma total_le f es : Forall elem_ok es -> Forall (fun t => bytes t /\ Z.of_nat (length t) <= elem_limit f) (elem_text <$> es) -> total es <= Z.of_nat (length es) * (elem_limit f + 8) + 7.
Proof.
  induction 1 as [|e es He _ IH]; intros Hs; [rewrite total_nil; cbn [length]; lia|]. rewrite fmap_cons in Hs. apply Forall_cons in Hs as [[_ Ht] Hs]. rewrite total_cons. cbn [length]. pose proof (entry_size f e He Ht). specialize (IH Hs). lia.
Qed.

Lemma total_small f es : Forall elem_ok es -> small f (elem_text <$> es) -> total es < 2 ^ 31.
Proof. intros Hok (H1 & H2 & H3). rewrite length_fmap in *. pose proof (total_le f es Hok H1). lia. Qed.

Lemma small_sub f ts ts' : small f ts -> (forall t, t ∈ ts' -> t ∈ ts) -> (length ts' <= length ts)%nat -> small f ts'.
Proof. intros (H1 & H2 & H3) Hin Hl. pose proof (elem_limit_range f). split; [|split; [lia|nia]]. rewrite Forall_forall in *. auto. Qed.

Lemma small_nil f : small f [].
Proof. split; [constructor|]. cbn. lia. Qed.

Lemma small_one f t : bytes t -> Z.of_nat (length t) <= elem_limit f -> small f [t].
Proof. intros H1 H2. pose proof (elem_limit_range f). split; [by repeat constructor|]. cbn [length]. lia. Qed.

(** ** Texts *)

Definition holds (lp : list Z) (ts : list (list Z)) : Prop := exists es, listpack lp es /\ ts = elem_text <$> es.

(** The pointer [zi] is at the element [k]. *)
Definition place (lp : list Z) (ts : list (list Z)) (k zi : nat) : Prop :=
  exists es, listpack lp es /\ ts = elem_text <$> es /\ (k < length ts)%nat /\ zi = pos (take k es).

Lemma place_holds lp ts k zi : place lp ts k zi -> holds lp ts /\ (k < length ts)%nat.
Proof. intros (es & H & E & Hk & _). split; [by exists es|done]. Qed.

Lemma place_split (es : list elem) k : (k < length es)%nat -> exists e, es = take k es ++ e :: drop (S k) es /\ es !! k = Some e.
Proof. intros Hk. destruct (lookup_lt_is_Some_2 es k Hk) as [e He]. exists e. split; [|done]. by rewrite take_drop_middle. Qed.

Lemma edit_small f es : Forall elem_ok es -> small f (elem_text <$> es) -> total es <= UINT32_MAX.
Proof. intros H1 H2. pose proof (total_small f es H1 H2). unfold UINT32_MAX. lia. Qed.

Section Texts.
Context (fresh : nat -> Z) (usable : nat -> nat) (Husable : forall n, (n <= usable n)%nat).
Context (f : Z).

Lemma elem_of_string_ok t : bytes t -> Z.of_nat (length t) <= elem_limit f -> elem_ok (elem_of_string t).
Proof using.
  intros Hb Hl. pose proof (elem_limit_range f). unfold elem_of_string. rewrite lpStringToInt64_string2ll. destruct (string2ll t) as [v|] eqn:E; [by apply string2ll_spec in E as [? _]|]. split; [done|lia].
Qed.

Lemma listpack_elems lp es : listpack lp es -> Forall elem_ok es.
Proof using. intros (nf & slack & R). exact (lp_elems _ _ _ _ R). Qed.

Lemma holds_length lp es ts : listpack lp es -> ts = elem_text <$> es -> length ts = length es.
Proof using. intros _ ->. apply length_fmap. Qed.

Lemma holds_new : holds (lpNew fresh usable 0) [].
Proof using Husable. exists []. split; [by apply lpNew_spec|done]. Qed.

(** The text [t] put between two elements. *)
Lemma insert_text lp es1 es2 t wh left right : listpack lp (es1 ++ es2) -> small f (t :: (elem_text <$> left ++ right)) -> edit_at wh (Some (elem_of_string t)) es1 es2 = Some (left, [], right) -> left ++ right = es1 ++ es2 ->
  exists lp', lpInsert fresh usable lp (Some t) None (pos es1) wh = Ret (Some (lp', Some (pos left))) /\ listpack lp' (left ++ elem_of_string t :: right).
Proof using Husable.
  intros Hl Hs Hed E. pose proof Hs as (Hts & _). apply Forall_cons in Hts as [[Hb Hlt] _]. pose proof (elem_limit_range f).
  destruct (lpInsert_fits fresh usable Husable lp es1 es2 (Some (elem_of_string t)) (Some t) None wh left [] right Hl) as (lp' & E' & Hl'); try done.
  - by apply insert_args_string.
  - intros s [= <-]. lia.
  - cbn [olist app]. apply (edit_small f).
    + apply listpack_elems in Hl. rewrite <- E in Hl. apply Forall_app in Hl as [? ?]. apply Forall_app. split; [done|]. constructor; [by apply elem_of_string_ok|done].
    + eapply small_sub; [exact Hs| |]; rewrite !fmap_app, fmap_cons, text_of_string.
      * intros x. rewrite !elem_of_app, !elem_of_cons, elem_of_app. tauto.
      * cbn [length]. rewrite !length_app. cbn [length]. lia.
  - exists lp'. done.
Qed.

Lemma push_text at_head lp ts t : holds lp ts -> small f (t :: ts) ->
  exists lp', push_lp fresh usable at_head lp t = Ret lp' /\ holds lp' (if at_head then t :: ts else ts ++ [t]).
Proof using Husable.
  intros (es & Hl & ->) Hs. assert (exists lp' p, lpAppend fresh usable lp t = Ret (Some (lp', p)) /\ listpack lp' (es ++ [elem_of_string t])) as (lpa & pa & Ea & Ha).
  { unfold lpAppend. pose proof Hl as (nf & slack & R). rewrite (get_total lp es nf slack R). replace (Z.to_nat (total es - 1)) with (pos es) by (unfold total; lia).
    destruct (insert_text lp es [] t LP_BEFORE es []) as (lp' & -> & Hl'); try done; [by rewrite app_nil_r|by rewrite app_nil_r|]. eauto. }
  destruct at_head; unfold push_lp, not_null.
  - assert (exists lp' p, lpPrepend fresh usable lp t = Ret (Some (lp', p)) /\ listpack lp' (elem_of_string t :: es)) as (lp' & p & -> & Hl').
    { unfold lpPrepend. pose proof Hl as (nf & slack & R). rewrite (lpFirst_spec lp es nf slack R). destruct es as [|e es]; cbn [obind ptr]; [eauto|].
      destruct (insert_text lp [] (e :: es) t LP_BEFORE [] (e :: es)) as (lp' & -> & Hl'); try done. eauto. }
    cbn [obind]. exists lp'. split; [done|]. exists (elem_of_string t :: es). split; [done|]. by rewrite fmap_cons, text_of_string.
  - rewrite Ea. cbn [obind]. exists lpa. split; [done|]. exists (es ++ [elem_of_string t]). split; [done|]. by rewrite fmap_app, fmap_cons, text_of_string.
Qed.

(** ** At a place *)

Lemma seek_text lp ts i : holds lp ts -> exists r, lpSeek lp i = Ret r /\
  let k := if i <? 0 then Z.of_nat (length ts) + i else i in
  if (0 <=? k) && (k <? Z.of_nat (length ts)) then exists zi, r = Some zi /\ place lp ts (Z.to_nat k) zi else r = None.
Proof using.
  intros (es & Hl & ->). pose proof Hl as (nf & slack & R). rewrite (lpSeek_spec lp es nf slack R). eexists. split; [done|]. cbn. unfold nth_ptr. rewrite length_fmap. set (k := if i <? 0 then _ else _).
  destruct (_ && _) eqn:Eb; [|done]. zbool. eexists. split; [done|]. exists es. split; [done|]. split; [done|]. rewrite length_fmap. split; [lia|done].
Qed.

Lemma next_text lp ts k zi : place lp ts k zi -> exists r, lpNext lp zi = Ret r /\ if (S k <? length ts)%nat then exists zi', r = Some zi' /\ place lp ts (S k) zi' else r = None.
Proof using.
  intros (es & Hl & -> & Hk & ->). rewrite length_fmap in Hk. destruct (place_split es k Hk) as (e & E & _). pose proof Hl as (nf & slack & R). rewrite (lpNext_spec lp es nf slack R (take k es) e (drop (S k) es) E). eexists. split; [done|]. rewrite length_fmap.
  assert (take k es ++ [e] = take (S k) es) as Et. { rewrite E at 2. rewrite take_app, length_take. replace (S k - k `min` length es)%nat with 1%nat by lia. cbn [take]. rewrite take_take. by replace (S k `min` k)%nat with k by lia. }
  rewrite Et. destruct (Nat.ltb_spec (S k) (length es)) as [Hlt|Hge].
  - destruct (drop (S k) es) as [|x r] eqn:Ed; [apply (f_equal length) in Ed; rewrite length_drop in Ed; cbn in Ed; lia|]. cbn [ptr]. eexists. split; [done|]. exists es. split; [done|]. split; [done|]. rewrite length_fmap. done.
  - rewrite drop_ge by lia. done.
Qed.

Lemma prev_text lp ts k zi : place lp ts k zi -> exists r, lpPrev lp zi = Ret r /\ match k with O => r = None | S j => exists zi', r = Some zi' /\ place lp ts j zi' end.
Proof using.
  intros (es & Hl & -> & Hk & ->). rewrite length_fmap in Hk. pose proof Hl as (nf & slack & R). destruct k as [|j].
  - rewrite take_0, lpPrev_first. by eexists.
  - destruct (place_split es j ltac:(lia)) as (e & E & He). rewrite (take_S_r es j e He). rewrite (lpPrev_spec lp es nf slack R (take j es) e (drop (S j) es) E). eexists. split; [done|]. eexists. split; [done|]. exists es. split; [done|]. split; [done|]. rewrite length_fmap. split; [lia|done].
Qed.

Lemma value_at lp ts k zi : place lp ts k zi -> ts !! k = Some (value_text (lpGetValue lp zi)).
Proof using.
  intros (es & Hl & -> & Hk & ->). rewrite length_fmap in Hk. destruct (place_split es k Hk) as (e & E & He). rewrite (lpGetValue_spec lp es (take k es) e (drop (S k) es) Hl E), list_lookup_fmap, He. by destruct e.
Qed.

(** An integer that is read has 64 bits. *)
Definition sane (v : listpackEntry) : Prop := match v with SVal _ => True | LVal v => in_s 64 v end.

Lemma value_sane lp ts k zi : place lp ts k zi -> sane (lpGetValue lp zi).
Proof using.
  intros (es & Hl & -> & Hk & ->). rewrite length_fmap in Hk. destruct (place_split es k Hk) as (e & E & He). rewrite (lpGetValue_spec lp es (take k es) e (drop (S k) es) Hl E). pose proof (listpack_elems lp es Hl) as Hok. rewrite E in Hok. apply Forall_app in Hok as [_ Hok]. apply Forall_cons in Hok as [He' _]. by destruct e.
Qed.

Lemma compare_text lp ts k zi t : place lp ts k zi -> lpCompare lp zi t = bool_decide (ts !! k = Some t).
Proof using.
  intros (es & Hl & -> & Hk & ->). rewrite length_fmap in Hk. destruct (place_split es k Hk) as (e & E & He). rewrite list_lookup_fmap, He. cbn. pose proof Hl as (nf & slack & R).
  pose proof (has_entry lp es nf slack R (take k es) e (drop (S k) es) E) as Hh. apply has_app in Hh as [Hh _]. pose proof (listpack_elems lp es Hl) as Hok. rewrite E in Hok. apply Forall_app in Hok as [_ Hok]. apply Forall_cons in Hok as [He' _].
  destruct (lpGetString_lpCompare lp (pos (take k es)) e (repeat 0 21) t He' Hh eq_refl) as [_ Hc]. apply eq_bool_prop_intro. rewrite bool_decide_spec. split; intros H.
  - apply Is_true_true, Hc in H. by subst.
  - apply Is_true_true, Hc. congruence.
Qed.

(** ** Edits *)

Lemma fmap_split (es : list elem) k : elem_text <$> take k es ++ drop (S k) es = take k (elem_text <$> es) ++ drop (S k) (elem_text <$> es).
Proof using. by rewrite fmap_app, <- fmap_take, <- fmap_drop. Qed.

(** Deleting the element [k]: the pointer to the one that was after it. *)
Lemma delete_place lp ts k zi : place lp ts k zi -> small f ts -> exists lp' r, lpDelete fresh usable lp zi = Ret (Some (lp', r)) /\ holds lp' (take k ts ++ drop (S k) ts) /\
  if decide (S k < length ts)%nat then exists zi', r = Some zi' /\ place lp' (take k ts ++ drop (S k) ts) k zi' else r = None.
Proof using Husable.
  intros (es & Hl & -> & Hk & ->) Hs. rewrite length_fmap in Hk. destruct (place_split es k Hk) as (e & E & _).
  destruct (lpInsert_fits fresh usable Husable lp (take k es) (e :: drop (S k) es) None None None LP_REPLACE (take k es) [e] (drop (S k) es)) as (lp' & E' & Hl'); try done; [by rewrite <- E| |].
  - cbn [olist app]. apply (edit_small f).
    + apply listpack_elems in Hl. rewrite E in Hl. apply Forall_app in Hl as [? Hl]. apply Forall_cons in Hl as [_ ?]. by apply Forall_app.
    + eapply small_sub; [exact Hs| |]; rewrite fmap_app.
      * intros x. rewrite E at 3. rewrite fmap_app, fmap_cons, !elem_of_app, elem_of_cons. tauto.
      * rewrite !length_app, !length_fmap, length_take, length_drop. lia.
  - unfold lpDelete. rewrite E'. exists lp'. eexists. split; [done|]. cbn [olist app] in Hl'. split; [eexists; split; [exact Hl'|]; by rewrite fmap_split|]. rewrite length_fmap. destruct (decide _) as [Hlt|Hge].
    + destruct (drop (S k) es) as [|x r] eqn:Ed; [apply (f_equal length) in Ed; rewrite length_drop in Ed; cbn in Ed; lia|]. eexists. split; [done|]. rewrite <- Ed in *. exists (take k es ++ drop (S k) es). split; [done|]. split; [by rewrite fmap_split|]. split; [rewrite length_app, length_take, length_drop, length_fmap; lia|].
      rewrite take_app_length' by (rewrite length_take; lia). done.
    + by rewrite drop_ge by lia.
Qed.

Lemma delete_text lp ts k zi : place lp ts k zi -> small f ts -> exists lp' r, lpDelete fresh usable lp zi = Ret (Some (lp', r)) /\ holds lp' (take k ts ++ drop (S k) ts).
Proof using Husable. intros Hp Hs. destruct (delete_place lp ts k zi Hp Hs) as (lp' & r & H1 & H2 & _). eauto. Qed.

Lemma replace_text lp ts k zi t : place lp ts k zi -> small f (take k ts ++ t :: drop (S k) ts) ->
  exists lp' r, lpReplace fresh usable lp zi t = Ret (Some (lp', r)) /\ holds lp' (take k ts ++ t :: drop (S k) ts).
Proof using Husable.
  intros (es & Hl & -> & Hk & ->) Hs. rewrite length_fmap in Hk. destruct (place_split es k Hk) as (e & E & _). pose proof Hs as (Hts & _). apply Forall_app in Hts as [_ Hts]. apply Forall_cons in Hts as [[Hb Hlt] _]. pose proof (elem_limit_range f).
  assert (elem_text <$> take k es ++ elem_of_string t :: drop (S k) es = take k (elem_text <$> es) ++ t :: drop (S k) (elem_text <$> es)) as Et by (by rewrite fmap_app, fmap_cons, text_of_string, <- fmap_take, <- fmap_drop).
  destruct (lpInsert_fits fresh usable Husable lp (take k es) (e :: drop (S k) es) (Some (elem_of_string t)) (Some t) None LP_REPLACE (take k es) [e] (drop (S k) es)) as (lp' & E' & Hl'); try done; [by rewrite <- E|by apply insert_args_string|intros s [= <-]; lia| |].
  - cbn [olist app]. apply (edit_small f); [|by rewrite Et]. apply listpack_elems in Hl. rewrite E in Hl. apply Forall_app in Hl as [? Hl]. apply Forall_cons in Hl as [_ ?]. apply Forall_app. split; [done|]. constructor; [by apply elem_of_string_ok|done].
  - unfold lpReplace. exists lp'. eexists. split; [exact E'|]. eexists. split; [exact Hl'|]. cbn [olist app]. by rewrite Et.
Qed.

Lemma insert_at_text lp ts k zi t (after : bool) : place lp ts k zi -> small f (t :: ts) ->
  exists lp' zi', lpInsertString fresh usable lp t zi (if after then LP_AFTER else LP_BEFORE) = Ret (Some (lp', Some zi')) /\
    holds lp' (let j := if after then S k else k in take j ts ++ t :: drop j ts).
Proof using Husable.
  intros (es & Hl & -> & Hk & ->) Hs. rewrite length_fmap in Hk. destruct (place_split es k Hk) as (e & E & He).
  set (j := if after then S k else k).
  destruct (insert_text lp (take k es) (e :: drop (S k) es) t (if after then LP_AFTER else LP_BEFORE) (take j es) (drop j es)) as (lp' & E' & Hl').
  - by rewrite <- E.
  - by rewrite take_drop.
  - unfold j. destruct after; cbn; [by rewrite (take_S_r es k e He)|]. by rewrite (drop_S es e k He).
  - by rewrite take_drop, <- E.
  - exists lp'. eexists. split; [exact E'|]. cbn. eexists. split; [exact Hl'|]. by rewrite fmap_app, fmap_cons, text_of_string, fmap_take, fmap_drop.
Qed.

Lemma range_text lp ts start extent : holds lp ts -> exists lp', lp_delete_range fresh usable lp start extent = Ret lp' /\
  holds lp' (let k := if start <? 0 then Z.of_nat (length ts) + start else start in
             if (0 <=? k) && (k <? Z.of_nat (length ts)) then take (Z.to_nat k) ts ++ (if extent <? 0 then [] else drop (Z.to_nat k + Z.to_nat extent) ts) else ts).
Proof using Husable.
  intros (es & Hl & ->). unfold lp_delete_range. set (num := if extent <? 0 then length lp else Z.to_nat extent). destruct (lpDeleteRange_spec fresh usable Husable lp es start num Hl) as (lp' & -> & Hl'). exists lp'. split; [done|].
  eexists. split; [exact Hl'|]. cbn. unfold resolve. rewrite length_fmap. set (k := if start <? 0 then _ else _). destruct (_ && _) eqn:Eb; [|done]. rewrite fmap_app, fmap_take. f_equal. unfold num. destruct (extent <? 0); [|by rewrite fmap_drop].
  rewrite drop_ge; [done|]. destruct (listpack_bytes lp es Hl) as (Ht & _). pose proof (total_ge es (listpack_elems lp es Hl)). lia.
Qed.

Lemma merge_text lp1 lp2 ts1 ts2 : holds lp1 ts1 -> holds lp2 ts2 -> small f (ts1 ++ ts2) ->
  exists lp first, lpMerge fresh usable (Some lp1) (Some lp2) false = Ret (Some (lp, first)) /\ holds lp (ts1 ++ ts2).
Proof using Husable.
  intros (es1 & H1 & ->) (es2 & H2 & ->) Hs. rewrite <- fmap_app in Hs |- *. pose proof (lpMerge_spec fresh usable Husable lp1 lp2 es1 es2 H1 H2) as Hm.
  assert (total (es1 ++ es2) < 2 ^ 31) as Ht by (eapply total_small; [apply Forall_app; split; by eapply listpack_elems|exact Hs]). destruct (Z.leb_spec UINT32_MAX (total (es1 ++ es2))) as [Hb|_]; [unfold UINT32_MAX in Hb; lia|].
  destruct Hm as (lp & -> & Hl). exists lp. eexists. split; [done|]. by exists (es1 ++ es2).
Qed.

Lemma length_text lp ts : holds lp ts -> exists lp', lpLength lp = Ret (Z.of_nat (length ts), lp') /\ holds lp' ts.
Proof using. intros (es & Hl & ->). destruct (lpLength_spec lp es Hl) as (lp' & -> & Hl'). exists lp'. rewrite length_fmap. split; [done|]. by exists es. Qed.

(** ** Nodes *)

Lemma put_body n lp ts : kind n = PACKED -> holds lp ts -> small f ts -> body_ok f (put_lp n lp) ts.
Proof using.
  intros Hk (es & Hl & ->) Hs. split; [|done]. cbn. rewrite Hk. exists es. split; [|done]. split; [|done]. cbn. destruct Hl as (nf & slack & R). unfold lpBytes. by rewrite (get_total lp es nf slack R).
Qed.

Lemma get_body n ts : body_ok f n ts -> kind n = PACKED -> is_lzf n = false -> exists lp, raw n = Ret lp /\ entry n = Raw lp /\ holds lp ts /\ small f ts /\
  holds (take (Z.to_nat (sz n)) lp) ts /\ 2 * Z.of_nat (length ts) + 7 <= sz n < 2 ^ 31.
Proof using.
  intros [Hb _] Hk Hl. rewrite Hk in Hb. destruct Hb as (es & (Hs & He) & -> & Hsm). unfold raw, is_lzf in *. destruct (entry n) as [lp|]; [|done]. exists lp. destruct (listpack_bytes lp es He) as (_ & _ & Hlp & _). rewrite Hs.
  split_and!; try done; [by exists es|by exists es| |]; [rewrite length_fmap; by apply total_ge, listpack_elems with lp|apply (total_small f); [by eapply listpack_elems|done]].
Qed.

(** The size, for a node that may be compressed. *)
Lemma body_size n ts : body_ok f n ts -> kind n = PACKED -> 2 * Z.of_nat (length ts) + 7 <= sz n < 2 ^ 31 /\ small f ts.
Proof using.
  intros [Hb _] Hk. rewrite Hk in Hb. destruct Hb as (es & (Hs & He) & -> & Hsm). assert (Forall elem_ok es) as Hok by (destruct (entry n); [by eapply listpack_elems|destruct He as (b & Hb & _); by eapply listpack_elems]).
  rewrite Hs, length_fmap. split; [|done]. split; [by apply total_ge|by apply (total_small f)].
Qed.

(** ** Limits *)

Lemma isLarge_spec z : isLargeElement 0 z f = (elem_limit f <? z).
Proof using. unfold isLargeElement, elem_limit, sizeMeetsSafetyLimit. cbn [Z.eqb negb]. destruct (0 <=? f); [|done]. by rewrite Z.leb_antisym, negb_involutive. Qed.

Lemma exceeds_spec new_sz new_count : quicklistNodeExceedsLimit f new_sz new_count = false -> new_sz <= elem_limit f.
Proof using.
  unfold quicklistNodeExceedsLimit, quicklistNodeLimit, elem_limit, sizeMeetsSafetyLimit. destruct (0 <=? f); [|by rewrite Z.ltb_ge]. rewrite Z.leb_antisym, negb_involutive. destruct (Z.ltb_spec SIZE_SAFETY_LIMIT new_sz); [done|]. intros _. lia.
Qed.

Lemma small_count ts : Forall (fun t => bytes t /\ Z.of_nat (length t) <= elem_limit f) ts -> 2 * Z.of_nat (length ts) + 7 <= elem_limit f -> small f ts.
Proof using. intros H1 H2. pose proof (elem_limit_range f) as HL. split; [done|]. assert (Z.of_nat (length ts) <= 32764) as Hc by lia. split; [lia|]. assert (Z.of_nat (length ts) * (elem_limit f + 8) <= 32764 * 65544) by (apply Z.mul_le_mono_nonneg; lia). lia. Qed.

Lemma allow_insert n ts t : _quicklistNodeAllowInsert 0 (Some n) f (Z.of_nat (length t)) = true -> body_ok f n ts -> count n = Z.of_nat (length ts) -> bytes t -> kind n = PACKED /\ small f (t :: ts).
Proof using.
  unfold _quicklistNodeAllowInsert. rewrite isLarge_spec. intros Ha Hb Hc Ht. destruct (is_plain n) eqn:Hp; [done|]. assert (kind n = PACKED) as Hk by (unfold is_plain in Hp; by destruct (kind n)). split; [done|].
  destruct (Z.ltb_spec (elem_limit f) (Z.of_nat (length t))) as [|Hl]; [done|]. cbn [orb] in Ha. apply negb_true_iff, exceeds_spec in Ha. destruct (body_size n ts Hb Hk) as [Hsz Hs]. unfold SIZE_ESTIMATE_OVERHEAD in Ha.
  apply small_count; [constructor; [done|apply Hs]|]. cbn [length]. lia.
Qed.

Lemma allow_merge a b ta tb : _quicklistNodeAllowMerge (Some a) (Some b) f = true -> body_ok f a ta -> body_ok f b tb -> kind a = PACKED /\ kind b = PACKED /\ small f (ta ++ tb).
Proof using.
  unfold _quicklistNodeAllowMerge, is_plain. intros Hm Ha Hb. destruct (kind a) eqn:Ka, (kind b) eqn:Kb; try done. cbn [orb] in Hm. split; [done|]. split; [done|]. apply negb_true_iff, exceeds_spec in Hm.
  destruct (body_size a ta Ha Ka) as [Sa Ma], (body_size b tb Hb Kb) as [Sb Mb]. rewrite wrap_small in Hm by (unfold in_u; lia). apply small_count; [apply Forall_app; split; [apply Ma|apply Mb]|]. rewrite length_app. lia.
Qed.
End Texts.

End QuicklistElems.
