(* ===== verification/QuicklistOps.v ===== *)
(** * QuicklistOps: pushing, popping and walking (quicklist.c)

    The whole invariant of a quicklist, and the operations that push, pop, index and
    iterate, each as what it does to the list of texts. *)
From S2P Require Import Prelude NumStr Lzf LpEntry Listpack LpBulk StrObj Quicklist QuicklistSpec QuicklistElems.
Import NumStr LpEntry Listpack LpBulk Quicklist QuicklistSpec QuicklistElems.

Module QuicklistOps.

(** ** The invariant *)

Definition lens (tss : list (list (list Z))) : list Z := (fun ts => Z.of_nat (length ts)) <$> tss.

(** The counters are right and no node is empty. *)
Record ok (q : quicklist) (act : option nat) (tss : list (list (list Z))) : Prop := {
  ok_chain : chain q act None tss;
  ok_counts : count <$> nodes q = lens tss;
  ok_full : Forall (fun ts => ts <> []) tss;
  ok_total : total_count q = Z.of_nat (length (concat tss))
}.

(** The quicklist is the list of the texts [ts]. *)
Definition rep (q : quicklist) (ts : list (list Z)) : Prop := exists tss, ok q None tss /\ ts = concat tss.

(** An element. *)
Definition text_ok (t : list Z) : Prop := bytes t /\ Z.of_nat (length t) < 2 ^ 62.

Lemma counts_sim l l' : Forall2 sim l l' -> count <$> l' = count <$> l.
Proof. induction 1 as [|a b l l' H _ IH]; [done|]. cbn. by rewrite IH, (sim_count _ _ H). Qed.

Lemma lens_app a b : lens (a ++ b) = lens a ++ lens b.
Proof. apply fmap_app. Qed.

Lemma chain_count q act dc tss k : chain q act dc tss -> chain (add_count q k) act dc tss.
Proof. intros [[] ? ? ? ? ? ?]. split; try done. Qed.

Lemma chain_create q act dc tss : chain q act dc tss -> chain (snd (quicklistCreateNode q)) act dc tss.
Proof. intros [[Hn Hf] ? ? ? ? ? ?]. split; try done. split; [done|]. eapply Forall_impl; [exact Hf|]. cbn. lia. Qed.

(** A node made by [quicklistCreateNode]. *)
Lemma created_loose q act dc tss n : chain q act dc tss -> nid n = next_nid q -> is_lzf n = false -> recompress n = false -> dont_compress n = false -> loose (snd (quicklistCreateNode q)) n.
Proof.
  intros Hc E H1 H2 H3. split; try done; [|cbn; lia]. cbn. destruct (ch_ids _ _ _ _ Hc) as [_ Hf]. intros Hin. rewrite Forall_forall in Hf. specialize (Hf _ Hin). cbn in Hf. lia.
Qed.

Lemma tight_set c l1 n n' l2 : tight c (l1 ++ n :: l2) -> is_lzf n' = is_lzf n -> tight c (l1 ++ n' :: l2).
Proof.
  intros [[H1 H2] H] Hn. split.
  - split; intros m Hm.
    + destruct l1; [injection Hm as <-; rewrite Hn; by apply H1|by apply H1].
    + destruct l2 as [|x l2 _] using rev_ind; [rewrite last_snoc in *; injection Hm as <-; rewrite Hn; by apply H2|]. rewrite app_comm_cons, app_assoc, last_snoc in *. by apply H2.
  - destruct H as [H|H]; [left|right; rewrite length_app in *; done]. apply Forall_app in H as [? H]. apply Forall_cons in H as [? ?]. apply Forall_app. split; [done|]. constructor; [congruence|done].
Qed.

Lemma flags_set c act l1 n n' l2 : flags c act (l1 ++ n :: l2) -> nid n' = nid n -> (recompress n' = true -> recompress n = true) -> flags c act (l1 ++ n' :: l2).
Proof.
  intros H Hi Hr m1 m m2 E Hm.
  assert (length m1 < length (l1 ++ n' :: l2))%nat as Hlt by (rewrite E, length_app; cbn; lia).
  assert (exists m0, (l1 ++ n :: l2) !! length m1 = Some m0 /\ nid m0 = nid m /\ (recompress m = true -> recompress m0 = true)) as (m0 & Hm0 & Hi0 & Hr0).
  { assert ((l1 ++ n' :: l2) !! length m1 = Some m) as Hl by (rewrite E; by apply list_lookup_middle). destruct (decide (length m1 = length l1)) as [El|Hne].
    - rewrite El in *. rewrite list_lookup_middle in Hl by done. injection Hl as <-. exists n. rewrite list_lookup_middle by done. done.
    - exists m. split; [|done]. destruct (decide (length m1 < length l1)%nat); [by rewrite lookup_app_l in * by lia|]. rewrite lookup_app_r in * by lia. by destruct (length m1 - length l1)%nat eqn:Ek; [lia|]. }
  destruct (H (take (length m1) (l1 ++ n :: l2)) m0 (drop (S (length m1)) (l1 ++ n :: l2))) as (Ha & Hb & Hc & Hd & He); [by rewrite take_drop_middle|by apply Hr0|].
  assert (length (l1 ++ n' :: l2) = length (l1 ++ n :: l2)) as El by (by rewrite !length_app). split_and!; try done; [congruence| | |lia].
  - intros ->. done.
  - intros ->. apply Hc, drop_ge. rewrite <- El, E, length_app. cbn. lia.
Qed.

Lemma chain_set q act dc l1 n l2 t1 t t2 n' t' : chain q act dc (t1 ++ t :: t2) -> nodes q = l1 ++ n :: l2 -> length l1 = length t1 ->
  nid n' = nid n -> (recompress n' = true -> recompress n = true) -> dont_compress n' = dont_compress n -> is_lzf n' = is_lzf n -> body_ok (fill q) n' t' ->
  chain (set_nodes q (l1 ++ n' :: l2)) act dc (t1 ++ t' :: t2).
Proof.
  intros [] E Hlen H1 H2 H3 H4 Hb. rewrite E in *. apply Forall2_app_inv in ch_body0 as [B1 B2]; [|done]. inversion B2; subst. split; cbn; try done.
  - apply ids_ok_nodes; [done|]. unfold ids. rewrite E, !fmap_app, !fmap_cons. by rewrite H1.
  - apply Forall2_app; [done|]. by constructor.
  - rewrite ch_len0, !length_app. done.
  - by eapply tight_set.
  - by eapply flags_set.
  - apply Forall_app in ch_donts0 as [? D]. apply Forall_cons in D as [? ?]. apply Forall_app. split; [done|]. constructor; [|done]. rewrite H3, H1. done.
Qed.

(** The place of a node among the texts. *)
Lemma split_texts q act dc tss l1 n l2 : chain q act dc tss -> nodes q = l1 ++ n :: l2 -> exists t1 t t2, tss = t1 ++ t :: t2 /\ length l1 = length t1 /\ length l2 = length t2 /\ body_ok (fill q) n t.
Proof.
  intros [] E. rewrite E in ch_body0. apply Forall2_app_inv_l in ch_body0 as (t1 & tr & H1 & Hr & ->). inversion Hr as [|? t ? t2 Hb H2]; subst. exists t1, t, t2. split_and!; try done; by eapply Forall2_length.
Qed.

Lemma counts_split q tss l1 n l2 t1 t t2 : count <$> nodes q = lens tss -> nodes q = l1 ++ n :: l2 -> tss = t1 ++ t :: t2 -> length l1 = length t1 ->
  count <$> l1 = lens t1 /\ count n = Z.of_nat (length t) /\ count <$> l2 = lens t2.
Proof.
  intros H E -> Hl. rewrite E in H. rewrite fmap_app, lens_app in H. apply app_inj_1 in H as [H1 H2]; [|unfold lens; by rewrite !length_fmap]. by injection H2.
Qed.

(** The end that is pushed to. *)
Definition end_of (at_head : bool) (q : quicklist) : option nat := if at_head then head q else tail q.

Section Ops.
Context (fresh : nat -> Z) (usable : nat -> nat) (base : list Z -> Z) (htab : list Z -> Z -> Z).
Context (Husable : forall n, (n <= usable n)%nat) (Hmem : memory_ok base htab).

Abbreviation insertN := (__quicklistInsertNode fresh base htab).
Abbreviation deleteN := (__quicklistDelNode fresh base htab).
Abbreviation compressQ := (quicklistCompress fresh base htab).
Abbreviation useN := (quicklistDecompressNodeForUse fresh).
Abbreviation recompressQ := (quicklistRecompressOnly fresh base htab).

(** ** Pushing *)

Lemma insert_end at_head q tss new tn : chain q None None tss -> loose q new -> body_ok (fill q) new tn ->
  exists l, insertN q (end_of at_head q) new (negb at_head) = Ret (add_len (set_nodes q l) 1) /\
    Forall2 sim (if at_head then new :: nodes q else nodes q ++ [new]) l /\
    chain (add_len (set_nodes q l) 1) None None (if at_head then tn :: tss else tss ++ [tn]).
Proof using Hmem.
  intros Hc Hlo Hb. destruct (decide (nodes q = [])) as [E0|Hne].
  - assert (tss = []) as -> by (pose proof (ch_body _ _ _ _ Hc) as H; rewrite E0 in H; by inversion H). assert (end_of at_head q = None) as -> by (unfold end_of, head, tail; rewrite E0; by destruct at_head).
    destruct (insert_only fresh base htab Hmem q None None new tn (negb at_head) Hc Hlo Hb) as (l & E & Hs & Hc'). exists l. rewrite E0. cbn [app]. destruct at_head; done.
  - destruct (head_tail q Hne) as (h & t & Eh & Et & _ & _ & [lh Elh] & [lt Elt]). destruct at_head; cbn [end_of negb].
    + rewrite Eh. destruct (split_texts q None None tss [] h lh Hc Elh) as (t1 & th & t2 & -> & Hl1 & _). destruct t1; [|done].
      destruct (insert_mid fresh base htab Hmem q None None [] h lh [] th t2 new tn false Hc Elh Hl1 Hlo Hb) as (l & -> & Hs & Hc'). exists l. rewrite Elh. split; [done|]. split; [done|]. apply (Hc' None). by left.
    + rewrite Et. destruct (split_texts q None None tss lt t [] Hc Elt) as (t1 & tl & t2 & -> & Hl1 & Hl2 & _). destruct t2; [|done].
      destruct (insert_mid fresh base htab Hmem q None None lt t [] t1 tl [] new tn true Hc Elt Hl1 Hlo Hb) as (l & -> & Hs & Hc'). exists l. rewrite Elt, <- !app_assoc. split; [done|]. split; [done|]. apply (Hc' None). by left.
Qed.

Lemma plain_node q act dc tss v : chain q act dc tss -> text_ok v -> exists n, __quicklistCreateNode fresh usable q PLAIN v = Ret (n, snd (quicklistCreateNode q)) /\
  loose (snd (quicklistCreateNode q)) n /\ body_ok (fill q) n [v] /\ count n = 1 /\ kind n = PLAIN.
Proof using.
  intros Hc [Hb Hl]. eexists. split; [done|]. split; [by eapply created_loose|]. split; [|done]. split; [|done]. cbn. exists v. done.
Qed.

Lemma packed_node q act dc tss at_head v : chain q act dc tss -> small (fill q) [v] -> exists n, new_lp_node fresh usable q at_head v = Ret (n, snd (quicklistCreateNode q)) /\
  loose (snd (quicklistCreateNode q)) n /\ body_ok (fill q) n [v] /\ count n = 0.
Proof using Husable.
  intros Hc Hs. unfold new_lp_node. cbn [quicklistCreateNode]. destruct (push_text fresh usable Husable (fill q) at_head (lpNew fresh usable 0) [] v (holds_new fresh usable Husable) Hs) as (lp & -> & Hh). cbn [obind].
  eexists. split; [done|]. split; [by eapply created_loose|]. split; [|done]. apply put_body; [done| |done]. by destruct at_head.
Qed.

(** The node at an end is never compressed. *)
Lemma end_raw at_head q act dc tss : chain q act dc tss -> nodes q <> [] ->
  exists l1 n l2, end_of at_head q = Some (nid n) /\ nodes q = l1 ++ n :: l2 /\ is_lzf n = false /\ recompress n = false /\ (if at_head then l1 = [] else l2 = []).
Proof using.
  intros Hc Hne. destruct (head_tail q Hne) as (h & t & Eh & Et & Fh & Ft & [lh Elh] & [lt Elt]). destruct (ch_tight _ _ _ _ Hc) as [[H1 H2] _]. destruct (flags_ends _ _ _ (ch_flags _ _ _ _ Hc)) as [R1 R2].
  destruct at_head; [exists [], h, lh|exists lt, t, []]; split_and!; auto.
Qed.

Lemma wrap16 z : 0 <= z < 2 ^ 16 -> wrap 16 z = z.
Proof using. intros H. apply wrap_small. unfold in_u. lia. Qed.

Definition put_end {A} (at_head : bool) (x : A) (l : list A) : list A := if at_head then x :: l else l ++ [x].

Lemma concat_put at_head (t : list Z) tss : concat (put_end at_head [t] tss) = put_end at_head t (concat tss).
Proof using. destruct at_head; cbn; [done|]. by rewrite concat_app. Qed.

Lemma length_put {A} at_head (x : A) l : length (put_end at_head x l) = S (length l).
Proof using. destruct at_head; cbn; [done|]. rewrite length_app. cbn. lia. Qed.

Lemma end_put at_head q x l : nodes q = put_end at_head x l -> end_of at_head q = Some (nid x).
Proof using. intros E. unfold end_of, head, tail. rewrite E. destruct at_head; cbn; [done|]. by rewrite last_snoc. Qed.

Lemma sims_put at_head x l l' : Forall2 sim (put_end at_head x l) l' -> exists x' m, l' = put_end at_head x' m /\ sim x x' /\ Forall2 sim l m.
Proof using.
  destruct at_head; intros H; [inversion H; subst; cbn; eauto 6|]. apply (Forall2_app_inv_l) in H as (m & r & H1 & H2 & ->). inversion H2 as [|? ? ? ? Hx H3]; subst. inversion H3; subst. eauto.
Qed.

Lemma full_put at_head (t : list Z) tss : Forall (fun ts => ts <> []) tss -> Forall (fun ts => ts <> []) (put_end at_head [t] tss).
Proof using. intros H. destruct at_head; [by constructor|]. apply Forall_app. split; [done|by repeat constructor]. Qed.

Lemma lens_put at_head ts tss : lens (put_end at_head ts tss) = put_end at_head (Z.of_nat (length ts)) (lens tss).
Proof using. destruct at_head; [done|]. apply lens_app. Qed.

Lemma counts_put at_head n l : count <$> put_end at_head n l = put_end at_head (count n) (count <$> l).
Proof using. unfold put_end. destruct at_head; [done|]. by rewrite fmap_app. Qed.

Lemma ids_put at_head x m q : nodes q = put_end at_head x m -> exists l1 l2, nodes q = l1 ++ x :: l2 /\ (forall y, l1 ++ y :: l2 = put_end at_head y m).
Proof using. intros E. destruct at_head; [exists [], m|exists m, []]; done. Qed.

(** A new node at an end, with the element counted before or after. *)
Lemma push_new at_head q tss n v : ok q None tss -> text_ok v -> loose (snd (quicklistCreateNode q)) n -> body_ok (fill q) n [v] ->
  exists x m, insertN (snd (quicklistCreateNode q)) (end_of at_head q) n (negb at_head) = Ret (add_len (set_nodes (snd (quicklistCreateNode q)) (put_end at_head x m)) 1) /\
    sim n x /\ count <$> m = lens tss /\ chain (add_len (set_nodes (snd (quicklistCreateNode q)) (put_end at_head x m)) 1) None None (put_end at_head [v] tss).
Proof using Hmem.
  intros [Hc Hcnt _ _] Hv Hlo Hb. destruct (insert_end at_head _ tss n [v] (chain_create q None None tss Hc) Hlo Hb) as (l & E & Hs & Hc'). change (end_of at_head (snd (quicklistCreateNode q))) with (end_of at_head q) in E. rewrite E. destruct (sims_put at_head n (nodes q) l Hs) as (x & m & -> & Hx & Hm).
  exists x, m. split; [done|]. split; [done|]. split; [by rewrite (counts_sim _ _ Hm)|]. exact Hc'.
Qed.

Lemma push_spec at_head q tss v : ok q None tss -> text_ok v -> exists q' tss', push_end fresh usable base htab 0 at_head q v = Ret q' /\ ok q' None tss' /\ concat tss' = put_end at_head v (concat tss).
Proof using Husable Hmem.
  intros Hok Hv. pose proof Hok as [Hc Hcnt Hfull Htot]. unfold push_end. rewrite isLarge_spec. fold (end_of at_head q).
  destruct (Z.ltb_spec (elem_limit (fill q)) (Z.of_nat (length v))) as [_|Hsmall].
  { unfold __quicklistInsertPlainNode. destruct (plain_node q None None tss v Hc Hv) as (n & -> & Hlo & Hb & Hn & _). cbn [obind].
    destruct (push_new at_head q tss n v Hok Hv Hlo Hb) as (x & m & E & Hx & Hm & Hc'). rewrite E. cbn [obind]. eexists. exists (put_end at_head [v] tss). split; [done|]. split; [|apply concat_put].
    split; [by apply chain_count| |by apply full_put|].
    - cbn. by rewrite counts_put, lens_put, Hm, (sim_count _ _ Hx), Hn.
    - cbn. rewrite Htot, concat_put, length_put. lia. }
  assert (forall n q1, new_lp_node fresh usable q at_head v = Ret (n, q1) -> exists q' tss',
    (let* q := insertN q1 (end_of at_head q1) n (negb at_head) in
     match end_of at_head (add_count q 1) with None => Abort | Some p => update (add_count q 1) p (fun n => set_count n (count n + 1)) end) = Ret q' /\ ok q' None tss' /\ concat tss' = put_end at_head v (concat tss)) as Hnew.
  { intros n q1 En. destruct (packed_node q None None tss at_head v Hc (small_one _ v (proj1 Hv) Hsmall)) as (n' & En' & Hlo & Hb & Hn). rewrite En in En'. assert (n = n') as -> by congruence. assert (q1 = snd (quicklistCreateNode q)) as -> by congruence. change (end_of at_head (snd (quicklistCreateNode q))) with (end_of at_head q).
    destruct (push_new at_head q tss n' v Hok Hv Hlo Hb) as (x & m & -> & Hx & Hm & Hc'). cbn [obind]. set (q2 := add_count _ 1). rewrite (end_put at_head q2 x m eq_refl).
    destruct (ids_put at_head x m q2 eq_refl) as (l1 & l2 & E2 & Hput). apply (chain_count _ _ _ _ 1) in Hc'. fold q2 in Hc'. rewrite (update_mid q2 l1 l2 x E2 (ch_ids _ _ _ _ Hc')). rewrite Hput.
    eexists. exists (put_end at_head [v] tss). split; [done|]. split; [|apply concat_put]. destruct (split_texts _ _ _ _ _ _ _ Hc' E2) as (t1 & t & t2 & Et & Hl1 & _ & Hbx).
    split; [|cbn; rewrite counts_put, lens_put, Hm; cbn; by rewrite (sim_count _ _ Hx), Hn|by apply full_put|cbn; rewrite Htot, concat_put, length_put; lia].
    rewrite <- Hput, Et. rewrite Et in Hc'. eapply chain_set; [exact Hc'|exact E2|done..|exact Hbx]. }
  destruct (decide (nodes q = [])) as [E0|Hne].
  { assert (end_of at_head q = None) as E1 by (unfold end_of, head, tail; rewrite E0; by destruct at_head). rewrite E1. cbn [node_of obind].
    destruct (new_lp_node fresh usable q at_head v) as [|[n q1]] eqn:En; [by destruct (packed_node q None None tss at_head v Hc (small_one _ v (proj1 Hv) Hsmall)) as (? & ? & _); congruence|]. cbn [obind]. by apply Hnew. }
  destruct (end_raw at_head q None None tss Hc Hne) as (l1 & n & l2 & E1 & En & Hraw & _ & Hend). rewrite E1. cbn [node_of]. rewrite (node_mid q l1 l2 n En (ch_ids _ _ _ _ Hc)). cbn [obind].
  destruct (split_texts q None None tss l1 n l2 Hc En) as (t1 & t & t2 & -> & Hl1 & Hl2 & Hb). destruct (counts_split q _ l1 n l2 t1 t t2 Hcnt En eq_refl Hl1) as (C1 & C2 & C3).
  destruct (_quicklistNodeAllowInsert 0 (Some n) (fill q) (Z.of_nat (length v))) eqn:Ea.
  - destruct (allow_insert (fill q) n t v Ea Hb C2 (proj1 Hv)) as [Hk Hs]. destruct (get_body (fill q) n t Hb Hk Hraw) as (lp & -> & _ & Hh & _). cbn [obind].
    destruct (push_text fresh usable Husable (fill q) at_head lp t v Hh Hs) as (lp' & -> & Hh'). cbn [obind]. rewrite (set_node_mid q l1 l2 n En (ch_ids _ _ _ _ Hc)). cbn [obind].
    set (t' := put_end at_head v t). assert (small (fill q) t') as Hs' by (eapply small_sub; [exact Hs| |]; unfold t', put_end; destruct at_head; try done; [intros x; rewrite elem_of_app, !elem_of_cons; pose proof (not_elem_of_nil x); tauto|rewrite length_app; cbn; lia]).
    pose proof (chain_set q None None l1 n l2 t1 t t2 (put_lp n lp') t' Hc En Hl1 eq_refl (fun H => H) eq_refl ltac:(symmetry; exact Hraw) (put_body (fill q) n lp' t' Hk Hh' Hs')) as Hc1.
    apply (chain_count _ _ _ _ 1) in Hc1. set (q1 := add_count _ 1) in *. change (if at_head then head q1 else tail q1) with (end_of at_head q1).
    assert (end_of at_head q1 = Some (nid (put_lp n lp'))) as -> by (unfold end_of, head, tail, q1; cbn; destruct at_head; subst; cbn; [done|by rewrite last_snoc]).
    rewrite (update_mid q1 l1 l2 (put_lp n lp') eq_refl (ch_ids _ _ _ _ Hc1)).
    destruct (split_texts _ _ _ _ _ _ _ Hc1 eq_refl) as (t1' & t0 & t2' & Et & Hl1' & _ & Hbx). apply app_inj_1 in Et as [<- [= <- <-]]; [|lia].
    eexists. exists (t1 ++ t' :: t2). split; [done|]. split; [split|].
    + eapply chain_set; [exact Hc1|done|done|done..|exact Hbx].
    + cbn. rewrite fmap_app, lens_app, fmap_cons. cbn. rewrite C1, C3. do 2 f_equal. destruct Hs as (_ & Hlt & _). cbn [length] in Hlt. rewrite wrap16 by lia. unfold t'. rewrite length_put. lia.
    + apply Forall_app in Hfull as [? Hf]. apply Forall_cons in Hf as [_ ?]. apply Forall_app. split; [done|]. constructor; [|done]. unfold t', put_end. destruct at_head; [done|]. by destruct t.
    + cbn. rewrite Htot, !concat_app. cbn. rewrite !length_app. unfold t'. rewrite length_put. lia.
    + rewrite !concat_app. cbn. unfold t'. destruct at_head; subst; [destruct t1; [done|cbn in Hl1; lia]|]. destruct t2; [|cbn in Hl2; lia]. cbn. by rewrite !app_nil_r, app_assoc.
  - destruct (new_lp_node fresh usable q at_head v) as [|[n' q1]] eqn:En'; [by destruct (packed_node q None None (t1 ++ t :: t2) at_head v Hc (small_one _ v (proj1 Hv) Hsmall)) as (? & ? & _); congruence|]. cbn [obind]. by apply Hnew.
Qed.

(** ** Deleting one element *)

(** [zi] points to the element [k] of the node. *)
Definition points (n : quicklistNode) (t : list (list Z)) (k zi : nat) : Prop :=
  (k < length t)%nat /\ match kind n with PLAIN => True | PACKED => exists lp, entry n = Raw lp /\ place lp t k zi end.

Lemma ids_others q l1 n l2 : ids_ok q -> nodes q = l1 ++ n :: l2 -> forall m, m ∈ l1 ++ l2 -> nid m <> nid n.
Proof using.
  intros [Hn _] E m Hm Heq. unfold ids in Hn. rewrite E, fmap_app, fmap_cons in Hn. apply NoDup_app in Hn as (_ & H1 & Hn). apply NoDup_cons in Hn as [H2 _]. apply elem_of_app in Hm as [Hm|Hm].
  - apply (H1 (nid n)); [rewrite <- Heq; by apply list_elem_of_fmap_2|left].
  - apply H2. rewrite <- Heq. by apply list_elem_of_fmap_2.
Qed.

Lemma full_split t1 (t : list (list Z)) t2 : Forall (fun ts => ts <> []) (t1 ++ t :: t2) -> Forall (fun ts => ts <> []) (t1 ++ t2) /\ t <> [].
Proof using. intros H. apply Forall_app in H as [? H]. apply Forall_cons in H as [? ?]. split; [by apply Forall_app|done]. Qed.

(** A node that leaves a quicklist in which only it may be marked. *)
Lemma remove_node q act l1 n l2 t1 t t2 n' : ok q act (t1 ++ t :: t2) -> nodes q = l1 ++ n :: l2 -> length l1 = length t1 -> act = None \/ act = Some (nid n) -> nid n' = nid n ->
  exists l, deleteN (set_nodes q (l1 ++ n' :: l2)) (nid n) = Ret (add_count (add_len (set_nodes q l) (-1)) (- count n')) /\ Forall2 sim (l1 ++ l2) l /\
    ok (add_count (add_count (add_len (set_nodes q l) (-1)) (- count n')) (count n' - Z.of_nat (length t))) None (t1 ++ t2).
Proof using Hmem.
  intros [Hc Hcnt Hfull Htot] E Hl1 Hact Hnid. destruct (counts_split q _ l1 n l2 t1 t t2 Hcnt E eq_refl Hl1) as (C1 & C2 & C3).
  assert (flags (compress q) None (l1 ++ l2)) as Hf by (pose proof (ch_flags _ _ _ _ Hc) as Hf; rewrite E in Hf; eapply flags_delete; [exact Hf|done|]; by eapply ids_others; [apply (ch_ids _ _ _ _ Hc)|]).
  destruct (delete_mid fresh base htab Hmem q act None None l1 n n' l2 t1 t t2 Hc E Hl1 Hnid Hf) as (l & -> & Hs & Hc'). exists l. split; [done|]. split; [done|]. split; [by apply chain_count| |by apply full_split in Hfull as [? _]|].
  - cbn. by rewrite (counts_sim _ _ Hs), fmap_app, lens_app, C1, C3.
  - cbn. rewrite Htot, !concat_app, !length_app. cbn. rewrite length_app. lia.
Qed.

Lemma add_count_add q a b : add_count (add_count q a) b = add_count q (a + b).
Proof using. unfold add_count. cbn. f_equal. lia. Qed.

Lemma add_count_0 q : add_count q 0 = q.
Proof using. destruct q. unfold add_count. cbn. f_equal. lia. Qed.

(** What is left of the nodes after one element of a node went. *)
Definition minus (t1 : list (list (list Z))) (t : list (list Z)) (k : nat) (t2 : list (list (list Z))) : list (list (list Z)) :=
  if (length t =? 1)%nat then t1 ++ t2 else t1 ++ (take k t ++ drop (S k) t) :: t2.

Lemma concat_minus t1 t k t2 : (k < length t)%nat -> concat (minus t1 t k t2) = (concat t1 ++ take k t) ++ drop (S k) t ++ concat t2.
Proof using.
  intros Hk. unfold minus. destruct (Nat.eqb_spec (length t) 1) as [E|_]; rewrite !concat_app; cbn; [|by rewrite <- !app_assoc].
  assert (k = 0%nat) as -> by lia. rewrite take_0, (drop_ge t) by lia. by rewrite app_nil_r.
Qed.

Lemma plain_texts f n t : body_ok f n t -> is_plain n = true -> length t = 1%nat.
Proof using. intros [Hb _] Hp. unfold is_plain in Hp. destruct (kind n); [|done]. by destruct Hb as (x & -> & _). Qed.

Lemma not_plain n : is_plain n = false <-> kind n = PACKED.
Proof using. unfold is_plain. by destruct (kind n). Qed.

Lemma del_index q act l1 n l2 t1 t t2 k zi : ok q act (t1 ++ t :: t2) -> nodes q = l1 ++ n :: l2 -> length l1 = length t1 -> is_lzf n = false -> act = None \/ act = Some (nid n) -> points n t k zi ->
  exists q' gone r, quicklistDelIndex fresh usable base htab q (nid n) zi = Ret (q', gone, r) /\ gone = (length t =? 1)%nat /\ ok q' (if gone then None else act) (minus t1 t k t2) /\
    if gone then Forall2 sim (l1 ++ l2) (nodes q')
    else exists n', nodes q' = l1 ++ n' :: l2 /\ nid n' = nid n /\ kind n' = PACKED /\ is_lzf n' = false.
Proof using Husable Hmem.
  intros Hok E Hl1 Hraw Hact [Hk Hp]. pose proof Hok as [Hc Hcnt Hfull Htot]. destruct (counts_split q _ l1 n l2 t1 t t2 Hcnt E eq_refl Hl1) as (C1 & C2 & C3).
  destruct (split_texts q act None _ l1 n l2 Hc E) as (t1' & t0 & t2' & Et & Hl1' & _ & Hb). apply app_inj_1 in Et as [<- [= <- <-]]; [|lia].
  unfold quicklistDelIndex. rewrite (node_mid q l1 l2 n E (ch_ids _ _ _ _ Hc)). cbn [obind]. destruct (is_plain n) eqn:Hpl.
  - pose proof (plain_texts _ _ _ Hb Hpl) as Hone. unfold minus. rewrite Hone in *. cbn [Nat.eqb].
    destruct (remove_node q act l1 n l2 t1 t t2 n Hok E Hl1 Hact eq_refl) as (l & El & Hs & Hok'). rewrite <- E, set_nodes_same in El. rewrite El. cbn [obind]. eexists _, true, (Some zi). split; [done|]. split; [done|].
    rewrite Hone, C2 in Hok'. change (Z.of_nat 1 - Z.of_nat 1) with 0 in Hok'. rewrite add_count_0 in Hok'. rewrite C2. split; [done|]. done.
  - apply not_plain in Hpl. rewrite Hpl in Hp. destruct Hp as (lp & El & Hpl'). destruct (get_body _ _ _ Hb Hpl Hraw) as (lp0 & Er & El0 & Hh & Hs & _). rewrite Er. assert (lp0 = lp) as -> by congruence. cbn [obind].
    destruct (delete_text fresh usable Husable (fill q) lp t k zi Hpl' Hs) as (lp' & r & Ed & Hh'). unfold not_null. rewrite Ed. cbn [obind]. rewrite (set_node_mid q l1 l2 n E (ch_ids _ _ _ _ Hc)). cbn [obind].
    set (n1 := set_count _ _). assert (count n1 = Z.of_nat (length t) - 1) as Cn1 by (cbn; rewrite C2; apply wrap16; destruct Hs as (_ & ? & _); lia). rewrite Cn1.
    assert (ids_ok (set_nodes q (l1 ++ n1 :: l2))) as Hids1 by (apply ids_ok_nodes; [apply (ch_ids _ _ _ _ Hc)|]; unfold ids; rewrite E, !fmap_app, !fmap_cons; done).
    unfold minus. destruct (Nat.eqb_spec (length t) 1) as [Hone|Hmany].
    + rewrite (proj2 (Z.eqb_eq _ _)) by lia. destruct (remove_node q act l1 n l2 t1 t t2 n1 Hok E Hl1 Hact eq_refl) as (l & -> & Hss & Hok'). cbn [obind]. eexists _, true, r. split; [done|]. split; [done|].
      rewrite Cn1, Hone in *. change (Z.of_nat 1 - 1 - Z.of_nat 1) with (-1) in Hok'. split; [exact Hok'|exact Hss].
    + rewrite (proj2 (Z.eqb_neq _ _)) by lia. change (nid n) with (nid n1) at 1. rewrite (set_node_mid (set_nodes q (l1 ++ n1 :: l2)) l1 l2 n1 eq_refl Hids1). cbn [obind]. rewrite set_nodes_twice. eexists _, false, r. split; [done|]. split; [done|].
      assert (small (fill q) (take k t ++ drop (S k) t)) as Hs'.
      { eapply small_sub; [exact Hs| |]; [|rewrite length_app, length_take, length_drop; lia]. intros x. rewrite elem_of_app. intros [Hx|Hx]; [rewrite <- (take_drop k t)|rewrite <- (take_drop (S k) t)]; apply elem_of_app; auto. }
      split; [|exists (put_lp n1 lp'); done]. split.
      * apply chain_count. eapply (chain_set q act None l1 n l2 t1 t t2); try done. by apply put_body.
      * cbn. rewrite fmap_app, lens_app, fmap_cons. cbn. rewrite C1, C3, C2. do 2 f_equal. rewrite length_app, length_take, length_drop. destruct Hs as (_ & ? & _). rewrite wrap16 by lia. lia.
      * apply full_split in Hfull as [Hf _]. apply Forall_app in Hf as [? ?]. apply Forall_app. split; [done|]. constructor; [|done]. intros E0. apply (f_equal length) in E0. rewrite length_app, length_take, length_drop in E0. cbn in E0. lia.
      * cbn. rewrite Htot, !concat_app, !length_app. cbn. rewrite !length_app, length_take, length_drop. lia.
Qed.

(** ** Popping *)

Lemma concat_nil tss : Forall (fun ts : list (list Z) => ts <> []) tss -> concat tss = [] -> tss = [].
Proof using. intros [|ts tss' H _]; [done|]. cbn. intros E. apply app_eq_nil in E as [E _]. done. Qed.

Lemma plain_body f n t : body_ok f n t -> is_plain n = true -> is_lzf n = false -> exists x, t = [x] /\ raw n = Ret x /\ take (Z.to_nat (sz n)) x = x.
Proof using.
  intros [Hb _] Hp Hl. unfold is_plain in Hp. destruct (kind n); [|done]. destruct Hb as (x & -> & (Hs & _ & He) & _). unfold raw, is_lzf in *. destruct (entry n) as [b|]; [|done]. subst b. exists x. rewrite Hs, Nat2Z.id, firstn_all. done.
Qed.

(** Which element of the end node is at the end of the list. *)
Definition end_index (at_head : bool) (t : list (list Z)) : nat := if at_head then 0 else length t - 1.

Lemma pop_concat (at_head : bool) (t1 : list (list (list Z))) t t2 x : (if at_head then t1 = [] else t2 = []) -> t <> [] -> t !! end_index at_head t = Some x ->
  concat (t1 ++ t :: t2) = put_end at_head x (concat (minus t1 t (end_index at_head t) t2)).
Proof using.
  intros He Ht Hx. assert (end_index at_head t < length t)%nat as Hk by (by eapply lookup_lt_Some). rewrite concat_minus by done. rewrite concat_app. cbn [concat]. destruct at_head; subst; cbn [end_index put_end] in *.
  - cbn. rewrite take_0. cbn. by destruct t; [|injection Hx as ->].
  - cbn [concat]. rewrite (drop_ge t), !app_nil_r by lia. rewrite <- app_assoc. f_equal. rewrite <- (take_drop (length t - 1) t) at 1. f_equal. rewrite (drop_S t x) by done. by rewrite drop_ge by lia.
Qed.

Lemma end_seek (at_head : bool) lp (t : list (list Z)) : holds lp t -> t <> [] -> exists zi, lpSeek lp (if at_head then 0 else -1) = Ret (Some zi) /\ place lp t (end_index at_head t) zi.
Proof using.
  intros Hh Ht. assert (0 < length t)%nat by (destruct t; [done|cbn; lia]). destruct (seek_text lp t (if at_head then 0 else -1) Hh) as (r & -> & Hr). cbn in Hr. destruct at_head; cbn [Z.ltb Z.compare] in Hr; cbn [end_index].
  - rewrite (proj2 (Z.ltb_lt 0 _)) in Hr by lia. cbn in Hr. destruct Hr as (zi & -> & Hp). eauto.
  - rewrite (proj2 (Z.leb_le 0 _)), (proj2 (Z.ltb_lt _ _)) in Hr by lia. cbn in Hr. destruct Hr as (zi & -> & Hp). exists zi. split; [done|]. by replace (length t - 1)%nat with (Z.to_nat (Z.of_nat (length t) + -1)) by lia.
Qed.

Lemma pop_spec at_head q tss : ok q None tss -> exists q' v, quicklistPopCustom fresh usable base htab q at_head = Ret (q', v) /\
  if decide (concat tss = []) then v = None /\ q' = q
  else exists t rest tss', concat tss = put_end at_head t rest /\ value_text <$> v = Some t /\ ok q' None tss' /\ concat tss' = rest /\ match v with Some v => sane v | None => True end.
Proof using Husable Hmem.
  intros Hok. pose proof Hok as [Hc Hcnt Hfull Htot]. unfold quicklistPopCustom. destruct (decide (concat tss = [])) as [E0|Hne].
  { rewrite Htot, E0. cbn. eauto. }
  rewrite (proj2 (Z.eqb_neq _ _)) by (rewrite Htot; destruct (concat tss); [done|cbn [length]; lia]). fold (end_of at_head q).
  assert (nodes q <> []) as Hn by (intros E; pose proof (ch_body _ _ _ _ Hc) as H; rewrite E in H; inversion H; by subst).
  destruct (end_raw at_head q None None tss Hc Hn) as (l1 & n & l2 & -> & En & Hraw & _ & Hend). rewrite (node_mid q l1 l2 n En (ch_ids _ _ _ _ Hc)). cbn [obind]. rewrite Hraw.
  destruct (split_texts q None None tss l1 n l2 Hc En) as (t1 & t & t2 & -> & Hl1 & Hl2 & Hb). pose proof (full_split _ _ _ Hfull) as [_ Ht].
  assert (if at_head then t1 = [] else t2 = []) as He by (destruct at_head; subst; [by destruct t1|by destruct t2]).
  destruct (is_plain n) eqn:Hp.
  - destruct (plain_body _ _ _ Hb Hp Hraw) as (x & -> & -> & Hx). cbn [obind].
    assert (points n [x] 0 0) as Hpt by (split; [cbn; lia|]; unfold is_plain in Hp; by destruct (kind n)).
    destruct (del_index q None l1 n l2 t1 [x] t2 0 0 Hok En Hl1 Hraw (or_introl eq_refl) Hpt) as (q' & gone & r & -> & Hg & Hok' & _). cbn [obind fst]. eexists _, _. split; [done|]. exists x, (concat (minus t1 [x] 0 t2)), (minus t1 [x] 0 t2).
    assert (end_index at_head [x] = 0%nat) as Ei by (by destruct at_head). split; [rewrite <- Ei; apply pop_concat; [done|done|by rewrite Ei]|]. split; [cbn; by rewrite Hx|]. split; [by destruct gone|done].
  - apply not_plain in Hp. destruct (get_body _ _ _ Hb Hp Hraw) as (lp & -> & El & Hh & Hs & _). cbn [obind]. destruct (end_seek at_head lp t Hh Ht) as (zi & -> & Hpl). cbn [obind].
    assert (points n t (end_index at_head t) zi) as Hpt by (split; [by apply (place_holds _ _ _ _ Hpl)|]; rewrite Hp; eauto).
    destruct (del_index q None l1 n l2 t1 t t2 _ zi Hok En Hl1 Hraw (or_introl eq_refl) Hpt) as (q' & gone & r & -> & Hg & Hok' & _). cbn [obind fst]. eexists _, _. split; [done|].
    pose proof (value_at _ _ _ _ Hpl) as Hv. eexists _, _, (minus t1 t (end_index at_head t) t2). split; [by apply pop_concat|]. split; [done|]. split; [by destruct gone|]. split; [done|]. by eapply value_sane.
Qed.

(** ** Iterators *)

Lemma ok_act q act tss : ok q None tss -> ok q act tss.
Proof using. intros [[] ? ? ?]. split; try done. split; try done. by apply flags_weaken. Qed.

Lemma ok_body q act tss l1 n l2 : ok q act tss -> nodes q = l1 ++ n :: l2 -> exists t1 t t2, tss = t1 ++ t :: t2 /\ length l1 = length t1 /\ length l2 = length t2.
Proof using. intros [Hc _ _ _] E. destruct (split_texts q act None tss l1 n l2 Hc E) as (t1 & t & t2 & ? & ? & ? & _). eauto 6. Qed.

Lemma ok_at q act l1 n l2 t1 t t2 : ok q act (t1 ++ t :: t2) -> nodes q = l1 ++ n :: l2 -> length l1 = length t1 -> body_ok (fill q) n t /\ count n = Z.of_nat (length t) /\ t <> [] /\ length l2 = length t2.
Proof using.
  intros [Hc Hcnt Hfull _] E Hl. destruct (split_texts q act None _ l1 n l2 Hc E) as (t1' & t0 & t2' & Et & Hl1' & Hl2 & Hb). apply app_inj_1 in Et as [<- [= <- <-]]; [|lia].
  destruct (counts_split q _ l1 n l2 t1 t t2 Hcnt E eq_refl Hl) as (_ & C & _). pose proof (full_split _ _ _ Hfull) as [_ Ht]. done.
Qed.

(** A compressed node has neighbours, and the list is long enough. *)
Lemma lzf_inner q act dc tss l1 n l2 : chain q act dc tss -> nodes q = l1 ++ n :: l2 -> is_lzf n = true -> l1 <> [] /\ l2 <> [] /\ 0 < compress q /\ 2 * compress q + 1 <= Z.of_nat (length (nodes q)).
Proof using.
  intros Hc E Hz. destruct (ch_tight _ _ _ _ Hc) as [[H1 H2] H]. split_and!.
  - intros ->. rewrite (H1 n) in Hz; [done|by rewrite E].
  - intros ->. rewrite (H2 n) in Hz; [done|by rewrite E, last_snoc].
  - destruct H as [H|[? ?]]; [|done]. rewrite E in H. apply Forall_app in H as [_ H]. apply Forall_cons in H as [H _]. congruence.
  - destruct H as [H|[? ?]]; [|done]. rewrite E in H. apply Forall_app in H as [_ H]. apply Forall_cons in H as [H _]. congruence.
Qed.

(** Taking a node in hand. *)
Lemma use_chain q act dc l1 n l2 t1 t t2 : chain q act dc (t1 ++ t :: t2) -> nodes q = l1 ++ n :: l2 -> length l1 = length t1 -> act = None \/ act = Some (nid n) ->
  exists n', useN q (nid n) = Ret (set_nodes q (l1 ++ n' :: l2)) /\ is_lzf n' = false /\ nid n' = nid n /\ kind n' = kind n /\ count n' = count n /\ sz n' = sz n /\
    chain (set_nodes q (l1 ++ n' :: l2)) (Some (nid n)) dc (t1 ++ t :: t2) /\ (is_lzf n = false -> n' = n).
Proof using.
  intros Hc E Hl1 Hact. destruct (split_texts q act dc _ l1 n l2 Hc E) as (t1' & t0 & t2' & Et & Hl1' & Hl2 & Hb). apply app_inj_1 in Et as [<- [= <- <-]]; [|lia]. pose proof (ch_ids _ _ _ _ Hc) as Hids.
  destruct (is_lzf n) eqn:Hz.
  2:{ exists n. unfold quicklistDecompressNodeForUse. rewrite (node_mid q l1 l2 n E Hids). cbn [obind]. rewrite Hz, <- E, set_nodes_same. split_and!; try done. destruct Hact as [-> | ->]; [|done]. destruct Hc. split; try done. by apply flags_weaken. }
  destruct (lzf_inner q act dc _ l1 n l2 Hc E Hz) as (H1 & H2 & H3 & H4). destruct (useN_mid fresh q l1 n l2 (fill q) t E Hids Hb) as (n' & -> & Hraw & Hi & Hcn & Hsz & Hk & Hd & Hr & Hbody). exists n'. split_and!; try done.
  destruct Hc. rewrite E in *. apply Forall2_app_inv in ch_body0 as [B1 B2]; [|done]. inversion B2; subst. split; cbn; try done.
  - apply ids_ok_nodes; [done|]. unfold ids. rewrite E, !fmap_app, !fmap_cons. by rewrite Hi.
  - apply Forall2_app; [done|]. constructor; [by apply Hbody|done].
  - rewrite ch_len0, !length_app. done.
  - destruct ch_tight0 as [[E1 E2] _]. split; [|right; rewrite length_app in *; done]. split; intros m Hm.
    + apply E1. by destruct l1.
    + apply E2. destruct l2 as [|x l2 _] using rev_ind; [done|]. rewrite app_comm_cons, app_assoc, last_snoc in *. done.
  - intros m1 m m2 Em Hm. destruct (decide (nid m = nid n)) as [Heq|Hne].
    + assert (ids_ok (set_nodes q (l1 ++ n' :: l2))) as Hids' by (apply ids_ok_nodes; [done|]; unfold ids; rewrite E, !fmap_app, !fmap_cons; by rewrite Hi).
      assert (l1 = m1 /\ l2 = m2) as [<- <-].
      { pose proof (find_node_mid (set_nodes q (l1 ++ n' :: l2)) l1 l2 n' eq_refl Hids') as F1. pose proof (find_node_mid (set_nodes q (l1 ++ n' :: l2)) m1 m2 m Em Hids') as F2. rewrite Heq, <- Hi, F1 in F2. injection F2 as F2. apply app_inj_1 in Em as [-> [= -> ->]]; done. }
      split_and!; try done; [by rewrite Heq|]. rewrite length_app in *. done.
    + exfalso. assert (m ∈ l1 ++ l2) as Hin. { assert (m ∈ l1 ++ n' :: l2) as Hin by (rewrite Em; apply elem_of_app; right; left). rewrite elem_of_app, elem_of_cons in Hin. rewrite elem_of_app. destruct Hin as [?|[->|?]]; [by left|congruence|by right]. }
      assert (m ∈ l1 ++ n :: l2) as Hin' by (rewrite elem_of_app, elem_of_cons in *; tauto). apply list_elem_of_split in Hin' as (a & b & Eab). destruct (ch_flags0 a m b Eab Hm) as (Ha & _). destruct Hact as [->| ->]; congruence.
  - apply Forall_app in ch_donts0 as [? D]. apply Forall_cons in D as [? ?]. apply Forall_app. split; [done|]. constructor; [|done]. rewrite Hd, Hi. done.
Qed.

Lemma ok_nodes q act tss act' l : ok q act tss -> count <$> l = count <$> nodes q -> chain (set_nodes q l) act' None tss -> ok (set_nodes q l) act' tss.
Proof using. intros [Hc Hcnt Hf Ht] E Hc'. split; try done. cbn. congruence. Qed.

Lemma use_spec q act l1 n l2 t1 t t2 : ok q act (t1 ++ t :: t2) -> nodes q = l1 ++ n :: l2 -> length l1 = length t1 -> act = None \/ act = Some (nid n) ->
  exists n', useN q (nid n) = Ret (set_nodes q (l1 ++ n' :: l2)) /\ is_lzf n' = false /\ nid n' = nid n /\ kind n' = kind n /\ count n' = count n /\ sz n' = sz n /\
    ok (set_nodes q (l1 ++ n' :: l2)) (Some (nid n)) (t1 ++ t :: t2) /\ (is_lzf n = false -> n' = n).
Proof using.
  intros Hok E Hl Hact. destruct (use_chain q act None l1 n l2 t1 t t2 (ok_chain _ _ _ Hok) E Hl Hact) as (n' & H1 & H2 & H3 & H4 & H5 & H6 & H7 & H8). exists n'. split_and!; try done.
  eapply ok_nodes; [exact Hok| |done]. by rewrite E, !fmap_app, !fmap_cons, H5.
Qed.

(** Putting it back. *)
Lemma compress_ok q act l1 n l2 t1 t t2 : ok q act (t1 ++ t :: t2) -> nodes q = l1 ++ n :: l2 -> length l1 = length t1 -> act = None \/ act = Some (nid n) ->
  exists l, compressQ q (nid n) = Ret (set_nodes q l) /\ Forall2 sim (nodes q) l /\ ok (set_nodes q l) None (t1 ++ t :: t2).
Proof using Hmem.
  intros Hok E Hl Hact. destruct (compressQ_spec fresh base htab Hmem q act None (t1 ++ t :: t2) (nid n) (ok_chain _ _ _ Hok)) as (l & -> & Hs & Hc); [unfold ids; rewrite E, fmap_app; apply elem_of_app; right; left|].
  exists l. split; [done|]. split; [done|]. eapply ok_nodes; [exact Hok|by apply counts_sim|]. apply Hc. destruct Hact as [->| ->]; [by left|right; done].
Qed.
End Ops.

End QuicklistOps.
