(* ===== verification/QuicklistIter.v ===== *)
(** * QuicklistIter: iterators (quicklist.c)

    An iterator stands at an element, or waits before one; [quicklistNext] moves over the
    elements in order, across nodes that it decompresses and compresses again, and
    [quicklistDelEntry] takes out the element the iterator stands at. *)
From S2P Require Import Prelude NumStr Lzf LpEntry Listpack LpBulk StrObj Quicklist QuicklistSpec QuicklistElems QuicklistOps.
Import NumStr LpEntry Listpack LpBulk Quicklist QuicklistSpec QuicklistElems QuicklistOps.

Module QuicklistIter.

Section Iter.
Context (fresh : nat -> Z) (usable : nat -> nat) (base : list Z -> Z) (htab : list Z -> Z -> Z).
Context (Husable : forall n, (n <= usable n)%nat) (Hmem : memory_ok base htab).

Abbreviation compressQ := (quicklistCompress fresh base htab).
Abbreviation useN := (quicklistDecompressNodeForUse fresh).
Abbreviation nextE := (next_entry fresh base htab).

(** The node the iterator is in, which holds [t], between the texts [t1] and [t2] of the others. *)
Definition in_node (q : quicklist) (it : quicklistIter) (l1 : list quicklistNode) (n : quicklistNode) (l2 : list quicklistNode) (t1 : list (list (list Z))) (t : list (list Z)) (t2 : list (list (list Z))) : Prop :=
  ok q (Some (nid n)) (t1 ++ t :: t2) /\ nodes q = l1 ++ n :: l2 /\ length l1 = length t1 /\ current it = Some (nid n).

(** It stands at the element [k] of its node, and [e] is that entry. *)
Definition at_elem (q : quicklist) (it : quicklistIter) (e : quicklistEntry) t1 t t2 (k : nat) : Prop :=
  exists l1 n l2 zi, in_node q it l1 n l2 t1 t t2 /\ is_lzf n = false /\ points n t k zi /\ it_zi it = Some zi /\
    (it_offset it = Z.of_nat k \/ it_offset it = Z.of_nat k - Z.of_nat (length t)) /\
    e_node e = current it /\ e_zi e = it_zi it /\ e_offset e = it_offset it /\ t !! k = Some (value_text (e_value e)) /\ (is_plain n = true -> exists s, e_value e = SVal s) /\ sane (e_value e).

(** The offset is counted from where the iterator comes from. *)
Definition aligned (it : quicklistIter) (t : list (list Z)) (k : nat) : Prop := it_offset it = if from_head it then Z.of_nat k else Z.of_nat k - Z.of_nat (length t).

(** The index an offset designates. *)
Definition index_of (t : list (list Z)) (off : Z) : Z := if off <? 0 then Z.of_nat (length t) + off else off.

(** The value of a node at a pointer. *)
Lemma value_of_node f n t k zi : body_ok f n t -> is_lzf n = false -> points n t k zi ->
  exists b, raw n = Ret b /\ t !! k = Some (value_text (if is_plain n then SVal (take (Z.to_nat (sz n)) b) else lpGetValue b zi)) /\ sane (if is_plain n then SVal (take (Z.to_nat (sz n)) b) else lpGetValue b zi).
Proof using.
  intros Hb Hraw [Hk Hp]. destruct (is_plain n) eqn:Hpl.
  - destruct (plain_body f n t Hb Hpl Hraw) as (x & -> & -> & Ex). exists x. split; [done|]. cbn [length] in Hk. assert (k = 0%nat) as -> by lia. cbn. by rewrite Ex.
  - apply not_plain in Hpl. rewrite Hpl in Hp. destruct Hp as (lp & E & Hpl'). exists lp. unfold raw. rewrite E. split; [done|]. split; [by apply value_at|by eapply value_sane].
Qed.

(** The first element of a node, or the one an offset gives. *)
Lemma arrive fuel q act it l1 n l2 t1 t t2 : ok q act (t1 ++ t :: t2) -> act = None \/ act = Some (nid n) -> nodes q = l1 ++ n :: l2 -> length l1 = length t1 -> current it = Some (nid n) ->
  it_zi it = None -> 0 <= index_of t (it_offset it) < Z.of_nat (length t) ->
  exists q' it' e, nextE (S fuel) q it = Ret (q', it', Some e) /\ at_elem q' it' e t1 t t2 (Z.to_nat (index_of t (it_offset it))) /\ it_offset it' = it_offset it /\ from_head it' = from_head it.
Proof using.
  intros Hok Hact E Hl1 Hcur Hzi Hi. cbn [next_entry]. rewrite Hcur, Hzi. rewrite (node_mid q l1 l2 n E (ch_ids _ _ _ _ (ok_chain _ _ _ Hok))). cbn [obind].
  destruct (use_spec fresh q act l1 n l2 t1 t t2 Hok E Hl1 Hact) as (n' & -> & Hraw & Hnid & Hkind & _ & _ & Hok' & _). cbn [obind]. set (q1 := set_nodes q (l1 ++ n' :: l2)) in *. pose proof (ch_ids _ _ _ _ (ok_chain _ _ _ Hok')) as Hids'.
  pose proof (node_mid q1 l1 l2 n' eq_refl Hids') as Hnode. rewrite Hnid in Hnode. rewrite !Hnode. cbn [obind]. destruct (ok_at q1 _ l1 n' l2 t1 t t2 Hok' eq_refl Hl1) as (Hb & _ & Ht & _).
  assert (is_plain n' = is_plain n) as Hpe by (unfold is_plain; by rewrite Hkind).
  assert (exists b zi, raw n' = Ret b /\ (if is_plain n then Ret (Some 0%nat) else lpSeek b (it_offset it)) = Ret (Some zi) /\ points n' t (Z.to_nat (index_of t (it_offset it))) zi) as (b & zi & Hr & Hseek & Hpt).
  { destruct (is_plain n) eqn:Hpl.
    - destruct (plain_body _ n' t Hb Hpe Hraw) as (x & -> & Hr & _). exists x, 0%nat. split; [done|]. split; [done|]. split; [lia|]. unfold is_plain in Hpe. by destruct (kind n').
    - apply not_plain in Hpe. destruct (get_body _ n' t Hb Hpe Hraw) as (lp & Hr & El & Hh & _). exists lp. destruct (seek_text lp t (it_offset it) Hh) as (r & -> & Hs). cbn in Hs. fold (index_of t (it_offset it)) in Hs.
      rewrite (proj2 (Z.leb_le _ _)), (proj2 (Z.ltb_lt _ _)) in Hs by lia. cbn in Hs. destruct Hs as (zi & -> & Hp). exists zi. split; [done|]. split; [done|]. split; [lia|]. rewrite Hpe. eauto. }
  rewrite Hr. cbn [obind]. rewrite Hseek. cbn [obind]. rewrite Hnode. cbn [obind]. rewrite Hr. cbn [obind].
  destruct (value_of_node _ n' t _ zi Hb Hraw Hpt) as (b' & Hr' & Hv & Hsane). assert (b' = b) as -> by congruence. rewrite Hpe in Hv, Hsane.
  eexists q1, _, _. split; [done|]. split; [|done]. exists l1, n', l2, zi. split; [|split; [done|]; split; [done|]; split; [done|]; split; [|split_and!; try done; cbn; rewrite Hpe; intros ->; eauto]].
  - split; [by rewrite Hnid|]. split; [done|]. split; [done|]. cbn. by rewrite Hnid.
  - cbn. unfold index_of in *. destruct (it_offset it <? 0); [right|left]; lia.
Qed.

(** Going on to the node after, or before. *)
Lemma leave fuel q dir l1 n l2 t1 t t2 : ok q (Some (nid n)) (t1 ++ t :: t2) -> nodes q = l1 ++ n :: l2 -> length l1 = length t1 ->
  exists q' it' r, (let* q := compressQ q (nid n) in let* c := if dir : bool then next q (nid n) else prev q (nid n) in
    nextE (S fuel) q (Iter c None (if dir then 0 else -1) dir)) = Ret (q', it', r) /\ from_head it' = dir /\
  match r with
  | None => (if dir then t2 = [] else t1 = []) /\ current it' = None /\ ok q' None (t1 ++ t :: t2)
  | Some e => exists a u b, (if dir then t2 = u :: b /\ a = t1 ++ [t] else t1 = a ++ [u] /\ b = t :: t2) /\ at_elem q' it' e a u b (end_index dir u) /\ aligned it' u (end_index dir u)
  end.
Proof using Hmem.
  intros Hok E Hl1. destruct (compress_ok fresh base htab Hmem q _ l1 n l2 t1 t t2 Hok E Hl1 (or_intror eq_refl)) as (l & -> & Hs & Hok'). cbn [obind]. rewrite E in Hs. destruct (sims_split_l l1 n l2 l Hs) as (m1 & m & m2 & -> & S1 & Sm & S2).
  set (q1 := set_nodes q (m1 ++ m :: m2)) in *. pose proof (ch_ids _ _ _ _ (ok_chain _ _ _ Hok')) as Hids'. assert (length m1 = length t1) as Hm1 by (rewrite <- (Forall2_length _ _ _ S1); done).
  destruct (ok_at q1 _ m1 m m2 t1 t t2 Hok' eq_refl Hm1) as (_ & _ & _ & Hl2). rewrite <- (sim_nid _ _ Sm), (next_mid q1 m1 m2 m eq_refl Hids'), (prev_mid q1 m1 m2 m eq_refl Hids'). destruct dir; cbn [obind].
  - destruct t2 as [|u b], m2 as [|m' m2]; try done; cbn [List.head fmap option_fmap option_map].
    + eexists q1, _, None. done.
    + assert (ok q1 None ((t1 ++ [t]) ++ u :: b)) as Hok2 by (by rewrite <- app_assoc). assert (nodes q1 = (m1 ++ [m]) ++ m' :: m2) as E2 by (by rewrite <- app_assoc).
      destruct (ok_at q1 _ (m1 ++ [m]) m' m2 (t1 ++ [t]) u b Hok2 E2 ltac:(rewrite !length_app; cbn; lia)) as (_ & _ & Hu & _). assert (0 < length u)%nat by (destruct u; [done|cbn; lia]).
      destruct (arrive fuel q1 None (Iter (Some (nid m')) None 0 true) (m1 ++ [m]) m' m2 (t1 ++ [t]) u b) as (q' & it' & e & Ea & Hat & Hoff & Hdir); try done; [by left|rewrite !length_app; cbn; lia|cbn; lia|].
      exists q', it', (Some e). split; [done|]. split; [done|]. exists (t1 ++ [t]), u, b. split; [done|]. split; [exact Hat|]. unfold aligned. rewrite Hoff, Hdir. done.
  - destruct t1 as [|u a _] using rev_ind; destruct m1 as [|m' m1 _] using rev_ind; try (rewrite ?length_app in Hm1; cbn in Hm1; lia); [eexists q1, _, None; done|]. rewrite last_snoc. cbn [fmap option_fmap option_map].
    rewrite !length_app in Hm1. cbn in Hm1. rewrite <- app_assoc in Hok'. cbn [app] in Hok'. assert (nodes q1 = m1 ++ m' :: m :: m2) as E2 by (unfold q1; cbn; by rewrite <- app_assoc).
    destruct (ok_at q1 _ m1 m' (m :: m2) a u (t :: t2) Hok' E2 ltac:(lia)) as (_ & _ & Hu & _). assert (0 < length u)%nat by (destruct u; [done|cbn; lia]).
    assert (index_of u (-1) = Z.of_nat (length u) - 1) as Ei by (unfold index_of; cbn; lia).
    destruct (arrive fuel q1 None (Iter (Some (nid m')) None (-1) false) m1 m' (m :: m2) a u (t :: t2)) as (q' & it' & e & Ea & Hat & Hoff & Hdir); try done; [by left|lia|cbn [it_offset]; lia|]. cbn [it_offset] in *. rewrite Ei in Hat.
    replace (Z.to_nat (Z.of_nat (length u) - 1)) with (end_index false u) in Hat by (cbn; lia).
    exists q', it', (Some e). split; [done|]. split; [done|]. exists a, u, (t :: t2). split; [done|]. split; [exact Hat|]. unfold aligned. rewrite Hoff, Hdir. cbn. lia.
Qed.

(** ** Between the elements *)

(** At an element, between [pre] and [post]; [al] says the offset is aligned. *)
Definition cursor (q : quicklist) (it : quicklistIter) (e : quicklistEntry) (al : bool) (pre post : list (list Z)) : Prop :=
  exists t1 t t2 k, at_elem q it e t1 t t2 k /\ (al = true -> aligned it t k) /\ pre = concat t1 ++ take k t /\ post = drop (S k) t ++ concat t2.

(** What [quicklistNext] comes to from a place between [A] and [B]. *)
Definition lands (q : quicklist) (it : quicklistIter) (r : option quicklistEntry) (al : bool) (A B : list (list Z)) : Prop :=
  match r with
  | None => (if from_head it then B = [] else A = []) /\ current it = None /\ rep q (A ++ B)
  | Some e => if from_head it then exists B', B = value_text (e_value e) :: B' /\ cursor q it e al A B'
              else exists A', A = A' ++ [value_text (e_value e)] /\ cursor q it e al A' B
  end.

(** Before the next element. *)
Definition ready (q : quicklist) (it : quicklistIter) (A B : list (list Z)) : Prop :=
  (current it = None /\ (if from_head it then B = [] else A = []) /\ rep q (A ++ B)) \/
  (exists l1 n l2 t1 t t2, in_node q it l1 n l2 t1 t t2 /\ it_zi it = None /\
    let j := if from_head it then it_offset it else Z.of_nat (length t) + it_offset it + 1 in
    0 <= j <= Z.of_nat (length t) /\ A = concat t1 ++ take (Z.to_nat j) t /\ B = drop (Z.to_nat j) t ++ concat t2 /\
    (if from_head it then 0 <= it_offset it else it_offset it < 0) /\ (kind n = PLAIN -> if from_head it then j < Z.of_nat (length t) else 0 < j)).

Lemma lookup_cut {A} (t : list A) k x : t !! k = Some x -> drop k t = x :: drop (S k) t /\ take (S k) t = take k t ++ [x].
Proof using. intros H. split; [by apply drop_S|by apply take_S_r]. Qed.

(** Going on from the last element of a node. *)
Lemma lands_leave q it r dir al t1 t t2 A B : from_head it = dir -> A = concat t1 ++ (if dir then t else []) -> B = (if dir then [] else t) ++ concat t2 ->
  match r with
  | None => (if dir then t2 = [] else t1 = []) /\ current it = None /\ ok q None (t1 ++ t :: t2)
  | Some e => exists a u b, (if dir then t2 = u :: b /\ a = t1 ++ [t] else t1 = a ++ [u] /\ b = t :: t2) /\ at_elem q it e a u b (end_index dir u) /\ aligned it u (end_index dir u)
  end -> lands q it r al A B.
Proof using.
  intros Hd -> -> H. unfold lands. rewrite Hd. destruct r as [e|].
  - destruct H as (a & u & b & He & Hat & Hal). pose proof Hat as (l1 & n & l2 & zi & _ & _ & _ & _ & _ & _ & _ & _ & Hv & _). destruct (lookup_cut _ _ _ Hv) as [C1 C2]. destruct dir; cbn [end_index] in *.
    + destruct He as [-> ->]. cbn [concat app]. rewrite drop_0 in C1. exists (drop 1 u ++ concat b). split; [by rewrite C1 at 1|]. exists (t1 ++ [t]), u, b, 0%nat. split; [done|]. split; [done|]. split; [|done]. rewrite concat_app. cbn. by rewrite !app_nil_r.
    + destruct He as [-> ->]. assert (length u <> 0)%nat as Hu by (destruct u; [by rewrite lookup_nil in Hv|cbn; lia]). exists (concat a ++ take (length u - 1) u). replace (S (length u - 1)) with (length u) in * by lia. rewrite firstn_all in C2.
      split; [rewrite app_nil_r, concat_app; cbn; rewrite app_nil_r, <- app_assoc; by rewrite C2 at 1|]. exists a, u, (t :: t2), (length u - 1)%nat. split; [done|]. split; [done|]. split; [done|]. replace (S (length u - 1)) with (length u) by lia. by rewrite drop_all.
  - destruct H as (He & Hc & Hok). destruct dir; subst; (split; [done|]; split; [done|]); exists (t1 ++ [t]) + exists (t :: t2); (split; [done|]); rewrite ?concat_app; cbn; by rewrite ?app_nil_r.
Qed.

Lemma in_node_ids q it l1 n l2 t1 t t2 : in_node q it l1 n l2 t1 t t2 -> ids_ok q.
Proof using. intros [Hok _]. apply (ch_ids _ _ _ _ (ok_chain _ _ _ Hok)). Qed.

Lemma nodes_pos q l1 n l2 : nodes q = l1 ++ n :: l2 -> exists f, length (nodes q) = S f.
Proof using. intros ->. rewrite length_app. cbn. eexists. by rewrite Nat.add_succ_r. Qed.

Lemma next_cursor q it e al pre post : cursor q it e al pre post -> exists q' it' r, quicklistNext fresh base htab q it = Ret (q', it', r) /\ from_head it' = from_head it /\
  if from_head it then lands q' it' r al (pre ++ [value_text (e_value e)]) post else lands q' it' r al pre (value_text (e_value e) :: post).
Proof using Hmem.
  intros (t1 & t & t2 & k & (l1 & n & l2 & zi & Hin & Hraw & Hpt & Hzi & Hoff & _ & _ & _ & Hv & _) & Hal & -> & ->). pose proof Hin as (Hok & E & Hl1 & Hcur). pose proof (in_node_ids _ _ _ _ _ _ _ _ Hin) as Hids. pose proof (node_mid q l1 l2 n E Hids) as Hnode.
  destruct (ok_at q _ l1 n l2 t1 t t2 Hok E Hl1) as (Hb & _ & Ht & _). destruct (lookup_cut _ _ _ Hv) as [C1 C2]. pose proof (lookup_lt_Some _ _ _ Hv) as Hk. rewrite <- app_assoc, <- C2. rewrite app_comm_cons, <- C1.
  unfold quicklistNext. destruct (nodes_pos q l1 n l2 E) as [fu ->]. cbn [Nat.add next_entry]. rewrite Hcur, Hzi, Hnode. cbn [obind].
  assert ((if from_head it then S k = length t else k = 0%nat) -> exists q' it' r,
    (let* q0 := compressQ q (nid n) in let* c := if from_head it then next q0 (nid n) else prev q0 (nid n) in nextE (S (S fu)) q0 (Iter c None (if from_head it then 0 else -1) (from_head it))) = Ret (q', it', r) /\ from_head it' = from_head it /\
    if from_head it then lands q' it' r al (concat t1 ++ take (S k) t) (drop (S k) t ++ concat t2) else lands q' it' r al (concat t1 ++ take k t) (drop k t ++ concat t2)) as Hleave.
  { intros Hend. destruct (leave (S fu) q (from_head it) l1 n l2 t1 t t2 Hok E Hl1) as (q' & it' & r & El & Hd & Hr). exists q', it', r. split; [exact El|]. split; [done|]. destruct (from_head it) eqn:Ed.
    - rewrite firstn_all2, drop_ge by lia. by eapply (lands_leave q' it' r true).
    - subst k. rewrite take_0, drop_0. by eapply (lands_leave q' it' r false). }
  destruct (is_plain n) eqn:Hpl; cbn [obind].
  { rewrite Hnode. cbn [obind]. apply Hleave. pose proof (plain_texts _ _ _ Hb Hpl). destruct (from_head it); lia. }
  pose proof Hpl as Hpl'. apply not_plain in Hpl'. destruct Hpt as [_ Hp]. rewrite Hpl' in Hp. destruct Hp as (lp & El & Hpl2). assert (raw n = Ret lp) as Hr by (unfold raw; by rewrite El). rewrite Hr. cbn [obind].
  assert (forall k' zi', place lp t k' zi' -> (if from_head it then k' = S k else k = S k') -> exists q' it' r,
    (let* n0 := node q (nid n) in let* b := raw n0 in Ret (q, Iter (Some (nid n)) (Some zi') (it_offset it + (if from_head it then 1 else -1)) (from_head it), Some (Entry (Some (nid n)) (Some zi') (lpGetValue b zi') (it_offset it + (if from_head it then 1 else -1))))) = Ret (q', it', r) /\ from_head it' = from_head it /\
    if from_head it then lands q' it' r al (concat t1 ++ take (S k) t) (drop (S k) t ++ concat t2) else lands q' it' r al (concat t1 ++ take k t) (drop k t ++ concat t2)) as Hstay.
  { intros k' zi' Hp' Hk'. rewrite Hnode. cbn [obind]. rewrite Hr. cbn [obind]. eexists q, _, _. split; [done|]. split; [done|]. pose proof (value_at _ _ _ _ Hp') as Hv'. destruct (lookup_cut _ _ _ Hv') as [D1 D2].
    assert (cursor q (Iter (Some (nid n)) (Some zi') (it_offset it + (if from_head it then 1 else -1)) (from_head it)) (Entry (Some (nid n)) (Some zi') (lpGetValue lp zi') (it_offset it + (if from_head it then 1 else -1))) al (concat t1 ++ take k' t) (drop (S k') t ++ concat t2)) as Hcur'.
    { exists t1, t, t2, k'. split; [|split; [|done]].
      - exists l1, n, l2, zi'. split; [done|]. split; [done|]. split; [split; [by apply (place_holds _ _ _ _ Hp')|rewrite Hpl'; eauto]|]. split; [done|]. split; [|split_and!; try done; [congruence|by eapply value_sane]]. cbn. destruct (from_head it); lia.
      - intros Ha. specialize (Hal Ha). unfold aligned in *. cbn. destruct (from_head it); lia. }
    destruct (from_head it) eqn:Ed; cbn.
    - subst k'. exists (drop (S (S k)) t ++ concat t2). split; [by rewrite D1|done].
    - subst k. exists (concat t1 ++ take k' t). split; [by rewrite D2, app_assoc|done]. }
  destruct (from_head it) eqn:Ed.
  - destruct (next_text lp t k zi Hpl2) as (r & -> & Hn). cbn [obind]. destruct (Nat.ltb_spec (S k) (length t)) as [Hlt|Hge].
    + destruct Hn as (zi' & -> & Hp'). by apply (Hstay (S k)).
    + subst r. rewrite Hnode. cbn [obind]. apply Hleave. lia.
  - destruct (prev_text lp t k zi Hpl2) as (r & -> & Hn). cbn [obind]. destruct k as [|j].
    + subst r. rewrite Hnode. cbn [obind]. by apply Hleave.
    + destruct Hn as (zi' & -> & Hp'). by apply (Hstay j).
Qed.

Lemma next_ready q it A B : ready q it A B -> exists q' it' r, quicklistNext fresh base htab q it = Ret (q', it', r) /\ from_head it' = from_head it /\ lands q' it' r true A B.
Proof using Hmem.
  intros [(Hc & He & Hrep)|(l1 & n & l2 & t1 & t & t2 & Hin & Hzi & Hj & -> & -> & Hsg & Hpl)].
  { unfold quicklistNext. cbn [Nat.add next_entry]. rewrite Hc. exists q, it, None. done. }
  pose proof Hin as (Hok & E & Hl1 & Hcur). pose proof (in_node_ids _ _ _ _ _ _ _ _ Hin) as Hids. set (j := if from_head it then _ else _) in *.
  assert ((if from_head it then j < Z.of_nat (length t) else 0 < j) \/ ~ (if from_head it then j < Z.of_nat (length t) else 0 < j)) as [Hr|Hr] by (clear; destruct (from_head it); lia).
  - unfold quicklistNext. cbn [Nat.add]. destruct (arrive (S (length (nodes q))) q _ it l1 n l2 t1 t t2 Hok (or_intror eq_refl) E Hl1 Hcur Hzi) as (q' & it' & e & -> & Hat & Hoff & Hd).
    { unfold index_of, j in *. destruct (from_head it); [rewrite (proj2 (Z.ltb_ge _ _)) by lia; lia|rewrite (proj2 (Z.ltb_lt _ _)) by lia; lia]. }
    exists q', it', (Some e). split; [done|]. split; [done|]. pose proof Hat as (_ & _ & _ & _ & _ & _ & _ & _ & _ & _ & _ & _ & Hv & _). destruct (lookup_cut _ _ _ Hv) as [D1 D2]. unfold lands. rewrite Hd.
    set (k := Z.to_nat (index_of t (it_offset it))) in *. destruct (from_head it) eqn:Ed.
    + assert (Z.to_nat j = k) as -> by (unfold k, index_of, j; rewrite (proj2 (Z.ltb_ge _ _)) by lia; lia). exists (drop (S k) t ++ concat t2). split; [by rewrite D1|]. exists t1, t, t2, k. split; [done|]. split; [|done]. intros _. unfold aligned. rewrite Hd, Hoff. unfold k, index_of. rewrite (proj2 (Z.ltb_ge _ _)) by lia. lia.
    + assert (Z.to_nat j = S k) as -> by (unfold k, index_of, j in *; rewrite (proj2 (Z.ltb_lt _ _)) by lia; lia). exists (concat t1 ++ take k t). split; [by rewrite D2, app_assoc|]. exists t1, t, t2, k. split; [done|]. split; [|done]. intros _. unfold aligned. rewrite Hd, Hoff. unfold k, index_of, j in *. rewrite (proj2 (Z.ltb_lt _ _)) by lia. lia.
  - assert (kind n = PACKED) as Hk by (destruct (kind n) eqn:Ek; [by specialize (Hpl eq_refl)|done]). unfold quicklistNext. cbn [Nat.add next_entry]. rewrite Hcur, Hzi, (node_mid q l1 l2 n E Hids). cbn [obind].
    destruct (use_spec fresh q _ l1 n l2 t1 t t2 Hok E Hl1 (or_intror eq_refl)) as (n' & -> & Hraw & Hnid & Hkind & _ & _ & Hok' & _). cbn [obind]. set (q1 := set_nodes q (l1 ++ n' :: l2)) in *. pose proof (ch_ids _ _ _ _ (ok_chain _ _ _ Hok')) as Hids'.
    pose proof (node_mid q1 l1 l2 n' eq_refl Hids') as Hnode. rewrite Hnid in Hnode. rewrite !Hnode. cbn [obind]. destruct (ok_at q1 _ l1 n' l2 t1 t t2 Hok' eq_refl Hl1) as (Hb & _ & Ht & _). destruct (get_body _ n' t Hb ltac:(congruence) Hraw) as (lp & Hr' & El & Hh & _).
    rewrite Hr'. cbn [obind]. unfold is_plain. rewrite Hk. destruct (seek_text lp t (it_offset it) Hh) as (r & -> & Hs). cbn in Hs. cbn [obind].
    assert (r = None) as ->. { destruct (_ && _) eqn:Eb in Hs; [|done]. zbool. exfalso. unfold j in *. destruct (from_head it); [rewrite (proj2 (Z.ltb_ge _ _)) in * by lia; lia|rewrite (proj2 (Z.ltb_lt _ _)) in * by lia; lia]. }
    rewrite Hnode. cbn [obind]. rewrite <- Hnid in Hok'. destruct (leave (length (nodes q)) q1 (from_head it) l1 n' l2 t1 t t2 Hok' eq_refl Hl1) as (q' & it' & r & El' & Hd & Hl). rewrite Hnid in El'. exists q', it', r. split; [exact El'|]. split; [done|].
    destruct (from_head it) eqn:Ed.
    + rewrite firstn_all2, drop_ge by lia. by eapply (lands_leave q' it' r true).
    + assert (Z.to_nat j = 0%nat) as -> by lia. rewrite take_0, drop_0. by eapply (lands_leave q' it' r false).
Qed.

(** ** Starting, stopping, deleting *)

Lemma rep_first q ts : rep q ts -> ts = [] /\ nodes q = [] \/ exists h l u us, nodes q = h :: l /\ ok q None (u :: us) /\ ts = concat (u :: us).
Proof using.
  intros (tss & Hok & ->). pose proof (ch_body _ _ _ _ (ok_chain _ _ _ Hok)) as Hb. destruct (nodes q) as [|h l] eqn:E; inversion Hb as [|? u ? us]; subst; [by left|]. right. exists h, l, u, us. done.
Qed.

Lemma rep_last q ts : rep q ts -> ts = [] /\ nodes q = [] \/ exists h l u us, nodes q = l ++ [h] /\ ok q None (us ++ [u]) /\ ts = concat (us ++ [u]) /\ length l = length us.
Proof using.
  intros (tss & Hok & ->). pose proof (ch_body _ _ _ _ (ok_chain _ _ _ Hok)) as Hb. destruct (nodes q) as [|h l _] eqn:E using rev_ind; [inversion Hb; subst; by left|]. right.
  apply Forall2_app_inv_l in Hb as (us & ur & H1 & H2 & ->). inversion H2 as [|? u ? ? _ H3]; subst. inversion H3; subst. exists h, l, u, us. split; [done|]. split; [done|]. split; [done|]. by eapply Forall2_length.
Qed.

Lemma start_ready q ts dir : rep q ts -> ready q (quicklistGetIterator q dir) (if dir then [] else ts) (if dir then ts else []).
Proof using.
  intros Hr. unfold quicklistGetIterator. destruct dir.
  - destruct (rep_first q ts Hr) as [[-> E]|(h & l & u & us & E & Hok & ->)]; [left; cbn; unfold head; rewrite E; done|]. right. exists [], h, l, [], u, us. split; [|split; [done|]].
    + split; [by apply ok_act|]. split; [done|]. split; [done|]. cbn. unfold head. by rewrite E.
    + cbn. rewrite drop_0. destruct (ok_at q None [] h l [] u us Hok E eq_refl) as (_ & _ & Hu & _). assert (0 < length u)%nat by (destruct u; [done|cbn; lia]). split_and!; try done; try lia; intros _; lia.
  - destruct (rep_last q ts Hr) as [[-> E]|(h & l & u & us & E & Hok & -> & Hl)]; [left; cbn; unfold tail; rewrite E; done|]. right. exists l, h, [], us, u, []. split; [|split; [done|]].
    + split; [by apply ok_act|]. split; [done|]. split; [done|]. cbn. unfold tail. by rewrite E, last_snoc.
    + cbn. destruct (ok_at q None l h [] us u [] Hok E Hl) as (_ & _ & Hu & _). assert (0 < length u)%nat by (destruct u; [done|cbn; lia]). rewrite firstn_all2, drop_ge by lia. rewrite concat_app. cbn. rewrite app_nil_r. split_and!; try done; try lia; intros _; lia.
Qed.

Lemma release_node q it l1 n l2 t1 t t2 : in_node q it l1 n l2 t1 t t2 -> exists q', quicklistReleaseIterator fresh base htab q it = Ret q' /\ rep q' (concat t1 ++ t ++ concat t2).
Proof using Hmem.
  intros (Hok & E & Hl1 & Hcur). unfold quicklistReleaseIterator. rewrite Hcur. destruct (compress_ok fresh base htab Hmem q _ l1 n l2 t1 t t2 Hok E Hl1 (or_intror eq_refl)) as (l & -> & Hs & Hok'). eexists. split; [done|]. eexists. split; [exact Hok'|]. by rewrite concat_app.
Qed.

Lemma release_cursor q it e al pre post : cursor q it e al pre post -> exists q', quicklistReleaseIterator fresh base htab q it = Ret q' /\ rep q' (pre ++ value_text (e_value e) :: post).
Proof using Hmem.
  intros (t1 & t & t2 & k & (l1 & n & l2 & zi & Hin & _ & _ & _ & _ & _ & _ & _ & Hv & _) & _ & -> & ->). destruct (release_node _ _ _ _ _ _ _ _ Hin) as (q' & -> & Hr). exists q'. split; [done|].
  rewrite <- app_assoc, app_comm_cons. destruct (lookup_cut _ _ _ Hv) as [<- _]. by rewrite (app_assoc (take k t)), take_drop.
Qed.

Lemma release_ready q it A B : ready q it A B -> exists q', quicklistReleaseIterator fresh base htab q it = Ret q' /\ rep q' (A ++ B).
Proof using Hmem.
  intros [(Hc & _ & Hr)|(l1 & n & l2 & t1 & t & t2 & Hin & _ & _ & -> & -> & _)]; [unfold quicklistReleaseIterator; rewrite Hc; eauto|].
  destruct (release_node _ _ _ _ _ _ _ _ Hin) as (q' & -> & Hr). exists q'. split; [done|]. rewrite <- app_assoc, (app_assoc (take _ t)), take_drop. done.
Qed.

Lemma del_entry q it e pre post : cursor q it e true pre post -> exists q' it', quicklistDelEntry fresh usable base htab q it e = Ret (q', it') /\ from_head it' = from_head it /\ ready q' it' pre post.
Proof using Husable Hmem.
  intros (t1 & t & t2 & k & (l1 & n & l2 & zi & Hin & Hraw & Hpt & Hzi & _ & He1 & He2 & _ & _) & Hal & -> & ->). specialize (Hal eq_refl). unfold aligned in Hal. pose proof Hin as (Hok & E & Hl1 & Hcur). pose proof (in_node_ids _ _ _ _ _ _ _ _ Hin) as Hids.
  destruct (ok_at q _ l1 n l2 t1 t t2 Hok E Hl1) as (_ & _ & _ & Hl2). unfold quicklistDelEntry. rewrite He1, He2, Hcur, Hzi. rewrite (prev_mid q l1 l2 n E Hids), (next_mid q l1 l2 n E Hids). cbn [obind].
  destruct (del_index fresh usable base htab Husable Hmem q _ l1 n l2 t1 t t2 k zi Hok E Hl1 Hraw (or_intror eq_refl) Hpt) as (q' & gone & r & -> & Hg & Hok' & Hn). cbn [obind]. unfold minus in Hok'. destruct Hpt as [Hk _].
  destruct gone; rewrite <- Hg in Hok'.
  - symmetry in Hg. apply Nat.eqb_eq in Hg. assert (k = 0%nat) as -> by lia. rewrite take_0, app_nil_r, (drop_ge t) by lia. cbn [app]. apply Forall2_app_inv_l in Hn as (m1 & m2 & S1 & S2 & En). assert (length m1 = length t1) as Hm1 by (rewrite <- (Forall2_length _ _ _ S1); lia).
    pose proof (Forall2_length _ _ _ S2) as Hm2. cbn [from_head]. destruct (from_head it) eqn:Ed; cbn [obind]; eexists q', _; (split; [done|]); (split; [done|]).
    + destruct l2 as [|x l2]; inversion S2 as [|? y ? m2' Hxy S2']; subst; destruct t2 as [|u t2]; try done; [left; split; [done|]; split; [done|]; by exists (t1 ++ []); rewrite concat_app|]. right. exists m1, y, m2', t1, u, t2.
      split; [split; [by apply ok_act|]; split; [done|]; split; [done|]; cbn; by rewrite (sim_nid _ _ Hxy)|]. split; [done|]. cbn. rewrite drop_0, app_nil_r. destruct (ok_at q' None m1 y m2' t1 u t2 Hok' En Hm1) as (_ & _ & Hu & _). assert (0 < length u)%nat by (destruct u; [done|cbn; lia]). split_and!; try done; try lia; intros _; lia.
    + destruct l1 as [|x l1 _] using rev_ind; [inversion S1; subst; destruct t1; [|done]; left; split; [done|]; split; [done|]; by exists t2|]. destruct t1 as [|u t1 _] using rev_ind; [by rewrite length_app in Hl1; cbn in Hl1; lia|]. apply Forall2_app_inv_l in S1 as (m1' & mr & S1 & Sr & ->). inversion Sr as [|? y ? ? Hxy Sr']; subst. inversion Sr'; subst.
      rewrite !length_app in Hm1, Hl1. cbn in Hm1, Hl1. rewrite last_snoc. cbn [fmap option_fmap option_map]. rewrite <- app_assoc in Hok', En. cbn [app] in Hok', En. right. exists m1', y, m2, t1, u, t2.
      split; [split; [by apply ok_act|]; split; [done|]; split; [lia|]; cbn; by rewrite (sim_nid _ _ Hxy)|]. split; [done|]. cbn. destruct (ok_at q' None m1' y m2 t1 u t2 Hok' En ltac:(lia)) as (_ & _ & Hu & _). assert (0 < length u)%nat by (destruct u; [done|cbn; lia]).
      rewrite firstn_all2, drop_ge by lia. rewrite concat_app. cbn. rewrite app_nil_r. split_and!; try done; try lia; intros _; lia.
  - destruct Hn as (n' & En & Hnid & Hkind & _). cbn [from_head]. eexists q', _. split; [done|]. split; [done|]. right. exists l1, n', l2, t1, (take k t ++ drop (S k) t), t2. cbn [it_offset from_head it_zi current].
    split; [split; [by rewrite Hnid|]; split; [done|]; split; [done|]; cbn; by rewrite Hnid|]. split; [done|]. rewrite Hal.
    assert (length (take k t ++ drop (S k) t) = length t - 1)%nat as Elen by (rewrite length_app, length_take, length_drop; lia). assert (Z.to_nat (if from_head it then if from_head it then Z.of_nat k else Z.of_nat k - Z.of_nat (length t) else Z.of_nat (length (take k t ++ drop (S k) t)) + (if from_head it then Z.of_nat k else Z.of_nat k - Z.of_nat (length t)) + 1) = k) as -> by (rewrite Elen; destruct (from_head it); lia).
    rewrite take_app, length_take, take_take. replace (k `min` k)%nat with k by lia. replace (k - k `min` length t)%nat with 0%nat by lia. rewrite take_0, app_nil_r. rewrite drop_app, length_take. replace (k - k `min` length t)%nat with 0%nat by lia. rewrite drop_0, (drop_ge (take k t)) by (rewrite length_take; lia). cbn [app].
    split; [destruct (from_head it); rewrite ?length_app, ?length_take, ?length_drop; lia|]. split; [done|]. split; [done|]. split; [destruct (from_head it); lia|]. by rewrite Hkind.
Qed.

(** ** By index *)

Definition flat_len (tss : list (list (list Z))) : Z := Z.of_nat (length (concat tss)).

Lemma flat_split t1 t t2 : flat_len (t1 ++ t :: t2) = flat_len t1 + Z.of_nat (length t) + flat_len t2.
Proof using. unfold flat_len. rewrite concat_app, length_app. cbn. rewrite length_app. lia. Qed.

(** The node that holds the element [i] from the side the search comes from. *)
Definition found (q : quicklist) (tss : list (list (list Z))) (fwd : bool) (i : Z) (r : option (nat * Z)) : Prop :=
  exists l1 n l2 t1 t t2, nodes q = l1 ++ n :: l2 /\ tss = t1 ++ t :: t2 /\ length l1 = length t1 /\
    let accum := flat_len (if fwd then t1 else t2) in r = Some (nid n, accum) /\ accum <= i < accum + Z.of_nat (length t).

Lemma seek_fwd q act tss i : ok q act tss -> forall fuel l2 l1 n t1 t t2, nodes q = l1 ++ n :: l2 -> tss = t1 ++ t :: t2 -> length l1 = length t1 -> (length l2 <= fuel)%nat ->
  flat_len t1 <= i < flat_len tss -> exists r, seek fuel q true i (Some (nid n)) (flat_len t1) = Ret r /\ found q tss true i r.
Proof using.
  intros Hok fuel l2. revert fuel. induction l2 as [|m l2 IH]; intros fuel l1 n t1 t t2 E -> Hl1 Hf Hi; pose proof (ch_ids _ _ _ _ (ok_chain _ _ _ Hok)) as Hids; destruct (ok_at q act l1 n _ t1 t t2 Hok E Hl1) as (_ & Hcn & _ & Hl2).
  - destruct t2; [|done]. rewrite flat_split in Hi. change (flat_len []) with 0 in Hi. assert (i < flat_len t1 + count n) as Hlt by (rewrite Hcn; lia). eexists. split; [destruct fuel; cbn [seek]; rewrite (node_mid q l1 [] n E Hids); cbn [obind]; rewrite (proj2 (Z.ltb_lt _ _)) by done; reflexivity|].
    exists l1, n, [], t1, t, []. cbn beta iota zeta. split_and!; try done; lia.
  - destruct (Z.ltb_spec i (flat_len t1 + Z.of_nat (length t))) as [Hlt|Hge].
    + eexists. split; [destruct fuel; cbn [seek]; rewrite (node_mid q l1 (m :: l2) n E Hids); cbn [obind]; rewrite Hcn, (proj2 (Z.ltb_lt _ _)) by done; reflexivity|]. exists l1, n, (m :: l2), t1, t, t2. cbn beta iota zeta. split_and!; try done; lia.
    + destruct fuel as [|fuel]; [cbn in Hf; lia|]. cbn [seek]. rewrite (node_mid q l1 (m :: l2) n E Hids). cbn [obind]. rewrite Hcn, (proj2 (Z.ltb_ge _ _)) by done. rewrite (next_mid q l1 (m :: l2) n E Hids). cbn [obind List.head fmap option_fmap option_map].
      destruct t2 as [|u t2]; [done|]. assert (flat_len t1 + Z.of_nat (length t) = flat_len (t1 ++ [t])) as Ef by (rewrite flat_split; change (flat_len []) with 0; lia). rewrite Ef in *.
      apply (IH fuel (l1 ++ [n]) m (t1 ++ [t]) u t2); [by rewrite <- app_assoc|by rewrite <- app_assoc|rewrite !length_app; cbn; lia|cbn in Hf; lia|lia].
Qed.

Lemma seek_bwd q act tss i : ok q act tss -> forall fuel l1 n l2 t1 t t2, nodes q = l1 ++ n :: l2 -> tss = t1 ++ t :: t2 -> length l1 = length t1 -> (length l1 <= fuel)%nat ->
  flat_len t2 <= i < flat_len tss -> exists r, seek fuel q false i (Some (nid n)) (flat_len t2) = Ret r /\ found q tss false i r.
Proof using.
  intros Hok fuel l1. revert fuel. induction l1 as [|m l1 IH] using rev_ind; intros fuel n l2 t1 t t2 E -> Hl1 Hf Hi; pose proof (ch_ids _ _ _ _ (ok_chain _ _ _ Hok)) as Hids; destruct (ok_at q act _ n l2 t1 t t2 Hok E Hl1) as (_ & Hcn & _ & Hl2).
  - destruct t1; [|done]. rewrite flat_split in Hi. change (flat_len []) with 0 in Hi. assert (i < flat_len t2 + count n) as Hlt by (rewrite Hcn; lia). eexists. split; [destruct fuel; cbn [seek]; rewrite (node_mid q [] l2 n E Hids); cbn [obind]; rewrite (proj2 (Z.ltb_lt _ _)) by done; reflexivity|].
    exists [], n, l2, [], t, t2. cbn beta iota zeta. split_and!; try done; lia.
  - destruct (Z.ltb_spec i (flat_len t2 + Z.of_nat (length t))) as [Hlt|Hge].
    + eexists. split; [destruct fuel; cbn [seek]; rewrite (node_mid q (l1 ++ [m]) l2 n E Hids); cbn [obind]; rewrite Hcn, (proj2 (Z.ltb_lt _ _)) by done; reflexivity|]. exists (l1 ++ [m]), n, l2, t1, t, t2. cbn beta iota zeta. split_and!; try done; lia.
    + destruct fuel as [|fuel]; [rewrite length_app in Hf; cbn in Hf; lia|]. cbn [seek]. rewrite (node_mid q (l1 ++ [m]) l2 n E Hids). cbn [obind]. rewrite Hcn, (proj2 (Z.ltb_ge _ _)) by done. rewrite (prev_mid q (l1 ++ [m]) l2 n E Hids), last_snoc. cbn [obind fmap option_fmap option_map].
      destruct t1 as [|u t1 _] using rev_ind; [rewrite length_app in Hl1; cbn in Hl1; lia|]. rewrite (length_app l1) in Hl1, Hf. rewrite (length_app t1) in Hl1. cbn in Hl1, Hf. assert (flat_len t2 + Z.of_nat (length t) = flat_len (t :: t2)) as Ef by (pose proof (flat_split [] t t2) as F; cbn [app] in F; rewrite F; change (flat_len []) with 0; lia). rewrite Ef in *.
      apply (IH fuel m (n :: l2) t1 u (t :: t2)); [by rewrite E, <- app_assoc|by rewrite <- app_assoc|lia|lia|lia].
Qed.

(** The index of an element, counted from the end if negative. *)
Definition abs_index (ts : list (list Z)) (idx : Z) : option nat :=
  let i := if idx <? 0 then Z.of_nat (length ts) + idx else idx in if (0 <=? i) && (i <? Z.of_nat (length ts)) then Some (Z.to_nat i) else None.

Lemma at_idx q tss dir idx : ok q None tss -> exists r, quicklistGetIteratorAtIdx q dir idx = Ret r /\
  match abs_index (concat tss) idx with
  | None => r = None
  | Some j => exists it l1 n l2 t1 t t2 k, r = Some it /\ tss = t1 ++ t :: t2 /\ in_node q it l1 n l2 t1 t t2 /\ it_zi it = None /\ from_head it = dir /\
      (k < length t)%nat /\ it_offset it = (if idx <? 0 then Z.of_nat k - Z.of_nat (length t) else Z.of_nat k) /\ j = (length (concat t1) + k)%nat
  end.
Proof using.
  intros Hok. pose proof Hok as [Hc Hcnt Hfull Htot]. fold (flat_len tss) in Htot. unfold quicklistGetIteratorAtIdx, abs_index. change (Z.of_nat (length (concat tss))) with (flat_len tss). rewrite Htot. set (index := if negb (idx <? 0) then idx else - idx - 1).
  assert (0 <= index) as Hi0 by (unfold index; case_bool; cbn; lia). assert (0 <= flat_len tss) by (unfold flat_len; lia). destruct (Z.leb_spec (flat_len tss) index) as [Hout|Hin].
  { eexists. split; [done|]. assert ((0 <=? (if idx <? 0 then flat_len tss + idx else idx)) && ((if idx <? 0 then flat_len tss + idx else idx) <? flat_len tss) = false) as ->; [|done]. apply andb_false_iff. unfold index in Hout. destruct (Z.ltb_spec idx 0); cbn in Hout; [left; apply Z.leb_gt; lia|right; apply Z.ltb_ge; lia]. }
  assert ((0 <=? (if idx <? 0 then flat_len tss + idx else idx)) && ((if idx <? 0 then flat_len tss + idx else idx) <? flat_len tss) = true) as ->.
  { apply andb_true_iff. rewrite Z.leb_le, Z.ltb_lt. unfold index in Hin, Hi0. destruct (Z.ltb_spec idx 0); cbn in Hin; lia. }
  set (sf := if (flat_len tss - 1) / 2 <? index then (negb (negb (idx <? 0)), flat_len tss - 1 - index) else (negb (idx <? 0), index)). destruct sf as [fwd si] eqn:Esf.
  assert (0 <= si < flat_len tss /\ si = if bool_decide (fwd = negb (idx <? 0)) then index else flat_len tss - 1 - index) as [Hsi Esi].
  { unfold sf in Esf. destruct (_ <? index); injection Esf as <- <-; split; try lia; [rewrite bool_decide_false by (by destruct (idx <? 0)); done|by rewrite bool_decide_true]. }
  assert (exists r, seek (length (nodes q)) q fwd si (if fwd then head q else tail q) 0 = Ret r /\ found q tss fwd si r) as (r & -> & l1 & n & l2 & t1 & t & t2 & E & -> & Hl1 & -> & Hacc).
  { destruct fwd.
    - destruct (rep_first q (concat tss)) as [[E0 _]|(h & l & u & us & E & Hok' & Ec)]; [by exists tss|unfold flat_len in Hin; rewrite E0 in Hin; cbn in Hin; lia|].
      destruct (split_texts q None None tss [] h l Hc E) as (a & b & c & -> & Ha & _). destruct a; [|done]. unfold head. rewrite E. cbn [List.head fmap option_fmap option_map]. change 0 with (flat_len []) at 1. eapply (seek_fwd q None _ si Hok _ l [] h [] b c); first [done|exact Hsi|cbn [length]; lia].
    - destruct (rep_last q (concat tss)) as [[E0 _]|(h & l & u & us & E & Hok' & Ec & _)]; [by exists tss|unfold flat_len in Hin; rewrite E0 in Hin; cbn in Hin; lia|].
      destruct (split_texts q None None tss l h [] Hc E) as (a & b & c & -> & Ha & Hc' & _). destruct c; [|done]. unfold tail. rewrite E, last_snoc. cbn [fmap option_fmap option_map]. change 0 with (flat_len []) at 1. eapply (seek_bwd q None _ si Hok _ l h [] a b []); first [done|exact Hsi|rewrite length_app; lia]. }
  cbn [obind]. rewrite (node_mid q l1 l2 n E (ch_ids _ _ _ _ Hc)). cbn [obind]. destruct (ok_at q None l1 n l2 t1 t t2 Hok E Hl1) as (_ & Hcn & _ & _). rewrite Hcn.
  set (accum := if bool_decide _ then _ else _). assert (accum = if idx <? 0 then flat_len t2 else flat_len t1) as Eacc.
  { unfold accum. rewrite flat_split. destruct fwd, (idx <? 0); cbn [negb]; repeat case_bool_decide; try done; lia. }
  assert (exists k, (k < length t)%nat /\ (if idx <? 0 then - index - 1 + flat_len t2 = Z.of_nat k - Z.of_nat (length t) /\ flat_len (t1 ++ t :: t2) + idx = flat_len t1 + Z.of_nat k else index - flat_len t1 = Z.of_nat k /\ idx = flat_len t1 + Z.of_nat k)) as (k & Hk & Hkk).
  { rewrite flat_split in *. unfold index in *. exists (Z.to_nat (if idx <? 0 then flat_len t1 + Z.of_nat (length t) + flat_len t2 + idx - flat_len t1 else idx - flat_len t1)). destruct (Z.ltb_spec idx 0); cbn [negb] in *; destruct fwd; repeat case_bool_decide; try done; lia. }
  eexists. split; [done|]. eexists _, l1, n, l2, t1, t, t2, k. split; [done|]. split; [done|]. split; [split; [by apply ok_act|]; done|]. split; [by destruct dir|]. split; [done|]. split; [done|]. cbn [it_offset]. rewrite Eacc. unfold flat_len in *. destruct (idx <? 0); cbn [negb]; split; lia.
Qed.

Lemma entry_at_idx q ts idx : rep q ts -> exists q' r, quicklistGetIteratorEntryAtIdx fresh base htab q idx = Ret (q', r) /\
  match r with
  | None => abs_index ts idx = None /\ q' = q
  | Some (it, e) => exists pre post, ts = pre ++ value_text (e_value e) :: post /\ abs_index ts idx = Some (length pre) /\ cursor q' it e false pre post
  end.
Proof using.
  intros (tss & Hok & ->). unfold quicklistGetIteratorEntryAtIdx. destruct (at_idx q tss false idx Hok) as (r & -> & Hr). cbn [obind]. destruct (abs_index (concat tss) idx) as [j|] eqn:Ej; [|subst r; exists q, None; done].
  destruct Hr as (it & l1 & n & l2 & t1 & t & t2 & k & -> & -> & (Hok' & E & Hl1 & Hcur) & Hzi & _ & Hk & Hoff & ->). unfold quicklistNext. cbn [Nat.add].
  assert (index_of t (it_offset it) = Z.of_nat k) as Ei by (unfold index_of; rewrite Hoff; destruct (Z.ltb_spec idx 0); case_bool; lia).
  destruct (arrive (S (length (nodes q))) q _ it l1 n l2 t1 t t2 Hok' (or_intror eq_refl) E Hl1 Hcur Hzi ltac:(lia)) as (q' & it' & e & -> & Hat & _). cbn [obind fst snd]. rewrite Ei, Nat2Z.id in Hat. exists q', (Some (it', e)). split; [done|].
  exists (concat t1 ++ take k t), (drop (S k) t ++ concat t2). pose proof Hat as (_ & _ & _ & _ & _ & _ & _ & _ & _ & _ & _ & _ & Hv & _). destruct (lookup_cut _ _ _ Hv) as [D1 D2]. split; [|split].
  - rewrite <- app_assoc, app_comm_cons, <- D1, (app_assoc (take k t)), take_drop, concat_app. done.
  - rewrite length_app, length_take. do 2 f_equal. lia.
  - exists t1, t, t2, k. done.
Qed.
End Iter.

End QuicklistIter.
