(* ===== verification/QuicklistEdit.v ===== *)
(** * QuicklistEdit: inserting, replacing and deleting in the middle (quicklist.c)

    Nodes are split and merged on the way; each operation is stated as what it does to the
    list of texts. *)
From S2P Require Import Prelude NumStr Lzf LpEntry Listpack LpBulk StrObj Quicklist QuicklistSpec QuicklistElems QuicklistOps QuicklistIter.
Import NumStr LpEntry Listpack LpBulk Quicklist QuicklistSpec QuicklistElems QuicklistOps QuicklistIter.

Module QuicklistEdit.

(** The invariant but for the number of elements. *)
Record good (q : quicklist) (act dc : option nat) (tss : list (list (list Z))) : Prop := {
  gd_chain : chain q act dc tss;
  gd_counts : count <$> nodes q = lens tss;
  gd_full : Forall (fun ts => ts <> []) tss
}.

(** What nodes do not change. *)
Record same (q q' : quicklist) : Prop := {
  same_fill : fill q' = fill q;
  same_compress : compress q' = compress q;
  same_total : total_count q' = total_count q
}.

Lemma same_refl q : same q q.
Proof. by split. Qed.

Lemma same_trans a b c : same a b -> same b c -> same a c.
Proof. intros [] []. split; congruence. Qed.

Lemma ok_good q act tss : ok q act tss -> good q act None tss.
Proof. intros [? ? ? ?]. by split. Qed.

Lemma good_ok q act tss : good q act None tss -> total_count q = flat_len tss -> ok q act tss.
Proof. intros [? ? ?] ?. by split. Qed.

Lemma good_at q act dc l1 n l2 t1 t t2 : good q act dc (t1 ++ t :: t2) -> nodes q = l1 ++ n :: l2 -> length l1 = length t1 -> body_ok (fill q) n t /\ count n = Z.of_nat (length t) /\ t <> [] /\ length l2 = length t2.
Proof.
  intros [Hc Hcnt Hfull] E Hl. destruct (split_texts q act dc _ l1 n l2 Hc E) as (t1' & t0 & t2' & Et & Hl1' & Hl2 & Hb). apply app_inj_1 in Et as [<- [= <- <-]]; [|lia].
  destruct (counts_split q _ l1 n l2 t1 t t2 Hcnt E eq_refl Hl) as (_ & C & _). pose proof (full_split _ _ _ Hfull) as [_ Ht]. done.
Qed.

Lemma tight_unset c l1 n n' l2 : tight c (l1 ++ n :: l2) -> is_lzf n' = false -> tight c (l1 ++ n' :: l2).
Proof.
  intros [[H1 H2] H] Hn. split.
  - split; intros m Hm.
    + destruct l1; [by injection Hm as <-|by apply H1].
    + destruct l2 as [|x l2 _] using rev_ind; [rewrite last_snoc in Hm; by injection Hm as <-|]. rewrite app_comm_cons, app_assoc, last_snoc in *. by apply H2.
  - destruct H as [H|H]; [left|right; rewrite length_app in *; done]. apply Forall_app in H as [? H]. apply Forall_cons in H as [? ?]. apply Forall_app. split; [done|]. by constructor.
Qed.

Section Edit.
Context (fresh : nat -> Z) (usable : nat -> nat) (base : list Z -> Z) (htab : list Z -> Z -> Z).
Context (Husable : forall n, (n <= usable n)%nat) (Hmem : memory_ok base htab).

Abbreviation insertN := (__quicklistInsertNode fresh base htab).
Abbreviation deleteN := (__quicklistDelNode fresh base htab).
Abbreviation compressQ := (quicklistCompress fresh base htab).
Abbreviation useN := (quicklistDecompressNodeForUse fresh).
Abbreviation recompressQ := (quicklistRecompressOnly fresh base htab).
Abbreviation mergeL := (_quicklistListpackMerge fresh usable base htab).

(** ** Merging *)

Lemma decompress_chain q act dc tss l1 n l2 : chain q act dc tss -> nodes q = l1 ++ n :: l2 ->
  exists n', quicklistDecompressNode fresh q (nid n) = Ret (set_nodes q (l1 ++ n' :: l2)) /\ sim n n' /\ is_lzf n' = false /\ chain (set_nodes q (l1 ++ n' :: l2)) act dc tss.
Proof using.
  intros Hc E. destruct (decompress_at fresh q l1 n l2 E (ch_ids _ _ _ _ Hc) (bodies_of _ _ _ (ch_body _ _ _ _ Hc))) as (n' & -> & Hs & Hraw & _). exists n'. split; [done|]. split; [done|]. split; [done|].
  apply chain_sim; [done|rewrite E; by apply sims_mid|]. pose proof (ch_tight _ _ _ _ Hc) as Ht. rewrite E in Ht. by eapply tight_unset.
Qed.

(** One node less, and the marks that are left. *)
Lemma flags_merge c act act' l1 a b l2 x : flags c act (l1 ++ a :: b :: l2) -> nid x = nid a \/ nid x = nid b -> recompress x = false ->
  (forall m, m ∈ l1 ++ l2 -> recompress m = true -> act' = Some (nid m)) -> (act' <> None -> 2 * c + 2 <= Z.of_nat (length (l1 ++ a :: b :: l2))) -> flags c act' (l1 ++ x :: l2).
Proof using.
  intros Hf Hx Hr Hact Hlen m1 m m2 E Hm. assert (m ∈ l1 ++ l2) as Hin. { assert (m ∈ l1 ++ x :: l2) as H by (rewrite E; apply elem_of_app; right; left). rewrite elem_of_app, elem_of_cons in H. rewrite elem_of_app. destruct H as [?|[->|?]]; [by left|congruence|by right]. }
  pose proof (Hact m Hin Hm) as ->. specialize (Hlen ltac:(done)). split; [done|].
  assert (0 < c) as Hc. { assert (m ∈ l1 ++ a :: b :: l2) as H by (rewrite elem_of_app, !elem_of_cons in *; tauto). apply list_elem_of_split in H as (r1 & r2 & Er). by destruct (Hf r1 m r2 Er Hm) as (_ & _ & _ & ? & _). }
  split_and!; [| |done|rewrite length_app in *; cbn [length] in *; lia].
  - intros ->. destruct l1 as [|y l1]; [injection E as -> _; congruence|]. injection E as -> _. destruct (Hf [] m (l1 ++ a :: b :: l2) eq_refl Hm) as (_ & ? & _). done.
  - intros ->. destruct l2 as [|y l2 _] using rev_ind; [apply app_inj_tail in E as [_ ->]; congruence|]. rewrite app_comm_cons, app_assoc in E. apply app_inj_tail in E as [_ ->]. destruct (Hf (l1 ++ a :: b :: l2) m []) as (_ & _ & ? & _); [by rewrite <- app_assoc|done|]. done.
Qed.

Lemma merge_spec q act act' l1 a b l2 t1 ta tb t2 : good q act None (t1 ++ ta :: tb :: t2) -> nodes q = l1 ++ a :: b :: l2 -> length l1 = length t1 -> _quicklistNodeAllowMerge (Some a) (Some b) (fill q) = true ->
  (forall m, m ∈ l1 ++ l2 -> recompress m = true -> act' = Some (nid m)) -> (act' <> None -> 2 * compress q + 2 <= Z.of_nat (length (nodes q))) ->
  exists q' m1 x m2, mergeL q (nid a) (nid b) = Ret (q', Some (nid x)) /\ same q q' /\ nodes q' = m1 ++ x :: m2 /\ Forall2 sim l1 m1 /\ Forall2 sim l2 m2 /\ good q' act' None (t1 ++ (ta ++ tb) :: t2).
Proof using Husable Hmem.
  intros Hg E Hl1 Hm Hact Hlen. pose proof Hg as [Hc Hcnt Hfull]. destruct (good_at q act None l1 a (b :: l2) t1 ta (tb :: t2) Hg E Hl1) as (Ba & Ca & Na & _).
  assert (nodes q = (l1 ++ [a]) ++ b :: l2) as E' by (by rewrite <- app_assoc). assert (good q act None ((t1 ++ [ta]) ++ tb :: t2)) as Hg' by (by rewrite <- app_assoc). destruct (good_at q act None _ b l2 (t1 ++ [ta]) tb t2 Hg' E' ltac:(rewrite !length_app; cbn; lia)) as (Bb & Cb & Nb & Hl2).
  destruct (allow_merge (fill q) a b ta tb Hm Ba Bb) as (Ka & Kb & Hs). unfold _quicklistListpackMerge. destruct (decompress_chain q act None _ l1 a (b :: l2) Hc E) as (a1 & -> & Sa & Ra & Hc1). cbn [obind].
  set (q1 := set_nodes q (l1 ++ a1 :: b :: l2)) in *. assert (nodes q1 = (l1 ++ [a1]) ++ b :: l2) as E1 by (unfold q1; cbn; by rewrite <- app_assoc). destruct (decompress_chain q1 act None _ (l1 ++ [a1]) b l2 Hc1 E1) as (b1 & -> & Sb & Rb & Hc2). cbn [obind]. rewrite <- app_assoc in Hc2 |- *. cbn [app] in Hc2 |- *.
  set (q2 := set_nodes q1 (l1 ++ a1 :: b1 :: l2)) in *. pose proof (ch_ids _ _ _ _ Hc2) as Hids2. rewrite <- (sim_nid _ _ Sa), <- (sim_nid _ _ Sb). pose proof (node_mid q2 l1 (b1 :: l2) a1 eq_refl Hids2) as Na1. assert (nodes q2 = (l1 ++ [a1]) ++ b1 :: l2) as E2 by (unfold q2; cbn; by rewrite <- app_assoc).
  pose proof (node_mid q2 _ l2 b1 E2 Hids2) as Nb1. rewrite Na1, Nb1. cbn [obind]. destruct (get_body _ a1 ta (sim_body _ _ Sa _ _ Ba) ltac:(rewrite (sim_kind _ _ Sa); done) Ra) as (la & -> & _ & Ha & _), (get_body _ b1 tb (sim_body _ _ Sb _ _ Bb) ltac:(rewrite (sim_kind _ _ Sb); done) Rb) as (lb & -> & _ & Hb & _). cbn [obind].
  assert (nid a1 <> nid b1) as Hne by (by apply (ids_neq q2 l1 a1 [] b1 l2)). rewrite (proj2 (Nat.eqb_neq _ _) Hne). destruct (merge_text fresh usable Husable (fill q) la lb ta tb Ha Hb Hs) as (lp & first & -> & Hlp). cbn [obind].
  destruct (length_text lp _ Hlp) as (lp' & El & Hlp'). rewrite El.
  assert (Forall (fun ts => ts <> []) (t1 ++ (ta ++ tb) :: t2)) as Hf'. { apply Forall_app in Hfull as [? Hf]. apply Forall_cons in Hf as [? Hf]. apply Forall_cons in Hf as [? ?]. apply Forall_app. split; [done|]. constructor; [|done]. by destruct ta. }
  destruct (counts_split q _ l1 a (b :: l2) t1 ta (tb :: t2) Hcnt E eq_refl Hl1) as (C1 & _ & _). destruct (counts_split q _ (l1 ++ [a]) b l2 (t1 ++ [ta]) tb t2 Hcnt E' ltac:(by rewrite <- app_assoc) ltac:(rewrite !length_app; cbn; lia)) as (_ & _ & C2).
  set (upd := fun n => set_recompress (put_lp (set_count n (Z.of_nat (length (ta ++ tb)))) lp') false). assert (forall n, kind n = PACKED -> body_ok (fill q) (upd n) (ta ++ tb)) as Bupd by (intros n Hk; apply (put_body (fill q) (set_recompress (set_count n (Z.of_nat (length (ta ++ tb)))) false)); done).
  assert (forall n, count (upd n) = Z.of_nat (length (ta ++ tb))) as Cupd by (intros n; cbn; apply wrap16; destruct Hs as (_ & ? & _); lia).
  assert (flags (compress q) act (l1 ++ a1 :: b1 :: l2)) as Hfl by apply (ch_flags _ _ _ _ Hc2).
  assert (act' <> None -> 2 * compress q + 2 <= Z.of_nat (length (l1 ++ a1 :: b1 :: l2))) as Hlen' by (intros HH; specialize (Hlen HH); rewrite E in Hlen; rewrite length_app in *; done).
  destruct first; cbn [obind].
  - rewrite (update_mid q2 l1 (b1 :: l2) a1 eq_refl Hids2). fold (upd a1). cbn [obind].
    pose proof (chain_set q2 act None l1 a1 (b1 :: l2) t1 ta (tb :: t2) (upd a1) (ta ++ tb) Hc2 eq_refl Hl1 eq_refl ltac:(done) eq_refl ltac:(by rewrite Ra) (Bupd a1 ltac:(rewrite (sim_kind _ _ Sa); done))) as Hc3. set (q3 := set_nodes q2 (l1 ++ upd a1 :: b1 :: l2)) in *.
    assert (nodes q3 = (l1 ++ [upd a1]) ++ b1 :: l2) as E3 by (unfold q3; cbn; by rewrite <- app_assoc). rewrite (update_mid q3 _ l2 b1 E3 (ch_ids _ _ _ _ Hc3)). cbn [obind].
    assert (chain q3 act None ((t1 ++ [ta ++ tb]) ++ tb :: t2)) as Hc3' by (by rewrite <- app_assoc).
    destruct (delete_mid fresh base htab Hmem q3 act act' None (l1 ++ [upd a1]) b1 (set_count b1 0) l2 (t1 ++ [ta ++ tb]) tb t2 Hc3' E3 ltac:(rewrite !length_app; cbn; lia) eq_refl) as (l & -> & Hsl & Hc4).
    { rewrite <- app_assoc. apply (flags_merge _ act act' l1 a1 b1 l2 (upd a1)); try done; by left. }
    cbn [obind]. change (count (set_count b1 0)) with 0 in *. set (q4 := add_count _ _) in *. rewrite <- app_assoc in Hsl, Hc4. cbn [app] in Hsl, Hc4. destruct (sims_split_l l1 (upd a1) l2 l Hsl) as (m1 & x & m2 & El' & S1 & Sx & S2).
    destruct (compressQ_spec fresh base htab Hmem q4 act' None _ (nid a1) Hc4) as (l' & -> & Hsl' & Hc5); [unfold ids; cbn; rewrite El', fmap_app, fmap_cons, (sim_nid _ _ Sx); apply elem_of_app; right; left|]. cbn [obind].
    change (nodes q4) with l in Hsl'. pose proof (sims_trans _ _ _ Hsl Hsl') as Hss. destruct (sims_split_l l1 (upd a1) l2 l' Hss) as (m1' & x' & m2' & -> & S1' & Sx' & S2'). exists (set_nodes q4 (m1' ++ x' :: m2')), m1', x', m2'.
    split; [by rewrite (sim_nid _ _ Sx')|]. split; [split; cbn; lia || done|]. split; [done|]. split; [done|]. split; [done|]. split; [apply Hc5; by left| |done]. cbn [nodes set_nodes]. rewrite fmap_app, fmap_cons, lens_app. by rewrite (counts_sim _ _ S1'), (counts_sim _ _ S2'), (sim_count _ _ Sx'), Cupd, C1, C2.
  - rewrite (update_mid q2 (l1 ++ [a1]) l2 b1 E2 Hids2). fold (upd b1). cbn [obind].
    assert (chain q2 act None ((t1 ++ [ta]) ++ tb :: t2)) as Hc2' by (by rewrite <- app_assoc).
    pose proof (chain_set q2 act None (l1 ++ [a1]) b1 l2 (t1 ++ [ta]) tb t2 (upd b1) (ta ++ tb) Hc2' E2 ltac:(rewrite !length_app; cbn; lia) eq_refl ltac:(done) eq_refl ltac:(by rewrite Rb) (Bupd b1 ltac:(rewrite (sim_kind _ _ Sb); done))) as Hc3. rewrite <- (app_assoc l1) in Hc3 |- *. rewrite <- (app_assoc t1) in Hc3. cbn [app] in Hc3 |- *. set (q3 := set_nodes q2 (l1 ++ a1 :: upd b1 :: l2)) in *.
    rewrite (update_mid q3 l1 (upd b1 :: l2) a1 eq_refl (ch_ids _ _ _ _ Hc3)). cbn [obind].
    destruct (delete_mid fresh base htab Hmem q3 act act' None l1 a1 (set_count a1 0) (upd b1 :: l2) t1 ta ((ta ++ tb) :: t2) Hc3 eq_refl Hl1 eq_refl) as (l & -> & Hsl & Hc4).
    { apply (flags_merge _ act act' l1 a1 b1 l2 (upd b1)); try done; by right. }
    cbn [obind]. change (count (set_count a1 0)) with 0 in *. set (q4 := add_count _ _) in *. destruct (sims_split_l l1 (upd b1) l2 l Hsl) as (m1 & x & m2 & El' & S1 & Sx & S2).
    destruct (compressQ_spec fresh base htab Hmem q4 act' None _ (nid b1) Hc4) as (l' & -> & Hsl' & Hc5); [unfold ids; cbn; rewrite El', fmap_app, fmap_cons, (sim_nid _ _ Sx); apply elem_of_app; right; left|]. cbn [obind].
    change (nodes q4) with l in Hsl'. pose proof (sims_trans _ _ _ Hsl Hsl') as Hss. destruct (sims_split_l l1 (upd b1) l2 l' Hss) as (m1' & x' & m2' & -> & S1' & Sx' & S2'). exists (set_nodes q4 (m1' ++ x' :: m2')), m1', x', m2'.
    split; [by rewrite (sim_nid _ _ Sx')|]. split; [split; cbn; lia || done|]. split; [done|]. split; [done|]. split; [done|]. split; [apply Hc5; by left| |done]. cbn [nodes set_nodes]. rewrite fmap_app, fmap_cons, lens_app. by rewrite (counts_sim _ _ S1'), (counts_sim _ _ S2'), (sim_count _ _ Sx'), Cupd, C1, C2.
Qed.

Abbreviation tryM := (try_merge fresh usable base htab).

Lemma try_merge_spec q act act' l1 a b l2 t1 ta tb t2 : good q act None (t1 ++ ta :: tb :: t2) -> nodes q = l1 ++ a :: b :: l2 -> length l1 = length t1 ->
  (forall m, m ∈ l1 ++ l2 -> recompress m = true -> act' = Some (nid m)) -> (act' <> None -> 2 * compress q + 2 <= Z.of_nat (length (nodes q))) ->
  exists q' r m1 M m2 TM, let merged := _quicklistNodeAllowMerge (Some a) (Some b) (fill q) in
    tryM q (Some (nid a)) (Some (nid b)) = Ret (q', r, merged) /\ same q q' /\ nodes q' = m1 ++ M ++ m2 /\ Forall2 sim l1 m1 /\ Forall2 sim l2 m2 /\ length M = length TM /\ concat TM = ta ++ tb /\
    good q' (if merged then act' else act) None (t1 ++ TM ++ t2) /\ if merged then exists x, M = [x] /\ r = Some (nid x) else M = [a; b] /\ TM = [ta; tb] /\ r = None /\ q' = q.
Proof using Husable Hmem.
  intros Hg E Hl1 Hact Hlen. pose proof (ch_ids _ _ _ _ (gd_chain _ _ _ _ Hg)) as Hids. unfold try_merge, node_of. rewrite (node_mid q l1 (b :: l2) a E Hids), (node_mid q (l1 ++ [a]) l2 b ltac:(by rewrite <- app_assoc) Hids). cbn [obind].
  destruct (_quicklistNodeAllowMerge (Some a) (Some b) (fill q)) eqn:Em.
  - destruct (merge_spec q act act' l1 a b l2 t1 ta tb t2 Hg E Hl1 Em Hact Hlen) as (q' & m1 & x & m2 & -> & Hs & En & S1 & S2 & Hg'). cbn [obind]. exists q', (Some (nid x)), m1, [x], m2, [ta ++ tb]. split_and!; try done; [cbn; by rewrite app_nil_r|by exists x].
  - exists q, None, l1, [a; b], l2, [ta; tb]. split_and!; try done; try apply sims_refl. cbn. by rewrite app_nil_r.
Qed.

Lemma try_merge_none q a b : (a = None \/ exists n l1 l2, a = Some (nid n) /\ nodes q = l1 ++ n :: l2) -> (b = None \/ exists n l1 l2, b = Some (nid n) /\ nodes q = l1 ++ n :: l2) -> ids_ok q -> a = None \/ b = None -> tryM q a b = Ret (q, None, false).
Proof using.
  intros Ha Hb Hids Hn. unfold try_merge, node_of. assert (forall p : option nat, (p = None \/ exists n l1 l2, p = Some (nid n) /\ nodes q = l1 ++ n :: l2) -> exists r, match p with Some p => let* n := node q p in Ret (Some n) | None => Ret None end = Ret r) as H.
  { intros p [->|(n & l1 & l2 & -> & E)]; [eauto|]. rewrite (node_mid q l1 l2 n E Hids). cbn. eauto. }
  destruct (H a Ha) as [ra ->], (H b Hb) as [rb ->]. cbn [obind]. destruct a, b; try done. by destruct Hn.
Qed.

(** The two nodes before the center. *)
Lemma merge_left q act c L R TL tc TR : good q act None (TL ++ tc :: TR) -> nodes q = L ++ c :: R -> length L = length TL -> (act = None \/ exists b, last L = Some b /\ act = Some (nid b)) ->
  exists pp, opt_step (prev q) (nid <$> last L) = Ret pp /\ exists q' r merged L' c' R' TL' act', tryM q pp (nid <$> last L) = Ret (q', r, merged) /\ same q q' /\ nodes q' = L' ++ c' :: R' /\ sim c c' /\ Forall2 sim R R' /\ length L' = length TL' /\ concat TL' = concat TL /\
    good q' act' None (TL' ++ tc :: TR) /\ (act' = None \/ act' = act /\ q' = q /\ L' = L /\ TL' = TL) /\ (L <> [] -> L' <> []).
Proof using Husable Hmem.
  intros Hg E Hl Hact. pose proof (ch_ids _ _ _ _ (gd_chain _ _ _ _ Hg)) as Hids.
  assert (exists q' r merged L' c' R' TL' act', Ret (q, None : option nat, false) = Ret (q', r, merged) /\ same q q' /\ nodes q' = L' ++ c' :: R' /\ sim c c' /\ Forall2 sim R R' /\ length L' = length TL' /\ concat TL' = concat TL /\ good q' act' None (TL' ++ tc :: TR) /\ (act' = None \/ act' = act /\ q' = q /\ L' = L /\ TL' = TL) /\ (L <> [] -> L' <> [])) as Hnone.
  { exists q, (None : option nat), false, L, c, R, TL, act. split_and!; try done; try apply sims_refl. by right. }
  destruct L as [|b L _] using rev_ind; [exists None; split; [done|]; cbn [last fmap option_fmap option_map]; rewrite try_merge_none; try done; by left|]. rewrite last_snoc. cbn [fmap option_fmap option_map opt_step].
  assert (nodes q = L ++ b :: c :: R) as E1 by (by rewrite E, <- app_assoc). rewrite (prev_mid q L (c :: R) b E1 Hids).
  destruct L as [|a L _] using rev_ind; [exists None; split; [done|]; cbn [last fmap option_fmap option_map]; rewrite try_merge_none; try done; [by left|right; by exists b, [], (c :: R)|by left]|]. rewrite last_snoc. cbn [fmap option_fmap option_map]. exists (Some (nid a)). split; [done|].
  destruct TL as [|tb TL _] using rev_ind; [rewrite !length_app in Hl; cbn in Hl; lia|]. destruct TL as [|ta TL _] using rev_ind; [rewrite !length_app in Hl; cbn in Hl; lia|].
  assert (length L = length TL) as HlL by (rewrite !length_app in Hl; cbn in Hl; lia). assert (nodes q = L ++ a :: b :: c :: R) as E2 by (by rewrite E1, <- app_assoc). assert (good q act None (TL ++ ta :: tb :: tc :: TR)) as Hg2 by (by rewrite <- !app_assoc in Hg).
  destruct (try_merge_spec q act None L a b (c :: R) TL ta tb (tc :: TR) Hg2 E2 HlL) as (q' & r & m1 & M & m2 & TM & -> & Hs & En & S1 & S2 & HM & HTM & Hg' & Hcase); [|done|].
  { intros m Hm Hr. exfalso. assert (m ∈ nodes q) as Hin by (rewrite E2; rewrite elem_of_app, !elem_of_cons in *; tauto). apply list_elem_of_split in Hin as (r1 & r2 & Er). destruct (ch_flags _ _ _ _ (gd_chain _ _ _ _ Hg) r1 m r2 Er Hr) as (Ha & _). destruct Hact as [->|(b0 & Eb & ->)]; [done|]. rewrite last_snoc in Eb. injection Eb as <-. injection Ha as Ha.
    apply (ids_others q (L ++ [a]) b (c :: R) Hids ltac:(by rewrite E2, <- app_assoc) m); [|done]. rewrite elem_of_app, !elem_of_cons in *. rewrite elem_of_app. tauto. }
  inversion S2 as [|? c' ? R' Sc SR]; subst m2. exists q', r, (_quicklistNodeAllowMerge (Some a) (Some b) (fill q)), (m1 ++ M), c', R', (TL ++ TM). eexists. split; [done|]. split; [done|]. split; [by rewrite En, <- app_assoc|]. split; [done|]. split; [done|].
  split; [rewrite !length_app, HM, <- (Forall2_length _ _ _ S1); lia|]. split; [rewrite !concat_app, HTM; cbn; by rewrite !app_nil_r, <- app_assoc|]. split; [rewrite <- app_assoc; exact Hg'|]. destruct (_quicklistNodeAllowMerge _ _ _).
  - destruct Hcase as (y1 & -> & _). split; [by left|]. intros _ E0. by apply app_eq_nil in E0 as [_ ?].
  - destruct Hcase as (-> & -> & -> & ->). assert (m1 = L) as -> by (rewrite E2 in En; cbn in En; apply app_inj_1 in En as [-> _]; [done|by apply (Forall2_length _ _ _ S1)]). split; [right; by rewrite <- !app_assoc|]. intros _ E0. by apply app_eq_nil in E0 as [_ ?].
Qed.

(** The two nodes after it. *)
Lemma merge_right q act c L R TL tc TR : good q act None (TL ++ tc :: TR) -> nodes q = L ++ c :: R -> length L = length TL -> (act <> None -> 2 * compress q + 2 <= Z.of_nat (length (nodes q))) ->
  exists q' r merged L' c' R' TR', tryM q (nid <$> List.head R) (nid <$> List.head (List.tl R)) = Ret (q', r, merged) /\ same q q' /\ nodes q' = L' ++ c' :: R' /\ Forall2 sim L L' /\ sim c c' /\ length R' = length TR' /\ concat TR' = concat TR /\
    good q' act None (TL ++ tc :: TR').
Proof using Husable Hmem.
  intros Hg E Hl Hlen. pose proof (ch_ids _ _ _ _ (gd_chain _ _ _ _ Hg)) as Hids. destruct (good_at q act None L c R TL tc TR Hg E Hl) as (_ & _ & _ & HlR).
  assert (exists q' r merged L' c' R' TR', Ret (q, None : option nat, false) = Ret (q', r, merged) /\ same q q' /\ nodes q' = L' ++ c' :: R' /\ Forall2 sim L L' /\ sim c c' /\ length R' = length TR' /\ concat TR' = concat TR /\ good q' act None (TL ++ tc :: TR')) as Hnone.
  { exists q, (None : option nat), false, L, c, R, TR. split_and!; try done; apply sims_refl. }
  destruct R as [|a R]; [cbn [List.head List.tl fmap option_fmap option_map]; rewrite try_merge_none; try done; by left|]. assert (nodes q = (L ++ [c]) ++ a :: R) as E1 by (by rewrite E, <- app_assoc).
  destruct R as [|b R]; [cbn [List.head List.tl fmap option_fmap option_map]; rewrite try_merge_none; try done; [right; by exists a, (L ++ [c]), []|by left|by right]|]. cbn [List.head List.tl fmap option_fmap option_map].
  destruct TR as [|ta [|tb TR]]; try done. assert (good q act None ((TL ++ [tc]) ++ ta :: tb :: TR)) as Hg2 by (by rewrite <- app_assoc).
  destruct (try_merge_spec q act act (L ++ [c]) a b R (TL ++ [tc]) ta tb TR Hg2 E1 ltac:(rewrite !length_app; cbn; lia)) as (q' & r & m1 & M & m2 & TM & -> & Hs & En & S1 & S2 & HM & HTM & Hg' & _); [|done|].
  { intros m Hm Hr. assert (m ∈ nodes q) as Hin by (rewrite E1; rewrite elem_of_app, !elem_of_cons in *; tauto). apply list_elem_of_split in Hin as (r1 & r2 & Er). by destruct (ch_flags _ _ _ _ (gd_chain _ _ _ _ Hg) r1 m r2 Er Hr) as (Ha & _). }
  apply Forall2_app_inv_l in S1 as (L' & mc & SL & Sc & ->). inversion Sc as [|? c' ? ? Sc' S0]; subst. inversion S0; subst. exists q', r, (_quicklistNodeAllowMerge (Some a) (Some b) (fill q)), L', c', (M ++ m2), (TM ++ TR). split; [done|]. split; [done|]. split; [by rewrite En, <- app_assoc|]. split; [done|]. split; [done|].
  split; [rewrite !length_app, HM, <- (Forall2_length _ _ _ S2); cbn in HlR; lia|]. split; [rewrite concat_app, HTM; cbn; by rewrite <- app_assoc|]. rewrite <- app_assoc in Hg'. by destruct (_quicklistNodeAllowMerge _ _ _).
Qed.

Lemma good_quiet q dc tss m : good q None dc tss -> m ∈ nodes q -> recompress m = false.
Proof using. intros Hg Hm. apply not_true_iff_false. intros Hr. apply list_elem_of_split in Hm as (r1 & r2 & Er). by destruct (ch_flags _ _ _ _ (gd_chain _ _ _ _ Hg) r1 m r2 Er Hr) as (Ha & _). Qed.

(** The center and the node before it, or after it. *)
Lemma merge_prev q c L R TL tc TR : good q None None (TL ++ tc :: TR) -> nodes q = L ++ c :: R -> length L = length TL ->
  exists q' r merged L' c' R' TL' tc', tryM q (nid <$> last L) (Some (nid c)) = Ret (q', r, merged) /\ same q q' /\ (if merged : bool then r = Some (nid c') else nid c' = nid c) /\ nodes q' = L' ++ c' :: R' /\ length L' = length TL' /\
    concat (TL' ++ [tc']) = concat (TL ++ [tc]) /\ good q' None None (TL' ++ tc' :: TR).
Proof using Husable Hmem.
  intros Hg E Hl. pose proof (ch_ids _ _ _ _ (gd_chain _ _ _ _ Hg)) as Hids. destruct L as [|a L _] using rev_ind.
  { cbn [last fmap option_fmap option_map]. rewrite try_merge_none; try done; [|by left|right; by exists c, [], R|by left]. exists q, None, false, [], c, R, TL, tc. split_and!; done. }
  rewrite last_snoc. cbn [fmap option_fmap option_map]. destruct TL as [|ta TL _] using rev_ind; [rewrite !length_app in Hl; cbn in Hl; lia|]. assert (length L = length TL) as HlL by (rewrite !length_app in Hl; cbn in Hl; lia). rewrite <- app_assoc in E, Hg. cbn [app] in E, Hg.
  destruct (try_merge_spec q None None L a c R TL ta tc TR Hg E HlL) as (q' & r & m1 & M & m2 & TM & -> & Hs & En & S1 & S2 & HM & HTM & Hg' & Hcase); [|done|].
  { intros m Hm Hr. rewrite (good_quiet q None _ m Hg) in Hr; [done|]. rewrite E. rewrite elem_of_app, !elem_of_cons in *. tauto. }
  exists q', r, (_quicklistNodeAllowMerge (Some a) (Some c) (fill q)). destruct (_quicklistNodeAllowMerge _ _ _).
  - destruct Hcase as (x & -> & ->). destruct TM as [|tx [|]]; try done. cbn in HTM. rewrite app_nil_r in HTM. subst tx. exists m1, x, m2, TL, (ta ++ tc). split_and!; try done; [rewrite <- (Forall2_length _ _ _ S1); done|]. rewrite !concat_app. cbn. by rewrite !app_nil_r, <- app_assoc.
  - destruct Hcase as (-> & -> & -> & ->). exists (m1 ++ [a]), c, m2, (TL ++ [ta]), tc. split_and!; try done; [by rewrite En, <- app_assoc|rewrite !length_app, <- (Forall2_length _ _ _ S1), HlL; done|by rewrite <- app_assoc].
Qed.

Lemma merge_next q c L R TL tc TR : good q None None (TL ++ tc :: TR) -> nodes q = L ++ c :: R -> length L = length TL ->
  exists q' r merged c' TR' tc' L' R', tryM q (Some (nid c)) (nid <$> List.head R) = Ret (q', r, merged) /\ same q q' /\ (if merged : bool then r = Some (nid c') else nid c' = nid c) /\ nodes q' = L' ++ c' :: R' /\
    concat (tc' :: TR') = concat (tc :: TR) /\ good q' None None (TL ++ tc' :: TR').
Proof using Husable Hmem.
  intros Hg E Hl. pose proof (ch_ids _ _ _ _ (gd_chain _ _ _ _ Hg)) as Hids. destruct (good_at q None None L c R TL tc TR Hg E Hl) as (_ & _ & _ & HlR). destruct R as [|b R]; cbn [List.head fmap option_fmap option_map].
  { rewrite try_merge_none; try done; [|right; by exists c, L, []|by left|by right]. exists q, None, false, c, TR, tc, L, []. split_and!; done. }
  destruct TR as [|tb TR]; [done|].
  destruct (try_merge_spec q None None L c b R TL tc tb TR Hg E Hl) as (q' & r & m1 & M & m2 & TM & -> & Hs & En & S1 & S2 & HM & HTM & Hg' & Hcase); [|done|].
  { intros m Hm Hr. rewrite (good_quiet q None _ m Hg) in Hr; [done|]. rewrite E. rewrite elem_of_app, !elem_of_cons in *. tauto. }
  exists q', r, (_quicklistNodeAllowMerge (Some c) (Some b) (fill q)). destruct (_quicklistNodeAllowMerge _ _ _).
  - destruct Hcase as (x & -> & ->). destruct TM as [|tx [|]]; try done. cbn in HTM. rewrite app_nil_r in HTM. subst tx. exists x, TR, (tc ++ tb), m1, m2. split_and!; try done. cbn. by rewrite <- app_assoc.
  - destruct Hcase as (-> & -> & -> & ->). exists c, (tb :: TR), tc, m1, (b :: m2). split_and!; done.
Qed.

Abbreviation mergeNodes := (_quicklistMergeNodes fresh usable base htab).

Lemma merge_nodes q c L R TL tc TR : good q None None (TL ++ tc :: TR) -> nodes q = L ++ c :: R -> length L = length TL ->
  exists q' x tss', mergeNodes q (nid c) = Ret (q', x) /\ same q q' /\ good q' None None tss' /\ concat tss' = concat (TL ++ tc :: TR).
Proof using Husable Hmem.
  intros Hg E Hl. pose proof (ch_ids _ _ _ _ (gd_chain _ _ _ _ Hg)) as Hids. unfold _quicklistMergeNodes. rewrite (prev_mid q L R c E Hids). cbn [obind]. destruct (merge_left q None c L R TL tc TR Hg E Hl (or_introl eq_refl)) as (pp & -> & q1 & r1 & b1 & L1 & c1 & R1 & TL1 & act1 & M1 & Q1 & E1 & Sc1 & SR1 & Hl1 & C1 & Hg1 & Ha1 & _).
  assert (act1 = None) as -> by (destruct Ha1 as [->|[-> _]]; done). cbn [obind]. rewrite (next_mid q L R c E Hids). cbn [obind].
  assert (opt_step (next q) (nid <$> List.head R) = Ret (nid <$> List.head (List.tl R))) as ->.
  { destruct R as [|a R]; [done|]. cbn [List.head List.tl fmap option_fmap option_map opt_step]. by rewrite (next_mid q (L ++ [c]) R a ltac:(by rewrite E, <- app_assoc) Hids). }
  cbn [obind]. rewrite M1. cbn [obind].
  assert (nid <$> List.head R = nid <$> List.head R1 /\ nid <$> List.head (List.tl R) = nid <$> List.head (List.tl R1)) as [-> ->].
  { destruct SR1 as [|a a' ? ? Sa SR1]; [done|]. cbn. rewrite (sim_nid _ _ Sa). split; [done|]. destruct SR1 as [|b b' ? ? Sb _]; [done|]. cbn. by rewrite (sim_nid _ _ Sb). }
  destruct (merge_right q1 None c1 L1 R1 TL1 tc TR Hg1 E1 Hl1) as (q2 & r2 & b2 & L2 & c2 & R2 & TR2 & -> & Q2 & E2 & SL2 & Sc2 & Hl2 & C2 & Hg2); [done|]. cbn [obind].
  assert (nid c = nid c2) as -> by (by rewrite (sim_nid _ _ Sc2), (sim_nid _ _ Sc1)). rewrite (prev_mid q2 L2 R2 c2 E2 (ch_ids _ _ _ _ (gd_chain _ _ _ _ Hg2))). cbn [obind].
  destruct (merge_prev q2 c2 L2 R2 TL1 tc TR2 Hg2 E2 ltac:(rewrite <- (Forall2_length _ _ _ SL2); done)) as (q3 & r3 & b3 & L3 & c3 & R3 & TL3 & t3 & -> & Q3 & Hr3 & E3 & Hl3 & C3 & Hg3). cbn [obind].
  assert ((if b3 then match r3 with Some t => Ret t | None => Abort end else Ret (nid c2)) = Ret (nid c3)) as -> by (destruct b3; [by rewrite Hr3|by rewrite Hr3]). cbn [obind]. rewrite (next_mid q3 L3 R3 c3 E3 (ch_ids _ _ _ _ (gd_chain _ _ _ _ Hg3))). cbn [obind].
  destruct (merge_next q3 c3 L3 R3 TL3 t3 TR2 Hg3 E3 Hl3) as (q4 & r4 & b4 & c4 & TR4 & t4 & L4 & R4 & -> & Q4 & Hr4 & E4 & C4 & Hg4). cbn [obind].
  assert ((if b4 then match r4 with Some t => Ret t | None => Abort end else Ret (nid c3)) = Ret (nid c4)) as -> by (destruct b4; [by rewrite Hr4|by rewrite Hr4]). cbn [obind].
  eexists q4, _, _. split; [done|]. split; [eauto 6 using same_trans|]. split; [exact Hg4|]. rewrite !concat_app in *. cbn in *. rewrite !app_nil_r in C3. rewrite C4, C2, app_assoc, C3, C1. by rewrite <- app_assoc.
Qed.

(** ** Splitting *)

Lemma good_create q act dc tss : good q act dc tss -> good (snd (quicklistCreateNode q)) act dc tss.
Proof using. intros [? ? ?]. split; [by apply chain_create|done|done]. Qed.

Lemma small_take f ts k : small f ts -> small f (take k ts).
Proof using. intros H. eapply small_sub; [exact H| |rewrite length_take; lia]. intros x Hx. rewrite <- (take_drop k ts). apply elem_of_app. by left. Qed.

Lemma small_drop f ts k : small f ts -> small f (drop k ts).
Proof using. intros H. eapply small_sub; [exact H| |rewrite length_drop; lia]. intros x Hx. rewrite <- (take_drop k ts). apply elem_of_app. by right. Qed.

(** The part of a node that stays, and the part that goes into the new node. *)
Definition kept {A} (after : bool) (j : nat) (t : list A) : list A := if after then take j t else drop j t.
Definition moved {A} (after : bool) (j : nat) (t : list A) : list A := if after then drop j t else take j t.

Lemma split_spec q act dc l1 n l2 t1 t t2 off k (after : bool) : good q act dc (t1 ++ t :: t2) -> nodes q = l1 ++ n :: l2 -> length l1 = length t1 -> is_lzf n = false -> kind n = PACKED ->
  off = Z.of_nat k \/ off = Z.of_nat k - Z.of_nat (length t) -> (k < length t)%nat -> let j := if after then S k else k in (0 < j < length t)%nat ->
  exists n1 new, _quicklistSplitNode fresh usable q (nid n) off after = Ret (set_nodes (snd (quicklistCreateNode q)) (l1 ++ n1 :: l2), new) /\
    nid n1 = nid n /\ kind n1 = PACKED /\ is_lzf n1 = false /\ loose (snd (quicklistCreateNode q)) new /\ kind new = PACKED /\
    body_ok (fill q) new (moved after j t) /\ count new = Z.of_nat (length (moved after j t)) /\
    good (set_nodes (snd (quicklistCreateNode q)) (l1 ++ n1 :: l2)) act dc (t1 ++ kept after j t :: t2).
Proof using Husable.
  intros Hg E Hl1 Hraw Hk Hoff Hkl j Hj. pose proof Hg as [Hc Hcnt Hfull]. pose proof (ch_ids _ _ _ _ Hc) as Hids. destruct (good_at q act dc l1 n l2 t1 t t2 Hg E Hl1) as (Hb & Hcn & Ht & _). destruct (get_body _ n t Hb Hk Hraw) as (lp & Hr & El & Hh & Hs & Hcopy & _).
  unfold _quicklistSplitNode. rewrite (node_mid q l1 l2 n E Hids). cbn [obind]. rewrite Hr. cbn [obind]. change (quicklistCreateNode q) with (fst (quicklistCreateNode q), snd (quicklistCreateNode q)). cbv beta iota. rewrite Hcn. set (o := if off <? 0 then _ else _). assert (o = Z.of_nat k) as -> by (unfold o; case_bool; lia).
  assert (exists lp1, lp_delete_range fresh usable lp (if after then Z.of_nat k + 1 else 0) (if after then -1 else Z.of_nat k) = Ret lp1 /\ holds lp1 (kept after j t)) as (lp1 & -> & H1).
  { destruct (range_text fresh usable Husable lp t (if after then Z.of_nat k + 1 else 0) (if after then -1 else Z.of_nat k) Hh) as (lp1 & -> & H1). exists lp1. split; [done|]. unfold kept, j in *. destruct after; cbv beta iota zeta in H1.
    - rewrite (proj2 (Z.ltb_ge (Z.of_nat k + 1) 0)), (proj2 (Z.leb_le 0 _)), (proj2 (Z.ltb_lt (Z.of_nat k + 1) _)) in H1 by lia. cbn [andb] in H1. change (-1 <? 0) with true in H1. cbv iota in H1. rewrite app_nil_r in H1. by replace (Z.to_nat (Z.of_nat k + 1)) with (S k) in H1 by lia.
    - change (0 <? 0) with false in H1. cbv iota in H1. change (0 <=? 0) with true in H1. rewrite (proj2 (Z.ltb_lt 0 _)), (proj2 (Z.ltb_ge (Z.of_nat k) 0)) in H1 by lia. cbn [andb] in H1. change (Z.to_nat 0) with 0%nat in H1. rewrite take_0, Nat2Z.id in H1. done. }
  cbn [obind]. destruct (length_text lp1 _ H1) as (lp2 & -> & H2). cbn [obind]. pose proof (chain_create q act dc _ Hc) as Hc0. assert (nodes (snd (quicklistCreateNode q)) = l1 ++ n :: l2) as E0 by done. rewrite (set_node_mid _ l1 l2 n E0 (ch_ids _ _ _ _ Hc0)). cbn [obind].
  assert (exists cp1, lp_delete_range fresh usable (take (Z.to_nat (sz n)) lp) (if after then 0 else Z.of_nat k) (if after then Z.of_nat k + 1 else -1) = Ret cp1 /\ holds cp1 (moved after j t)) as (cp1 & -> & G1).
  { destruct (range_text fresh usable Husable (take (Z.to_nat (sz n)) lp) t (if after then 0 else Z.of_nat k) (if after then Z.of_nat k + 1 else -1) Hcopy) as (cp1 & -> & G1). exists cp1. split; [done|]. unfold moved, j in *. destruct after; cbv beta iota zeta in G1.
    - change (0 <? 0) with false in G1. cbv iota in G1. change (0 <=? 0) with true in G1. rewrite (proj2 (Z.ltb_lt 0 _)), (proj2 (Z.ltb_ge (Z.of_nat k + 1) 0)) in G1 by lia. cbn [andb] in G1. change (Z.to_nat 0) with 0%nat in G1. rewrite take_0 in G1. by replace (0 + Z.to_nat (Z.of_nat k + 1))%nat with (S k) in G1 by lia.
    - rewrite (proj2 (Z.ltb_ge (Z.of_nat k) 0)), (proj2 (Z.leb_le 0 _)), (proj2 (Z.ltb_lt (Z.of_nat k) _)) in G1 by lia. cbn [andb] in G1. change (-1 <? 0) with true in G1. cbv iota in G1. rewrite app_nil_r, Nat2Z.id in G1. done. }
  cbn [obind]. destruct (length_text cp1 _ G1) as (cp2 & -> & G2). cbn [obind]. set (n1 := put_lp (set_count n _) lp2). set (new := put_lp (set_count (fst (quicklistCreateNode q)) _) cp2).
  assert (small (fill q) (kept after j t) /\ small (fill q) (moved after j t)) as [Sk Sm] by (unfold kept, moved; destruct after; split; by apply small_take || apply small_drop).
  assert (count n1 = Z.of_nat (length (kept after j t)) /\ count new = Z.of_nat (length (moved after j t))) as [Ck Cm] by (split; cbn; apply wrap16; [destruct Sk as (_ & ? & _)|destruct Sm as (_ & ? & _)]; lia).
  exists n1, new. split; [done|]. split; [done|]. split; [done|]. split; [done|]. split; [by eapply created_loose|]. split; [done|]. split; [by apply put_body|]. split; [done|]. destruct (counts_split q _ l1 n l2 t1 t t2 Hcnt E eq_refl Hl1) as (C1 & _ & C2). split.
  - eapply (chain_set _ act dc l1 n l2 t1 t t2); try done. by apply put_body.
  - cbn [nodes set_nodes]. rewrite fmap_app, fmap_cons, lens_app, C1, C2, Ck. done.
  - apply full_split in Hfull as [Hf _]. apply Forall_app in Hf as [? ?]. apply Forall_app. split; [done|]. constructor; [|done]. intros E1. apply (f_equal length) in E1. unfold kept in E1. destruct after; rewrite ?length_take, ?length_drop in E1; cbn [length] in E1; lia.
Qed.
End Edit.

End QuicklistEdit.
