(* ===== verification/QuicklistInsert.v ===== *)
(** * QuicklistInsert: inserting next to an element, and replacing one (quicklist.c) *)
From S2P Require Import Prelude NumStr Lzf LpEntry Listpack LpBulk StrObj Quicklist QuicklistSpec QuicklistElems QuicklistOps QuicklistIter QuicklistEdit.
Import NumStr LpEntry Listpack LpBulk Quicklist QuicklistSpec QuicklistElems QuicklistOps QuicklistIter QuicklistEdit.

Module QuicklistInsert.

Lemma small_swap f ts ts' : small f ts -> Forall (fun t => bytes t /\ Z.of_nat (length t) <= elem_limit f) ts' -> (length ts' <= length ts)%nat -> small f ts'.
Proof. intros (_ & H2 & H3) H Hl. pose proof (elem_limit_range f). split; [done|]. split; [lia|nia]. Qed.

Section Insert.
Context (fresh : nat -> Z) (usable : nat -> nat) (base : list Z -> Z) (htab : list Z -> Z -> Z).
Context (Husable : forall n, (n <= usable n)%nat) (Hmem : memory_ok base htab).

Abbreviation insertN := (__quicklistInsertNode fresh base htab).
Abbreviation deleteN := (__quicklistDelNode fresh base htab).
Abbreviation compressQ := (quicklistCompress fresh base htab).
Abbreviation useN := (quicklistDecompressNodeForUse fresh).
Abbreviation recompressQ := (quicklistRecompressOnly fresh base htab).

(** ** A node, changed and put back *)

Lemma recompress_chain q act dc tss p : chain q act dc tss -> p ∈ ids q ->
  exists l, recompressQ q p = Ret (set_nodes q l) /\ Forall2 sim (nodes q) l /\ forall act', spent act dc p act' -> chain (set_nodes q l) act' dc tss.
Proof using Hmem.
  intros Hc Hp. destruct (in_chain q p Hp) as (l1 & n & l2 & E & ->). pose proof (ch_ids _ _ _ _ Hc) as Hids. unfold quicklistRecompressOnly. rewrite (node_mid q l1 l2 n E Hids). cbn [obind]. destruct (recompress n) eqn:Hr.
  - destruct (compressQ_spec fresh base htab Hmem q act dc tss (nid n) Hc Hp) as (l & El & Hs & Hc'). unfold quicklistCompress in El. rewrite (node_mid q l1 l2 n E Hids) in El. cbn [obind] in El. rewrite Hr in El. eauto.
  - exists (nodes q). rewrite set_nodes_same. split; [done|]. split; [apply sims_refl|]. intros act' [->|(Ha & _ & ->)]; [done|]. eapply chain_spent; [exact Hc|exact Ha|]. intros m Hm Heq. by assert (m = n) as -> by (by eapply nid_inj).
Qed.

Lemma chain_act q act dc tss : chain q None dc tss -> chain q act dc tss.
Proof using. intros []. split; try done. by apply flags_weaken. Qed.

(** A node that was compressed may come back either way. *)
Lemma chain_inner q act dc l1 n l2 t1 t t2 n' t' : chain q act dc (t1 ++ t :: t2) -> nodes q = l1 ++ n :: l2 -> length l1 = length t1 -> is_lzf n = true ->
  nid n' = nid n -> recompress n' = false -> dont_compress n' = dont_compress n -> body_ok (fill q) n' t' -> chain (set_nodes q (l1 ++ n' :: l2)) act dc (t1 ++ t' :: t2).
Proof using.
  intros Hc E Hlen Hz H1 H2 H3 Hb. destruct (lzf_inner q act dc _ l1 n l2 Hc E Hz) as (G1 & G2 & G3 & G4). destruct Hc. rewrite E in *. apply Forall2_app_inv in ch_body0 as [B1 B2]; [|done]. inversion B2; subst. split; cbn; try done.
  - apply ids_ok_nodes; [done|]. unfold ids. rewrite E, !fmap_app, !fmap_cons. by rewrite H1.
  - apply Forall2_app; [done|]. by constructor.
  - rewrite ch_len0, !length_app. done.
  - destruct ch_tight0 as [[E1 E2] _]. split; [|right; rewrite length_app in *; done]. split; intros m Hm; [apply E1; by destruct l1|]. apply E2. destruct l2 as [|x l2 _] using rev_ind; [done|]. rewrite app_comm_cons, app_assoc, last_snoc in *. done.
  - eapply flags_set; [exact ch_flags0|done|congruence].
  - apply Forall_app in ch_donts0 as [? D]. apply Forall_cons in D as [? ?]. apply Forall_app. split; [done|]. constructor; [|done]. rewrite H3, H1. done.
Qed.

Lemma use_back q act dc l1 m l2 t1 t t2 : chain q act dc (t1 ++ t :: t2) -> nodes q = l1 ++ m :: l2 -> length l1 = length t1 -> recompress m = false -> dont_compress m = false ->
  exists m1, useN q (nid m) = Ret (set_nodes q (l1 ++ m1 :: l2)) /\ is_lzf m1 = false /\ nid m1 = nid m /\ kind m1 = kind m /\ count m1 = count m /\ dont_compress m1 = false /\ body_ok (fill q) m1 t /\ ids_ok (set_nodes q (l1 ++ m1 :: l2)) /\
    forall m2 t', nid m2 = nid m -> recompress m2 = recompress m1 -> dont_compress m2 = false -> is_lzf m2 = false -> body_ok (fill q) m2 t' ->
    exists m3, recompressQ (set_nodes q (l1 ++ m2 :: l2)) (nid m) = Ret (set_nodes q (l1 ++ m3 :: l2)) /\ sim m2 m3 /\ chain (set_nodes q (l1 ++ m3 :: l2)) act dc (t1 ++ t' :: t2).
Proof using Hmem.
  intros Hc E Hl1 Hre Hdc. pose proof (ch_ids _ _ _ _ Hc) as Hids. destruct (split_texts q act dc _ l1 m l2 Hc E) as (t1' & t0 & t2' & Et & Hl1' & Hl2 & Hb). apply app_inj_1 in Et as [<- [= <- <-]]; [|lia].
  destruct (useN_mid fresh q l1 m l2 (fill q) t E Hids Hb) as (m1 & -> & Hraw & Hi & Hcn & Hsz & Hk & Hd & Hr & Hbody). exists m1. split_and!; try done; [congruence|by apply Hbody|apply ids_ok_nodes; [done|]; unfold ids; rewrite E, !fmap_app, !fmap_cons; by rewrite Hi|].
  intros m2 t' I2 R2 D2 Z2 B2. assert (ids_ok (set_nodes q (l1 ++ m2 :: l2))) as Hids2 by (apply ids_ok_nodes; [done|]; unfold ids; rewrite E, !fmap_app, !fmap_cons; by rewrite I2). unfold quicklistRecompressOnly. rewrite <- I2, (node_mid (set_nodes q (l1 ++ m2 :: l2)) l1 l2 m2 eq_refl Hids2). cbn [obind]. rewrite R2, Hr, Hre. cbn [orb].
  destruct (is_lzf m) eqn:Hz.
  - destruct (lzf_inner q act dc _ l1 m l2 Hc E Hz) as (G1 & G2 & _). destruct (compressC_mid fresh base htab Hmem (set_nodes q (l1 ++ m2 :: l2)) l1 m2 l2 (fill q) t' eq_refl Hids2 B2 G1 G2) as (m3 & -> & Hs & Hrf). exists m3. split; [done|]. split; [done|].
    eapply (chain_inner q act dc l1 m l2 t1 t t2); try done; [by rewrite (sim_nid _ _ Hs)|by apply Hrf|by rewrite (sim_dont _ _ Hs), Hdc|by apply (sim_body _ _ Hs)].
  - exists m2. split; [done|]. split; [apply sim_refl|]. eapply (chain_set q act dc l1 m l2 t1 t t2); try done; [rewrite R2, Hr, Hre; done|congruence|congruence].
Qed.

(** ** A new node next to one *)

Lemma insert_good q act dc l1 n l2 t1 t t2 new tn (after : bool) : good q act dc (t1 ++ t :: t2) -> nodes q = l1 ++ n :: l2 -> length l1 = length t1 -> loose q new -> body_ok (fill q) new tn -> count new = Z.of_nat (length tn) -> tn <> [] ->
  exists q' m1 n' w m2, insertN q (Some (nid n)) new after = Ret q' /\ same q q' /\ next_nid q' = next_nid q /\ nodes q' = (if after then m1 ++ n' :: w :: m2 else m1 ++ w :: n' :: m2) /\ len q' = len q + 1 /\
    Forall2 sim l1 m1 /\ sim n n' /\ sim new w /\ Forall2 sim l2 m2 /\ forall act', spent act dc (nid n) act' -> good q' act' dc (if after then t1 ++ t :: tn :: t2 else t1 ++ tn :: t :: t2).
Proof using Hmem.
  intros [Hc Hcnt Hfull] E Hl1 Hlo Hb Hcn Hne. destruct (insert_mid fresh base htab Hmem q act dc l1 n l2 t1 t t2 new tn after Hc E Hl1 Hlo Hb) as (l & -> & Hs & Hc'). destruct (counts_split q _ l1 n l2 t1 t t2 Hcnt E eq_refl Hl1) as (C1 & C2 & C3).
  assert (Forall (fun ts => ts <> []) (if after then t1 ++ t :: tn :: t2 else t1 ++ tn :: t :: t2)) as Hf by (apply Forall_app in Hfull as [? Hf]; apply Forall_cons in Hf as [? ?]; destruct after; apply Forall_app; (split; [done|]); by repeat constructor).
  exists (add_len (set_nodes q l) 1). destruct after; destruct (sims_split_l _ _ _ _ Hs) as (m1 & x & mr & -> & S1 & Sx & Sr); inversion Sr as [|? y ? m2 Sy S2]; subst.
  - exists m1, x, y, m2. split_and!; try done. intros act' Hsp. split; [by apply Hc'| |done]. cbn [nodes set_nodes add_len]. rewrite fmap_app, !fmap_cons, lens_app. by rewrite (counts_sim _ _ S1), (counts_sim _ _ S2), (sim_count _ _ Sx), (sim_count _ _ Sy), Hcn, C1, C2, C3.
  - exists m1, y, x, m2. split_and!; try done. intros act' Hsp. split; [by apply Hc'| |done]. cbn [nodes set_nodes add_len]. rewrite fmap_app, !fmap_cons, lens_app. by rewrite (counts_sim _ _ S1), (counts_sim _ _ S2), (sim_count _ _ Sx), (sim_count _ _ Sy), Hcn, C1, C2, C3.
Qed.

Lemma loose_later q q' m i : loose q m -> nid m <> i -> (forall j, j ∈ ids q' -> j ∈ ids q \/ j = i) -> (next_nid q <= next_nid q')%nat -> loose q' m.
Proof using. intros [H1 H2 H3 H4 H5] Hi Hids Hn. split; try done; [|lia]. intros Hin. destruct (Hids _ Hin); done. Qed.

Lemma good_rep q tss n ts : good q None None tss -> total_count q = flat_len tss + n -> ts = concat tss -> rep (add_count q (- n)) ts.
Proof using. intros Hg Ht ->. exists tss. split; [|done]. apply good_ok; [|cbn; lia]. destruct Hg. split; [by apply chain_count|done|done]. Qed.

Section At.
Context (q : quicklist) (l1 : list quicklistNode) (n : quicklistNode) (l2 : list quicklistNode) (t1 : list (list (list Z))) (t : list (list Z)) (t2 : list (list (list Z))) (k : nat) (v : list Z) (after : bool).
Definition at_place : Prop := ok q (Some (nid n)) (t1 ++ t :: t2) /\ nodes q = l1 ++ n :: l2 /\ length l1 = length t1 /\ is_lzf n = false /\ (k < length t)%nat /\ text_ok v.
Context (Hat : at_place).

Definition gap : nat := if after then S k else k.
Definition placed : list (list Z) := concat t1 ++ (take gap t ++ v :: drop gap t) ++ concat t2.

(** At the end of the node that is next to the gap. *)
Definition gap_end : Prop := if after then S k = length t else k = 0%nat.

Lemma placed_end : gap_end -> concat (if after then t1 ++ t :: [v] :: t2 else t1 ++ [v] :: t :: t2) = placed.
Proof using.
  unfold gap_end, placed, gap. destruct after; intros Hg; rewrite concat_app; cbn [concat]; [rewrite Hg, firstn_all, drop_all|rewrite Hg, take_0, drop_0]; by rewrite <- ?app_assoc.
Qed.

Lemma placed_len : flat_len (t1 ++ t :: t2) + 1 = Z.of_nat (length placed).
Proof using. unfold placed, flat_len. rewrite concat_app. cbn [concat]. rewrite !length_app. cbn [length]. rewrite length_take, length_drop. lia. Qed.

(** The node [n] is still there, with what it held. *)
Definition follows (q' : quicklist) (tss : list (list (list Z))) : Prop :=
  exists m1 n' m2 tb, nodes q' = m1 ++ n' :: m2 /\ nid n' = nid n /\ tss = t1 ++ t :: tb /\ length m1 = length t1.

Lemma good_rep' q' tss : good q' None None tss -> total_count q' = total_count q -> concat tss = placed -> ok (add_count q' 1) None tss.
Proof using Hat.
  intros Hg Ht Hc. destruct Hat as (Hok & _). apply good_ok; [destruct Hg; split; [by apply chain_count|done|done]|]. cbn. rewrite Ht, (ok_total _ _ _ Hok). unfold flat_len. rewrite Hc, <- placed_len. unfold flat_len. lia.
Qed.

(** One element in a node of its own. *)
Lemma insert_own new : gap_end -> loose (snd (quicklistCreateNode q)) new -> body_ok (fill q) new [v] -> count new = 1 ->
  exists q' tss, insertN (snd (quicklistCreateNode q)) (Some (nid n)) new after = Ret q' /\ ok (add_count q' 1) None tss /\ concat tss = placed /\ nid n ∈ ids q' /\ (after = true -> follows q' tss).
Proof using Hat Hmem.
  intros Hg Hlo Hb Hcn. pose proof Hat as (Hok & E & Hl1 & _). pose proof (good_create _ _ _ _ (ok_good _ _ _ Hok)) as Hg1. destruct (insert_good _ _ None l1 n l2 t1 t t2 new [v] after Hg1 E Hl1 Hlo Hb Hcn ltac:(done)) as (q' & m1 & n' & w & m2 & -> & Hs & _ & En & _ & S1 & Sn & _ & _ & Hgd).
  eexists q', _. split; [done|]. split; [apply good_rep'; [apply Hgd; by right|by rewrite (same_total _ _ Hs)|by apply placed_end]|]. split; [by apply placed_end|].
  split; [unfold ids; rewrite En; destruct after; rewrite fmap_app, !fmap_cons, (sim_nid _ _ Sn); apply elem_of_app; right; [left|right; left]|].
  intros ->. exists m1, n', (w :: m2), ([v] :: t2). split; [done|]. split; [by rewrite (sim_nid _ _ Sn)|]. split; [done|]. by rewrite <- (Forall2_length _ _ _ S1).
Qed.

Lemma insert_plain_next : gap_end -> exists q', __quicklistInsertPlainNode fresh usable base htab q (Some (nid n)) v after = Ret q' /\ rep q' placed /\ nid n ∈ ids q'.
Proof using Hat Hmem.
  intros Hg. pose proof Hat as (Hok & E & Hl1 & _ & _ & Hv). unfold __quicklistInsertPlainNode. destruct (plain_node fresh usable q _ None _ v (ok_chain _ _ _ Hok) Hv) as (new & -> & Hlo & Hb & Hcn & _). cbn [obind].
  destruct (insert_own new Hg Hlo Hb Hcn) as (q' & tss & -> & Hr & Hc & Hin & _). cbn [obind]. eexists. split; [done|]. split; [|done]. by exists tss.
Qed.

Lemma insert_new_next : gap_end -> Z.of_nat (length v) <= elem_limit (fill q) ->
  exists q' tss, insert_new_node fresh usable base htab q (nid n) v after = Ret q' /\ ok (add_count q' 1) None tss /\ concat tss = placed /\ (after = true -> follows q' tss).
Proof using Hat Husable Hmem.
  intros Hg Hsm. pose proof Hat as (Hok & E & Hl1 & _ & _ & Hv). unfold insert_new_node. destruct (packed_node fresh usable Husable q _ None _ true v (ok_chain _ _ _ Hok) (small_one _ v (proj1 Hv) Hsm)) as (new & -> & [L1 L2 L3 L4 L5] & Hb & Hcn). cbn [obind].
  destruct (insert_own (set_count new (count new + 1)) Hg) as (q' & tss & E' & Hr & Hc & _ & Hf); [by split|exact Hb|cbn; rewrite Hcn; apply wrap16; lia|]. cbn [nid set_count] in E'. rewrite E'. eauto 8.
Qed.

(** Into the node itself. *)
Lemma insert_here_spec e zi : points n t k zi -> e_zi e = Some zi -> _quicklistNodeAllowInsert 0 (Some n) (fill q) (Z.of_nat (length v)) = true ->
  exists q', insert_here fresh usable base htab q (nid n) e v after = Ret q' /\ rep (add_count q' 1) placed.
Proof using Hat Husable Hmem.
  intros Hpt Hzi Ha. pose proof Hat as (Hok & E & Hl1 & Hraw & Hk & Hv). destruct (ok_at q _ l1 n l2 t1 t t2 Hok E Hl1) as (Hb & Hcn & Ht & _). destruct (allow_insert (fill q) n t v Ha Hb Hcn (proj1 Hv)) as [Hkind Hs]. unfold insert_here.
  destruct (use_spec fresh q _ l1 n l2 t1 t t2 Hok E Hl1 (or_intror eq_refl)) as (n' & -> & _ & _ & _ & _ & _ & _ & Hn'). rewrite (Hn' Hraw), <- E, set_nodes_same. cbn [obind]. pose proof (ch_ids _ _ _ _ (ok_chain _ _ _ Hok)) as Hids. rewrite (node_mid q l1 l2 n E Hids). cbn [obind].
  destruct Hpt as [_ Hp]. rewrite Hkind in Hp. destruct Hp as (lp & El & Hpl). unfold raw. rewrite El. cbn [obind]. rewrite Hzi. cbn [obind]. destruct (insert_at_text fresh usable Husable (fill q) lp t k zi v after Hpl Hs) as (lp' & r & Ei & Hh). unfold not_null. rewrite Ei. cbn [obind].
  rewrite (set_node_mid q l1 l2 n E Hids). cbn [obind]. cbv zeta in Hh. fold gap in Hh. set (t' := take gap t ++ v :: drop gap t) in *. assert (length t' = S (length t)) as Hlt by (unfold t'; rewrite length_app; cbn [length]; rewrite length_take, length_drop; lia).
  assert (small (fill q) t') as Hs'. { eapply small_swap; [exact Hs| |cbn; lia]. destruct Hs as (Hs & _). apply Forall_cons in Hs as [? Hs]. rewrite <- (take_drop gap t) in Hs. apply Forall_app in Hs as [? ?]. apply Forall_app. split; [done|]. by constructor. }
  set (n1 := put_more n lp'). assert (body_ok (fill q) n1 t') as Hb1 by (by apply put_body). assert (count n1 = Z.of_nat (length t')) as Hc1 by (cbn; rewrite Hcn, Hlt; destruct Hs' as (_ & ? & _); rewrite Hlt in *; rewrite wrap16; lia).
  pose proof (chain_set q (Some (nid n)) None l1 n l2 t1 t t2 n1 t' (ok_chain _ _ _ Hok) E Hl1 eq_refl ltac:(done) eq_refl ltac:(symmetry; exact Hraw) Hb1) as Hch.
  destruct (recompress_chain _ _ _ _ (nid n) Hch) as (l & -> & Hsl & Hc'); [unfold ids; cbn; rewrite fmap_app; apply elem_of_app; right; left|]. rewrite set_nodes_twice. eexists. split; [done|].
  destruct (counts_split q _ l1 n l2 t1 t t2 (ok_counts _ _ _ Hok) E eq_refl Hl1) as (C1 & _ & C3). eapply (good_rep _ (t1 ++ t' :: t2) (-1)).
  - split; [apply Hc'; by right| |].
    + cbn [nodes set_nodes]. rewrite (counts_sim _ _ Hsl). cbn [nodes set_nodes]. rewrite fmap_app, fmap_cons, lens_app, C1, C3, Hc1. done.
    + pose proof (full_split _ _ _ (ok_full _ _ _ Hok)) as [Hf _]. apply Forall_app in Hf as [? ?]. apply Forall_app. split; [done|]. constructor; [|done]. intros E0. rewrite E0 in Hlt. done.
  - cbn. rewrite (ok_total _ _ _ Hok). change (Z.of_nat (length (concat (t1 ++ t :: t2)))) with (flat_len (t1 ++ t :: t2)). rewrite !flat_split, Hlt. lia.
  - unfold placed. rewrite concat_app. done.
Qed.

(** Into the neighbour. *)
Lemma neighbour_chain near la lb ta tn tb : nodes q = la ++ near :: lb -> t1 ++ t :: t2 = ta ++ tn :: tb -> length la = length ta -> nid near <> nid n ->
  _quicklistNodeAllowInsert 0 (Some near) (fill q) (Z.of_nat (length v)) = true ->
  exists q', insert_neighbour fresh usable base htab q (nid n) (nid near) v after = Ret q' /\ good q' None None (ta ++ (if after then v :: tn else tn ++ [v]) :: tb) /\ total_count q' = total_count q /\
    exists m3 l, Forall2 sim (la ++ m3 :: lb) l /\ nodes q' = l.
Proof using Hat Husable Hmem.
  intros En Et Hla Hne Ha. pose proof Hat as (Hok & E & Hl1 & Hraw & Hk & Hv). rewrite Et in Hok. destruct (ok_at q _ la near lb ta tn tb Hok En Hla) as (Hb & Hcn & Htn & _). destruct (allow_insert (fill q) near tn v Ha Hb Hcn (proj1 Hv)) as [Hkind Hs]. unfold insert_neighbour. pose proof (ok_chain _ _ _ Hok) as Hc.
  assert (recompress near = false) as Hre by (apply not_true_iff_false; intros Hr; destruct (ch_flags _ _ _ _ Hc la near lb En Hr) as ([= Hr'] & _); congruence).
  assert (dont_compress near = false) as Hdc by (apply not_true_iff_false; intros Hr; pose proof (ch_donts _ _ _ _ Hc) as D; rewrite En in D; apply Forall_app in D as [_ D]; apply Forall_cons in D as [D _]; by specialize (D Hr)).
  destruct (use_back q _ None la near lb ta tn tb Hc En Hla Hre Hdc) as (m1 & -> & Hr1 & Hi1 & Hk1 & Hc1 & Hd1 & Hb1 & Hids1 & Hback). cbn [obind]. pose proof (node_mid (set_nodes q (la ++ m1 :: lb)) la lb m1 eq_refl Hids1) as Hnode. rewrite Hi1 in Hnode. rewrite Hnode. cbn [obind].
  destruct (get_body _ m1 tn Hb1 ltac:(congruence) Hr1) as (lp & -> & _ & Hh & _). cbn [obind]. destruct (push_text fresh usable Husable (fill q) after lp tn v Hh Hs) as (lp' & -> & Hh'). cbn [obind]. set (tn' := if after then v :: tn else tn ++ [v]) in *.
  assert (length tn' = S (length tn)) as Hlt by (unfold tn'; destruct after; [done|rewrite length_app; cbn; lia]).
  assert (small (fill q) tn') as Hs' by (eapply small_swap; [exact Hs| |cbn; lia]; destruct Hs as (Hs & _); apply Forall_cons in Hs as [? ?]; unfold tn'; destruct after; [by constructor|apply Forall_app; split; [done|by apply Forall_singleton]]).
  pose proof (set_node_mid (set_nodes q (la ++ m1 :: lb)) la lb m1 eq_refl Hids1 (put_more m1 lp')) as Hset. rewrite Hi1 in Hset. rewrite Hset. cbn [obind]. rewrite set_nodes_twice.
  destruct (Hback (put_more m1 lp') tn') as (m3 & -> & S3 & Hc3); [done|done|done|done|by apply put_body; [cbn; congruence|..]|]. cbn [obind].
  assert (nid n ∈ ids (set_nodes q (la ++ m3 :: lb))) as Hin. { assert (ids (set_nodes q (la ++ m3 :: lb)) = ids q) as -> by (unfold ids; cbn; rewrite En, !fmap_app, !fmap_cons, (sim_nid _ _ S3); by cbn; rewrite Hi1). unfold ids. rewrite E, fmap_app. apply elem_of_app. right. left. }
  destruct (recompress_chain _ _ _ _ (nid n) Hc3 Hin) as (l & -> & Hsl & Hc'). rewrite set_nodes_twice. eexists. split; [done|]. destruct (counts_split q _ la near lb ta tn tb (ok_counts _ _ _ Hok) En eq_refl Hla) as (C1 & _ & C3). split; [|split; [done|]; by exists m3, l]. split; [apply Hc'; by right| |].
  - cbn [nodes set_nodes]. rewrite (counts_sim _ _ Hsl). cbn [nodes set_nodes]. rewrite fmap_app, fmap_cons, lens_app, C1, C3, (sim_count _ _ S3). cbn [count put_more put_lp set_sz set_entry set_count]. rewrite Hc1, Hcn. destruct Hs' as (_ & ? & _). rewrite wrap16 by lia. change (lens (tn' :: tb)) with (Z.of_nat (length tn') :: lens tb). do 2 f_equal. lia.
  - pose proof (full_split _ _ _ (ok_full _ _ _ Hok)) as [Hf _]. apply Forall_app in Hf as [? ?]. apply Forall_app. split; [done|]. constructor; [|done]. intros E0. rewrite E0 in Hlt. done.
Qed.

Lemma insert_neighbour_spec near : gap_end -> (if after then exists l, l2 = near :: l else exists l, l1 = l ++ [near]) -> _quicklistNodeAllowInsert 0 (Some near) (fill q) (Z.of_nat (length v)) = true ->
  exists q' tss, insert_neighbour fresh usable base htab q (nid n) (nid near) v after = Ret q' /\ ok (add_count q' 1) None tss /\ concat tss = placed /\ (after = true -> follows q' tss).
Proof using Hat Husable Hmem.
  intros Hg Hnear Ha. pose proof Hat as (Hok & E & Hl1 & _). destruct (ok_at q _ l1 n l2 t1 t t2 Hok E Hl1) as (_ & _ & _ & Hl2). pose proof (ch_ids _ _ _ _ (ok_chain _ _ _ Hok)) as Hids. pose proof good_rep' as Hfin. unfold placed, gap, gap_end, follows in *.
  assert (forall x, x ∈ l1 ++ l2 -> nid x <> nid n) as Hoth by (by apply (ids_others q l1 n l2)). pose proof (neighbour_chain near) as Hn. destruct after.
  - destruct Hnear as [l ->]. destruct t2 as [|u t2']; [done|]. destruct (Hn (l1 ++ [n]) l (t1 ++ [t]) u t2') as (q' & -> & Hr & Ht & m3 & l' & Hs & El); try done; [by rewrite E, <- app_assoc|by rewrite <- app_assoc|rewrite !length_app; cbn; lia|apply Hoth; rewrite elem_of_app; right; left|].
    assert (concat ((t1 ++ [t]) ++ (v :: u) :: t2') = concat t1 ++ (take (S k) t ++ v :: drop (S k) t) ++ concat (u :: t2')) as Ec by (rewrite Hg, firstn_all, drop_all, !concat_app; cbn; by rewrite app_nil_r, <- !app_assoc).
    eexists q', _. split; [done|]. split; [by apply Hfin|]. split; [done|]. intros _. rewrite <- app_assoc in Hs. destruct (sims_split_l _ _ _ _ Hs) as (m1 & n' & m2 & -> & S1 & Sn & _). exists m1, n', m2, ((v :: u) :: t2'). split; [done|]. split; [by rewrite (sim_nid _ _ Sn)|]. split; [by rewrite <- app_assoc|]. by rewrite <- (Forall2_length _ _ _ S1).
  - destruct Hnear as [l ->]. destruct t1 as [|u t1' _] using rev_ind; [rewrite length_app in Hl1; cbn in Hl1; lia|]. rewrite !length_app in Hl1. cbn in Hl1. destruct (Hn l (n :: l2) t1' u (t :: t2)) as (q' & -> & Hr & Ht & _); try done; [by rewrite E, <- app_assoc|by rewrite <- app_assoc|lia|apply Hoth; rewrite !elem_of_app; left; right; left|].
    eexists q', _. split; [done|]. assert (concat (t1' ++ (u ++ [v]) :: t :: t2) = concat (t1' ++ [u]) ++ (take k t ++ v :: drop k t) ++ concat t2) as Ec by (rewrite Hg, take_0, drop_0, !concat_app; cbn; rewrite app_nil_r; by rewrite <- !app_assoc). split; [by apply Hfin|]. done.
Qed.

Lemma insert_next_to near : gap_end -> Z.of_nat (length v) <= elem_limit (fill q) -> match near with None => True | Some m => if after then exists l, l2 = m :: l else exists l, l1 = l ++ [m] end ->
  exists q' tss, match nid <$> near with Some m => if true && _quicklistNodeAllowInsert 0 near (fill q) (Z.of_nat (length v)) then insert_neighbour fresh usable base htab q (nid n) m v after else insert_new_node fresh usable base htab q (nid n) v after | None => insert_new_node fresh usable base htab q (nid n) v after end = Ret q' /\
    ok (add_count q' 1) None tss /\ concat tss = placed /\ (after = true -> follows q' tss).
Proof using Hat Husable Hmem.
  intros Hg Hsm Hnear. destruct near as [m|]; cbn [fmap option_fmap option_map andb]; [|by apply insert_new_next]. destruct (_quicklistNodeAllowInsert 0 (Some m) (fill q) (Z.of_nat (length v))) eqn:Hav; [by apply insert_neighbour_spec|by apply insert_new_next].
Qed.

(** Between two elements of the node: it is split. *)
Lemma gap_inside : ~ gap_end -> (0 < gap < length t)%nat.
Proof using Hat. destruct Hat as (_ & _ & _ & _ & Hk & _). unfold gap_end, gap. destruct after; lia. Qed.

Definition offset_ok (off : Z) : Prop := off = Z.of_nat k \/ off = Z.of_nat k - Z.of_nat (length t).

(** The node in hand, split around the gap. *)
Lemma split_here e : ~ gap_end -> kind n = PACKED -> offset_ok (e_offset e) -> exists n1 new, let q1 := set_nodes (snd (quicklistCreateNode q)) (l1 ++ n1 :: l2) in
  (let* q := useN q (nid n) in _quicklistSplitNode fresh usable q (nid n) (e_offset e) after) = Ret (q1, new) /\ nid n1 = nid n /\ loose q1 new /\ kind new = PACKED /\ is_lzf new = false /\
  body_ok (fill q) new (moved after gap t) /\ count new = Z.of_nat (length (moved after gap t)) /\ good q1 (Some (nid n)) None (t1 ++ kept after gap t :: t2).
Proof using Hat Husable.
  intros Hg Hkind Hoff. pose proof Hat as (Hok & E & Hl1 & Hraw & Hk & Hv). destruct (use_spec fresh q _ l1 n l2 t1 t t2 Hok E Hl1 (or_intror eq_refl)) as (n' & -> & _ & _ & _ & _ & _ & _ & Hn'). rewrite (Hn' Hraw), <- E, set_nodes_same. cbn [obind].
  destruct (split_spec fresh usable Husable q _ None l1 n l2 t1 t t2 (e_offset e) k after (ok_good _ _ _ Hok) E Hl1 Hraw Hkind Hoff Hk (gap_inside Hg)) as (n1 & new & Es & Hi & _ & _ & Hlo & Hkn & Hb & Hcn & Hgd). exists n1, new. cbv zeta. split; [exact Es|]. split; [done|].
  split; [|split; [done|]; split; [by apply Hlo|]; done]. apply (loose_later (snd (quicklistCreateNode q)) _ new (S (nid new)) Hlo); [lia| |done]. intros j Hj. left. unfold ids in *. cbn in *. rewrite E. rewrite fmap_app, fmap_cons in *. by rewrite Hi in Hj.
Qed.

Lemma moved_ne : ~ gap_end -> moved after gap t <> [].
Proof using Hat. intros Hg E0. pose proof (gap_inside Hg). apply (f_equal length) in E0. unfold moved in E0. destruct after; rewrite ?length_take, ?length_drop in E0; cbn [length] in E0; lia. Qed.

Lemma placed_parts : placed = concat (if after then t1 ++ kept after gap t :: (v :: moved after gap t) :: t2 else t1 ++ (moved after gap t ++ [v]) :: kept after gap t :: t2).
Proof using. unfold placed, kept, moved. destruct after; rewrite concat_app; cbn; by rewrite <- ?app_assoc. Qed.

Lemma insert_split_spec e : ~ gap_end -> kind n = PACKED -> offset_ok (e_offset e) -> Z.of_nat (length v) <= elem_limit (fill q) ->
  exists q', insert_split fresh usable base htab q (nid n) e v after = Ret q' /\ rep (add_count q' 1) placed.
Proof using Hat Husable Hmem.
  intros Hg Hkind Hoff Hsm. pose proof Hat as (Hok & E & Hl1 & Hraw & Hk & Hv). destruct (ok_at q _ l1 n l2 t1 t t2 Hok E Hl1) as (Hb & Hcn & _). destruct (body_size (fill q) n t Hb Hkind) as [_ Hst].
  destruct (split_here e Hg Hkind Hoff) as (n1 & new & Es & Hi & Hlo & Hkn & Hrn & Hbn & Hcnew & Hgd). unfold insert_split.
  destruct (useN q (nid n)) as [|q0]; [done|]. cbn [obind] in Es |- *. rewrite Es. cbn [obind]. destruct (get_body _ new _ Hbn Hkn Hrn) as (lp & -> & _ & Hh & Hsm1 & _). cbn [obind].
  set (tv := if after then v :: moved after gap t else moved after gap t ++ [v]). assert (length tv = S (length (moved after gap t))) as Hlv by (unfold tv; destruct after; [done|rewrite length_app; cbn; lia]).
  assert (length (moved after gap t) < length t)%nat as Hml by (pose proof (gap_inside Hg); unfold moved; destruct after; rewrite ?length_take, ?length_drop; lia).
  assert (forall ts, ts ≡ₚ v :: moved after gap t -> small (fill q) ts) as Hsmall. { intros ts Hp. eapply small_swap; [exact Hst| |rewrite Hp; cbn; lia]. rewrite Hp. constructor; [split; [apply Hv|done]|]. apply Hsm1. }
  assert (small (fill q) tv) as Hsv by (apply Hsmall; unfold tv; destruct after; [done|]; by rewrite Permutation_app_comm).
  destruct (push_text fresh usable Husable (fill q) after lp _ v Hh (Hsmall _ (reflexivity _))) as (lp' & -> & Hh'). cbn [obind]. fold tv in Hh'. set (new' := put_more new lp'). set (q1 := set_nodes _ _) in *.
  assert (loose q1 new') as Hlo' by (destruct Hlo; by split). assert (count new' = Z.of_nat (length tv)) as Hcv by (cbn; rewrite Hcnew, Hlv; destruct Hsv as (_ & ? & _); rewrite wrap16; lia).
  destruct (insert_good q1 (Some (nid n)) None l1 n1 l2 t1 _ t2 new' tv after Hgd eq_refl Hl1 Hlo' ltac:(by apply put_body) Hcv ltac:(intros E0; rewrite E0 in Hlv; done)) as (q2 & m1 & n' & w & m2 & Ei & Hs2 & _ & En2 & _ & S1 & Sn & Sw & S2 & Hg2). rewrite Hi in Ei. rewrite Ei. cbn [obind].
  specialize (Hg2 None ltac:(right; by rewrite Hi)).
  assert (exists q3 x tss', _quicklistMergeNodes fresh usable base htab q2 (nid n) = Ret (q3, x) /\ same q2 q3 /\ good q3 None None tss' /\ concat tss' = placed) as (q3 & x & tss' & -> & Hs3 & Hg3 & Hc3).
  { rewrite placed_parts. rewrite <- Hi, <- (sim_nid _ _ Sn). unfold tv in Hg2. destruct after.
    - destruct (merge_nodes fresh usable base htab Husable Hmem q2 n' m1 (w :: m2) t1 _ _ Hg2 En2 ltac:(rewrite <- (Forall2_length _ _ _ S1); done)) as (q3 & x & tss' & ? & ? & ? & ?). eauto 10.
    - destruct (merge_nodes fresh usable base htab Husable Hmem q2 n' (m1 ++ [w]) m2 (t1 ++ [moved false gap t ++ [v]]) (kept false gap t) t2) as (q3 & x & tss' & ? & ? & ? & E3); [by rewrite <- app_assoc|by rewrite En2, <- app_assoc|rewrite !length_app, <- (Forall2_length _ _ _ S1), Hl1; done|]. rewrite <- app_assoc in E3. eauto 10. }
  cbn [obind]. exists q3. split; [done|]. eapply (good_rep _ tss' (-1)); [done| |done]. rewrite (same_total _ _ Hs3), (same_total _ _ Hs2). cbn. rewrite (ok_total _ _ _ Hok). unfold flat_len. rewrite Hc3, <- placed_len. unfold flat_len. lia.
Qed.

Lemma plain_nid q0 v0 m q1 : __quicklistCreateNode fresh usable q0 PLAIN v0 = Ret (m, q1) -> nid m = next_nid q0.
Proof using. cbn. intros [= <- _]. done. Qed.

Lemma insert_large_spec e at_end : (at_end = true <-> gap_end) -> offset_ok (e_offset e) ->
  exists q', insert_large fresh usable base htab q (nid n) n e v after at_end = Ret q' /\ rep q' placed /\ nid n ∈ ids q'.
Proof using Hat Husable Hmem.
  intros Hend Hoff. pose proof Hat as (Hok & E & Hl1 & Hraw & Hk & Hv). destruct (ok_at q _ l1 n l2 t1 t t2 Hok E Hl1) as (Hb & _). unfold insert_large. destruct (is_plain n || at_end) eqn:Hcase.
  { apply insert_plain_next. apply orb_true_iff in Hcase as [Hp|Ha]; [|by apply Hend]. pose proof (plain_texts _ _ _ Hb Hp). unfold gap_end. destruct after; lia. }
  apply orb_false_iff in Hcase as [Hp Ha]. apply not_plain in Hp. assert (~ gap_end) as Hg by (intros Hg; apply Hend in Hg; congruence). destruct (split_here e Hg Hp Hoff) as (n1 & new & Es & Hi & Hlo & Hkn & Hrn & Hbn & Hcnew & Hgd).
  destruct (useN q (nid n)) as [|q0]; [done|]. cbn [obind] in Es |- *. rewrite Es. cbn [obind]. set (q1 := set_nodes _ _) in *. destruct (plain_node fresh usable q1 _ None _ v (gd_chain _ _ _ _ Hgd) Hv) as (m & Em & Hlm & Hbm & Hcm & _). pose proof (plain_nid _ _ _ _ Em) as Hnm. rewrite Em. cbn [obind].
  destruct (insert_good _ _ None l1 n1 l2 t1 _ t2 m [v] after (good_create _ _ _ _ Hgd) eq_refl Hl1 Hlm Hbm Hcm ltac:(done)) as (q2 & m1 & n' & w & m2 & Ei & Hs2 & Hnx & En2 & _ & S1 & Sn & Sw & S2 & Hg2). rewrite Hi in Ei. rewrite Ei. cbn [obind]. specialize (Hg2 None ltac:(right; by rewrite Hi)).
  assert (loose q2 new) as Hlo2.
  { apply (loose_later q1 q2 new (nid m) Hlo); [pose proof (lo_lt _ _ Hlo); lia| |rewrite Hnx; cbn; lia]. intros j Hj. unfold ids in Hj. rewrite En2 in Hj. unfold ids, q1. cbn [nodes set_nodes]. destruct after; rewrite !fmap_app, !fmap_cons in *; rewrite (ids_sim _ _ S1), (ids_sim _ _ S2), (sim_nid _ _ Sn), (sim_nid _ _ Sw) in Hj; rewrite !elem_of_app, !elem_of_cons in *; tauto. }
  assert (fill q2 = fill q) as Hf2 by (rewrite (same_fill _ _ Hs2); done).
  assert (exists q3, insertN q2 (Some (nid m)) new after = Ret q3 /\ same q2 q3 /\ nid n ∈ ids q3 /\ good q3 None None (if after then t1 ++ kept after gap t :: [v] :: moved after gap t :: t2 else t1 ++ moved after gap t :: [v] :: kept after gap t :: t2)) as (q3 & -> & Hs3 & Hin3 & Hg3).
  { rewrite <- (sim_nid _ _ Sw). assert (nid n = nid n') as Hnn by (by rewrite (sim_nid _ _ Sn)). rewrite <- Hf2 in Hbn. pose proof moved_ne Hg as Hmne. destruct after.
    - destruct (insert_good q2 None None (m1 ++ [n']) w m2 (t1 ++ [kept true gap t]) [v] t2 new (moved true gap t) true) as (q3 & a1 & a & b & a2 & -> & Hs3 & _ & En3 & _ & A1 & _ & _ & _ & Hg3); try done; [by rewrite <- app_assoc|by rewrite En2, <- app_assoc|rewrite !length_app, <- (Forall2_length _ _ _ S1), Hl1; done|].
      exists q3. split; [done|]. split; [done|]. split; [|rewrite <- app_assoc in Hg3; apply Hg3; by left]. unfold ids. rewrite En3, fmap_app, (ids_sim _ _ A1), fmap_app, Hnn, !elem_of_app. left. right. left.
    - destruct (insert_good q2 None None m1 w (n' :: m2) t1 [v] (kept false gap t :: t2) new (moved false gap t) false) as (q3 & a1 & a & b & a2 & -> & Hs3 & _ & En3 & _ & _ & _ & _ & A2 & Hg3); try done; [rewrite <- (Forall2_length _ _ _ S1); done|].
      exists q3. split; [done|]. split; [done|]. split; [|apply Hg3; by left]. unfold ids. rewrite En3, fmap_app, !fmap_cons, (ids_sim _ _ A2), fmap_cons, Hnn, !elem_of_app. right. right. right. left. }
  cbn [obind]. eexists. split; [done|]. split; [|done].
  assert (concat (if after then t1 ++ kept after gap t :: [v] :: moved after gap t :: t2 else t1 ++ moved after gap t :: [v] :: kept after gap t :: t2) = placed) as Ec by (rewrite placed_parts; destruct after; rewrite !concat_app; cbn; by rewrite <- ?app_assoc).
  eapply (good_rep _ _ (-1)); [exact Hg3| |by rewrite Ec]. rewrite (same_total _ _ Hs3), (same_total _ _ Hs2). cbn. rewrite (ok_total _ _ _ Hok). unfold flat_len. rewrite Ec, <- placed_len. unfold flat_len. lia.
Qed.
End At.

(** ** [quicklistInsertBefore] and [quicklistInsertAfter] *)

(** An iterator that may still be released. *)
Definition idle (q : quicklist) (it : quicklistIter) : Prop := forall p, current it = Some p -> p ∈ ids q.

Lemma release_idle q it ts : rep q ts -> idle q it -> exists q', quicklistReleaseIterator fresh base htab q it = Ret q' /\ rep q' ts.
Proof using Hmem.
  intros (tss & Hok & ->) Hi. unfold quicklistReleaseIterator. destruct (current it) as [p|] eqn:Ep; [|eexists; split; [done|]; by exists tss]. destruct (in_chain q p (Hi p Ep)) as (l1 & n & l2 & E & ->).
  destruct (ok_body q None tss l1 n l2 Hok E) as (t1 & t & t2 & -> & Hl1 & _). destruct (compress_ok fresh base htab Hmem q None l1 n l2 t1 t t2 Hok E Hl1 (or_introl eq_refl)) as (l & -> & _ & Hok'). eexists. split; [done|]. by exists (t1 ++ t :: t2).
Qed.

Lemma end_test (after : bool) off k (t : list (list Z)) : off = Z.of_nat k \/ off = Z.of_nat k - Z.of_nat (length t) -> (k < length t)%nat ->
  (if after then (off =? Z.of_nat (length t) - 1) || (off =? -1) else (off =? 0) || (off =? - Z.of_nat (length t))) = true <-> gap_end t k after.
Proof using. intros Ho Hk. unfold gap_end. destruct after; rewrite orb_true_iff, !Z.eqb_eq; lia. Qed.

Lemma insert_rep q it e al pre post v (after : bool) : cursor q it e al pre post -> text_ok v ->
  exists q' it', _quicklistInsert fresh usable base htab 0 q it e v after = Ret (q', it') /\ idle q' it' /\
    rep q' (pre ++ (if after then [value_text (e_value e); v] else [v; value_text (e_value e)]) ++ post).
Proof using Husable Hmem.
  intros (t1 & t & t2 & k & (l1 & n & l2 & zi & (Hok & E & Hl1 & Hcur) & Hraw & Hpt & Hzi & Hoff & He1 & He2 & He3 & Hx & _) & _ & -> & ->) Hv. destruct (lookup_cut _ _ _ Hx) as [D1 D2]. pose proof Hpt as [Hk _].
  assert (at_place q l1 n l2 t1 t t2 k v) as Hat by done. pose proof (ch_ids _ _ _ _ (ok_chain _ _ _ Hok)) as Hids. destruct (ok_at q _ l1 n l2 t1 t t2 Hok E Hl1) as (Hb & Hcn & _ & Hl2).
  assert ((concat t1 ++ take k t) ++ (if after then [value_text (e_value e); v] else [v; value_text (e_value e)]) ++ drop (S k) t ++ concat t2 = placed t1 t t2 k v after) as ->.
  { unfold placed, gap. destruct after; cbn [app]; rewrite <- !app_assoc; [rewrite D2, <- app_assoc; done|]. cbn [app]. by rewrite D1. }
  unfold _quicklistInsert. rewrite He1, Hcur, He3. rewrite (node_mid q l1 l2 n E Hids). cbn [obind]. rewrite Hcn.
  set (at_end := if after then _ || _ else _ || _). assert (at_end = true <-> gap_end t k after) as Hend by (by apply end_test).
  assert (exists near, (if after then next q (nid n) else prev q (nid n)) = Ret (nid <$> near) /\ node_of q (nid <$> near) = Ret near /\ match near with None => True | Some m => if after then exists l, l2 = m :: l else exists l, l1 = l ++ [m] end) as (near & -> & Hnd & Hnear).
  { destruct after; [exists (List.head l2)|exists (last l1)]; rewrite ?(next_mid q l1 l2 n E Hids), ?(prev_mid q l1 l2 n E Hids); (split; [done|]).
    - destruct l2 as [|m l]; [done|]. cbn. rewrite (node_mid q (l1 ++ [n]) l m ltac:(by rewrite E, <- app_assoc) Hids). cbn. eauto.
    - destruct l1 as [|m l _] using rev_ind; [done|]. rewrite last_snoc. cbn. rewrite (node_mid q l (n :: l2) m ltac:(by rewrite E, <- app_assoc) Hids). cbn. eauto. }
  cbn [obind]. rewrite Hnd. cbn [obind]. rewrite isLarge_spec. destruct (Z.ltb_spec (elem_limit (fill q)) (Z.of_nat (length v))) as [_|Hsm].
  { destruct (insert_large_spec q l1 n l2 t1 t t2 k v after Hat e at_end Hend) as (q' & -> & Hr & Hin); [unfold offset_ok; by rewrite He3|]. cbn [obind]. eexists q', it. split; [done|]. split; [|done]. intros p Hp. rewrite Hcur in Hp. by injection Hp as <-. }
  assert (exists q', (if negb (negb (_quicklistNodeAllowInsert 0 (Some n) (fill q) (Z.of_nat (length v)))) then insert_here fresh usable base htab q (nid n) e v after
    else if at_end then match nid <$> near with Some m => if at_end && _quicklistNodeAllowInsert 0 near (fill q) (Z.of_nat (length v)) then insert_neighbour fresh usable base htab q (nid n) m v after else insert_new_node fresh usable base htab q (nid n) v after | None => insert_new_node fresh usable base htab q (nid n) v after end
    else insert_split fresh usable base htab q (nid n) e v after) = Ret q' /\ rep (add_count q' 1) (placed t1 t t2 k v after)) as (q' & -> & Hr).
  { rewrite negb_involutive. destruct (_quicklistNodeAllowInsert 0 (Some n) (fill q) (Z.of_nat (length v))) eqn:Ha; [apply (insert_here_spec q l1 n l2 t1 t t2 k v after Hat e zi Hpt); [congruence|done]|]. destruct at_end eqn:Ea.
    - assert (gap_end t k after) as Hg by (by apply Hend). destruct (insert_next_to q l1 n l2 t1 t t2 k v after Hat near Hg Hsm Hnear) as (q' & tss & El & Hr & Hc & _). exists q'. split; [exact El|]. by exists tss.
    - assert (~ gap_end t k after) as Hg by (intros Hg; apply Hend in Hg; done). apply (insert_split_spec q l1 n l2 t1 t t2 k v after Hat e Hg); [|unfold offset_ok; by rewrite He3|done].
      destruct (kind n) eqn:Ek; [|done]. exfalso. apply Hg. pose proof (plain_texts _ _ _ Hb ltac:(unfold is_plain; by rewrite Ek)). unfold gap_end. destruct after; lia. }
  cbn [obind]. eexists _, _. split; [done|]. split; [|done]. intros p Hp. done.
Qed.
End Insert.

End QuicklistInsert.
