(* ===== verification/QuicklistReplace.v ===== *)
(** * QuicklistReplace: replacing an element (quicklist.c)

    In place if the element is in a listpack and the new one goes into it; else through a
    node of its own. *)
From S2P Require Import Prelude NumStr Lzf LpEntry Listpack LpBulk StrObj Quicklist QuicklistSpec QuicklistElems QuicklistOps QuicklistIter QuicklistEdit QuicklistInsert.
Import NumStr LpEntry Listpack LpBulk Quicklist QuicklistSpec QuicklistElems QuicklistOps QuicklistIter QuicklistEdit QuicklistInsert.

Module QuicklistReplace.

Section Replace.
Context (fresh : nat -> Z) (usable : nat -> nat) (base : list Z -> Z) (htab : list Z -> Z -> Z).
Context (Husable : forall n, (n <= usable n)%nat) (Hmem : memory_ok base htab).

Abbreviation insertN := (__quicklistInsertNode fresh base htab).
Abbreviation deleteN := (__quicklistDelNode fresh base htab).
Abbreviation compressQ := (quicklistCompress fresh base htab).
Abbreviation useN := (quicklistDecompressNodeForUse fresh).

Lemma ok_count_0 q act tss : ok (add_count q 0) act tss -> ok q act tss.
Proof using. by rewrite add_count_0. Qed.

(** In the node itself: the node holds something else, as many elements. *)
Lemma put_compress q l1 n l2 t1 t t2 n' t' : ok q (Some (nid n)) (t1 ++ t :: t2) -> nodes q = l1 ++ n :: l2 -> length l1 = length t1 -> is_lzf n = false ->
  nid n' = nid n -> recompress n' = recompress n -> dont_compress n' = dont_compress n -> is_lzf n' = false -> count n' = count n -> length t' = length t -> body_ok (fill q) n' t' ->
  exists q', (let* q := set_node q (nid n) n' in compressQ q (nid n)) = Ret q' /\ rep q' (concat t1 ++ t' ++ concat t2).
Proof using Hmem.
  intros Hok E Hl1 Hraw H1 H2 H3 H4 H5 Hlt Hb. pose proof Hok as [Hc Hcnt Hfull Htot]. rewrite (set_node_mid q l1 l2 n E (ch_ids _ _ _ _ Hc)). cbn [obind].
  assert (ok (set_nodes q (l1 ++ n' :: l2)) (Some (nid n)) (t1 ++ t' :: t2)) as Hok'.
  { destruct (counts_split q _ l1 n l2 t1 t t2 Hcnt E eq_refl Hl1) as (C1 & C2 & C3). split.
    - eapply (chain_set q _ None l1 n l2 t1 t t2); try done; [by rewrite H2|congruence].
    - cbn [nodes set_nodes]. rewrite fmap_app, fmap_cons, lens_app, C1, C3, H5, C2, <- Hlt. done.
    - pose proof (full_split _ _ _ Hfull) as [Hf Ht]. apply Forall_app in Hf as [? ?]. apply Forall_app. split; [done|]. constructor; [|done]. intros ->. by destruct t.
    - cbn. rewrite Htot, !concat_app. cbn [concat]. rewrite !length_app. lia. }
  rewrite <- H1. rewrite <- H1 in Hok'. destruct (compress_ok fresh base htab Hmem _ _ l1 n' l2 t1 t' t2 Hok' eq_refl Hl1 (or_intror eq_refl)) as (l & -> & _ & Hok2). eexists. split; [done|]. exists (t1 ++ t' :: t2). split; [done|]. by rewrite concat_app.
Qed.

(** A large element goes, a small one comes: a new element after it, then the node goes. *)
Lemma plain_to_packed q it e l1 n l2 t1 x t2 v : ok q (Some (nid n)) (t1 ++ [x] :: t2) -> nodes q = l1 ++ n :: l2 -> length l1 = length t1 -> is_lzf n = false -> is_plain n = true -> text_ok v -> Z.of_nat (length v) <= elem_limit (fill q) ->
  e_node e = Some (nid n) -> e_offset e = 0 \/ e_offset e = -1 ->
  exists q', (let* (q, _) := quicklistInsertAfter fresh usable base htab 0 q it e v in deleteN q (nid n)) = Ret q' /\ rep q' (concat t1 ++ v :: concat t2).
Proof using Husable Hmem.
  intros Hok E Hl1 Hraw Hpl Hv Hsm He1 Hoff. pose proof (ch_ids _ _ _ _ (ok_chain _ _ _ Hok)) as Hids. destruct (ok_at q _ l1 n l2 t1 [x] t2 Hok E Hl1) as (Hb & Hcn & _ & _). cbn [length] in Hcn.
  assert (at_place q l1 n l2 t1 [x] t2 0 v) as Hat by (split_and!; try done; cbn; lia). assert (gap_end [x] 0 true) as Hg by done.
  unfold quicklistInsertAfter, _quicklistInsert. rewrite He1, (node_mid q l1 l2 n E Hids). cbn [obind]. assert (_quicklistNodeAllowInsert 0 (Some n) (fill q) (Z.of_nat (length v)) = false) as Ha by (unfold _quicklistNodeAllowInsert; by rewrite Hpl). rewrite Ha. cbn [negb].
  rewrite Hcn. assert ((e_offset e =? Z.of_nat 1 - 1) || (e_offset e =? -1) = true) as -> by (apply orb_true_iff; rewrite !Z.eqb_eq; lia). rewrite (next_mid q l1 l2 n E Hids). cbn [obind].
  assert (node_of q (nid <$> List.head l2) = Ret (List.head l2)) as -> by (destruct l2 as [|m l]; [done|]; cbn; by rewrite (node_mid q (l1 ++ [n]) l m ltac:(by rewrite E, <- app_assoc) Hids)). cbn [obind]. rewrite isLarge_spec. destruct (Z.ltb_spec (elem_limit (fill q)) (Z.of_nat (length v))) as [|_]; [lia|].
  destruct (insert_next_to fresh usable base htab Husable Hmem q l1 n l2 t1 [x] t2 0 v true Hat (List.head l2) Hg Hsm) as (q' & tss & -> & Hok' & Hc & Hf); [destruct l2 as [|m l]; [done|by exists l]|]. cbn [obind].
  destruct (Hf eq_refl) as (m1 & n' & m2 & tb & En & Hi & -> & Hm1). set (q1 := add_count q' 1) in *. destruct (remove_node fresh base htab Hmem q1 None m1 n' m2 t1 [x] tb n' Hok' En Hm1 (or_introl eq_refl) eq_refl) as (l & El & _ & Hok2).
  change (nodes q1) with (nodes q') in *. assert (set_nodes q1 (m1 ++ n' :: m2) = q1) as Eq by (rewrite <- En; apply (set_nodes_same q1)). rewrite Eq, Hi in El. rewrite El. eexists. split; [done|].
  destruct (ok_at q1 None m1 n' m2 t1 [x] tb Hok' En Hm1) as (_ & Hcn' & _). rewrite Hcn' in *. change (Z.of_nat (length [x]) - Z.of_nat (length [x])) with 0 in Hok2. apply ok_count_0 in Hok2. eexists. split; [exact Hok2|]. rewrite !concat_app in Hc |- *. unfold placed, gap in Hc. cbn in Hc. apply app_inv_head in Hc. injection Hc as Hc. by rewrite Hc.
Qed.

(** ** Through a node of its own *)

Lemma dont_on q act l1 n l2 t1 t t2 : good q act None (t1 ++ t :: t2) -> nodes q = l1 ++ n :: l2 -> length l1 = length t1 ->
  good (set_nodes q (l1 ++ set_dont_compress n true :: l2)) act (Some (nid n)) (t1 ++ t :: t2).
Proof using.
  intros [Hc Hcnt Hfull] E Hl1. destruct (good_at q act None l1 n l2 t1 t t2 ltac:(by split) E Hl1) as (Hb & _). split; [|cbn; by rewrite fmap_app, fmap_cons, <- Hcnt, E, fmap_app, fmap_cons|done].
  destruct Hc. rewrite E in *. apply Forall2_app_inv in ch_body0 as [B1 B2]; [|done]. inversion B2; subst. split; cbn; try done.
  - apply ids_ok_nodes; [done|]. unfold ids. by rewrite E, !fmap_app, !fmap_cons.
  - apply Forall2_app; [done|]. by constructor.
  - by rewrite ch_len0, !length_app.
  - by eapply tight_set.
  - by eapply flags_set.
  - unfold donts in *. rewrite Forall_app, Forall_cons in ch_donts0. destruct ch_donts0 as (D1 & _ & D2). rewrite Forall_app, Forall_cons. split_and!; [|done|]; (eapply Forall_impl; [eassumption|]; cbn; intros x Hx Hd; by specialize (Hx Hd)).
Qed.

Lemma dont_off q act l1 n l2 t1 t t2 : good q act (Some (nid n)) (t1 ++ t :: t2) -> nodes q = l1 ++ n :: l2 -> length l1 = length t1 ->
  good (set_nodes q (l1 ++ set_dont_compress n false :: l2)) act None (t1 ++ t :: t2).
Proof using.
  intros Hg E Hl1. pose proof Hg as [Hc Hcnt Hfull]. destruct (good_at q act _ l1 n l2 t1 t t2 Hg E Hl1) as (Hb & _). pose proof (ids_others q l1 n l2 (ch_ids _ _ _ _ Hc) E) as Hoth. split; [|cbn; by rewrite fmap_app, fmap_cons, <- Hcnt, E, fmap_app, fmap_cons|done].
  destruct Hc. rewrite E in *. apply Forall2_app_inv in ch_body0 as [B1 B2]; [|done]. inversion B2; subst. split; cbn; try done.
  - apply ids_ok_nodes; [done|]. unfold ids. by rewrite E, !fmap_app, !fmap_cons.
  - apply Forall2_app; [done|]. by constructor.
  - by rewrite ch_len0, !length_app.
  - by eapply tight_set.
  - by eapply flags_set.
  - unfold donts in *. rewrite Forall_app, Forall_cons in ch_donts0. destruct ch_donts0 as (D1 & _ & D2). rewrite Forall_app, Forall_cons. rewrite !Forall_forall in *. split_and!; [|done|]; intros x Hx Hd; [destruct (Hoth x ltac:(apply elem_of_app; by left)); specialize (D1 x Hx Hd)|destruct (Hoth x ltac:(apply elem_of_app; by right)); specialize (D2 x Hx Hd)]; congruence.
Qed.

(** The last element of a node that holds more than one. *)
Lemma del_last q act dc l1 n l2 t1 t t2 : good q act dc (t1 ++ t :: t2) -> nodes q = l1 ++ n :: l2 -> length l1 = length t1 -> is_lzf n = false -> kind n = PACKED -> (1 < length t)%nat ->
  exists lp zi n' r, raw n = Ret lp /\ lpSeek lp (-1) = Ret (Some zi) /\ quicklistDelIndex fresh usable base htab q (nid n) zi = Ret (add_count (set_nodes q (l1 ++ n' :: l2)) (-1), false, r) /\
    nid n' = nid n /\ kind n' = PACKED /\ good (add_count (set_nodes q (l1 ++ n' :: l2)) (-1)) act dc (t1 ++ take (length t - 1) t :: t2).
Proof using Husable.
  intros Hg E Hl1 Hraw Hk Ht. pose proof Hg as [Hc Hcnt Hfull]. pose proof (ch_ids _ _ _ _ Hc) as Hids. destruct (good_at q act dc l1 n l2 t1 t t2 Hg E Hl1) as (Hb & Hcn & Hne & _). destruct (get_body _ n t Hb Hk Hraw) as (lp & Hr & El & Hh & Hs & _). exists lp.
  destruct (end_seek false lp t Hh Hne) as (zi & Hzi & Hpl). cbn [end_index] in Hpl. exists zi. destruct (delete_text fresh usable Husable (fill q) lp t _ zi Hpl Hs) as (lp' & r & Ed & Hh'). rewrite (drop_ge t (S (length t - 1))), app_nil_r in Hh' by lia.
  unfold quicklistDelIndex. rewrite (node_mid q l1 l2 n E Hids). cbn [obind]. unfold is_plain. rewrite Hk, Hr. cbn [obind]. unfold not_null. rewrite Ed. cbn [obind]. rewrite (set_node_mid q l1 l2 n E Hids). cbn [obind]. set (n1 := set_count _ _).
  assert (count n1 = Z.of_nat (length t) - 1) as Cn1 by (cbn; rewrite Hcn; apply wrap16; destruct Hs as (_ & ? & _); lia). rewrite Cn1, (proj2 (Z.eqb_neq _ _)) by lia.
  assert (ids_ok (set_nodes q (l1 ++ n1 :: l2))) as Hids1 by (apply ids_ok_nodes; [done|]; unfold ids; rewrite E, !fmap_app, !fmap_cons; done). change (nid n) with (nid n1) at 1. rewrite (set_node_mid (set_nodes q (l1 ++ n1 :: l2)) l1 l2 n1 eq_refl Hids1). cbn [obind]. rewrite set_nodes_twice.
  exists (put_lp n1 lp'), r. split_and!; try done. destruct (counts_split q _ l1 n l2 t1 t t2 Hcnt E eq_refl Hl1) as (C1 & _ & C3). split.
  - apply chain_count. eapply (chain_set q act dc l1 n l2 t1 t t2); try done. apply put_body; [done|done|by apply small_take].
  - cbn [nodes set_nodes add_count]. rewrite fmap_app, fmap_cons, lens_app, C1, C3. change (lens (take (length t - 1) t :: t2)) with (Z.of_nat (length (take (length t - 1) t)) :: lens t2). do 2 f_equal. change (count (put_lp n1 lp')) with (count n1). rewrite Cn1, length_take. lia.
  - apply full_split in Hfull as [Hf _]. apply Forall_app in Hf as [? ?]. apply Forall_app. split; [done|]. constructor; [|done]. intros E0. apply (f_equal length) in E0. rewrite length_take in E0. cbn [length] in E0. lia.
Qed.

(** Merging around a node that holds one large element. *)
Lemma merge_around q act c L R TL tc TR : good q act None (TL ++ tc :: TR) -> nodes q = L ++ c :: R -> length L = length TL -> is_plain c = true -> L <> [] -> (act = None \/ exists b, last L = Some b /\ act = Some (nid b)) ->
  (act <> None -> 2 * compress q + 2 <= Z.of_nat (length (nodes q))) ->
  exists q' c' L' R' TL' TR' act', _quicklistMergeNodes fresh usable base htab q (nid c) = Ret (q', nid c) /\ same q q' /\ nodes q' = L' ++ c' :: R' /\ nid c' = nid c /\ length L' = length TL' /\ L' <> [] /\ concat TL' = concat TL /\ concat TR' = concat TR /\
    good q' act' None (TL' ++ tc :: TR') /\ (act' = None \/ exists b, last L' = Some b /\ act' = Some (nid b)).
Proof using Husable Hmem.
  intros Hg E Hl Hpl HL Hact Hlen. pose proof (ch_ids _ _ _ _ (gd_chain _ _ _ _ Hg)) as Hids. unfold _quicklistMergeNodes. rewrite (prev_mid q L R c E Hids). cbn [obind].
  destruct (merge_left fresh usable base htab Husable Hmem q act c L R TL tc TR Hg E Hl Hact) as (pp & -> & q1 & r1 & b1 & L1 & c1 & R1 & TL1 & act1 & M1 & Q1 & E1 & Sc1 & SR1 & Hl1 & C1 & Hg1 & Ha1 & HL1). specialize (HL1 HL). cbn [obind]. rewrite (next_mid q L R c E Hids). cbn [obind].
  assert (opt_step (next q) (nid <$> List.head R) = Ret (nid <$> List.head (List.tl R))) as ->.
  { destruct R as [|a R]; [done|]. cbn [List.head List.tl fmap option_fmap option_map opt_step]. by rewrite (next_mid q (L ++ [c]) R a ltac:(by rewrite E, <- app_assoc) Hids). }
  cbn [obind]. rewrite M1. cbn [obind].
  assert (nid <$> List.head R = nid <$> List.head R1 /\ nid <$> List.head (List.tl R) = nid <$> List.head (List.tl R1)) as [-> ->].
  { destruct SR1 as [|a a' ? ? Sa SR1]; [done|]. cbn. rewrite (sim_nid _ _ Sa). split; [done|]. destruct SR1 as [|b b' ? ? Sb _]; [done|]. cbn. by rewrite (sim_nid _ _ Sb). }
  destruct (merge_right fresh usable base htab Husable Hmem q1 act1 c1 L1 R1 TL1 tc TR Hg1 E1 Hl1) as (q2 & r2 & b2 & L2 & c2 & R2 & TR2 & -> & Q2 & E2 & SL2 & Sc2 & Hl2 & C2 & Hg2).
  { intros Hn. destruct Ha1 as [->|(-> & -> & _)]; [done|by apply Hlen]. }
  cbn [obind]. assert (nid c = nid c2) as Hcc by (by rewrite (sim_nid _ _ Sc2), (sim_nid _ _ Sc1)). rewrite Hcc. pose proof (ch_ids _ _ _ _ (gd_chain _ _ _ _ Hg2)) as Hids2. rewrite (prev_mid q2 L2 R2 c2 E2 Hids2). cbn [obind].
  assert (is_plain c2 = true) as Hp2 by (unfold is_plain in *; by rewrite (sim_kind _ _ Sc2), (sim_kind _ _ Sc1)).
  assert (forall a b, (a = c2 \/ b = c2) -> _quicklistNodeAllowMerge (Some a) (Some b) (fill q2) = false) as Hno by (intros a b [->| ->]; unfold _quicklistNodeAllowMerge; rewrite Hp2, ?orb_true_r; done).
  assert (L2 <> []) as HL2 by (by eapply sims_nil). destruct (exists_last HL2) as (L2' & b & ->). rewrite last_snoc. cbn [fmap option_fmap option_map].
  assert (nodes q2 = L2' ++ b :: c2 :: R2) as E2' by (by rewrite E2, <- app_assoc). unfold try_merge at 1. cbn [node_of]. rewrite (node_mid q2 L2' (c2 :: R2) b E2' Hids2), (node_mid q2 (L2' ++ [b]) R2 c2 E2 Hids2). cbn [obind]. rewrite Hno by auto. cbn [obind].
  rewrite (next_mid q2 (L2' ++ [b]) R2 c2 E2 Hids2). cbn [obind].
  assert (try_merge fresh usable base htab q2 (Some (nid c2)) (nid <$> List.head R2) = Ret (q2, None, false)) as ->.
  { destruct R2 as [|d R2]; cbn [List.head fmap option_fmap option_map]; [apply try_merge_none; try done; [right; by exists c2, (L2' ++ [b]), []|by left|by right]|]. unfold try_merge. cbn [node_of]. rewrite (node_mid q2 (L2' ++ [b]) (d :: R2) c2 E2 Hids2), (node_mid q2 (L2' ++ [b; c2]) R2 d ltac:(by rewrite E2, <- !app_assoc) Hids2). cbn [obind]. by rewrite Hno by auto. }
  cbn [obind]. exists q2, c2, (L2' ++ [b]), R2, TL1, TR2, act1. split_and!; try done; [eauto using same_trans|rewrite <- (Forall2_length _ _ _ SL2); done|].
  destruct Ha1 as [->|(-> & -> & -> & ->)]; [by left|]. destruct Hact as [->|(b0 & Eb & ->)]; [by left|]. right. exists b. rewrite last_snoc. split; [done|]. apply last_Some in Eb as [L0 ->]. apply Forall2_app_inv_l in SL2 as (L0' & br & _ & Sb & Eb'). inversion Sb as [|? b' ? ? Sb' S0]; subst. inversion S0; subst. apply app_inj_tail in Eb' as [_ ->]. by rewrite (sim_nid _ _ Sb').
Qed.

Lemma split_dont q p off after q' s n : _quicklistSplitNode fresh usable q p off after = Ret (q', s) -> node q p = Ret n -> nid n = p -> forall l1 l2, nodes q = l1 ++ n :: l2 -> ids_ok q ->
  exists n1, nodes q' = l1 ++ n1 :: l2 /\ dont_compress n1 = dont_compress n.
Proof using.
  intros Es Hn <- l1 l2 E Hids. unfold _quicklistSplitNode in Es. rewrite Hn in Es. cbn [obind] in Es. destruct (raw n) as [|lp]; [done|]. cbn [obind quicklistCreateNode] in Es. destruct (lp_delete_range _ _ lp _ _) as [|lp1]; [done|]. cbn [obind] in Es. destruct (lpLength lp1) as [|[c lp2]]; [done|]. cbn [obind] in Es.
  set (q0 := Quicklist_ _ _ _ _ _ _) in Es. assert (ids_ok q0) as Hids0 by (destruct Hids as [H1 H2]; split; [done|]; eapply Forall_impl; [exact H2|]; cbn; lia). rewrite (set_node_mid q0 l1 l2 n E Hids0) in Es. cbn [obind] in Es. destruct (lp_delete_range _ _ (take _ lp) _ _) as [|lp3]; [done|]. cbn [obind] in Es. destruct (lpLength lp3) as [|[c' lp4]]; [done|]. cbn [obind] in Es.
  injection Es as <- _. by eexists.
Qed.

(** The node [n] is held back from compression, split after the element, and the large
    element is in a node after it. *)
Lemma replace_parts q act l1 n l2 t1 t t2 k off v : good q act None (t1 ++ t :: t2) -> act = None \/ act = Some (nid n) -> nodes q = l1 ++ n :: l2 -> length l1 = length t1 -> is_lzf n = false -> kind n = PACKED ->
  (k < length t)%nat -> off = Z.of_nat k \/ off = Z.of_nat k - Z.of_nat (length t) -> text_ok v -> elem_limit (fill q) < Z.of_nat (length v) ->
  exists q3 w a1 n3 w3 a2 TR, (let* q := update q (nid n) (fun n => set_dont_compress n true) in
    let* n0 := node q (nid n) in
    let* (q, split_node) := if negb (off =? count n0 - 1) && negb (off =? -1) then let* (q, s) := _quicklistSplitNode fresh usable q (nid n) off true in Ret (q, Some s) else Ret (q, None) in
    let* (new_node, q) := __quicklistCreateNode fresh usable q (if isLargeElement 0 (Z.of_nat (length v)) (fill q) then PLAIN else PACKED) v in
    let* q := insertN q (Some (nid n)) new_node true in
    let* q := match split_node with Some s => insertN q (Some (nid new_node)) s true | None => Ret q end in Ret (q, new_node)) = Ret (q3, w) /\
    same q q3 /\ nodes q3 = a1 ++ n3 :: w3 :: a2 /\ nid n3 = nid n /\ kind n3 = PACKED /\ is_lzf n3 = false /\ nid w3 = nid w /\ is_plain w3 = true /\ length a1 = length t1 /\
    concat TR = drop (S k) t ++ concat t2 /\ len q + 1 <= len q3 /\ good q3 act (Some (nid n)) (t1 ++ take (S k) t :: [v] :: TR).
Proof using Husable Hmem.
  intros Hg0 Hact E Hl1 Hraw Hk Hkt Hoff Hv Hbig. destruct (good_at q act None l1 n l2 t1 t t2 Hg0 E Hl1) as (Hb & Hcn & _ & Hl2). rewrite (update_mid q l1 l2 n E (ch_ids _ _ _ _ (gd_chain _ _ _ _ Hg0))). cbn [obind].
  pose proof (dont_on q act l1 n l2 t1 t t2 Hg0 E Hl1) as Hg. set (nd := set_dont_compress n true) in *. set (q0 := set_nodes q (l1 ++ nd :: l2)) in *. pose proof (node_mid q0 l1 l2 nd eq_refl (ch_ids _ _ _ _ (gd_chain _ _ _ _ Hg))) as Hnd. change (nid nd) with (nid n) in Hnd. rewrite Hnd. cbn [obind]. change (count nd) with (count n). rewrite Hcn.
  assert (exists q1 n1 so, (if negb (off =? Z.of_nat (length t) - 1) && negb (off =? -1) then let* (q, s) := _quicklistSplitNode fresh usable q0 (nid n) off true in Ret (q, Some s) else Ret (q0, None)) = Ret (q1, so) /\ same q q1 /\ len q1 = len q /\ nodes q1 = l1 ++ n1 :: l2 /\ nid n1 = nid n /\ kind n1 = PACKED /\ is_lzf n1 = false /\
    good q1 act (Some (nid n)) (t1 ++ take (S k) t :: t2) /\ dont_compress n1 = true /\ match so with None => drop (S k) t = [] | Some s => loose q1 s /\ body_ok (fill q) s (drop (S k) t) /\ count s = Z.of_nat (length (drop (S k) t)) /\ drop (S k) t <> [] end) as (q1 & n1 & so & -> & Hs1 & Hlen1 & En1 & Hi1 & Hk1 & Hz1 & Hg1 & Hd1 & Hso).
  { destruct (decide (S k = length t)) as [Hlast|Hmid].
    - assert (negb (off =? Z.of_nat (length t) - 1) && negb (off =? -1) = false) as -> by (rewrite <- negb_orb; apply negb_false_iff, orb_true_iff; rewrite !Z.eqb_eq; lia). exists q0, nd, None. rewrite Hlast, firstn_all, drop_all. split_and!; done.
    - assert (negb (off =? Z.of_nat (length t) - 1) && negb (off =? -1) = true) as -> by (rewrite <- negb_orb; apply negb_true_iff, orb_false_iff; rewrite !Z.eqb_neq; lia).
      destruct (split_spec fresh usable Husable q0 act (Some (nid n)) l1 nd l2 t1 t t2 off k true Hg eq_refl Hl1 Hraw Hk Hoff Hkt ltac:(cbn; lia)) as (n1 & s & Es & Hi & Hkk & Hzz & Hlo & _ & Hbs & Hcs & Hgs). change (nid nd) with (nid n) in *. rewrite Es. cbn [obind]. eexists _, n1, (Some s). split; [done|].
      split_and!; try done.
      + destruct (split_dont q0 (nid n) off true _ s nd Es Hnd eq_refl l1 l2 eq_refl (ch_ids _ _ _ _ (gd_chain _ _ _ _ Hg))) as (n1' & En' & Hd). cbn [nodes set_nodes] in En'. apply app_inj_1 in En' as [_ [= ->]]; done.
      + apply (loose_later (snd (quicklistCreateNode q0)) _ s (S (nid s)) Hlo); [lia| |done]. intros j Hj. left. unfold ids in *. cbn in *. rewrite fmap_app, fmap_cons in *. by rewrite Hi in Hj.
      + intros E0. apply (f_equal length) in E0. rewrite length_drop in E0. cbn [length] in E0. lia. }
  cbn [obind]. assert (fill q1 = fill q) as Hf1 by apply (same_fill _ _ Hs1). rewrite isLarge_spec, Hf1, (proj2 (Z.ltb_lt _ _)) by done. destruct (plain_node fresh usable q1 _ _ _ v (gd_chain _ _ _ _ Hg1) Hv) as (w & Ew & Hlw & Hbw & Hcw & Hkw). pose proof (plain_nid fresh usable _ _ _ _ Ew) as Hnw. rewrite Ew. cbn [obind].
  destruct (insert_good fresh base htab Hmem (snd (quicklistCreateNode q1)) act (Some (nid n)) l1 n1 l2 t1 (take (S k) t) t2 w [v] true (good_create _ _ _ _ Hg1) En1 Hl1 Hlw Hbw Hcw ltac:(done)) as (q2 & m1 & n2 & w2 & m2 & Ei & Hs2 & Hnx & En2 & Hlen2 & S1 & Sn & Sw & S2 & Hg2). rewrite Hi1 in Ei. rewrite Ei. cbn [obind]. specialize (Hg2 act (or_introl eq_refl)).
  assert (length m1 = length t1) as Hm1 by (by rewrite <- (Forall2_length _ _ _ S1)). assert (is_plain w2 = true) as Hpw2 by (unfold is_plain; by rewrite (sim_kind _ _ Sw), Hkw).
  assert (same q q2) as Hsq2 by (destruct Hs1, Hs2; split; cbn in *; congruence). destruct so as [s|].
  - destruct Hso as (Hlo & Hbs & Hcs & Hne). assert (loose q2 s) as Hlo2.
    { apply (loose_later q1 q2 s (nid w) Hlo); [pose proof (lo_lt _ _ Hlo); lia| |rewrite Hnx; cbn; lia]. intros j Hj. unfold ids in *. rewrite En2 in Hj. rewrite En1. rewrite !fmap_app, !fmap_cons, (ids_sim _ _ S1), (ids_sim _ _ S2), (sim_nid _ _ Sn), (sim_nid _ _ Sw) in *. rewrite !elem_of_app, !elem_of_cons in *. tauto. }
    rewrite <- (same_fill _ _ Hsq2) in Hbs. destruct (insert_good fresh base htab Hmem q2 act (Some (nid n)) (m1 ++ [n2]) w2 m2 (t1 ++ [take (S k) t]) [v] t2 s (drop (S k) t) true) as (q3 & a1 & w3 & s3 & a2 & Ei3 & Hs3 & _ & En3 & Hlen3 & A1 & Aw & _ & _ & Hg3); try done; [by rewrite <- app_assoc|by rewrite En2, <- app_assoc|rewrite !length_app, Hm1; done|].
    rewrite (sim_nid _ _ Sw) in Ei3. rewrite Ei3. cbn [obind]. specialize (Hg3 act (or_introl eq_refl)). apply Forall2_app_inv_l in A1 as (a1' & ar & A1 & Ar & ->). inversion Ar as [|? n3 ? ? An A0]; subst. inversion A0; subst. rewrite <- app_assoc in En3, Hg3. cbn [app] in En3, Hg3.
    exists q3, w, a1', n3, w3, (s3 :: a2), (drop (S k) t :: t2). split_and!; try done; [eauto using same_trans|by rewrite (sim_nid _ _ An), (sim_nid _ _ Sn)|by rewrite (sim_kind _ _ An), (sim_kind _ _ Sn)|apply (sim_raw _ _ An); [by rewrite (sim_dont _ _ Sn)|by apply (sim_raw _ _ Sn)]|by rewrite (sim_nid _ _ Aw), (sim_nid _ _ Sw)|unfold is_plain; by rewrite (sim_kind _ _ Aw), (sim_kind _ _ Sw), Hkw|rewrite <- (Forall2_length _ _ _ A1); done|].
    rewrite Hlen3, Hlen2. cbn. lia.
  - cbn [obind]. exists q2, w, m1, n2, w2, m2, t2. rewrite Hso. split_and!; try done; [by rewrite (sim_nid _ _ Sn)|by rewrite (sim_kind _ _ Sn)|by apply (sim_raw _ _ Sn)|by rewrite (sim_nid _ _ Sw)|]. rewrite Hlen2. cbn. lia.
Qed.

(** What comes after: the element goes from the node, which may merge with its neighbours. *)
Definition replace_rest (q : quicklist) (p : nat) (new_node : quicklistNode) : outcome quicklist :=
  let q := add_count q 1 in
  let* n := node q p in
  if count n =? 1 then deleteN q p else
  let* lp := raw n in
  let* zi := lpSeek lp (-1) in
  match zi with
  | None => Abort
  | Some zi =>
      let* (r, _) := quicklistDelIndex fresh usable base htab q p zi in
      let* q := update (fst r) p (fun n => set_dont_compress n false) in
      let* (q, new_node) := _quicklistMergeNodes fresh usable base htab q (nid new_node) in
      let* q := compressQ q new_node in
      let* pr := prev q new_node in
      let* q := match pr with Some pr => compressQ q pr | None => Abort end in
      let* nx := next q new_node in
      match nx with Some nx => compressQ q nx | None => Ret q end
  end.

Lemma replace_split_eq q p e v : replace_split fresh usable base htab 0 q p e v =
  (let* (q, w) := (let* q := update q p (fun n => set_dont_compress n true) in
    let* n0 := node q p in
    let* (q, split_node) := if negb (e_offset e =? count n0 - 1) && negb (e_offset e =? -1) then let* (q, s) := _quicklistSplitNode fresh usable q p (e_offset e) true in Ret (q, Some s) else Ret (q, None) in
    let* (new_node, q) := __quicklistCreateNode fresh usable q (if isLargeElement 0 (Z.of_nat (length v)) (fill q) then PLAIN else PACKED) v in
    let* q := insertN q (Some p) new_node true in
    let* q := match split_node with Some s => insertN q (Some (nid new_node)) s true | None => Ret q end in Ret (q, new_node)) in replace_rest q p w).
Proof using.
  unfold replace_split. destruct (update q p _) as [|q0]; [done|]. cbn [obind]. destruct (node q0 p) as [|n0]; [done|]. cbn [obind]. destruct (if _ && _ then _ else _) as [|[q1 so]]; [done|]. cbn [obind]. destruct (__quicklistCreateNode _ _ _ _ _) as [|[w q2]]; [done|]. cbn [obind].
  destruct (insertN q2 _ _ _) as [|q3]; [done|]. cbn [obind]. destruct (match so with Some s => _ | None => _ end) as [|q4]; [done|]. done.
Qed.

Lemma compress_good q act l1 n l2 tss : good q act None tss -> nodes q = l1 ++ n :: l2 -> exists m1 n' m2, compressQ q (nid n) = Ret (set_nodes q (m1 ++ n' :: m2)) /\ Forall2 sim l1 m1 /\ sim n n' /\ Forall2 sim l2 m2 /\ forall act', spent act None (nid n) act' -> good (set_nodes q (m1 ++ n' :: m2)) act' None tss.
Proof using Hmem.
  intros [Hc Hcnt Hfull] E. destruct (compressQ_spec fresh base htab Hmem q act None tss (nid n) Hc) as (l & -> & Hs & Hc'); [unfold ids; rewrite E, fmap_app; apply elem_of_app; right; left|]. rewrite E in Hs. destruct (sims_split_l _ _ _ _ Hs) as (m1 & n' & m2 & -> & S1 & Sn & S2).
  exists m1, n', m2. split_and!; try done. intros act' Hsp. split; [by apply Hc'| |done]. cbn [nodes set_nodes]. by rewrite (counts_sim _ _ Hs), <- Hcnt, E.
Qed.

Lemma compress_after q act c L R TL tc TR : good q act None (TL ++ tc :: TR) -> nodes q = L ++ c :: R -> length L = length TL -> L <> [] -> (act = None \/ exists b, last L = Some b /\ act = Some (nid b)) ->
  exists q', (let* q := compressQ q (nid c) in let* pr := prev q (nid c) in let* q := match pr with Some pr => compressQ q pr | None => Abort end in let* nx := next q (nid c) in match nx with Some nx => compressQ q nx | None => Ret q end) = Ret q' /\
    same q q' /\ good q' None None (TL ++ tc :: TR).
Proof using Hmem.
  intros Hg E Hl HL Hact. destruct (compress_good q act L c R _ Hg E) as (L1 & c1 & R1 & -> & SL1 & Sc1 & SR1 & Hg1). specialize (Hg1 act (or_introl eq_refl)). cbn [obind]. set (q1 := set_nodes q (L1 ++ c1 :: R1)) in *. assert (nid c = nid c1) as Hc by (by rewrite (sim_nid _ _ Sc1)). rewrite Hc.
  rewrite (prev_mid q1 L1 R1 c1 eq_refl (ch_ids _ _ _ _ (gd_chain _ _ _ _ Hg1))). cbn [obind]. assert (L1 <> []) as HL1 by (by eapply sims_nil). destruct (exists_last HL1) as (L1' & b & ->). rewrite last_snoc. cbn [fmap option_fmap option_map].
  assert (nodes q1 = L1' ++ b :: c1 :: R1) as E1 by (unfold q1; cbn; by rewrite <- app_assoc). destruct (compress_good q1 act L1' b (c1 :: R1) _ Hg1 E1) as (L2 & b2 & M2 & -> & SL2 & Sb2 & SM2 & Hg2). cbn [obind].
  assert (good (set_nodes q1 (L2 ++ b2 :: M2)) None None (TL ++ tc :: TR)) as Hg2'.
  { apply Hg2. destruct Hact as [->|(b0 & Eb & ->)]; [by left|]. right. split; [|done]. apply last_Some in Eb as [L0 ->]. apply Forall2_app_inv_l in SL1 as (L0' & br & _ & Sb & Eb'). inversion Sb as [|? b' ? ? Sb' S0]; subst. inversion S0; subst. apply app_inj_tail in Eb' as [_ ->]. by rewrite (sim_nid _ _ Sb'). }
  inversion SM2 as [|? c2 ? R2 Sc2 SR2]; subst. assert (nid c1 = nid c2) as Hc2 by (by rewrite (sim_nid _ _ Sc2)). rewrite Hc2. set (q2 := set_nodes q1 (L2 ++ b2 :: c2 :: R2)) in *. assert (nodes q2 = (L2 ++ [b2]) ++ c2 :: R2) as E2 by (unfold q2; cbn; by rewrite <- app_assoc).
  rewrite (next_mid q2 _ R2 c2 E2 (ch_ids _ _ _ _ (gd_chain _ _ _ _ Hg2'))). cbn [obind]. destruct R2 as [|d R2]; cbn [List.head fmap option_fmap option_map]; [exists q2; done|].
  destruct (compress_good q2 None (L2 ++ [b2; c2]) d R2 _ Hg2' ltac:(by rewrite E2, <- !app_assoc)) as (L3 & d3 & R3 & -> & _ & _ & _ & Hg3). eexists. split; [done|]. split; [done|]. apply Hg3. by left.
Qed.

Lemma good_dc q act p tss : good q act (Some p) tss -> p ∉ ids q -> good q act None tss.
Proof using.
  intros [[] ? ?] Hp. split; try done. split; try done. unfold donts in *. rewrite Forall_forall in *. intros x Hx Hd. specialize (ch_donts0 x Hx Hd). injection ch_donts0 as ->. exfalso. apply Hp. unfold ids. by apply list_elem_of_fmap_2.
Qed.

Lemma replace_split_spec q l1 n l2 t1 t t2 k e v : ok q (Some (nid n)) (t1 ++ t :: t2) -> nodes q = l1 ++ n :: l2 -> length l1 = length t1 -> is_lzf n = false -> kind n = PACKED ->
  (k < length t)%nat -> e_offset e = Z.of_nat k \/ e_offset e = Z.of_nat k - Z.of_nat (length t) -> text_ok v -> elem_limit (fill q) < Z.of_nat (length v) ->
  exists q', replace_split fresh usable base htab 0 q (nid n) e v = Ret q' /\ rep q' (concat t1 ++ take k t ++ v :: drop (S k) t ++ concat t2).
Proof using Husable Hmem.
  intros Hok E Hl1 Hraw Hk Hkt Hoff Hv Hbig. pose proof (ch_ids _ _ _ _ (ok_chain _ _ _ Hok)) as Hids. pose proof (ok_total _ _ _ Hok) as Htot. pose proof (ch_len _ _ _ _ (ok_chain _ _ _ Hok)) as Hlenq.
  assert (exists act, good q act None (t1 ++ t :: t2) /\ (act = None \/ act = Some (nid n)) /\ (act <> None -> 2 * compress q + 1 <= len q)) as (act & Hg & Hact & Hdeep).
  { destruct (recompress n) eqn:Hr.
    - exists (Some (nid n)). split; [by apply ok_good|]. split; [by right|]. intros _. destruct (ch_flags _ _ _ _ (ok_chain _ _ _ Hok) l1 n l2 E Hr) as (_ & _ & _ & _ & ?). lia.
    - exists None. split; [|split; [by left|done]]. destruct (ok_good _ _ _ Hok) as [Hc Hcnt Hf]. split; [|done|done]. eapply chain_spent; [exact Hc|done|]. intros m Hm Heq. by assert (m = n) as -> by (by eapply nid_inj). }
  destruct (replace_parts q act l1 n l2 t1 t t2 k (e_offset e) v Hg Hact E Hl1 Hraw Hk Hkt Hoff Hv Hbig) as (q3 & w & a1 & n3 & w3 & a2 & TR & Ep & Hs3 & En3 & Hi3 & Hk3 & Hz3 & Hiw & Hpw & Ha1 & HTR & Hlen3 & Hg3). rewrite replace_split_eq, Ep. cbn [obind]. unfold replace_rest.
  set (q4 := add_count q3 1). assert (good q4 act (Some (nid n)) (t1 ++ take (S k) t :: [v] :: TR)) as Hg4 by (destruct Hg3; split; [by apply chain_count|done|done]). pose proof (ch_ids _ _ _ _ (gd_chain _ _ _ _ Hg4)) as Hids4. pose proof (node_mid q4 a1 (w3 :: a2) n3 En3 Hids4) as Hnode. rewrite Hi3 in Hnode. rewrite Hnode. cbn [obind].
  destruct (good_at q4 _ _ a1 n3 (w3 :: a2) t1 _ _ Hg4 En3 Ha1) as (Hb3 & Hc3 & _). rewrite length_take in Hc3. rewrite Hc3.
  assert (total_count q4 = flat_len (t1 ++ t :: t2) + 1) as Ht4 by (cbn; rewrite (same_total _ _ Hs3), Htot; done). assert (flat_len TR = Z.of_nat (length t) - Z.of_nat (S k) + flat_len t2) as HfT by (unfold flat_len; rewrite HTR, length_app, length_drop; lia).
  destruct (Z.eqb_spec (Z.of_nat (S k `min` length t)) 1) as [Hone|Hmany].
  - assert (k = 0%nat) as -> by lia. rewrite <- Hi3. assert (flags (compress q4) None (a1 ++ w3 :: a2)) as Hfl by (pose proof (ch_flags _ _ _ _ (gd_chain _ _ _ _ Hg4)) as Hf; change (nodes q4) with (nodes q3) in Hf; rewrite En3 in Hf; eapply flags_delete; [exact Hf|rewrite Hi3; done|by eapply ids_others]).
    destruct (delete_mid fresh base htab Hmem q4 act None (Some (nid n)) a1 n3 n3 (w3 :: a2) t1 _ _ (gd_chain _ _ _ _ Hg4) En3 Ha1 eq_refl Hfl) as (l & Ed & Sl & Hc5). assert (set_nodes q4 (a1 ++ n3 :: w3 :: a2) = q4) as Eq4 by (rewrite <- En3; apply (set_nodes_same q4)). rewrite Eq4 in Ed. rewrite Ed. eexists. split; [done|].
    exists (t1 ++ [v] :: TR). split; [|rewrite concat_app; cbn; by rewrite HTR]. destruct (counts_split q4 _ a1 n3 (w3 :: a2) t1 _ _ (gd_counts _ _ _ _ Hg4) En3 eq_refl Ha1) as (C1 & _ & C2). apply good_ok.
    + apply (good_dc _ _ (nid n)).
      * split; [done| |]; [cbn [nodes add_count add_len set_nodes]; by rewrite (counts_sim _ _ Sl), fmap_app, C1, C2, lens_app|]. pose proof (full_split _ _ _ (gd_full _ _ _ _ Hg4)) as [Hf _]. done.
      * unfold ids. cbn [nodes add_count add_len set_nodes]. rewrite (ids_sim _ _ Sl). intros Hin. apply list_elem_of_fmap in Hin as (x & Hx & Hin). apply (ids_others q4 a1 n3 (w3 :: a2) Hids4 En3 x Hin). congruence.
    + cbn [total_count add_count]. change (total_count (add_len (set_nodes q4 l) (-1))) with (total_count q4). rewrite Ht4, Hc3, Hone, !flat_split, HfT. cbn [length]. lia.
  - destruct (del_last q4 act _ a1 n3 (w3 :: a2) t1 (take (S k) t) ([v] :: TR) Hg4 En3 Ha1 Hz3 Hk3) as (lp & zi & n5 & r & -> & Hzi & Hdel & Hi5 & Hk5 & Hg5); [rewrite length_take; lia|]. cbn [obind]. rewrite Hzi. cbn [obind]. rewrite Hi3 in Hdel. rewrite Hdel. cbn [obind fst].
    rewrite length_take, take_take in Hg5. replace ((S k `min` length t - 1) `min` S k)%nat with k in Hg5 by lia. set (q5 := add_count _ (-1)) in *. assert (nid n = nid n5) as Hn5 by congruence. rewrite Hn5 in Hg5 |- *.
    rewrite (update_mid q5 a1 (w3 :: a2) n5 eq_refl (ch_ids _ _ _ _ (gd_chain _ _ _ _ Hg5))). cbn [obind]. pose proof (dont_off q5 act a1 n5 (w3 :: a2) t1 _ _ Hg5 eq_refl Ha1) as Hg6. set (n6 := set_dont_compress n5 false) in *. set (q6 := set_nodes q5 (a1 ++ n6 :: w3 :: a2)) in *.
    assert (nodes q6 = (a1 ++ [n6]) ++ w3 :: a2) as En6 by (unfold q6; cbn; by rewrite <- app_assoc). assert (good q6 act None ((t1 ++ [take k t]) ++ [v] :: TR)) as Hg6' by (by rewrite <- app_assoc).
    assert (act = None \/ exists b, last (a1 ++ [n6]) = Some b /\ act = Some (nid b)) as Hact6 by (destruct Hact as [->| ->]; [by left|right; exists n6; rewrite last_snoc; split; [done|]; cbn; congruence]).
    rewrite <- Hiw. destruct (merge_around q6 act w3 (a1 ++ [n6]) a2 (t1 ++ [take k t]) [v] TR Hg6' En6 ltac:(rewrite !length_app, Ha1; done) Hpw ltac:(by destruct a1) Hact6) as (q7 & c7 & L7 & R7 & TL7 & TR7 & act7 & -> & Hs7 & En7 & Hi7 & Hl7 & HL7 & C7 & D7 & Hg7 & Ha7).
    { intros Hn. specialize (Hdeep Hn). change (compress q6) with (compress q3). rewrite (same_compress _ _ Hs3). change (nodes q6) with (a1 ++ n6 :: w3 :: a2). pose proof (ch_len _ _ _ _ (gd_chain _ _ _ _ Hg3)) as HL3. rewrite En3 in HL3. rewrite length_app in *. cbn [length] in *. lia. }
    cbn [obind]. rewrite <- Hi7. destruct (compress_after q7 act7 c7 L7 R7 TL7 [v] TR7 Hg7 En7 Hl7 HL7 Ha7) as (q8 & -> & Hs8 & Hg8). exists q8. split; [done|]. exists (TL7 ++ [v] :: TR7). split.
    + apply good_ok; [done|]. rewrite (same_total _ _ Hs8), (same_total _ _ Hs7). change (total_count q6) with (total_count q4 + -1). rewrite Ht4, !flat_split. unfold flat_len in HfT |- *. rewrite D7, C7, HfT, concat_app. cbn [concat length]. rewrite !length_app, length_take. cbn [length]. lia.
    + rewrite concat_app. cbn [concat app]. rewrite C7, D7, HTR, concat_app. cbn [concat]. rewrite app_nil_r, <- app_assoc. done.
Qed.

(** ** [quicklistReplaceEntry] *)

Lemma replace_spec q it e al pre post v : cursor q it e al pre post -> text_ok v ->
  exists q' it', quicklistReplaceEntry fresh usable base htab 0 q it e v = Ret (q', it') /\ current it' = None /\ rep q' (pre ++ v :: post).
Proof using Husable Hmem.
  intros (t1 & t & t2 & k & (l1 & n & l2 & zi & (Hok & E & Hl1 & Hcur) & Hraw & Hpt & Hzi & Hoff & He1 & He2 & He3 & Hx & _) & _ & -> & ->) Hv. pose proof Hpt as [Hk Hp]. pose proof (ch_ids _ _ _ _ (ok_chain _ _ _ Hok)) as Hids. destruct (ok_at q _ l1 n l2 t1 t t2 Hok E Hl1) as (Hb & Hcn & _ & Hl2).
  unfold quicklistReplaceEntry. rewrite He1, He2, Hcur, Hzi. rewrite (node_mid q l1 l2 n E Hids). cbn [obind]. rewrite isLarge_spec.
  assert (exists q', (let* newentry := if is_plain n || (elem_limit (fill q) <? Z.of_nat (length v)) then Ret None else let* lp := raw n in lpReplace fresh usable lp zi v in
    match newentry with
    | Some (lp, _) => let* q := set_node q (nid n) (put_lp n lp) in compressQ q (nid n)
    | None => if is_plain n then if elem_limit (fill q) <? Z.of_nat (length v) then let* q := set_node q (nid n) (set_sz (set_entry n (Raw v)) (Z.of_nat (length v))) in compressQ q (nid n) else let* (q, _) := quicklistInsertAfter fresh usable base htab 0 q it e v in deleteN q (nid n)
              else replace_split fresh usable base htab 0 q (nid n) e v
    end) = Ret q' /\ rep q' (concat t1 ++ (take k t ++ v :: drop (S k) t) ++ concat t2)) as (q' & Eq & Hr).
  { destruct (is_plain n) eqn:Hpl; cbn [orb obind].
    - destruct (plain_body _ n t Hb Hpl Hraw) as (x & -> & _). cbn [length] in Hk. assert (k = 0%nat) as -> by lia. cbn [take drop app]. unfold is_plain in Hpl. destruct (kind n) eqn:Ekn; [|done]. destruct (Z.ltb_spec (elem_limit (fill q)) (Z.of_nat (length v))) as [_|Hsm].
      + apply (put_compress q l1 n l2 t1 [x] t2 (set_sz (set_entry n (Raw v)) (Z.of_nat (length v))) [v]); try done. split; [|done]. cbn. rewrite Ekn. exists v. split; [done|]. split; [|apply Hv]. split; [done|]. split; [apply Hv|done].
      + apply (plain_to_packed q it e l1 n l2 t1 x t2 v); try done; [unfold is_plain; by rewrite Ekn|congruence|cbn [length] in Hoff; lia].
    - apply not_plain in Hpl. destruct (Z.ltb_spec (elem_limit (fill q)) (Z.of_nat (length v))) as [Hbig|Hsm]; cbn [obind].
      + destruct (replace_split_spec q l1 n l2 t1 t t2 k e v) as (q' & -> & Hr); try done; [by rewrite He3|]. exists q'. split; [done|]. by rewrite <- app_assoc.
      + rewrite Hpl in Hp. destruct Hp as (lp & El & Hplace). unfold raw. rewrite El. cbn [obind]. destruct (body_size _ _ _ Hb Hpl) as [_ Hst]. assert (length (take k t ++ v :: drop (S k) t) = length t) as Hlen by (rewrite length_app; cbn [length]; rewrite length_take, length_drop; lia).
        assert (small (fill q) (take k t ++ v :: drop (S k) t)) as Hs. { eapply small_swap; [exact Hst| |lia]. destruct (small_take _ _ k Hst) as (F1 & _), (small_drop _ _ (S k) Hst) as (F2 & _). apply Forall_app. split; [done|]. constructor; [split; [apply Hv|done]|done]. }
        destruct (replace_text fresh usable Husable (fill q) lp t k zi v Hplace Hs) as (lp' & r & -> & Hh). cbn [obind]. apply (put_compress q l1 n l2 t1 t t2 (put_lp n lp') _); try done. by apply put_body. }
  assert (forall A (m : outcome (option (list Z * option nat))) (f : _ -> outcome quicklist) (g : quicklist -> outcome A), (let* x := m in let* q := f x in g q) = (let* q := (let* x := m in f x) in g q)) as Hassoc by (intros A [|x] f g; done).
  rewrite Hassoc, Eq. cbn [obind]. eexists q', _. split; [done|]. split; [done|]. rewrite <- !app_assoc in Hr |- *. done.
Qed.

Lemma replace_at_index q ts idx v : rep q ts -> text_ok v -> exists q' b, quicklistReplaceAtIndex fresh usable base htab 0 q idx v = Ret (q', b) /\
  match abs_index ts idx with None => b = false /\ rep q' ts | Some i => b = true /\ rep q' (<[i := v]> ts) end.
Proof using Husable Hmem.
  intros Hr Hv. unfold quicklistReplaceAtIndex. destruct (entry_at_idx fresh base htab q ts idx Hr) as (q1 & r & -> & Hent). cbn [obind]. destruct r as [[it e]|].
  - destruct Hent as (pre & post & -> & Hi & Hcur). destruct (replace_spec q1 it e false pre post v Hcur Hv) as (q2 & it2 & -> & Hidle & Hr2). cbn [obind]. destruct (release_idle fresh base htab Hmem q2 it2 _ Hr2) as (q3 & -> & Hr3); [intros p Hp; congruence|]. cbn [obind]. exists q3, true. split; [done|]. rewrite Hi. split; [done|].
    rewrite insert_app_r_alt, Nat.sub_diag by done. done.
  - destruct Hent as [Hi ->]. exists q, false. rewrite Hi. done.
Qed.
End Replace.

End QuicklistReplace.
