(* ===== verification/QuicklistRange.v ===== *)
(** * QuicklistRange: deleting a range, copying, comparing, rotating (quicklist.c) *)
From S2P Require Import Prelude NumStr Lzf LpEntry Listpack LpBulk StrObj Quicklist QuicklistSpec QuicklistElems QuicklistOps QuicklistIter QuicklistEdit QuicklistInsert.
Import NumStr LpEntry Listpack LpBulk Quicklist QuicklistSpec QuicklistElems QuicklistOps QuicklistIter QuicklistEdit QuicklistInsert.

Module QuicklistRange.

Section Range.
Context (fresh : nat -> Z) (usable : nat -> nat) (base : list Z -> Z) (htab : list Z -> Z -> Z).
Context (Husable : forall n, (n <= usable n)%nat) (Hmem : memory_ok base htab).

Abbreviation deleteN := (__quicklistDelNode fresh base htab).
Abbreviation compressQ := (quicklistCompress fresh base htab).
Abbreviation useN := (quicklistDecompressNodeForUse fresh).
Abbreviation recompressQ := (quicklistRecompressOnly fresh base htab).

(** ** Deleting a range *)

(** How many elements of the node go. *)
Lemma to_delete_spec off k extent (t : list (list Z)) : off = Z.of_nat k \/ off = Z.of_nat k - Z.of_nat (length t) -> (k < length t)%nat -> 0 < extent ->
  exists whole, to_delete off extent (Z.of_nat (length t)) = (Z.min extent (Z.of_nat (length t) - Z.of_nat k), whole) /\ (whole = true -> k = 0%nat /\ Z.of_nat (length t) <= extent).
Proof using.
  intros Ho Hk He. unfold to_delete. destruct ((off =? 0) && (Z.of_nat (length t) <=? extent)) eqn:E1; [zbool; exists true; split; [f_equal; lia|lia]|]. destruct ((0 <=? off) && (Z.of_nat (length t) <=? extent + off)) eqn:E2; [zbool; exists false; split; [f_equal; lia|done]|].
  apply andb_false_iff in E1, E2. destruct (Z.ltb_spec off 0); exists false; (split; [f_equal|done]); rewrite ?Z.eqb_neq, ?Z.leb_gt in *; lia.
Qed.

Lemma good_remove q act l1 n l2 t1 t t2 n' : good q act None (t1 ++ t :: t2) -> nodes q = l1 ++ n :: l2 -> length l1 = length t1 -> act = None \/ act = Some (nid n) -> nid n' = nid n ->
  exists l, deleteN (set_nodes q (l1 ++ n' :: l2)) (nid n) = Ret (add_count (add_len (set_nodes q l) (-1)) (- count n')) /\ Forall2 sim (l1 ++ l2) l /\ good (add_count (add_len (set_nodes q l) (-1)) (- count n')) None None (t1 ++ t2).
Proof using Hmem.
  intros [Hc Hcnt Hfull] E Hl1 Hact Hnid. destruct (counts_split q _ l1 n l2 t1 t t2 Hcnt E eq_refl Hl1) as (C1 & C2 & C3).
  assert (flags (compress q) None (l1 ++ l2)) as Hf by (pose proof (ch_flags _ _ _ _ Hc) as Hf; rewrite E in Hf; eapply flags_delete; [exact Hf|done|]; by eapply ids_others; [apply (ch_ids _ _ _ _ Hc)|]).
  destruct (delete_mid fresh base htab Hmem q act None None l1 n n' l2 t1 t t2 Hc E Hl1 Hnid Hf) as (l & -> & Hs & Hc'). exists l. split; [done|]. split; [done|]. split; [done| |by apply full_split in Hfull as [? _]]. cbn. by rewrite (counts_sim _ _ Hs), fmap_app, lens_app, C1, C3.
Qed.

(** What one turn of the loop does to a node. *)
Definition del_step (q : quicklist) (p : nat) (offset del : Z) (whole : bool) : outcome quicklist :=
  let* n := node q p in
  if whole || is_plain n then deleteN q p
  else
    let* q := useN q p in
    let* n := node q p in
    let* lp := raw n in
    let* lp := lp_delete_range fresh usable lp offset del in
    let* q := set_node q p (set_count (put_lp n lp) (count n - del)) in
    let q := add_count q (- del) in
    let* (q, gone) := quicklistDeleteIfEmpty fresh base htab q p in
    if gone : bool then Ret q else recompressQ q p.

(** The texts of the node are gone, or what is left of them. *)
Lemma del_step_spec q l1 n l2 t1 t t2 k off (d : nat) whole : ok q None (t1 ++ t :: t2) -> nodes q = l1 ++ n :: l2 -> length l1 = length t1 -> off = Z.of_nat k \/ off = Z.of_nat k - Z.of_nat (length t) -> (0 < d)%nat -> (k + d <= length t)%nat ->
  (whole = true -> d = length t) -> exists q' l, del_step q (nid n) off (Z.of_nat d) whole = Ret q' /\ nodes q' = l /\
    if decide (d = length t) then ok q' None (t1 ++ t2) /\ Forall2 sim (l1 ++ l2) l else ok q' None (t1 ++ (take k t ++ drop (k + d) t) :: t2) /\ exists n', Forall2 sim (l1 ++ n' :: l2) l.
Proof using Husable Hmem.
  intros Hok E Hl1 Hoff Hd Hkd Hwhole. pose proof (ch_ids _ _ _ _ (ok_chain _ _ _ Hok)) as Hids. destruct (ok_at q _ l1 n l2 t1 t t2 Hok E Hl1) as (Hb & Hcn & Ht & _). unfold del_step. rewrite (node_mid q l1 l2 n E Hids). cbn [obind].
  destruct (whole || is_plain n) eqn:Hw.
  { assert (d = length t) as Hdt by (apply orb_true_iff in Hw as [->|Hp]; [by apply Hwhole|pose proof (plain_texts _ _ _ Hb Hp); lia]).
    destruct (remove_node fresh base htab Hmem q None l1 n l2 t1 t t2 n Hok E Hl1 (or_introl eq_refl) eq_refl) as (l & El & Hs & Hok'). rewrite <- E, set_nodes_same in El. rewrite El. eexists _, l. split; [done|]. split; [done|]. rewrite Hcn, Z.sub_diag, add_count_0 in Hok'. rewrite decide_True, Hcn by done. done. }
  apply orb_false_iff in Hw as [_ Hp]. apply not_plain in Hp. destruct (use_spec fresh q None l1 n l2 t1 t t2 Hok E Hl1 (or_introl eq_refl)) as (n1 & -> & Hraw & Hi1 & Hk1 & Hc1 & _ & Hok1 & _). cbn [obind]. set (q1 := set_nodes q (l1 ++ n1 :: l2)) in *. pose proof (ch_ids _ _ _ _ (ok_chain _ _ _ Hok1)) as Hids1.
  pose proof (node_mid q1 l1 l2 n1 eq_refl Hids1) as Hnode. rewrite Hi1 in Hnode. rewrite Hnode. cbn [obind]. destruct (ok_at q1 _ l1 n1 l2 t1 t t2 Hok1 eq_refl Hl1) as (Hb1 & Hcn1 & _). destruct (get_body _ n1 t Hb1 ltac:(congruence) Hraw) as (lp & -> & _ & Hh & Hs & _). cbn [obind].
  assert (exists lp', lp_delete_range fresh usable lp off (Z.of_nat d) = Ret lp' /\ holds lp' (take k t ++ drop (k + d) t)) as (lp' & -> & Hh').
  { destruct (range_text fresh usable Husable lp t off (Z.of_nat d) Hh) as (lp' & -> & Hh'). exists lp'. split; [done|]. cbv zeta in Hh'. assert ((if off <? 0 then Z.of_nat (length t) + off else off) = Z.of_nat k) as Eo by (case_bool; lia). rewrite Eo in Hh'. rewrite (proj2 (Z.leb_le 0 _)), (proj2 (Z.ltb_lt (Z.of_nat k) _)), (proj2 (Z.ltb_ge (Z.of_nat d) 0)) in Hh' by lia. cbn [andb] in Hh'. by rewrite !Nat2Z.id in Hh'. }
  cbn [obind]. set (t' := take k t ++ drop (k + d) t) in *. assert (length t' = length t - d)%nat as Hlt by (unfold t'; rewrite length_app, length_take, length_drop; lia). set (n2 := set_count _ _). assert (count n2 = Z.of_nat (length t')) as Hc2 by (cbn; rewrite Hcn1, Hlt; destruct Hs as (_ & ? & _); rewrite wrap16; lia).
  pose proof (set_node_mid q1 l1 l2 n1 eq_refl Hids1 n2) as Hset. rewrite Hi1 in Hset. rewrite Hset. cbn [obind]. clear Hset. set (q2 := add_count _ _).
  assert (ids_ok q2) as Hids2 by (destruct Hids1 as [I1 I2]; unfold ids, q1 in *; cbn in *; rewrite fmap_app, fmap_cons in *; split; unfold ids, q2; cbn; by rewrite fmap_app, fmap_cons). pose proof (node_mid q2 l1 l2 n2 eq_refl Hids2) as Hnode2. change (nid n2) with (nid n1) in Hnode2. rewrite Hi1 in Hnode2. unfold quicklistDeleteIfEmpty. rewrite Hnode2. cbn [obind]. rewrite Hc2.
  pose proof (ok_good _ _ _ Hok1) as Hg1. destruct (decide (d = length t)) as [Hdt|Hdt].
  - rewrite (proj2 (Z.eqb_eq _ _)) by lia. assert (good (add_count q1 (- Z.of_nat d)) (Some (nid n1)) None (t1 ++ t :: t2)) as Hg1' by (rewrite Hi1; destruct Hg1; split; [by apply chain_count|done|done]).
    destruct (good_remove (add_count q1 (- Z.of_nat d)) _ l1 n1 l2 t1 t t2 n2 Hg1' eq_refl Hl1 (or_intror eq_refl) eq_refl) as (l & El & Hsl & Hg3). rewrite Hi1 in El. change (set_nodes (add_count q1 (- Z.of_nat d)) (l1 ++ n2 :: l2)) with q2 in El. rewrite El. cbn [obind]. eexists _, l. split; [done|]. split; [done|]. split; [|done].
    apply good_ok; [done|]. cbn [total_count add_count]. change (total_count (add_len (set_nodes (add_count q1 (- Z.of_nat d)) l) (-1))) with (total_count q + - Z.of_nat d). rewrite (ok_total _ _ _ Hok), Hc2, Hlt. unfold flat_len. rewrite !concat_app, !length_app. cbn [concat]. rewrite length_app. lia.
  - rewrite (proj2 (Z.eqb_neq _ _)) by lia. cbn [obind]. assert (t' <> []) as Ht' by (intros E0; rewrite E0 in Hlt; cbn in Hlt; lia). assert (small (fill q) t') as Hs' by (eapply small_swap; [exact Hs| |lia]; unfold t'; destruct (small_take _ _ k Hs) as (F1 & _), (small_drop _ _ (k + d) Hs) as (F2 & _); by apply Forall_app).
    assert (chain q2 (Some (nid n)) None (t1 ++ t' :: t2)) as Hch2. { apply chain_count. eapply (chain_set q1 _ None l1 n1 l2 t1 t t2); try done; [apply (ok_chain _ _ _ Hok1)|]. apply put_body; [congruence|done|done]. }
    destruct (recompress_chain fresh base htab Hmem q2 _ None _ (nid n) Hch2) as (l & -> & Hsl & Hc3); [rewrite <- Hi1; unfold ids; cbn; rewrite fmap_app; apply elem_of_app; right; left|]. eexists _, l. split; [done|]. split; [done|]. split; [|by exists n2]. destruct (counts_split q1 _ l1 n1 l2 t1 t t2 (ok_counts _ _ _ Hok1) eq_refl eq_refl Hl1) as (C1 & _ & C3). split.
    + apply Hc3. by right.
    + cbn [nodes set_nodes]. rewrite (counts_sim _ _ Hsl). cbn [nodes q2 set_nodes add_count]. rewrite fmap_app, fmap_cons, lens_app, C1, C3, Hc2. done.
    + pose proof (full_split _ _ _ (ok_full _ _ _ Hok1)) as [Hf _]. apply Forall_app in Hf as [? ?]. apply Forall_app. split; [done|]. by constructor.
    + cbn. rewrite (ok_total _ _ _ Hok). rewrite !concat_app. cbn [concat]. rewrite !length_app. lia.
Qed.

Lemma del_range_turn fuel q l1 n l2 off extent : ids_ok q -> nodes q = l1 ++ n :: l2 -> extent <> 0 ->
  del_range fresh usable base htab (S fuel) q (Some (nid n)) off extent =
  (let '(del, whole) := to_delete off extent (count n) in let* q' := del_step q (nid n) off del whole in del_range fresh usable base htab fuel q' (nid <$> List.head l2) 0 (extent - del)).
Proof using.
  intros Hids E He. cbn [del_range]. rewrite (proj2 (Z.eqb_neq _ _) He), (next_mid q l1 l2 n E Hids), (node_mid q l1 l2 n E Hids). cbn [obind]. destruct (to_delete off extent (count n)) as [del whole]. unfold del_step. rewrite (node_mid q l1 l2 n E Hids). done.
Qed.

Lemma del_range_spec fuel : forall q l1 n l2 t1 t t2 k off extent, ok q None (t1 ++ t :: t2) -> nodes q = l1 ++ n :: l2 -> length l1 = length t1 -> off = Z.of_nat k \/ off = Z.of_nat k - Z.of_nat (length t) -> (k < length t)%nat ->
  0 < extent -> extent <= Z.of_nat (length (drop k t ++ concat t2)) -> (length l2 < fuel)%nat ->
  exists q', del_range fresh usable base htab fuel q (Some (nid n)) off extent = Ret q' /\ rep q' (concat t1 ++ take k t ++ drop (Z.to_nat extent) (drop k t ++ concat t2)).
Proof using Husable Hmem.
  induction fuel as [|fuel IH]; intros q l1 n l2 t1 t t2 k off extent Hok E Hl1 Hoff Hk He Hle Hfuel; [lia|]. rewrite length_app, length_drop in Hle.
  destruct (ok_at q _ l1 n l2 t1 t t2 Hok E Hl1) as (_ & Hcn & _ & Hl2). rewrite (del_range_turn fuel q l1 n l2 off extent (ch_ids _ _ _ _ (ok_chain _ _ _ Hok)) E ltac:(lia)), Hcn. destruct (to_delete_spec off k extent t Hoff Hk He) as (whole & -> & Hw).
  set (d := Z.to_nat (Z.min extent (Z.of_nat (length t) - Z.of_nat k))). assert (Z.min extent (Z.of_nat (length t) - Z.of_nat k) = Z.of_nat d) as Ed by lia. rewrite Ed.
  destruct (del_step_spec q l1 n l2 t1 t t2 k off d whole Hok E Hl1 Hoff ltac:(lia) ltac:(lia) ltac:(intros H; destruct (Hw H); lia)) as (q1 & l & -> & El & Hcase). cbn [obind].
  (* what the rest of the loop starts from *)
  assert (exists T, ok q1 None (T ++ t2) /\ concat T = concat t1 ++ take k t ++ drop (k + d) t /\ exists m m2, l = m ++ m2 /\ Forall2 sim l2 m2 /\ length m = length T) as (T & Hok1 & HT & m & m2 & Elm & S2 & HmT).
  { destruct (decide (d = length t)) as [Hdt|Hdt]; destruct Hcase as [Hok1 Hs].
    - exists t1. split; [done|]. assert (k = 0%nat) as -> by lia. rewrite take_0, (drop_ge t) by lia. split; [by rewrite !app_nil_r|]. apply Forall2_app_inv_l in Hs as (m1 & m2 & S1 & S2 & ->). exists m1, m2. split; [done|]. split; [done|]. by rewrite <- (Forall2_length _ _ _ S1).
    - exists (t1 ++ [take k t ++ drop (k + d) t]). split; [by rewrite <- app_assoc|]. split; [rewrite concat_app; cbn; by rewrite app_nil_r|]. destruct Hs as (n' & Hs). destruct (sims_split_l _ _ _ _ Hs) as (m1 & x & m2 & -> & S1 & _ & S2). exists (m1 ++ [x]), m2. rewrite <- app_assoc. split; [done|]. split; [done|]. rewrite !length_app, <- (Forall2_length _ _ _ S1), Hl1. done. }
  destruct (decide (extent = Z.of_nat d)) as [Hend|Hmore].
  { rewrite Hend, Z.sub_diag. exists q1. split; [by destruct fuel|]. exists (T ++ t2). split; [done|]. rewrite concat_app, HT, Nat2Z.id, drop_app_le by (rewrite length_drop; lia). by rewrite drop_drop, <- !app_assoc. }
  assert (d = length t - k)%nat as Hd by lia. rewrite (drop_ge t) in HT by lia. destruct t2 as [|u t2]; [cbn in Hle; lia|]. destruct l2 as [|b l2]; [done|]. inversion S2 as [|? b' ? m2' Sb S2']; subst. cbn [List.head fmap option_fmap option_map]. rewrite <- (sim_nid _ _ Sb).
  pose proof (full_split _ _ _ (ok_full _ _ _ Hok1)) as [_ Hu]. assert (0 < length u)%nat by (destruct u; [done|cbn; lia]).
  destruct (IH q1 m b' m2' T u t2 0%nat 0 (extent - Z.of_nat d)) as (q' & -> & Hr); try done; [by left|lia|rewrite drop_0; cbn [concat] in Hle; lia|rewrite <- (Forall2_length _ _ _ S2'); cbn in Hfuel; lia|]. exists q'. split; [done|]. rewrite take_0, drop_0, HT in Hr. cbn [app] in Hr. rewrite !app_nil_r, <- app_assoc in Hr.
  rewrite drop_app_ge by (rewrite length_drop; lia). cbn [concat]. rewrite length_drop. replace (Z.to_nat extent - (length t - k))%nat with (Z.to_nat (extent - Z.of_nat d)) by lia. done.
Qed.

Lemma quicklistDelRange_spec q ts start cnt : rep q ts -> Z.of_nat (length ts) < 2 ^ 64 -> exists q' b, quicklistDelRange fresh usable base htab q start cnt = Ret (q', b) /\
  match abs_index ts start with
  | Some j => if 0 <? cnt then b = true /\ rep q' (take j ts ++ drop (j + Z.to_nat cnt) ts) else b = false /\ rep q' ts
  | None => b = false /\ rep q' ts
  end.
Proof using Husable Hmem.
  intros Hrep Hbound. pose proof Hrep as (tss & Hok & Ets). unfold quicklistDelRange. destruct (Z.leb_spec cnt 0) as [Hc|Hc]; [eexists q, false; split; [done|]; rewrite (proj2 (Z.ltb_ge _ _)) by lia; by destruct (abs_index ts start)|]. rewrite (proj2 (Z.ltb_lt 0 cnt)) by lia.
  rewrite (ok_total _ _ _ Hok), <- Ets. set (extent := if _ && _ then _ else _). destruct (at_idx q tss false start Hok) as (r & -> & Hr). rewrite <- Ets in Hr. cbn [obind]. destruct (abs_index ts start) as [j|] eqn:Ej; [|subst r; eauto].
  assert (0 < extent /\ extent <= Z.of_nat (length ts - j) /\ drop (j + Z.to_nat cnt) ts = drop (j + Z.to_nat extent) ts) as (He1 & He2 & He3).
  { unfold abs_index in Ej. destruct (_ && _) eqn:Eb in Ej; [|done]. injection Ej as <-. zbool. unfold extent. destruct (Z.ltb_spec start 0) as [Hneg|Hpos].
    - rewrite (proj2 (Z.leb_gt 0 start)) by lia. cbn [andb]. destruct (Z.ltb_spec (- start) cnt); [split; [lia|]; split; [lia|]; by rewrite !drop_ge by lia|split; [lia|]; split; [lia|done]].
    - rewrite (proj2 (Z.leb_le 0 start)) by lia. cbn [andb]. rewrite wrap_small by (unfold in_u; lia). destruct (Z.ltb_spec (Z.of_nat (length ts) - start) cnt); [split; [lia|]; split; [lia|]; by rewrite !drop_ge by lia|split; [lia|]; split; [lia|done]]. }
  destruct Hr as (it & l1 & n & l2 & t1 & t & t2 & k & -> & -> & Hin & Hzi & _ & Hk & Hoff & ->). pose proof Hin as (_ & E & Hl1 & Hcur). cbn [obind]. unfold quicklistReleaseIterator. rewrite Hcur.
  destruct (compress_ok fresh base htab Hmem q None l1 n l2 t1 t t2 Hok E Hl1 (or_introl eq_refl)) as (l & -> & Hs & Hok'). cbn [obind]. rewrite E in Hs. destruct (sims_split_l _ _ _ _ Hs) as (m1 & n' & m2 & -> & S1 & Sn & S2). rewrite <- (sim_nid _ _ Sn). set (q1 := set_nodes q (m1 ++ n' :: m2)) in *.
  assert (drop k t ++ concat t2 = drop (length (concat t1) + k) ts) as Edrop by (rewrite Ets, concat_app; cbn [concat]; rewrite drop_app_ge by lia; rewrite drop_app_le by lia; do 2 f_equal; lia).
  assert (concat t1 ++ take k t = take (length (concat t1) + k) ts) as Etake by (rewrite Ets, concat_app; cbn [concat]; rewrite take_app_ge by lia; f_equal; rewrite take_app_le by lia; f_equal; lia).
  destruct (del_range_spec (length (nodes q1)) q1 m1 n' m2 t1 t t2 k (it_offset it) extent Hok' eq_refl) as (q' & -> & Hr); try done.
  - rewrite <- (Forall2_length _ _ _ S1). done.
  - rewrite Hoff. destruct (start <? 0); lia.
  - rewrite Edrop, length_drop. lia.
  - unfold q1. cbn [nodes set_nodes]. rewrite length_app. cbn [length]. lia.
  - cbn [obind]. exists q', true. split; [done|]. split; [done|]. rewrite He3. rewrite app_assoc, Etake, Edrop, drop_drop in Hr. done.
Qed.

(** ** Comparing *)

Lemma compare_spec q it e al pre post s : cursor q it e al pre post -> quicklistCompare q e s = Ret (bool_decide (value_text (e_value e) = s)).
Proof using.
  intros (t1 & t & t2 & k & (l1 & n & l2 & zi & (Hok & E & Hl1 & Hcur) & Hraw & Hpt & Hzi & Hoff & He1 & He2 & He3 & Hx & Hsv & _) & _ & -> & ->).
  unfold quicklistCompare. rewrite He1, He2, Hcur, Hzi, (node_mid q l1 l2 n E (ch_ids _ _ _ _ (ok_chain _ _ _ Hok))). cbn [obind]. destruct Hpt as [Hk Hp]. destruct (is_plain n) eqn:Hpl; [by destruct (Hsv eq_refl) as [x ->]|].
  apply not_plain in Hpl. rewrite Hpl in Hp. destruct Hp as (lp & El & Hplace). unfold raw. rewrite El. cbn [obind]. rewrite (compare_text lp t k zi s Hplace), Hx. f_equal. apply bool_decide_ext. split; congruence.
Qed.

(** ** Nodes made elsewhere *)

Lemma append_node q ts n us : rep q ts -> nid n = next_nid q -> is_lzf n = false -> recompress n = false -> dont_compress n = false -> body_ok (fill q) n us -> count n = Z.of_nat (length us) -> us <> [] ->
  exists q', _quicklistInsertNodeAfter fresh base htab (snd (quicklistCreateNode q)) (tail (snd (quicklistCreateNode q))) n = Ret q' /\ rep (add_count q' (count n)) (ts ++ us).
Proof using Hmem.
  intros (tss & Hok & ->) H1 H2 H3 H4 Hb Hcn Hus. pose proof Hok as [Hc Hcnt Hfull Htot]. destruct (insert_end fresh base htab Hmem false (snd (quicklistCreateNode q)) tss n us (chain_create _ _ _ _ Hc) ltac:(by eapply created_loose) Hb) as (l & El & Hs & Hc'). cbn [negb end_of] in El.
  unfold _quicklistInsertNodeAfter. rewrite El. eexists. split; [done|]. exists (tss ++ [us]). split; [|rewrite concat_app; cbn; by rewrite app_nil_r]. split; [by apply chain_count| | |].
  - cbn [nodes add_count add_len set_nodes]. rewrite (counts_sim _ _ Hs), fmap_app, lens_app. change (nodes (snd (quicklistCreateNode q))) with (nodes q). rewrite Hcnt. cbn [fmap list_fmap]. by rewrite Hcn.
  - apply Forall_app. split; [done|]. by apply Forall_singleton.
  - cbn. rewrite Htot, Hcn, concat_app, length_app. cbn [concat]. rewrite app_nil_r. lia.
Qed.

Lemma append_plain q ts b : rep q ts -> text_ok b -> exists q', quicklistAppendPlainNode fresh base htab q b = Ret q' /\ rep q' (ts ++ [b]).
Proof using Hmem.
  intros Hr Hb. set (n := set_kind (set_sz (set_count (set_entry (fst (quicklistCreateNode q)) (Raw b)) 1) (Z.of_nat (length b))) PLAIN). destruct (append_node q ts n [b] Hr) as (q' & E & Hr'); try done; [destruct Hb; split; [|done]; by exists b|].
  unfold quicklistAppendPlainNode. change (quicklistCreateNode q) with (fst (quicklistCreateNode q), snd (quicklistCreateNode q)). cbv beta iota. fold n. rewrite E. cbn [obind]. eauto.
Qed.

Lemma append_listpack q ts zl us : rep q ts -> holds zl us -> us <> [] -> small (fill q) us -> exists q', quicklistAppendListpack fresh base htab q zl = Ret q' /\ rep q' (ts ++ us).
Proof using Hmem.
  intros Hr Hh Hus Hs. unfold quicklistAppendListpack. change (quicklistCreateNode q) with (fst (quicklistCreateNode q), snd (quicklistCreateNode q)). cbv beta iota. destruct (length_text zl us Hh) as (zl' & -> & Hh'). cbn [obind].
  set (n := set_sz (set_count (set_entry (fst (quicklistCreateNode q)) (Raw zl')) (Z.of_nat (length us))) (lpBytes zl')). destruct (append_node q ts n us Hr) as (q' & E & Hr'); try done.
  - apply (put_body (fill q) (set_count (fst (quicklistCreateNode q)) (Z.of_nat (length us)))); done.
  - cbn. apply wrap16. destruct Hs as (_ & ? & _). lia.
  - rewrite E. cbn [obind]. eauto.
Qed.

(** ** Copying *)

Lemma compressL_any q p : ids_ok q -> bodies (fill q) (nodes q) -> len q = Z.of_nat (length (nodes q)) -> 0 <= compress q -> ends (fun n => recompress n = false) (nodes q) -> (compress q = 0 -> all_raw (nodes q)) -> p ∈ ids q ->
  exists l, __quicklistCompress fresh base htab q (Some p) = Ret (set_nodes q l) /\ Forall2 sim (nodes q) l /\ (compress q = 0 -> all_raw l) /\ (2 * compress q <= Z.of_nat (length l) -> tight (compress q) l) /\ (Z.of_nat (length l) < 2 * compress q -> l = nodes q).
Proof using Hmem.
  intros Hids Hb Hlen Hc Hends Hraw Hp. destruct (Z.ltb_spec (Z.of_nat (length (nodes q))) (2 * compress q)) as [Hlt|Hge].
  - exists (nodes q). rewrite set_nodes_same. split_and!; try done; [|intros; lia]. unfold __quicklistCompress. rewrite Hlen. destruct (Z.eqb_spec (Z.of_nat (length (nodes q))) 0); [done|]. destruct (head_tail q ltac:(intros E0; rewrite E0 in *; cbn in *; lia)) as (h & t & -> & -> & Eh & Et & [lh Elh] & [lt Elt]). rewrite (node_mid q [] lh h Elh Hids), (node_mid q lt [] t Elt Hids). cbn [obind].
    destruct Hends as [E1 E2]. rewrite (E1 h Eh), (E2 t Et). cbn [orb]. rewrite (proj2 (Z.ltb_lt _ _)), orb_true_r by lia. done.
  - destruct (compressL_spec fresh base htab Hmem q (Some p)) as (l & -> & Hs & Ht); try done; [|by intros ? [= <-]|].
    + destruct (Z.eqb_spec (compress q) 0); [left; auto|right; lia].
    + exists l. pose proof (Forall2_length _ _ _ Hs). split_and!; try done; [|lia]. intros H0. destruct Ht as [_ [?|?]]; [done|lia].
Qed.

(** A copy under way: [R] says that no node of the original is compressed. *)
Record copying (q : quicklist) (R : Prop) (tss : list (list (list Z))) : Prop := {
  cp_ids : ids_ok q;
  cp_body : Forall2 (body_ok (fill q)) (nodes q) tss;
  cp_len : len q = Z.of_nat (length (nodes q));
  cp_compress : 0 <= compress q;
  cp_flags : Forall (fun n => recompress n = false /\ dont_compress n = false) (nodes q);
  cp_counts : count <$> nodes q = lens tss;
  cp_total : total_count q = Z.of_nat (length (concat tss));
  cp_none : compress q = 0 -> all_raw (nodes q);
  cp_tight : 2 * compress q <= Z.of_nat (length (nodes q)) -> tight (compress q) (nodes q);
  cp_short : Z.of_nat (length (nodes q)) < 2 * compress q -> R -> all_raw (nodes q)
}.

Lemma sims_flags l l' : Forall2 sim l l' -> Forall (fun n => recompress n = false /\ dont_compress n = false) l -> Forall (fun n => recompress n = false /\ dont_compress n = false) l'.
Proof using.
  induction 1 as [|a b l l' Hab _ IH]; intros Hf; [done|]. apply Forall_cons in Hf as [[H1 H2] Hf]. constructor; [|by apply IH]. split; [|by rewrite (sim_dont _ _ Hab)]. apply not_true_iff_false. intros Hr. apply (sim_re _ _ Hab) in Hr. congruence.
Qed.

Lemma ends_flags l : Forall (fun n => recompress n = false /\ dont_compress n = false) l -> ends (fun n => recompress n = false) l.
Proof using. intros H. apply ends_all. eapply Forall_impl; [exact H|]. by intros n [? _]. Qed.

(** One node of the copy. *)
Lemma copy_compress q q1 p : q1 = q -> ids_ok q -> bodies (fill q) (nodes q) -> len q = Z.of_nat (length (nodes q)) -> 0 <= compress q -> Forall (fun n => recompress n = false /\ dont_compress n = false) (nodes q) -> (compress q = 0 -> all_raw (nodes q)) -> p ∈ ids q ->
  exists l, compressQ q1 p = Ret (set_nodes q l) /\ Forall2 sim (nodes q) l /\ (compress q = 0 -> all_raw l) /\ (2 * compress q <= Z.of_nat (length l) -> tight (compress q) l) /\ (Z.of_nat (length l) < 2 * compress q -> l = nodes q).
Proof using Hmem.
  intros -> Hids Hb Hlen Hc Hf Hraw Hp. destruct (in_chain q p Hp) as (l1 & n & l2 & E & ->). unfold quicklistCompress. rewrite (node_mid q l1 l2 n E Hids). cbn [obind]. assert (recompress n = false) as -> by (rewrite E in Hf; apply Forall_app in Hf as [_ Hf]; by apply Forall_cons in Hf as [[? _] _]).
  apply compressL_any; try done. by apply ends_flags.
Qed.

Lemma copy_insert q R tss new us : copying q R tss -> nid new = next_nid q -> recompress new = false -> dont_compress new = false -> body_ok (fill q) new us -> count new = Z.of_nat (length us) -> (compress q = 0 -> is_lzf new = false) -> (R -> is_lzf new = false) ->
  exists q', _quicklistInsertNodeAfter fresh base htab (add_count (snd (quicklistCreateNode q)) (count new)) (tail (snd (quicklistCreateNode q))) new = Ret q' /\ copying q' R (tss ++ [us]) /\ fill q' = fill q /\ compress q' = compress q.
Proof using Hmem.
  intros [Hids Hbody Hlen Hc Hf Hcnt Htot Hnone Htight Hshort] Hi Hre Hdo Hb Hcn Hz HR. unfold _quicklistInsertNodeAfter, __quicklistInsertNode.
  set (q0 := add_count (snd (quicklistCreateNode q)) (count new)). set (q1 := add_len (set_nodes q0 (nodes q ++ [new])) 1).
  assert (nid new ∉ ids q) as Hnew by (destruct Hids as [_ Hfr]; intros Hin; rewrite Forall_forall in Hfr; specialize (Hfr _ Hin); cbn in Hfr; lia).
  assert (ids_ok q1) as Hids1. { destruct Hids as [Hn Hfr]. split; unfold ids, q1; cbn; rewrite fmap_app; [apply NoDup_app; split; [done|]; split; [|apply NoDup_singleton]; intros x Hx Hx'; apply list_elem_of_singleton in Hx'; cbn in Hx'; subst; done|]. apply Forall_app. split; [eapply Forall_impl; [exact Hfr|]; cbn; lia|]. apply Forall_singleton. cbn. lia. }
  assert (Forall2 (body_ok (fill q1)) (nodes q1) (tss ++ [us])) as Hbody1 by (apply Forall2_app; [done|]; by constructor). assert (Forall (fun n => recompress n = false /\ dont_compress n = false) (nodes q1)) as Hf1 by (apply Forall_app; split; [done|]; by apply Forall_singleton).
  assert (len q1 = Z.of_nat (length (nodes q1))) as Hlen1 by (cbn; rewrite Hlen, length_app; cbn; lia). assert (compress q1 = 0 -> all_raw (nodes q1)) as Hnone1 by (intros H0; apply all_raw_app; split; [by apply Hnone|]; apply Forall_singleton; by apply Hz).
  assert (nid new ∈ ids q1) as Hin1 by (unfold ids; cbn; rewrite fmap_app; apply elem_of_app; right; left).
  assert (exists l, (let* l := match tail (snd (quicklistCreateNode q)) with None => match nodes q0 with [] => Ret [new] | _ => Abort end | Some p => let* i := find_node p (nodes q0) in Ret (take (S i) (nodes q0) ++ new :: drop (S i) (nodes q0)) end in
      let* q := match tail (snd (quicklistCreateNode q)) with Some p => compressQ (add_len (set_nodes q0 l) 1) p | None => Ret (add_len (set_nodes q0 l) 1) end in compressQ q (nid new)) = Ret (set_nodes q1 l) /\ Forall2 sim (nodes q1) l /\ (compress q = 0 -> all_raw l) /\ (2 * compress q <= Z.of_nat (length l) -> tight (compress q) l) /\ (Z.of_nat (length l) < 2 * compress q -> l = nodes q1)) as (l & El & Hs & H0 & H1 & H2).
  { change (tail (snd (quicklistCreateNode q))) with (tail q). change (nodes q0) with (nodes q). destruct (decide (nodes q = [])) as [E0|Hne].
    - unfold tail. rewrite E0. cbn [last fmap option_fmap option_map obind]. assert (add_len (set_nodes q0 [new]) 1 = q1) as -> by (unfold q1; by rewrite E0). apply (copy_compress q1 q1 (nid new)); try done. by eapply bodies_of.
    - destruct (head_tail q Hne) as (_ & t & _ & -> & _ & _ & _ & [lt Elt]). rewrite (find_node_mid q lt [] t Elt Hids). cbn [obind]. rewrite Elt. replace (S (length lt)) with (length (lt ++ [t])) by (rewrite length_app; cbn; lia). rewrite firstn_all, drop_all, <- Elt. fold q1.
      destruct (copy_compress q1 q1 (nid t) eq_refl) as (l1 & -> & S1 & A1 & A2 & A3); try done; [by eapply bodies_of|unfold ids; cbn; rewrite Elt, !fmap_app; rewrite !elem_of_app; left; right; left|]. cbn [obind].
      destruct (copy_compress (set_nodes q1 l1) _ (nid new) eq_refl) as (l2 & -> & S2 & B1 & B2 & B3).
      + by apply ids_ok_sim.
      + eapply bodies_sim; [exact S1|]. by eapply bodies_of.
      + cbn [nodes set_nodes len]. rewrite <- (Forall2_length _ _ _ S1). done.
      + done.
      + by eapply sims_flags.
      + done.
      + unfold ids. cbn [nodes set_nodes]. rewrite (ids_sim _ _ S1). done.
      + cbn [nodes set_nodes compress] in *. exists l2. split; [done|]. split; [by eapply sims_trans|]. split; [done|]. split; [done|]. intros Hlt. rewrite B3 by done. apply A3. by rewrite (Forall2_length _ _ _ S2). }
  eexists. split; [exact El|]. pose proof (Forall2_length _ _ _ Hs) as Hll. split; [|done]. split; cbn [nodes set_nodes fill compress len total_count]; try done.
  - by apply ids_ok_sim.
  - by eapply body_sims.
  - cbn in Hlen1 |- *. rewrite <- Hll. done.
  - by eapply sims_flags.
  - rewrite (counts_sim _ _ Hs). cbn [nodes q1 set_nodes add_len]. rewrite fmap_app, lens_app, Hcnt. cbn [fmap list_fmap]. by rewrite Hcn.
  - cbn. rewrite Htot, Hcn, concat_app, length_app. cbn [concat]. rewrite app_nil_r. lia.
  - intros Hlt Hr. rewrite H2 by done. apply all_raw_app. split; [apply Hshort; [|done]|apply Forall_singleton; by apply HR]. rewrite <- Hll in Hlt. cbn in Hlt. rewrite length_app in Hlt. cbn in Hlt. change (compress q1) with (compress q) in Hlt. lia.
Qed.

Lemma count_range f n ts : body_ok f n ts -> Z.of_nat (length ts) < 2 ^ 16.
Proof using. intros [Hb _]. destruct (kind n); [destruct Hb as (x & -> & _); cbn; lia|]. destruct Hb as (es & _ & _ & (_ & ? & _)). lia. Qed.

(** What a node holds, without the bytes after it. *)
Lemma copied_body f n ts n' : body_ok f n ts -> entry n' = match entry n with LZF b => LZF b | Raw b => Raw (take (Z.to_nat (sz n)) b) end -> sz n' = sz n -> kind n' = kind n -> recompress n' = false -> body_ok f n' ts.
Proof using.
  intros [Hb _] He Hs Hk Hr. split; [|done]. rewrite Hk. destruct (kind n).
  - destruct Hb as (t & -> & (Hsz & Hby & Hent) & Hlt). exists t. split; [done|]. split; [|done]. split; [congruence|]. split; [done|]. rewrite He. destruct (entry n) as [b|]; [|done]. subst b. by rewrite Hsz, Nat2Z.id, firstn_all.
  - destruct Hb as (es & (Hsz & Hent) & -> & Hsm). exists es. split; [|done]. split; [congruence|]. rewrite He. destruct (entry n) as [b|]; [|done]. rewrite Hsz. apply (listpack_bytes b es Hent).
Qed.

Lemma dup_nodes_spec R ns : forall q tss uss, copying q R tss -> Forall2 (body_ok (fill q)) ns uss -> count <$> ns = lens uss -> (compress q = 0 -> all_raw ns) -> (R -> all_raw ns) ->
  exists q', dup_nodes fresh base htab ns q = Ret q' /\ copying q' R (tss ++ uss) /\ compress q' = compress q.
Proof using Hmem.
  induction ns as [|c ns IH]; intros q tss uss Hcp Hb Hcnt Hz HR; inversion Hb as [|? us ? uss' Hbc Hbs]; subst; [exists q; by rewrite app_nil_r|]. cbn [dup_nodes].
  change (quicklistCreateNode q) with (fst (quicklistCreateNode q), snd (quicklistCreateNode q)). cbv beta iota. set (n := set_kind _ _). injection Hcnt as Hc Hcnt. pose proof (count_range _ _ _ Hbc) as Hr. assert (count n = Z.of_nat (length us)) as Hn by (cbn; rewrite Hc; apply wrap16; lia).
  assert (is_lzf n = is_lzf c) as Hl by (unfold is_lzf; cbn; by destruct (entry c)).
  destruct (copy_insert q R tss n us Hcp) as (q1 & -> & Hcp1 & Hf1 & Hco1); try done.
  - by eapply (copied_body _ c).
  - rewrite Hl. intros H0. specialize (Hz H0). by apply Forall_cons in Hz as [? _].
  - rewrite Hl. intros H0. specialize (HR H0). by apply Forall_cons in HR as [? _].
  - cbn [obind]. destruct (IH q1 (tss ++ [us]) uss' Hcp1) as (q' & -> & Hcp' & Hco'); [by rewrite Hf1|done|intros H0; rewrite Hco1 in H0; specialize (Hz H0); by apply Forall_cons in Hz as [_ ?]|intros H0; specialize (HR H0); by apply Forall_cons in HR as [_ ?]|].
    exists q'. split; [done|]. split; [by rewrite <- app_assoc in Hcp'|congruence].
Qed.

(** The options a quicklist is given are within the limits. *)
Definition options_ok (q : quicklist) : Prop := -5 <= fill q <= FILL_MAX /\ 0 <= compress q <= COMPRESS_MAX.

Lemma dup_spec q ts : rep q ts -> options_ok q -> exists q', quicklistDup fresh base htab q = Ret q' /\ rep q' ts.
Proof using Hmem.
  intros (tss & [Hc Hcnt Hfull Htot] & ->) [Hof Hoc]. unfold quicklistDup.
  assert (quicklistNew (fill q) (compress q) = Quicklist_ [] 0 0 (fill q) (compress q) 0) as ->.
  { unfold quicklistNew, quicklistSetOptions, quicklistSetFill, quicklistSetCompressDepth. cbn [fill compress quicklistCreate nodes total_count len next_nid]. rewrite !(proj2 (Z.ltb_ge _ _)) by lia. done. }
  set (q0 := Quicklist_ [] 0 0 (fill q) (compress q) 0). pose proof (ch_tight _ _ _ _ Hc) as Ht.
  assert (copying q0 (all_raw (nodes q)) []) as Hcp by (split; cbn; try done; try (intros; apply tight_raw); try (intros; apply Forall_nil_2); try apply Forall2_nil_2; try lia; split; cbn; [apply NoDup_nil_2|apply Forall_nil_2]).
  destruct (dup_nodes_spec (all_raw (nodes q)) (nodes q) q0 [] tss Hcp (ch_body _ _ _ _ Hc) Hcnt) as (q' & -> & [Ci Cb Cl Cc Cf Cn Ct C0 C1 C2] & Hco); [intros H0; destruct Ht as [_ [?|?]]; [done|cbn in H0; lia]|done|].
  exists q'. split; [done|]. exists tss. split; [|done]. split; try done. split; try done.
  - assert (length (nodes q') = length (nodes q)) as Hll by (rewrite (Forall2_length _ _ _ Cb), (Forall2_length _ _ _ (ch_body _ _ _ _ Hc)); done). change (compress q0) with (compress q) in Hco.
    destruct (Z.ltb_spec (Z.of_nat (length (nodes q'))) (2 * compress q')) as [Hlt|Hge]; [|by apply C1]. apply tight_raw, C2; [done|]. destruct Ht as [_ [?|?]]; [done|]. rewrite Hll, Hco in Hlt. lia.
  - apply flags_free. eapply Forall_impl; [exact Cf|]. by intros n [? _].
  - eapply Forall_impl; [exact Cf|]. cbn. intros n [_ ->]. done.
Qed.
End Range.

End QuicklistRange.
