(* ===== verification/QuicklistMain.v ===== *)
(** * QuicklistMain: quicklists are lists (quicklist.c)

    Runs of the operations refine lists of strings; what a quicklist looks like after any
    run; sweeps that delete on the way; copies. *)
From S2P Require Import Prelude NumStr Lzf LpEntry Listpack LpBulk StrObj Quicklist QuicklistSpec QuicklistElems QuicklistOps QuicklistIter QuicklistEdit QuicklistInsert QuicklistReplace QuicklistRange.
Import NumStr LpEntry Listpack LpBulk Quicklist QuicklistSpec QuicklistElems QuicklistOps QuicklistIter QuicklistEdit QuicklistInsert QuicklistReplace QuicklistRange.

Module QuicklistMain.

(** ** Operations *)

Inductive qop :=
  | Push (v : list Z) (at_head : bool)
  | Pop (at_head : bool)
  | Index (idx : Z)
  | InsertAt (idx : Z) (v : list Z) (after : bool)
  | ReplaceAt (idx : Z) (v : list Z)
  | DelRange (start cnt : Z)
  | AppendPlain (v : list Z).

Inductive qout := Done | Got (t : option (list Z)) | Flag (b : bool).

Section Exec.
Context (fresh : nat -> Z) (usable : nat -> nat) (base : list Z -> Z) (htab : list Z -> Z -> Z).

(** A client's call: the element of an index is looked up, used and released. *)
Definition exec (q : quicklist) (o : qop) : outcome (quicklist * qout) :=
  match o with
  | Push v at_head => let* q := quicklistPush fresh usable base htab 0 q v at_head in Ret (q, Done)
  | Pop at_head => let* (q, r) := quicklistPopCustom fresh usable base htab q at_head in Ret (q, Got (value_text <$> r))
  | Index idx =>
      let* (q, r) := quicklistGetIteratorEntryAtIdx fresh base htab q idx in
      match r with
      | None => Ret (q, Got None)
      | Some (it, e) => let* q := quicklistReleaseIterator fresh base htab q it in Ret (q, Got (Some (value_text (e_value e))))
      end
  | InsertAt idx v after =>
      let* (q, r) := quicklistGetIteratorEntryAtIdx fresh base htab q idx in
      match r with
      | None => Ret (q, Flag false)
      | Some (it, e) =>
          let* (q, it) := _quicklistInsert fresh usable base htab 0 q it e v after in
          let* q := quicklistReleaseIterator fresh base htab q it in
          Ret (q, Flag true)
      end
  | ReplaceAt idx v => let* (q, b) := quicklistReplaceAtIndex fresh usable base htab 0 q idx v in Ret (q, Flag b)
  | DelRange start cnt => let* (q, b) := quicklistDelRange fresh usable base htab q start cnt in Ret (q, Flag b)
  | AppendPlain v => let* q := quicklistAppendPlainNode fresh base htab q v in Ret (q, Done)
  end.

Fixpoint exec_all (q : quicklist) (os : list qop) : outcome (quicklist * list qout) :=
  match os with
  | [] => Ret (q, [])
  | o :: os => let* (q, r) := exec q o in let* (q, rs) := exec_all q os in Ret (q, r :: rs)
  end.

(** Walking over all elements from one end, deleting those that [f] picks. *)
Fixpoint sweep (fuel : nat) (q : quicklist) (it : quicklistIter) (f : list Z -> bool) : outcome (quicklist * quicklistIter * list (list Z)) :=
  match fuel with
  | O => Abort
  | S fuel =>
      let* (r, e) := quicklistNext fresh base htab q it in
      match e with
      | None => Ret (r, [])
      | Some e =>
          let* (q, it) := if f (value_text (e_value e)) then quicklistDelEntry fresh usable base htab (fst r) (snd r) e else Ret r in
          let* (r, seen) := sweep fuel q it f in
          Ret (r, value_text (e_value e) :: seen)
      end
  end.
End Exec.

(** ** Lists *)

Definition list_pop (at_head : bool) (ts : list (list Z)) : list (list Z) * option (list Z) :=
  if at_head then match ts with [] => ([], None) | t :: ts => (ts, Some t) end
  else (removelast ts, last ts).

Definition spec_exec (ts : list (list Z)) (o : qop) : list (list Z) * qout :=
  match o with
  | Push v true => (v :: ts, Done)
  | Push v false | AppendPlain v => (ts ++ [v], Done)
  | Pop at_head => let '(ts, r) := list_pop at_head ts in (ts, Got r)
  | Index idx => (ts, Got (abs_index ts idx ≫= fun i => ts !! i))
  | InsertAt idx v after =>
      match abs_index ts idx with
      | None => (ts, Flag false)
      | Some i => let i := if after then S i else i in (take i ts ++ v :: drop i ts, Flag true)
      end
  | ReplaceAt idx v => match abs_index ts idx with None => (ts, Flag false) | Some i => (<[i := v]> ts, Flag true) end
  | DelRange start cnt =>
      match abs_index ts start with
      | Some i => if 0 <? cnt then (take i ts ++ drop (i + Z.to_nat cnt) ts, Flag true) else (ts, Flag false)
      | None => (ts, Flag false)
      end
  end.

Fixpoint spec_all (ts : list (list Z)) (os : list qop) : list (list Z) * list qout :=
  match os with
  | [] => (ts, [])
  | o :: os => let '(ts, r) := spec_exec ts o in let '(ts, rs) := spec_all ts os in (ts, r :: rs)
  end.

Definition op_ok (o : qop) : Prop :=
  match o with Push v _ | InsertAt _ v _ | ReplaceAt _ v | AppendPlain v => text_ok v | _ => True end.

Lemma spec_exec_length ts o : (length (fst (spec_exec ts o)) <= S (length ts))%nat.
Proof.
  destruct o as [v [|]|[|]|idx|idx v after|idx v|start cnt|v]; cbn; rewrite ?length_app; cbn; try lia.
  - destruct ts; cbn; lia.
  - pose proof (removelast_firstn_len ts) as ->. rewrite length_take. lia.
  - destruct (abs_index ts idx) as [i|]; cbn; [|lia]. rewrite length_app. cbn. rewrite length_take, length_drop. destruct after; lia.
  - destruct (abs_index ts idx); cbn; rewrite ?length_insert; lia.
  - destruct (abs_index ts start); cbn; [|lia]. destruct (0 <? cnt); cbn; rewrite ?length_app, ?length_take, ?length_drop; lia.
Qed.

Section Main.
Context (fresh : nat -> Z) (usable : nat -> nat) (base : list Z -> Z) (htab : list Z -> Z -> Z).
Context (Husable : forall n, (n <= usable n)%nat) (Hmem : memory_ok base htab).

Lemma new_rep f d : rep (quicklistNew f d) [].
Proof using.
  exists []. split; [|done]. assert (0 <= compress (quicklistNew f d)) as Hc by (unfold quicklistNew, quicklistSetOptions, quicklistSetCompressDepth; cbn [compress]; repeat case_bool; unfold COMPRESS_MAX; lia).
  split; [|done|apply Forall_nil_2|done]. split; try done; [split; [apply NoDup_nil_2|apply Forall_nil_2]|apply tight_raw, Forall_nil_2|apply flags_free, Forall_nil_2|apply Forall_nil_2].
Qed.

Lemma push_rep q ts v at_head : rep q ts -> text_ok v -> exists q', quicklistPush fresh usable base htab 0 q v at_head = Ret q' /\ rep q' (put_end at_head v ts).
Proof using Husable Hmem.
  intros (tss & Hok & ->) Hv. unfold quicklistPush, quicklistPushHead, quicklistPushTail. assert (forall (b : bool) p, (if b then head q else tail q) = p -> exists r, node_of q p = Ret r /\ match r with Some n => is_lzf n | None => false end = false) as Hends.
  { intros b p <-. fold (end_of b q). destruct (decide (nodes q = [])) as [E0|Hne]; [exists None; split; [|done]; unfold end_of, head, tail; rewrite E0; by destruct b|]. destruct (end_raw b q None None tss (ok_chain _ _ _ Hok) Hne) as (l1 & n & l2 & -> & E & Hraw & _). exists (Some n). cbn [node_of]. rewrite (node_mid q l1 l2 n E (ch_ids _ _ _ _ (ok_chain _ _ _ Hok))). done. }
  destruct (Hends true _ eq_refl) as (h & -> & Hh), (Hends false _ eq_refl) as (t & -> & Ht). cbn [obind]. rewrite Hh, Ht. cbn [orb].
  destruct (push_spec fresh usable base htab Husable Hmem at_head q tss v Hok Hv) as (q' & tss' & E & Hok' & Hc). exists q'. split; [by destruct at_head|]. by exists tss'.
Qed.

Lemma pop_rep q ts at_head : rep q ts -> exists q' v, quicklistPopCustom fresh usable base htab q at_head = Ret (q', v) /\ rep q' (fst (list_pop at_head ts)) /\ value_text <$> v = snd (list_pop at_head ts).
Proof using Husable Hmem.
  intros (tss & Hok & ->). destruct (pop_spec fresh usable base htab Husable Hmem at_head q tss Hok) as (q' & v & -> & Hp). exists q', v. split; [done|]. destruct (decide (concat tss = [])) as [E0|Hne].
  - destruct Hp as [-> ->]. rewrite E0. assert (rep q []) as Hr by (exists tss; done). by destruct at_head.
  - destruct Hp as (t & rest & tss' & -> & -> & Hok' & <- & _). unfold list_pop, put_end. destruct at_head; [split; [by exists tss'|done]|]. rewrite removelast_last, last_snoc. split; [by exists tss'|done].
Qed.

Lemma exec_rep q ts o : rep q ts -> op_ok o -> Z.of_nat (length ts) < 2 ^ 63 -> exists q', exec fresh usable base htab q o = Ret (q', snd (spec_exec ts o)) /\ rep q' (fst (spec_exec ts o)).
Proof using Husable Hmem.
  intros Hr Ho Hl. destruct o as [v at_head|at_head|idx|idx v after|idx v|start cnt|v]; cbn [exec op_ok] in *.
  - destruct (push_rep q ts v at_head Hr Ho) as (q' & -> & Hr'). cbn [obind]. exists q'. by destruct at_head.
  - destruct (pop_rep q ts at_head Hr) as (q' & x & -> & Hr' & Hx). cbn [obind]. exists q'. rewrite Hx. cbn [spec_exec]. by destruct (list_pop at_head ts).
  - destruct (entry_at_idx fresh base htab q ts idx Hr) as (q1 & [[it e]|] & -> & Hent); cbn [obind spec_exec fst snd].
    + destruct Hent as (pre & post & -> & Hi & Hcur). destruct (release_cursor fresh base htab Hmem q1 it e false pre post Hcur) as (q2 & -> & Hr2). cbn [obind]. exists q2. rewrite Hi. cbn. by rewrite list_lookup_middle.
    + destruct Hent as [-> ->]. by exists q.
  - destruct (entry_at_idx fresh base htab q ts idx Hr) as (q1 & [[it e]|] & -> & Hent); cbn [obind spec_exec].
    + destruct Hent as (pre & post & -> & Hi & Hcur). destruct (insert_rep fresh usable base htab Husable Hmem q1 it e false pre post v after Hcur Ho) as (q2 & it2 & -> & Hidle & Hr2). cbn [obind]. destruct (release_idle fresh base htab Hmem q2 it2 _ Hr2 Hidle) as (q3 & -> & Hr3). cbn [obind]. exists q3. rewrite Hi. cbn [fst snd]. split; [done|].
      destruct after; [|by rewrite take_app_length, drop_app_length]. replace (S (length pre)) with (length (pre ++ [value_text (e_value e)])) by (rewrite length_app; cbn; lia). rewrite (app_assoc pre [_] post : pre ++ value_text (e_value e) :: post = _), take_app_length, drop_app_length. by rewrite <- app_assoc.
    + destruct Hent as [-> ->]. by exists q.
  - destruct (replace_at_index fresh usable base htab Husable Hmem q ts idx v Hr Ho) as (q' & b & -> & Hb). cbn [obind spec_exec]. exists q'. destruct (abs_index ts idx); by destruct Hb as [-> ?].
  - destruct (quicklistDelRange_spec fresh usable base htab Husable Hmem q ts start cnt Hr ltac:(lia)) as (q' & b & -> & Hb). cbn [obind spec_exec]. exists q'. destruct (abs_index ts start); [destruct (0 <? cnt)|]; by destruct Hb as [-> ?].
  - destruct (append_plain fresh base htab Hmem q ts v Hr Ho) as (q' & -> & Hr'). cbn [obind]. by exists q'.
Qed.

Lemma exec_all_rep os : forall q ts, rep q ts -> Forall op_ok os -> Z.of_nat (length ts + length os) < 2 ^ 63 ->
  exists q', exec_all fresh usable base htab q os = Ret (q', snd (spec_all ts os)) /\ rep q' (fst (spec_all ts os)).
Proof using Husable Hmem.
  induction os as [|o os IH]; intros q ts Hr Ho Hl; cbn [exec_all spec_all]; [by exists q|]. apply Forall_cons in Ho as [Ho Hos]. cbn [length] in Hl. destruct (exec_rep q ts o Hr Ho ltac:(lia)) as (q1 & -> & Hr1). cbn [obind]. pose proof (spec_exec_length ts o) as Hlen.
  destruct (spec_exec ts o) as [ts1 r]. cbn [fst snd] in *. destruct (IH q1 ts1 Hr1 Hos ltac:(lia)) as (q2 & -> & Hr2). cbn [obind]. exists q2. by destruct (spec_all ts1 os).
Qed.

(** ** Sweeps *)

(** Between [A] and [B], whether the iterator stands at an element or waits. *)
Definition between (q : quicklist) (it : quicklistIter) (A B : list (list Z)) : Prop :=
  ready q it A B \/ exists e pre post, cursor q it e true pre post /\
    if from_head it then A = pre ++ [value_text (e_value e)] /\ B = post else A = pre /\ B = value_text (e_value e) :: post.

Lemma next_between q it A B : between q it A B -> exists q' it' r, quicklistNext fresh base htab q it = Ret (q', it', r) /\ from_head it' = from_head it /\ lands q' it' r true A B.
Proof using Hmem.
  intros [Hr|(e & pre & post & Hc & Hab)]; [by apply next_ready|]. destruct (next_cursor fresh base htab Hmem q it e true pre post Hc) as (q' & it' & r & -> & Hd & Hl). exists q', it', r. split; [done|]. split; [done|]. destruct (from_head it); destruct Hab as [-> ->]; done.
Qed.

Definition keep (f : list Z -> bool) (l : list (list Z)) : list (list Z) := List.filter (fun x => negb (f x)) l.

Lemma keep_snoc f l x : keep f (l ++ [x]) = keep f l ++ (if f x then [] else [x]).
Proof using. unfold keep. rewrite List.filter_app. cbn. by destruct (f x). Qed.

Lemma sweep_spec f fuel : forall q it A B, between q it A B -> ((if from_head it then length B else length A) < fuel)%nat ->
  exists q' it', sweep fresh usable base htab fuel q it f = Ret (q', it', if from_head it then B else rev A) /\ rep q' (if from_head it then A ++ keep f B else keep f A ++ B).
Proof using Husable Hmem.
  induction fuel as [|fuel IH]; intros q it A B Hb Hf; [lia|]. cbn [sweep]. destruct (next_between q it A B Hb) as (q1 & it1 & r & -> & Hd & Hl). cbn [obind fst snd]. unfold lands in Hl. rewrite Hd in Hl. destruct r as [e|].
  2:{ destruct Hl as (He & _ & Hr). exists q1, it1. destruct (from_head it); subst; cbn; rewrite ?app_nil_r in *; done. }
  set (x := value_text (e_value e)) in *.
  assert (exists pre post, (if from_head it then B = x :: post /\ pre = A else A = pre ++ [x] /\ post = B) /\ cursor q1 it1 e true pre post) as (pre & post & Hab & Hcur) by (destruct (from_head it); destruct Hl as (l & -> & ?); eauto).
  assert (exists q2 it2 A2 B2, (if f x then quicklistDelEntry fresh usable base htab q1 it1 e else Ret (q1, it1)) = Ret (q2, it2) /\ from_head it2 = from_head it /\ between q2 it2 A2 B2 /\
    if from_head it then A2 = A ++ (if f x then [] else [x]) /\ B2 = post else A2 = pre /\ B2 = (if f x then [] else [x]) ++ B) as (q2 & it2 & A2 & B2 & -> & Hd2 & Hb2 & Hab2).
  { destruct (f x).
    - destruct (del_entry fresh usable base htab Husable Hmem q1 it1 e pre post Hcur) as (q2 & it2 & -> & Hd2 & Hr2). exists q2, it2, pre, post. split; [done|]. split; [congruence|]. split; [by left|]. destruct (from_head it); destruct Hab as [? ->]; by rewrite ?app_nil_r.
    - exists q1, it1, (if from_head it then pre ++ [x] else pre), (if from_head it then post else x :: post). split; [done|]. split; [done|]. split; [right; exists e, pre, post; split; [done|]; rewrite Hd; by destruct (from_head it)|]. destruct (from_head it); destruct Hab as [? ->]; done. }
  cbn [obind]. destruct (IH q2 it2 A2 B2 Hb2) as (q' & it' & -> & Hr'); [rewrite Hd2; destruct (from_head it); destruct Hab as [-> ?], Hab2 as [-> ->]; rewrite ?length_app in Hf; cbn in Hf; lia|]. cbn [obind]. rewrite Hd2 in Hr' |- *. exists q', it'. destruct (from_head it); destruct Hab as [-> ?], Hab2 as [-> ->].
  - split; [done|]. cbn [keep List.filter] in *. unfold keep in *. cbn [List.filter]. destruct (f x); cbn [negb]; [by rewrite app_nil_r in Hr'|by rewrite <- app_assoc in Hr'].
  - split; [by rewrite rev_unit|]. rewrite keep_snoc, <- app_assoc. done.
Qed.
End Main.

(** ** What a quicklist looks like *)

Definition node_wf (n : quicklistNode) : Prop :=
  0 < count n < 2 ^ 16 /\ recompress n = false /\ dont_compress n = false /\
  exists b, match entry n with Raw b' => b = take (Z.to_nat (sz n)) b' | LZF c => unpacks c b end /\ Z.of_nat (length b) = sz n /\
    match kind n with PLAIN => count n = 1 | PACKED => exists es, listpack b es /\ count n = Z.of_nat (length es) end.

Record well_formed (q : quicklist) : Prop := {
  wf_ids : NoDup (nid <$> nodes q);
  wf_len : len q = Z.of_nat (length (nodes q));
  wf_total : total_count q = foldr Z.add 0 (count <$> nodes q);
  wf_nodes : Forall node_wf (nodes q);
  wf_ends : forall n, List.head (nodes q) = Some n \/ last (nodes q) = Some n -> is_lzf n = false;
  wf_deep : Exists (fun n => is_lzf n = true) (nodes q) -> 0 < compress q /\ 2 * compress q < Z.of_nat (length (nodes q))
}.

Lemma body_wf f n ts : body_ok f n ts -> count n = Z.of_nat (length ts) -> ts <> [] -> recompress n = false -> dont_compress n = false -> node_wf n.
Proof.
  intros Hb Hc Hne Hr Hd. pose proof (count_range f n ts Hb). split; [destruct ts; [done|cbn [length] in *; lia]|]. split; [done|]. split; [done|]. destruct Hb as [Hb _]. destruct (kind n).
  - destruct Hb as (t & -> & (Hs & _ & He) & _). exists t. split; [|done]. destruct (entry n); [subst; by rewrite Hs, Nat2Z.id, firstn_all|done].
  - destruct Hb as (es & (Hs & He) & -> & _). rewrite length_fmap in Hc. rewrite Hs. destruct (entry n) as [b|c].
    + destruct (listpack_bytes b es He) as (_ & _ & H1 & H2). exists (take (Z.to_nat (total es)) b). split; [done|]. pose proof (total_pos es). split; [lia|]. by exists es.
    + destruct He as (b & H1 & H2 & H3). exists b. split; [done|]. split; [done|]. by exists es.
Qed.

Lemma lens_sum tss : foldr Z.add 0 (lens tss) = Z.of_nat (length (concat tss)).
Proof. induction tss as [|t tss IH]; [done|]. cbn [lens fmap list_fmap foldr concat]. rewrite length_app. unfold lens in IH. rewrite IH. lia. Qed.

Lemma rep_wf q ts : rep q ts -> well_formed q.
Proof.
  intros (tss & Hok & ->). pose proof Hok as [Hc Hcnt Hfull Htot]. split.
  - apply (ch_ids _ _ _ _ Hc).
  - apply (ch_len _ _ _ _ Hc).
  - by rewrite Hcnt, lens_sum.
  - apply Forall_forall. intros n Hn. pose proof (good_quiet q None tss n (ok_good _ _ _ Hok) Hn) as Hr. pose proof (ch_donts _ _ _ _ Hc) as Hd. unfold donts in Hd. rewrite Forall_forall in Hd. specialize (Hd n Hn). apply list_elem_of_split in Hn as (l1 & l2 & E). destruct (ok_body q None tss l1 n l2 Hok E) as (t1 & t & t2 & -> & Hl1 & _).
    destruct (ok_at q None l1 n l2 t1 t t2 Hok E Hl1) as (Hb & Hcn & Ht & _). eapply body_wf; try done. apply not_true_iff_false. intros Hd'. by specialize (Hd Hd').
  - destruct (ch_tight _ _ _ _ Hc) as [[H1 H2] _]. intros n [?|?]; auto.
  - destruct (ch_tight _ _ _ _ Hc) as [_ [H|H]]; [|intros _; lia]. intros He. exfalso. apply Exists_exists in He as (n & Hn & Hz). unfold all_raw in H. rewrite Forall_forall in H. rewrite (H n Hn) in Hz. done.
Qed.

Definition machine (usable : nat -> nat) (base : list Z -> Z) (htab : list Z -> Z -> Z) : Prop := (forall n, (n <= usable n)%nat) /\ memory_ok base htab.

(** ** Theorems *)

(** C10: a quicklist is a list.  Whatever the fill factor and the compression depth, a run of
    pushes, pops, lookups by index, insertions next to an element, replacements and
    deletions of ranges on a new quicklist gives the answers a list of strings gives, and
    the quicklist then represents that list; no assertion fails, no compressed node is read
    as it is, no pointer is followed that is not in the chain, and every loop ends. *)
Theorem quicklist_refines fresh usable base htab f d os : machine usable base htab -> Forall op_ok os -> Z.of_nat (length os) < 2 ^ 63 ->
  exists q, exec_all fresh usable base htab (quicklistNew f d) os = Ret (q, snd (spec_all [] os)) /\ rep q (fst (spec_all [] os)).
Proof. intros [Hu Hm] Ho Hl. by apply exec_all_rep; [..|apply new_rep| |]. Qed.

(** C11: what every operation keeps.  After any run the nodes have different addresses, the
    counters of the quicklist and of the nodes are right, no node is empty or marked, each
    node holds a well-formed listpack of as many elements as it says, or one plain element,
    or LZF data that decompresses to that in exactly [sz] bytes; the head and the tail are
    never compressed, and nodes are compressed only if the list is longer than twice the depth. *)
Theorem quicklist_well_formed fresh usable base htab f d os q rs : machine usable base htab -> Forall op_ok os -> Z.of_nat (length os) < 2 ^ 63 ->
  exec_all fresh usable base htab (quicklistNew f d) os = Ret (q, rs) -> well_formed q.
Proof.
  intros [Hu Hm] Ho Hl E. destruct (exec_all_rep fresh usable base htab Hu Hm os (quicklistNew f d) [] (new_rep f d) Ho Hl) as (q' & E' & Hr). rewrite E in E'. injection E' as -> _. by eapply rep_wf.
Qed.

(** C12: sweeps.  An iterator over a quicklist that represents [ts] visits every element once,
    in order from the head or in reverse order from the tail, and stops, also when
    elements, and with them whole nodes, are deleted as they are visited; what is left
    is the list without the deleted elements. *)
Theorem quicklist_sweep fresh usable base htab q ts dir f : machine usable base htab -> rep q ts ->
  exists q' it, sweep fresh usable base htab (S (length ts)) q (quicklistGetIterator q dir) f = Ret (q', it, if dir then ts else rev ts) /\ rep q' (keep f ts).
Proof.
  intros [Hu Hm] Hr. pose proof (start_ready q ts dir Hr) as Hs. destruct (sweep_spec fresh usable base htab Hu Hm f (S (length ts)) q (quicklistGetIterator q dir) _ _ (or_introl Hs)) as (q' & it & E & Hr'); [destruct dir; cbn; lia|]. exists q', it. destruct dir; cbn in *; rewrite ?app_nil_r in Hr'; done.
Qed.

(** A copy, [quicklistDup], represents the same list, and a listpack that is appended as
    a node adds its elements. *)
Theorem quicklist_copy fresh usable base htab q ts : machine usable base htab -> rep q ts ->
  (options_ok q -> exists q', quicklistDup fresh base htab q = Ret q' /\ rep q' ts) /\
  (forall zl us, holds zl us -> us <> [] -> small (fill q) us -> exists q', quicklistAppendListpack fresh base htab q zl = Ret q' /\ rep q' (ts ++ us)).
Proof. intros [Hu Hm] Hr. split; [by apply dup_spec|intros zl us; by apply append_listpack]. Qed.

(** ** Witnesses *)

Definition f0 (_ : nat) : Z := 0.
Definition u0 (n : nat) : nat := n.
Definition b0 (_ : list Z) : Z := 65536.
Definition h0 (_ : list Z) (_ : Z) : Z := 0.

Lemma machine0 : machine u0 b0 h0.
Proof. split; [intros n; unfold u0; lia|]. split; [intros b Hb; unfold b0, Lzf.MAX_OFF; lia|intros b i; unfold h0; lia]. Qed.

Definition big : list Z := repeat 97 100.
Definition ops0 : list qop :=
  [Push big true; Push big false; Push (chars "x") false; Push big false; Push (chars "12") true; InsertAt 2 (chars "y") true; InsertAt (-2) (chars "z") false;
   ReplaceAt 1 (chars "w"); DelRange 2 1; Index (-1); Pop true; Pop false].

Lemma ops0_ok : Forall op_ok ops0.
Proof. assert (forall v, forallb (fun c => (0 <=? c) && (c <? 256)) v = true -> Z.of_nat (length v) < 2 ^ 62 -> text_ok v) as H by (intros v H1 H2; split; [|done]; apply Forall_forall; intros c Hc; rewrite forallb_forall in H1; apply list_elem_of_In in Hc; specialize (H1 c Hc); unfold is_byte, in_u; lia). repeat (apply Forall_cons; split; [first [exact I|apply H; [reflexivity|vm_compute; reflexivity]]|]). apply Forall_nil_2. Qed.

Definition run0 : quicklist * list qout := match exec_all f0 u0 b0 h0 (quicklistNew 2 1) ops0 with Ret r => r | Abort => (quicklistNew 0 0, []) end.

Lemma run0_eq : exec_all f0 u0 b0 h0 (quicklistNew 2 1) ops0 = Ret run0.
Proof. vm_compute. reflexivity. Qed.

Definition ts0 : list (list Z) := map chars ["w"; "y"; "z"; "x"]%string.

Lemma ts0_eq : fst (spec_all [] ops0) = ts0.
Proof. vm_compute. reflexivity. Qed.

Lemma Ret_inj {A} (a b : A) : Ret a = Ret b -> a = b.
Proof. congruence. Qed.

Lemma run0_rep : rep (fst run0) ts0.
Proof.
  destruct (exec_all_rep f0 u0 b0 h0 (proj1 machine0) (proj2 machine0) ops0 (quicklistNew 2 1) [] (new_rep 2 1) ops0_ok ltac:(vm_compute; reflexivity)) as (q & E & Hr). rewrite run0_eq in E. apply Ret_inj in E. rewrite E. rewrite ts0_eq in Hr. exact Hr.
Qed.

Lemma quicklist_refines_witness : exists q, exec_all f0 u0 b0 h0 (quicklistNew 2 1) ops0 = Ret (q, snd (spec_all [] ops0)) /\ rep q (fst (spec_all [] ops0)).
Proof. apply (quicklist_refines f0 u0 b0 h0 2 1 ops0); [exact machine0|exact ops0_ok|vm_compute; reflexivity]. Defined.

Lemma quicklist_well_formed_witness : well_formed (fst run0).
Proof. apply (quicklist_well_formed f0 u0 b0 h0 2 1 ops0 (fst run0) (snd run0)); [exact machine0|exact ops0_ok|vm_compute; reflexivity|rewrite run0_eq; apply f_equal, surjective_pairing]. Defined.

Lemma quicklist_sweep_witness : exists q it, sweep f0 u0 b0 h0 5 (fst run0) (quicklistGetIterator (fst run0) false) (fun x => bool_decide (x = chars "y")) = Ret (q, it, rev ts0) /\ rep q (map chars ["w"; "z"; "x"]%string).
Proof. apply (quicklist_sweep f0 u0 b0 h0 (fst run0) ts0 false); [exact machine0|exact run0_rep]. Defined.

Lemma quicklist_copy_witness : exists q, quicklistDup f0 b0 h0 (fst run0) = Ret q /\ rep q ts0.
Proof. apply (proj1 (quicklist_copy f0 u0 b0 h0 (fst run0) ts0 machine0 run0_rep)). vm_compute. split; split; intros H; discriminate H. Defined.

(** [quicklistRotatePlain] does not look at the depth: a compressed node comes to be the
    tail, and the next push finds it so. *)
Definition rotated : quicklist := Quicklist_ [Node 0 (Raw big) 100 1 PLAIN false false; Node 1 (LZF [0; 97; 224; 90; 0]) 100 1 PLAIN false false; Node 2 (Raw big) 100 1 PLAIN false false] 3 3 (-2) 1 3.

Example rotate_plain_breaks : (exists q, quicklistRotate f0 u0 b0 h0 0 rotated = Ret q /\ is_lzf <$> last (nodes q) = Some true /\ quicklistPush f0 u0 b0 h0 0 q [97] true = Abort) /\ ~ is_lzf <$> last (nodes rotated) = Some true.
Proof. split; [|done]. eexists. split; [reflexivity|]. split; reflexivity. Qed.

End QuicklistMain.
