(* ===== verification/QuicklistKeep.v ===== *)
(** * QuicklistKeep: the options of a quicklist (quicklist.c)

    No operation changes the fill factor or the compression depth. *)
From S2P Require Import Prelude NumStr Lzf LpEntry Listpack LpBulk StrObj Quicklist.
Import NumStr LpEntry Listpack LpBulk Quicklist.

Module QuicklistKeep.

Definition alike (q q' : quicklist) : Prop := fill q' = fill q /\ compress q' = compress q.

#[export] Instance alike_preorder : PreOrder alike.
Proof. split; [done|]. intros a b c [] []. split; congruence. Qed.

Create HintDb keeps.

(** The quicklist in a result. *)
Ltac quicklist_of r :=
  lazymatch type of r with
  | quicklist => r
  | (quicklist * _)%type => constr:(fst r)
  | (quicklist * _ * _)%type => constr:(fst (fst r))
  | (quicklistNode * quicklist)%type => constr:(snd r)
  end.

(** Runs through a definition that ends in a quicklist. *)
Ltac keep_step :=
  match goal with
  | H : Abort = Ret _ |- _ => discriminate H
  | H : Ret _ = Ret _ |- _ => injection H; clear H; intros; subst
  | H : ?x = Ret ?r |- _ =>
      let q := quicklist_of r in let q := eval cbn in q in
      eassert (alike _ q) by (clear -H; solve [eauto 2 with keeps nocore]); clear H
  | H : obind ?x _ = Ret _ |- _ => let E := fresh "E" in destruct x eqn:E; cbn [obind] in H
  | p : (_ * _)%type |- _ => destruct p
  | H : (match ?x with _ => _ end) = Ret _ |- _ => let E := fresh "E" in destruct x eqn:E
  | H : (_, _) = (_, _) |- _ => injection H; clear H; intros; subst
  | H : alike _ _ |- _ => destruct H
  | H : _ /\ _ |- _ => destruct H
  end.
Ltac keep := intros; unfold quicklistCreateNode in *; cbn [fst snd] in *; repeat (keep_step; cbn [fst snd] in * ); unfold alike, add_count, add_len, set_nodes in *; cbn [fst snd fill compress] in *; try (split; congruence).

Section Keep.
Context (fresh : nat -> Z) (usable : nat -> nat) (base : list Z -> Z) (htab : list Z -> Z -> Z) (pt : Z).

Lemma k_set q p n q' : set_node q p n = Ret q' -> alike q q'.
Proof using. unfold set_node. keep. Qed.
#[local] Hint Resolve k_set : keeps.

Lemma k_update q p f q' : update q p f = Ret q' -> alike q q'.
Proof using. unfold update. keep. Qed.
#[local] Hint Resolve k_update : keeps.

Lemma k_compress1 q p q' : __quicklistCompressNode fresh base htab q p = Ret q' -> alike q q'.
Proof using. unfold __quicklistCompressNode. keep. Qed.
#[local] Hint Resolve k_compress1 : keeps.

Lemma k_compress2 q p q' : quicklistCompressNode fresh base htab q p = Ret q' -> alike q q'.
Proof using. unfold quicklistCompressNode. keep. Qed.
#[local] Hint Resolve k_compress2 : keeps.

Lemma k_dec q p q' : quicklistDecompressNode fresh q p = Ret q' -> alike q q'.
Proof using. unfold quicklistDecompressNode. keep. Qed.
#[local] Hint Resolve k_dec : keeps.

Lemma k_use q p q' : quicklistDecompressNodeForUse fresh q p = Ret q' -> alike q q'.
Proof using. unfold quicklistDecompressNodeForUse. keep. Qed.
#[local] Hint Resolve k_use : keeps.

Lemma k_depth q p a b i d r j q' : compress_depth fresh d q p a b i = Ret (q', r, j) -> alike q q'.
Proof using. revert q a b i. induction d as [|d IH]; cbn [compress_depth]; keep. all: match goal with H : compress_depth _ _ _ _ _ _ _ = _ |- _ => apply IH in H end; keep. Qed.
#[local] Hint Resolve k_depth : keeps.

Lemma k_compressL q p q' : __quicklistCompress fresh base htab q p = Ret q' -> alike q q'.
Proof using. unfold __quicklistCompress. keep. Qed.
#[local] Hint Resolve k_compressL : keeps.

Lemma k_compress q p q' : quicklistCompress fresh base htab q p = Ret q' -> alike q q'.
Proof using. unfold quicklistCompress. keep. Qed.
#[local] Hint Resolve k_compress : keeps.

Lemma k_recompress q p q' : quicklistRecompressOnly fresh base htab q p = Ret q' -> alike q q'.
Proof using. unfold quicklistRecompressOnly. keep. Qed.
#[local] Hint Resolve k_recompress : keeps.

Lemma k_insertN q o n a q' : __quicklistInsertNode fresh base htab q o n a = Ret q' -> alike q q'.
Proof using. unfold __quicklistInsertNode. keep. Qed.
#[local] Hint Resolve k_insertN : keeps.

Lemma k_delN q p q' : __quicklistDelNode fresh base htab q p = Ret q' -> alike q q'.
Proof using. unfold __quicklistDelNode. keep. Qed.
#[local] Hint Resolve k_delN : keeps.

Lemma k_new q k v n q' : __quicklistCreateNode fresh usable q k v = Ret (n, q') -> alike q q'.
Proof using. unfold __quicklistCreateNode. keep. Qed.
#[local] Hint Resolve k_new : keeps.

Lemma k_insertP q o v a q' : __quicklistInsertPlainNode fresh usable base htab q o v a = Ret q' -> alike q q'.
Proof using. unfold __quicklistInsertPlainNode. keep. Qed.
#[local] Hint Resolve k_insertP : keeps.

Lemma k_lpnode q a v n q' : new_lp_node fresh usable q a v = Ret (n, q') -> alike q q'.
Proof using. unfold new_lp_node. keep. Qed.
#[local] Hint Resolve k_lpnode : keeps.

Lemma k_push_end q a v q' : push_end fresh usable base htab pt a q v = Ret q' -> alike q q'.
Proof using. unfold push_end. keep. Qed.
#[local] Hint Resolve k_push_end : keeps.

Lemma k_push q v a q' : quicklistPush fresh usable base htab pt q v a = Ret q' -> alike q q'.
Proof using. unfold quicklistPush, quicklistPushHead, quicklistPushTail. keep. Qed.
#[local] Hint Resolve k_push : keeps.

Lemma k_append q zl q' : quicklistAppendListpack fresh base htab q zl = Ret q' -> alike q q'.
Proof using. unfold quicklistAppendListpack, _quicklistInsertNodeAfter. keep. Qed.
#[local] Hint Resolve k_append : keeps.

Lemma k_delI q p zi b r q' : quicklistDelIndex fresh usable base htab q p zi = Ret (q', b, r) -> alike q q'.
Proof using. unfold quicklistDelIndex. keep. Qed.
#[local] Hint Resolve k_delI : keeps.

Lemma k_release q it q' : quicklistReleaseIterator fresh base htab q it = Ret q' -> alike q q'.
Proof using. unfold quicklistReleaseIterator. keep. Qed.
#[local] Hint Resolve k_release : keeps.

Lemma k_nextE q it f it' r q' : next_entry fresh base htab f q it = Ret (q', it', r) -> alike q q'.
Proof using. revert q it. induction f as [|f IH]; cbn [next_entry]; keep. all: try match goal with H : next_entry _ _ _ _ _ _ = _ |- _ => apply IH in H end; keep. Qed.
#[local] Hint Resolve k_nextE : keeps.

Lemma k_next q it it' r q' : quicklistNext fresh base htab q it = Ret (q', it', r) -> alike q q'.
Proof using. unfold quicklistNext. keep. Qed.
#[local] Hint Resolve k_next : keeps.

Lemma k_entry q i r q' : quicklistGetIteratorEntryAtIdx fresh base htab q i = Ret (q', r) -> alike q q'.
Proof using. unfold quicklistGetIteratorEntryAtIdx. keep. Qed.
#[local] Hint Resolve k_entry : keeps.

Lemma k_delE q it e it' q' : quicklistDelEntry fresh usable base htab q it e = Ret (q', it') -> alike q q'.
Proof using. unfold quicklistDelEntry. keep. Qed.
#[local] Hint Resolve k_delE : keeps.

Lemma k_merge q a b r q' : _quicklistListpackMerge fresh usable base htab q a b = Ret (q', r) -> alike q q'.
Proof using. unfold _quicklistListpackMerge. keep. Qed.
#[local] Hint Resolve k_merge : keeps.

Lemma k_try q a b r c q' : try_merge fresh usable base htab q a b = Ret (q', r, c) -> alike q q'.
Proof using. unfold try_merge. keep. Qed.
#[local] Hint Resolve k_try : keeps.

Lemma k_mergeN q c r q' : _quicklistMergeNodes fresh usable base htab q c = Ret (q', r) -> alike q q'.
Proof using. unfold _quicklistMergeNodes. keep. Qed.
#[local] Hint Resolve k_mergeN : keeps.

Lemma k_split q p o a n q' : _quicklistSplitNode fresh usable q p o a = Ret (q', n) -> alike q q'.
Proof using. unfold _quicklistSplitNode. keep. Qed.
#[local] Hint Resolve k_split : keeps.

Lemma k_large q p n e v a b q' : insert_large fresh usable base htab q p n e v a b = Ret q' -> alike q q'.
Proof using. unfold insert_large. keep. Qed.
#[local] Hint Resolve k_large : keeps.

Lemma k_here q p e v a q' : insert_here fresh usable base htab q p e v a = Ret q' -> alike q q'.
Proof using. unfold insert_here. keep. Qed.
#[local] Hint Resolve k_here : keeps.

Lemma k_near q p n v a q' : insert_neighbour fresh usable base htab q p n v a = Ret q' -> alike q q'.
Proof using. unfold insert_neighbour. keep. Qed.
#[local] Hint Resolve k_near : keeps.

Lemma k_newnode q p v a q' : insert_new_node fresh usable base htab q p v a = Ret q' -> alike q q'.
Proof using. unfold insert_new_node. keep. Qed.
#[local] Hint Resolve k_newnode : keeps.

Lemma k_isplit q p e v a q' : insert_split fresh usable base htab q p e v a = Ret q' -> alike q q'.
Proof using. unfold insert_split. keep. Qed.
#[local] Hint Resolve k_isplit : keeps.

Lemma k_insert q it e v a it' q' : _quicklistInsert fresh usable base htab pt q it e v a = Ret (q', it') -> alike q q'.
Proof using. unfold _quicklistInsert. keep. Qed.
#[local] Hint Resolve k_insert : keeps.

Lemma k_rsplit q p e v q' : replace_split fresh usable base htab pt q p e v = Ret q' -> alike q q'.
Proof using. unfold replace_split. keep. Qed.
#[local] Hint Resolve k_rsplit : keeps.

Lemma k_replace q it e v it' q' : quicklistReplaceEntry fresh usable base htab pt q it e v = Ret (q', it') -> alike q q'.
Proof using. unfold quicklistReplaceEntry, quicklistInsertAfter. keep. Qed.
#[local] Hint Resolve k_replace : keeps.

Lemma k_replaceI q i v b q' : quicklistReplaceAtIndex fresh usable base htab pt q i v = Ret (q', b) -> alike q q'.
Proof using. unfold quicklistReplaceAtIndex. keep. Qed.
#[local] Hint Resolve k_replaceI : keeps.

Lemma k_ifempty q p b q' : quicklistDeleteIfEmpty fresh base htab q p = Ret (q', b) -> alike q q'.
Proof using. unfold quicklistDeleteIfEmpty. keep. Qed.
#[local] Hint Resolve k_ifempty : keeps.

Lemma k_range q p o x f q' : del_range fresh usable base htab f q p o x = Ret q' -> alike q q'.
Proof using. revert q p o x. induction f as [|f IH]; cbn [del_range]; keep. all: try match goal with H : del_range _ _ _ _ _ _ _ _ _ = _ |- _ => apply IH in H end; keep. Qed.
#[local] Hint Resolve k_range : keeps.

Lemma k_delR q s c b q' : quicklistDelRange fresh usable base htab q s c = Ret (q', b) -> alike q q'.
Proof using. unfold quicklistDelRange. keep. Qed.
#[local] Hint Resolve k_delR : keeps.

Lemma k_pop q a r q' : quicklistPopCustom fresh usable base htab q a = Ret (q', r) -> alike q q'.
Proof using. unfold quicklistPopCustom. keep. Qed.
#[local] Hint Resolve k_pop : keeps.

Lemma k_dupN q l q' : dup_nodes fresh base htab l q = Ret q' -> alike q q'.
Proof using. revert q. induction l as [|n l IH]; cbn [dup_nodes]; unfold _quicklistInsertNodeAfter; keep. all: try match goal with H : dup_nodes _ _ _ _ _ = _ |- _ => apply IH in H end; keep. Qed.
#[local] Hint Resolve k_dupN : keeps.

Lemma k_dup q q' : quicklistDup fresh base htab q = Ret q' -> alike (quicklistNew (fill q) (compress q)) q'.
Proof using. apply k_dupN. Qed.
End Keep.

End QuicklistKeep.
