(* ===== verification/TList.v ===== *)
(** * TList: list objects (t_list.c)

    A list object is a listpack while it is small and a quicklist when it is large, and
    is converted from one to the other as it grows and shrinks.  The conversions are those
    without a callback, which only the module interface gives.  An iterator and an entry
    are those of the encoding; the object is passed beside them, as it is when they are
    used.  Sums of sizes of live strings are integers without bound. *)
From S2P Require Import Prelude NumStr LpEntry Listpack LpBulk StrObj Quicklist.
Import NumStr LpEntry Listpack LpBulk Quicklist.

Module TList.

(** [o->ptr] with [o->encoding]. *)
Inductive listobj := LListpack (lp : list Z) | LQuicklist (q : quicklist).

Inductive side := LIST_HEAD | LIST_TAIL.
#[export] Instance side_eq_dec : EqDecision side.
Proof. solve_decision. Defined.

Inductive list_conv_type := LIST_CONV_AUTO | LIST_CONV_GROWING | LIST_CONV_SHRINKING.

Record config := Config { list_max_listpack_size : Z; list_compress_depth : Z }.

Inductive iter_pos := QIter (iter : option quicklistIter) | LpIter (lpi : option nat).
Record listTypeIterator := LI { li_direction : side; li_pos : iter_pos }.
Inductive listTypeEntry := QEntry (entry : quicklistEntry) | LpEntry_ (lpe : nat).

Definition SIZE_MAX : Z := 2 ^ 64 - 1.
Definition UINT_MAX : Z := 2 ^ 32 - 1.

Definition at_head (where_ : side) : bool := match where_ with LIST_HEAD => true | LIST_TAIL => false end.

Definition sdsEncodedObject (o : StrObj.robj) : bool := match StrObj.o_body o with StrObj.BInt _ => false | _ => true end.

(** [o->ptr] of an object that is an sds. *)
Definition sds_of (o : StrObj.robj) : outcome (list Z) :=
  match StrObj.o_body o with StrObj.BRaw s | StrObj.BEmbstr s => Ret s | StrObj.BInt _ => Abort end.

(** The string [ll2string] leaves in a buffer of 32 bytes. *)
Definition ll_text (v : Z) : list Z := StrObj.cstr (fst (ll2string (repeat 0 32) 32 v)).

Section TList.
Context (server : config) (fresh : nat -> Z) (usable : nat -> nat).
Context (base : list Z -> Z) (htab : list Z -> Z -> Z).

Definition createListListpackObject : listobj := LListpack (lpNew fresh usable 0).

(** ** Conversions *)

Fixpoint add_bytes (argv : list StrObj.robj) : Z :=
  match argv with
  | [] => 0
  | o :: argv => match StrObj.o_body o with StrObj.BInt _ => add_bytes argv | StrObj.BRaw s | StrObj.BEmbstr s => Z.of_nat (length s) + add_bytes argv end
  end.

(** [argv] from [start] to [end]. *)
Definition listTypeTryConvertListpack (lp : list Z) (argv : list StrObj.robj) : outcome listobj :=
  let* (n, lp) := lpLength lp in
  if quicklistNodeExceedsLimit (list_max_listpack_size server) (lpBytes lp + add_bytes argv) (n + Z.of_nat (length argv)) then
    let ql := quicklistNew (list_max_listpack_size server) (list_compress_depth server) in
    let* (n, lp) := lpLength lp in
    let* ql := if negb (n =? 0) then quicklistAppendListpack fresh base htab ql lp else Ret ql in
    Ret (LQuicklist ql)
  else Ret (LListpack lp).

Definition listTypeTryConvertQuicklist (ql : quicklist) (shrinking : bool) : outcome listobj :=
  if negb (len ql =? 1) then Ret (LQuicklist ql) else
  match List.head (nodes ql) with
  | None => Abort
  | Some head =>
      if is_plain head then Ret (LQuicklist ql) else
      let '(sz_limit, count_limit) := quicklistNodeLimit (list_max_listpack_size server) in
      let halve z := if shrinking then z / 2 else z in
      let sz_limit := halve (default SIZE_MAX sz_limit) in
      let count_limit := halve (default UINT_MAX count_limit) in
      if (sz_limit <? sz head) || (count_limit <? total_count ql) then Ret (LQuicklist ql) else
      let* lp := raw head in
      Ret (LListpack lp)
  end.

Definition listTypeTryConversionRaw (o : listobj) (lct : list_conv_type) (argv : list StrObj.robj) : outcome listobj :=
  match o, lct with
  | LQuicklist _, LIST_CONV_GROWING => Ret o
  | LQuicklist ql, LIST_CONV_SHRINKING => listTypeTryConvertQuicklist ql true
  | LQuicklist ql, LIST_CONV_AUTO => listTypeTryConvertQuicklist ql false
  | LListpack _, LIST_CONV_SHRINKING => Ret o
  | LListpack lp, _ => listTypeTryConvertListpack lp argv
  end.

Definition listTypeTryConversion (o : listobj) (lct : list_conv_type) := listTypeTryConversionRaw o lct [].
Definition listTypeTryConversionAppend (o : listobj) (argv : list StrObj.robj) := listTypeTryConversionRaw o LIST_CONV_GROWING argv.

(** ** The ends *)

Definition listTypePush (o : listobj) (value : StrObj.robj) (where_ : side) : outcome listobj :=
  match o with
  | LQuicklist q =>
      let s := match StrObj.o_body value with StrObj.BInt v => ll_text v | StrObj.BRaw s | StrObj.BEmbstr s => s end in
      let* q := quicklistPush fresh usable base htab 0 q s (at_head where_) in
      Ret (LQuicklist q)
  | LListpack lp =>
      let* (lp, _) := not_null
        match StrObj.o_body value, where_ with
        | StrObj.BInt v, LIST_HEAD => lpPrependInteger fresh usable lp v
        | StrObj.BInt v, LIST_TAIL => lpAppendInteger fresh usable lp v
        | (StrObj.BRaw s | StrObj.BEmbstr s), LIST_HEAD => lpPrepend fresh usable lp s
        | (StrObj.BRaw s | StrObj.BEmbstr s), LIST_TAIL => lpAppend fresh usable lp s
        end in
      Ret (LListpack lp)
  end.

Definition listPopSaver (data : list Z) : StrObj.robj := StrObj.createStringObject data.

Definition listTypePop (o : listobj) (where_ : side) : outcome (listobj * option StrObj.robj) :=
  match o with
  | LQuicklist q =>
      let* (q, r) := quicklistPopCustom fresh usable base htab q (at_head where_) in
      Ret (LQuicklist q, match r with
                         | None => None
                         | Some (SVal s) => Some (listPopSaver s)
                         | Some (LVal v) => Some (StrObj.createStringObjectFromLongLong v)
                         end)
  | LListpack lp =>
      let* p := match where_ with LIST_HEAD => lpFirst lp | LIST_TAIL => lpLast lp end in
      match p with
      | None => Ret (o, None)
      | Some p =>
          let value := StrObj.createStringObject (lpGetString lp p (map fresh (seq 0 21))) in
          let* (lp, _) := not_null (lpDelete fresh usable lp p) in
          Ret (LListpack lp, Some value)
      end
  end.

Definition listTypeLength (o : listobj) : outcome (listobj * Z) :=
  match o with
  | LQuicklist q => Ret (o, total_count q)
  | LListpack lp => let* (n, lp) := lpLength lp in Ret (LListpack lp, n)
  end.

(** ** Iterators *)

(** Where a quicklist iterator of this direction starts: [AL_START_HEAD]. *)
Definition start_head (direction : side) : bool := match direction with LIST_HEAD => false | LIST_TAIL => true end.

Definition listTypeInitIterator (o : listobj) (index : Z) (direction : side) : outcome listTypeIterator :=
  match o with
  | LQuicklist q => let* it := quicklistGetIteratorAtIdx q (start_head direction) index in Ret (LI direction (QIter it))
  | LListpack lp => let* p := lpSeek lp index in Ret (LI direction (LpIter p))
  end.

Definition listTypeSetIteratorDirection (o : listobj) (li : listTypeIterator) (entry : listTypeEntry) (direction : side) : outcome listTypeIterator :=
  if bool_decide (li_direction li = direction) then Ret li else
  match o, li_pos li, entry with
  | LQuicklist _, QIter (Some it), _ => Ret (LI direction (QIter (Some (quicklistSetDirection it (start_head direction)))))
  | LListpack lp, LpIter _, LpEntry_ lpe =>
      let* p := match direction with LIST_TAIL => lpNext lp lpe | LIST_HEAD => lpPrev lp lpe end in
      Ret (LI direction (LpIter p))
  | _, _, _ => Abort
  end.

Definition listTypeReleaseIterator (o : listobj) (li : listTypeIterator) : outcome listobj :=
  match o, li_pos li with
  | LQuicklist q, QIter (Some it) => let* q := quicklistReleaseIterator fresh base htab q it in Ret (LQuicklist q)
  | _, QIter None | _, LpIter _ => Ret o
  | LListpack _, QIter (Some _) => Abort
  end.

(** The entry when the return value is 1. *)
Definition listTypeNext (o : listobj) (li : listTypeIterator) : outcome (listobj * listTypeIterator * option listTypeEntry) :=
  match o, li_pos li with
  | LQuicklist q, QIter None => Ret (o, li, None)
  | LQuicklist q, QIter (Some it) =>
      let* (r, e) := quicklistNext fresh base htab q it in
      Ret (LQuicklist (fst r), LI (li_direction li) (QIter (Some (snd r))), QEntry <$> e)
  | LListpack lp, LpIter None => Ret (o, li, None)
  | LListpack lp, LpIter (Some p) =>
      let* next := match li_direction li with LIST_TAIL => lpNext lp p | LIST_HEAD => lpPrev lp p end in
      Ret (o, LI (li_direction li) (LpIter next), Some (LpEntry_ p))
  | _, _ => Abort
  end.

Definition listTypeGetValue (o : listobj) (entry : listTypeEntry) : outcome listpackEntry :=
  match o, entry with
  | LQuicklist _, QEntry e => Ret (e_value e)
  | LListpack lp, LpEntry_ p => Ret (lpGetValue lp p)
  | _, _ => Abort
  end.

Definition listTypeGet (o : listobj) (entry : listTypeEntry) : outcome StrObj.robj :=
  let* v := listTypeGetValue o entry in
  Ret (match v with SVal s => StrObj.createStringObject s | LVal v => StrObj.createStringObjectFromLongLong v end).

Definition with_iter {A} (li : listTypeIterator) (f : quicklistIter -> outcome A) : outcome A :=
  match li_pos li with QIter (Some it) => f it | _ => Abort end.

Definition listTypeInsert (o : listobj) (li : listTypeIterator) (entry : listTypeEntry) (value : StrObj.robj) (where_ : side) : outcome (listobj * listTypeIterator * listTypeEntry) :=
  let* value := StrObj.getDecodedObject value in
  let* str := sds_of value in
  match o, entry with
  | LQuicklist q, QEntry e => with_iter li (fun it =>
      let* (q, it) := match where_ with
                      | LIST_TAIL => quicklistInsertAfter fresh usable base htab 0 q it e str
                      | LIST_HEAD => quicklistInsertBefore fresh usable base htab 0 q it e str
                      end in
      Ret (LQuicklist q, LI (li_direction li) (QIter (Some it)), entry))
  | LListpack lp, LpEntry_ p =>
      let* (lp, p) := not_null (lpInsertString fresh usable lp str p (match where_ with LIST_TAIL => LP_AFTER | LIST_HEAD => LP_BEFORE end)) in
      match p with Some p => Ret (LListpack lp, li, LpEntry_ p) | None => Abort end
  | _, _ => Abort
  end.

Definition listTypeReplace (o : listobj) (li : listTypeIterator) (entry : listTypeEntry) (value : StrObj.robj) : outcome (listobj * listTypeIterator * listTypeEntry) :=
  let* value := StrObj.getDecodedObject value in
  let* str := sds_of value in
  match o, entry with
  | LQuicklist q, QEntry e => with_iter li (fun it =>
      let* (q, it) := quicklistReplaceEntry fresh usable base htab 0 q it e str in
      Ret (LQuicklist q, LI (li_direction li) (QIter (Some it)), entry))
  | LListpack lp, LpEntry_ p =>
      let* (lp, p) := not_null (lpReplace fresh usable lp p str) in
      match p with Some p => Ret (LListpack lp, li, LpEntry_ p) | None => Abort end
  | _, _ => Abort
  end.

(** The parameter [index] is an [int]. *)
Definition listTypeReplaceAtIndex (o : listobj) (index : Z) (value : StrObj.robj) : outcome (listobj * bool) :=
  let index := s32 index in
  let* value := StrObj.getDecodedObject value in
  let* vstr := sds_of value in
  match o with
  | LQuicklist ql => let* (ql, b) := quicklistReplaceAtIndex fresh usable base htab 0 ql index vstr in Ret (LQuicklist ql, b)
  | LListpack lp =>
      let* p := lpSeek lp index in
      match p with
      | None => Ret (o, false)
      | Some p => let* (lp, _) := not_null (lpReplace fresh usable lp p vstr) in Ret (LListpack lp, true)
      end
  end.

Definition listTypeEqual (o : listobj) (entry : listTypeEntry) (v : StrObj.robj) : outcome bool :=
  let* s := sds_of v in
  match o, entry with
  | LQuicklist q, QEntry e => quicklistCompare q e s
  | LListpack lp, LpEntry_ p => Ret (lpCompare lp p s)
  | _, _ => Abort
  end.

Definition listTypeDelete (o : listobj) (li : listTypeIterator) (entry : listTypeEntry) : outcome (listobj * listTypeIterator) :=
  match o, entry with
  | LQuicklist q, QEntry e => with_iter li (fun it =>
      let* (q, it) := quicklistDelEntry fresh usable base htab q it e in
      Ret (LQuicklist q, LI (li_direction li) (QIter (Some it))))
  | LListpack lp, LpEntry_ p =>
      let* (lp, p) := not_null (lpDelete fresh usable lp p) in
      let* lpi := match li_direction li with
                  | LIST_TAIL => Ret p
                  | LIST_HEAD => match p with Some p => lpPrev lp p | None => lpLast lp end
                  end in
      Ret (LListpack lp, LI (li_direction li) (LpIter lpi))
  | _, _ => Abort
  end.

Definition listTypeDup (o : listobj) : outcome listobj :=
  match o with
  | LListpack lp => Ret (LListpack (lpDup fresh usable lp))
  | LQuicklist q => let* q := quicklistDup fresh base htab q in Ret (LQuicklist q)
  end.

Definition listTypeDelRange (o : listobj) (start count : Z) : outcome listobj :=
  match o with
  | LQuicklist q => let* (q, _) := quicklistDelRange fresh usable base htab q start count in Ret (LQuicklist q)
  | LListpack lp => let* lp := lpDeleteRange fresh usable lp start (Z.to_nat count) in Ret (LListpack lp)
  end.
End TList.

End TList.
