(* ===== verification/TListSpec.v ===== *)
(** * TListSpec: list objects are lists (t_list.c)

    What a list object represents in either encoding, that every operation of the list
    type, conversions included, acts on the list it represents, and walks with an iterator. *)
From S2P Require Import Prelude NumStr Lzf LpEntry Listpack LpBulk StrObj Quicklist QuicklistSpec QuicklistElems QuicklistOps QuicklistIter QuicklistEdit QuicklistInsert QuicklistReplace QuicklistRange QuicklistMain QuicklistKeep TList.
Import NumStr LpEntry Listpack LpBulk Quicklist QuicklistSpec QuicklistElems QuicklistOps QuicklistIter QuicklistEdit QuicklistInsert QuicklistReplace QuicklistRange QuicklistMain QuicklistKeep TList.

Module TListSpec.

(** The limits of the documentation, without the one it calls not recommended, 64 kB. *)
Definition config_ok (server : config) : Prop := -4 <= list_max_listpack_size server.

(** A value as commands hold it. *)
Definition value_ok (o : StrObj.robj) : Prop := StrObj.obj_ok o /\ text_ok (StrObj.content o) /\ StrObj.refcount o <> StrObj.OBJ_FIRST_SPECIAL_REFCOUNT /\ StrObj.refcount o <= StrObj.OBJ_SHARED_REFCOUNT.

Lemma value_created s : text_ok s -> value_ok (StrObj.createStringObject s).
Proof.
  intros [Hb Hl]. split; [by apply StrObj.obj_ok_createStringObject|]. rewrite StrObj.content_createStringObject. split; [done|]. unfold StrObj.createStringObject. case_bool; cbn; unfold StrObj.OBJ_FIRST_SPECIAL_REFCOUNT, StrObj.OBJ_SHARED_REFCOUNT; lia.
Qed.

Lemma text_repr v : in_s 64 v -> text_ok (repr v).
Proof. intros Hv. split; [by apply StrObj.repr_is_bytes|]. destruct (repr_length v Hv) as [H1 H2]. lia. Qed.

Lemma value_long v : in_s 64 v -> value_ok (StrObj.createStringObjectFromLongLong v) /\ StrObj.content (StrObj.createStringObjectFromLongLong v) = repr v.
Proof.
  intros Hv. destruct (StrObj.fromLongLong_spec v StrObj.LL2STROBJ_AUTO Hv) as [Hc Ho]. unfold StrObj.createStringObjectFromLongLong. split; [|done]. split; [done|]. rewrite Hc. split; [by apply text_repr|].
  unfold StrObj.createStringObjectFromLongLongWithOptions, StrObj.createStringObject, StrObj.OBJ_FIRST_SPECIAL_REFCOUNT, StrObj.OBJ_SHARED_REFCOUNT.
  destruct (_ && _ && (_ =? _)); [cbn; lia|]. destruct (_ && negb _); [cbn; lia|]. case_bool; cbn; lia.
Qed.

Lemma ll_text_repr v : in_s 64 v -> ll_text v = repr v.
Proof.
  intros Hv. unfold ll_text. destruct (repr_length v Hv) as [Hl H20]. pose proof (ll2string_spec (repeat 0 32) 32 v Hv eq_refl) as H. destruct (Z.ltb_spec (sdigits10 v) 32); [|lia]. rewrite H. cbn [fst].
  unfold store. rewrite <- app_assoc. apply (StrObj.cstr_app (repr v)). by apply StrObj.repr_bytes.
Qed.

Lemma decoded o : value_ok o -> exists d, StrObj.getDecodedObject o = Ret d /\ sds_of d = Ret (StrObj.content o).
Proof.
  intros (Ho & _ & H1 & H2). destruct (StrObj.getDecodedObject_spec o Ho H1 H2) as (d & E & Hc & _ & Hn). exists d. split; [done|]. unfold sds_of. rewrite <- Hc. unfold StrObj.content. destruct (StrObj.o_body d) eqn:Eb; try done. by destruct (Hn v).
Qed.

Section Spec.
Context (server : config) (fresh : nat -> Z) (usable : nat -> nat) (base : list Z -> Z) (htab : list Z -> Z -> Z).
Context (Husable : forall n, (n <= usable n)%nat) (Hmem : memory_ok base htab) (Hconf : config_ok server).
Abbreviation F := (list_max_listpack_size server).
Abbreviation ql0 := (quicklistNew F (list_compress_depth server)).

Lemma limit_range : 4096 <= elem_limit F <= 32768.
Proof using Hconf.
  pose proof (elem_limit_range F) as H. unfold config_ok in Hconf. unfold elem_limit, SIZE_SAFETY_LIMIT in *. destruct (Z.leb_spec 0 F); [lia|]. split; [lia|]. assert (F = -1 \/ F = -2 \/ F = -3 \/ F = -4) as [->|[->|[->| ->]]] by lia; vm_compute; done.
Qed.

Lemma limit_fill : elem_limit (fill ql0) = elem_limit F.
Proof using Hconf.
  unfold quicklistNew, quicklistSetOptions, quicklistSetFill, quicklistSetCompressDepth, config_ok in *. cbn [fill]. unfold FILL_MAX. case_bool; [unfold elem_limit; by rewrite !(proj2 (Z.leb_le _ _)) by lia|]. case_bool; [lia|done].
Qed.

Lemma small_alike q ts : alike ql0 q -> small (fill q) ts <-> small F ts.
Proof using Hconf. intros [-> _]. unfold small. by rewrite limit_fill. Qed.

(** ** Representation *)

Definition lrep (o : listobj) (ts : list (list Z)) : Prop :=
  match o with
  | LListpack lp => holds lp ts /\ small F ts
  | LQuicklist q => rep q ts /\ alike ql0 q
  end.

(** There is room for these too. *)
Definition room (o : listobj) (ts vs : list (list Z)) : Prop := match o with LListpack _ => small F (vs ++ ts) | LQuicklist _ => True end.

Lemma created_rep : lrep (createListListpackObject fresh usable) [].
Proof using Husable. split; [by apply holds_new|apply small_nil]. Qed.

(** ** Conversions *)

Lemma total_listpack lp ts : holds lp ts -> 2 * Z.of_nat (length ts) + 7 <= lpBytes lp.
Proof using.
  intros (es & Hl & ->). pose proof Hl as (nf & slack & R). unfold lpBytes. rewrite (get_total lp es nf slack R), length_fmap. by apply total_ge, (listpack_elems lp).
Qed.

Lemma add_bytes_nonneg argv : 0 <= add_bytes argv.
Proof using. induction argv as [|o argv IH]; cbn; [lia|]. destruct (StrObj.o_body o); lia. Qed.

Lemma add_bytes_texts argv : Forall value_ok argv -> add_bytes argv <= elem_limit F -> Forall (fun t => bytes t /\ Z.of_nat (length t) <= elem_limit F) (StrObj.content <$> argv).
Proof using Hconf.
  pose proof limit_range as HL. induction 1 as [|o argv Ho Hs IH]; cbn [add_bytes fmap list_fmap]; intros Ha; [constructor|]. pose proof (add_bytes_nonneg argv). destruct Ho as (Ho & [Hb _] & _). constructor.
  - split; [done|]. unfold StrObj.content. destruct (StrObj.o_body o) as [s|s|v] eqn:Eo; [lia|lia|]. unfold StrObj.obj_ok in Ho. rewrite Eo in Ho. destruct (repr_length v Ho). lia.
  - apply IH. destruct (StrObj.o_body o); lia.
Qed.

(** How many arguments a command may have; more is in [list_faults]. *)
Definition max_args : Z := 32768.

Lemma grow_list o ts argv : lrep o ts -> Forall value_ok argv -> Z.of_nat (length argv) <= max_args ->
  exists o', listTypeTryConversionAppend server fresh base htab o argv = Ret o' /\ lrep o' ts /\ room o' ts (StrObj.content <$> argv).
Proof using Husable Hmem Hconf.
  intros Hr Hv Hn. pose proof limit_range as HL. unfold listTypeTryConversionAppend, listTypeTryConversionRaw. destruct o as [lp|q]; [|by exists (LQuicklist q)]. destruct Hr as [Hh Hs]. unfold listTypeTryConvertListpack.
  destruct (length_text lp ts Hh) as (lp1 & -> & Hh1). cbn [obind]. destruct (quicklistNodeExceedsLimit _ _ _) eqn:Ex.
  - destruct (length_text lp1 ts Hh1) as (lp2 & -> & Hh2). cbn [obind]. destruct ts as [|t ts']; [exists (LQuicklist ql0); split; [done|]; split; [split; [apply new_rep|done]|done]|]. set (ts := t :: ts') in *.
    assert ((Z.of_nat (length ts) =? 0) = false) as -> by (apply Z.eqb_neq; unfold ts; cbn [length]; lia). cbn [negb].
    destruct (append_listpack fresh base htab Hmem ql0 [] lp2 ts (new_rep _ _) Hh2 ltac:(done)) as (q & E & Hr); [by apply small_alike|]. rewrite E. cbn [obind]. exists (LQuicklist q). split; [done|]. split; [|done]. split; [done|]. by eapply k_append.
  - apply (exceeds_spec F) in Ex. pose proof (total_listpack lp1 ts Hh1) as Ht. pose proof (add_bytes_nonneg argv). exists (LListpack lp1). split; [done|]. split; [done|]. cbn [room]. split; [apply Forall_app; split; [apply add_bytes_texts; [done|lia]|apply Hs]|]. unfold max_args in Hn. rewrite length_app, length_fmap. split; [lia|].
    assert (Z.of_nat (length argv + length ts) <= 49150) as Hc by lia. assert (Z.of_nat (length argv + length ts) * (elem_limit F + 8) <= 49150 * 32776) by (apply Z.mul_le_mono_nonneg; lia). lia.
Qed.

Lemma shrink_list o ts lct : lrep o ts -> lct <> LIST_CONV_GROWING -> exists o', listTypeTryConversion server fresh base htab o lct = Ret o' /\ lrep o' ts.
Proof using Husable Hmem Hconf.
  intros Hr Hg. unfold listTypeTryConversion. destruct o as [lp|q].
  - destruct lct; [|done|by exists (LListpack lp)]. destruct (grow_list (LListpack lp) ts [] Hr ltac:(constructor) ltac:(done)) as (o' & E & Hr' & _). by exists o'.
  - assert (forall b, exists o', listTypeTryConvertQuicklist server q b = Ret o' /\ lrep o' ts) as H; [|destruct lct; [apply H|done|apply H]]. intros b. unfold listTypeTryConvertQuicklist.
    destruct Hr as [Hr Ha]. destruct (Z.eqb_spec (len q) 1) as [Hl|]; [|by exists (LQuicklist q)]. cbn [negb].
    destruct Hr as (tss & Hok & ->). pose proof (ch_len _ _ _ _ (ok_chain _ _ _ Hok)) as Hlen. destruct (nodes q) as [|h [|? ?]] eqn:E; cbn in Hlen; try lia. cbn [List.head]. destruct (is_plain h) eqn:Hp; [exists (LQuicklist q); split; [done|]; split; [by exists tss|done]|].
    destruct (quicklistNodeLimit F) as [sl cl]. destruct (_ || _); [exists (LQuicklist q); split; [done|]; split; [by exists tss|done]|].
    destruct (ok_body q None tss [] h [] Hok E) as (t1 & t & t2 & -> & H1 & H2). destruct t1, t2; try done. destruct (ok_at q None [] h [] [] t [] Hok E eq_refl) as (Hb & _). assert (is_lzf h = false) as Hz by (destruct (ch_tight _ _ _ _ (ok_chain _ _ _ Hok)) as [[Hh _] _]; apply Hh; by rewrite E).
    destruct (get_body (fill q) h t Hb (proj1 (not_plain h) Hp) Hz) as (lp & -> & _ & Hh & Hs & _). cbn [obind]. exists (LListpack lp). split; [done|]. cbn [lrep app concat]. rewrite app_nil_r. split; [done|]. by apply (small_alike q).
Qed.

(** ** The ends *)

Lemma int_ok v : in_s 64 v -> elem_ok (EInt v).
Proof using. done. Qed.

Lemma insert_int lp es1 es2 v : listpack lp (es1 ++ es2) -> in_s 64 v -> small F (repr v :: (elem_text <$> es1 ++ es2)) ->
  exists lp', lpInsertInteger fresh usable lp v (pos es1) LP_BEFORE = Ret (Some (lp', Some (pos es1))) /\ listpack lp' (es1 ++ EInt v :: es2).
Proof using Husable.
  intros Hl Hv Hs. destruct (lpInsert_fits fresh usable Husable lp es1 es2 (Some (EInt v)) None (Some (lpEncodeIntegerGetType v)) LP_BEFORE es1 [] es2 Hl) as (lp' & E' & Hl'); try done; [right; by exists v| |by exists lp'].
  cbn [olist app]. apply (edit_small F).
  - apply listpack_elems in Hl. apply Forall_app in Hl as [? ?]. apply Forall_app. split; [done|]. by constructor.
  - eapply small_sub; [exact Hs| |]; rewrite !fmap_app, fmap_cons.
    + intros x. rewrite !elem_of_cons, !elem_of_app, elem_of_cons. cbn. tauto.
    + cbn [length]. rewrite !length_app. cbn [length]. lia.
Qed.

Lemma push_int head lp ts v : holds lp ts -> in_s 64 v -> small F (repr v :: ts) ->
  exists lp', not_null (if head : bool then lpPrependInteger fresh usable lp v else lpAppendInteger fresh usable lp v) = Ret lp' /\ holds (fst lp') (put_end head (repr v) ts).
Proof using Husable.
  intros (es & Hl & ->) Hv Hs. pose proof Hl as (nf & slack & R).
  assert (exists lp' p, lpAppendInteger fresh usable lp v = Ret (Some (lp', p)) /\ listpack lp' (es ++ [EInt v])) as (lpa & pa & Ea & Ha).
  { unfold lpAppendInteger. rewrite (get_total lp es nf slack R). replace (Z.to_nat (total es - 1)) with (pos es) by (unfold total; lia).
    destruct (insert_int lp es [] v) as (lp' & -> & Hl'); try done; [by rewrite app_nil_r|by rewrite app_nil_r|]. eauto. }
  unfold not_null. destruct head.
  - assert (exists lp' p, lpPrependInteger fresh usable lp v = Ret (Some (lp', p)) /\ listpack lp' (EInt v :: es)) as (lp' & p & -> & Hl').
    { unfold lpPrependInteger. rewrite (lpFirst_spec lp es nf slack R). destruct es as [|e es]; cbn [obind ptr]; [eauto|].
      destruct (insert_int lp [] (e :: es) v) as (lp' & E & Hl'); try done. cbn [app pos] in *. rewrite E. eauto. }
    cbn [obind]. eexists. split; [done|]. by exists (EInt v :: es).
  - rewrite Ea. cbn [obind]. eexists. split; [done|]. exists (es ++ [EInt v]). split; [done|]. by rewrite fmap_app.
Qed.

Lemma room_cons o ts v vs : room o ts (v :: vs) -> room o ts [v].
Proof using.
  destruct o; [|done]. cbn [room app]. intros Hs. eapply small_sub; [exact Hs| |]; cbn [length]; rewrite ?length_app; [|lia]. intros x. rewrite !elem_of_cons, elem_of_app. tauto.
Qed.

Lemma push_list o ts v vs where_ : lrep o ts -> value_ok v -> room o ts (StrObj.content v :: vs) ->
  exists o', listTypePush fresh usable base htab o v where_ = Ret o' /\ lrep o' (put_end (at_head where_) (StrObj.content v) ts) /\ room o' (put_end (at_head where_) (StrObj.content v) ts) vs.
Proof using Husable Hmem.
  intros Hr Hv Hroom. pose proof (room_cons _ _ _ _ Hroom) as Hone. destruct Hv as (Hok & Ht & _). unfold listTypePush. destruct o as [lp|q].
  - destruct Hr as [Hh Hs]. cbn [room app] in Hone, Hroom. assert (small F (put_end (at_head where_) (StrObj.content v) ts)) as Hs' by (eapply small_sub; [exact Hone| |]; rewrite ?length_put; [|done]; intros x; unfold put_end; destruct (at_head where_); rewrite ?elem_of_app, ?elem_of_cons, ?elem_of_nil; tauto).
    assert (small F (vs ++ put_end (at_head where_) (StrObj.content v) ts)) as Hs'' by (eapply small_sub; [exact Hroom| |]; cbn [length]; rewrite ?length_app, ?length_put; [|lia]; intros x; unfold put_end; destruct (at_head where_); rewrite ?elem_of_cons, ?elem_of_app, ?elem_of_cons, ?elem_of_nil; tauto).
    enough (exists lp', not_null match StrObj.o_body v, where_ with
        | StrObj.BInt v, LIST_HEAD => lpPrependInteger fresh usable lp v
        | StrObj.BInt v, LIST_TAIL => lpAppendInteger fresh usable lp v
        | (StrObj.BRaw s | StrObj.BEmbstr s), LIST_HEAD => lpPrepend fresh usable lp s
        | (StrObj.BRaw s | StrObj.BEmbstr s), LIST_TAIL => lpAppend fresh usable lp s
        end = Ret lp' /\ holds (fst lp') (put_end (at_head where_) (StrObj.content v) ts)) as ([lp' p] & -> & Hh') by (cbn [obind]; exists (LListpack lp'); done).
    assert (forall s, small F (s :: ts) -> exists lp', not_null (if at_head where_ then lpPrepend fresh usable lp s else lpAppend fresh usable lp s) = Ret lp' /\ holds (fst lp') (put_end (at_head where_) s ts)) as Hstr.
    { intros s Hsm. destruct (push_text fresh usable Husable F (at_head where_) lp ts s Hh Hsm) as (lp' & E & Hh'). unfold push_lp in E. destruct (not_null _) as [|[l r]]; [done|]. cbn [obind] in E. injection E as <-. by exists (l, r). }
    unfold StrObj.content, StrObj.obj_ok in *. destruct (StrObj.o_body v) as [s|s|i]; [..|pose proof (push_int (at_head where_) lp ts i Hh Hok Hone)]; [specialize (Hstr s Hone)..|]; by destruct where_.
  - destruct Hr as [Hr Ha]. assert (match StrObj.o_body v with StrObj.BInt v => ll_text v | StrObj.BRaw s | StrObj.BEmbstr s => s end = StrObj.content v) as -> by (unfold StrObj.content, StrObj.obj_ok in *; destruct (StrObj.o_body v); try done; by apply ll_text_repr).
    destruct (QuicklistMain.push_rep fresh usable base htab Husable Hmem q ts (StrObj.content v) (at_head where_) Hr Ht) as (q' & E & Hr'). rewrite E. cbn [obind]. exists (LQuicklist q'). split; [done|]. split; [|done]. split; [done|]. etransitivity; [exact Ha|by eapply k_push].
Qed.

Lemma get_text lp ts k zi buf : place lp ts k zi -> length buf = 21%nat -> ts !! k = Some (lpGetString lp zi buf).
Proof using.
  intros (es & Hl & -> & Hk & ->) Hbuf. rewrite length_fmap in Hk. destruct (place_split es k Hk) as (e & E & He). rewrite list_lookup_fmap, He. cbn [fmap option_fmap option_map]. pose proof Hl as (nf & slack & R).
  pose proof (has_entry lp es nf slack R (take k es) e (drop (S k) es) E) as Hh. apply has_app in Hh as [Hh _]. pose proof (listpack_elems lp es Hl) as Hok. rewrite E in Hok. apply Forall_app in Hok as [_ Hok]. apply Forall_cons in Hok as [He' _].
  destruct (lpGetString_lpCompare lp (pos (take k es)) e buf [] He' Hh) as [-> _]; [unfold LP_INTBUF_SIZE; lia|done].
Qed.

Lemma value_entry v : match v with SVal s => text_ok s | LVal v => in_s 64 v end ->
  let o := match v with SVal s => StrObj.createStringObject s | LVal v => StrObj.createStringObjectFromLongLong v end in value_ok o /\ StrObj.content o = value_text v.
Proof using.
  destruct v as [s|v]; cbn; intros H; [split; [by apply value_created|apply StrObj.content_createStringObject]|by apply value_long].
Qed.

Lemma holds_in lp ts t : holds lp ts -> small F ts -> t ∈ ts -> text_ok t.
Proof using Hconf.
  intros _ (Hs & _) Ht. pose proof limit_range. rewrite Forall_forall in Hs. destruct (Hs t Ht). split; [done|lia].
Qed.

Lemma rep_text q ts t : rep q ts -> t ∈ ts -> text_ok t.
Proof using.
  intros (tss & Hok & ->) Ht. apply list_elem_of_In, in_concat in Ht as (us & Hus & Ht). pose proof (ch_body _ _ _ _ (ok_chain _ _ _ Hok)) as Hb. apply list_elem_of_In, list_elem_of_lookup in Hus as [i Hi].
  destruct (Forall2_lookup_r _ _ _ _ _ Hb Hi) as (n & _ & [Hbody _]). destruct (kind n).
  - destruct Hbody as (x & -> & (_ & Hbx & _) & Hlx). destruct Ht as [<-|[]]. done.
  - destruct Hbody as (es & _ & _ & Hs & _). pose proof (elem_limit_range (fill q)). rewrite Forall_forall in Hs. destruct (Hs t) as [? ?]; [by apply list_elem_of_In|]. split; [done|lia].
Qed.

Lemma lrep_text o ts t : lrep o ts -> t ∈ ts -> text_ok t.
Proof using Hconf. destruct o as [lp|q]; intros [H1 H2] Ht; [by eapply holds_in|by eapply rep_text]. Qed.

Lemma end_place lp ts where_ : holds lp ts -> exists r, match where_ with LIST_HEAD => lpFirst lp | LIST_TAIL => lpLast lp end = Ret r /\
  match r with None => ts = [] | Some zi => place lp ts (end_index (at_head where_) ts) zi end.
Proof using.
  intros (es & Hl & ->). pose proof Hl as (nf & slack & R). destruct where_.
  - rewrite (lpFirst_spec lp es nf slack R). eexists. split; [done|]. destruct es as [|e es]; [done|]. cbn [ptr]. exists (e :: es). split; [done|]. split; [done|]. split; [cbn; lia|done].
  - rewrite (lpLast_spec lp es nf slack R). eexists. split; [done|]. destruct es as [|e es]; [done|]. exists (e :: es). split; [done|]. cbn [at_head end_index]. rewrite length_fmap. split; [done|]. split; [cbn; lia|done].
Qed.

Lemma list_pop_end head (ts : list (list Z)) x : ts !! end_index head ts = Some x -> ts = put_end head x (take (end_index head ts) ts ++ drop (S (end_index head ts)) ts) /\ list_pop head ts = (take (end_index head ts) ts ++ drop (S (end_index head ts)) ts, Some x).
Proof using.
  intros Hx. destruct head; cbn [end_index put_end list_pop] in *.
  - destruct ts as [|t ts]; [done|]. injection Hx as ->. cbn. by rewrite drop_0.
  - destruct ts as [|y l _] using rev_ind; [done|]. rewrite length_app in *. cbn [length] in *. replace (length l + 1 - 1)%nat with (length l) in * by lia. rewrite list_lookup_middle in Hx by done. injection Hx as ->. rewrite take_app_length, drop_ge by (rewrite length_app; cbn; lia). rewrite app_nil_r, removelast_last, last_snoc. done.
Qed.

Lemma pop_list o ts where_ : lrep o ts -> exists o' r, listTypePop fresh usable base htab o where_ = Ret (o', r) /\ lrep o' (fst (list_pop (at_head where_) ts)) /\
  StrObj.content <$> r = snd (list_pop (at_head where_) ts) /\ (forall v, r = Some v -> value_ok v).
Proof using Husable Hmem Hconf.
  intros Hr. unfold listTypePop. destruct o as [lp|q].
  - destruct Hr as [Hh Hs]. destruct (end_place lp ts where_ Hh) as (p & E & Hp). rewrite E. cbn [obind]. destruct p as [zi|]; [|subst ts; exists (LListpack lp), None; by destruct where_].
    destruct (delete_place fresh usable Husable F lp ts _ zi Hp Hs) as (lp' & r & -> & Hh' & _). cbn [not_null obind]. pose proof (get_text lp ts _ zi (map fresh (seq 0 21)) Hp ltac:(by rewrite length_map, length_seq)) as Hg. destruct (list_pop_end _ ts _ Hg) as [E1 ->]. cbn [fst snd].
    eexists _, _. split; [done|]. split; [split; [done|]|].
    + eapply small_sub; [exact Hs| |]; [|rewrite length_app, length_take, length_drop; lia]. intros x. rewrite elem_of_app. intros [Hx|Hx]; [rewrite <- (take_drop (end_index (at_head where_) ts) ts)|rewrite <- (take_drop (S (end_index (at_head where_) ts)) ts)]; apply elem_of_app; [by left|by right].
    + split; [cbn; by rewrite StrObj.content_createStringObject|]. intros v [= <-]. apply value_created. eapply holds_in; [exact Hh|exact Hs|]. by eapply list_elem_of_lookup_2.
  - destruct Hr as [(tss & Hok & ->) Ha]. destruct (pop_spec fresh usable base htab Husable Hmem (at_head where_) q tss Hok) as (q' & v & E & Hp). rewrite E. cbn [obind]. assert (alike ql0 q') as Ha' by (etransitivity; [exact Ha|by eapply k_pop]). eexists _, _. split; [done|]. destruct (decide (concat tss = [])) as [E0|Hne].
    + destruct Hp as [-> ->]. rewrite E0. cbn [lrep]. assert (rep q []) as Hr by (exists tss; done). by destruct where_.
    + destruct Hp as (t & rest & tss' & Ec & Hv & Hok' & Hc & Hsane). rewrite Ec. destruct v as [v|]; [|done]. injection Hv as Hv.
      assert (list_pop (at_head where_) (put_end (at_head where_) t rest) = (rest, Some t)) as -> by (destruct where_; cbn [at_head list_pop put_end]; rewrite ?removelast_last, ?last_snoc; done). cbn [fst snd lrep]. split; [split; [by exists tss'|done]|].
      assert (match v with SVal s => text_ok s | LVal v => in_s 64 v end) as Hvo.
      { destruct v as [s|v]; [|done]. cbn in Hv. subst s. eapply (rep_text q (put_end (at_head where_) t rest)); [by exists tss|]. unfold put_end. destruct (at_head where_); [left|apply elem_of_app; right; left]. }
      destruct (value_entry v Hvo) as [H1 H2]. rewrite <- Hv. split; [destruct v; cbn [fmap option_fmap option_map]; f_equal; exact H2|]. intros u Hu. destruct v; by injection Hu as <-.
Qed.

Lemma length_list o ts : lrep o ts -> exists o', listTypeLength o = Ret (o', Z.of_nat (length ts)) /\ lrep o' ts.
Proof using.
  destruct o as [lp|q]; intros [H1 H2]; unfold listTypeLength.
  - destruct (length_text lp ts H1) as (lp' & -> & H1'). cbn [obind]. by exists (LListpack lp').
  - exists (LQuicklist q). destruct H1 as (tss & Hok & ->). rewrite (ok_total _ _ _ Hok). split; [done|]. split; [by exists tss|done].
Qed.

(** [ts] without [cnt] elements from [start] on. *)
Definition without (ts : list (list Z)) (start cnt : Z) : list (list Z) :=
  match abs_index ts start with Some i => take i ts ++ drop (i + Z.to_nat cnt) ts | None => ts end.

Lemma without_in ts start cnt t : t ∈ without ts start cnt -> t ∈ ts.
Proof using.
  unfold without. destruct (abs_index ts start) as [i|]; [|done]. rewrite elem_of_app. intros [H|H]; [rewrite <- (take_drop i ts)|rewrite <- (take_drop (i + Z.to_nat cnt) ts)]; apply elem_of_app; [by left|by right].
Qed.

Lemma length_without ts start cnt : (length (without ts start cnt) <= length ts)%nat.
Proof using. unfold without. destruct (abs_index ts start) as [i|]; [|done]. rewrite length_app, length_take, length_drop. lia. Qed.

Lemma without_0 ts start : without ts start 0 = ts.
Proof using. unfold without. destruct (abs_index ts start) as [i|]; [|done]. by rewrite Nat.add_0_r, take_drop. Qed.

Lemma delrange_list o ts start cnt : lrep o ts -> 0 <= cnt -> Z.of_nat (length ts) < 2 ^ 63 -> exists o', listTypeDelRange fresh usable base htab o start cnt = Ret o' /\ lrep o' (without ts start cnt).
Proof using Husable Hmem.
  intros Hr Hc Hlen. unfold listTypeDelRange. destruct o as [lp|q]; destruct Hr as [H1 H2].
  - destruct (range_text fresh usable Husable lp ts start cnt H1) as (lp' & E & Hh). unfold lp_delete_range in E. assert ((cnt <? 0) = false) as Ec by (apply Z.ltb_ge; lia). rewrite Ec in *. rewrite E. cbn [obind]. exists (LListpack lp'). split; [done|].
    assert (holds lp' (without ts start cnt)) as Hh' by (unfold without, abs_index; cbv zeta in Hh; destruct (_ && _); done). split; [done|]. eapply small_sub; [exact H2|apply without_in|apply length_without].
  - destruct (quicklistDelRange_spec fresh usable base htab Husable Hmem q ts start cnt H1 ltac:(lia)) as (q' & b & E & Hb). rewrite E. cbn [obind]. exists (LQuicklist q'). split; [done|]. split; [|etransitivity; [exact H2|by eapply k_delR]]. unfold without. destruct (abs_index ts start) as [i|]; [|by destruct Hb as [_ ?]].
    destruct (Z.ltb_spec 0 cnt); [by destruct Hb as [_ ?]|]. replace cnt with 0 by lia. rewrite Nat.add_0_r, take_drop. by destruct Hb as [_ ?].
Qed.

Lemma replace_list o ts idx v : lrep o ts -> value_ok v -> room o ts [StrObj.content v] -> exists o', listTypeReplaceAtIndex fresh usable base htab o idx v = Ret (o', match abs_index ts (s32 idx) with Some _ => true | None => false end) /\
  lrep o' (match abs_index ts (s32 idx) with Some i => <[i := StrObj.content v]> ts | None => ts end).
Proof using Husable Hmem.
  intros Hr Hv Hroom. pose proof Hv as (_ & Ht & _). destruct (decoded v Hv) as (d & E & Es). unfold listTypeReplaceAtIndex. rewrite E. cbn [obind]. rewrite Es. cbn [obind]. destruct o as [lp|q]; destruct Hr as [H1 H2].
  - destruct (seek_text lp ts (s32 idx) H1) as (r & -> & Hs). cbn [obind]. unfold abs_index. cbv zeta in Hs. destruct (_ && _) eqn:Eb; [|subst r; by exists (LListpack lp)]. destruct Hs as (zi & -> & Hp). set (k := Z.to_nat _) in *. destruct (place_holds _ _ _ _ Hp) as [_ Hk].
    assert (take k ts ++ StrObj.content v :: drop (S k) ts = <[k := StrObj.content v]> ts) as Eins by (by rewrite insert_take_drop).
    assert (small F (<[k := StrObj.content v]> ts)) as Hs'. { cbn [room app] in Hroom. destruct Hroom as (Hf & _). apply Forall_cons in Hf as [Hf1 Hf2]. eapply small_swap; [exact H2|by apply Forall_insert|by rewrite length_insert]. }
    destruct (replace_text fresh usable Husable F lp ts k zi (StrObj.content v) Hp) as (lp' & r & -> & Hh'); [by rewrite Eins|]. cbn [not_null obind]. exists (LListpack lp'). split; [done|]. split; [by rewrite <- Eins|done].
  - destruct (replace_at_index fresh usable base htab Husable Hmem q ts (s32 idx) (StrObj.content v) H1 Ht) as (q' & b & E' & Hb). rewrite E'. cbn [obind]. exists (LQuicklist q'). assert (alike ql0 q') as Ha by (etransitivity; [exact H2|by eapply k_replaceI]).
    destruct (abs_index ts (s32 idx)); destruct Hb as [-> ?]; done.
Qed.

Lemma options_alike q : alike ql0 q -> options_ok q.
Proof using.
  intros [H1 H2]. unfold options_ok. rewrite H1, H2. unfold quicklistNew, quicklistSetOptions, quicklistSetFill, quicklistSetCompressDepth, FILL_MAX, COMPRESS_MAX. cbn [fill compress]. repeat case_bool; lia.
Qed.

Lemma new_options q : options_ok q -> alike q (quicklistNew (fill q) (compress q)).
Proof using.
  intros [Hf Hc]. unfold FILL_MAX, COMPRESS_MAX, alike in *. cbn. unfold FILL_MAX, COMPRESS_MAX. rewrite !(proj2 (Z.ltb_ge _ _)) by lia. done.
Qed.

Lemma listpack_slack lp es x : listpack lp es -> listpack (lp ++ x) es.
Proof using. intros (nf & slack & [E H1 H2 H3]). exists nf, (slack ++ x). split; [|done..]. rewrite E. by rewrite <- !app_assoc. Qed.

Lemma dup_list o ts : lrep o ts -> exists o', listTypeDup fresh usable base htab o = Ret o' /\ lrep o' ts.
Proof using Husable Hmem Hconf.
  destruct o as [lp|q]; intros [H1 H2]; unfold listTypeDup.
  - eexists. split; [done|]. split; [|done]. destruct H1 as (es & Hl & ->). exists es. split; [|done]. destruct (listpack_bytes lp es Hl) as (Ht & _ & Himg & Hlen). pose proof Hl as (nf & slack & R). unfold lpDup, lpBytes. rewrite (get_total lp es nf slack R). unfold load, store. rewrite drop_0, take_0. exact (listpack_slack _ es _ Himg).
  - destruct (dup_spec fresh base htab Hmem q ts H1 (options_alike q H2)) as (q' & E & Hr). rewrite E. cbn [obind]. exists (LQuicklist q'). split; [done|]. split; [done|].
    etransitivity; [exact H2|]. etransitivity; [by apply new_options, options_alike|by eapply k_dup].
Qed.
End Spec.

End TListSpec.
