(* ===== verification/TListWalk.v ===== *)
(** * TListWalk: walks over list objects (t_list.c)

    An iterator of a list object in either encoding stands between two parts of the list;
    what each operation on the iterator and on the entry it returned does to them. *)
From S2P Require Import Prelude NumStr Lzf LpEntry Listpack LpBulk StrObj Quicklist QuicklistSpec QuicklistElems QuicklistOps QuicklistIter QuicklistEdit QuicklistInsert QuicklistReplace QuicklistRange QuicklistMain QuicklistKeep TList TListSpec.
Import NumStr LpEntry Listpack LpBulk Quicklist QuicklistSpec QuicklistElems QuicklistOps QuicklistIter QuicklistEdit QuicklistInsert QuicklistReplace QuicklistRange QuicklistMain QuicklistKeep TList TListSpec.

Module TListWalk.

Section Walk.
Context (server : config) (fresh : nat -> Z) (usable : nat -> nat) (base : list Z -> Z) (htab : list Z -> Z -> Z).
Context (Husable : forall n, (n <= usable n)%nat) (Hmem : memory_ok base htab) (Hconf : config_ok server).
Abbreviation F := (list_max_listpack_size server).
Abbreviation ql0 := (quicklistNew F (list_compress_depth server)).
Abbreviation nextT := (listTypeNext fresh base htab).

(** ** Quicklist iterators *)

(** Just made for an index. *)
Definition resting (q : quicklist) (it : quicklistIter) (al : bool) (A B : list (list Z)) : Prop :=
  exists l1 n l2 t1 t t2 k, in_node q it l1 n l2 t1 t t2 /\ it_zi it = None /\ (k < length t)%nat /\ (it_offset it = Z.of_nat k \/ it_offset it = Z.of_nat k - Z.of_nat (length t)) /\ (al = true -> aligned it t k) /\
    let j := if from_head it then k else S k in A = concat t1 ++ take j t /\ B = drop j t ++ concat t2.

Definition qwalk (q : quicklist) (it : quicklistIter) (al : bool) (A B : list (list Z)) : Prop :=
  ready q it A B \/ resting q it al A B \/ exists e pre post, cursor q it e al pre post /\
    if from_head it then A = pre ++ [value_text (e_value e)] /\ B = post else A = pre /\ B = value_text (e_value e) :: post.

Lemma cursor_weak q it e al pre post : cursor q it e true pre post -> cursor q it e al pre post.
Proof using. intros (t1 & t & t2 & k & H1 & H2 & H3). exists t1, t, t2, k. split; [done|]. split; [|done]. intros _. by apply H2. Qed.

Lemma lands_weak q it r al A B : lands q it r true A B -> lands q it r al A B.
Proof using. unfold lands. destruct r as [e|]; [|done]. destruct (from_head it); intros (l & E & Hc); exists l; (split; [done|]); by apply cursor_weak. Qed.

Lemma qwalk_next q it al A B : qwalk q it al A B -> exists q' it' r, quicklistNext fresh base htab q it = Ret (q', it', r) /\ from_head it' = from_head it /\ lands q' it' r al A B.
Proof using Hmem.
  intros [Hr|[Hr|(e & pre & post & Hc & Hab)]].
  - destruct (next_ready fresh base htab Hmem q it A B Hr) as (q' & it' & r & E & Hd & Hl). exists q', it', r. split; [done|]. split; [done|]. by apply lands_weak.
  - destruct Hr as (l1 & n & l2 & t1 & t & t2 & k & (Hok & E & Hl1 & Hcur) & Hzi & Hk & Hoff & Hal & -> & ->). assert (index_of t (it_offset it) = Z.of_nat k) as Ei by (unfold index_of; case_bool; lia). unfold quicklistNext. cbn [Nat.add].
    destruct (arrive fresh base htab (S (length (nodes q))) q _ it l1 n l2 t1 t t2 Hok (or_intror eq_refl) E Hl1 Hcur Hzi ltac:(lia)) as (q' & it' & e & -> & Hat & Ho & Hd). rewrite Ei, Nat2Z.id in Hat. exists q', it', (Some e). split; [done|]. split; [done|].
    pose proof Hat as (_ & _ & _ & _ & _ & _ & _ & _ & _ & _ & _ & _ & Hv & _). destruct (lookup_cut _ _ _ Hv) as [D1 D2]. assert (cursor q' it' e al (concat t1 ++ take k t) (drop (S k) t ++ concat t2)) as Hcur'. { exists t1, t, t2, k. split; [done|]. split; [|done]. intros Ha. unfold aligned in *. rewrite Ho, Hd. by apply Hal. }
    unfold lands. rewrite Hd. destruct (from_head it); [exists (drop (S k) t ++ concat t2); by rewrite D1|exists (concat t1 ++ take k t); by rewrite D2, app_assoc].
  - destruct (next_cursor fresh base htab Hmem q it e al pre post Hc) as (q' & it' & r & E & Hd & Hl). exists q', it', r. split; [done|]. split; [done|]. destruct (from_head it); destruct Hab as [-> ->]; done.
Qed.

Lemma qwalk_release q it al A B : qwalk q it al A B -> exists q', quicklistReleaseIterator fresh base htab q it = Ret q' /\ rep q' (A ++ B).
Proof using Hmem.
  intros [Hr|[Hr|(e & pre & post & Hc & Hab)]]; [by apply release_ready| |].
  - destruct Hr as (l1 & n & l2 & t1 & t & t2 & k & Hin & _ & _ & _ & _ & -> & ->). destruct (release_node fresh base htab Hmem _ _ _ _ _ _ _ _ Hin) as (q' & -> & Hr). exists q'. split; [done|]. rewrite <- app_assoc, (app_assoc (take _ t)), take_drop. done.
  - destruct (release_cursor fresh base htab Hmem q it e al pre post Hc) as (q' & -> & Hr). exists q'. split; [done|]. destruct (from_head it); destruct Hab as [-> ->]; [by rewrite <- app_assoc|done].
Qed.

Lemma qwalk_init q ts dir idx : rep q ts -> exists r, quicklistGetIteratorAtIdx q dir idx = Ret r /\
  match abs_index ts idx with
  | None => r = None
  | Some j => exists it, r = Some it /\ from_head it = dir /\ let i := if dir then j else S j in qwalk q it (Bool.eqb dir (negb (idx <? 0))) (take i ts) (drop i ts)
  end.
Proof using.
  intros (tss & Hok & ->). destruct (at_idx q tss dir idx Hok) as (r & -> & Hr). exists r. split; [done|]. destruct (abs_index (concat tss) idx) as [j|]; [|done]. destruct Hr as (it & l1 & n & l2 & t1 & t & t2 & k & -> & -> & Hin & Hzi & Hd & Hk & Hoff & ->).
  exists it. split; [done|]. split; [done|]. right. left. exists l1, n, l2, t1, t, t2, k. split; [done|]. split; [done|]. split; [done|]. split; [destruct (idx <? 0); [by right|by left]|]. split.
  - intros Ha. unfold aligned. rewrite Hoff, Hd. destruct dir, (idx <? 0); done.
  - rewrite Hd, concat_app. cbn [concat]. set (i := if dir then k else S k). assert ((if dir then (length (concat t1) + k)%nat else S (length (concat t1) + k)) = (length (concat t1) + i)%nat) as -> by (unfold i; destruct dir; lia).
    rewrite take_app_add, drop_app_add. assert (i <= length t)%nat by (unfold i; destruct dir; lia). rewrite take_app_le, drop_app_le by lia. done.
Qed.

(** ** Iterators of list objects *)

(** What is passed and what is to come: towards the tail, the elements of [B] come. *)
Definition walking (o : listobj) (li : listTypeIterator) (al : bool) (A B : list (list Z)) : Prop :=
  let done_ := match li_direction li with LIST_TAIL => B = [] | LIST_HEAD => A = [] end in
  match o, li_pos li with
  | LQuicklist q, QIter None => rep q (A ++ B) /\ alike ql0 q /\ done_
  | LQuicklist q, QIter (Some it) => qwalk q it al A B /\ alike ql0 q /\ from_head it = start_head (li_direction li)
  | LListpack lp, LpIter p => holds lp (A ++ B) /\ small F (A ++ B) /\
      match p with
      | None => done_
      | Some zi => match li_direction li with LIST_TAIL => place lp (A ++ B) (length A) zi | LIST_HEAD => A <> [] /\ place lp (A ++ B) (length A - 1) zi end
      end
  | _, _ => False
  end.

(** At the entry of an element [x]. *)
Definition standing (o : listobj) (li : listTypeIterator) (entry : listTypeEntry) (al : bool) (A : list (list Z)) (x : list Z) (B : list (list Z)) : Prop :=
  match o, li_pos li, entry with
  | LQuicklist q, QIter (Some it), QEntry e => cursor q it e al A B /\ value_text (e_value e) = x /\ alike ql0 q /\ from_head it = start_head (li_direction li)
  | LListpack lp, LpIter _, LpEntry_ zi => place lp (A ++ x :: B) (length A) zi /\
      match li_direction li with LIST_TAIL => walking o li al (A ++ [x]) B | LIST_HEAD => walking o li al A (x :: B) end
  | _, _, _ => False
  end.

Lemma stand_walk o li e al A x B : standing o li e al A x B -> match li_direction li with LIST_TAIL => walking o li al (A ++ [x]) B | LIST_HEAD => walking o li al A (x :: B) end.
Proof using.
  unfold standing, walking. destruct o as [lp|q], (li_pos li) as [[it|]|p], e as [e|zi]; try done; [by intros [_ H]|]. intros (Hc & Hx & Ha & Hd). rewrite Hd. destruct (li_direction li); cbn [start_head]; (split; [|done]); right; right; exists e, A, B; rewrite Hd, Hx; done.
Qed.

Lemma release_walk o li al A B : walking o li al A B -> exists o', listTypeReleaseIterator fresh base htab o li = Ret o' /\ lrep server o' (A ++ B).
Proof using Hmem.
  unfold walking, listTypeReleaseIterator. destruct o as [lp|q], (li_pos li) as [[it|]|p]; try done.
  - intros (Hh & Hs & _). by exists (LListpack lp).
  - intros (Hw & Ha & _). destruct (qwalk_release q it al A B Hw) as (q' & E & Hr). rewrite E. cbn [obind]. exists (LQuicklist q'). split; [done|]. split; [done|]. etransitivity; [exact Ha|by eapply k_release].
  - intros (Hr & Ha & _). by exists (LQuicklist q).
Qed.

Lemma release_stand o li e al A x B : standing o li e al A x B -> exists o', listTypeReleaseIterator fresh base htab o li = Ret o' /\ lrep server o' (A ++ x :: B).
Proof using Hmem.
  intros Hst. pose proof (stand_walk _ _ _ _ _ _ _ Hst) as Hw. destruct (li_direction li); destruct (release_walk _ _ _ _ _ Hw) as (o' & -> & Hr); exists o'; (split; [done|]); [done|by rewrite <- app_assoc in Hr].
Qed.

(** What [listTypeNext] comes to. *)
Definition arrives (o : listobj) (li : listTypeIterator) (r : option listTypeEntry) (al : bool) (A B : list (list Z)) : Prop :=
  match r, li_direction li with
  | None, LIST_TAIL => B = [] /\ walking o li al A B
  | None, LIST_HEAD => A = [] /\ walking o li al A B
  | Some e, LIST_TAIL => exists x B', B = x :: B' /\ standing o li e al A x B'
  | Some e, LIST_HEAD => exists x A', A = A' ++ [x] /\ standing o li e al A' x B
  end.

Lemma next_lp lp li zi al A B : holds lp (A ++ B) -> small F (A ++ B) -> li_pos li = LpIter (Some zi) ->
  match li_direction li with LIST_TAIL => place lp (A ++ B) (length A) zi | LIST_HEAD => A <> [] /\ place lp (A ++ B) (length A - 1) zi end ->
  exists li', nextT (LListpack lp) li = Ret (LListpack lp, li', Some (LpEntry_ zi)) /\ li_direction li' = li_direction li /\ arrives (LListpack lp) li' (Some (LpEntry_ zi)) al A B.
Proof using.
  intros Hh Hs Hp Hpl. unfold listTypeNext. rewrite Hp. destruct (li_direction li) eqn:Ed.
  - destruct Hpl as [HA Hpl]. destruct A as [|x A _] using rev_ind; [done|]. rewrite length_app, <- app_assoc in Hpl. cbn [length app] in Hpl. replace (length A + 1 - 1)%nat with (length A) in Hpl by lia. destruct (prev_text lp _ _ zi Hpl) as (r & -> & Hr). cbn [obind]. eexists. split; [done|]. split; [done|].
    rewrite <- app_assoc in Hh, Hs. cbn [app] in Hh, Hs. exists x, A. split; [done|]. cbn [standing li_pos li_direction walking]. split; [done|]. split; [done|]. split; [done|]. destruct A as [|y A]; [cbn in Hr; by subst r|]. cbn [length] in Hr |- *. destruct Hr as (zi' & -> & Hpl'). split; [done|]. by replace (S (length A) - 1)%nat with (length A) by lia.
  - destruct (next_text lp _ _ zi Hpl) as (r & -> & Hr). cbn [obind]. eexists. split; [done|]. split; [done|]. destruct (place_holds _ _ _ _ Hpl) as [_ Hk]. rewrite length_app in Hk, Hr. destruct B as [|x B]; [cbn in Hk; lia|]. exists x, B. split; [done|]. cbn [standing li_pos li_direction walking]. split; [done|]. rewrite <- app_assoc. cbn [app]. split; [done|]. split; [done|].
    rewrite length_app. cbn [length] in *. destruct (Nat.ltb_spec (S (length A)) (length A + S (length B))) as [Hlt|Hge].
    + destruct Hr as (zi' & -> & Hpl'). by replace (length A + 1)%nat with (S (length A)) by lia.
    + subst r. destruct B; [done|cbn in Hge; lia].
Qed.

Lemma next_walk o li al A B : walking o li al A B -> exists o' li' r, nextT o li = Ret (o', li', r) /\ li_direction li' = li_direction li /\ arrives o' li' r al A B.
Proof using Hmem.
  intros Hw. pose proof Hw as Hw'. unfold walking in Hw. destruct o as [lp|q], (li_pos li) as [[it|]|[zi|]] eqn:Ep; try done.
  - destruct Hw as (Hh & Hs & Hpl). destruct (next_lp lp li zi al A B Hh Hs Ep Hpl) as (li' & -> & H). eauto.
  - unfold listTypeNext. rewrite Ep. exists (LListpack lp), li, None. split; [done|]. split; [done|]. unfold arrives. destruct Hw as (_ & _ & Hd). destruct (li_direction li); done.
  - destruct Hw as (Hw & Ha & Hd). destruct (qwalk_next q it al A B Hw) as (q' & it' & r & E & Hd' & Hl). unfold listTypeNext. rewrite Ep, E. cbn [obind fst snd]. assert (alike ql0 q') as Ha' by (etransitivity; [exact Ha|by eapply k_next]). eexists _, _, _. split; [done|]. split; [done|]. unfold lands in Hl. rewrite Hd', Hd in Hl. unfold arrives. cbn [li_direction]. destruct r as [e|]; cbn [fmap option_fmap option_map].
    + destruct (li_direction li) eqn:El; cbn [start_head] in *; destruct Hl as (l & -> & Hc); eexists _, l; (split; [done|]); cbn [standing li_pos li_direction]; (split; [done|]); (split; [done|]); (split; [done|]); rewrite Hd', Hd; done.
    + destruct Hl as (Hn & Hcur & Hr). assert (walking (LQuicklist q') (LI (li_direction li) (QIter (Some it'))) al A B) as Hwk. { cbn [walking li_pos li_direction]. split; [left; left; split; [done|]; rewrite Hd', Hd; done|]. split; [done|congruence]. } destruct (li_direction li); done.
  - unfold listTypeNext. rewrite Ep. exists (LQuicklist q), li, None. split; [done|]. split; [done|]. unfold arrives. destruct Hw as (_ & _ & Hd). destruct (li_direction li); done.
Qed.

Lemma init_walk o ts idx dir : lrep server o ts -> exists li, listTypeInitIterator o idx dir = Ret li /\ li_direction li = dir /\
  let i := match abs_index ts idx, dir with Some j, LIST_TAIL => j | Some j, LIST_HEAD => S j | None, LIST_TAIL => length ts | None, LIST_HEAD => 0%nat end in
  walking o li (Bool.eqb (start_head dir) (negb (idx <? 0))) (take i ts) (drop i ts).
Proof using.
  intros Hr. unfold listTypeInitIterator. destruct o as [lp|q]; destruct Hr as [H1 H2].
  - destruct (seek_text lp ts idx H1) as (r & -> & Hs). cbn [obind]. eexists. split; [done|]. split; [done|]. cbn [walking li_pos li_direction]. rewrite take_drop. split; [done|]. split; [done|]. unfold abs_index. cbv zeta in Hs. destruct (_ && _) eqn:Eb.
    + destruct Hs as (zi & -> & Hp). set (k := Z.to_nat _) in *. clearbody k. destruct (place_holds _ _ _ _ Hp) as [_ Hk]. destruct dir; rewrite length_take.
      * split; [intros Hn; apply (f_equal length) in Hn; rewrite length_take in Hn; cbn [length] in Hn; lia|]. by replace (S k `min` length ts - 1)%nat with k by lia.
      * by replace (k `min` length ts)%nat with k by lia.
    + subst r. destruct dir; [done|]. by apply drop_ge.
  - destruct (qwalk_init q ts (start_head dir) idx H1) as (r & -> & Hi). cbn [obind]. eexists. split; [done|]. split; [done|]. cbn [walking li_pos li_direction]. destruct (abs_index ts idx) as [j|].
    + destruct Hi as (it & -> & Hd & Hw). split; [|done]. by destruct dir.
    + subst r. rewrite take_drop. split; [done|]. split; [done|]. destruct dir; [done|]. by apply drop_ge.
Qed.

Lemma stand_value o li e al A x B : standing o li e al A x B -> exists v, listTypeGetValue o e = Ret v /\ value_text v = x /\ sane v.
Proof using.
  unfold standing, listTypeGetValue. destruct o as [lp|q], (li_pos li) as [[it|]|p], e as [e|zi]; try done.
  - intros [Hp _]. eexists. split; [done|]. pose proof (value_at _ _ _ _ Hp) as Hv. rewrite list_lookup_middle in Hv by done. injection Hv as <-. split; [done|]. by eapply value_sane.
  - intros ((t1 & t & t2 & k & (l1 & n & l2 & zi & Hat) & _) & Hx & _). eexists. split; [done|]. split; [done|]. by apply Hat.
Qed.

Lemma stand_equal o li e al A x B v : standing o li e al A x B -> sdsEncodedObject v = true -> listTypeEqual o e v = Ret (bool_decide (x = StrObj.content v)).
Proof using.
  intros Hst Hv. unfold listTypeEqual. assert (sds_of v = Ret (StrObj.content v)) as -> by (unfold sds_of, StrObj.content, sdsEncodedObject in *; by destruct (StrObj.o_body v)). cbn [obind]. unfold standing in Hst. destruct o as [lp|q], (li_pos li) as [[it|]|p], e as [e|zi]; try done.
  - destruct Hst as [Hp _]. rewrite (compare_text lp _ _ zi _ Hp), list_lookup_middle by done. f_equal. apply bool_decide_ext. split; congruence.
  - destruct Hst as (Hc & Hx & _). rewrite (compare_spec q it e al A B _ Hc). by rewrite Hx.
Qed.

Lemma delete_walk o li e A x B : standing o li e true A x B -> exists o' li', listTypeDelete fresh usable base htab o li e = Ret (o', li') /\ li_direction li' = li_direction li /\ walking o' li' true A B.
Proof using Husable Hmem.
  intros Hst. pose proof (stand_walk _ _ _ _ _ _ _ Hst) as Hw. unfold standing in Hst. unfold listTypeDelete, with_iter. destruct o as [lp|q], (li_pos li) as [[it|]|p] eqn:Ep, e as [e|zi]; try done.
  - destruct Hst as [Hp _]. assert (small F (A ++ x :: B)) as Hs. { unfold walking in Hw. rewrite Ep in Hw. destruct (li_direction li); destruct Hw as (_ & Hs & _); [done|by rewrite <- app_assoc in Hs]. }
    destruct (delete_place fresh usable Husable F lp _ _ zi Hp Hs) as (lp' & r & -> & Hh & Hr). cbn [not_null obind]. rewrite take_app_length in *. replace (drop (S (length A)) (A ++ x :: B)) with B in * by (rewrite drop_app_ge by lia; by replace (S (length A) - length A)%nat with 1%nat by lia).
    assert (small F (A ++ B)) as Hs'. { eapply small_sub; [exact Hs| |rewrite !length_app; cbn; lia]. intros y. rewrite !elem_of_app, elem_of_cons. tauto. }
    rewrite length_app in Hr. cbn [length] in Hr. destruct (li_direction li) eqn:Ed.
    + assert (exists lpi, match r with Some p => lpPrev lp' p | None => lpLast lp' end = Ret lpi /\ match lpi with None => A = [] | Some zi => A <> [] /\ place lp' (A ++ B) (length A - 1) zi end) as (lpi & -> & Hlpi).
      { destruct (decide _) as [Hlt|Hge].
        - destruct Hr as (zi' & -> & Hp'). destruct (prev_text lp' _ _ zi' Hp') as (r & -> & Hr). exists r. split; [done|]. destruct A as [|a A]; cbn [length] in *; [by subst r|]. destruct Hr as (zi'' & -> & Hp''). split; [done|]. by replace (S (length A) - 1)%nat with (length A) by lia.
        - subst r. assert (B = []) as -> by (destruct B; [done|cbn in Hge; lia]). rewrite app_nil_r in *. destruct (end_place lp' A LIST_TAIL Hh) as (r & -> & Hr). exists r. split; [done|]. destruct r; [|done]. split; [|done]. intros ->. by destruct (place_holds _ _ _ _ Hr) as [_ ?]; cbn in *; lia. }
      cbn [obind]. eexists _, _. split; [done|]. split; [done|]. cbn [walking li_pos li_direction]. split; [done|]. split; [done|]. by destruct lpi.
    + cbn [obind]. eexists _, _. split; [done|]. split; [done|]. cbn [walking li_pos li_direction]. split; [done|]. split; [done|]. destruct (decide _) as [Hlt|Hge]; [destruct Hr as (zi' & -> & Hp'); done|]. subst r. destruct B; [done|cbn in Hge; lia].
  - destruct Hst as (Hc & _ & Ha & Hd). destruct (del_entry fresh usable base htab Husable Hmem q it e A B Hc) as (q' & it' & E & Hd' & Hr). rewrite E. cbn [obind]. eexists _, _. split; [done|]. split; [done|]. cbn [walking li_pos li_direction]. split; [by left|]. split; [etransitivity; [exact Ha|by eapply k_delE]|congruence].
Qed.

Lemma insert_stand o li e al A x B v where_ : standing o li e al A x B -> value_ok v -> room server o (A ++ x :: B) [StrObj.content v] ->
  exists o' li' e' o'', listTypeInsert fresh usable base htab o li e v where_ = Ret (o', li', e') /\ listTypeReleaseIterator fresh base htab o' li' = Ret o'' /\
    lrep server o'' (A ++ match where_ with LIST_TAIL => [x; StrObj.content v] | LIST_HEAD => [StrObj.content v; x] end ++ B).
Proof using Husable Hmem.
  intros Hst Hv Hroom. pose proof Hv as (_ & Ht & _). destruct (decoded v Hv) as (d & E & Es). unfold listTypeInsert. rewrite E. cbn [obind]. rewrite Es. cbn [obind]. unfold standing in Hst. unfold with_iter. destruct o as [lp|q], (li_pos li) as [[it|]|p] eqn:Ep, e as [e|zi]; try done.
  - destruct Hst as [Hp _]. cbn [room app] in Hroom. set (after := match where_ with LIST_TAIL => true | LIST_HEAD => false end).
    destruct (insert_at_text fresh usable Husable F lp (A ++ x :: B) (length A) zi (StrObj.content v) after Hp Hroom) as (lp' & zi' & Ei & Hh). assert (match where_ with LIST_TAIL => LP_AFTER | LIST_HEAD => LP_BEFORE end = if after then LP_AFTER else LP_BEFORE) as -> by (by destruct where_). rewrite Ei. cbn [not_null obind].
    eexists _, _, _, _. split; [done|]. unfold listTypeReleaseIterator. rewrite Ep. split; [done|].
    assert (let j := if after then S (length A) else length A in take j (A ++ x :: B) ++ StrObj.content v :: drop j (A ++ x :: B) = A ++ match where_ with LIST_TAIL => [x; StrObj.content v] | LIST_HEAD => [StrObj.content v; x] end ++ B) as Ej.
    { cbv zeta. unfold after. destruct where_; [by rewrite take_app_length, drop_app_length|]. rewrite take_app_ge, drop_app_ge by lia. replace (S (length A) - length A)%nat with 1%nat by lia. cbn. by rewrite <- app_assoc. }
    cbv zeta in Ej, Hh. rewrite Ej in Hh. split; [done|]. eapply small_sub; [exact Hroom| |].
    + intros y. destruct where_; rewrite ?elem_of_cons, !elem_of_app, ?elem_of_cons; rewrite ?elem_of_nil; tauto.
    + destruct where_; cbn [length]; rewrite !length_app; cbn [length]; lia.
  - destruct Hst as (Hc & Hx & Ha & Hd). unfold quicklistInsertAfter, quicklistInsertBefore. set (after := match where_ with LIST_TAIL => true | LIST_HEAD => false end). destruct (insert_rep fresh usable base htab Husable Hmem q it e al A B (StrObj.content v) after Hc Ht) as (q' & it' & Ei & Hidle & Hr).
    assert (match where_ with LIST_TAIL => _quicklistInsert fresh usable base htab 0 q it e (StrObj.content v) true | LIST_HEAD => _quicklistInsert fresh usable base htab 0 q it e (StrObj.content v) false end = Ret (q', it')) as -> by (by destruct where_). cbn [obind].
    destruct (release_idle fresh base htab Hmem q' it' _ Hr Hidle) as (q'' & Er & Hr''). eexists _, _, _, _. split; [done|]. unfold listTypeReleaseIterator. cbn [li_pos]. rewrite Er. cbn [obind]. split; [done|]. split; [|etransitivity; [exact Ha|]; etransitivity; [by eapply k_insert|by eapply k_release]]. rewrite Hx in Hr''. by destruct where_.
Qed.
End Walk.

End TListWalk.
