(* ===== verification/TListCmd.v ===== *)
(** * TListCmd: the list commands (t_list.c)

    The commands on the keys of one database.  A pointer to a list object of the database
    is its key: the object is looked up again wherever the code goes through the pointer,
    so that LMOVE from a list to itself goes through one object.  The lookups are those of
    keys that are not expired; arguments are the strings of the request.  The timeout of a
    blocking command is read by a function of floating point numbers, which is a parameter;
    a client that is blocked gets no reply here. *)
From stdpp Require Import gmap.
From S2P Require Import Prelude NumStr LpEntry Listpack LpBulk StrObj SdsArgs Quicklist TList.
Import NumStr LpEntry Listpack LpBulk Quicklist TList.

Module TListCmd.

(** An object of the database: a list, or one of another type. *)
Inductive value := VList (o : listobj) | VOther.

(** What a command leaves behind besides the data: [signalModifiedKey], keyspace
    notifications and the arguments it is replicated with. *)
Inductive event :=
| Signal (k : list Z) | NotifyNew (k : list Z) | NotifyList (name k : list Z) | NotifyGeneric (name k : list Z) | Rewrite (argv : list (list Z)).

Record state := State { db : gmap (list Z) value; dirty : Z; events : list event }.

Definition set_db (st : state) (d : gmap (list Z) value) : state := State d (dirty st) (events st).
Definition add_dirty (st : state) (n : Z) : state := State (db st) (dirty st + n) (events st).
Definition emit (st : state) (es : list event) : state := State (db st) (dirty st) (events st ++ es).
Definition put (st : state) (k : list Z) (o : listobj) : state := set_db st (<[k := VList o]> (db st)).

Inductive reply :=
| ROk | RNull | RNullArray | RLong (n : Z) | RBulk (s : list Z) | RArray (n : Z) (items : list reply)
| RWrongType | RSyntax | RNotInteger | ROutOfRange | RNoKey | RArity | RRankZero | RTimeout
| RBlocked (keys : list (list Z)) (timeout : Z).

(** [shared.emptyarray] *)
Definition emptyarray : reply := RArray 0 [].

Definition dbAdd (st : state) (k : list Z) (o : listobj) : outcome state :=
  match db st !! k with None => Ret (emit (put st k o) [NotifyNew k]) | Some _ => Abort end.

Definition dbDelete (st : state) (k : list Z) : state := set_db st (delete k (db st)).

(** The list at the end of a pointer. *)
Definition with_list {A} (st : state) (k : list Z) (f : listobj -> outcome (listobj * A)) : outcome (state * A) :=
  match db st !! k with
  | Some (VList o) => let* (o, a) := f o in Ret (put st k o, a)
  | _ => Abort
  end.

Definition on_list (st : state) (k : list Z) (f : listobj -> outcome listobj) : outcome state :=
  let* (st, _) := with_list st k (fun o => let* o := f o in Ret (o, tt)) in Ret st.

(** What [addReplyBulk] sends of an object. *)
Definition obj_text (o : StrObj.robj) : list Z := match StrObj.o_body o with StrObj.BInt v => ll_text v | StrObj.BRaw s | StrObj.BEmbstr s => s end.
(** What [addReplyBulkCBuffer] or [addReplyBulkLongLong] sends of an element. *)
Definition element (v : listpackEntry) : reply := RBulk match v with SVal s => s | LVal v => ll_text v end.

Definition arg (s : list Z) : StrObj.robj := StrObj.createStringObject s.
Definition getLong (s : list Z) : option Z := StrObj.getLongFromObjectOrReply (Some (arg s)).
Definition getRangeLong (s : list Z) (min max : Z) : option Z := StrObj.getRangeLongFromObjectOrReply (Some (arg s)) min max.
Definition getPositiveLong (s : list Z) : option Z := StrObj.getPositiveLongFromObjectOrReply (Some (arg s)).

(** More than the turns of a loop over the elements. *)
Definition turns (o : listobj) : nat := match o with LListpack lp => S (length lp) | LQuicklist q => S (Z.to_nat (total_count q)) end.

Definition getListPositionFromObjectOrReply (s : list Z) : option side :=
  if SdsArgs.same_case s (chars "right") then Some LIST_TAIL else if SdsArgs.same_case s (chars "left") then Some LIST_HEAD else None.

Section Cmd.
Context (server : config) (fresh : nat -> Z) (usable : nat -> nat).
Context (base : list Z -> Z) (htab : list Z -> Z -> Z).
(** [getTimeoutFromObjectOrReply] in seconds; [None] when it has replied with an error. *)
Context (getTimeout : list Z -> option Z).

Abbreviation grow := (listTypeTryConversionAppend server fresh base htab).
Abbreviation convert := (listTypeTryConversion server fresh base htab).
Abbreviation pushT := (listTypePush fresh usable base htab).
Abbreviation popT := (listTypePop fresh usable base htab).
Abbreviation nextT := (listTypeNext fresh base htab).
Abbreviation releaseT := (listTypeReleaseIterator fresh base htab).
Abbreviation delRangeT := (listTypeDelRange fresh usable base htab).

(** ** Pushing *)

Fixpoint push_all (st : state) (k : list Z) (where_ : side) (vals : list (list Z)) : outcome state :=
  match vals with
  | [] => Ret st
  | v :: vals => let* st := on_list st k (fun o => pushT o (arg v) where_) in push_all (add_dirty st 1) k where_ vals
  end.

Definition pushGenericCommand (st : state) (where_ : side) (xx : bool) (k : list Z) (vals : list (list Z)) : outcome (state * reply) :=
  match db st !! k with
  | Some VOther => Ret (st, RWrongType)
  | lobj =>
      if match lobj with None => xx | Some _ => false end then Ret (st, RLong 0) else
      let* st := match lobj with None => dbAdd st k (createListListpackObject fresh usable) | Some _ => Ret st end in
      let* st := on_list st k (fun o => grow o (arg <$> vals)) in
      let* st := push_all st k where_ vals in
      let* (st, n) := with_list st k listTypeLength in
      Ret (emit st [Signal k; NotifyList (if at_head where_ then chars "lpush" else chars "rpush") k], RLong n)
  end.

Definition lpushCommand (st : state) := pushGenericCommand st LIST_HEAD false.
Definition rpushCommand (st : state) := pushGenericCommand st LIST_TAIL false.
Definition lpushxCommand (st : state) := pushGenericCommand st LIST_HEAD true.
Definition rpushxCommand (st : state) := pushGenericCommand st LIST_TAIL true.

(** ** At an element *)

(** The loop of LINSERT, and whether the value is in. *)
Fixpoint insert_loop (fuel : nat) (o : listobj) (li : listTypeIterator) (pivot v : list Z) (where_ : side) : outcome (listobj * listTypeIterator * bool) :=
  match fuel with
  | O => Abort
  | S fuel =>
      let* (r, e) := nextT o li in
      let '(o, li) := r in
      match e with
      | None => Ret (o, li, false)
      | Some e =>
          let* eq := listTypeEqual o e (arg pivot) in
          if eq : bool then
            let* (r, _) := listTypeInsert fresh usable base htab o li e (arg v) where_ in
            Ret (r, true)
          else insert_loop fuel o li pivot v where_
      end
  end.

Definition insert_at_pivot (o : listobj) (pivot v : list Z) (where_ : side) : outcome (listobj * bool) :=
  let* li := listTypeInitIterator o 0 LIST_TAIL in
  let* (r, inserted) := insert_loop (turns o) o li pivot v where_ in
  let* o := releaseT (fst r) (snd r) in
  Ret (o, inserted).

Definition linsertCommand (st : state) (k where_arg pivot v : list Z) : outcome (state * reply) :=
  let where_ := if SdsArgs.same_case where_arg (chars "after") then Some LIST_TAIL
                else if SdsArgs.same_case where_arg (chars "before") then Some LIST_HEAD else None in
  match where_ with
  | None => Ret (st, RSyntax)
  | Some where_ =>
      match db st !! k with
      | None => Ret (st, RLong 0)
      | Some VOther => Ret (st, RWrongType)
      | Some (VList _) =>
          let* st := on_list st k (fun o => grow o [arg v]) in
          let* (st, inserted) := with_list st k (fun o => insert_at_pivot o pivot v where_) in
          if inserted : bool then
            let st := add_dirty (emit st [Signal k; NotifyList (chars "linsert") k]) 1 in
            let* (st, n) := with_list st k listTypeLength in
            Ret (st, RLong n)
          else Ret (st, RLong (-1))
      end
  end.

Definition llenCommand (st : state) (k : list Z) : outcome (state * reply) :=
  match db st !! k with
  | None => Ret (st, RLong 0)
  | Some VOther => Ret (st, RWrongType)
  | Some (VList _) => let* (st, n) := with_list st k listTypeLength in Ret (st, RLong n)
  end.

(** The element of an index. *)
Definition get_at (o : listobj) (index : Z) : outcome (listobj * reply) :=
  let* li := listTypeInitIterator o index LIST_TAIL in
  let* (r, e) := nextT o li in
  let '(o, li) := r in
  let* rep := match e with Some e => let* v := listTypeGetValue o e in Ret (element v) | None => Ret RNull end in
  let* o := releaseT o li in
  Ret (o, rep).

Definition lindexCommand (st : state) (k index : list Z) : outcome (state * reply) :=
  match db st !! k with
  | None => Ret (st, RNull)
  | Some VOther => Ret (st, RWrongType)
  | Some (VList _) =>
      match getLong index with
      | None => Ret (st, RNotInteger)
      | Some index => with_list st k (fun o => get_at o index)
      end
  end.

Definition lsetCommand (st : state) (k index v : list Z) : outcome (state * reply) :=
  match db st !! k with
  | None => Ret (st, RNoKey)
  | Some VOther => Ret (st, RWrongType)
  | Some (VList _) =>
      match getLong index with
      | None => Ret (st, RNotInteger)
      | Some index =>
          let* st := on_list st k (fun o => grow o [arg v]) in
          let* (st, replaced) := with_list st k (fun o => listTypeReplaceAtIndex fresh usable base htab o index (arg v)) in
          if replaced : bool then
            let* st := on_list st k (fun o => convert o LIST_CONV_SHRINKING) in
            Ret (add_dirty (emit st [Signal k; NotifyList (chars "lset") k]) 1, ROk)
          else Ret (st, ROutOfRange)
      end
  end.

(** ** Ranges *)

Fixpoint quicklist_range (rangelen : nat) (q : quicklist) (iter : option quicklistIter) : outcome (quicklist * option quicklistIter * list reply) :=
  match rangelen with
  | O => Ret (q, iter, [])
  | S rangelen =>
      match iter with
      | None => Abort
      | Some it =>
          let* (r, e) := quicklistNext fresh base htab q it in
          match e with
          | None => Abort
          | Some e =>
              let* (r, l) := quicklist_range rangelen (fst r) (Some (snd r)) in
              Ret (r, element (e_value e) :: l)
          end
      end
  end.

(** [from] and [rangelen] are [int]s; a count below zero would run the loop past the end. *)
Definition addListQuicklistRangeReply (q : quicklist) (from rangelen : Z) (reverse : bool) : outcome (quicklist * reply) :=
  let from := s32 from in
  let rangelen := s32 rangelen in
  let* iter := quicklistGetIteratorAtIdx q (negb reverse) from in
  if rangelen <? 0 then Abort else
  let* (r, l) := quicklist_range (Z.to_nat rangelen) q iter in
  let '(q, iter) := r in
  let* q := match iter with Some it => quicklistReleaseIterator fresh base htab q it | None => Ret q end in
  Ret (q, RArray rangelen l).

Fixpoint listpack_range (rangelen : nat) (lp : list Z) (p : option nat) (reverse : bool) : outcome (list reply) :=
  match rangelen with
  | O => Ret []
  | S rangelen =>
      match p with
      | None => Abort
      | Some p =>
          let* next := if reverse then lpPrev lp p else lpNext lp p in
          let* l := listpack_range rangelen lp next reverse in
          Ret (element (lpGetValue lp p) :: l)
      end
  end.

Definition addListListpackRangeReply (lp : list Z) (from rangelen : Z) (reverse : bool) : outcome reply :=
  let from := s32 from in
  let rangelen := s32 rangelen in
  let* p := lpSeek lp from in
  if rangelen <? 0 then Abort else
  let* l := listpack_range (Z.to_nat rangelen) lp p reverse in
  Ret (RArray rangelen l).

(** [start] and [end] as indexes from the head; the first is not negative. *)
Definition clip (llen start end_ : Z) : Z * Z :=
  let start := if start <? 0 then llen + start else start in
  let end_ := if end_ <? 0 then llen + end_ else end_ in
  (if start <? 0 then 0 else start, end_).

Definition addListRangeReply (o : listobj) (start end_ : Z) (reverse : bool) : outcome (listobj * reply) :=
  let* (o, llen) := listTypeLength o in
  let '(start, end_) := clip llen start end_ in
  if (end_ <? start) || (llen <=? start) then Ret (o, emptyarray) else
  let end_ := if llen <=? end_ then llen - 1 else end_ in
  let rangelen := end_ - start + 1 in
  let from := if reverse then end_ else start in
  match o with
  | LQuicklist q => let* (q, r) := addListQuicklistRangeReply q from rangelen reverse in Ret (LQuicklist q, r)
  | LListpack lp => let* r := addListListpackRangeReply lp from rangelen reverse in Ret (o, r)
  end.

(** [listElementsRemoved] with [signal]; whether the key was deleted. *)
Definition listElementsRemoved (st : state) (k : list Z) (where_ : side) (count : Z) (signal : bool) : outcome (state * bool) :=
  let st := emit st [NotifyList (if at_head where_ then chars "lpop" else chars "rpop") k] in
  let* (st, n) := with_list st k listTypeLength in
  let* (st, deleted) := if n =? 0 then Ret (emit (dbDelete st k) [NotifyGeneric (chars "del") k], true)
                        else let* st := on_list st k (fun o => convert o LIST_CONV_SHRINKING) in Ret (st, false) in
  let st := if signal then emit st [Signal k] else st in
  Ret (add_dirty st count, deleted).

(** The range at an end that a count takes: its length, its indexes and the direction. *)
Definition end_range (where_ : side) (llen count : Z) : Z * (Z * Z) * bool :=
  let rangelen := if llen <? count then llen else count in
  match where_ with
  | LIST_HEAD => (rangelen, (0, rangelen - 1), false)
  | LIST_TAIL => (rangelen, (- rangelen, -1), true)
  end.

(** The elements as an array, taken off the list. *)
Definition pop_range (st : state) (k : list Z) (where_ : side) (count : Z) : outcome (state * reply) :=
  let* (st, llen) := with_list st k listTypeLength in
  let '(rangelen, (rangestart, rangeend), reverse) := end_range where_ llen count in
  let* (st, r) := with_list st k (fun o => addListRangeReply o rangestart rangeend reverse) in
  let* st := on_list st k (fun o => delRangeT o rangestart rangelen) in
  let* (st, _) := listElementsRemoved st k where_ rangelen true in
  Ret (st, r).

Definition listPopRangeAndReplyWithKey (st : state) (k : list Z) (where_ : side) (count : Z) : outcome (state * reply) :=
  let* (st, r) := pop_range st k where_ count in
  Ret (st, RArray 2 [RBulk k; r]).

(** [args] are the arguments after the key. *)
Definition popGenericCommand (st : state) (where_ : side) (k : list Z) (args : list (list Z)) : outcome (state * reply) :=
  let count := match args with [] => Some None | [c] => match getPositiveLong c with Some c => Some (Some c) | None => None end | _ => None end in
  if (1 <? Z.of_nat (length args)) then Ret (st, RArity) else
  match count with
  | None => Ret (st, RNotInteger)
  | Some count =>
      match db st !! k with
      | None => Ret (st, match count with Some _ => RNullArray | None => RNull end)
      | Some VOther => Ret (st, RWrongType)
      | Some (VList _) =>
          match count with
          | Some count => if count =? 0 then Ret (st, emptyarray) else pop_range st k where_ count
          | None =>
              let* (st, v) := with_list st k (fun o => popT o where_) in
              match v with
              | None => Abort
              | Some v => let* (st, _) := listElementsRemoved st k where_ 1 true in Ret (st, RBulk (obj_text v))
              end
          end
      end
  end.

Definition lpopCommand (st : state) := popGenericCommand st LIST_HEAD.
Definition rpopCommand (st : state) := popGenericCommand st LIST_TAIL.

Definition lrangeCommand (st : state) (k start end_ : list Z) : outcome (state * reply) :=
  match getLong start, getLong end_ with
  | Some start, Some end_ =>
      match db st !! k with
      | None => Ret (st, emptyarray)
      | Some VOther => Ret (st, RWrongType)
      | Some (VList _) => with_list st k (fun o => addListRangeReply o start end_ false)
      end
  | _, _ => Ret (st, RNotInteger)
  end.

Definition ltrimCommand (st : state) (k start end_ : list Z) : outcome (state * reply) :=
  match getLong start, getLong end_ with
  | Some start, Some end_ =>
      match db st !! k with
      | None => Ret (st, ROk)
      | Some VOther => Ret (st, RWrongType)
      | Some (VList _) =>
          let* (st, llen) := with_list st k listTypeLength in
          let '(start, end_) := clip llen start end_ in
          let '(ltrim, rtrim) :=
            if (end_ <? start) || (llen <=? start) then (llen, 0)
            else (start, llen - (if llen <=? end_ then llen - 1 else end_) - 1) in
          let* st := on_list st k (fun o => delRangeT o 0 ltrim) in
          let* st := on_list st k (fun o => delRangeT o (- rtrim) rtrim) in
          let st := emit st [NotifyList (chars "ltrim") k] in
          let* (st, n) := with_list st k listTypeLength in
          let* st := if n =? 0 then Ret (emit (dbDelete st k) [NotifyGeneric (chars "del") k])
                     else on_list st k (fun o => convert o LIST_CONV_SHRINKING) in
          Ret (add_dirty (emit st [Signal k]) (ltrim + rtrim), ROk)
      end
  | _, _ => Ret (st, RNotInteger)
  end.

(** ** Searching *)

(** The options of LPOS: the rank, the count, -1 when it is not given, and the length;
    or the error. *)
Fixpoint lpos_options (argv : list (list Z)) (rank count maxlen : Z) : Z * Z * Z + reply :=
  match argv with
  | [] => inl (rank, count, maxlen)
  | [_] => inr RSyntax
  | opt :: a :: argv =>
      if SdsArgs.same_case opt (chars "RANK") then
        match getRangeLong a (- StrObj.LONG_MAX) StrObj.LONG_MAX with
        | None => inr RNotInteger
        | Some rank => if rank =? 0 then inr RRankZero else lpos_options argv rank count maxlen
        end
      else if SdsArgs.same_case opt (chars "COUNT") then
        match getPositiveLong a with None => inr RNotInteger | Some count => lpos_options argv rank count maxlen end
      else if SdsArgs.same_case opt (chars "MAXLEN") then
        match getPositiveLong a with None => inr RNotInteger | Some maxlen => lpos_options argv rank count maxlen end
      else inr RSyntax
  end.

(** The matches for an array, and [matchindex] at the end of the loop. *)
Fixpoint lpos_loop (fuel : nat) (o : listobj) (li : listTypeIterator) (ele : list Z) (rank count maxlen llen index matches : Z) : outcome (listobj * listTypeIterator * list Z * Z) :=
  match fuel with
  | O => Abort
  | S fuel =>
      let* (r, e) := nextT o li in
      let '(o, li) := r in
      match e with
      | None => Ret (o, li, [], -1)
      | Some e =>
          if negb ((maxlen =? 0) || (index <? maxlen)) then Ret (o, li, [], -1) else
          let* eq := listTypeEqual o e (arg ele) in
          if eq : bool then
            let matches := matches + 1 in
            let matchindex := match li_direction li with LIST_TAIL => index | LIST_HEAD => llen - index - 1 end in
            if rank <=? matches then
              if negb (count =? -1) then
                if negb (count =? 0) && (count <=? matches - rank + 1) then Ret (o, li, [matchindex], matchindex)
                else let* (r, m) := lpos_loop fuel o li ele rank count maxlen llen (index + 1) matches in
                     Ret (fst r, matchindex :: snd r, m)
              else Ret (o, li, [], matchindex)
            else lpos_loop fuel o li ele rank count maxlen llen (index + 1) matches
          else lpos_loop fuel o li ele rank count maxlen llen (index + 1) matches
      end
  end.

Definition find_positions (o : listobj) (ele : list Z) (rank count maxlen : Z) (direction : side) : outcome (listobj * (list Z * Z)) :=
  let* li := listTypeInitIterator o (match direction with LIST_HEAD => -1 | LIST_TAIL => 0 end) direction in
  let* (o, llen) := listTypeLength o in
  let* (r, matchindex) := lpos_loop (turns o) o li ele rank count maxlen llen 0 0 in
  let '(o, li, l) := r in
  let* o := releaseT o li in
  Ret (o, (l, matchindex)).

Definition lposCommand (st : state) (k ele : list Z) (argv : list (list Z)) : outcome (state * reply) :=
  match lpos_options argv 1 (-1) 0 with
  | inr e => Ret (st, e)
  | inl (rank, count, maxlen) =>
      let '(rank, direction) := if rank <? 0 then (- rank, LIST_HEAD) else (rank, LIST_TAIL) in
      match db st !! k with
      | None => Ret (st, if negb (count =? -1) then emptyarray else RNull)
      | Some VOther => Ret (st, RWrongType)
      | Some (VList _) =>
          let* (st, r) := with_list st k (fun o => find_positions o ele rank count maxlen direction) in
          let '(l, matchindex) := r in
          Ret (st, if negb (count =? -1) then RArray (Z.of_nat (length l)) (RLong <$> l)
                   else if negb (matchindex =? -1) then RLong matchindex else RNull)
      end
  end.

(** The loop of LREM: how many were removed. *)
Fixpoint lrem_loop (fuel : nat) (o : listobj) (li : listTypeIterator) (obj : list Z) (toremove removed : Z) : outcome (listobj * listTypeIterator * Z) :=
  match fuel with
  | O => Abort
  | S fuel =>
      let* (r, e) := nextT o li in
      let '(o, li) := r in
      match e with
      | None => Ret (o, li, removed)
      | Some e =>
          let* eq := listTypeEqual o e (arg obj) in
          if eq : bool then
            let* (o, li) := listTypeDelete fresh usable base htab o li e in
            let removed := removed + 1 in
            if negb (toremove =? 0) && (removed =? toremove) then Ret (o, li, removed) else lrem_loop fuel o li obj toremove removed
          else lrem_loop fuel o li obj toremove removed
      end
  end.

Definition remove_matches (o : listobj) (obj : list Z) (toremove : Z) : outcome (listobj * Z) :=
  let '(toremove, index, direction) := if toremove <? 0 then (- toremove, -1, LIST_HEAD) else (toremove, 0, LIST_TAIL) in
  let* li := listTypeInitIterator o index direction in
  let* (r, removed) := lrem_loop (turns o) o li obj toremove 0 in
  let* o := releaseT (fst r) (snd r) in
  Ret (o, removed).

Definition lremCommand (st : state) (k count obj : list Z) : outcome (state * reply) :=
  match getRangeLong count (- StrObj.LONG_MAX) StrObj.LONG_MAX with
  | None => Ret (st, RNotInteger)
  | Some toremove =>
      match db st !! k with
      | None => Ret (st, RLong 0)
      | Some VOther => Ret (st, RWrongType)
      | Some (VList _) =>
          let* (st, removed) := with_list st k (fun o => remove_matches o obj toremove) in
          let st := add_dirty st removed in
          let* st := if negb (removed =? 0) then
                       let st := emit st [NotifyList (chars "lrem") k] in
                       let* (st, n) := with_list st k listTypeLength in
                       let* st := if n =? 0 then Ret (emit (dbDelete st k) [NotifyGeneric (chars "del") k])
                                  else on_list st k (fun o => convert o LIST_CONV_SHRINKING) in
                       Ret (emit st [Signal k])
                     else Ret st in
          Ret (st, RLong removed)
      end
  end.

(** ** Moving *)

Definition lmoveHandlePush (st : state) (dstkey : list Z) (exists_ : bool) (v : StrObj.robj) (where_ : side) : outcome (state * reply) :=
  let* st := if exists_ then Ret st else dbAdd st dstkey (createListListpackObject fresh usable) in
  let* st := on_list st dstkey (fun o => grow o [v]) in
  let* st := on_list st dstkey (fun o => pushT o v where_) in
  Ret (emit st [Signal dstkey; NotifyList (if at_head where_ then chars "lpush" else chars "rpush") dstkey], RBulk (obj_text v)).

(** [rewrite]: the arguments a blocking command is replicated with. *)
Definition lmoveGenericCommand (st : state) (src dst : list Z) (wherefrom whereto : side) (rewrite : option (list (list Z))) : outcome (state * reply) :=
  match db st !! src with
  | None => Ret (st, RNull)
  | Some VOther => Ret (st, RWrongType)
  | Some (VList _) =>
      let* (st, n) := with_list st src listTypeLength in
      if n =? 0 then Ret (st, RNull) else
      match db st !! dst with
      | Some VOther => Ret (st, RWrongType)
      | dobj =>
          let* (st, v) := with_list st src (fun o => popT o wherefrom) in
          match v with
          | None => Abort
          | Some v =>
              let* (st, r) := lmoveHandlePush st dst (match dobj with Some _ => true | None => false end) v whereto in
              let* (st, _) := listElementsRemoved st src wherefrom 1 true in
              Ret (match rewrite with Some argv => emit st [Rewrite argv] | None => st end, r)
          end
      end
  end.

Definition lmoveCommand (st : state) (src dst from to : list Z) : outcome (state * reply) :=
  match getListPositionFromObjectOrReply from, getListPositionFromObjectOrReply to with
  | Some wherefrom, Some whereto => lmoveGenericCommand st src dst wherefrom whereto None
  | _, _ => Ret (st, RSyntax)
  end.

Definition rpoplpushCommand (st : state) (src dst : list Z) := lmoveGenericCommand st src dst LIST_TAIL LIST_HEAD None.

(** ** Several keys *)

Definition pop_name (where_ : side) : list Z := if at_head where_ then chars "lpop" else chars "rpop".

(** The first list that is not empty, of a loop that takes something off it. *)
Fixpoint first_list (st : state) (keys : list (list Z)) (take_ : state -> list Z -> Z -> outcome (state * reply)) : outcome (state * option reply) :=
  match keys with
  | [] => Ret (st, None)
  | k :: keys =>
      match db st !! k with
      | None => first_list st keys take_
      | Some VOther => Ret (st, Some RWrongType)
      | Some (VList _) =>
          let* (st, llen) := with_list st k listTypeLength in
          if llen =? 0 then first_list st keys take_ else
          let* (st, r) := take_ st k llen in
          Ret (st, Some r)
      end
  end.

(** Taking [count] elements, replicated as LPOP or RPOP with a count. *)
Definition take_range (where_ : side) (count : Z) (st : state) (k : list Z) (llen : Z) : outcome (state * reply) :=
  let* (st, r) := listPopRangeAndReplyWithKey st k where_ count in
  Ret (emit st [Rewrite [pop_name where_; k; ll_text (if llen <? count then llen else count)]], r).

Definition mpopGenericCommand (st : state) (keys : list (list Z)) (where_ : side) (count : Z) : outcome (state * reply) :=
  let* (st, r) := first_list st keys (take_range where_ count) in
  Ret (st, match r with Some r => r | None => RNullArray end).

(** Taking one element, replicated as LPOP or RPOP. *)
Definition take_one (where_ : side) (st : state) (k : list Z) (llen : Z) : outcome (state * reply) :=
  let* (st, v) := with_list st k (fun o => popT o where_) in
  match v with
  | None => Abort
  | Some v =>
      let* (st, _) := listElementsRemoved st k where_ 1 true in
      Ret (emit st [Rewrite [pop_name where_; k]], RArray 2 [RBulk k; RBulk (obj_text v)])
  end.

(** [count] is -1 for a single element; [deny] is CLIENT_DENY_BLOCKING. *)
Definition blockingPopGenericCommand (deny : bool) (st : state) (keys : list (list Z)) (where_ : side) (timeout : list Z) (count : Z) : outcome (state * reply) :=
  match getTimeout timeout with
  | None => Ret (st, RTimeout)
  | Some timeout =>
      let* (st, r) := first_list st keys (if negb (count =? -1) then take_range where_ count else take_one where_) in
      Ret (st, match r with Some r => r | None => if deny then RNullArray else RBlocked keys timeout end)
  end.

Definition blpopCommand (deny : bool) (st : state) (keys : list (list Z)) (timeout : list Z) := blockingPopGenericCommand deny st keys LIST_HEAD timeout (-1).
Definition brpopCommand (deny : bool) (st : state) (keys : list (list Z)) (timeout : list Z) := blockingPopGenericCommand deny st keys LIST_TAIL timeout (-1).

Definition blmoveGenericCommand (deny : bool) (st : state) (src dst : list Z) (wherefrom whereto : side) (timeout : Z) (rewrite : list (list Z)) : outcome (state * reply) :=
  match db st !! src with
  | Some VOther => Ret (st, RWrongType)
  | None => Ret (st, if deny then RNull else RBlocked [src] timeout)
  | Some (VList _) =>
      let* (st, n) := with_list st src listTypeLength in
      if n <=? 0 then Abort else lmoveGenericCommand st src dst wherefrom whereto (Some rewrite)
  end.

Definition blmoveCommand (deny : bool) (st : state) (src dst from to timeout : list Z) : outcome (state * reply) :=
  match getListPositionFromObjectOrReply from, getListPositionFromObjectOrReply to with
  | Some wherefrom, Some whereto =>
      match getTimeout timeout with
      | None => Ret (st, RTimeout)
      | Some timeout => blmoveGenericCommand deny st src dst wherefrom whereto timeout [chars "lmove"; src; dst; from; to]
      end
  | _, _ => Ret (st, RSyntax)
  end.

Definition brpoplpushCommand (deny : bool) (st : state) (src dst timeout : list Z) : outcome (state * reply) :=
  match getTimeout timeout with
  | None => Ret (st, RTimeout)
  | Some timeout => blmoveGenericCommand deny st src dst LIST_TAIL LIST_HEAD timeout [chars "rpoplpush"; src; dst]
  end.

(** The option after the position: the count, -1 when it is not given. *)
Fixpoint mpop_options (argv : list (list Z)) (count : Z) : Z + reply :=
  match argv with
  | [] => inl count
  | [_] => inr RSyntax
  | opt :: a :: argv =>
      if (count =? -1) && SdsArgs.same_case opt (chars "COUNT") then
        match getRangeLong a 1 StrObj.LONG_MAX with None => inr RNotInteger | Some count => mpop_options argv count end
      else inr RSyntax
  end.

(** [argv] is the whole request.  The sum [numkeys_idx + numkeys + 1] is a [long]; an
    index below zero is outside of [argv]. *)
Definition lmpopGenericCommand (deny : bool) (st : state) (argv : list (list Z)) (numkeys_idx : nat) (is_block : bool) : outcome (state * reply) :=
  match argv !! numkeys_idx with
  | None => Abort
  | Some a =>
      match getRangeLong a 1 StrObj.LONG_MAX with
      | None => Ret (st, RNotInteger)
      | Some numkeys =>
          let where_idx := swrap 64 (Z.of_nat numkeys_idx + numkeys + 1) in
          if Z.of_nat (length argv) <=? where_idx then Ret (st, RSyntax) else
          if where_idx <? 0 then Abort else
          match argv !! Z.to_nat where_idx with
          | None => Abort
          | Some w =>
              match getListPositionFromObjectOrReply w with
              | None => Ret (st, RSyntax)
              | Some where_ =>
                  match mpop_options (drop (S (Z.to_nat where_idx)) argv) (-1) with
                  | inr e => Ret (st, e)
                  | inl count =>
                      let count := if count =? -1 then 1 else count in
                      let keys := take (Z.to_nat numkeys) (drop (S numkeys_idx) argv) in
                      if is_block then
                        match argv !! 1%nat with
                        | Some timeout => blockingPopGenericCommand deny st keys where_ timeout count
                        | None => Abort
                        end
                      else mpopGenericCommand st keys where_ count
                  end
              end
          end
      end
  end.

Definition lmpopCommand (st : state) (argv : list (list Z)) := lmpopGenericCommand false st argv 1 false.
Definition blmpopCommand (deny : bool) (st : state) (argv : list (list Z)) := lmpopGenericCommand deny st argv 2 true.
End Cmd.

End TListCmd.
