(* ===== verification/TListCmdSpec.v ===== *)
(** * TListCmdSpec: the list commands act on lists (t_list.c)

    The commands on a database of list objects against the same commands on a finite map
    from keys to lists of strings, with the replies, the notifications, the arguments for
    replication and the count of changes each leaves. *)
From stdpp Require Import gmap.
From S2P Require Import Prelude NumStr Lzf LpEntry Listpack LpBulk StrObj SdsArgs Quicklist QuicklistSpec QuicklistElems QuicklistOps QuicklistIter QuicklistMain TList TListSpec TListWalk TListCmd.
Import NumStr LpEntry Listpack LpBulk Quicklist QuicklistSpec QuicklistElems QuicklistOps QuicklistIter QuicklistMain TList TListSpec TListWalk TListCmd.

Module TListCmdSpec.

(** ** Lists *)

Inductive aval := AList (ts : list (list Z)) | AOther.
#[export] Instance aval_eq_dec : EqDecision aval.
Proof. solve_decision. Defined.
Abbreviation adb := (gmap (list Z) aval).

(** A missing key is an empty list, and a list that becomes empty is removed. *)
Definition cur (D : adb) (k : list Z) : list (list Z) := match D !! k with Some (AList ts) => ts | _ => [] end.
Definition upd (D : adb) (k : list Z) (ts : list (list Z)) : adb := match ts with [] => delete k D | _ => <[k := AList ts]> D end.

Definition push_many (where_ : side) (vals ts : list (list Z)) : list (list Z) := match where_ with LIST_HEAD => rev vals ++ ts | LIST_TAIL => ts ++ vals end.

(** Next to the first [pivot]. *)
Fixpoint insert_next (where_ : side) (pivot v : list Z) (ts : list (list Z)) : option (list (list Z)) :=
  match ts with
  | [] => None
  | t :: ts => if decide (t = pivot) then Some (match where_ with LIST_TAIL => t :: v :: ts | LIST_HEAD => v :: t :: ts end)
               else cons t <$> insert_next where_ pivot v ts
  end.

(** The elements from [start] to [end_], both counted from the end if negative. *)
Definition slice (ts : list (list Z)) (start end_ : Z) : list (list Z) :=
  let n := Z.of_nat (length ts) in
  let start := Z.max 0 (if start <? 0 then n + start else start) in
  let end_ := Z.min (n - 1) (if end_ <? 0 then n + end_ else end_) in
  take (Z.to_nat (end_ - start + 1)) (drop (Z.to_nat start) ts).

(** At most [n] elements off an end, in the order they come off, and the rest. *)
Definition take_end (where_ : side) (n : Z) (ts : list (list Z)) : list (list Z) * list (list Z) :=
  let m := Z.to_nat (Z.min n (Z.of_nat (length ts))) in
  match where_ with
  | LIST_HEAD => (take m ts, drop m ts)
  | LIST_TAIL => (rev (drop (length ts - m) ts), take (length ts - m) ts)
  end.

(** Without the first [n] elements that are [x], or all of them for none. *)
Fixpoint remove_first (n : option nat) (x : list Z) (ts : list (list Z)) : list (list Z) :=
  match ts with
  | [] => []
  | t :: ts => match n with
               | Some O => t :: ts
               | _ => if decide (t = x) then remove_first (pred <$> n) x ts else t :: remove_first n x ts
               end
  end.

Definition remove_some (n : Z) (x : list Z) (ts : list (list Z)) : list (list Z) :=
  if n =? 0 then remove_first None x ts
  else if n <? 0 then rev (remove_first (Some (Z.to_nat (- n))) x (rev ts))
  else remove_first (Some (Z.to_nat n)) x ts.

(** The indexes of [x], from the head or from the tail, in the first [maxlen] elements (all
    for 0), without the first [rank - 1]. *)
Definition positions (ts : list (list Z)) (x : list Z) (rank maxlen : Z) (direction : side) : list Z :=
  let l := imap (fun i t => (Z.of_nat i, t)) ts in
  let l := match direction with LIST_TAIL => l | LIST_HEAD => rev l end in
  let l := if maxlen =? 0 then l else take (Z.to_nat maxlen) l in
  drop (Z.to_nat (rank - 1)) (fst <$> List.filter (fun p => bool_decide (snd p = x)) l).

(** ** Arguments *)

Definition as_range (s : list Z) (lo hi : Z) : option Z := match string2ll s with Some v => if (lo <=? v) && (v <=? hi) then Some v else None | None => None end.

Definition side_of (before after w : list Z) : option side :=
  if SdsArgs.named before w then Some LIST_HEAD else if SdsArgs.named after w then Some LIST_TAIL else None.
Definition end_of : list Z -> option side := side_of (chars "left") (chars "right").

(** The options of LPOS come in pairs; each value is checked, the first error is the reply,
    and of an option given twice the last value counts. *)
Inductive lpos_option := ORank | OCount | OMaxlen.
#[export] Instance lpos_option_eq_dec : EqDecision lpos_option.
Proof. solve_decision. Defined.

Definition option_of (w : list Z) : option lpos_option :=
  if SdsArgs.named (chars "rank") w then Some ORank else if SdsArgs.named (chars "count") w then Some OCount
  else if SdsArgs.named (chars "maxlen") w then Some OMaxlen else None.

Fixpoint pairs (argv : list (list Z)) : list (list Z * option (list Z)) :=
  match argv with [] => [] | [w] => [(w, None)] | w :: a :: argv => (w, Some a) :: pairs argv end.

Definition pair_value (p : list Z * option (list Z)) : lpos_option * Z + reply :=
  match option_of (fst p), snd p with
  | Some o, Some a =>
      match as_range a (match o with ORank => - StrObj.LONG_MAX | _ => 0 end) StrObj.LONG_MAX with
      | None => inr RNotInteger
      | Some v => if bool_decide (o = ORank /\ v = 0) then inr RRankZero else inl (o, v)
      end
  | _, _ => inr RSyntax
  end.

Definition first_error {A} (l : list (A + reply)) : option reply := List.head (omap (fun x => match x with inr e => Some e | inl _ => None end) l).
Definition last_value (o : lpos_option) (d : Z) (l : list (lpos_option * Z + reply)) : Z :=
  default d (last (omap (fun x => match x with inl (o', v) => if decide (o' = o) then Some v else None | inr _ => None end) l)).

(** LMPOP: the number of keys, the keys, an end, and COUNT with a positive number once at
    most. *)
Definition mpop_request (numkeys : list Z) (rest : list (list Z)) : list (list Z) * side * Z + reply :=
  match as_range numkeys 1 StrObj.LONG_MAX with
  | None => inr RNotInteger
  | Some n =>
      if Z.of_nat (length rest) <=? n then inr RSyntax else
      let ks := take (Z.to_nat n) rest in
      match drop (Z.to_nat n) rest with
      | w :: opts =>
          match end_of w, opts with
          | None, _ => inr RSyntax
          | Some w, [] => inl (ks, w, 1)
          | Some w, c :: v :: more =>
              if SdsArgs.named (chars "count") c then
                match as_range v 1 StrObj.LONG_MAX, more with
                | None, _ => inr RNotInteger
                | Some n, [] => inl (ks, w, n)
                | _, _ => inr RSyntax
                end
              else inr RSyntax
          | _, _ => inr RSyntax
          end
      | [] => inr RSyntax
      end
  end.

(** ** Commands *)

Inductive cmd :=
| CPush (where_ : side) (xx : bool) (k v : list Z) (vs : list (list Z))
| CInsert (k where_arg pivot v : list Z) | CLen (k : list Z) | CIndex (k index : list Z) | CSet (k index v : list Z)
| CPop (where_ : side) (k : list Z) (args : list (list Z)) | CRange (k start end_ : list Z) | CTrim (k start end_ : list Z)
| CPos (k ele : list Z) (argv : list (list Z)) | CRem (k count ele : list Z)
| CMove (src dst from to : list Z) | CRpopLpush (src dst : list Z)
| CMPop (numkeys : list Z) (rest : list (list Z))
| CBPop (deny : bool) (where_ : side) (ks : list (list Z)) (timeout : list Z)
| CBMPop (deny : bool) (timeout numkeys : list Z) (rest : list (list Z))
| CBMove (deny : bool) (src dst from to timeout : list Z) | CBRpopLpush (deny : bool) (src dst timeout : list Z).

(** The database after a command, the reply, the changes counted and what is told. *)
Definition result : Type := adb * reply * Z * list event.
Definition stays (D : adb) (r : reply) : result := (D, r, 0, []).

(** A command on a key: [absent] when it is missing. *)
Definition on_key (D : adb) (k : list Z) (absent : reply) (f : list (list Z) -> result) : result :=
  match D !! k with None => stays D absent | Some AOther => stays D RWrongType | Some (AList ts) => f ts end.

Definition push_name (where_ : side) : list Z := if at_head where_ then chars "lpush" else chars "rpush".
Definition gone (k : list Z) (ts : list (list Z)) : list event := match ts with [] => [NotifyGeneric (chars "del") k] | _ => [] end.
(** What is told when elements went off a list, [ts] being left. *)
Definition shrunk (name k : list Z) (ts : list (list Z)) : list event := NotifyList name k :: gone k ts ++ [Signal k].
Definition bulks (l : list (list Z)) : reply := RArray (Z.of_nat (length l)) (RBulk <$> l).
(** A key that is created. *)
Definition created (D : adb) (k : list Z) : list event := match D !! k with None => [NotifyNew k] | Some _ => [] end.

Definition spec_move (D : adb) (src dst : list Z) (from to : side) (rewrite : list event) : result :=
  on_key D src RNull (fun ts =>
    if bool_decide (D !! dst = Some AOther) then stays D RWrongType else
    let '(rest, x) := list_pop (at_head from) ts in
    let x := default [] x in
    let new := created D dst in
    let D := <[src := AList rest]> D in
    let D := <[dst := AList (put_end (at_head to) x (cur D dst))]> D in
    (upd D src (cur D src), RBulk x, 1, (new ++ [Signal dst; NotifyList (push_name to) dst]) ++ shrunk (pop_name from) src (cur D src) ++ rewrite)).

(** The first of the keys that is there. *)
Fixpoint first_key (D : adb) (ks : list (list Z)) (none : reply) (f : list Z -> list (list Z) -> result) : result :=
  match ks with
  | [] => stays D none
  | k :: ks => match D !! k with None => first_key D ks none f | Some AOther => stays D RWrongType | Some (AList ts) => f k ts end
  end.

Definition spec_take (D : adb) (where_ : side) (count : Z) (k : list Z) (ts : list (list Z)) : result :=
  let '(l, rest) := take_end where_ count ts in
  (upd D k rest, RArray 2 [RBulk k; bulks l], Z.of_nat (length l), shrunk (pop_name where_) k rest ++ [Rewrite [pop_name where_; k; repr (Z.of_nat (length l))]]).

Definition spec_take_one (D : adb) (where_ : side) (k : list Z) (ts : list (list Z)) : result :=
  let '(rest, x) := list_pop (at_head where_) ts in
  (upd D k rest, RArray 2 [RBulk k; RBulk (default [] x)], 1, shrunk (pop_name where_) k rest ++ [Rewrite [pop_name where_; k]]).

Section Commands.
Context (getTimeout : list Z -> option Z).

Definition timed (D : adb) (timeout : list Z) (f : Z -> result) : result := match getTimeout timeout with None => stays D RTimeout | Some t => f t end.
Definition sides (D : adb) (from to : list Z) (f : side -> side -> result) : result :=
  match end_of from, end_of to with Some a, Some b => f a b | _, _ => stays D RSyntax end.
(** A client that may not block gets a reply at once. *)
Definition wait (deny : bool) (r : reply) (ks : list (list Z)) (t : Z) : reply := if deny then r else RBlocked ks t.
Definition spec_bmove (D : adb) (deny : bool) (src dst : list Z) (from to : side) (t : Z) (argv : list (list Z)) : result :=
  match D !! src with None => stays D (wait deny RNull [src] t) | Some _ => spec_move D src dst from to [Rewrite argv] end.

Definition spec (D : adb) (c : cmd) : result :=
  match c with
  | CPush w xx k v vs =>
      match D !! k, xx with
      | Some AOther, _ => stays D RWrongType
      | None, true => stays D (RLong 0)
      | _, _ => let ts := push_many w (v :: vs) (cur D k) in
                (<[k := AList ts]> D, RLong (Z.of_nat (length ts)), 1 + Z.of_nat (length vs), created D k ++ [Signal k; NotifyList (push_name w) k])
      end
  | CInsert k where_arg pivot v =>
      match side_of (chars "before") (chars "after") where_arg with
      | None => stays D RSyntax
      | Some w => on_key D k (RLong 0) (fun ts =>
          match insert_next w pivot v ts with
          | None => stays D (RLong (-1))
          | Some ts => (<[k := AList ts]> D, RLong (Z.of_nat (length ts)), 1, [Signal k; NotifyList (chars "linsert") k])
          end)
      end
  | CLen k => on_key D k (RLong 0) (fun ts => stays D (RLong (Z.of_nat (length ts))))
  | CIndex k index => on_key D k RNull (fun ts =>
      match string2ll index with
      | None => stays D RNotInteger
      | Some i => stays D (match abs_index ts i ≫= fun i => ts !! i with Some t => RBulk t | None => RNull end)
      end)
  | CSet k index v => on_key D k RNoKey (fun ts =>
      match string2ll index with
      | None => stays D RNotInteger
      | Some i => match abs_index ts i with
                  | None => stays D ROutOfRange
                  | Some i => (<[k := AList (<[i := v]> ts)]> D, ROk, 1, [Signal k; NotifyList (chars "lset") k])
                  end
      end)
  | CPop w k [] => on_key D k RNull (fun ts =>
      let '(rest, x) := list_pop (at_head w) ts in (upd D k rest, RBulk (default [] x), 1, shrunk (pop_name w) k rest))
  | CPop w k [count] =>
      match as_range count 0 StrObj.LONG_MAX with
      | None => stays D RNotInteger
      | Some n => on_key D k RNullArray (fun ts =>
          if n =? 0 then stays D (bulks []) else
          let '(l, rest) := take_end w n ts in (upd D k rest, bulks l, Z.of_nat (length l), shrunk (pop_name w) k rest))
      end
  | CPop _ _ _ => stays D RArity
  | CRange k start end_ =>
      match string2ll start, string2ll end_ with
      | Some i, Some j => on_key D k (bulks []) (fun ts => stays D (bulks (slice ts i j)))
      | _, _ => stays D RNotInteger
      end
  | CTrim k start end_ =>
      match string2ll start, string2ll end_ with
      | Some i, Some j => on_key D k ROk (fun ts =>
          let ts' := slice ts i j in (upd D k ts', ROk, Z.of_nat (length ts) - Z.of_nat (length ts'), shrunk (chars "ltrim") k ts'))
      | _, _ => stays D RNotInteger
      end
  | CPos k ele argv =>
      let given := pair_value <$> pairs argv in
      match first_error given with
      | Some e => stays D e
      | None =>
          let rank := last_value ORank 1 given in
          let count := last_value OCount (-1) given in
          let maxlen := last_value OMaxlen 0 given in
          on_key D k (if count =? -1 then RNull else RArray 0 []) (fun ts =>
            let l := positions ts ele (Z.abs rank) maxlen (if rank <? 0 then LIST_HEAD else LIST_TAIL) in
            stays D (if count =? -1 then match l with i :: _ => RLong i | [] => RNull end
                     else let l := if count =? 0 then l else take (Z.to_nat count) l in RArray (Z.of_nat (length l)) (RLong <$> l)))
      end
  | CRem k count ele =>
      match as_range count (- StrObj.LONG_MAX) StrObj.LONG_MAX with
      | None => stays D RNotInteger
      | Some n => on_key D k (RLong 0) (fun ts =>
          let ts' := remove_some n ele ts in
          let removed := Z.of_nat (length ts) - Z.of_nat (length ts') in
          if removed =? 0 then stays D (RLong 0) else (upd D k ts', RLong removed, removed, shrunk (chars "lrem") k ts'))
      end
  | CMove src dst from to => sides D from to (fun a b => spec_move D src dst a b [])
  | CRpopLpush src dst => spec_move D src dst LIST_TAIL LIST_HEAD []
  | CMPop numkeys rest =>
      match mpop_request numkeys rest with inr e => stays D e | inl (ks, w, count) => first_key D ks RNullArray (spec_take D w count) end
  | CBPop deny w ks timeout => timed D timeout (fun t => first_key D ks (wait deny RNullArray ks t) (spec_take_one D w))
  | CBMPop deny timeout numkeys rest =>
      match mpop_request numkeys rest with
      | inr e => stays D e
      | inl (ks, w, count) => timed D timeout (fun t => first_key D ks (wait deny RNullArray ks t) (spec_take D w count))
      end
  | CBMove deny src dst from to timeout => sides D from to (fun a b => timed D timeout (fun t => spec_bmove D deny src dst a b t [chars "lmove"; src; dst; from; to]))
  | CBRpopLpush deny src dst timeout => timed D timeout (fun t => spec_bmove D deny src dst LIST_TAIL LIST_HEAD t [chars "rpoplpush"; src; dst])
  end.

(** ** The database holds the lists *)

Context (server : config) (fresh : nat -> Z) (usable : nat -> nat) (base : list Z -> Z) (htab : list Z -> Z -> Z).
Context (Husable : forall n, (n <= usable n)%nat) (Hmem : memory_ok base htab) (Hconf : config_ok server).

(** The command as it comes from a client. *)
Definition exec (st : state) (c : cmd) : outcome (state * reply) :=
  match c with
  | CPush LIST_HEAD false k v vs => lpushCommand server fresh usable base htab st k (v :: vs)
  | CPush LIST_TAIL false k v vs => rpushCommand server fresh usable base htab st k (v :: vs)
  | CPush LIST_HEAD true k v vs => lpushxCommand server fresh usable base htab st k (v :: vs)
  | CPush LIST_TAIL true k v vs => rpushxCommand server fresh usable base htab st k (v :: vs)
  | CInsert k w pivot v => linsertCommand server fresh usable base htab st k w pivot v
  | CLen k => llenCommand st k
  | CIndex k index => lindexCommand fresh base htab st k index
  | CSet k index v => lsetCommand server fresh usable base htab st k index v
  | CPop LIST_HEAD k args => lpopCommand server fresh usable base htab st k args
  | CPop LIST_TAIL k args => rpopCommand server fresh usable base htab st k args
  | CRange k i j => lrangeCommand fresh base htab st k i j
  | CTrim k i j => ltrimCommand server fresh usable base htab st k i j
  | CPos k ele argv => lposCommand fresh base htab st k ele argv
  | CRem k count ele => lremCommand server fresh usable base htab st k count ele
  | CMove src dst from to => lmoveCommand server fresh usable base htab st src dst from to
  | CRpopLpush src dst => rpoplpushCommand server fresh usable base htab st src dst
  | CMPop numkeys rest => lmpopCommand server fresh usable base htab getTimeout st (chars "lmpop" :: numkeys :: rest)
  | CBPop deny LIST_HEAD ks timeout => blpopCommand server fresh usable base htab getTimeout deny st ks timeout
  | CBPop deny LIST_TAIL ks timeout => brpopCommand server fresh usable base htab getTimeout deny st ks timeout
  | CBMPop deny timeout numkeys rest => blmpopCommand server fresh usable base htab getTimeout deny st (chars "blmpop" :: timeout :: numkeys :: rest)
  | CBMove deny src dst from to timeout => blmoveCommand server fresh usable base htab getTimeout deny st src dst from to timeout
  | CBRpopLpush deny src dst timeout => brpoplpushCommand server fresh usable base htab getTimeout deny st src dst timeout
  end.

Definition cmd_ok (c : cmd) : Prop :=
  match c with
  | CPush _ _ _ v vs => Forall text_ok (v :: vs) /\ Z.of_nat (length (v :: vs)) <= max_args
  | CInsert _ _ _ v => text_ok v
  | CSet _ index v => text_ok v /\ forall i, string2ll index = Some i -> in_s 32 i
  | CMPop numkeys _ | CBMPop _ _ numkeys _ => forall n, string2ll numkeys = Some n -> n < 2 ^ 63 - 3
  | _ => True
  end.

Definition abs (m : gmap (list Z) value) (D : adb) : Prop := forall k,
  match m !! k, D !! k with
  | Some (VList o), Some (AList ts) => lrep server o ts
  | Some VOther, Some AOther | None, None => True
  | _, _ => False
  end.

(** No key holds an empty list. *)
Definition no_empty (D : adb) : Prop := forall k, D !! k <> Some (AList []).
(** Lists have at most this many elements. *)
Definition bounded (n : Z) (D : adb) : Prop := forall k, Z.of_nat (length (cur D k)) <= n.

Lemma abs_list m D k ts : abs m D -> D !! k = Some (AList ts) -> exists o, m !! k = Some (VList o) /\ lrep server o ts.
Proof using. intros H E. specialize (H k). rewrite E in H. destruct (m !! k) as [[o|]|]; [eauto|done|done]. Qed.

Lemma abs_missing m D k : abs m D -> D !! k = None -> m !! k = None.
Proof using. intros H E. specialize (H k). rewrite E in H. by destruct (m !! k) as [[o|]|]. Qed.

Lemma abs_wrong m D k : abs m D -> D !! k = Some AOther -> m !! k = Some VOther.
Proof using. intros H E. specialize (H k). rewrite E in H. by destruct (m !! k) as [[o|]|]. Qed.

Lemma abs_put m D k o ts : abs m D -> lrep server o ts -> abs (<[k := VList o]> m) (<[k := AList ts]> D).
Proof using. intros H Hr j. destruct (decide (j = k)) as [->|Hne]; [by rewrite !lookup_insert_eq|]. rewrite !lookup_insert_ne by done. apply H. Qed.

Lemma abs_remove m D k : abs m D -> abs (delete k m) (delete k D).
Proof using. intros H j. destruct (decide (j = k)) as [->|Hne]; [by rewrite !lookup_delete_eq|]. rewrite !lookup_delete_ne by done. apply H. Qed.

Lemma abs_back m D k o ts : abs m D -> D !! k = Some (AList ts) -> lrep server o ts -> abs (<[k := VList o]> m) D.
Proof using. intros H E Hr. rewrite <- (insert_id D k _ E). by apply abs_put. Qed.

(** What a command did: from [st], the changes [n] and the events [evs]. *)
Record did (st st' : state) (D : adb) (n : Z) (evs : list event) : Prop := {
  did_abs : abs (db st') D;
  did_dirty : dirty st' = dirty st + n;
  did_events : events st' = events st ++ evs
}.

Definition right (D : adb) (st : state) (c : cmd) : Prop :=
  exists st', exec st c = Ret (st', snd (fst (fst (spec D c)))) /\ did st st' (fst (fst (fst (spec D c)))) (snd (fst (spec D c))) (snd (spec D c)).

Lemma did_refl st D : abs (db st) D -> did st st D 0 [].
Proof using. intros H. split; [done|lia|by rewrite app_nil_r]. Qed.

(** ** Going through a key *)

Definition at_key (st : state) (k : list Z) (o : listobj) : Prop := db st !! k = Some (VList o).

Lemma with_at {A} st k o o' (a : A) f : at_key st k o -> f o = Ret (o', a) -> with_list st k f = Ret (put st k o', a).
Proof using. intros H E. unfold with_list. rewrite H, E. done. Qed.

Lemma on_at st k o o' f : at_key st k o -> f o = Ret o' -> on_list st k f = Ret (put st k o').
Proof using. intros H E. unfold on_list. erewrite with_at; [|exact H|by rewrite E]. done. Qed.

Lemma put_at st k o : at_key (put st k o) k o.
Proof using. apply lookup_insert_eq. Qed.

Lemma put_put st k o o' : put (put st k o) k o' = put st k o'.
Proof using. unfold put, set_db. cbn. by rewrite insert_insert_eq. Qed.

Lemma length_at st k o ts : at_key st k o -> lrep server o ts -> exists o', with_list st k listTypeLength = Ret (put st k o', Z.of_nat (length ts)) /\ lrep server o' ts.
Proof using. intros H Hr. destruct (length_list server o ts Hr) as (o' & E & Hr'). exists o'. split; [by eapply with_at|done]. Qed.

Lemma did_dirtied st st' D n m evs : did st st' D n evs -> did st (add_dirty st' m) D (n + m) evs.
Proof using. intros [H1 H2 H3]. split; [done|cbn; lia|done]. Qed.

Lemma did_emit st st' D n evs es : did st st' D n evs -> did st (emit st' es) D n (evs ++ es).
Proof using. intros [H1 H2 H3]. split; [done|done|cbn; by rewrite H3, app_assoc]. Qed.

Lemma did_trans st st1 st2 D D' n m evs es : did st st1 D n evs -> did st1 st2 D' m es -> did st st2 D' (n + m) (evs ++ es).
Proof using. intros [H1 H2 H3] [H4 H5 H6]. split; [done|lia|by rewrite H6, H3, app_assoc]. Qed.

Lemma did_put st D k o ts : abs (db st) D -> lrep server o ts -> did st (put st k o) (<[k := AList ts]> D) 0 [].
Proof using. intros Ha Hr. split; [by apply abs_put|cbn; lia|by rewrite app_nil_r]. Qed.

(** The end of a command that took elements off: an empty list is deleted. *)
Lemma settle st D k o ts : abs (db st) (<[k := AList ts]> D) -> at_key st k o ->
  exists st1 st2, with_list st k listTypeLength = Ret (st1, Z.of_nat (length ts)) /\
    (if Z.of_nat (length ts) =? 0 then Ret (emit (dbDelete st1 k) [NotifyGeneric (chars "del") k]) else on_list st1 k (fun o => listTypeTryConversion server fresh base htab o LIST_CONV_SHRINKING)) = Ret st2 /\
    did st st2 (upd D k ts) 0 (gone k ts).
Proof using Husable Hmem Hconf.
  intros Ha Ho. pose proof (Ha k) as Hk. rewrite Ho, lookup_insert_eq in Hk. destruct (length_at st k o ts Ho Hk) as (o1 & E1 & Hr1). exists (put st k o1). rewrite E1. destruct ts as [|t ts].
  - eexists. split; [done|]. split; [done|]. cbn [upd gone]. split; [|cbn; lia|done]. cbn. rewrite delete_insert_eq. intros j. specialize (Ha j). destruct (decide (j = k)) as [->|Hj]; [by rewrite !lookup_delete_eq|]. rewrite !lookup_delete_ne by done. by rewrite lookup_insert_ne in Ha.
  - destruct (shrink_list server fresh usable base htab Husable Hmem Hconf o1 (t :: ts) LIST_CONV_SHRINKING Hr1 ltac:(done)) as (o2 & E2 & Hr2). eexists. split; [done|]. cbn [length]. split; [rewrite (proj2 (Z.eqb_neq _ _)) by lia; eapply on_at; [apply put_at|exact E2]|]. cbn [upd gone]. split; [|cbn; lia|by rewrite app_nil_r].
    cbn. rewrite insert_insert_eq. rewrite <- (insert_insert_eq D k (AList (t :: ts)) (AList (t :: ts))). by apply abs_put.
Qed.

Lemma removed_spec st D k o ts w n : abs (db st) (<[k := AList ts]> D) -> at_key st k o ->
  exists st' b, listElementsRemoved server fresh base htab st k w n true = Ret (st', b) /\ did st st' (upd D k ts) n (shrunk (pop_name w) k ts).
Proof using Husable Hmem Hconf.
  intros Ha Ho. unfold listElementsRemoved. set (st0 := emit st _). destruct (settle st0 D k o ts Ha Ho) as (st1 & st2 & -> & E & Hd). cbn [obind].
  assert (exists b, (if Z.of_nat (length ts) =? 0 then Ret (emit (dbDelete st1 k) [NotifyGeneric (chars "del") k], true) else let* st := on_list st1 k (fun o => listTypeTryConversion server fresh base htab o LIST_CONV_SHRINKING) in Ret (st, false)) = Ret (st2, b)) as (b & ->).
  { destruct (_ =? 0); [injection E as <-; eauto|]. rewrite E. cbn. eauto. }
  cbn [obind]. eexists _, _. split; [done|]. assert (did st st0 (<[k := AList ts]> D) 0 [NotifyList (pop_name w) k]) as H0 by (split; [done|cbn; lia|done]). pose proof (did_trans _ _ _ _ _ _ _ _ _ H0 Hd) as H. apply (did_emit _ _ _ _ _ [Signal k]), (did_dirtied _ _ _ _ n) in H. rewrite <- app_assoc in H. done.
Qed.

(** ** Pushing *)

Lemma push_all_spec w vals : forall st k o ts, at_key st k o -> lrep server o ts -> Forall text_ok vals -> room server o ts vals ->
  exists st' o', push_all fresh usable base htab st k w vals = Ret st' /\ db st' = <[k := VList o']> (db st) /\ dirty st' = dirty st + Z.of_nat (length vals) /\ events st' = events st /\ lrep server o' (push_many w vals ts).
Proof using Husable Hmem.
  induction vals as [|v vals IH]; intros st k o ts Ho Hr Hv Hroom; cbn [push_all].
  { exists st, o. rewrite insert_id by done. split; [done|]. split; [done|]. split; [cbn; lia|]. split; [done|]. destruct w; cbn; [done|by rewrite app_nil_r]. }
  apply Forall_cons in Hv as [Hv Hvs]. unfold arg. destruct (push_list server fresh usable base htab Husable Hmem o ts (StrObj.createStringObject v) vals w Hr (value_created v Hv)) as (o1 & E1 & Hr1 & Hroom1); [by rewrite StrObj.content_createStringObject|]. rewrite StrObj.content_createStringObject in Hr1, Hroom1.
  rewrite (on_at st k o o1 _ Ho E1). cbn [obind]. destruct (IH (add_dirty (put st k o1) 1) k o1 _ (put_at st k o1) Hr1 Hvs Hroom1) as (st' & o' & -> & E2 & E3 & E4 & Hr'). exists st', o'. split; [done|]. cbn in E2, E3, E4. rewrite insert_insert_eq in E2. split; [done|]. split; [cbn [length]; lia|]. split; [done|].
  destruct w; cbn [push_many at_head put_end] in *; [|by rewrite <- app_assoc in Hr']. cbn [rev]. by rewrite <- app_assoc.
Qed.

Lemma args_ok vals : Forall text_ok vals -> Forall value_ok (arg <$> vals) /\ StrObj.content <$> (arg <$> vals) = vals.
Proof using.
  induction 1 as [|v vals Hv _ [IH1 IH2]]; [done|]. rewrite !fmap_cons, IH2. split; [constructor; [by apply value_created|done]|]. f_equal. apply StrObj.content_createStringObject.
Qed.

Lemma push_right D st w xx k v vs : abs (db st) D -> cmd_ok (CPush w xx k v vs) -> right D st (CPush w xx k v vs).
Proof using Husable Hmem Hconf.
  intros Ha [Hv Hn]. assert (exec st (CPush w xx k v vs) = pushGenericCommand server fresh usable base htab st w xx k (v :: vs)) as Ex by (by destruct w, xx). unfold right. rewrite Ex. unfold pushGenericCommand. cbn [spec]. set (vals := v :: vs) in *.
  assert (forall st0 o ts D0, abs (db st0) D0 -> at_key st0 k o -> lrep server o ts -> dirty st0 = dirty st -> forall new, events st0 = events st ++ new ->
    exists st', (let* st := on_list st0 k (fun o => listTypeTryConversionAppend server fresh base htab o (arg <$> vals)) in let* st := push_all fresh usable base htab st k w vals in let* (st, n) := with_list st k listTypeLength in
      Ret (emit st [Signal k; NotifyList (if at_head w then chars "lpush" else chars "rpush") k], RLong n)) = Ret (st', RLong (Z.of_nat (length (push_many w vals ts)))) /\ did st st' (<[k := AList (push_many w vals ts)]> D0) (1 + Z.of_nat (length vs)) (new ++ [Signal k; NotifyList (push_name w) k])) as Hmain.
  { intros st0 o ts D0 Ha0 Ho Hr Hd new He. destruct (args_ok vals Hv) as [Hva Hca]. destruct (grow_list server fresh usable base htab Husable Hmem Hconf o ts (arg <$> vals) Hr Hva ltac:(rewrite length_fmap; exact Hn)) as (o1 & E1 & Hr1 & Hroom). rewrite Hca in Hroom. rewrite (on_at st0 k o o1 _ Ho E1). cbn [obind].
    destruct (push_all_spec w vals (put st0 k o1) k o1 ts (put_at _ _ _) Hr1 Hv Hroom) as (st2 & o2 & -> & E2 & E3 & E4 & Hr2). cbn [obind]. cbn in E2, E3, E4. rewrite insert_insert_eq in E2. destruct (length_at st2 k o2 _ ltac:(unfold at_key; by rewrite E2, lookup_insert_eq) Hr2) as (o3 & -> & Hr3). cbn [obind].
    eexists. split; [done|]. split; [cbn; rewrite E2, insert_insert_eq; by apply abs_put|cbn; unfold vals in *; cbn [length] in *; lia|cbn; by rewrite E4, He, app_assoc]. }
  unfold created. destruct (D !! k) as [[ts|]|] eqn:Ek.
  - destruct (abs_list _ _ _ _ Ha Ek) as (o & Eo & Hr). rewrite Eo. cbn [obind]. unfold cur. rewrite Ek. destruct (Hmain st o ts D Ha Eo Hr eq_refl [] ltac:(by rewrite app_nil_r)) as (st' & -> & Hd). exists st'. by destruct xx.
  - rewrite (abs_wrong _ _ _ Ha Ek). exists st. split; [done|]. by apply did_refl.
  - rewrite (abs_missing _ _ _ Ha Ek). destruct xx; [exists st; split; [done|]; by apply did_refl|]. unfold dbAdd. rewrite (abs_missing _ _ _ Ha Ek). cbn [obind]. unfold cur. rewrite Ek. set (st0 := emit (put st k _) _).
    destruct (Hmain st0 (createListListpackObject fresh usable) [] (<[k := AList []]> D)) with (new := [NotifyNew k]) as (st' & -> & Hd); try done; [apply abs_put; [done|by apply created_rep]|apply lookup_insert_eq|by apply created_rep|]. exists st'. split; [done|]. by rewrite insert_insert_eq in Hd.
Qed.

(** ** At an element *)

Lemma getLong_ll s : getLong s = string2ll s.
Proof using.
  unfold getLong, arg, StrObj.getLongFromObjectOrReply, StrObj.getLongLongFromObject. assert (match StrObj.o_body (StrObj.createStringObject s) with StrObj.BInt v => Some v | StrObj.BRaw s | StrObj.BEmbstr s => string2ll s end = string2ll s) as -> by (unfold StrObj.createStringObject; by case_bool).
  destruct (string2ll s) as [v|] eqn:E; [|done]. apply string2ll_spec in E as [Hv _]. unfold in_s in Hv. unfold StrObj.LONG_MIN, StrObj.LONG_MAX. rewrite (proj2 (Z.ltb_ge _ _)), (proj2 (Z.ltb_ge _ _)) by lia. done.
Qed.

Lemma getRange_as s lo hi : getRangeLong s lo hi = as_range s lo hi.
Proof using.
  unfold getRangeLong, StrObj.getRangeLongFromObjectOrReply, as_range. change (StrObj.getLongFromObjectOrReply (Some (arg s))) with (getLong s). rewrite getLong_ll. destruct (string2ll s) as [v|]; [|done]. rewrite (Z.ltb_antisym lo v), (Z.ltb_antisym v hi). by destruct (lo <=? v), (v <=? hi).
Qed.

Lemma getPositive_as s : getPositiveLong s = as_range s 0 StrObj.LONG_MAX.
Proof using. apply getRange_as. Qed.

Lemma next_room o li o' li' r ts vs : listTypeNext fresh base htab o li = Ret (o', li', r) -> room server o ts vs -> room server o' ts vs.
Proof using.
  unfold listTypeNext. destruct o as [lp|q], (li_pos li) as [[it|]|[p|]]; try done.
  - destruct (match li_direction li with LIST_HEAD => _ | LIST_TAIL => _ end); [done|]. cbn [obind]. by intros [= <- _ _].
  - by intros [= <- _ _].
  - destruct (quicklistNext _ _ _ _ _) as [|[r' e]]; [done|]. cbn [obind]. by intros [= <- _ _].
  - by intros [= <- _ _].
Qed.

Lemma turns_enough o ts : lrep server o ts -> (length ts < turns o)%nat.
Proof using.
  destruct o as [lp|q]; intros [H1 _]; cbn [turns].
  - destruct H1 as (es & Hl & ->). destruct (listpack_bytes lp es Hl) as (Ht & _). pose proof (total_ge es (listpack_elems lp es Hl)). rewrite length_fmap. lia.
  - destruct H1 as (tss & Hok & ->). rewrite (ok_total _ _ _ Hok). lia.
Qed.

Lemma arg_sds s : sdsEncodedObject (arg s) = true /\ StrObj.content (arg s) = s.
Proof using. unfold arg. split; [unfold sdsEncodedObject, StrObj.createStringObject; by case_bool|apply StrObj.content_createStringObject]. Qed.

Lemma insert_loop_spec w pivot v al fuel : forall o li A B, walking server o li al A B -> li_direction li = LIST_TAIL -> text_ok v -> room server o (A ++ B) [v] -> (length B < fuel)%nat ->
  exists o' li' o'', insert_loop fresh usable base htab fuel o li pivot v w = Ret (o', li', match insert_next w pivot v B with Some _ => true | None => false end) /\
    listTypeReleaseIterator fresh base htab o' li' = Ret o'' /\ lrep server o'' (A ++ default B (insert_next w pivot v B)).
Proof using Husable Hmem.
  induction fuel as [|fuel IH]; intros o li A B Hw Hd Hv Hroom Hf; [lia|]. cbn [insert_loop]. destruct (next_walk server fresh base htab Hmem o li al A B Hw) as (o1 & li1 & r & E & Hd1 & Har). rewrite E. cbn [obind]. rewrite Hd in Hd1. unfold arrives in Har. rewrite Hd1 in Har. destruct r as [e|].
  2:{ destruct Har as [-> Hw1]. destruct (release_walk server fresh base htab Hmem _ _ _ _ _ Hw1) as (o2 & Er & Hr). exists o1, li1, o2. done. }
  destruct Har as (x & B' & -> & Hst). destruct (arg_sds pivot) as [Hp1 Hp2]. rewrite (stand_equal server o1 li1 e al A x B' (arg pivot) Hst Hp1), Hp2. cbn [obind insert_next]. pose proof (next_room _ _ _ _ _ _ _ E Hroom) as Hroom1. case_bool_decide as Hx; [rewrite decide_True by done|rewrite decide_False by done].
  - destruct (insert_stand server fresh usable base htab Husable Hmem o1 li1 e al A x B' (arg v) w Hst (value_created v Hv)) as (o2 & li2 & e2 & o3 & -> & Er & Hr); [by rewrite (proj2 (arg_sds v))|]. cbn [obind]. exists o2, li2, o3. split; [done|]. split; [done|]. rewrite (proj2 (arg_sds v)) in Hr. by destruct w.
  - pose proof (stand_walk server _ _ _ _ _ _ _ Hst) as Hw1. rewrite Hd1 in Hw1. cbn [length] in Hf. destruct (IH o1 li1 (A ++ [x]) B' Hw1 Hd1 Hv) as (o2 & li2 & o3 & -> & Er & Hr); [by rewrite <- app_assoc|lia|]. exists o2, li2, o3. split; [by destruct (insert_next w pivot v B')|]. split; [done|]. rewrite <- app_assoc in Hr. by destruct (insert_next w pivot v B').
Qed.

Lemma init_head o ts : lrep server o ts -> exists li, listTypeInitIterator o 0 LIST_TAIL = Ret li /\ li_direction li = LIST_TAIL /\ walking server o li true [] ts.
Proof using.
  intros Hr. destruct (init_walk server o ts 0 LIST_TAIL Hr) as (li & E & Hd & Hw). exists li. split; [done|]. split; [done|]. assert (match abs_index ts 0 with Some j => j | None => length ts end = 0%nat) as Ei by (unfold abs_index; destruct ts; done). cbv zeta in Hw. rewrite Ei in Hw. done.
Qed.

Lemma grow_one o ts v : lrep server o ts -> text_ok v -> exists o', listTypeTryConversionAppend server fresh base htab o [arg v] = Ret o' /\ lrep server o' ts /\ room server o' ts [v].
Proof using Husable Hmem Hconf.
  intros Hr Hv. destruct (args_ok [v] ltac:(by constructor)) as [Hva Hca]. destruct (grow_list server fresh usable base htab Husable Hmem Hconf o ts [arg v] Hr Hva ltac:(cbn; unfold max_args; lia)) as (o' & E & Hr' & Hroom). exists o'. split; [done|]. split; [done|]. rewrite <- Hca. exact Hroom.
Qed.

(** Either of two words, whichever is compared first. *)
Lemma side_words before after w : SdsArgs.lower_case before = true -> SdsArgs.lower_case after = true -> before <> after ->
  (if SdsArgs.same_case w after then Some LIST_TAIL else if SdsArgs.same_case w before then Some LIST_HEAD else None) = side_of before after w.
Proof using.
  intros Hb Ha Hne. unfold side_of. rewrite !SdsArgs.same_case_named by done. destruct (SdsArgs.named after w) eqn:E1, (SdsArgs.named before w) eqn:E2; try done. exfalso. apply Hne. by apply (SdsArgs.named_same before after w).
Qed.

Lemma position_end w : getListPositionFromObjectOrReply w = end_of w.
Proof using. by apply side_words. Qed.

Lemma insert_right D st k w pivot v : abs (db st) D -> cmd_ok (CInsert k w pivot v) -> right D st (CInsert k w pivot v).
Proof using Husable Hmem Hconf.
  intros Ha Hv. unfold right. cbn [exec spec cmd_ok] in *. unfold linsertCommand. rewrite (side_words (chars "before") (chars "after") w) by done. destruct (side_of _ _ w) as [wh|]; [|exists st; split; [done|]; by apply did_refl]. unfold on_key. destruct (D !! k) as [[ts|]|] eqn:Ek.
  - destruct (abs_list _ _ _ _ Ha Ek) as (o & Eo & Hr). rewrite Eo. destruct (grow_one o ts v Hr Hv) as (o1 & E1 & Hr1 & Hroom). rewrite (on_at st k o o1 _ Eo E1). cbn [obind].
    destruct (init_head o1 ts Hr1) as (li & Ei & Hd & Hw). destruct (insert_loop_spec wh pivot v true (turns o1) o1 li [] ts Hw Hd Hv Hroom (turns_enough _ _ Hr1)) as (o2 & li2 & o3 & El & Er & Hr3). cbn [app] in Hr3.
    assert (insert_at_pivot fresh usable base htab o1 pivot v wh = Ret (o3, match insert_next wh pivot v ts with Some _ => true | None => false end)) as Eins by (unfold insert_at_pivot; rewrite Ei; cbn [obind]; rewrite El; cbn [obind fst snd]; by rewrite Er).
    erewrite with_at; [|apply put_at|exact Eins]. cbn [obind]. rewrite put_put. destruct (insert_next wh pivot v ts) as [ts'|] eqn:En; cbn [default] in Hr3.
    + destruct (length_at (add_dirty (emit (put st k o3) [Signal k; NotifyList (chars "linsert") k]) 1) k o3 ts' ltac:(apply lookup_insert_eq) Hr3) as (o4 & -> & Hr4). cbn [obind]. eexists. split; [done|]. split; [cbn; rewrite insert_insert_eq; by apply abs_put|done|done].
    + eexists. split; [done|]. split; [cbn; by eapply abs_back|cbn; lia|by rewrite app_nil_r].
  - rewrite (abs_wrong _ _ _ Ha Ek). exists st. split; [done|]. by apply did_refl.
  - rewrite (abs_missing _ _ _ Ha Ek). exists st. split; [done|]. by apply did_refl.
Qed.

(** A command that reads a list, whose internals may change. *)
Lemma did_read st D k o ts : abs (db st) D -> D !! k = Some (AList ts) -> lrep server o ts -> did st (put st k o) D 0 [].
Proof using. intros Ha Ek Hr. split; [by eapply abs_back|cbn; lia|by rewrite app_nil_r]. Qed.

Lemma len_right D st k : abs (db st) D -> right D st (CLen k).
Proof using.
  intros Ha. unfold right. cbn [exec spec]. unfold llenCommand, on_key. destruct (D !! k) as [[ts|]|] eqn:Ek.
  - destruct (abs_list _ _ _ _ Ha Ek) as (o & Eo & Hr). rewrite Eo. destruct (length_at st k o ts Eo Hr) as (o1 & -> & Hr1). cbn [obind]. eexists. split; [done|]. by eapply did_read.
  - rewrite (abs_wrong _ _ _ Ha Ek). exists st. split; [done|]. by apply did_refl.
  - rewrite (abs_missing _ _ _ Ha Ek). exists st. split; [done|]. by apply did_refl.
Qed.

Lemma element_text v : sane v -> element v = RBulk (value_text v).
Proof using. destruct v as [s|v]; [done|]. intros Hv. unfold element. by rewrite (ll_text_repr v Hv). Qed.

Lemma get_at_spec o ts i : lrep server o ts -> exists o', get_at fresh base htab o i = Ret (o', match abs_index ts i ≫= fun i => ts !! i with Some t => RBulk t | None => RNull end) /\ lrep server o' ts.
Proof using Hmem.
  intros Hr. unfold get_at. destruct (init_walk server o ts i LIST_TAIL Hr) as (li & -> & Hd & Hw). cbn [obind]. cbv zeta in Hw. destruct (next_walk server fresh base htab Hmem o li _ _ _ Hw) as (o1 & li1 & r & -> & Hd1 & Har). cbn [obind]. rewrite Hd in Hd1. unfold arrives in Har. rewrite Hd1 in Har.
  destruct (abs_index ts i) as [j|] eqn:Ej; cbn [mbind option_bind].
  - assert (j < length ts)%nat as Hj by (unfold abs_index in Ej; destruct (_ && _) eqn:Eb; [|done]; injection Ej as <-; zbool; lia). destruct (lookup_lt_is_Some_2 ts j Hj) as [t Ht]. rewrite (drop_S ts t j Ht) in Har. destruct r as [e|]; [|by destruct Har]. destruct Har as (x & B & [= <- <-] & Hst). destruct (stand_value server _ _ _ _ _ _ _ Hst) as (v & -> & Hv & Hs). cbn [obind].
    destruct (release_stand server fresh base htab Hmem _ _ _ _ _ _ _ Hst) as (o2 & -> & Hr2). cbn [obind]. exists o2. rewrite Ht, (element_text v Hs), Hv. split; [done|]. by rewrite take_drop_middle in Hr2.
  - rewrite drop_all in Har. destruct r as [e|]; [by destruct Har as (x & B & ? & _)|]. destruct Har as [_ Hw1]. cbn [obind]. destruct (release_walk server fresh base htab Hmem _ _ _ _ _ Hw1) as (o2 & -> & Hr2). cbn [obind]. exists o2. rewrite firstn_all, app_nil_r in Hr2. done.
Qed.

Lemma index_right D st k i : abs (db st) D -> right D st (CIndex k i).
Proof using Hmem.
  intros Ha. unfold right. cbn [exec spec]. unfold lindexCommand, on_key. rewrite getLong_ll. destruct (D !! k) as [[ts|]|] eqn:Ek.
  - destruct (abs_list _ _ _ _ Ha Ek) as (o & Eo & Hr). rewrite Eo. destruct (string2ll i) as [z|]; [|exists st; split; [done|]; by apply did_refl]. destruct (get_at_spec o ts z Hr) as (o1 & E1 & Hr1). rewrite (with_at st k o o1 _ _ Eo E1). eexists. split; [done|]. by eapply did_read.
  - rewrite (abs_wrong _ _ _ Ha Ek). exists st. split; [done|]. by apply did_refl.
  - rewrite (abs_missing _ _ _ Ha Ek). exists st. split; [done|]. by apply did_refl.
Qed.

Lemma set_right D st k i v : abs (db st) D -> cmd_ok (CSet k i v) -> right D st (CSet k i v).
Proof using Husable Hmem Hconf.
  intros Ha [Hv Hi]. unfold right. cbn [exec spec]. unfold lsetCommand, on_key. rewrite getLong_ll. destruct (D !! k) as [[ts|]|] eqn:Ek.
  - destruct (abs_list _ _ _ _ Ha Ek) as (o & Eo & Hr). rewrite Eo. destruct (string2ll i) as [z|]; [|exists st; split; [done|]; by apply did_refl]. specialize (Hi z eq_refl). destruct (grow_one o ts v Hr Hv) as (o1 & E1 & Hr1 & Hroom). rewrite (on_at st k o o1 _ Eo E1). cbn [obind].
    destruct (replace_list server fresh usable base htab Husable Hmem o1 ts z (arg v) Hr1 (value_created v Hv)) as (o2 & E2 & Hr2); [by rewrite (proj2 (arg_sds v))|]. rewrite (proj2 (arg_sds v)) in Hr2. rewrite (swrap_small 32 z ltac:(lia) Hi) in E2, Hr2. rewrite (with_at _ k o1 o2 _ _ (put_at st k o1) E2). cbn [obind]. rewrite put_put. destruct (abs_index ts z) as [j|].
    + destruct (shrink_list server fresh usable base htab Husable Hmem Hconf o2 _ LIST_CONV_SHRINKING Hr2 ltac:(done)) as (o3 & E3 & Hr3). rewrite (on_at _ k o2 o3 _ (put_at st k o2) E3). cbn [obind]. rewrite put_put. eexists. split; [done|]. split; [cbn; by apply abs_put|done|done].
    + eexists. split; [done|]. by eapply did_read.
  - rewrite (abs_wrong _ _ _ Ha Ek). exists st. split; [done|]. by apply did_refl.
  - rewrite (abs_missing _ _ _ Ha Ek). exists st. split; [done|]. by apply did_refl.
Qed.

(** ** Ranges *)

Definition dir_of (reverse : bool) : side := if reverse then LIST_HEAD else LIST_TAIL.
Definition ahead {A} (reverse : bool) (l1 l2 : list A) : list A := if reverse then rev l1 else l2.

Lemma lp_range_walk reverse lp n : forall al p A B, walking server (LListpack lp) (LI (dir_of reverse) (LpIter p)) al A B -> (n <= length (ahead reverse A B))%nat ->
  listpack_range n lp p reverse = Ret (RBulk <$> take n (ahead reverse A B)).
Proof using Hmem fresh.
  induction n as [|n IH]; intros al p A B Hw Hn; cbn [listpack_range]; [done|]. destruct (next_walk server fresh base htab Hmem _ _ _ _ _ Hw) as (o1 & li1 & r & E & Hd1 & Har). unfold listTypeNext in E. cbn [li_pos li_direction] in E, Hd1. destruct p as [zi|].
  2:{ exfalso. injection E as <- <- <-. unfold arrives in Har. cbn [li_direction] in Har. destruct reverse; cbn in *; destruct Har as [-> _]; cbn in Hn; lia. }
  assert ((if reverse then lpPrev lp zi else lpNext lp zi) = match dir_of reverse with LIST_HEAD => lpPrev lp zi | LIST_TAIL => lpNext lp zi end) as -> by (by destruct reverse). destruct (match dir_of reverse with LIST_HEAD => _ | LIST_TAIL => _ end) as [|next] eqn:En; [done|]. cbn [obind] in E |- *. injection E as <- <- <-. unfold arrives in Har. cbn [li_direction] in Har.
  assert (exists x A' B', standing server (LListpack lp) (LI (dir_of reverse) (LpIter next)) (LpEntry_ zi) al A' x B' /\ ahead reverse A B = x :: ahead reverse A' B' /\ walking server (LListpack lp) (LI (dir_of reverse) (LpIter next)) al (if reverse then A' else A' ++ [x]) (if reverse then x :: B' else B')) as (x & A' & B' & Hst & Eah & Hw').
  { destruct reverse; cbn [dir_of] in Har; destruct Har as (x & l & -> & Hst); pose proof (stand_walk server _ _ _ _ _ _ _ Hst) as Hw'; cbn [li_direction] in Hw'; [exists x, l, B|exists x, A, l]; (split; [done|]); (split; [cbn; rewrite ?rev_unit; done|done]). }
  rewrite Eah in *. cbn [length] in Hn. assert (ahead reverse A' B' = ahead reverse (if reverse then A' else A' ++ [x]) (if reverse then x :: B' else B')) as Eq by (by destruct reverse). rewrite (IH al next _ _ Hw') by (rewrite <- Eq; lia). rewrite <- Eq. cbn [obind take fmap list_fmap].
  destruct (stand_value server _ _ _ _ _ _ _ Hst) as (v & Ev & Hv & Hs). cbn [listTypeGetValue] in Ev. injection Ev as ->. by rewrite (element_text v Hs), Hv.
Qed.

Lemma ql_range_walk reverse n : forall al q it A B, walking server (LQuicklist q) (LI (dir_of reverse) (QIter it)) al A B -> (n <= length (ahead reverse A B))%nat ->
  exists q' it' A' B', quicklist_range fresh base htab n q it = Ret (q', it', RBulk <$> take n (ahead reverse A B)) /\ walking server (LQuicklist q') (LI (dir_of reverse) (QIter it')) al A' B' /\ A' ++ B' = A ++ B.
Proof using Hmem.
  induction n as [|n IH]; intros al q it A B Hw Hn; cbn [quicklist_range]; [by exists q, it, A, B|]. destruct (next_walk server fresh base htab Hmem _ _ _ _ _ Hw) as (o1 & li1 & r & E & Hd1 & Har). unfold listTypeNext in E. cbn [li_pos li_direction] in E, Hd1. destruct it as [it|].
  2:{ exfalso. injection E as <- <- <-. unfold arrives in Har. cbn [li_direction] in Har. destruct reverse; cbn in *; destruct Har as [-> _]; cbn in Hn; lia. }
  destruct (quicklistNext fresh base htab q it) as [|[[q1 it1] e]]; [done|]. cbn [obind fst snd] in E |- *. injection E as <- <- <-. unfold arrives in Har. cbn [li_direction] in Har. destruct e as [e|]; cbn [fmap option_fmap option_map] in Har.
  2:{ exfalso. destruct reverse; cbn in *; destruct Har as [-> _]; cbn in Hn; lia. }
  assert (exists x A' B', standing server (LQuicklist q1) (LI (dir_of reverse) (QIter (Some it1))) (QEntry e) al A' x B' /\ ahead reverse A B = x :: ahead reverse A' B' /\ A' ++ x :: B' = A ++ B /\ walking server (LQuicklist q1) (LI (dir_of reverse) (QIter (Some it1))) al (if reverse then A' else A' ++ [x]) (if reverse then x :: B' else B')) as (x & A' & B' & Hst & Eah & Ecat & Hw').
  { destruct reverse; cbn [dir_of] in Har; destruct Har as (x & l & -> & Hst); pose proof (stand_walk server _ _ _ _ _ _ _ Hst) as Hw'; cbn [li_direction] in Hw'; [exists x, l, B|exists x, A, l]; (split; [done|]); (split; [cbn; rewrite ?rev_unit; done|]); (split; [by rewrite <- ?app_assoc|done]). }
  rewrite Eah in *. cbn [length] in Hn. assert (ahead reverse A' B' = ahead reverse (if reverse then A' else A' ++ [x]) (if reverse then x :: B' else B')) as Eq by (by destruct reverse). destruct (IH al q1 (Some it1) _ _ Hw') as (q2 & it2 & A2 & B2 & -> & Hw2 & Ec2); [rewrite <- Eq; lia|]. cbn [obind]. rewrite <- Eq. exists q2, it2, A2, B2. split; [|split; [done|rewrite Ec2, <- Ecat; destruct reverse; [done|by rewrite <- app_assoc]]].
  destruct (stand_value server _ _ _ _ _ _ _ Hst) as (v & Ev & Hv & Hs). cbn [listTypeGetValue] in Ev. injection Ev as ->. cbn [take fmap list_fmap]. by rewrite (element_text v Hs), Hv.
Qed.

(** The bounds [clip] gives, when the range is not empty. *)
Lemma slice_clip ts s e st en : clip (Z.of_nat (length ts)) s e = (st, en) -> 0 <= st /\
  slice ts s e = take (Z.to_nat (Z.min (Z.of_nat (length ts) - 1) en - st + 1)) (drop (Z.to_nat st) ts) /\
  ((en <? st) || (Z.of_nat (length ts) <=? st) = true -> slice ts s e = []).
Proof using.
  unfold clip, slice. intros [= <- <-]. set (a := if s <? 0 then _ else _). set (b := if e <? 0 then _ else _). assert ((if a <? 0 then 0 else a) = Z.max 0 a) as -> by (case_bool; lia). split; [lia|]. split; [done|]. clearbody a b. intros Hc. apply orb_true_iff in Hc. rewrite Z.ltb_lt, Z.leb_le in Hc. replace (Z.to_nat _) with 0%nat by lia. done.
Qed.

Lemma length_slice ts s e st en : clip (Z.of_nat (length ts)) s e = (st, en) -> (en <? st) || (Z.of_nat (length ts) <=? st) = false ->
  Z.of_nat (length (slice ts s e)) = Z.min (Z.of_nat (length ts) - 1) en - st + 1 /\ 0 <= st <= Z.min (Z.of_nat (length ts) - 1) en.
Proof using.
  intros Hc Hb. destruct (slice_clip ts s e st en Hc) as (H0 & -> & _). apply orb_false_iff in Hb. rewrite Z.ltb_ge, Z.leb_gt in Hb. rewrite length_take, length_drop. lia.
Qed.

Lemma range_reply o ts s e (reverse : bool) : lrep server o ts -> Z.of_nat (length ts) < 2 ^ 31 ->
  exists o', addListRangeReply fresh base htab o s e reverse = Ret (o', bulks (if reverse then rev (slice ts s e) else slice ts s e)) /\ lrep server o' ts.
Proof using Hmem.
  intros Hr Hlen. unfold addListRangeReply. destruct (length_list server o ts Hr) as (o1 & -> & Hr1). cbn [obind]. destruct (clip _ s e) as [st en] eqn:Ec. destruct (slice_clip ts s e st en Ec) as (H0 & Es & Hempty). destruct (_ || _) eqn:Eb.
  { exists o1. rewrite Hempty by done. by destruct reverse. }
  destruct (length_slice ts s e st en Ec Eb) as [Hls Hb]. assert ((if Z.of_nat (length ts) <=? en then Z.of_nat (length ts) - 1 else en) = Z.min (Z.of_nat (length ts) - 1) en) as -> by (case_bool; lia). assert (Z.min (Z.of_nat (length ts) - 1) en < Z.of_nat (length ts)) as Hen by lia. set (en2 := Z.min _ en) in *. clearbody en2. clear Ec Eb Hempty.
  set (from := if reverse then en2 else st). assert (in_s 32 from /\ in_s 32 (en2 - st + 1)) as [Hf1 Hf2] by (unfold in_s, from; destruct reverse; lia). set (i := if reverse then S (Z.to_nat en2) else Z.to_nat st).
  assert (take (Z.to_nat (en2 - st + 1)) (ahead reverse (take i ts) (drop i ts)) = (if reverse then rev (slice ts s e) else slice ts s e) /\ (Z.to_nat (en2 - st + 1) <= length (ahead reverse (take i ts) (drop i ts)))%nat) as [Etake Hle].
  { rewrite Es. unfold ahead, i. destruct reverse; [|rewrite length_drop; split; [done|lia]]. rewrite length_rev, length_take. split; [|lia]. rewrite firstn_rev, length_take. f_equal. replace (S (Z.to_nat en2) `min` length ts - Z.to_nat (en2 - st + 1))%nat with (Z.to_nat st) by lia. rewrite skipn_firstn_comm. f_equal. lia. }
  assert (abs_index ts from = Some (Z.to_nat from)) as Eabs by (unfold abs_index, from; destruct reverse; rewrite (proj2 (Z.ltb_ge _ _)) by lia; rewrite (proj2 (Z.leb_le _ _)), (proj2 (Z.ltb_lt _ _)) by lia; done).
  assert (length (if reverse then rev (slice ts s e) else slice ts s e) = length (slice ts s e)) as Elen by (destruct reverse; [apply length_rev|done]).
  destruct (init_walk server o1 ts from (dir_of reverse) Hr1) as (li & Ei & Hd & Hw). cbv zeta in Hw. rewrite Eabs in Hw. assert (match dir_of reverse with LIST_HEAD => S (Z.to_nat from) | LIST_TAIL => Z.to_nat from end = i) as Ei2 by (unfold i, from; by destruct reverse). rewrite Ei2 in Hw.
  destruct o1 as [lp|q]; unfold listTypeInitIterator in Ei.
  - unfold addListListpackRangeReply. rewrite (swrap_small 32 from ltac:(lia) Hf1), (swrap_small 32 _ ltac:(lia) Hf2). destruct (lpSeek lp from) as [|p]; [done|]. cbn [obind] in Ei |- *. injection Ei as <-. rewrite (proj2 (Z.ltb_ge _ _)) by lia.
    rewrite (lp_range_walk reverse lp _ _ p _ _ Hw Hle), Etake. cbn [obind]. eexists. split; [|exact Hr1]. unfold bulks. rewrite Elen. do 3 f_equal. lia.
  - unfold addListQuicklistRangeReply. rewrite (swrap_small 32 from ltac:(lia) Hf1), (swrap_small 32 _ ltac:(lia) Hf2). assert (negb reverse = start_head (dir_of reverse)) as -> by (by destruct reverse). destruct (quicklistGetIteratorAtIdx q _ from) as [|it]; [done|]. cbn [obind] in Ei |- *. injection Ei as <-. rewrite (proj2 (Z.ltb_ge _ _)) by lia.
    destruct (ql_range_walk reverse _ _ q it _ _ Hw Hle) as (q' & it' & A' & B' & -> & Hw' & Ecat). rewrite Etake. cbn [obind]. destruct (release_walk server fresh base htab Hmem _ _ _ _ _ Hw') as (o2 & Er & Hr2). unfold listTypeReleaseIterator in Er. cbn [li_pos] in Er. rewrite Ecat, take_drop in Hr2.
    destruct it' as [it'|].
    + destruct (quicklistReleaseIterator fresh base htab q' it') as [|q2]; [done|]. cbn [obind] in Er |- *. injection Er as <-. eexists. split; [|exact Hr2]. unfold bulks. rewrite Elen. do 3 f_equal. lia.
    + injection Er as <-. cbn [obind]. eexists. split; [|exact Hr2]. unfold bulks. rewrite Elen. do 3 f_equal. lia.
Qed.

Lemma cur_key D k ts : D !! k = Some (AList ts) -> cur D k = ts.
Proof using. intros E. unfold cur. by rewrite E. Qed.

Lemma range_right D st k i j : abs (db st) D -> bounded (2 ^ 31 - 1) D -> right D st (CRange k i j).
Proof using Hmem.
  intros Ha Hb. unfold right. cbn [exec spec]. unfold lrangeCommand. rewrite !getLong_ll. destruct (string2ll i) as [a|]; [|exists st; split; [done|]; by apply did_refl]. destruct (string2ll j) as [b|]; [|exists st; split; [done|]; by apply did_refl]. unfold on_key. destruct (D !! k) as [[ts|]|] eqn:Ek.
  - destruct (abs_list _ _ _ _ Ha Ek) as (o & Eo & Hr). rewrite Eo. specialize (Hb k). rewrite (cur_key _ _ _ Ek) in Hb. destruct (range_reply o ts a b false Hr ltac:(lia)) as (o1 & E1 & Hr1). rewrite (with_at st k o o1 _ _ Eo E1). eexists. split; [done|]. by eapply did_read.
  - rewrite (abs_wrong _ _ _ Ha Ek). exists st. split; [done|]. by apply did_refl.
  - rewrite (abs_missing _ _ _ Ha Ek). exists st. split; [done|]. by apply did_refl.
Qed.

(** ** Taking elements off *)

Lemma without_head ts n : 0 <= n -> without ts 0 n = drop (Z.to_nat n) ts.
Proof using. intros Hn. unfold without, abs_index. cbn. destruct ts as [|t ts]; [by rewrite drop_nil|]. cbn [length]. by rewrite (proj2 (Z.ltb_lt _ _)) by lia. Qed.

Lemma without_tail ts n : 0 <= n <= Z.of_nat (length ts) -> without ts (- n) n = take (length ts - Z.to_nat n) ts.
Proof using.
  intros Hn. destruct (Z.eq_dec n 0) as [->|Hz]; [cbn; rewrite without_0, Nat.sub_0_r, firstn_all; done|]. unfold without, abs_index. rewrite (proj2 (Z.ltb_lt (- n) 0)) by lia. rewrite (proj2 (Z.leb_le _ _)), (proj2 (Z.ltb_lt _ _)) by lia. cbn [andb]. rewrite (drop_ge ts) by lia. rewrite app_nil_r. f_equal. lia.
Qed.

Lemma end_slice ts w n : 0 < n <= Z.of_nat (length ts) -> exists a b (reverse : bool), end_range w (Z.of_nat (length ts)) n = (n, (a, b), reverse) /\
  (if reverse then rev (slice ts a b) else slice ts a b) = fst (take_end w n ts) /\ without ts a n = snd (take_end w n ts).
Proof using.
  intros Hn. unfold end_range. rewrite (proj2 (Z.ltb_ge _ _)) by lia. unfold take_end, slice. rewrite (Z.min_l n) by lia. destruct w; cbn [fst snd].
  - exists 0, (n - 1), false. split; [done|]. cbn. rewrite (proj2 (Z.ltb_ge (n - 1) 0)) by lia. rewrite Z.min_r by lia. rewrite drop_0, without_head by lia. split; [f_equal; lia|done].
  - exists (- n), (-1), true. split; [done|]. rewrite (proj2 (Z.ltb_lt (- n) 0)) by lia. cbn. rewrite Z.max_r, Z.min_l by lia. rewrite without_tail by lia. split; [|done]. f_equal. rewrite firstn_all2 by (rewrite length_drop; lia). f_equal. lia.
Qed.

Lemma take_end_min w n ts : take_end w n ts = take_end w (Z.min n (Z.of_nat (length ts))) ts.
Proof using. unfold take_end. by rewrite <- Z.min_assoc, Z.min_id. Qed.

Lemma length_take_end w n ts : 0 <= n -> Z.of_nat (length (fst (take_end w n ts))) = Z.min n (Z.of_nat (length ts)).
Proof using. intros Hn. unfold take_end. destruct w; cbn [fst]; rewrite ?length_rev, ?length_take, ?length_drop; lia. Qed.

Lemma end_range_min w llen n : end_range w llen n = end_range w llen (Z.min n llen).
Proof using. unfold end_range. assert ((if llen <? n then llen else n) = Z.min n llen) as -> by (case_bool; lia). by rewrite (proj2 (Z.ltb_ge llen (Z.min n llen))) by lia. Qed.

Lemma pop_range_spec st D k o ts w n : abs (db st) D -> D !! k = Some (AList ts) -> at_key st k o -> ts <> [] -> 0 < n -> Z.of_nat (length ts) < 2 ^ 31 ->
  exists st', pop_range server fresh usable base htab st k w n = Ret (st', bulks (fst (take_end w n ts))) /\
    did st st' (upd D k (snd (take_end w n ts))) (Z.of_nat (length (fst (take_end w n ts)))) (shrunk (pop_name w) k (snd (take_end w n ts))).
Proof using Husable Hmem Hconf.
  intros Ha Ek Ho Hne Hn Hlen. pose proof (Ha k) as Hr. rewrite Ho, Ek in Hr. rewrite length_take_end by lia. rewrite take_end_min. assert (1 <= Z.of_nat (length ts)) by (destruct ts; [done|cbn [length]; lia]). set (m := Z.min n _) in *. assert (0 < m <= Z.of_nat (length ts)) as Hm by (unfold m; lia). unfold pop_range.
  destruct (length_at st k o ts Ho Hr) as (o1 & -> & Hr1). cbn [obind]. rewrite end_range_min. fold m. destruct (end_slice ts w m Hm) as (a & b & reverse & -> & Es & Ew). destruct (range_reply o1 ts a b reverse Hr1 Hlen) as (o2 & E2 & Hr2). rewrite (with_at _ k o1 o2 _ _ (put_at st k o1) E2). cbn [obind]. rewrite put_put.
  destruct (delrange_list server fresh usable base htab Husable Hmem o2 ts a m Hr2 ltac:(lia) ltac:(lia)) as (o3 & E3 & Hr3). rewrite Ew in Hr3. rewrite (on_at _ k o2 o3 _ (put_at st k o2) E3). cbn [obind]. rewrite put_put. rewrite Es.
  destruct (removed_spec (put st k o3) D k o3 (snd (take_end w m ts)) w m (abs_put _ _ _ _ _ Ha Hr3) (put_at st k o3)) as (st' & bb & -> & Hd). cbn [obind]. exists st'. split; [done|].
  pose proof (did_trans _ _ _ _ _ _ _ _ _ (did_put st D k o3 _ Ha Hr3) Hd) as H'. done.
Qed.

Lemma pop_one_spec st D k ts w : abs (db st) D -> D !! k = Some (AList ts) -> ts <> [] ->
  exists st' v st'' b x, with_list st k (fun o => listTypePop fresh usable base htab o w) = Ret (st', Some v) /\ obj_text v = x /\ snd (list_pop (at_head w) ts) = Some x /\
    listElementsRemoved server fresh base htab st' k w 1 true = Ret (st'', b) /\ did st st'' (upd D k (fst (list_pop (at_head w) ts))) 1 (shrunk (pop_name w) k (fst (list_pop (at_head w) ts))).
Proof using Husable Hmem Hconf.
  intros Ha Ek Hne. destruct (abs_list _ _ _ _ Ha Ek) as (o & Eo & Hr). destruct (pop_list server fresh usable base htab Husable Hmem Hconf o ts w Hr) as (o1 & r & E1 & Hr1 & Hv & Hok).
  assert (exists x, snd (list_pop (at_head w) ts) = Some x) as [x Hx] by (destruct w; cbn; [destruct ts; [done|by eexists]|]; destruct ts as [|y l _] using rev_ind; [done|rewrite last_snoc; by eexists]). rewrite Hx in Hv. destruct r as [v|]; [|done]. injection Hv as Hv.
  destruct (removed_spec (put st k o1) D k o1 (fst (list_pop (at_head w) ts)) w 1 (abs_put _ _ _ _ _ Ha Hr1) (put_at st k o1)) as (st'' & b & E2 & Hd). exists (put st k o1), v, st'', b, x. split; [by eapply with_at|]. split.
  { destruct (Hok v eq_refl) as (Hvo & _). rewrite <- Hv. unfold obj_text, StrObj.content, StrObj.obj_ok in *. destruct (StrObj.o_body v); try done. by apply ll_text_repr. }
  split; [done|]. split; [done|]. pose proof (did_trans _ _ _ _ _ _ _ _ _ (did_put st D k o1 _ Ha Hr1) Hd) as H'. done.
Qed.

Lemma list_pop_split head (ts : list (list Z)) : list_pop head ts = (fst (list_pop head ts), snd (list_pop head ts)).
Proof using. by destruct (list_pop head ts). Qed.

Lemma pop_right D st w k args : abs (db st) D -> no_empty D -> bounded (2 ^ 31 - 1) D -> right D st (CPop w k args).
Proof using Husable Hmem Hconf.
  intros Ha Hne Hb. assert (exec st (CPop w k args) = popGenericCommand server fresh usable base htab st w k args) as Ex by (by destruct w). unfold right. rewrite Ex. unfold popGenericCommand. destruct args as [|c [|c2 args]].
  - cbn [spec length Z.of_nat Z.ltb Z.compare]. unfold on_key. destruct (D !! k) as [[ts|]|] eqn:Ek.
    + destruct (pop_one_spec st D k ts w Ha Ek ltac:(intros ->; by apply (Hne k))) as (st1 & v & st2 & b & x & E1 & Hx & Hs & E2 & Hd). destruct (abs_list _ _ _ _ Ha Ek) as (o & Eo & Hr). rewrite Eo, E1. cbn [obind]. rewrite E2. cbn [obind]. rewrite (list_pop_split (at_head w) ts), Hs, Hx. cbn. exists st2. done.
    + rewrite (abs_wrong _ _ _ Ha Ek). exists st. split; [done|]. by apply did_refl.
    + rewrite (abs_missing _ _ _ Ha Ek). exists st. split; [done|]. by apply did_refl.
  - cbn [spec length]. rewrite getPositive_as. change (1 <? Z.of_nat 1) with false. cbv iota. destruct (as_range c 0 StrObj.LONG_MAX) as [n|] eqn:En; [|exists st; split; [done|]; by apply did_refl]. assert (0 <= n) as Hn by (unfold as_range in En; destruct (string2ll c); [|done]; destruct (_ && _) eqn:Eb; [|done]; injection En as <-; zbool; lia). unfold on_key. destruct (D !! k) as [[ts|]|] eqn:Ek.
    + destruct (abs_list _ _ _ _ Ha Ek) as (o & Eo & Hr). rewrite Eo. destruct (Z.eqb_spec n 0) as [->|Hn0]; [exists st; split; [done|]; by apply did_refl|]. specialize (Hb k). rewrite (cur_key _ _ _ Ek) in Hb.
      destruct (pop_range_spec st D k o ts w n Ha Ek Eo ltac:(intros ->; by apply (Hne k)) ltac:(lia) ltac:(lia)) as (st' & -> & Hd). exists st'. by destruct (take_end w n ts).
    + rewrite (abs_wrong _ _ _ Ha Ek). exists st. split; [done|]. by apply did_refl.
    + rewrite (abs_missing _ _ _ Ha Ek). exists st. split; [done|]. by apply did_refl.
  - rewrite (proj2 (Z.ltb_lt _ _)) by (cbn [length]; lia). exists st. split; [done|]. by apply did_refl.
Qed.

Lemma trim_ranges ts s e st en : ts <> [] -> clip (Z.of_nat (length ts)) s e = (st, en) ->
  let '(lt, rt) := if (en <? st) || (Z.of_nat (length ts) <=? st) then (Z.of_nat (length ts), 0) else (st, Z.of_nat (length ts) - (if Z.of_nat (length ts) <=? en then Z.of_nat (length ts) - 1 else en) - 1) in
  0 <= lt /\ 0 <= rt /\ without (without ts 0 lt) (- rt) rt = slice ts s e /\ lt + rt = Z.of_nat (length ts) - Z.of_nat (length (slice ts s e)).
Proof using.
  intros Hne Ec. destruct (slice_clip ts s e st en Ec) as (H0 & Es & Hempty). destruct (_ || _) eqn:Eb.
  - rewrite Hempty by done. split; [lia|]. split; [lia|]. rewrite without_0, without_head by lia. rewrite Nat2Z.id, drop_all. split; [done|cbn [length]; lia].
  - destruct (length_slice ts s e st en Ec Eb) as [Hls Hb]. assert ((if Z.of_nat (length ts) <=? en then Z.of_nat (length ts) - 1 else en) = Z.min (Z.of_nat (length ts) - 1) en) as -> by (case_bool; lia). rewrite without_head by lia. rewrite without_tail by (rewrite length_drop; lia). split; [lia|]. split; [lia|]. split; [|lia]. rewrite Es, length_drop. f_equal. lia.
Qed.

Lemma trim_right D st k i j : abs (db st) D -> no_empty D -> bounded (2 ^ 31 - 1) D -> right D st (CTrim k i j).
Proof using Husable Hmem Hconf.
  intros Ha Hne Hb. unfold right. cbn [exec spec]. unfold ltrimCommand. rewrite !getLong_ll. destruct (string2ll i) as [a|]; [|exists st; split; [done|]; by apply did_refl]. destruct (string2ll j) as [b|]; [|exists st; split; [done|]; by apply did_refl]. unfold on_key. destruct (D !! k) as [[ts|]|] eqn:Ek.
  - destruct (abs_list _ _ _ _ Ha Ek) as (o & Eo & Hr). rewrite Eo. specialize (Hb k). rewrite (cur_key _ _ _ Ek) in Hb. destruct (length_at st k o ts Eo Hr) as (o1 & -> & Hr1). cbn [obind]. destruct (clip _ a b) as [s e] eqn:Ec. pose proof (trim_ranges ts a b s e ltac:(intros ->; by apply (Hne k)) Ec) as Ht. destruct (if _ || _ then _ else _) as [lt rt]. destruct Ht as (Hlt & Hrt & Hw & Hsum).
    destruct (delrange_list server fresh usable base htab Husable Hmem o1 ts 0 lt Hr1 Hlt ltac:(lia)) as (o2 & E2 & Hr2). rewrite (on_at _ k o1 o2 _ (put_at st k o1) E2). cbn [obind]. rewrite put_put. pose proof (length_without ts 0 lt).
    destruct (delrange_list server fresh usable base htab Husable Hmem o2 _ (- rt) rt Hr2 Hrt ltac:(lia)) as (o3 & E3 & Hr3). rewrite (on_at _ k o2 o3 _ (put_at st k o2) E3). cbn [obind]. rewrite put_put, Hw in *.
    set (st0 := emit (put st k o3) _). destruct (settle st0 D k o3 (slice ts a b) (abs_put _ _ _ _ _ Ha Hr3) (put_at st k o3)) as (st1 & st2 & -> & E4 & Hd). cbn [obind]. rewrite E4. cbn [obind]. eexists. split; [done|].
    assert (did st st0 (<[k := AList (slice ts a b)]> D) 0 [NotifyList (chars "ltrim") k]) as H0 by (split; [by apply abs_put|cbn; lia|done]). pose proof (did_trans _ _ _ _ _ _ _ _ _ H0 Hd) as H'. apply (did_emit _ _ _ _ _ [Signal k]), (did_dirtied _ _ _ _ (lt + rt)) in H'. rewrite <- Hsum. rewrite <- app_assoc in H'. done.
  - rewrite (abs_wrong _ _ _ Ha Ek). exists st. split; [done|]. by apply did_refl.
  - rewrite (abs_missing _ _ _ Ha Ek). exists st. split; [done|]. by apply did_refl.
Qed.

(** ** Walks from either end *)

(** [P] is passed and [L] is to come, in the order of the walk. *)
Definition side_a (reverse : bool) (P L : list (list Z)) : list (list Z) := if reverse then rev L else P.
Definition side_b (reverse : bool) (P L : list (list Z)) : list (list Z) := if reverse then P else L.
Definition pass (reverse : bool) (P : list (list Z)) (x : list Z) : list (list Z) := if reverse then x :: P else P ++ [x].
Abbreviation walkD o li al reverse P L := (li_direction li = dir_of reverse /\ walking server o li al (side_a reverse P L) (side_b reverse P L)).

Lemma next_dir o li al reverse P L : walkD o li al reverse P L -> exists o' li' r, listTypeNext fresh base htab o li = Ret (o', li', r) /\
  match r with
  | None => L = [] /\ walkD o' li' al reverse P L
  | Some e => exists x L', L = x :: L' /\ standing server o' li' e al (side_a reverse P L') x (side_b reverse P L') /\ walkD o' li' al reverse (pass reverse P x) L'
  end.
Proof using Hmem.
  intros [Hd Hw]. destruct (next_walk server fresh base htab Hmem _ _ _ _ _ Hw) as (o1 & li1 & r & E & Hd1 & Har). exists o1, li1, r. split; [done|]. unfold arrives in Har. rewrite Hd in Hd1. rewrite Hd1 in Har. destruct r as [e|].
  - destruct reverse; cbn [dir_of side_a side_b pass] in *; destruct Har as (x & l & E' & Hst); pose proof (stand_walk server _ _ _ _ _ _ _ Hst) as Hw1; rewrite Hd1 in Hw1; cbn [dir_of] in Hw1.
    + apply (f_equal (@rev (list Z))) in E'. rewrite rev_involutive, rev_unit in E'. exists x, (rev l). rewrite rev_involutive. done.
    + exists x, l. done.
  - destruct reverse; cbn [dir_of side_a side_b] in *; destruct Har as [E' Hw1]; [|done]. split; [|done]. by apply (f_equal (@rev (list Z))) in E'; rewrite rev_involutive in E'.
Qed.

Lemma init_dir o ts (reverse : bool) : lrep server o ts -> exists li, listTypeInitIterator o (if reverse then -1 else 0) (dir_of reverse) = Ret li /\ walkD o li true reverse [] (if reverse then rev ts else ts).
Proof using.
  intros Hr. destruct reverse; [|destruct (init_head o ts Hr) as (li & E & Hd & Hw); by exists li]. destruct (init_walk server o ts (-1) LIST_HEAD Hr) as (li & E & Hd & Hw). exists li. split; [done|]. split; [done|]. cbn [side_a side_b]. rewrite rev_involutive. cbv zeta in Hw.
  assert (match abs_index ts (-1) with Some j => S j | None => 0%nat end = length ts) as Ei by (unfold abs_index; destruct ts as [|t ts]; [done|]; cbn [length]; rewrite (proj2 (Z.ltb_lt (-1) 0)) by lia; rewrite (proj2 (Z.leb_le _ _)), (proj2 (Z.ltb_lt _ _)) by lia; cbn [andb]; lia). rewrite Ei, firstn_all, drop_all in Hw. done.
Qed.

Lemma side_pass reverse P x L : side_a reverse (pass reverse P x) L ++ side_b reverse (pass reverse P x) L = side_a reverse P (x :: L) ++ side_b reverse P (x :: L).
Proof using. destruct reverse; cbn; by rewrite <- app_assoc. Qed.

(** ** Removing *)

Definition left_to (toremove removed : Z) : option nat := if toremove =? 0 then None else Some (Z.to_nat (toremove - removed)).

Lemma lrem_loop_spec x toremove reverse fuel : forall o li P L removed, walkD o li true reverse P L -> (length L < fuel)%nat -> toremove = 0 \/ removed < toremove -> 0 <= toremove ->
  let L' := remove_first (left_to toremove removed) x L in
  exists o' li' o'', lrem_loop fresh usable base htab fuel o li x toremove removed = Ret (o', li', removed + (Z.of_nat (length L) - Z.of_nat (length L'))) /\
    listTypeReleaseIterator fresh base htab o' li' = Ret o'' /\ lrep server o'' (side_a reverse P L' ++ side_b reverse P L').
Proof using Husable Hmem.
  induction fuel as [|fuel IH]; intros o li P L removed Hw Hf Hrem Htr; [lia|]. cbn [lrem_loop]. destruct (next_dir _ _ _ _ _ _ Hw) as (o1 & li1 & r & -> & Hn). cbn [obind]. destruct r as [e|].
  2:{ destruct Hn as [-> [_ Hw1]]. cbn [remove_first]. destruct (release_walk server fresh base htab Hmem _ _ _ _ _ Hw1) as (o2 & Er & Hr). exists o1, li1, o2. split; [do 2 f_equal; cbn [length]; lia|done]. }
  destruct Hn as (y & L1 & -> & Hst & Hd1 & Hw1). destruct (arg_sds x) as [Hx1 Hx2]. rewrite (stand_equal server _ _ _ _ _ _ _ (arg x) Hst Hx1), Hx2. cbn [obind]. cbn [length] in Hf |- *.
  assert (left_to toremove removed <> Some 0%nat) as Hl0 by (unfold left_to; case_bool; [done|]; intros [= ?]; lia). assert (remove_first (left_to toremove removed) x (y :: L1) = if decide (y = x) then remove_first (pred <$> left_to toremove removed) x L1 else y :: remove_first (left_to toremove removed) x L1) as -> by (cbn [remove_first]; destruct (left_to toremove removed) as [[|]|]; done).
  case_bool_decide as Hy; [rewrite decide_True by done|rewrite decide_False by done].
  - destruct (delete_walk server fresh usable base htab Husable Hmem _ _ _ _ _ _ Hst) as (o2 & li2 & -> & Hd2 & Hw2). cbn [obind]. assert (walkD o2 li2 true reverse P L1) as Hw2' by (split; [congruence|done]). destruct (negb (toremove =? 0) && (removed + 1 =? toremove)) eqn:Eb.
    + apply andb_true_iff in Eb as [Eb1 Eb2]. apply negb_true_iff, Z.eqb_neq in Eb1. apply Z.eqb_eq in Eb2. assert (pred <$> left_to toremove removed = Some 0%nat) as -> by (unfold left_to; rewrite (proj2 (Z.eqb_neq _ _)) by done; cbn; f_equal; lia). assert (remove_first (Some 0%nat) x L1 = L1) as -> by (by destruct L1).
      destruct (release_walk server fresh base htab Hmem _ _ _ _ _ Hw2) as (o3 & Er & Hr). exists o2, li2, o3. split; [do 2 f_equal; lia|done].
    + assert (pred <$> left_to toremove removed = left_to toremove (removed + 1)) as -> by (unfold left_to; destruct (Z.eqb_spec toremove 0); [done|]; cbn; f_equal; lia).
      destruct (IH o2 li2 P L1 (removed + 1) Hw2') as (o3 & li3 & o4 & -> & Er & Hr); [lia| |done|].
      { apply andb_false_iff in Eb. rewrite negb_false_iff, Z.eqb_eq, Z.eqb_neq in Eb. lia. }
      exists o3, li3, o4. split; [do 2 f_equal; lia|done].
  - destruct (IH o1 li1 (pass reverse P y) L1 removed (conj Hd1 Hw1) ltac:(lia) Hrem Htr) as (o3 & li3 & o4 & -> & Er & Hr). exists o3, li3, o4. cbn [length]. split; [do 2 f_equal; lia|]. split; [done|]. by rewrite side_pass in Hr.
Qed.

Lemma remove_matches_spec o ts x n : lrep server o ts -> exists o', remove_matches fresh usable base htab o x n = Ret (o', Z.of_nat (length ts) - Z.of_nat (length (remove_some n x ts))) /\ lrep server o' (remove_some n x ts).
Proof using Husable Hmem.
  intros Hr. unfold remove_matches. set (reverse := n <? 0). set (L := if reverse then rev ts else ts). destruct (init_dir o ts reverse Hr) as (li & Ei & Hw). fold L in Hw.
  assert ((if reverse then (- n, -1, LIST_HEAD) else (n, 0, LIST_TAIL)) = (Z.abs n, if reverse then -1 else 0, dir_of reverse)) as -> by (unfold reverse; destruct (Z.ltb_spec n 0); cbn [dir_of]; do 2 f_equal; lia). rewrite Ei. cbn [obind].
  assert (length L = length ts) as EL by (unfold L; destruct reverse; [apply length_rev|done]). destruct (lrem_loop_spec x (Z.abs n) reverse (turns o) o li [] L 0 Hw) as (o1 & li1 & o2 & -> & Er & Hr2); [rewrite EL; by apply turns_enough|lia|lia|]. cbn [obind fst snd]. rewrite Er. cbn [obind]. exists o2.
  assert (remove_some n x ts = side_a reverse [] (remove_first (left_to (Z.abs n) 0) x L) ++ side_b reverse [] (remove_first (left_to (Z.abs n) 0) x L)) as E.
  { unfold remove_some, left_to, L, reverse. destruct (Z.eqb_spec n 0) as [->|Hn0]; [done|]. rewrite (proj2 (Z.eqb_neq (Z.abs n) 0)) by lia. rewrite Z.sub_0_r. destruct (Z.ltb_spec n 0); cbn [side_a side_b app]; [rewrite app_nil_r; do 3 f_equal; lia|do 2 f_equal; lia]. }
  rewrite E in *. split; [|done]. do 2 f_equal. rewrite EL. assert (length (side_a reverse [] (remove_first (left_to (Z.abs n) 0) x L) ++ side_b reverse [] (remove_first (left_to (Z.abs n) 0) x L)) = length (remove_first (left_to (Z.abs n) 0) x L)) as -> by (destruct reverse; cbn [side_a side_b app]; [by rewrite app_nil_r, length_rev|done]). lia.
Qed.

Lemma remove_first_length n x ts : (length (remove_first n x ts) <= length ts)%nat /\ (length (remove_first n x ts) = length ts -> remove_first n x ts = ts).
Proof using.
  revert n. induction ts as [|t ts IH]; intros n; [done|]. cbn [remove_first].
  assert (let r := if decide (t = x) then remove_first (pred <$> n) x ts else t :: remove_first n x ts in (length r <= length (t :: ts))%nat /\ (length r = length (t :: ts) -> r = t :: ts)) as H; [|by destruct n as [[|n]|]].
  cbv zeta. cbn [length]. case_decide; [destruct (IH (pred <$> n)) as [H1 _]; split; intros; lia|]. destruct (IH n) as [H1 H2]. cbn [length]. split; [lia|]. intros [= E]. by rewrite H2.
Qed.

Lemma remove_some_same n x ts : length (remove_some n x ts) = length ts -> remove_some n x ts = ts.
Proof using.
  unfold remove_some. destruct (n =? 0); [apply remove_first_length|]. destruct (n <? 0); [|apply remove_first_length]. rewrite length_rev, <- (length_rev ts). intros E. rewrite (proj2 (remove_first_length _ _ _) E). apply rev_involutive.
Qed.

Lemma rem_right D st k c x : abs (db st) D -> right D st (CRem k c x).
Proof using Husable Hmem Hconf.
  intros Ha. unfold right. cbn [exec spec]. unfold lremCommand. rewrite getRange_as. destruct (as_range c _ _) as [n|]; [|exists st; split; [done|]; by apply did_refl]. unfold on_key. destruct (D !! k) as [[ts|]|] eqn:Ek.
  - destruct (abs_list _ _ _ _ Ha Ek) as (o & Eo & Hr). rewrite Eo. destruct (remove_matches_spec o ts x n Hr) as (o1 & E1 & Hr1). rewrite (with_at st k o o1 _ _ Eo E1). cbn [obind]. set (ts' := remove_some n x ts) in *. set (removed := Z.of_nat (length ts) - Z.of_nat (length ts')) in *. destruct (Z.eqb_spec removed 0) as [E0|Hne]; cbn [negb obind].
    + rewrite E0. eexists. split; [done|]. assert (ts' = ts) as Ets by (apply remove_some_same; fold ts'; lia). rewrite Ets in Hr1. apply (did_dirtied st _ D 0 0 []). by eapply did_read.
    + set (st0 := emit (add_dirty (put st k o1) removed) _). destruct (settle st0 D k o1 ts' (abs_put _ _ _ _ _ Ha Hr1) (put_at st k o1)) as (st1 & st2 & -> & E4 & Hd). cbn [obind]. rewrite E4. cbn [obind]. eexists. split; [done|].
      assert (did st st0 (<[k := AList ts']> D) removed [NotifyList (chars "lrem") k]) as H0 by (split; [by apply abs_put|done|done]). pose proof (did_trans _ _ _ _ _ _ _ _ _ H0 Hd) as H'. rewrite Z.add_0_r in H'. apply (did_emit _ _ _ _ _ [Signal k]) in H'. rewrite <- app_assoc in H'. done.
  - rewrite (abs_wrong _ _ _ Ha Ek). exists st. split; [done|]. by apply did_refl.
  - rewrite (abs_missing _ _ _ Ha Ek). exists st. split; [done|]. by apply did_refl.
Qed.

(** ** Positions *)

(** The element after [i] others in the order of the walk. *)
Definition where_at (reverse : bool) (llen i : Z) : Z := if reverse then llen - i - 1 else i.
Definition numbered (reverse : bool) (llen i : Z) (L : list (list Z)) : list (Z * list Z) := imap (fun j t => (where_at reverse llen (i + Z.of_nat j), t)) L.
Definition cut {A} (maxlen i : Z) (l : list A) : list A := if maxlen =? 0 then l else take (Z.to_nat (maxlen - i)) l.
Definition hits (x : list Z) (l : list (Z * list Z)) : list Z := fst <$> List.filter (fun p => bool_decide (snd p = x)) l.

Lemma numbered_cons reverse llen i x L : numbered reverse llen i (x :: L) = (where_at reverse llen i, x) :: numbered reverse llen (i + 1) L.
Proof using. unfold numbered. rewrite imap_cons. f_equal; [by rewrite Z.add_0_r|]. apply imap_ext. intros j t _. cbn. do 2 f_equal. lia. Qed.

Lemma numbered_rev (ts : list (list Z)) : rev (imap (fun i t => (Z.of_nat i, t)) ts) = numbered true (Z.of_nat (length ts)) 0 (rev ts).
Proof using.
  induction ts as [|t ts IH] using rev_ind; [done|]. rewrite imap_app, rev_app_distr, rev_unit, length_app, numbered_cons, IH. cbn [imap rev app length compose]. f_equal; [unfold where_at; do 2 f_equal; rewrite Nat.add_0_r; lia|]. unfold numbered. apply imap_ext. intros j y _. unfold where_at. f_equal. lia.
Qed.

Lemma numbered_id (ts : list (list Z)) llen : imap (fun i t => (Z.of_nat i, t)) ts = numbered false llen 0 ts.
Proof using. done. Qed.

(** What [lpos_loop] finds: the list, and the index it ends with when it looks for one. *)
Definition found_at (count rank matches : Z) (R l : list Z) (m : Z) : Prop :=
  if count =? -1 then l = [] /\ m = default (-1) (List.head R)
  else l = if count =? 0 then R else take (Z.to_nat (count - Z.max 0 (matches - rank + 1))) R.

Lemma lpos_loop_spec x rank count maxlen llen al reverse fuel : 1 <= rank -> -1 <= count -> 0 <= maxlen -> forall o li P L index matches, walkD o li al reverse P L -> (length L < fuel)%nat ->
  0 <= index -> (maxlen = 0 \/ index <= maxlen) -> 0 <= matches -> (count = 0 \/ count = -1 /\ matches < rank \/ Z.max 0 (matches - rank + 1) < count) ->
  exists o' li' l m o'', lpos_loop fresh base htab fuel o li x rank count maxlen llen index matches = Ret (o', li', l, m) /\ listTypeReleaseIterator fresh base htab o' li' = Ret o'' /\
    lrep server o'' (side_a reverse P L ++ side_b reverse P L) /\ found_at count rank matches (drop (Z.to_nat (rank - 1 - matches)) (hits x (cut maxlen index (numbered reverse llen index L)))) l m.
Proof using Hmem.
  intros Hrank Hcount Hmax. induction fuel as [|fuel IH]; intros o li P L index matches Hw Hf Hi Him Hm Hc; [lia|]. cbn [lpos_loop]. destruct (next_dir _ _ _ _ _ _ Hw) as (o1 & li1 & r & -> & Hn). cbn [obind].
  assert (forall (o1 : listobj) li1, walkD o1 li1 al reverse P L -> hits x (cut maxlen index (numbered reverse llen index L)) = [] -> exists o' li' l m o'', Ret (o1, li1, [], -1) = Ret (o', li', l, m) /\ listTypeReleaseIterator fresh base htab o' li' = Ret o'' /\
    lrep server o'' (side_a reverse P L ++ side_b reverse P L) /\ found_at count rank matches (drop (Z.to_nat (rank - 1 - matches)) (hits x (cut maxlen index (numbered reverse llen index L)))) l m) as Hnone.
  { intros o2 li2 [_ Hw2] ->. destruct (release_walk server fresh base htab Hmem _ _ _ _ _ Hw2) as (o3 & Er & Hr). eexists _, _, _, _, o3. split; [done|]. split; [done|]. split; [done|]. unfold found_at. rewrite drop_nil. destruct (count =? -1); [done|]. destruct (count =? 0); [done|]. by rewrite take_nil. }
  destruct r as [e|].
  2:{ destruct Hn as [-> Hw1]. apply Hnone; [done|]. unfold numbered, cut. cbn. destruct (maxlen =? 0); [done|]. by rewrite take_nil. }
  destruct Hn as (y & L1 & -> & Hst & Hd1 & Hw1). destruct (release_stand server fresh base htab Hmem _ _ _ _ _ _ _ Hst) as (o3 & Er3 & Hr3). assert (side_a reverse P L1 ++ y :: side_b reverse P L1 = side_a reverse P (y :: L1) ++ side_b reverse P (y :: L1)) as Eside by (destruct reverse; cbn; [by rewrite <- app_assoc|done]).
  destruct (negb ((maxlen =? 0) || (index <? maxlen))) eqn:Eb.
  { apply negb_true_iff, orb_false_iff in Eb as [Eb1 Eb2]. apply Z.eqb_neq in Eb1. apply Z.ltb_ge in Eb2. assert (hits x (cut maxlen index (numbered reverse llen index (y :: L1))) = []) as -> by (unfold cut; rewrite (proj2 (Z.eqb_neq _ _)) by done; by replace (Z.to_nat (maxlen - index)) with 0%nat by lia). rewrite drop_nil. eexists _, _, _, _, o3. split; [done|]. split; [done|]. rewrite <- Eside. split; [done|]. unfold found_at. destruct (count =? -1); [done|]. destruct (count =? 0); [done|]. by rewrite take_nil. }
  apply negb_false_iff, orb_true_iff in Eb. rewrite Z.eqb_eq, Z.ltb_lt in Eb. cbn [length] in Hf.
  assert (cut maxlen index (numbered reverse llen index (y :: L1)) = (where_at reverse llen index, y) :: cut maxlen (index + 1) (numbered reverse llen (index + 1) L1)) as Ecut.
  { rewrite numbered_cons. unfold cut. destruct (Z.eqb_spec maxlen 0); [done|]. replace (Z.to_nat (maxlen - index)) with (S (Z.to_nat (maxlen - (index + 1)))) by lia. done. }
  rewrite Ecut. destruct (arg_sds x) as [Hx1 Hx2]. rewrite (stand_equal server _ _ _ _ _ _ _ (arg x) Hst Hx1), Hx2. cbn [obind]. set (rest := cut maxlen (index + 1) _) in *.
  assert (hits x ((where_at reverse llen index, y) :: rest) = (if bool_decide (y = x) then [where_at reverse llen index] else []) ++ hits x rest) as Ehits by (unfold hits; cbn [List.filter snd]; case_bool_decide; done). rewrite Ehits. clear Ehits Hnone.
  rewrite <- side_pass. assert (maxlen = 0 \/ index + 1 <= maxlen) as Him' by lia. case_bool_decide as Hy.
  2:{ cbn [app]. apply IH; try done; lia. }
  assert (match li_direction li1 with LIST_HEAD => llen - index - 1 | LIST_TAIL => index end = where_at reverse llen index) as -> by (rewrite Hd1; by destruct reverse). cbn [app]. destruct (Z.leb_spec rank (matches + 1)) as [Hrk|Hrk].
  - replace (Z.to_nat (rank - 1 - matches)) with 0%nat by lia. rewrite drop_0. destruct (Z.eqb_spec count (-1)) as [->|Hc1]; cbn [negb].
    + eexists _, _, _, _, o3. split; [done|]. split; [done|]. rewrite side_pass, <- Eside. split; [done|]. done.
    + destruct (negb (count =? 0) && (count <=? matches + 1 - rank + 1)) eqn:Ebr.
      * apply andb_true_iff in Ebr as [Eb1 Eb2]. apply negb_true_iff, Z.eqb_neq in Eb1. apply Z.leb_le in Eb2. eexists _, _, _, _, o3. split; [done|]. split; [done|]. rewrite side_pass, <- Eside. split; [done|]. unfold found_at. rewrite !(proj2 (Z.eqb_neq _ _)) by done. replace (Z.to_nat _) with 1%nat by lia. done.
      * apply andb_false_iff in Ebr. rewrite negb_false_iff, Z.eqb_eq, Z.leb_gt in Ebr.
        destruct (IH o1 li1 (pass reverse P y) L1 (index + 1) (matches + 1) (conj Hd1 Hw1)) as (o4 & li4 & l & m & o5 & -> & Er & Hr & Hf5); try lia. cbn [obind fst snd]. eexists _, _, _, _, o5. split; [done|]. split; [done|]. split; [done|]. replace (Z.to_nat (rank - 1 - (matches + 1))) with 0%nat in Hf5 by lia. rewrite drop_0 in Hf5. unfold found_at in *. rewrite (proj2 (Z.eqb_neq _ _)) in * by done. rewrite Hf5. destruct (Z.eqb_spec count 0); [done|].
        replace (Z.to_nat (count - Z.max 0 (matches - rank + 1))) with (S (Z.to_nat (count - Z.max 0 (matches + 1 - rank + 1)))) by lia. done.
  - destruct (IH o1 li1 (pass reverse P y) L1 (index + 1) (matches + 1) (conj Hd1 Hw1)) as (o4 & li4 & l & m & o5 & -> & Er & Hr & Hf5); try lia. eexists _, _, _, _, o5. split; [done|]. split; [done|]. split; [done|].
    replace (Z.to_nat (rank - 1 - matches)) with (S (Z.to_nat (rank - 1 - (matches + 1)))) by lia. cbn [drop]. unfold found_at in *. destruct (count =? -1); [done|]. rewrite Hf5. by replace (Z.max 0 (matches - rank + 1)) with (Z.max 0 (matches + 1 - rank + 1)) by lia.
Qed.

Lemma as_range_bounds s lo hi v : as_range s lo hi = Some v -> lo <= v <= hi.
Proof using. unfold as_range. destruct (string2ll s); [|done]. destruct (_ && _) eqn:Eb; [|done]. intros [= <-]. zbool. lia. Qed.

(** The options are the last values, or the first error. *)
Lemma option_words w : SdsArgs.same_case w (chars "RANK") = SdsArgs.named (chars "rank") w /\ SdsArgs.same_case w (chars "COUNT") = SdsArgs.named (chars "count") w /\
  SdsArgs.same_case w (chars "MAXLEN") = SdsArgs.named (chars "maxlen") w.
Proof using. split; [|split]; by rewrite <- SdsArgs.same_case_named. Qed.

Lemma first_error_cons {A} (x : A + reply) l : first_error (x :: l) = match x with inr e => Some e | inl _ => first_error l end.
Proof using. by destruct x. Qed.

Lemma last_value_cons o d x l : last_value o d (x :: l) = last_value o (match x with inl (o', v) => if decide (o' = o) then v else d | inr _ => d end) l.
Proof using.
  unfold last_value. cbn [omap list_omap]. destruct x as [[o' v]|e]; [|done]. destruct (decide (o' = o)); [|done]. set (m := omap _ l). rewrite last_cons. by destruct (last m).
Qed.

Lemma lpos_options_spec argv rank count maxlen : let given := pair_value <$> pairs argv in
  lpos_options argv rank count maxlen =
  match first_error given with Some e => inr e | None => inl (last_value ORank rank given, last_value OCount count given, last_value OMaxlen maxlen given) end.
Proof using.
  revert rank count maxlen. induction argv as [argv IH] using (induction_ltof1 _ (@length (list Z))). unfold ltof in IH. intros rank count maxlen. destruct argv as [|w [|a argv]]; [done| |].
  { cbn. unfold pair_value. cbn. by destruct (option_of w). }
  cbn [lpos_options pairs fmap list_fmap]. specialize (IH argv ltac:(cbn; lia)). change (list_fmap _ _ pair_value (pairs argv)) with (pair_value <$> pairs argv). set (rest := pair_value <$> pairs argv) in *. cbv zeta in *.
  rewrite first_error_cons, !last_value_cons. rewrite getRange_as, !getPositive_as. unfold pair_value, option_of. cbn [fst snd]. destruct (option_words w) as (-> & -> & ->).
  destruct (SdsArgs.named (chars "rank") w); [|destruct (SdsArgs.named (chars "count") w); [|destruct (SdsArgs.named (chars "maxlen") w); [|done]]]; (destruct (as_range a _ _) as [v|]; [|done]).
  - destruct (Z.eqb_spec v 0) as [->|Hv]; [by rewrite bool_decide_eq_true_2|]. rewrite bool_decide_eq_false_2 by (intros [_ ?]; done). by rewrite IH.
  - rewrite bool_decide_eq_false_2 by (intros [? _]; done). by rewrite IH.
  - rewrite bool_decide_eq_false_2 by (intros [? _]; done). by rewrite IH.
Qed.

Lemma last_value_bounds (P : Z -> Prop) o d l : P d -> Forall (fun x => match x with inl (o', v) => o' = o -> P v | inr _ => True end) l -> P (last_value o d l).
Proof using. intros Hd Hl. revert d Hd. induction Hl as [|x l Hx _ IH]; intros d Hd; [done|]. rewrite last_value_cons. apply IH. destruct x as [[o' v]|]; [|done]. case_decide; [by apply Hx|done]. Qed.

Lemma pair_values argv : Forall (fun x => match x with inl (o, v) => match o with ORank => v <> 0 | _ => 0 <= v end | inr _ => True end) (pair_value <$> pairs argv).
Proof using.
  apply Forall_fmap, Forall_forall. intros [w a] _. unfold compose, pair_value. cbn [fst snd]. destruct (option_of w) as [o|]; [|done]. destruct a as [a|]; [|done]. destruct (as_range a _ _) as [v|] eqn:Ev; [|done]. apply as_range_bounds in Ev. case_bool_decide as Hb; [done|].
  destruct o; [intros ->; by apply Hb|lia|lia].
Qed.

(** Counting changes a field of the header and moves nothing. *)
Lemma length_walk lp li al A B : walking server (LListpack lp) li al A B -> exists lp', lpLength lp = Ret (Z.of_nat (length (A ++ B)), lp') /\ lrep server (LListpack lp') (A ++ B) /\ walking server (LListpack lp') li al A B.
Proof using.
  unfold walking. destruct (li_pos li) as [|p]; [done|]. intros (Hh & Hs & Hp). destruct (length_text lp _ Hh) as (lp' & E & Hh'). exists lp'. split; [done|]. split; [done|]. split; [done|]. split; [done|].
  assert (forall k zi, place lp (A ++ B) k zi -> place lp' (A ++ B) k zi) as Hpl. { intros k zi (es & Hl & H). exists es. split; [|done]. destruct (lpLength_spec lp es Hl) as (lp2 & E2 & Hl2). rewrite E in E2. by injection E2 as _ <-. }
  destruct p as [zi|]; [|done]. destruct (li_direction li); [destruct Hp as [? ?]; split; [done|]|]; by apply Hpl.
Qed.

Lemma positions_nonneg ts x rank maxlen d i : i ∈ positions ts x rank maxlen d -> 0 <= i.
Proof using.
  unfold positions. set (l := imap _ ts). assert (Forall (fun p : Z * list Z => 0 <= fst p) l) as Hl. { apply Forall_lookup. intros j p Hp. unfold l in Hp. rewrite list_lookup_imap in Hp. destruct (ts !! j); [|done]. injection Hp as <-. cbn. lia. }
  set (l1 := match d with LIST_HEAD => _ | LIST_TAIL => _ end). assert (Forall (fun p : Z * list Z => 0 <= fst p) l1) as Hl1 by (unfold l1; destruct d; [apply Forall_rev|]; done). set (l2 := if maxlen =? 0 then _ else _). assert (Forall (fun p : Z * list Z => 0 <= fst p) l2) as Hl2 by (unfold l2; case_bool; [done|by apply Forall_take]).
  intros Hi. assert (i ∈ fst <$> List.filter (fun p => bool_decide (snd p = x)) l2) as Hi2 by (rewrite <- (take_drop (Z.to_nat (rank - 1))); apply elem_of_app; by right). apply list_elem_of_fmap in Hi2 as (p & -> & Hp). apply list_elem_of_In, filter_In in Hp as [Hp _]. rewrite Forall_forall in Hl2. apply Hl2. by apply list_elem_of_In.
Qed.

Lemma find_positions_spec o ts x rank count maxlen (reverse : bool) : lrep server o ts -> 1 <= rank -> -1 <= count -> 0 <= maxlen ->
  exists o' l m, find_positions fresh base htab o x rank count maxlen (dir_of reverse) = Ret (o', (l, m)) /\ lrep server o' ts /\ found_at count rank 0 (positions ts x rank maxlen (dir_of reverse)) l m.
Proof using Hmem.
  intros Hr H1 H2 H3. unfold find_positions. destruct (init_dir o ts reverse Hr) as (li & Ei & Hw). assert (match dir_of reverse with LIST_HEAD => -1 | LIST_TAIL => 0 end = if reverse then -1 else 0) as -> by (by destruct reverse). rewrite Ei. cbn [obind].
  assert (exists o1, listTypeLength o = Ret (o1, Z.of_nat (length ts)) /\ lrep server o1 ts /\ walkD o1 li true reverse [] (if reverse then rev ts else ts)) as (o1 & -> & Hr1 & Hw1).
  { destruct Hw as [Hd Hw]. unfold listTypeLength. destruct o as [lp|q]; [|destruct (length_list server _ _ Hr) as (o1 & E & _); cbn in E; injection E as _ E; exists (LQuicklist q); rewrite E; done].
    destruct (length_walk lp li _ _ _ Hw) as (lp' & -> & Hr' & Hw'). cbn [obind]. assert (side_a reverse [] (if reverse then rev ts else ts) ++ side_b reverse [] (if reverse then rev ts else ts) = ts) as Ets by (destruct reverse; cbn; [by rewrite app_nil_r, rev_involutive|done]). rewrite Ets in *. by exists (LListpack lp'). }
  cbn [obind]. set (L := if reverse then rev ts else ts) in *. assert (length L = length ts) as EL by (unfold L; destruct reverse; [apply length_rev|done]).
  destruct (lpos_loop_spec x rank count maxlen (Z.of_nat (length ts)) true reverse (turns o1) H1 H2 H3 o1 li [] L 0 0 Hw1) as (o2 & li2 & l & m & o3 & -> & Er & Hr3 & Hf); try lia; [rewrite EL; by apply turns_enough|]. cbn [obind]. rewrite Er. cbn [obind]. exists o3, l, m. split; [done|]. split.
  - assert (side_a reverse [] L ++ side_b reverse [] L = ts) as Ets by (unfold L; destruct reverse; cbn; [by rewrite app_nil_r, rev_involutive|done]). by rewrite Ets in Hr3.
  - rewrite Z.sub_0_r in Hf. assert (positions ts x rank maxlen (dir_of reverse) = drop (Z.to_nat (rank - 1)) (hits x (cut maxlen 0 (numbered reverse (Z.of_nat (length ts)) 0 L)))) as ->; [|done].
    unfold positions, hits, cut, L. rewrite Z.sub_0_r. destruct reverse; cbn [dir_of]; [by rewrite numbered_rev|done].
Qed.

Lemma pos_right D st k x argv : abs (db st) D -> right D st (CPos k x argv).
Proof using Hmem.
  intros Ha. unfold right. cbn [exec spec]. unfold lposCommand. rewrite lpos_options_spec. pose proof (pair_values argv) as Hp. set (given := pair_value <$> pairs argv) in *. destruct (first_error given) as [e|]; [exists st; split; [done|]; by apply did_refl|].
  assert (last_value ORank 1 given <> 0 /\ -1 <= last_value OCount (-1) given /\ 0 <= last_value OMaxlen 0 given) as (Hr0 & Hc & Hm).
  { split; [|split]; (apply last_value_bounds; [done|]); (eapply Forall_impl; [exact Hp|]); intros [[o v]|] Hv; try done; intros ->; cbn in Hv; lia. }
  set (rank := last_value ORank 1 given) in *. set (count := last_value OCount (-1) given) in *. set (maxlen := last_value OMaxlen 0 given) in *. clearbody rank count maxlen. clear given Hp.
  assert ((if rank <? 0 then (- rank, LIST_HEAD) else (rank, LIST_TAIL)) = (Z.abs rank, dir_of (rank <? 0))) as -> by (destruct (Z.ltb_spec rank 0); cbn; f_equal; lia). unfold on_key. destruct (D !! k) as [[ts|]|] eqn:Ek.
  - destruct (abs_list _ _ _ _ Ha Ek) as (o & Eob & Hr). rewrite Eob. destruct (find_positions_spec o ts x (Z.abs rank) count maxlen (rank <? 0) Hr ltac:(lia) Hc Hm) as (o1 & l & m & E1 & Hr1 & Hf). rewrite (with_at st k o o1 _ _ Eob E1). cbn [obind]. eexists. cbn [fst snd]. split; [|by eapply did_read].
    assert ((if rank <? 0 then LIST_HEAD else LIST_TAIL) = dir_of (rank <? 0)) as -> by (by destruct (rank <? 0)). unfold found_at in Hf. set (R := positions _ _ _ _ _) in *. do 2 f_equal. destruct (Z.eqb_spec count (-1)) as [->|Hc1]; cbn [negb].
    + destruct Hf as [-> ->]. destruct R as [|i R'] eqn:ER; [done|]. change (default (-1) (List.head (i :: R'))) with i. rewrite (proj2 (Z.eqb_neq _ _)); [done|]. assert (0 <= i) by (apply (positions_nonneg ts x (Z.abs rank) maxlen (dir_of (rank <? 0)) i); fold R; rewrite ER; left). lia.
    + subst l. replace (count - Z.max 0 (0 - Z.abs rank + 1)) with count by lia. done.
  - rewrite (abs_wrong _ _ _ Ha Ek). exists st. split; [done|]. by apply did_refl.
  - rewrite (abs_missing _ _ _ Ha Ek). exists st. cbn [stays fst snd]. split; [by destruct (count =? -1)|by apply did_refl].
Qed.

(** ** Moving *)

Definition gives (st : state) (m : outcome (state * reply)) (r : result) : Prop :=
  exists st', m = Ret (st', snd (fst (fst r))) /\ did st st' (fst (fst (fst r))) (snd (fst r)) (snd r).

Lemma gives_stays st D r : abs (db st) D -> gives st (Ret (st, r)) (stays D r).
Proof using. intros Ha. exists st. split; [done|]. by apply did_refl. Qed.

(** A step that only changed internals before. *)
Lemma gives_after st st1 m r D : did st st1 D 0 [] -> gives st1 m r -> gives st m r.
Proof using. intros Hd (st' & E & Hd'). exists st'. split; [done|]. exact (did_trans _ _ _ _ _ _ _ _ _ Hd Hd'). Qed.

Lemma value_text_of v x : value_ok v -> StrObj.content v = x -> obj_text v = x.
Proof using. intros (Ho & _) <-. unfold obj_text, StrObj.content, StrObj.obj_ok in *. destruct (StrObj.o_body v); try done. by apply ll_text_repr. Qed.

Lemma emit_none st : emit st [] = st.
Proof using. destruct st. unfold emit. cbn. by rewrite app_nil_r. Qed.
Lemma emit_twice st es es' : emit (emit st es) es' = emit st (es ++ es').
Proof using. unfold emit. cbn. by rewrite app_assoc. Qed.

Lemma handle_push st D dst o us v to (there : bool) : abs (db st) D -> value_ok v -> (if there then at_key st dst o /\ D !! dst = Some (AList us) else D !! dst = None /\ us = []) ->
  exists o', lmoveHandlePush server fresh usable base htab st dst there v to = Ret (emit (put st dst o') (created D dst ++ [Signal dst; NotifyList (push_name to) dst]), RBulk (StrObj.content v)) /\ lrep server o' (put_end (at_head to) (StrObj.content v) us).
Proof using Husable Hmem Hconf.
  intros Ha Hv Ht. unfold lmoveHandlePush.
  assert (exists st1 o1, (if there then Ret st else dbAdd st dst (createListListpackObject fresh usable)) = Ret st1 /\ at_key st1 dst o1 /\ lrep server o1 us /\ forall o', put st1 dst o' = emit (put st dst o') (created D dst)) as (st1 & o1 & -> & Ho1 & Hr1 & Hput).
  { destruct there.
    - destruct Ht as [Ho Ed]. exists st, o. split; [done|]. split; [done|]. split; [pose proof (Ha dst) as H; by rewrite Ho, Ed in H|]. intros o'. unfold created. rewrite Ed. symmetry. apply emit_none.
    - destruct Ht as [Ed ->]. unfold dbAdd. rewrite (abs_missing _ _ _ Ha Ed). eexists _, _. split; [done|]. split; [apply lookup_insert_eq|]. split; [by apply created_rep|]. intros o'. unfold created. rewrite Ed. change (emit (put (put st dst (createListListpackObject fresh usable)) dst o') [NotifyNew dst] = emit (put st dst o') [NotifyNew dst]). by rewrite put_put. }
  cbn [obind]. destruct (grow_list server fresh usable base htab Husable Hmem Hconf o1 us [v] Hr1 ltac:(by constructor) ltac:(cbn; unfold max_args; lia)) as (o2 & E2 & Hr2 & Hroom). rewrite (on_at st1 dst o1 o2 _ Ho1 E2). cbn [obind].
  destruct (push_list server fresh usable base htab Husable Hmem o2 us v [] to Hr2 Hv Hroom) as (o3 & E3 & Hr3 & _). rewrite (on_at _ dst o2 o3 _ (put_at st1 dst o2) E3). cbn [obind]. rewrite put_put, Hput, emit_twice, (value_text_of v _ Hv eq_refl). exists o3. done.
Qed.

Lemma move_gives st D src dst from to rw : abs (db st) D -> no_empty D ->
  gives st (lmoveGenericCommand server fresh usable base htab st src dst from to rw) (spec_move D src dst from to (match rw with Some argv => [Rewrite argv] | None => [] end)).
Proof using Husable Hmem Hconf.
  intros Ha Hne. unfold lmoveGenericCommand, spec_move, on_key. destruct (D !! src) as [[ts|]|] eqn:Es; [|rewrite (abs_wrong _ _ _ Ha Es); by apply gives_stays|rewrite (abs_missing _ _ _ Ha Es); by apply gives_stays].
  destruct (abs_list _ _ _ _ Ha Es) as (o & Eo & Hr). rewrite Eo. destruct (length_at st src o ts Eo Hr) as (o1 & -> & Hr1). cbn [obind]. assert (ts <> []) as Hts by (intros ->; by apply (Hne src)). rewrite (proj2 (Z.eqb_neq _ _)) by (destruct ts; [done|cbn [length]; lia]).
  pose proof (did_read st D src o1 ts Ha Es Hr1) as Hd1. apply (gives_after _ _ _ _ _ Hd1). set (st1 := put st src o1) in *. pose proof (did_abs _ _ _ _ _ Hd1) as Ha1. assert (at_key st1 src o1) as Ho1 by apply put_at. clearbody st1. clear Hd1 Ha Eo Hr o st.
  assert (forall rest, created (<[src := AList rest]> D) dst = created D dst) as Hnew. { intros rest. unfold created. destruct (decide (dst = src)) as [->|]; [by rewrite lookup_insert_eq, Es|by rewrite lookup_insert_ne]. }
  case_bool_decide as Hdst; [rewrite (abs_wrong _ _ _ Ha1 Hdst); by apply gives_stays|]. destruct (pop_list server fresh usable base htab Husable Hmem Hconf o1 ts from Hr1) as (o2 & r & E2 & Hr2 & Hv & Hok).
  assert (exists x, snd (list_pop (at_head from) ts) = Some x) as [x Hx] by (destruct from; cbn; [destruct ts; [done|by eexists]|]; destruct ts as [|y l _] using rev_ind; [done|rewrite last_snoc; by eexists]). rewrite (list_pop_split (at_head from) ts), Hx in *. cbn [snd] in Hv. destruct r as [v|]; [|done]. injection Hv as Hv. specialize (Hok v eq_refl). set (rest := fst (list_pop (at_head from) ts)) in *. cbn [fst] in Hr2. fold rest in Hr2. change (default [] (Some x)) with x.
  set (D1 := <[src := AList rest]> D). set (st2 := put st1 src o2). assert (abs (db st2) D1) as Ha2 by (by apply abs_put). set (us := cur D1 dst).
  assert (exists there od, (match db st1 !! dst with Some _ => true | None => false end) = there /\ (if there : bool then at_key st2 dst od /\ D1 !! dst = Some (AList us) else D1 !! dst = None /\ us = [])) as (there & od & Eth & Hth).
  { unfold us, cur, D1, st2, at_key. cbn. destruct (decide (dst = src)) as [->|Hds].
    - rewrite Ho1, !lookup_insert_eq. by exists true, o2.
    - rewrite !lookup_insert_ne by done. pose proof (Ha1 dst) as Hq. destruct (db st1 !! dst) as [[od|]|], (D !! dst) as [[ds|]|] eqn:Edst; try done; [by exists true, od|by exists false, o2]. }
  assert (match db st1 !! dst with Some VOther => Ret (st1, RWrongType) | dobj => let* (st, v) := with_list st1 src (fun o => listTypePop fresh usable base htab o from) in match v with None => Abort | Some v => let* (st, r) := lmoveHandlePush server fresh usable base htab st dst (match dobj with Some _ => true | None => false end) v to in let* (st, _) := listElementsRemoved server fresh base htab st src from 1 true in Ret (match rw with Some argv => emit st [Rewrite argv] | None => st end, r) end end =
    let* (st, r) := lmoveHandlePush server fresh usable base htab st2 dst there v to in let* (st, _) := listElementsRemoved server fresh base htab st src from 1 true in Ret (match rw with Some argv => emit st [Rewrite argv] | None => st end, r)) as ->.
  { erewrite with_at; [|exact Ho1|exact E2]. cbn [obind]. fold st2. rewrite <- Eth. pose proof (Ha1 dst) as Hq. destruct (db st1 !! dst) as [[?|]|]; try done. exfalso. destruct (D !! dst) as [[?|]|] eqn:Ed; done. }
  destruct (handle_push st2 D1 dst od us v to there Ha2 Hok Hth) as (o3 & -> & Hr3). cbn [obind]. rewrite Hv in *. set (D2 := <[dst := AList (put_end (at_head to) x us)]> D1). set (st3 := emit (put st2 dst o3) _). assert (abs (db st3) D2) as Ha3 by (by apply abs_put).
  assert (exists o4 ss, at_key st3 src o4 /\ D2 !! src = Some (AList ss)) as (o4 & ss & Ho4 & Ess).
  { unfold at_key, st3, st2, D2, D1. cbn. destruct (decide (dst = src)) as [->|Hds]; [rewrite !lookup_insert_eq; eauto|]. rewrite !(lookup_insert_ne _ dst src) by done. rewrite !lookup_insert_eq. eauto. }
  destruct (removed_spec st3 D2 src o4 (cur D2 src) from 1) as (st4 & b & -> & Hd4); [|done|]. { rewrite (cur_key _ _ _ Ess), insert_id by done. done. }
  cbn [obind]. eexists. cbn [fst snd]. cbn [snd] in Hx. rewrite Hx. change (default [] (Some x)) with x. split; [done|]. assert (did st1 st3 D2 0 (created D dst ++ [Signal dst; NotifyList (push_name to) dst])) as Hd3 by (split; [done|cbn; lia|by rewrite <- (Hnew rest)]). pose proof (did_trans _ _ _ _ _ _ _ _ _ Hd3 Hd4) as H. destruct rw as [argv|]; [apply (did_emit _ _ _ _ _ [Rewrite argv]) in H|]; rewrite ?app_nil_r, <- ?app_assoc in *; exact H.
Qed.

Lemma move_right D st src dst from to : abs (db st) D -> no_empty D -> right D st (CMove src dst from to).
Proof using Husable Hmem Hconf.
  intros Ha Hne. change (gives st (exec st (CMove src dst from to)) (spec D (CMove src dst from to))). cbn [exec spec]. unfold lmoveCommand, sides. rewrite !position_end. destruct (end_of from) as [a|]; [|by apply gives_stays]. destruct (end_of to) as [b|]; [|by apply gives_stays].
  by apply (move_gives st D src dst a b None).
Qed.

Lemma bmove_gives D st deny src dst a b t argv : abs (db st) D -> no_empty D -> gives st (blmoveGenericCommand server fresh usable base htab deny st src dst a b t argv) (spec_bmove D deny src dst a b t argv).
Proof using Husable Hmem Hconf.
  intros Ha Hne. unfold blmoveGenericCommand, spec_bmove. destruct (D !! src) as [[ts|]|] eqn:Es.
  - destruct (abs_list _ _ _ _ Ha Es) as (o & Eo & Hr). rewrite Eo. destruct (length_at st src o ts Eo Hr) as (o1 & -> & Hr1). cbn [obind]. assert (ts <> []) as Hts by (intros ->; by apply (Hne src)). rewrite (proj2 (Z.leb_gt _ _)) by (destruct ts; [done|cbn [length]; lia]).
    apply (gives_after _ _ _ _ _ (did_read st D src o1 ts Ha Es Hr1)). apply (move_gives _ D src dst a b (Some argv)); [|done]. by eapply abs_back.
  - rewrite (abs_wrong _ _ _ Ha Es). unfold spec_move, on_key. rewrite Es. by apply gives_stays.
  - rewrite (abs_missing _ _ _ Ha Es). by apply gives_stays.
Qed.

Lemma bmove_right D st deny src dst from to t : abs (db st) D -> no_empty D -> right D st (CBMove deny src dst from to t).
Proof using Husable Hmem Hconf.
  intros Ha Hne. change (gives st (exec st (CBMove deny src dst from to t)) (spec D (CBMove deny src dst from to t))). cbn [exec spec]. unfold blmoveCommand, sides, timed. rewrite !position_end. destruct (end_of from) as [a|]; [|by apply gives_stays]. destruct (end_of to) as [b|]; [|by apply gives_stays].
  destruct (getTimeout t); [by apply bmove_gives|by apply gives_stays].
Qed.

Lemma brpoplpush_right D st deny src dst t : abs (db st) D -> no_empty D -> right D st (CBRpopLpush deny src dst t).
Proof using Husable Hmem Hconf.
  intros Ha Hne. change (gives st (exec st (CBRpopLpush deny src dst t)) (spec D (CBRpopLpush deny src dst t))). cbn [exec spec]. unfold brpoplpushCommand, timed. destruct (getTimeout t); [by apply bmove_gives|by apply gives_stays].
Qed.

(** ** Several keys *)

(** A loop over keys whose body takes from the first list. *)
Lemma first_gives D ks none take_ f : no_empty D ->
  (forall st k o ts, abs (db st) D -> at_key st k o -> D !! k = Some (AList ts) -> ts <> [] -> gives st (take_ st k (Z.of_nat (length ts))) (f k ts)) ->
  forall st, abs (db st) D -> gives st (let* (st, r) := first_list st ks take_ in Ret (st, match r with Some r => r | None => none end)) (first_key D ks none f).
Proof using.
  intros Hne Ht. induction ks as [|k ks IH]; intros st Ha; cbn [first_list first_key]; [by apply gives_stays|]. destruct (D !! k) as [[ts|]|] eqn:Ek.
  - destruct (abs_list _ _ _ _ Ha Ek) as (o & Eo & Hr). rewrite Eo. destruct (length_at st k o ts Eo Hr) as (o1 & -> & Hr1). cbn [obind]. assert (ts <> []) as Hts by (intros ->; by apply (Hne k)). rewrite (proj2 (Z.eqb_neq _ _)) by (destruct ts; [done|cbn [length]; lia]).
    apply (gives_after _ _ _ _ _ (did_read st D k o1 ts Ha Ek Hr1)). destruct (Ht (put st k o1) k o1 ts) as (st' & -> & Hd); [by eapply abs_back|apply put_at|done|done|]. by exists st'.
  - rewrite (abs_wrong _ _ _ Ha Ek). by apply gives_stays.
  - rewrite (abs_missing _ _ _ Ha Ek). by apply IH.
Qed.

Lemma take_range_gives D w count : bounded (2 ^ 31 - 1) D -> 0 < count ->
  forall st k o ts, abs (db st) D -> at_key st k o -> D !! k = Some (AList ts) -> ts <> [] -> gives st (take_range server fresh usable base htab w count st k (Z.of_nat (length ts))) (spec_take D w count k ts).
Proof using Husable Hmem Hconf.
  intros Hb Hc st k o ts Ha Ho Ek Hts. specialize (Hb k). rewrite (cur_key _ _ _ Ek) in Hb. unfold take_range, listPopRangeAndReplyWithKey, spec_take. destruct (pop_range_spec st D k o ts w count Ha Ek Ho Hts Hc ltac:(lia)) as (st' & -> & Hd). cbn [obind].
  pose proof (length_take_end w count ts ltac:(lia)) as Hl. destruct (take_end w count ts) as [l rest]. cbn [fst snd] in *. eexists. split; [done|].
  assert (ll_text (if Z.of_nat (length ts) <? count then Z.of_nat (length ts) else count) = repr (Z.of_nat (length l))) as ->. { rewrite Hl. replace (if _ <? _ then _ else _) with (Z.min count (Z.of_nat (length ts))) by (destruct (Z.ltb_spec (Z.of_nat (length ts)) count); lia). apply ll_text_repr. unfold in_s. lia. }
  by apply did_emit.
Qed.

Lemma take_one_gives D w :
  forall st k o ts, abs (db st) D -> at_key st k o -> D !! k = Some (AList ts) -> ts <> [] -> gives st (take_one server fresh usable base htab w st k (Z.of_nat (length ts))) (spec_take_one D w k ts).
Proof using Husable Hmem Hconf.
  intros st k o ts Ha Ho Ek Hts. unfold take_one, spec_take_one. destruct (pop_one_spec st D k ts w Ha Ek Hts) as (st1 & v & st2 & b & x & -> & Hx & Hs & E2 & Hd). cbn [obind]. rewrite E2. cbn [obind]. rewrite (list_pop_split (at_head w) ts), Hs, Hx. eexists. split; [done|]. by apply did_emit.
Qed.

(** COUNT once at most. *)
Lemma mpop_options_spec opts : mpop_options opts (-1) =
  match opts with
  | [] => inl (-1)
  | c :: v :: more => if SdsArgs.named (chars "count") c then match as_range v 1 StrObj.LONG_MAX, more with None, _ => inr RNotInteger | Some n, [] => inl n | _, _ => inr RSyntax end else inr RSyntax
  | _ => inr RSyntax
  end.
Proof using.
  destruct opts as [|c [|v more]]; [done|done|]. cbn [mpop_options]. change (-1 =? -1) with true. cbn [andb]. destruct (option_words c) as (_ & -> & _). destruct (SdsArgs.named _ c); [|done]. rewrite getRange_as. destruct (as_range v _ _) as [n|] eqn:En; [|done]. apply as_range_bounds in En.
  destruct more as [|x [|y more]]; [done|done|]. cbn [mpop_options]. rewrite (proj2 (Z.eqb_neq n (-1))) by lia. done.
Qed.

(** The request of LMPOP, whatever it is. *)
Lemma lmpop_gives D st deny (is_block : bool) pre numkeys rest t : (length pre = if is_block then 2 else 1)%nat -> (is_block = true -> pre !! 1%nat = Some t) ->
  abs (db st) D -> no_empty D -> bounded (2 ^ 31 - 1) D -> (forall n, string2ll numkeys = Some n -> n < 2 ^ 63 - 3) ->
  gives st (lmpopGenericCommand server fresh usable base htab getTimeout deny st (pre ++ numkeys :: rest) (length pre) is_block)
    (match mpop_request numkeys rest with
     | inr e => stays D e
     | inl (ks, w, count) => if is_block then timed D t (fun t => first_key D ks (wait deny RNullArray ks t) (spec_take D w count)) else first_key D ks RNullArray (spec_take D w count)
     end).
Proof using Husable Hmem Hconf.
  intros Hp Ht Ha Hne Hb Hn. unfold lmpopGenericCommand, mpop_request. rewrite list_lookup_middle by done. rewrite getRange_as. destruct (as_range numkeys 1 StrObj.LONG_MAX) as [n|] eqn:En; [|by apply gives_stays].
  assert (1 <= n < 2 ^ 63 - 3) as Hn1. { pose proof (as_range_bounds _ _ _ _ En). unfold as_range in En. destruct (string2ll numkeys) as [v|]; [|done]. destruct (_ && _); [|done]. injection En as ->. specialize (Hn _ eq_refl). lia. }
  assert (length pre <= 2)%nat as Hp2 by (destruct is_block; lia). rewrite swrap_small by (lia || (unfold in_s; lia)). rewrite length_app. cbn [length].
  destruct (Z.leb_spec (Z.of_nat (length rest)) n) as [Hle|Hlt]; [rewrite (proj2 (Z.leb_le _ _)) by lia; by apply gives_stays|]. rewrite (proj2 (Z.leb_gt _ _)) by lia. rewrite (proj2 (Z.ltb_ge _ _)) by lia.
  assert (forall i, drop (S (length pre) + i) (pre ++ numkeys :: rest) = drop i rest) as Hd. { intros i. rewrite <- drop_drop. f_equal. rewrite drop_app_ge by lia. by replace (S (length pre) - length pre)%nat with 1%nat by lia. }
  assert (Z.to_nat (Z.of_nat (length pre) + n + 1) = S (length pre) + Z.to_nat n)%nat as -> by lia. rewrite <- (Nat.add_0_r (S (length pre) + Z.to_nat n)) at 1. rewrite <- lookup_drop, Hd.
  replace (S (S (length pre) + Z.to_nat n))%nat with (S (length pre) + Z.to_nat n + 1)%nat by lia. rewrite <- drop_drop, Hd. rewrite <- (Nat.add_0_r (S (length pre))), Hd, drop_0.
  destruct (drop (Z.to_nat n) rest) as [|w opts] eqn:Er; [apply (f_equal length) in Er; rewrite length_drop in Er; cbn in Er; lia|]. cbn [lookup list_lookup drop]. rewrite drop_0, position_end, mpop_options_spec. destruct (end_of w) as [wh|]; [|by apply gives_stays]. set (ks := take (Z.to_nat n) rest).
  assert (forall count, 1 <= count -> gives st (if is_block then match (pre ++ numkeys :: rest) !! 1%nat with Some timeout => blockingPopGenericCommand server fresh usable base htab getTimeout deny st ks wh timeout count | None => Abort end
      else mpopGenericCommand server fresh usable base htab st ks wh count)
    (if is_block then timed D t (fun t => first_key D ks (wait deny RNullArray ks t) (spec_take D wh count)) else first_key D ks RNullArray (spec_take D wh count))) as Hmain.
  { intros count Hc. destruct is_block.
    - rewrite lookup_app_l by lia. rewrite (Ht eq_refl). unfold blockingPopGenericCommand, timed. destruct (getTimeout t) as [tt|]; [|by apply gives_stays]. rewrite (proj2 (Z.eqb_neq _ _)) by lia. cbn [negb]. apply first_gives; [done|by apply take_range_gives; [|lia]|done].
    - unfold mpopGenericCommand. apply first_gives; [done|by apply take_range_gives; [|lia]|done]. }
  destruct opts as [|c [|v more]]; [by apply Hmain|by apply gives_stays|]. destruct (SdsArgs.named _ c); [|by apply gives_stays]. destruct (as_range v 1 StrObj.LONG_MAX) as [cnt|] eqn:Ec; [|by apply gives_stays]. apply as_range_bounds in Ec.
  destruct more; [|by apply gives_stays]. rewrite (proj2 (Z.eqb_neq _ _)) by lia. apply Hmain; lia.
Qed.

Lemma mpop_right D st numkeys rest : abs (db st) D -> no_empty D -> bounded (2 ^ 31 - 1) D -> cmd_ok (CMPop numkeys rest) -> right D st (CMPop numkeys rest).
Proof using Husable Hmem Hconf. intros Ha Hne Hb Hn. exact (lmpop_gives D st false false [chars "lmpop"] numkeys rest [] eq_refl ltac:(done) Ha Hne Hb Hn). Qed.

Lemma bmpop_right D st deny t numkeys rest : abs (db st) D -> no_empty D -> bounded (2 ^ 31 - 1) D -> cmd_ok (CBMPop deny t numkeys rest) -> right D st (CBMPop deny t numkeys rest).
Proof using Husable Hmem Hconf. intros Ha Hne Hb Hn. exact (lmpop_gives D st deny true [chars "blmpop"; t] numkeys rest t eq_refl ltac:(done) Ha Hne Hb Hn). Qed.

Lemma bpop_right D st deny w ks t : abs (db st) D -> no_empty D -> right D st (CBPop deny w ks t).
Proof using Husable Hmem Hconf.
  intros Ha Hne. change (gives st (exec st (CBPop deny w ks t)) (spec D (CBPop deny w ks t))). assert (exec st (CBPop deny w ks t) = blockingPopGenericCommand server fresh usable base htab getTimeout deny st ks w t (-1)) as -> by (by destruct w). cbn [spec]. unfold blockingPopGenericCommand, timed. destruct (getTimeout t) as [z|]; [|by apply gives_stays].
  apply first_gives; [done|by apply take_one_gives|done].
Qed.

(** ** Every command *)

Lemma command_right D st c : abs (db st) D -> no_empty D -> bounded (2 ^ 31 - 1) D -> cmd_ok c -> right D st c.
Proof using Husable Hmem Hconf.
  intros Ha Hne Hb Hok. destruct c; eauto using push_right, insert_right, len_right, index_right, set_right, pop_right, range_right, trim_right, pos_right, rem_right, move_right, mpop_right, bpop_right, bmpop_right, bmove_right, brpoplpush_right.
  exact (move_gives st D src dst LIST_TAIL LIST_HEAD None Ha Hne).
Qed.
End Commands.

End TListCmdSpec.
