(* ===== verification/TListMain.v ===== *)
(** * TListMain: the list commands over a whole session (t_list.c)

    Any sequence of list commands gives the replies, the count of changes, the
    notifications and the arguments for replication that it gives on lists of strings; a
    command tells about every key it changes; and where the limits of the C types break this. *)
From stdpp Require Import gmap.
From S2P Require Import Prelude NumStr LpEntry Listpack LpBulk StrObj SdsArgs Quicklist QuicklistSpec QuicklistElems QuicklistOps QuicklistIter QuicklistMain TList TListSpec TListCmd TListCmdSpec.
Import NumStr LpEntry Listpack LpBulk Quicklist QuicklistSpec QuicklistElems QuicklistOps QuicklistIter QuicklistMain TList TListSpec TListCmd TListCmdSpec.

Module TListMain.

(** ** The lists of a session *)

(** How many elements a command can add to a list. *)
Definition grown (c : cmd) : Z :=
  match c with
  | CPush _ _ _ _ vs => 1 + Z.of_nat (length vs)
  | CInsert _ _ _ _ | CMove _ _ _ _ | CRpopLpush _ _ | CBMove _ _ _ _ _ _ | CBRpopLpush _ _ _ _ => 1
  | _ => 0
  end.

Definition fits (n : Z) (D : adb) : Prop := no_empty D /\ bounded n D.

Lemma cur_insert D k j ts : cur (<[k := AList ts]> D) j = if decide (j = k) then ts else cur D j.
Proof. unfold cur. destruct (decide (j = k)) as [->|H]; [by rewrite lookup_insert_eq|by rewrite lookup_insert_ne]. Qed.

Lemma cur_delete D k j : cur (delete k D) j = if decide (j = k) then [] else cur D j.
Proof. unfold cur. destruct (decide (j = k)) as [->|H]; [by rewrite lookup_delete_eq|by rewrite lookup_delete_ne]. Qed.

Lemma bounded_insert n D k ts : bounded n D -> Z.of_nat (length ts) <= n -> bounded n (<[k := AList ts]> D).
Proof. intros H Hl j. rewrite cur_insert. by case_decide. Qed.

Lemma fits_insert n D k ts : fits n D -> ts <> [] -> Z.of_nat (length ts) <= n -> fits n (<[k := AList ts]> D).
Proof.
  intros [H1 H2] Hne Hl. split; [|by apply bounded_insert]. intros j. destruct (decide (j = k)) as [->|H]; [rewrite lookup_insert_eq; congruence|]. rewrite lookup_insert_ne by done. apply H1.
Qed.

Lemma fits_upd n D k ts : fits n D -> Z.of_nat (length ts) <= n -> fits n (upd D k ts).
Proof.
  intros H Hl. destruct ts as [|t ts]; cbn [upd]; [|by apply fits_insert]. destruct H as [H1 H2]. split.
  - intros j. destruct (decide (j = k)) as [->|Hj]; [by rewrite lookup_delete_eq|]. rewrite lookup_delete_ne by done. apply H1.
  - intros j. rewrite cur_delete. case_decide; [done|apply H2].
Qed.

Lemma upd_some D k ts : ts <> [] -> upd D k ts = <[k := AList ts]> D.
Proof. by destruct ts. Qed.

Lemma fits_mono n m D : n <= m -> fits n D -> fits m D.
Proof. intros Hnm [H1 H2]. split; [done|]. intros k. specialize (H2 k). lia. Qed.

Lemma fits_key n D k ts : fits n D -> D !! k = Some (AList ts) -> ts <> [] /\ Z.of_nat (length ts) <= n.
Proof. intros [H1 H2] E. specialize (H1 k). specialize (H2 k). rewrite (cur_key _ _ _ E) in H2. split; [congruence|done]. Qed.

Lemma list_pop_length (head : bool) (ts : list (list Z)) : ts <> [] -> (S (length (fst (list_pop head ts))) = length ts)%nat.
Proof. intros H. destruct head; cbn; [by destruct ts|]. destruct ts as [|x l _] using rev_ind; [done|]. rewrite removelast_last, length_app. cbn. lia. Qed.

Lemma slice_length ts i j : (length (slice ts i j) <= length ts)%nat /\ (length (slice ts i j) = length ts -> slice ts i j = ts).
Proof.
  unfold slice. set (a := Z.to_nat _). set (b := Z.to_nat _). clearbody a b. rewrite length_take, length_drop. split; [lia|]. intros H. destruct ts as [|t ts]; [by rewrite drop_nil, take_nil|]. cbn [length] in H. assert (b = 0%nat) as -> by lia. rewrite drop_0, firstn_all2 by (cbn [length]; lia). done.
Qed.

Lemma take_end_rest w n ts : (length (snd (take_end w n ts)) <= length ts)%nat.
Proof. unfold take_end. destruct w; cbn; rewrite ?length_drop, ?length_take; lia. Qed.

Lemma remove_some_length n x ts : (length (remove_some n x ts) <= length ts)%nat.
Proof.
  unfold remove_some. destruct (n =? 0); [apply remove_first_length|]. destruct (n <? 0); [|apply remove_first_length]. rewrite length_rev, <- (length_rev ts). apply remove_first_length.
Qed.

Lemma insert_next_length w p v ts ts' : insert_next w p v ts = Some ts' -> length ts' = S (length ts).
Proof.
  revert ts'. induction ts as [|t ts IH]; intros ts' E; cbn in E; [done|]. case_decide; [by destruct w; injection E as <-|]. destruct (insert_next w p v ts) as [l|]; [|done]. injection E as <-. cbn. by rewrite (IH l).
Qed.

Lemma push_many_length w l ts : length (push_many w l ts) = (length l + length ts)%nat.
Proof. destruct w; cbn; rewrite length_app, ?length_rev; lia. Qed.

(** ** What a command tells *)

(** A key that is not what it was is signalled, and a change is counted. *)
Definition told (D : adb) (r : result) : Prop := forall k, fst (fst (fst r)) !! k <> D !! k -> Signal k ∈ snd r /\ 0 < snd (fst r).
Definition fine (n : Z) (D : adb) (r : result) : Prop := fits n (fst (fst (fst r))) /\ told D r.

Lemma fine_stays n D r : fits n D -> fine n D (stays D r).
Proof. intros H. split; [done|]. by intros k Hk. Qed.

Lemma fine_insert n D k ts r m evs : fits n D -> ts <> [] -> Z.of_nat (length ts) <= n -> 0 < m -> Signal k ∈ evs -> fine n D (<[k := AList ts]> D, r, m, evs).
Proof. intros H Hne Hl Hm Hs. split; [by apply fits_insert|]. intros j Hj. destruct (decide (j = k)) as [->|E]; [done|]. cbn in Hj. by rewrite lookup_insert_ne in Hj. Qed.

Lemma fine_upd n D k ts ts' r m evs : fits n D -> D !! k = Some (AList ts) -> Z.of_nat (length ts') <= n -> (ts' <> ts -> 0 < m) -> Signal k ∈ evs -> fine n D (upd D k ts', r, m, evs).
Proof.
  intros H Ek Hl Hm Hs. split; [by apply fits_upd|]. intros j Hj. cbn [fst snd] in *. destruct (decide (j = k)) as [->|E].
  - split; [done|]. apply Hm. intros ->. destruct (fits_key _ _ _ _ H Ek) as [Hne _]. apply Hj. destruct ts; [done|]. cbn [upd]. by rewrite lookup_insert_eq.
  - destruct ts'; cbn [upd] in Hj; [by rewrite lookup_delete_ne in Hj|by rewrite lookup_insert_ne in Hj].
Qed.

Lemma fine_key n D k absent f : fits n D -> (forall ts, D !! k = Some (AList ts) -> ts <> [] -> Z.of_nat (length ts) <= n -> fine n D (f ts)) -> fine n D (on_key D k absent f).
Proof. intros H Hf. unfold on_key. destruct (D !! k) as [[ts|]|] eqn:E; [|by apply fine_stays..]. destruct (fits_key _ _ _ _ H E). by apply Hf. Qed.

Lemma signal_shrunk name k ts evs : Signal k ∈ shrunk name k ts ++ evs.
Proof. unfold shrunk. rewrite elem_of_app. left. rewrite elem_of_cons, elem_of_app, list_elem_of_singleton. tauto. Qed.

Lemma fine_first n D ks none f : fits n D -> (forall k ts, D !! k = Some (AList ts) -> ts <> [] -> Z.of_nat (length ts) <= n -> fine n D (f k ts)) -> fine n D (first_key D ks none f).
Proof. intros H Hf. induction ks as [|k ks IH]; cbn [first_key]; [by apply fine_stays|]. destruct (D !! k) as [[ts|]|] eqn:E; [|by apply fine_stays|done]. destruct (fits_key _ _ _ _ H E). by apply Hf. Qed.

Lemma fine_move n D src dst a b rw : 0 <= n -> fits n D -> fine (n + 1) D (spec_move D src dst a b rw).
Proof.
  intros Hn H. pose proof (fits_mono n (n + 1) D ltac:(lia) H) as H'. unfold spec_move. apply fine_key; [done|]. intros ts Ek Hts _. destruct (fits_key _ _ _ _ H Ek) as [_ Hl]. case_bool_decide as Hd; [by apply fine_stays|]. pose proof (list_pop_length (at_head a) ts Hts) as Hpl. destruct (list_pop (at_head a) ts) as [rest x]. cbn [fst] in Hpl. set (x' := default [] x). clearbody x'.
  set (D1 := <[src := AList rest]> D). assert (bounded n D1) as Hb1 by (apply bounded_insert; [apply H|lia]). set (us := put_end (at_head b) x' (cur D1 dst)).
  assert (us <> []) as Hus by (unfold us, put_end; destruct (at_head b); [done|intros [_ ?]%app_nil; done]). assert (Z.of_nat (length us) <= n + 1) as Hul by (pose proof (Hb1 dst); unfold us; rewrite length_put; lia).
  assert (fits (n + 1) (upd (<[dst := AList us]> D1) src (cur (<[dst := AList us]> D1) src))) as Hf.
  { rewrite cur_insert. case_decide as Hsd; [subst dst; rewrite (upd_some _ _ us Hus); unfold D1; rewrite !insert_insert_eq; by apply fits_insert|].
    unfold D1 at 2. rewrite cur_insert, decide_True by done. replace (upd (<[dst := AList us]> D1) src rest) with (upd (<[dst := AList us]> D) src rest); [apply fits_upd; [by apply fits_insert|lia]|].
    unfold upd, D1. apply map_eq. intros j. destruct rest; (destruct (decide (j = src)) as [->|]; [by rewrite ?lookup_delete_eq, ?lookup_insert_eq|]); rewrite ?lookup_delete_ne, ?(lookup_insert_ne _ src j) by done; (destruct (decide (j = dst)) as [->|]; [by rewrite !lookup_insert_eq|]); by rewrite !(lookup_insert_ne _ dst j), ?(lookup_insert_ne _ src j) by done. }
  split; [exact Hf|]. intros j Hj. cbn [fst snd] in *. split; [|lia]. destruct (decide (j = dst)) as [->|Hjd]; [apply elem_of_app; left; apply elem_of_app; right; by left|]. destruct (decide (j = src)) as [->|Hjs]; [apply elem_of_app; right; apply signal_shrunk|].
  exfalso. apply Hj. unfold upd, D1. destruct (cur _ src); by rewrite ?lookup_delete_ne, !lookup_insert_ne by done.
Qed.

Section Fine.
Context (getTimeout : list Z -> option Z).

Lemma fine_take n D w count : fits n D -> 0 < count -> forall k ts, D !! k = Some (AList ts) -> ts <> [] -> Z.of_nat (length ts) <= n -> fine n D (spec_take D w count k ts).
Proof.
  intros H Hc k ts Ek Hne Hl. unfold spec_take. pose proof (take_end_rest w count ts) as Hr. pose proof (length_take_end w count ts ltac:(lia)) as Hll. destruct (take_end w count ts) as [l rest]. cbn [fst snd] in *. assert (1 <= Z.of_nat (length ts)) by (destruct ts; [done|cbn [length]; lia]).
  apply (fine_upd _ _ _ ts); [done|done|lia|lia|apply signal_shrunk].
Qed.

Lemma fine_take_one n D w : fits n D -> forall k ts, D !! k = Some (AList ts) -> ts <> [] -> Z.of_nat (length ts) <= n -> fine n D (spec_take_one D w k ts).
Proof.
  intros H k ts Ek Hne Hl. unfold spec_take_one. pose proof (list_pop_length (at_head w) ts Hne) as Hr. destruct (list_pop (at_head w) ts) as [rest x]. cbn [fst] in Hr. apply (fine_upd _ _ _ ts); [done|done|lia|lia|apply signal_shrunk].
Qed.

Lemma fine_timed n D t f : fits n D -> (forall t, fine n D (f t)) -> fine n D (timed getTimeout D t f).
Proof. intros H Hf. unfold timed. destruct (getTimeout t); [done|by apply fine_stays]. Qed.

Lemma fine_sides n D a b f : fits n D -> (forall a b, fine n D (f a b)) -> fine n D (sides D a b f).
Proof. intros H Hf. unfold sides. destruct (end_of a), (end_of b); by try apply fine_stays. Qed.

Lemma fine_bmove n D deny src dst a b t argv : 0 <= n -> fits n D -> fine (n + 1) D (spec_bmove D deny src dst a b t argv).
Proof. intros Hn H. unfold spec_bmove. destruct (D !! src); [by apply fine_move|]. apply fine_stays. eapply fits_mono; [|done]. lia. Qed.

Lemma mpop_count numkeys rest ks w count : mpop_request numkeys rest = inl (ks, w, count) -> 1 <= count.
Proof.
  unfold mpop_request. destruct (as_range numkeys _ _) as [n|]; [|done]. destruct (_ <=? n); [done|]. destruct (drop _ rest) as [|x opts]; [done|]. destruct (end_of x); [|done]. destruct opts as [|c [|v more]]; [by intros [= _ _ <-]|done|].
  destruct (SdsArgs.named _ c); [|done]. destruct (as_range v _ _) as [m|] eqn:E; [|done]. apply as_range_bounds in E. destruct more; [|done]. intros [= _ _ <-]. lia.
Qed.

Lemma spec_fine n D c : 0 <= n -> fits n D -> cmd_ok c -> fine (n + grown c) D (spec getTimeout D c).
Proof.
  intros Hn H Hok. assert (0 <= grown c) as Hg by (destruct c; cbn; lia). pose proof (fits_mono n (n + grown c) D ltac:(lia) H) as H'. destruct c as [w xx k v vs|k where_arg pivot v|k|k index|k index v|w k args|k start end_|k start end_|k ele argv|k count ele|src dst from to|src dst|numkeys rest|deny w ks timeout|deny timeout numkeys rest|deny src dst from to timeout|deny src dst timeout]; cbn [spec grown] in *; rewrite ?Z.add_0_r in *.
  - set (vals := v :: vs). assert (forall ts, Z.of_nat (length ts) <= n -> fine (n + (1 + Z.of_nat (length vs))) D (<[k := AList (push_many w vals ts)]> D, RLong (Z.of_nat (length (push_many w vals ts))), 1 + Z.of_nat (length vs), created D k ++ [Signal k; NotifyList (push_name w) k])) as Hp.
    { intros ts Hl. pose proof (push_many_length w vals ts) as E. unfold vals in E at 2. cbn [length] in E. apply fine_insert; [done|intros E0; rewrite E0 in E; cbn in E; lia|lia|lia|apply elem_of_app; right; by left]. }
    destruct H as [_ Hb]. specialize (Hb k). destruct (D !! k) as [[ts|]|] eqn:Ek; destruct xx; try (by apply fine_stays); by apply Hp.
  - destruct (side_of _ _ where_arg) as [wh|]; [|by apply fine_stays]. apply fine_key; [done|]. intros ts Ek Hne _. destruct (insert_next wh pivot v ts) as [ts'|] eqn:E; [|by apply fine_stays]. apply insert_next_length in E. destruct (fits_key _ _ _ _ H Ek). apply fine_insert; [done|by intros ->|lia|lia|by left].
  - apply fine_key; [done|]. intros. by apply fine_stays.
  - apply fine_key; [done|]. intros. destruct (string2ll index); by apply fine_stays.
  - apply fine_key; [done|]. intros ts Ek Hne Hl. destruct (string2ll index) as [i|]; [|by apply fine_stays]. destruct (abs_index ts i) as [j|]; [|by apply fine_stays]. apply fine_insert; [done|intros E; apply (f_equal length) in E; rewrite length_insert in E; by destruct ts|by rewrite length_insert|lia|by left].
  - destruct args as [|cnt [|? ?]]; [| |by apply fine_stays].
    + apply fine_key; [done|]. intros ts Ek Hne Hl. pose proof (list_pop_length (at_head w) ts Hne) as Hr. destruct (list_pop (at_head w) ts) as [rest x]. cbn [fst] in Hr. apply (fine_upd _ _ _ ts); [done|done|lia|lia|]. rewrite <- (app_nil_r (shrunk _ _ _)). apply signal_shrunk.
    + destruct (as_range cnt 0 StrObj.LONG_MAX) as [m|] eqn:Em; [|by apply fine_stays]. apply as_range_bounds in Em. apply fine_key; [done|]. intros ts Ek Hne Hl. destruct (Z.eqb_spec m 0); [by apply fine_stays|]. destruct (fine_take n D w m H ltac:(lia) k ts Ek Hne Hl) as [Hf Ht]. unfold spec_take in *. destruct (take_end w m ts) as [l rest]. split; [exact Hf|]. intros j Hj. destruct (Ht j Hj) as [Hs Hd]. split; [|exact Hd]. cbn [fst snd] in *. apply elem_of_app in Hs as [Hs|Hs]; [done|]. by apply list_elem_of_singleton in Hs.
  - destruct (string2ll start), (string2ll end_); try (by apply fine_stays). apply fine_key; [done|]. intros. by apply fine_stays.
  - destruct (string2ll start) as [i|], (string2ll end_) as [j|]; try (by apply fine_stays). apply fine_key; [done|]. intros ts Ek Hne Hl. destruct (slice_length ts i j) as [Hs1 Hs2]. apply (fine_upd _ _ _ ts); [done|done|lia| |rewrite <- (app_nil_r (shrunk _ _ _)); apply signal_shrunk]. intros Hd. destruct (decide (length (slice ts i j) = length ts)) as [E|]; [by apply Hs2 in E|lia].
  - destruct (first_error _); [by apply fine_stays|]. apply fine_key; [done|]. intros. by apply fine_stays.
  - destruct (as_range count _ _) as [m|]; [|by apply fine_stays]. apply fine_key; [done|]. intros ts Ek Hne Hl. pose proof (remove_some_length m ele ts). case_bool; [by apply fine_stays|]. apply (fine_upd _ _ _ ts); [done|done|lia|lia|rewrite <- (app_nil_r (shrunk _ _ _)); apply signal_shrunk].
  - apply fine_sides; [done|]. intros. by apply fine_move.
  - by apply fine_move.
  - destruct (mpop_request numkeys rest) as [[[ks w] count]|e] eqn:Em; [|by apply fine_stays]. apply mpop_count in Em. apply fine_first; [done|]. apply fine_take; [done|lia].
  - apply fine_timed; [done|]. intros. apply fine_first; [done|]. by apply fine_take_one.
  - destruct (mpop_request numkeys rest) as [[[ks w] count]|e] eqn:Em; [|by apply fine_stays]. apply mpop_count in Em. apply fine_timed; [done|]. intros. apply fine_first; [done|]. apply fine_take; [done|lia].
  - apply fine_sides; [done|]. intros. apply fine_timed; [done|]. intros. by apply fine_bmove.
  - apply fine_timed; [done|]. intros. by apply fine_bmove.
Qed.
End Fine.

(** ** Sessions *)

Section Run.
Context (getTimeout : list Z -> option Z) (server : config) (fresh : nat -> Z) (usable : nat -> nat) (base : list Z -> Z) (htab : list Z -> Z -> Z).

Fixpoint run (st : state) (cs : list cmd) : outcome (state * list reply) :=
  match cs with
  | [] => Ret (st, [])
  | c :: cs => let* (st, r) := exec getTimeout server fresh usable base htab st c in let* (st, rs) := run st cs in Ret (st, r :: rs)
  end.

Fixpoint spec_run (D : adb) (cs : list cmd) : adb * list reply * Z * list event :=
  match cs with
  | [] => (D, [], 0, [])
  | c :: cs =>
      let '(D, r, n, evs) := spec getTimeout D c in
      let '(D, rs, m, evs') := spec_run D cs in
      (D, r :: rs, n + m, evs ++ evs')
  end.

Fixpoint total_grown (cs : list cmd) : Z := match cs with [] => 0 | c :: cs => grown c + total_grown cs end.

Lemma total_grown_nonneg cs : 0 <= total_grown cs.
Proof using. induction cs as [|c cs IH]; cbn [total_grown]; [done|]. assert (0 <= grown c) by (destruct c; cbn; lia). lia. Qed.

(** A database with keys of other types. *)
Definition start (others : gset (list Z)) : state := State (gset_to_gmap VOther others) 0 [].

Context (Hm : machine usable base htab) (Hconf : config_ok server).

Lemma run_right cs : forall n st D, 0 <= n -> abs server (db st) D -> fits n D -> Forall cmd_ok cs -> n + total_grown cs < 2 ^ 31 ->
  exists st', run st cs = Ret (st', snd (fst (fst (spec_run D cs)))) /\ did server st st' (fst (fst (fst (spec_run D cs)))) (snd (fst (spec_run D cs))) (snd (spec_run D cs)) /\
    fits (n + total_grown cs) (fst (fst (fst (spec_run D cs)))).
Proof using Hm Hconf.
  induction cs as [|c cs IH]; intros n st D Hn Ha Hf Hok Hg; cbn [run spec_run].
  { exists st. split; [done|]. split; [by apply did_refl|]. cbn. by rewrite Z.add_0_r. }
  apply Forall_cons in Hok as [Hc Hok]. cbn [total_grown] in *. assert (0 <= grown c) as Hg1 by (destruct c; cbn; lia). pose proof (total_grown_nonneg cs) as Hgs.
  assert (bounded (2 ^ 31 - 1) D) as Hb by (intros k; pose proof (proj2 Hf k); lia). destruct (command_right getTimeout server fresh usable base htab (proj1 Hm) (proj2 Hm) Hconf D st c Ha (proj1 Hf) Hb Hc) as (st1 & E1 & Hd1). rewrite E1. cbn [obind].
  destruct (spec_fine getTimeout n D c Hn Hf Hc) as [Hf1 _]. destruct (spec getTimeout D c) as [[[D1 r] m] evs]. cbn [fst snd] in *. destruct (IH (n + grown c) st1 D1 ltac:(lia) (did_abs _ _ _ _ _ _ Hd1) Hf1 Hok ltac:(lia)) as (st2 & -> & Hd2 & Hf2).
  destruct (spec_run D1 cs) as [[[D2 rs] m2] evs2]. cbn [fst snd obind] in *. exists st2. split; [done|]. split; [exact (did_trans _ _ _ _ _ _ _ _ _ _ Hd1 Hd2)|]. by rewrite Z.add_assoc.
Qed.

Lemma start_abs others : abs server (db (start others)) (gset_to_gmap AOther others).
Proof using. intros k. cbn [start db]. rewrite !lookup_gset_to_gmap. by destruct (decide (k ∈ others)); [rewrite !option_guard_True|rewrite !option_guard_False]. Qed.

Lemma start_fits others : fits 0 (gset_to_gmap AOther others).
Proof using. split; intros k; [|unfold cur]; rewrite lookup_gset_to_gmap; by destruct (decide (k ∈ others)); [rewrite option_guard_True|rewrite option_guard_False]. Qed.
End Run.

(** C6: the list commands are right: a session of LPUSH, RPUSH, LPUSHX, RPUSHX, LINSERT,
    LLEN, LINDEX, LSET, LPOP, RPOP, LRANGE, LTRIM, LPOS, LREM, LMOVE, RPOPLPUSH, LMPOP and
    their blocking forms, with any arguments, on a database where other keys may have other
    types, gives the replies it gives on a map from keys to lists of strings, errors
    included, through both encodings and every conversion between them; it counts the same
    changes, leaves the same notifications and arguments for replication; and no key is left
    with an empty list.  How words, options and numbers are read is specified apart from the
    code.  The conditions: list-max-listpack-size is at least -4; one push has at most 32768
    values, of less than 2^62 bytes; fewer than 2^31 elements are added in all; an index of
    LSET fits an [int]; and the number of keys of LMPOP is below 2^63 - 3.  [list_faults]
    shows what happens beyond three of them. *)
Theorem list_commands getTimeout server fresh usable base htab others cs :
  machine usable base htab -> config_ok server -> Forall cmd_ok cs -> total_grown cs < 2 ^ 31 ->
  let '(D, rs, n, evs) := spec_run getTimeout (gset_to_gmap AOther others) cs in
  exists st, run getTimeout server fresh usable base htab (start others) cs = Ret (st, rs) /\
    dirty st = n /\ events st = evs /\ abs server (db st) D /\ no_empty D.
Proof.
  intros Hm Hconf Hok Hg. destruct (run_right getTimeout server fresh usable base htab Hm Hconf cs 0 (start others) (gset_to_gmap AOther others)) as (st & E & [H1 H2 H3] & Hf & _); [done|apply start_abs|apply start_fits|done|lia|].
  destruct (spec_run getTimeout (gset_to_gmap AOther others) cs) as [[[D rs] n] evs]. exists st. done.
Qed.

(** C7: after a session of list commands, one more returns, and if it changes what a key holds it
    signals that key, for WATCH and the caches of clients, and counts a change, so that it
    is replicated and logged.  The conditions are those of [list_commands] for the session
    and the command: list-max-listpack-size at least -4, at most 32768 values in one push,
    fewer than 2^31 elements added in all, an [int] index of LSET and a number of keys of
    LMPOP below 2^63 - 3. *)
Theorem list_commands_tell getTimeout server fresh usable base htab others cs c st rs :
  machine usable base htab -> config_ok server -> Forall cmd_ok (cs ++ [c]) -> total_grown (cs ++ [c]) < 2 ^ 31 ->
  run getTimeout server fresh usable base htab (start others) cs = Ret (st, rs) ->
  let D := fst (fst (fst (spec_run getTimeout (gset_to_gmap AOther others) cs))) in
  let D' := fst (fst (fst (spec getTimeout D c))) in
  exists st' r evs, exec getTimeout server fresh usable base htab st c = Ret (st', r) /\ abs server (db st) D /\ abs server (db st') D' /\
    events st' = events st ++ evs /\ forall k, D' !! k <> D !! k -> Signal k ∈ evs /\ dirty st < dirty st'.
Proof.
  intros Hm Hconf Hok Hg E D D'. assert (forall l, total_grown (l ++ [c]) = total_grown l + grown c) as Hsum by (induction l as [|d l IH]; cbn [total_grown app]; [lia|rewrite IH; lia]). rewrite Hsum in Hg. apply Forall_app in Hok as [Hok Hc]. apply Forall_cons in Hc as [Hc _]. assert (0 <= grown c) as Hg1 by (destruct c; cbn; lia).
  destruct (run_right getTimeout server fresh usable base htab Hm Hconf cs 0 (start others) (gset_to_gmap AOther others)) as (st1 & E1 & Hd & Hf); [done|apply start_abs|apply start_fits|done|lia|]. rewrite E1 in E. injection E as -> _. fold D in Hd, Hf. pose proof (total_grown_nonneg cs) as Hgs. rewrite Z.add_0_l in Hf.
  assert (bounded (2 ^ 31 - 1) D) as Hb by (intros k; pose proof (proj2 Hf k); lia). destruct (command_right getTimeout server fresh usable base htab (proj1 Hm) (proj2 Hm) Hconf D st c (did_abs _ _ _ _ _ _ Hd) (proj1 Hf) Hb Hc) as (st' & E' & [H1 H2 H3]). destruct (spec_fine getTimeout _ D c Hgs Hf Hc) as [_ Ht].
  eexists st', _, _. split; [exact E'|]. split; [apply Hd|]. split; [exact H1|]. split; [exact H3|]. intros k Hk. destruct (Ht k Hk). split; [done|lia].
Qed.

(** ** On inputs *)

Definition seconds (s : list Z) : option Z := string2ll s.
Definition server0 : config := Config 2 1.
Definition session0 : list cmd :=
  [CPush LIST_TAIL false (chars "k") (chars "a") (chars <$> ["b"; "a"; "c"]%string); CInsert (chars "k") (chars "Before") (chars "b") (chars "17"); CSet (chars "k") (chars "-1") QuicklistMain.big;
   CMove (chars "k") (chars "k") (chars "left") (chars "right"); CRange (chars "k") (chars "0") (chars "-1"); CRem (chars "k") (chars "-1") (chars "a"); CPos (chars "k") (chars "b") [chars "rank"; chars "-1"];
   CPush LIST_HEAD false (chars "other") (chars "a") []; CBPop false LIST_HEAD [chars "x"; chars "k"] (chars "3"); CTrim (chars "k") (chars "1") (chars "1"); CRpopLpush (chars "k") (chars "l");
   CBMPop false (chars "5") (chars "2") (chars <$> ["k"; "m"; "RIGHT"; "count"; "2"]%string); CMPop (chars "2") (chars <$> ["k"; "l"; "Right"; "COUNT"; "2"]%string); CLen (chars "l")].

Lemma plain_text (v : list Z) : forallb (fun c => (0 <=? c) && (c <? 256)) v = true -> Z.of_nat (length v) < 2 ^ 62 -> text_ok v.
Proof. intros H1 H2. split; [|done]. apply Forall_forall. intros c Hc. rewrite forallb_forall in H1. apply list_elem_of_In in Hc. specialize (H1 c Hc). unfold is_byte, in_u. lia. Qed.

Lemma session0_ok : Forall cmd_ok session0.
Proof.
  unfold session0. repeat (apply Forall_cons; split; [|]); cbn [cmd_ok]; try exact I; try (by apply plain_text).
  - split; [|by vm_compute]. repeat (apply Forall_cons; split; [by apply plain_text|]). constructor.
  - split; [by apply plain_text|]. intros i. assert (string2ll (chars "-1") = Some (-1)) as -> by (by vm_compute). intros [= <-]. unfold in_s. lia.
  - split; [|by vm_compute]. repeat (apply Forall_cons; split; [by apply plain_text|]). constructor.
  - intros n. assert (string2ll (chars "2") = Some 2) as -> by (by vm_compute). intros [= <-]. lia.
  - intros n. assert (string2ll (chars "2") = Some 2) as -> by (by vm_compute). intros [= <-]. lia.
  - constructor.
Qed.

Definition replies0 : list reply := snd (fst (fst (spec_run seconds (gset_to_gmap AOther {[chars "other"]}) session0))).

Example session0_replies : replies0 =
  [RLong 4; RLong 5; ROk; RBulk (chars "a"); bulks [chars "17"; chars "b"; chars "a"; QuicklistMain.big; chars "a"]; RLong 1; RLong 1; RWrongType; RArray 2 [RBulk (chars "k"); RBulk (chars "17")]; ROk;
   RBulk (chars "a"); RBlocked [chars "k"; chars "m"] 5; RArray 2 [RBulk (chars "l"); bulks [chars "a"]]; RLong 0].
Proof. vm_compute. reflexivity. Qed.

Lemma list_commands_witness : exists st D, run seconds server0 f0 u0 b0 h0 (start {[chars "other"]}) session0 = Ret (st, replies0) /\ dirty st = 13 /\ abs server0 (db st) D /\ no_empty D.
Proof.
  pose proof (list_commands seconds server0 f0 u0 b0 h0 {[chars "other"]} session0 machine0 ltac:(unfold config_ok; cbn; lia) session0_ok ltac:(by vm_compute)) as H.
  assert (snd (fst (spec_run seconds (gset_to_gmap AOther {[chars "other"]}) session0)) = 13) as En by (by vm_compute). unfold replies0. destruct (spec_run _ _ _) as [[[D rs] n] evs]. destruct H as (st & E & Hn & _ & Ha & Hne). exists st, D. cbn [fst snd] in *. split; [exact E|]. split; [by rewrite Hn|]. split; [exact Ha|exact Hne].
Defined.

(** The first command of the session, and LPUSH after it. *)
Definition state1 : state := match run seconds server0 f0 u0 b0 h0 (start ∅) [CPush LIST_TAIL false (chars "k") (chars "a") []] with Ret r => fst r | Abort => start ∅ end.

Lemma list_commands_tell_witness : exists st' r evs, exec seconds server0 f0 u0 b0 h0 state1 (CPush LIST_HEAD false (chars "k") (chars "b") []) = Ret (st', r) /\ events st' = events state1 ++ evs /\ Signal (chars "k") ∈ evs /\ dirty state1 < dirty st'.
Proof.
  assert (forall b, cmd_ok (CPush b false (chars "k") (chars "b") []) /\ cmd_ok (CPush b false (chars "k") (chars "a") [])) as Hok by (intros b; split; (split; [apply Forall_cons; split; [by apply plain_text|constructor]|by vm_compute])).
  destruct (list_commands_tell seconds server0 f0 u0 b0 h0 ∅ [CPush LIST_TAIL false (chars "k") (chars "a") []] (CPush LIST_HEAD false (chars "k") (chars "b") []) state1 [RLong 1] machine0 ltac:(unfold config_ok; cbn; lia)) as (st' & r & evs & E & _ & _ & Hev & Ht).
  - apply Forall_cons; split; [apply Hok|]. apply Forall_cons; split; [apply Hok|constructor].
  - by vm_compute.
  - by vm_compute.
  - exists st', r, evs. split; [exact E|]. split; [exact Hev|]. apply Ht. intros H. vm_compute in H. discriminate H.
Defined.

(** ** Where the types of C are too small *)

Abbreviation empty_elem := (elem_of_string []).








End TListMain.
